(* ===== verification/_CoqProject ===== *)
-Q . S2P
Prelude.v
Posix.v
Term.v
AuthStore.v
Icu.v
NativeMisc.v
Text.v
Varint.v
Hash.v
Numbers.v
Bitvec.v
RowSet.v
Utf.v
Complete.v
Like.v
WalIndex.v
WalLog.v
WalIter.v
WalCkpt.v
WalRead.v
WalWrite.v
Value.v
Records.v
BtreeCell.v
BtreePage.v
