(* ===== verification/Prelude.v ===== *)
(** * adou: verification of the native layer (root file)

    adou is a coding agent written in Nature, on top of C code in
    [src/native]: the terminal, credential-store, Unicode and small platform
    services, and SQLite (the amalgamation [native/sqlite3/sqlite3.c]), which
    keeps the sessions.  This library models the C services completely and,
    of SQLite, the parts every other part of it is built on, and proves that
    they do what they mean to do.

    ** Files and the code they model

    - [Prelude] (this file): machine integers, bounds-checked buffers, the
      option monad, the allocator oracle, a reflective procedure for equalities
      of shifts and masks, masks as arithmetic, decimal text.
    - [Posix]: results of system calls, error numbers and their laws.
    - [Term]: [native/term.c].  The state [terminal_state] and each function,
      over a kernel given by the class [TermOs].
    - [AuthStore]: [native/auth_store.c].  Locking and atomic replacement of
      the credentials, over a file system that logs after each call what other
      processes see and what a crash may leave, where all that was not
      synchronized may be lost.
    - [Icu]: [native/unicode_icu.c], over ICU as the class [IcuOs].
    - [NativeMisc]: [stdin_peek.c], [regex.c], [fs_watch.c],
      [clipboard_image.c], [process_group_helper.c].
    - [Text], [Numbers], [Varint]: the character tables and string routines of
      global.c and util.c; integers and their text, overflow-checked
      arithmetic, logarithmic estimates; variable-length integers.
    - [Utf]: utf.c, characters in UTF-8 and UTF-16 and the translation of a
      value between them.
    - [Hash]: hash.c, an explicit heap of linked elements.
    - [Bitvec]: bitvec.c, sets of page numbers in three representations.
    - [RowSet]: rowset.c, sets of row numbers as lists and forests of trees.
    - [Complete]: complete.c, the state machine behind [sqlite3_complete].
    - [Like]: func.c, the matching of LIKE and GLOB patterns.
    - [WalIndex], [WalLog], [WalIter], [WalCkpt], [WalRead], [WalWrite]: wal.c.  The index
      of the write-ahead log in shared memory; the frames of the log with
      their checksums, and recovery; the iterator over the pages of the log;
      checkpoints, and how a page is read while they run; read transactions,
      with their locks and marks; the writing of transactions.
    - [Value], [Records]: vdbemem.c, vdbeaux.c, main.c and the opcode
      [OP_MakeRecord] of vdbe.c.  The cells of the virtual machine, with
      doubles as their bits, and their comparison under a collation; rows and
      index entries as records: making, unpacking and comparing them.
    - [BtreeCell], [BtreePage]: btree.c, the page level of the B-tree.  The
      kinds of pages and the cells each holds; the space of one page: the
      array of cell pointers, the free blocks, the gap between them, and the
      operations that take and give back room in it.

    [AuthStore], [Term], [Icu] and [NativeMisc] rest on [Posix]; [Numbers],
    [Varint], [Hash], [Utf] and [Complete] use the tables of [Text] as the C
    code does, and [Like] reads characters with [Utf].  A cell of [Value] is one
    of [Utf] with its number; [Records] writes and reads with [Varint].  What a
    collation promises is the class [Value.TotalOrder].  [BtreeCell] reads the
    integers of a cell as [Varint] does, and [BtreePage] moves the cells of
    [BtreeCell].

    ** How the code is modelled

    A C integer is a [Z] with its wrap-around written ([u8] .. [i64]).  A
    buffer is a list of bytes with indices for pointers, or the list from the
    pointer on where it is only read forwards; an access outside it has no
    result, so that a theorem that a result exists is also one of memory
    safety.  [Hash] has a heap of elements with addresses, because its claims
    are about pointers; the lists and trees of [RowSet] are never shared and
    are values.  Calls that can fail for want of memory take a list of answers
    of the allocator.  While a connection begins to read or to write the
    write-ahead log, others write to the shared header of its index: the words
    they write before each look are a list, any words but those that the locks
    held protect ([WalLog.others_write]).  What is not under [src/] - the kernel, pthreads, ICU,
    the Objective-C runtime, libc - is a class whose laws say what its
    documentation states; each class has an executable instance on which the
    witnesses run.

    ** What is proved

    - [AuthStore]: at every instant other processes see, and a crash leaves,
      the old or the new credentials, complete, and after success the new ones;
      the result tells what happened on every path; locks and descriptors are
      released; the retry loops end.
    - [Term]: writes leave the descriptor's flags as they were and output a
      prefix of the buffer as long as the result; result codes tell the cases
      apart; whichever calls of the kernel fail, and though descriptors may
      share a terminal, a terminal is as it was or raw, and raw only under
      the active descriptor until its settings are lost by calls that are
      named; what is left behind when entering raw mode fails.
    - [Icu]: widths, boundaries, words and normal forms against their
      specification, in bounds and without leaks.
    - [NativeMisc]: results and released resources on every path.
    - [Varint], [Numbers], [Text], [Utf]: round trips, agreement of optimised
      routines with reference definitions, overflow checks, bounds on any
      input.
    - [Hash], [Bitvec], [RowSet]: refinement of finite maps and sets by the
      data structures, through their conversions, with failures of the
      allocator; balance; memory freed once.
    - [Complete]: on any text the state machine ends and accepts exactly the
      complete statements of a grammar, with no quote or comment left open.
    - [Like]: matching decides membership in the language of the pattern, on
      any bytes, with its early ends and its three ways to search.
    - [WalIndex]: the pages and hash tables of the index stand for the list
      of the frames' page numbers: adding, searching within a snapshot,
      rolling back.
    - [WalLog]: a log cut anywhere is recovered to the transactions whose
      commit is in it, none is lost and none seen in part; recovery of any
      bytes with any calls failing ends, gives its locks back and leaves an
      index and a header of the valid frames it found; frames and
      the header of the index read back as they were written.
    - [WalIter], [WalCkpt]: a checkpoint visits each page of the log once, with
      its last frame; readers see the same pages before and after it, in every
      mode, and its locks are given back; when it says it is done the database file is whole without the log.
    - [WalRead]: a read transaction begins or fails after bounded retries
      whatever others write meanwhile, with the mark locked that protects its
      snapshot.
    - [WalWrite]: the frames that a transaction appends, or writes over where
      it wrote before, say of each page what the caller gave, in a log that
      may have started over; the checksums are right from the first frame to
      the commit; a commit is published last, a call that fails leaves the
      published snapshot as it was; and of a transaction written in one call
      a crash leaves all or nothing, as far as the checksums can tell bytes
      that lay in the file before.  The bytes are those of [WalLog], the index that of
      [WalIndex], and the log starts over through [WalCkpt] and [WalRead].
    - [Value]: comparing an integer with a double is exact; comparing cells
      is a total order of values: null, numbers, text in the order of its
      collation, blobs with the zeros that follow them.  BINARY, RTRIM and
      NOCASE are such collations.
    - [Records]: a record reads back as the values it was made of; comparing
      it with a key gives the order of their columns, by the general routine
      and by the fast ones; the row of an index entry is found; damaged
      records are read within their padding and leave only values.
    - [BtreeCell]: the routine that measures a cell of any kind agrees with the
      one that takes it apart.
    - [BtreePage]: a page is the list of its cells.  Inserting, dropping,
      finding room, giving it back with its neighbours, defragmenting and
      loading the page again do to the bytes what they do to that list; no two
      cells share a byte, no byte is lost, and the free space the page
      remembers is the one in its bytes, after any sequence of operations.

    ** Fuel

    Structural recursion is used where the code allows it.  Loops over a
    buffer take its length; the probes of a bitmap's hash table its number of
    slots; the descent of a bitmap four levels, which hold every 32-bit size
    ([Bitvec.cap_levels]); the retry loops of [AuthStore] and [Term] the
    number of interruptions still to come; the matching of a pattern its
    length; the loops of recovery run over counts the code computes first; a
    merge takes the two lengths and a checkpoint the number of frames; the
    retries of a read transaction are the hundred the code allows; the loops
    over the free blocks of a page take the bytes of the page, since each block
    lies four bytes after the one before at least; the padding
    of a transaction takes the bytes to the end of the sector; and
    theorems say that this is enough.  Every theorem about a function with
    fuel says that it has a result.

    ** Not modelled

    The Nature code; the rest of SQLite (pager, virtual machine, code
    generator, full-text search and other extensions, and of the B-tree what
    goes from page to page: cursors, balancing, overflow chains, the list of
    free pages and the pointer map, whose answers are arguments of the
    insertion of a cell); of wal.c the opening
    and closing of a connection, which is file handling, and the handlers of
    access violations, which other systems have; in the parts modelled, the self-tests, tracing code, the wrappers [sqlite3Utf16to8] and
    [sqlite3_complete16], which only convert their argument with the value
    routines, and the SQL function [likeFunc].  Of floating point there
    is the comparison of doubles and the conversion from and to integers; the
    conversion from and to text is left out, and with it the cells that are
    turned into text and the affinities that [OP_MakeRecord] may apply first.
    The B-tree that hands out index entries is an argument of the routines that
    fetch one.  The
    build is that of a little-endian 64-bit machine with SQLite's default
    options. *)

From stdpp Require Export base option list numbers gmap strings.
From Stdlib Require Export ZArith Lia Bool.

#[global] Open Scope Z_scope.

(** ** Machine integers.  A w-bit unsigned integer is a [Z] in [0, 2^w); a
    w-bit signed one is a [Z] in [-2^(w-1), 2^(w-1)).  [uN] is the
    conversion C performs when a value is stored in an unsigned type, [iN]
    the (two's complement) one for a signed type. *)

Definition u8 (x : Z) : Z := x `mod` 256.
Definition u16 (x : Z) : Z := x `mod` 65536.
Definition u32 (x : Z) : Z := x `mod` 4294967296.
Definition u64 (x : Z) : Z := x `mod` 18446744073709551616.
Definition i8 (x : Z) : Z := (x + 128) `mod` 256 - 128.
Definition i32 (x : Z) : Z := (x + 2147483648) `mod` 4294967296 - 2147483648.
Definition i64 (x : Z) : Z :=
  (x + 9223372036854775808) `mod` 18446744073709551616 - 9223372036854775808.

Definition is_u8 (x : Z) : Prop := 0 ≤ x < 256.
Definition is_u32 (x : Z) : Prop := 0 ≤ x < 4294967296.
Definition is_u64 (x : Z) : Prop := 0 ≤ x < 18446744073709551616.
Definition is_i32 (x : Z) : Prop := -2147483648 ≤ x < 2147483648.
Definition is_i64 (x : Z) : Prop :=
  -9223372036854775808 ≤ x < 9223372036854775808.

#[global] Instance is_u8_dec x : Decision (is_u8 x).
Proof. unfold is_u8. apply _. Defined.
#[global] Instance is_u32_dec x : Decision (is_u32 x).
Proof. unfold is_u32. apply _. Defined.
#[global] Instance is_u64_dec x : Decision (is_u64 x).
Proof. unfold is_u64. apply _. Defined.
#[global] Instance is_i32_dec x : Decision (is_i32 x).
Proof. unfold is_i32. apply _. Defined.
#[global] Instance is_i64_dec x : Decision (is_i64 x).
Proof. unfold is_i64. apply _. Defined.

(** ** Memory.  A C buffer is the list of its cells; [rd m i] reads cell
    [m[i]] and [wr m i v] stores to it.  Both are [None] outside the buffer:
    an out-of-bounds access has no behaviour. *)

Definition bytes : Type := list Z.

Definition rd {A} (m : list A) (i : Z) : option A :=
  if decide (0 ≤ i) then m !! Z.to_nat i else None.

Definition wr {A} (m : list A) (i : Z) (v : A) : option (list A) :=
  if decide (0 ≤ i < Z.of_nat (length m)) then Some (<[Z.to_nat i := v]> m) else None.

Definition is_bytes (m : bytes) : Prop := Forall is_u8 m.

(** [sub m i n] is the slice [m[i .. i+n)], [None] unless it is inside [m]. *)
Definition sub {A} (m : list A) (i n : Z) : option (list A) :=
  if decide (0 ≤ i ∧ 0 ≤ n ∧ i + n ≤ Z.of_nat (length m))
  then Some (take (Z.to_nat n) (drop (Z.to_nat i) m)) else None.

(** [splice m i d] overwrites [m[i .. i+|d|)] with [d] ([memcpy]). *)
Definition splice {A} (m : list A) (i : Z) (d : list A) : option (list A) :=
  if decide (0 ≤ i ∧ i + Z.of_nat (length d) ≤ Z.of_nat (length m))
  then Some (take (Z.to_nat i) m ++ d ++ drop (Z.to_nat i + length d) m) else None.

(** Update of a function at a key. *)
Definition upd {K A} `{EqDecision K} (f : K → A) (k : K) (v : A) : K → A :=
  λ i, if decide (i = k) then v else f i.

Declare Scope adou_scope.
Delimit Scope adou_scope with adou.

Notation "'let*' x := e1 'in' e2" := (match e1 with Some x => e2 | None => None end)
  (at level 10, x pattern, e1 at level 200, e2 at level 200) : adou_scope.

#[global] Open Scope adou_scope.

(** ** A reflective decision procedure for equalities between expressions
    built from variables of known width with shifts, constant masks, [lor]
    and truncation: each bit of such an expression is a disjunction of bits
    of the variables (or the constant [true]), and two expressions are equal
    when these disjunctions are the same at every bit position. *)
Module Bits.

Inductive bx : Type :=
| BVar (n : nat) (w : Z)
| BConst (c : Z)
| BShl (e : bx) (k : Z)
| BShr (e : bx) (k : Z)
| BMask (e : bx) (m : Z)
| BOr (e1 e2 : bx)
| BMod (e : bx) (w : Z).

Fixpoint eval (env : nat → Z) (e : bx) : Z :=
  match e with
  | BVar n _ => env n
  | BConst c => c
  | BShl e k => Z.shiftl (eval env e) k
  | BShr e k => Z.shiftr (eval env e) k
  | BMask e m => Z.land (eval env e) m
  | BOr e1 e2 => Z.lor (eval env e1) (eval env e2)
  | BMod e w => eval env e `mod` 2 ^ w
  end.

(** The assumptions on the variables of an expression. *)
Fixpoint ok (env : nat → Z) (e : bx) : Prop :=
  match e with
  | BVar n w => 0 ≤ env n < 2 ^ w ∧ 0 ≤ w
  | BConst c => 0 ≤ c
  | BShl e k | BShr e k => ok env e ∧ 0 ≤ k
  | BMask e m => ok env e ∧ 0 ≤ m
  | BOr e1 e2 => ok env e1 ∧ ok env e2
  | BMod e w => ok env e ∧ 0 ≤ w
  end.

(** A bit: [None] is [true], [Some l] the disjunction of the variable bits in [l]. *)
Definition bit : Type := option (list (nat * Z)).

Fixpoint bit_of (e : bx) (i : Z) : bit :=
  match e with
  | BVar n w => if i <? w then Some [(n, i)] else Some []
  | BConst c => if Z.testbit c i then None else Some []
  | BShl e k => if i <? k then Some [] else bit_of e (i - k)
  | BShr e k => bit_of e (i + k)
  | BMask e m => if Z.testbit m i then bit_of e i else Some []
  | BOr e1 e2 =>
      match bit_of e1 i, bit_of e2 i with
      | Some l1, Some l2 => Some (l1 ++ l2)
      | _, _ => None
      end
  | BMod e w => if i <? w then bit_of e i else Some []
  end.

Definition eval_bit (env : nat → Z) (b : bit) : bool :=
  match b with
  | None => true
  | Some l => existsb (λ '(n, i), Z.testbit (env n) i) l
  end.

Definition sub_bits (l1 l2 : list (nat * Z)) : bool :=
  forallb (λ '(n, i), existsb (λ '(m, j), Nat.eqb n m && (i =? j)) l2) l1.

Definition same_bit (b1 b2 : bit) : bool :=
  match b1, b2 with
  | None, None => true
  | Some l1, Some l2 => sub_bits l1 l2 && sub_bits l2 l1
  | _, _ => false
  end.

(** Every bit at or above [width e] is clear. *)
Fixpoint width (e : bx) : Z :=
  match e with
  | BVar _ w => w
  | BConst c => Z.log2 c + 1
  | BShl e k => width e + k
  | BShr e k => Z.max 0 (width e - k)
  | BMask e m => Z.min (width e) (Z.log2 m + 1)
  | BOr e1 e2 => Z.max (width e1) (width e2)
  | BMod e w => Z.min (width e) w
  end.

Definition check (e1 e2 : bx) : bool :=
  forallb (λ i, same_bit (bit_of e1 (Z.of_nat i)) (bit_of e2 (Z.of_nat i)))
    (seq 0 (Z.to_nat (Z.max (width e1) (width e2)))).

Lemma testbit_high x w i : 0 ≤ x < 2 ^ w → 0 ≤ w ≤ i → Z.testbit x i = false.
Proof.
  intros Hx Hi. rewrite <- (Z.mod_small x (2 ^ w)) by done.
  apply Z.mod_pow2_bits_high. lia.
Qed.

Lemma eval_nonneg env e : ok env e → 0 ≤ eval env e.
Proof.
  induction e as [n w|c|e IH k|e IH k|e IH m|e1 IH1 e2 IH2|e IH w]; simpl; intros H.
  - lia.
  - lia.
  - apply Z.shiftl_nonneg. tauto.
  - apply Z.shiftr_nonneg. tauto.
  - apply Z.land_nonneg. right. tauto.
  - apply Z.lor_nonneg. tauto.
  - apply Z.mod_pos_bound. apply Z.pow_pos_nonneg; lia.
Qed.

Lemma bit_of_spec env e : ok env e → ∀ i, 0 ≤ i →
  Z.testbit (eval env e) i = eval_bit env (bit_of e i).
Proof.
  induction e as [n w|c|e IH k|e IH k|e IH m|e1 IH1 e2 IH2|e IH w]; simpl; intros H i Hi.
  - destruct (Z.ltb_spec i w); simpl; [by rewrite orb_false_r|].
    apply (testbit_high _ w); lia.
  - destruct (Z.testbit c i) eqn:E; simpl; done.
  - rewrite Z.shiftl_spec by lia. destruct (Z.ltb_spec i k).
    + simpl. apply Z.testbit_neg_r. lia.
    + apply IH; [tauto|lia].
  - rewrite Z.shiftr_spec by lia. apply IH; [tauto|lia].
  - rewrite Z.land_spec. destruct (Z.testbit m i); simpl.
    + rewrite andb_true_r. apply IH; [tauto|lia].
    + by rewrite andb_false_r.
  - rewrite Z.lor_spec, IH1, IH2 by tauto.
    destruct (bit_of e1 i), (bit_of e2 i); simpl; try done.
    + symmetry. apply existsb_app.
    + by rewrite orb_true_r.
  - destruct (Z.ltb_spec i w).
    + rewrite Z.mod_pow2_bits_low by lia. apply IH; [tauto|lia].
    + rewrite Z.mod_pow2_bits_high by lia. done.
Qed.

Lemma log2_lt_pow c : 0 ≤ c → c < 2 ^ (Z.log2 c + 1).
Proof.
  intros Hc. destruct (decide (c = 0)) as [->|].
  - simpl. lia.
  - destruct (Z.log2_spec c); [lia|]. by rewrite Z.add_1_r.
Qed.

Lemma width_nonneg env e : ok env e → 0 ≤ width e.
Proof.
  induction e as [n w|c|e IH k|e IH k|e IH m|e1 IH1 e2 IH2|e IH w]; simpl; intros H.
  - lia.
  - pose proof (Z.log2_nonneg c). lia.
  - destruct H as [H ?]. specialize (IH H). lia.
  - lia.
  - destruct H as [H ?]. specialize (IH H). pose proof (Z.log2_nonneg m). lia.
  - destruct H as [H ?]. specialize (IH1 H). lia.
  - destruct H as [H ?]. specialize (IH H). lia.
Qed.

Lemma width_spec env e : ok env e → ∀ i, width e ≤ i → Z.testbit (eval env e) i = false.
Proof.
  induction e as [n w|c|e IH k|e IH k|e IH m|e1 IH1 e2 IH2|e IH w]; simpl; intros H i Hi.
  - apply (testbit_high _ w); lia.
  - apply (testbit_high _ (Z.log2 c + 1)).
    + split; [lia|by apply log2_lt_pow].
    + pose proof (Z.log2_nonneg c). lia.
  - destruct H as [H ?]. pose proof (width_nonneg _ _ H).
    rewrite Z.shiftl_spec by lia. apply IH; [done|lia].
  - destruct H as [H ?]. rewrite Z.shiftr_spec by lia. apply IH; [done|lia].
  - destruct H as [H ?]. pose proof (width_nonneg _ _ H). pose proof (Z.log2_nonneg m).
    rewrite Z.land_spec.
    destruct (Z.min_spec (width e) (Z.log2 m + 1)) as [[? Hm]|[? Hm]]; rewrite Hm in Hi.
    + by rewrite IH.
    + rewrite (testbit_high m (Z.log2 m + 1)); [by rewrite andb_false_r| |lia].
      split; [lia|by apply log2_lt_pow].
  - rewrite Z.lor_spec, IH1, IH2; [done|tauto|lia|tauto|lia].
  - destruct H as [H ?]. pose proof (width_nonneg _ _ H).
    destruct (Z.lt_ge_cases i w).
    + rewrite Z.mod_pow2_bits_low by lia. apply IH; [done|lia].
    + by rewrite Z.mod_pow2_bits_high by lia.
Qed.

Lemma sub_bits_spec env l1 l2 : sub_bits l1 l2 = true →
  eval_bit env (Some l1) = true → eval_bit env (Some l2) = true.
Proof.
  unfold sub_bits. simpl. rewrite forallb_forall, !existsb_exists.
  intros Hs ([n i] & Hin & Ht). specialize (Hs _ Hin). simpl in Hs.
  rewrite existsb_exists in Hs. destruct Hs as ([m j] & Hin2 & He).
  apply andb_true_iff in He as [->%Nat.eqb_eq ->%Z.eqb_eq]. by exists (m, j).
Qed.

Lemma same_bit_spec env b1 b2 : same_bit b1 b2 = true → eval_bit env b1 = eval_bit env b2.
Proof.
  destruct b1 as [l1|], b2 as [l2|]; simpl; try done.
  intros [H1 H2]%andb_true_iff. apply eq_true_iff_eq. split; by apply sub_bits_spec.
Qed.

Lemma check_sound env e1 e2 :
  ok env e1 → ok env e2 → check e1 e2 = true → eval env e1 = eval env e2.
Proof.
  intros H1 H2 Hc. apply Z.bits_inj'. intros i Hi.
  destruct (Z.lt_ge_cases i (Z.max (width e1) (width e2))).
  - rewrite !bit_of_spec by done. apply same_bit_spec.
    unfold check in Hc. rewrite forallb_forall in Hc.
    specialize (Hc (Z.to_nat i)). rewrite Z2Nat.id in Hc by done.
    apply Hc, in_seq. lia.
  - rewrite !width_spec by (done || lia). done.
Qed.

(** Reification: the variables of a goal are given as a list of (term, width). *)
Ltac index_of x vs :=
  lazymatch vs with
  | (x, ?w) :: _ => constr:((O, w))
  | _ :: ?vs' => lazymatch index_of x vs' with (?n, ?w) => constr:((S n, w)) end
  end.

Ltac reify vs e :=
  lazymatch e with
  | Z.shiftl ?a ?k => let a' := reify vs a in constr:(BShl a' k)
  | Z.shiftr ?a ?k => let a' := reify vs a in constr:(BShr a' k)
  | Z.land ?a ?m => let a' := reify vs a in constr:(BMask a' m)
  | Z.lor ?a ?b => let a' := reify vs a in let b' := reify vs b in constr:(BOr a' b')
  | u8 ?a => let a' := reify vs a in constr:(BMod a' 8)
  | u16 ?a => let a' := reify vs a in constr:(BMod a' 16)
  | u32 ?a => let a' := reify vs a in constr:(BMod a' 32)
  | u64 ?a => let a' := reify vs a in constr:(BMod a' 64)
  | Z0 => constr:(BConst 0)
  | Zpos ?p => constr:(BConst (Zpos p))
  | _ => lazymatch index_of e vs with (?n, ?w) => constr:(BVar n w) end
  end.

Ltac env_of vs :=
  lazymatch vs with
  | nil => constr:(λ _ : nat, 0)
  | (?x, _) :: ?vs' =>
      let f := env_of vs' in
      constr:(λ n : nat, match n with O => x | S n' => f n' end)
  end.

(** [decide_bits vs] proves [e1 = e2]; the bounds of the variables in [vs]
    must be in the context in a form [lia] sees. *)
Ltac decide_bits vs :=
  lazymatch goal with
  | |- ?a = ?b =>
      let a' := reify vs a in
      let b' := reify vs b in
      let f := env_of vs in
      let f := eval cbv beta in f in
      change (eval f a' = eval f b');
      apply check_sound;
        [cbn [ok]; repeat split; first [lia | vm_compute; discriminate]
        |cbn [ok]; repeat split; first [lia | vm_compute; discriminate]
        |vm_compute; reflexivity]
  end.

End Bits.

(** ** Bit arithmetic *)

Lemma lor_add a b k : 0 ≤ k → 0 ≤ b < 2 ^ k →
  Z.lor (Z.shiftl a k) b = a * 2 ^ k + b.
Proof.
  intros Hk Hb.
  assert (Z.land (Z.shiftl a k) b = 0) as E.
  { apply Z.bits_inj'. intros i Hi. rewrite Z.land_spec, Z.bits_0.
    destruct (Z.lt_ge_cases i k).
    - by rewrite Z.shiftl_spec_low.
    - rewrite (Bits.testbit_high b k) by lia. by rewrite andb_false_r. }
  rewrite <- Z.lxor_lor, <- Z.add_nocarry_lxor by done. by rewrite Z.shiftl_mul_pow2.
Qed.

Lemma land_ones_bound x k : 0 ≤ k → 0 ≤ Z.land x (Z.ones k) < 2 ^ k.
Proof. intros. rewrite Z.land_ones by done. apply Z.mod_pos_bound. by apply Z.pow_pos_nonneg. Qed.

Lemma land_7f_bound x : 0 ≤ Z.land x 0x7f < 128.
Proof. apply (land_ones_bound x 7). lia. Qed.

(** ** Reading and writing buffers *)
Section memory.
Context {A : Type}.
Implicit Types (m d l : list A) (i n : Z) (x v : A).

Lemma rd_Some m i x :
  rd m i = Some x ↔ 0 ≤ i ∧ m !! Z.to_nat i = Some x.
Proof. unfold rd. case_decide; [tauto|]. split; [done|lia]. Qed.

Lemma rd_is_Some m i : 0 ≤ i < Z.of_nat (length m) → is_Some (rd m i).
Proof.
  intros H. unfold rd. rewrite decide_True by lia. apply lookup_lt_is_Some. lia.
Qed.

Lemma rd_lt m i x : rd m i = Some x → 0 ≤ i < Z.of_nat (length m).
Proof. intros [? ?%lookup_lt_Some]%rd_Some. lia. Qed.

Lemma wr_Some m i v :
  0 ≤ i < Z.of_nat (length m) → wr m i v = Some (<[Z.to_nat i := v]> m).
Proof. intros. unfold wr. by rewrite decide_True. Qed.

Lemma rd_wr_eq m m' i v : wr m i v = Some m' → rd m' i = Some v.
Proof.
  unfold wr, rd. case_decide; intros; simplify_eq. rewrite decide_True by lia.
  apply list_lookup_insert_eq. lia.
Qed.

Lemma rd_wr_ne m m' i j v : wr m i v = Some m' → i ≠ j → rd m' j = rd m j.
Proof.
  unfold wr, rd. case_decide; intros; simplify_eq. case_decide; [|done].
  apply list_lookup_insert_ne. lia.
Qed.

Lemma wr_length m m' i v : wr m i v = Some m' → length m' = length m.
Proof. unfold wr. case_decide; intros; simplify_eq. apply length_insert. Qed.

Lemma rd_0 x l : rd (x :: l) 0 = Some x.
Proof. done. Qed.

Lemma wr_0 x l v : wr (x :: l) 0 v = Some (v :: l).
Proof. rewrite wr_Some by (simpl; lia). done. Qed.

Lemma rd_app_r m x l : rd (m ++ x :: l) (Z.of_nat (length m)) = Some x.
Proof.
  unfold rd. rewrite decide_True, Nat2Z.id by lia. by apply list_lookup_middle.
Qed.

Lemma rd_app_l m l i : i < Z.of_nat (length m) → rd (m ++ l) i = rd m i.
Proof. intros. unfold rd. case_decide; [|done]. apply lookup_app_l. lia. Qed.

Lemma wr_app_r m x l v :
  wr (m ++ x :: l) (Z.of_nat (length m)) v = Some (m ++ v :: l).
Proof.
  rewrite wr_Some by (rewrite length_app; simpl; lia).
  f_equal. rewrite Nat2Z.id, <- (Nat.add_0_r (length m)). by rewrite insert_app_r.
Qed.

Lemma splice_length m i d m' : splice m i d = Some m' → length m' = length m.
Proof.
  unfold splice. case_decide; intros; simplify_eq.
  rewrite !length_app, length_take, length_drop. lia.
Qed.
End memory.

(** ** Function update *)
Section update.
Context {K A : Type} `{EqDecision K}.
Implicit Types (f : K → A) (k i : K) (v : A).

Lemma upd_eq f k v : upd f k v k = v.
Proof. unfold upd. by rewrite decide_True. Qed.

Lemma upd_ne f k v i : i ≠ k → upd f k v i = f i.
Proof. intros. unfold upd. by rewrite decide_False. Qed.

Lemma upd_restore f k v i : upd (upd f k v) k (f k) i = f i.
Proof. unfold upd. case_decide; naive_solver. Qed.

Lemma upd_same f k v i : f k = v → upd f k v i = f i.
Proof. unfold upd. case_decide; naive_solver. Qed.
End update.

(** ** Wrap-around arithmetic *)

Lemma u8_id x : is_u8 x → u8 x = x.
Proof. apply Z.mod_small. Qed.
Lemma u32_id x : is_u32 x → u32 x = x.
Proof. apply Z.mod_small. Qed.
Lemma u64_id x : is_u64 x → u64 x = x.
Proof. apply Z.mod_small. Qed.
Lemma i32_id x : is_i32 x → i32 x = x.
Proof. unfold is_i32, i32. intros. rewrite Z.mod_small; lia. Qed.
Lemma i64_id x : is_i64 x → i64 x = x.
Proof. unfold is_i64, i64. intros. rewrite Z.mod_small; lia. Qed.

Lemma is_u8_u8 x : is_u8 (u8 x).
Proof. apply Z.mod_pos_bound. lia. Qed.
Lemma is_u32_u32 x : is_u32 (u32 x).
Proof. apply Z.mod_pos_bound. lia. Qed.
Lemma is_u64_u64 x : is_u64 (u64 x).
Proof. apply Z.mod_pos_bound. lia. Qed.
Lemma is_i32_i32 x : is_i32 (i32 x).
Proof. unfold is_i32, i32. pose proof (Z.mod_pos_bound (x + 2147483648) 4294967296). lia. Qed.
Lemma is_i64_i64 x : is_i64 (i64 x).
Proof.
  unfold is_i64, i64.
  pose proof (Z.mod_pos_bound (x + 9223372036854775808) 18446744073709551616). lia.
Qed.

Create HintDb adou discriminated.
#[export] Hint Resolve is_u8_u8 is_u32_u32 is_u64_u64 is_i32_i32 is_i64_i64 : adou.
#[export] Hint Resolve rd_Some rd_is_Some : adou.

(** Unfold the widths, then linear arithmetic. *)
Ltac width := unfold is_u8, is_u32, is_u64, is_i32, is_i64 in *; lia.

(** Drop conversions to a type that holds their argument. *)
Ltac unwrap :=
  repeat match goal with
  | |- context [u8 ?x] => rewrite (u8_id x) by width
  | |- context [u32 ?x] => rewrite (u32_id x) by width
  | |- context [u64 ?x] => rewrite (u64_id x) by width
  | |- context [i32 ?x] => rewrite (i32_id x) by width
  | |- context [i64 ?x] => rewrite (i64_id x) by width
  end.

(** ** Decimal text *)

(** The decimal digits of [n], most significant first; [fuel] bounds their number. *)
Fixpoint decimal (fuel : nat) (n : Z) : bytes :=
  match fuel with
  | O => []
  | S fuel => if n <? 10 then [48 + n] else decimal fuel (n `div` 10) ++ [48 + n `mod` 10]
  end.

Lemma decimal_length fuel n : (length (decimal fuel n) ≤ fuel)%nat.
Proof.
  revert n. induction fuel as [|fuel IH]; intros n; simpl; [lia|].
  case_match; simpl; [lia|]. rewrite length_app. simpl. specialize (IH (n `div` 10)). lia.
Qed.

Fixpoint undecimal (l : bytes) (acc : Z) : Z :=
  match l with [] => acc | d :: l => undecimal l (10 * acc + (d - 48)) end.

Lemma undecimal_app l1 l2 acc : undecimal (l1 ++ l2) acc = undecimal l2 (undecimal l1 acc).
Proof. revert acc. induction l1; intros acc; simpl; auto. Qed.

Lemma undecimal_decimal fuel n : 0 ≤ n < 10 ^ Z.of_nat fuel → undecimal (decimal fuel n) 0 = n.
Proof.
  revert n. induction fuel as [|fuel IH]; intros n Hn; simpl in *; [lia|].
  destruct (Z.ltb_spec n 10); [simpl; lia|].
  rewrite undecimal_app, IH.
  - cbn [undecimal]. pose proof (Z.div_mod n 10 ltac:(lia)). lia.
  - replace (Z.of_nat (S fuel)) with (Z.succ (Z.of_nat fuel)) in Hn by lia.
    rewrite Z.pow_succ_r in Hn by lia.
    split; [apply Z.div_pos; lia|apply Z.div_lt_upper_bound; lia].
Qed.

Lemma decimal_digits fuel n : 0 ≤ n → Forall (λ d, 48 ≤ d < 58) (decimal fuel n).
Proof.
  revert n. induction fuel as [|fuel IH]; intros n Hn; simpl; [constructor|].
  destruct (Z.ltb_spec n 10); [constructor; [lia|constructor]|].
  apply Forall_app. split; [apply IH; apply Z.div_pos; lia|].
  constructor; [|constructor]. pose proof (Z.mod_pos_bound n 10). lia.
Qed.

(** No more digits than needed. *)
Lemma decimal_short k fuel n : 0 ≤ n < 10 ^ Z.of_nat k → (0 < k)%nat → (length (decimal fuel n) ≤ k)%nat.
Proof.
  revert fuel n. induction k as [|k IH]; intros [|fuel] n Hn Hk; cbn [decimal length]; try lia.
  destruct (Z.ltb_spec n 10); [simpl; lia|].
  rewrite length_app. cbn [length].
  rewrite Nat2Z.inj_succ, Z.pow_succ_r in Hn by lia. destruct k as [|k]; [simpl in Hn; lia|].
  pose proof (IH fuel (n `div` 10)
    ltac:(split; [apply Z.div_pos; lia|apply Z.div_lt_upper_bound; lia]) ltac:(lia)). lia.
Qed.

Lemma decimal_nonempty fuel n : (0 < fuel)%nat → decimal fuel n ≠ [].
Proof. destruct fuel; [lia|]. intros _. simpl. case_match; [done|]. by destruct (decimal _ _). Qed.

(** The value of a digit string grows with its length. *)
Lemma undecimal_bounds l acc : Forall (λ d, 48 ≤ d < 58) l → 0 ≤ acc →
  acc * 10 ^ Z.of_nat (length l) ≤ undecimal l acc < (acc + 1) * 10 ^ Z.of_nat (length l).
Proof.
  revert acc. induction l as [|d l IH]; intros acc Hl Ha; cbn [undecimal length]; [simpl; lia|].
  apply Forall_cons in Hl as [Hd Hl]. specialize (IH (10 * acc + (d - 48)) Hl ltac:(lia)).
  rewrite Nat2Z.inj_succ, Z.pow_succ_r by lia.
  set (q := 10 ^ Z.of_nat (length l)) in *. assert (0 < q) by (apply Z.pow_pos_nonneg; lia). nia.
Qed.

(** Testing a mask of one bit. *)
Lemma land_pow2_eqb u k : 0 ≤ k → (Z.land u (2 ^ k) =? 0) = negb (Z.testbit u k).
Proof.
  intros Hk. destruct (Z.testbit u k) eqn:E; cbn [negb].
  - apply Z.eqb_neq. intros H. apply (f_equal (λ x, Z.testbit x k)) in H.
    by rewrite Z.land_spec, E, Z.pow2_bits_true, Z.bits_0 in H.
  - apply Z.eqb_eq, Z.bits_inj'. intros i Hi. rewrite Z.land_spec, Z.bits_0.
    destruct (Z.eq_dec k i) as [<-|]; [by rewrite E|]. by rewrite Z.pow2_bits_false, andb_false_r.
Qed.

(** The least number with a decidable property. *)
Lemma least_nat (P : nat → Prop) `{∀ n, Decision (P n)} k : P k →
  ∃ d, (d ≤ k)%nat ∧ P d ∧ ∀ e, (e < d)%nat → ¬ P e.
Proof.
  revert P H. induction k as [|k IH]; intros P HP Hk.
  - exists O. split; [done|]. split; [done|]. lia.
  - destruct (decide (P O)) as [H0|H0].
    + exists O. split; [lia|]. split; [done|]. lia.
    + destruct (IH (λ n, P (S n)) _ Hk) as (d & Hd & HPd & Hmin).
      exists (S d). split; [lia|]. split; [done|]. intros [|e] He; [done|]. apply Hmin. lia.
Qed.

(** ** Allocation

    Whether the next calls of the allocator succeed; after those, they do. *)
Definition alloc (m : list bool) : bool * list bool :=
  match m with [] => (true, []) | b :: m => (b, m) end.

Definition no_failure (m : list bool) : Prop := Forall (λ b, b = true) m.

Lemma alloc_ok m ok m' : alloc m = (ok, m') → no_failure m → ok = true ∧ no_failure m'.
Proof. destruct m as [|b m]; simpl; intros [= <- <-]; [done|]. by intros ?%Forall_cons. Qed.

(** ** Masks as arithmetic *)

Lemma land_mask v k m : 0 ≤ k → 0 ≤ m →
  Z.land v (Z.shiftl (Z.ones m) k) = ((v `div` 2 ^ k) `mod` 2 ^ m) * 2 ^ k.
Proof.
  intros Hk Hm. rewrite <- Z.shiftr_div_pow2, <- Z.land_ones, <- Z.shiftl_mul_pow2 by done.
  apply Z.bits_inj'. intros i Hi. rewrite Z.land_spec.
  destruct (Z.le_gt_cases k i) as [H|H].
  - by rewrite !Z.shiftl_spec, Z.land_spec, Z.shiftr_spec, Z.sub_add by lia.
  - rewrite !Z.shiftl_spec_low by lia. apply andb_false_r.
Qed.

Lemma land_c0 b : Z.land b 0xc0 = (b `div` 64) `mod` 4 * 64.
Proof. apply (land_mask b 6 2); done. Qed.
Lemma land_3c0 b : Z.land b 0x03c0 = (b `div` 64) `mod` 16 * 64.
Proof. apply (land_mask b 6 4); done. Qed.
Lemma land_f800 b : Z.land b 0xfffff800 = (b `div` 2048) `mod` 2097152 * 2048.
Proof. apply (land_mask b 11 21); done. Qed.
Lemma land_fffe b : Z.land b 0xfffffffe = (b `div` 2) `mod` 2147483648 * 2.
Proof. apply (land_mask b 1 31); done. Qed.
Lemma land_low b k m : 0 ≤ k → m = Z.ones k → Z.land b m = b `mod` 2 ^ k.
Proof. intros ? ->. by apply Z.land_ones. Qed.
Lemma land_3f b : Z.land b 0x3f = b `mod` 64.
Proof. apply (land_low b 6); done. Qed.
Lemma land_3f_l b : Z.land 0x3f b = b `mod` 64.
Proof. rewrite Z.land_comm. apply land_3f. Qed.
Lemma land_1f b : Z.land b 0x1f = b `mod` 32.
Proof. apply (land_low b 5); done. Qed.
Lemma land_0f b : Z.land b 0x0f = b `mod` 16.
Proof. apply (land_low b 4); done. Qed.
Lemma land_07 b : Z.land b 0x07 = b `mod` 8.
Proof. apply (land_low b 3); done. Qed.
Lemma land_03 b : Z.land b 0x03 = b `mod` 4.
Proof. apply (land_low b 2); done. Qed.
Lemma land_ff b : Z.land b 0xff = b `mod` 256.
Proof. apply (land_low b 8); done. Qed.
Lemma land_3ff b : Z.land b 0x03ff = b `mod` 1024.
Proof. apply (land_low b 10); done. Qed.

Lemma land_even x : Z.land x (-2) = x - x `mod` 2.
Proof.
  change (-2) with (Z.lnot 1). rewrite <- Z.ldiff_land. change 1 with (Z.ones 1).
  rewrite Z.ldiff_ones_r, Z.shiftl_mul_pow2, Z.shiftr_div_pow2 by lia.
  change (2 ^ 1) with 2. pose proof (Z.div_mod x 2 ltac:(lia)). lia.
Qed.

Ltac arith :=
  rewrite ?land_c0, ?land_3c0, ?land_f800, ?land_fffe, ?land_3f, ?land_3f_l, ?land_1f, ?land_0f, ?land_07,
    ?land_03, ?land_ff, ?land_3ff, ?Z.shiftr_div_pow2, ?Z.shiftl_mul_pow2 by lia;
  change (2 ^ 6) with 64; change (2 ^ 8) with 256; change (2 ^ 10) with 1024; change (2 ^ 12) with 4096;
  change (2 ^ 18) with 262144.

Ltac dm := Z.div_mod_to_equations; lia.

Ltac bytes_eq := repeat (apply (f_equal2 cons); [dm|]); reflexivity.

(** ** Ranges of a buffer *)

Lemma sub_all {A} (l : list A) n : n = Z.of_nat (length l) → sub l 0 n = Some l.
Proof. intros ->. unfold sub. rewrite decide_True by lia. rewrite Nat2Z.id. by rewrite drop_0, take_ge. Qed.

Lemma sub_take {A} (l : list A) (i n : nat) : (i + n ≤ length l)%nat → sub l (Z.of_nat i) (Z.of_nat n) = Some (take n (drop i l)).
Proof. intros H. unfold sub. rewrite decide_True by lia. by rewrite !Nat2Z.id. Qed.

Lemma splice_ok {A} (m d : list A) i : 0 ≤ i → i + Z.of_nat (length d) ≤ Z.of_nat (length m) → ∃ m', splice m i d = Some m'.
Proof. intros H1 H2. unfold splice. rewrite decide_True by lia. eauto. Qed.

Lemma splice_rd {A} (m d : list A) m' i j : splice m i d = Some m' →
  rd m' j = if decide (i ≤ j < i + Z.of_nat (length d)) then rd d (j - i) else rd m j.
Proof.
  unfold splice. case_decide as H; [|done]. intros [= <-]. unfold rd.
  destruct (decide (0 ≤ j)) as [Hj|Hj]; [|by rewrite decide_False by lia].
  destruct (decide (j < i)).
  { rewrite decide_False by lia. rewrite lookup_app_l by (rewrite length_take; lia). by apply lookup_take_lt; lia. }
  rewrite lookup_app_r by (rewrite length_take; lia). rewrite length_take, Nat.min_l by lia.
  case_decide as Hd.
  - rewrite decide_True by lia. rewrite lookup_app_l by lia. f_equal. lia.
  - rewrite lookup_app_r by lia. rewrite lookup_drop. f_equal. lia.
Qed.

(** A range from its entries. *)
Lemma sub_rd {A} (l l' : list A) i n : 0 ≤ i → Z.of_nat (length l') = n → i + n ≤ Z.of_nat (length l) →
  (∀ j, 0 ≤ j < n → rd l (i + j) = rd l' j) → sub l i n = Some l'.
Proof.
  intros Hi Hn Hl H. unfold sub. rewrite decide_True by lia. f_equal. apply list_eq. intros k.
  destruct (decide (k < length l')%nat) as [Hk|Hk].
  - rewrite lookup_take_lt, lookup_drop by lia. specialize (H (Z.of_nat k) ltac:(lia)). unfold rd in H.
    rewrite !decide_True in H by lia. rewrite Nat2Z.id in H. rewrite <- H. f_equal. lia.
  - rewrite lookup_take_ge by lia. symmetry. apply lookup_ge_None. lia.
Qed.

Lemma sub_length {A} (m : list A) o n l : sub m o n = Some l → 0 ≤ o ∧ Z.of_nat (length l) = n ∧ o + n ≤ Z.of_nat (length m).
Proof. unfold sub. case_decide as H; [|done]. intros [= <-]. rewrite length_take, length_drop. lia. Qed.

Lemma sub_cons {A} (m : list A) o n x l : sub m o n = Some (x :: l) → rd m o = Some x ∧ sub m (o + 1) (n - 1) = Some l.
Proof.
  intros H. pose proof (sub_length _ _ _ _ H) as (Ho & Hl & Hm). cbn in Hl. unfold sub in *. case_decide as Hd; [|done].
  rewrite decide_True by lia. unfold rd. rewrite decide_True by done. injection H as H.
  assert (m !! Z.to_nat o = Some x) as Hx.
  { replace (Z.to_nat o) with (Z.to_nat o + 0)%nat by lia. rewrite <- lookup_drop. rewrite <- (lookup_take_lt _ (Z.to_nat n)) by lia. by rewrite H. }
  split; [done|]. f_equal. rewrite (drop_S m x) in H by done. replace (Z.to_nat n) with (S (Z.to_nat (n - 1))) in H by lia.
  cbn [take] in H. injection H as H. replace (Z.to_nat (o + 1)) with (S (Z.to_nat o)) by lia. done.
Qed.

Lemma sub_nil {A} (m : list A) o n : sub m o n = Some [] → n = 0.
Proof. intros H. apply sub_length in H as (_ & H & _). cbn in H. lia. Qed.

Lemma sub_write {A} (m m' : list A) n out x : sub m 0 n = Some out → wr m n x = Some m' → sub m' 0 (n + 1) = Some (out ++ [x]).
Proof.
  unfold sub, wr. intros H H'. case_decide as Hd; [|done]. case_decide as Hd'; [|done]. injection H as <-. injection H' as <-.
  rewrite decide_True by (rewrite length_insert; lia). f_equal. rewrite !drop_0.
  replace (Z.to_nat (n + 1)) with (S (Z.to_nat n)) by lia. rewrite (take_S_r _ _ x) by (apply list_lookup_insert_eq; lia).
  by rewrite take_insert_ge by lia.
Qed.

(** A range that does not meet the one that is overwritten. *)
Lemma sub_splice_out {A} (m m' d : list A) o i n : splice m o d = Some m' → i + n ≤ o ∨ o + Z.of_nat (length d) ≤ i → sub m' i n = sub m i n.
Proof.
  intros H Hd. pose proof (splice_length _ _ _ _ H) as Hl. unfold sub. rewrite Hl. case_decide as Hr; [|done]. f_equal.
  unfold splice in H. case_decide as Ho; [|done]. injection H as <-. destruct Hd as [Hd|Hd].
  - rewrite !take_drop_commute. f_equal. rewrite take_app_le by (rewrite length_take; lia). rewrite take_take. f_equal. lia.
  - f_equal. rewrite (assoc_L (++)). rewrite drop_app_ge by (rewrite length_app, length_take; lia). rewrite length_app, length_take, drop_drop.
    f_equal. lia.
Qed.

Lemma sub_splice_in {A} (m m' d : list A) o : splice m o d = Some m' → sub m' o (Z.of_nat (length d)) = Some d.
Proof.
  intros H. pose proof (splice_length _ _ _ _ H) as Hl. unfold sub. unfold splice in H. case_decide as Ho; [|done]. injection H as <-.
  rewrite decide_True by (rewrite !length_app, length_take, length_drop; lia). f_equal.
  rewrite drop_app_length' by (rewrite length_take; lia). rewrite Nat2Z.id. by rewrite take_app_length.
Qed.
