(* ===== verification/Posix.v ===== *)
(** * The operating-system interface of the native files

    The files of [src/native] other than SQLite are thin layers over libc.
    The kernel is not under [src/]: it is a parameter of the models.  This
    file holds what the components share: the result of a system call, the
    error numbers and constants the code names (their values differ between
    platforms) with the facts POSIX states of them, and one concrete platform
    used by the witnesses. *)

From S2P Require Import Prelude.

(** The result of a libc call: [SysOk r] when it returns [r ≥ 0], [SysErr e]
    when it returns -1 with [errno = e]. *)
Inductive sysres : Type :=
| SysOk (r : Z)
| SysErr (e : Z).

#[global] Instance sysres_eq_dec : EqDecision sysres.
Proof. solve_decision. Defined.

(** Error numbers of [errno.h] named by the code. *)
Class Errno : Type := {
  EINVAL : Z; EINTR : Z; EAGAIN : Z; EWOULDBLOCK : Z;
  EEXIST : Z; EIO : Z; ENOMEM : Z; ENOSYS : Z
}.

(** What POSIX states of them: positive, and distinct where the code tells
    them apart ([EAGAIN] and [EWOULDBLOCK] may be the same number). *)
Class ErrnoLaws `{Errno} : Prop := {
  EINVAL_pos : 0 < EINVAL; EINTR_pos : 0 < EINTR; EAGAIN_pos : 0 < EAGAIN;
  EWOULDBLOCK_pos : 0 < EWOULDBLOCK; EEXIST_pos : 0 < EEXIST; EIO_pos : 0 < EIO;
  ENOMEM_pos : 0 < ENOMEM; ENOSYS_pos : 0 < ENOSYS;
  EINTR_EAGAIN : EINTR ≠ EAGAIN; EINTR_EWOULDBLOCK : EINTR ≠ EWOULDBLOCK
}.

(** Linux's numbers. *)
Definition linux_errno : Errno := {|
  EINVAL := 22; EINTR := 4; EAGAIN := 11; EWOULDBLOCK := 11;
  EEXIST := 17; EIO := 5; ENOMEM := 12; ENOSYS := 38
|}.

Lemma linux_errno_laws : @ErrnoLaws linux_errno.
Proof. by split. Qed.

(** An [errno] is a positive [int]. *)
Definition errno_ok (e : Z) : Prop := 0 < e < 2147483648.

Definition sysres_ok (r : sysres) : Prop :=
  match r with SysOk n => 0 ≤ n | SysErr e => errno_ok e end.
