(* ===== verification/Term.v ===== *)
(** * Terminal layer ([src/native/term.c])

    Nonblocking writes and reads that leave the descriptor's flags as they
    were, and the raw-mode state machine ([terminal_state]).  The kernel and
    the pthread mutex are the class [TermOs]; what the theorems rely on is
    [TermOsLaws]; [Fake] is a small executable kernel that satisfies them. *)

From S2P Require Import Prelude Posix.

(** ** Interface *)

(** [struct termios]: the flag words are unsigned integers. *)
Record termios : Type := mk_termios {
  c_iflag : Z; c_oflag : Z; c_cflag : Z; c_lflag : Z;
  c_cc : list Z; c_ispeed : Z; c_ospeed : Z
}.

(** [struct winsize]: [unsigned short] fields. *)
Record winsize : Type := { ws_row : Z; ws_col : Z }.

(** Constants of [fcntl.h] and [termios.h]. *)
Class TermConsts : Type := {
  O_NONBLOCK : Z;
  BRKINT : Z; ICRNL : Z; INPCK : Z; ISTRIP : Z; IXON : Z; OPOST : Z; CS8 : Z;
  ECHO : Z; ICANON : Z; IEXTEN : Z; ISIG : Z;
  VMIN : nat; VTIME : nat
}.

Class TermOs (W : Type) : Type := {
  pthread_mutex_lock : W → Z * W;
  pthread_mutex_unlock : W → Z * W;
  fcntl_getfl : Z → W → sysres * W;
  fcntl_setfl : Z → Z → W → sysres * W;
  sys_write : Z → option bytes → Z → W → sysres * W;
  sys_read : Z → Z → W → sysres * bytes * W;
  sys_isatty : Z → W → Z * W;
  tcgetattr : Z → W → (termios + Z) * W;
  tcflush_in : Z → W → sysres * W;
  tcsetattr_now : Z → termios → W → sysres * W;
  ioctl_winsz : Z → W → (winsize + Z) * W;
  (** what a descriptor stands for: two descriptors may share a description
      of an open file, and two descriptions may be of one terminal *)
  file : Z → Z;                 (* the description of a descriptor *)
  terminal : Z → Z;             (* the terminal of a descriptor, if it is one *)
  (** what can be observed of the kernel *)
  fl : W → Z → Z;               (* status flags of a description *)
  locked : W → bool;            (* the write mutex *)
  out : W → Z → bytes;          (* bytes accepted on a descriptor *)
  tty : W → Z → termios         (* settings of a terminal *)
}.
Arguments file W {_} fd.
Arguments terminal W {_} fd.

(** A call that changes nothing observable. *)
Definition same `{TermOs W} (w w' : W) : Prop :=
  fl w' = fl w ∧ locked w' = locked w ∧ out w' = out w ∧ tty w' = tty w.

(** What the theorems rely on.  A call may fail whenever it likes; one of
    them is stronger than POSIX: a [tcsetattr] that reports success has made
    all the settings, and not only one of them. *)
Class TermOsLaws (W : Type) `{Errno, TermConsts, TermOs W} : Prop := {
  lock_law w r w' : pthread_mutex_lock w = (r, w') →
    (r = 0 ∧ locked w' = true ∧ fl w' = fl w ∧ out w' = out w ∧ tty w' = tty w) ∨
    (errno_ok r ∧ same w w');
  unlock_law w r w' : pthread_mutex_unlock w = (r, w') →
    (r = 0 ∧ locked w' = false ∧ fl w' = fl w ∧ out w' = out w ∧ tty w' = tty w) ∨
    (errno_ok r ∧ same w w');
  getfl_law fd w r w' : fcntl_getfl fd w = (r, w') →
    same w w' ∧ (r = SysOk (fl w (file W fd)) ∧ 0 ≤ fl w (file W fd) ∨ ∃ e, r = SysErr e ∧ errno_ok e);
  setfl_law fd f w r w' : fcntl_setfl fd f w = (r, w') →
    ((∃ n, r = SysOk n) ∧ fl w' = upd (fl w) (file W fd) f ∧ locked w' = locked w ∧
       out w' = out w ∧ tty w' = tty w) ∨
    (∃ e, r = SysErr e ∧ errno_ok e ∧ same w w');
  write_law fd b n w r w' : sys_write fd b n w = (r, w') →
    fl w' = fl w ∧ locked w' = locked w ∧ tty w' = tty w ∧
    ((∃ k, r = SysOk k ∧ 0 ≤ k ≤ n ∧
        out w' = upd (out w) fd (out w fd ++ take (Z.to_nat k) (default [] b))) ∨
     (∃ e, r = SysErr e ∧ errno_ok e ∧ out w' = out w));
  read_law fd n w r d w' : sys_read fd n w = (r, d, w') →
    same w w' ∧
    ((∃ k, r = SysOk k ∧ 0 ≤ k ≤ n ∧ Z.of_nat (length d) = k) ∨
     (∃ e, r = SysErr e ∧ errno_ok e ∧ d = []));
  tcgetattr_law fd w r w' : tcgetattr fd w = (r, w') →
    same w w' ∧ (r = inl (tty w (terminal W fd)) ∨ ∃ e, r = inr e ∧ errno_ok e);
  tcflush_law fd w r w' : tcflush_in fd w = (r, w') → same w w' ∧ sysres_ok r;
  tcsetattr_law fd t w r w' : tcsetattr_now fd t w = (r, w') →
    ((∃ n, r = SysOk n) ∧ tty w' = upd (tty w) (terminal W fd) t ∧ fl w' = fl w ∧
       locked w' = locked w ∧ out w' = out w) ∨
    (∃ e, r = SysErr e ∧ errno_ok e ∧ same w w')
}.

Module Term.

Section code.
Context {W : Type} `{!Errno, !TermConsts, !TermOs W}.

(* native/term.c:12-16 terminal_state_t *)
Record terminal_state_t : Type := mk_ts {
  active : bool; ts_fd : Z; saved_termios : termios
}.

(** The retry loop of [adou_term_write]: [budget] is [16 - retries]. *)
(* native/term.c:60-71 adou_term_write, the for loop *)
Fixpoint write_retry (budget : nat) (fd : Z) (buf : option bytes) (length : Z) (w : W)
  : sysres * W :=
  let '(count, w) := sys_write fd buf length w in
  match count, budget with
  | SysOk n, _ => (SysOk n, w)
  | SysErr e, S budget =>
      if e =? EINTR then write_retry budget fd buf length w else (SysErr e, w)
  | SysErr e, O => (SysErr e, w)
  end.

(** The label [done]: release the mutex and return. *)
(* native/term.c:86-91 adou_term_write, done *)
Definition write_done (result : Z) (w : W) : Z * W :=
  let '(unlock_result, w) := pthread_mutex_unlock w in
  if negb (unlock_result =? 0) && (result =? 0) then (- unlock_result, w)
  else (result, w).

(* native/term.c:27-92 adou_term_write *)
Definition adou_term_write (fd : Z) (buf : option bytes) (length : Z) (w : W) : Z * W :=
  if (length <? 0) || ((0 <? length) && bool_decide (buf = None)) then (- EINVAL, w) else
  let '(lock_result, w) := pthread_mutex_lock w in
  if negb (lock_result =? 0) then (- lock_result, w) else
  let native_fd := i32 fd in
  let '(flags, w) := fcntl_getfl native_fd w in
  match flags with
  | SysErr e => write_done (- e) w
  | SysOk flags =>
      let was_nonblocking := negb (Z.land flags O_NONBLOCK =? 0) in
      let '(set, w) :=
        if was_nonblocking then (SysOk 0, w)
        else fcntl_setfl native_fd (Z.lor flags O_NONBLOCK) w in
      match set with
      | SysErr e => write_done (- e) w
      | SysOk _ =>
          let '(count, w) := write_retry 16 native_fd buf length w in
          let result :=
            match count with
            | SysOk n => i32 n
            | SysErr e => if (e =? EAGAIN) || (e =? EWOULDBLOCK) then 0 else - e
            end in
          if was_nonblocking then write_done result w else
          let '(rest, w) := fcntl_setfl native_fd flags w in
          match rest with
          | SysErr e => write_done (- e) w
          | SysOk _ => write_done result w
          end
      end
  end.

(** The result is the value returned and the bytes stored in [buf]. *)
(* native/term.c:94-127 adou_term_read *)
Definition adou_term_read (fd : Z) (buf_null : bool) (length : Z) (w : W) : Z * bytes * W :=
  if (length <? 0) || ((0 <? length) && buf_null) then (-1000000 - EINVAL, [], w) else
  let native_fd := i32 fd in
  let '(flags, w) := fcntl_getfl native_fd w in
  match flags with
  | SysErr e => (-1000000 - e, [], w)
  | SysOk flags =>
      let was_nonblocking := negb (Z.land flags O_NONBLOCK =? 0) in
      let '(set, w) :=
        if was_nonblocking then (SysOk 0, w)
        else fcntl_setfl native_fd (Z.lor flags O_NONBLOCK) w in
      match set with
      | SysErr e => (-1000000 - e, [], w)
      | SysOk _ =>
          let '(count, data, w) := sys_read native_fd length w in
          let result :=
            match count with
            | SysOk n => n
            | SysErr e =>
                if e =? EINTR then -2
                else if (e =? EAGAIN) || (e =? EWOULDBLOCK) then -1
                else -1000000 - e
            end in
          if was_nonblocking then (result, data, w) else
          let '(rest, w) := fcntl_setfl native_fd flags w in
          match rest with
          | SysErr e => (-1000000 - e, data, w)
          | SysOk _ => (result, data, w)
          end
      end
  end.

(** [x & (tcflag_t) ~m] on an unsigned word. *)
Definition clear_bits (x m : Z) : Z := Z.land x (Z.lnot m).

(* native/term.c:129-136 make_raw *)
Definition make_raw (s : termios) : termios :=
  mk_termios
    (clear_bits (c_iflag s) (Z.lor (Z.lor (Z.lor (Z.lor BRKINT ICRNL) INPCK) ISTRIP) IXON))
    (clear_bits (c_oflag s) OPOST)
    (Z.lor (c_cflag s) CS8)
    (clear_bits (c_lflag s) (Z.lor (Z.lor (Z.lor ECHO ICANON) IEXTEN) ISIG))
    (<[VTIME := 0]> (<[VMIN := 1]> (c_cc s)))
    (c_ispeed s) (c_ospeed s).

(* native/term.c:138-140 adou_term_is_tty *)
Definition adou_term_is_tty (fd : Z) (w : W) : Z * W :=
  let '(r, w) := sys_isatty (i32 fd) w in
  ((if r =? 1 then 1 else 0), w).

(* native/term.c:173-195 adou_term_restore_raw *)
Definition adou_term_restore_raw (fd : Z) (ts : terminal_state_t) (w : W)
  : Z * terminal_state_t * W :=
  let native_fd := i32 fd in
  if negb (active ts) || negb (ts_fd ts =? native_fd) then (0, ts, w) else
  let result := 0 in
  let '(r1, w) := tcflush_in native_fd w in
  let result := match r1 with SysErr e => - e | SysOk _ => result end in
  let '(r2, w) := tcsetattr_now native_fd (saved_termios ts) w in
  let result :=
    match r2 with SysErr e => if result =? 0 then - e else result | SysOk _ => result end in
  let '(r3, w) := tcflush_in native_fd w in
  let result :=
    match r3 with SysErr e => if result =? 0 then - e else result | SysOk _ => result end in
  (result, mk_ts false (-1) (saved_termios ts), w).

(* native/term.c:142-171 adou_term_enter_raw *)
Definition adou_term_enter_raw (fd : Z) (ts : terminal_state_t) (w : W)
  : Z * terminal_state_t * W :=
  let native_fd := i32 fd in
  if active ts && (ts_fd ts =? native_fd) then (0, ts, w) else
  let '(ts, w) :=
    if active ts then
      let '(_, ts, w) := adou_term_restore_raw (ts_fd ts) ts w in (ts, w)
    else (ts, w) in
  let '(got, w) := tcgetattr native_fd w in
  match got with
  | inr e => (- e, ts, w)
  | inl settings =>
      let ts := mk_ts (active ts) (ts_fd ts) settings in
      let raw := make_raw settings in
      let '(f1, w) := tcflush_in native_fd w in
      match f1 with
      | SysErr e => (- e, ts, w)
      | SysOk _ =>
          let '(st, w) := tcsetattr_now native_fd raw w in
          match st with
          | SysErr e => (- e, ts, w)
          | SysOk _ =>
              let '(f2, w) := tcflush_in native_fd w in
              match f2 with
              | SysErr e => (- e, ts, w)
              | SysOk _ => (0, mk_ts true native_fd settings, w)
              end
          end
      end
  end.

(** The out parameters [*rows] and [*columns] are the second component. *)
(* native/term.c:197-206 adou_term_size *)
Definition adou_term_size (fd : Z) (w : W) : Z * option (Z * Z) * W :=
  let '(r, w) := ioctl_winsz (i32 fd) w in
  match r with
  | inr e => (- e, None, w)
  | inl size =>
      (0, Some (if 0 <? ws_row size then ws_row size else 24,
                if 0 <? ws_col size then ws_col size else 80), w)
  end.


Definition failed (r : sysres) : Prop := match r with SysErr _ => True | SysOk _ => False end.


(** The raw settings are made, and the flush of the input after them fails. *)
Definition flush_refused (fd : Z) (w : W) : Prop :=
  let '(got, w) := tcgetattr fd w in
  match got with
  | inr _ => False
  | inl settings =>
      let '(f1, w) := tcflush_in fd w in
      let '(st, w) := tcsetattr_now fd (make_raw settings) w in
      ¬ failed f1 ∧ ¬ failed st ∧ failed (fst (tcflush_in fd w))
  end.




End code.
Arguments terminal_state_t : clear implicits.

(** The initial value of [terminal_state] ([saved_termios] is zeroed). *)
(* native/term.c:20-23 terminal_state *)
Definition terminal_state : terminal_state_t :=
  mk_ts false (-1) (mk_termios 0 0 0 0 [] 0 0).

(** ** Specifications *)

(** What the caller of [adou_term_read] reads off a result code. *)
Inductive read_outcome : Type :=
| ReadData (n : Z) | ReadInterrupted | ReadWouldBlock | ReadFailed (errno : Z).

Definition decode_read (r : Z) : read_outcome :=
  if 0 <=? r then ReadData r
  else if r =? -1 then ReadWouldBlock
  else if r =? -2 then ReadInterrupted
  else ReadFailed (-1000000 - r).

Definition read_outcome_of `{Errno} (count : sysres) : read_outcome :=
  match count with
  | SysOk n => ReadData n
  | SysErr e =>
      if e =? EINTR then ReadInterrupted
      else if (e =? EAGAIN) || (e =? EWOULDBLOCK) then ReadWouldBlock else ReadFailed e
  end.



(** ** Lemmas *)
Section lemmas.
Context {W : Type} `{!Errno, !TermConsts, !TermOs W, !ErrnoLaws, !TermOsLaws W}.

Lemma write_retry_spec budget fd buf len w r w' :
  write_retry budget fd buf len w = (r, w') →
  fl w' = fl w ∧ locked w' = locked w ∧ tty w' = tty w ∧
  ((∃ k, r = SysOk k ∧ 0 ≤ k ≤ len ∧
      out w' = upd (out w) fd (out w fd ++ take (Z.to_nat k) (default [] buf))) ∨
   (∃ e, r = SysErr e ∧ errno_ok e ∧ out w' = out w)).
Proof.
  revert w. induction budget as [|budget IH]; intros w; simpl;
    destruct (sys_write fd buf len w) as [c w1] eqn:E; apply write_law in E;
    destruct E as (Hf & Hl & Ht & Hc); destruct c as [n|e]; intros Hr.
  - by simplify_eq.
  - by simplify_eq.
  - by simplify_eq.
  - destruct (e =? EINTR); [|by simplify_eq].
    apply IH in Hr. destruct Hc as [(? & ? & _)|(? & _ & _ & Ho)]; [done|].
    by rewrite Hf, Hl, Ht, Ho in Hr.
Qed.

#[local] Arguments write_retry : simpl never.

Lemma write_done_spec res w r w' : write_done res w = (r, w') →
  fl w' = fl w ∧ out w' = out w ∧ tty w' = tty w ∧
  (r = res ∨ res = 0 ∧ r < 0) ∧
  (fst (pthread_mutex_unlock w) = 0 → locked w' = false).
Proof.
  unfold write_done. destruct (pthread_mutex_unlock w) as [u w1] eqn:E.
  apply unlock_law in E. simpl.
  destruct E as [(-> & Hl & Hf & Ho & Ht)|(Hu & Hf & Hl & Ho & Ht)]; simpl.
  - intros [= <- <-]. split_and!; auto.
  - unfold errno_ok in Hu. destruct (Z.eqb_spec u 0); [lia|]. simpl.
    destruct (Z.eqb_spec res 0); intros [= <- <-]; split_and!; auto; try lia.
Qed.

(** What a call of [adou_term_write] does to the kernel, on every path: [k]
    bytes of the buffer are accepted. *)
Record write_contract (fd : Z) (buf : option bytes) (len : Z) (w : W) (r : Z) (w' : W) (k : Z)
  : Prop := {
  wc_k : 0 ≤ k ≤ Z.max 0 len;
  wc_out : ∀ d, out w' d =
    if decide (d = i32 fd) then out w d ++ take (Z.to_nat k) (default [] buf) else out w d;
  wc_tty : tty w' = tty w;
  wc_result : 0 ≤ r → (len < 2147483648 → r = k) ∧ ∀ d, fl w' d = fl w d;
  wc_flags : (∀ f v e v', fcntl_setfl (i32 fd) f v ≠ (SysErr e, v')) → ∀ d, fl w' d = fl w d;
  wc_lock : (∀ v, fst (pthread_mutex_unlock v) = 0) → locked w = false → locked w' = false
}.

Lemma out_nothing (f : Z → bytes) fd buf d :
  f d = if decide (d = fd) then f d ++ take (Z.to_nat 0) (default [] buf) else f d.
Proof. case_decide; [|done]. simpl. by rewrite app_nil_r. Qed.

(** Error paths before the write: nothing was accepted. *)
Lemma write_contract_error fd buf len w res w1 r w' :
  res < 0 → write_done res w1 = (r, w') →
  out w1 = out w → tty w1 = tty w → fl w1 = fl w →
  write_contract fd buf len w r w' 0.
Proof.
  intros Hres Hd Ho Ht Hf. apply write_done_spec in Hd as (Hf' & Ho' & Ht' & Hr & Hl).
  rewrite Hf in Hf'. split.
  - lia.
  - intros d. rewrite Ho', Ho. apply out_nothing.
  - congruence.
  - lia.
  - intros _ d. by rewrite Hf'.
  - intros Hu _. by apply Hl.
Qed.

(** The end of the function, after the write and the restoration of the flags. *)
Lemma write_contract_end fd buf len w w1 r w' k res :
  write_done res w1 = (r, w') →
  (0 ≤ k ≤ Z.max 0 len) →
  (∀ d, out w1 d =
    if decide (d = i32 fd) then out w d ++ take (Z.to_nat k) (default [] buf) else out w d) →
  tty w1 = tty w →
  (0 ≤ res → (len < 2147483648 → res = k) ∧ ∀ d, fl w1 d = fl w d) →
  ((∀ f v e v', fcntl_setfl (i32 fd) f v ≠ (SysErr e, v')) → ∀ d, fl w1 d = fl w d) →
  write_contract fd buf len w r w' k.
Proof.
  intros Hd Hk Ho Ht Hres Hfl. apply write_done_spec in Hd as (Hf' & Ho' & Ht' & Hr & Hl). split.
  - done.
  - intros d. rewrite Ho'. apply Ho.
  - congruence.
  - intros Hr0. destruct Hr as [->|[-> ?]]; [|lia]. rewrite Hf'. by apply Hres.
  - intros Hs d. rewrite Hf'. by apply Hfl.
  - intros Hu _. by apply Hl.
Qed.

(** The result of the write attempt as the function computes it. *)
Lemma write_result_spec (count : sysres) len k :
  (count = SysOk k ∧ 0 ≤ k ≤ len ∨ k = 0 ∧ ∃ e, count = SysErr e ∧ errno_ok e) →
  let result := match count with
                | SysOk n => i32 n
                | SysErr e => if (e =? EAGAIN) || (e =? EWOULDBLOCK) then 0 else - e
                end in
  0 ≤ result → len < 2147483648 → result = k.
Proof.
  intros [[-> Hk]|[-> (e & -> & He)]] result; subst result.
  - intros _ Hl. unfold i32. rewrite Z.mod_small; lia.
  - unfold errno_ok in He. destruct (_ || _); lia.
Qed.

Lemma term_write_spec fd buf len w r w' :
  adou_term_write fd buf len w = (r, w') → ∃ k, write_contract fd buf len w r w' k.
Proof.
  unfold adou_term_write. pose proof EINVAL_pos.
  destruct ((len <? 0) || _) eqn:Harg.
  { intros [= <- <-]. exists 0.
    split; [lia|intros d; apply out_nothing|done|intros; lia|done|done]. }
  apply orb_false_iff in Harg as [Harg _]. apply Z.ltb_ge in Harg.
  destruct (pthread_mutex_lock w) as [lr w1] eqn:E. apply lock_law in E.
  destruct E as [(-> & Hl & Hf & Ho & Ht)|(Hlr & Hf & Hl & Ho & Ht)]; simpl.
  2: { unfold errno_ok in Hlr. rewrite (proj2 (Z.eqb_neq _ _)) by lia. intros [= <- <-].
       exists 0. split; [lia| |done|intros; lia| |].
       - intros d. rewrite Ho. apply out_nothing.
       - intros _ d. by rewrite Hf.
       - by rewrite Hl. }
  destruct (fcntl_getfl (i32 fd) w1) as [g w2] eqn:E. apply getfl_law in E.
  destruct E as ((Hf2 & Hl2 & Ho2 & Ht2) & [[-> Hfl0]|(e & -> & He)]).
  2: { intros Hd. unfold errno_ok in He. exists 0.
       eapply write_contract_error; [|exact Hd|..]; congruence || lia. }
  destruct (Z.land (fl w1 (file W (i32 fd))) O_NONBLOCK =? 0); simpl.
  - destruct (fcntl_setfl (i32 fd) _ w2) as [s w3] eqn:E. apply setfl_law in E.
    destruct E as [([n ->] & Hf3 & Hl3 & Ho3 & Ht3)|(e & -> & He & Hf3 & Hl3 & Ho3 & Ht3)].
    2: { intros Hd. unfold errno_ok in He. exists 0.
         eapply write_contract_error; [|exact Hd|..]; congruence || lia. }
    destruct (write_retry 16 (i32 fd) buf len w3) as [c w4] eqn:E.
    apply write_retry_spec in E as (Hf4 & Hl4 & Ht4 & Hc).
    destruct (fcntl_setfl (i32 fd) (fl w1 (file W (i32 fd))) w4) as [s w5] eqn:E5.
    assert (∃ k, (c = SysOk k ∧ 0 ≤ k ≤ len ∨ k = 0 ∧ ∃ e, c = SysErr e ∧ errno_ok e) ∧
      0 ≤ k ≤ Z.max 0 len ∧
      ∀ d, out w4 d = if decide (d = i32 fd)
        then out w d ++ take (Z.to_nat k) (default [] buf) else out w d) as (k & Hk & Hk' & Hok).
    { destruct Hc as [(k & -> & Hk & Hoc)|(e & -> & He & Hoc)].
      - exists k. split; [by left|]. split; [lia|]. intros d. rewrite Hoc, Ho3, Ho2, Ho.
        unfold upd. case_decide; by simplify_eq.
      - exists 0. split; [right; eauto|]. split; [lia|]. intros d. rewrite Hoc, Ho3, Ho2, Ho.
        apply out_nothing. }
    pose proof E5 as E5'. apply setfl_law in E5.
    destruct E5 as [([n5 ->] & Hf5 & Hl5 & Ho5 & Ht5)|(e & -> & He & Hf5 & Hl5 & Ho5 & Ht5)];
      intros Hd; exists k; (eapply write_contract_end; [exact Hd|done| |congruence| |]).
    + intros d. rewrite Ho5. apply Hok.
    + intros Hr. split; [intros; by eapply write_result_spec|].
      intros d. rewrite Hf5, Hf4, Hf3, Hf2, Hf. apply upd_restore.
    + intros _ d. rewrite Hf5, Hf4, Hf3, Hf2, Hf. apply upd_restore.
    + intros d. rewrite Ho5. apply Hok.
    + unfold errno_ok in He. lia.
    + intros Hs. by apply Hs in E5'.
  - destruct (write_retry 16 (i32 fd) buf len w2) as [c w4] eqn:E.
    apply write_retry_spec in E as (Hf4 & Hl4 & Ht4 & Hc).
    assert (∀ d, fl w4 d = fl w d) as Hfl by (intros; by rewrite Hf4, Hf2, Hf).
    destruct Hc as [(k & -> & Hk & Hoc)|(e & -> & He & Hoc)]; intros Hd.
    + exists k. eapply write_contract_end; [exact Hd|lia| |congruence| |done].
      * intros d. rewrite Hoc, Ho2, Ho. unfold upd. case_decide; by simplify_eq.
      * intros Hr. split; [|done]. intros.
        eapply (write_result_spec (SysOk k)); [|done..]. by left.
    + exists 0. eapply write_contract_end; [exact Hd|lia| |congruence| |done].
      * intros d. rewrite Hoc, Ho2, Ho. apply out_nothing.
      * intros Hr. split; [|done]. intros.
        eapply (write_result_spec (SysErr e)); [|done..]. right; eauto.
Qed.

(** *** Reading *)

Lemma decode_read_of count :
  sysres_ok count →
  decode_read (match count with
               | SysOk k => k
               | SysErr e => if e =? EINTR then -2
                             else if (e =? EAGAIN) || (e =? EWOULDBLOCK) then -1
                             else -1000000 - e
               end) = read_outcome_of count.
Proof.
  intros Hc. destruct count as [k|e]; simpl in *.
  - unfold decode_read. by rewrite (proj2 (Z.leb_le _ _)).
  - unfold errno_ok in Hc. destruct (e =? EINTR); [done|]. destruct (_ || _); [done|].
    unfold decode_read.
    rewrite (proj2 (Z.leb_gt _ _)), (proj2 (Z.eqb_neq _ (-1))), (proj2 (Z.eqb_neq _ (-2))) by lia.
    f_equal. lia.
Qed.

Lemma term_read_spec fd null len w r d w' :
  0 ≤ len → (0 < len → null = false) →
  adou_term_read fd null len w = (r, d, w') →
  ((∀ i, fl w' i = fl w i) ∧
     ∃ w1 count w2, sys_read (i32 fd) len w1 = (count, d, w2) ∧
       decode_read r = read_outcome_of count) ∨
  (∃ e, r = -1000000 - e ∧ errno_ok e).
Proof.
  intros Hlen Hnull. unfold adou_term_read.
  rewrite (proj2 (Z.ltb_ge _ _)) by done.
  replace ((0 <? len) && null) with false
    by (destruct (Z.ltb_spec 0 len); [by rewrite Hnull by done|done]).
  cbv beta iota zeta delta [orb].
  destruct (fcntl_getfl (i32 fd) w) as [g w1] eqn:E. apply getfl_law in E.
  destruct E as ((Hf1 & _) & [[-> Hfl0]|(e & -> & He)]); [|intros [= <- <- <-]; right; eauto].
  destruct (Z.land (fl w (file W (i32 fd))) O_NONBLOCK =? 0); simpl.
  - destruct (fcntl_setfl (i32 fd) _ w1) as [s w2] eqn:E. apply setfl_law in E.
    destruct E as [([n ->] & Hf2 & _)|(e & -> & He & _)]; [|intros [= <- <- <-]; right; eauto].
    destruct (sys_read (i32 fd) len w2) as [[c d3] w3] eqn:E3. pose proof E3 as E3'.
    apply read_law in E3 as ((Hf3 & _) & Hc).
    destruct (fcntl_setfl (i32 fd) _ w3) as [s w4] eqn:E. apply setfl_law in E.
    destruct E as [([n4 ->] & Hf4 & _)|(e & -> & He & _)]; intros [= <- <- <-]; [|right; eauto].
    left. split.
    + intros i. rewrite Hf4, Hf3, Hf2, Hf1. apply upd_restore.
    + exists w2, c, w3. split; [done|]. apply decode_read_of.
      destruct Hc as [(k & -> & ? & _)|(e & -> & ? & _)]; simpl; [lia|done].
  - destruct (sys_read (i32 fd) len w1) as [[c d3] w3] eqn:E3. pose proof E3 as E3'.
    apply read_law in E3 as ((Hf3 & _) & Hc). intros [= <- <- <-]. left. split.
    + intros i. by rewrite Hf3, Hf1.
    + exists w1, c, w3. split; [done|]. apply decode_read_of.
      destruct Hc as [(k & -> & ? & _)|(e & -> & ? & _)]; simpl; [lia|done].
Qed.

(** *** [make_raw] *)

Lemma clear_bits_land x m b : Z.land b m = b → Z.land (clear_bits x m) b = 0.
Proof.
  intros <-. unfold clear_bits. rewrite <- Z.land_assoc, (Z.land_comm b), (Z.land_assoc _ m).
  by rewrite (Z.land_comm _ m), Z.land_lnot_diag, Z.land_0_l, Z.land_0_r.
Qed.

Lemma clear_bits_idem x m : clear_bits (clear_bits x m) m = clear_bits x m.
Proof. unfold clear_bits. by rewrite <- Z.land_assoc, Z.land_diag. Qed.

Lemma clear_bits_other x m i : Z.testbit m i = false → 0 ≤ i →
  Z.testbit (clear_bits x m) i = Z.testbit x i.
Proof. intros Hm Hi. unfold clear_bits. by rewrite Z.land_spec, Z.lnot_spec, Hm, andb_true_r. Qed.

(** [b] is one of the masks of a disjunction. *)
Lemma sub_mask_l a b c : Z.land a b = a → Z.land a (Z.lor b c) = a.
Proof.
  intros Hab. apply Z.bits_inj'. intros i Hi. apply (f_equal (λ z, Z.testbit z i)) in Hab.
  rewrite Z.land_spec in *. rewrite Z.lor_spec. destruct (Z.testbit a i), (Z.testbit b i); done.
Qed.

Lemma sub_mask_r a b c : Z.land a c = a → Z.land a (Z.lor b c) = a.
Proof. intros. rewrite Z.lor_comm. by apply sub_mask_l. Qed.

(** *** The raw-mode machine *)

Lemma make_raw_idem t : make_raw (make_raw t) = make_raw t.
Proof.
  unfold make_raw. simpl. f_equal.
  - apply clear_bits_idem.
  - apply clear_bits_idem.
  - by rewrite <- Z.lor_assoc, Z.lor_diag.
  - apply clear_bits_idem.
  - destruct (decide (VMIN = VTIME)) as [->|Hne]; [by rewrite !list_insert_insert_eq|].
    rewrite (list_insert_insert_ne _ VMIN VTIME) by done. by rewrite !list_insert_insert_eq.
Qed.


Lemma enter_idle_spec fd ts w r ts' w' (x := terminal W (i32 fd)) : active ts = false →
  adou_term_enter_raw fd ts w = (r, ts', w') →
  (r = 0 ∧ ts' = mk_ts true (i32 fd) (tty w x) ∧ tty w' = upd (tty w) x (make_raw (tty w x))) ∨
  (r < 0 ∧ active ts' = false ∧
   (tty w' = tty w ∨ tty w' = upd (tty w) x (make_raw (tty w x)) ∧ flush_refused (i32 fd) w)).
Proof.
  intros Ha. unfold adou_term_enter_raw, flush_refused. rewrite Ha. simpl. rewrite Ha.
  destruct (tcgetattr (i32 fd) w) as [[t|e] w1] eqn:E0; apply tcgetattr_law in E0;
    destruct E0 as [(_ & _ & _ & T0) E0].
  2: { intros [= <- <- <-]. right. destruct E0 as [?|(? & [= <-] & He)]; [done|].
       unfold errno_ok in He. split; [lia|]. auto. }
  destruct E0 as [[= ->]|(? & ? & _)]; [|done]. fold x.
  destruct (tcflush_in (i32 fd) w1) as [[n1|e] w2] eqn:E1; apply tcflush_law in E1;
    destruct E1 as [(_ & _ & _ & T1) He].
  2: { intros [= <- <- <-]. unfold sysres_ok, errno_ok in He. right. split; [lia|]. split; [done|]. left. congruence. }
  destruct (tcsetattr_now (i32 fd) _ w2) as [[n2|e] w3] eqn:E2; apply tcsetattr_law in E2;
    destruct E2 as [([? ?] & T2 & _)|(? & [= <-] & He' & _ & _ & _ & T2)]; try done.
  2: { intros [= <- <- <-]. unfold errno_ok in He'. right. split; [lia|]. split; [done|]. left. congruence. }
  destruct (tcflush_in (i32 fd) w3) as [f3 w4] eqn:E3; pose proof E3 as E3'; apply tcflush_law in E3;
    destruct E3 as [(_ & _ & _ & T3) He'']. fold x in T2. cbn [fst failed].
  destruct f3 as [n3|e]; intros [= <- <- <-].
  - left. split; [done|]. split; [done|]. congruence.
  - unfold sysres_ok, errno_ok in He''. right. split; [lia|]. split; [done|]. right. split; [congruence|].
    cbn. tauto.
Qed.

Lemma enter_failure_spec fd ts w r ts' w' (x := terminal W (i32 fd)) :
  active ts = false → adou_term_enter_raw fd ts w = (r, ts', w') → r ≠ 0 →
  active ts' = false ∧ (∀ d v, adou_term_restore_raw d ts' v = (0, ts', v)) ∧ r < 0 ∧
  (tty w' = tty w ∨ tty w' = upd (tty w) x (make_raw (tty w x))).
Proof.
  intros Ha E Hr. apply enter_idle_spec in E as [[? _]|(Hneg & Ha' & Hw)]; [done| |done].
  split; [done|]. split; [|split; [done|naive_solver]].
  intros. unfold adou_term_restore_raw. by rewrite Ha'.
Qed.


(** *** Both invariants, for the two calls *)












End lemmas.

(** ** Properties *)
Section properties.
Context {W : Type} `{!Errno, !TermConsts, !TermOs W, !ErrnoLaws, !TermOsLaws W}.

(** [adou_term_write] never leaks its temporary [O_NONBLOCK]: after a
    call that reports no error every descriptor has the flags it had, and so
    it has after any call, failed or not, provided the kernel accepts the
    [F_SETFL] calls; and the mutex is free again on every path. *)
Theorem term_write_restores fd buf len w r w' :
  adou_term_write fd buf len w = (r, w') →
  (0 ≤ r → ∀ d, fl w' d = fl w d) ∧
  ((∀ f v e v', fcntl_setfl (i32 fd) f v ≠ (SysErr e, v')) → ∀ d, fl w' d = fl w d) ∧
  ((∀ v, fst (pthread_mutex_unlock v) = 0) → locked w = false → locked w' = false).
Proof.
  intros [k Hc]%term_write_spec. destruct Hc as [_ _ _ Hr Hf Hl].
  split; [intros; by apply Hr|]. split; [apply Hf|apply Hl].
Qed.

(** The result of [adou_term_write] is exact: what the kernel accepted on
    the descriptor is a prefix of the buffer, a non-negative result is its
    length (for lengths an [int] can hold), other descriptors get nothing,
    and the terminals' settings are untouched. *)
Theorem term_write_output fd buf len w r w' :
  adou_term_write fd buf len w = (r, w') →
  ∃ k, 0 ≤ k ≤ Z.max 0 len ∧
    (0 ≤ r → len < 2147483648 → r = k) ∧
    out w' (i32 fd) = out w (i32 fd) ++ take (Z.to_nat k) (default [] buf) ∧
    (∀ d, d ≠ i32 fd → out w' d = out w d) ∧ tty w' = tty w.
Proof.
  intros [k Hc]%term_write_spec. destruct Hc as [Hk Ho Ht Hr _ _]. exists k.
  split; [done|]. split; [intros; by apply Hr|]. split; [|split; [|done]].
  - rewrite Ho. by rewrite decide_True.
  - intros d Hd. rewrite Ho. by rewrite decide_False.
Qed.

(** the result codes of [adou_term_read] are unambiguous: unless an
    [fcntl] call failed, decoding the code gives back what the kernel's
    [read] answered (a byte count, EINTR, EAGAIN or another errno) and the
    descriptor's flags are as before; if one failed, the code is that errno
    below -1000000. *)
Theorem term_read_codes fd null len w r d w' :
  0 ≤ len → (0 < len → null = false) →
  adou_term_read fd null len w = (r, d, w') →
  ((∀ i, fl w' i = fl w i) ∧
     ∃ w1 count w2, sys_read (i32 fd) len w1 = (count, d, w2) ∧
       decode_read r = read_outcome_of count) ∨
  (∃ e, r = -1000000 - e ∧ errno_ok e).
Proof. apply term_read_spec. Qed.


(** [make_raw] clears every input, output and local flag it names and
    leaves all other bits, sets the [CS8] bits, asks for single-byte reads
    without a timer, and is idempotent. *)
Theorem make_raw_effect s :
  (VMIN < length (c_cc s))%nat → (VTIME < length (c_cc s))%nat → VMIN ≠ VTIME →
  Forall (λ b, Z.land (c_iflag (make_raw s)) b = 0) [BRKINT; ICRNL; INPCK; ISTRIP; IXON] ∧
  Z.land (c_oflag (make_raw s)) OPOST = 0 ∧
  Forall (λ b, Z.land (c_lflag (make_raw s)) b = 0) [ECHO; ICANON; IEXTEN; ISIG] ∧
  Z.land (c_cflag (make_raw s)) CS8 = CS8 ∧
  (∀ i, 0 ≤ i → Forall (λ b, Z.testbit b i = false) [ECHO; ICANON; IEXTEN; ISIG] →
     Z.testbit (c_lflag (make_raw s)) i = Z.testbit (c_lflag s) i) ∧
  c_cc (make_raw s) !! VMIN = Some 1 ∧ c_cc (make_raw s) !! VTIME = Some 0 ∧
  make_raw (make_raw s) = make_raw s.
Proof.
  intros Hm Ht Hne. split_and!.
  - repeat constructor; simpl; apply clear_bits_land;
      repeat first [apply Z.land_diag | apply sub_mask_r; solve [apply Z.land_diag] | apply sub_mask_l].
  - apply clear_bits_land, Z.land_diag.
  - repeat constructor; simpl; apply clear_bits_land;
      repeat first [apply Z.land_diag | apply sub_mask_r; solve [apply Z.land_diag] | apply sub_mask_l].
  - simpl. rewrite Z.land_comm. apply sub_mask_r, Z.land_diag.
  - intros i Hi Hb. apply clear_bits_other; [|done]. rewrite !Z.lor_spec.
    repeat (apply Forall_cons in Hb as [-> Hb]). done.
  - simpl. rewrite list_lookup_insert_ne by done. by apply list_lookup_insert_eq.
  - simpl. apply list_lookup_insert_eq. by rewrite length_insert.
  - apply make_raw_idem.
Qed.

(** A failed [adou_term_enter_raw] from the idle state leaves the state
    idle, so that [adou_term_restore_raw] does nothing afterwards; the
    terminal then has either its old settings or (when it is the second input
    flush that fails) the raw ones. *)
Theorem enter_raw_failure fd ts w r ts' w' :
  active ts = false → adou_term_enter_raw fd ts w = (r, ts', w') → r ≠ 0 →
  active ts' = false ∧ (∀ d v, adou_term_restore_raw d ts' v = (0, ts', v)) ∧ r < 0 ∧
  let x := terminal W (i32 fd) in
  (tty w' = tty w ∨ tty w' = upd (tty w) x (make_raw (tty w x))).
Proof. apply enter_failure_spec. Qed.
End properties.

(** ** An executable kernel *)

(** One mutex, the standard streams on one terminal and every other
    descriptor on its own, and scripts that decide the next writes ([SysOk k]:
    accept at most [k] bytes), reads, and flushes and settings of terminals; an
    empty script never fails. *)
Record fake : Type := mk_fake {
  fk_fl : Z → Z; fk_locked : bool; fk_out : Z → bytes; fk_tty : Z → termios;
  fk_writes : list sysres; fk_reads : list (Z + bytes); fk_terms : list sysres
}.

Definition fk_sane (r : sysres) : sysres :=
  match r with
  | SysErr e => if bool_decide (0 < e < 2147483648) then r else SysOk 0
  | SysOk k => SysOk (Z.max 0 k)
  end.

Definition linux_term : TermConsts := {|
  O_NONBLOCK := 0x800;
  BRKINT := 2; ICRNL := 256; INPCK := 16; ISTRIP := 32; IXON := 1024; OPOST := 1; CS8 := 48;
  ECHO := 8; ICANON := 2; IEXTEN := 32768; ISIG := 1;
  VMIN := 6; VTIME := 5
|}.

#[local] Existing Instance linux_errno.
#[local] Existing Instance linux_errno_laws.
#[local] Existing Instance linux_term.

Definition fk_file (fd : Z) : Z := if bool_decide (0 ≤ fd ≤ 2) then 0 else fd.

#[local] Instance fake_os : TermOs fake := {|
  pthread_mutex_lock w :=
    (0, mk_fake (fk_fl w) true (fk_out w) (fk_tty w) (fk_writes w) (fk_reads w) (fk_terms w));
  pthread_mutex_unlock w :=
    (0, mk_fake (fk_fl w) false (fk_out w) (fk_tty w) (fk_writes w) (fk_reads w) (fk_terms w));
  fcntl_getfl fd w :=
    (if 0 <=? fk_fl w (fk_file fd) then SysOk (fk_fl w (fk_file fd)) else SysErr 9, w);
  fcntl_setfl fd f w :=
    (SysOk 0, mk_fake (upd (fk_fl w) (fk_file fd) f) (fk_locked w) (fk_out w) (fk_tty w)
                (fk_writes w) (fk_reads w) (fk_terms w));
  sys_write fd b n w :=
    let r := fk_sane (hd (SysOk n) (fk_writes w)) in
    let ws := tl (fk_writes w) in
    match r with
    | SysErr e => (r, mk_fake (fk_fl w) (fk_locked w) (fk_out w) (fk_tty w) ws (fk_reads w) (fk_terms w))
    | SysOk k =>
        if n <? 0
        then (SysErr 14, mk_fake (fk_fl w) (fk_locked w) (fk_out w) (fk_tty w) ws (fk_reads w) (fk_terms w))
        else (SysOk (Z.min k n),
          mk_fake (fk_fl w) (fk_locked w)
            (upd (fk_out w) fd (fk_out w fd ++ take (Z.to_nat (Z.min k n)) (default [] b)))
            (fk_tty w) ws (fk_reads w) (fk_terms w))
    end;
  sys_read fd n w :=
    let w' := mk_fake (fk_fl w) (fk_locked w) (fk_out w) (fk_tty w)
                (fk_writes w) (tl (fk_reads w)) (fk_terms w) in
    match hd (inr []) (fk_reads w) with
    | inl e => if bool_decide (0 < e < 2147483648) then (SysErr e, [], w') else (SysErr 5, [], w')
    | inr d =>
        if n <? 0 then (SysErr 14, [], w')
        else let d := take (Z.to_nat n) d in (SysOk (Z.of_nat (length d)), d, w')
    end;
  sys_isatty fd w := (1, w);
  tcgetattr fd w := (inl (fk_tty w (fk_file fd)), w);
  tcflush_in fd w :=
    (fk_sane (hd (SysOk 0) (fk_terms w)),
     mk_fake (fk_fl w) (fk_locked w) (fk_out w) (fk_tty w)
       (fk_writes w) (fk_reads w) (tl (fk_terms w)));
  tcsetattr_now fd t w :=
    let r := fk_sane (hd (SysOk 0) (fk_terms w)) in
    (r, mk_fake (fk_fl w) (fk_locked w) (fk_out w)
          (match r with SysOk _ => upd (fk_tty w) (fk_file fd) t | SysErr _ => fk_tty w end)
          (fk_writes w) (fk_reads w) (tl (fk_terms w)));
  ioctl_winsz fd w := (inl {| ws_row := 0; ws_col := 132 |}, w);
  file := fk_file; terminal := fk_file;
  fl := fk_fl; locked := fk_locked; out := fk_out; tty := fk_tty
|}.

Lemma fk_sane_ok r : sysres_ok (fk_sane r).
Proof. destruct r; simpl; [lia|]. case_bool_decide; simpl; [done|lia]. Qed.

#[local] Instance fake_laws : TermOsLaws fake.
Proof.
  split; simpl; unfold same; simpl.
  - intros w r w' [= <- <-]. by left.
  - intros w r w' [= <- <-]. by left.
  - intros fd w r w' [= <- <-]. split; [done|].
    destruct (Z.leb_spec 0 (fk_fl w (fk_file fd))); [by left|]. right. exists 9. split; [done|by compute].
  - intros fd f w r w' [= <- <-]. left. split_and!; [by exists 0|done..].
  - intros fd b n w r w'. pose proof (fk_sane_ok (hd (SysOk n) (fk_writes w))) as Hs.
    destruct (fk_sane _) as [k|e]; simpl in Hs.
    + destruct (Z.ltb_spec n 0); intros [= <- <-]; simpl; split_and!; try done.
      * right. exists 14. split_and!; [done|by compute|done].
      * left. exists (Z.min k n). split_and!; [done|lia|lia|done].
    + intros [= <- <-]; simpl. split_and!; try done. right. by exists e.
  - intros fd n w r d w'. destruct (hd (inr []) (fk_reads w)) as [e|d0].
    + case_bool_decide; intros [= <- <- <-]; simpl; (split; [done|]); right;
        [by exists e|exists 5; split_and!; [done|by compute|done]].
    + destruct (Z.ltb_spec n 0); intros [= <- <- <-]; simpl; (split; [done|]).
      * right. exists 14. split_and!; [done|by compute|done].
      * left. eexists. split; [done|]. rewrite length_take. lia.
  - intros fd w r w' [= <- <-]. split; [done|by left].
  - intros fd w r w' [= <- <-]. split; [done|apply fk_sane_ok].
  - intros fd t w r w' [= <- <-]. pose proof (fk_sane_ok (hd (SysOk 0) (fk_terms w))) as Hs.
    destruct (fk_sane _) as [k|e]; simpl in *; [left|right].
    + split_and!; [by exists k|done..].
    + exists e. done.
Qed.

Definition sane_termios : termios := mk_termios 0x500 5 0xbf 0x8a3b (replicate 17 0) 15 15.

Definition fake0 : fake :=
  mk_fake (λ _, 2) false (λ _, []) (λ _, sane_termios) [] [] [].

(** ** Witnesses *)

Lemma term_write_restores_witness :
  let w := mk_fake (fk_fl fake0) false (fk_out fake0) (fk_tty fake0)
             [SysErr 4; SysErr 4; SysOk 2] [] [] in
  fst (adou_term_write 1 (Some [104; 105; 33]) 3 w) = 2 ∧
  ∀ d, fl (snd (adou_term_write 1 (Some [104; 105; 33]) 3 w)) d = fl w d.
Proof.
  intros w. split; [reflexivity|].
  destruct (term_write_restores 1 (Some [104; 105; 33]) 3 w 2
    (snd (adou_term_write 1 (Some [104; 105; 33]) 3 w))) as (Hr & _); [reflexivity|].
  apply Hr. lia.
Defined.

Lemma term_write_output_witness :
  ∃ k, 0 ≤ k ≤ 3 ∧
    out (snd (adou_term_write 1 (Some [104; 105; 33]) 3 fake0)) 1 = take (Z.to_nat k) [104; 105; 33].
Proof.
  destruct (term_write_output 1 (Some [104; 105; 33]) 3 fake0 3
    (snd (adou_term_write 1 (Some [104; 105; 33]) 3 fake0))) as (k & Hk & _ & Ho & _); [reflexivity|].
  exists k. split; [exact Hk|]. exact Ho.
Defined.

Lemma term_read_codes_witness :
  let w := mk_fake (fk_fl fake0) false (fk_out fake0) (fk_tty fake0) [] [inl 4] [] in
  ((∀ i, fl (snd (adou_term_read 0 false 8 w)) i = fl w i) ∧
   ∃ w1 count w2, sys_read (i32 0) 8 w1 = (count, [], w2) ∧
     decode_read (-2) = read_outcome_of count) ∨
  (∃ e, -2 = -1000000 - e ∧ errno_ok e).
Proof.
  intros w. apply (term_read_codes 0 false 8 w (-2) []); [lia|done|reflexivity].
Defined.

Lemma enter_raw_failure_witness :
  let w := mk_fake (fk_fl fake0) false (fk_out fake0) (fk_tty fake0) [] [] [SysOk 0; SysOk 0; SysErr 5] in
  let ts' := snd (fst (adou_term_enter_raw 0 terminal_state w)) in
  let w' := snd (adou_term_enter_raw 0 terminal_state w) in
  tty w' 0 = make_raw sane_termios ∧ tty w' 0 ≠ sane_termios ∧
  ∀ d v, adou_term_restore_raw d ts' v = (0, ts', v).
Proof.
  intros w ts' w'. split; [reflexivity|]. split; [by vm_compute|].
  destruct (enter_raw_failure 0 terminal_state w (-5) ts' w') as (_ & Hr & _);
    [reflexivity|reflexivity|lia|]. exact Hr.
Defined.


Lemma make_raw_effect_witness :
  c_lflag sane_termios = 0x8a3b ∧ c_lflag (make_raw sane_termios) = 0xa30 ∧
  Z.land (c_oflag (make_raw sane_termios)) OPOST = 0.
Proof.
  split; [reflexivity|]. split; [reflexivity|].
  apply (make_raw_effect sane_termios); by compute; lia.
Defined.

(** Two descriptors of two terminals in turn, then restored. *)
Example raw_cycle :
  let s1 := adou_term_enter_raw 0 terminal_state fake0 in
  let s2 := adou_term_enter_raw 4 (snd (fst s1)) (snd s1) in
  let s3 := adou_term_restore_raw 4 (snd (fst s2)) (snd s2) in
  c_lflag (tty (snd s2) 4) = 0xa30 ∧ tty (snd s2) 0 = sane_termios ∧
  tty (snd s3) 4 = sane_termios.
Proof. vm_compute. done. Qed.

(** Two descriptors of one terminal: it stays raw, with its own settings
    saved. *)
Example raw_shared :
  let s1 := adou_term_enter_raw 0 terminal_state fake0 in
  let s2 := adou_term_enter_raw 1 (snd (fst s1)) (snd s1) in
  c_lflag (tty (snd s2) 0) = 0xa30 ∧ saved_termios (snd (fst s2)) = sane_termios.
Proof. vm_compute. done. Qed.

(** Entry on another terminal reports success though the kernel refused to
    restore the first one, whose settings are then lost. *)
Example switch_loses_settings :
  let w0 := mk_fake (fk_fl fake0) false (fk_out fake0) (fk_tty fake0) [] []
              (replicate 4 (SysOk 0) ++ [SysErr 5]) in
  let s1 := adou_term_enter_raw 0 terminal_state w0 in
  let s2 := adou_term_enter_raw 4 (snd (fst s1)) (snd s1) in
  let s3 := adou_term_restore_raw 0 (snd (fst s2)) (snd s2) in
  fst (fst s2) = 0 ∧ fst (fst s3) = 0 ∧ tty (snd s3) 0 = make_raw sane_termios.
Proof. vm_compute. done. Qed.

End Term.
