(* ===== verification/AuthStore.v ===== *)
(** * Credential store ([src/native/auth_store.c])

    File locking and the write-to-temporary, fsync, rename replacement of the
    credentials file.  The kernel and the allocator are the class [FsOs]; its
    observations are the content of every path, the open descriptors, how many
    interruptions are still to come, and what a crash would leave: what was
    written may be lost, or be there in part, until it is synchronized, and so
    may the change of a name until its directory is.  A log holds both after
    each call: what other processes see, and what a crash may leave.  [kernel]
    is an executable file system satisfying the laws. *)

From S2P Require Import Prelude Posix.

Abbreviation path := (list Z).
Abbreviation fsys := (path → option bytes).

(** What each path may hold after a crash; several answers where it depends on
    what has reached the disk. *)
Abbreviation survivors := (path → option bytes → Prop).

Class FsOs (W : Type) : Type := {
  sys_open_lock : path → W → sysres * W;       (* open(p, O_CREAT|O_RDWR, 0600) *)
  sys_open_excl : path → W → sysres * W;       (* open(p, O_WRONLY|O_CREAT|O_EXCL, 0600) *)
  sys_open_rdonly : path → W → sysres * W;
  sys_fchmod : Z → Z → W → sysres * W;
  sys_setlkw : Z → W → sysres * W;             (* fcntl(fd, F_SETLKW, F_WRLCK whole file) *)
  sys_unlck : Z → W → sysres * W;              (* fcntl(fd, F_SETLK, F_UNLCK whole file) *)
  sys_write : Z → bytes → Z → W → sysres * W;
  sys_fsync : Z → W → sysres * W;
  sys_close : Z → W → sysres * W;
  sys_rename : path → path → W → sysres * W;
  sys_unlink : path → W → sysres * W;
  sys_getpid : Z;
  malloc_ok : W → bool * W;                    (* does the next malloc/strdup succeed? *)
  files : W → fsys;
  opened : W → Z → option path;
  holder : W → Z → bool;                       (* descriptors holding the write lock *)
  survives : W → survivors;                    (* what a path may hold if the machine stops now *)
  stored : W → path → bytes → Prop;            (* what the file that now has this path may hold then *)
  crashes : W → list (fsys * survivors);       (* what was seen after each call, and what would have survived it *)
  interrupts : W → nat
}.

Section laws.
Context {W : Type} `{!Errno, !FsOs W}.

Definition now (w : W) : fsys * survivors := (files w, survives w).

(** A completed call is visible in the log; signals only run out. *)
Definition called (w w' : W) : Prop :=
  crashes w' = crashes w ++ [now w'] ∧ (interrupts w' ≤ interrupts w)%nat.

(** Nothing new is at risk on the path: the system may write to the disk what
    it has not written yet, and nothing else. *)
Definition settles (w w' : W) (p : path) : Prop :=
  (∀ c, survives w' p c → survives w p c) ∧ (∀ b, stored w' p b → stored w p b).

Definition quiet (w w' : W) : Prop :=
  called w w' ∧ files w' = files w ∧ opened w' = opened w ∧ holder w' = holder w ∧ ∀ p, settles w w' p.

Definition fails (r : sysres) (w w' : W) : Prop :=
  ∃ e, r = SysErr e ∧ errno_ok e ∧ quiet w w'.

Definition opens (p : path) (r : sysres) (w w' : W) : Prop :=
  ∃ fd, r = SysOk fd ∧ 0 ≤ fd ∧ opened w fd = None ∧ opened w' = upd (opened w) fd (Some p) ∧
    holder w' = holder w ∧ called w w'.

(** The name [q] is an entry of the directory [d]. *)
Definition entry_in (d q : path) : Prop :=
  ∃ name, 47 ∉ name ∧ (q = d ++ 47 :: name ∨ d = [47] ∧ q = 47 :: name).

(** What [fsync] promises of a descriptor: of a file, that what it holds is on
    the disk; of a directory, that its entries are. *)
Definition synced (q : path) (w w' : W) : Prop :=
  (∀ b c, files w q = Some b → stored w' q c → c = b) ∧
  (∀ e c, entry_in q e → survives w' e c →
     match files w e with None => c = None | Some _ => ∃ b, c = Some b ∧ stored w e b end).
End laws.

(** What POSIX promises of the calls, for files with one name each (on a
    system where [close] always releases the descriptor, as Linux and macOS
    do).  A file that is written, and one that is new, may hold anything
    after a crash; renaming is atomic: the path names the file it named or the
    other one. *)
Class FsLaws (W : Type) `{!Errno, !FsOs W} : Prop := {
  open_lock_law p w r w' : sys_open_lock p w = (r, w') →
    opens p r w w' ∧ (∀ q, q ≠ p → files w' q = files w q ∧ settles w w' q) ∧
      files w' p = Some (default [] (files w p)) ∨ fails r w w';
  open_excl_law p w r w' : sys_open_excl p w = (r, w') →
    opens p r w w' ∧ files w p = None ∧ files w' = upd (files w) p (Some []) ∧
      (∀ q, q ≠ p → settles w w' q) ∨ fails r w w';
  open_rdonly_law p w r w' : sys_open_rdonly p w = (r, w') →
    opens p r w w' ∧ files w' = files w ∧ (∀ q, settles w w' q) ∨ fails r w w';
  fchmod_law fd m w r w' : sys_fchmod fd m w = (r, w') → quiet w w' ∧ sysres_ok r;
  setlkw_law fd w r w' : sys_setlkw fd w = (r, w') →
    ((∃ n, r = SysOk n) ∧ called w w' ∧ files w' = files w ∧ opened w' = opened w ∧
       holder w' = upd (holder w) fd true ∧ ∀ q, settles w w' q) ∨
    (fails r w w' ∧ (r = SysErr EINTR → (interrupts w' < interrupts w)%nat));
  unlck_law fd w r w' : sys_unlck fd w = (r, w') →
    ((∃ n, r = SysOk n) ∧ called w w' ∧ files w' = files w ∧ opened w' = opened w ∧
       holder w' = upd (holder w) fd false ∧ ∀ q, settles w w' q) ∨ fails r w w';
  write_law fd d n w r w' : sys_write fd d n w = (r, w') →
    (∃ k p, r = SysOk k ∧ 0 ≤ k ≤ n ∧ opened w fd = Some p ∧
       files w' = upd (files w) p (Some (default [] (files w p) ++ take (Z.to_nat k) d)) ∧
       called w w' ∧ opened w' = opened w ∧ holder w' = holder w ∧ ∀ q, q ≠ p → settles w w' q) ∨
    (fails r w w' ∧ (r = SysErr EINTR → (interrupts w' < interrupts w)%nat));
  fsync_law fd w r w' : sys_fsync fd w = (r, w') → quiet w w' ∧ sysres_ok r ∧
    (∀ n q, r = SysOk n → opened w fd = Some q → synced q w w');
  close_law fd w r w' : sys_close fd w = (r, w') →
    files w' = files w ∧ opened w' = upd (opened w) fd None ∧
    holder w' = upd (holder w) fd false ∧ called w w' ∧ (∀ q, settles w w' q) ∧ sysres_ok r;
  rename_law p q w r w' : sys_rename p q w = (r, w') →
    ((∃ n, r = SysOk n) ∧ called w w' ∧ opened w' = opened w ∧ holder w' = holder w ∧
       (p ≠ q → files w' = upd (upd (files w) p None) q (files w p) ∧
          (∀ c, survives w' q c → survives w q c ∨ ∃ b, c = Some b ∧ stored w p b) ∧
          (∀ b, stored w' q b → stored w p b) ∧
          ∀ x, x ≠ p → x ≠ q → settles w w' x)) ∨ fails r w w';
  unlink_law p w r w' : sys_unlink p w = (r, w') →
    ((∃ n, r = SysOk n) ∧ called w w' ∧ opened w' = opened w ∧ holder w' = holder w ∧
       files w' = upd (files w) p None ∧ ∀ q, q ≠ p → settles w w' q) ∨ fails r w w';
  getpid_law : 0 < sys_getpid < 2147483648;
  malloc_law w b w' : malloc_ok w = (b, w') → w' = w
}.

Module AuthStore.

(** *** [snprintf(buf, capacity, "%s.tmp.%ld.%u", path, pid, attempt)] *)

Definition tmp_infix : bytes := [46; 116; 109; 112; 46]. (* ".tmp." *)

(** [snprintf] keeps at most [capacity - 1] characters; a [long] has at most 19 digits. *)
(* native/auth_store.c:74-74 snprintf *)
Definition temp_name (capacity : Z) (p : path) (pid attempt : Z) : path :=
  take (Z.to_nat (capacity - 1))
    (p ++ tmp_infix ++ decimal 19 pid ++ [46] ++ decimal 19 attempt).

(** *** [strrchr] and the parent directory *)

Fixpoint strrchr (s : bytes) (c : Z) : option nat :=
  match s with
  | [] => None
  | x :: s =>
      match strrchr s c with
      | Some i => Some (S i)
      | None => if x =? c then Some O else None
      end
  end.

(** [None]: no slash.  The path ["/x"] has the parent ["/"]. *)
(* native/auth_store.c:46-53 fsync_parent *)
Definition parent (p : path) : option path :=
  match strrchr p 47 with
  | None => None
  | Some O => Some (take 1 p)
  | Some i => Some (take i p)
  end.

Section code.
Context {W : Type} `{!Errno, !FsOs W}.

(** The loop [while (fcntl(fd, F_SETLKW, &lock) != 0)]: [None] when the fuel
    runs out while the call is still interrupted. *)
(* native/auth_store.c:24-29 adou_auth_lock, the while loop *)
Fixpoint lock_wait (fuel : nat) (fd : Z) (w : W) : option (Z * W) :=
  match fuel with
  | O => None
  | S fuel =>
      let '(r, w) := sys_setlkw fd w in
      match r with
      | SysOk _ => Some (fd, w)
      | SysErr e =>
          if e =? EINTR then lock_wait fuel fd w else
          let '(_, w) := sys_close fd w in Some (- e, w)
      end
  end.

(* native/auth_store.c:11-31 adou_auth_lock *)
Definition adou_auth_lock (fuel : nat) (p : path) (w : W) : option (Z * W) :=
  let '(r, w) := sys_open_lock p w in
  match r with
  | SysErr e => Some (- e, w)
  | SysOk fd =>
      let '(r, w) := sys_fchmod fd 384 w in
      match r with
      | SysErr e => let '(_, w) := sys_close fd w in Some (- e, w)
      | SysOk _ => lock_wait fuel fd w
      end
  end.

(* native/auth_store.c:33-42 adou_auth_unlock *)
Definition adou_auth_unlock (fd : Z) (w : W) : Z * W :=
  let '(r, w) := sys_unlck fd w in
  let saved := match r with SysOk _ => 0 | SysErr e => e end in
  let '(c, w) := sys_close fd w in
  let saved := match c with SysErr e => if saved =? 0 then e else saved | SysOk _ => saved end in
  (if saved =? 0 then 0 else - saved, w).

(* native/auth_store.c:44-64 fsync_parent *)
Definition fsync_parent (p : path) (w : W) : Z * W :=
  let '(copy, w) := malloc_ok w in
  if negb copy then (ENOMEM, w) else
  match parent p with
  | None => (0, w)
  | Some dir =>
      let '(r, w) := sys_open_rdonly dir w in
      match r with
      | SysErr e => (e, w)
      | SysOk fd =>
          let '(s, w) := sys_fsync fd w in
          let result := match s with SysErr e => e | SysOk _ => 0 end in
          let '(_, w) := sys_close fd w in
          (result, w)
      end
  end.

(** The attempts to create a temporary file: [n] attempts are left, [attempt]
    is the number of the next one.  The result carries the last name tried. *)
(* native/auth_store.c:72-77 adou_auth_atomic_write, the for loop *)
Fixpoint create_temp (n : nat) (capacity : Z) (p : path) (attempt : Z) (last : sysres * path) (w : W)
  : sysres * path * W :=
  match n with
  | O => (last, w)
  | S n =>
      let temporary := temp_name capacity p sys_getpid attempt in
      let '(r, w) := sys_open_excl temporary w in
      match r with
      | SysOk fd => (SysOk fd, temporary, w)
      | SysErr e =>
          if e =? EEXIST then create_temp n capacity p (attempt + 1) (SysErr e, temporary) w
          else (SysErr e, temporary, w)
      end
  end.

(** The loop [while (remaining > 0)]: [cursor] is the data still to write. *)
(* native/auth_store.c:84-96 adou_auth_atomic_write, the while loop *)
Fixpoint write_loop (fuel : nat) (fd : Z) (cursor : bytes) (remaining : Z) (w : W)
  : option (Z * W) :=
  if 0 <? remaining then
    match fuel with
    | O => None
    | S fuel =>
        let '(r, w) := sys_write fd cursor remaining w in
        match r with
        | SysErr e =>
            if e =? EINTR then write_loop fuel fd cursor remaining w else Some (e, w)
        | SysOk written =>
            if written <=? 0 then Some (EIO, w)
            else write_loop fuel fd (drop (Z.to_nat written) cursor) (remaining - i32 written) w
        end
    end
  else Some (0, w).

(** After the loop: fsync, close, rename, fsync of the directory, and the
    removal of the temporary file on failure. *)
(* native/auth_store.c:97-103 adou_auth_atomic_write, the commit *)
Definition commit (result : Z) (fd : Z) (temporary p : path) (w : W) : Z * W :=
  let '(result, w) :=
    if result =? 0 then
      let '(r, w) := sys_fsync fd w in
      (match r with SysErr e => e | SysOk _ => result end, w)
    else (result, w) in
  let '(c, w) := sys_close fd w in
  let result := match c with SysErr e => if result =? 0 then e else result | SysOk _ => result end in
  let '(result, w) :=
    if result =? 0 then
      let '(r, w) := sys_rename temporary p w in
      (match r with SysErr e => e | SysOk _ => result end, w)
    else (result, w) in
  let '(result, w) := if result =? 0 then fsync_parent p w else (result, w) in
  let w := if negb (result =? 0) then snd (sys_unlink temporary w) else w in
  (if result =? 0 then 0 else - result, w).

(* native/auth_store.c:66-104 adou_auth_atomic_write *)
Definition adou_auth_atomic_write (fuel : nat) (p : path) (data : bytes) (length : Z) (w : W)
  : option (Z * W) :=
  if length <? 0 then Some (- EINVAL, w) else
  let capacity := Z.of_nat (List.length p) + 64 in
  let '(ok, w) := malloc_ok w in
  if negb ok then Some (- ENOMEM, w) else
  let '(r, temporary, w) := create_temp 100 capacity p 0 (SysErr 0, []) w in
  match r with
  | SysErr saved => Some (- saved, w)
  | SysOk fd =>
      let* (result, w) := write_loop fuel fd data length w in
      Some (commit result fd temporary p w)
  end.

End code.

(** ** Lemmas *)

(** *** Names *)

(** The buffer of [strlen(path) + 64] bytes holds the whole name. *)
Lemma temp_name_fits p pid a :
  temp_name (Z.of_nat (length p) + 64) p pid a =
    p ++ tmp_infix ++ decimal 19 pid ++ [46] ++ decimal 19 a.
Proof.
  unfold temp_name. apply take_ge. rewrite !length_app. cbn [length tmp_infix].
  pose proof (decimal_length 19 pid). pose proof (decimal_length 19 a). lia.
Qed.

Lemma temp_name_fresh p pid a : temp_name (Z.of_nat (length p) + 64) p pid a ≠ p.
Proof.
  rewrite temp_name_fits. intros E. apply (f_equal length) in E.
  rewrite !length_app in E. cbn [length tmp_infix] in E. lia.
Qed.

(** A separator outside the alphabet of two words makes their concatenation injective. *)
Lemma app_sep_inj (P : Z → Prop) c : ∀ l1 l2 r1 r2 : bytes,
  ¬ P c → Forall P l1 → Forall P l2 → l1 ++ c :: r1 = l2 ++ c :: r2 → l1 = l2 ∧ r1 = r2.
Proof.
  induction l1 as [|x l1 IH]; intros [|y l2] r1 r2 Hc H1 H2 E; simplify_eq/=.
  - done.
  - by inversion H2.
  - by inversion H1.
  - apply Forall_cons in H1 as [_ H1], H2 as [_ H2].
    by destruct (IH l2 r1 r2) as [-> ->].
Qed.

Lemma decimal_dot_inj a1 a2 b1 b2 :
  0 ≤ a1 < 10 ^ 19 → 0 ≤ a2 < 10 ^ 19 → 0 ≤ b1 < 10 ^ 19 → 0 ≤ b2 < 10 ^ 19 →
  decimal 19 a1 ++ [46] ++ decimal 19 b1 = decimal 19 a2 ++ [46] ++ decimal 19 b2 →
  a1 = a2 ∧ b1 = b2.
Proof.
  intros ? ? ? ? E. apply (app_sep_inj (λ d, 48 ≤ d < 58)) in E as [E1 E2];
    [|lia|apply decimal_digits; lia..].
  apply (f_equal (λ l, undecimal l 0)) in E1, E2.
  rewrite !undecimal_decimal in E1, E2 by done. done.
Qed.

Section lemmas.
Context {W : Type} `{!Errno, !FsOs W, !ErrnoLaws, !FsLaws W}.

(** *** Sequences of calls after each of which [P] holds *)

Definition visits (P : fsys * survivors → Prop) (w w' : W) : Prop :=
  (∃ l, crashes w' = crashes w ++ l ∧ Forall P l) ∧ (interrupts w' ≤ interrupts w)%nat.

Lemma visits_refl P w : visits P w w.
Proof. split; [|lia]. exists []. by rewrite app_nil_r. Qed.

Lemma visits_trans P w1 w2 w3 : visits P w1 w2 → visits P w2 w3 → visits P w1 w3.
Proof.
  intros [(l1 & E1 & F1) ?] [(l2 & E2 & F2) ?]. split; [|lia]. exists (l1 ++ l2).
  rewrite E2, E1, app_assoc. split; [done|]. by apply Forall_app.
Qed.

Lemma called_visits (P : fsys * survivors → Prop) w w' : called w w' → P (now w') → visits P w w'.
Proof. intros [E ?] HP. split; [|done]. exists [now w']. split; [done|]. by constructor. Qed.

Lemma visits_mono (P Q : fsys * survivors → Prop) w w' : (∀ x, P x → Q x) → visits P w w' → visits Q w w'.
Proof.
  intros HPQ [(l & E & F) ?]. split; [|done]. exists l. split; [done|]. by eapply Forall_impl.
Qed.

(** The path holds what it held, and nothing else can survive there. *)
Definition at_rest (p : path) (w : W) (x : fsys * survivors) : Prop :=
  x.1 p = files w p ∧ ∀ c, x.2 p c → survives w p c.

Definition stays (p : path) (w w' : W) : Prop := visits (at_rest p w) w w' ∧ at_rest p w (now w').

Lemma stays_refl p w : stays p w w.
Proof. split; [apply visits_refl|done]. Qed.

Lemma stays_called p w w' : called w w' → files w' p = files w p → settles w w' p → stays p w w'.
Proof. intros Hc Hf [Hs _]. split; [apply called_visits; [done|]|]; by split. Qed.

Lemma stays_quiet p w w' : quiet w w' → stays p w w'.
Proof. intros (Hc & Hf & _ & _ & Hs). apply stays_called; [done|by rewrite Hf|apply Hs]. Qed.

Lemma at_rest_trans p w1 w2 x : at_rest p w1 (now w2) → at_rest p w2 x → at_rest p w1 x.
Proof. intros [E1 H1] [E2 H2]. split; [by rewrite E2|]. intros c Hc. by apply H1, H2. Qed.

Lemma stays_trans p w1 w2 w3 : stays p w1 w2 → stays p w2 w3 → stays p w1 w3.
Proof.
  intros [V1 R1] [V2 R2]. split; [|by eapply at_rest_trans].
  eapply visits_trans; [done|]. eapply visits_mono; [|done]. intros x. by apply at_rest_trans.
Qed.

(** *** Creating the temporary file *)

Lemma quiet_called w w' : quiet w w' → called w w'.
Proof. by intros []. Qed.

Lemma create_temp_spec n : ∀ cap p a last w r t w',
  cap = Z.of_nat (length p) + 64 →
  create_temp n cap p a last w = (r, t, w') →
  stays p w w' ∧
  ((∃ fd, r = SysOk fd ∧ t ≠ p ∧ files w t = None ∧ files w' = upd (files w) t (Some []) ∧
      opened w fd = None ∧ opened w' = upd (opened w) fd (Some t)) ∨
   (files w' = files w ∧ opened w' = opened w ∧
      ∃ e, r = SysErr e ∧ errno_ok e)) ∨ n = 0%nat ∧ (r, t) = last ∧ w' = w.
Proof.
  induction n as [|n IH]; intros cap p a last w r t w' -> Hr; simpl in Hr.
  { right. destruct last. by simplify_eq. }
  left. set (t0 := temp_name _ _ _ _) in *.
  assert (t0 ≠ p) as Hne by apply temp_name_fresh.
  destruct (sys_open_excl t0 w) as [r0 w1] eqn:E. apply open_excl_law in E.
  destruct E as [((fd & -> & Hfd & Ho & Ho1 & Hh1 & Hc1) & Hn & Hf1 & Hs1)|(e & -> & He & Hq)].
  - simplify_eq. split; [apply stays_called; [done|by rewrite Hf1, upd_ne|by apply Hs1]|].
    left. by exists fd.
  - destruct (e =? EEXIST).
    + pose proof Hq as (_ & Hf & Ho & _).
      eapply (IH _ _ _ _ _ _ _ _ eq_refl) in Hr.
      destruct Hr as [[Hv Hr]|(_ & [= -> ->] & ->)].
      * split; [eapply stays_trans; [by apply stays_quiet|done]|]. by rewrite Hf, Ho in Hr.
      * split; [by apply stays_quiet|]. right. eauto 6.
    + simplify_eq. split; [by apply stays_quiet|]. destruct Hq as (_ & -> & -> & _).
      right. eauto 6.
Qed.

(** *** Writing *)

Lemma write_loop_spec fuel : ∀ fd p t cursor w c r w',
  Z.of_nat (length cursor) < 2147483648 → p ≠ t →
  opened w fd = Some t → files w t = Some c →
  write_loop fuel fd cursor (Z.of_nat (length cursor)) w = Some (r, w') →
  stays p w w' ∧ opened w' = opened w ∧
  (∀ q, q ≠ t → files w' q = files w q) ∧
  ((r = 0 ∧ files w' t = Some (c ++ cursor)) ∨ (0 < r ∧ is_Some (files w' t))).
Proof.
  induction fuel as [|fuel IH]; intros fd p t cursor w c r w' Hlen Hne Hop Hft Hr; simpl in Hr.
  - destruct (Z.ltb_spec 0 (Z.of_nat (length cursor))); [done|]. simplify_eq.
    destruct cursor; simpl in *; [|lia]. rewrite app_nil_r.
    split; [apply stays_refl|]. eauto.
  - destruct (Z.ltb_spec 0 (Z.of_nat (length cursor))).
    2: { simplify_eq. destruct cursor; simpl in *; [|lia]. rewrite app_nil_r.
         split; [apply stays_refl|]. eauto. }
    destruct (sys_write fd cursor _ w) as [r0 w1] eqn:E. apply write_law in E.
    destruct E as [(k & t' & -> & Hk & Hop' & Hf1 & Hc1 & Ho1 & _ & Hs1)|[(e & -> & He & Hq) _]].
    + rewrite Hop in Hop'. simplify_eq. rewrite Hft in Hf1. simpl in Hf1.
      assert (∀ q, q ≠ t' → files w1 q = files w q) as Hfq
        by (intros; rewrite Hf1; by apply upd_ne).
      assert (stays p w w1) as Hv by (apply stays_called; auto).
      pose proof EIO_pos.
      destruct (Z.leb_spec k 0).
      { simplify_eq. split_and!; [done|done|done|]. right. split; [done|].
        rewrite Hf1, upd_eq. eauto. }
      replace (i32 k) with k in Hr by (unfold i32; rewrite Z.mod_small; lia).
      replace (Z.of_nat (length cursor) - k) with (Z.of_nat (length (drop (Z.to_nat k) cursor))) in Hr
        by (rewrite length_drop; lia).
      eapply (IH _ p t' _ _ (c ++ take (Z.to_nat k) cursor)) in Hr.
      * destruct Hr as (Hv' & Ho & Hq & Hr). split; [by eapply stays_trans|].
        split; [by rewrite Ho|]. split; [intros; rewrite Hq by done; by apply Hfq|].
        by rewrite <- app_assoc, take_drop in Hr.
      * rewrite length_drop. lia.
      * done.
      * by rewrite Ho1.
      * by rewrite Hf1, upd_eq.
    + pose proof Hq as (Hc1 & Hf1 & Ho1 & _).
      assert (stays p w w1) as Hv by by apply stays_quiet.
      destruct (e =? EINTR).
      * eapply (IH _ p t _ _ c) in Hr; rewrite ?Ho1, ?Hf1 in *; try done.
        destruct Hr as (Hv' & Hr). split; [by eapply stays_trans|done].
      * simplify_eq. rewrite Hf1, Ho1. split_and!; [done..|].
        right. unfold errno_ok in He. split; [lia|eauto].
Qed.

(** *** Committing *)

Lemma strrchr_spec s : match strrchr s 47 with
  | None => 47 ∉ s
  | Some i => ∃ name, 47 ∉ name ∧ s = take i s ++ 47 :: name ∧ (i < length s)%nat
  end.
Proof.
  induction s as [|x s IH]; [apply not_elem_of_nil|]. cbn [strrchr]. destruct (strrchr s 47) as [i|].
  - destruct IH as (name & Hn & E & Hl). exists name. cbn [take app length]. rewrite <- E. split_and!; [done|done|lia].
  - destruct (Z.eqb_spec x 47) as [->|Hx]; [exists s; cbn; split_and!; [done|done|lia]|].
    by apply not_elem_of_cons.
Qed.

Lemma parent_entry p : 47 ∈ p → ∃ dir, parent p = Some dir ∧ entry_in dir p.
Proof.
  intros Hin. unfold parent. pose proof (strrchr_spec p) as Hs. destruct (strrchr p 47) as [i|]; [|done].
  destruct Hs as (name & Hn & E & Hl). destruct i as [|i].
  - rewrite take_0 in E. cbn [app] in E. subst p. exists [47]. split; [done|]. exists name. split; [done|]. by right.
  - exists (take (S i) p). split; [done|]. exists name. split; [done|]. by left.
Qed.

(** The entry of the path is on the disk when 0 is returned. *)
Lemma fsync_parent_spec p w r w' : fsync_parent p w = (r, w') →
  (∀ q, stays q w w') ∧ files w' = files w ∧ (∀ d, opened w' d = opened w d) ∧ 0 ≤ r ∧
  (r = 0 → 47 ∈ p → is_Some (files w p) → ∀ c, survives w' p c → ∃ b, c = Some b ∧ stored w p b).
Proof.
  pose proof ENOMEM_pos. unfold fsync_parent.
  destruct (malloc_ok w) as [b w1] eqn:E. apply malloc_law in E as ->.
  destruct b; simpl; [|intros [= <- <-]; split_and!; auto using stays_refl; lia].
  destruct (parent p) as [dir|] eqn:Ep.
  2: { intros [= <- <-]. split_and!; auto using stays_refl; [lia|]. intros _ Hin. by destruct (parent_entry p Hin) as (? & E & _); rewrite Ep in E. }
  destruct (sys_open_rdonly dir w) as [r1 w1] eqn:E. apply open_rdonly_law in E.
  destruct E as [((fd & -> & Hfd & Ho & Ho1 & _ & Hc1) & Hf1 & Hs1)|(e & -> & He & Hq)].
  - destruct (sys_fsync fd w1) as [r2 w2] eqn:E. apply fsync_law in E as (Hq2 & Hr2 & Hsync). pose proof Hq2 as (Hc2 & Hf2 & Ho2 & _ & Hs2).
    destruct (sys_close fd w2) as [r3 w3] eqn:E. apply close_law in E as (Hf3 & Ho3 & _ & Hc3 & Hs3 & _).
    intros [= <- <-]. split_and!.
    + intros q. eapply stays_trans; [apply stays_called; [done|by rewrite Hf1|done]|].
      eapply stays_trans; [by apply stays_quiet|]. apply stays_called; [done|by rewrite Hf3|done].
    + congruence.
    + intros d. rewrite Ho3, Ho2, Ho1. destruct (decide (d = fd)) as [->|].
      * by rewrite upd_eq.
      * by rewrite !upd_ne.
    + destruct r2 as [?|e]; [lia|]. simpl in Hr2. unfold errno_ok in Hr2. lia.
    + intros Hz Hin [b Hb] c Hc. destruct r2 as [n|e]; [|simpl in Hr2; unfold errno_ok in Hr2; lia].
      destruct (parent_entry p Hin) as (dir' & E & Hentry). rewrite Ep in E. injection E as <-.
      destruct (Hsync n dir eq_refl) as [_ Hd]; [by rewrite Ho1, upd_eq|].
      specialize (Hd p c Hentry (proj1 (Hs3 p) c Hc)). rewrite Hf1, Hb in Hd. destruct Hd as (b' & -> & Hb').
      exists b'. split; [done|]. by apply (Hs1 p).
  - intros [= <- <-]. pose proof Hq as (_ & -> & -> & _). unfold errno_ok in He.
    split_and!; [|done|done|lia|lia]. intros q. by apply stays_quiet.
Qed.

(** One optional step of the commit: skipped unless the result so far is 0. *)
Lemma fsync_step result fd t w result' w' : 0 ≤ result → opened w fd = Some t →
  (if result =? 0 then
     let '(r, w) := sys_fsync fd w in
     (match r with SysErr e => e | SysOk _ => result end, w)
   else (result, w)) = (result', w') →
  0 ≤ result' ∧ (result' = 0 → result = 0) ∧ files w' = files w ∧ opened w' = opened w ∧
  (∀ q, stays q w w') ∧ (result' = 0 → ∀ b c, files w t = Some b → stored w' t c → c = b).
Proof.
  intros Hpos0 Hop. destruct (Z.eqb_spec result 0) as [->|].
  - destruct (sys_fsync fd w) as [r w1] eqn:E. apply fsync_law in E as (Hq & Hr & Hsync).
    intros [= <- <-]. pose proof Hq as (_ & Hf & Ho & _).
    split_and!; [|done|done|done|by intros; apply stays_quiet|].
    + destruct r; simpl in *; [lia|]. unfold errno_ok in Hr. lia.
    + intros Hz. destruct r as [n|e]; [|simpl in Hr; unfold errno_ok in Hr; lia].
      exact (proj1 (Hsync n t eq_refl Hop)).
  - intros [= <- <-]. split_and!; try done. intros. apply stays_refl.
Qed.

(** The path is as it was, or it is [data], whole. *)
Definition old_or_new (p : path) (data : bytes) (w : W) (x : fsys * survivors) : Prop :=
  (x.1 p = files w p ∨ x.1 p = Some data) ∧ ∀ c, x.2 p c → survives w p c ∨ c = Some data.

Lemma rest_old p data w x : at_rest p w x → old_or_new p data w x.
Proof. intros [E Hx]. split; [by left|]. intros c Hc. left. by apply Hx. Qed.

Lemma old_or_new_rest p data w1 w2 x : at_rest p w1 (now w2) → old_or_new p data w2 x → old_or_new p data w1 x.
Proof. intros [E1 H1] [E2 H2]. cbn in *. rewrite E1 in E2. split; [done|]. intros c [Hc| ->]%H2; [left; auto|by right]. Qed.

Lemma rest_old_or_new p data w1 w2 x : old_or_new p data w1 (now w2) → at_rest p w2 x → old_or_new p data w1 x.
Proof. intros [E1 H1] [E2 H2]. split; [by rewrite E2|]. intros c Hc%H2. by apply H1. Qed.

Lemma stays_visits p data w1 w2 w3 : old_or_new p data w1 (now w2) → stays p w2 w3 →
  visits (old_or_new p data w1) w2 w3 ∧ old_or_new p data w1 (now w3).
Proof.
  intros Hon [V R]. split; [|by eapply rest_old_or_new]. eapply visits_mono; [|exact V]. intros x. by apply rest_old_or_new.
Qed.

Lemma rename_step result t p data w result' w' : t ≠ p → 0 ≤ result →
  (result = 0 → files w t = Some data ∧ ∀ b, stored w t b → b = data) →
  (if result =? 0 then
     let '(r, w) := sys_rename t p w in
     (match r with SysErr e => e | SysOk _ => result end, w)
   else (result, w)) = (result', w') →
  0 ≤ result' ∧ opened w' = opened w ∧
  visits (old_or_new p data w) w w' ∧ old_or_new p data w (now w') ∧
  ((result' = 0 ∧ files w' p = Some data ∧ (∀ b, stored w' p b → b = data) ∧ files w' t = None ∧
      ∀ q, q ≠ p → q ≠ t → files w' q = files w q) ∨
   (0 < result' ∧ files w' = files w)).
Proof.
  intros Hne Hpos0 Hdata. destruct (Z.eqb_spec result 0) as [->|].
  - destruct (Hdata eq_refl) as [Hft Hst].
    destruct (sys_rename t p w) as [r w1] eqn:E. apply rename_law in E.
    destruct E as [([n ->] & Hc & Ho & _ & Hf)|(e & -> & He & Hq)]; intros [= <- <-].
    + destruct (Hf Hne) as (Hf1 & Hs1 & Hd1 & _).
      assert (old_or_new p data w (now w1)) as Hon.
      { split; cbn; [right; by rewrite Hf1, upd_eq|]. intros c [Hc1|(b & -> & Hb)]%Hs1; [by left|right]. by rewrite (Hst b Hb). }
      split_and!; [done|done|by apply called_visits|done|].
      left. rewrite Hf1. split_and!; [done|by rewrite upd_eq|auto|by rewrite upd_ne, upd_eq|].
      intros q ??. by rewrite !upd_ne.
    + pose proof Hq as (_ & Hf1 & Ho & _). unfold errno_ok in He.
      destruct (stays_visits p data w w w1) as [V R]; [by apply rest_old|by apply stays_quiet|].
      split_and!; [lia|done|done|done|]. right. by split; [lia|].
  - intros [= <- <-]. split_and!; try done; [apply visits_refl|by apply rest_old|right; split; [lia|done]].
Qed.

(** The end of the commit: the entry of the path goes to the disk, or the
    temporary file is removed. *)
Lemma commit_spec result fd t p w r w' data :
  0 ≤ result → (result = 0 → files w t = Some data) → t ≠ p → opened w fd = Some t →
  commit result fd t p w = (r, w') →
  visits (old_or_new p data w) w w' ∧ old_or_new p data w (now w') ∧
  (∀ d, opened w' d = upd (opened w) fd None d) ∧
  (∀ q, q ≠ p → q ≠ t → files w' q = files w q) ∧
  ((r = 0 ∧ files w' p = Some data ∧ files w' t = None ∧ (47 ∈ p → ∀ c, survives w' p c → c = Some data)) ∨
   (r < 0 ∧ (files w' p = files w p ∨ files w' p = Some data) ∧
      ((∀ q v e v', sys_unlink q v ≠ (SysErr e, v')) → files w' t = None))).
Proof.
  intros Hpos0 Hdata Hne Hop. unfold commit.
  destruct (if result =? 0 then _ else _) as [res1 w1] eqn:E1.
  apply (fsync_step _ _ t) in E1 as (H1 & Hres1 & Hf1 & Ho1 & Hv1 & Hst1); [|done|done].
  destruct (sys_close fd w1) as [c w2] eqn:E2. apply close_law in E2 as (Hf2 & Ho2 & _ & Hc2 & Hs2 & Hr2).
  set (res2 := match c with SysErr e => if res1 =? 0 then e else res1 | SysOk _ => res1 end).
  assert (0 ≤ res2 ∧ (res2 = 0 → res1 = 0)) as [H2 Hres2].
  { subst res2. destruct c as [n|e]; [done|]. simpl in Hr2. unfold errno_ok in Hr2.
    destruct (Z.eqb_spec res1 0); lia. }
  assert (stays p w w2) as Hs02.
  { eapply stays_trans; [apply Hv1|]. apply stays_called; [done|by rewrite Hf2|apply Hs2]. }
  destruct (if res2 =? 0 then _ else _) as [res3 w3] eqn:E3.
  apply (rename_step _ _ _ data) in E3 as (H3 & Ho3 & Hv3 & Hon3 & Hr3); [|done|done|].
  2: { intros Hz. pose proof (Hres2 Hz) as Hz1. pose proof (Hdata (Hres1 Hz1)) as Hd. rewrite Hf2, Hf1. split; [done|].
       intros b Hb. apply (Hst1 Hz1 data b Hd). by apply (Hs2 t). }
  assert (visits (old_or_new p data w) w w3 ∧ old_or_new p data w (now w3)) as [Hv Hon].
  { destruct Hs02 as [V R]. split; [|by eapply old_or_new_rest]. eapply visits_trans; [eapply visits_mono; [|exact V]; intros x; apply rest_old|].
    eapply visits_mono; [|exact Hv3]. intros x. by apply old_or_new_rest. }
  assert (∀ d, opened w3 d = upd (opened w) fd None d) as Ho by (intros; congruence).
  assert (∀ w4 res4 u w5, sys_unlink t w4 = (u, w5) → visits (old_or_new p data w) w w4 → old_or_new p data w (now w4) →
    (∀ d, opened w4 d = upd (opened w) fd None d) → (∀ q, q ≠ p → q ≠ t → files w4 q = files w q) → 0 < res4 →
    (files w4 p = files w p ∨ files w4 p = Some data) →
    visits (old_or_new p data w) w w5 ∧ old_or_new p data w (now w5) ∧ (∀ d, opened w5 d = upd (opened w) fd None d) ∧
    (∀ q, q ≠ p → q ≠ t → files w5 q = files w q) ∧ - res4 < 0 ∧ (files w5 p = files w p ∨ files w5 p = Some data) ∧
    ((∀ q v e v', sys_unlink q v ≠ (SysErr e, v')) → files w5 t = None)) as Hunlink.
  { intros w4 res4 u w5 E5 Hv4 Hon4 Ho4 Hf4 Hres4 Hp4. pose proof E5 as E5'. apply unlink_law in E5.
    assert (stays p w4 w5 ∧ opened w5 = opened w4 ∧ (∀ q, q ≠ t → files w5 q = files w4 q) ∧
      ((∀ q v e v', sys_unlink q v ≠ (SysErr e, v')) → files w5 t = None)) as (Hst & Ho5 & Hf5 & Ht5).
    { destruct E5 as [(_ & Hc5 & Ho5 & _ & Hf5 & Hs5)|(e & -> & He & Hq5)].
      - split_and!; [apply stays_called; [done|rewrite Hf5; by apply upd_ne|by apply Hs5]|done|intros; rewrite Hf5; by apply upd_ne|by rewrite Hf5, upd_eq].
      - pose proof Hq5 as (_ & Hf5 & Ho5 & _). split_and!; [by apply stays_quiet|done|by intros; rewrite Hf5|]. intros Hu. by apply Hu in E5'. }
    destruct (stays_visits p data w w4 w5 Hon4 Hst) as [V R]. rewrite Ho5, !Hf5 by done.
    split_and!; [by eapply visits_trans|done|done|intros; rewrite Hf5; auto|lia|done|done]. }
  destruct Hr3 as [(-> & Hp & Hstp & Ht & Hq)|[Hpos Hf3]]; simpl.
  - destruct (fsync_parent p w3) as [res4 w4] eqn:E4.
    apply fsync_parent_spec in E4 as (Hv4 & Hf4 & Ho4 & H4 & Hd4).
    destruct (stays_visits p data w w3 w4 Hon (Hv4 p)) as [V R].
    assert (∀ q, q ≠ p → q ≠ t → files w4 q = files w q) as Hq4
      by (intros; rewrite Hf4, Hq by done; congruence).
    assert (visits (old_or_new p data w) w w4) as V4 by by eapply visits_trans.
    assert (∀ d, opened w4 d = upd (opened w) fd None d) as Ho4' by congruence.
    destruct (Z.eqb_spec res4 0) as [->|Hnz]; simpl.
    + intros [= <- <-]. split_and!; [done..|]. left. rewrite Hf4. split_and!; [done..|]. intros Hin x Hx.
      destruct (Hd4 eq_refl Hin (mk_is_Some _ _ Hp) x Hx) as (b & -> & Hb). by rewrite (Hstp b Hb).
    + destruct (sys_unlink t w4) as [u w5] eqn:E5. intros [= <- <-]. simpl.
      destruct (Hunlink w4 res4 u w5) as (? & ? & ? & ? & ? & ? & ?); try done; [lia|right; congruence|]. split_and!; auto.
  - rewrite (proj2 (Z.eqb_neq res3 0)) by lia. simpl. rewrite (proj2 (Z.eqb_neq res3 0)) by lia. simpl.
    destruct (sys_unlink t w3) as [u w5] eqn:E5. intros [= <- <-]. simpl.
    destruct (Hunlink w3 res3 u w5) as (? & ? & ? & ? & ? & ? & ?); try done; [intros; congruence|left; congruence|]. split_and!; auto.
Qed.

(** Everything the function promises, on every path. *)
Lemma atomic_write_spec fuel p data w r w' :
  Z.of_nat (length data) < 2147483648 →
  adou_auth_atomic_write fuel p data (Z.of_nat (length data)) w = Some (r, w') →
  visits (old_or_new p data w) w w' ∧ old_or_new p data w (now w') ∧
  (∀ d, opened w' d = opened w d) ∧
  ((r = 0 ∧ files w' p = Some data ∧ (∀ q, q ≠ p → files w' q = files w q) ∧ (47 ∈ p → ∀ c, survives w' p c → c = Some data)) ∨
   (r < 0 ∧ (files w' p = files w p ∨ files w' p = Some data) ∧
      ((∀ q v e v', sys_unlink q v ≠ (SysErr e, v')) → ∀ q, q ≠ p → files w' q = files w q))).
Proof.
  intros Hlen. unfold adou_auth_atomic_write. pose proof ENOMEM_pos.
  rewrite (proj2 (Z.ltb_ge _ _)) by lia.
  destruct (malloc_ok w) as [b w1] eqn:E. apply malloc_law in E as ->.
  assert (old_or_new p data w (now w)) as Hon0 by by apply rest_old.
  destruct b; simpl negb; cbv iota.
  2: { intros [= <- <-]. split_and!; auto using visits_refl. right. split_and!; auto. lia. }
  destruct (create_temp _ _ _ _ _ w) as [[r1 t] w1] eqn:E.
  apply (create_temp_spec 100 _ _ _ _ _ _ _ _ eq_refl) in E.
  destruct E as [[Hv1 Hr1]|[? _]]; [|done].
  destruct Hr1 as [(fd & -> & Hne & Hnone & Hf1 & Hfd & Ho1)|(Hf1 & Ho1 & Hr1)].
  2: { destruct Hr1 as (e & -> & He). intros [= <- <-]. unfold errno_ok in He.
       destruct (stays_visits p data w w w1 Hon0 Hv1) as [V R].
       split_and!; [done|done|congruence|]. right. rewrite Hf1. split_and!; auto. lia. }
  destruct (write_loop fuel fd data _ w1) as [[res w2]|] eqn:E; [|done].
  eapply (write_loop_spec _ _ p t _ _ []) in E; [|done|done|by rewrite Ho1, upd_eq|by rewrite Hf1, upd_eq].
  destruct E as (Hv2 & Ho2 & Hq2 & Hr2).
  intros [= Hc]. eapply commit_spec in Hc; [|destruct Hr2 as [[-> _]|[? _]]; lia| |done|by rewrite Ho2, Ho1, upd_eq].
  2: { intros ->. destruct Hr2 as [[_ ?]|[? _]]; [done|lia]. }
  assert (files w2 p = files w p) as Hp2 by (rewrite Hq2, Hf1, upd_ne by done; done).
  rewrite Hp2 in Hc. destruct Hc as (Hv3 & Hon3 & Ho3 & Hq3 & Hr3).
  pose proof (stays_trans _ _ _ _ Hv1 Hv2) as Hv12.
  destruct (stays_visits p data w w w2 Hon0 Hv12) as [V R].
  assert (∀ x, old_or_new p data w2 x → old_or_new p data w x) as Hx by (intros x; apply old_or_new_rest, Hv12).
  assert (∀ q, q ≠ p → q ≠ t → files w' q = files w q) as Hq.
  { intros q ??. rewrite Hq3, Hq2, Hf1, upd_ne by done. done. }
  split; [eapply visits_trans; [done|]; by eapply visits_mono|]. split; [by apply Hx|]. split.
  { intros d. rewrite Ho3, Ho2, Ho1. unfold upd. case_decide; [by subst|done]. }
  assert (files w' t = None → ∀ q, q ≠ p → files w' q = files w q) as Hall.
  { intros Ht q ?. destruct (decide (q = t)) as [->|]; [by rewrite Ht|by apply Hq]. }
  destruct Hr3 as [(-> & ? & Ht & ?)|(? & ? & Ht)]; [left; auto|right; auto].
Qed.

(** *** Termination *)

Lemma write_loop_total fuel : ∀ fd cursor w,
  Z.of_nat (length cursor) < 2147483648 → (length cursor + interrupts w ≤ fuel)%nat →
  is_Some (write_loop fuel fd cursor (Z.of_nat (length cursor)) w).
Proof.
  induction fuel as [|fuel IH]; intros fd cursor w Hlen Hf; simpl.
  - destruct (Z.ltb_spec 0 (Z.of_nat (length cursor))); [lia|eauto].
  - destruct (Z.ltb_spec 0 (Z.of_nat (length cursor))); [|eauto].
    destruct (sys_write fd cursor _ w) as [r0 w1] eqn:E. apply write_law in E.
    destruct E as [(k & t' & -> & Hk & _ & _ & [_ Hi] & _)|[(e & -> & He & Hq) Hi]].
    + destruct (Z.leb_spec k 0); [eauto|].
      replace (i32 k) with k by (unfold i32; rewrite Z.mod_small; lia).
      replace (Z.of_nat (length cursor) - k) with (Z.of_nat (length (drop (Z.to_nat k) cursor)))
        by (rewrite length_drop; lia).
      apply IH; rewrite length_drop; lia.
    + destruct (Z.eqb_spec e EINTR) as [->|]; [|eauto]. specialize (Hi eq_refl). apply IH; lia.
Qed.

Lemma atomic_write_total fuel p data w : Z.of_nat (length data) < 2147483648 → (length data + interrupts w ≤ fuel)%nat →
  is_Some (adou_auth_atomic_write fuel p data (Z.of_nat (length data)) w).
Proof.
  intros Hlen Hfuel. unfold adou_auth_atomic_write. rewrite (proj2 (Z.ltb_ge _ _)) by lia.
  destruct (malloc_ok w) as [b w1] eqn:E. apply malloc_law in E as ->. destruct b; cbn [negb]; [|eauto].
  destruct (create_temp _ _ _ _ _ w) as [[r1 t] w1] eqn:E. apply (create_temp_spec 100 _ _ _ _ _ _ _ _ eq_refl) in E.
  destruct E as [[[[_ Hi] _] _]|[? _]]; [|done]. destruct r1 as [fd|e]; [|eauto].
  destruct (write_loop_total fuel fd data w1) as [[res w2] ->]; [done|lia|eauto].
Qed.

Lemma lock_wait_total fuel : ∀ fd w, (interrupts w < fuel)%nat → is_Some (lock_wait fuel fd w).
Proof.
  induction fuel as [|fuel IH]; intros fd w Hf; simpl; [lia|].
  destruct (sys_setlkw fd w) as [r w1] eqn:E. apply setlkw_law in E.
  destruct E as [([n ->] & _)|[(e & -> & He & Hq) Hi]]; [eauto|].
  destruct (Z.eqb_spec e EINTR) as [->|].
  - specialize (Hi eq_refl). apply IH. lia.
  - destruct (sys_close fd w1). eauto.
Qed.

(** *** Locking *)

Lemma lock_wait_spec fuel : ∀ fd w r w', lock_wait fuel fd w = Some (r, w') →
  (r = fd ∧ opened w' = opened w ∧ holder w' = upd (holder w) fd true) ∨
  (r < 0 ∧ opened w' = upd (opened w) fd None ∧ holder w' = upd (holder w) fd false).
Proof.
  induction fuel as [|fuel IH]; intros fd w r w'; simpl; [done|].
  destruct (sys_setlkw fd w) as [r1 w1] eqn:E. apply setlkw_law in E.
  destruct E as [([n ->] & _ & _ & Ho & Hh & _)|[(e & -> & He & Hq) _]].
  - intros [= <- <-]. by left.
  - destruct Hq as (_ & _ & Ho & Hh & _). destruct (e =? EINTR).
    + intros H1%IH. by rewrite Ho, Hh in H1.
    + destruct (sys_close fd w1) as [c w2] eqn:E. apply close_law in E as (_ & Ho2 & Hh2 & _ & _).
      intros [= <- <-]. right. unfold errno_ok in He. rewrite Ho2, Hh2, Ho, Hh. split; [lia|done].
Qed.
End lemmas.

(** ** Properties *)
Section properties.
Context {W : Type} `{!Errno, !FsOs W, !ErrnoLaws, !FsLaws W}.

(** C1: [adou_auth_atomic_write] is atomic and lasting: it returns, and after
    each of its system calls and at its end, another process sees the
    credentials file with its old content or the new data, whole; what a crash
    leaves of the file is what a crash could have left before the call or the
    new data, whole.  When it returns 0 the file has the new data, and after a
    crash too (for a path with a slash: of another the directory is not
    synchronized). *)
Theorem atomic_write_crash_safe fuel p data w :
  Z.of_nat (length data) < 2147483648 → (length data + interrupts w ≤ fuel)%nat →
  ∃ r w', adou_auth_atomic_write fuel p data (Z.of_nat (length data)) w = Some (r, w') ∧
    (∃ l, crashes w' = crashes w ++ l ∧
      Forall (λ x : fsys * survivors, (x.1 p = files w p ∨ x.1 p = Some data) ∧
        ∀ c, x.2 p c → survives w p c ∨ c = Some data) (l ++ [now w'])) ∧
    (r = 0 → files w' p = Some data ∧ (47 ∈ p → ∀ c, survives w' p c → c = Some data)).
Proof.
  intros Hlen Hf. destruct (atomic_write_total fuel p data w Hlen Hf) as [[r w'] E]. exists r, w'. split; [done|].
  apply atomic_write_spec in E as ([(l & Hl & Hall) _] & Hon & _ & Hr); [|done]. split.
  - exists l. split; [done|]. apply Forall_app. split; [done|]. by constructor.
  - intros ->. destruct Hr as [(_ & ? & _ & ?)|[? _]]; [done|lia].
Qed.

(** The outcome of [adou_auth_atomic_write]: 0 exactly when the file has
    the new data and no other path changed (the temporary file is gone); on
    an error the file is old or new, and no other path changed either when
    the removal of the temporary file succeeds; no descriptor is leaked on
    any path, and no existing file is ever overwritten by the temporary. *)
Theorem atomic_write_outcome fuel p data w r w' :
  Z.of_nat (length data) < 2147483648 →
  adou_auth_atomic_write fuel p data (Z.of_nat (length data)) w = Some (r, w') →
  (∀ d, opened w' d = opened w d) ∧
  ((r = 0 ∧ files w' p = Some data ∧ ∀ q, q ≠ p → files w' q = files w q) ∨
   (r < 0 ∧ (files w' p = files w p ∨ files w' p = Some data) ∧
      ((∀ q v e v', sys_unlink q v ≠ (SysErr e, v')) → ∀ q, q ≠ p → files w' q = files w q))).
Proof. intros Hlen Hr. apply atomic_write_spec in Hr as (_ & _ & ? & [(? & ? & ? & _)|?]); auto. Qed.

(** the write loop and the lock loop end: with finitely many signals to
    come, [length data + interrupts] turns of the former and [interrupts + 1]
    of the latter are enough, so both functions return. *)
Theorem auth_store_terminates p data w :
  Z.of_nat (length data) < 2147483648 →
  (∀ fd v, (interrupts v ≤ interrupts w)%nat →
     is_Some (write_loop (length data + interrupts w) fd data (Z.of_nat (length data)) v)) ∧
  is_Some (adou_auth_lock (S (interrupts w)) p w).
Proof.
  intros Hlen. split.
  - intros fd v Hv. apply write_loop_total; [done|lia].
  - unfold adou_auth_lock. destruct (sys_open_lock p w) as [r w1] eqn:E.
    apply open_lock_law in E. assert (interrupts w1 ≤ interrupts w)%nat as Hi.
    { destruct E as [((fd & _ & _ & _ & _ & _ & [_ ?]) & _)|(e & _ & _ & [_ ?] & _)]; lia. }
    destruct r as [fd|e]; [|eauto]. destruct (sys_fchmod fd 384 w1) as [r2 w2] eqn:E2.
    apply fchmod_law in E2 as [([_ ?] & _) _]. destruct r2 as [n|e].
    + apply lock_wait_total. lia.
    + destruct (sys_close fd w2). eauto.
Qed.

(** [adou_auth_lock] returns either a descriptor that is open on the
    lock file and holds the lock, every other descriptor as before, or a
    negative errno with every descriptor as before; and [adou_auth_unlock]
    closes the descriptor and gives up the lock whatever fails. *)
Theorem auth_lock_discipline fuel p w r w' :
  adou_auth_lock fuel p w = Some (r, w') →
  (0 ≤ r ∧ opened w r = None ∧ opened w' = upd (opened w) r (Some p) ∧ holder w' r = true ∧
     ∀ u w'', adou_auth_unlock r w' = (u, w'') →
       u ≤ 0 ∧ (∀ d, opened w'' d = opened w d) ∧ holder w'' r = false) ∨
  (r < 0 ∧ ∀ d, opened w' d = opened w d).
Proof.
  unfold adou_auth_lock. destruct (sys_open_lock p w) as [r1 w1] eqn:E.
  apply open_lock_law in E.
  destruct E as [((fd & -> & Hfd & Ho & Ho1 & Hh1 & _) & _)|(e & -> & He & _ & _ & Ho & _)].
  2: { intros [= <- <-]. right. unfold errno_ok in He. split; [lia|by rewrite Ho]. }
  destruct (sys_fchmod fd 384 w1) as [r2 w2] eqn:E2.
  apply fchmod_law in E2 as [(_ & _ & Ho2 & Hh2 & _) Hr2].
  assert (∀ d, upd (upd (opened w) fd (Some p)) fd None d = opened w d) as Hclosed.
  { intros d. unfold upd. case_decide; by subst. }
  destruct r2 as [n|e].
  - intros Hl. apply lock_wait_spec in Hl. rewrite Ho2, Ho1 in Hl.
    destruct Hl as [(-> & Ho3 & Hh3)|(Hneg & Ho3 & _)]; [left|right; split; [done|by rewrite Ho3]].
    split_and!; [done|done|done|by rewrite Hh3, upd_eq|].
    intros u w''. unfold adou_auth_unlock.
    destruct (sys_unlck fd w') as [r4 w4] eqn:E4. apply unlck_law in E4.
    destruct (sys_close fd w4) as [r5 w5] eqn:E5. apply close_law in E5 as (_ & Ho5 & Hh5 & _ & _ & Hr5).
    intros [= <- <-]. rewrite Ho5, Hh5, upd_eq. split_and!; [| |done].
    + destruct E4 as [([m ->] & _)|(e & -> & He & _)]; destruct r5 as [m5|e5]; simpl in Hr5;
        unfold errno_ok in *; repeat case_match; lia.
    + assert (opened w4 = opened w') as -> by
        (destruct E4 as [(_ & _ & _ & ? & _)|(e & _ & _ & _ & _ & ? & _)]; done).
      rewrite Ho3. apply Hclosed.
  - destruct (sys_close fd w2) as [r3 w3] eqn:E3. apply close_law in E3 as (_ & Ho3 & _).
    intros [= <- <-]. right. simpl in Hr2. unfold errno_ok in Hr2. split; [lia|].
    intros d. rewrite Ho3, Ho2, Ho1. apply Hclosed.
Qed.
End properties.

(** the temporary name is never cut off by the buffer of
    [strlen(path) + 64] bytes and is different for each of the 100 attempts
    (and for each process). *)
Theorem temp_names_distinct p pid1 pid2 a1 a2 :
  is_i32 pid1 → is_i32 pid2 → 0 ≤ pid1 → 0 ≤ pid2 → is_u32 a1 → is_u32 a2 →
  Z.of_nat (length (temp_name (Z.of_nat (length p) + 64) p pid1 a1)) < Z.of_nat (length p) + 64 ∧
  (temp_name (Z.of_nat (length p) + 64) p pid1 a1 = temp_name (Z.of_nat (length p) + 64) p pid2 a2 →
     pid1 = pid2 ∧ a1 = a2).
Proof.
  unfold is_i32, is_u32. intros. rewrite !temp_name_fits. split.
  - rewrite !length_app. pose proof (decimal_length 19 pid1). pose proof (decimal_length 19 a1).
    cbn [length tmp_infix]. lia.
  - intros E%app_inv_head%app_inv_head. apply decimal_dot_inj in E; [|lia..]. done.
Qed.

(** ** An executable file system *)

(** [k_chunk] is the most a write accepts, [k_intr] how many more calls are
    interrupted, [k_broken] a path that cannot be opened for reading.  Nothing
    reaches the disk of [k_survives] and [k_stored] but by [fsync]. *)
Record kernel : Type := mk_kernel {
  k_files : fsys; k_opened : Z → option path; k_holder : Z → bool;
  k_survives : survivors; k_stored : path → bytes → Prop;
  k_crashes : list (fsys * survivors); k_intr : nat; k_chunk : Z; k_next : Z; k_broken : option path
}.

(** The state after a call that sets files, descriptors, lock holders and what
    is on the disk. *)
Definition k_put (f : fsys) (o : Z → option path) (h : Z → bool) (s : survivors) (d : path → bytes → Prop) (k : kernel) : kernel :=
  mk_kernel f o h s d (k_crashes k ++ [(f, s)]) (k_intr k) (k_chunk k) (k_next k) (k_broken k).

Definition k_set (f : fsys) (o : Z → option path) (h : Z → bool) (k : kernel) : kernel :=
  k_put f o h (k_survives k) (k_stored k) k.

Definition k_quiet (k : kernel) : kernel := k_set (k_files k) (k_opened k) (k_holder k) k.

(** A file that is new or written: anything may be found there. *)
Definition k_dirty (f : fsys) (o : Z → option path) (p : path) (k : kernel) : kernel :=
  k_put f o (k_holder k) (upd (k_survives k) p (λ _, True)) (upd (k_stored k) p (λ _, True)) k.

Definition k_signal (k : kernel) : kernel :=
  mk_kernel (k_files k) (k_opened k) (k_holder k) (k_survives k) (k_stored k) (k_crashes k ++ [(k_files k, k_survives k)])
    (pred (k_intr k)) (k_chunk k) (k_next k) (k_broken k).

(** A fresh descriptor for [p], in the state [k'], or ENFILE. *)
Definition k_open (k' : (Z → option path) → kernel) (p : path) (k : kernel) : sysres * kernel :=
  let fd := Z.max 3 (k_next k) in
  match k_opened k fd with
  | Some _ => (SysErr 23, k_quiet k)
  | None =>
      (SysOk fd,
       let k' := k' (upd (k_opened k) fd (Some p)) in
       mk_kernel (k_files k') (k_opened k') (k_holder k') (k_survives k') (k_stored k') (k_crashes k') (k_intr k') (k_chunk k')
         (fd + 1) (k_broken k'))
  end.

(** What is left after a file, or the directory of an entry, is on the disk. *)
Definition k_sync (q : path) (k : kernel) : kernel :=
  let d := λ p b, k_stored k p b ∧ (p = q → ∀ b', k_files k q = Some b' → b = b') in
  k_put (k_files k) (k_opened k) (k_holder k)
    (λ p c, k_survives k p c ∧ (entry_in q p →
       match k_files k p with None => c = None | Some _ => ∃ b, c = Some b ∧ k_stored k p b end)) d k.

#[local] Existing Instance linux_errno.
#[local] Existing Instance linux_errno_laws.

#[local] Instance kernel_os : FsOs kernel := {|
  sys_open_lock p k := k_open (λ o, k_dirty (upd (k_files k) p (Some (default [] (k_files k p)))) o p k) p k;
  sys_open_excl p k :=
    match k_files k p with
    | Some _ => (SysErr 17, k_quiet k)
    | None => k_open (λ o, k_dirty (upd (k_files k) p (Some [])) o p k) p k
    end;
  sys_open_rdonly p k :=
    if bool_decide (k_broken k = Some p) then (SysErr 5, k_quiet k) else k_open (λ o, k_set (k_files k) o (k_holder k) k) p k;
  sys_fchmod fd m k := (SysOk 0, k_quiet k);
  sys_setlkw fd k :=
    match k_intr k with
    | S _ => (SysErr 4, k_signal k)
    | O => (SysOk 0, k_set (k_files k) (k_opened k) (upd (k_holder k) fd true) k)
    end;
  sys_unlck fd k := (SysOk 0, k_set (k_files k) (k_opened k) (upd (k_holder k) fd false) k);
  sys_write fd d n k :=
    match k_intr k, k_opened k fd with
    | S _, _ => (SysErr 4, k_signal k)
    | O, Some p =>
        if n <? 0 then (SysErr 14, k_quiet k) else
        let m := Z.min (Z.max 0 (k_chunk k)) n in
        (SysOk m,
         k_dirty (upd (k_files k) p (Some (default [] (k_files k p) ++ take (Z.to_nat m) d))) (k_opened k) p k)
    | O, None => (SysErr 9, k_quiet k)
    end;
  sys_fsync fd k := match k_opened k fd with Some q => (SysOk 0, k_sync q k) | None => (SysErr 9, k_quiet k) end;
  sys_close fd k :=
    (SysOk 0, k_set (k_files k) (upd (k_opened k) fd None) (upd (k_holder k) fd false) k);
  sys_rename p q k :=
    (SysOk 0, k_put (upd (upd (k_files k) p None) q (k_files k p)) (k_opened k) (k_holder k)
       (upd (upd (k_survives k) p (λ _, True)) q (λ c, k_survives k q c ∨ ∃ b, c = Some b ∧ k_stored k p b))
       (upd (k_stored k) q (k_stored k p)) k);
  sys_unlink p k := (SysOk 0, k_put (upd (k_files k) p None) (k_opened k) (k_holder k) (upd (k_survives k) p (λ _, True)) (k_stored k) k);
  sys_getpid := 4242;
  malloc_ok k := (true, k);
  files := k_files; opened := k_opened; holder := k_holder; survives := k_survives; stored := k_stored; crashes := k_crashes;
  interrupts := k_intr
|}.

Lemma k_set_settles f o h k p : settles k (k_set f o h k) p.
Proof. by split. Qed.

Lemma k_quiet_ok k : quiet k (k_quiet k).
Proof. split; [split; [done|simpl; lia]|]. split_and!; try done. Qed.

Lemma k_dirty_settles f o p k q : q ≠ p → settles k (k_dirty f o p k) q.
Proof. intros Hq. split; intros c; simpl; by rewrite upd_ne. Qed.

Lemma k_open_ok k' p k r k2 : k_open k' p k = (r, k2) →
  (∀ o, k_opened (k' o) = o ∧ k_holder (k' o) = k_holder k ∧ called k (k' o)) →
  opens p r k k2 ∧ (∃ o, k_files k2 = k_files (k' o) ∧ k_survives k2 = k_survives (k' o) ∧ k_stored k2 = k_stored (k' o)) ∨ fails r k k2.
Proof.
  unfold k_open. intros E Hk. destruct (k_opened k (Z.max 3 (k_next k))) eqn:Eo; injection E as <- <-.
  - right. exists 23. split; [done|]. split; [done|apply k_quiet_ok].
  - left. destruct (Hk (upd (k_opened k) (Z.max 3 (k_next k)) (Some p))) as (E1 & E2 & Hc). split; [|by eexists].
    exists (Z.max 3 (k_next k)). split_and!; try done; lia.
Qed.

Lemma k_put_keeps f o s d k : let k' := k_put f o (k_holder k) s d k in
  k_opened k' = o ∧ k_holder k' = k_holder k ∧ called k k'.
Proof. split_and!; [done|done|]. split; [done|simpl; lia]. Qed.

#[local] Instance kernel_laws : FsLaws kernel.
Proof.
  assert (∀ r k k' (P : Prop), (∃ e, r = SysErr e ∧ errno_ok e ∧ k' = k_quiet k) → P ∨ fails r k k') as Hfail.
  { intros r k k' P (e & -> & He & ->). right. exists e. split; [done|]. split; [done|apply k_quiet_ok]. }
  split.
  - intros p k r k' E2. destruct (k_open_ok _ _ _ _ _ E2) as [[Ho (o & Hf & Hs & Hd)]|?]; [intros; apply k_put_keeps|left|by right]. simpl. rewrite Hf. simpl. rewrite upd_eq.
    split_and!; [done| |done]. intros q Hq. rewrite upd_ne by done. split; [done|].
    destruct (k_dirty_settles (k_files k) o p k q Hq). split; simpl; [rewrite Hs|rewrite Hd]; done.
  - intros p k r k'. simpl. destruct (k_files k p) eqn:E; [intros [= <- <-]; apply Hfail; by eexists|].
    intros E2. destruct (k_open_ok _ _ _ _ _ E2) as [[Ho (o & Hf & Hs & Hd)]|?]; [intros; apply k_put_keeps|left|by right].
    split_and!; try done. intros q Hq. destruct (k_dirty_settles (k_files k) o p k q Hq). split; simpl; [rewrite Hs|rewrite Hd]; done.
  - intros p k r k'. simpl. case_bool_decide; [intros [= <- <-]; apply Hfail; by eexists|].
    intros E2. destruct (k_open_ok _ _ _ _ _ E2) as [[Ho (o & Hf & Hs & Hd)]|?]; [intros; apply k_put_keeps|left|by right].
    split_and!; [done|done|]. intros q. split; simpl; [rewrite Hs|rewrite Hd]; done.
  - intros fd m k r k' [= <- <-]. split; [apply k_quiet_ok|done].
  - intros fd k r k'. simpl. destruct (k_intr k) as [|i] eqn:E; intros [= <- <-].
    + left. split; [by exists 0|]. split; [split; [done|simpl; lia]|]. split_and!; done.
    + right. split; [|intros _; simpl; lia]. exists 4. split; [done|]. split; [done|].
      split; [split; [done|simpl; lia]|]. split_and!; done.
  - intros fd k r k' [= <- <-]. left. split; [by exists 0|]. split; [split; [done|simpl; lia]|]. split_and!; done.
  - intros fd d n k r k'. simpl. destruct (k_intr k) as [|i] eqn:E.
    + destruct (k_opened k fd) as [p|] eqn:Ep; [destruct (Z.ltb_spec n 0)|]; intros [= <- <-].
      * right. split; [|done]. exists 14. split; [done|]. split; [done|apply k_quiet_ok].
      * left. eexists _, p. split; [done|]. split; [lia|]. split; [done|]. split; [done|].
        split; [split; [done|simpl; lia]|]. split_and!; [done|done|]. intros q Hq. by apply k_dirty_settles.
      * right. split; [|done]. exists 9. split; [done|]. split; [done|apply k_quiet_ok].
    + intros [= <- <-]. right. split; [|intros _; simpl; lia]. exists 4. split; [done|].
      split; [done|]. split; [split; [done|simpl; lia]|]. split_and!; done.
  - intros fd k r k'. simpl. destruct (k_opened k fd) as [q|] eqn:Eq; intros [= <- <-].
    + split_and!; [|done|].
      * split; [split; [done|simpl; lia]|]. split_and!; try done. intros p. split; [by intros c [? _]|by intros b [? _]].
      * intros n q' _ [= <-]. split; [by intros b c Hb [_ Hc]; apply Hc|]. intros e c He [_ Hc]. by apply Hc.
    + split_and!; [apply k_quiet_ok|done|done].
  - intros fd k r k' [= <- <-]. split; [done|]. split; [done|]. split; [done|].
    split; [split; [done|simpl; lia]|]. split; [|done]. intros q. apply k_set_settles.
  - intros p q k r k' [= <- <-]. left. split; [by exists 0|]. split; [split; [done|simpl; lia]|]. split_and!; [done|done|].
    intros Hne. split_and!; [done|intros c; simpl; by rewrite upd_eq|intros b; simpl; by rewrite upd_eq|].
    intros x Hp Hq. split; intros c; simpl; by rewrite !upd_ne.
  - intros p k r k' [= <- <-]. left. split; [by exists 0|]. split; [split; [done|simpl; lia]|]. split_and!; [done|done|done|].
    intros q Hq. split; intros c; simpl; [by rewrite upd_ne|done].
  - done.
  - by intros k b k' [= _ <-].
Qed.

(** ** Witnesses *)

(** The file "/a" holds [old], on the disk; writes take two bytes at a time, two
    signals arrive. *)
Definition files0 : fsys := λ p, if decide (p = [47; 97]) then Some [1; 1; 1] else None.
Definition kernel0 : kernel :=
  mk_kernel files0 (λ _, None) (λ _, false) (λ p c, c = files0 p) (λ p b, files0 p = Some b) [] 2 2 3 None.

Lemma atomic_write_crash_safe_witness :
  ∃ w', adou_auth_atomic_write 9 [47; 97] [7; 8; 9] 3 kernel0 = Some (0, w') ∧
  (∃ l, crashes w' = [] ++ l ∧ Forall (λ x : fsys * survivors, (x.1 [47; 97] = Some [1; 1; 1] ∨ x.1 [47; 97] = Some [7; 8; 9]) ∧
    ∀ c, x.2 [47; 97] c → c = Some [1; 1; 1] ∨ c = Some [7; 8; 9]) (l ++ [now w'])) ∧
  ∀ c, survives w' [47; 97] c → c = Some [7; 8; 9].
Proof.
  destruct (atomic_write_crash_safe 9 [47; 97] [7; 8; 9] kernel0 eq_refl) as (r & w' & E & Hl & Hd); [vm_compute; lia|].
  assert (r = 0) as ->.
  { apply (f_equal (option_map fst)) in E. vm_compute in E. congruence. }
  exists w'. split; [exact E|]. split; [exact Hl|]. apply (proj2 (Hd eq_refl)). left.
Defined.

(** The directory cannot be opened after the rename: an error is reported
    although the file has been replaced. *)
Definition kernel1 : kernel :=
  mk_kernel files0 (λ _, None) (λ _, false) (λ p c, c = files0 p) (λ p b, files0 p = Some b) [] 0 2 3 (Some [47]).

Lemma atomic_write_outcome_witness :
  ∃ r w', adou_auth_atomic_write 9 [47; 97] [7; 8; 9] 3 kernel1 = Some (r, w') ∧ r = -5 ∧
    files w' [47; 97] = Some [7; 8; 9] ∧ ∀ d, opened w' d = None.
Proof.
  destruct (adou_auth_atomic_write 9 [47; 97] [7; 8; 9] 3 kernel1) as [[r w']|] eqn:E;
    [|vm_compute in E; discriminate].
  exists r, w'. split; [done|]. split; [|split].
  - apply (f_equal (option_map fst)) in E. vm_compute in E. congruence.
  - apply (f_equal (λ o, p ← o; files p.2 [47; 97])) in E. vm_compute in E. done.
  - exact (proj1 (atomic_write_outcome 9 [47; 97] [7; 8; 9] kernel1 r w' eq_refl E)).
Defined.

Lemma auth_store_terminates_witness :
  is_Some (adou_auth_lock 3 [47; 98] kernel0).
Proof. exact (proj2 (auth_store_terminates [47; 98] [7; 8; 9] kernel0 eq_refl)). Defined.

Lemma auth_lock_discipline_witness :
  ∃ r w', adou_auth_lock 3 [47; 98] kernel0 = Some (r, w') ∧ r = 3 ∧
    ∀ u w'', adou_auth_unlock r w' = (u, w'') →
      u ≤ 0 ∧ (∀ d, opened w'' d = None) ∧ holder w'' r = false.
Proof.
  destruct (adou_auth_lock 3 [47; 98] kernel0) as [[r w']|] eqn:E;
    [|vm_compute in E; discriminate].
  assert (r = 3) as Hr.
  { apply (f_equal (option_map fst)) in E. vm_compute in E. congruence. }
  exists r, w'. split; [done|]. split; [done|].
  destruct (auth_lock_discipline 3 [47; 98] kernel0 r w' E) as [(_ & _ & _ & _ & Hu)|[? _]];
    [exact Hu|lia].
Defined.

Lemma temp_names_distinct_witness :
  temp_name 66 [47; 97] 4242 7 =
    [47; 97; 46; 116; 109; 112; 46; 52; 50; 52; 50; 46; 55] ∧
  (temp_name 66 [47; 97] 4242 7 = temp_name 66 [47; 97] 4242 8 → 4242 = 4242 ∧ 7 = 8).
Proof.
  split; [reflexivity|].
  apply (temp_names_distinct [47; 97] 4242 4242 7 8); by compute.
Defined.

End AuthStore.
