(* ===== verification/Icu.v ===== *)
(** * Unicode services ([src/native/unicode_icu.c])

    The file finds ICU at run time and offers segmentation, display widths
    and normalisation over UTF-8 buffers.  ICU, the dynamic linker and the
    allocator are the class [IcuOs]; its laws are what ICU's documentation
    states of them. *)

From Stdlib Require Import Sorted.
From S2P Require Import Prelude.

(** Kinds of break iterators the file opens. *)
Inductive UBreakIteratorType : Type := UBRK_CHARACTER | UBRK_WORD.

#[global] Instance UBreakIteratorType_eq_dec : EqDecision UBreakIteratorType.
Proof. solve_decision. Defined.

(** [U_ZERO_ERROR], [U_BUFFER_OVERFLOW_ERROR] and any other failing status. *)
Inductive UErrorCode : Type := U_ZERO_ERROR | U_BUFFER_OVERFLOW_ERROR | U_OTHER_FAILURE.

#[global] Instance UErrorCode_eq_dec : EqDecision UErrorCode.
Proof. solve_decision. Defined.

(** [U_FAILURE]: the buffer overflow status is a failure too. *)
Definition U_FAILURE (s : UErrorCode) : bool := bool_decide (s ≠ U_ZERO_ERROR).

(** The general categories the code names, and the rest. *)
Inductive char_category : Type :=
| U_CONTROL_CHAR | U_FORMAT_CHAR | U_NON_SPACING_MARK | U_ENCLOSING_MARK
| U_COMBINING_SPACING_MARK | U_SURROGATE | U_OTHER_CATEGORY.

#[global] Instance char_category_eq_dec : EqDecision char_category.
Proof. solve_decision. Defined.

Inductive east_asian_width : Type := U_EA_WIDE | U_EA_FULLWIDTH | U_EA_OTHER.

Inductive script : Type :=
| USCRIPT_HAN | USCRIPT_HIRAGANA | USCRIPT_KATAKANA | USCRIPT_HANGUL | USCRIPT_BOPOMOFO
| USCRIPT_OTHER.

(** Strings of UTF-16 code units ([UChar *] with a length). *)
Abbreviation utf16 := (list Z).

Class IcuOs (W : Type) : Type := {
  (** the dynamic linker: does the library (symbol) exist? *)
  dlopen : string → bool;
  dlsym : string → bool;
  malloc_ok : W → bool * W;
  free : W → W;
  (** segmentation *)
  text_open_utf8 : bytes → W → bool * W;
  text_close : W → W;
  break_open : UBreakIteratorType → W → bool * W;
  break_set_text : W → bool * W;
  break_close : W → W;
  boundaries : UBreakIteratorType → bytes → list Z;   (* what first, next, next, ... return *)
  rule_status : bytes → Z → Z;                         (* getRuleStatus after reaching a boundary *)
  UBRK_WORD_NUMBER : Z;
  (** properties of code points *)
  char_type : Z → char_category;
  is_default_ignorable : Z → bool;
  is_emoji_presentation : Z → bool;
  east_asian : Z → east_asian_width;
  script_of : Z → script;
  (** U8_NEXT(s, i, length, c): the new offset and the code point, negative
      when the sequence is ill-formed *)
  u8_next : bytes → Z → Z → Z * Z;
  (** conversions and normalisation; [None] when the input is refused *)
  from_utf8 : bytes → option utf16;
  to_utf8 : utf16 → option bytes;
  nfkc : option (utf16 → option utf16);               (* None: no normalizer instance *)
  nfd : option (utf16 → option utf16);
  (** open resources: text handles, iterators, heap blocks *)
  live : W → Z * Z * Z
}.

Class IcuLaws (W : Type) `{!IcuOs W} : Prop := {
  boundaries_law ty t : ∃ l, boundaries ty t = 0 :: l ∧
    StronglySorted Z.lt (0 :: l) ∧ last (0 :: l) = Some (Z.of_nat (length t));
  u8_next_law t i n i' c : u8_next t i n = (i', c) → 0 ≤ i < n → i < i' ≤ n;
  malloc_law w b w' : malloc_ok w = (b, w') →
    live w' = let '(t, i, h) := live w in (t, i, if b then h + 1 else h);
  free_law w : live (free w) = let '(t, i, h) := live w in (t, i, h - 1);
  text_open_law t w b w' : text_open_utf8 t w = (b, w') →
    live w' = let '(x, i, h) := live w in (if b then x + 1 else x, i, h);
  text_close_law w : live (text_close w) = let '(x, i, h) := live w in (x - 1, i, h);
  break_open_law ty w b w' : break_open ty w = (b, w') →
    live w' = let '(x, i, h) := live w in (x, if b then i + 1 else i, h);
  break_set_law w b w' : break_set_text w = (b, w') → live w' = live w;
  break_close_law w : live (break_close w) = let '(x, i, h) := live w in (x, i - 1, h)
}.

Module Icu.

(** The fields of [icu_api_t] that are state; the function pointers are the
    operations of [IcuOs]. *)
(* native/unicode_icu.c:33-54 icu_api_t *)
Record icu_api_t : Type := mk_api { attempted : bool; available : bool }.

(* native/unicode_icu.c:56-56 api *)
Definition api_init : icu_api_t := mk_api false false.

Definition INT32_MAX : Z := 2147483647.

Section code.
Context {W : Type} `{!IcuOs W}.

(* native/unicode_icu.c:58-64 open_first *)
Fixpoint open_first (names : list string) : bool :=
  match names with
  | [] => false
  | n :: names => if dlopen n then true else open_first names
  end.

Definition i18n_names : list string :=
  ["/opt/homebrew/opt/icu4c/lib/libicui18n.dylib"; "/usr/local/opt/icu4c/lib/libicui18n.dylib";
   "libicui18n.dylib"; "libicui18n.so"]%string.

Definition common_names : list string :=
  ["/opt/homebrew/opt/icu4c/lib/libicuuc.dylib"; "/usr/local/opt/icu4c/lib/libicuuc.dylib";
   "libicuuc.dylib"; "libicuuc.so"]%string.

Definition symbols : list string :=
  ["ubrk_open"; "ubrk_close"; "ubrk_setUText"; "ubrk_first"; "ubrk_next"; "ubrk_getRuleStatus";
   "utext_openUTF8"; "utext_close"; "u_charType"; "u_hasBinaryProperty"; "u_getIntPropertyValue";
   "unorm2_getNFKCInstance"; "unorm2_getNFDInstance"; "unorm2_normalize"; "u_strFromUTF8";
   "u_strToUTF8"]%string.

(* native/unicode_icu.c:66-92 load_icu *)
Definition load_icu (api : icu_api_t) : bool * icu_api_t :=
  if attempted api then (available api, api) else
  let i18n := open_first i18n_names in
  let common := open_first common_names in
  if negb i18n || negb common then (false, mk_api true (available api)) else
  let ok := forallb dlsym symbols in
  (ok, mk_api true ok).

(* native/unicode_icu.c:94-96 adou_icu_available *)
Definition adou_icu_available (api : icu_api_t) : bool * icu_api_t := load_icu api.

(** A preflighting conversion: with a buffer of [capacity] units the result
    and the status, as [u_strFromUTF8], [unorm2_normalize] and [u_strToUTF8]
    report them. *)
Definition convert (r : option (list Z)) (capacity : Z) : Z * UErrorCode :=
  match r with
  | None => (0, U_OTHER_FAILURE)
  | Some l =>
      (Z.of_nat (length l),
       if Z.of_nat (length l) <=? capacity then U_ZERO_ERROR else U_BUFFER_OVERFLOW_ERROR)
  end.

(** The bytes stored in [output] are the second component of the result. *)
(* native/unicode_icu.c:98-154 normalize_utf8 *)
Definition normalize_utf8 (get_normalizer : option (utf16 → option utf16)) (text : option bytes) (length : Z)
    (output_null : bool) (capacity : Z) (api : icu_api_t) (w : W)
  : Z * option bytes * icu_api_t * W :=
  let '(ok, api) := load_icu api in
  match text with
  | None => (-1, None, api, w)
  | Some text =>
  if negb ok || (length <? 0) || (INT32_MAX <? length) || (capacity <? 0) || (INT32_MAX <? capacity)
  then (-1, None, api, w) else
  let text := take (Z.to_nat length) text in
  let '(source_length, status) := convert (from_utf8 text) 0 in
  if negb (bool_decide (status = U_BUFFER_OVERFLOW_ERROR)) && U_FAILURE status
  then (-1, None, api, w) else
  let '(m, w) := malloc_ok w in
  if negb m then (-1, None, api, w) else
  let '(_, status) := convert (from_utf8 text) (source_length + 1) in
  if U_FAILURE status then (-1, None, api, free w) else
  match get_normalizer with
  | None => (-1, None, api, free w)
  | Some normalizer =>
  let source := default [] (from_utf8 text) in
  let '(normalized_length, status) := convert (normalizer source) 0 in
  if negb (bool_decide (status = U_BUFFER_OVERFLOW_ERROR)) && U_FAILURE status
  then (-1, None, api, free w) else
  let '(m, w) := malloc_ok w in
  if negb m then (-1, None, api, free w) else
  let '(_, status) := convert (normalizer source) (normalized_length + 1) in
  let w := free w in
  if U_FAILURE status then (-1, None, api, free w) else
  let normalized := default [] (normalizer source) in
  let '(required, status) := convert (to_utf8 normalized) 0 in
  if negb (bool_decide (status = U_BUFFER_OVERFLOW_ERROR)) && U_FAILURE status
  then (-1, None, api, free w) else
  if output_null || (capacity =? 0) then (required, None, api, free w) else
  if capacity <=? required then (-2, None, api, free w) else
  let '(required, status) := convert (to_utf8 normalized) capacity in
  if U_FAILURE status then (-1, None, api, free w)
  else (required, to_utf8 normalized, api, free w)
  end end.

(* native/unicode_icu.c:156-159 adou_icu_nfkc *)
Definition adou_icu_nfkc (text : option bytes) (length : Z) (output_null : bool) (capacity : Z)
    (api : icu_api_t) (w : W) : Z * option bytes * icu_api_t * W :=
  let '(ok, api) := load_icu api in
  if negb ok then (-1, None, api, w)
  else normalize_utf8 nfkc text length output_null capacity api w.

(* native/unicode_icu.c:161-164 adou_icu_nfd *)
Definition adou_icu_nfd (text : option bytes) (length : Z) (output_null : bool) (capacity : Z)
    (api : icu_api_t) (w : W) : Z * option bytes * icu_api_t * W :=
  let '(ok, api) := load_icu api in
  if negb ok then (-1, None, api, w)
  else normalize_utf8 nfd text length output_null capacity api w.

(** An open iterator is what it will return. *)
(* native/unicode_icu.c:166-182 open_break_iterator *)
Definition open_break_iterator (text : bytes) (length : Z) (type : UBreakIteratorType)
    (api : icu_api_t) (w : W) : option (list Z) * icu_api_t * W :=
  let '(ok, api) := load_icu api in
  if negb ok || (length <? 0) || (INT32_MAX <? length) then (None, api, w) else
  let text := take (Z.to_nat length) text in
  let '(t, w) := text_open_utf8 text w in
  if negb t then (None, api, w) else
  let '(b, w) := break_open type w in
  if negb b then (None, api, text_close w) else
  let '(s, w) := break_set_text w in
  if negb s then (None, api, text_close (break_close w)) else
  (Some (boundaries type text), api, w).

(** The loop over [ubrk_next]: the iterator is the boundaries still to come,
    [UBRK_DONE] its end; [out] is the array [boundaries]. *)
(* native/unicode_icu.c:191-198 adou_icu_grapheme_breaks, the while loop *)
Fixpoint breaks_loop (iter : list Z) (out : list Z) (count capacity : Z) : option (Z * list Z) :=
  match iter with
  | [] => Some (count, out)
  | boundary :: iter =>
      if capacity <=? count then Some (-2, out)
      else let* out := wr out count boundary in breaks_loop iter out (count + 1) capacity
  end.

(* native/unicode_icu.c:184-202 adou_icu_grapheme_breaks *)
Definition adou_icu_grapheme_breaks (text : bytes) (length : Z) (out : option (list Z)) (capacity : Z)
    (api : icu_api_t) (w : W) : option (Z * option (list Z) * icu_api_t * W) :=
  match out with
  | None => Some (-1, None, api, w)
  | Some arr =>
      if capacity <=? 0 then Some (-1, out, api, w) else
      let '(iterator, api, w) := open_break_iterator text length UBRK_CHARACTER api w in
      match iterator with
      | None => Some (-1, out, api, w)
      | Some iter =>
          let* (count, arr) := breaks_loop iter arr 0 capacity in
          Some (count, Some arr, api, text_close (break_close w))
      end
  end.

(** [starts], [ends] and [word_like], one entry per segment. *)
(* native/unicode_icu.c:212-223 adou_icu_word_segments, the while loop *)
Fixpoint words_loop (text : bytes) (start : Z) (iter : list Z) (starts ends word_like : list Z)
    (count capacity : Z) : option (Z * list Z * list Z * list Z) :=
  match iter with
  | [] => Some (count, starts, ends, word_like)
  | stop :: iter =>
      if capacity <=? count then Some (-2, starts, ends, word_like) else
      let* starts := wr starts count start in
      let* ends := wr ends count stop in
      let* word_like := wr word_like count (if UBRK_WORD_NUMBER <=? rule_status text stop then 1 else 0) in
      words_loop text stop iter starts ends word_like (count + 1) capacity
  end.

(* native/unicode_icu.c:204-227 adou_icu_word_segments *)
Definition adou_icu_word_segments (text : bytes) (length : Z)
    (arrays : option (list Z * list Z * list Z)) (capacity : Z) (api : icu_api_t) (w : W)
  : option (Z * option (list Z * list Z * list Z) * icu_api_t * W) :=
  match arrays with
  | None => Some (-1, None, api, w)
  | Some (starts, ends, word_like) =>
      if capacity <=? 0 then Some (-1, arrays, api, w) else
      let '(iterator, api, w) := open_break_iterator text length UBRK_WORD api w in
      match iterator with
      | None => Some (-1, arrays, api, w)
      | Some iter =>
          let start := hd (-1) iter in
          let* (count, starts, ends, word_like) :=
            words_loop (take (Z.to_nat length) text) start (tl iter) starts ends word_like 0 capacity in
          Some (count, Some (starts, ends, word_like), api, text_close (break_close w))
      end
  end.

(* native/unicode_icu.c:229-232 non_printing *)
Definition non_printing (codepoint : Z) : bool :=
  is_default_ignorable codepoint ||
  match char_type codepoint with
  | U_CONTROL_CHAR | U_FORMAT_CHAR | U_NON_SPACING_MARK | U_ENCLOSING_MARK
  | U_COMBINING_SPACING_MARK | U_SURROGATE => true
  | U_OTHER_CATEGORY => false
  end.

(** The width of a wide or narrow code point. *)
Definition cell_width (codepoint : Z) : Z :=
  match east_asian codepoint with U_EA_WIDE | U_EA_FULLWIDTH => 2 | U_EA_OTHER => 1 end.

Definition emoji_mark (codepoint : Z) : bool :=
  (codepoint =? 0x200d) || (codepoint =? 0xfe0f) || (codepoint =? 0x20e3) ||
  is_emoji_presentation codepoint.

Definition regional_indicator (codepoint : Z) : bool :=
  (0x1f1e6 <=? codepoint) && (codepoint <=? 0x1f1ff).

(** The local variables of the width loop. *)
Record width_state : Type := mk_ws {
  all_non_printing : bool; emoji : bool; regional : bool; width : Z; found_base : bool
}.

(** One turn of the loop on a decoded code point. *)
(* native/unicode_icu.c:245-260 adou_icu_grapheme_width, the loop body *)
Definition width_step (s : width_state) (codepoint : Z) : width_state :=
  let all_np := if negb (non_printing codepoint) then false else all_non_printing s in
  let em := if emoji_mark codepoint then true else emoji s in
  let rg := if regional_indicator codepoint then true else regional s in
  if negb (found_base s) && negb (non_printing codepoint) then
    mk_ws all_np em rg (cell_width codepoint) true
  else if found_base s &&
       (((0xff00 <=? codepoint) && (codepoint <=? 0xffef)) || (codepoint =? 0x0e33) ||
        (codepoint =? 0x0eb3)) then
    mk_ws all_np em rg
      (width s + (if (codepoint =? 0x0e33) || (codepoint =? 0x0eb3) then 1 else cell_width codepoint))
      (found_base s)
  else mk_ws all_np em rg (width s) (found_base s).

(** The loop [while (offset < length)]; [None] for an ill-formed sequence.
    The offset grows at each turn, so [length] turns are enough. *)
(* native/unicode_icu.c:244-261 adou_icu_grapheme_width, the while loop *)
Fixpoint width_loop (fuel : nat) (text : bytes) (offset length : Z) (s : width_state)
  : option width_state :=
  match fuel with
  | O => None
  | S fuel =>
      if offset <? length then
        let '(offset, codepoint) := u8_next text offset length in
        if codepoint <? 0 then None
        else width_loop fuel text offset length (width_step s codepoint)
      else Some s
  end.

(* native/unicode_icu.c:234-264 adou_icu_grapheme_width *)
Definition adou_icu_grapheme_width (text : option bytes) (length : Z) (api : icu_api_t)
  : Z * icu_api_t :=
  let '(ok, api) := load_icu api in
  match text with
  | None => (if length =? 0 then 0 else -1, api)
  | Some text =>
      if negb ok || (length <=? 0) || (INT32_MAX <? length)
      then (if length =? 0 then 0 else -1, api) else
      if (length =? 1) && bool_decide (rd text 0 = Some 9) then (3, api) else
      match width_loop (S (Z.to_nat length)) text 0 length (mk_ws true false false 0 false) with
      | None => (-1, api)
      | Some s =>
          if all_non_printing s || negb (found_base s) then (0, api)
          else if emoji s || regional s then (2, api) else (width s, api)
      end
  end.

(* native/unicode_icu.c:266-269 adou_icu_grapheme_width_at *)
Definition adou_icu_grapheme_width_at (text : option bytes) (length start stop : Z)
    (api : icu_api_t) : Z * icu_api_t :=
  if bool_decide (text = None) || (start <? 0) || (stop <? start) || (length <? stop) then (-1, api)
  else adou_icu_grapheme_width (drop (Z.to_nat start) <$> text) (stop - start) api.

(* native/unicode_icu.c:279-288 adou_icu_visible_width, the while loop *)
Fixpoint visible_loop (text : bytes) (start : Z) (iter : list Z) (acc : Z) (api : icu_api_t)
  : Z * icu_api_t :=
  match iter with
  | [] => (acc, api)
  | stop :: iter =>
      let '(segment_width, api) :=
        adou_icu_grapheme_width (Some (drop (Z.to_nat start) text)) (stop - start) api in
      if segment_width <? 0 then (-1, api)
      else visible_loop text stop iter (acc + segment_width) api
  end.

(* native/unicode_icu.c:271-292 adou_icu_visible_width *)
Definition adou_icu_visible_width (text : option bytes) (length : Z) (api : icu_api_t) (w : W)
  : Z * icu_api_t * W :=
  let '(ok, api) := load_icu api in
  match text with
  | None => (-1, api, w)
  | Some text =>
      if negb ok || (length <? 0) || (INT32_MAX <? length) then (-1, api, w) else
      let '(iterator, api, w) := open_break_iterator text length UBRK_CHARACTER api w in
      match iterator with
      | None => (-1, api, w)
      | Some iter =>
          let '(total, api) := visible_loop text (hd (-1) iter) (tl iter) 0 api in
          (total, api, text_close (break_close w))
      end
  end.

(* native/unicode_icu.c:294-302 adou_icu_is_cjk_break *)
Definition adou_icu_is_cjk_break (text : option bytes) (length : Z) (api : icu_api_t)
  : bool * icu_api_t :=
  let '(ok, api) := load_icu api in
  match text with
  | None => (false, api)
  | Some text =>
      if negb ok || (length <=? 0) || (INT32_MAX <? length) then (false, api) else
      let '(_, codepoint) := u8_next text 0 length in
      if codepoint <? 0 then (false, api)
      else (match script_of codepoint with USCRIPT_OTHER => false | _ => true end, api)
  end.

(* native/unicode_icu.c:304-307 adou_icu_is_cjk_break_at *)
Definition adou_icu_is_cjk_break_at (text : option bytes) (length start stop : Z)
    (api : icu_api_t) : bool * icu_api_t :=
  if bool_decide (text = None) || (start <? 0) || (stop <? start) || (length <? stop)
  then (false, api)
  else adou_icu_is_cjk_break (drop (Z.to_nat start) <$> text) (stop - start) api.

(** ** Specifications *)

(** The code points of a buffer, or [None] if it is ill-formed. *)
Fixpoint decode (fuel : nat) (text : bytes) (offset length : Z) : option (list Z) :=
  match fuel with
  | O => None
  | S fuel =>
      if offset <? length then
        let '(offset, codepoint) := u8_next text offset length in
        if codepoint <? 0 then None
        else let* cps := decode fuel text offset length in Some (codepoint :: cps)
      else Some []
  end.

(** What a code point after the base adds to the width. *)
Definition extra_width (codepoint : Z) : Z :=
  if (codepoint =? 0x0e33) || (codepoint =? 0x0eb3) then 1
  else if (0xff00 <=? codepoint) && (codepoint <=? 0xffef) then cell_width codepoint else 0.

Fixpoint skip_non_printing (cps : list Z) : list Z :=
  match cps with
  | [] => []
  | c :: rest => if non_printing c then skip_non_printing rest else cps
  end.

(** The width of a grapheme cluster: nothing printable is 0 columns wide,
    emoji and flags are 2, otherwise it is the base character's cells and
    those of the half- and full-width forms and AM vowels after it. *)
Definition grapheme_cells (cps : list Z) : Z :=
  match skip_non_printing cps with
  | [] => 0
  | base :: rest =>
      if existsb emoji_mark cps || existsb regional_indicator cps then 2
      else cell_width base + foldr Z.add 0 (map extra_width rest)
  end.

(** Consecutive pairs of a list of boundaries. *)
Fixpoint segments (start : Z) (stops : list Z) : list (Z * Z) :=
  match stops with
  | [] => []
  | stop :: stops => (start, stop) :: segments stop stops
  end.

(** The sum of results, or -1 if one of them is negative. *)
Fixpoint sum_widths (ws : list Z) : Z :=
  match ws with
  | [] => 0
  | x :: ws => if x <? 0 then -1 else if sum_widths ws <? 0 then -1 else x + sum_widths ws
  end.

(** ** Lemmas *)

Lemma width_loop_decode fuel : ∀ text offset length s,
  width_loop fuel text offset length s =
    let* cps := decode fuel text offset length in Some (fold_left width_step cps s).
Proof.
  induction fuel as [|fuel IH]; intros text offset length s; simpl; [done|].
  case_match; [|done]. destruct (u8_next text offset length) as [o c].
  case_match; [done|]. rewrite IH. by destruct (decode fuel text o length).
Qed.

Lemma width_step_flags cps : ∀ s,
  let s' := fold_left width_step cps s in
  all_non_printing s' = all_non_printing s && forallb non_printing cps ∧
  emoji s' = emoji s || existsb emoji_mark cps ∧
  regional s' = regional s || existsb regional_indicator cps ∧
  found_base s' = found_base s || existsb (λ c, negb (non_printing c)) cps.
Proof.
  induction cps as [|c cps IH]; intros s; simpl.
  { by rewrite andb_true_r, !orb_false_r. }
  destruct (IH (width_step s c)) as (Ha & He & Hr & Hf).
  rewrite Ha, He, Hr, Hf. clear. unfold width_step.
  destruct (non_printing c), (emoji_mark c), (regional_indicator c), (found_base s),
    (all_non_printing s), (emoji s), (regional s); simpl; repeat case_match; done.
Qed.

Lemma width_after_base cps : ∀ s, found_base s = true →
  width (fold_left width_step cps s) = width s + foldr Z.add 0 (map extra_width cps).
Proof.
  induction cps as [|c cps IH]; intros s Hs; simpl; [lia|].
  assert (found_base (width_step s c) = true ∧
    width (width_step s c) = width s + extra_width c) as [Hf Hw].
  { unfold width_step, extra_width. rewrite Hs. simpl.
    destruct ((c =? 0x0e33) || (c =? 0x0eb3)) eqn:E.
    - assert (((0xff00 <=? c) && (c <=? 0xffef)) || (c =? 0x0e33) || (c =? 0x0eb3) = true) as ->.
      { rewrite <- orb_assoc, E. apply orb_true_r. }
      done.
    - rewrite <- orb_assoc, E, orb_false_r. destruct (_ && _); simpl; [done|]. by rewrite Z.add_0_r. }
  rewrite IH by done. lia.
Qed.

Lemma width_before_base cps : ∀ s, found_base s = false →
  match skip_non_printing cps with
  | [] => found_base (fold_left width_step cps s) = false
  | base :: rest =>
      found_base (fold_left width_step cps s) = true ∧
      width (fold_left width_step cps s) = cell_width base + foldr Z.add 0 (map extra_width rest)
  end.
Proof.
  induction cps as [|c cps IH]; intros s Hs; simpl; [done|].
  destruct (non_printing c) eqn:Ec.
  - apply IH. unfold width_step. by rewrite Hs, Ec.
  - assert (found_base (width_step s c) = true ∧ width (width_step s c) = cell_width c) as [Hf Hw].
    { unfold width_step. by rewrite Hs, Ec. }
    split.
    + destruct (width_step_flags cps (width_step s c)) as (_ & _ & _ & ->). by rewrite Hf.
    + by rewrite width_after_base, Hw.
Qed.

Lemma skip_nil cps : skip_non_printing cps = [] ↔ forallb non_printing cps = true.
Proof.
  induction cps as [|c cps IH]; simpl; [done|]. by destruct (non_printing c).
Qed.

Lemma width_loop_cells cps :
  let s := fold_left width_step cps (mk_ws true false false 0 false) in
  (if all_non_printing s || negb (found_base s) then 0
   else if emoji s || regional s then 2 else width s) = grapheme_cells cps.
Proof.
  intros s. destruct (width_step_flags cps (mk_ws true false false 0 false)) as (Ha & He & Hr & _).
  fold s in Ha, He, Hr. simpl in *. rewrite Ha, He, Hr.
  pose proof (width_before_base cps (mk_ws true false false 0 false) eq_refl) as Hw.
  fold s in Hw. unfold grapheme_cells. pose proof (skip_nil cps) as Hsk.
  destruct (skip_non_printing cps) as [|base rest].
  - by rewrite (proj1 Hsk eq_refl).
  - destruct Hw as [-> ->]. destruct (forallb non_printing cps); [|done].
    by discriminate (proj2 Hsk eq_refl).
Qed.

Lemma load_available api : available api = true → attempted api = true → load_icu api = (true, api).
Proof. intros Ha Ht. unfold load_icu. by rewrite Ht, Ha. Qed.

Lemma load_memo api : (attempted api = false → available api = false) →
  attempted (snd (load_icu api)) = true ∧
  load_icu (snd (load_icu api)) = (fst (load_icu api), snd (load_icu api)).
Proof.
  intros Ha. unfold load_icu. destruct (attempted api) eqn:Ea; simpl; [by rewrite Ea|].
  rewrite (Ha eq_refl). destruct (negb _ || negb _); done.
Qed.

Section laws.
Context `{!IcuLaws W}.

Lemma decode_total fuel : ∀ text offset length,
  0 ≤ offset ≤ length → length - offset < Z.of_nat fuel →
  decode fuel text offset length = None →
  ∃ o, offset ≤ o < length ∧ snd (u8_next text o length) < 0.
Proof.
  induction fuel as [|fuel IH]; intros text offset length Ho Hf; simpl; [lia|].
  destruct (Z.ltb_spec offset length); [|done].
  destruct (u8_next text offset length) as [o c] eqn:E.
  pose proof (u8_next_law _ _ _ _ _ E). destruct (Z.ltb_spec c 0).
  - intros _. exists offset. rewrite E. split; [lia|done].
  - destruct (decode fuel text o length) eqn:Ed; [done|]. intros _.
    destruct (IH text o length) as (o' & ? & ?); [lia|lia|done|]. exists o'. split; [lia|done].
Qed.

(** An iterator was opened (and both handles are held), or nothing is held. *)
Lemma open_break_spec text length ty api w r api' w' :
  open_break_iterator text length ty api w = (r, api', w') →
  let '(x, i, h) := live w in
  (live w' = (x, i, h) ∧ r = None) ∨
  (live w' = (x + 1, i + 1, h) ∧ r = Some (boundaries ty (take (Z.to_nat length) text)) ∧
     0 ≤ length ≤ INT32_MAX).
Proof.
  unfold open_break_iterator. destruct (load_icu api) as [ok api1].
  destruct (live w) as [[x i] h] eqn:El.
  destruct (negb ok || (length <? 0) || (INT32_MAX <? length)) eqn:Eg.
  { intros [= <- <- <-]. by left. }
  apply orb_false_iff in Eg as [[_ Hlo%Z.ltb_ge]%orb_false_iff Hhi%Z.ltb_ge].
  destruct (text_open_utf8 _ w) as [t w1] eqn:E1. apply text_open_law in E1. rewrite El in E1.
  destruct t; simpl; [|intros [= <- <- <-]; by left].
  destruct (break_open ty w1) as [b w2] eqn:E2. apply break_open_law in E2. rewrite E1 in E2.
  destruct b; simpl.
  2: { intros [= <- <- <-]. left. split; [|done]. rewrite text_close_law, E2.
       f_equal; f_equal; lia. }
  destruct (break_set_text w2) as [s w3] eqn:E3. apply break_set_law in E3. rewrite E2 in E3.
  destruct s; simpl; intros [= <- <- <-].
  - right. done.
  - left. split; [|done]. rewrite text_close_law, break_close_law, E3.
    f_equal; f_equal; lia.
Qed.

Lemma close_both w x i h : live w = (x + 1, i + 1, h) →
  live (text_close (break_close w)) = (x, i, h).
Proof.
  intros E. rewrite text_close_law, break_close_law, E. f_equal; f_equal; lia.
Qed.
End laws.

(** Overwriting [out] at [i] with [d], when there is room. *)
Definition put {A} (out : list A) (i : Z) (d : list A) : list A :=
  take (Z.to_nat i) out ++ d ++ drop (Z.to_nat i + length d) out.

Lemma put_nil {A} (out : list A) i : put out i [] = out.
Proof. unfold put. simpl. by rewrite Nat.add_0_r, take_drop. Qed.

Lemma put_cons {A} (out : list A) i x d :
  0 ≤ i < Z.of_nat (length out) → put (<[Z.to_nat i := x]> out) (i + 1) d = put out i (x :: d).
Proof.
  intros Hi. unfold put. replace (Z.to_nat (i + 1)) with (S (Z.to_nat i)) by lia.
  rewrite (take_S_r _ _ x) by (apply list_lookup_insert_eq; lia).
  rewrite take_insert_ge by lia. rewrite drop_insert_lt by lia. simpl.
  rewrite <- app_assoc. simpl. do 4 f_equal. lia.
Qed.

Lemma put_length {A} (out : list A) i d :
  0 ≤ i → i + Z.of_nat (length d) ≤ Z.of_nat (length out) → length (put out i d) = length out.
Proof. intros. unfold put. rewrite !length_app, length_take, length_drop. lia. Qed.

Lemma breaks_loop_spec iter : ∀ out count capacity,
  0 ≤ count ≤ capacity → capacity ≤ Z.of_nat (length out) →
  if count + Z.of_nat (length iter) <=? capacity
  then breaks_loop iter out count capacity =
         Some (count + Z.of_nat (length iter), put out count iter)
  else ∃ out', breaks_loop iter out count capacity = Some (-2, out') ∧ length out' = length out ∧
         drop (Z.to_nat capacity) out' = drop (Z.to_nat capacity) out.
Proof.
  induction iter as [|b iter IH]; intros out count capacity Hc Hcap; simpl.
  { rewrite put_nil, Z.add_0_r. by rewrite (proj2 (Z.leb_le _ _)) by lia. }
  destruct (Z.leb_spec capacity count).
  { rewrite (proj2 (Z.leb_gt _ _)) by lia. by exists out. }
  rewrite wr_Some by lia. specialize (IH (<[Z.to_nat count := b]> out) (count + 1) capacity).
  rewrite length_insert in IH. specialize (IH ltac:(lia) Hcap).
  replace (count + 1 + Z.of_nat (length iter)) with (count + Z.of_nat (S (length iter))) in IH by lia.
  rewrite put_cons in IH by lia. case_match; [done|].
  destruct IH as (out' & -> & Hl & Hd). exists out'. rewrite Hl, Hd.
  by rewrite drop_insert_lt by lia.
Qed.

Definition word_flag (text : bytes) (stop : Z) : Z :=
  if UBRK_WORD_NUMBER <=? rule_status text stop then 1 else 0.

Lemma words_loop_spec text iter : ∀ start ss es ws count capacity,
  0 ≤ count ≤ capacity → capacity ≤ Z.of_nat (length ss) → capacity ≤ Z.of_nat (length es) →
  capacity ≤ Z.of_nat (length ws) →
  if count + Z.of_nat (length iter) <=? capacity
  then words_loop text start iter ss es ws count capacity =
         Some (count + Z.of_nat (length iter), put ss count (map fst (segments start iter)),
               put es count (map snd (segments start iter)),
               put ws count (map (word_flag text) iter))
  else ∃ ss' es' ws', words_loop text start iter ss es ws count capacity = Some (-2, ss', es', ws').
Proof.
  induction iter as [|b iter IH]; intros start ss es ws count capacity Hc H1 H2 H3; simpl.
  { rewrite !put_nil, Z.add_0_r. by rewrite (proj2 (Z.leb_le _ _)) by lia. }
  destruct (Z.leb_spec capacity count).
  { rewrite (proj2 (Z.leb_gt _ _)) by lia. eauto. }
  rewrite !wr_Some by lia.
  specialize (IH b (<[Z.to_nat count := start]> ss) (<[Z.to_nat count := b]> es)
    (<[Z.to_nat count := word_flag text b]> ws) (count + 1) capacity).
  rewrite !length_insert in IH. specialize (IH ltac:(lia) H1 H2 H3).
  replace (count + 1 + Z.of_nat (length iter)) with (count + Z.of_nat (S (length iter))) in IH by lia.
  rewrite !put_cons in IH by lia. done.
Qed.

Lemma segments_partition start stops :
  Sorted Z.le (start :: stops) →
  Forall (λ '(a, b), a ≤ b) (segments start stops) ∧
  foldr Z.add 0 (map (λ '(a, b), b - a) (segments start stops)) =
    default start (last stops) - start.
Proof.
  revert start. induction stops as [|s stops IH]; intros start Hs; cbn [segments map foldr];
    [split; [done|simpl; lia]|].
  apply Sorted_inv in Hs as [Hs Hh]. inversion Hh; subst. destruct (IH _ Hs) as [IH1 IH2].
  split; [by constructor|]. rewrite IH2. destruct stops as [|s2 stops]; [simpl; lia|].
  change (last (s :: s2 :: stops)) with (last (s2 :: stops)).
  destruct (last (s2 :: stops)) eqn:E; [simpl; lia|]. by apply last_None in E.
Qed.

Lemma visible_loop_sum text iter : ∀ start acc api,
  available api = true → attempted api = true → 0 ≤ acc →
  visible_loop text start iter acc api =
    (let s := sum_widths (map (λ '(a, b),
        fst (adou_icu_grapheme_width (Some (drop (Z.to_nat a) text)) (b - a) api))
        (segments start iter)) in
     if s <? 0 then -1 else acc + s, api).
Proof.
  induction iter as [|b iter IH]; intros start acc api Ha Ht Hacc; simpl.
  { by rewrite Z.add_0_r. }
  destruct (adou_icu_grapheme_width _ _ api) as [gw api'] eqn:E. simpl.
  assert (api' = api) as ->.
  { unfold adou_icu_grapheme_width in E. rewrite load_available in E by done.
    repeat case_match; by simplify_eq. }
  destruct (Z.ltb_spec gw 0); [done|]. rewrite IH by (done || lia).
  cbv zeta. set (s := sum_widths _). destruct (Z.ltb_spec s 0); [done|].
  rewrite (proj2 (Z.ltb_ge _ _)) by lia. f_equal. lia.
Qed.

Lemma normalize_balance get text length null cap api w r o api' w' `{!IcuLaws W} :
  normalize_utf8 get text length null cap api w = (r, o, api', w') → live w' = live w.
Proof.
  unfold normalize_utf8. destruct (load_icu api) as [ok api1].
  destruct text as [text|]; [|by intros [= <- <- <- <-]].
  case_match; [by intros [= <- <- <- <-]|].
  destruct (convert (from_utf8 _) 0) as [sl st]. case_match; [by intros [= <- <- <- <-]|].
  destruct (malloc_ok w) as [m w1] eqn:E1. apply malloc_law in E1.
  destruct (live w) as [[x i] h] eqn:El. destruct m; simpl; [|by intros [= <- <- <- <-]].
  assert (∀ v, live v = (x, i, h + 1) → live (free v) = (x, i, h)) as Hfree.
  { intros v E. rewrite free_law, E. f_equal. lia. }
  destruct (convert (from_utf8 _) (sl + 1)) as [? st2].
  case_match; [intros [= <- <- <- <-]; solve [auto]|].
  destruct get as [nz|]; [|intros [= <- <- <- <-]; solve [auto]].
  destruct (convert (nz _) 0) as [nl st3]. case_match; [intros [= <- <- <- <-]; solve [auto]|].
  destruct (malloc_ok w1) as [m2 w2] eqn:E2. apply malloc_law in E2. rewrite E1 in E2.
  destruct m2; simpl; [|intros [= <- <- <- <-]; solve [auto]].
  assert (live (free w2) = (x, i, h + 1)) as E3 by (rewrite free_law, E2; f_equal; lia).
  destruct (convert (nz _) (nl + 1)) as [? st4].
  destruct (U_FAILURE st4); [intros [= <- <- <- <-]; solve [auto]|].
  destruct (convert (to_utf8 _) 0) as [req st5].
  case_match; [intros [= <- <- <- <-]; solve [auto]|].
  destruct (null || _); [intros [= <- <- <- <-]; solve [auto]|].
  destruct (cap <=? req); [intros [= <- <- <- <-]; solve [auto]|].
  destruct (convert (to_utf8 _) cap) as [req2 st6].
  destruct (U_FAILURE st6); intros [= <- <- <- <-]; solve [auto].
Qed.

(** The outcome for a text ICU accepts, with the allocator working. *)
Lemma normalize_result nz text n t16 l16 l8 null cap api w :
  available api = true → attempted api = true → (∀ v, fst (malloc_ok v) = true) →
  n = Z.of_nat (length text) → n ≤ INT32_MAX →
  from_utf8 text = Some t16 → nz t16 = Some l16 → to_utf8 l16 = Some l8 →
  0 ≤ cap ≤ INT32_MAX →
  fst (fst (normalize_utf8 (Some nz) (Some text) n null cap api w)) =
    if null || (cap =? 0) then (Z.of_nat (length l8), None)
    else if cap <=? Z.of_nat (length l8) then (-2, None)
    else (Z.of_nat (length l8), Some l8).
Proof.
  intros Ha Ht Hm -> Hn H1 H2 H3 Hcap. unfold normalize_utf8. rewrite load_available by done.
  rewrite (proj2 (Z.ltb_ge _ 0)), (proj2 (Z.ltb_ge INT32_MAX _)), (proj2 (Z.ltb_ge cap 0)),
    (proj2 (Z.ltb_ge INT32_MAX cap)) by lia. simpl.
  rewrite Nat2Z.id, firstn_all, H1.
  assert (∀ l c n s, convert (Some l) c = (n, s) →
    negb (bool_decide (s = U_BUFFER_OVERFLOW_ERROR)) && U_FAILURE s = false ∧
    n = Z.of_nat (length l)) as Hpre.
  { intros l c n s [= <- <-]. split; [|done]. by case_match. }
  assert (∀ l c, Z.of_nat (length l) ≤ c →
    convert (Some l) c = (Z.of_nat (length l), U_ZERO_ERROR)) as Hfit.
  { intros l c ?. unfold convert. by rewrite (proj2 (Z.leb_le _ _)). }
  destruct (convert (Some t16) 0) as [n1 s1] eqn:E1.
  destruct (Hpre _ _ _ _ E1) as [-> ->].
  destruct (malloc_ok w) as [m1 w1] eqn:M1.
  assert (m1 = true) as -> by (pose proof (Hm w) as Hm'; by rewrite M1 in Hm').
  cbn [negb]. rewrite Hfit by lia. cbn [U_FAILURE]. unfold U_FAILURE at 1.
  rewrite bool_decide_false by auto. change (default [] (Some t16)) with t16. rewrite H2.
  destruct (convert (Some l16) 0) as [n2 s2] eqn:E2.
  destruct (Hpre _ _ _ _ E2) as [-> ->].
  destruct (malloc_ok w1) as [m2 w2] eqn:M2.
  assert (m2 = true) as -> by (pose proof (Hm w1) as Hm'; by rewrite M2 in Hm').
  cbn [negb]. rewrite Hfit by lia. unfold U_FAILURE at 1.
  rewrite bool_decide_false by auto. change (default [] (Some l16)) with l16. rewrite H3.
  destruct (convert (Some l8) 0) as [n3 s3] eqn:E3.
  destruct (Hpre _ _ _ _ E3) as [-> ->].
  destruct (null || (cap =? 0)); [done|].
  destruct (Z.leb_spec cap (Z.of_nat (length l8))); [done|].
  rewrite Hfit by lia. unfold U_FAILURE. by rewrite bool_decide_false by auto.
Qed.

(** ** Properties *)

(** C39: once ICU is loaded, the width of a non-empty buffer is that of its
    code points by the column rules of [grapheme_cells] (a lone tab is 3), and
    -1 exactly when some sequence met while decoding is ill-formed; the loop
    over [U8_NEXT] ends. *)
Theorem grapheme_width_cells `{!IcuLaws W} text n api :
  available api = true → attempted api = true → 0 < n ≤ INT32_MAX →
  let r := fst (adou_icu_grapheme_width (Some text) n api) in
  if (n =? 1) && bool_decide (rd text 0 = Some 9) then r = 3
  else match decode (S (Z.to_nat n)) text 0 n with
       | Some cps => r = grapheme_cells cps
       | None => r = -1 ∧ ∃ o, 0 ≤ o < n ∧ snd (u8_next text o n) < 0
       end.
Proof.
  intros Ha Ht Hn. unfold adou_icu_grapheme_width. rewrite load_available by done.
  rewrite (proj2 (Z.leb_gt n 0)), (proj2 (Z.ltb_ge INT32_MAX n)) by lia. cbn [negb orb].
  destruct (_ && _); [done|]. rewrite width_loop_decode.
  destruct (decode _ text 0 n) as [cps|] eqn:Ed.
  - cbv zeta. rewrite <- width_loop_cells. cbv zeta. by repeat case_match.
  - split; [done|]. eapply decode_total; [| |exact Ed]; lia.
Qed.

(** The boundaries the character iterator reports partition the buffer. *)
Lemma boundaries_segments `{!IcuLaws W} ty t :
  ∃ l, boundaries ty t = 0 :: l ∧ Forall (λ '(a, b), a ≤ b) (segments 0 l) ∧
    foldr Z.add 0 (map (λ '(a, b), b - a) (segments 0 l)) = Z.of_nat (length t).
Proof.
  destruct (boundaries_law ty t) as (l & -> & Hs & Hl). exists l. split; [done|].
  assert (Sorted Z.le (0 :: l)) as Hle.
  { apply StronglySorted_Sorted. clear Hl. induction Hs as [|a l' _ IH Hf]; constructor; [done|].
    eapply Forall_impl; [exact Hf|]. simpl. lia. }
  destruct (segments_partition _ _ Hle) as [H1 ->]. split; [done|].
  destruct l as [|b l]; [injection Hl as <-; simpl; lia|].
  change (last (0 :: b :: l)) with (last (b :: l)) in Hl. rewrite Hl. simpl. lia.
Qed.

(** The visible width of a buffer is the sum of the widths of its grapheme
    clusters, which partition it, or -1 if one of them is refused or no
    iterator could be had; every path gives back the handles it took. *)
Theorem visible_width_sum `{!IcuLaws W} text n api w r api' w' :
  available api = true → attempted api = true → n = Z.of_nat (length text) →
  adou_icu_visible_width (Some text) n api w = (r, api', w') →
  live w' = live w ∧ api' = api ∧
  (r = -1 ∨ ∃ l, boundaries UBRK_CHARACTER text = 0 :: l ∧
     foldr Z.add 0 (map (λ '(a, b), b - a) (segments 0 l)) = n ∧
     r = sum_widths (map (λ '(a, b),
           fst (adou_icu_grapheme_width (Some (drop (Z.to_nat a) text)) (b - a) api))
           (segments 0 l))).
Proof.
  intros Ha Ht -> Hv. unfold adou_icu_visible_width in Hv. rewrite load_available in Hv by done.
  revert Hv. cbn [negb orb]. case_match; [intros [= <- <- <-]; solve [auto]|].
  destruct (open_break_iterator _ _ _ _ w) as [[it api1] w1] eqn:Eo.
  assert (api1 = api) as ->.
  { unfold open_break_iterator in Eo. rewrite load_available in Eo by done.
    revert Eo. clear. repeat case_match; by intros [= <- <- <-]. }
  pose proof (open_break_spec _ _ _ _ _ _ _ _ Eo) as Hs.
  destruct (live w) as [[x i] h] eqn:El. rewrite Nat2Z.id, firstn_all in Hs.
  destruct Hs as [[Hl ->]|(Hl & -> & _)]; [intros [= <- <- <-]; solve [auto]|].
  destruct (boundaries_segments UBRK_CHARACTER text) as (l & Eb & Hp & Hsum). rewrite Eb. simpl.
  rewrite visible_loop_sum by (done || lia). intros [= <- <- <-].
  split; [by apply close_both|]. split; [done|].
  set (s := sum_widths _). destruct (Z.ltb_spec s 0); [by left|].
  right. exists l. split; [done|]. split; [done|]. unfold s. lia.
Qed.

(** grapheme boundaries are written in increasing order from 0 to the
    length of the buffer when the array has room for them all, and -2 is
    returned when it has not; no store leaves the array, what lies after
    [capacity] is untouched, and the handles are given back. *)
Theorem grapheme_breaks_bounds `{!IcuLaws W} text n arr cap api w :
  n = Z.of_nat (length text) → 0 < cap ≤ Z.of_nat (length arr) →
  ∃ r arr' api' w',
    adou_icu_grapheme_breaks text n (Some arr) cap api w = Some (r, Some arr', api', w') ∧
    live w' = live w ∧ length arr' = length arr ∧
    drop (Z.to_nat cap) arr' = drop (Z.to_nat cap) arr ∧
    let bs := boundaries UBRK_CHARACTER text in
    (r = -1 ∧ arr' = arr ∨
     r = -2 ∧ cap < Z.of_nat (length bs) ∨
     r = Z.of_nat (length bs) ∧ r ≤ cap ∧ arr' = bs ++ drop (length bs) arr ∧
       StronglySorted Z.lt bs ∧ hd (-1) bs = 0 ∧ last bs = Some n).
Proof.
  intros -> Hcap. unfold adou_icu_grapheme_breaks. rewrite (proj2 (Z.leb_gt cap 0)) by lia.
  destruct (open_break_iterator _ _ _ api w) as [[it api1] w1] eqn:Eo.
  pose proof (open_break_spec _ _ _ _ _ _ _ _ Eo) as Hs.
  destruct (live w) as [[x i] h] eqn:El. rewrite Nat2Z.id, firstn_all in Hs.
  destruct Hs as [[Hl ->]|(Hl & -> & _)].
  { exists (-1), arr, api1, w1. split_and!; [done..|]. left. done. }
  pose proof (breaks_loop_spec (boundaries UBRK_CHARACTER text) arr 0 cap ltac:(lia) ltac:(lia)) as Hb.
  rewrite Z.add_0_l in Hb. destruct (Z.leb_spec (Z.of_nat (length (boundaries UBRK_CHARACTER text))) cap).
  - rewrite Hb. cbn. eexists _, _, _, _. split; [done|].
    split; [by apply close_both|]. split; [by apply put_length; lia|].
    split.
    { unfold put. simpl. rewrite drop_app_ge by lia. rewrite drop_drop. f_equal. lia. }
    right. right. split; [done|]. split; [done|]. split; [done|].
    destruct (boundaries_law UBRK_CHARACTER text) as (l & -> & Hss & Hla). done.
  - destruct Hb as (arr' & -> & Hl' & Hd). cbn. eexists _, _, _, _. split; [done|].
    split; [by apply close_both|]. split; [done|]. split; [done|].
    right. left. split; [done|]. lia.
Qed.

(** with room for every word segment, the arrays receive consecutive
    segments whose lengths add up to that of the buffer, each flagged by the
    rule status of its end; otherwise -2 or -1 is returned.  The stores stay
    inside the arrays and the handles are given back. *)
Theorem word_segments_partition `{!IcuLaws W} text n ss es ws cap api w :
  n = Z.of_nat (length text) → 0 < cap ≤ Z.of_nat (length ss) →
  cap ≤ Z.of_nat (length es) → cap ≤ Z.of_nat (length ws) →
  ∃ r ss' es' ws' api' w',
    adou_icu_word_segments text n (Some (ss, es, ws)) cap api w =
      Some (r, Some (ss', es', ws'), api', w') ∧ live w' = live w ∧
    ∃ stops, boundaries UBRK_WORD text = 0 :: stops ∧
    foldr Z.add 0 (map (λ '(a, b), b - a) (segments 0 stops)) = n ∧
    (r = -1 ∨ r = -2 ∧ cap < Z.of_nat (length stops) ∨
     r = Z.of_nat (length stops) ∧ r ≤ cap ∧
     take (length stops) ss' = map fst (segments 0 stops) ∧
     take (length stops) es' = map snd (segments 0 stops) ∧
     take (length stops) ws' = map (word_flag text) stops).
Proof.
  intros -> Hc H2 H3. unfold adou_icu_word_segments. rewrite (proj2 (Z.leb_gt cap 0)) by lia.
  destruct (open_break_iterator _ _ _ api w) as [[it api1] w1] eqn:Eo.
  pose proof (open_break_spec _ _ _ _ _ _ _ _ Eo) as Hs.
  destruct (live w) as [[x i] h] eqn:El. rewrite Nat2Z.id, firstn_all in Hs.
  destruct (boundaries_segments UBRK_WORD text) as (stops & Eb & _ & Hsum). rewrite Eb in Hs |- *.
  destruct Hs as [[Hl ->]|(Hl & -> & _)].
  { eexists _, _, _, _, _, _. split; [done|]. split; [done|]. exists stops.
    split; [done|]. split; [done|]. by left. }
  simpl hd. simpl tl. rewrite Nat2Z.id, firstn_all.
  assert (∀ k, length (segments k stops) = length stops) as Hlen.
  { clear. induction stops as [|s l IH]; intros k; simpl; [done|]. by rewrite IH. }
  pose proof (words_loop_spec text stops 0 ss es ws 0 cap ltac:(lia) ltac:(lia) H2 H3) as Hw.
  rewrite Z.add_0_l in Hw. destruct (Z.leb_spec (Z.of_nat (length stops)) cap).
  - rewrite Hw. cbn. eexists _, _, _, _, _, _. split; [done|].
    split; [by apply close_both|]. exists stops. split; [done|]. split; [done|].
    right. right. split; [done|]. split; [done|]. unfold put. simpl.
    rewrite !take_app_length' by (by rewrite !length_map, ?Hlen). done.
  - destruct Hw as (ss' & es' & ws' & ->). cbn. eexists _, _, _, _, _, _. split; [done|].
    split; [by apply close_both|]. exists stops. split; [done|]. split; [done|].
    right. left. split; [done|]. lia.
Qed.

(** Normalisation is a query-then-fill protocol.  For a text ICU accepts
    and with memory available, the query returns the number of bytes [k] of
    the normal form; a buffer of [k] bytes or less is refused with -2 (one
    more is asked for), and any larger one receives exactly the normal form.
    No block of memory outlives any call. *)
Theorem normalize_query_fill `{!IcuLaws W} nz text n t16 l16 l8 api w cap :
  available api = true → attempted api = true → (∀ v, fst (malloc_ok v) = true) →
  n = Z.of_nat (length text) → n ≤ INT32_MAX →
  from_utf8 text = Some t16 → nz t16 = Some l16 → to_utf8 l16 = Some l8 →
  Z.of_nat (length l8) < INT32_MAX → 0 < cap ≤ INT32_MAX →
  ∃ k api1 w1 r o api2 w2,
    normalize_utf8 (Some nz) (Some text) n true 0 api w = (k, None, api1, w1) ∧
    k = Z.of_nat (length l8) ∧ live w1 = live w ∧
    normalize_utf8 (Some nz) (Some text) n false cap api w1 = (r, o, api2, w2) ∧
    live w2 = live w1 ∧
    (if cap <=? k then r = -2 ∧ o = None else r = k ∧ o = Some l8).
Proof.
  intros Ha Ht Hm Hn Hmax H1 H2 H3 H8 Hcap.
  destruct (normalize_utf8 (Some nz) (Some text) n true 0 api w) as [[[k o1] api1] w1] eqn:E1.
  pose proof (normalize_result nz text n t16 l16 l8 true 0 api w Ha Ht Hm Hn Hmax H1 H2 H3
    ltac:(unfold INT32_MAX; lia)) as R1.
  rewrite E1 in R1. injection R1 as -> ->.
  destruct (normalize_utf8 (Some nz) (Some text) n false cap api w1) as [[[r o] api2] w2] eqn:E2.
  pose proof (normalize_result nz text n t16 l16 l8 false cap api w1 Ha Ht Hm Hn Hmax H1 H2 H3
    ltac:(lia)) as R2.
  rewrite E2 in R2. simpl in R2. rewrite (proj2 (Z.eqb_neq cap 0)) in R2 by lia.
  eexists _, api1, w1, r, o, api2, w2. split; [done|]. split; [done|].
  split; [by apply normalize_balance in E1|]. split; [done|].
  split; [by apply normalize_balance in E2|].
  destruct (cap <=? _); by injection R2 as -> ->.
Qed.
End code.

(** ** A concrete ICU

    ASCII texts, a break at every byte, one column per byte; the world counts
    the open resources. *)
Definition ascii_next (t : bytes) (i n : Z) : Z * Z :=
  match rd t i with
  | Some b => (if i <? n then i + 1 else i, if b <? 128 then b else -1)
  | None => (if i <? n then i + 1 else i, -1)
  end.

Definition ascii_conv (t : bytes) : option bytes :=
  if forallb (λ b, b <? 128) t then Some t else None.

Definition ascii_icu : IcuOs (Z * Z * Z) := {|
  dlopen n := bool_decide (n = "libicui18n.so" ∨ n = "libicuuc.so")%string;
  dlsym _ := true;
  malloc_ok '(t, i, h) := (true, (t, i, h + 1));
  free '(t, i, h) := (t, i, h - 1);
  text_open_utf8 _ '(t, i, h) := (true, (t + 1, i, h));
  text_close '(t, i, h) := (t - 1, i, h);
  break_open _ '(t, i, h) := (true, (t, i + 1, h));
  break_set_text w := (true, w);
  break_close '(t, i, h) := (t, i - 1, h);
  boundaries _ t := map Z.of_nat (seq 0 (S (length t)));
  rule_status _ _ := 200;
  UBRK_WORD_NUMBER := 100;
  char_type c := if c <? 32 then U_CONTROL_CHAR else U_OTHER_CATEGORY;
  is_default_ignorable _ := false;
  is_emoji_presentation _ := false;
  east_asian _ := U_EA_OTHER;
  script_of _ := USCRIPT_OTHER;
  u8_next := ascii_next;
  from_utf8 := ascii_conv;
  to_utf8 := ascii_conv;
  nfkc := Some Some;
  nfd := Some Some;
  live w := w
|}.

#[local] Existing Instance ascii_icu.

Lemma seq_sorted n : ∀ k, StronglySorted Z.lt (map Z.of_nat (seq k n)).
Proof.
  induction n as [|n IH]; intros k; simpl; constructor; [done|].
  apply Forall_forall. intros x (y & -> & Hy%elem_of_seq)%list_elem_of_fmap. lia.
Qed.

Lemma ascii_laws : IcuLaws (Z * Z * Z).
Proof.
  split; try (intros; destruct w as [[? ?] ?]; simpl in *; by simplify_eq).
  - intros ty t. exists (map Z.of_nat (seq 1 (length t))). split; [done|].
    split; [exact (seq_sorted (S (length t)) 0)|].
    change (0 :: _) with (map Z.of_nat (seq 0 (S (length t)))).
    rewrite seq_S, map_app, last_app. done.
  - intros t i n i' c. simpl. unfold ascii_next. intros E Hi.
    rewrite (proj2 (Z.ltb_lt i n)) in E by lia. case_match; injection E as <- <-; lia.
Qed.

#[local] Existing Instance ascii_laws.

(** The text "a<US>b". *)
Definition ab : bytes := [97; 31; 98].
Definition loaded : icu_api_t := mk_api true true.

Lemma grapheme_width_cells_witness :
  snd (load_icu api_init) = loaded ∧ fst (adou_icu_grapheme_width (Some ab) 3 loaded) = 1.
Proof.
  split; [reflexivity|].
  exact (grapheme_width_cells ab 3 loaded eq_refl eq_refl ltac:(unfold INT32_MAX; lia)).
Defined.

Lemma visible_width_sum_witness : ∃ r api w,
  adou_icu_visible_width (Some ab) 3 loaded (0, 0, 0) = (r, api, w) ∧ w = (0, 0, 0) ∧ r = 2.
Proof.
  eexists _, _, _. split; [reflexivity|].
  split; [|reflexivity].
  exact (proj1 (visible_width_sum ab 3 loaded (0, 0, 0) _ _ _ eq_refl eq_refl eq_refl eq_refl)).
Defined.

Lemma grapheme_breaks_bounds_witness : ∃ r arr' api' w',
  adou_icu_grapheme_breaks ab 3 (Some [7; 7; 7; 7; 7]) 5 loaded (0, 0, 0) =
    Some (r, Some arr', api', w') ∧ w' = (0, 0, 0) ∧ arr' = [0; 1; 2; 3; 7].
Proof.
  destruct (grapheme_breaks_bounds ab 3 [7; 7; 7; 7; 7] 5 loaded (0, 0, 0) eq_refl ltac:(simpl; lia))
    as (r & arr' & api' & w' & E & Hl & _).
  exists r, arr', api', w'. split; [exact E|]. split; [exact Hl|].
  vm_compute in E. by injection E.
Defined.

Lemma word_segments_partition_witness : ∃ r ss es ws api' w',
  adou_icu_word_segments ab 3 (Some ([7; 7; 7; 7], [7; 7; 7; 7], [7; 7; 7; 7])) 4 loaded (0, 0, 0) =
    Some (r, Some (ss, es, ws), api', w') ∧ w' = (0, 0, 0) ∧ es = [1; 2; 3; 7].
Proof.
  destruct (word_segments_partition ab 3 [7; 7; 7; 7] [7; 7; 7; 7] [7; 7; 7; 7] 4 loaded (0, 0, 0)
    eq_refl ltac:(simpl; lia) ltac:(simpl; lia) ltac:(simpl; lia))
    as (r & ss & es & ws & api' & w' & E & Hl & _).
  exists r, ss, es, ws, api', w'. split; [exact E|]. split; [exact Hl|].
  vm_compute in E. by injection E.
Defined.

Lemma normalize_query_fill_witness : ∃ k api1 w1 r o api2 w2,
  normalize_utf8 (Some Some) (Some ab) 3 true 0 loaded (0, 0, 0) = (k, None, api1, w1) ∧ k = 3 ∧
  normalize_utf8 (Some Some) (Some ab) 3 false 4 loaded w1 = (r, o, api2, w2) ∧ o = Some ab.
Proof.
  destruct (normalize_query_fill Some ab 3 ab ab ab loaded (0, 0, 0) 4 eq_refl eq_refl
    ltac:(intros [[? ?] ?]; reflexivity) eq_refl ltac:(unfold INT32_MAX; lia) eq_refl eq_refl eq_refl
    ltac:(unfold INT32_MAX; simpl; lia) ltac:(unfold INT32_MAX; lia))
    as (k & api1 & w1 & r & o & api2 & w2 & E1 & Hk & _ & E2 & _ & H).
  exists k, api1, w1, r, o, api2, w2. rewrite Hk in H. vm_compute in H.
  split; [exact E1|]. split; [exact Hk|]. split; [exact E2|]. exact (proj2 H).
Defined.
End Icu.
