(* ===== verification/NativeMisc.v ===== *)
(** * The small native services

    [stdin_peek.c], [regex.c], [fs_watch.c], [clipboard_image.c] and
    [process_group_helper.c] of [src/native].  The calls they make are the
    class [MiscOs]; [held] counts the descriptors, dynamic libraries and
    compiled expressions the process holds.  [fs_watch.c] and
    [clipboard_image.c] choose their code by platform: both choices are
    modelled. *)

From S2P Require Import Prelude Posix.

Class MiscOs (W : Type) : Type := {
  (** [poll(&{fd, POLLIN, 0}, 1, timeout)]: the result and [revents] *)
  poll : Z → Z → W → sysres * Z * W;
  POLLNVAL : Z;
  open_path : bytes → W → sysres * W;
  kqueue : W → sysres * W;
  (** [kevent(queue, &change, 1, NULL, 0, NULL)] registering a descriptor *)
  kevent_add : Z → Z → W → sysres * W;
  (** [kevent(queue, NULL, 0, &event, 1, &timeout)], seconds and nanoseconds *)
  kevent_wait : Z → Z → Z → W → sysres * W;
  inotify_init1 : W → sysres * W;
  inotify_add_watch : Z → bytes → W → sysres * W;
  inotify_rm_watch : Z → Z → W → sysres * W;
  read_events : Z → W → sysres * W;
  close : Z → W → sysres * W;
  regcomp : bytes → W → bool * W;
  regexec : bytes → bytes → bool;
  regfree : W → W;
  write : Z → bytes → W → sysres * W;
  fchmod : Z → W → sysres * W;
  dlopen : string → W → bool * W;
  dlclose : W → W;
  (** the Objective-C runtime: do its entry points and the classes resolve,
      and the pasteboard's data for a type *)
  objc_symbols : bool;
  objc_classes : bool;
  pasteboard : string → W → option (option bytes) * W;
  setpgid : W → sysres * W;
  (** descriptors, libraries, compiled expressions *)
  held : W → Z * Z * Z;
  (** what the process wrote to the file last opened for writing *)
  written : W → bytes;
  interrupts : W → nat
}.

Section effects.
Context {W : Type} `{!MiscOs W}.

Definition holds (d l x : Z) (w w' : W) : Prop :=
  held w' = let '(a, b, c) := held w in (a + d, b + l, c + x).

(** A call that opens a descriptor, and one that leaves them alone. *)
Definition opens (r : sysres) (w w' : W) : Prop :=
  sysres_ok r ∧ holds (match r with SysOk _ => 1 | SysErr _ => 0 end) 0 0 w w'.

Definition neutral (r : sysres) (w w' : W) : Prop := sysres_ok r ∧ holds 0 0 0 w w'.
End effects.

Class MiscLaws (W : Type) `{!Errno, !MiscOs W} : Prop := {
  poll_law fd t w r re w' : poll fd t w = (r, re, w') → neutral r w w';
  open_path_law p w r w' : open_path p w = (r, w') → opens r w w' ∧ written w' = [];
  kqueue_law w r w' : kqueue w = (r, w') → opens r w w';
  kevent_add_law q fd w r w' : kevent_add q fd w = (r, w') → neutral r w w';
  kevent_wait_law q s n w r w' : kevent_wait q s n w = (r, w') → neutral r w w';
  inotify_init1_law w r w' : inotify_init1 w = (r, w') → opens r w w';
  inotify_add_law fd p w r w' : inotify_add_watch fd p w = (r, w') → neutral r w w';
  inotify_rm_law fd x w r w' : inotify_rm_watch fd x w = (r, w') → neutral r w w';
  read_events_law fd w r w' : read_events fd w = (r, w') → neutral r w w';
  close_law fd w r w' : close fd w = (r, w') →
    sysres_ok r ∧ holds (-1) 0 0 w w' ∧ written w' = written w;
  regcomp_law p w b w' : regcomp p w = (b, w') → holds 0 0 (if b then 1 else 0) w w';
  regfree_law w : holds 0 0 (-1) w (regfree w);
  write_law fd d w r w' : write fd d w = (r, w') →
    neutral r w w' ∧
    ((∃ k, r = SysOk k ∧ 0 ≤ k ≤ Z.of_nat (length d) ∧
        written w' = written w ++ take (Z.to_nat k) d ∧ (interrupts w' ≤ interrupts w)%nat) ∨
     (∃ e, r = SysErr e ∧ written w' = written w ∧
        (e = EINTR → (interrupts w' < interrupts w)%nat)));
  fchmod_law fd w r w' : fchmod fd w = (r, w') → neutral r w w' ∧ written w' = written w;
  dlopen_law n w b w' : dlopen n w = (b, w') → holds 0 (if b then 1 else 0) 0 w w';
  dlclose_law w : holds 0 (-1) 0 w (dlclose w) ∧ written (dlclose w) = written w;
  pasteboard_law t w r w' : pasteboard t w = (r, w') → holds 0 0 0 w w'
}.

Module NativeMisc.

Section code.
Context {W : Type} `{!Errno, !MiscOs W}.

(* native/stdin_peek.c:4-30 adou_stdin_peek *)
Definition adou_stdin_peek (fd : Z) (w : W) : Z * W :=
  let '(r, revents, w) := poll fd 0 w in
  (match r with
   | SysErr _ => -1
   | SysOk r =>
       if r =? 0 then 0
       else if negb (Z.land revents POLLNVAL =? 0) then -1 else 1
   end, w).

(* native/regex.c:4-13 adou_regex_match *)
Definition adou_regex_match (pattern text : bytes) (w : W) : Z * W :=
  let '(ok, w) := regcomp pattern w in
  if negb ok then (-1, w) else
  let match_result := regexec pattern text in
  (if match_result then 1 else 0, regfree w).

(** The last three lines of both variants. *)
Definition wait_result (result : sysres) : Z :=
  match result with
  | SysOk r => if 0 <? r then 1 else 0
  | SysErr e => - e
  end.

(** The part between [#if defined(__APPLE__)] and [#elif]. *)
(* native/fs_watch.c:15-38 adou_fs_watch_wait *)
Definition fs_watch_wait_apple (path : option bytes) (timeout_ms : Z) (w : W) : Z * W :=
  match path with
  | None => (- EINVAL, w)
  | Some path =>
  if timeout_ms <? 0 then (- EINVAL, w) else
  let '(r, w) := open_path path w in
  match r with
  | SysErr e => (- e, w)
  | SysOk fd =>
      let '(r, w) := kqueue w in
      match r with
      | SysErr error => let '(_, w) := close fd w in (- error, w)
      | SysOk queue =>
          let '(r, w) := kevent_add queue fd w in
          match r with
          | SysErr error =>
              let '(_, w) := close queue w in
              let '(_, w) := close fd w in (- error, w)
          | SysOk _ =>
              let '(result, w) :=
                kevent_wait queue (i64 (Z.quot timeout_ms 1000))
                  (i64 (i64 (Z.rem timeout_ms 1000) * 1000000)) w in
              let '(_, w) := close queue w in
              let '(_, w) := close fd w in
              (wait_result result, w)
          end
      end
  end end.

(** The part between [#elif defined(__linux__)] and [#else]. *)
(* native/fs_watch.c:39-53 adou_fs_watch_wait *)
Definition fs_watch_wait_linux (path : option bytes) (timeout_ms : Z) (w : W) : Z * W :=
  match path with
  | None => (- EINVAL, w)
  | Some path =>
  if timeout_ms <? 0 then (- EINVAL, w) else
  let '(r, w) := inotify_init1 w in
  match r with
  | SysErr e => (- e, w)
  | SysOk fd =>
      let '(r, w) := inotify_add_watch fd path w in
      match r with
      | SysErr error => let '(_, w) := close fd w in (- error, w)
      | SysOk watch =>
          let '(result, _, w) := poll fd (i32 timeout_ms) w in
          let w := match result with
                   | SysOk r => if 0 <? r then snd (read_events fd w) else w
                   | SysErr _ => w
                   end in
          let '(_, w) := inotify_rm_watch fd watch w in
          let '(_, w) := close fd w in
          (wait_result result, w)
      end
  end end.

(** On any other system. *)
(* native/fs_watch.c:54-59 adou_fs_watch_wait *)
Definition fs_watch_wait_other (path : option bytes) (timeout_ms : Z) (w : W) : Z * W :=
  (if bool_decide (path = None) || (timeout_ms <? 0) then - EINVAL else - ENOSYS, w).

(** The write loop of [write_all]: [data] is what follows [offset]. *)
(* native/clipboard_image.c:25-34 write_all, the while loop *)
Fixpoint write_all_loop (fuel : nat) (fd : Z) (data : bytes) (w : W) : option (Z * W) :=
  match data with
  | [] => Some (1, w)
  | _ :: _ =>
      match fuel with
      | O => None
      | S fuel =>
          let '(r, w) := write fd data w in
          match r with
          | SysErr e =>
              if e =? EINTR then write_all_loop fuel fd data w else
              let '(_, w) := close fd w in Some (- e, w)
          | SysOk count =>
              if count <=? 0 then let '(_, w) := close fd w in Some (- EIO, w)
              else write_all_loop fuel fd (drop (Z.to_nat count) data) w
          end
      end
  end.

(* native/clipboard_image.c:21-42 write_all *)
Definition write_all (fuel : nat) (path data : bytes) (w : W) : option (Z * W) :=
  let '(r, w) := open_path path w in
  match r with
  | SysErr e => Some (- e, w)
  | SysOk fd =>
      let* (result, w) := write_all_loop fuel fd data w in
      if result <=? 0 then Some (result, w) else
      let '(r, w) := fchmod fd w in
      match r with
      | SysErr saved => let '(_, w) := close fd w in Some (- saved, w)
      | SysOk _ =>
          let '(r, w) := close fd w in
          match r with SysErr e => Some (- e, w) | SysOk _ => Some (1, w) end
      end
  end.

Definition close_both (w : W) : W := dlclose (dlclose w).

(** The choice on [content] and [size]. *)
(* native/clipboard_image.c:92-92 adou_clipboard_image_write *)
Definition store_image (fuel : nat) (path : bytes) (content : option bytes) (w : W) : option (Z * W) :=
  match content with
  | None | Some [] => Some (- EIO, w)
  | Some content => write_all fuel path content w
  end.

(** [pasteboard t] is [dataForType:]: [None] when it returns nil, otherwise
    the bytes, [Some None] when the content pointer is null. *)
(* native/clipboard_image.c:44-97 adou_clipboard_image_write *)
Definition adou_clipboard_image_write (fuel : nat) (path : bytes) (w : W) : option (Z * W) :=
  let '(objc, w) := dlopen "/usr/lib/libobjc.A.dylib"%string w in
  let '(appkit, w) := dlopen "/System/Library/Frameworks/AppKit.framework/AppKit"%string w in
  if negb objc || negb appkit then
    let w := if appkit then dlclose w else w in
    let w := if objc then dlclose w else w in
    Some (- ENOSYS, w)
  else if negb objc_symbols then Some (- ENOSYS, close_both w)
  else if negb objc_classes then Some (- ENOSYS, close_both w)
  else
  let '(data, w) := pasteboard "public.png"%string w in
  let '(data, kind, w) :=
    match data with
    | Some d => (Some d, 1, w)
    | None => let '(data, w) := pasteboard "public.tiff"%string w in (data, 2, w)
    end in
  match data with
  | None => Some (0, close_both w)
  | Some content =>
      let* (result, w) := store_image fuel path content w in
      let result := if 0 <? result then kind else result in
      Some (result, close_both w)
  end.

(** How the process of [process_group_helper.c] goes on: it exits with a code,
    or becomes the program.  [exec] says whether [execvp] finds it. *)
Inductive outcome : Type := Exit (code : Z) | Exec (argv : list bytes).

(* native/process_group_helper.c:3-8 main *)
Definition main (exec : list bytes → bool) (argv : list bytes) (w : W) : outcome * W :=
  if Z.of_nat (length argv) <? 2 then (Exit 64, w) else
  let '(r, w) := setpgid w in
  match r with
  | SysErr _ => (Exit 125, w)
  | SysOk _ => (if exec (tl argv) then Exec (tl argv) else Exit 127, w)
  end.

(** ** Properties *)

Context `{!ErrnoLaws, !MiscLaws W}.

Lemma holds_0 w : holds 0 0 0 w w.
Proof. unfold holds. destruct (held w) as [[a b] c]. f_equal; [f_equal|]; lia. Qed.

Lemma holds_trans a b c a' b' c' w w1 w2 :
  holds a b c w w1 → holds a' b' c' w1 w2 → holds (a + a') (b + b') (c + c') w w2.
Proof.
  unfold holds. intros H1 H2. rewrite H2, H1. destruct (held w) as [[x y] z].
  f_equal; [f_equal|]; lia.
Qed.

Lemma holds_held w w' : holds 0 0 0 w w' → held w' = held w.
Proof. unfold holds. intros ->. destruct (held w) as [[a b] c]. f_equal; [f_equal|]; lia. Qed.

Lemma holds_close a b c w fd w1 r w2 :
  holds (a + 1) b c w w1 → close fd w1 = (r, w2) → holds a b c w w2.
Proof.
  intros H1 H2. apply close_law in H2 as (_ & H2 & _).
  pose proof (holds_trans _ _ _ _ _ _ _ _ _ H1 H2) as H3.
  by replace (a + 1 + -1) with a in H3 by lia; rewrite !Z.add_0_r in H3.
Qed.

Lemma holds_next a b c w w1 w2 : holds a b c w w1 → holds 0 0 0 w1 w2 → holds a b c w w2.
Proof. intros H1 H2. pose proof (holds_trans _ _ _ _ _ _ _ _ _ H1 H2) as H3. by rewrite !Z.add_0_r in H3. Qed.

Lemma wait_result_range r : sysres_ok r → wait_result r = 1 ∨ wait_result r = 0 ∨ wait_result r < 0.
Proof. destruct r; simpl; [case_match; auto|]. unfold errno_ok. lia. Qed.

Local Ltac balance :=
  repeat match goal with
  | H : open_path _ _ = _ |- _ => apply open_path_law in H as [[? ?] ?]
  | H : kqueue _ = _ |- _ => apply kqueue_law in H as [? ?]
  | H : inotify_init1 _ = _ |- _ => apply inotify_init1_law in H as [? ?]
  | H : inotify_add_watch _ _ _ = _ |- _ => apply inotify_add_law in H as [? ?]
  | H : inotify_rm_watch _ _ _ = _ |- _ => apply inotify_rm_law in H as [? ?]
  | H : kevent_add _ _ _ = _ |- _ => apply kevent_add_law in H as [? ?]
  | H : kevent_wait _ _ _ _ = _ |- _ => apply kevent_wait_law in H as [? ?]
  | H : poll _ _ _ = _ |- _ => apply poll_law in H as [? ?]
  | H : read_events _ _ = _ |- _ => apply read_events_law in H as [? ?]
  | H : close _ _ = _ |- _ => apply close_law in H as (? & ? & ?)
  | H : fchmod _ _ = _ |- _ => apply fchmod_law in H as [[? ?] ?]
  end; simpl in *; unfold holds in *;
  repeat match goal with H : held _ = _ |- _ => rewrite H; clear H end;
  match goal with |- context [held ?w] => destruct (held w) as [[? ?] ?] end;
  repeat f_equal; lia.

(** Waiting for a change returns 1, 0 (time out) or a negative error
    number, and every descriptor opened on the way is closed, in the
    variants for both systems; with kqueue the time waited is exactly
    [timeout_ms] in seconds and nanoseconds. *)
Theorem fs_watch_wait_outcome p t w r w' :
  is_i64 t →
  fs_watch_wait_apple p t w = (r, w') ∨ fs_watch_wait_linux p t w = (r, w') →
  held w' = held w ∧ (r = 1 ∨ r = 0 ∨ r < 0) ∧
  (p = None ∨ t < 0 → r = - EINVAL) ∧
  (0 ≤ t → i64 (Z.quot t 1000) * 1000000000 + i64 (i64 (Z.rem t 1000) * 1000000) = t * 1000000 ∧
     0 ≤ i64 (i64 (Z.rem t 1000) * 1000000) < 1000000000).
Proof.
  intros Ht Hf. split; [|split; [|split]].
  - destruct Hf as [Hf|Hf]; revert Hf; unfold fs_watch_wait_apple, fs_watch_wait_linux, snd;
      repeat case_match; intros [= <- <-]; subst; solve [done | balance].
  - pose proof EINVAL_pos. destruct Hf as [Hf|Hf]; revert Hf;
      unfold fs_watch_wait_apple, fs_watch_wait_linux, snd;
      repeat case_match; intros [= <- <-]; subst;
      repeat match goal with
      | H : open_path _ _ = _ |- _ => apply open_path_law in H as [[? ?] ?]
      | H : kqueue _ = _ |- _ => apply kqueue_law in H as [? ?]
      | H : inotify_init1 _ = _ |- _ => apply inotify_init1_law in H as [? ?]
      | H : inotify_add_watch _ _ _ = _ |- _ => apply inotify_add_law in H as [? ?]
      | H : kevent_add _ _ _ = _ |- _ => apply kevent_add_law in H as [? ?]
      | H : kevent_wait _ _ _ _ = _ |- _ => apply kevent_wait_law in H as [? ?]
      | H : poll _ _ _ = _ |- _ => apply poll_law in H as [? ?]
      end; simpl in *; unfold errno_ok in *;
      solve [lia | case_match; auto | apply wait_result_range; solve [assumption | simpl; unfold errno_ok; lia]].
  - intros Hpt. destruct Hf as [Hf|Hf]; revert Hf;
      unfold fs_watch_wait_apple, fs_watch_wait_linux;
      (destruct p as [p|]; [rewrite (proj2 (Z.ltb_lt t 0)) by (by destruct Hpt)|]); by intros [= <- <-].
  - intros Hnn. unfold is_i64 in Ht.
    rewrite (Z.quot_div_nonneg t 1000), (Z.rem_mod_nonneg t 1000) by lia.
    pose proof (Z.div_mod t 1000 ltac:(lia)). pose proof (Z.mod_pos_bound t 1000 ltac:(lia)).
    unwrap. lia.
Qed.

(** On Linux the 64-bit time out is converted to the [int] of [poll]: a wait
    of 2^32 + k milliseconds is a wait of k, and one of 2^31 ms a wait without
    limit. *)
Lemma fs_watch_wait_linux_wraps p k w :
  0 ≤ k → fs_watch_wait_linux p (4294967296 + k) w = fs_watch_wait_linux p k w.
Proof.
  intros Hk. unfold fs_watch_wait_linux.
  rewrite (proj2 (Z.ltb_ge (_ + k) 0)), (proj2 (Z.ltb_ge k 0)) by lia.
  replace (i32 (4294967296 + k)) with (i32 k); [done|]. unfold i32.
  replace (4294967296 + k + 2147483648) with (k + 2147483648 + 1 * 4294967296) by lia.
  by rewrite Z_mod_plus_full.
Qed.

(** The write loop ends once the interruptions do; it stores all the data or
    closes the descriptor and returns an error. *)
Lemma write_all_loop_spec fuel : ∀ fd data w,
  (length data + interrupts w < fuel)%nat →
  ∃ r w', write_all_loop fuel fd data w = Some (r, w') ∧
    ((r = 1 ∧ holds 0 0 0 w w' ∧ written w' = written w ++ data) ∨ (r < 0 ∧ holds (-1) 0 0 w w')).
Proof.
  induction fuel as [|fuel IH]; intros fd data w Hf; [lia|].
  destruct data as [|b data]; simpl.
  { eexists _, _. split; [done|]. left. rewrite app_nil_r. split; [done|]. split; [apply holds_0|done]. }
  destruct (write fd (b :: data) w) as [r w1] eqn:E.
  apply write_law in E as [[Hok Hn] [(k & -> & Hk & Hw & Hi)|(e & -> & Hw & Hi)]].
  - destruct (Z.leb_spec k 0).
    + destruct (close fd w1) as [r w2] eqn:Ec. eexists _, _. split; [done|]. right.
      split; [pose proof EIO_pos; lia|].
      eapply holds_close; [|exact Ec]. exact Hn.
    + destruct (IH fd (drop (Z.to_nat k) (b :: data)) w1) as (r & w2 & -> & H2).
      { rewrite length_drop. simpl in *. lia. }
      eexists _, _. split; [done|]. destruct H2 as [(-> & Hh & Hw2)|(Hr & Hh)].
      * left. split; [done|]. split; [by eapply holds_next|].
        by rewrite Hw2, Hw, <- app_assoc, take_drop.
      * right. split; [done|]. by pose proof (holds_trans _ _ _ _ _ _ _ _ _ Hn Hh).
  - destruct (Z.eqb_spec e EINTR) as [e0|].
    + destruct (IH fd (b :: data) w1) as (r & w2 & -> & H2); [specialize (Hi e0); simpl in *; lia|].
      eexists _, _. split; [done|]. rewrite Hw in H2. destruct H2 as [(-> & Hh & Hw2)|(Hr & Hh)].
      * left. split; [done|]. split; [by eapply holds_next|done].
      * right. split; [done|]. by pose proof (holds_trans _ _ _ _ _ _ _ _ _ Hn Hh).
    + destruct (close fd w1) as [r w2] eqn:Ec. eexists _, _. split; [done|]. right.
      split; [simpl in Hok; unfold errno_ok in Hok; lia|].
      eapply holds_close; [|exact Ec]. exact Hn.
Qed.

Lemma write_all_spec fuel p data w :
  (length data + interrupts (snd (open_path p w)) < fuel)%nat →
  ∃ r w', write_all fuel p data w = Some (r, w') ∧ holds 0 0 0 w w' ∧
    ((r = 1 ∧ written w' = data) ∨ r < 0).
Proof.
  intros Hf. unfold write_all. destruct (open_path p w) as [r w1] eqn:E. simpl in Hf.
  apply open_path_law in E as [[Hok Ho] Hw]. destruct r as [fd|e]; simpl in Hok.
  2: { eexists _, _. split; [done|]. split; [done|]. right. unfold errno_ok in Hok. lia. }
  destruct (write_all_loop_spec fuel fd data w1 Hf) as (r & w2 & -> & Hr).
  destruct Hr as [(-> & Hh & Hw2)|(Hr & Hh)].
  2: { rewrite (proj2 (Z.leb_le r 0)) by lia. eexists _, _. split; [done|].
       split; [|by right]. by pose proof (holds_trans _ _ _ _ _ _ _ _ _ Ho Hh). }
  simpl. destruct (fchmod fd w2) as [f w3] eqn:Ef. apply fchmod_law in Ef as [[Hokf Hf3] Hw3].
  assert (holds (0 + 1) 0 0 w w3) as H3 by (do 2 (eapply holds_next; [|eassumption]); done).
  destruct f as [n|e]; destruct (close fd w3) as [c w4] eqn:Ec;
    pose proof (holds_close _ _ _ _ _ _ _ _ H3 Ec) as H4; apply close_law in Ec as (Hokc & _ & Hw4).
  - destruct c as [c|e]; eexists _, _; (split; [done|]); (split; [done|]).
    + left. split; [done|]. by rewrite Hw4, Hw3, Hw2, Hw.
    + right. simpl in Hokc. unfold errno_ok in Hokc. lia.
  - eexists _, _. split; [done|]. split; [done|]. right. simpl in Hokf. unfold errno_ok in Hokf. lia.
Qed.

Lemma close_both_spec a b c w w' : holds a (b + 2) c w w' → holds a b c w (close_both w').
Proof.
  intros H1. unfold close_both. destruct (dlclose_law w') as [H2 _].
  destruct (dlclose_law (dlclose w')) as [H3 _].
  pose proof (holds_trans _ _ _ _ _ _ _ _ _ H1 (holds_trans _ _ _ _ _ _ _ _ _ H2 H3)) as H4.
  replace (b + 2 + (-1 + -1)) with b in H4 by lia. by rewrite !Z.add_0_r in H4.
Qed.

(** Storing the content found: the two libraries are released, and the kind
    is returned when everything was written. *)
Lemma store_content fuel k p w w1 content kind :
  0 < kind → (∀ w, (interrupts w ≤ k)%nat) →
  match content with Some d => (length d + k < fuel)%nat | None => True end →
  holds 0 (0 + 2) 0 w w1 →
  ∃ r w',
    (let* (result, w) := store_image fuel p content w1 in
    Some (if 0 <? result then kind else result, close_both w)) = Some (r, w') ∧ held w' = held w ∧
    (r < 0 ∨ r = kind ∧ content = Some (written w')).
Proof.
  intros Hk Hi Hc H1. pose proof EIO_pos. unfold store_image.
  assert (∃ r w', Some (if 0 <? - EIO then kind else - EIO, close_both w1) = Some (r, w') ∧
    held w' = held w ∧ (r < 0 ∨ r = kind ∧ content = Some (written w'))) as Hnull.
  { rewrite (proj2 (Z.ltb_ge _ _)) by lia. eexists _, _. split; [done|]. split; [|left; lia].
    by apply holds_held, close_both_spec. }
  destruct content as [[|b d]|]; [exact Hnull| |exact Hnull].
  destruct (write_all_spec fuel p (b :: d) w1) as (r & w2 & -> & Hh & Hr); [specialize (Hi (snd (open_path p w1))); lia|].
  eexists _, _. split; [done|].
  split; [apply holds_held, close_both_spec; by eapply holds_next|].
  destruct Hr as [[-> Hw]|Hr].
  - right. split; [done|]. unfold close_both.
    by rewrite (proj2 (dlclose_law _)), (proj2 (dlclose_law _)), Hw.
  - left. by rewrite (proj2 (Z.ltb_ge 0 r)) by lia.
Qed.

(** reading the clipboard image ends, with every library and descriptor
    given back; it returns 1 or 2 only when the file received exactly the PNG
    or (failing that) TIFF bytes of the pasteboard, 0 only when there is
    neither, and a negative error number otherwise. *)
Theorem clipboard_image_written fuel k p w :
  (∀ w, match fst (pasteboard "public.png"%string w) with
        | Some (Some d) => (length d + k < fuel)%nat | _ => True end) →
  (∀ w, match fst (pasteboard "public.tiff"%string w) with
        | Some (Some d) => (length d + k < fuel)%nat | _ => True end) →
  (∀ w, (interrupts w ≤ k)%nat) →
  ∃ r w', adou_clipboard_image_write fuel p w = Some (r, w') ∧ held w' = held w ∧
    (r < 0 ∨ ∃ v,
       let png := fst (pasteboard "public.png"%string v) in
       let tiff := fst (pasteboard "public.tiff"%string (snd (pasteboard "public.png"%string v))) in
       r = 1 ∧ png = Some (Some (written w')) ∨
       r = 2 ∧ png = None ∧ tiff = Some (Some (written w')) ∨
       r = 0 ∧ png = None ∧ tiff = None).
Proof.
  intros Hp Ht Hi. unfold adou_clipboard_image_write. pose proof EIO_pos as Heio. pose proof ENOSYS_pos as Hens.
  destruct (dlopen _ w) as [o w1] eqn:E1. apply dlopen_law in E1.
  destruct (dlopen _ w1) as [a w2] eqn:E2. apply dlopen_law in E2.
  pose proof (holds_trans _ _ _ _ _ _ _ _ _ E1 E2) as Hb. rewrite !Z.add_0_r in Hb.
  destruct (negb o || negb a) eqn:Eo.
  { eexists _, _. split; [done|]. split; [|left; lia]. apply holds_held.
    pose proof (dlclose_law w2) as [Hc _].
    destruct o, a; simpl in *; try done;
      by pose proof (holds_trans _ _ _ _ _ _ _ _ _ Hb Hc). }
  destruct o, a; try done. clear Eo. change (1 + 1) with (0 + 2) in Hb.
  destruct objc_symbols; simpl.
  2: { eexists _, _. split; [done|]. split; [|left; lia]. by apply holds_held, close_both_spec. }
  destruct objc_classes; simpl.
  2: { eexists _, _. split; [done|]. split; [|left; lia]. by apply holds_held, close_both_spec. }
  destruct (pasteboard "public.png"%string w2) as [png w3] eqn:E3.
  assert (holds 0 (0 + 2) 0 w w3) as H3 by (eapply holds_next; [exact Hb|by eapply pasteboard_law]).
  destruct png as [content|]; cbv beta iota.
  - pose proof (Hp w2) as Hl. rewrite E3 in Hl.
    destruct (store_content fuel k p w w3 content 1 ltac:(lia) Hi Hl H3) as (r & w' & -> & Hh & Hr).
    eexists _, _. split; [done|]. split; [done|]. destruct Hr as [Hr|[-> ->]]; [by left|].
    right. exists w2. rewrite E3. by left.
  - destruct (pasteboard "public.tiff"%string w3) as [tiff w4] eqn:E4.
    assert (holds 0 (0 + 2) 0 w w4) as H4 by (eapply holds_next; [exact H3|by eapply pasteboard_law]).
    destruct tiff as [content|]; cbv beta iota.
    + pose proof (Ht w3) as Hl. rewrite E4 in Hl.
      destruct (store_content fuel k p w w4 content 2 ltac:(lia) Hi Hl H4) as (r & w' & -> & Hh & Hr).
      eexists _, _. split; [done|]. split; [done|]. destruct Hr as [Hr|[-> ->]]; [by left|].
      right. exists w2. rewrite E3. simpl. rewrite E4. auto.
    + eexists _, _. split; [done|]. split; [by apply holds_held, close_both_spec|].
      right. exists w2. rewrite E3. simpl. rewrite E4. auto.
Qed.
End code.

(** ** A concrete system

    Every call succeeds; writes store one byte at a time; the pasteboard holds
    a TIFF image. *)
Record fake : Type := mk_fake { f_held : Z * Z * Z; f_out : bytes }.

Definition bump (d l x : Z) (w : fake) : fake :=
  mk_fake (let '(a, b, c) := f_held w in (a + d, b + l, c + x)) (f_out w).

Definition fake_os : MiscOs fake := {|
  poll _ _ w := (SysOk 1, 1, w);
  POLLNVAL := 32;
  open_path _ w := (SysOk 3, mk_fake (f_held (bump 1 0 0 w)) []);
  kqueue w := (SysOk 4, bump 1 0 0 w);
  kevent_add _ _ w := (SysOk 0, w);
  kevent_wait _ _ _ w := (SysOk 0, w);
  inotify_init1 w := (SysOk 3, bump 1 0 0 w);
  inotify_add_watch _ _ w := (SysOk 1, w);
  inotify_rm_watch _ _ w := (SysOk 0, w);
  read_events _ w := (SysOk 16, w);
  close _ w := (SysOk 0, bump (-1) 0 0 w);
  regcomp _ w := (true, bump 0 0 1 w);
  regexec p t := bool_decide (p = t);
  regfree w := bump 0 0 (-1) w;
  write _ d w := (SysOk (Z.of_nat (length (take 1 d))), mk_fake (f_held w) (f_out w ++ take 1 d));
  fchmod _ w := (SysOk 0, w);
  dlopen _ w := (true, bump 0 1 0 w);
  dlclose w := bump 0 (-1) 0 w;
  objc_symbols := true;
  objc_classes := true;
  pasteboard t w := (if bool_decide (t = "public.tiff"%string) then Some (Some [73; 73; 42]) else None, w);
  setpgid w := (SysOk 0, w);
  held := f_held;
  written := f_out;
  interrupts _ := O
|}.

#[local] Existing Instance fake_os.
#[local] Existing Instance linux_errno.
#[local] Existing Instance linux_errno_laws.

Lemma fake_laws : MiscLaws fake.
Proof.
  assert (∀ w, holds 0 0 0 w w) as H0.
  { intros [[[a b] c] o]. unfold holds. simpl. f_equal; [f_equal|]; lia. }
  assert (∀ d l x w, holds d l x w (bump d l x w)) as Hb by done.
  split; simpl; intros;
    repeat match goal with H : (_, _) = (_, _) |- _ => injection H as; subst end;
    unfold neutral, opens; simpl;
    try solve [split_and!; first [done | lia | apply H0] | apply Hb | apply H0].
  split; [split; [lia|exact (H0 w)]|left].
  eexists. split; [done|]. rewrite length_take. split; [lia|].
  split; [|done]. rewrite Nat2Z.id. by destruct d.
Qed.

#[local] Existing Instance fake_laws.

Definition fake0 : fake := mk_fake (0, 0, 0) [].

Lemma fs_watch_wait_outcome_witness : ∃ r w,
  fs_watch_wait_apple (Some [47]) 1500 fake0 = (r, w) ∧ f_held w = (0, 0, 0).
Proof.
  eexists _, _. split; [reflexivity|].
  exact (proj1 (fs_watch_wait_outcome (Some [47]) 1500 fake0 _ _ ltac:(unfold is_i64; lia)
    (or_introl eq_refl))).
Defined.

Lemma clipboard_image_written_witness : ∃ r w,
  adou_clipboard_image_write 5 [47] fake0 = Some (r, w) ∧ f_held w = (0, 0, 0) ∧
  r = 2 ∧ f_out w = [73; 73; 42].
Proof.
  destruct (clipboard_image_written 5 0 [47] fake0 ltac:(intros; exact I)
    ltac:(intros; apply (Nat.ltb_lt 3 5); reflexivity) (λ w, le_n 0))
    as (r & w & E & Hh & _).
  exists r, w. split; [exact E|]. split; [exact Hh|].
  vm_compute in E. injection E as <- <-. split; reflexivity.
Defined.
End NativeMisc.
