(* ===== verification/Text.v ===== *)
(** * Characters and strings ([native/sqlite3/sqlite3.c], global.c and util.c)

    The ASCII case and class tables, case-insensitive comparison, removal of
    SQL quotes and blob literals.  A [char *] that is only read forwards is the
    list of the bytes from the pointer on; the terminator is part of the list
    and running off its end has no behaviour ([None]). *)

From S2P Require Import Prelude.

(** A zero-terminated string and what may stand before the terminator. *)
Definition cstr (s : bytes) : bytes := s ++ [0].
Definition text (s : bytes) : Prop := Forall (λ c, 0 < c < 256) s.

#[global] Instance text_dec s : Decision (text s).
Proof. unfold text. apply _. Defined.

Module Text.

(** ** Tables, written two hexadecimal digits to a byte *)

Definition nibble (a : Ascii.ascii) : Z :=
  let n := Z.of_N (Ascii.N_of_ascii a) in if n <? 58 then n - 48 else n - 87.

Fixpoint from_hex (s : string) : list Z :=
  match s with
  | String a (String b s) => 16 * nibble a + nibble b :: from_hex s
  | _ => []
  end.

(** The bytes of a string literal. *)
Definition string_bytes (s : string) : bytes :=
  map (λ a, Z.of_N (Ascii.N_of_ascii a)) (String.list_ascii_of_string s).

(* native/sqlite3/sqlite3.c:23176-23244 sqlite3UpperToLower *)
Definition sqlite3UpperToLower : list Z :=
  from_hex ("000102030405060708090a0b0c0d0e0f101112131415161718191a1b1c1d1e1f" ++
   "202122232425262728292a2b2c2d2e2f303132333435363738393a3b3c3d3e3f" ++
   "406162636465666768696a6b6c6d6e6f707172737475767778797a5b5c5d5e5f" ++
   "606162636465666768696a6b6c6d6e6f707172737475767778797a7b7c7d7e7f" ++
   "808182838485868788898a8b8c8d8e8f909192939495969798999a9b9c9d9e9f" ++
   "a0a1a2a3a4a5a6a7a8a9aaabacadaeafb0b1b2b3b4b5b6b7b8b9babbbcbdbebf" ++
   "c0c1c2c3c4c5c6c7c8c9cacbcccdcecfd0d1d2d3d4d5d6d7d8d9dadbdcdddedf" ++
   "e0e1e2e3e4e5e6e7e8e9eaebecedeeeff0f1f2f3f4f5f6f7f8f9fafbfcfdfeff" ++
   "010000010100000100010001010001000001").

Definition OP_Ne : Z := 53.

(* native/sqlite3/sqlite3.c:23245-23245 sqlite3aLTb *)
Definition sqlite3aLTb (opcode : Z) : option Z := rd sqlite3UpperToLower (256 - OP_Ne + opcode).
(* native/sqlite3/sqlite3.c:23246-23246 sqlite3aEQb *)
Definition sqlite3aEQb (opcode : Z) : option Z := rd sqlite3UpperToLower (256 + 6 - OP_Ne + opcode).
(* native/sqlite3/sqlite3.c:23247-23247 sqlite3aGTb *)
Definition sqlite3aGTb (opcode : Z) : option Z := rd sqlite3UpperToLower (256 + 12 - OP_Ne + opcode).

(* native/sqlite3/sqlite3.c:23249-23313 sqlite3CtypeMap *)
Definition sqlite3CtypeMap : list Z :=
  from_hex ("0000000000000000000101010101000000000000000000000000000000000000" ++
   "010080004000008000000000000000000c0c0c0c0c0c0c0c0c0c000000000000" ++
   "000a0a0a0a0a0a02020202020202020202020202020202020202028000000040" ++
   "802a2a2a2a2a2a22222222222222222222222222222222222222220000000000" ++
   "4040404040404040404040404040404040404040404040404040404040404040" ++
   "4040404040404040404040404040404040404040404040404040404040404040" ++
   "4040404040404040404040404040404040404040404040404040404040404040" ++
   "4040404040404040404040404040404040404040404040404040404040404040").

(** The tables are indexed by bytes. *)
Definition upper_to_lower (c : Z) : Z := default 0 (rd sqlite3UpperToLower c).
Definition ctype (c : Z) (mask : Z) : bool := negb (Z.land (default 0 (rd sqlite3CtypeMap c)) mask =? 0).

(* native/sqlite3/sqlite3.c:21047-21047 sqlite3Isspace *)
Definition sqlite3Isspace (c : Z) : bool := ctype c 0x01.
(* native/sqlite3/sqlite3.c:21048-21048 sqlite3Isalnum *)
Definition sqlite3Isalnum (c : Z) : bool := ctype c 0x06.
(* native/sqlite3/sqlite3.c:21050-21050 sqlite3Isdigit *)
Definition sqlite3Isdigit (c : Z) : bool := ctype c 0x04.
(* native/sqlite3/sqlite3.c:21051-21051 sqlite3Isxdigit *)
Definition sqlite3Isxdigit (c : Z) : bool := ctype c 0x08.
(* native/sqlite3/sqlite3.c:21053-21053 sqlite3Isquote *)
Definition sqlite3Isquote (c : Z) : bool := ctype c 0x80.
(* native/sqlite3/sqlite3.c:21046-21046 sqlite3Toupper *)
Definition sqlite3Toupper (c : Z) : Z :=
  Z.land c (Z.lnot (Z.land (default 0 (rd sqlite3CtypeMap c)) 0x20)).
(* native/sqlite3/sqlite3.c:181518-181518 IdChar *)
Definition IdChar (c : Z) : bool := ctype c 0x46.

(** ** Strings *)

Fixpoint strlen (z : bytes) : option Z :=
  match z with
  | [] => None
  | c :: z => if c =? 0 then Some 0 else let* n := strlen z in Some (n + 1)
  end.

(* native/sqlite3/sqlite3.c:35595-35606 sqlite3Strlen30 *)
Definition sqlite3Strlen30 (z : option bytes) : option Z :=
  match z with
  | None => Some 0
  | Some z => let* n := strlen z in Some (Z.land 0x3fffffff (i32 n))
  end.

(* native/sqlite3/sqlite3.c:35927-35945 sqlite3StrICmp *)
Fixpoint sqlite3StrICmp (a b : bytes) : option Z :=
  match a, b with
  | c :: a, x :: b =>
      if c =? x then if c =? 0 then Some 0 else sqlite3StrICmp a b
      else let d := upper_to_lower c - upper_to_lower x in
           if negb (d =? 0) then Some d else sqlite3StrICmp a b
  | _, _ => None
  end.

(* native/sqlite3/sqlite3.c:35909-35926 sqlite3_stricmp *)
Definition sqlite3_stricmp (zLeft zRight : option bytes) : option Z :=
  match zLeft, zRight with
  | None, None => Some 0
  | None, Some _ => Some (-1)
  | Some _, None => Some 1
  | Some a, Some b => sqlite3StrICmp a b
  end.

(** The loop of [sqlite3_strnicmp] and its result. *)
(* native/sqlite3/sqlite3.c:35955-35956 sqlite3_strnicmp, the loop *)
Fixpoint strnicmp_loop (a b : bytes) (N : nat) : option Z :=
  match N with
  | O => Some 0
  | S N =>
      match a, b with
      | c :: a', x :: b' =>
          if negb (c =? 0) && (upper_to_lower c =? upper_to_lower x) then strnicmp_loop a' b' N
          else Some (upper_to_lower c - upper_to_lower x)
      | _, _ => None
      end
  end.

(* native/sqlite3/sqlite3.c:35946-35957 sqlite3_strnicmp *)
Definition sqlite3_strnicmp (zLeft zRight : option bytes) (N : Z) : option Z :=
  match zLeft, zRight with
  | None, None => Some 0
  | None, Some _ => Some (-1)
  | Some _, None => Some 1
  | Some a, Some b => strnicmp_loop a b (Z.to_nat N)
  end.

(* native/sqlite3/sqlite3.c:35965-35969 sqlite3StrIHash, the loop *)
Fixpoint ihash_loop (z : bytes) (h : Z) : option Z :=
  match z with
  | [] => None
  | c :: z => if c =? 0 then Some h else ihash_loop z (u8 (h + upper_to_lower c))
  end.

(* native/sqlite3/sqlite3.c:35959-35970 sqlite3StrIHash *)
Definition sqlite3StrIHash (z : option bytes) : option Z :=
  match z with None => Some 0 | Some z => ihash_loop z 0 end.

(** *** Quotes.  The buffer is edited in place: [i] reads ahead of [j]. *)

(* native/sqlite3/sqlite3.c:35816-35829 sqlite3Dequote, the for loop *)
Fixpoint dequote_loop (fuel : nat) (z : bytes) (quote i j : Z) : option bytes :=
  match fuel with
  | O => None
  | S fuel =>
      let* c := rd z i in
      if c =? quote then
        let* d := rd z (i + 1) in
        if d =? quote then
          let* z := wr z j quote in
          dequote_loop fuel z quote (i + 2) (j + 1)
        else wr z j 0
      else
        let* z := wr z j c in
        dequote_loop fuel z quote (i + 1) (j + 1)
  end.

(** Each turn moves [i] forward inside the buffer. *)
(* native/sqlite3/sqlite3.c:35792-35830 sqlite3Dequote *)
Definition sqlite3Dequote (z : bytes) : option bytes :=
  let* q := rd z 0 in
  if negb (sqlite3Isquote q) then Some z else
  let quote := if q =? 91 then 93 else q in
  dequote_loop (length z) z quote 1 0.

(** A token: the text from [z] on and its length. *)
Record Token : Type := mk_token { tz : bytes; tn : Z }.

(* native/sqlite3/sqlite3.c:35891-35893 sqlite3DequoteToken, the loop *)
Fixpoint token_quotes (fuel : nat) (z : bytes) (i n : Z) : option bool :=
  match fuel with
  | O => None
  | S fuel =>
      if i <? n - 1 then
        let* c := rd z i in
        if sqlite3Isquote c then Some true else token_quotes fuel z (i + 1) n
      else Some false
  end.

(* native/sqlite3/sqlite3.c:35876-35896 sqlite3DequoteToken *)
Definition sqlite3DequoteToken (p : Token) : option Token :=
  if tn p <? 2 then Some p else
  let* q := rd (tz p) 0 in
  if negb (sqlite3Isquote q) then Some p else
  let* inner := token_quotes (Z.to_nat (tn p)) (tz p) 1 (tn p) in
  if (inner : bool) then Some p else Some (mk_token (tl (tz p)) (tn p - 2)).

(** *** Blob literals *)

(* native/sqlite3/sqlite3.c:36993-37007 sqlite3HexToInt *)
Definition sqlite3HexToInt (h : Z) : Z :=
  let h := h + 9 * Z.land 1 (Z.shiftr h 6) in
  u8 (Z.land h 0xf).

(** The loop fills [zBlob]; [z] is what is left to read. *)
(* native/sqlite3/sqlite3.c:37023-37026 sqlite3HexToBlob, the for loop *)
Fixpoint hex_loop (fuel : nat) (z zBlob : bytes) (i n : Z) : option bytes :=
  match fuel with
  | O => None
  | S fuel =>
      if i <? n then
        let* a := rd z i in
        let* b := rd z (i + 1) in
        let* zBlob := wr zBlob (Z.quot i 2)
          (u8 (Z.lor (Z.shiftl (sqlite3HexToInt a) 4) (sqlite3HexToInt b))) in
        hex_loop fuel z zBlob (i + 2) n
      else wr zBlob (Z.quot i 2) 0
  end.

(** [alloc n] is the buffer of [n] bytes [sqlite3DbMallocRawNN] returns, if any. *)
(* native/sqlite3/sqlite3.c:37010-37029 sqlite3HexToBlob *)
Definition sqlite3HexToBlob (alloc : Z → option bytes) (z : bytes) (n : Z) : option (option bytes) :=
  match alloc (Z.quot n 2 + 1) with
  | None => Some None
  | Some zBlob =>
      let n := n - 1 in
      let* zBlob := hex_loop (S (Z.to_nat n)) z zBlob 0 n in Some (Some zBlob)
  end.

(** ** Facts about the tables *)

(** Check a boolean fact about every byte. *)
Lemma all_bytes (P : Z → bool) :
  forallb P (map Z.of_nat (seq 0 256)) = true → ∀ c, is_u8 c → P c = true.
Proof.
  intros H c Hc. unfold is_u8 in Hc.
  rewrite forallb_forall in H. apply H, in_map_iff. exists (Z.to_nat c). split; [lia|].
  apply in_seq. lia.
Qed.

Local Ltac byte_fact H :=
  intros c Hc; apply Z.eqb_eq || apply eqb_prop; revert c Hc;
  apply (all_bytes H); vm_compute; reflexivity.

Lemma upper_to_lower_spec c : is_u8 c →
  upper_to_lower c = if (65 <=? c) && (c <=? 90) then c + 32 else c.
Proof.
  revert c. intros c Hc. apply Z.eqb_eq. revert c Hc.
  apply (all_bytes (λ c, upper_to_lower c =? if (65 <=? c) && (c <=? 90) then c + 32 else c)).
  by vm_compute.
Qed.

Lemma ctype_spec c : is_u8 c →
  sqlite3Isdigit c = (48 <=? c) && (c <=? 57) ∧
  sqlite3Isspace c = (c =? 32) || ((9 <=? c) && (c <=? 13)) ∧
  sqlite3Isxdigit c = ((48 <=? c) && (c <=? 57)) || ((65 <=? c) && (c <=? 70)) ||
    ((97 <=? c) && (c <=? 102)) ∧
  sqlite3Isquote c = (c =? 34) || (c =? 39) || (c =? 91) || (c =? 96).
Proof.
  intros Hc. split_and!; apply eqb_prop; revert c Hc.
  - apply (all_bytes (λ c, Bool.eqb (sqlite3Isdigit c) ((48 <=? c) && (c <=? 57)))). by vm_compute.
  - apply (all_bytes (λ c, Bool.eqb (sqlite3Isspace c)
      ((c =? 32) || ((9 <=? c) && (c <=? 13))))). by vm_compute.
  - apply (all_bytes (λ c, Bool.eqb (sqlite3Isxdigit c)
      (((48 <=? c) && (c <=? 57)) || ((65 <=? c) && (c <=? 70)) || ((97 <=? c) && (c <=? 102))))).
    by vm_compute.
  - apply (all_bytes (λ c, Bool.eqb (sqlite3Isquote c)
      ((c =? 34) || (c =? 39) || (c =? 91) || (c =? 96)))). by vm_compute.
Qed.

(** Case folding of a string. *)
Definition fold (s : bytes) : bytes := map upper_to_lower s.

Lemma upper_to_lower_pos c : 0 < c < 256 → 0 < upper_to_lower c < 256.
Proof.
  intros H. rewrite upper_to_lower_spec by (unfold is_u8; lia).
  destruct (Z.leb_spec 65 c), (Z.leb_spec c 90); simpl; lia.
Qed.

Lemma text_cons c s : text (c :: s) ↔ (0 < c < 256) ∧ text s.
Proof. unfold text. by rewrite Forall_cons. Qed.

(** ** Comparison *)

(** The first difference of two strings ended by a smaller symbol. *)
Fixpoint lexdiff (a b : bytes) : Z :=
  match a, b with
  | [], [] => 0
  | [], x :: _ => - x
  | c :: _, [] => c
  | c :: a, x :: b => if c =? x then lexdiff a b else c - x
  end.

Lemma stricmp_lexdiff s : ∀ t u v, text s → text t →
  sqlite3StrICmp (cstr s ++ u) (cstr t ++ v) = Some (lexdiff (fold s) (fold t)).
Proof.
  unfold cstr. assert (upper_to_lower 0 = 0) as H0 by done.
  induction s as [|c s IH]; intros [|x t] u v Hs Ht;
    cbn [app sqlite3StrICmp lexdiff fold map]; [done|..];
    repeat match goal with H : text (_ :: _) |- _ => apply text_cons in H as [? ?] end.
  - rewrite (proj2 (Z.eqb_neq 0 x)) by lia. cbn [app]. pose proof (upper_to_lower_pos x ltac:(lia)).
    by rewrite H0, (proj2 (Z.eqb_neq _ 0)) by lia.
  - destruct (Z.eqb_spec c 0); [lia|]. pose proof (upper_to_lower_pos c ltac:(lia)).
    rewrite H0, Z.sub_0_r. by rewrite (proj2 (Z.eqb_neq _ 0)) by lia.
  - destruct (Z.eqb_spec c x) as [->|].
    + rewrite (proj2 (Z.eqb_neq x 0)), Z.eqb_refl by lia. by apply IH.
    + destruct (Z.eqb_spec (upper_to_lower c) (upper_to_lower x)) as [->|].
      * rewrite Z.sub_diag. simpl. by apply IH.
      * by rewrite (proj2 (Z.eqb_neq _ 0)) by lia.
Qed.

Lemma lexdiff_0 a : ∀ b, Forall (λ c, 0 < c < 256) a → Forall (λ c, 0 < c < 256) b →
  lexdiff a b = 0 ↔ a = b.
Proof.
  induction a as [|c a IH]; intros [|x b] Ha Hb; simpl; [done|..];
    repeat match goal with H : Forall _ (_ :: _) |- _ => apply Forall_cons in H as [? ?] end.
  - split; [lia|done].
  - split; [lia|done].
  - destruct (Z.eqb_spec c x) as [->|].
    + rewrite IH by done. split; [by intros ->|by intros [= ->]].
    + split; [lia|by intros [= ? ?]].
Qed.

Lemma lexdiff_antisym a : ∀ b, lexdiff b a = - lexdiff a b.
Proof.
  induction a as [|c a IH]; intros [|x b]; simpl; [done|lia|lia|].
  rewrite Z.eqb_sym. destruct (Z.eqb_spec c x) as [->|]; [apply IH|lia].
Qed.

Lemma lexdiff_trans a : ∀ b c,
  Forall (λ x, 0 < x < 256) a → Forall (λ x, 0 < x < 256) b → Forall (λ x, 0 < x < 256) c →
  lexdiff a b <= 0 → lexdiff b c <= 0 → lexdiff a c <= 0.
Proof.
  induction a as [|x a IH]; intros [|y b] [|z c] Ha Hb Hc; simpl; try done;
    repeat match goal with H : Forall _ (_ :: _) |- _ => apply Forall_cons in H as [? ?] end;
    try lia.
  destruct (Z.eqb_spec x y), (Z.eqb_spec y z), (Z.eqb_spec x z); subst; try lia; try done.
  by apply IH.
Qed.

Lemma fold_text s : text s → text (fold s).
Proof.
  unfold text, fold. intros H. apply Forall_map.
  eapply Forall_impl; [exact H|]. intros c Hc. by apply upper_to_lower_pos.
Qed.

(** Comparing two zero-terminated strings never reads past either
    terminator, and is the order of their bytes after folding A-Z to a-z: it
    is 0 exactly for strings equal up to case, it changes sign when the
    arguments are exchanged, and it is transitive. *)
Theorem stricmp_order s t u : text s → text t → text u →
  ∃ d1 d2 d3, sqlite3StrICmp (cstr s) (cstr t) = Some d1 ∧
    sqlite3StrICmp (cstr t) (cstr u) = Some d2 ∧ sqlite3StrICmp (cstr s) (cstr u) = Some d3 ∧
    sqlite3StrICmp (cstr t) (cstr s) = Some (- d1) ∧
    (d1 = 0 ↔ fold s = fold t) ∧ (d1 <= 0 → d2 <= 0 → d3 <= 0).
Proof.
  intros Hs Ht Hu.
  assert (∀ a b, text a → text b → sqlite3StrICmp (cstr a) (cstr b) = Some (lexdiff (fold a) (fold b)))
    as H.
  { intros a b Ha Hb. pose proof (stricmp_lexdiff a b [] [] Ha Hb) as H. by rewrite !app_nil_r in H. }
  rewrite !H by done. eexists _, _, _. repeat (split; [done|]).
  split; [by rewrite lexdiff_antisym|].
  split; [apply lexdiff_0; by apply fold_text|].
  apply lexdiff_trans; by apply fold_text.
Qed.

Lemma stricmp_order_witness :
  sqlite3StrICmp (cstr [83; 81; 76]) (cstr [115; 113; 108]) = Some 0 ∧ ∃ d, d <= 0 ∧
  sqlite3StrICmp (cstr [83; 81; 76]) (cstr [115; 113; 109]) = Some d.
Proof.
  split; [reflexivity|].
  destruct (stricmp_order [83; 81; 76] [115; 113; 108] [115; 113; 109]
    ltac:(repeat constructor) ltac:(repeat constructor) ltac:(repeat constructor))
    as (d1 & d2 & d3 & E1 & E2 & E3 & _ & _ & H).
  exists d3. split; [|exact E3]. vm_compute in E1, E2. apply H; injection E1 as <-; injection E2 as <-; done.
Defined.

(** ** Quoting *)

(** An SQL-quoted string: every closing quote inside is doubled. *)
Definition escape (q : Z) (s : bytes) : bytes :=
  flat_map (λ c, if c =? q then [q; q] else [c]) s.

Definition closing (o : Z) : Z := if o =? 91 then 93 else o.

Definition quoted (o : Z) (s : bytes) : bytes := o :: escape (closing o) s ++ [closing o].

Lemma rd_drop (z : bytes) i x l : drop (Z.to_nat i) z = x :: l → 0 ≤ i → rd z i = Some x.
Proof.
  intros H Hi. unfold rd. rewrite decide_True by done.
  by rewrite <- (Nat.add_0_r (Z.to_nat i)), <- lookup_drop, H.
Qed.

Lemma drop_next (z : bytes) i x l :
  0 ≤ i → drop (Z.to_nat i) z = x :: l → drop (Z.to_nat (i + 1)) z = l.
Proof.
  intros Hi H. replace (Z.to_nat (i + 1)) with (Z.to_nat i + 1)%nat by lia.
  by rewrite <- drop_drop, H.
Qed.

(** A store before the position read leaves what is still to be read. *)
Lemma wr_before (z : list Z) i j v : 0 ≤ j < i → i < Z.of_nat (length z) →
  ∃ z', wr z j v = Some z' ∧ length z' = length z ∧ drop (Z.to_nat i) z' = drop (Z.to_nat i) z ∧
    take (Z.to_nat (j + 1)) z' = take (Z.to_nat j) z ++ [v].
Proof.
  intros Hj Hi. exists (<[Z.to_nat j := v]> z). split; [by apply wr_Some; lia|].
  split; [apply length_insert|]. split; [by rewrite drop_insert_lt by lia|].
  replace (Z.to_nat (j + 1)) with (S (Z.to_nat j)) by lia.
  rewrite (take_S_r _ _ v) by (apply list_lookup_insert_eq; lia).
  by rewrite take_insert_ge by lia.
Qed.

Lemma drop_lt (z : bytes) i x l : 0 ≤ i → drop (Z.to_nat i) z = x :: l → i < Z.of_nat (length z).
Proof. intros Hi H. apply (f_equal length) in H. rewrite length_drop in H. simpl in H. lia. Qed.

Lemma dequote_loop_spec q s : ∀ fuel z i j d r, 0 ≤ j < i → d ≠ q →
  drop (Z.to_nat i) z = escape q s ++ q :: d :: r → (length s < fuel)%nat →
  ∃ z', dequote_loop fuel z q i j = Some z' ∧ length z' = length z ∧
    take (Z.to_nat j + length s + 1) z' = take (Z.to_nat j) z ++ s ++ [0].
Proof.
  induction s as [|c s IH]; intros [|fuel] z i j d r Hj Hd Hz Hf; cbn [length] in Hf; try lia;
    cbn [dequote_loop].
  - rewrite (rd_drop _ _ _ _ Hz), Z.eqb_refl by lia.
    apply drop_lt in Hz as Hlt; [|lia]. apply drop_next in Hz; [|lia].
    rewrite (rd_drop _ _ _ _ Hz) by lia. destruct (Z.eqb_spec d q); [done|].
    destruct (wr_before z i j 0) as (z' & -> & Hl & _ & Ht); [lia|lia|].
    exists z'. split; [done|]. split; [done|]. rewrite app_nil_l, <- Ht. f_equal. simpl. lia.
  - cbn [escape flat_map app] in Hz. rewrite <- app_assoc in Hz.
    assert (∀ z1 i', take (Z.to_nat (j + 1)) z1 = take (Z.to_nat j) z ++ [c] → length z1 = length z →
      j + 1 < i' → drop (Z.to_nat i') z1 = escape q s ++ q :: d :: r →
      ∃ z', dequote_loop fuel z1 q i' (j + 1) = Some z' ∧ length z' = length z ∧
        take (Z.to_nat j + S (length s) + 1) z' = take (Z.to_nat j) z ++ (c :: s) ++ [0]) as Hstep.
    { intros z1 i' Ht Hl Hi Hd1.
      destruct (IH fuel z1 i' (j + 1) d r) as (z' & -> & Hl' & Ht'); [lia|done|done|lia|].
      exists z'. split; [done|]. split; [congruence|]. rewrite Ht in Ht'. rewrite <- app_assoc in Ht'.
      cbn [app] in Ht' |- *. rewrite <- Ht'. f_equal. lia. }
    destruct (Z.eqb_spec c q) as [->|].
    + cbn [app] in Hz. rewrite (rd_drop _ _ _ _ Hz), Z.eqb_refl by lia.
      apply drop_lt in Hz as Hlt; [|lia]. apply drop_next in Hz; [|lia].
      rewrite (rd_drop _ _ _ _ Hz), Z.eqb_refl by lia.
      apply drop_lt in Hz as Hlt2; [|lia]. apply drop_next in Hz; [|lia].
      apply (f_equal length) in Hz as Hlen. rewrite length_drop, length_app in Hlen. cbn [length] in Hlen.
      destruct (wr_before z (i + 1 + 1) j q) as (z1 & -> & Hl & Hd1 & Ht); [lia|lia|].
      apply Hstep; [done|done|lia|]. replace (i + 2) with (i + 1 + 1) by lia. by rewrite Hd1.
    + cbn [app] in Hz. rewrite (rd_drop _ _ _ _ Hz) by lia. rewrite (proj2 (Z.eqb_neq c q)) by done.
      apply drop_next in Hz; [|lia].
      apply (f_equal length) in Hz as Hlen. rewrite length_drop, length_app in Hlen. cbn [length] in Hlen.
      destruct (wr_before z (i + 1) j c) as (z1 & -> & Hl & Hd1 & Ht); [lia|lia|].
      apply Hstep; [done|done|lia|]. by rewrite Hd1.
Qed.

Lemma escape_length q s : (length s ≤ length (escape q s))%nat.
Proof. induction s as [|c s IH]; simpl; [lia|]. rewrite length_app. case_match; simpl; lia. Qed.

(** Removing the quotes of an SQL-quoted string, whatever the kind of
    quote, gives back the string in the same buffer, ended by a zero; the
    in-place edit stays inside the buffer. *)
Theorem dequote_quoted o s r :
  sqlite3Isquote o = true → text s → is_u8 o →
  ∃ z', sqlite3Dequote (cstr (quoted o s) ++ r) = Some z' ∧
    length z' = length (cstr (quoted o s) ++ r) ∧ take (length s + 1) z' = cstr s.
Proof.
  intros Hq Hs Ho. unfold sqlite3Dequote.
  set (z := cstr (quoted o s) ++ r).
  assert (drop (Z.to_nat 1) z = escape (closing o) s ++ closing o :: 0 :: r) as Hz.
  { unfold z, cstr, quoted. simpl. by rewrite <- !app_assoc. }
  assert (rd z 0 = Some o) as -> by done. rewrite Hq. cbn [negb].
  change (if o =? 91 then 93 else o) with (closing o).
  destruct (dequote_loop_spec (closing o) s (length z) z 1 0 0 r) as (z' & -> & Hl & Ht).
  - lia.
  - pose proof (ctype_spec o Ho) as (_ & _ & _ & E). rewrite Hq in E. unfold closing.
    destruct (Z.eqb_spec o 91); [lia|]. intros <-. done.
  - done.
  - pose proof (escape_length (closing o) s). apply (f_equal length) in Hz.
    rewrite length_drop, length_app in Hz. cbn [length] in Hz. lia.
  - by exists z'.
Qed.

Lemma dequote_quoted_witness : ∃ z,
  sqlite3Dequote (cstr (quoted 34 [97; 34; 98])) = Some z ∧ take 4 z = [97; 34; 98; 0].
Proof.
  destruct (dequote_quoted 34 [97; 34; 98] [] eq_refl ltac:(repeat constructor)
    ltac:(unfold is_u8; lia)) as (z & E & _ & H).
  rewrite app_nil_r in E. exists z. split; [exact E|exact H].
Defined.

(** ** Blob literals *)

(** The character [c] is the hexadecimal digit [n], in either case. *)
Definition hex_digit (n c : Z) : Prop :=
  0 ≤ n < 16 ∧ (c = if n <? 10 then 48 + n else 55 + n) ∨
  10 ≤ n < 16 ∧ c = 87 + n.

(** [h] is a hexadecimal text of the bytes [b]. *)
Inductive hex_text : bytes → bytes → Prop :=
| hex_nil : hex_text [] []
| hex_cons x b c d h : hex_digit (x `div` 16) c → hex_digit (x `mod` 16) d →
    hex_text b h → hex_text (x :: b) (c :: d :: h).

Lemma hex_to_int n c : hex_digit n c → sqlite3HexToInt c = n ∧ is_u8 c ∧ sqlite3Isxdigit c = true.
Proof.
  intros H. assert (0 ≤ n < 16) as Hn by (destruct H as [[]|[]]; lia).
  assert (n = 0 ∨ n = 1 ∨ n = 2 ∨ n = 3 ∨ n = 4 ∨ n = 5 ∨ n = 6 ∨ n = 7 ∨ n = 8 ∨ n = 9 ∨ n = 10 ∨
    n = 11 ∨ n = 12 ∨ n = 13 ∨ n = 14 ∨ n = 15) as Hc by lia.
  unfold hex_digit in H. unfold is_u8.
  repeat destruct Hc as [->|Hc]; subst; simpl in H; destruct H as [[_ ->]|[? ->]];
    try lia; by split_and!.
Qed.

Lemma hex_text_length b h : hex_text b h → length h = (2 * length b)%nat.
Proof. induction 1; simpl; lia. Qed.

Lemma hex_byte x : is_u8 x → u8 (Z.lor (Z.shiftl (x `div` 16) 4) (x `mod` 16)) = x.
Proof.
  intros Hx. unfold is_u8 in Hx. pose proof (Z.mod_pos_bound x 16 ltac:(lia)).
  pose proof (Z.div_mod x 16 ltac:(lia)).
  rewrite (lor_add _ _ 4) by (change (2 ^ 4) with 16; lia).
  change (2 ^ 4) with 16. rewrite u8_id; [|unfold is_u8]; lia.
Qed.

Lemma hex_loop_spec b h : hex_text b h → is_bytes b → ∀ fuel pre out rest z,
  (length b < fuel)%nat → z = pre ++ h ++ rest → (length pre = 2 * length out)%nat → ∀ blob,
  length blob = (length b + 1)%nat →
  hex_loop fuel z (out ++ blob) (Z.of_nat (length pre)) (Z.of_nat (length pre + length h) - 1) =
    Some (out ++ b ++ [0]).
Proof.
  induction 1 as [|x b c d h Hc Hd Hh IH]; intros Hb [|fuel] pre out rest z Hf -> Hp blob Hl;
    cbn [length] in Hf; try lia; cbn [hex_loop length]; cbn [length] in Hl.
  - rewrite (proj2 (Z.ltb_ge _ _)) by lia.
    replace (Z.quot (Z.of_nat (length pre)) 2) with (Z.of_nat (length out)).
    2: { rewrite Hp, Nat2Z.inj_mul, Z.mul_comm. by rewrite Z.quot_mul by lia. }
    destruct blob as [|y [|? ?]]; simpl in Hl; try lia. by rewrite wr_app_r.
  - rewrite (proj2 (Z.ltb_lt _ _)) by lia.
    rewrite <- !app_comm_cons. rewrite rd_app_r.
    replace (Z.of_nat (length pre) + 1) with (Z.of_nat (length (pre ++ [c])))
      by (rewrite length_app; simpl; lia).
    replace (pre ++ c :: d :: h ++ rest) with ((pre ++ [c]) ++ d :: h ++ rest) by (by rewrite <- app_assoc).
    rewrite rd_app_r.
    destruct (hex_to_int _ _ Hc) as [-> _], (hex_to_int _ _ Hd) as [-> _].
    apply Forall_cons in Hb as [Hx Hb]. rewrite hex_byte by done.
    replace (Z.quot (Z.of_nat (length pre)) 2) with (Z.of_nat (length out)).
    2: { rewrite Hp, Nat2Z.inj_mul, Z.mul_comm. by rewrite Z.quot_mul by lia. }
    destruct blob as [|y blob]; simpl in Hl; [lia|]. rewrite wr_app_r.
    pose proof (IH Hb fuel (pre ++ [c; d]) (out ++ [x]) rest _ ltac:(lia) eq_refl
      ltac:(rewrite !length_app; simpl; lia) blob ltac:(lia)) as IH'.
    rewrite <- !app_assoc in IH'. cbn [app] in IH'. rewrite <- app_assoc. cbn [app].
    rewrite <- IH'. rewrite !length_app. cbn [length].
    f_equal; lia.
Qed.

(** A blob literal is decoded to the bytes it denotes, followed by a
    zero; the reads and stores stay inside the text and the buffer allocated. *)
Theorem hex_to_blob_correct alloc b h rest blob :
  hex_text b h → is_bytes b → alloc (Z.of_nat (length b) + 1) = Some blob →
  length blob = (length b + 1)%nat →
  sqlite3HexToBlob alloc (h ++ rest) (Z.of_nat (length h)) = Some (Some (b ++ [0])).
Proof.
  intros Hh Hb Ha Hl. unfold sqlite3HexToBlob. pose proof (hex_text_length _ _ Hh) as Hlen.
  replace (Z.quot (Z.of_nat (length h)) 2) with (Z.of_nat (length b)).
  2: { rewrite Hlen, Nat2Z.inj_mul, Z.mul_comm. by rewrite Z.quot_mul by lia. }
  rewrite Ha.
  pose proof (hex_loop_spec b h Hh Hb (S (Z.to_nat (Z.of_nat (length h) - 1))) [] [] rest _
    ltac:(lia) eq_refl eq_refl blob Hl) as E.
  cbn [app length Nat.add] in E. change (Z.of_nat 0) with 0 in E. by rewrite E.
Qed.

Lemma hex_to_blob_correct_witness :
  sqlite3HexToBlob (λ n, Some (replicate (Z.to_nat n) 7)) [48; 70; 97; 66; 39; 0] 4 =
    Some (Some [15; 171; 0]).
Proof.
  refine (hex_to_blob_correct _ [15; 171] [48; 70; 97; 66] [39; 0] [7; 7; 7] _ _ eq_refl eq_refl).
  - apply hex_cons; [left; vm_compute; split; [split; discriminate || reflexivity|reflexivity]..|].
    apply hex_cons; [right; vm_compute; split; [split; discriminate || reflexivity|reflexivity]|
      left; vm_compute; split; [split; discriminate || reflexivity|reflexivity]|apply hex_nil].
  - repeat constructor; vm_compute; discriminate || reflexivity.
Defined.
End Text.
