(* ===== verification/Varint.v ===== *)
(** * Variable-length integers and big-endian words (SQLite [util.c])

    The record format, the b-tree cells and the page headers of the session
    database are built from these encodings.  Buffers are lists of bytes; a
    read or write outside the buffer has no result ([None]). *)

From S2P Require Import Prelude.

Module Varint.

(* native/sqlite3/sqlite3.c:36744-36744 SLOT_2_0 *)
Definition SLOT_2_0 : Z := 0x001fc07f.
(* native/sqlite3/sqlite3.c:36745-36745 SLOT_4_2_0 *)
Definition SLOT_4_2_0 : Z := 0xf01fc07f.

(** The [do]/[while] of [putVarint64]: fills [buf] with the 7-bit groups of
    [v], least significant first.  Fuel 10 is the size of [buf]. *)
(* native/sqlite3/sqlite3.c:36710-36714 putVarint64, the do-while *)
Fixpoint put_groups (fuel : nat) (buf : bytes) (n v : Z) : option (bytes * Z) :=
  match fuel with
  | O => None
  | S fuel =>
      let* buf := wr buf n (u8 (Z.lor (Z.land v 0x7f) 0x80)) in
      let n := n + 1 in
      let v := Z.shiftr v 7 in
      if v =? 0 then Some (buf, n) else put_groups fuel buf n v
  end.

(* native/sqlite3/sqlite3.c:36717-36719 putVarint64, the copy loop *)
Fixpoint copy_rev (k : nat) (p : bytes) (i : Z) (buf : bytes) : option bytes :=
  match k with
  | O => Some p
  | S k =>
      let* x := rd buf (Z.of_nat k) in
      let* p := wr p i x in
      copy_rev k p (i + 1) buf
  end.

(* native/sqlite3/sqlite3.c:36704-36707 putVarint64, the for loop *)
Fixpoint put_high (k : nat) (p : bytes) (v : Z) : option bytes :=
  match k with
  | O => Some p
  | S k =>
      let* p := wr p (Z.of_nat k) (u8 (Z.lor (Z.land v 0x7f) 0x80)) in
      put_high k p (Z.shiftr v 7)
  end.

(* native/sqlite3/sqlite3.c:36688-36721 putVarint64 *)
Definition putVarint64 (p : bytes) (v : Z) : option (bytes * Z) :=
  if negb (Z.land v (Z.shiftl 0xff000000 32) =? 0) then
    let* p := wr p 8 (u8 v) in
    let v := Z.shiftr v 8 in
    let* p := put_high 8 p v in
    Some (p, 9)
  else
    let* (buf, n) := put_groups 10 (replicate 10 0) 0 v in
    let* b0 := rd buf 0 in
    let* buf := wr buf 0 (Z.land b0 0x7f) in
    let* p := copy_rev (Z.to_nat n) p 0 buf in
    Some (p, n).

(* native/sqlite3/sqlite3.c:36722-36733 sqlite3PutVarint *)
Definition sqlite3PutVarint (p : bytes) (v : Z) : option (bytes * Z) :=
  if v <=? 0x7f then
    let* p := wr p 0 (Z.land v 0x7f) in
    Some (p, 1)
  else if v <=? 0x3fff then
    let* p := wr p 0 (Z.lor (Z.land (Z.shiftr v 7) 0x7f) 0x80) in
    let* p := wr p 1 (Z.land v 0x7f) in
    Some (p, 2)
  else putVarint64 p v.

(** [p] is the buffer from the address given to the function: [rd p k] is
    the k-th byte read by the successive [p++].  Every variable of type
    [u32] is reduced to 32 bits where C does. *)
(* native/sqlite3/sqlite3.c:36748-36900 sqlite3GetVarint *)
Definition sqlite3GetVarint (p : bytes) : option (Z * Z) :=
  let* p0 := rd p 0 in
  if 0 <=? i8 p0 then Some (1, p0) else
  let* p1 := rd p 1 in
  if 0 <=? i8 p1 then
    Some (2, Z.lor (u32 (Z.shiftl (Z.land p0 0x7f) 7)) p1) else
  let a := u32 (Z.shiftl p0 14) in
  let b := p1 in
  let* p2 := rd p 2 in
  let a := Z.lor a p2 in
  if Z.land a 0x80 =? 0 then
    let a := Z.land a SLOT_2_0 in
    let b := Z.land b 0x7f in
    let b := u32 (Z.shiftl b 7) in
    let a := Z.lor a b in
    Some (3, a) else
  let a := Z.land a SLOT_2_0 in
  let* p3 := rd p 3 in
  let b := u32 (Z.shiftl b 14) in
  let b := Z.lor b p3 in
  if Z.land b 0x80 =? 0 then
    let b := Z.land b SLOT_2_0 in
    let a := u32 (Z.shiftl a 7) in
    let a := Z.lor a b in
    Some (4, a) else
  let b := Z.land b SLOT_2_0 in
  let s := a in
  let* p4 := rd p 4 in
  let a := u32 (Z.shiftl a 14) in
  let a := Z.lor a p4 in
  if Z.land a 0x80 =? 0 then
    let b := u32 (Z.shiftl b 7) in
    let a := Z.lor a b in
    let s := Z.shiftr s 18 in
    Some (5, Z.lor (u64 (Z.shiftl s 32)) a) else
  let s := u32 (Z.shiftl s 7) in
  let s := Z.lor s b in
  let* p5 := rd p 5 in
  let b := u32 (Z.shiftl b 14) in
  let b := Z.lor b p5 in
  if Z.land b 0x80 =? 0 then
    let a := Z.land a SLOT_2_0 in
    let a := u32 (Z.shiftl a 7) in
    let a := Z.lor a b in
    let s := Z.shiftr s 18 in
    Some (6, Z.lor (u64 (Z.shiftl s 32)) a) else
  let* p6 := rd p 6 in
  let a := u32 (Z.shiftl a 14) in
  let a := Z.lor a p6 in
  if Z.land a 0x80 =? 0 then
    let a := Z.land a SLOT_4_2_0 in
    let b := Z.land b SLOT_2_0 in
    let b := u32 (Z.shiftl b 7) in
    let a := Z.lor a b in
    let s := Z.shiftr s 11 in
    Some (7, Z.lor (u64 (Z.shiftl s 32)) a) else
  let a := Z.land a SLOT_2_0 in
  let* p7 := rd p 7 in
  let b := u32 (Z.shiftl b 14) in
  let b := Z.lor b p7 in
  if Z.land b 0x80 =? 0 then
    let b := Z.land b SLOT_4_2_0 in
    let a := u32 (Z.shiftl a 7) in
    let a := Z.lor a b in
    let s := Z.shiftr s 4 in
    Some (8, Z.lor (u64 (Z.shiftl s 32)) a) else
  let* p8 := rd p 8 in
  let a := u32 (Z.shiftl a 15) in
  let a := Z.lor a p8 in
  let b := Z.land b SLOT_2_0 in
  let b := u32 (Z.shiftl b 8) in
  let a := Z.lor a b in
  let s := u32 (Z.shiftl s 4) in
  let b := Z.land p4 0x7f in
  let b := Z.shiftr b 3 in
  let s := Z.lor s b in
  Some (9, Z.lor (u64 (Z.shiftl s 32)) a).

(* native/sqlite3/sqlite3.c:36902-36940 sqlite3GetVarint32 *)
Definition sqlite3GetVarint32 (p : bytes) : option (Z * Z) :=
  let* p0 := rd p 0 in
  let* p1 := rd p 1 in
  if Z.land p1 0x80 =? 0 then
    Some (2, Z.lor (Z.shiftl (Z.land p0 0x7f) 7) p1) else
  let* p2 := rd p 2 in
  if Z.land p2 0x80 =? 0 then
    Some (3, Z.lor (Z.lor (Z.shiftl (Z.land p0 0x7f) 14)
                          (Z.shiftl (Z.land p1 0x7f) 7)) p2) else
  let* (n, v64) := sqlite3GetVarint p in
  if negb (Z.land v64 0xffffffff =? v64) then Some (n, 0xffffffff)
  else Some (n, u32 v64).

(* native/sqlite3/sqlite3.c:21691-21692 getVarint32 *)
Definition getVarint32 (p : bytes) : option (Z * Z) :=
  let* p0 := rd p 0 in
  if p0 <? 0x80 then Some (1, p0) else sqlite3GetVarint32 p.

(** The loop [for(i=1; (v >>= 7)!=0; i++)]; a 64-bit value takes at most ten turns. *)
Fixpoint varint_len_loop (fuel : nat) (v i : Z) : option Z :=
  match fuel with
  | O => None
  | S fuel =>
      let v := Z.shiftr v 7 in
      if v =? 0 then Some i else varint_len_loop fuel v (i + 1)
  end.

(* native/sqlite3/sqlite3.c:36942-36950 sqlite3VarintLen *)
Definition sqlite3VarintLen (v : Z) : option Z := varint_len_loop 10 v 1.

(* native/sqlite3/sqlite3.c:36953-36973 sqlite3Get4byte *)
Definition sqlite3Get4byte (p : bytes) : option Z :=
  let* p0 := rd p 0 in
  let* p1 := rd p 1 in
  let* p2 := rd p 2 in
  let* p3 := rd p 3 in
  Some (Z.lor (Z.lor (Z.lor (u32 (Z.shiftl p0 24)) (Z.shiftl p1 16)) (Z.shiftl p2 8)) p3).

(* native/sqlite3/sqlite3.c:36974-36989 sqlite3Put4byte *)
Definition sqlite3Put4byte (p : bytes) (v : Z) : option bytes :=
  let* p := wr p 0 (u8 (Z.shiftr v 24)) in
  let* p := wr p 1 (u8 (Z.shiftr v 16)) in
  let* p := wr p 2 (u8 (Z.shiftr v 8)) in
  wr p 3 (u8 v).

(** *** Reference definitions *)

(** The format read one byte at a time: seven payload bits per byte, most
    significant first, a clear flag bit ends the number and the ninth byte
    has eight payload bits.  [k] counts the bytes already read. *)
Fixpoint ref_decode (more : nat) (p : bytes) (k acc : Z) : option (Z * Z) :=
  let* x := rd p k in
  match more with
  | O => Some (k + 1, Z.lor (Z.shiftl acc 8) x)
  | S more =>
      if x <? 128 then Some (k + 1, Z.lor (Z.shiftl acc 7) x)
      else ref_decode more p (k + 1) (Z.lor (Z.shiftl acc 7) (Z.land x 0x7f))
  end.

(** The number of bytes of the encoding, by magnitude. *)
Definition ref_len (v : Z) : Z :=
  if v <? 2 ^ 7 then 1 else if v <? 2 ^ 14 then 2 else if v <? 2 ^ 21 then 3
  else if v <? 2 ^ 28 then 4 else if v <? 2 ^ 35 then 5 else if v <? 2 ^ 42 then 6
  else if v <? 2 ^ 49 then 7 else if v <? 2 ^ 56 then 8 else 9.

Definition group (v : Z) : Z := Z.lor (Z.land v 0x7f) 0x80.

(** The [k] low groups of [v], least significant first. *)
Fixpoint lgroups (k : nat) (v : Z) : bytes :=
  match k with
  | O => []
  | S k => group v :: lgroups k (Z.shiftr v 7)
  end.

(** The bytes of the encoding: groups with the flag set, most significant
    first, and a last byte of seven payload bits (eight in the ninth place). *)
Definition ref_encode (v : Z) : bytes :=
  if ref_len v <? 9
  then rev (lgroups (Z.to_nat (ref_len v - 1)) (Z.shiftr v 7)) ++ [Z.land v 0x7f]
  else rev (lgroups 8 (Z.shiftr v 8)) ++ [u8 v].

(** *** Lemmas *)

Lemma i8_test x : is_u8 x → (0 <=? i8 x) = (x <? 128).
Proof.
  unfold is_u8, i8. intros. destruct (Z.ltb_spec x 128).
  - rewrite Z.mod_small by lia. apply Z.leb_le. lia.
  - rewrite <- (Z_mod_plus_full _ (-1)), Z.mod_small by lia. apply Z.leb_gt. lia.
Qed.

Lemma land_128 x : is_u8 x → (Z.land x 0x80 =? 0) = (x <? 128).
Proof.
  unfold is_u8. intros. destruct (Z.ltb_spec x 128).
  - apply Z.eqb_eq. Bits.decide_bits [(x, 7)].
  - apply Z.eqb_neq. intros E. apply (f_equal (λ z, Z.testbit z 7)) in E.
    rewrite Z.land_spec, Z.bits_0, andb_true_r in E.
    assert (Z.testbit x 7 = true) as E'; [|congruence].
    apply Z.testbit_true; [lia|]. change (2 ^ 7) with 128.
    replace (x / 128) with 1; [done|]. apply (Z.div_unique _ _ _ (x - 128)); lia.
Qed.

Lemma is_bytes_rd p i x : is_bytes p → rd p i = Some x → is_u8 x.
Proof. intros Hp [? Hi]%rd_Some. by eapply Forall_lookup_1. Qed.

(** One more byte of the input [p] with its bounds, in the decoder and in
    the reference. *)
Ltac next_byte Hp p i x :=
  destruct (rd p i) as [x|] eqn:?; [|reflexivity];
  let H := fresh "B" x in
  pose proof (is_bytes_rd _ _ _ Hp ltac:(eassumption)) as H;
  unfold is_u8 in H.

(** The decoder's test of bit 7 of an accumulator whose low byte is [x]. *)
Ltac flag x vs :=
  match goal with
  | |- (if Z.land ?a 128 =? 0 then _ else _) = _ =>
      replace (Z.land a 128) with (Z.land x 128) by (symmetry; Bits.decide_bits vs);
      rewrite (land_128 x) by done;
      destruct (Z.ltb_spec x 128)
  end.

Ltac finish_bits vs := do 2 f_equal; Bits.decide_bits vs.

Lemma get_varint_ref p : is_bytes p → sqlite3GetVarint p = ref_decode 8 p 0 0.
Proof.
  intros Hp. unfold sqlite3GetVarint, SLOT_2_0, SLOT_4_2_0.
  cbn [ref_decode]. cbv zeta.
  change (0 + 1) with 1. change (1 + 1) with 2. change (2 + 1) with 3. change (3 + 1) with 4.
  change (4 + 1) with 5. change (5 + 1) with 6. change (6 + 1) with 7. change (7 + 1) with 8.
  next_byte Hp p 0 p0. rewrite i8_test by done.
  destruct (Z.ltb_spec p0 128); [by rewrite Z.shiftl_0_l, Z.lor_0_l|].
  next_byte Hp p 1 p1. rewrite i8_test by done.
  destruct (Z.ltb_spec p1 128); [finish_bits [(p0,8);(p1,7)]|].
  next_byte Hp p 2 p2. flag p2 [(p0,8);(p1,8);(p2,8)].
  { finish_bits [(p0,8);(p1,8);(p2,7)]. }
  next_byte Hp p 3 p3. flag p3 [(p0,8);(p1,8);(p2,8);(p3,8)].
  { finish_bits [(p0,8);(p1,8);(p2,8);(p3,7)]. }
  next_byte Hp p 4 p4. flag p4 [(p0,8);(p1,8);(p2,8);(p3,8);(p4,8)].
  { finish_bits [(p0,8);(p1,8);(p2,8);(p3,8);(p4,7)]. }
  next_byte Hp p 5 p5. flag p5 [(p0,8);(p1,8);(p2,8);(p3,8);(p4,8);(p5,8)].
  { finish_bits [(p0,8);(p1,8);(p2,8);(p3,8);(p4,8);(p5,7)]. }
  next_byte Hp p 6 p6. flag p6 [(p0,8);(p1,8);(p2,8);(p3,8);(p4,8);(p5,8);(p6,8)].
  { finish_bits [(p0,8);(p1,8);(p2,8);(p3,8);(p4,8);(p5,8);(p6,7)]. }
  next_byte Hp p 7 p7. flag p7 [(p0,8);(p1,8);(p2,8);(p3,8);(p4,8);(p5,8);(p6,8);(p7,8)].
  { finish_bits [(p0,8);(p1,8);(p2,8);(p3,8);(p4,8);(p5,8);(p6,8);(p7,7)]. }
  next_byte Hp p 8 p8.
  finish_bits [(p0,8);(p1,8);(p2,8);(p3,8);(p4,8);(p5,8);(p6,8);(p7,8);(p8,8)].
Qed.
(** **** The encoder *)

Lemma lgroups_length k v : length (lgroups k v) = k.
Proof. revert v. induction k; simpl; auto. Qed.

Lemma group_u8 v : is_u64 v → u8 (Z.lor (Z.land v 0x7f) 0x80) = group v.
Proof. unfold is_u64, group. intros. Bits.decide_bits [(v, 64)]. Qed.

Lemma shiftr_u64 v k : 0 ≤ k → is_u64 v → is_u64 (Z.shiftr v k).
Proof.
  unfold is_u64. intros. rewrite Z.shiftr_div_pow2 by done.
  assert (0 < 2 ^ k) by (by apply Z.pow_pos_nonneg). split.
  - apply Z.div_pos; lia.
  - apply Z.div_lt_upper_bound; nia.
Qed.

Lemma shiftr_range v k : 0 ≤ k → 0 ≤ v < 2 ^ (7 + k) → 0 ≤ Z.shiftr v 7 < 2 ^ k.
Proof.
  intros ? [? Hv]. rewrite Z.shiftr_div_pow2 by done. rewrite Z.pow_add_r in Hv by lia.
  split; [apply Z.div_pos; lia|]. apply Z.div_lt_upper_bound; lia.
Qed.

Lemma shiftr_lower v k : 0 ≤ k → 2 ^ (7 + k) ≤ v → 2 ^ k ≤ Z.shiftr v 7.
Proof.
  intros ? Hv. rewrite Z.shiftr_div_pow2 by done. rewrite Z.pow_add_r in Hv by lia.
  apply Z.div_le_lower_bound; lia.
Qed.

Lemma put_groups_spec k : ∀ fuel pre suf v,
  (k < fuel)%nat → (k < length suf)%nat → is_u64 v →
  (k ≠ 0%nat → 2 ^ (7 * Z.of_nat k) ≤ v) → v < 2 ^ (7 * Z.of_nat k + 7) →
  put_groups fuel (pre ++ suf) (Z.of_nat (length pre)) v =
    Some (pre ++ lgroups (S k) v ++ drop (S k) suf, Z.of_nat (length pre) + Z.of_nat (S k)).
Proof.
  induction k as [|k IH]; intros [|fuel] pre [|x suf] v Hf Hl Hv Hlo Hhi; simpl in *; try lia.
  - rewrite wr_app_r, group_u8 by done. simpl.
    pose proof (shiftr_range v 0 ltac:(lia) ltac:(unfold is_u64 in Hv; lia)).
    replace (Z.shiftr v 7) with 0 by lia. simpl. by rewrite drop_0.
  - rewrite wr_app_r, group_u8 by done. specialize (Hlo ltac:(lia)).
    assert (2 ^ (7 * Z.of_nat k) ≤ Z.shiftr v 7) as Hlo'.
    { apply shiftr_lower; [lia|]. eapply Z.le_trans; [|exact Hlo].
      apply Z.pow_le_mono_r; lia. }
    pose proof (Z.pow_pos_nonneg 2 (7 * Z.of_nat k) ltac:(lia) ltac:(lia)).
    destruct (Z.eqb_spec (Z.shiftr v 7) 0); [lia|].
    specialize (IH fuel (pre ++ [group v]) suf (Z.shiftr v 7)).
    rewrite <- (app_assoc pre), length_app in IH. simpl in IH.
    replace (Z.of_nat (length pre + 1)) with (Z.of_nat (length pre) + 1) in IH by lia.
    rewrite IH; [rewrite <- app_assoc; simpl; do 2 f_equal; lia|lia|lia| |done|].
    + by apply shiftr_u64.
    + apply shiftr_range; [lia|]. unfold is_u64 in Hv.
      split; [lia|]. eapply Z.lt_le_trans; [exact Hhi|]. apply Z.pow_le_mono_r; lia.
Qed.

Lemma copy_rev_spec k : ∀ pre suf buf,
  (k ≤ length suf)%nat → (k ≤ length buf)%nat →
  copy_rev k (pre ++ suf) (Z.of_nat (length pre)) buf =
    Some (pre ++ rev (take k buf) ++ drop k suf).
Proof.
  induction k as [|k IH]; intros pre suf buf Hs Hb; simpl.
  - by rewrite drop_0.
  - destruct (lookup_lt_is_Some_2 buf k) as [x Hx]; [lia|].
    unfold rd. rewrite decide_True, Nat2Z.id, Hx by lia.
    destruct suf as [|y suf]; simpl in *; [lia|]. rewrite wr_app_r.
    specialize (IH (pre ++ [x]) suf buf ltac:(lia) ltac:(lia)).
    rewrite <- (app_assoc pre), length_app in IH. simpl in IH.
    replace (Z.of_nat (length pre + 1)) with (Z.of_nat (length pre) + 1) in IH by lia.
    rewrite IH, (take_S_r _ _ _ Hx), rev_app_distr. simpl. by rewrite <- app_assoc.
Qed.

Lemma put_high_spec k : ∀ p v, (k ≤ length p)%nat → is_u64 v →
  put_high k p v = Some (rev (lgroups k v) ++ drop k p).
Proof.
  induction k as [|k IH]; intros p v Hk Hv; simpl; [by rewrite drop_0|].
  destruct (lookup_lt_is_Some_2 p k) as [x Hx]; [lia|].
  pose proof (take_drop_middle p k x Hx) as Hp.
  assert (wr p (Z.of_nat k) (group v) = Some (take k p ++ group v :: drop (S k) p)) as Hw.
  { rewrite <- Hp at 1. pose proof (wr_app_r (take k p) x (drop (S k) p) (group v)) as Hw.
    rewrite length_take_le in Hw by lia. done. }
  rewrite group_u8, Hw by done. rewrite IH.
  - rewrite drop_app_length' by (rewrite length_take; lia).
    by rewrite <- app_assoc.
  - rewrite length_app, length_take. simpl. lia.
  - by apply shiftr_u64.
Qed.
Lemma ref_len_bounds v : 1 ≤ ref_len v ≤ 9.
Proof. unfold ref_len. repeat case_match; lia. Qed.

(** [ref_len] is the least number of 7-bit groups, below the nine-byte form. *)
Lemma ref_len_range v : is_u64 v → ref_len v < 9 →
  v < 2 ^ (7 * (ref_len v - 1) + 7) ∧ (1 < ref_len v → 2 ^ (7 * (ref_len v - 1)) ≤ v).
Proof.
  unfold ref_len, is_u64. intros Hv Hn.
  repeat match goal with
  | |- context [v <? ?b] => destruct (Z.ltb_spec v b) | H : context [v <? ?b] |- _ => destruct (Z.ltb_spec v b)
  end; simpl in *; lia.
Qed.

Lemma ref_len_9 v : ref_len v < 9 ↔ v < 2 ^ 56.
Proof.
  unfold ref_len.
  repeat match goal with |- context [v <? ?b] => destruct (Z.ltb_spec v b) end; lia.
Qed.

Lemma high_test v : is_u64 v →
  (Z.land v (Z.shiftl 0xff000000 32) =? 0) = (v <? 2 ^ 56).
Proof.
  unfold is_u64. intros. destruct (Z.ltb_spec v (2 ^ 56)).
  - apply Z.eqb_eq. Bits.decide_bits [(v, 56)].
  - apply Z.eqb_neq.
    replace (Z.land v (Z.shiftl 0xff000000 32)) with (Z.shiftl (Z.shiftr v 56) 56)
      by (Bits.decide_bits [(v, 64)]).
    rewrite Z.shiftl_mul_pow2, Z.shiftr_div_pow2 by done.
    assert (1 ≤ v `div` 2 ^ 56) by (apply Z.div_le_lower_bound; lia). lia.
Qed.

Lemma ref_encode_length v : Z.of_nat (length (ref_encode v)) = ref_len v.
Proof.
  pose proof (ref_len_bounds v). unfold ref_encode.
  destruct (Z.ltb_spec (ref_len v) 9);
    rewrite length_app, length_rev, lgroups_length; simpl; lia.
Qed.

Lemma putVarint64_ref p v :
  is_u64 v → 3 ≤ ref_len v ≤ Z.of_nat (length p) →
  putVarint64 p v = Some (ref_encode v ++ drop (Z.to_nat (ref_len v)) p, ref_len v).
Proof.
  intros Hv Hl. unfold putVarint64, ref_encode. rewrite high_test by done.
  pose proof (ref_len_bounds v). pose proof (ref_len_9 v) as H9.
  destruct (Z.ltb_spec v (2 ^ 56)), (Z.ltb_spec (ref_len v) 9); try lia; simpl negb; cbv iota.
  - destruct (ref_len_range v Hv) as [Hhi Hlo]; [lia|].
    set (k := Z.to_nat (ref_len v - 1)).
    pose proof (put_groups_spec k 10 [] (replicate 10 0) v) as Hg.
    rewrite !app_nil_l, length_replicate in Hg.
    replace (7 * Z.of_nat k) with (7 * (ref_len v - 1)) in Hg by lia.
    change (Z.of_nat (length [])) with 0 in Hg. rewrite Hg by (done || lia). clear Hg.
    cbn [lgroups app]. rewrite rd_0, wr_0.
    replace (Z.to_nat (0 + Z.of_nat (S k))) with (S k) by lia.
    pose proof (copy_rev_spec (S k) [] p
      (Z.land (group v) 127 :: lgroups k (Z.shiftr v 7) ++ drop (S k) (replicate 10 0))) as Hc.
    rewrite !app_nil_l in Hc. change (Z.of_nat (length [])) with 0 in Hc.
    rewrite Hc by (simpl; rewrite ?length_app, ?lgroups_length; lia).
    simpl take. rewrite take_app_length' by (by rewrite lgroups_length). simpl rev.
    replace (Z.land (group v) 127) with (Z.land v 127)
      by (unfold group, is_u64 in *; Bits.decide_bits [(v, 64)]).
    replace (Z.to_nat (ref_len v)) with (S k) by lia.
    do 2 f_equal. lia.
  - replace (ref_len v) with 9 by lia. rewrite wr_Some by lia.
    rewrite put_high_spec; [|rewrite length_insert; lia|by apply shiftr_u64].
    do 2 f_equal. rewrite <- app_assoc. f_equal.
    destruct (lookup_lt_is_Some_2 p 8) as [x Hx]; [lia|].
    rewrite (drop_S _ (u8 v)).
    + simpl. by rewrite drop_insert_lt by lia.
    + apply list_lookup_insert_eq. lia.
Qed.

Lemma put_varint_ref p v :
  is_u64 v → ref_len v ≤ Z.of_nat (length p) →
  sqlite3PutVarint p v = Some (ref_encode v ++ drop (Z.to_nat (ref_len v)) p, ref_len v).
Proof.
  intros Hv Hl. unfold sqlite3PutVarint.
  destruct (Z.leb_spec v 0x7f), (Z.leb_spec v 0x3fff); try lia.
  - unfold is_u64 in Hv. assert (ref_len v = 1) as E.
    { unfold ref_len. by rewrite (proj2 (Z.ltb_lt _ _)) by lia. }
    rewrite E in Hl. unfold ref_encode. rewrite E. destruct p as [|x p]; simpl in Hl; [lia|].
    rewrite wr_0. simpl. by rewrite drop_0.
  - unfold is_u64 in Hv. assert (ref_len v = 2) as E.
    { unfold ref_len. rewrite (proj2 (Z.ltb_ge _ _)) by lia.
      by rewrite (proj2 (Z.ltb_lt _ _)) by lia. }
    rewrite E in Hl. unfold ref_encode. rewrite E.
    destruct p as [|x [|y p]]; simpl in Hl; try lia.
    rewrite wr_0. rewrite wr_Some by (simpl; lia). simpl. by rewrite drop_0.
  - apply putVarint64_ref; [done|]. split; [|done]. unfold ref_len.
    repeat match goal with |- context [v <? ?b] => destruct (Z.ltb_spec v b) end; lia.
Qed.

(** **** Decoding an encoding *)

Lemma group_flag v : is_u64 v → (group v <? 128) = false ∧ Z.land (group v) 0x7f = Z.land v 0x7f.
Proof.
  unfold is_u64, group. intros. split; [|Bits.decide_bits [(v, 64)]].
  apply Z.ltb_ge. rewrite Z.lor_comm. change (Z.lor 128) with (Z.lor (Z.shiftl 1 7)).
  pose proof (land_7f_bound v). rewrite lor_add by lia. lia.
Qed.

Lemma decode_groups k : ∀ more pre l v,
  is_u64 v → v < 2 ^ (7 * Z.of_nat k) →
  ref_decode (k + more) (pre ++ rev (lgroups k v) ++ l) (Z.of_nat (length pre)) 0 =
    ref_decode more (pre ++ rev (lgroups k v) ++ l) (Z.of_nat (length pre) + Z.of_nat k) v.
Proof.
  induction k as [|k IH]; intros more pre l v Hv Hk.
  - unfold is_u64 in Hv. simpl in *. replace v with 0 by lia. by rewrite Z.add_0_r.
  - simpl lgroups. simpl rev. rewrite <- app_assoc. simpl app.
    replace (S k + more)%nat with (k + S more)%nat by lia.
    rewrite IH; [|by apply shiftr_u64|].
    2: { apply shiftr_range; [lia|]. unfold is_u64 in Hv. split; [lia|].
         eapply Z.lt_le_trans; [exact Hk|]. apply Z.pow_le_mono_r; lia. }
    cbn [ref_decode]. rewrite app_assoc.
    replace (Z.of_nat (length pre) + Z.of_nat k)
      with (Z.of_nat (length (pre ++ rev (lgroups k (Z.shiftr v 7)))))
      by (rewrite length_app, length_rev, lgroups_length; lia).
    rewrite rd_app_r. destruct (group_flag v Hv) as [-> ->].
    rewrite length_app, length_rev, lgroups_length, <- app_assoc. f_equal; [lia|].
    unfold is_u64 in Hv. Bits.decide_bits [(v, 64)].
Qed.

Lemma decode_encode v l : is_u64 v →
  ref_decode 8 (ref_encode v ++ l) 0 0 = Some (ref_len v, v).
Proof.
  intros Hv. pose proof (ref_len_bounds v). unfold ref_encode.
  pose proof (ref_len_9 v) as H9. unfold is_u64 in Hv.
  destruct (Z.ltb_spec (ref_len v) 9).
  - destruct (ref_len_range v Hv) as [Hhi _]; [lia|].
    set (k := Z.to_nat (ref_len v - 1)).
    replace 8%nat with (k + (8 - k))%nat by lia. rewrite <- app_assoc. cbn [app].
    pose proof (decode_groups k (8 - k) [] (Z.land v 127 :: l) (Z.shiftr v 7)) as Hd.
    rewrite !app_nil_l in Hd. change (Z.of_nat (length [])) with 0 in Hd. rewrite Hd.
    2: by apply shiftr_u64.
    2: { apply shiftr_range; [lia|]. split; [lia|].
         eapply Z.lt_le_trans; [exact Hhi|]. apply Z.pow_le_mono_r; lia. }
    destruct (8 - k)%nat as [|m] eqn:Em; [lia|]. cbn [ref_decode].
    pose proof (rd_app_r (rev (lgroups k (Z.shiftr v 7))) (Z.land v 127) l) as Hr.
    rewrite length_rev, lgroups_length in Hr. rewrite Z.add_0_l, Hr.
    assert (Z.land v 127 < 128) as Hlt.
    { apply land_7f_bound. }
    rewrite (proj2 (Z.ltb_lt _ _)) by done. f_equal. f_equal; [lia|].
    Bits.decide_bits [(v, 64)].
  - replace (ref_len v) with 9 by lia. rewrite <- app_assoc. cbn [app].
    pose proof (decode_groups 8 0 [] (u8 v :: l) (Z.shiftr v 8)) as Hd.
    simpl app in Hd. change (Z.of_nat (length [])) with 0 in Hd. simpl app.
    change 8%nat with (8 + 0)%nat. rewrite Hd.
    2: by apply shiftr_u64.
    2: { rewrite Z.shiftr_div_pow2 by done. apply Z.div_lt_upper_bound; lia. }
    cbn [ref_decode].
    change (0 + Z.of_nat 8) with 8. change (rd _ 8) with (Some (u8 v)).
    cbv iota beta. f_equal. f_equal. Bits.decide_bits [(v, 64)].
Qed.
Lemma group_is_u8 v : is_u64 v → is_u8 (group v).
Proof.
  unfold is_u64, is_u8. intros.
  replace (group v) with (u8 (group v)) by (unfold group; Bits.decide_bits [(v, 64)]).
  apply Z.mod_pos_bound. lia.
Qed.

Lemma lgroups_bytes k v : is_u64 v → is_bytes (lgroups k v).
Proof.
  revert v. induction k; intros v Hv; simpl; [constructor|].
  constructor; [by apply group_is_u8|]. apply IHk. by apply shiftr_u64.
Qed.

Lemma ref_encode_bytes v : is_u64 v → is_bytes (ref_encode v).
Proof.
  intros Hv. unfold ref_encode, is_bytes. case_match; apply Forall_app; split.
  - apply Forall_rev, lgroups_bytes. by apply shiftr_u64.
  - constructor; [|constructor]. pose proof (land_7f_bound v). unfold is_u8. lia.
  - apply Forall_rev, lgroups_bytes. by apply shiftr_u64.
  - constructor; [|constructor]. unfold u8, is_u8. apply Z.mod_pos_bound. lia.
Qed.

Lemma varint_len_spec k : ∀ fuel v i, (k < fuel)%nat →
  (k ≠ 0%nat → 2 ^ (7 * Z.of_nat k) ≤ v) → 0 ≤ v < 2 ^ (7 * Z.of_nat k + 7) →
  varint_len_loop fuel v i = Some (i + Z.of_nat k).
Proof.
  induction k as [|k IH]; intros [|fuel] v i Hf Hlo Hhi; simpl; try lia.
  - pose proof (shiftr_range v 0 ltac:(lia) ltac:(simpl in *; lia)).
    replace (Z.shiftr v 7) with 0 by lia. simpl. f_equal. lia.
  - specialize (Hlo ltac:(lia)).
    assert (2 ^ (7 * Z.of_nat k) ≤ Z.shiftr v 7) as Hlo'.
    { apply shiftr_lower; [lia|]. eapply Z.le_trans; [|exact Hlo].
      apply Z.pow_le_mono_r; lia. }
    pose proof (Z.pow_pos_nonneg 2 (7 * Z.of_nat k) ltac:(lia) ltac:(lia)).
    destruct (Z.eqb_spec (Z.shiftr v 7) 0); [lia|].
    rewrite IH; [f_equal; lia|lia|done|].
    apply shiftr_range; [lia|]. split; [lia|].
    eapply Z.lt_le_trans; [apply Hhi|]. apply Z.pow_le_mono_r; lia.
Qed.

(** [sqlite3VarintLen] counts 7-bit groups: ten of them for a value of more
    than 63 bits, whose encoding takes nine bytes. *)
Lemma varint_len_ref v : 0 ≤ v < 2 ^ 63 → sqlite3VarintLen v = Some (ref_len v).
Proof.
  intros Hv. pose proof (ref_len_bounds v). unfold sqlite3VarintLen.
  destruct (decide (ref_len v < 9)) as [Hl|Hl].
  - destruct (ref_len_range v) as [Hhi Hlo]; [unfold is_u64; lia|done|].
    rewrite (varint_len_spec (Z.to_nat (ref_len v - 1)));
      [f_equal; lia|lia| |];
      replace (7 * Z.of_nat (Z.to_nat (ref_len v - 1))) with (7 * (ref_len v - 1)) by lia; lia.
  - pose proof (ref_len_9 v). rewrite (varint_len_spec 8); [f_equal; lia|lia| |]; simpl; lia.
Qed.

Lemma get_encode v l : is_u64 v → is_bytes l →
  sqlite3GetVarint (ref_encode v ++ l) = Some (ref_len v, v).
Proof.
  intros Hv Hl. rewrite get_varint_ref; [by apply decode_encode|].
  apply Forall_app. split; [by apply ref_encode_bytes|done].
Qed.

Lemma ref_decode_range more p k acc n v : is_bytes p → 0 ≤ acc < 2 ^ (7 * (8 - Z.of_nat more)) →
  (more ≤ 8)%nat → ref_decode more p k acc = Some (n, v) → is_u64 v.
Proof.
  intros Hp. revert k acc. induction more as [|more IH]; intros k acc Hacc Hm; simpl;
    (destruct (rd p k) as [x|] eqn:E; [|done]);
    pose proof (is_bytes_rd _ _ _ Hp E) as Hx; unfold is_u8 in Hx.
  - intros. simplify_eq. simpl in Hacc. unfold is_u64.
    replace (Z.lor (Z.shiftl acc 8) x) with (u64 (Z.lor (Z.shiftl acc 8) x))
      by (Bits.decide_bits [(acc, 56); (x, 8)]).
    apply Z.mod_pos_bound. lia.
  - assert (2 ^ (7 * (8 - Z.of_nat (S more))) ≤ 2 ^ 56) by (apply Z.pow_le_mono_r; lia).
    destruct (Z.ltb_spec x 128).
    + intros. simplify_eq. unfold is_u64.
      replace (Z.lor (Z.shiftl acc 7) x) with (u64 (Z.lor (Z.shiftl acc 7) x))
        by (Bits.decide_bits [(acc, 56); (x, 8)]).
      apply Z.mod_pos_bound. lia.
    + apply IH; [|lia].
      replace (7 * (8 - Z.of_nat more)) with (7 * (8 - Z.of_nat (S more)) + 7) by lia.
      rewrite Z.pow_add_r by lia.
      pose proof (land_7f_bound x). rewrite lor_add by lia. lia.
Qed.

(** *** Properties *)

(** C4: [sqlite3PutVarint] followed by [sqlite3GetVarint] is the identity on
    every 64-bit value: in any buffer of nine bytes or more the writer stores
    between 1 and 9 bytes, leaves the bytes after them unchanged, and the
    reader, whatever follows the encoding, consumes exactly those bytes and
    returns the value.  For values below [2^63] the number of bytes is the one
    [sqlite3VarintLen] announces. *)
Theorem varint_roundtrip p v :
  is_u64 v → 9 ≤ Z.of_nat (length p) →
  ∃ p' n, sqlite3PutVarint p v = Some (p', n) ∧ 1 ≤ n ≤ 9 ∧
    (v < 2 ^ 63 → sqlite3VarintLen v = Some n) ∧ length p' = length p ∧
    drop (Z.to_nat n) p' = drop (Z.to_nat n) p ∧
    ∀ rest, is_bytes rest → sqlite3GetVarint (take (Z.to_nat n) p' ++ rest) = Some (n, v).
Proof.
  intros Hv Hp. pose proof (ref_len_bounds v). pose proof (ref_encode_length v) as He.
  eexists _, _. rewrite put_varint_ref by (done || lia). split; [done|].
  split; [done|]. split; [intros; apply varint_len_ref; unfold is_u64 in Hv; lia|].
  rewrite length_app, length_drop. split; [lia|].
  rewrite drop_app_length' by lia. split; [done|]. intros rest Hr.
  rewrite take_app_length' by lia. by apply get_encode.
Qed.

Lemma varint_roundtrip_witness :
  ∃ p' n, sqlite3PutVarint (replicate 9 0) 0xfedcba9876543210 = Some (p', n) ∧ n = 9 ∧
    sqlite3GetVarint (take (Z.to_nat n) p' ++ [7]) = Some (n, 0xfedcba9876543210).
Proof.
  destruct (varint_roundtrip (replicate 9 0) 0xfedcba9876543210) as (p' & n & Hp & ? & ? & ? & ? & Hg);
    [by compute|by compute|].
  exists p', n. split; [exact Hp|]. split.
  - assert (Some (p', n) = Some (fst (p', n), 9)) as E; [|by simplify_eq].
    rewrite <- Hp. vm_compute in Hp. vm_compute. simplify_eq. done.
  - apply Hg. repeat constructor; by compute.
Defined.

(** C37: the hand-optimised decoder agrees with the byte-at-a-time definition
    of the format on every sequence of bytes: same value, same length, and it
    reads past the end of the buffer exactly when the definition does. *)
Theorem getvarint_equiv_reference p :
  is_bytes p → sqlite3GetVarint p = ref_decode 8 p 0 0.
Proof. apply get_varint_ref. Qed.

Lemma getvarint_equiv_reference_witness :
  sqlite3GetVarint [0x81; 0x80; 0x00; 0x55] = ref_decode 8 [0x81; 0x80; 0x00; 0x55] 0 0 ∧
  ref_decode 8 [0x81; 0x80; 0x00; 0x55] 0 0 = Some (3, 16384).
Proof.
  split; [|reflexivity].
  apply getvarint_equiv_reference. repeat constructor; by compute.
Defined.

(** [getVarint32] reads the same bytes as [sqlite3GetVarint] and returns
    the value clamped to [0xffffffff]. *)
Theorem getvarint32_clamps p n v :
  is_bytes p → sqlite3GetVarint p = Some (n, v) →
  getVarint32 p = Some (n, Z.min v 0xffffffff).
Proof.
  intros Hp Hg. assert (is_u64 v) as Hv.
  { rewrite get_varint_ref in Hg by done. by eapply (ref_decode_range 8 p 0 0). }
  unfold getVarint32, sqlite3GetVarint32. rewrite Hg.
  rewrite get_varint_ref in Hg by done. cbn [ref_decode] in Hg.
  change (0 + 1) with 1 in Hg. change (1 + 1) with 2 in Hg. change (2 + 1) with 3 in Hg.
  destruct (rd p 0) as [p0|] eqn:E0; [|done].
  pose proof (is_bytes_rd _ _ _ Hp E0) as B0. unfold is_u8 in B0.
  destruct (Z.ltb_spec p0 128).
  { simplify_eq. rewrite Z.shiftl_0_l, Z.lor_0_l in *. do 2 f_equal. lia. }
  destruct (rd p 1) as [p1|] eqn:E1; [|done].
  pose proof (is_bytes_rd _ _ _ Hp E1) as B1. rewrite land_128 by done. unfold is_u8 in B1.
  assert (Z.lor (Z.shiftl 0 7) (Z.land p0 127) = Z.land p0 127) as Z0
    by (Bits.decide_bits [(p0, 8)]).
  rewrite Z0 in *. clear Z0. pose proof (land_7f_bound p0).
  destruct (Z.ltb_spec p1 128).
  { simplify_eq. do 2 f_equal. rewrite lor_add by lia. lia. }
  destruct (rd p 2) as [p2|] eqn:E2; [|done].
  pose proof (is_bytes_rd _ _ _ Hp E2) as B2. rewrite land_128 by done. unfold is_u8 in B2.
  pose proof (land_7f_bound p1).
  destruct (Z.ltb_spec p2 128).
  { injection Hg as <- <-. rewrite Z.min_l.
    - do 2 f_equal. Bits.decide_bits [(p0, 8); (p1, 8); (p2, 7)].
    - rewrite lor_add, lor_add by lia. lia. }
  unfold is_u64 in Hv. change 4294967295 with (Z.ones 32). rewrite Z.land_ones by lia.
  destruct (Z.eqb_spec (v `mod` 2 ^ 32) v) as [Hm|Hm]; simpl negb; cbv iota.
  - pose proof (Z.mod_pos_bound v (2 ^ 32)). unfold u32.
    change 4294967296 with (2 ^ 32). rewrite Hm. rewrite Z.min_l; [done|].
    change (Z.ones 32) with 4294967295. lia.
  - rewrite Z.min_r; [done|]. change (Z.ones 32) with 4294967295. destruct (Z.le_gt_cases 4294967295 v); [done|].
    rewrite Z.mod_small in Hm; lia.
Qed.

Lemma getvarint32_clamps_witness :
  sqlite3GetVarint [0x90; 0x80; 0x80; 0x80; 0x00] = Some (5, 2 ^ 32) ∧
  getVarint32 [0x90; 0x80; 0x80; 0x80; 0x00] = Some (5, Z.min (2 ^ 32) 0xffffffff).
Proof.
  split; [reflexivity|].
  apply getvarint32_clamps; [repeat constructor; by compute|reflexivity].
Defined.

(** The announced length of a value above [2^63 - 1] is one more than the
    length of its encoding. *)
Lemma varint_len_overestimates :
  sqlite3VarintLen (2 ^ 63) = Some 10 ∧
  option_map snd (sqlite3PutVarint (replicate 9 0) (2 ^ 63)) = Some 9.
Proof. split; reflexivity. Qed.

(** [sqlite3Put4byte] stores the four big-endian bytes of a 32-bit value
    and nothing else, and [sqlite3Get4byte] reads the value back. *)
Theorem four_byte_roundtrip p v :
  is_u32 v → 4 ≤ Z.of_nat (length p) →
  ∃ p', sqlite3Put4byte p v = Some p' ∧ drop 4 p' = drop 4 p ∧
    length p' = length p ∧ sqlite3Get4byte p' = Some v.
Proof.
  intros Hv Hp. unfold is_u32 in Hv. destruct p as [|a [|b [|c [|d p]]]]; simpl in Hp; try lia.
  eexists. unfold sqlite3Put4byte. rewrite wr_0.
  do 3 (rewrite wr_Some by (simpl; lia); simpl).
  split; [done|]. split; [done|]. split; [done|].
  unfold sqlite3Get4byte, rd. simpl. f_equal. Bits.decide_bits [(v, 32)].
Qed.

Lemma four_byte_roundtrip_witness :
  ∃ p', sqlite3Put4byte [0; 0; 0; 0; 9] 0xdeadbeef = Some p' ∧ drop 4 p' = [9] ∧
    length p' = 5%nat ∧ sqlite3Get4byte p' = Some 0xdeadbeef.
Proof.
  apply (four_byte_roundtrip [0; 0; 0; 0; 9] 0xdeadbeef); by compute.
Defined.

End Varint.
