(* ===== verification/Hash.v ===== *)
(** * Hash tables ([native/sqlite3/sqlite3.c], hash.c)

    The table is a doubly linked list of elements with buckets that point
    into it.  The heap of elements is explicit, so pointer surgery is modelled
    store by store: an access through a null or dangling pointer has no
    behaviour ([None]).  The theorems show that none happens, and that the
    table refines a finite map on case-folded keys. *)

From S2P Require Import Prelude Text.
Import Text.

Module Hash.

(** Addresses; 0 is the null pointer.  Keys and data are what the pointers
    stand for: the bytes of the key string and a nonzero datum. *)
Abbreviation addr := Z.

(* native/sqlite3/sqlite3.c:14810-14821 HashElem *)
Record HashElem : Type := mk_elem {
  next : addr; prev : addr; data : Z; pKey : bytes; h : Z
}.

(** [struct _ht], one bucket. *)
(* native/sqlite3/sqlite3.c:14804-14807 _ht *)
Record bucket : Type := mk_bucket { bcount : Z; chain : addr }.

(* native/sqlite3/sqlite3.c:14779-14808 Hash *)
Record Hash : Type := mk_hash {
  htsize : Z; count : Z; first : addr; ht : option (list bucket)
}.

Abbreviation heap := (gmap addr HashElem).

Definition set_next (n : addr) (e : HashElem) : HashElem := mk_elem n (prev e) (data e) (pKey e) (h e).
Definition set_prev (p : addr) (e : HashElem) : HashElem := mk_elem (next e) p (data e) (pKey e) (h e).

(** A store to a field of [*a]. *)
Definition store (hp : heap) (a : addr) (f : HashElem → HashElem) : option heap :=
  let* e := hp !! a in Some (<[a := f e]> hp).

(** What the allocator answers during a call: the address of a new element
    (or no memory), and, for [n] buckets asked, how many fit in the block
    returned. *)
Record mem : Type := mk_mem { new_elem : option addr; new_ht : Z → option Z }.

(* native/sqlite3/sqlite3.c:37395-37406 sqlite3HashInit *)
Definition sqlite3HashInit : Hash := mk_hash 0 0 0 None.

(** The loop over [elem->next]; the fuel is the number of elements. *)
(* native/sqlite3/sqlite3.c:37421-37425 sqlite3HashClear, the while loop *)
Fixpoint clear_loop (fuel : nat) (hp : heap) (elem : addr) : option heap :=
  if elem =? 0 then Some hp else
  match fuel with
  | O => None
  | S fuel =>
      let* e := hp !! elem in
      clear_loop fuel (delete elem hp) (next e)
  end.

(* native/sqlite3/sqlite3.c:37408-37427 sqlite3HashClear *)
Definition sqlite3HashClear (pH : Hash) (hp : heap) : option (Hash * heap) :=
  let* hp := clear_loop (size hp) hp (first pH) in
  Some (mk_hash 0 0 0 None, hp).

(** The hash of the bytes up to the terminator. *)
(* native/sqlite3/sqlite3.c:37429-37450 strHash *)
Fixpoint strHash (z : bytes) (acc : Z) : option Z :=
  match z with
  | [] => None
  | c :: z =>
      if c =? 0 then Some acc
      else strHash z (u32 (u32 (acc + Z.land 0xdf c) * 0x9e3779b1))
  end.

(** The two ways of linking [pNew]: before [pHead], and first. *)
(* native/sqlite3/sqlite3.c:37470-37474 insertElement *)
Definition link_before (pH : Hash) (hp : heap) (pHead pNew : addr) : option (Hash * heap) :=
  let* hp := store hp pNew (set_next pHead) in
  let* head := hp !! pHead in
  let* hp := store hp pNew (set_prev (prev head)) in
  let* (pH, hp) :=
    if negb (prev head =? 0) then
      let* hp := store hp (prev head) (set_next pNew) in Some (pH, hp)
    else Some (mk_hash (htsize pH) (count pH) pNew (ht pH), hp) in
  let* hp := store hp pHead (set_prev pNew) in
  Some (pH, hp).

(* native/sqlite3/sqlite3.c:37476-37479 insertElement *)
Definition link_first (pH : Hash) (hp : heap) (pNew : addr) : option (Hash * heap) :=
  let* hp := store hp pNew (set_next (first pH)) in
  let* hp := if negb (first pH =? 0) then store hp (first pH) (set_prev pNew) else Some hp in
  let* hp := store hp pNew (set_prev 0) in
  Some (mk_hash (htsize pH) (count pH) pNew (ht pH), hp).

(** [pEntry] is the index of a bucket of [ht]. *)
(* native/sqlite3/sqlite3.c:37453-37481 insertElement *)
Definition insertElement (pH : Hash) (hp : heap) (pEntry : option Z) (pNew : addr)
  : option (Hash * heap) :=
  let* (pHead, tbl) :=
    match pEntry, ht pH with
    | Some i, Some tbl =>
        let* b := rd tbl i in
        let pHead := if negb (bcount b =? 0) then chain b else 0 in
        let* tbl := wr tbl i (mk_bucket (u32 (bcount b + 1)) pNew) in
        Some (pHead, Some tbl)
    | Some _, None => None
    | None, t => Some (0, t)
    end in
  let pH := mk_hash (htsize pH) (count pH) (first pH) tbl in
  if negb (pHead =? 0) then link_before pH hp pHead pNew else link_first pH hp pNew.

(* native/sqlite3/sqlite3.c:37518-37521 rehash, the for loop *)
Fixpoint rehash_loop (fuel : nat) (pH : Hash) (hp : heap) (elem : addr) (new_size : Z)
  : option (Hash * heap) :=
  if elem =? 0 then Some (pH, hp) else
  match fuel with
  | O => None
  | S fuel =>
      let* e := hp !! elem in
      let next_elem := next e in
      let* (pH, hp) := insertElement pH hp (Some (h e `mod` new_size)) elem in
      rehash_loop fuel pH hp next_elem new_size
  end.

(** [SQLITE_MALLOC_SOFT_LIMIT] is 1024 and a bucket has 16 bytes. *)
(* native/sqlite3/sqlite3.c:37484-37523 rehash *)
Definition rehash (m : mem) (pH : Hash) (hp : heap) (new_size : Z) : option (bool * Hash * heap) :=
  let new_size := if 1024 <? new_size * 16 then 64 else new_size in
  if new_size =? htsize pH then Some (false, pH, hp) else
  match new_ht m new_size with
  | None => Some (false, pH, hp)
  | Some new_size =>
      let tbl := replicate (Z.to_nat new_size) (mk_bucket 0 0) in
      let* (pH, hp) := rehash_loop (size hp) (mk_hash new_size (count pH) 0 (Some tbl)) hp (first pH)
                         new_size in
      Some (true, pH, hp)
  end.

(* native/sqlite3/sqlite3.c:37551-37558 findElementWithHash, the while loop *)
Fixpoint find_loop (hp : heap) (pKey' : bytes) (hash : Z) (elem : addr) (count : nat)
  : option (option addr) :=
  match count with
  | O => Some None
  | S count =>
      let* e := hp !! elem in
      let* d := if hash =? h e then let* c := sqlite3StrICmp (pKey e) pKey' in Some (c =? 0)
                else Some false in
      if (d : bool) then Some (Some elem) else find_loop hp pKey' hash (next e) count
  end.

(** The element found (none: the static null element) and the hash. *)
(* native/sqlite3/sqlite3.c:37525-37560 findElementWithHash *)
Definition findElementWithHash (pH : Hash) (hp : heap) (pKey : bytes) : option (option addr * Z) :=
  let* hash := strHash pKey 0 in
  let* (elem, cnt) :=
    match ht pH with
    | Some tbl => let* b := rd tbl (hash `mod` htsize pH) in Some (chain b, bcount b)
    | None => Some (first pH, count pH)
    end in
  let* r := find_loop hp pKey hash elem (Z.to_nat cnt) in
  Some (r, hash).

(* native/sqlite3/sqlite3.c:37570-37577 removeElement *)
Definition unlink (pH : Hash) (hp : heap) (e : HashElem) : option (Hash * heap) :=
  let* (pH, hp) :=
    if negb (prev e =? 0) then
      let* hp := store hp (prev e) (set_next (next e)) in Some (pH, hp)
    else Some (mk_hash (htsize pH) (count pH) (next e) (ht pH), hp) in
  let* hp := if negb (next e =? 0) then store hp (next e) (set_prev (prev e)) else Some hp in
  Some (pH, hp).

(* native/sqlite3/sqlite3.c:37578-37585 removeElement *)
Definition leave_bucket (pH : Hash) (e : HashElem) (elem : addr) : option Hash :=
  match ht pH with
  | Some tbl =>
      let i := h e `mod` htsize pH in
      let* b := rd tbl i in
      let ch := if chain b =? elem then next e else chain b in
      let* tbl := wr tbl i (mk_bucket (u32 (bcount b - 1)) ch) in
      Some (mk_hash (htsize pH) (count pH) (first pH) (Some tbl))
  | None => Some pH
  end.

(* native/sqlite3/sqlite3.c:37562-37593 removeElement *)
Definition removeElement (pH : Hash) (hp : heap) (elem : addr) : option (Hash * heap) :=
  let* e := hp !! elem in
  let* (pH, hp) := unlink pH hp e in
  let* pH := leave_bucket pH e elem in
  let hp := delete elem hp in
  let pH := mk_hash (htsize pH) (u32 (count pH - 1)) (first pH) (ht pH) in
  if count pH =? 0 then sqlite3HashClear pH hp else Some (pH, hp).

(* native/sqlite3/sqlite3.c:37595-37603 sqlite3HashFind *)
Definition sqlite3HashFind (pH : Hash) (hp : heap) (pKey : bytes) : option Z :=
  let* (r, _) := findElementWithHash pH hp pKey in
  match r with
  | Some a => let* e := hp !! a in Some (data e)
  | None => Some 0
  end.

(** The insertion of a new element. *)
(* native/sqlite3/sqlite3.c:37638-37649 sqlite3HashInsert *)
Definition insert_new (m : mem) (pH : Hash) (hp : heap) (key : bytes) (datum hash : Z)
  : option (Z * Hash * heap) :=
  match new_elem m with
  | None => Some (datum, pH, hp)
  | Some a =>
      let hp := <[a := mk_elem 0 0 datum key hash]> hp in
      let pH := mk_hash (htsize pH) (u32 (count pH + 1)) (first pH) (ht pH) in
      let* (pH, hp) :=
        if (5 <=? count pH) && (u32 (2 * htsize pH) <? count pH) then
          let* (_, pH, hp) := rehash m pH hp (u32 (count pH * 3)) in Some (pH, hp)
        else Some (pH, hp) in
      let* (pH, hp) :=
        insertElement pH hp
          (match ht pH with Some _ => Some (hash `mod` htsize pH) | None => None end) a in
      Some (0, pH, hp)
  end.

(* native/sqlite3/sqlite3.c:37605-37649 sqlite3HashInsert *)
Definition sqlite3HashInsert (m : mem) (pH : Hash) (hp : heap) (key : bytes) (datum : Z)
  : option (Z * Hash * heap) :=
  let* (r, hash) := findElementWithHash pH hp key in
  let* old := match r with
              | Some elem => let* e := hp !! elem in Some (Some (elem, e))
              | None => Some None
              end in
  match old with
  | Some (elem, e) =>
      if negb (data e =? 0) then
        let old_data := data e in
        if datum =? 0 then
          let* (pH, hp) := removeElement pH hp elem in Some (old_data, pH, hp)
        else Some (old_data, pH, <[elem := mk_elem (next e) (prev e) datum key (h e)]> hp)
      else if datum =? 0 then Some (0, pH, hp)
      else insert_new m pH hp key datum hash
  | None =>
      if datum =? 0 then Some (0, pH, hp) else insert_new m pH hp key datum hash
  end.

(** ** The linked list *)

Definition lastd (p : addr) (l : list addr) : addr := default p (last l).

Lemma lastd_cons p x l : lastd p (x :: l) = lastd x l.
Proof. unfold lastd. destruct l as [|y l]; [done|]. simpl last. by destruct (last (y :: l)) eqn:E; [|apply last_None in E]. Qed.

Lemma lastd_snoc p l y : lastd p (l ++ [y]) = y.
Proof. unfold lastd. by rewrite last_snoc. Qed.

(** The elements [ps] are linked both ways, from [p] before them to [n] after. *)
Fixpoint linked (hp : heap) (p : addr) (ps : list addr) (n : addr) : Prop :=
  match ps with
  | [] => True
  | x :: xs => (∃ e, hp !! x = Some e ∧ prev e = p ∧ next e = hd n xs) ∧ linked hp x xs n
  end.

Lemma linked_app hp l r : ∀ p n,
  linked hp p (l ++ r) n ↔ linked hp p l (hd n r) ∧ linked hp (lastd p l) r n.
Proof.
  induction l as [|x l IH]; intros p n; simpl; [unfold lastd; naive_solver|].
  rewrite IH, lastd_cons. assert (hd n (l ++ r) = hd (hd n r) l) as -> by (by destruct l).
  tauto.
Qed.

Lemma linked_frame hp hp' ps : ∀ p n,
  (∀ x, x ∈ ps → hp' !! x = hp !! x) → linked hp p ps n → linked hp' p ps n.
Proof.
  induction ps as [|x ps IH]; intros p n Hf; simpl; [done|]. intros [(e & He & Hpn) Hl].
  split; [|apply IH; [|done]; intros; apply Hf; by right].
  exists e. split; [|done]. rewrite Hf by left. done.
Qed.

Lemma linked_succ hp p l y e n n' : y ∉ l → hp !! y = Some e →
  linked hp p (l ++ [y]) n → linked (<[y := set_next n' e]> hp) p (l ++ [y]) n'.
Proof.
  intros Hy He. rewrite !linked_app. simpl. intros [Hl [(e' & He' & Hp & Hn) _]]. simplify_eq.
  split; [|split; [|done]].
  - eapply linked_frame; [|exact Hl]. intros x Hx. apply lookup_insert_ne. by intros ->.
  - eexists. rewrite lookup_insert_eq. done.
Qed.

Lemma linked_pred hp p p' y r e n : y ∉ r → hp !! y = Some e →
  linked hp p (y :: r) n → linked (<[y := set_prev p' e]> hp) p' (y :: r) n.
Proof.
  intros Hy He. simpl. intros [(e' & He' & Hp & Hn) Hl]. simplify_eq. split.
  - eexists. rewrite lookup_insert_eq. done.
  - eapply linked_frame; [|exact Hl]. intros x Hx. apply lookup_insert_ne. by intros ->.
Qed.

(** What a store to a link does not change. *)
Definition pay (e : HashElem) : Z * bytes * Z := (data e, pKey e, h e).

Definition same_pay (hp hp' : heap) : Prop := ∀ a, pay <$> hp' !! a = pay <$> hp !! a.

Lemma same_pay_store hp a e e' : hp !! a = Some e → pay e' = pay e → same_pay hp (<[a := e']> hp).
Proof.
  intros He Hp b. destruct (decide (a = b)) as [<-|].
  - by rewrite lookup_insert_eq, He; simpl; rewrite Hp.
  - by rewrite lookup_insert_ne.
Qed.

Lemma same_pay_trans hp1 hp2 hp3 : same_pay hp1 hp2 → same_pay hp2 hp3 → same_pay hp1 hp3.
Proof. intros H1 H2 a. by rewrite H2, H1. Qed.

Lemma same_pay_dom hp hp' : same_pay hp hp' → dom hp' = dom hp.
Proof.
  intros H. apply set_eq. intros a. rewrite !elem_of_dom. specialize (H a).
  destruct (hp !! a), (hp' !! a); simpl in *; try done; split; by intros [? ?].
Qed.

Definition set_first (a : addr) (pH : Hash) : Hash := mk_hash (htsize pH) (count pH) a (ht pH).

Lemma linked_first hp p ps n x xs : linked hp p (xs ++ x :: ps) n →
  ∃ e, hp !! x = Some e ∧ prev e = lastd p xs ∧ next e = hd n ps.
Proof. rewrite linked_app. simpl. naive_solver. Qed.

Lemma link_before_spec pH hp l y r x e :
  linked hp 0 (l ++ y :: r) 0 → NoDup (x :: l ++ y :: r) → 0 ∉ x :: l ++ y :: r →
  first pH = hd 0 (l ++ y :: r) → hp !! x = Some e →
  ∃ hp', link_before pH hp y x = Some (set_first (hd 0 (l ++ x :: y :: r)) pH, hp') ∧
    linked hp' 0 (l ++ x :: y :: r) 0 ∧ same_pay hp hp' ∧
    (∀ a, a ∉ x :: l ++ y :: r → hp' !! a = hp !! a).
Proof.
  intros Hl Hnd H0 Hf He.
  apply NoDup_cons in Hnd as [Hx Hnd]. apply NoDup_app in Hnd as (Hndl & Hlr & Hndr).
  apply NoDup_cons in Hndr as [Hyr Hndr].
  destruct (linked_first _ _ _ _ _ _ Hl) as (ey & Hey & Hp & Hn).
  assert (x ≠ y) as Hxy by set_solver. unfold link_before, store. rewrite He.
  rewrite (lookup_insert_ne _ x y) by done. rewrite Hey, lookup_insert_eq, insert_insert_eq.
  set (hx := <[x:=set_prev (prev ey) (set_next y e)]> hp).
  assert (∀ a, a ≠ x → hx !! a = hp !! a) as Hhx by (intros; by apply lookup_insert_ne).
  assert (hx !! x = Some (set_prev (prev ey) (set_next y e))) as Hhxx by apply lookup_insert_eq.
  assert (same_pay hp hx) as Hsx by (by eapply same_pay_store).
  assert (linked hx 0 (l ++ y :: r) 0) as Hl'.
  { eapply linked_frame; [|exact Hl]. intros a Ha. apply Hhx. by intros ->. }
  apply linked_app in Hl' as [Hll Hlr'].
  destruct l as [|z l _] using rev_ind.
  - unfold lastd in Hp. simpl in Hp. rewrite Hp. simpl. rewrite Hhx, Hey by done.
    eexists. split; [done|]. split; [|split].
    + split.
      * eexists. rewrite lookup_insert_ne by done. rewrite Hhxx. split; [done|]. by rewrite Hp.
      * eapply linked_pred; [done|by rewrite Hhx|exact Hlr'].
    + eapply same_pay_trans; [exact Hsx|]. eapply same_pay_store; [by rewrite Hhx|done].
    + intros a Ha. rewrite lookup_insert_ne by set_solver. apply Hhx. set_solver.
  - rewrite lastd_snoc in Hp, Hlr'. assert (z ≠ 0 ∧ z ≠ x ∧ z ≠ y) as (Hz0 & Hzx & Hzy) by set_solver.
    rewrite Hp. rewrite (proj2 (Z.eqb_neq z 0)) by done. cbn [negb].
    rewrite <- app_assoc in Hl. cbn [app] in Hl.
    destruct (linked_first _ _ _ _ _ _ Hl) as (ez & Hez & _).
    rewrite Hhx, Hez by done. rewrite lookup_insert_ne by done. rewrite Hhx, Hey by done.
    eexists. split.
    { unfold set_first. rewrite <- app_assoc in Hf |- *. cbn [app] in Hf |- *.
      replace (hd 0 (l ++ z :: x :: y :: r)) with (first pH) by (rewrite Hf; by destruct l).
      by destruct pH. }
    split; [|split].
    + rewrite linked_app, lastd_snoc. split; [|split].
      * eapply linked_frame; [|eapply linked_succ].
        -- intros a Ha. apply lookup_insert_ne. set_solver.
        -- apply NoDup_app in Hndl as (_ & H & _). intros Hz. by apply (H z Hz); left.
        -- by rewrite Hhx.
        -- exact Hll.
      * eexists. rewrite !lookup_insert_ne by done. rewrite Hhxx. split; [done|]. by rewrite Hp.
      * eapply linked_pred; [done|by rewrite lookup_insert_ne, Hhx|].
        eapply linked_frame; [|exact Hlr']. intros a Ha. apply lookup_insert_ne.
        intros <-. apply (Hlr z); set_solver.
    + eapply same_pay_trans; [exact Hsx|].
      apply (same_pay_trans _ (<[z:=set_next x ez]> hx)).
      * by eapply same_pay_store; [rewrite Hhx|].
      * by eapply same_pay_store; [rewrite lookup_insert_ne, Hhx|].
    + intros a Ha. rewrite !lookup_insert_ne by set_solver. apply Hhx. set_solver.
Qed.

Lemma link_first_spec pH hp ps x e :
  linked hp 0 ps 0 → NoDup (x :: ps) → 0 ∉ x :: ps → first pH = hd 0 ps → hp !! x = Some e →
  ∃ hp', link_first pH hp x = Some (set_first x pH, hp') ∧ linked hp' 0 (x :: ps) 0 ∧
    same_pay hp hp' ∧ (∀ a, a ∉ x :: ps → hp' !! a = hp !! a).
Proof.
  intros Hl Hnd H0 Hf He. unfold link_first, store. rewrite He, Hf.
  apply NoDup_cons in Hnd as [Hx Hnd].
  set (hx := <[x:=set_next (hd 0 ps) e]> hp).
  assert (∀ a, a ≠ x → hx !! a = hp !! a) as Hhx by (intros; by apply lookup_insert_ne).
  assert (hx !! x = Some (set_next (hd 0 ps) e)) as Hhxx by apply lookup_insert_eq.
  assert (same_pay hp hx) as Hsx by (by eapply same_pay_store).
  destruct ps as [|y r]; simpl.
  - rewrite Hhxx. eexists. split; [done|]. split; [|split].
    + split; [|done]. eexists. by rewrite lookup_insert_eq.
    + eapply same_pay_trans; [exact Hsx|]. by eapply same_pay_store.
    + intros a Ha. rewrite lookup_insert_ne by set_solver. apply Hhx. set_solver.
  - assert (y ≠ 0 ∧ y ≠ x) as [Hy0 Hyx] by set_solver.
    rewrite (proj2 (Z.eqb_neq y 0)) by done. cbn [negb].
    destruct (linked_first _ _ _ _ _ [] Hl) as (ey & Hey & _).
    rewrite Hhx, Hey by done. rewrite lookup_insert_ne by done. rewrite Hhxx.
    eexists. split; [done|]. apply NoDup_cons in Hnd as [Hyr Hnd]. split; [|split].
    + split; [eexists; by rewrite lookup_insert_eq|].
      apply (linked_frame (<[y:=set_prev x ey]> hx) _ (y :: r) x 0).
      { intros a Ha. apply lookup_insert_ne. set_solver. }
      eapply linked_pred; [done|by rewrite Hhx|]. eapply linked_frame; [|exact Hl].
      intros a Ha. apply Hhx. set_solver.
    + eapply same_pay_trans; [exact Hsx|].
      apply (same_pay_trans _ (<[y:=set_prev x ey]> hx)).
      * by eapply same_pay_store; [rewrite Hhx|].
      * by eapply same_pay_store; [rewrite lookup_insert_ne|].
    + intros a Ha. rewrite !lookup_insert_ne by set_solver. apply Hhx. set_solver.
Qed.

Lemma relink_succ pH hp l n m :
  linked hp 0 l m → NoDup l → 0 ∉ l → first pH = hd m l →
  ∃ hp', (if negb (lastd 0 l =? 0) then
            let* hp := store hp (lastd 0 l) (set_next n) in Some (pH, hp)
          else Some (mk_hash (htsize pH) (count pH) n (ht pH), hp)) = Some (set_first (hd n l) pH, hp') ∧
    linked hp' 0 l n ∧ same_pay hp hp' ∧ (∀ a, a ∉ l → hp' !! a = hp !! a).
Proof.
  intros Hl Hnd H0 Hf. unfold store. destruct l as [|z l _] using rev_ind.
  { by exists hp. }
  rewrite lastd_snoc, (proj2 (Z.eqb_neq z 0)) by set_solver. cbn [negb].
  destruct (linked_first _ _ _ _ _ _ Hl) as (ez & Hez & _). rewrite Hez.
  eexists. split.
  { unfold set_first. replace (hd n (l ++ [z])) with (first pH) by (rewrite Hf; by destruct l).
    by destruct pH. }
  apply NoDup_app in Hnd as (_ & Hz & _). split; [|split].
  - eapply linked_succ; [|done|exact Hl]. intros Hin. by apply (Hz z Hin); left.
  - by eapply same_pay_store.
  - intros a Ha. apply lookup_insert_ne. set_solver.
Qed.

Lemma relink_pred hp p q r :
  linked hp q r 0 → NoDup r → 0 ∉ r →
  ∃ hp', (if negb (hd 0 r =? 0) then store hp (hd 0 r) (set_prev p) else Some hp) = Some hp' ∧
    linked hp' p r 0 ∧ same_pay hp hp' ∧ (∀ a, a ∉ r → hp' !! a = hp !! a).
Proof.
  intros Hl Hnd H0. destruct r as [|y r]; [by exists hp|]. unfold hd.
  rewrite (proj2 (Z.eqb_neq y 0)) by set_solver. cbn [negb]. unfold store.
  destruct (linked_first _ _ _ _ _ [] Hl) as (ey & Hey & _). rewrite Hey.
  apply NoDup_cons in Hnd as [Hy _]. eexists. split; [done|]. split; [|split].
  - by eapply linked_pred.
  - by eapply same_pay_store.
  - intros a Ha. apply lookup_insert_ne. set_solver.
Qed.

Lemma unlink_spec pH hp l x r e :
  linked hp 0 (l ++ x :: r) 0 → NoDup (l ++ x :: r) → 0 ∉ l ++ x :: r →
  first pH = hd 0 (l ++ x :: r) → hp !! x = Some e →
  ∃ hp', unlink pH hp e = Some (set_first (hd 0 (l ++ r)) pH, hp') ∧ linked hp' 0 (l ++ r) 0 ∧
    same_pay hp hp' ∧ (∀ a, a ∉ l ++ r → hp' !! a = hp !! a).
Proof.
  intros Hl Hnd H0 Hf He. destruct (linked_first _ _ _ _ _ _ Hl) as (e' & He' & Hp & Hn).
  simplify_eq. unfold unlink. rewrite Hp, Hn.
  apply NoDup_app in Hnd as (Hndl & Hlr & [Hxr Hndr]%NoDup_cons).
  apply linked_app in Hl as [Hll [_ Hlr']].
  destruct (relink_succ pH hp l (hd 0 r) x Hll Hndl) as (hp1 & -> & Hl1 & Hs1 & Hf1);
    [set_solver|by rewrite Hf; destruct l|].
  destruct (relink_pred hp1 (lastd 0 l) x r) as (hp2 & -> & Hl2 & Hs2 & Hf2); [|done|set_solver|].
  { eapply linked_frame; [|exact Hlr']. intros a Ha. apply Hf1. set_solver. }
  exists hp2. split; [|split; [|split]].
  - do 3 f_equal. by destruct l.
  - apply linked_app. split; [|done]. eapply linked_frame; [|exact Hl1].
    intros a Ha. apply Hf2. set_solver.
  - by eapply same_pay_trans.
  - intros a Ha. rewrite Hf2, Hf1 by set_solver. done.
Qed.

(** ** Buckets: the elements of a bucket are consecutive in the list *)

Definition seg (f : addr → Z) (i : Z) (ps : list addr) : list addr := filter (λ a, f a = i) ps.

Definition contig (f : addr → Z) (i : Z) (ps : list addr) : Prop := ∃ l r, ps = l ++ seg f i ps ++ r.

Lemma seg_app f i l r : seg f i (l ++ r) = seg f i l ++ seg f i r.
Proof. apply filter_app. Qed.

Lemma seg_cons f i x ps : seg f i (x :: ps) = if decide (f x = i) then x :: seg f i ps else seg f i ps.
Proof. unfold seg. rewrite filter_cons. done. Qed.

Lemma seg_elem f i a ps : a ∈ seg f i ps ↔ a ∈ ps ∧ f a = i.
Proof. unfold seg. rewrite list_elem_of_filter. tauto. Qed.

Lemma seg_all f i s : (∀ a, a ∈ s → f a = i) → seg f i s = s.
Proof.
  induction s as [|x s IH]; intros H; [done|]. rewrite seg_cons, decide_True by (apply H; left).
  rewrite IH; [done|]. intros. apply H. by right.
Qed.

(** The parts around the elements of a bucket have none. *)
Lemma contig_sides f i ps : contig f i ps →
  ∃ l r, ps = l ++ seg f i ps ++ r ∧ seg f i l = [] ∧ seg f i r = [].
Proof.
  intros (l & r & E). exists l, r. split; [done|].
  pose proof (f_equal (seg f i) E) as E2. rewrite !seg_app in E2.
  assert (seg f i (seg f i ps) = seg f i ps) as E3 by (apply seg_all; intros a Ha%seg_elem; tauto).
  rewrite E3 in E2. apply (f_equal length) in E2. rewrite !length_app in E2.
  split; apply nil_length_inv; lia.
Qed.

Lemma contig_front f i x ps : seg f (f x) ps = [] → contig f i ps → contig f i (x :: ps).
Proof.
  intros H0 (l & r & E). unfold contig. rewrite seg_cons. case_decide as Hd.
  - rewrite Hd in H0. exists [], ps. by rewrite H0.
  - exists (x :: l), r. by rewrite E at 1.
Qed.

Lemma contig_before f i x l y r : f x = f y → seg f (f y) l = [] →
  contig f i (l ++ y :: r) → contig f i (l ++ x :: y :: r).
Proof.
  intros Hxy Hl Hc. destruct (decide (f y = i)) as [<-|Hi].
  - apply contig_sides in Hc as (l' & r' & E & H1 & H2). unfold contig.
    rewrite !seg_app, Hl, !seg_cons in E |- *. rewrite Hxy, decide_True by done.
    rewrite decide_True in E by done. cbn [app] in E |- *.
    destruct (app_eq_inv _ _ _ _ E) as [(k & -> & E2)|(k & -> & E2)].
    + rewrite seg_app in Hl. apply app_nil in Hl as [_ Hk]. destruct k as [|z k].
      * simpl in E2. injection E2 as E2. exists l', r'. rewrite app_nil_r.
        rewrite seg_cons, decide_True by done. cbn [app]. by rewrite E2.
      * injection E2 as -> E2. by rewrite seg_cons, decide_True in Hk.
    + rewrite seg_app in H1. apply app_nil in H1 as [_ H1]. destruct k as [|z k].
      * injection E2 as E2. exists l, r'.
        rewrite seg_cons, decide_True by done. cbn [app]. by rewrite <- E2.
      * injection E2 as -> E2. by rewrite seg_cons, decide_True in H1.
  - destruct Hc as (l' & r' & E). unfold contig.
    assert (seg f i (l ++ x :: y :: r) = seg f i (l ++ y :: r)) as ->.
    { rewrite !seg_app, !seg_cons, !decide_False by congruence. done. }
    assert (∀ a, a ∈ seg f i (l ++ y :: r) → f a = i) as Hs by (intros a Ha%seg_elem; tauto).
    revert E Hs. generalize (seg f i (l ++ y :: r)). intros s E Hs.
    destruct (app_eq_inv _ _ _ _ E) as [(k & -> & E2)|(k & -> & E2)].
    + symmetry in E2. destruct (app_eq_inv _ _ _ _ E2) as [(k' & -> & E3)|(k' & E3 & E4)].
      * exists l', (k' ++ x :: y :: r). by rewrite <- !app_assoc.
      * destruct k' as [|z k'].
        -- simpl in E4. rewrite app_nil_r in E3. exists l', (x :: y :: r). by rewrite E3, <- app_assoc.
        -- injection E4 as <- E4. exfalso. apply Hi, Hs. rewrite E3. set_solver.
    + exists (l ++ x :: k), r'. rewrite <- app_assoc. simpl. by rewrite E2.
Qed.

Lemma contig_delete f i l x r : x ∉ l → x ∉ r → contig f i (l ++ x :: r) → contig f i (l ++ r).
Proof.
  intros Hl Hr (l' & r' & E). exists (filter (λ a, a ≠ x) l'), (filter (λ a, a ≠ x) r').
  assert (∀ k : list addr, x ∉ k → filter (λ a, a ≠ x) k = k) as Hk.
  { induction k as [|z k IH]; intros Hz; [done|]. rewrite filter_cons_True, IH; set_solver. }
  assert (l ++ r = filter (λ a, a ≠ x) (l ++ x :: r)) as Elr.
  { rewrite filter_app, filter_cons_False, !Hk by naive_solver. done. }
  rewrite Elr at 1. rewrite E at 1. rewrite !filter_app. do 2 f_equal.
  rewrite Elr. unfold seg. rewrite !list_filter_filter. apply list_filter_iff. tauto.
Qed.

(** ** The invariant of the pointers *)

Definition bucket_ok (f : addr → Z) (ps : list addr) (i : Z) (b : bucket) : Prop :=
  bcount b = Z.of_nat (length (seg f i ps)) ∧
  (seg f i ps ≠ [] → chain b = hd 0 (seg f i ps)) ∧ contig f i ps.

Definition buckets_ok (hk : addr → Z) (pH : Hash) (ps : list addr) : Prop :=
  match ht pH with
  | None => True
  | Some tbl =>
      0 < htsize pH ∧ length tbl = Z.to_nat (htsize pH) ∧
      ∀ i b, rd tbl i = Some b → bucket_ok (λ a, hk a `mod` htsize pH) ps i b
  end.

(** [K] is what each element holds besides its links. *)
Record shape (pH : Hash) (hp : heap) (ps : list addr) (K : addr → Z * bytes * Z) : Prop := {
  sh_linked : linked hp 0 ps 0;
  sh_nodup : NoDup ps;
  sh_null : 0 ∉ ps;
  sh_first : first pH = hd 0 ps;
  sh_pay a : a ∈ ps → pay <$> hp !! a = Some (K a);
  sh_buckets : buckets_ok (λ a, snd (K a)) pH ps
}.

(** The bucket of a hash is inside the table. *)
Lemma bucket_in_range tbl hash n : 0 < n → length tbl = Z.to_nat n →
  is_Some (rd (A:=bucket) tbl (hash `mod` n)).
Proof. intros Hn Hl. apply rd_is_Some. pose proof (Z.mod_pos_bound hash n Hn). lia. Qed.

Lemma wr_is_Some {A} (m : list A) i x v : rd m i = Some x → is_Some (wr m i v).
Proof. intros H%rd_lt. rewrite wr_Some by done. eauto. Qed.

(** Adding [x] to its bucket [i], when it comes first in it. *)
Lemma bucket_ok_insert f ps ps' x i b j b' tbl tbl' :
  rd tbl i = Some b → wr tbl i (mk_bucket (u32 (bcount b + 1)) x) = Some tbl' →
  f x = i → Z.of_nat (length ps) < 4294967295 →
  (∀ k, seg f k ps' = if decide (k = i) then x :: seg f k ps else seg f k ps) →
  (∀ k, contig f k ps → contig f k ps') → (∀ k b, rd tbl k = Some b → bucket_ok f ps k b) →
  rd tbl' j = Some b' → bucket_ok f ps' j b'.
Proof.
  intros Hb Hw Hx Hn Hseg Hc Hok Hj. unfold bucket_ok. rewrite Hseg. case_decide as Hij.
  - subst j. rewrite (rd_wr_eq _ _ _ _ Hw) in Hj. injection Hj as <-.
    destruct (Hok _ _ Hb) as (H1 & H2 & H3). cbn [bcount chain hd]. split; [|split; [done|auto]].
    rewrite H1. pose proof (length_filter (λ a, f a = i) ps) as Hf. fold (seg f i ps) in Hf.
    cbn [length]. unwrap. lia.
  - rewrite (rd_wr_ne _ _ _ _ _ Hw) in Hj by congruence.
    destruct (Hok _ _ Hj) as (H1 & H2 & H3). auto.
Qed.

Lemma insertElement_spec pH hp ps K x :
  shape pH hp ps K → x ≠ 0 → x ∉ ps → pay <$> hp !! x = Some (K x) →
  Z.of_nat (length ps) < 4294967295 →
  ∃ pH' hp' ps',
    insertElement pH hp
      (match ht pH with Some _ => Some (snd (K x) `mod` htsize pH) | None => None end) x =
      Some (pH', hp') ∧
    shape pH' hp' ps' K ∧ ps' ≡ₚ x :: ps ∧ htsize pH' = htsize pH ∧ count pH' = count pH ∧
    (ht pH' = None ↔ ht pH = None) ∧ same_pay hp hp' ∧
    (∀ a, a ∉ x :: ps → hp' !! a = hp !! a).
Proof.
  intros [Hl Hnd H0 Hf Hpay Hb] Hx0 Hx Hpx Hn. unfold insertElement.
  destruct (hp !! x) as [e|] eqn:He; [|done].
  assert (NoDup (x :: ps) ∧ 0 ∉ x :: ps) as [Hndx H0x] by (split; [by constructor|set_solver]).
  assert (∀ hp' ps', same_pay hp hp' → ps' ≡ₚ x :: ps → ∀ a, a ∈ ps' → pay <$> hp' !! a = Some (K a))
    as Hpay'.
  { intros hp' ps' Hs Hp a. rewrite Hp, (Hs a). intros [->|Ha]%elem_of_cons; [by rewrite He|auto]. }
  unfold buckets_ok in Hb. destruct (ht pH) as [tbl|] eqn:Et.
  - destruct Hb as (Hsz & Hlen & Hb). set (f := λ a, snd (K a) `mod` htsize pH) in *.
    change (snd (K x) `mod` htsize pH) with (f x).
    destruct (bucket_in_range tbl (snd (K x)) (htsize pH) Hsz Hlen) as [b Eb].
    change (snd (K x) `mod` htsize pH) with (f x) in Eb. rewrite Eb.
    destruct (wr_is_Some _ _ _ (mk_bucket (u32 (bcount b + 1)) x) Eb) as [tbl' Ew]. rewrite Ew.
    assert (length tbl' = length tbl) as Hlen' by (by eapply wr_length).
    destruct (Hb _ _ Eb) as (Hc1 & Hc2 & Hc3).
    destruct (seg f (f x) ps) as [|y s] eqn:Es.
    + rewrite Hc1. cbn [length negb Z.of_nat Z.eqb].
      destruct (link_first_spec (mk_hash (htsize pH) (count pH) (first pH) (Some tbl')) hp ps x e)
        as (hp' & -> & Hl' & Hs' & Hf'); [done..|].
      eexists _, hp', (x :: ps). split; [done|]. split; [|split_and!; done].
      split; [done..|by apply Hpay'|]. unfold buckets_ok. cbn [ht set_first htsize].
      split; [done|]. split; [congruence|]. intros j b' Hj.
      refine (bucket_ok_insert f ps _ x (f x) b j b' tbl tbl' Eb Ew eq_refl Hn _ _ Hb Hj).
      * intros k. rewrite seg_cons. destruct (decide (f x = k)), (decide (k = f x)); congruence.
      * intros k. by apply contig_front.
    + rewrite Hc1. cbn [negb]. rewrite (proj2 (Z.eqb_neq (Z.of_nat (length (y :: s))) 0)) by (cbn [length]; lia). cbn [negb].
      rewrite Hc2 by done. cbn [hd].
      assert (y ∈ ps ∧ f y = f x) as [Hy Hfy] by (apply seg_elem; rewrite Es; left).
      rewrite (proj2 (Z.eqb_neq y 0)) by set_solver. cbn [negb].
      apply contig_sides in Hc3 as (l & r & Eps & Hsl & _). rewrite Es in Eps. cbn [app] in Eps.
      destruct (link_before_spec (mk_hash (htsize pH) (count pH) (first pH) (Some tbl')) hp l y
        (s ++ r) x e) as (hp' & -> & Hl' & Hs' & Hf'); rewrite <- ?Eps; [done..|].
      rewrite <- Eps in Hf'.
      assert (l ++ x :: y :: s ++ r ≡ₚ x :: ps) as Hperm by (rewrite Eps; symmetry; apply Permutation_middle).
      eexists _, hp', (l ++ x :: y :: s ++ r). split; [done|]. split; [|split_and!; done].
      split; [done|by rewrite Hperm|by rewrite Hperm|done|by apply Hpay'|].
      unfold buckets_ok. cbn [ht set_first htsize].
      split; [done|]. split; [congruence|]. intros j b' Hj.
      refine (bucket_ok_insert f ps _ x (f x) b j b' tbl tbl' Eb Ew eq_refl Hn _ _ Hb Hj).
      * intros k. rewrite Eps, !seg_app, (seg_cons f k x). case_decide as Hd.
        -- subst k. rewrite Hsl. by rewrite decide_True.
        -- by rewrite decide_False by congruence.
      * intros k. rewrite Eps. apply contig_before; [done|by rewrite Hfy].
  - cbn [negb Z.eqb].
    destruct (link_first_spec (mk_hash (htsize pH) (count pH) (first pH) None) hp ps x e)
      as (hp' & -> & Hl' & Hs' & Hf'); [done..|].
    eexists _, hp', (x :: ps). split; [done|]. split; [|split_and!; done].
    split; [done..|by apply Hpay'|done].
Qed.

(** ** Rehashing *)

(** The elements still to move: only [next] and the payload matter. *)
Fixpoint chained (hp : heap) (K : addr → Z * bytes * Z) (rs : list addr) : Prop :=
  match rs with
  | [] => True
  | x :: xs => (∃ e, hp !! x = Some e ∧ next e = hd 0 xs ∧ pay e = K x) ∧ chained hp K xs
  end.

Lemma chained_frame hp hp' K rs : (∀ a, a ∈ rs → hp' !! a = hp !! a) →
  chained hp K rs → chained hp' K rs.
Proof.
  induction rs as [|x rs IH]; simpl; [done|]. intros Hf [He Hc]. rewrite Hf by left.
  split; [done|]. apply IH; [|done]. intros. apply Hf. by right.
Qed.

Lemma linked_chained hp K ps : ∀ p, linked hp p ps 0 →
  (∀ a, a ∈ ps → pay <$> hp !! a = Some (K a)) → chained hp K ps.
Proof.
  induction ps as [|x ps IH]; intros p; simpl; [done|]. intros [(e & He & _ & Hn) Hl] Hp. split.
  - exists e. split; [done|]. split; [done|]. specialize (Hp x ltac:(left)). rewrite He in Hp.
    by injection Hp.
  - apply (IH x); [done|]. intros. apply Hp. by right.
Qed.

Lemma list_size (hp : heap) ps : NoDup ps → (∀ a, a ∈ ps → is_Some (hp !! a)) →
  (length ps ≤ size hp)%nat.
Proof.
  intros Hnd Hin. rewrite <- size_dom, <- (size_list_to_set (C:=gset addr) ps) by done.
  apply subseteq_size. intros a Ha%elem_of_list_to_set. apply elem_of_dom. auto.
Qed.

Lemma rehash_loop_spec K rs : ∀ fuel pH hp ps,
  shape pH hp ps K → ht pH ≠ None → chained hp K rs → NoDup (rs ++ ps) → 0 ∉ rs →
  (length rs ≤ fuel)%nat → Z.of_nat (length ps + length rs) ≤ 4294967295 →
  ∃ pH' hp' ps',
    rehash_loop fuel pH hp (hd 0 rs) (htsize pH) = Some (pH', hp') ∧
    shape pH' hp' ps' K ∧ ps' ≡ₚ rs ++ ps ∧ htsize pH' = htsize pH ∧ count pH' = count pH ∧
    ht pH' ≠ None ∧ same_pay hp hp' ∧ (∀ a, a ∉ rs ++ ps → hp' !! a = hp !! a).
Proof.
  induction rs as [|x rs IH]; intros fuel pH hp ps Hs Ht Hc Hnd H0 Hf Hn; cbn [hd].
  { exists pH, hp, ps. destruct fuel; by split_and!. }
  cbn [length] in Hf, Hn. destruct fuel as [|fuel]; [lia|].
  destruct Hc as [(e & He & Hnx & Hpe) Hc].
  cbn [app] in Hnd. apply NoDup_cons in Hnd as [Hx Hnd].
  cbn [rehash_loop]. rewrite (proj2 (Z.eqb_neq x 0)) by set_solver. rewrite He.
  destruct (insertElement_spec pH hp ps K x Hs) as
    (pH1 & hp1 & ps1 & E & Hs1 & Hp1 & Hz1 & Hc1 & Ht1 & Hpay1 & Hf1);
    [set_solver|set_solver|by rewrite He; simpl; rewrite Hpe|lia|].
  assert (h e = snd (K x)) as Hh by (by rewrite <- Hpe).
  destruct (ht pH) as [tbl|] eqn:Et; [|done]. rewrite Hh, E, Hnx.
  destruct (IH fuel pH1 hp1 ps1) as
    (pH2 & hp2 & ps2 & E2 & Hs2 & Hp2 & Hz2 & Hc2 & Ht2 & Hpay2 & Hf2).
  - done.
  - intros E1. by apply Ht1 in E1.
  - eapply chained_frame; [|exact Hc]. intros a Ha. apply Hf1.
    apply NoDup_app in Hnd as (_ & Hd & _). specialize (Hd a Ha). set_solver.
  - rewrite Hp1. rewrite <- Permutation_middle. by apply NoDup_cons.
  - set_solver.
  - lia.
  - rewrite Hp1. cbn [length]. lia.
  - exists pH2, hp2, ps2. rewrite Hz1 in E2. split; [done|]. split; [done|].
    split; [by rewrite Hp2, Hp1, <- Permutation_middle|].
    split; [congruence|]. split; [congruence|]. split; [done|].
    split; [by eapply same_pay_trans|]. intros a Ha. rewrite Hf2, Hf1; [done|set_solver|].
    rewrite Hp1. set_solver.
Qed.

(** The empty table with fresh buckets. *)
Lemma shape_fresh n hp c K : 0 < n →
  shape (mk_hash n c 0 (Some (replicate (Z.to_nat n) (mk_bucket 0 0)))) hp [] K.
Proof.
  intros Hn. split; [done|constructor|set_solver|done|set_solver|].
  unfold buckets_ok. cbn [ht htsize]. split; [done|]. split; [apply length_replicate|].
  intros i b. unfold rd. case_decide; [|done]. intros [-> _]%lookup_replicate_1.
  split; [done|]. split; [done|]. by exists [], [].
Qed.

(** What the allocator promises during a call on a table of elements [hp]. *)
Definition mem_ok (m : mem) (hp : heap) : Prop :=
  (∀ a, new_elem m = Some a → a ≠ 0 ∧ hp !! a = None) ∧
  (∀ n k, new_ht m n = Some k → 0 < n → n ≤ k).

Lemma rehash_spec m pH hp ps K n :
  shape pH hp ps K → (∀ n k, new_ht m n = Some k → 0 < n → n ≤ k) → 0 < n →
  Z.of_nat (length ps) ≤ 4294967295 →
  ∃ b pH' hp' ps', rehash m pH hp n = Some (b, pH', hp') ∧ shape pH' hp' ps' K ∧ ps' ≡ₚ ps ∧
    count pH' = count pH ∧ same_pay hp hp' ∧ (∀ a, a ∉ ps → hp' !! a = hp !! a).
Proof.
  intros Hs Hm Hn Hlen. unfold rehash. set (n' := if 1024 <? n * 16 then 64 else n).
  assert (0 < n') as Hn' by (unfold n'; by case_match).
  assert (∃ b pH' hp' ps', Some (false, pH, hp) = Some (b, pH', hp') ∧ shape pH' hp' ps' K ∧
    ps' ≡ₚ ps ∧ count pH' = count pH ∧ same_pay hp hp' ∧ (∀ a, a ∉ ps → hp' !! a = hp !! a)) as Hid
    by (by exists false, pH, hp, ps).
  destruct (n' =? htsize pH); [done|]. destruct (new_ht m n') as [k|] eqn:Ek; [|done].
  assert (0 < k) as Hk by (specialize (Hm _ _ Ek Hn'); lia).
  destruct Hs as [Hl Hnd H0 Hf Hpay Hb]. rewrite Hf.
  destruct (rehash_loop_spec K ps (size hp) _ hp [] (shape_fresh k hp (count pH) K Hk)) as
    (pH' & hp' & ps' & E & Hs' & Hp' & _ & Hc' & _ & Hpay' & Hf').
  - done.
  - by eapply linked_chained.
  - by rewrite app_nil_r.
  - done.
  - apply list_size; [done|]. intros a Ha. specialize (Hpay a Ha). by destruct (hp !! a).
  - done.
  - cbn [htsize] in E. rewrite E. rewrite app_nil_r in Hp', Hf'.
    by exists true, pH', hp', ps'.
Qed.

(** ** Searching *)

Lemma find_loop_spec hp K s hash key : ∀ p r,
  linked hp p (s ++ r) 0 → (∀ a, a ∈ s → pay <$> hp !! a = Some (K a)) → text key →
  (∀ a, a ∈ s → ∃ k, snd (fst (K a)) = cstr k ∧ text k ∧
     (fold k = fold key → snd (K a) = hash)) →
  ∃ x, find_loop hp (cstr key) hash (hd 0 (s ++ r)) (length s) = Some x ∧
    match x with
    | Some a => a ∈ s ∧ ∃ k, snd (fst (K a)) = cstr k ∧ text k ∧ fold k = fold key
    | None => ∀ a k, a ∈ s → snd (fst (K a)) = cstr k → fold k ≠ fold key
    end.
Proof.
  assert (∀ k k', cstr k = cstr k' → k = k') as Hinj by (intros k k'; apply app_inj_tail).
  induction s as [|a s IH]; intros p r Hl Hp Hkey Hk; simpl.
  { exists None. split; [done|]. intros a k Ha. by apply not_elem_of_nil in Ha. }
  destruct Hl as [(e & He & _ & Hn) Hl]. rewrite He.
  pose proof (Hp a ltac:(left)) as Hpa. rewrite He in Hpa. injection Hpa as Hpa.
  destruct (Hk a ltac:(left)) as (k & Hkk & Hkt & Hkh). rewrite <- Hpa in Hkk, Hkh. simpl in Hkk, Hkh.
  pose proof (stricmp_lexdiff k key [] [] Hkt Hkey) as Hcmp. rewrite !app_nil_r in Hcmp.
  rewrite Hkk, Hcmp.
  destruct (IH a r) as (x & Ex & Hx); [done|by intros; apply Hp; right|done|by intros; apply Hk; right|].
  rewrite Hn, Ex.
  assert (lexdiff (fold k) (fold key) = 0 ↔ fold k = fold key) as Hlex.
  { apply lexdiff_0; by apply fold_text. }
  destruct (decide (fold k = fold key)) as [Heq|Hne].
  - rewrite (proj2 Hlex Heq), (Hkh Heq), Z.eqb_refl. exists (Some a). split; [done|].
    split; [left|]. exists k. by rewrite <- Hpa.
  - exists x. split.
    { destruct (hash =? h e); [|done]. rewrite (proj2 (Z.eqb_neq _ 0)) by tauto. done. }
    destruct x as [b|].
    + destruct Hx as [Hb Hx]. split; [by right|done].
    + intros b k' [->|Hb]%elem_of_cons E; [|by apply (Hx b)].
      rewrite <- Hpa in E. simpl in E. rewrite Hkk in E. by apply Hinj in E as <-.
Qed.

(** ** Hashes *)

Lemma strHash_fold s : ∀ t acc, text s → text t → fold s = fold t →
  ∃ n, strHash (cstr s) acc = Some n ∧ strHash (cstr t) acc = Some n.
Proof.
  assert (∀ c, 0 < c < 256 → Z.land 0xdf c = Z.land 0xdf (upper_to_lower c)) as Hc.
  { intros c Hc. apply Z.eqb_eq.
    apply (all_bytes (λ c, Z.land 0xdf c =? Z.land 0xdf (upper_to_lower c))); [by vm_compute|].
    unfold is_u8. lia. }
  induction s as [|c s IH]; intros [|x t] acc Hs Ht E; try done.
  - by exists acc.
  - apply text_cons in Hs as [Hc1 Hs], Ht as [Hx1 Ht]. injection E as E1 E2.
    unfold cstr. cbn [app strHash]. rewrite !(proj2 (Z.eqb_neq _ 0)) by lia.
    rewrite (Hc c), (Hc x), E1 by lia. by apply IH.
Qed.

Definition hashof (s : bytes) : Z := default 0 (strHash (cstr s) 0).

Lemma strHash_hashof s : text s → strHash (cstr s) 0 = Some (hashof s).
Proof. intros Hs. unfold hashof. by destruct (strHash_fold s s 0) as (n & -> & _). Qed.

Lemma hashof_fold s t : text s → text t → fold s = fold t → hashof s = hashof t.
Proof. intros Hs Ht E. unfold hashof. by destruct (strHash_fold s t 0) as (n & -> & ->). Qed.

(** ** The map a table stands for *)

(** A datum, a key and its hash, as an element holds them. *)
Definition good (p : Z * bytes * Z) : Prop :=
  fst (fst p) ≠ 0 ∧ ∃ s, text s ∧ p = (fst (fst p), cstr s, hashof s).

(** The table holds the entries of [M], a map from folded keys to the key as
    it was given last and its datum; the heap holds nothing else. *)
Record repr (pH : Hash) (hp : heap) (M : gmap (list Z) (bytes * Z)) (ps : list addr)
    (K : addr → Z * bytes * Z) : Prop := {
  rp_shape : shape pH hp ps K;
  rp_count : count pH = Z.of_nat (length ps);
  rp_dom a : is_Some (hp !! a) ↔ a ∈ ps;
  rp_good a : a ∈ ps → good (K a);
  rp_uniq a b s t : a ∈ ps → b ∈ ps → snd (fst (K a)) = cstr s → snd (fst (K b)) = cstr t →
    fold s = fold t → a = b;
  rp_map k s d : M !! k = Some (s, d) ↔ k = fold s ∧ text s ∧
    ∃ a, a ∈ ps ∧ K a = (d, cstr s, hashof s)
}.

Definition represents (pH : Hash) (hp : heap) (M : gmap (list Z) (bytes * Z)) : Prop :=
  ∃ ps K, repr pH hp M ps K.

Lemma cstr_inj s t : cstr s = cstr t → s = t.
Proof. by intros [E _]%app_inj_tail. Qed.

Lemma findElementWithHash_spec pH hp M ps K key :
  repr pH hp M ps K → text key →
  ∃ x, findElementWithHash pH hp (cstr key) = Some (x, hashof key) ∧
    match x with
    | Some a => a ∈ ps ∧ ∃ s d, text s ∧ fold s = fold key ∧ K a = (d, cstr s, hashof s) ∧ d ≠ 0 ∧
        M !! fold key = Some (s, d)
    | None => M !! fold key = None
    end.
Proof.
  intros [[Hl Hnd H0 Hf Hpay Hb] Hc Hdom Hg Hu HM] Hk. unfold findElementWithHash.
  rewrite strHash_hashof by done.
  assert (∀ s p r, linked hp p (s ++ r) 0 → (∀ a, a ∈ s → a ∈ ps) →
    (∀ a, a ∈ ps → snd (K a) = hashof key → a ∈ s) →
    ∃ x, find_loop hp (cstr key) (hashof key) (hd 0 (s ++ r)) (length s) = Some x ∧
    match x with
    | Some a => a ∈ ps ∧ ∃ s d, text s ∧ fold s = fold key ∧ K a = (d, cstr s, hashof s) ∧ d ≠ 0 ∧
        M !! fold key = Some (s, d)
    | None => M !! fold key = None
    end) as Hfind.
  { intros s p r Hls Hin Hall.
    destruct (find_loop_spec hp K s (hashof key) key p r) as (x & E & Hx); try done.
    - intros a Ha. by apply Hpay, Hin.
    - intros a Ha. destruct (Hg a (Hin a Ha)) as (_ & k & Hkt & Ek). exists k. rewrite Ek. simpl.
      split; [done|]. split; [done|]. intros. by apply hashof_fold.
    - exists x. split; [done|]. destruct x as [a|].
      + destruct Hx as [Ha (k & Ek & Hkt & Hfk)]. split; [auto|].
        destruct (Hg a (Hin a Ha)) as (Hd & k' & Hkt' & Ek'). rewrite Ek' in Ek. simpl in Ek.
        apply cstr_inj in Ek as ->. exists k, (fst (fst (K a))). split_and!; try done.
        apply HM. split; [done|]. split; [done|]. exists a. auto.
      + destruct (M !! fold key) as [[s' d]|] eqn:EM; [|done]. apply HM in EM as (Ef & Ht & a & Ha & Ea).
        exfalso. apply (Hx a s'); [|by rewrite Ea|done]. apply Hall; [done|]. rewrite Ea. simpl.
        by apply hashof_fold. }
  unfold buckets_ok in Hb. destruct (ht pH) as [tbl|] eqn:Et.
  - destruct Hb as (Hsz & Hlen & Hb).
    destruct (bucket_in_range tbl (hashof key) (htsize pH) Hsz Hlen) as [b Eb]. rewrite Eb.
    destruct (Hb _ _ Eb) as (Hc1 & Hc2 & Hc3).
    set (s := seg _ _ _) in *. rewrite Hc1, Nat2Z.id. destruct Hc3 as (l & r & Eps). fold s in Eps.
    assert (∃ x, find_loop hp (cstr key) (hashof key) (chain b) (length s) = Some x ∧
      match x with
      | Some a => a ∈ ps ∧ ∃ s d, text s ∧ fold s = fold key ∧ K a = (d, cstr s, hashof s) ∧ d ≠ 0 ∧
          M !! fold key = Some (s, d)
      | None => M !! fold key = None
      end) as (x & -> & Hx); [|by exists x].
    assert (∀ a, a ∈ ps → snd (K a) = hashof key → a ∈ s) as Hall.
    { intros a Ha E. apply seg_elem. split; [done|]. by rewrite E. }
    assert (find_loop hp (cstr key) (hashof key) (chain b) (length s) =
      find_loop hp (cstr key) (hashof key) (hd 0 (s ++ r)) (length s)) as ->.
    { destruct s as [|y s']; [done|]. by rewrite Hc2. }
    apply (Hfind s (lastd 0 l) r); [|by intros a [? _]%seg_elem|done].
    rewrite Eps in Hl. apply linked_app in Hl as [_ Hl]. done.
  - rewrite Hf, Hc, Nat2Z.id. rewrite <- (app_nil_r ps) in Hl at 1.
    destruct (Hfind ps 0 [] Hl) as (x & E & Hx); [done|done|].
    rewrite app_nil_r in E. rewrite E. by exists x.
Qed.

(** ** Removal *)

(** Taking [x] out of its bucket. *)
Lemma bucket_ok_remove f l x r b j b' nx tbl tbl' :
  NoDup (l ++ x :: r) → rd tbl (f x) = Some b → Z.of_nat (length (l ++ x :: r)) ≤ 4294967296 →
  wr tbl (f x) (mk_bucket (u32 (bcount b - 1)) (if chain b =? x then nx else chain b)) = Some tbl' →
  nx = hd 0 r → (∀ k b, rd tbl k = Some b → bucket_ok f (l ++ x :: r) k b) →
  rd tbl' j = Some b' → bucket_ok f (l ++ r) j b'.
Proof.
  intros Hnd Hb Hlen Hw -> Hok Hj. apply NoDup_app in Hnd as (_ & Hlr & [Hxr _]%NoDup_cons).
  assert (x ∉ l) as Hxl by (intros Hx; apply (Hlr x Hx); left).
  assert (contig f j (l ++ r)) as Hcon.
  { destruct (rd_is_Some tbl j) as [bj Hbj].
    - apply rd_lt in Hj. apply wr_length in Hw. lia.
    - destruct (Hok _ _ Hbj) as (_ & _ & Hc). by apply (contig_delete f j l x r). }
  split; [|split; [|done]]; (destruct (decide (j = f x)) as [->|Hne];
    [rewrite (rd_wr_eq _ _ _ _ Hw) in Hj; injection Hj as <-; destruct (Hok _ _ Hb) as (H1 & H2 & H3)
    |rewrite (rd_wr_ne _ _ _ _ _ Hw) in Hj by congruence; destruct (Hok _ _ Hj) as (H1 & H2 & H3)]);
    rewrite !seg_app, seg_cons in H1, H2; rewrite seg_app;
    first [rewrite decide_True in H1, H2 by done | rewrite decide_False in H1, H2 by congruence]; try done.
  - cbn [bcount]. rewrite H1. pose proof (length_filter (λ a, f a = f x) l).
    pose proof (length_filter (λ a, f a = f x) r). fold (seg f (f x) l) in *. fold (seg f (f x) r) in *.
    rewrite !length_app in *. cbn [length] in *. unwrap. lia.
  - intros Hne. cbn [chain]. rewrite H2 by (by destruct (seg f (f x) l)).
    destruct (seg f (f x) l) as [|y s] eqn:Es; cbn [app hd].
    + rewrite Z.eqb_refl. apply contig_sides in H3 as (l' & r' & E & Hl' & Hr').
      rewrite seg_app, Es, seg_cons in E. case_decide; [|done]. cbn [app] in E.
      apply not_elem_of_app_cons_inv_l in E as (_ & _ & E); [| |done].
      * rewrite E at 1. simpl in Hne. by destruct (seg f (f x) r).
      * intros Hx. assert (x ∈ seg f (f x) l') as Hin by (by apply seg_elem).
        rewrite Hl' in Hin. by apply not_elem_of_nil in Hin.
    + assert (y ∈ l) as Hy.
      { assert (y ∈ seg f (f x) l) as H by (rewrite Es; left). by apply seg_elem in H as [? _]. }
      by rewrite (proj2 (Z.eqb_neq y x)) by (by intros ->).
Qed.

Lemma removeElement_spec pH hp ps K x :
  shape pH hp ps K → x ∈ ps → count pH = Z.of_nat (length ps) →
  (∀ a, is_Some (hp !! a) ↔ a ∈ ps) → Z.of_nat (length ps) < 4294967296 →
  ∃ pH' hp' ps', removeElement pH hp x = Some (pH', hp') ∧ shape pH' hp' ps' K ∧
    x :: ps' ≡ₚ ps ∧ count pH' = Z.of_nat (length ps') ∧ (∀ a, is_Some (hp' !! a) ↔ a ∈ ps').
Proof.
  intros [Hl Hnd H0 Hf Hpay Hb] Hx Hc Hdom Hn. unfold removeElement.
  destruct (proj2 (Hdom x) Hx) as [e He]. rewrite He.
  apply list_elem_of_split in Hx as (l & r & ->).
  destruct (linked_first _ _ _ _ _ _ Hl) as (e' & He' & Hp & Hnx). simplify_eq.
  destruct (unlink_spec pH hp l x r e Hl Hnd H0 Hf He) as (hp1 & -> & Hl1 & Hs1 & Hf1).
  assert (x ∉ l ++ r) as Hxlr.
  { rewrite <- Permutation_middle in Hnd. by apply NoDup_cons in Hnd as [? _]. }
  assert (h e = snd (K x)) as Hh.
  { specialize (Hpay x ltac:(set_solver)). rewrite He in Hpay. injection Hpay as Hpe. by rewrite <- Hpe. }
  assert (∀ a, is_Some (delete x hp1 !! a) ↔ a ∈ l ++ r) as Hdom'.
  { intros a. destruct (decide (x = a)) as [<-|Hne].
    - rewrite lookup_delete_eq. split; [by intros []|done].
    - rewrite lookup_delete_ne by done. transitivity (is_Some (hp !! a)).
      + specialize (Hs1 a). destruct (hp !! a), (hp1 !! a); simpl in Hs1; try done; split; by intros [].
      + rewrite Hdom. set_solver. }
  assert (∃ t, leave_bucket (set_first (hd 0 (l ++ r)) pH) e x =
        Some (mk_hash (htsize pH) (count pH) (hd 0 (l ++ r)) t) ∧
      buckets_ok (λ a, snd (K a)) (mk_hash (htsize pH) (count pH) (hd 0 (l ++ r)) t) (l ++ r))
    as (t & Et & Hb').
  { unfold buckets_ok in Hb |- *. unfold leave_bucket, set_first. cbn [ht htsize count first].
    destruct (ht pH) as [tbl|] eqn:Eht.
    - destruct Hb as (Hsz & Hlen & Hb). set (f := λ a, snd (K a) `mod` htsize pH) in *.
      rewrite Hh. destruct (bucket_in_range tbl (snd (K x)) (htsize pH) Hsz Hlen) as [b Eb].
      cbv zeta. rewrite Eb.
      destruct (wr_is_Some _ _ _ (mk_bucket (u32 (bcount b - 1))
        (if chain b =? x then next e else chain b)) Eb) as [tbl' Ew]. rewrite Ew.
      eexists. split; [done|]. cbn [ht htsize]. split; [done|].
      split; [apply wr_length in Ew; congruence|]. intros j b' Hj.
      refine (bucket_ok_remove f l x r b j b' (next e) tbl tbl' Hnd Eb _ Ew Hnx Hb Hj). lia.
    - exists None. by split. }
  rewrite Et. cbn [count htsize first ht].
  rewrite Hc, length_app in *. cbn [length] in *. unwrap.
  assert (x :: l ++ r ≡ₚ l ++ x :: r) as Hperm by apply Permutation_middle.
  destruct (Z.eqb_spec (Z.of_nat (length l + S (length r)) - 1) 0) as [Hz|Hz].
  - assert (l = [] ∧ r = []) as [-> ->] by (split; apply nil_length_inv; lia).
    unfold sqlite3HashClear. cbn [app hd first] in *.
    assert (delete x hp1 = ∅) as ->.
    { apply map_eq. intros a. rewrite lookup_empty. destruct (delete x hp1 !! a) eqn:E; [|done].
      exfalso. eapply not_elem_of_nil, (proj1 (Hdom' a)). by rewrite E. }
    eexists _, _, []. split; [done|]. split_and!; [|done|done|].
    + split; try done; [constructor|set_solver|set_solver].
    + intros a. rewrite lookup_empty. split; [by intros []|by intros ?%not_elem_of_nil].
  - eexists _, _, (l ++ r). split; [done|]. split_and!; [|done|cbn; rewrite length_app; lia|done].
    split.
    + eapply linked_frame; [|exact Hl1]. intros a Ha. apply lookup_delete_ne. by intros <-.
    + rewrite <- Permutation_middle in Hnd. by apply NoDup_cons in Hnd as [_ ?].
    + set_solver.
    + done.
    + intros a Ha. rewrite lookup_delete_ne by (by intros <-). rewrite (Hs1 a). apply Hpay. set_solver.
    + done.
Qed.

(** ** Changing what elements hold *)

Lemma seg_ext f g i ps : (∀ a, a ∈ ps → f a = g a) → seg f i ps = seg g i ps.
Proof.
  induction ps as [|x ps IH]; intros H; [done|]. rewrite !seg_cons, IH, (H x); [done|left|].
  intros. apply H. by right.
Qed.

Lemma buckets_ok_ext hk hk' pH pH' ps : (∀ a, a ∈ ps → hk a = hk' a) → ht pH' = ht pH →
  htsize pH' = htsize pH → buckets_ok hk pH ps → buckets_ok hk' pH' ps.
Proof.
  intros He Et Es. unfold buckets_ok. rewrite Et, Es. destruct (ht pH); [|done].
  intros (H1 & H2 & H3). split; [done|]. split; [done|]. intros i b Hb. specialize (H3 i b Hb).
  unfold bucket_ok, contig in *.
  rewrite (seg_ext (λ a, hk' a `mod` htsize pH) (λ a, hk a `mod` htsize pH)); [done|].
  intros a Ha. by rewrite He.
Qed.

Lemma shape_frame pH hp ps K hp' K' c :
  shape pH hp ps K → (∀ a, a ∈ ps → hp' !! a = hp !! a) → (∀ a, a ∈ ps → K' a = K a) →
  shape (mk_hash (htsize pH) c (first pH) (ht pH)) hp' ps K'.
Proof.
  intros [Hl Hnd H0 Hf Hpay Hb] Hhp HK. split; try done.
  - by eapply linked_frame.
  - intros a Ha. rewrite Hhp, HK by done. auto.
  - eapply buckets_ok_ext; [|done|done|exact Hb]. intros a Ha. by rewrite HK.
Qed.

(** Storing another key and datum in an element of the same hash. *)
Lemma shape_replace pH hp ps K a e d k :
  shape pH hp ps K → hp !! a = Some e → a ∈ ps →
  shape pH (<[a := mk_elem (next e) (prev e) d k (h e)]> hp) ps (upd K a (d, k, snd (K a))).
Proof.
  intros [Hl Hnd H0 Hf Hpay Hb] He Ha.
  assert (h e = snd (K a)) as Hh.
  { specialize (Hpay a Ha). rewrite He in Hpay. injection Hpay as E. by rewrite <- E. }
  split; try done.
  - clear Hnd H0 Hf Hpay Hb Ha. revert Hl. generalize 0 at 1 3 as p.
    induction ps as [|x ps IH]; intros p; simpl; [done|]. intros [(e' & He' & Hp & Hn) Hl].
    split; [|by apply IH]. destruct (decide (a = x)) as [<-|Hne].
    + simplify_eq. eexists. rewrite lookup_insert_eq. done.
    + exists e'. by rewrite lookup_insert_ne.
  - intros b Hin. destruct (decide (a = b)) as [<-|Hne].
    + rewrite lookup_insert_eq, upd_eq. simpl. unfold pay. simpl. by rewrite Hh.
    + rewrite lookup_insert_ne, upd_ne by done. auto.
  - eapply buckets_ok_ext; [|done|done|exact Hb]. intros b _. destruct (decide (b = a)) as [->|].
    + by rewrite upd_eq.
    + by rewrite upd_ne.
Qed.

(** ** Operations on the map *)

Lemma repr_replace pH hp M ps K a e s d d0 key :
  repr pH hp M ps K → a ∈ ps → hp !! a = Some e → text s → text key → fold s = fold key →
  K a = (d0, cstr s, hashof s) → d ≠ 0 →
  represents pH (<[a := mk_elem (next e) (prev e) d (cstr key) (h e)]> hp)
    (<[fold key := (key, d)]> M).
Proof.
  intros [Hs Hc Hdom Hg Hu HM] Ha He Hts Htk Hf HK Hd.
  exists ps, (upd K a (d, cstr key, hashof key)).
  assert (hashof s = hashof key) as Hh by (by apply hashof_fold).
  assert (∀ b, upd K a (d, cstr key, hashof key) b = if decide (b = a) then (d, cstr key, hashof key) else K b)
    as Hupd by done.
  split; try done.
  - rewrite <- Hh. replace (hashof s) with (snd (K a)) by (by rewrite HK). by apply shape_replace.
  - intros b. destruct (decide (a = b)) as [<-|Hne].
    + rewrite lookup_insert_eq. split; [done|by eexists].
    + by rewrite lookup_insert_ne.
  - intros b Hb. rewrite Hupd. case_decide; [|auto]. split; [done|]. by exists key.
  - intros b b' t t' Hb Hb'. rewrite !Hupd. case_decide; case_decide; subst; simpl; try done.
    + intros <-%cstr_inj Et Ef. apply (Hu a b' s t'); [done|done|by rewrite HK|done|congruence].
    + intros Et <-%cstr_inj Ef. apply (Hu b a t s); [done|done|done|by rewrite HK|congruence].
    + by apply Hu.
  - intros k t d'. destruct (decide (fold key = k)) as [<-|Hne].
    + rewrite lookup_insert_eq. split.
      * intros [= <- <-]. split; [done|]. split; [done|]. exists a. rewrite Hupd, decide_True by done. done.
      * intros (Ef & Ht & b & Hb & Eb). rewrite Hupd in Eb. case_decide; [subst|].
        -- by injection Eb as <- <-%cstr_inj _.
        -- exfalso. assert (b = a); [|done].
           apply (Hu b a t s); [done|done|by rewrite Eb|by rewrite HK|congruence].
    + rewrite lookup_insert_ne by done. rewrite HM. split; intros (Ef & Ht & b & Hb & Eb);
        (split; [done|]; split; [done|]; exists b; split; [done|]).
      * rewrite Hupd. case_decide; [|done]. subst. rewrite HK in Eb. injection Eb as _ ->%cstr_inj _.
        congruence.
      * rewrite Hupd in Eb. case_decide; [|done]. injection Eb as _ <-%cstr_inj _. congruence.
Qed.

Lemma repr_remove pH hp M ps K a s d0 key pH' hp' ps' :
  repr pH hp M ps K → a ∈ ps → text s → fold s = fold key → K a = (d0, cstr s, hashof s) →
  shape pH' hp' ps' K → a :: ps' ≡ₚ ps → count pH' = Z.of_nat (length ps') →
  (∀ b, is_Some (hp' !! b) ↔ b ∈ ps') → represents pH' hp' (delete (fold key) M).
Proof.
  intros [Hs Hc Hdom Hg Hu HM] Ha Hts Hf HK Hs' Hp Hc' Hdom'. exists ps', K.
  assert (a ∉ ps') as Hna.
  { pose proof (sh_nodup _ _ _ _ Hs) as Hnd. rewrite <- Hp in Hnd. by apply NoDup_cons in Hnd as [? _]. }
  assert (∀ b, b ∈ ps' → b ∈ ps) as Hin by (intros b Hb; rewrite <- Hp; by right).
  split; try done.
  - auto.
  - intros b b' t t' Hb Hb'. apply Hu; auto.
  - intros k t d. destruct (decide (fold key = k)) as [<-|Hne].
    + rewrite lookup_delete_eq. split; [done|]. intros (Ef & Ht & b & Hb & Eb). exfalso.
      assert (b = a); [|by subst].
      apply (Hu b a t s); [auto|done|by rewrite Eb|by rewrite HK|congruence].
    + rewrite lookup_delete_ne by done. rewrite HM. split; intros (Ef & Ht & b & Hb & Eb);
        (split; [done|]; split; [done|]; exists b; split; [|done]); [|auto].
      rewrite <- Hp in Hb. apply elem_of_cons in Hb as [->|Hb]; [|done].
      rewrite HK in Eb. injection Eb as _ ->%cstr_inj _. congruence.
Qed.

Lemma repr_insert pH hp M ps K a key d pH' hp' ps' :
  repr pH hp M ps K → text key → d ≠ 0 → M !! fold key = None → a ∉ ps →
  shape pH' hp' ps' (upd K a (d, cstr key, hashof key)) → ps' ≡ₚ a :: ps →
  count pH' = Z.of_nat (length ps') → (∀ b, is_Some (hp' !! b) ↔ b ∈ ps') →
  represents pH' hp' (<[fold key := (key, d)]> M).
Proof.
  intros [Hs Hc Hdom Hg Hu HM] Htk Hd HMn Ha Hs' Hp Hc' Hdom'. exists ps', (upd K a (d, cstr key, hashof key)).
  assert (∀ b, upd K a (d, cstr key, hashof key) b = if decide (b = a) then (d, cstr key, hashof key) else K b)
    as Hupd by done.
  assert (∀ b, b ∈ ps' ↔ b = a ∨ b ∈ ps) as Hin by (intros b; by rewrite Hp, elem_of_cons).
  assert (∀ b t, b ∈ ps → snd (fst (K b)) = cstr t → fold t ≠ fold key) as Hnew.
  { intros b t Hb Et Ef. destruct (Hg b Hb) as (_ & t' & Ht' & Eb). rewrite Eb in Et. simpl in Et.
    apply cstr_inj in Et as <-. assert (M !! fold key = Some (t', fst (fst (K b)))) as E; [|congruence].
    apply HM. split; [done|]. split; [done|]. by exists b. }
  split; try done.
  - intros b [->|Hb]%Hin; rewrite Hupd; case_decide; try done.
    + split; [done|]. by exists key.
    + by subst.
    + auto.
  - intros b b' t t' Hb%Hin Hb'%Hin. rewrite !Hupd. case_decide; case_decide; subst; simpl; try done.
    + destruct Hb' as [->|Hb']; [done|]. intros <-%cstr_inj Et Ef. exfalso. by apply (Hnew b' t').
    + destruct Hb as [->|Hb]; [done|]. intros Et <-%cstr_inj Ef. exfalso. by apply (Hnew b t).
    + destruct Hb as [->|Hb], Hb' as [->|Hb']; try done. by apply Hu.
  - intros k t d'. destruct (decide (fold key = k)) as [<-|Hne].
    + rewrite lookup_insert_eq. split.
      * intros [= <- <-]. split; [done|]. split; [done|]. exists a. rewrite Hin, Hupd, decide_True by done.
        split; [by left|done].
      * intros (Ef & Ht & b & Hb%Hin & Eb). rewrite Hupd in Eb. case_decide; [subst|].
        -- by injection Eb as <- <-%cstr_inj _.
        -- destruct Hb as [->|Hb]; [done|]. exfalso. apply (Hnew b t); [done|by rewrite Eb|done].
    + rewrite lookup_insert_ne by done. rewrite HM. split; intros (Ef & Ht & b & Hb & Eb);
        (split; [done|]; split; [done|]; exists b).
      * rewrite Hin, Hupd. split; [by right|]. case_decide; [|done]. by subst.
      * apply Hin in Hb. rewrite Hupd in Eb. case_decide.
        -- injection Eb as _ <-%cstr_inj _. congruence.
        -- by destruct Hb as [->|Hb].
Qed.

Lemma insert_new_spec m pH hp M ps K key d :
  repr pH hp M ps K → text key → d ≠ 0 → M !! fold key = None → mem_ok m hp →
  Z.of_nat (length ps) < 1431655765 →
  ∃ r pH' hp' M', insert_new m pH hp (cstr key) d (hashof key) = Some (r, pH', hp') ∧
    represents pH' hp' M' ∧
    (new_elem m = None ∧ r = d ∧ M' = M ∨
     is_Some (new_elem m) ∧ r = 0 ∧ M' = <[fold key := (key, d)]> M).
Proof.
  intros HR Htk Hd HM [Hm1 Hm2] Hlen. unfold insert_new. destruct (new_elem m) as [a|].
  2: { exists d, pH, hp, M. split; [done|]. split; [by exists ps, K|]. by left. }
  destruct (Hm1 a eq_refl) as [Ha0 Hha].
  assert (a ∉ ps) as Ha by (intros Hin; apply (rp_dom _ _ _ _ _ HR) in Hin; rewrite Hha in Hin; by destruct Hin).
  set (e := mk_elem 0 0 d (cstr key) (hashof key)). set (hp1 := <[a:=e]> hp).
  set (K1 := upd K a (d, cstr key, hashof key)).
  pose proof (rp_count _ _ _ _ _ HR) as Hc.
  assert (u32 (count pH + 1) = Z.of_nat (length ps) + 1) as Hc1 by (rewrite Hc; by unwrap).
  assert (shape (mk_hash (htsize pH) (u32 (count pH + 1)) (first pH) (ht pH)) hp1 ps K1) as Hs1.
  { eapply shape_frame; [by eapply rp_shape| |].
    - intros b Hb. apply lookup_insert_ne. by intros <-.
    - intros b Hb. apply upd_ne. by intros ->. }
  set (pH1 := mk_hash (htsize pH) (u32 (count pH + 1)) (first pH) (ht pH)) in *.
  assert (∃ pH2 hp2 ps2, (if (5 <=? count pH1) && (u32 (2 * htsize pH1) <? count pH1) then
      let* (_, pH, hp) := rehash m pH1 hp1 (u32 (count pH1 * 3)) in Some (pH, hp)
      else Some (pH1, hp1)) = Some (pH2, hp2) ∧
    shape pH2 hp2 ps2 K1 ∧ ps2 ≡ₚ ps ∧ count pH2 = count pH1 ∧ same_pay hp1 hp2 ∧
    (∀ b, b ∉ ps → hp2 !! b = hp1 !! b)) as (pH2 & hp2 & ps2 & E2 & Hs2 & Hp2 & Hc2 & Hpay2 & Hf2).
  { destruct (_ && _); [|by exists pH1, hp1, ps].
    destruct (rehash_spec m pH1 hp1 ps K1 (u32 (count pH1 * 3)) Hs1 Hm2) as
      (b & pH2 & hp2 & ps2 & E & ?); [|lia|].
    - cbn [count pH1]. rewrite Hc1. unwrap. lia.
    - rewrite E. by exists pH2, hp2, ps2. }
  rewrite E2.
  assert (pay <$> hp2 !! a = Some (K1 a)) as Hpa.
  { rewrite Hf2 by done. unfold hp1, K1. by rewrite lookup_insert_eq, upd_eq. }
  destruct (insertElement_spec pH2 hp2 ps2 K1 a Hs2) as
    (pH3 & hp3 & ps3 & E3 & Hs3 & Hp3 & _ & Hc3 & _ & Hpay3 & _); [done|by rewrite Hp2|done|rewrite Hp2; lia|].
  unfold K1 in E3. rewrite upd_eq in E3. cbn [snd] in E3. rewrite E3.
  exists 0, pH3, hp3, (<[fold key := (key, d)]> M). split; [done|].
  split; [|right; split; [by eexists|done]].
  eapply (repr_insert pH hp M ps K a); try done.
  - by rewrite Hp3, Hp2.
  - rewrite Hc3, Hc2. cbn [count pH1]. rewrite Hc1, Hp3, Hp2. cbn [length]. lia.
  - intros b. pose proof (same_pay_trans _ _ _ Hpay2 Hpay3 b) as Hb.
    rewrite Hp3, Hp2, elem_of_cons, <- (rp_dom _ _ _ _ _ HR). unfold hp1 in Hb.
    destruct (decide (a = b)) as [<-|Hne].
    + rewrite lookup_insert_eq in Hb. destruct (hp3 !! a); [|done]. split; [by left|by eexists].
    + rewrite lookup_insert_ne in Hb by done.
      assert (is_Some (hp3 !! b) ↔ is_Some (hp !! b)) as ->; [|naive_solver].
      destruct (hp !! b), (hp3 !! b); simpl in Hb; try done; split; by intros [].
Qed.

(** Looking up a key follows only pointers of the table and returns the
    datum of the map for that key up to case, or null. *)
Theorem hash_find_refines pH hp M key :
  represents pH hp M → text key →
  sqlite3HashFind pH hp (cstr key) = Some (match M !! fold key with Some (_, d) => d | None => 0 end).
Proof.
  intros (ps & K & HR) Hk. unfold sqlite3HashFind.
  destruct (findElementWithHash_spec _ _ _ _ _ _ HR Hk) as (x & -> & Hx).
  destruct x as [a|]; [|by rewrite Hx].
  destruct Hx as (Ha & s & d & _ & _ & HK & _ & ->).
  pose proof (sh_pay _ _ _ _ (rp_shape _ _ _ _ _ HR) a Ha) as Hp. rewrite HK in Hp.
  destruct (hp !! a) as [e|]; [|done]. simpl in Hp. by injection Hp as -> _ _.
Qed.

(** C3: inserting follows only pointers of the table, keeps the invariant of
    the list and its buckets (rehashing when it grows), leaks no element, and
    acts on the map as documented: the old datum is returned and replaced, or
    removed when the new one is null; a new key is added and null returned;
    when memory is short the new datum is returned and nothing changes. *)
Theorem hash_insert_refines m pH hp M key d :
  represents pH hp M → text key → mem_ok m hp → Z.of_nat (size hp) < 1431655765 →
  ∃ r pH' hp' M',
    sqlite3HashInsert m pH hp (cstr key) d = Some (r, pH', hp') ∧ represents pH' hp' M' ∧
    match M !! fold key with
    | Some (_, old) =>
        r = old ∧ M' = if d =? 0 then delete (fold key) M else <[fold key := (key, d)]> M
    | None =>
        if d =? 0 then r = 0 ∧ M' = M
        else match new_elem m with
             | None => r = d ∧ M' = M
             | Some _ => r = 0 ∧ M' = <[fold key := (key, d)]> M
             end
    end.
Proof.
  intros (ps & K & HR) Hk Hm Hsz.
  assert (length ps ≤ size hp)%nat as Hlen.
  { apply list_size; [exact (sh_nodup _ _ _ _ (rp_shape _ _ _ _ _ HR))|].
    intros a Ha. by apply (rp_dom _ _ _ _ _ HR). }
  unfold sqlite3HashInsert.
  destruct (findElementWithHash_spec _ _ _ _ _ _ HR Hk) as (x & -> & Hx).
  destruct x as [a|].
  - destruct Hx as (Ha & s & d0 & Hts & Hf & HK & Hd0 & ->).
    destruct (proj2 (rp_dom _ _ _ _ _ HR a) Ha) as [e He]. rewrite He.
    pose proof (sh_pay _ _ _ _ (rp_shape _ _ _ _ _ HR) a Ha) as Hp. rewrite He, HK in Hp.
    injection Hp as Hde _ _. rewrite Hde, (proj2 (Z.eqb_neq d0 0)) by done. cbn [negb].
    destruct (Z.eqb_spec d 0) as [->|Hd].
    + destruct (removeElement_spec pH hp ps K a (rp_shape _ _ _ _ _ HR) Ha (rp_count _ _ _ _ _ HR)
        (rp_dom _ _ _ _ _ HR) ltac:(lia)) as (pH' & hp' & ps' & -> & Hs' & Hp' & Hc' & Hd').
      eexists _, _, _, _. split; [done|]. split; [|done]. by eapply repr_remove.
    + eexists _, _, _, _. split; [done|]. split; [|done]. by eapply repr_replace.
  - rewrite Hx. destruct (Z.eqb_spec d 0) as [->|Hd].
    + exists 0, pH, hp, M. split; [done|]. split; [by exists ps, K|done].
    + destruct (insert_new_spec m pH hp M ps K key d HR Hk Hd Hx Hm ltac:(lia)) as
        (r & pH' & hp' & M' & -> & HR' & Hcase).
      exists r, pH', hp', M'. split; [done|]. split; [done|].
      destruct Hcase as [(-> & -> & ->)|([a ->] & -> & ->)]; done.
Qed.

Lemma represents_init : represents sqlite3HashInit ∅ ∅.
Proof.
  exists [], (λ _, (0, [], 0)). split; try done.
  - split; try done; [constructor|set_solver|set_solver].
  - intros a. rewrite lookup_empty. split; [by intros []|by intros ?%not_elem_of_nil].
  - by intros a ?%not_elem_of_nil.
  - by intros a b s t ?%not_elem_of_nil.
  - intros k s d. rewrite lookup_empty. split; [done|]. intros (_ & _ & a & Ha & _).
    by apply not_elem_of_nil in Ha.
Qed.

Lemma clear_loop_spec ps : ∀ fuel hp p,
  linked hp p ps 0 → NoDup ps → 0 ∉ ps → (∀ a, is_Some (hp !! a) ↔ a ∈ ps) → (length ps ≤ fuel)%nat →
  clear_loop fuel hp (hd 0 ps) = Some ∅.
Proof.
  induction ps as [|x ps IH]; intros fuel hp p Hl Hnd H0 Hdom Hf.
  - assert (hp = ∅) as ->; [|by destruct fuel].
    apply map_eq. intros a. rewrite lookup_empty. destruct (hp !! a) eqn:E; [|done].
    exfalso. eapply not_elem_of_nil, (proj1 (Hdom a)). by rewrite E.
  - cbn [hd]. destruct fuel as [|fuel]; cbn [length] in Hf; [lia|]. cbn [clear_loop].
    rewrite (proj2 (Z.eqb_neq x 0)) by set_solver. destruct Hl as [(e & He & _ & Hn) Hl]. rewrite He, Hn.
    apply NoDup_cons in Hnd as [Hx Hnd]. apply (IH fuel _ x).
    + eapply linked_frame; [|exact Hl]. intros a Ha. apply lookup_delete_ne. by intros <-.
    + done.
    + set_solver.
    + intros a. destruct (decide (x = a)) as [<-|Hne].
      * rewrite lookup_delete_eq. split; [by intros []|done].
      * rewrite lookup_delete_ne, Hdom by done. set_solver.
    + lia.
Qed.

(** Clearing a table frees every element exactly once and leaves the
    freshly initialised table, which stands for the empty map. *)
Theorem hash_clear_frees pH hp M :
  represents pH hp M →
  sqlite3HashClear pH hp = Some (sqlite3HashInit, ∅) ∧ represents sqlite3HashInit ∅ ∅.
Proof.
  intros (ps & K & HR). split; [|apply represents_init].
  destruct (rp_shape _ _ _ _ _ HR) as [Hl Hnd H0 Hf _ _]. unfold sqlite3HashClear. rewrite Hf.
  rewrite (clear_loop_spec ps _ hp 0); try done; [apply (rp_dom _ _ _ _ _ HR)|].
  apply list_size; [done|]. intros a Ha. by apply (rp_dom _ _ _ _ _ HR).
Qed.

(** *** Witnesses *)

(** An allocator for the witnesses: the element at [a], buckets as asked. *)
Definition mem_at (a : addr) : mem := mk_mem (Some a) Some.

Lemma mem_at_ok a hp : a ≠ 0 → hp !! a = None → mem_ok (mem_at a) hp.
Proof. intros Ha Hh. split; [by intros b [= <-]|]. intros n k [= <-]. lia. Qed.

Lemma hash_insert_refines_witness : ∃ r pH hp M,
  sqlite3HashInsert (mem_at 8) sqlite3HashInit ∅ (cstr [65; 98]) 7 = Some (r, pH, hp) ∧
  represents pH hp M ∧ r = 0 ∧ M = <[[97; 98] := ([65; 98], 7)]> ∅.
Proof.
  destruct (hash_insert_refines (mem_at 8) sqlite3HashInit ∅ ∅ [65; 98] 7 represents_init
    ltac:(repeat constructor) (mem_at_ok 8 ∅ ltac:(lia) (lookup_empty 8)) ltac:(rewrite map_size_empty; lia))
    as (r & pH & hp & M & E & HR & H).
  rewrite lookup_empty in H. exists r, pH, hp, M. split; [exact E|]. split; [exact HR|exact H].
Defined.

(** A table with one entry. *)
Definition one : Hash := mk_hash 0 1 8 None.
Definition one_heap : heap := {[ 8 := mk_elem 0 0 7 (cstr [65; 98]) (hashof [65; 98]) ]}.

Lemma represents_one : represents one one_heap {[ [97; 98] := ([65; 98], 7) ]}.
Proof.
  exists [8], (λ _, (7, cstr [65; 98], hashof [65; 98])).
  split; try done.
  - split; try done.
    + split; [|done]. eexists. unfold one_heap. by rewrite lookup_singleton_eq.
    + apply NoDup_singleton.
    + set_solver.
    + intros a ->%list_elem_of_singleton. unfold one_heap. by rewrite lookup_singleton_eq.
  - intros a. unfold one_heap. rewrite list_elem_of_singleton, lookup_singleton_is_Some. done.
  - intros a _. split; [done|]. exists [65; 98]. split; [repeat constructor|done].
  - by intros a b s t ->%list_elem_of_singleton ->%list_elem_of_singleton.
  - intros k s d. rewrite lookup_singleton_Some. split.
    + intros [<- [= <- <-]]. split; [done|]. split; [repeat constructor|]. exists 8. split; [|done].
      by apply list_elem_of_singleton.
    + intros (-> & _ & a & _ & [= <- <-%cstr_inj]). done.
Qed.

Lemma hash_find_refines_witness : sqlite3HashFind one one_heap (cstr [97; 66]) = Some 7.
Proof.
  rewrite (hash_find_refines one one_heap _ [97; 66] represents_one ltac:(repeat constructor)).
  reflexivity.
Defined.

Lemma hash_clear_frees_witness : sqlite3HashClear one one_heap = Some (sqlite3HashInit, ∅).
Proof. exact (proj1 (hash_clear_frees one one_heap _ represents_one)). Defined.
End Hash.
