(* ===== verification/Numbers.v ===== *)
(** * Numbers and their text ([native/sqlite3/sqlite3.c], util.c)

    Conversions between integers and text in three encodings, arithmetic with
    overflow checks, and the logarithmic estimates of the query planner.
    Text is a buffer with pointers as indices; every read and store is
    bounds-checked ([None] outside the buffer).  A [char] is the byte itself:
    the code only compares characters with ASCII ones, and a negative [char]
    and a byte of 128 or more fall on the same side of each comparison. *)

From S2P Require Import Prelude Text.
Import Text.

Module Numbers.

Definition SMALLEST_INT64 : Z := -9223372036854775808.
Definition LARGEST_INT64 : Z := 9223372036854775807.

Definition SQLITE_UTF8 : Z := 1.
Definition SQLITE_UTF16LE : Z := 2.
Definition SQLITE_UTF16BE : Z := 3.

(** ** Integer to text *)

(* native/sqlite3/sqlite3.c:36251-36256 sqlite3Int64ToText, the while loop *)
Fixpoint to_text_loop (fuel : nat) (zTemp : bytes) (i x : Z) : option (bytes * Z) :=
  match fuel with
  | O => None
  | S fuel =>
      let* zTemp := wr zTemp i (x `mod` 10 + 48) in
      let x := x `div` 10 in
      if x =? 0 then Some (zTemp, i) else to_text_loop fuel zTemp (i - 1) x
  end.

(** At most 20 digits; [zTemp] is uninitialised (zeros here). *)
(* native/sqlite3/sqlite3.c:36232-36260 sqlite3Int64ToText *)
Definition sqlite3Int64ToText (v : Z) (zOut : bytes) : option (Z * bytes) :=
  let x := if v <? 0 then if v =? SMALLEST_INT64 then Z.shiftl 1 63 else u64 (- v) else v in
  let* zTemp := wr (replicate 22 0) 21 0 in
  let* (zTemp, i) := to_text_loop 20 zTemp 20 x in
  let* (zTemp, i) := if v <? 0 then let* zTemp := wr zTemp (i - 1) 45 in Some (zTemp, i - 1)
                     else Some (zTemp, i) in
  let* d := sub zTemp i (22 - i) in
  let* zOut := splice zOut 0 d in
  Some (21 - i, zOut).

(** ** Text to 64-bit integer *)

Definition pow63_text : bytes := [57; 50; 50; 51; 51; 55; 50; 48; 51; 54; 56; 53; 52; 55; 55; 53; 56; 48].

(** The loop of [compare2pow63]; [ds] is what is left of the constant. *)
(* native/sqlite3/sqlite3.c:36281-36283 compare2pow63, the for loop *)
Fixpoint pow63_loop (z : bytes) (p incr : Z) (ds : bytes) (c : Z) : option Z :=
  match ds with
  | [] => Some c
  | d :: ds =>
      if c =? 0 then
        let* x := rd z p in pow63_loop z (p + incr) incr ds ((x - d) * 10)
      else Some c
  end.

(* native/sqlite3/sqlite3.c:36262-36291 compare2pow63 *)
Definition compare2pow63 (z : bytes) (zNum incr : Z) : option Z :=
  let* c := pow63_loop z zNum incr pow63_text 0 in
  if c =? 0 then let* x := rd z (zNum + 18 * incr) in Some (x - 56) else Some c.

(** The loops [while( zNum<zEnd && P(zNum[0]) ) zNum+=incr;]. *)
(* native/sqlite3/sqlite3.c:36331-36331 sqlite3Atoi64 *)
Fixpoint skip_while (P : Z → bool) (fuel : nat) (z : bytes) (zNum zEnd incr : Z) : option Z :=
  match fuel with
  | O => None
  | S fuel =>
      if zNum <? zEnd then
        let* c := rd z zNum in
        if P c then skip_while P fuel z (zNum + incr) zEnd incr else Some zNum
      else Some zNum
  end.

(* native/sqlite3/sqlite3.c:36342-36344 sqlite3Atoi64, the for loop *)
Fixpoint digits_loop (fuel : nat) (z : bytes) (zNum i zEnd incr u : Z) : option (Z * Z) :=
  match fuel with
  | O => None
  | S fuel =>
      if zNum + i <? zEnd then
        let* c := rd z (zNum + i) in
        if (48 <=? c) && (c <=? 57)
        then digits_loop fuel z zNum (i + incr) zEnd incr (u64 (u * 10 + c - 48))
        else Some (u, i)
      else Some (u, i)
  end.

(* native/sqlite3/sqlite3.c:36326-36326 sqlite3Atoi64, the for loop *)
Fixpoint high_bytes (fuel : nat) (z : bytes) (zNum i length : Z) : option Z :=
  match fuel with
  | O => None
  | S fuel =>
      if i <? length then
        let* c := rd z (zNum + i) in
        if c =? 0 then high_bytes fuel z zNum (i + 2) length else Some i
      else Some i
  end.

(* native/sqlite3/sqlite3.c:36366-36372 sqlite3Atoi64, the do loop *)
Fixpoint trailing (fuel : nat) (z : bytes) (zNum jj zEnd incr rc : Z) : option Z :=
  match fuel with
  | O => None
  | S fuel =>
      let* c := rd z (zNum + jj) in
      if negb (sqlite3Isspace c) then Some 1
      else let jj := jj + incr in
           if zNum + jj <? zEnd then trailing fuel z zNum jj zEnd incr rc else Some rc
  end.

(** From the first test for a space on. *)
(* native/sqlite3/sqlite3.c:36331-36397 sqlite3Atoi64 *)
Definition atoi_core (fuel : nat) (z : bytes) (zNum zEnd incr : Z) (nonNum : bool) : option (Z * Z) :=
  let* zNum := skip_while sqlite3Isspace fuel z zNum zEnd incr in
  let* (neg, zNum) :=
    if zNum <? zEnd then
      let* c := rd z zNum in
      Some (if c =? 45 then (true, zNum + incr)
            else if c =? 43 then (false, zNum + incr) else (false, zNum))
    else Some (false, zNum) in
  let zStart := zNum in
  let* zNum := skip_while (λ c, c =? 48) fuel z zNum zEnd incr in
  let* (u, i) := digits_loop fuel z zNum 0 zEnd incr 0 in
  let pNum := if LARGEST_INT64 <? u then if neg : bool then SMALLEST_INT64 else LARGEST_INT64
              else if neg then - u else u in
  let* rc :=
    if (i =? 0) && (zStart =? zNum) then Some (-1)
    else if nonNum then Some 1
    else if zNum + i <? zEnd then trailing fuel z zNum i zEnd incr 0
    else Some 0 in
  if i <? 19 * incr then Some (rc, pNum)
  else
    let* c := if 19 * incr <? i then Some 1 else compare2pow63 z zNum incr in
    if c <? 0 then Some (rc, pNum)
    else
      let pNum := if neg then SMALLEST_INT64 else LARGEST_INT64 in
      if 0 <? c then Some (2, pNum) else Some (if neg then rc else 3, pNum).

(** Each loop advances through the text: [length] turns are enough. *)
(* native/sqlite3/sqlite3.c:36293-36398 sqlite3Atoi64 *)
Definition sqlite3Atoi64 (z : bytes) (zNum length enc : Z) : option (Z * Z) :=
  let fuel := S (Z.to_nat length) in
  if enc =? SQLITE_UTF8 then atoi_core fuel z zNum (zNum + length) 1 false
  else
    let length := Z.land length (Z.lnot 1) in
    let* i := high_bytes fuel z zNum (3 - enc) length in
    atoi_core fuel z (zNum + Z.land enc 1) (zNum + Z.lxor i 1) 2 (i <? length).

(** The digits of a hexadecimal literal: at most as many as bytes left. *)
(* native/sqlite3/sqlite3.c:36420-36422 sqlite3DecOrHexToI64, the for loop *)
Fixpoint hex64_loop (fuel : nat) (z : bytes) (k u : Z) : option (Z * Z) :=
  match fuel with
  | O => None
  | S fuel =>
      let* c := rd z k in
      if sqlite3Isxdigit c then hex64_loop fuel z (k + 1) (u64 (u * 16 + sqlite3HexToInt c))
      else Some (u, k)
  end.

(** [strspn(z, "+- \n\t0123456789")]. *)
Fixpoint strspn_num (z : bytes) : option Z :=
  match z with
  | [] => None
  | c :: z =>
      if bool_decide (c ∈ [43; 45; 32; 10; 9; 48; 49; 50; 51; 52; 53; 54; 55; 56; 57])
      then let* n := strspn_num z in Some (n + 1) else Some 0
  end.

(* native/sqlite3/sqlite3.c:36400-36434 sqlite3DecOrHexToI64 *)
Definition sqlite3DecOrHexToI64 (z : bytes) : option (Z * Z) :=
  let* c0 := rd z 0 in
  let* hex := if c0 =? 48 then let* c1 := rd z 1 in Some ((c1 =? 120) || (c1 =? 88)) else Some false in
  if (hex : bool) then
    let* i := skip_while (λ c, c =? 48) (S (length z)) z 2 (Z.of_nat (length z)) 1 in
    let* (u, k) := hex64_loop (S (length z)) z i 0 in
    let* c := rd z k in
    Some (if 16 <? k - i then 2 else if negb (c =? 0) then 1 else 0, i64 u)
  else
    let* n := strspn_num z in
    let n := Z.land 0x3fffffff (i32 n) in
    let* c := rd z n in
    let n := if negb (c =? 0) then n + 1 else n in
    sqlite3Atoi64 z 0 n SQLITE_UTF8.

(** ** Text to 32-bit integers.  [z] is the text from the pointer on. *)

(* native/sqlite3/sqlite3.c:36464-36466 sqlite3GetInt32, the for loop *)
Fixpoint hex32_loop (n : nat) (z : bytes) (u : Z) : option (Z * bytes) :=
  match n with
  | O => Some (u, z)
  | S n =>
      match z with
      | [] => None
      | c :: z' => if sqlite3Isxdigit c then hex32_loop n z' (u32 (u * 16 + sqlite3HexToInt c))
                   else Some (u, z)
      end
  end.

Fixpoint skip_zeros (z : bytes) : option bytes :=
  match z with
  | [] => None
  | c :: z' => if c =? 48 then skip_zeros z' else Some z
  end.

(* native/sqlite3/sqlite3.c:36477-36479 sqlite3GetInt32, the for loop *)
Fixpoint dec32_loop (n : nat) (z : bytes) (v : Z) : option (Z * nat) :=
  match n with
  | O => Some (v, O)
  | S n =>
      match z with
      | [] => None
      | c :: z => if (0 <=? c - 48) && (c - 48 <=? 9)
                  then let* (v, i) := dec32_loop n z (v * 10 + (c - 48)) in Some (v, S i)
                  else Some (v, O)
      end
  end.

(** The decimal part: [Some None] is the return value 0. *)
(* native/sqlite3/sqlite3.c:36475-36498 sqlite3GetInt32 *)
Definition get_dec32 (neg : bool) (z : bytes) : option (option Z) :=
  match z with
  | [] => None
  | c :: _ =>
      if negb (sqlite3Isdigit c) then Some None else
      let* z := skip_zeros z in
      let* (v, i) := dec32_loop 11 z 0 in
      Some (if (10 <? i)%nat then None
            else if 2147483647 <? v - (if neg then 1 else 0) then None
            else Some (if neg then - v else v))
  end.

(* native/sqlite3/sqlite3.c:36436-36499 sqlite3GetInt32 *)
Definition sqlite3GetInt32 (z : bytes) : option (option Z) :=
  match z with
  | [] => None
  | c :: z' =>
      if c =? 45 then get_dec32 true z'
      else if c =? 43 then get_dec32 false z'
      else
        let* hex := if c =? 48 then
                      let* c1 := rd z 1 in
                      if (c1 =? 120) || (c1 =? 88) then let* c2 := rd z 2 in Some (sqlite3Isxdigit c2)
                      else Some false
                    else Some false in
        if (hex : bool) then
          let* z := skip_zeros (drop 2 z) in
          let* (u, z) := hex32_loop 8 z 0 in
          let* c := rd z 0 in
          Some (if (Z.land u 0x80000000 =? 0) && negb (sqlite3Isxdigit c) then Some u else None)
        else get_dec32 false z
  end.

(* native/sqlite3/sqlite3.c:36501-36509 sqlite3Atoi *)
Definition sqlite3Atoi (z : bytes) : option Z :=
  let* r := sqlite3GetInt32 z in Some (default 0 r).

(* native/sqlite3/sqlite3.c:36660-36663 sqlite3GetUInt32, the for loop *)
Fixpoint uint_loop (z : bytes) (v : Z) (i : nat) : option (option (Z * nat * bytes)) :=
  match z with
  | [] => None
  | c :: z' =>
      if sqlite3Isdigit c then
        let v := v * 10 + c - 48 in
        if 4294967296 <? v then Some None else uint_loop z' v (S i)
      else Some (Some (v, i, z))
  end.

(** The result and what is stored in [*pI]. *)
(* native/sqlite3/sqlite3.c:36651-36667 sqlite3GetUInt32 *)
Definition sqlite3GetUInt32 (z : bytes) : option (Z * Z) :=
  let* r := uint_loop z 0 O in
  match r with
  | None => Some (0, 0)
  | Some (v, i, z) =>
      let* c := rd z 0 in
      if (i =? 0)%nat || negb (c =? 0) then Some (0, 0) else Some (1, u32 v)
  end.

(** ** Arithmetic with overflow checks: the return value and the new [*pA] *)

(** The portable branches ([#else]); C's division truncates. *)
(* native/sqlite3/sqlite3.c:37089-37114 sqlite3AddInt64 *)
Definition sqlite3AddInt64 (iA iB : Z) : Z * Z :=
  if 0 <=? iB then
    if (0 <? iA) && (LARGEST_INT64 - iA <? iB) then (1, iA) else (0, i64 (iA + iB))
  else
    if (iA <? 0) && (iB + 1 <? - (iA + LARGEST_INT64)) then (1, iA) else (0, i64 (iA + iB)).

(* native/sqlite3/sqlite3.c:37115-37129 sqlite3SubInt64 *)
Definition sqlite3SubInt64 (iA iB : Z) : Z * Z :=
  if iB =? SMALLEST_INT64 then
    if 0 <=? iA then (1, iA) else (0, i64 (iA - iB))
  else sqlite3AddInt64 iA (- iB).

(* native/sqlite3/sqlite3.c:37130-37150 sqlite3MulInt64 *)
Definition sqlite3MulInt64 (iA iB : Z) : Z * Z :=
  let overflow :=
    if 0 <? iB then (Z.quot LARGEST_INT64 iB <? iA) || (iA <? Z.quot SMALLEST_INT64 iB)
    else if iB <? 0 then
      if 0 <? iA then iB <? Z.quot SMALLEST_INT64 iA
      else if iA <? 0 then
        (iB =? SMALLEST_INT64) || (iA =? SMALLEST_INT64) || (Z.quot LARGEST_INT64 (- iB) <? - iA)
      else false
    else false in
  if overflow then (1, iA) else (0, i64 (iA * iB)).

(* native/sqlite3/sqlite3.c:37152-37160 sqlite3AbsInt32 *)
Definition sqlite3AbsInt32 (x : Z) : Z :=
  if 0 <=? x then x else if x =? -2147483648 then 0x7fffffff else - x.

(** ** Logarithmic estimates (10 times the logarithm in base 2) *)

Definition logest_add_table : list Z :=
  [10; 10; 9; 9; 8; 8] ++ replicate 3 7 ++ replicate 3 6 ++ replicate 3 5 ++ replicate 4 4 ++
  replicate 6 3 ++ replicate 7 2.

(* native/sqlite3/sqlite3.c:37193-37220 sqlite3LogEstAdd *)
Definition sqlite3LogEstAdd (a b : Z) : option Z :=
  if b <=? a then
    if b + 49 <? a then Some a else if b + 31 <? a then Some (a + 1)
    else let* x := rd logest_add_table (a - b) in Some (a + x)
  else
    if a + 49 <? b then Some b else if a + 31 <? b then Some (b + 1)
    else let* x := rd logest_add_table (b - a) in Some (b + x).

Definition logest_table : list Z := [0; 2; 3; 5; 6; 7; 8; 9].

(* native/sqlite3/sqlite3.c:37231-37231 sqlite3LogEst *)
Fixpoint scale_up (fuel : nat) (x y : Z) : Z * Z :=
  match fuel with
  | O => (x, y)
  | S fuel => if x <? 8 then scale_up fuel (Z.shiftl x 1) (y - 10) else (x, y)
  end.

(* native/sqlite3/sqlite3.c:37238-37238 sqlite3LogEst *)
Fixpoint scale_down4 (fuel : nat) (x y : Z) : Z * Z :=
  match fuel with
  | O => (x, y)
  | S fuel => if 255 <? x then scale_down4 fuel (Z.shiftr x 4) (y + 40) else (x, y)
  end.

(* native/sqlite3/sqlite3.c:37239-37239 sqlite3LogEst *)
Fixpoint scale_down (fuel : nat) (x y : Z) : Z * Z :=
  match fuel with
  | O => (x, y)
  | S fuel => if 15 <? x then scale_down fuel (Z.shiftr x 1) (y + 10) else (x, y)
  end.

(** [portable] selects the branch for compilers without [__builtin_clzll]
    ([clz x] is 63 minus the position of the highest bit). *)
(* native/sqlite3/sqlite3.c:37222-37243 sqlite3LogEst *)
Definition sqlite3LogEst (portable : bool) (x : Z) : option Z :=
  let y := 40 in
  if (x <? 8) && (x <? 2) then Some 0 else
  let '(x, y) :=
    if x <? 8 then scale_up 3 x y
    else if portable then
      let '(x, y) := scale_down4 16 x y in scale_down 4 x y
    else
      let i := 60 - (63 - Z.log2 x) in
      (Z.shiftr x i, y + i * 10) in
  let* a := rd logest_table (Z.land x 7) in
  Some (a + y - 10).

(* native/sqlite3/sqlite3.c:37260-37271 sqlite3LogEstToInt *)
Definition sqlite3LogEstToInt (x : Z) : Z :=
  let n := u64 (Z.rem x 10) in
  let x := Z.quot x 10 in
  let n := if 5 <=? n then u64 (n - 2) else if 1 <=? n then u64 (n - 1) else n in
  if 60 <? x then LARGEST_INT64
  else if 3 <=? x then u64 (Z.shiftl (u64 (n + 8)) (x - 3))
  else Z.shiftr (u64 (n + 8)) (3 - x).

(** ** Integer to text *)

(** The text of an integer. *)
Definition text_of (v : Z) : bytes := (if v <? 0 then [45] else []) ++ decimal 20 (Z.abs v).

Lemma to_text_loop_spec fuel : ∀ (zTemp : list Z) i x,
  0 ≤ x < 10 ^ Z.of_nat fuel → (0 < fuel)%nat → Z.of_nat fuel ≤ i + 1 → i < Z.of_nat (length zTemp) →
  ∃ zTemp', to_text_loop fuel zTemp i x =
      Some (zTemp', i + 1 - Z.of_nat (length (decimal fuel x))) ∧
    zTemp' = take (Z.to_nat (i + 1) - length (decimal fuel x)) zTemp ++ decimal fuel x ++
      drop (Z.to_nat (i + 1)) zTemp.
Proof.
  induction fuel as [|fuel IH]; intros zTemp i x Hx Hpos Hi Hl; [lia|].
  cbn [to_text_loop decimal]. rewrite wr_Some by lia.
  set (z1 := <[Z.to_nat i := x `mod` 10 + 48]> zTemp).
  assert (drop (Z.to_nat i) z1 = (x `mod` 10 + 48) :: drop (Z.to_nat (i + 1)) zTemp) as Hd.
  { unfold z1. rewrite drop_insert_ge, Nat.sub_diag by lia.
    replace (Z.to_nat (i + 1)) with (S (Z.to_nat i)) by lia.
    destruct (drop (Z.to_nat i) zTemp) as [|y r] eqn:E.
    - apply (f_equal length) in E. rewrite length_drop in E. simpl in E. lia.
    - rewrite <- Nat.add_1_r, <- drop_drop, E. done. }
  assert (∀ n, (n ≤ Z.to_nat i)%nat → take n z1 = take n zTemp) as Ht.
  { intros n Hn. unfold z1. by rewrite take_insert_ge. }
  destruct (Z.ltb_spec x 10) as [Hlt|Hge].
  - rewrite Z.div_small by lia. cbn [Z.eqb length].
    exists z1. split; [do 2 f_equal; lia|].
    rewrite <- (take_drop (Z.to_nat i) z1), Hd, Ht, Z.mod_small by lia.
    cbn [app]. replace (Z.to_nat (i + 1) - 1)%nat with (Z.to_nat i) by lia.
    by replace (x + 48) with (48 + x) by lia.
  - assert (1 ≤ x `div` 10) as H1 by (apply Z.div_le_lower_bound; lia).
    rewrite (proj2 (Z.eqb_neq _ 0)) by lia.
    rewrite Nat2Z.inj_succ, Z.pow_succ_r in Hx by lia.
    assert (0 < fuel)%nat as Hf by (destruct fuel; [simpl in Hx|]; lia).
    destruct (IH z1 (i - 1) (x `div` 10)) as (z2 & E & Hz).
    + split; [lia|apply Z.div_lt_upper_bound; lia].
    + done.
    + lia.
    + unfold z1. rewrite length_insert. lia.
    + rewrite E. exists z2. rewrite length_app. cbn [length]. split; [do 2 f_equal; lia|].
      rewrite Hz. pose proof (decimal_length fuel (x `div` 10)).
      replace (i - 1 + 1) with i by lia. rewrite Hd, Ht by lia.
      replace (Z.to_nat i - length (decimal fuel (x `div` 10)))%nat with
        (Z.to_nat (i + 1) - (length (decimal fuel (x `div` 10)) + 1))%nat by lia.
      rewrite <- app_assoc. cbn [app]. by replace (x `mod` 10 + 48) with (48 + x `mod` 10) by lia.
Qed.

Lemma text_of_length v : is_i64 v → (0 < length (text_of v) ≤ 20)%nat.
Proof.
  intros Hv. unfold text_of. rewrite length_app.
  pose proof (decimal_short 19 20 (Z.abs v) ltac:(unfold is_i64 in Hv; simpl; lia) ltac:(lia)).
  pose proof (decimal_nonempty 20 (Z.abs v) ltac:(lia)).
  destruct (decimal 20 (Z.abs v)) eqn:E; [done|]. cbn [length] in *. case_match; simpl; lia.
Qed.

Lemma sub_app {A} (a b c : list A) i n : i = Z.of_nat (length a) → n = Z.of_nat (length b) →
  sub (a ++ b ++ c) i n = Some b.
Proof.
  intros -> ->. unfold sub. rewrite decide_True by (rewrite !length_app; lia).
  by rewrite !Nat2Z.id, drop_app_length, take_app_length.
Qed.

Lemma int64_to_text_spec v (zOut : list Z) : is_i64 v → (21 ≤ length zOut)%nat →
  sqlite3Int64ToText v zOut =
    Some (Z.of_nat (length (text_of v)),
          cstr (text_of v) ++ drop (S (length (text_of v))) zOut).
Proof.
  intros Hv Hz. unfold sqlite3Int64ToText. unfold is_i64 in Hv.
  set (x := if v <? 0 then _ else v). assert (x = Z.abs v) as Hx.
  { unfold x. destruct (Z.ltb_spec v 0); [|lia]. destruct (Z.eqb_spec v SMALLEST_INT64) as [->|].
    - done.
    - unfold SMALLEST_INT64 in *. unwrap. lia. }
  rewrite Hx. clear x Hx. change (wr (replicate 22 0) 21 0) with (Some (replicate 22 0)).
  destruct (to_text_loop_spec 20 (replicate 22 0) 20 (Z.abs v)) as (z1 & E & Hz1);
    [simpl; lia|lia|lia|simpl; lia|].
  rewrite E. pose proof (decimal_short 19 20 (Z.abs v) ltac:(simpl; lia) ltac:(lia)) as Hlen.
  set (ds := decimal 20 (Z.abs v)) in *.
  rewrite take_replicate, Nat.min_l in Hz1 by lia.
  change (drop (Z.to_nat (20 + 1)) (replicate 22 0)) with [0] in Hz1.
  replace (Z.to_nat (20 + 1) - length ds)%nat with (S (20 - length ds)) in Hz1 by lia.
  assert (∀ (pre s : bytes), text_of v = s → (length s ≤ 20)%nat → length pre = (21 - length s)%nat →
    (let* d := sub (pre ++ cstr s) (21 - Z.of_nat (length s)) (22 - (21 - Z.of_nat (length s))) in
     let* zOut := splice zOut 0 d in Some (21 - (21 - Z.of_nat (length s)), zOut)) =
    Some (Z.of_nat (length (text_of v)), cstr (text_of v) ++ drop (S (length (text_of v))) zOut)) as Hend.
  { intros pre s -> Hs Hp. pose proof (sub_app pre (cstr s) []) as Hsub. rewrite app_nil_r in Hsub.
    unfold cstr in *. rewrite Hsub by (rewrite ?length_app; simpl; lia). unfold splice.
    rewrite decide_True by (rewrite length_app; simpl; lia).
    rewrite length_app. cbn [length].
    replace (21 - (21 - Z.of_nat (length s))) with (Z.of_nat (length s)) by lia.
    replace (Z.to_nat 0 + (length s + 1))%nat with (S (length s)) by lia. done. }
  unfold text_of in Hend |- *. fold ds in Hend |- *.
  destruct (Z.ltb_spec v 0) as [Hneg|Hpos].
  - rewrite Hz1, replicate_S_end, <- app_assoc.
    assert (wr (replicate (20 - length ds) 0 ++ [0] ++ ds ++ [0]) (20 + 1 - Z.of_nat (length ds) - 1) 45
      = Some (replicate (20 - length ds) 0 ++ 45 :: ds ++ [0])) as ->.
    { replace (20 + 1 - Z.of_nat (length ds) - 1) with
        (Z.of_nat (length (replicate (20 - length ds) 0))) by (rewrite length_replicate; lia).
      apply wr_app_r. }
    replace (20 + 1 - Z.of_nat (length ds) - 1) with (21 - Z.of_nat (length (45 :: ds)))
      by (cbn [length]; lia).
    apply (Hend (replicate (20 - length ds) 0) (45 :: ds)); [done|simpl; lia|].
    rewrite length_replicate. simpl. lia.
  - rewrite Hz1. change (20 + 1) with 21.
    apply (Hend (replicate (S (20 - length ds)) 0) ds); [done|lia|]. rewrite length_replicate. lia.
Qed.

(** ** Text to integer: the specification *)

(** The number of leading elements satisfying [P]. *)
Fixpoint spanl (P : Z → bool) (l : list Z) : nat :=
  match l with [] => O | x :: l => if P x then S (spanl P l) else O end.

Definition is_digit (c : Z) : bool := (48 <=? c) && (c <=? 57).

Definition is_space (c : Z) : bool := (c =? 32) || ((9 <=? c) && (c <=? 13)).

(** An integer as the code reads it, on a list of characters - bytes, or the
    16-bit units of UTF-16: spaces, a sign, digits, and a rest that may only
    hold spaces.  The return code and the value: clamped to 64 bits with code
    2, or 3 for 2^63 itself. *)
Definition after_spaces (s : list Z) : list Z := drop (spanl is_space s) s.

Definition sign_of (s : list Z) : bool * list Z :=
  match s with
  | c :: s' => if c =? 45 then (true, s') else if c =? 43 then (false, s') else (false, s)
  | [] => (false, [])
  end.

Definition atoi_spec (s : list Z) : Z * Z :=
  let '(neg, s) := sign_of (after_spaces s) in
  let n := spanl is_digit s in
  let v := undecimal (take n s) 0 in
  let rc := if (n =? 0)%nat then -1 else if forallb is_space (drop n s) then 0 else 1 in
  if neg : bool
  then if v <=? 9223372036854775808 then (rc, - v) else (2, SMALLEST_INT64)
  else if v <=? LARGEST_INT64 then (rc, v)
  else if v =? 9223372036854775808 then (3, LARGEST_INT64) else (2, LARGEST_INT64).

(** What the code computes when it stops before a character that does not
    fit in a byte. *)
Definition atoi_cut (cut : bool) (s : list Z) : Z * Z :=
  let '(neg, s) := sign_of (after_spaces s) in
  let n := spanl is_digit s in
  let v := undecimal (take n s) 0 in
  let rc := if (n =? 0)%nat then -1 else if forallb is_space (drop n s) && negb cut then 0 else 1 in
  if neg : bool
  then if v <=? 9223372036854775808 then (rc, - v) else (2, SMALLEST_INT64)
  else if v <=? LARGEST_INT64 then (rc, v)
  else if v =? 9223372036854775808 then (3, LARGEST_INT64) else (2, LARGEST_INT64).

(** ** The loops on a text *)

Lemma isspace c : sqlite3Isspace c = is_space c.
Proof.
  destruct (decide (is_u8 c)) as [Hc|Hc]; [by destruct (ctype_spec c Hc) as (_ & -> & _)|].
  assert (rd sqlite3CtypeMap c = None) as E.
  { unfold rd, is_u8 in *. case_decide; [|done]. apply lookup_ge_None.
    change (length sqlite3CtypeMap) with 256%nat. lia. }
  unfold sqlite3Isspace, ctype, is_space, is_u8 in *. rewrite E. change (negb _) with false. lia.
Qed.

Lemma spanl_ext P Q l : (∀ x, P x = Q x) → spanl P l = spanl Q l.
Proof. intros H. induction l as [|x l IH]; cbn [spanl]; [done|]. by rewrite H, IH. Qed.

Lemma spanl_le P l : (spanl P l ≤ length l)%nat.
Proof. induction l as [|x l IH]; simpl; [lia|]. case_match; lia. Qed.

Lemma spanl_take P l : forallb P (take (spanl P l) l) = true.
Proof. induction l as [|x l IH]; simpl; [done|]. destruct (P x) eqn:E; simpl; [by rewrite E|done]. Qed.

Lemma spanl_stop P l x r : drop (spanl P l) l = x :: r → P x = false.
Proof.
  induction l as [|y l IH]; simpl; [done|]. destruct (P y) eqn:E; simpl; [auto|]. by intros [= <- _].
Qed.

(** A text [s] read with a stride from index [p0] of a buffer. *)
Section stride.
Context (z : bytes) (p0 incr : Z) (s : list Z).
Context (Hincr : 0 < incr).
Context (Hread : ∀ k c, s !! k = Some c → rd z (p0 + Z.of_nat k * incr) = Some c).

Abbreviation at_ k := (p0 + Z.of_nat k * incr).
Abbreviation zEnd := (p0 + Z.of_nat (length s) * incr).

Lemma at_lt k n : (at_ k <? at_ n) = (k <? n)%nat.
Proof.
  destruct (Nat.ltb_spec k n); [apply Z.ltb_lt|apply Z.ltb_ge]; nia.
Qed.

Lemma at_S k : at_ k + incr = at_ (S k).
Proof. lia. Qed.

Lemma skip_while_spec P fuel : ∀ k, (k ≤ length s)%nat → (length s - k < fuel)%nat →
  skip_while P fuel z (at_ k) zEnd incr = Some (at_ (k + spanl P (drop k s))).
Proof.
  induction fuel as [|fuel IH]; intros k Hk Hf; [lia|]. cbn [skip_while]. rewrite at_lt.
  destruct (Nat.ltb_spec k (length s)) as [Hlt|].
  - destruct (lookup_lt_is_Some_2 s k Hlt) as [c Hc]. rewrite (Hread k c Hc).
    rewrite (drop_S _ _ _ Hc). cbn [spanl]. destruct (P c).
    + rewrite at_S, IH by lia. do 2 f_equal. lia.
    + do 2 f_equal. lia.
  - rewrite drop_ge by lia. do 2 f_equal. simpl. lia.
Qed.

Lemma digits_loop_spec fuel : ∀ k j u, (k + j ≤ length s)%nat → (length s - (k + j) < fuel)%nat → 0 ≤ u →
  let n := spanl is_digit (drop (k + j) s) in
  digits_loop fuel z (at_ k) (Z.of_nat j * incr) zEnd incr (u64 u) =
    Some (u64 (undecimal (take n (drop (k + j) s)) u), Z.of_nat (j + n) * incr).
Proof.
  induction fuel as [|fuel IH]; intros k j u Hk Hf Hu; [lia|]. cbn [digits_loop].
  replace (at_ k + Z.of_nat j * incr) with (at_ (k + j)) by lia. rewrite at_lt.
  destruct (Nat.ltb_spec (k + j) (length s)) as [Hlt|].
  - destruct (lookup_lt_is_Some_2 s (k + j) Hlt) as [c Hc]. rewrite (Hread _ c Hc).
    rewrite (drop_S _ _ _ Hc). cbn [spanl]. change ((48 <=? c) && (c <=? 57)) with (is_digit c).
    destruct (is_digit c) eqn:Ed; cbn [take undecimal].
    + replace (Z.of_nat j * incr + incr) with (Z.of_nat (S j) * incr) by lia.
      replace (u64 (u64 u * 10 + c - 48)) with (u64 (10 * u + (c - 48))).
      2: { unfold u64. pose proof (Z.div_mod u 18446744073709551616 ltac:(lia)) as Hdm.
           set (q := u `div` _) in *. set (r := u mod _) in *.
           replace (10 * u + (c - 48)) with (r * 10 + c - 48 + 10 * q * 18446744073709551616) by lia.
           by rewrite Z_mod_plus_full. }
      rewrite IH by (unfold is_digit in Ed; lia). replace (k + S j)%nat with (S (k + j)) by lia.
      do 3 f_equal. lia.
    + do 2 f_equal. lia.
  - rewrite drop_ge by lia. simpl. do 2 f_equal. lia.
Qed.

Lemma trailing_spec rc fuel : ∀ k j, (k + j < length s)%nat → (length s - (k + j) ≤ fuel)%nat →
  trailing fuel z (at_ k) (Z.of_nat j * incr) zEnd incr rc =
    Some (if forallb is_space (drop (k + j) s) then rc else 1).
Proof.
  induction fuel as [|fuel IH]; intros k j Hk Hf; [lia|]. cbn [trailing].
  replace (at_ k + Z.of_nat j * incr) with (at_ (k + j)) by lia.
  destruct (lookup_lt_is_Some_2 s (k + j) Hk) as [c Hc]. rewrite (Hread _ c Hc).
  rewrite (drop_S _ _ _ Hc). cbn [forallb]. rewrite isspace. destruct (is_space c); [|done]. cbn [negb andb].
  replace (Z.of_nat j * incr + incr) with (Z.of_nat (S j) * incr) by lia.
  replace (at_ k + Z.of_nat (S j) * incr) with (at_ (S (k + j))) by lia. rewrite at_lt.
  destruct (Nat.ltb_spec (S (k + j)) (length s)).
  - rewrite IH by lia. by replace (k + S j)%nat with (S (k + j)) by lia.
  - by rewrite drop_ge by lia.
Qed.

(** Comparing digit strings of the same length. *)
Lemma pow63_loop_spec ds : ∀ k l, l = take (length ds) (drop k s) → length l = length ds →
  Forall (λ d, 48 ≤ d < 58) l → Forall (λ d, 48 ≤ d < 58) ds →
  ∃ c, pow63_loop z (at_ k) incr ds 0 = Some c ∧
    (c < 0 ↔ undecimal l 0 < undecimal ds 0) ∧ (c = 0 ↔ l = ds).
Proof.
  induction ds as [|d ds IH]; intros k l El Hlen Hl Hd.
  - destruct l; [|done]. exists 0. split; [done|]. by simpl.
  - destruct (lookup_lt_is_Some_2 s k) as [x Hx].
    { apply (f_equal length) in El. rewrite length_take, length_drop, Hlen in El. cbn [length] in El. lia. }
    rewrite (drop_S _ _ _ Hx) in El. cbn [length take] in El. subst l. cbn [length] in Hlen.
    cbn [pow63_loop Z.eqb]. rewrite (Hread _ _ Hx).
    apply Forall_cons in Hl as [Hx1 Hl], Hd as [Hd1 Hd]. cbn [undecimal].
    pose proof (undecimal_bounds _ (10 * 0 + (x - 48)) Hl ltac:(lia)) as B1.
    pose proof (undecimal_bounds _ (10 * 0 + (d - 48)) Hd ltac:(lia)) as B2.
    replace (length (take (length ds) (drop (S k) s))) with (length ds) in B1 by lia.
    assert (0 < 10 ^ Z.of_nat (length ds)) by (apply Z.pow_pos_nonneg; lia).
    destruct (Z.eq_dec x d) as [->|Hne].
    + rewrite Z.sub_diag, at_S. change (0 * 10) with 0.
      destruct (IH (S k) _ eq_refl ltac:(lia) Hl Hd) as (c & -> & Hc1 & Hc2). exists c.
      split; [done|]. split; [|rewrite Hc2; split; congruence].
      rewrite Hc1. set (r := take _ _) in *.
      assert (∀ a, length r = length ds → undecimal r a - undecimal ds a = undecimal r 0 - undecimal ds 0) as Hsh.
      { assert (∀ l a, undecimal l a = a * 10 ^ Z.of_nat (length l) + undecimal l 0) as Hu.
        { clear. induction l as [|y l IH]; intros a; cbn [undecimal length]; [simpl; lia|].
          rewrite IH, (IH (10 * 0 + _)), Nat2Z.inj_succ, Z.pow_succ_r by lia. lia. }
        intros a E. rewrite (Hu r a), (Hu ds a), E. lia. }
      specialize (Hsh (10 * 0 + (d - 48)) ltac:(lia)). lia.
    + exists ((x - d) * 10). split.
      { destruct ds; cbn [pow63_loop]; [done|]. by rewrite (proj2 (Z.eqb_neq _ 0)) by lia. }
      split; [|split; [lia|congruence]]. destruct (Z.lt_trichotomy x d) as [|[|]]; nia.
Qed.

Lemma compare2pow63_spec k l : l = take 19 (drop k s) → length l = 19%nat →
  Forall (λ d, 48 ≤ d < 58) l →
  ∃ c, compare2pow63 z (at_ k) incr = Some c ∧
    (c < 0 ↔ undecimal l 0 < 9223372036854775808) ∧ (c = 0 ↔ undecimal l 0 = 9223372036854775808).
Proof.
  intros El Hlen Hl. unfold compare2pow63.
  assert (length (drop k s) ≥ 19)%nat as Hd.
  { apply (f_equal length) in El. rewrite length_take in El. lia. }
  assert (l = take 18 (drop k s) ++ drop 18 l) as Hsplit.
  { rewrite <- (take_drop 18 l) at 1. f_equal. rewrite El, take_take. done. }
  assert (∃ y, drop 18 l = [y] ∧ s !! (k + 18)%nat = Some y) as (y & Ey & Hy).
  { destruct (lookup_lt_is_Some_2 s (k + 18)) as [y Hy]; [rewrite length_drop in Hd; lia|].
    exists y. split; [|done]. rewrite El, skipn_firstn_comm, drop_drop, (drop_S _ _ _ Hy). done. }
  rewrite Ey in Hsplit. set (a := take 18 (drop k s)) in *.
  assert (length a = 18)%nat as Hla by (unfold a; rewrite length_take; lia).
  rewrite Hsplit in Hl. apply Forall_app in Hl as [Hla' [Hly _]%Forall_cons].
  destruct (pow63_loop_spec pow63_text k a eq_refl Hla Hla') as (c & -> & Hc1 & Hc2);
    [unfold pow63_text; repeat constructor; lia|].
  assert (undecimal l 0 = 10 * undecimal a 0 + (y - 48)) as Hv.
  { rewrite Hsplit, undecimal_app. done. }
  change (undecimal pow63_text 0) with 922337203685477580 in Hc1.
  destruct (Z.eqb_spec c 0) as [->|Hc].
  - replace (at_ k + 18 * incr) with (at_ (k + 18)) by lia. rewrite (Hread _ _ Hy).
    exists (y - 56). split; [done|]. rewrite Hv, (proj1 Hc2 eq_refl).
    change (undecimal pow63_text 0) with 922337203685477580. lia.
  - exists c. split; [done|]. rewrite Hv.
    assert (undecimal a 0 ≠ 922337203685477580).
    { intros E. apply Hc, Hc2. assert (∀ l1 l2 x1 x2, length l1 = length l2 →
        Forall (λ d, 48 ≤ d < 58) l1 → Forall (λ d, 48 ≤ d < 58) l2 → 0 ≤ x1 → 0 ≤ x2 →
        undecimal l1 x1 = undecimal l2 x2 → x1 = x2 ∧ l1 = l2) as Hinj.
      { clear. induction l1 as [|d1 l1 IH]; intros [|d2 l2] x1 x2 Hl H1 H2 P1 P2 E;
          cbn [undecimal length] in *; try done.
        apply Forall_cons in H1 as [? H1], H2 as [? H2].
        destruct (IH l2 (10 * x1 + (d1 - 48)) (10 * x2 + (d2 - 48))) as [Ex ->]; try done; try lia.
        assert (x1 = x2 ∧ d1 = d2) as [-> ->]; [lia|done]. }
      apply (Hinj a pow63_text 0 0); try done; [|lia..].
      unfold pow63_text; repeat constructor; lia. }
    cbv beta in Hly. lia.
Qed.

Lemma spanl_split (P Q : Z → bool) l : (∀ x, Q x = true → P x = true) →
  spanl P l = (spanl Q l + spanl P (drop (spanl Q l) l))%nat.
Proof.
  intros H. induction l as [|x l IH]; [done|]. cbn [spanl]. destruct (Q x) eqn:E.
  - rewrite (H x E). cbn [drop]. lia.
  - done.
Qed.

Lemma undecimal_zeros l m n : forallb (λ c, c =? 48) (take m l) = true → (m ≤ length l)%nat →
  undecimal (take (m + n) l) 0 = undecimal (take n (drop m l)) 0.
Proof.
  revert l. induction m as [|m IH]; intros l H Hm; [done|].
  destruct l as [|x l]; [simpl in Hm; lia|]. simpl in H. apply andb_true_iff in H as [->%Z.eqb_eq H].
  cbn [Nat.add take drop undecimal]. simpl in Hm. by apply IH; [|lia].
Qed.

Lemma forallb_digits l : forallb is_digit l = true → Forall (λ d, 48 ≤ d < 58) l.
Proof.
  intros H. apply Forall_forall. intros d Hd%list_elem_of_In. rewrite forallb_forall in H.
  specialize (H d Hd). unfold is_digit in H. lia.
Qed.

Lemma atoi_core_spec fuel cut : (length s < fuel)%nat →
  atoi_core fuel z (at_ 0) zEnd incr cut = Some (atoi_cut cut s).
Proof.
  intros Hf. unfold atoi_core. rewrite skip_while_spec by lia. rewrite drop_0. cbn [Nat.add].
  rewrite (spanl_ext _ _ _ isspace).
  set (a := spanl is_space s). pose proof (spanl_le is_space s) as Ha. fold a in Ha.
  assert (∃ neg k, (if at_ a <? zEnd then
      let* c := rd z (at_ a) in
      Some (if c =? 45 then (true, at_ a + incr)
            else if c =? 43 then (false, at_ a + incr) else (false, at_ a))
    else Some (false, at_ a)) = Some (neg, at_ k) ∧ (k ≤ length s)%nat ∧
    sign_of (after_spaces s) = (neg, drop k s)) as (neg & k & -> & Hk & Hsign).
  { unfold after_spaces. fold a. rewrite at_lt. destruct (Nat.ltb_spec a (length s)) as [Hlt|].
    - destruct (lookup_lt_is_Some_2 s a Hlt) as [c Hc]. rewrite (Hread _ _ Hc), (drop_S _ _ _ Hc).
      unfold sign_of. rewrite at_S.
      destruct (c =? 45); [by exists true, (S a)|]. destruct (c =? 43); [by exists false, (S a)|].
      exists false, a. by rewrite (drop_S _ _ _ Hc).
    - exists false, a. by rewrite drop_ge by lia. }
  rewrite skip_while_spec by lia.
  set (m := spanl (λ c, c =? 48) (drop k s)).
  pose proof (spanl_le (λ c, c =? 48) (drop k s)) as Hm. fold m in Hm. rewrite length_drop in Hm.
  pose proof (digits_loop_spec fuel (k + m) 0 0 ltac:(lia) ltac:(lia) ltac:(lia)) as Hd.
  cbv zeta in Hd. rewrite Nat.add_0_r in Hd. change (Z.of_nat 0 * incr) with 0 in Hd.
  change (u64 0) with 0 in Hd. rewrite Hd. clear Hd. cbn [Nat.add].
  set (n := spanl is_digit (drop (k + m) s)). set (ds := take n (drop (k + m) s)).
  pose proof (spanl_le is_digit (drop (k + m) s)) as Hn. fold n in Hn. rewrite length_drop in Hn.
  assert (Forall (λ d, 48 ≤ d < 58) ds) as Hds by apply forallb_digits, spanl_take.
  assert (length ds = n) as Hlen by (unfold ds; rewrite length_take, length_drop; lia).
  assert (spanl is_digit (drop k s) = (m + n)%nat) as Hmn.
  { rewrite (spanl_split is_digit (λ c, c =? 48)).
    - fold m. by rewrite drop_drop.
    - intros x ->%Z.eqb_eq. done. }
  assert (undecimal (take (m + n) (drop k s)) 0 = undecimal ds 0) as Hval.
  { unfold ds. rewrite <- drop_drop. apply undecimal_zeros; [apply spanl_take|].
    rewrite length_drop. lia. }
  pose proof (undecimal_bounds ds 0 Hds ltac:(lia)) as Hb. rewrite Hlen, Z.mul_1_l in Hb.
  assert (n ≠ 0%nat → 10 ^ (Z.of_nat n - 1) ≤ undecimal ds 0) as Hlow.
  { intros Hn0. destruct ds as [|d ds'] eqn:Eds; [simpl in Hlen; lia|].
    apply Forall_cons in Hds as [Hd Hds]. cbn [undecimal].
    assert (d ≠ 48).
    { assert (∃ r, drop (k + m) s = d :: r) as [r Er].
      { unfold ds in Eds. destruct (drop (k + m) s); [by destruct n|]. destruct n; [done|].
        injection Eds as -> _. by eexists. }
      rewrite <- drop_drop in Er. apply spanl_stop in Er. lia. }
    pose proof (undecimal_bounds ds' (10 * 0 + (d - 48)) Hds ltac:(lia)) as Hb'.
    simpl in Hlen. replace (Z.of_nat n - 1) with (Z.of_nat (length ds')) by lia.
    assert (0 < 10 ^ Z.of_nat (length ds')) by (apply Z.pow_pos_nonneg; lia). nia. }
  set (v := undecimal ds 0) in *.
  assert ((if (Z.of_nat n * incr =? 0) && (at_ k =? at_ (k + m)) then Some (-1)
    else if cut then Some 1
    else if at_ (k + m) + Z.of_nat n * incr <? zEnd
    then trailing fuel z (at_ (k + m)) (Z.of_nat n * incr) zEnd incr 0 else Some 0) =
    Some (if (m + n =? 0)%nat then -1
          else if forallb is_space (drop (m + n) (drop k s)) && negb cut then 0 else 1)) as ->.
  { destruct (Nat.eqb_spec (m + n) 0) as [E|E].
    - assert (m = 0 ∧ n = 0)%nat as [-> ->] by lia. by rewrite Nat.add_0_r, !Z.eqb_refl.
    - replace ((Z.of_nat n * incr =? 0) && (at_ k =? at_ (k + m))) with false.
      2: { symmetry. apply andb_false_iff. destruct (decide (n = 0%nat)); [right|left]; apply Z.eqb_neq; nia. }
      destruct cut; [by rewrite andb_false_r|]. rewrite andb_true_r.
      replace (at_ (k + m) + Z.of_nat n * incr) with (at_ (k + m + n)) by lia. rewrite at_lt.
      rewrite drop_drop, Nat.add_assoc. destruct (Nat.ltb_spec (k + m + n) (length s)).
      + by rewrite trailing_spec by lia.
      + by rewrite drop_ge by lia. }
  unfold atoi_cut. rewrite Hsign, Hmn, Hval. fold v.
  set (rc := if (m + n =? 0)%nat then _ else _).
  replace (Z.of_nat n * incr <? 19 * incr) with (n <? 19)%nat
    by (destruct (Nat.ltb_spec n 19); symmetry; [apply Z.ltb_lt|apply Z.ltb_ge]; nia).
  replace (19 * incr <? Z.of_nat n * incr) with (19 <? n)%nat
    by (destruct (Nat.ltb_spec 19 n); symmetry; [apply Z.ltb_lt|apply Z.ltb_ge]; nia).
  unfold LARGEST_INT64, SMALLEST_INT64.
  destruct (Nat.ltb_spec n 19) as [Hn19|Hn19].
  { assert (v < 10 ^ 18) as Hv18.
    { eapply Z.lt_le_trans; [apply Hb|]. apply Z.pow_le_mono_r; lia. }
    rewrite (u64_id v) by (unfold is_u64; lia).
    rewrite (proj2 (Z.ltb_ge _ v)), (proj2 (Z.leb_le v _)), (proj2 (Z.leb_le v _)) by lia. by destruct neg. }
  destruct (Nat.ltb_spec 19 n) as [Hn20|Hn20].
  { assert (10 ^ 19 ≤ v) as Hv19.
    { transitivity (10 ^ (Z.of_nat n - 1)); [apply Z.pow_le_mono_r; lia|apply Hlow; lia]. }
    cbn [Z.ltb Z.compare]. rewrite (proj2 (Z.leb_gt v _)), (proj2 (Z.leb_gt v _)), (proj2 (Z.eqb_neq v _)) by lia.
    by destruct neg. }
  assert (n = 19%nat) as Hn' by lia.
  destruct (compare2pow63_spec (k + m) ds) as (c & -> & Hc1 & Hc2); [by unfold ds; rewrite Hn'|lia|done|].
  fold v in Hc1, Hc2. assert (v < 10 ^ 19) as Hv by (rewrite Hn' in Hb; apply Hb).
  rewrite (u64_id v) by (unfold is_u64; lia).
  destruct (Z.ltb_spec c 0).
  - rewrite (proj2 (Z.ltb_ge _ v)), (proj2 (Z.leb_le v _)), (proj2 (Z.leb_le v _)) by lia. by destruct neg.
  - destruct (Z.ltb_spec 0 c).
    + rewrite (proj2 (Z.leb_gt v _)), (proj2 (Z.leb_gt v _)), (proj2 (Z.eqb_neq v _)) by lia. by destruct neg.
    + assert (v = 9223372036854775808) as -> by (apply Hc2; lia). by destruct neg.
Qed.
End stride.

(** Nothing is lost by stopping where a character does not fit in a byte. *)
Lemma spanl_cut P l c r : P c = false → spanl P (l ++ c :: r) = spanl P l.
Proof. intros Hc. induction l as [|x l IH]; cbn [app spanl]; [by rewrite Hc|]. by rewrite IH. Qed.

Lemma sign_of_cut l c r : 45 < c →
  sign_of (l ++ c :: r) = let '(neg, t) := sign_of l in (neg, t ++ c :: r).
Proof.
  intros Hc. destruct l as [|x l]; cbn [app sign_of]; [|by repeat case_match].
  by rewrite (proj2 (Z.eqb_neq c 45)), (proj2 (Z.eqb_neq c 43)) by lia.
Qed.

Lemma atoi_cut_true l c r : 255 < c → atoi_cut true l = atoi_spec (l ++ c :: r).
Proof.
  intros Hc. assert (is_space c = false) as Hs by (unfold is_space; lia).
  assert (is_digit c = false) as Hd by (unfold is_digit; lia).
  unfold atoi_cut, atoi_spec, after_spaces. rewrite spanl_cut by done.
  pose proof (spanl_le is_space l). rewrite drop_app_le by done. rewrite sign_of_cut by lia.
  destruct (sign_of (drop _ l)) as [neg t]. rewrite spanl_cut by done. pose proof (spanl_le is_digit t).
  rewrite take_app_le, drop_app_le by done. rewrite forallb_app. cbn [forallb].
  by rewrite Hs, andb_false_r, andb_false_r.
Qed.

Lemma atoi_cut_false l : atoi_cut false l = atoi_spec l.
Proof.
  unfold atoi_cut, atoi_spec. destruct (sign_of _) as [neg t]. by rewrite andb_true_r.
Qed.

(** The text of an integer is read back as that integer, with code 0. *)
Lemma spanl_all P l : forallb P l = true → spanl P l = length l.
Proof.
  induction l as [|x l IH]; simpl; [done|]. intros [-> H]%andb_true_iff. by rewrite IH.
Qed.

Lemma atoi_spec_text v : is_i64 v → atoi_spec (text_of v) = (0, v).
Proof.
  intros Hv. unfold is_i64 in Hv. unfold atoi_spec, text_of, after_spaces.
  pose proof (decimal_nonempty 20 (Z.abs v) ltac:(lia)) as Hne.
  pose proof (decimal_digits 20 (Z.abs v) ltac:(lia)) as Hds.
  pose proof (undecimal_decimal 20 (Z.abs v) ltac:(simpl; lia)) as Hval.
  set (ds := decimal 20 (Z.abs v)) in *.
  assert (forallb is_digit ds = true) as Hd.
  { apply forallb_forall. intros d Hd%list_elem_of_In. rewrite Forall_forall in Hds.
    specialize (Hds d Hd). unfold is_digit. lia. }
  assert (∀ c r, ds = c :: r → is_space c = false ∧ c ≠ 45 ∧ c ≠ 43) as Hc.
  { intros c r ->. apply Forall_cons in Hds as [Hc _].
    unfold is_space. lia. }
  assert (spanl is_space ((if v <? 0 then [45] else []) ++ ds) = 0%nat) as ->.
  { destruct (v <? 0); [done|]. cbn [app]. destruct ds as [|c r]; [done|]. simpl.
    by destruct (Hc c r eq_refl) as [-> _]. }
  assert (sign_of ((if v <? 0 then [45] else []) ++ ds) = (v <? 0, ds)) as Hs.
  { destruct (v <? 0); [done|]. cbn [app]. destruct ds as [|c r]; [done|]. unfold sign_of.
    destruct (Hc c r eq_refl) as (_ & H1 & H2).
    by rewrite (proj2 (Z.eqb_neq c 45)), (proj2 (Z.eqb_neq c 43)) by done. }
  rewrite drop_0, Hs, spanl_all, firstn_all, drop_all, Hval by done.
  rewrite (proj2 (Nat.eqb_neq _ 0)) by (by destruct ds). cbn [forallb].
  unfold LARGEST_INT64. destruct (Z.ltb_spec v 0).
  - rewrite (proj2 (Z.leb_le _ _)) by lia. f_equal. lia.
  - rewrite (proj2 (Z.leb_le _ _)) by lia. f_equal. lia.
Qed.

(** The 16-bit units [us] as UTF-16 text, low byte first or high byte first. *)
Definition utf16 (enc : Z) (us : list Z) : bytes :=
  flat_map (λ u, if enc =? SQLITE_UTF16LE then [u `mod` 256; u `div` 256] else [u `div` 256; u `mod` 256]) us.

Lemma utf16_length enc us : length (utf16 enc us) = (2 * length us)%nat.
Proof. induction us as [|c s IH]; [done|]. simpl. rewrite length_app, IH. case_match; simpl; lia. Qed.

Lemma lookup_utf16 enc us : ∀ k u, us !! k = Some u →
  utf16 enc us !! (2 * k + (if (enc =? SQLITE_UTF16LE)%Z then 0 else 1))%nat = Some (u `mod` 256) ∧
  utf16 enc us !! (2 * k + (if (enc =? SQLITE_UTF16LE)%Z then 1 else 0))%nat = Some (u `div` 256).
Proof.
  induction us as [|x us IH]; intros [|k] u H; [done..| |].
  - injection H as ->. simpl. by destruct (enc =? SQLITE_UTF16LE).
  - destruct (IH k u H) as [H1 H2]. simpl utf16.
    replace (2 * S k)%nat with (S (S (2 * k))) by lia. by destruct (enc =? SQLITE_UTF16LE).
Qed.

(** A read inside the middle of a buffer. *)
Lemma rd_middle (pre : list Z) m post k c i :
  m !! k = Some c → i = Z.of_nat (length pre) + Z.of_nat k → rd (pre ++ m ++ post) i = Some c.
Proof.
  intros H ->. unfold rd. rewrite decide_True by lia.
  rewrite lookup_app_r by lia. replace (_ - length pre)%nat with k by lia.
  by apply lookup_app_l_Some.
Qed.

(** The units before the first one with a high byte. *)
Definition in_byte (u : Z) : bool := u <? 256.

Lemma spanl_lookup P l k x : (k < spanl P l)%nat → l !! k = Some x → P x = true.
Proof.
  intros Hk Hx. pose proof (spanl_take P l) as H. rewrite forallb_forall in H. apply H, list_elem_of_In.
  apply list_elem_of_lookup. exists k. by rewrite lookup_take, decide_True.
Qed.

Lemma high_bytes_spec pre us post enc fuel : ∀ k,
  enc = SQLITE_UTF16LE ∨ enc = SQLITE_UTF16BE → Forall (λ u, 0 ≤ u) us →
  (k ≤ spanl in_byte us)%nat → (length us - k < fuel)%nat →
  high_bytes fuel (pre ++ utf16 enc us ++ post) (Z.of_nat (length pre)) (3 - enc + 2 * Z.of_nat k)
    (2 * Z.of_nat (length us)) = Some (3 - enc + 2 * Z.of_nat (spanl in_byte us)).
Proof.
  induction fuel as [|fuel IH]; intros k He Hu Hk Hf; [lia|]. cbn [high_bytes].
  pose proof (spanl_le in_byte us) as Hle. unfold SQLITE_UTF16LE, SQLITE_UTF16BE in *.
  destruct (Z.ltb_spec (3 - enc + 2 * Z.of_nat k) (2 * Z.of_nat (length us))); [|do 2 f_equal; lia].
  destruct (lookup_lt_is_Some_2 us k ltac:(lia)) as [u Hx].
  destruct (lookup_utf16 enc us k u Hx) as [_ H0].
  rewrite (rd_middle pre _ post _ _ _ H0)
    by (unfold SQLITE_UTF16LE; destruct He as [-> | ->]; cbn [Z.eqb Pos.eqb]; lia).
  pose proof (proj1 (Forall_lookup _ _) Hu k u Hx) as Hpos. cbv beta in Hpos.
  destruct (decide (k < spanl in_byte us)%nat) as [Hlt|Hge].
  - pose proof (spanl_lookup _ _ _ _ Hlt Hx) as Hb. unfold in_byte in Hb.
    rewrite Z.div_small by lia.
    replace (3 - enc + 2 * Z.of_nat k + 2) with (3 - enc + 2 * Z.of_nat (S k)) by lia.
    rewrite Z.eqb_refl. apply IH; lia || done.
  - assert (k = spanl in_byte us) as -> by lia.
    pose proof (spanl_stop in_byte us u (drop (S (spanl in_byte us)) us) (drop_S _ _ _ Hx)) as Hb.
    unfold in_byte in Hb. pose proof (Z.div_le_lower_bound u 256 1 ltac:(lia) ltac:(lia)).
    by rewrite (proj2 (Z.eqb_neq (u `div` 256) 0)) by lia.
Qed.

Lemma lxor_even n : Z.lxor (2 * n) 1 = 2 * n + 1.
Proof.
  symmetry. apply Z.add_nocarry_lxor. change 1 with (Z.ones 1).
  by rewrite Z.land_ones, Z.mul_comm, Z_mod_mult by lia.
Qed.

Lemma lxor_odd n : Z.lxor (2 * n + 1) 1 = 2 * n.
Proof. by rewrite <- lxor_even, Z.lxor_assoc, Z.lxor_nilpotent, Z.lxor_0_r. Qed.

Lemma clear_low n odd : 0 ≤ odd ≤ 1 → Z.land (2 * n + odd) (Z.lnot 1) = 2 * n.
Proof.
  intros Ho. rewrite <- Z.ldiff_land. change 1 with (Z.ones 1). rewrite Z.ldiff_ones_r by lia.
  rewrite Z.shiftr_div_pow2, Z.shiftl_mul_pow2 by lia. change (2 ^ 1) with 2.
  rewrite Z.mul_comm, (Z.mul_comm 2 n), Z.div_add_l by lia. rewrite (Z.div_small odd) by lia. lia.
Qed.

Lemma atoi64_utf8 pre s post :
  sqlite3Atoi64 (pre ++ s ++ post) (Z.of_nat (length pre)) (Z.of_nat (length s)) SQLITE_UTF8 = Some (atoi_spec s).
Proof.
  unfold sqlite3Atoi64. rewrite Z.eqb_refl.
  pose proof (atoi_core_spec (pre ++ s ++ post) (Z.of_nat (length pre)) 1 s ltac:(lia)) as H.
  replace (Z.of_nat (length pre) + Z.of_nat 0 * 1) with (Z.of_nat (length pre)) in H by lia.
  rewrite Z.mul_1_r in H. rewrite H; [by rewrite atoi_cut_false| |lia].
  intros k c Hk. eapply rd_middle; [exact Hk|lia].
Qed.

(** The part of the units that is read, and whether it is cut. *)
Lemma narrow_spec us (h := spanl in_byte us) :
  atoi_cut (h <? length us)%nat (take h us) = atoi_spec us.
Proof.
  pose proof (spanl_le in_byte us) as Hh. fold h in Hh. destruct (Nat.ltb_spec h (length us)) as [Hlt|Hge].
  - destruct (lookup_lt_is_Some_2 us h Hlt) as [u Hu]. pose proof (drop_S _ _ _ Hu) as Hd.
    rewrite <- (take_drop h us) at 2. rewrite Hd. apply atoi_cut_true.
    pose proof (spanl_stop in_byte us u _ Hd) as Hb. unfold in_byte in Hb. lia.
  - rewrite take_ge by lia. apply atoi_cut_false.
Qed.

Lemma atoi64_utf16 pre us post enc odd :
  enc = SQLITE_UTF16LE ∨ enc = SQLITE_UTF16BE → Forall (λ u, 0 ≤ u) us → 0 ≤ odd ≤ 1 →
  sqlite3Atoi64 (pre ++ utf16 enc us ++ post) (Z.of_nat (length pre)) (Z.of_nat (length (utf16 enc us)) + odd) enc =
    Some (atoi_spec us).
Proof.
  intros He Hu Ho. unfold sqlite3Atoi64. rewrite utf16_length.
  replace (Z.of_nat (2 * length us)) with (2 * Z.of_nat (length us)) by lia.
  assert ((enc =? SQLITE_UTF8) = false) as -> by (destruct He as [-> | ->]; done). rewrite clear_low by done.
  set (fuel := S (Z.to_nat _)). assert (length us < fuel)%nat as Hfuel by (unfold fuel; lia).
  pose proof (high_bytes_spec pre us post enc fuel 0 He Hu ltac:(lia) ltac:(lia)) as Hh.
  rewrite Z.mul_0_r, Z.add_0_r in Hh. rewrite Hh. clear Hh.
  set (h := spanl in_byte us). pose proof (spanl_le in_byte us) as Hle. fold h in Hle.
  assert ((3 - enc + 2 * Z.of_nat h <? 2 * Z.of_nat (length us)) = (h <? length us)%nat) as ->.
  { unfold SQLITE_UTF16LE, SQLITE_UTF16BE in He.
    destruct (Nat.ltb_spec h (length us)); [apply Z.ltb_lt|apply Z.ltb_ge]; lia. }
  set (par := Z.land enc 1).
  assert (par = (if enc =? SQLITE_UTF16LE then 0 else 1) ∧
    Z.lxor (3 - enc + 2 * Z.of_nat h) 1 = par + Z.of_nat h * 2) as [Hpar ->].
  { unfold par. destruct He as [-> | ->]; (split; [done|]); unfold SQLITE_UTF16LE, SQLITE_UTF16BE.
    - change (3 - 2) with 1. rewrite Z.add_comm, lxor_odd. change (Z.land 2 1) with 0. lia.
    - change (3 - 3) with 0. rewrite Z.add_0_l, lxor_even. change (Z.land 3 1) with 1. lia. }
  pose proof (atoi_core_spec (pre ++ utf16 enc us ++ post) (Z.of_nat (length pre) + par) 2 (take h us) ltac:(lia)) as H.
  rewrite length_take_le in H by done.
  replace (Z.of_nat (length pre) + par + Z.of_nat 0 * 2) with (Z.of_nat (length pre) + par) in H by lia.
  rewrite Z.add_assoc. rewrite H; [f_equal; apply narrow_spec| |lia].
  intros k c Hk. apply lookup_take_Some in Hk as [Hk Hkh]. destruct (lookup_utf16 enc us k c Hk) as [H1 _].
  pose proof (spanl_lookup _ _ _ _ Hkh Hk) as Hb. unfold in_byte in Hb.
  pose proof (proj1 (Forall_lookup _ _) Hu k c Hk) as Hpos. cbv beta in Hpos.
  rewrite Z.mod_small in H1 by lia. eapply rd_middle; [exact H1|]. rewrite Hpar. destruct (enc =? SQLITE_UTF16LE); lia.
Qed.

(** C38: reading an integer from text of any of the three encodings stays
    inside the text and computes the specification: the value of the digits
    with its sign, clamped to 64 bits, and a code that tells success, no
    digits, text after the number, overflow and exactly 2^63 apart.  The
    characters of UTF-16 text are any 16-bit units, those with a high byte
    included, and an odd byte at its end does not count. *)
Theorem atoi64_spec pre s post enc odd :
  enc = SQLITE_UTF8 ∨ enc = SQLITE_UTF16LE ∨ enc = SQLITE_UTF16BE →
  Forall (λ c, 0 ≤ c < if enc =? SQLITE_UTF8 then 256 else 65536) s →
  0 ≤ odd ≤ (if enc =? SQLITE_UTF8 then 0 else 1) →
  let txt := if enc =? SQLITE_UTF8 then s else utf16 enc s in
  sqlite3Atoi64 (pre ++ txt ++ post) (Z.of_nat (length pre)) (Z.of_nat (length txt) + odd) enc =
    Some (atoi_spec s).
Proof.
  intros He Hs Ho txt. unfold txt. clear txt. destruct (Z.eqb_spec enc SQLITE_UTF8) as [->|Hne].
  - replace odd with 0 by lia. rewrite Z.add_0_r. apply atoi64_utf8.
  - apply atoi64_utf16; [tauto| |done]. eapply Forall_impl; [exact Hs|]. cbv beta. lia.
Qed.

(** The digits end at a letter of another script (U+0661), whose low byte is
    that of a letter. *)
Lemma atoi64_spec_witness :
  let s := [32; 45; 49; 50; 0x661] in
  (Forall (λ c, 0 ≤ c < 65536) s ∧ 0 ≤ 1 ≤ 1) ∧
  sqlite3Atoi64 ([7] ++ utf16 SQLITE_UTF16BE s ++ [0]) 1 11 SQLITE_UTF16BE = Some (1, -12).
Proof.
  intros s. assert (Forall (λ c, 0 ≤ c < 65536) s) as H by (repeat constructor; lia).
  assert (0 ≤ 1 ≤ 1) as H1 by lia. split; [split; [exact H|exact H1]|].
  exact (atoi64_spec [7] s [0] SQLITE_UTF16BE 1 (or_intror (or_intror eq_refl)) H H1).
Defined.

(** Writing a 64-bit integer as text and reading the text back gives the
    integer, with the code for success; at most 20 characters and the
    terminator are stored. *)
Theorem int64_text_roundtrip v zOut :
  is_i64 v → (21 ≤ length zOut)%nat →
  ∃ n zOut', sqlite3Int64ToText v zOut = Some (n, zOut') ∧ 0 < n ≤ 20 ∧ length zOut' = length zOut ∧
    rd zOut' n = Some 0 ∧ sqlite3Atoi64 zOut' 0 n SQLITE_UTF8 = Some (0, v).
Proof.
  intros Hv Hz. pose proof (text_of_length v Hv) as Hl.
  eexists _, _. split; [by apply int64_to_text_spec|].
  split; [lia|]. split.
  { unfold cstr. rewrite !length_app, length_drop. simpl. lia. }
  unfold cstr. rewrite <- app_assoc. cbn [app]. split; [by rewrite rd_app_r|].
  pose proof (atoi64_utf8 [] (text_of v) (0 :: drop (S (length (text_of v))) zOut)) as H.
  cbn [app length] in H. change (Z.of_nat 0) with 0 in H. by rewrite H, atoi_spec_text.
Qed.

Lemma int64_text_roundtrip_witness : ∃ z,
  sqlite3Int64ToText SMALLEST_INT64 (replicate 21 7) = Some (20, z) ∧
  sqlite3Atoi64 z 0 20 SQLITE_UTF8 = Some (0, SMALLEST_INT64).
Proof.
  destruct (int64_text_roundtrip SMALLEST_INT64 (replicate 21 7)
    ltac:(unfold is_i64, SMALLEST_INT64; lia) ltac:(simpl; lia)) as (n & z & E & _ & _ & _ & H).
  assert (n = 20) as ->; [vm_compute in E; by injection E|].
  exists z. split; [exact E|exact H].
Defined.

(** ** Arithmetic *)

(** Addition, subtraction and multiplication report overflow exactly when
    the mathematical result does not fit in 64 bits, leaving the operand alone,
    and otherwise store the mathematical result. *)
Theorem checked_arithmetic a b :
  is_i64 a → is_i64 b →
  sqlite3AddInt64 a b = (if decide (is_i64 (a + b)) then (0, a + b) else (1, a)) ∧
  sqlite3SubInt64 a b = (if decide (is_i64 (a - b)) then (0, a - b) else (1, a)) ∧
  sqlite3MulInt64 a b = (if decide (is_i64 (a * b)) then (0, a * b) else (1, a)).
Proof.
  intros Ha Hb. unfold is_i64 in Ha, Hb.
  assert (∀ c, -9223372036854775807 ≤ c < 9223372036854775808 ∨ c = b →
    sqlite3AddInt64 a c = (if decide (is_i64 (a + c)) then (0, a + c) else (1, a))) as Hadd.
  { intros c Hc. unfold sqlite3AddInt64, LARGEST_INT64.
    destruct (Z.leb_spec 0 c).
    - destruct (Z.ltb_spec 0 a), (Z.ltb_spec (9223372036854775807 - a) c); simpl; case_decide;
        unfold is_i64 in *; unwrap; done || lia.
    - destruct (Z.ltb_spec a 0), (Z.ltb_spec (c + 1) (- (a + 9223372036854775807))); simpl; case_decide;
        unfold is_i64 in *; unwrap; done || lia. }
  split; [apply Hadd; auto|]. split.
  - unfold sqlite3SubInt64, SMALLEST_INT64. destruct (Z.eqb_spec b (-9223372036854775808)) as [->|].
    + destruct (Z.leb_spec 0 a); case_decide; unfold is_i64 in *; unwrap; done || lia.
    + rewrite Hadd by lia. by rewrite Z.add_opp_r.
  - unfold sqlite3MulInt64, LARGEST_INT64, SMALLEST_INT64.
    match goal with |- context [if ?o then (1, a) else _] => set (ov := o) end.
    assert (ov = true ↔ ¬ is_i64 (a * b)) as Hov.
    { unfold ov, is_i64. destruct (Z.ltb_spec 0 b); [|destruct (Z.ltb_spec b 0)].
      - rewrite (Z.quot_div_nonneg 9223372036854775807 b) by lia.
        replace (-9223372036854775808) with (- (9223372036854775808)) by lia.
        rewrite Z.quot_opp_l, (Z.quot_div_nonneg 9223372036854775808 b) by lia.
        pose proof (Z.div_mod 9223372036854775807 b ltac:(lia)).
        pose proof (Z.mod_pos_bound 9223372036854775807 b ltac:(lia)).
        pose proof (Z.div_mod 9223372036854775808 b ltac:(lia)).
        pose proof (Z.mod_pos_bound 9223372036854775808 b ltac:(lia)).
        rewrite orb_true_iff, !Z.ltb_lt. nia.
      - destruct (Z.ltb_spec 0 a); [|destruct (Z.ltb_spec a 0)].
        + replace (-9223372036854775808) with (- (9223372036854775808)) by lia.
          rewrite Z.quot_opp_l, (Z.quot_div_nonneg 9223372036854775808 a) by lia.
          pose proof (Z.div_mod 9223372036854775808 a ltac:(lia)).
          pose proof (Z.mod_pos_bound 9223372036854775808 a ltac:(lia)).
          rewrite Z.ltb_lt. nia.
        + rewrite (Z.quot_div_nonneg 9223372036854775807 (- b)) by lia.
          pose proof (Z.div_mod 9223372036854775807 (- b) ltac:(lia)).
          pose proof (Z.mod_pos_bound 9223372036854775807 (- b) ltac:(lia)).
          rewrite !orb_true_iff, !Z.eqb_eq, Z.ltb_lt. nia.
        + assert (a = 0) as -> by lia. split; [done|lia].
      - assert (b = 0) as -> by lia. rewrite Z.mul_0_r. split; [done|lia]. }
    clearbody ov. destruct ov, (decide (is_i64 (a * b))) as [Hd|Hd]; [|done| |].
    + exfalso. by apply Hov.
    + by rewrite i64_id.
    + by apply Hov in Hd.
Qed.

Lemma checked_arithmetic_witness :
  sqlite3MulInt64 4294967296 2147483648 = (1, 4294967296) ∧ sqlite3SubInt64 (-1) SMALLEST_INT64 = (0, LARGEST_INT64).
Proof.
  destruct (checked_arithmetic 4294967296 2147483648 ltac:(unfold is_i64; lia) ltac:(unfold is_i64; lia))
    as (_ & _ & ->).
  destruct (checked_arithmetic (-1) SMALLEST_INT64 ltac:(unfold is_i64; lia)
    ltac:(unfold is_i64, SMALLEST_INT64; lia)) as (_ & -> & _).
  split; reflexivity.
Defined.

(** ** 32-bit integers *)

Definition is_xdigit (c : Z) : bool := sqlite3Isxdigit c.

(** The value of hexadecimal digits. *)
Fixpoint unhex (l : list Z) (acc : Z) : Z :=
  match l with [] => acc | c :: l => unhex l (16 * acc + sqlite3HexToInt c) end.

Definition dec32_spec (neg : bool) (s : list Z) : option Z :=
  let n := spanl is_digit s in
  let v := undecimal (take n s) 0 in
  if (n =? 0)%nat then None
  else if decide (is_i32 (if neg then - v else v)) then Some (if neg then - v else v) else None.

Definition hex32_spec (s : list Z) : option Z :=
  let v := unhex (take (spanl is_xdigit s) s) 0 in
  if v <? 2147483648 then Some v else None.

(** A 32-bit integer, decimal with an optional sign or hexadecimal without;
    what follows the digits is ignored. *)
Definition getint32_spec (s : list Z) : option Z :=
  match s with
  | c :: s' =>
      if c =? 45 then dec32_spec true s' else if c =? 43 then dec32_spec false s'
      else match s with
           | z0 :: x :: d :: r =>
               if (z0 =? 48) && ((x =? 120) || (x =? 88)) && is_xdigit d then hex32_spec (d :: r)
               else dec32_spec false s
           | _ => dec32_spec false s
           end
  | [] => None
  end.

Lemma skip_zeros_spec s r : skip_zeros (cstr s ++ r) = Some (cstr (drop (spanl (λ c, c =? 48) s) s) ++ r).
Proof.
  unfold cstr. induction s as [|c s IH]; [done|]. cbn [app skip_zeros spanl].
  destruct (c =? 48); [apply IH|done].
Qed.

Lemma dec32_loop_spec n : ∀ s r v, text s →
  dec32_loop n (cstr s ++ r) v =
    let k := Nat.min n (spanl is_digit s) in Some (undecimal (take k s) v, k).
Proof.
  unfold cstr. induction n as [|n IH]; intros [|c s] r v Hs; [done..| |].
  - cbn [app dec32_loop spanl]. done.
  - cbn [app dec32_loop spanl]. apply text_cons in Hs as [Hc Hs].
    replace ((0 <=? c - 48) && (c - 48 <=? 9)) with (is_digit c) by (unfold is_digit; lia).
    destruct (is_digit c); [|done]. rewrite IH by done. cbn [Nat.min take undecimal].
    do 3 f_equal. lia.
Qed.

Lemma text_drop n s : text s → text (drop n s).
Proof. apply Forall_drop. Qed.

Lemma is_digit_ctype c : is_u8 c → sqlite3Isdigit c = is_digit c.
Proof. intros Hc. by destruct (ctype_spec c Hc) as [-> _]. Qed.

(** A digit string that starts with a digit other than 0 is at least a power of ten. *)
Lemma undecimal_lead d l : Forall (λ d, 48 ≤ d < 58) (d :: l) → d ≠ 48 →
  10 ^ Z.of_nat (length l) ≤ undecimal (d :: l) 0.
Proof.
  intros [Hd Hl]%Forall_cons Hne. cbn [undecimal].
  pose proof (undecimal_bounds l (10 * 0 + (d - 48)) Hl ltac:(lia)).
  assert (0 < 10 ^ Z.of_nat (length l)) by (apply Z.pow_pos_nonneg; lia). nia.
Qed.

Lemma get_dec32_spec neg s r : text s → get_dec32 neg (cstr s ++ r) = Some (dec32_spec neg s).
Proof.
  intros Hs. unfold get_dec32, dec32_spec.
  destruct s as [|c s].
  { unfold cstr. cbn [app]. done. }
  assert (is_u8 c) as Hc by (apply text_cons in Hs as [? _]; unfold is_u8; lia).
  unfold cstr at 1. cbn [app]. rewrite is_digit_ctype by done.
  destruct (is_digit c) eqn:Ec; cbn [negb]; [|by cbn [spanl]; rewrite Ec].
  change (c :: (s ++ [0]) ++ r) with (cstr (c :: s) ++ r).
  assert (spanl is_digit (c :: s) ≠ 0%nat) as Hn0 by (simpl; by rewrite Ec).
  revert Hs Hn0. generalize (c :: s). clear c s Hc Ec. intros s Hs Hn0.
  rewrite skip_zeros_spec. set (m := spanl (λ c, c =? 48) s).
  rewrite dec32_loop_spec by (by apply text_drop).
  assert (spanl is_digit s = m + spanl is_digit (drop m s))%nat as Hmn.
  { apply spanl_split. by intros x ->%Z.eqb_eq. }
  set (n := spanl is_digit (drop m s)) in *. cbv zeta.
  rewrite (proj2 (Nat.eqb_neq _ 0)) by done. rewrite Hmn.
  rewrite undecimal_zeros by (apply spanl_take || apply spanl_le).
  assert (Forall (λ d, 48 ≤ d < 58) (take n (drop m s))) as Hds by apply forallb_digits, spanl_take.
  pose proof (undecimal_bounds _ 0 Hds ltac:(lia)) as Hb.
  assert (length (take n (drop m s)) = n) as Hlen by (rewrite length_take; pose proof (spanl_le is_digit (drop m s)); lia).
  destruct (Nat.ltb_spec 10 n) as [Hbig|Hsmall].
  - rewrite (proj2 (Nat.ltb_lt 10 _)) by lia. rewrite decide_False; [done|].
    destruct (take n (drop m s)) as [|d l] eqn:El; [simpl in Hlen; lia|].
    assert (d ≠ 48).
    { destruct (drop m s) as [|x l'] eqn:Ed; [by destruct n|]. destruct n; [done|].
      injection El as -> _. apply spanl_stop in Ed. lia. }
    pose proof (undecimal_lead d l Hds ltac:(done)) as Hlow. simpl in Hlen.
    assert (10 ^ 10 ≤ 10 ^ Z.of_nat (length l)) by (apply Z.pow_le_mono_r; lia).
    unfold is_i32. destruct neg; lia.
  - rewrite Nat.min_r by lia. rewrite (proj2 (Nat.ltb_ge 10 n)) by lia.
    destruct (Z.ltb_spec 2147483647 (undecimal (take n (drop m s)) 0 - (if neg then 1 else 0))).
    + rewrite decide_False; [done|]. unfold is_i32. destruct neg; lia.
    + rewrite decide_True; [done|]. unfold is_i32. destruct neg; lia.
Qed.

Lemma xdigit_value c : is_u8 c → sqlite3Isxdigit c = true → 0 ≤ sqlite3HexToInt c < 16.
Proof.
  intros Hc Hx.
  pose proof (all_bytes (λ c, negb (sqlite3Isxdigit c) || ((0 <=? sqlite3HexToInt c) && (sqlite3HexToInt c <? 16)))
    ltac:(by vm_compute) c Hc) as H. cbv beta in H. rewrite Hx in H. simpl in H. lia.
Qed.

Lemma hex32_loop_spec n : ∀ s r u, text s → 0 ≤ u → (u + 1) * 16 ^ Z.of_nat n ≤ 4294967296 →
  let k := Nat.min n (spanl is_xdigit s) in
  hex32_loop n (cstr s ++ r) u = Some (unhex (take k s) u, cstr (drop k s) ++ r) ∧
  u * 16 ^ Z.of_nat k ≤ unhex (take k s) u < (u + 1) * 16 ^ Z.of_nat k.
Proof.
  unfold cstr. induction n as [|n IH]; intros [|c s] r u Hs Hu Hmax; cbv zeta; cbn [Nat.min].
  - simpl. split; [done|lia].
  - simpl. split; [done|lia].
  - cbn [app hex32_loop spanl]. split; [done|simpl; lia].
  - cbn [app hex32_loop spanl]. apply text_cons in Hs as [Hc Hs].
    change (sqlite3Isxdigit c) with (is_xdigit c). destruct (is_xdigit c) eqn:Ex.
    + pose proof (xdigit_value c ltac:(unfold is_u8; lia) Ex).
      rewrite Nat2Z.inj_succ, Z.pow_succ_r in Hmax by lia.
      assert (0 < 16 ^ Z.of_nat n) by (apply Z.pow_pos_nonneg; lia).
      rewrite u32_id by (unfold is_u32; nia).
      replace (u * 16 + sqlite3HexToInt c) with (16 * u + sqlite3HexToInt c) by lia.
      destruct (IH s r (16 * u + sqlite3HexToInt c) Hs ltac:(lia) ltac:(nia)) as [-> Hb].
      cbn [Nat.min take drop unhex]. split; [done|].
      rewrite Nat2Z.inj_succ, Z.pow_succ_r by lia.
      set (q := 16 ^ Z.of_nat (Nat.min n (spanl is_xdigit s))) in *.
      assert (0 < q) by (apply Z.pow_pos_nonneg; lia). nia.
    + cbn [Nat.min take drop unhex]. split; [done|]. simpl. lia.
Qed.

Lemma unhex_bounds l : ∀ u, text l → forallb is_xdigit l = true → 0 ≤ u →
  u * 16 ^ Z.of_nat (length l) ≤ unhex l u < (u + 1) * 16 ^ Z.of_nat (length l).
Proof.
  induction l as [|c l IH]; intros u Hl Hx Hu; cbn [unhex length]; [simpl; lia|].
  apply text_cons in Hl as [Hc Hl]. simpl in Hx. apply andb_true_iff in Hx as [Hxc Hx].
  pose proof (xdigit_value c ltac:(unfold is_u8; lia) Hxc).
  specialize (IH (16 * u + sqlite3HexToInt c) Hl Hx ltac:(lia)).
  rewrite Nat2Z.inj_succ, Z.pow_succ_r by lia.
  assert (0 < 16 ^ Z.of_nat (length l)) by (apply Z.pow_pos_nonneg; lia). nia.
Qed.

Lemma unhex_zeros l m n : forallb (λ c, c =? 48) (take m l) = true → (m ≤ length l)%nat →
  unhex (take (m + n) l) 0 = unhex (take n (drop m l)) 0.
Proof.
  revert l. induction m as [|m IH]; intros l H Hm; [done|].
  destruct l as [|x l]; [simpl in Hm; lia|]. simpl in H. apply andb_true_iff in H as [->%Z.eqb_eq H].
  cbn [Nat.add take drop unhex]. simpl in Hm. by apply IH; [|lia].
Qed.

Lemma get_hex32_spec s r : text s →
  (let* z := skip_zeros (cstr s ++ r) in
   let* (u, z) := hex32_loop 8 z 0 in
   let* c := rd z 0 in
   Some (if (Z.land u 0x80000000 =? 0) && negb (sqlite3Isxdigit c) then Some u else None)) =
  Some (hex32_spec s).
Proof.
  intros Hs. rewrite skip_zeros_spec. set (m := spanl (λ c, c =? 48) s). unfold hex32_spec.
  assert (spanl is_xdigit s = m + spanl is_xdigit (drop m s))%nat as Hmn.
  { apply spanl_split. by intros x ->%Z.eqb_eq. }
  rewrite Hmn, unhex_zeros by (apply spanl_take || apply spanl_le).
  set (t := drop m s) in *. assert (text t) as Ht by (by apply text_drop).
  destruct (hex32_loop_spec 8 t r 0 Ht ltac:(lia) ltac:(simpl; lia)) as [-> Hb].
  set (n := spanl is_xdigit t) in *. set (k := Nat.min 8 n) in *.
  pose proof (spanl_le is_xdigit t) as Hnt. fold n in Hnt.
  assert (∃ c, rd (cstr (drop k t) ++ r) 0 = Some c ∧
    (sqlite3Isxdigit c = true ↔ (8 < n)%nat)) as (c & -> & Hc).
  { destruct (drop k t) as [|c l] eqn:Ed; exists (hd 0 (drop k t)); rewrite Ed; (split; [done|]).
    - apply (f_equal length) in Ed. rewrite length_drop in Ed. simpl in Ed. split; [done|lia].
    - destruct (decide (n ≤ 8)%nat).
      + unfold k in Ed. rewrite Nat.min_r in Ed by lia. apply spanl_stop in Ed.
        unfold is_xdigit in Ed. cbn [hd]. rewrite Ed. split; [done|lia].
      + split; [lia|]. intros _. cbn [hd].
        assert (c ∈ take n t) as Hin.
        { assert (t !! k = Some c) as Htk by (rewrite <- (Nat.add_0_r k), <- lookup_drop, Ed; done).
          apply list_elem_of_lookup. exists k. rewrite lookup_take, decide_True by lia. done. }
        pose proof (spanl_take is_xdigit t) as Hall. fold n in Hall. rewrite forallb_forall in Hall.
        by apply Hall, list_elem_of_In. }
  assert (0 ≤ unhex (take k t) 0 < 4294967296) as Hu.
  { assert (16 ^ Z.of_nat k ≤ 16 ^ 8) by (apply Z.pow_le_mono_r; lia).
    change (16 ^ 8) with 4294967296 in *. lia. }
  assert ((Z.land (unhex (take k t) 0) 0x80000000 =? 0) = (unhex (take k t) 0 <? 2147483648)) as ->.
  { set (u := unhex (take k t) 0) in *. change 0x80000000 with (2 ^ 31) at 1.
    rewrite land_pow2_eqb by lia.
    destruct (Z.testbit u 31) eqn:E; symmetry; cbn [negb].
    - apply Z.ltb_ge. destruct (Z.lt_ge_cases u 2147483648); [|done].
      rewrite (Bits.testbit_high u 31) in E; [done|simpl; lia|lia].
    - apply Z.ltb_lt. destruct (Z.lt_ge_cases u 2147483648); [done|].
      apply Z.testbit_false in E; [|lia].
      assert (u `div` 2 ^ 31 = 1) as Hd by (symmetry; apply Z.div_unique with (u - 2 ^ 31); simpl; lia).
      by rewrite Hd in E. }
  destruct (Nat.leb_spec n 8) as [Hle|Hgt].
  - assert (sqlite3Isxdigit c = false) as ->.
    { destruct (sqlite3Isxdigit c); [|done]. assert (8 < n)%nat by (by apply Hc). lia. }
    unfold k. rewrite Nat.min_r by lia. by rewrite andb_true_r.
  - rewrite (proj2 Hc Hgt), andb_false_r. cbn [negb]. rewrite (proj2 (Z.ltb_ge _ _)); [done|].
    pose proof (spanl_take is_xdigit t) as Hall. fold n in Hall.
    destruct (take n t) as [|d l] eqn:El.
    { apply (f_equal length) in El. rewrite length_take in El. simpl in El. lia. }
    assert (length l = n - 1)%nat as Hll.
    { apply (f_equal length) in El. rewrite length_take in El. simpl in El. lia. }
    assert (d ≠ 48 ∧ text (d :: l)) as [Hd Htl].
    { split; [|rewrite <- El; by apply Forall_take].
      destruct t as [|x t'] eqn:Ed; [by destruct n|]. destruct n; [lia|]. injection El as -> _.
      unfold t in Ed. apply spanl_stop in Ed. lia. }
    cbn [forallb] in Hall. apply andb_true_iff in Hall as [Hxd Hall]. apply text_cons in Htl as [Hd1 Htl].
    cbn [unhex].
    assert (1 ≤ sqlite3HexToInt d) as Hd2.
    { pose proof (all_bytes (λ c, negb (sqlite3Isxdigit c) || (c =? 48) || (1 <=? sqlite3HexToInt c))
        ltac:(by vm_compute) d ltac:(unfold is_u8; lia)) as H. cbv beta in H.
      unfold is_xdigit in Hxd. rewrite Hxd, (proj2 (Z.eqb_neq d 48)) in H by done. simpl in H. lia. }
    pose proof (unhex_bounds l (16 * 0 + sqlite3HexToInt d) Htl Hall ltac:(lia)) as Hbl.
    assert (16 ^ 8 ≤ 16 ^ Z.of_nat (length l)) by (apply Z.pow_le_mono_r; lia).
    change (16 ^ 8) with 4294967296 in *. nia.
Qed.

(** A 32-bit integer is read from a zero-terminated text without leaving
    it: decimal with a sign, or hexadecimal, and refused when there is no
    digit or the value does not fit, however many digits it has. *)
Theorem getint32_correct s r : text s → sqlite3GetInt32 (cstr s ++ r) = Some (getint32_spec s).
Proof.
  intros Hs. destruct s as [|c s]; [done|].
  pose proof Hs as [Hc Hs']%text_cons. unfold sqlite3GetInt32, getint32_spec.
  unfold cstr at 1. cbn [app]. change ((s ++ [0]) ++ r) with (cstr s ++ r).
  destruct (c =? 45); [by apply get_dec32_spec|]. destruct (c =? 43); [by apply get_dec32_spec|].
  change (c :: cstr s ++ r) with (cstr (c :: s) ++ r).
  assert (∀ x, (Some false = Some x → get_dec32 false (cstr (c :: s) ++ r) = Some (dec32_spec false (c :: s))))
    as _ by (intros; by apply get_dec32_spec).
  assert (get_dec32 false (cstr (c :: s) ++ r) = Some (dec32_spec false (c :: s))) as Hdec
    by (by apply get_dec32_spec).
  destruct (Z.eqb_spec c 48) as [->|].
  2: { rewrite Hdec. by destruct s as [|? [|? ?]]. }
  destruct s as [|x s].
  { change (rd (cstr [48] ++ r) 1) with (Some 0). cbn [Z.eqb orb]. by rewrite Hdec. }
  change (rd (cstr (48 :: x :: s) ++ r) 1) with (Some x). cbv iota beta.
  destruct ((x =? 120) || (x =? 88)) eqn:Ex.
  2: { rewrite Hdec. by destruct s. }
  destruct s as [|d s].
  { change (rd (cstr [48; x] ++ r) 2) with (Some 0). cbv iota. by rewrite Hdec. }
  change (rd (cstr (48 :: x :: d :: s) ++ r) 2) with (Some d). cbv iota beta. cbn [andb].
  change (is_xdigit d) with (sqlite3Isxdigit d). destruct (sqlite3Isxdigit d); [|done].
  change (drop 2 (cstr (48 :: x :: d :: s) ++ r)) with (cstr (d :: s) ++ r).
  apply get_hex32_spec. by apply text_cons in Hs' as [_ ?].
Qed.

Lemma getint32_correct_witness :
  sqlite3GetInt32 (cstr [45; 50; 49; 52; 55; 52; 56; 51; 54; 52; 56]) = Some (Some (-2147483648)).
Proof.
  pose proof (getint32_correct [45; 50; 49; 52; 55; 52; 56; 51; 54; 52; 56] [] ltac:(repeat constructor)) as H.
  rewrite app_nil_r in H. exact H.
Defined.

(** ** Logarithmic estimates *)

Lemma scale_down_spec fuel : ∀ x y, 8 ≤ x → Z.log2 x - 3 ≤ Z.of_nat fuel →
  scale_down fuel x y = (Z.shiftr x (Z.log2 x - 3), y + 10 * (Z.log2 x - 3)).
Proof.
  induction fuel as [|fuel IH]; intros x y Hx Hf; cbn [scale_down].
  - pose proof (Z.log2_le_mono 8 x Hx) as H. change (Z.log2 8) with 3 in H.
    replace (Z.log2 x - 3) with 0 by lia. rewrite Z.shiftr_0_r. f_equal. lia.
  - destruct (Z.ltb_spec 15 x).
    + assert (8 ≤ Z.shiftr x 1) by (rewrite Z.shiftr_div_pow2 by lia; apply Z.div_le_lower_bound; lia).
      assert (Z.log2 (Z.shiftr x 1) = Z.log2 x - 1) as Hl.
      { rewrite Z.log2_shiftr by lia. pose proof (Z.log2_le_mono 8 x Hx) as H'. change (Z.log2 8) with 3 in H'.
        lia. }
      rewrite IH by lia. rewrite Hl, Z.shiftr_shiftr.
      2: { pose proof (Z.log2_le_mono 16 x ltac:(lia)) as H'. change (Z.log2 16) with 4 in H'. lia. }
      f_equal; [f_equal; lia|lia].
    + assert (Z.log2 x = 3) as -> by (apply Z.log2_unique; simpl; lia).
      rewrite Z.shiftr_0_r. f_equal. lia.
Qed.

Lemma scale_down4_spec fuel : ∀ x y, 8 ≤ x → Z.log2 x - 7 ≤ 4 * Z.of_nat fuel →
  ∃ k, 0 ≤ k ∧ scale_down4 fuel x y = (Z.shiftr x (4 * k), y + 40 * k) ∧ 8 ≤ Z.shiftr x (4 * k) ≤ 255 ∧
    Z.log2 (Z.shiftr x (4 * k)) = Z.log2 x - 4 * k.
Proof.
  induction fuel as [|fuel IH]; intros x y Hx Hf; cbn [scale_down4].
  - exists 0. rewrite Z.shiftr_0_r. split; [lia|]. split; [f_equal; lia|]. split; [|lia].
    split; [done|]. pose proof (Z.log2_spec x ltac:(lia)) as Hl.
    assert (2 ^ Z.succ (Z.log2 x) ≤ 2 ^ 8) by (apply Z.pow_le_mono_r; lia). simpl in *. lia.
  - destruct (Z.ltb_spec 255 x).
    + assert (8 ≤ Z.shiftr x 4) by (rewrite Z.shiftr_div_pow2 by lia; apply Z.div_le_lower_bound; simpl; lia).
      pose proof (Z.log2_le_mono 256 x ltac:(lia)) as H8. change (Z.log2 256) with 8 in H8.
      assert (Z.log2 (Z.shiftr x 4) = Z.log2 x - 4) as Hl by (rewrite Z.log2_shiftr by lia; lia).
      destruct (IH (Z.shiftr x 4) (y + 40) ltac:(done) ltac:(lia)) as (k & Hk & E & Hb & Hlk).
      rewrite Z.shiftr_shiftr in E, Hb, Hlk by lia. replace (4 + 4 * k) with (4 * (k + 1)) in E, Hb, Hlk by lia.
      exists (k + 1). split; [lia|]. split; [rewrite E; f_equal; lia|]. split; [done|]. lia.
    + exists 0. rewrite Z.shiftr_0_r. split; [lia|]. split; [f_equal; lia|]. split; [lia|lia].
Qed.

(** The value in closed form: the exponent and the three bits after the first. *)
Lemma logest_big b x : 8 ≤ x < 18446744073709551616 →
  sqlite3LogEst b x =
    let i := Z.log2 x - 3 in
    let* a := rd logest_table (Z.land (Z.shiftr x i) 7) in Some (a + (40 + 10 * i) - 10).
Proof.
  intros Hx. unfold sqlite3LogEst.
  rewrite (proj2 (Z.ltb_ge x 8)) by lia. cbn [andb].
  assert (Z.log2 x < 64) by (apply Z.log2_lt_pow2; simpl; lia).
  destruct b; cbv zeta.
  - destruct (scale_down4_spec 16 x 40 ltac:(lia) ltac:(lia)) as (k & Hk & -> & Hb & Hl).
    pose proof (Z.log2_le_mono _ 255 (proj2 Hb)) as H7. change (Z.log2 255) with 7 in H7.
    rewrite scale_down_spec by lia. rewrite Hl, Z.shiftr_shiftr.
    2: { pose proof (Z.log2_le_mono 8 _ (proj1 Hb)) as H3. change (Z.log2 8) with 3 in H3. lia. }
    replace (4 * k + (Z.log2 x - 4 * k - 3)) with (Z.log2 x - 3) by lia.
    destruct (rd _ _); [|done]. f_equal. lia.
  - replace (60 - (63 - Z.log2 x)) with (Z.log2 x - 3) by lia.
    destruct (rd _ _); [|done]. f_equal. lia.
Qed.

(** The estimate of a 64-bit number is defined, is the same in the two
    compilations, and is 10 times its logarithm in base 2 up to -1 and +2. *)
Theorem logest_accurate x :
  1 ≤ x < 18446744073709551616 →
  ∃ e, sqlite3LogEst true x = Some e ∧ sqlite3LogEst false x = Some e ∧ 0 ≤ e ≤ 639 ∧
    2 ^ e ≤ 2 * x ^ 10 ∧ x ^ 10 < 2 ^ (e + 2).
Proof.
  intros Hx. destruct (Z.lt_ge_cases x 8) as [Hs|Hb].
  - assert (x = 1 ∨ x = 2 ∨ x = 3 ∨ x = 4 ∨ x = 5 ∨ x = 6 ∨ x = 7) as H by lia.
    repeat destruct H as [->|H]; [..|subst x]; (eexists; split; [vm_compute; reflexivity|];
      split; [vm_compute; reflexivity|]; split; [lia|]; split; [apply Z.leb_le|apply Z.ltb_lt]; vm_compute; reflexivity).
  - rewrite !logest_big by lia. set (i := Z.log2 x - 3). cbv zeta.
    pose proof (Z.log2_spec x ltac:(lia)) as [Hl1 Hl2].
    pose proof (Z.log2_le_mono 8 x Hb) as Hl3. change (Z.log2 8) with 3 in Hl3.
    assert (Z.log2 x < 64) as Hl64 by (apply Z.log2_lt_pow2; simpl; lia).
    set (m := Z.shiftr x i). assert (m = x `div` 2 ^ i) as Hm by (apply Z.shiftr_div_pow2; lia).
    assert (0 < 2 ^ i) as Hpow by (apply Z.pow_pos_nonneg; lia).
    pose proof (Z.div_mod x (2 ^ i) ltac:(lia)) as Hdm. pose proof (Z.mod_pos_bound x (2 ^ i) Hpow) as Hmod.
    rewrite <- Hm in Hdm.
    replace (Z.log2 x) with (3 + i) in Hl1, Hl2 by lia.
    rewrite Z.pow_add_r in Hl1 by lia. rewrite <- Z.add_succ_l, Z.pow_add_r in Hl2 by lia.
    change (2 ^ 3) with 8 in Hl1. change (2 ^ Z.succ 3) with 16 in Hl2.
    assert (8 ≤ m < 16) as Hm8 by nia.
    assert (m ^ 10 * 2 ^ (10 * i) ≤ x ^ 10 < (m + 1) ^ 10 * 2 ^ (10 * i)) as [Hlo Hhi].
    { replace (10 * i) with (i * 10) by lia. rewrite Z.pow_mul_r by lia. rewrite <- !Z.pow_mul_l.
      split; [apply Z.pow_le_mono_l|apply Z.pow_lt_mono_l]; nia. }
    assert (0 < 2 ^ (10 * i)) as Hp10 by (apply Z.pow_pos_nonneg; lia).
    assert (∃ a, rd logest_table (Z.land m 7) = Some a ∧ 0 ≤ a ≤ 9 ∧ 2 ^ (a + 30) ≤ 2 * m ^ 10 ∧
      (m + 1) ^ 10 ≤ 2 ^ (a + 32)) as (a & -> & Ha & Ha1 & Ha2).
    { assert (m = 8 ∨ m = 9 ∨ m = 10 ∨ m = 11 ∨ m = 12 ∨ m = 13 ∨ m = 14 ∨ m = 15) as H by lia.
      clear -H. repeat destruct H as [->|H]; [..|rewrite H]; (eexists; split; [vm_compute; reflexivity|];
        split; [lia|]; split; apply Z.leb_le; vm_compute; reflexivity). }
    exists (a + (40 + 10 * i) - 10). split; [done|]. split; [done|]. split; [lia|].
    replace (a + (40 + 10 * i) - 10) with (a + 30 + 10 * i) by lia.
    replace (a + 30 + 10 * i + 2) with (a + 32 + 10 * i) by lia.
    rewrite (Z.pow_add_r 2 _ (10 * i)), (Z.pow_add_r 2 _ (10 * i)) by lia.
    apply (Z.mul_le_mono_nonneg_r _ _ (2 ^ (10 * i))) in Ha1, Ha2; [lia..].
Qed.

Lemma logest_accurate_witness : ∃ e, sqlite3LogEst true 1000 = Some e ∧ e = 99.
Proof.
  destruct (logest_accurate 1000 ltac:(lia)) as (e & E & _). exists e. split; [exact E|].
  vm_compute in E. by injection E.
Defined.

(** The sum of two estimates is that of the larger one plus at most 10. *)
Lemma logest_add_spec a b : ∃ c, sqlite3LogEstAdd a b = Some c ∧ sqlite3LogEstAdd b a = Some c ∧
  Z.max a b ≤ c ≤ Z.max a b + 10.
Proof.
  assert (∀ a b, b ≤ a → ∃ c, sqlite3LogEstAdd a b = Some c ∧ sqlite3LogEstAdd b a = Some c ∧ a ≤ c ≤ a + 10) as H.
  { clear. intros a b Hab. unfold sqlite3LogEstAdd. rewrite (proj2 (Z.leb_le b a)) by done.
    assert (∀ k, 0 ≤ k < 32 → ∃ x, rd logest_add_table k = Some x ∧ 0 ≤ x ≤ 10) as Ht.
    { intros k Hk. destruct (rd_is_Some logest_add_table k) as [x Hx]; [simpl; lia|]. exists x.
      split; [done|]. unfold rd in Hx. rewrite decide_True in Hx by lia.
      assert (Forall (λ x, 0 ≤ x ≤ 10) logest_add_table) as Hall by (repeat constructor; lia).
      rewrite Forall_lookup in Hall. by apply (Hall _ _ Hx). }
    destruct (Z.leb_spec a b).
    - assert (a = b) as -> by lia. rewrite (proj2 (Z.ltb_ge _ b)), (proj2 (Z.ltb_ge _ b)) by lia.
      destruct (Ht (b - b) ltac:(lia)) as (x & -> & Hx). exists (b + x). split_and!; done || lia.
    - destruct (Z.ltb_spec (b + 49) a); [exists a; split_and!; done || lia|].
      destruct (Z.ltb_spec (b + 31) a); [exists (a + 1); split_and!; done || lia|].
      destruct (Ht (a - b) ltac:(lia)) as (x & -> & Hx). exists (a + x). split_and!; done || lia. }
  destruct (Z.le_ge_cases b a) as [Hab|Hab].
  - destruct (H a b Hab) as (c & H1 & H2 & ?). exists c. rewrite Z.max_l by done. done.
  - destruct (H b a Hab) as (c & H1 & H2 & ?). exists c. rewrite Z.max_r by done. done.
Qed.
End Numbers.
