(* ===== verification/Bitvec.v ===== *)
(** * Bitmaps ([native/sqlite3/sqlite3.c], bitvec.c)

    A set of page numbers from 1 to [iSize] in 512-byte blocks: a plain
    bitmap when small, an open-addressing hash table while sparse, and 62
    sub-bitmaps once the hash table fills.  The union is the type [body]; a
    read of a member that is not the one stored has no behaviour ([None]).
    The theorems show that the structure is a set of numbers. *)

From S2P Require Import Prelude.

Module Bitvec.

(** 512 bytes less three [u32], rounded down to a pointer: 496 bytes. *)
(* native/sqlite3/sqlite3.c:54792-54823 BITVEC_SZ *)
Definition BITVEC_USIZE : Z := (512 - 3 * 4) `div` 8 * 8.
Definition BITVEC_NELEM : Z := BITVEC_USIZE.
Definition BITVEC_NBIT : Z := BITVEC_NELEM * 8.
Definition BITVEC_NINT : Z := BITVEC_USIZE `div` 4.
Definition BITVEC_MXHASH : Z := BITVEC_NINT `div` 2.
Definition BITVEC_NPTR : Z := BITVEC_USIZE `div` 8.

Definition BITVEC_HASH (x : Z) : Z := (x * 1) `mod` BITVEC_NINT.

Definition SQLITE_OK : Z := 0.
Definition SQLITE_NOMEM : Z := 7.

(* native/sqlite3/sqlite3.c:54826-54861 Bitvec *)
Inductive Bitvec : Type := mk (iSize nSet iDivisor : Z) (u : body)
with body : Type :=
| aBitmap (a : list Z)
| aHash (a : list Z)
| apSub (l : list (option Bitvec)).

Definition iSize (p : Bitvec) : Z := let 'mk s _ _ _ := p in s.
Definition nSet (p : Bitvec) : Z := let 'mk _ n _ _ := p in n.
Definition iDivisor (p : Bitvec) : Z := let 'mk _ _ d _ := p in d.
Definition u (p : Bitvec) : body := let 'mk _ _ _ b := p in b.

(** Zeroed memory, as the member the size selects. *)
Definition zeroed (n : Z) : Bitvec :=
  mk n 0 0 (if n <=? BITVEC_NBIT then aBitmap (replicate (Z.to_nat BITVEC_NELEM) 0)
            else aHash (replicate (Z.to_nat BITVEC_NINT) 0)).

(* native/sqlite3/sqlite3.c:54863-54876 sqlite3BitvecCreate *)
Definition sqlite3BitvecCreate (n : Z) (m : list bool) : option Bitvec * list bool :=
  let '(ok, m) := alloc m in (if ok then Some (zeroed n) else None, m).

(** ** Test.  The fuel of the loops over the hash table is its size, that of
    the descent the number of levels. *)

(* native/sqlite3/sqlite3.c:54899-54902 sqlite3BitvecTestNotNull, the while loop *)
Fixpoint test_loop (fuel : nat) (a : list Z) (h i : Z) : option bool :=
  match fuel with
  | O => None
  | S fuel =>
      let* x := rd a h in
      if x =? 0 then Some false
      else if x =? i then Some true
      else test_loop fuel a ((h + 1) `mod` BITVEC_NINT) i
  end.

(** The descent, on [i] counted from 0, and the test in the block reached. *)
(* native/sqlite3/sqlite3.c:54885-54905 sqlite3BitvecTestNotNull *)
Fixpoint test_at (fuel : nat) (p : Bitvec) (i : Z) : option bool :=
  match fuel with
  | O => None
  | S fuel =>
      if negb (iDivisor p =? 0) then
        match u p with
        | apSub l =>
            let* q := rd l (i `div` iDivisor p) in
            match q with
            | None => Some false
            | Some q => test_at fuel q (i `mod` iDivisor p)
            end
        | _ => None
        end
      else if iSize p <=? BITVEC_NBIT then
        match u p with
        | aBitmap a =>
            let* b := rd a (i `div` 8) in
            Some (negb (Z.land b (Z.shiftl 1 (Z.land i 7)) =? 0))
        | _ => None
        end
      else
        match u p with
        | aHash a => test_loop (S (Z.to_nat BITVEC_NINT)) a (BITVEC_HASH i) (u32 (i + 1))
        | _ => None
        end
  end.

(* native/sqlite3/sqlite3.c:54878-54905 sqlite3BitvecTestNotNull *)
Definition sqlite3BitvecTestNotNull (fuel : nat) (p : Bitvec) (i : Z) : option bool :=
  let i := u32 (i - 1) in
  if iSize p <=? i then Some false else test_at fuel p i.

(* native/sqlite3/sqlite3.c:54906-54908 sqlite3BitvecTest *)
Definition sqlite3BitvecTest (fuel : nat) (p : option Bitvec) (i : Z) : option bool :=
  match p with None => Some false | Some p => sqlite3BitvecTestNotNull fuel p i end.

(** ** Set *)

(** [Some None]: the value is there; [Some (Some h)]: the first free slot. *)
(* native/sqlite3/sqlite3.c:54954-54958 sqlite3BitvecSet, the do loop *)
Fixpoint set_loop (fuel : nat) (a : list Z) (h i : Z) : option (option Z) :=
  match fuel with
  | O => None
  | S fuel =>
      let* x := rd a h in
      if x =? i then Some None else
      let h := h + 1 in
      let h := if BITVEC_NINT <=? h then 0 else h in
      let* y := rd a h in
      if y =? 0 then Some (Some h) else set_loop fuel a h i
  end.

(* native/sqlite3/sqlite3.c:54968-54972 sqlite3BitvecSet, iDivisor *)
Definition divisor (n : Z) : Z :=
  let d := n `div` BITVEC_NPTR in
  let d := if negb (n `mod` BITVEC_NPTR =? 0) then d + 1 else d in
  if d <? BITVEC_NBIT then BITVEC_NBIT else d.

(** Setting all the values of an old hash table, zeros apart. *)
(* native/sqlite3/sqlite3.c:54976-54978 sqlite3BitvecSet, the for loop *)
Fixpoint set_all (set : Bitvec → Z → list bool → option (Z * Bitvec * list bool)) (vs : list Z)
    (rc : Z) (p : Bitvec) (m : list bool) : option (Z * Bitvec * list bool) :=
  match vs with
  | [] => Some (rc, p, m)
  | v :: vs =>
      if v =? 0 then set_all set vs rc p m else
      let* (rc', p, m) := set p (u32 (v - 1)) m in
      set_all set vs (Z.lor rc rc') p m
  end.

(** [i] counts from 0. *)
(* native/sqlite3/sqlite3.c:54927-54987 sqlite3BitvecSet *)
Fixpoint set_at (fuel : nat) (p : Bitvec) (i : Z) (m : list bool) : option (Z * Bitvec * list bool) :=
  match fuel with
  | O => None
  | S fuel =>
      if (BITVEC_NBIT <? iSize p) && negb (iDivisor p =? 0) then
        match u p with
        | apSub l =>
            let bin := i `div` iDivisor p in
            let i := i `mod` iDivisor p in
            let* q := rd l bin in
            let '(q, m) := match q with
                           | Some q => (Some q, m)
                           | None => sqlite3BitvecCreate (iDivisor p) m
                           end in
            match q with
            | None => Some (SQLITE_NOMEM, p, m)
            | Some q =>
                let* (rc, q, m) := set_at fuel q i m in
                let* l := wr l bin (Some q) in
                Some (rc, mk (iSize p) (nSet p) (iDivisor p) (apSub l), m)
            end
        | _ => None
        end
      else if iSize p <=? BITVEC_NBIT then
        match u p with
        | aBitmap a =>
            let* b := rd a (i `div` 8) in
            let* a := wr a (i `div` 8) (u8 (Z.lor b (Z.shiftl 1 (Z.land i 7)))) in
            Some (SQLITE_OK, mk (iSize p) (nSet p) (iDivisor p) (aBitmap a), m)
        | _ => None
        end
      else
        match u p with
        | aHash a =>
            let h := BITVEC_HASH i in
            let i := u32 (i + 1) in
            let* x := rd a h in
            (* the slot, and whether the table must be looked at for its size *)
            let* slot :=
              if x =? 0 then
                Some (Some (h, negb (nSet p <? BITVEC_NINT - 1)))
              else
                let* r := set_loop (Z.to_nat BITVEC_NINT) a h i in
                Some (match r with None => None | Some h => Some (h, true) end) in
            match slot with
            | None => Some (SQLITE_OK, p, m)
            | Some (h, crowded) =>
                if (crowded : bool) && (BITVEC_MXHASH <=? nSet p) then
                  let '(ok, m) := alloc m in
                  if negb ok then Some (SQLITE_NOMEM, p, m) else
                  let p := mk (iSize p) (nSet p) (divisor (iSize p))
                              (apSub (replicate (Z.to_nat BITVEC_NPTR) None)) in
                  let* (rc, p, m) := set_at fuel p (u32 (i - 1)) m in
                  set_all (set_at fuel) a rc p m
                else
                  let* a := wr a h i in
                  Some (SQLITE_OK, mk (iSize p) (u32 (nSet p + 1)) (iDivisor p) (aHash a), m)
            end
        | _ => None
        end
  end.

(* native/sqlite3/sqlite3.c:54910-54987 sqlite3BitvecSet *)
Definition sqlite3BitvecSet (fuel : nat) (p : option Bitvec) (i : Z) (m : list bool)
  : option (Z * option Bitvec * list bool) :=
  match p with
  | None => Some (SQLITE_OK, None, m)
  | Some p => let* (rc, p, m) := set_at fuel p (u32 (i - 1)) m in Some (rc, Some p, m)
  end.

(** ** Clear *)

(* native/sqlite3/sqlite3.c:55019-55022 sqlite3BitvecClear, the while loop *)
Fixpoint free_loop (fuel : nat) (a : list Z) (h : Z) : option Z :=
  match fuel with
  | O => None
  | S fuel =>
      let* x := rd a h in
      if x =? 0 then Some h else
      let h := h + 1 in
      free_loop fuel a (if BITVEC_NINT <=? h then 0 else h)
  end.

(* native/sqlite3/sqlite3.c:55015-55025 sqlite3BitvecClear, the for loop *)
Fixpoint rebuild (vs : list Z) (a : list Z) (n i : Z) : option (list Z * Z) :=
  match vs with
  | [] => Some (a, n)
  | v :: vs =>
      if negb (v =? 0) && negb (v =? u32 (i + 1)) then
        let* h := free_loop (S (Z.to_nat BITVEC_NINT)) a (BITVEC_HASH (u32 (v - 1))) in
        let* a := wr a h v in
        rebuild vs a (u32 (n + 1)) i
      else rebuild vs a n i
  end.

(* native/sqlite3/sqlite3.c:54998-55026 sqlite3BitvecClear *)
Fixpoint clear_at (fuel : nat) (p : Bitvec) (i : Z) : option Bitvec :=
  match fuel with
  | O => None
  | S fuel =>
      if negb (iDivisor p =? 0) then
        match u p with
        | apSub l =>
            let bin := i `div` iDivisor p in
            let* q := rd l bin in
            match q with
            | None => Some p
            | Some q =>
                let* q := clear_at fuel q (i `mod` iDivisor p) in
                let* l := wr l bin (Some q) in
                Some (mk (iSize p) (nSet p) (iDivisor p) (apSub l))
            end
        | _ => None
        end
      else if iSize p <=? BITVEC_NBIT then
        match u p with
        | aBitmap a =>
            let* b := rd a (i `div` 8) in
            let* a := wr a (i `div` 8) (Z.land b (Z.lnot (u8 (Z.shiftl 1 (Z.land i 7))))) in
            Some (mk (iSize p) (nSet p) (iDivisor p) (aBitmap a))
        | _ => None
        end
      else
        match u p with
        | aHash a =>
            let* (a, n) := rebuild a (replicate (Z.to_nat BITVEC_NINT) 0) 0 i in
            Some (mk (iSize p) n (iDivisor p) (aHash a))
        | _ => None
        end
  end.

(* native/sqlite3/sqlite3.c:54989-55027 sqlite3BitvecClear *)
Definition sqlite3BitvecClear (fuel : nat) (p : option Bitvec) (i : Z) : option (option Bitvec) :=
  match p with
  | None => Some None
  | Some p => let* p := clear_at fuel p (u32 (i - 1)) in Some (Some p)
  end.

(** The number of blocks freed. *)
(* native/sqlite3/sqlite3.c:55029-55041 sqlite3BitvecDestroy *)
Fixpoint sqlite3BitvecDestroy (p : Bitvec) : nat :=
  match p with
  | mk _ _ d (apSub l) =>
      if d =? 0 then 1%nat
      else S (foldr (λ q n, match q with Some q => (sqlite3BitvecDestroy q + n)%nat | None => n end) 0%nat l)
  | _ => 1%nat
  end.

(* native/sqlite3/sqlite3.c:55043-55049 sqlite3BitvecSize *)
Definition sqlite3BitvecSize (p : Bitvec) : Z := iSize p.

(** ** The hash table *)

(** The slots probed for [v], from that of its hash on. *)
Definition slot (v : Z) (d : nat) : Z := (v - 1 + Z.of_nat d) `mod` BITVEC_NINT.

Definition filled (a : list Z) (v : Z) (d : nat) : Prop :=
  ∀ e, (e < d)%nat → ∃ x, rd a (slot v e) = Some x ∧ x ≠ 0.

Definition nz (a : list Z) : nat := length (filter (λ x, x ≠ 0) a).

(** Every value is reached from its hash through filled slots, and some slot
    is free. *)
Record hash_ok (a : list Z) (n : Z) : Prop := {
  ho_length : length a = Z.to_nat BITVEC_NINT;
  ho_count : n = Z.of_nat (nz a);
  ho_free : n < BITVEC_NINT;
  ho_chain s v : rd a s = Some v → v ≠ 0 →
    1 ≤ v ∧ ∃ d, (d < Z.to_nat BITVEC_NINT)%nat ∧ s = slot v d ∧ filled a v d
}.

Lemma NINT_eq : BITVEC_NINT = 124.
Proof. done. Qed.

Lemma slot_range v d : 0 ≤ slot v d < BITVEC_NINT.
Proof. apply Z.mod_pos_bound. rewrite NINT_eq. lia. Qed.

Lemma slot_S v d : (slot v d + 1) `mod` BITVEC_NINT = slot v (S d).
Proof. unfold slot. rewrite Zplus_mod_idemp_l. f_equal. lia. Qed.

Lemma slot_wrap v d : (if BITVEC_NINT <=? slot v d + 1 then 0 else slot v d + 1) = slot v (S d).
Proof.
  rewrite <- slot_S. pose proof (slot_range v d). rewrite NINT_eq in *.
  destruct (Z.leb_spec 124 (slot v d + 1)).
  - replace (slot v d + 1) with 124 by lia. done.
  - by rewrite Z.mod_small by lia.
Qed.

Lemma slot_onto v s : 0 ≤ s < BITVEC_NINT → ∃ d, (d < Z.to_nat BITVEC_NINT)%nat ∧ slot v d = s.
Proof.
  rewrite NINT_eq. intros Hs. exists (Z.to_nat ((s - (v - 1)) `mod` 124)).
  pose proof (Z.mod_pos_bound (s - (v - 1)) 124 ltac:(lia)). split; [lia|].
  unfold slot. rewrite NINT_eq, Z2Nat.id by lia. rewrite Zplus_mod_idemp_r.
  replace (v - 1 + (s - (v - 1))) with s by lia. by rewrite Z.mod_small.
Qed.

Lemma rd_slot (a : list Z) v d : length a = Z.to_nat BITVEC_NINT → ∃ x, rd a (slot v d) = Some x.
Proof. intros Hl. apply rd_is_Some. pose proof (slot_range v d). lia. Qed.

Lemma free_slot a : (nz a < length a)%nat → ∃ s, rd a s = Some 0.
Proof.
  intros H. assert (∃ k, a !! k = Some 0) as [k Hk].
  { induction a as [|x a IH]; [simpl in H; lia|].
    destruct (decide (x = 0)) as [->|Hx]; [by exists O|].
    unfold nz in *. rewrite filter_cons_True in H by done. cbn [length] in H.
    destruct IH as [k Hk]; [lia|]. by exists (S k). }
  exists (Z.of_nat k). unfold rd. by rewrite decide_True, Nat2Z.id by lia.
Qed.

(** The first slot probed that satisfies [P], when a free slot does. *)
Lemma probe (P : Z → Prop) `{∀ x, Decision (P x)} (a : list Z) v :
  length a = Z.to_nat BITVEC_NINT → (nz a < length a)%nat → P 0 →
  ∃ D, (D < Z.to_nat BITVEC_NINT)%nat ∧ (∃ x, rd a (slot v D) = Some x ∧ P x) ∧
    ∀ e, (e < D)%nat → ∃ x, rd a (slot v e) = Some x ∧ ¬ P x.
Proof.
  intros Hl Hf H0. destruct (free_slot a Hf) as [s Hs].
  destruct (slot_onto v s) as (k & Hk & <-).
  { apply rd_lt in Hs. rewrite Hl in Hs. rewrite NINT_eq in *. lia. }
  assert (∀ d, Decision (match rd a (slot v d) with Some x => P x | None => True end)) as Hdec
    by (intros d; destruct (rd a (slot v d)); apply _).
  destruct (@least_nat _ Hdec k) as (D & HD & HPD & Hmin); [by rewrite Hs|].
  exists D. split; [lia|]. destruct (rd_slot a v D Hl) as [x Hx]. rewrite Hx in HPD. split; [by exists x|].
  intros e He. destruct (rd_slot a v e Hl) as [y Hy]. exists y. split; [done|].
  specialize (Hmin e He). by rewrite Hy in Hmin.
Qed.

(** The probes for [v] stop at [D]: there it is, or a free slot. *)
Definition scan (a : list Z) (v : Z) (D : nat) : Prop :=
  (D < Z.to_nat BITVEC_NINT)%nat ∧ (∃ x, rd a (slot v D) = Some x ∧ (x = 0 ∨ x = v)) ∧
  ∀ e, (e < D)%nat → ∃ x, rd a (slot v e) = Some x ∧ x ≠ 0 ∧ x ≠ v.

Lemma scan_exists a n v : hash_ok a n → ∃ D, scan a v D.
Proof.
  intros [Hl Hn Hf _]. rewrite Hn in Hf.
  destruct (probe (λ x, x = 0 ∨ x = v) a v Hl) as (D & HD & Hx & Hmin); [lia|by left|].
  exists D. split; [done|]. split; [done|]. intros e He. destruct (Hmin e He) as (x & Hx' & Hne).
  exists x. tauto.
Qed.

Lemma scan_filled a v D : scan a v D → filled a v D.
Proof. intros (_ & _ & H) e He. destruct (H e He) as (x & ? & ? & _). eauto. Qed.

Lemma test_loop_spec a v D fuel : ∀ d, v ≠ 0 → scan a v D → (d ≤ D)%nat → (D - d < fuel)%nat →
  test_loop fuel a (slot v d) v = Some (bool_decide (rd a (slot v D) = Some v)).
Proof.
  induction fuel as [|fuel IH]; intros d Hv Hs Hd Hf; [lia|]. pose proof Hs as (HD & (x & Hx & Hor) & Hmin).
  cbn [test_loop]. destruct (decide (d = D)) as [->|Hne].
  - rewrite Hx. destruct Hor as [->| ->].
    + rewrite bool_decide_false by congruence. done.
    + rewrite (proj2 (Z.eqb_neq v 0)), Z.eqb_refl, bool_decide_true by done. done.
  - destruct (Hmin d ltac:(lia)) as (y & -> & Hy0 & Hyv).
    rewrite (proj2 (Z.eqb_neq y 0)), (proj2 (Z.eqb_neq y v)), slot_S by done. apply IH; done || lia.
Qed.

Lemma set_loop_spec a v D fuel : ∀ d, v ≠ 0 → scan a v D → (d ≤ D)%nat → (D - d < fuel)%nat →
  ((d < D)%nat ∨ rd a (slot v D) = Some v) →
  set_loop fuel a (slot v d) v =
    Some (if decide (rd a (slot v D) = Some v) then None else Some (slot v D)).
Proof.
  induction fuel as [|fuel IH]; intros d Hv Hs Hd Hf Hor; [lia|].
  pose proof Hs as (HD & (x & Hx & Hx0) & Hmin). cbn [set_loop]. rewrite slot_wrap.
  destruct (decide (d = D)) as [->|Hne].
  - destruct Hor as [|Hor]; [lia|]. rewrite Hor, Z.eqb_refl, decide_True by done. done.
  - destruct (Hmin d ltac:(lia)) as (y & -> & Hy0 & Hyv). rewrite (proj2 (Z.eqb_neq y v)) by done.
    destruct (decide (S d = D)) as [HS|HS].
    + subst D. rewrite Hx. destruct Hx0 as [->| ->].
      * rewrite decide_False by congruence. done.
      * rewrite (proj2 (Z.eqb_neq v 0)) by done. rewrite IH by (auto; lia).
        by rewrite !decide_True by done.
    + destruct (Hmin (S d) ltac:(lia)) as (y' & Hy' & Hy'0 & _). rewrite Hy'.
      rewrite (proj2 (Z.eqb_neq y' 0)) by done. apply IH; auto; lia.
Qed.

Lemma free_loop_spec a v D fuel : ∀ d, filled a v D → rd a (slot v D) = Some 0 → (d ≤ D)%nat →
  (D - d < fuel)%nat → free_loop fuel a (slot v d) = Some (slot v D).
Proof.
  induction fuel as [|fuel IH]; intros d Hf0 Hz Hd Hf; [lia|]. cbn [free_loop]. rewrite slot_wrap.
  destruct (decide (d = D)) as [->|Hne]; [by rewrite Hz|].
  destruct (Hf0 d ltac:(lia)) as (y & -> & Hy). rewrite (proj2 (Z.eqb_neq y 0)) by done.
  apply IH; done || lia.
Qed.

(** Membership, as the slots show it. *)
Lemma rd_elem {A} (a : list A) v : v ∈ a ↔ ∃ s, rd a s = Some v.
Proof.
  rewrite list_elem_of_lookup. split.
  - intros [k Hk]. exists (Z.of_nat k). unfold rd. by rewrite decide_True, Nat2Z.id by lia.
  - intros [s Hs]. unfold rd in Hs. case_decide; [|done]. eauto.
Qed.

Lemma rd_elem_in {A} (a : list A) s v : rd a s = Some v → v ∈ a.
Proof. intros H. apply rd_elem. eauto. Qed.

Lemma scan_member a n v D : hash_ok a n → v ≠ 0 → scan a v D →
  rd a (slot v D) = Some v ↔ v ∈ a.
Proof.
  intros Ho Hv (HD & (x & Hx & Hor) & Hmin). rewrite rd_elem. split; [eauto|]. intros [s Hs].
  destruct (ho_chain _ _ Ho s v Hs Hv) as (_ & d & Hd & -> & Hfill).
  destruct (decide (d < D)%nat) as [Hlt|Hge].
  - destruct (Hmin d Hlt) as (y & Hy & _ & Hne). congruence.
  - destruct (decide (d = D)) as [->|Hne]; [done|].
    destruct (Hfill D ltac:(lia)) as (y & Hy & Hy0). rewrite Hx in Hy |- *. destruct Hor; congruence.
Qed.

Lemma nz_insert (a : list Z) s v : a !! s = Some 0 → v ≠ 0 → nz (<[s := v]> a) = S (nz a).
Proof.
  revert s. induction a as [|x a IH]; intros [|s] Hs Hv; try done; simpl in Hs; unfold nz in *; simpl.
  - injection Hs as ->. rewrite filter_cons_True, filter_cons_False by (done || naive_solver). done.
  - rewrite !filter_cons. case_decide; simpl; rewrite IH by done; done.
Qed.

Lemma hash_insert a n v D : hash_ok a n → 1 ≤ v → n < BITVEC_NINT - 1 → (D < Z.to_nat BITVEC_NINT)%nat →
  filled a v D → rd a (slot v D) = Some 0 →
  ∃ a', wr a (slot v D) v = Some a' ∧ hash_ok a' (n + 1) ∧
    ∀ w, w ≠ 0 → (w ∈ a' ↔ w = v ∨ w ∈ a).
Proof.
  intros [Hl Hn Hf Hc] Hv Hn1 HD Hfill Hz. pose proof (rd_lt _ _ _ Hz) as Hlt.
  exists (<[Z.to_nat (slot v D) := v]> a). split; [by apply wr_Some|].
  set (a' := <[Z.to_nat (slot v D) := v]> a).
  assert (wr a (slot v D) v = Some a') as Hw by (by apply wr_Some).
  assert (∀ w d, filled a w d → filled a' w d) as Hmono.
  { intros w d Hwd e He. destruct (Hwd e He) as (x & Hx & Hx0).
    destruct (decide (slot w e = slot v D)) as [E|E].
    - exists v. rewrite E. split; [by apply (rd_wr_eq _ _ _ _ Hw)|lia].
    - exists x. split; [|done]. by rewrite (rd_wr_ne _ _ _ _ _ Hw). }
  split; [split|].
  - unfold a'. by rewrite length_insert.
  - unfold a'. rewrite nz_insert; [lia| |lia]. unfold rd in Hz. by case_decide.
  - lia.
  - intros s w Hs Hw0. destruct (decide (s = slot v D)) as [->|Hne].
    + rewrite (rd_wr_eq _ _ _ _ Hw) in Hs. injection Hs as <-. split; [done|].
      exists D. split; [done|]. split; [done|]. by apply Hmono.
    + rewrite (rd_wr_ne _ _ _ _ _ Hw) in Hs by done. destruct (Hc s w Hs Hw0) as (H1 & d & Hd & Es & Hfd).
      split; [done|]. exists d. split; [done|]. split; [done|]. by apply Hmono.
  - intros w Hw0. rewrite !rd_elem. split.
    + intros [s Hs]. destruct (decide (s = slot v D)) as [->|Hne].
      * rewrite (rd_wr_eq _ _ _ _ Hw) in Hs. left. congruence.
      * rewrite (rd_wr_ne _ _ _ _ _ Hw) in Hs by done. eauto.
    + intros [->|[s Hs]]; [exists (slot v D); by apply (rd_wr_eq _ _ _ _ Hw)|].
      exists s. rewrite (rd_wr_ne _ _ _ _ _ Hw); [done|]. congruence.
Qed.

Lemma hash_empty : hash_ok (replicate (Z.to_nat BITVEC_NINT) 0) 0.
Proof.
  split; [apply length_replicate|done|done|].
  intros s v Hs Hv. unfold rd in Hs. case_decide; [|done]. apply lookup_replicate_1 in Hs as [-> _]. done.
Qed.

(** What [v] hashes to is the first slot probed. *)
Lemma hash_slot i : 0 ≤ i → BITVEC_HASH i = slot (i + 1) 0.
Proof. intros. unfold BITVEC_HASH, slot. f_equal. lia. Qed.

Lemma rebuild_spec i vs : ∀ a n, hash_ok a n → 0 ≤ i < 4294967295 →
  Forall (λ v, 0 ≤ v < 4294967296) vs → n + Z.of_nat (nz vs) < BITVEC_NINT →
  ∃ a' n', rebuild vs a n i = Some (a', n') ∧ hash_ok a' n' ∧
    ∀ w, w ≠ 0 → (w ∈ a' ↔ w ∈ a ∨ w ∈ vs ∧ w ≠ i + 1).
Proof.
  induction vs as [|v vs IH]; intros a n Ho Hi Hvs Hn; cbn [rebuild].
  { exists a, n. split; [done|]. split; [done|]. set_solver. }
  apply Forall_cons in Hvs as [Hv Hvs]. rewrite (u32_id (i + 1)) by (unfold is_u32; lia).
  unfold nz in Hn. rewrite filter_cons in Hn.
  destruct (Z.eqb_spec v 0) as [->|Hv0]; cbn [negb andb].
  { rewrite decide_False in Hn by naive_solver. destruct (IH a n Ho Hi Hvs Hn) as (a' & n' & E & Ho' & Hm).
    exists a', n'. split; [done|]. split; [done|]. intros w Hw. rewrite Hm by done. set_solver. }
  rewrite decide_True in Hn by done. cbn [length] in Hn. fold (nz vs) in Hn.
  destruct (Z.eqb_spec v (i + 1)) as [->|Hvi]; cbn [negb].
  { destruct (IH a n Ho Hi Hvs ltac:(lia)) as (a' & n' & E & Ho' & Hm).
    exists a', n'. split; [done|]. split; [done|]. intros w Hw. rewrite Hm by done. set_solver. }
  pose proof (ho_length _ _ Ho) as Hl. pose proof (ho_count _ _ Ho) as Hc.
  destruct (probe (λ x, x = 0) a v Hl) as (D & HD & (x & Hx & ->) & Hmin); [lia|done|].
  rewrite (u32_id (v - 1)) by (unfold is_u32; lia).
  rewrite (hash_slot (v - 1)) by lia. replace (v - 1 + 1) with v by lia.
  rewrite (free_loop_spec a v D) by (done || lia).
  destruct (hash_insert a n v D Ho ltac:(lia) ltac:(lia) HD Hmin Hx) as (a' & -> & Ho' & Hm').
  rewrite u32_id by (unfold is_u32; rewrite NINT_eq in Hn; lia).
  destruct (IH a' (n + 1) Ho' Hi Hvs ltac:(lia)) as (a2 & n2 & E & Ho2 & Hm2).
  exists a2, n2. split; [done|]. split; [done|]. intros w Hw. rewrite Hm2, Hm' by done.
  rewrite elem_of_cons. split; [|naive_solver].
  intros [[->|?]|[? ?]]; auto.
Qed.

(** ** The plain bitmap *)

Definition bit (a : list Z) (i : Z) : option bool :=
  let* b := rd a (i `div` 8) in Some (negb (Z.land b (Z.shiftl 1 (Z.land i 7)) =? 0)).

Lemma land7 i : Z.land i 7 = i `mod` 8.
Proof. change 7 with (Z.ones 3). by rewrite Z.land_ones by lia. Qed.

Lemma bit_testbit b i : negb (Z.land b (Z.shiftl 1 (Z.land i 7)) =? 0) = Z.testbit b (i `mod` 8).
Proof.
  pose proof (Z.mod_pos_bound i 8 ltac:(lia)).
  rewrite land7, Z.shiftl_1_l, land_pow2_eqb by lia. apply negb_involutive.
Qed.

(** Changing bit [i] of its byte changes that bit of the bitmap only. *)
Lemma bit_update (a : list Z) i b b' : rd a (i `div` 8) = Some b → 0 ≤ i → is_u8 b → is_u8 b' →
  (∀ k, 0 ≤ k < 8 → k ≠ i `mod` 8 → Z.testbit b' k = Z.testbit b k) →
  Forall is_u8 a →
  ∃ a', wr a (i `div` 8) b' = Some a' ∧ length a' = length a ∧ Forall is_u8 a' ∧
    ∀ j, 0 ≤ j → bit a' j = if decide (j = i) then Some (Z.testbit b' (i `mod` 8)) else bit a j.
Proof.
  intros Hb Hi Hb8 Hb8' Hsame Ha. pose proof (rd_lt _ _ _ Hb) as Hlt.
  exists (<[Z.to_nat (i `div` 8) := b']> a).
  assert (wr a (i `div` 8) b' = Some (<[Z.to_nat (i `div` 8) := b']> a)) as Hw by (by apply wr_Some).
  split; [done|]. split; [apply length_insert|]. split; [by apply Forall_insert|].
  intros j Hj. unfold bit. destruct (decide (j `div` 8 = i `div` 8)) as [E|E].
  - rewrite E, (rd_wr_eq _ _ _ _ Hw), Hb, !bit_testbit. case_decide as Hd; [by subst|].
    f_equal. apply Hsame; [apply Z.mod_pos_bound; lia|].
    pose proof (Z.div_mod i 8 ltac:(lia)). pose proof (Z.div_mod j 8 ltac:(lia)). lia.
  - rewrite (rd_wr_ne _ _ _ _ _ Hw) by congruence. rewrite decide_False by congruence. done.
Qed.

Lemma bit_set b i : is_u8 b → 0 ≤ i →
  let b' := u8 (Z.lor b (Z.shiftl 1 (Z.land i 7))) in
  is_u8 b' ∧ Z.testbit b' (i `mod` 8) = true ∧
  ∀ k, 0 ≤ k < 8 → k ≠ i `mod` 8 → Z.testbit b' k = Z.testbit b k.
Proof.
  intros Hb Hi. pose proof (Z.mod_pos_bound i 8 ltac:(lia)). cbv zeta. rewrite land7, Z.shiftl_1_l.
  assert (∀ k, 0 ≤ k < 8 → Z.testbit (u8 (Z.lor b (2 ^ (i `mod` 8)))) k =
    Z.testbit b k || (i `mod` 8 =? k)) as Hk.
  { intros k Hk. unfold u8. change 256 with (2 ^ 8). rewrite Z.mod_pow2_bits_low by lia.
    by rewrite Z.lor_spec, Z.pow2_bits_eqb by lia. }
  split; [apply is_u8_u8|]. split.
  - rewrite Hk, Z.eqb_refl by lia. apply orb_true_r.
  - intros k Hk8 Hne. rewrite Hk by lia. rewrite (proj2 (Z.eqb_neq _ _)) by congruence. apply orb_false_r.
Qed.

Lemma bit_clear b i : is_u8 b → 0 ≤ i →
  let b' := Z.land b (Z.lnot (u8 (Z.shiftl 1 (Z.land i 7)))) in
  is_u8 b' ∧ Z.testbit b' (i `mod` 8) = false ∧
  ∀ k, 0 ≤ k < 8 → k ≠ i `mod` 8 → Z.testbit b' k = Z.testbit b k.
Proof.
  intros Hb Hi. pose proof (Z.mod_pos_bound i 8 ltac:(lia)). cbv zeta. rewrite land7, Z.shiftl_1_l.
  rewrite u8_id.
  2: { unfold is_u8. split; [apply Z.pow_nonneg; lia|]. change 256 with (2 ^ 8). apply Z.pow_lt_mono_r; lia. }
  assert (∀ k, 0 ≤ k → Z.testbit (Z.land b (Z.lnot (2 ^ (i `mod` 8)))) k =
    Z.testbit b k && negb (i `mod` 8 =? k)) as Hk.
  { intros k Hk. by rewrite Z.land_spec, Z.lnot_spec, Z.pow2_bits_eqb by lia. }
  split; [|split].
  - unfold is_u8 in *. rewrite <- Z.ldiff_land. split; [apply Z.ldiff_nonneg; lia|].
    eapply Z.le_lt_trans; [|apply Hb]. apply Z.ldiff_le; [lia|]. apply Z.bits_inj'. intros k Hk0.
    rewrite !Z.ldiff_spec, Z.bits_0. by destruct (Z.testbit b k), (Z.testbit _ k).
  - rewrite Hk, Z.eqb_refl by lia. apply andb_false_r.
  - intros k Hk8 Hne. rewrite Hk by lia. rewrite (proj2 (Z.eqb_neq _ _)) by congruence. apply andb_true_r.
Qed.

(** ** Levels *)

(** The largest size a bitmap with [k] levels of sub-bitmaps may have. *)
Fixpoint cap (k : nat) : Z := match k with O => BITVEC_NBIT | S k => BITVEC_NPTR * cap k end.

Fixpoint wf (k : nat) (p : Bitvec) : Prop :=
  0 ≤ iSize p < 4294967296 ∧ iSize p ≤ cap k ∧
  match u p with
  | aBitmap a => iSize p ≤ BITVEC_NBIT ∧ iDivisor p = 0 ∧ length a = Z.to_nat BITVEC_NELEM ∧ Forall is_u8 a
  | aHash a => BITVEC_NBIT < iSize p ∧ iDivisor p = 0 ∧ hash_ok a (nSet p) ∧ Forall (λ v, 0 ≤ v ≤ iSize p) a
  | apSub l =>
      BITVEC_NBIT < iSize p ∧ iDivisor p = divisor (iSize p) ∧ length l = Z.to_nat BITVEC_NPTR ∧
      match k with
      | O => False
      | S k => Forall (λ q, match q with None => True | Some q => iSize q = iDivisor p ∧ wf k q end) l
      end
  end.

Lemma cap_pos k : BITVEC_NBIT ≤ cap k.
Proof.
  induction k as [|k IH]; [done|]. cbn [cap]. change BITVEC_NPTR with 62. change BITVEC_NBIT with 3968 in *. lia.
Qed.

Lemma divisor_spec n k : BITVEC_NBIT < n → n ≤ cap (S k) → n < 4294967296 →
  BITVEC_NBIT ≤ divisor n ≤ cap k ∧ n ≤ BITVEC_NPTR * divisor n ∧ divisor n < 4294967296.
Proof.
  intros H1 H2 H3. pose proof (cap_pos k). cbn [cap] in H2. unfold divisor.
  change BITVEC_NPTR with 62 in *. change BITVEC_NBIT with 3968 in *.
  pose proof (Z.div_mod n 62 ltac:(lia)). pose proof (Z.mod_pos_bound n 62 ltac:(lia)).
  destruct (Z.eqb_spec (n `mod` 62) 0); cbn [negb]; case_match; lia.
Qed.

(** The bit [i], counted from 0. *)
Definition has (k : nat) (p : Bitvec) (i : Z) : Prop := test_at (S k) p i = Some true.

Lemma zeroed_wf k n : 0 ≤ n < 4294967296 → n ≤ cap k → wf k (zeroed n).
Proof.
  intros Hn Hc. unfold zeroed. destruct (Z.leb_spec n BITVEC_NBIT); destruct k; cbn [wf iSize u iDivisor nSet].
  all: split; [done|]; split; [done|].
  1, 2: split; [done|]; split; [done|]; split; [apply length_replicate|];
    apply Forall_replicate; unfold is_u8; lia.
  all: split; [done|]; split; [done|]; split; [apply hash_empty|]; apply Forall_replicate; lia.
Qed.

Lemma test_hash k p a i : wf k p → u p = aHash a → 0 ≤ i < iSize p →
  test_at (S k) p i = Some (bool_decide (i + 1 ∈ a)).
Proof.
  intros Hwf Hu Hi.
  assert ((0 ≤ iSize p < 4294967296) ∧ BITVEC_NBIT < iSize p ∧ iDivisor p = 0 ∧ hash_ok a (nSet p))
    as (Hr & Hn & Hd & Ho) by (destruct k; cbn [wf] in Hwf; rewrite Hu in Hwf; tauto).
  cbn [test_at]. rewrite Hd, Hu. cbn [Z.eqb negb]. rewrite (proj2 (Z.leb_gt _ _)) by done.
  rewrite u32_id by (unfold is_u32; lia). rewrite hash_slot by lia.
  destruct (scan_exists a (nSet p) (i + 1) Ho) as (D & HD). rewrite NINT_eq.
  rewrite (test_loop_spec a (i + 1) D) by (lia || done || (destruct HD; rewrite NINT_eq in *; lia)).
  f_equal. apply bool_decide_ext. apply (scan_member a (nSet p)); [done|lia|done].
Qed.

Lemma test_bitmap k p a i : wf k p → u p = aBitmap a → 0 ≤ i < iSize p → test_at (S k) p i = bit a i.
Proof.
  intros Hwf Hu Hi.
  assert (iSize p ≤ BITVEC_NBIT ∧ iDivisor p = 0) as (Hn & Hd)
    by (destruct k; cbn [wf] in Hwf; rewrite Hu in Hwf; tauto).
  cbn [test_at]. rewrite Hd, Hu. cbn [Z.eqb negb]. by rewrite (proj2 (Z.leb_le _ _)) by done.
Qed.

(** The sub-bitmap of [i] and the index in it. *)
Lemma sub_index n k i : BITVEC_NBIT < n → n ≤ cap (S k) → n < 4294967296 → 0 ≤ i < n →
  0 ≤ i `div` divisor n < BITVEC_NPTR ∧ 0 ≤ i `mod` divisor n < divisor n.
Proof.
  intros H1 H2 H3 Hi. destruct (divisor_spec n k H1 H2 H3) as ([Hd _] & Hn & _).
  change BITVEC_NBIT with 3968 in *. change BITVEC_NPTR with 62 in *. split; [|apply Z.mod_pos_bound; lia].
  split; [apply Z.div_pos; lia|]. apply Z.div_lt_upper_bound; lia.
Qed.

Lemma test_sub k p l i : wf (S k) p → u p = apSub l → 0 ≤ i < iSize p →
  ∃ q, rd l (i `div` iDivisor p) = Some q ∧
    test_at (S (S k)) p i =
      match q with None => Some false | Some q => test_at (S k) q (i `mod` iDivisor p) end.
Proof.
  intros Hwf Hu Hi. cbn [wf] in Hwf. rewrite Hu in Hwf. destruct Hwf as (Hr & Hc & Hn & Hd & Hl & Hall).
  destruct (sub_index (iSize p) k i Hn Hc ltac:(lia) Hi) as [Hbin Hmod].
  destruct (divisor_spec (iSize p) k Hn Hc ltac:(lia)) as ([Hdp _] & _).
  change BITVEC_NBIT with 3968 in *.
  destruct (rd_is_Some l (i `div` iDivisor p)) as [q Hq]; [rewrite Hd, Hl; lia|].
  exists q. split; [done|]. cbn [test_at]. rewrite (proj2 (Z.eqb_neq _ 0)) by lia. cbn [negb].
  rewrite Hu, Hq. done.
Qed.

Lemma test_zeroed k n i : 0 ≤ i < n → n < 4294967296 → n ≤ cap k → ¬ has k (zeroed n) i.
Proof.
  intros Hi Hn Hc. pose proof (zeroed_wf k n ltac:(lia) Hc) as Hwf. unfold has.
  destruct (Z.le_gt_cases n BITVEC_NBIT) as [Hle|Hgt].
  - erewrite test_bitmap; [|done|unfold zeroed; rewrite (proj2 (Z.leb_le _ _)) by done; done|done].
    unfold bit. destruct (rd _ _) as [b|] eqn:Eb; [|done].
    unfold rd in Eb. case_decide; [|done]. apply lookup_replicate_1 in Eb as [-> _]. by rewrite Z.land_0_l.
  - erewrite test_hash; [|done|unfold zeroed; rewrite (proj2 (Z.leb_gt _ _)) by lia; done|done].
    rewrite bool_decide_false; [done|]. intros [E _]%elem_of_replicate. lia.
Qed.

(** A test is defined on every bit of the bitmap. *)
Lemma test_total k : ∀ p i, wf k p → 0 ≤ i < iSize p → ∃ b, test_at (S k) p i = Some b.
Proof.
  induction k as [|k IH]; intros p i Hwf Hi; (destruct (u p) as [a|a|l] eqn:Hu; [| |]).
  1, 4: erewrite test_bitmap by done; unfold bit;
    assert (iSize p ≤ BITVEC_NBIT ∧ length a = Z.to_nat BITVEC_NELEM) as [Hs Hl]
      by (cbn [wf] in Hwf; rewrite Hu in Hwf; tauto);
    destruct (rd_is_Some a (i `div` 8)) as [b ->]; [|by eexists];
    rewrite Hl; change (Z.of_nat (Z.to_nat BITVEC_NELEM)) with 496; change BITVEC_NBIT with 3968 in *;
    split; [apply Z.div_pos; lia|apply Z.div_lt_upper_bound; lia].
  1, 3: erewrite test_hash by done; by eexists.
  - exfalso. cbn [wf] in Hwf. rewrite Hu in Hwf. tauto.
  - destruct (test_sub k p l i Hwf Hu Hi) as (q & Hq & ->). destruct q as [q|]; [|by eexists].
    cbn [wf] in Hwf. rewrite Hu in Hwf. destruct Hwf as (Hr & Hc & Hn & Hd & Hl & Hall).
    destruct (sub_index (iSize p) k i Hn Hc ltac:(lia) Hi) as [_ Hmod].
    apply IH.
    + rewrite Forall_forall in Hall. apply (Hall (Some q)). apply rd_elem_in in Hq. done.
    + rewrite Forall_forall in Hall. destruct (Hall (Some q)) as [-> _]; [by apply rd_elem_in in Hq|].
      by rewrite Hd.
Qed.
Lemma has_sub k p l j : wf (S k) p → u p = apSub l → 0 ≤ j < iSize p →
  has (S k) p j ↔ ∃ q, rd l (j `div` iDivisor p) = Some (Some q) ∧ has k q (j `mod` iDivisor p).
Proof.
  intros Hwf Hu Hj. destruct (test_sub k p l j Hwf Hu Hj) as (q & Hq & E). unfold has at 1.
  rewrite E, Hq. destruct q as [q|].
  - split; [intros H; exists q; by split|]. intros (? & [= <-] & H). exact H.
  - split; [discriminate|]. intros (? & ? & _). congruence.
Qed.

Lemma sub_child k p l i : wf (S k) p → u p = apSub l → 0 ≤ i < iSize p →
  iDivisor p ≠ 0 ∧ BITVEC_NBIT < iSize p ∧ 0 ≤ i `mod` iDivisor p < iDivisor p ∧
  wf k (zeroed (iDivisor p)) ∧
  ∃ q, rd l (i `div` iDivisor p) = Some q ∧
    match q with None => True | Some q => iSize q = iDivisor p ∧ wf k q end.
Proof.
  intros Hwf Hu Hi. destruct (test_sub k p l i Hwf Hu Hi) as (q & Hq & _).
  cbn [wf] in Hwf. rewrite Hu in Hwf. destruct Hwf as (Hr & Hc & Hn & Hd & Hl & Hall).
  destruct (sub_index (iSize p) k i Hn Hc ltac:(lia) Hi) as [_ Hmod].
  destruct (divisor_spec (iSize p) k Hn Hc ltac:(lia)) as ([Hd1 Hd2] & _ & Hd3).
  change BITVEC_NBIT with 3968 in *. rewrite Hd. split; [lia|]. split; [done|]. split; [done|].
  split; [apply zeroed_wf; lia|]. rewrite Hd in Hq. exists q. split; [done|].
  rewrite Forall_forall in Hall. rewrite <- Hd. apply Hall. by apply rd_elem_in in Hq.
Qed.

(** Replacing the sub-bitmap of [i]. *)
Lemma sub_update k p l i q : wf (S k) p → u p = apSub l → 0 ≤ i < iSize p → wf k q →
  iSize q = iDivisor p →
  ∃ l', wr l (i `div` iDivisor p) (Some q) = Some l' ∧
    let p' := mk (iSize p) (nSet p) (iDivisor p) (apSub l') in
    wf (S k) p' ∧
    ∀ j, 0 ≤ j < iSize p → has (S k) p' j ↔
      if decide (j `div` iDivisor p = i `div` iDivisor p) then has k q (j `mod` iDivisor p)
      else has (S k) p j.
Proof.
  intros Hwf Hu Hi Hq Hs. destruct (sub_child k p l i Hwf Hu Hi) as (_ & _ & _ & _ & q0 & Hq0 & _).
  pose proof (rd_lt _ _ _ Hq0) as Hlt.
  exists (<[Z.to_nat (i `div` iDivisor p) := Some q]> l). split; [by apply wr_Some|]. cbv zeta.
  assert (wr l (i `div` iDivisor p) (Some q) = Some (<[Z.to_nat (i `div` iDivisor p) := Some q]> l)) as Hw
    by (by apply wr_Some).
  set (l' := <[Z.to_nat (i `div` iDivisor p) := Some q]> l) in *.
  assert (wf (S k) (mk (iSize p) (nSet p) (iDivisor p) (apSub l'))) as Hwf'.
  { pose proof Hwf as Hwf2. cbn [wf] in Hwf2 |- *. rewrite Hu in Hwf2. cbn [iSize u iDivisor nSet].
    destruct Hwf2 as (Hr & Hc & Hn & Hd & Hl & Hall).
    split; [done|]. split; [done|]. split; [done|]. split; [done|]. split; [by unfold l'; rewrite length_insert|].
    by apply Forall_insert. }
  split; [done|]. intros j Hj.
  rewrite (has_sub k (mk (iSize p) (nSet p) (iDivisor p) (apSub l')) l' j) by done.
  cbn [iDivisor]. case_decide as E.
  - rewrite E, (rd_wr_eq _ _ _ _ Hw). split; [intros (? & [= <-] & H); exact H|].
    intros H. exists q. by split.
  - rewrite (rd_wr_ne _ _ _ _ _ Hw) by congruence. by rewrite (has_sub k p l j).
Qed.

Lemma div_mod_inj d i j : d ≠ 0 → j `div` d = i `div` d → j `mod` d = i `mod` d ↔ j = i.
Proof.
  intros Hd E. split; [|by intros ->]. intros E'. rewrite (Z.div_mod i d), (Z.div_mod j d) by done. lia.
Qed.

(** ** Setting bits *)

(** What a call that sets the bits of [Q] in a bitmap of [n] bits, those of
    [old] so far, answers. *)
Record set_post (k : nat) (n : Z) (Q old : Z → Prop) (m : list bool) (rc : Z) (p : Bitvec)
    (m' : list bool) : Prop := {
  sp_wf : wf k p;
  sp_size : iSize p = n;
  sp_rc : rc = SQLITE_OK ∨ rc = SQLITE_NOMEM;
  sp_mem : no_failure m → rc = SQLITE_OK ∧ no_failure m';
  sp_all j : rc = SQLITE_OK → 0 ≤ j < n → Q j ∨ old j → has k p j;
  sp_only j : 0 ≤ j < n → has k p j → Q j ∨ old j
}.

Definition set_ok (k : nat) (fuel : nat) : Prop := ∀ p i m, wf k p → 0 ≤ i < iSize p →
  ∃ rc p' m', set_at fuel p i m = Some (rc, p', m') ∧
    set_post k (iSize p) (λ j, j = i) (has k p) m rc p' m'.

Definition sub_shaped (p : Bitvec) : Prop := ∃ l, u p = apSub l.

Lemma set_sub k fuel : set_ok k fuel → ∀ p i m, wf (S k) p → sub_shaped p → 0 ≤ i < iSize p →
  ∃ rc p' m', set_at (S fuel) p i m = Some (rc, p', m') ∧ sub_shaped p' ∧
    set_post (S k) (iSize p) (λ j, j = i) (has (S k) p) m rc p' m'.
Proof.
  intros IH p i m Hwf [l Hu] Hi.
  destruct (sub_child k p l i Hwf Hu Hi) as (Hd0 & Hn & Hmod & Hz & q & Hq & Hwq).
  cbn [set_at]. rewrite (proj2 (Z.ltb_lt _ _) Hn), (proj2 (Z.eqb_neq _ _) Hd0). cbn [negb andb].
  rewrite Hu, Hq. cbv zeta.
  (* the sub-bitmap that is set, there or new *)
  assert (∀ q0 m0, wf k q0 → iSize q0 = iDivisor p →
    (∀ j, 0 ≤ j < iSize p → j `div` iDivisor p = i `div` iDivisor p →
       has k q0 (j `mod` iDivisor p) ↔ has (S k) p j) →
    (no_failure m → no_failure m0) →
    ∃ rc p' m', (let* (rc, q, m) := set_at fuel q0 (i `mod` iDivisor p) m0 in
                 let* l := wr l (i `div` iDivisor p) (Some q) in
                 Some (rc, mk (iSize p) (nSet p) (iDivisor p) (apSub l), m)) = Some (rc, p', m') ∧
      sub_shaped p' ∧ set_post (S k) (iSize p) (λ j, j = i) (has (S k) p) m rc p' m') as Hgo.
  { intros q0 m0 Hwf0 Hs0 Hold Hm0.
    destruct (IH q0 (i `mod` iDivisor p) m0 Hwf0) as (rc & q' & m' & -> & [Hwf' Hs' Hrc Hmem Hall Honly]);
      [by rewrite Hs0|].
    destruct (sub_update k p l i q' Hwf Hu Hi Hwf') as (l' & -> & Hwl & Hhas); [congruence|].
    exists rc, (mk (iSize p) (nSet p) (iDivisor p) (apSub l')), m'. split; [done|]. split; [by exists l'|].
    split; [done|done|done|intros; apply Hmem; auto| |].
    - intros j Hok Hj Hor. apply Hhas; [done|]. case_decide as E; [|destruct Hor; [by subst|done]].
      apply Hall; [done|rewrite Hs0; apply Z.mod_pos_bound; lia|].
      rewrite (div_mod_inj _ i j) by done. by rewrite Hold.
    - intros j Hj Hh. apply Hhas in Hh; [|done]. case_decide as E; [|by right].
      apply Honly in Hh; [|rewrite Hs0; apply Z.mod_pos_bound; lia].
      rewrite (div_mod_inj _ i j) in Hh by done. by rewrite Hold in Hh. }
  destruct q as [q|].
  - destruct Hwq as [Hqs Hwq]. apply Hgo; [done|done| |done].
    intros j Hj E. rewrite (has_sub k p l j), E by done. split; [intros H; exists q; by split|].
    intros (q0 & Hq0 & ?). congruence.
  - unfold sqlite3BitvecCreate. destruct (alloc m) as [ok m0] eqn:Em.
    pose proof (alloc_ok m _ _ Em) as Hm.
    destruct ok.
    + apply Hgo; [done|by unfold zeroed| |naive_solver].
      intros j Hj E. rewrite (has_sub k p l j), E by done. split; [|intros (? & ? & _); congruence].
      intros Hz'. exfalso. revert Hz'. apply test_zeroed; [apply Z.mod_pos_bound; lia| |];
        destruct k; cbn [wf] in Hz; unfold zeroed in Hz; cbn [iSize] in Hz; lia.
    + exists SQLITE_NOMEM, p, m0. split; [done|]. split; [by exists l|].
      split; [done|done|by right|naive_solver|done|by right].
Qed.

Lemma set_all_spec k fuel n old m0 vs : set_ok k fuel → n < 4294967296 →
  ∀ Q rc p m, sub_shaped p → set_post (S k) n Q old m0 rc p m → Forall (λ v, 0 ≤ v ≤ n) vs →
  ∃ rc' p' m', set_all (set_at (S fuel)) vs rc p m = Some (rc', p', m') ∧
    set_post (S k) n (λ j, Q j ∨ j + 1 ∈ vs) old m0 rc' p' m'.
Proof.
  intros Hok Hn. induction vs as [|v vs IH]; intros Q rc p m Hsh Hp Hvs; cbn [set_all].
  { exists rc, p, m. split; [done|]. destruct Hp as [? ? ? ? Hall Honly]. split; [done..| |].
    - intros j ? ? Hor. apply Hall; [done..|]. destruct Hor as [[?|[]%not_elem_of_nil]|?]; auto.
    - intros j ? Hh. destruct (Honly j); auto. }
  apply Forall_cons in Hvs as [Hv Hvs]. destruct (Z.eqb_spec v 0) as [->|Hv0].
  { destruct (IH Q rc p m Hsh Hp Hvs) as (rc' & p' & m' & E & [? ? ? ? Hall Honly]).
    exists rc', p', m'. split; [done|]. split; [done..| |].
    - intros j ? ? Hor. apply Hall; [done..|]. rewrite elem_of_cons in Hor. intuition lia.
    - intros j ? Hh. rewrite elem_of_cons. destruct (Honly j) as [[?|?]|?]; auto. }
  destruct Hp as [Hwf Hs Hrc Hmem Hall Honly].
  rewrite (u32_id (v - 1)) by (unfold is_u32; lia).
  destruct (set_sub k fuel Hok p (v - 1) m Hwf Hsh ltac:(lia)) as (rc1 & p1 & m1 & -> & Hsh1 & Hp1).
  destruct Hp1 as [Hwf1 Hs1 Hrc1 Hmem1 Hall1 Honly1].
  destruct (IH (λ j, Q j ∨ j + 1 = v) (Z.lor rc rc1) p1 m1 Hsh1) as (rc' & p' & m' & E & Hpost); [|done|].
  - split; [done|congruence|destruct Hrc as [-> | ->], Hrc1 as [-> | ->]; auto| | |].
    + intros Hm. destruct (Hmem Hm) as [-> Hm']. destruct (Hmem1 Hm') as [-> ?]. done.
    + intros j Hl Hj Hor. apply Z.lor_eq_0_iff in Hl as [Hl0 Hl1]. apply Hall1; [done|lia|].
      destruct Hor as [[?|?]|?]; [right; auto|left; lia|right; auto].
    + intros j Hj Hh. apply Honly1 in Hh; [|lia]. destruct Hh as [->|Hh]; [left; right; lia|].
      destruct (Honly j Hj Hh); auto.
  - exists rc', p', m'. split; [done|]. destruct Hpost as [? ? ? ? Hall2 Honly2]. split; [done..| |].
    + intros j ? ? Hor. apply Hall2; [done..|]. rewrite elem_of_cons in Hor. tauto.
    + intros j ? Hh. rewrite elem_of_cons. destruct (Honly2 j) as [[[?|?]|?]|?]; auto.
Qed.

Lemma has_hash k p a j : wf k p → u p = aHash a → 0 ≤ j < iSize p → has k p j ↔ j + 1 ∈ a.
Proof.
  intros Hwf Hu Hj. unfold has. rewrite (test_hash k p a j) by done. split.
  - intros [= H]. by apply bool_decide_eq_true in H.
  - intros H. by rewrite bool_decide_true.
Qed.

Lemma has_bitmap k p a j : wf k p → u p = aBitmap a → 0 ≤ j < iSize p → has k p j ↔ bit a j = Some true.
Proof. intros Hwf Hu Hj. unfold has. by rewrite (test_bitmap k p a j). Qed.

Lemma set_bitmap k fuel p a i m : wf k p → u p = aBitmap a → 0 ≤ i < iSize p →
  ∃ p', set_at (S fuel) p i m = Some (SQLITE_OK, p', m) ∧
    set_post k (iSize p) (λ j, j = i) (has k p) m SQLITE_OK p' m.
Proof.
  intros Hwf Hu Hi.
  assert ((0 ≤ iSize p < 4294967296) ∧ iSize p ≤ cap k ∧ iSize p ≤ BITVEC_NBIT ∧ iDivisor p = 0 ∧
    length a = Z.to_nat BITVEC_NELEM ∧ Forall is_u8 a) as (Hr & Hc & Hn & Hd & Hl & Ha)
    by (destruct k; cbn [wf] in Hwf; rewrite Hu in Hwf; tauto).
  cbn [set_at]. rewrite (proj2 (Z.ltb_ge _ _)), (proj2 (Z.leb_le _ _)) by done. cbn [andb]. rewrite Hu.
  destruct (rd_is_Some a (i `div` 8)) as [b Hb].
  { rewrite Hl. change (Z.of_nat (Z.to_nat BITVEC_NELEM)) with 496. change BITVEC_NBIT with 3968 in *.
    split; [apply Z.div_pos; lia|apply Z.div_lt_upper_bound; lia]. }
  rewrite Hb. assert (is_u8 b) as Hb8 by (rewrite Forall_forall in Ha; apply Ha; by apply rd_elem_in in Hb).
  destruct (bit_set b i Hb8 ltac:(lia)) as (Hb8' & Hbit & Hsame). cbv zeta in Hb8', Hbit, Hsame.
  destruct (bit_update a i b _ Hb ltac:(lia) Hb8 Hb8' Hsame Ha) as (a' & -> & Hl' & Ha' & Hbits).
  eexists. split; [reflexivity|].
  assert (wf k (mk (iSize p) (nSet p) (iDivisor p) (aBitmap a'))) as Hwf'.
  { destruct k; cbn [wf iSize u iDivisor nSet]; rewrite Hl'; tauto. }
  assert (∀ j, 0 ≤ j < iSize p → has k (mk (iSize p) (nSet p) (iDivisor p) (aBitmap a')) j ↔
    j = i ∨ has k p j) as Hh.
  { intros j Hj. rewrite (has_bitmap k _ a' j), (has_bitmap k p a j), Hbits by (done || lia).
    case_decide as E; [rewrite Hbit|]; naive_solver. }
  split; [done|done|by left|done| |]; intros; by apply Hh.
Qed.

(** Where a value goes: it is there, or a free slot reached through filled
    ones. *)
Lemma set_slot a n v : hash_ok a n → v ≠ 0 →
  ∃ x r, rd a (slot v 0) = Some x ∧
    (if x =? 0 then Some (Some (slot v 0, negb (n <? BITVEC_NINT - 1)))
     else let* r := set_loop (Z.to_nat BITVEC_NINT) a (slot v 0) v in
          Some (match r with None => None | Some h => Some (h, true) end)) = Some r ∧
    match r with
    | None => v ∈ a
    | Some (h, crowded) =>
        (v ∉ a) ∧ (crowded = false → n < BITVEC_NINT - 1) ∧
        ∃ D, (D < Z.to_nat BITVEC_NINT)%nat ∧ filled a v D ∧ h = slot v D ∧ rd a (slot v D) = Some 0
    end.
Proof.
  intros Ho Hv. destruct (scan_exists a n v Ho) as (D & Hs).
  pose proof (scan_member a n v D Ho Hv Hs) as Hm. pose proof (scan_filled a v D Hs) as Hfill.
  pose proof Hs as (HD & (y & Hy & Hor) & Hmin).
  destruct (rd_slot a v 0 (ho_length _ _ Ho)) as [x Hx]. exists x.
  assert (rd a (slot v D) ≠ Some v → (v ∉ a) ∧ rd a (slot v D) = Some 0) as Hno.
  { intros Hne. split; [by rewrite <- Hm|]. destruct Hor as [->| ->]; done. }
  destruct (Z.eqb_spec x 0) as [->|Hx0].
  - assert (D = 0%nat) as ->.
    { destruct D as [|D]; [done|]. destruct (Hmin 0%nat) as (z & Hz & Hz0 & _); [lia|congruence]. }
    destruct Hno as [Hnv Hz]; [congruence|]. eexists. split; [done|]. split; [reflexivity|].
    split; [done|]. split; [|by exists 0%nat].
    intros H. apply negb_false_iff, Z.ltb_lt in H. exact H.
  - rewrite (set_loop_spec a v D) by (done || lia || (destruct D as [|D]; [right|left; lia];
      destruct Hor as [->| ->]; [congruence|done])).
    eexists. split; [done|]. split; [reflexivity|]. case_decide as E; [by apply Hm|].
    destruct (Hno E) as [Hnv Hz]. split; [done|]. split; [done|]. by exists D.
Qed.

Lemma nosub_wf k p a : wf (S k) p → u p = aHash a →
  wf (S k) (mk (iSize p) (nSet p) (divisor (iSize p)) (apSub (replicate (Z.to_nat BITVEC_NPTR) None))) ∧
  ∀ j, 0 ≤ j < iSize p →
    ¬ (has (S k) (mk (iSize p) (nSet p) (divisor (iSize p)) (apSub (replicate (Z.to_nat BITVEC_NPTR) None))) j).
Proof.
  intros Hwf Hu.
  assert (wf (S k) (mk (iSize p) (nSet p) (divisor (iSize p)) (apSub (replicate (Z.to_nat BITVEC_NPTR) None)))) as H.
  { cbn [wf iSize u iDivisor nSet]. cbn [wf] in Hwf. rewrite Hu in Hwf.
    destruct Hwf as (Hr & Hc & Hn & _). split; [done|]. split; [done|]. split; [done|]. split; [done|].
    split; [apply length_replicate|]. by apply Forall_replicate. }
  split; [done|]. intros j Hj Hh. apply (has_sub k _ _ j H eq_refl Hj) in Hh as (q & Hq & _).
  apply rd_elem_in, elem_of_replicate in Hq as [? _]. done.
Qed.

(** The old values go into the sub-bitmaps. *)
Lemma set_convert k fuel p a i m : set_ok k fuel → wf (S k) p → u p = aHash a → 0 ≤ i < iSize p →
  ∃ rc p' m',
    (let* (rc, p, m) := set_at (S fuel) (mk (iSize p) (nSet p) (divisor (iSize p))
                          (apSub (replicate (Z.to_nat BITVEC_NPTR) None))) i m in
     set_all (set_at (S fuel)) a rc p m) = Some (rc, p', m') ∧
    set_post (S k) (iSize p) (λ j, j = i) (has (S k) p) m rc p' m'.
Proof.
  intros Hok Hwf Hu Hi. destruct (nosub_wf k p a Hwf Hu) as [Hwf0 Hno].
  set (p0 := mk (iSize p) _ _ _) in *.
  destruct (set_sub k fuel Hok p0 i m Hwf0 ltac:(by eexists) Hi) as (rc1 & p1 & m1 & -> & Hsh & Hp1).
  assert (iSize p < 4294967296 ∧ Forall (λ v, 0 ≤ v ≤ iSize p) a) as [Hs Ha]
    by (cbn [wf] in Hwf; rewrite Hu in Hwf; tauto).
  destruct (set_all_spec k fuel (iSize p) (has (S k) p0) m a Hok Hs (λ j, j = i) rc1 p1 m1 Hsh Hp1 Ha)
    as (rc & p' & m' & -> & [? ? ? ? Hall Honly]).
  exists rc, p', m'. split; [done|]. split; [done..| |].
  - intros j ? Hj Hor. apply Hall; [done..|]. left. rewrite (has_hash (S k) p a j) in Hor by done. done.
  - intros j Hj Hh. rewrite (has_hash (S k) p a j) by done. destruct (Honly j Hj Hh) as [?|Hh0]; [done|].
    by apply Hno in Hh0.
Qed.

Lemma set_hash k fuel p a i m : set_ok k fuel → wf (S k) p → u p = aHash a → 0 ≤ i < iSize p →
  ∃ rc p' m', set_at (S (S fuel)) p i m = Some (rc, p', m') ∧
    set_post (S k) (iSize p) (λ j, j = i) (has (S k) p) m rc p' m'.
Proof.
  intros Hok Hwf Hu Hi. pose proof Hwf as Hwf0. cbn [wf] in Hwf0. rewrite Hu in Hwf0.
  destruct Hwf0 as (Hr & Hc & Hn & Hd & Ho & Ha).
  remember (S fuel) as fuel' eqn:Ef. cbn [set_at]. rewrite Hd, (proj2 (Z.leb_gt _ _)) by done.
  rewrite andb_false_r, Hu. rewrite (u32_id (i + 1)) by (unfold is_u32; lia). rewrite hash_slot by lia.
  destruct (set_slot a (nSet p) (i + 1) Ho ltac:(lia)) as (x & r & Hx & Hslot & Hr'). cbv zeta.
  rewrite Hx, Hslot. destruct r as [[h crowded]|].
  2: { exists SQLITE_OK, p, m. split; [done|]. split; [done|done|by left|done| |auto].
       intros j _ Hj [->|?]; [|done]. by rewrite (has_hash (S k) p a i). }
  destruct Hr' as (Hnv & Hcr & D & HD & Hfill & -> & Hz).
  destruct (crowded && (BITVEC_MXHASH <=? nSet p)) eqn:Ecr.
  - destruct (alloc m) as [ok m0] eqn:Em. destruct ok; cbn [negb].
    + replace (u32 (i + 1 - 1)) with i by (replace (i + 1 - 1) with i by lia; symmetry; apply u32_id; unfold is_u32; lia).
      subst fuel'. destruct (set_convert k fuel p a i m0 Hok Hwf Hu Hi) as (rc & p' & m' & -> & Hp).
      exists rc, p', m'. split; [done|]. destruct Hp as [? ? ? Hmem ? ?]. split; [done..| | |]; [|done|done].
      intros Hm. apply Hmem. by apply (alloc_ok m _ _ Em).
    + exists SQLITE_NOMEM, p, m0. split; [done|]. split; [done|done|by right| |done|auto].
      intros Hm. by apply (alloc_ok m _ _ Em) in Hm as [? _].
  - assert (nSet p < BITVEC_NINT - 1) as Hlt.
    { destruct crowded; [|by apply Hcr]. cbn [andb] in Ecr. apply Z.leb_gt in Ecr.
      change BITVEC_MXHASH with 62 in Ecr. rewrite NINT_eq. lia. }
    pose proof (ho_count _ _ Ho) as Hcount.
    destruct (hash_insert a (nSet p) (i + 1) D Ho ltac:(lia) Hlt HD Hfill Hz) as (a' & Hw & Ho' & Hmem).
    rewrite Hw. rewrite u32_id by (unfold is_u32; rewrite NINT_eq in Hlt; lia).
    eexists _, _, _. split; [reflexivity|].
    set (p' := mk (iSize p) (nSet p + 1) 0 (aHash a')).
    assert (wf (S k) p') as Hwf'.
    { cbn [wf]. unfold p'. cbn [iSize u iDivisor nSet]. split; [done|]. split; [done|]. split; [done|].
      split; [done|]. split; [done|]. apply Forall_forall. intros w Hw'. destruct (decide (w = 0)) as [->|Hw0]; [lia|].
      rewrite Hmem in Hw' by done. destruct Hw' as [->|Hw']; [lia|]. rewrite Forall_forall in Ha. by apply Ha. }
    assert (∀ j, 0 ≤ j < iSize p → has (S k) p' j ↔ j = i ∨ has (S k) p j) as Hh.
    { intros j Hj. rewrite (has_hash (S k) p' a' j), (has_hash (S k) p a j), Hmem by (done || lia).
      by rewrite (Z.add_cancel_r j i 1). }
    split; [done|done|by left|done| |]; intros; by apply Hh.
Qed.

Lemma set_ok_all k : ∀ fuel, (2 * k + 1 ≤ fuel)%nat → set_ok k fuel.
Proof.
  induction k as [|k IH]; intros fuel Hf p i m Hwf Hi; (destruct fuel as [|fuel]; [lia|]);
    destruct (u p) as [a|a|l] eqn:Hu.
  - destruct (set_bitmap 0 fuel p a i m Hwf Hu Hi) as (p' & E & Hp). eauto.
  - exfalso. cbn [wf cap] in Hwf. rewrite Hu in Hwf. lia.
  - exfalso. cbn [wf] in Hwf. rewrite Hu in Hwf. tauto.
  - destruct (set_bitmap (S k) fuel p a i m Hwf Hu Hi) as (p' & E & Hp). eauto.
  - destruct fuel as [|fuel]; [lia|]. apply (set_hash k fuel p a); try done. apply IH. lia.
  - destruct (set_sub k fuel (IH fuel ltac:(lia)) p i m Hwf ltac:(by eexists) Hi) as (rc & p' & m' & E & _ & Hp).
    eauto.
Qed.

(** ** Clearing bits *)

Lemma clear_bitmap k fuel p a i : wf k p → u p = aBitmap a → 0 ≤ i < iSize p →
  ∃ p', clear_at (S fuel) p i = Some p' ∧ wf k p' ∧ iSize p' = iSize p ∧
    ∀ j, 0 ≤ j < iSize p → has k p' j ↔ j ≠ i ∧ has k p j.
Proof.
  intros Hwf Hu Hi.
  assert ((0 ≤ iSize p < 4294967296) ∧ iSize p ≤ cap k ∧ iSize p ≤ BITVEC_NBIT ∧ iDivisor p = 0 ∧
    length a = Z.to_nat BITVEC_NELEM ∧ Forall is_u8 a) as (Hr & Hc & Hn & Hd & Hl & Ha)
    by (destruct k; cbn [wf] in Hwf; rewrite Hu in Hwf; tauto).
  cbn [clear_at]. rewrite (proj2 (Z.leb_le _ _)), Hd, Hu by done. cbn [Z.eqb negb].
  destruct (rd_is_Some a (i `div` 8)) as [b Hb].
  { rewrite Hl. change (Z.of_nat (Z.to_nat BITVEC_NELEM)) with 496. change BITVEC_NBIT with 3968 in *.
    split; [apply Z.div_pos; lia|apply Z.div_lt_upper_bound; lia]. }
  rewrite Hb. assert (is_u8 b) as Hb8 by (rewrite Forall_forall in Ha; apply Ha; by apply rd_elem_in in Hb).
  destruct (bit_clear b i Hb8 ltac:(lia)) as (Hb8' & Hbit & Hsame). cbv zeta in Hb8', Hbit, Hsame.
  destruct (bit_update a i b _ Hb ltac:(lia) Hb8 Hb8' Hsame Ha) as (a' & -> & Hl' & Ha' & Hbits).
  eexists. split; [reflexivity|].
  assert (wf k (mk (iSize p) (nSet p) 0 (aBitmap a'))) as Hwf'.
  { destruct k; cbn [wf iSize u iDivisor nSet]; rewrite Hl'; tauto. }
  split; [done|]. split; [done|]. intros j Hj.
  rewrite (has_bitmap k _ a' j), (has_bitmap k p a j), Hbits by (done || lia).
  case_decide as E; [rewrite Hbit|]; naive_solver.
Qed.

(** The table is rebuilt without the value. *)
Lemma clear_hash k fuel p a i : wf k p → u p = aHash a → 0 ≤ i < iSize p →
  ∃ p', clear_at (S fuel) p i = Some p' ∧ wf k p' ∧ iSize p' = iSize p ∧
    ∀ j, 0 ≤ j < iSize p → has k p' j ↔ j ≠ i ∧ has k p j.
Proof.
  intros Hwf Hu Hi.
  assert ((0 ≤ iSize p < 4294967296) ∧ iSize p ≤ cap k ∧ BITVEC_NBIT < iSize p ∧ iDivisor p = 0 ∧
    hash_ok a (nSet p) ∧ Forall (λ v, 0 ≤ v ≤ iSize p) a) as (Hr & Hc & Hn & Hd & Ho & Ha)
    by (destruct k; cbn [wf] in Hwf; rewrite Hu in Hwf; tauto).
  cbn [clear_at]. rewrite (proj2 (Z.leb_gt _ _)), Hd, Hu by done. cbn [Z.eqb negb].
  destruct (rebuild_spec i a (replicate (Z.to_nat BITVEC_NINT) 0) 0 hash_empty) as (a' & n' & -> & Ho' & Hm).
  - lia.
  - eapply Forall_impl; [exact Ha|]. cbv beta. lia.
  - pose proof (ho_count _ _ Ho). pose proof (ho_free _ _ Ho). lia.
  - assert (∀ w, w ≠ 0 → w ∈ a' ↔ w ∈ a ∧ w ≠ i + 1) as Hm'.
    { intros w Hw. rewrite Hm by done. split; [|auto]. intros [[? _]%elem_of_replicate|?]; done. }
    eexists. split; [reflexivity|].
    assert (wf k (mk (iSize p) n' 0 (aHash a'))) as Hwf'.
    { assert (Forall (λ v, 0 ≤ v ≤ iSize p) a').
      { apply Forall_forall. intros w Hw. destruct (decide (w = 0)) as [->|Hw0]; [lia|].
        rewrite Hm' in Hw by done. rewrite Forall_forall in Ha. apply Ha, Hw. }
      destruct k; cbn [wf iSize u iDivisor nSet]; tauto. }
    split; [done|]. split; [done|]. intros j Hj.
    rewrite (has_hash k _ a' j), (has_hash k p a j), Hm' by (done || lia).
    rewrite (Z.add_cancel_r j i 1). tauto.
Qed.

Lemma clear_ok k : ∀ p i fuel, wf k p → 0 ≤ i < iSize p → (k < fuel)%nat →
  ∃ p', clear_at fuel p i = Some p' ∧ wf k p' ∧ iSize p' = iSize p ∧
    ∀ j, 0 ≤ j < iSize p → has k p' j ↔ j ≠ i ∧ has k p j.
Proof.
  induction k as [|k IH]; intros p i fuel Hwf Hi Hf; (destruct fuel as [|fuel]; [lia|]);
    destruct (u p) as [a|a|l] eqn:Hu;
    try (by apply clear_bitmap with a); try (by apply clear_hash with a).
  { exfalso. cbn [wf] in Hwf. rewrite Hu in Hwf. tauto. }
  destruct (sub_child k p l i Hwf Hu Hi) as (Hd0 & Hn & Hmod & _ & q & Hq & Hwq).
  cbn [clear_at]. rewrite (proj2 (Z.eqb_neq _ _) Hd0). cbn [negb]. rewrite Hu, Hq. cbv zeta.
  destruct q as [q|].
  - destruct Hwq as [Hqs Hwq].
    destruct (IH q (i `mod` iDivisor p) fuel Hwq) as (q' & -> & Hwq' & Hqs' & Hh); [by rewrite Hqs|lia|].
    destruct (sub_update k p l i q' Hwf Hu Hi Hwq') as (l' & -> & Hwl & Hhas); [congruence|].
    eexists. split; [reflexivity|]. split; [done|]. split; [done|]. intros j Hj.
    rewrite Hhas by done. case_decide as E.
    + rewrite Hh by (rewrite Hqs; apply Z.mod_pos_bound; lia). rewrite (div_mod_inj _ i j) by done.
      rewrite (has_sub k p l j), E by done. split; [|intros [? (q0 & ? & ?)]; split; [done|congruence]].
      intros [? ?]. split; [done|]. by exists q.
    + split; [|tauto]. intros ?. split; [congruence|done].
  - exists p. split; [done|]. split; [done|]. split; [done|]. intros j Hj.
    split; [|tauto]. intros Hh. split; [|done]. intros ->.
    apply (has_sub k p l i Hwf Hu Hi) in Hh as (q & Hq' & _). congruence.
Qed.

(** ** The set of page numbers

    Four levels hold every size of 32 bits; the descent of a test goes down
    one level a call, that of a set may first convert the block it is at. *)

Definition levels : nat := 4.
Definition test_fuel : nat := S levels.
Definition set_fuel : nat := 2 * levels + 1.

Definition valid (p : Bitvec) : Prop := wf levels p.

Definition member (p : Bitvec) (i : Z) : Prop := sqlite3BitvecTest test_fuel (Some p) i = Some true.

Lemma valid_size p : valid p → 0 ≤ iSize p < 4294967296.
Proof. unfold valid. destruct levels; cbn [wf]; tauto. Qed.

Lemma cap_levels : 4294967296 ≤ cap levels.
Proof. vm_compute. discriminate. Qed.

Lemma test_in p i : valid p → 1 ≤ i ≤ iSize p →
  sqlite3BitvecTest test_fuel (Some p) i = test_at test_fuel p (i - 1).
Proof.
  intros Hv Hi. apply valid_size in Hv. unfold sqlite3BitvecTest, sqlite3BitvecTestNotNull.
  rewrite u32_id by (unfold is_u32; lia). by rewrite (proj2 (Z.leb_gt _ _)) by lia.
Qed.

Lemma member_has p i : valid p → 1 ≤ i ≤ iSize p → member p i ↔ has levels p (i - 1).
Proof. intros Hv Hi. unfold member. by rewrite test_in. Qed.

Lemma set_member p i m : valid p → 1 ≤ i ≤ iSize p →
  ∃ rc p' m', sqlite3BitvecSet set_fuel (Some p) i m = Some (rc, Some p', m') ∧
    set_post levels (iSize p) (λ j, j = i - 1) (has levels p) m rc p' m'.
Proof.
  intros Hv Hi. pose proof (valid_size p Hv). unfold sqlite3BitvecSet. rewrite u32_id by (unfold is_u32; lia).
  destruct (set_ok_all levels set_fuel (le_n _) p (i - 1) m Hv ltac:(lia)) as (rc & p' & m' & -> & Hp). eauto.
Qed.

Lemma clear_member p i : valid p → 1 ≤ i ≤ iSize p →
  ∃ p', sqlite3BitvecClear test_fuel (Some p) i = Some (Some p') ∧ valid p' ∧ iSize p' = iSize p ∧
    ∀ j, 1 ≤ j ≤ iSize p → member p' j ↔ j ≠ i ∧ member p j.
Proof.
  intros Hv Hi. pose proof (valid_size p Hv). unfold sqlite3BitvecClear. rewrite u32_id by (unfold is_u32; lia).
  destruct (clear_ok levels p (i - 1) test_fuel Hv ltac:(lia) ltac:(unfold test_fuel; lia)) as (p' & -> & Hv' & Hs & Hh).
  exists p'. split; [done|]. split; [done|]. split; [done|]. intros j Hj.
  rewrite !member_has by (done || lia). rewrite Hh by lia. intuition lia.
Qed.

(** The operations in a row, no allocation failing. *)
Inductive op : Type := OpSet (i : Z) | OpClear (i : Z).

Definition op_in (n : Z) (o : op) : Prop := match o with OpSet i | OpClear i => 1 ≤ i ≤ n end.

Definition step (p : option Bitvec) (o : op) : option (Z * option Bitvec) :=
  match o with
  | OpSet i => let* (rc, p, _) := sqlite3BitvecSet set_fuel p i [] in Some (rc, p)
  | OpClear i => let* p := sqlite3BitvecClear test_fuel p i in Some (SQLITE_OK, p)
  end.

Fixpoint run (p : option Bitvec) (os : list op) : option (option Bitvec) :=
  match os with
  | [] => Some p
  | o :: os => let* (rc, p) := step p o in if rc =? SQLITE_OK then run p os else None
  end.

(** What the operations are on a set. *)
Definition spec (s : gset Z) (o : op) : gset Z :=
  match o with OpSet i => {[i]} ∪ s | OpClear i => s ∖ {[i]} end.

Definition holds (p : Bitvec) (s : gset Z) : Prop := ∀ j, 1 ≤ j ≤ iSize p → member p j ↔ j ∈ s.

Lemma step_spec p s o : valid p → holds p s → op_in (iSize p) o →
  ∃ p', step (Some p) o = Some (SQLITE_OK, Some p') ∧ valid p' ∧ iSize p' = iSize p ∧ holds p' (spec s o).
Proof.
  intros Hv Hh Ho. destruct o as [i|i]; cbn [op_in step] in *.
  - destruct (set_member p i [] Hv Ho) as (rc & p' & m' & -> & [Hv' Hs _ Hmem Hall Honly]).
    destruct Hmem as [-> _]; [by apply Forall_nil|]. exists p'. split; [done|]. split; [done|]. split; [done|].
    intros j Hj. rewrite Hs in Hj. rewrite member_has by (done || lia). cbn [spec].
    rewrite elem_of_union, elem_of_singleton, <- (Hh j Hj), member_has by done. split.
    + intros H. destruct (Honly (j - 1) ltac:(lia) H); [left; lia|by right].
    + intros H. apply Hall; [done|lia|]. destruct H; [left; lia|by right].
  - destruct (clear_member p i Hv Ho) as (p' & -> & Hv' & Hs & Hm). exists p'.
    split; [done|]. split; [done|]. split; [done|].
    intros j Hj. rewrite Hs in Hj. rewrite Hm by done. cbn [spec]. rewrite (Hh j Hj). set_solver.
Qed.

Lemma run_spec os : ∀ p s, valid p → holds p s → Forall (op_in (iSize p)) os →
  ∃ p', run (Some p) os = Some (Some p') ∧ valid p' ∧ iSize p' = iSize p ∧ holds p' (foldl spec s os).
Proof.
  induction os as [|o os IH]; intros p s Hv Hh Hos; cbn [run foldl]; [by exists p|].
  apply Forall_cons in Hos as [Ho Hos].
  destruct (step_spec p s o Hv Hh Ho) as (p1 & -> & Hv1 & Hs1 & Hh1). rewrite Z.eqb_refl.
  destruct (IH p1 (spec s o) Hv1 Hh1) as (p' & E & Hv' & Hs' & Hh'); [by rewrite Hs1|].
  exists p'. split; [done|]. split; [done|]. split; [congruence|done].
Qed.

Lemma zeroed_valid n : 0 ≤ n < 4294967296 → valid (zeroed n) ∧ holds (zeroed n) ∅.
Proof.
  intros Hn. pose proof cap_levels. assert (valid (zeroed n)) as Hv by (apply zeroed_wf; lia).
  split; [done|]. intros j Hj. rewrite member_has by done. change (iSize (zeroed n)) with n in Hj.
  split; [|set_solver]. intros Hh. exfalso. revert Hh. apply test_zeroed; lia.
Qed.

(** C2: A bitmap is a set of page numbers: after any sequence of sets and
    clears of numbers from 1 to its size on a new bitmap, through all the
    conversions from hash table to sub-bitmaps, a test answers, and answers
    whether the number is in the set the same operations build; numbers past
    the size, and 0, are never in it. *)
Theorem bitvec_refines n os :
  0 ≤ n < 4294967296 → Forall (op_in n) os →
  ∃ p m p', sqlite3BitvecCreate n [] = (Some p, m) ∧ run (Some p) os = Some (Some p') ∧
    sqlite3BitvecSize p' = n ∧
    ∀ j, 0 ≤ j < 4294967296 →
      sqlite3BitvecTest test_fuel (Some p') j = Some (bool_decide (1 ≤ j ≤ n ∧ j ∈ foldl spec ∅ os)).
Proof.
  intros Hn Hos. destruct (zeroed_valid n Hn) as [Hv Hh].
  destruct (run_spec os (zeroed n) ∅ Hv Hh Hos) as (p' & E & Hv' & Hs & Hh').
  exists (zeroed n), [], p'. split; [done|]. split; [done|]. split; [done|]. intros j Hj.
  change (iSize (zeroed n)) with n in Hs. destruct (decide (1 ≤ j ≤ n)) as [Hin|Hout].
  - destruct (test_total levels p' (j - 1) Hv' ltac:(lia)) as [b Hb].
    rewrite test_in by (done || lia). unfold test_fuel. rewrite Hb. f_equal.
    specialize (Hh' j ltac:(lia)). rewrite member_has in Hh' by (done || lia). unfold has in Hh'. rewrite Hb in Hh'.
    destruct b; [rewrite bool_decide_true|rewrite bool_decide_false]; [done|split; [done|by apply Hh']|done|].
    intros [_ Hm]. by apply Hh' in Hm.
  - rewrite bool_decide_false by tauto. unfold sqlite3BitvecTest, sqlite3BitvecTestNotNull.
    rewrite (proj2 (Z.leb_le _ _)); [done|]. rewrite Hs. destruct (decide (j = 0)) as [->|Hj0].
    + change (u32 (0 - 1)) with 4294967295. lia.
    + rewrite u32_id by (unfold is_u32; lia). lia.
Qed.

Lemma bitvec_refines_witness :
  0 ≤ 5000 < 4294967296 ∧ Forall (op_in 5000) [OpSet 4999; OpSet 125; OpSet 1; OpClear 125] ∧
  ∃ p m p', sqlite3BitvecCreate 5000 [] = (Some p, m) ∧
    run (Some p) [OpSet 4999; OpSet 125; OpSet 1; OpClear 125] = Some (Some p') ∧
    sqlite3BitvecSize p' = 5000 ∧
    ∀ j, 0 ≤ j < 4294967296 → sqlite3BitvecTest test_fuel (Some p') j =
      Some (bool_decide (1 ≤ j ≤ 5000 ∧ j ∈ foldl spec ∅ [OpSet 4999; OpSet 125; OpSet 1; OpClear 125])).
Proof.
  assert (Forall (op_in 5000) [OpSet 4999; OpSet 125; OpSet 1; OpClear 125]) as H
    by (repeat constructor; discriminate).
  split; [lia|]. split; [exact H|]. apply (bitvec_refines 5000); [lia|exact H].
Defined.

(** Setting a number in a bitmap that may be at any stage answers OK
    exactly with the number in the set and the others as they were; only a
    failed allocation makes it answer NOMEM, and then the bitmap is still
    valid and holds nothing that was not there or asked for. *)
Theorem bitvec_set_failures p i m :
  valid p → 1 ≤ i ≤ iSize p →
  ∃ rc p' m', sqlite3BitvecSet set_fuel (Some p) i m = Some (rc, Some p', m') ∧
    valid p' ∧ iSize p' = iSize p ∧ (rc = SQLITE_OK ∨ rc = SQLITE_NOMEM) ∧
    (no_failure m → rc = SQLITE_OK) ∧
    (rc = SQLITE_OK → ∀ j, 1 ≤ j ≤ iSize p → member p' j ↔ j = i ∨ member p j) ∧
    (∀ j, 1 ≤ j ≤ iSize p → member p' j → j = i ∨ member p j).
Proof.
  intros Hv Hi. destruct (set_member p i m Hv Hi) as (rc & p' & m' & E & [Hv' Hs Hrc Hmem Hall Honly]).
  exists rc, p', m'. split; [done|]. split; [done|]. split; [done|]. split; [done|].
  split; [by intros H; destruct (Hmem H)|].
  assert (∀ j, 1 ≤ j ≤ iSize p → member p' j → j = i ∨ member p j) as Ho.
  { intros j Hj Hh. rewrite member_has in Hh |- * by (done || lia).
    destruct (Honly (j - 1) ltac:(lia) Hh); [left; lia|by right]. }
  split; [|done]. intros Hok j Hj. split; [by apply Ho|]. intros Hor.
  rewrite member_has in Hor |- * by (done || lia). apply Hall; [done|lia|]. destruct Hor; [left; lia|by right].
Qed.

Lemma bitvec_set_failures_witness :
  valid (zeroed 5000) ∧ 1 ≤ 7 ≤ iSize (zeroed 5000) ∧
  ∃ rc p' m', sqlite3BitvecSet set_fuel (Some (zeroed 5000)) 7 [false] = Some (rc, Some p', m') ∧
    valid p' ∧ iSize p' = iSize (zeroed 5000) ∧ (rc = SQLITE_OK ∨ rc = SQLITE_NOMEM) ∧
    (no_failure [false] → rc = SQLITE_OK) ∧
    (rc = SQLITE_OK → ∀ j, 1 ≤ j ≤ iSize (zeroed 5000) → member p' j ↔ j = 7 ∨ member (zeroed 5000) j) ∧
    (∀ j, 1 ≤ j ≤ iSize (zeroed 5000) → member p' j → j = 7 ∨ member (zeroed 5000) j).
Proof.
  assert (valid (zeroed 5000)) as Hv by (apply zeroed_valid; lia).
  assert (1 ≤ 7 ≤ iSize (zeroed 5000)) as Hi by (split; discriminate).
  split; [exact Hv|]. split; [exact Hi|]. exact (bitvec_set_failures (zeroed 5000) 7 [false] Hv Hi).
Defined.

End Bitvec.
