(* ===== verification/RowSet.v ===== *)
(** * Sets of row numbers ([native/sqlite3/sqlite3.c], rowset.c)

    Row numbers are inserted in any order into a list; tests of a new batch
    sort the list and merge it into a forest of balanced trees, and an
    extraction sorts it once and hands the numbers out.  A list linked by
    [pRight] is a list of row numbers, a tree its entries; no entry is ever on
    two of them.  Passing a null pointer where the code dereferences it, or a
    bucket past the last, has no behaviour ([None]). *)

From Stdlib Require Import Sorted.
From S2P Require Import Prelude.

Module RowSet.

(** A tree of entries, [null] the null pointer. *)
(* native/sqlite3/sqlite3.c:57467-57479 RowSetEntry *)
Inductive tree : Type := null | node (v : Z) (pLeft pRight : tree).

(** [pChunk] counts the chunks held; [pLast] is the value of the last entry;
    the forest is the list of the trees of its entries. *)
(* native/sqlite3/sqlite3.c:57487-57513 RowSet *)
Record RowSet : Type := mk {
  pChunk : nat;
  pEntry : list Z;
  pLast : option Z;
  pForest : list tree;
  nFresh : Z;
  ROWSET_SORTED : bool;
  ROWSET_NEXT : bool;
  iBatch : Z
}.

(* native/sqlite3/sqlite3.c:57459-57465 ROWSET_ENTRY_PER_CHUNK *)
Definition ROWSET_ENTRY_PER_CHUNK : Z := (1024 - 8) `div` 24.

(** [N] is the size the allocator gave the object, whose own part takes 56
    bytes; entries of 24 bytes fill the rest. *)
(* native/sqlite3/sqlite3.c:57515-57534 sqlite3RowSetInit *)
Definition sqlite3RowSetInit (N : Z) (m : list bool) : option RowSet * list bool :=
  let '(ok, m) := alloc m in
  (if ok then Some (mk 0 [] None [] (u16 ((N - 56) `div` 24)) true false 0) else None, m).

(** Returns the number of chunks freed too. *)
(* native/sqlite3/sqlite3.c:57536-57554 sqlite3RowSetClear *)
Definition sqlite3RowSetClear (p : RowSet) : RowSet * nat :=
  (mk 0 [] None [] 0 true false (iBatch p), pChunk p).

(** The blocks freed: the chunks and the object. *)
(* native/sqlite3/sqlite3.c:57556-57564 sqlite3RowSetDelete *)
Definition sqlite3RowSetDelete (p : RowSet) : nat := S (snd (sqlite3RowSetClear p)).

(* native/sqlite3/sqlite3.c:57566-57591 rowSetEntryAlloc *)
Definition rowSetEntryAlloc (p : RowSet) (m : list bool) : bool * RowSet * list bool :=
  let '(ok, chunk, n, m) :=
    if nFresh p =? 0 then
      let '(ok, m) := alloc m in
      if ok then (true, S (pChunk p), ROWSET_ENTRY_PER_CHUNK, m) else (false, pChunk p, nFresh p, m)
    else (true, pChunk p, nFresh p, m) in
  if ok then
    (true, mk chunk (pEntry p) (pLast p) (pForest p) (u16 (n - 1)) (ROWSET_SORTED p) (ROWSET_NEXT p)
       (iBatch p), m)
  else (false, p, m).

(* native/sqlite3/sqlite3.c:57593-57622 sqlite3RowSetInsert *)
Definition sqlite3RowSetInsert (p : RowSet) (rowid : Z) (m : list bool) : RowSet * list bool :=
  let '(ok, p, m) := rowSetEntryAlloc p m in
  if negb ok then (p, m) else
  let sorted := match pLast p with
                | Some v => if rowid <=? v then false else ROWSET_SORTED p
                | None => ROWSET_SORTED p
                end in
  let entries := match pLast p with Some _ => pEntry p ++ [rowid] | None => [rowid] end in
  (mk (pChunk p) entries (Some rowid) (pForest p) (nFresh p) sorted (ROWSET_NEXT p) (iBatch p), m).

(** ** Sorting *)

(** Of two equal heads the one of [pA] is left out. *)
(* native/sqlite3/sqlite3.c:57624-57659 rowSetEntryMerge *)
Fixpoint rowSetEntryMerge (pA : list Z) : list Z → option (list Z) :=
  fix merge_b (pB : list Z) : option (list Z) :=
    match pA, pB with
    | a :: pA', b :: pB' =>
        if a <=? b then
          let* l := match pA' with [] => Some pB | _ => rowSetEntryMerge pA' pB end in
          Some (if a <? b then a :: l else l)
        else
          let* l := match pB' with [] => Some pA | _ => merge_b pB' end in
          Some (b :: l)
    | _, _ => None
    end.

(** An entry goes to the first free bucket, merged with those before it. *)
(* native/sqlite3/sqlite3.c:57673-57677 rowSetEntrySort, the for loop *)
Fixpoint place (aBucket : list (list Z)) (pIn : list Z) : option (list (list Z)) :=
  match aBucket with
  | [] => None
  | [] :: bs => Some (pIn :: bs)
  | b :: bs =>
      let* p := rowSetEntryMerge b pIn in
      let* bs := place bs p in
      Some ([] :: bs)
  end.

(* native/sqlite3/sqlite3.c:57670-57679 rowSetEntrySort, the while loop *)
Fixpoint place_all (aBucket : list (list Z)) (pIn : list Z) : option (list (list Z)) :=
  match pIn with
  | [] => Some aBucket
  | v :: pNext => let* bs := place aBucket [v] in place_all bs pNext
  end.

(* native/sqlite3/sqlite3.c:57680-57684 rowSetEntrySort, the second for loop *)
Fixpoint collect (pIn : list Z) (aBucket : list (list Z)) : option (list Z) :=
  match aBucket with
  | [] => Some pIn
  | [] :: bs => collect pIn bs
  | b :: bs =>
      let* p := match pIn with [] => Some b | _ => rowSetEntryMerge pIn b end in
      collect p bs
  end.

(* native/sqlite3/sqlite3.c:57661-57686 rowSetEntrySort *)
Definition rowSetEntrySort (pIn : list Z) : option (list Z) :=
  let* bs := place_all (replicate 40 []) pIn in
  match bs with [] => None | b :: bs => collect b bs end.

(** ** Trees and lists *)

(** The callers pass a tree that is not empty. *)
(* native/sqlite3/sqlite3.c:57689-57713 rowSetTreeToList *)
Fixpoint rowSetTreeToList (pIn : tree) : list Z :=
  match pIn with
  | null => []
  | node v pLeft pRight => rowSetTreeToList pLeft ++ v :: rowSetTreeToList pRight
  end.

(** Answers the tree and the entries left. *)
(* native/sqlite3/sqlite3.c:57716-57759 rowSetNDeepTree *)
Fixpoint rowSetNDeepTree (iDepth : nat) (ppList : list Z) : tree * list Z :=
  match ppList with
  | [] => (null, [])
  | v :: next =>
      match iDepth with
      | O => (node v null null, next)
      | S d =>
          if (0 <? d)%nat then
            let '(pLeft, ppList) := rowSetNDeepTree d ppList in
            match ppList with
            | [] => (pLeft, [])
            | v :: next =>
                let '(pRight, ppList) := rowSetNDeepTree d next in
                (node v pLeft pRight, ppList)
            end
          else (node v null null, next)
      end
  end.

(* native/sqlite3/sqlite3.c:57774-57780 rowSetListToTree, the for loop *)
Fixpoint tree_loop (fuel : nat) (iDepth : nat) (p : tree) (pList : list Z) : option tree :=
  match pList with
  | [] => Some p
  | v :: pList =>
      match fuel with
      | O => None
      | S fuel =>
          let '(pRight, pList) := rowSetNDeepTree iDepth pList in
          tree_loop fuel (S iDepth) (node v p pRight) pList
      end
  end.

(* native/sqlite3/sqlite3.c:57761-57782 rowSetListToTree *)
Definition rowSetListToTree (pList : list Z) : option tree :=
  match pList with
  | [] => None
  | v :: pList => tree_loop (length pList) 1 (node v null null) pList
  end.

(** ** Extraction *)

(** The result and, when it is 1, the row number. *)
(* native/sqlite3/sqlite3.c:57784-57821 sqlite3RowSetNext *)
Definition sqlite3RowSetNext (p : RowSet) : option (Z * option Z * RowSet) :=
  let* entries :=
    if ROWSET_NEXT p then Some (pEntry p)
    else if ROWSET_SORTED p then Some (pEntry p)
    else rowSetEntrySort (pEntry p) in
  match entries with
  | v :: next =>
      let p := mk (pChunk p) next (pLast p) (pForest p) (nFresh p) true true (iBatch p) in
      Some (1, Some v, match next with [] => fst (sqlite3RowSetClear p) | _ => p end)
  | [] => Some (0, None, mk (pChunk p) [] (pLast p) (pForest p) (nFresh p) true true (iBatch p))
  end.

(** ** Tests *)

(** The list goes to the first free tree of the forest, merged with those
    before it; [None] for the list when it has gone there. *)
(* native/sqlite3/sqlite3.c:57848-57859 sqlite3RowSetTest, the first for loop *)
Fixpoint into_forest (f : list tree) (p : list Z) : option (list tree * option (list Z)) :=
  match f with
  | [] => Some ([], Some p)
  | null :: f => let* t := rowSetListToTree p in Some (t :: f, None)
  | t :: f =>
      let* p := rowSetEntryMerge (rowSetTreeToList t) p in
      let* (f, rest) := into_forest f p in
      Some (null :: f, rest)
  end.

(* native/sqlite3/sqlite3.c:57880-57888 sqlite3RowSetTest, the while loop *)
Fixpoint tree_mem (p : tree) (iRowid : Z) : bool :=
  match p with
  | null => false
  | node v pLeft pRight =>
      if v <? iRowid then tree_mem pRight iRowid
      else if iRowid <? v then tree_mem pLeft iRowid
      else true
  end.

(** The part for a new batch. *)
(* native/sqlite3/sqlite3.c:57837-57873 sqlite3RowSetTest *)
Definition new_batch (p : RowSet) (batch : Z) (m : list bool) : option (RowSet * list bool) :=
  match pEntry p with
  | [] => Some (mk (pChunk p) [] (pLast p) (pForest p) (nFresh p) (ROWSET_SORTED p) (ROWSET_NEXT p) batch, m)
  | _ =>
      let* l := if ROWSET_SORTED p then Some (pEntry p) else rowSetEntrySort (pEntry p) in
      let* (f, rest) := into_forest (pForest p) l in
      match rest with
      | None => Some (mk (pChunk p) [] None f (nFresh p) true (ROWSET_NEXT p) batch, m)
      | Some l =>
          let '(ok, p, m) := rowSetEntryAlloc p m in
          if ok then
            let* t := rowSetListToTree l in
            Some (mk (pChunk p) [] None (f ++ [t]) (nFresh p) true (ROWSET_NEXT p) batch, m)
          else Some (mk (pChunk p) [] None f (nFresh p) true (ROWSET_NEXT p) batch, m)
      end
  end.

(* native/sqlite3/sqlite3.c:57823-57891 sqlite3RowSetTest *)
Definition sqlite3RowSetTest (p : RowSet) (batch iRowid : Z) (m : list bool)
  : option (Z * RowSet * list bool) :=
  let* (p, m) := if negb (batch =? iBatch p) then new_batch p batch m else Some (p, m) in
  Some (if existsb (λ t, tree_mem t iRowid) (pForest p) then 1 else 0, p, m).

(** ** Sorted lists *)

Definition ssorted (l : list Z) : Prop := StronglySorted Z.lt l.

Lemma ssorted_app l1 l2 : ssorted l1 → ssorted l2 → (∀ x y, x ∈ l1 → y ∈ l2 → x < y) → ssorted (l1 ++ l2).
Proof.
  intros H1 H2 H. induction H1 as [|x l1 Hs IH Hx]; [done|]. cbn [app]. constructor.
  - apply IH. intros y z Hy. apply H. by right.
  - apply Forall_app. split; [done|]. apply Forall_forall. intros y Hy. apply H; [by left|done].
Qed.

Lemma ssorted_app_inv l1 l2 : ssorted (l1 ++ l2) →
  ssorted l1 ∧ ssorted l2 ∧ ∀ x y, x ∈ l1 → y ∈ l2 → x < y.
Proof.
  induction l1 as [|x l1 IH]; cbn [app]; intros H; [split; [constructor|split; [done|set_solver]]|].
  apply StronglySorted_inv in H as [H Hx]. apply Forall_app in Hx as [Hx1 Hx2].
  destruct (IH H) as (? & ? & Hlt). split; [by constructor|]. split; [done|].
  intros a b [->|Ha]%elem_of_cons Hb; [|by apply Hlt]. rewrite Forall_forall in Hx2. by apply Hx2.
Qed.

Lemma ssorted_snoc l x v : ssorted l → last l = Some v → v < x → ssorted (l ++ [x]).
Proof.
  intros Hs Hl Hv. apply ssorted_app; [done|repeat constructor|].
  apply last_Some in Hl as [l' ->]. apply ssorted_app_inv in Hs as (_ & _ & Hlt).
  intros a b [Ha|Ha]%elem_of_app ->%list_elem_of_singleton.
  - specialize (Hlt a v Ha ltac:(by left)). lia.
  - apply list_elem_of_singleton in Ha as ->. done.
Qed.

Lemma merge_cons a pA b pB : rowSetEntryMerge (a :: pA) (b :: pB) =
  if a <=? b then
    let* l := match pA with [] => Some (b :: pB) | _ => rowSetEntryMerge pA (b :: pB) end in
    Some (if a <? b then a :: l else l)
  else
    let* l := match pB with [] => Some (a :: pA) | _ => rowSetEntryMerge (a :: pA) pB end in
    Some (b :: l).
Proof. done. Qed.

(** Two sorted lists give the sorted list of their elements, without
    duplicates. *)
Definition merged (a b l : list Z) : Prop := ssorted l ∧ ∀ x, x ∈ l ↔ x ∈ a ∨ x ∈ b.

Lemma merge_spec a : ∀ b, a ≠ [] → b ≠ [] → ssorted a → ssorted b →
  ∃ l, rowSetEntryMerge a b = Some l ∧ l ≠ [] ∧ merged a b l.
Proof.
  induction a as [|x a IHa]; [done|]. induction b as [|y b IHb]; [done|]. intros _ _ Ha Hb.
  rewrite merge_cons. apply StronglySorted_inv in Ha as [Ha Hxa]. pose proof Hb as Hb0.
  apply StronglySorted_inv in Hb0 as [Hb' Hyb]. rewrite Forall_forall in Hxa, Hyb.
  destruct (Z.leb_spec x y) as [Hxy|Hxy].
  - assert (∃ l, match a with [] => Some (y :: b) | _ => rowSetEntryMerge a (y :: b) end = Some l ∧
      l ≠ [] ∧ merged a (y :: b) l) as (l & -> & Hl & Hs & Hm).
    { destruct a; [exists (y :: b)|by apply IHa]. split; [done|]. split; [done|]. split; [done|set_solver]. }
    eexists. split; [done|]. destruct (Z.ltb_spec x y) as [Hlt|Hge].
    + split; [done|]. split; [|set_solver]. constructor; [done|]. apply Forall_forall. intros z Hz.
      apply Hm in Hz as [Hz|[->|Hz]%elem_of_cons]; [by apply Hxa|done|]. specialize (Hyb z Hz). lia.
    + assert (x = y) as -> by lia. split; [done|]. split; [done|set_solver].
  - assert (∃ l, match b with [] => Some (x :: a) | _ => rowSetEntryMerge (x :: a) b end = Some l ∧
      l ≠ [] ∧ merged (x :: a) b l) as (l & -> & Hl & Hs & Hm).
    { assert (ssorted (x :: a)) by (constructor; [done|by apply Forall_forall]).
      destruct b; [exists (x :: a)|by apply IHb]. split; [done|]. split; [done|]. split; [done|set_solver]. }
    eexists. split; [done|]. split; [done|]. split; [|set_solver].
    constructor; [done|]. apply Forall_forall. intros z Hz.
    apply Hm in Hz as [[->|Hz]%elem_of_cons|Hz]; [done| |by apply Hyb]. specialize (Hxa z Hz). lia.
Qed.

(** ** The buckets *)

(** A bucket [i] that is not empty stands for [2 ^ i] entries placed. *)
Fixpoint weight (bs : list (list Z)) : Z :=
  match bs with [] => 0 | b :: bs => (match b with [] => 0 | _ => 1 end) + 2 * weight bs end.

Definition within (x : Z) (bs : list (list Z)) : Prop := Exists (λ b, x ∈ b) bs.

Lemma place_spec bs : ∀ p, p ≠ [] → ssorted p → Forall ssorted bs →
  weight bs + 1 < 2 ^ Z.of_nat (length bs) →
  ∃ bs', place bs p = Some bs' ∧ Forall ssorted bs' ∧ length bs' = length bs ∧
    weight bs' = weight bs + 1 ∧ ∀ x, within x bs' ↔ x ∈ p ∨ within x bs.
Proof.
  unfold within. induction bs as [|b bs IH]; intros p Hp Hs Hbs Hw; [simpl in Hw; lia|].
  apply Forall_cons in Hbs as [Hb Hbs]. destruct b as [|v b].
  - exists (p :: bs). split; [done|]. split; [by constructor|]. split; [done|].
    split; [cbn [weight]; destruct p; [done|lia]|]. intros x. rewrite !Exists_cons. set_solver.
  - destruct (merge_spec (v :: b) p ltac:(done) Hp Hb Hs) as (l & E & Hl & Hsl & Hm).
    cbn [place]. rewrite E. cbn [weight length] in Hw. rewrite Nat2Z.inj_succ, Z.pow_succ_r in Hw by lia.
    destruct (IH l Hl Hsl Hbs ltac:(lia)) as (bs' & -> & Hbs' & Hlen & Hw' & Hx).
    exists ([] :: bs'). split; [done|]. split; [by repeat constructor|]. split; [by cbn; f_equal|].
    split; [cbn [weight]; lia|]. intros x. rewrite !Exists_cons, Hx, Hm. set_solver.
Qed.

Lemma place_all_spec l : ∀ bs, Forall ssorted bs →
  weight bs + Z.of_nat (length l) < 2 ^ Z.of_nat (length bs) →
  ∃ bs', place_all bs l = Some bs' ∧ Forall ssorted bs' ∧ length bs' = length bs ∧
    ∀ x, within x bs' ↔ x ∈ l ∨ within x bs.
Proof.
  induction l as [|v l IH]; intros bs Hbs Hw; cbn [place_all].
  { exists bs. split; [done|]. split; [done|]. split; [done|]. set_solver. }
  cbn [length] in Hw. destruct (place_spec bs [v] ltac:(done) ltac:(repeat constructor) Hbs ltac:(lia))
    as (bs1 & -> & Hbs1 & Hl1 & Hw1 & Hx1).
  destruct (IH bs1 Hbs1) as (bs' & -> & Hbs' & Hl' & Hx'); [rewrite Hl1, Hw1; lia|].
  exists bs'. split; [done|]. split; [done|]. split; [congruence|]. intros x. rewrite Hx', Hx1. set_solver.
Qed.

Lemma collect_spec bs : ∀ p, ssorted p → Forall ssorted bs →
  ∃ l, collect p bs = Some l ∧ ssorted l ∧ ∀ x, x ∈ l ↔ x ∈ p ∨ within x bs.
Proof.
  unfold within. induction bs as [|b bs IH]; intros p Hp Hbs; cbn [collect].
  { exists p. split; [done|]. split; [done|]. intros x. rewrite Exists_nil. tauto. }
  apply Forall_cons in Hbs as [Hb Hbs]. destruct b as [|v b].
  { destruct (IH p Hp Hbs) as (l & E & Hl & Hx). exists l. split; [done|]. split; [done|].
    intros x. rewrite Exists_cons, Hx. set_solver. }
  assert (∃ l, match p with [] => Some (v :: b) | _ => rowSetEntryMerge p (v :: b) end = Some l ∧
    merged p (v :: b) l) as (l1 & -> & Hs1 & Hm1).
  { destruct p as [|y p]; [exists (v :: b); split; [done|]; split; [done|set_solver]|].
    destruct (merge_spec (y :: p) (v :: b)) as (l & ? & _ & ?); [done..|]. eauto. }
  destruct (IH l1 Hs1 Hbs) as (l & -> & Hl & Hx). exists l. split; [done|]. split; [done|].
  intros x. rewrite Exists_cons, Hx, Hm1. tauto.
Qed.

Lemma sort_spec l : Z.of_nat (length l) < 2 ^ 40 →
  ∃ l', rowSetEntrySort l = Some l' ∧ ssorted l' ∧ ∀ x, x ∈ l' ↔ x ∈ l.
Proof.
  intros Hl. unfold rowSetEntrySort.
  assert (∀ x n, ¬ within x (replicate n [])) as Hno.
  { intros x n. unfold within. rewrite Exists_exists. intros (b & [-> _]%elem_of_replicate & Hx). set_solver. }
  destruct (place_all_spec l (replicate 40 [])) as (bs & -> & Hs & Hlen & Hx).
  - apply Forall_replicate. constructor.
  - rewrite length_replicate. replace (weight (replicate 40 [])) with 0 by done. lia.
  - destruct bs as [|b bs]; [done|]. apply Forall_cons in Hs as [Hb Hs].
    destruct (collect_spec bs b Hb Hs) as (l' & -> & Hl' & Hx'). exists l'. split; [done|]. split; [done|].
    intros x. rewrite Hx'. specialize (Hx x). unfold within in Hx. rewrite Exists_cons in Hx.
    fold (within x bs) (within x (replicate 40 [])) in Hx. specialize (Hno x 40%nat). tauto.
Qed.

(** ** Trees *)

Fixpoint height (t : tree) : nat :=
  match t with null => O | node _ l r => S (Nat.max (height l) (height r)) end.

Lemma ndeep_spec d : ∀ l t rest, (0 < d)%nat → rowSetNDeepTree d l = (t, rest) →
  rowSetTreeToList t ++ rest = l ∧ (height t ≤ d)%nat ∧
  (rest ≠ [] → Z.of_nat (length (rowSetTreeToList t)) = 2 ^ Z.of_nat d - 1) ∧ (l ≠ [] → t ≠ null).
Proof.
  induction d as [|d IH]; intros l t rest Hd; [lia|].
  destruct l as [|v l]; [intros [= <- <-]; cbn [rowSetTreeToList height]; split_and!; done || lia|].
  cbn [rowSetNDeepTree].
  destruct (Nat.ltb_spec 0 d) as [Hd'|Hd'].
  - destruct (rowSetNDeepTree d (v :: l)) as [tl l1] eqn:E1. apply IH in E1 as (E1 & Hh1 & Hs1 & Hn1); [|done].
    destruct l1 as [|v1 l1].
    + intros [= <- <-]. split; [done|]. split; [lia|]. done.
    + destruct (rowSetNDeepTree d l1) as [tr l2] eqn:E2. apply IH in E2 as (E2 & Hh2 & Hs2 & _); [|done].
      intros [= <- <-]. cbn [rowSetTreeToList height]. split.
      { rewrite <- E1, <- E2. by rewrite <- (assoc_L (++)). }
      split; [lia|]. split; [|done]. intros Hr. specialize (Hs1 ltac:(done)). specialize (Hs2 Hr).
      rewrite length_app. cbn [length]. rewrite (Nat2Z.inj_succ d), Z.pow_succ_r by lia. lia.
  - intros [= <- <-]. assert (d = O) as -> by lia. split; [done|]. split; [done|]. done.
Qed.

Lemma tree_loop_spec fuel : ∀ d p l, (length l ≤ fuel)%nat → (0 < d)%nat → (height p ≤ d)%nat → p ≠ null →
  (l ≠ [] → Z.of_nat (length (rowSetTreeToList p)) = 2 ^ Z.of_nat d - 1) →
  2 ^ (Z.of_nat d - 1) ≤ Z.of_nat (length (rowSetTreeToList p)) →
  ∃ t, tree_loop fuel d p l = Some t ∧ rowSetTreeToList t = rowSetTreeToList p ++ l ∧ t ≠ null ∧
    2 ^ (Z.of_nat (height t) - 1) ≤ Z.of_nat (length (rowSetTreeToList t)).
Proof.
  induction fuel as [|fuel IH]; intros d p l Hf Hd Hh Hp Hfull Hlow; (destruct l as [|v l];
    [exists p; split; [done|]; split; [by rewrite app_nil_r|]; split; [done|];
     eapply Z.le_trans; [|exact Hlow]; apply Z.pow_le_mono_r; lia|]); [cbn in Hf; lia|].
  cbn [tree_loop]. destruct (rowSetNDeepTree d l) as [r l'] eqn:E.
  apply ndeep_spec in E as (E & Hhr & Hsr & _); [|done]. specialize (Hfull ltac:(done)).
  assert (length l' ≤ length l)%nat as Hl' by (rewrite <- E, length_app; lia). cbn [length] in Hf.
  destruct (IH (S d) (node v p r) l' ltac:(lia) ltac:(lia)) as (t & -> & Et & Ht & Hht).
  - cbn [height]. lia.
  - done.
  - intros Hn. specialize (Hsr Hn). cbn [rowSetTreeToList]. rewrite length_app. cbn [length].
    rewrite (Nat2Z.inj_succ d), Z.pow_succ_r by lia. lia.
  - cbn [rowSetTreeToList]. rewrite length_app. cbn [length].
    replace (Z.of_nat (S d) - 1) with (Z.of_nat d) by lia. lia.
  - exists t. split; [done|]. split; [|done]. rewrite Et. cbn [rowSetTreeToList].
    rewrite <- (assoc_L (++)). cbn [app]. by rewrite E.
Qed.

Lemma list_to_tree l : l ≠ [] →
  ∃ t, rowSetListToTree l = Some t ∧ rowSetTreeToList t = l ∧ t ≠ null ∧
    2 ^ (Z.of_nat (height t) - 1) ≤ Z.of_nat (length l).
Proof.
  destruct l as [|v l]; [done|]. intros _. unfold rowSetListToTree.
  destruct (tree_loop_spec (length l) 1 (node v null null) l) as (t & -> & E & Ht & Hh);
    [cbn; lia..|done|done|discriminate|].
  exists t. split; [done|]. rewrite E in Hh. by split.
Qed.

(** A search of a sorted tree. *)
Lemma tree_mem_spec t x : ssorted (rowSetTreeToList t) →
  tree_mem t x = bool_decide (x ∈ rowSetTreeToList t).
Proof.
  induction t as [|v l IHl r IHr]; cbn [tree_mem rowSetTreeToList]; intros Hs.
  { by rewrite bool_decide_false by set_solver. }
  apply ssorted_app_inv in Hs as (Hl & Hr & Hlt). apply StronglySorted_inv in Hr as [Hr Hv].
  rewrite Forall_forall in Hv.
  destruct (Z.ltb_spec v x) as [Hvx|Hvx]; [|destruct (Z.ltb_spec x v) as [Hxv|Hxv]].
  - rewrite IHr by done. apply bool_decide_ext. rewrite elem_of_app, elem_of_cons. split; [auto|].
    intros [Hx|[->|?]]; [|lia|done]. specialize (Hlt x v Hx ltac:(by left)). lia.
  - rewrite IHl by done. apply bool_decide_ext. rewrite elem_of_app, elem_of_cons. split; [auto|].
    intros [?|[->|Hx]]; [done|lia|]. specialize (Hv x Hx). lia.
  - assert (x = v) as -> by lia. rewrite bool_decide_true; [done|]. set_solver.
Qed.

(** ** The forest *)

Definition sorted_forest (f : list tree) : Prop := Forall (λ t, ssorted (rowSetTreeToList t)) f.

Definition in_forest (x : Z) (f : list tree) : Prop := Exists (λ t, x ∈ rowSetTreeToList t) f.

Lemma forest_mem f x : sorted_forest f →
  existsb (λ t, tree_mem t x) f = bool_decide (in_forest x f).
Proof.
  unfold in_forest. induction 1 as [|t f Ht Hf IH]; cbn [existsb].
  - rewrite bool_decide_false; [done|]. intros H. by apply Exists_nil in H.
  - rewrite IH, tree_mem_spec by done. rewrite <- bool_decide_or. apply bool_decide_ext. by rewrite Exists_cons.
Qed.

Lemma into_forest_spec f : ∀ p, sorted_forest f → p ≠ [] → ssorted p →
  ∃ f' rest, into_forest f p = Some (f', rest) ∧ sorted_forest f' ∧
    match rest with
    | None => ∀ x, in_forest x f' ↔ x ∈ p ∨ in_forest x f
    | Some l => l ≠ [] ∧ ssorted l ∧ (∀ x, ¬ in_forest x f') ∧ ∀ x, x ∈ l ↔ x ∈ p ∨ in_forest x f
    end.
Proof.
  unfold in_forest. induction f as [|t f IH]; intros p Hf Hp Hs.
  { exists [], (Some p). split; [done|]. split; [done|]. split; [done|]. split; [done|].
    split; [intros x H; by apply Exists_nil in H|]. intros x. rewrite Exists_nil. tauto. }
  apply Forall_cons in Hf as [Ht Hf]. destruct t as [|v tl tr].
  - cbn [into_forest]. destruct (list_to_tree p Hp) as (t & -> & Et & _).
    exists (t :: f), None. split; [done|]. split; [constructor; [by rewrite Et|done]|].
    intros x. rewrite !Exists_cons, Et. cbn [rowSetTreeToList]. set_solver.
  - remember (node v tl tr) as t eqn:Etr. assert (rowSetTreeToList t ≠ []) as Hne.
    { subst t. cbn [rowSetTreeToList]. by destruct (rowSetTreeToList tl). }
    destruct (merge_spec (rowSetTreeToList t) p Hne Hp Ht Hs) as (l & El & Hl & Hsl & Hm).
    assert (into_forest (t :: f) p = let* (f, rest) := into_forest f l in Some (null :: f, rest)) as ->.
    { subst t. cbn [into_forest]. by rewrite El. }
    destruct (IH l Hf Hl Hsl) as (f' & rest & -> & Hf' & Hrest).
    exists (null :: f'), rest. split; [done|]. split; [by constructor; [constructor|]|].
    destruct rest as [l'|].
    + destruct Hrest as (Hl' & Hsl' & Hno & Hin). split; [done|]. split; [done|].
      split; [intros x; rewrite Exists_cons; specialize (Hno x); cbn [rowSetTreeToList]; set_solver|].
      intros x. rewrite Hin, Hm, Exists_cons. tauto.
    + intros x. rewrite Exists_cons, Hrest, Hm, Exists_cons. cbn [rowSetTreeToList]. set_solver.
Qed.

(** ** The row set *)

Record wf (n : Z) (p : RowSet) : Prop := {
  wf_next : ROWSET_NEXT p = false;
  wf_last : pLast p = last (pEntry p);
  wf_sorted : ROWSET_SORTED p = true → ssorted (pEntry p);
  wf_forest : sorted_forest (pForest p);
  wf_length : Z.of_nat (length (pEntry p)) ≤ n
}.

Lemma alloc_spec p m ok p' m' : rowSetEntryAlloc p m = (ok, p', m') →
  pEntry p' = pEntry p ∧ pLast p' = pLast p ∧ pForest p' = pForest p ∧
  ROWSET_SORTED p' = ROWSET_SORTED p ∧ ROWSET_NEXT p' = ROWSET_NEXT p ∧ iBatch p' = iBatch p ∧
  (no_failure m → ok = true ∧ no_failure m').
Proof.
  unfold rowSetEntryAlloc. destruct (nFresh p =? 0).
  - destruct (alloc m) as [okm mm] eqn:Em. pose proof (alloc_ok m _ _ Em) as Hm.
    destruct okm; intros [= <- <- <-]; do 6 (split; [done|]); intros Hn; by destruct (Hm Hn).
  - intros [= <- <- <-]. do 6 (split; [done|]). done.
Qed.

Lemma insert_spec n p rowid m p' m' : wf n p → sqlite3RowSetInsert p rowid m = (p', m') →
  wf (n + 1) p' ∧ pForest p' = pForest p ∧ iBatch p' = iBatch p ∧
  (pEntry p' = pEntry p ∨ pEntry p' = pEntry p ++ [rowid]) ∧
  (no_failure m → no_failure m' ∧ pEntry p' = pEntry p ++ [rowid]).
Proof.
  intros [H1 H2 H3 H4 H5]. unfold sqlite3RowSetInsert.
  destruct (rowSetEntryAlloc p m) as [[ok p1] m1] eqn:E.
  apply alloc_spec in E as (E1 & E2 & E3 & E4 & E5 & E6 & Em). destruct ok; cbn [negb]; intros [= <- <-].
  - rewrite E1, E2, E3, E4, E5, E6.
    assert (match pLast p with Some _ => pEntry p ++ [rowid] | None => [rowid] end = pEntry p ++ [rowid]) as ->.
    { rewrite H2. destruct (last (pEntry p)) eqn:El; [done|]. apply last_None in El as ->. done. }
    cbn [pEntry pForest iBatch]. split; [|split; [done|]; split; [done|]; split; [by right|]; intros Hm;
      by destruct (Em Hm)].
    split; cbn [ROWSET_NEXT pLast pEntry ROWSET_SORTED pForest]; [done|by rewrite last_snoc| |done|
      rewrite length_app; cbn; lia].
    rewrite H2. destruct (last (pEntry p)) as [v|] eqn:El.
    + destruct (Z.leb_spec rowid v); [done|]. intros Hs. by apply (ssorted_snoc _ _ v); [apply H3| |].
    + apply last_None in El as ->. intros _. repeat constructor.
  - rewrite E1, E3, E6. split; [|split; [done|]; split; [done|]; split; [by left|]; intros Hm;
      by destruct (Em Hm)].
    split; rewrite ?E1, ?E2, ?E3, ?E4, ?E5; [done..|lia].
Qed.

Lemma sorted_entries n p : wf n p → n < 2 ^ 40 →
  ∃ l, (if ROWSET_SORTED p then Some (pEntry p) else rowSetEntrySort (pEntry p)) = Some l ∧
    ssorted l ∧ ∀ x, x ∈ l ↔ x ∈ pEntry p.
Proof.
  intros Hw Hn. destruct (ROWSET_SORTED p) eqn:Es.
  - exists (pEntry p). split; [done|]. split; [by apply (wf_sorted n)|done].
  - apply sort_spec. pose proof (wf_length _ _ Hw). lia.
Qed.

Lemma new_batch_spec n p b m : wf n p → n < 2 ^ 40 →
  ∃ p' m', new_batch p b m = Some (p', m') ∧ wf n p' ∧ pEntry p' = [] ∧ iBatch p' = b ∧
    (∀ x, in_forest x (pForest p') → x ∈ pEntry p ∨ in_forest x (pForest p)) ∧
    (no_failure m → no_failure m' ∧
      ∀ x, x ∈ pEntry p ∨ in_forest x (pForest p) → in_forest x (pForest p')).
Proof.
  intros Hw Hn. pose proof (sorted_entries n p Hw Hn) as (l & El & Hs & Hin).
  unfold new_batch. rewrite El. pose proof Hw as [H1 H2 H3 H4 H5]. destruct (pEntry p) as [|v vs] eqn:Ee.
  { eexists _, _. split; [reflexivity|]. cbn [pEntry iBatch pForest]. split.
    - split; cbn [ROWSET_NEXT pLast pEntry ROWSET_SORTED pForest]; done.
    - split; [done|]. split; [done|]. split; [by right|]. intros Hm. split; [done|]. set_solver. }
  assert (l ≠ []) as Hl by (intros ->; specialize (Hin v); set_solver).
  destruct (into_forest_spec (pForest p) l H4 Hl Hs) as (f & rest & -> & Hf & Hrest).
  assert (∀ p0 f0, ROWSET_NEXT p0 = false → sorted_forest f0 →
    wf n (mk (pChunk p0) [] None f0 (nFresh p0) true (ROWSET_NEXT p0) b)) as Hwf.
  { intros p0 f0 Hp0 Hf0. split; cbn [ROWSET_NEXT pLast pEntry ROWSET_SORTED pForest];
      [done|done|constructor|done|cbn in *; lia]. }
  destruct rest as [l'|].
  2: { eexists _, _. split; [reflexivity|]. split; [by apply Hwf|]. cbn [pEntry iBatch pForest].
    split; [done|]. split; [done|]. split; intros; [|split; [done|intros x]]; rewrite ?Hrest, ?Hin in *; done. }
  destruct Hrest as (Hl' & Hs' & Hno & Hx).
  destruct (rowSetEntryAlloc p m) as [[ok p1] m1] eqn:E.
  apply alloc_spec in E as (E1 & E2 & E3 & E4 & E5 & E6 & Em). destruct ok.
  - destruct (list_to_tree l' Hl') as (t & -> & Et & _).
    eexists _, _. split; [reflexivity|]. cbn [pEntry iBatch pForest]. split.
    { apply Hwf; [congruence|]. apply Forall_app. split; [done|]. constructor; [by rewrite Et|constructor]. }
    split; [done|]. split; [done|].
    assert (∀ x, in_forest x (f ++ [t]) ↔ x ∈ v :: vs ∨ in_forest x (pForest p)) as Hft.
    { intros x. unfold in_forest at 1. rewrite Exists_app, Exists_cons, Exists_nil, Et, Hx, Hin.
      specialize (Hno x). unfold in_forest in Hno at 1. tauto. }
    split; [intros x; apply Hft|]. intros Hm. split; [by destruct (Em Hm)|]. intros x. apply Hft.
  - eexists _, _. split; [reflexivity|]. cbn [pEntry iBatch pForest]. split; [apply Hwf; congruence|].
    split; [done|]. split; [done|]. split; [intros x Hf'; by apply Hno in Hf'|].
    intros Hm. by destruct (Em Hm).
Qed.

(** ** Tests of batches *)

Inductive op : Type := Insert (v : Z) | Test (batch v : Z).

(** The answers of the tests, no allocation failing. *)
Fixpoint run (p : RowSet) (os : list op) : option (list Z) :=
  match os with
  | [] => Some []
  | Insert v :: os => run (fst (sqlite3RowSetInsert p v [])) os
  | Test b v :: os =>
      let* (r, p, _) := sqlite3RowSetTest p b v [] in
      let* rs := run p os in
      Some (r :: rs)
  end.

(** A test of a new batch sees all the numbers inserted before it, one of
    the same batch those the last new batch saw. *)
Fixpoint answers (seen pending : gset Z) (batch : Z) (os : list op) : list Z :=
  match os with
  | [] => []
  | Insert v :: os => answers seen ({[v]} ∪ pending) batch os
  | Test b v :: os =>
      let '(seen, pending) := if decide (b = batch) then (seen, pending) else (pending ∪ seen, ∅) in
      (if decide (v ∈ seen) then 1 else 0) :: answers seen pending b os
  end.

Lemma batches_spec os : ∀ n p seen pending, wf n p → n + Z.of_nat (length os) < 2 ^ 40 →
  (∀ x, x ∈ pending ↔ x ∈ pEntry p) → (∀ x, x ∈ seen ↔ in_forest x (pForest p)) →
  run p os = Some (answers seen pending (iBatch p) os).
Proof.
  induction os as [|o os IH]; intros n p seen pending Hw Hn Hp Hs; [done|]. cbn [length] in Hn.
  destruct o as [v|b v]; cbn [run answers].
  - destruct (sqlite3RowSetInsert p v []) as [p' m'] eqn:E. cbn [fst].
    destruct (insert_spec n p v [] p' m' Hw E) as (Hw' & Hf & Hb & _ & Hin).
    destruct Hin as [_ Hin]; [by apply Forall_nil|]. rewrite <- Hb.
    apply (IH (n + 1)); [done|lia| |by rewrite Hf]. intros x. rewrite Hin. set_solver.
  - unfold sqlite3RowSetTest. destruct (Z.eqb_spec b (iBatch p)) as [->|Hb]; cbn [negb].
    + rewrite decide_True by done. rewrite forest_mem by apply (wf_forest n p Hw).
      rewrite (IH n p seen pending) by (done || lia). f_equal. f_equal.
      destruct (decide (v ∈ seen)) as [H|H]; [rewrite bool_decide_true|rewrite bool_decide_false]; try done;
        by rewrite <- Hs.
    + rewrite decide_False by done.
      destruct (new_batch_spec n p b [] Hw ltac:(lia)) as (p' & m' & -> & Hw' & He & <- & Honly & Hall).
      destruct Hall as [_ Hall]; [by apply Forall_nil|].
      assert (∀ x, x ∈ pending ∪ seen ↔ in_forest x (pForest p')) as Hseen.
      { intros x. rewrite elem_of_union, Hp, Hs. split; [apply Hall|apply Honly]. }
      rewrite forest_mem by apply (wf_forest n p' Hw').
      rewrite (IH n p' (pending ∪ seen) ∅); [|done|lia|rewrite He; set_solver|done].
      f_equal. f_equal.
      destruct (decide (v ∈ pending ∪ seen)) as [H|H]; [rewrite bool_decide_true|rewrite bool_decide_false];
        try done; by rewrite <- Hseen.
Qed.

Lemma init_wf N m p m' : sqlite3RowSetInit N m = (Some p, m') → wf 0 p ∧ pForest p = [] ∧ pEntry p = [] ∧ iBatch p = 0.
Proof.
  unfold sqlite3RowSetInit. destruct (alloc m) as [[] m1]; intros [= <- <-].
  split; [|done]. split; cbn; try done; try constructor.
Qed.

(** C5: Whatever inserts and tests come in whatever order on a new row set,
    through all sorts and merges of trees, each test answers 1 exactly when
    its row number was inserted before the last change of the batch number;
    fewer than 2^40 operations keep the sort within its 40 buckets. *)
Theorem rowset_test_batches N os :
  Z.of_nat (length os) < 2 ^ 40 →
  ∃ p m, sqlite3RowSetInit N [] = (Some p, m) ∧ run p os = Some (answers ∅ ∅ 0 os).
Proof.
  intros Hos. destruct (sqlite3RowSetInit N []) as [[p|] m] eqn:E; [|done].
  exists p, m. split; [done|]. destruct (init_wf _ _ _ _ E) as (Hw & Hf & He & <-).
  apply (batches_spec os 0); [done|lia|rewrite He; set_solver|]. intros x. rewrite Hf. unfold in_forest.
  rewrite Exists_nil. set_solver.
Qed.

Lemma rowset_test_batches_witness :
  Z.of_nat (length [Insert 5; Insert 3; Test 0 3; Test 1 3; Insert 9; Test 1 9; Test 2 9]) < 2 ^ 40 ∧
  ∃ p m, sqlite3RowSetInit 512 [] = (Some p, m) ∧
    run p [Insert 5; Insert 3; Test 0 3; Test 1 3; Insert 9; Test 1 9; Test 2 9] =
      Some (answers ∅ ∅ 0 [Insert 5; Insert 3; Test 0 3; Test 1 3; Insert 9; Test 1 9; Test 2 9]).
Proof. split; [reflexivity|]. apply (rowset_test_batches 512). reflexivity. Defined.

(** ** Extraction *)

Fixpoint insert_all (p : RowSet) (vs : list Z) (m : list bool) : RowSet * list bool :=
  match vs with
  | [] => (p, m)
  | v :: vs => let '(p, m) := sqlite3RowSetInsert p v m in insert_all p vs m
  end.

(** The numbers extracted until there are none left. *)
Fixpoint extract (fuel : nat) (p : RowSet) : option (list Z * RowSet) :=
  match fuel with
  | O => None
  | S fuel =>
      let* (rc, v, p) := sqlite3RowSetNext p in
      match v with
      | Some v => if rc =? 1 then let* (l, p) := extract fuel p in Some (v :: l, p) else None
      | None => if rc =? 0 then Some ([], p) else None
      end
  end.

Lemma insert_all_spec vs : ∀ n p m p' m', wf n p → insert_all p vs m = (p', m') →
  wf (n + Z.of_nat (length vs)) p' ∧ pForest p' = pForest p ∧
  (∀ x, x ∈ pEntry p' → x ∈ pEntry p ∨ x ∈ vs) ∧
  (no_failure m → ∀ x, x ∈ pEntry p ∨ x ∈ vs → x ∈ pEntry p').
Proof.
  induction vs as [|v vs IH]; intros n p m p' m' Hw; cbn [insert_all length].
  { intros [= <- <-]. rewrite Z.add_0_r. split; [done|]. split; [done|]. set_solver. }
  destruct (sqlite3RowSetInsert p v m) as [p1 m1] eqn:E. intros E'.
  destruct (insert_spec n p v m p1 m1 Hw E) as (Hw1 & Hf1 & _ & Hor & Hm1).
  destruct (IH (n + 1) p1 m1 p' m' Hw1 E') as (Hw' & Hf' & Honly & Hall).
  replace (n + Z.of_nat (S (length vs))) with (n + 1 + Z.of_nat (length vs)) by lia.
  split; [done|]. split; [congruence|]. split.
  - intros x Hx. apply Honly in Hx as [Hx|Hx]; [|set_solver]. destruct Hor as [Hor|Hor]; rewrite Hor in Hx; set_solver.
  - intros Hm x Hx. destruct (Hm1 Hm) as [Hm' He]. apply (Hall Hm'). rewrite He. set_solver.
Qed.

(** Once the list is sorted it is handed out as it is. *)
Lemma extract_next l : ∀ p fuel, ROWSET_NEXT p = true → pEntry p = l → l ≠ [] → (length l < fuel)%nat →
  ∃ p', extract fuel p = Some (l, p') ∧ pChunk p' = 0%nat ∧ pEntry p' = [].
Proof.
  induction l as [|v l IH]; [done|]; intros p fuel Hn He _ Hf. destruct fuel as [|fuel]; [lia|].
  cbn [extract]. unfold sqlite3RowSetNext. rewrite Hn, He. cbn [Z.eqb Pos.eqb].
  destruct l as [|w l].
  - destruct fuel as [|fuel]; [cbn in Hf; lia|]. eexists. split; [reflexivity|]. done.
  - destruct (IH (mk (pChunk p) (w :: l) (pLast p) (pForest p) (nFresh p) true true (iBatch p)) fuel)
      as (p' & -> & H); [done..|cbn [length] in *; lia|]. by exists p'.
Qed.

Lemma extract_all n p l fuel : wf n p →
  (if ROWSET_SORTED p then Some (pEntry p) else rowSetEntrySort (pEntry p)) = Some l →
  (length l < fuel)%nat →
  ∃ p', extract fuel p = Some (l, p') ∧ pEntry p' = [] ∧ (l ≠ [] → pChunk p' = 0%nat).
Proof.
  intros Hw El Hf. destruct fuel as [|fuel]; [lia|]. destruct l as [|v l].
  - cbn [extract]. unfold sqlite3RowSetNext. rewrite (wf_next _ _ Hw), El. eexists. split; [reflexivity|]. done.
  - destruct (extract_next (v :: l) (mk (pChunk p) (v :: l) (pLast p) (pForest p) (nFresh p) true true (iBatch p))
      (S fuel)) as (p' & E & Hc & He); [done..|]. exists p'. split; [|done]. rewrite <- E.
    cbn [extract]. unfold sqlite3RowSetNext at 1. rewrite (wf_next _ _ Hw), El. done.
Qed.

(** Extraction hands out the numbers inserted, in increasing order and
    each once, whatever their order and number of times, and then answers 0
    with all the memory chunks freed; inserts that fail for want of memory
    only leave their number out. *)
Theorem rowset_extracts_sorted N vs m p0 m0 p m' :
  sqlite3RowSetInit N m = (Some p0, m0) → insert_all p0 vs m0 = (p, m') →
  Z.of_nat (length vs) < 2 ^ 40 →
  ∃ l p', extract (S (length l)) p = Some (l, p') ∧ StronglySorted Z.lt l ∧
    (∀ x, x ∈ l → x ∈ vs) ∧ (no_failure m0 → ∀ x, x ∈ vs → x ∈ l) ∧
    pEntry p' = [] ∧ (l ≠ [] → pChunk p' = 0%nat).
Proof.
  intros E0 E Hn. destruct (init_wf _ _ _ _ E0) as (Hw0 & _ & He0 & _).
  destruct (insert_all_spec vs 0 p0 m0 p m' Hw0 E) as (Hw & _ & Honly & Hall).
  destruct (sorted_entries _ p Hw ltac:(lia)) as (l & El & Hs & Hin).
  destruct (extract_all _ p l (S (length l)) Hw El ltac:(lia)) as (p' & Ex & He' & Hc).
  exists l, p'. split; [done|]. split; [done|]. split; [|split; [|by split]].
  - intros x Hx. apply Hin, Honly in Hx. rewrite He0 in Hx. set_solver.
  - intros Hm x Hx. apply Hin, (Hall Hm). auto.
Qed.

Lemma rowset_extracts_sorted_witness :
  ∃ p0 p, sqlite3RowSetInit 56 [] = (Some p0, []) ∧ insert_all p0 [7; -3; 7; 2] [] = (p, []) ∧
  ∃ l p', extract (S (length l)) p = Some (l, p') ∧ StronglySorted Z.lt l ∧
    (∀ x, x ∈ l → x ∈ [7; -3; 7; 2]) ∧ (no_failure [] → ∀ x, x ∈ [7; -3; 7; 2] → x ∈ l) ∧
    pEntry p' = [] ∧ (l ≠ [] → pChunk p' = 0%nat).
Proof.
  exists (mk 0 [] None [] 0 true false 0), (mk 1 [7; -3; 7; 2] (Some 2) [] 38 false false 0).
  assert (sqlite3RowSetInit 56 [] = (Some (mk 0 [] None [] 0 true false 0), [])) as E0 by reflexivity.
  assert (insert_all (mk 0 [] None [] 0 true false 0) [7; -3; 7; 2] [] =
    (mk 1 [7; -3; 7; 2] (Some 2) [] 38 false false 0, [])) as E1 by reflexivity.
  split; [exact E0|]. split; [exact E1|]. exact (rowset_extracts_sorted 56 _ _ _ _ _ _ E0 E1 eq_refl).
Defined.

(** ** Balance *)

(** Making a tree of a sorted list loses and reorders nothing, so that
    the tree gives the list back and a search of it finds exactly the
    elements of the list, and of [n] elements it goes down at most
    [log2 n + 1] levels. *)
Theorem rowset_tree_balanced l :
  l ≠ [] → StronglySorted Z.lt l →
  ∃ t, rowSetListToTree l = Some t ∧ rowSetTreeToList t = l ∧
    (∀ x, tree_mem t x = bool_decide (x ∈ l)) ∧
    Z.of_nat (height t) ≤ Z.log2 (Z.of_nat (length l)) + 1.
Proof.
  intros Hl Hs. destruct (list_to_tree l Hl) as (t & E & Et & Hn & Hh).
  exists t. split; [done|]. split; [done|]. split.
  - intros x. rewrite tree_mem_spec by (by rewrite Et). by rewrite Et.
  - destruct t as [|v tl tr]; [done|]. cbn [height] in *.
    assert (Z.of_nat (S (height tl `max` height tr)) - 1 ≤ Z.log2 (Z.of_nat (length l))); [|lia].
    apply Z.log2_le_pow2; [|done]. destruct l; [done|cbn; lia].
Qed.

Lemma rowset_tree_balanced_witness :
  [1; 4; 6; 9; 12] ≠ [] ∧ StronglySorted Z.lt [1; 4; 6; 9; 12] ∧
  ∃ t, rowSetListToTree [1; 4; 6; 9; 12] = Some t ∧ rowSetTreeToList t = [1; 4; 6; 9; 12] ∧
    (∀ x, tree_mem t x = bool_decide (x ∈ [1; 4; 6; 9; 12])) ∧
    Z.of_nat (height t) ≤ Z.log2 (Z.of_nat (length [1; 4; 6; 9; 12])) + 1.
Proof.
  assert (StronglySorted Z.lt [1; 4; 6; 9; 12]) as H by (repeat constructor).
  split; [discriminate|]. split; [exact H|]. apply (rowset_tree_balanced [1; 4; 6; 9; 12]); [discriminate|exact H].
Defined.

End RowSet.
