(* ===== verification/Utf.v ===== *)
(** * Text encodings ([native/sqlite3/sqlite3.c], utf.c)

    Reading and writing characters in UTF-8 and UTF-16, translating the text
    of a value between the encodings, byte-order marks and counting.  The
    bytes still to be read are a list; output goes to a buffer of fixed size,
    and a write past it, or a read past the input, has no behaviour.  The
    macro [SQLITE_REPLACE_INVALID_UTF] is not defined, and the machine is
    little-endian. *)

From S2P Require Import Prelude Text.

Module Utf.

Definition SQLITE_OK : Z := 0.
Definition SQLITE_NOMEM : Z := 7.

Definition SQLITE_UTF8 : Z := 1.
Definition SQLITE_UTF16LE : Z := 2.
Definition SQLITE_UTF16BE : Z := 3.

(* native/sqlite3/sqlite3.c:23890-23915 MEM_Str *)
Definition MEM_Str : Z := 0x0002.
Definition MEM_Null : Z := 0x0001.
Definition MEM_Blob : Z := 0x0010.
Definition MEM_AffMask : Z := 0x003f.
Definition MEM_Term : Z := 0x0200.
Definition MEM_Subtype : Z := 0x0800.
Definition MEM_Dyn : Z := 0x1000.
Definition MEM_Static : Z := 0x2000.
Definition MEM_Ephem : Z := 0x4000.

(* native/sqlite3/sqlite3.c:34959-34972 sqlite3Utf8Trans1 *)
Definition sqlite3Utf8Trans1 : bytes :=
  Text.from_hex ("000102030405060708090a0b0c0d0e0f101112131415161718191a1b1c1d1e1f" ++
            "000102030405060708090a0b0c0d0e0f00010203040506070001020300010000").

(** ** Characters *)

(* native/sqlite3/sqlite3.c:34975-34993 WRITE_UTF8 *)
Definition WRITE_UTF8 (c : Z) : bytes :=
  if c <? 0x80 then [Z.land c 0xff]
  else if c <? 0x800 then
    [0xc0 + Z.land (Z.shiftr c 6) 0x1f; 0x80 + Z.land c 0x3f]
  else if c <? 0x10000 then
    [0xe0 + Z.land (Z.shiftr c 12) 0x0f; 0x80 + Z.land (Z.shiftr c 6) 0x3f; 0x80 + Z.land c 0x3f]
  else
    [0xf0 + Z.land (Z.shiftr c 18) 0x07; 0x80 + Z.land (Z.shiftr c 12) 0x3f;
     0x80 + Z.land (Z.shiftr c 6) 0x3f; 0x80 + Z.land c 0x3f].

(* native/sqlite3/sqlite3.c:34995-35005 WRITE_UTF16LE *)
Definition WRITE_UTF16LE (c : Z) : bytes :=
  if c <=? 0xffff then [Z.land c 0xff; Z.land (Z.shiftr c 8) 0xff]
  else
    [u8 (Z.land (Z.shiftr c 10) 0x3f + Z.land (Z.shiftr (u32 (c - 0x10000)) 10) 0xc0);
     u8 (0xd8 + Z.land (Z.shiftr (u32 (c - 0x10000)) 18) 0x03);
     Z.land c 0xff;
     u8 (0xdc + Z.land (Z.shiftr c 8) 0x03)].

(* native/sqlite3/sqlite3.c:35007-35017 WRITE_UTF16BE *)
Definition WRITE_UTF16BE (c : Z) : bytes :=
  if c <=? 0xffff then [Z.land (Z.shiftr c 8) 0xff; Z.land c 0xff]
  else
    [u8 (0xd8 + Z.land (Z.shiftr (u32 (c - 0x10000)) 18) 0x03);
     u8 (Z.land (Z.shiftr c 10) 0x3f + Z.land (Z.shiftr (u32 (c - 0x10000)) 10) 0xc0);
     u8 (0xdc + Z.land (Z.shiftr c 8) 0x03);
     Z.land c 0xff].

(** The number of bytes and the buffer. *)
(* native/sqlite3/sqlite3.c:35019-35046 sqlite3AppendOneUtf8Character *)
Definition sqlite3AppendOneUtf8Character (zOut : bytes) (v : Z) : option (Z * bytes) :=
  if v <? 0x80 then
    let* z := wr zOut 0 (Z.land v 0xff) in Some (1, z)
  else if v <? 0x800 then
    let* z := wr zOut 0 (0xc0 + Z.land (Z.shiftr v 6) 0x1f) in
    let* z := wr z 1 (0x80 + Z.land v 0x3f) in Some (2, z)
  else if v <? 0x10000 then
    let* z := wr zOut 0 (0xe0 + Z.land (Z.shiftr v 12) 0x0f) in
    let* z := wr z 1 (0x80 + Z.land (Z.shiftr v 6) 0x3f) in
    let* z := wr z 2 (0x80 + Z.land v 0x3f) in Some (3, z)
  else
    let* z := wr zOut 0 (0xf0 + Z.land (Z.shiftr v 18) 0x07) in
    let* z := wr z 1 (0x80 + Z.land (Z.shiftr v 12) 0x3f) in
    let* z := wr z 2 (0x80 + Z.land (Z.shiftr v 6) 0x3f) in
    let* z := wr z 3 (0x80 + Z.land v 0x3f) in Some (4, z).

(** The continuation bytes that follow, at most those of the list. *)
(* native/sqlite3/sqlite3.c:35079-35081 READ_UTF8, the while loop *)
Fixpoint cont (z : bytes) (c : Z) : Z * bytes :=
  match z with
  | b :: z' => if Z.land b 0xc0 =? 0x80 then cont z' (u32 (Z.shiftl c 6 + Z.land 0x3f b)) else (c, z)
  | [] => (c, [])
  end.

(* native/sqlite3/sqlite3.c:35082-35084 READ_UTF8 *)
Definition replace_invalid (c : Z) : Z :=
  if (c <? 0x80) || (Z.land c 0xfffff800 =? 0xd800) || (Z.land c 0xfffffffe =? 0xfffe)
  then 0xfffd else c.

(** The list ends at [zTerm]. *)
(* native/sqlite3/sqlite3.c:35075-35085 READ_UTF8 *)
Definition READ_UTF8 (zIn : bytes) : option (Z * bytes) :=
  match zIn with
  | [] => None
  | c :: z =>
      if 0xc0 <=? c then
        let* c := rd sqlite3Utf8Trans1 (c - 0xc0) in
        let '(c, z) := cont z c in
        Some (replace_invalid c, z)
      else Some (c, z)
  end.

(** The same without an end: a byte that is no continuation must follow. *)
(* native/sqlite3/sqlite3.c:35097-35099 sqlite3Utf8Read, the while loop *)
Fixpoint cont_terminated (z : bytes) (c : Z) : option (Z * bytes) :=
  match z with
  | b :: z' =>
      if Z.land b 0xc0 =? 0x80 then cont_terminated z' (u32 (Z.shiftl c 6 + Z.land 0x3f b))
      else Some (c, z)
  | [] => None
  end.

(* native/sqlite3/sqlite3.c:35086-35105 sqlite3Utf8Read *)
Definition sqlite3Utf8Read (pz : bytes) : option (Z * bytes) :=
  match pz with
  | [] => None
  | c :: z =>
      if 0xc0 <=? c then
        let* c := rd sqlite3Utf8Trans1 (c - 0xc0) in
        let* (c, z) := cont_terminated z c in
        Some (replace_invalid c, z)
      else Some (c, z)
  end.

(* native/sqlite3/sqlite3.c:35131-35134 sqlite3Utf8ReadLimited, the while loop *)
Fixpoint limited_loop (fuel : nat) (z : bytes) (i n c : Z) : option (Z * Z) :=
  match fuel with
  | O => None
  | S fuel =>
      if i <? n then
        let* b := rd z i in
        if Z.land b 0xc0 =? 0x80
        then limited_loop fuel z (i + 1) n (u32 (Z.shiftl c 6 + Z.land 0x3f b))
        else Some (c, i)
      else Some (c, i)
  end.

(** The number of bytes used and the character. *)
(* native/sqlite3/sqlite3.c:35107-35138 sqlite3Utf8ReadLimited *)
Definition sqlite3Utf8ReadLimited (z : bytes) (n : Z) : option (Z * Z) :=
  let* c := rd z 0 in
  if 0xc0 <=? c then
    let* c := rd sqlite3Utf8Trans1 (c - 0xc0) in
    let n := if 4 <? n then 4 else n in
    let* (c, i) := limited_loop 4 z 1 n c in
    Some (i, c)
  else Some (1, c).

(** ** Translation *)

(** A value that holds text: its buffer, the bytes of the text in it, flags,
    encoding, and whether the buffer is the value's own ([szMalloc] not 0 and
    [zMalloc] the buffer). *)
(* native/sqlite3/sqlite3.c:23813-23837 sqlite3_value *)
Record Mem : Type := mem { z : bytes; n : Z; flags : Z; enc : Z; owned : bool }.

(** The copy of text that is not in a buffer of its own; a failure to get
    the memory makes the value null. *)
(* native/sqlite3/sqlite3.c:84187-84205 vdbeMemAddTerminator *)
Definition vdbeMemAddTerminator (pMem : Mem) (m : list bool) : Z * Mem * list bool :=
  let '(ok, m) := alloc m in
  if ok then
    (SQLITE_OK,
     mem (take (Z.to_nat (n pMem)) (z pMem) ++ [0; 0; 0]) (n pMem)
       (Z.lor (Z.land (flags pMem) (Z.lnot (Z.lor (Z.lor MEM_Dyn MEM_Ephem) MEM_Static))) MEM_Term)
       (enc pMem) true, m)
  else (SQLITE_NOMEM, mem [] (n pMem) MEM_Null (enc pMem) false, m).

(** Text has no tail of zeros to expand ([MEM_Zero]). *)
(* native/sqlite3/sqlite3.c:84207-84230 sqlite3VdbeMemMakeWriteable *)
Definition sqlite3VdbeMemMakeWriteable (pMem : Mem) (m : list bool) : Z * Mem * list bool :=
  let '(rc, pMem, m) :=
    if negb (Z.land (flags pMem) (Z.lor MEM_Str MEM_Blob) =? 0) && negb (owned pMem)
    then vdbeMemAddTerminator pMem m else (SQLITE_OK, pMem, m) in
  if negb (rc =? SQLITE_OK) then (rc, pMem, m)
  else (SQLITE_OK, mem (z pMem) (n pMem) (Z.land (flags pMem) (Z.lnot MEM_Ephem)) (enc pMem) (owned pMem), m).

(** [zOut] holds [len] bytes, of which [out] are written. *)
Fixpoint put (len : Z) (out : bytes) (bs : bytes) : option bytes :=
  match bs with
  | [] => Some out
  | b :: bs => if Z.of_nat (length out) <? len then put len (out ++ [b]) bs else None
  end.

(* native/sqlite3/sqlite3.c:35233-35248 sqlite3VdbeMemTranslate, the loops over UTF-8 *)
Fixpoint from_utf8 (fuel : nat) (write : Z → bytes) (zIn : bytes) (len : Z) (out : bytes) : option bytes :=
  match zIn with
  | [] => Some out
  | _ =>
      match fuel with
      | O => None
      | S fuel =>
          let* (c, zIn) := READ_UTF8 zIn in
          let* out := put len out (write c) in
          from_utf8 fuel write zIn len out
      end
  end.

(** The two bytes of a unit in its order. *)
Definition unit (be : bool) (b1 b2 : Z) : Z := if be then Z.shiftl b1 8 + b2 else b1 + Z.shiftl b2 8.

(* native/sqlite3/sqlite3.c:35254-35309 sqlite3VdbeMemTranslate, the loops over UTF-16 *)
Fixpoint from_utf16 (fuel : nat) (be : bool) (zIn : bytes) (len : Z) (out : bytes) : option bytes :=
  match fuel with
  | O => None
  | S fuel =>
      match zIn with
      | [] => Some out
      | [_] => None
      | b1 :: b2 :: zIn =>
          let c := unit be b1 b2 in
          let* (c, zIn) :=
            if (0xd800 <=? c) && (c <? 0xe000) then
              match zIn with
              | [] => Some (c, zIn)
              | [_] => None
              | b1 :: b2 :: zIn =>
                  let c2 := unit be b1 b2 in
                  Some (u32 (Z.land c2 0x03ff + Z.shiftl (Z.land c 0x003f) 10
                             + Z.shiftl (Z.land c 0x03c0 + 0x0040) 10), zIn)
              end
            else Some (c, zIn) in
          let* out := put len out (WRITE_UTF8 c) in
          from_utf16 fuel be zIn len out
      end
  end.

(* native/sqlite3/sqlite3.c:35189-35196 sqlite3VdbeMemTranslate, the first while loop *)
Fixpoint swap (z : bytes) : bytes :=
  match z with b1 :: b2 :: z => b2 :: b1 :: swap z | _ => z end.

(** [m] answers for the allocator. *)
(* native/sqlite3/sqlite3.c:35147-35336 sqlite3VdbeMemTranslate *)
Definition sqlite3VdbeMemTranslate (pMem : Mem) (desiredEnc : Z) (m : list bool)
  : option (Z * Mem * list bool) :=
  if negb (enc pMem =? SQLITE_UTF8) && negb (desiredEnc =? SQLITE_UTF8) then
    let '(rc, pMem, m) := sqlite3VdbeMemMakeWriteable pMem m in
    if negb (rc =? SQLITE_OK) then Some (SQLITE_NOMEM, pMem, m) else
    let k := Z.to_nat (Z.land (n pMem) (-2)) in
    Some (SQLITE_OK,
      mem (swap (take k (z pMem)) ++ drop k (z pMem)) (n pMem) (flags pMem) desiredEnc (owned pMem), m)
  else
    let '(len, n0) := if desiredEnc =? SQLITE_UTF8
                      then (2 * Z.land (n pMem) (-2) + 1, Z.land (n pMem) (-2))
                      else (2 * n pMem + 2, n pMem) in
    let pMem := mem (z pMem) n0 (flags pMem) (enc pMem) (owned pMem) in
    let '(ok, m) := alloc m in
    if negb ok then Some (SQLITE_NOMEM, pMem, m) else
    let zIn := take (Z.to_nat (n pMem)) (z pMem) in
    let* (out, n') :=
      if enc pMem =? SQLITE_UTF8 then
        let* out := from_utf8 (length zIn)
                      (if desiredEnc =? SQLITE_UTF16LE then WRITE_UTF16LE else WRITE_UTF16BE) zIn len [] in
        let n' := i32 (Z.of_nat (length out)) in
        let* out := put len out [0] in
        Some (out, n')
      else
        let* out := from_utf16 (S (length zIn)) (negb (enc pMem =? SQLITE_UTF16LE)) zIn len [] in
        Some (out, i32 (Z.of_nat (length out))) in
    let* out := put len out [0] in
    Some (SQLITE_OK, mem out n'
      (Z.lor (Z.lor MEM_Str MEM_Term) (Z.land (flags pMem) (Z.lor MEM_AffMask MEM_Subtype))) desiredEnc true, m).

(* native/sqlite3/sqlite3.c:35339-35376 sqlite3VdbeMemHandleBom *)
Definition sqlite3VdbeMemHandleBom (pMem : Mem) (m : list bool) : option (Z * Mem * list bool) :=
  let* bom :=
    if 1 <? n pMem then
      let* b1 := rd (z pMem) 0 in
      let* b2 := rd (z pMem) 1 in
      let bom := if (b1 =? 0xfe) && (b2 =? 0xff) then SQLITE_UTF16BE else 0 in
      Some (if (b1 =? 0xff) && (b2 =? 0xfe) then SQLITE_UTF16LE else bom)
    else Some 0 in
  if negb (bom =? 0) then
    let '(rc, pMem, m) := sqlite3VdbeMemMakeWriteable pMem m in
    if negb (rc =? SQLITE_OK) then Some (rc, pMem, m) else
    let n' := n pMem - 2 in
    let* text := sub (z pMem) 2 n' in
    let* z := splice (z pMem) 0 text in
    let* z := wr z n' 0 in
    let* z := wr z (n' + 1) 0 in
    Some (SQLITE_OK, mem z n' (Z.lor (flags pMem) MEM_Term) bom (owned pMem), m)
  else Some (SQLITE_OK, pMem, m).

(** ** Counting *)

(* native/sqlite3/sqlite3.c:20988-20991 SQLITE_SKIP_UTF8, the while loop *)
Fixpoint skip_cont (fuel : nat) (z : bytes) (i : Z) : option Z :=
  match fuel with
  | O => None
  | S fuel => let* b := rd z i in if Z.land b 0xc0 =? 0x80 then skip_cont fuel z (i + 1) else Some i
  end.

(* native/sqlite3/sqlite3.c:20987-20991 SQLITE_SKIP_UTF8 *)
Definition SQLITE_SKIP_UTF8 (z : bytes) (i : Z) : option Z :=
  let* b := rd z i in
  if 0xc0 <=? b then skip_cont (length z) z (i + 1) else Some (i + 1).

(** [zTerm] is [None] for the end of the address space. *)
(* native/sqlite3/sqlite3.c:35396-35399 sqlite3Utf8CharLen, the while loop *)
Fixpoint char_loop (fuel : nat) (z : bytes) (i : Z) (zTerm : option Z) (r : Z) : option Z :=
  match fuel with
  | O => None
  | S fuel =>
      let* b := rd z i in
      if negb (b =? 0) && match zTerm with Some t => i <? t | None => true end then
        let* i := SQLITE_SKIP_UTF8 z i in
        char_loop fuel z i zTerm (r + 1)
      else Some r
  end.

(* native/sqlite3/sqlite3.c:35379-35401 sqlite3Utf8CharLen *)
Definition sqlite3Utf8CharLen (zIn : bytes) (nByte : Z) : option Z :=
  char_loop (S (length zIn)) zIn 0 (if 0 <=? nByte then Some nByte else None) 0.

(** On a little-endian machine, [z] starts at the second byte. *)
(* native/sqlite3/sqlite3.c:35469-35474 sqlite3Utf16ByteLen, the while loop *)
Fixpoint unit_loop (fuel : nat) (zIn : bytes) (i zEnd n nChar : Z) : option Z :=
  match fuel with
  | O => None
  | S fuel =>
      if (n <? nChar) && (i <=? zEnd) then
        let* c := rd zIn i in
        let i := i + 2 in
        let* two :=
          if (0xd8 <=? c) && (c <? 0xdc) && (i <=? zEnd) then
            let* d := rd zIn i in Some ((0xdc <=? d) && (d <? 0xe0))
          else Some false in
        unit_loop fuel zIn (if (two : bool) then i + 2 else i) zEnd (n + 1) nChar
      else Some i
  end.

(* native/sqlite3/sqlite3.c:35456-35477 sqlite3Utf16ByteLen *)
Definition sqlite3Utf16ByteLen (zIn : bytes) (nByte nChar : Z) : option Z :=
  let* i := unit_loop (S (length zIn)) zIn 1 (nByte - 1) 0 nChar in
  Some (i - 1).

(** ** Characters *)

Definition surrogate (v : Z) : Prop := 0xd800 ≤ v < 0xe000.

(** What reading turns into U+FFFD. *)
Definition refused (v : Z) : Prop := surrogate v ∨ v = 0xfffe ∨ v = 0xffff.

#[global] Instance surrogate_dec v : Decision (surrogate v).
Proof. unfold surrogate. apply _. Defined.
#[global] Instance refused_dec v : Decision (refused v).
Proof. unfold refused. apply _. Defined.

Definition readable (v : Z) : Z := if decide (refused v) then 0xfffd else v.

(** The bytes the standard gives a character in UTF-8. *)
Definition utf8 (v : Z) : bytes :=
  if decide (v < 0x80) then [v]
  else if decide (v < 0x800) then [0xc0 + v `div` 64; 0x80 + v `mod` 64]
  else if decide (v < 0x10000) then [0xe0 + v `div` 4096; 0x80 + (v `div` 64) `mod` 64; 0x80 + v `mod` 64]
  else [0xf0 + v `div` 262144; 0x80 + (v `div` 4096) `mod` 64; 0x80 + (v `div` 64) `mod` 64; 0x80 + v `mod` 64].

(** Its units of 16 bits, and their bytes. *)
Definition units (v : Z) : list Z :=
  if decide (v < 0x10000) then [v]
  else [0xd800 + (v - 0x10000) `div` 1024; 0xdc00 + (v - 0x10000) `mod` 1024].

Definition unit_bytes (be : bool) (w : Z) : bytes :=
  if be then [w `div` 256; w `mod` 256] else [w `mod` 256; w `div` 256].

Definition utf16 (be : bool) (v : Z) : bytes := concat (map (unit_bytes be) (units v)).

Lemma write_utf8 v : 0 ≤ v < 0x110000 → WRITE_UTF8 v = utf8 v.
Proof.
  intros Hv. unfold WRITE_UTF8, utf8. arith.
  destruct (Z.ltb_spec v 0x80); [rewrite decide_True by lia; bytes_eq|].
  rewrite decide_False by lia.
  destruct (Z.ltb_spec v 0x800); [rewrite decide_True by lia; bytes_eq|].
  rewrite decide_False by lia.
  destruct (Z.ltb_spec v 0x10000); [rewrite decide_True by lia|rewrite decide_False by lia];
    bytes_eq.
Qed.

Lemma write_utf16 (be : bool) v : 0 ≤ v < 0x110000 →
  (if be then WRITE_UTF16BE v else WRITE_UTF16LE v) = utf16 be v.
Proof.
  intros Hv. unfold WRITE_UTF16BE, WRITE_UTF16LE, utf16, units.
  destruct (Z.leb_spec v 0xffff); [rewrite decide_True by lia|rewrite decide_False by lia].
  - arith. destruct be; cbn [map concat unit_bytes app]; bytes_eq.
  - rewrite !(u32_id (v - 0x10000)) by width. arith. rewrite !u8_id by (unfold is_u8; dm).
    destruct be; cbn [map concat unit_bytes app]; bytes_eq.
Qed.

Lemma replace_invalid_spec v : 0x80 ≤ v < 0x110000 → replace_invalid v = readable v.
Proof.
  intros Hv. unfold replace_invalid, readable. arith. rewrite (proj2 (Z.ltb_ge v 0x80)) by lia. cbn [orb].
  destruct (decide (refused v)) as [Hr|Hr]; unfold refused, surrogate in Hr.
  - destruct (Z.eqb_spec ((v `div` 2048) `mod` 2097152 * 2048) 0xd800) as [|H1]; [done|]. cbn [orb].
    rewrite (proj2 (Z.eqb_eq _ _)); [done|]. dm.
  - rewrite (proj2 (Z.eqb_neq ((v `div` 2048) `mod` 2097152 * 2048) _)) by dm. cbn [orb].
    rewrite (proj2 (Z.eqb_neq _ _)); [done|]. dm.
Qed.

(** No continuation byte comes next. *)
Definition starts (z : bytes) : Prop := match z with b :: _ => Z.land b 0xc0 ≠ 0x80 | [] => True end.

Lemma cont_stop z c : starts z → cont z c = (c, z).
Proof. destruct z as [|b z]; cbn [cont starts]; [done|]. intros H. by rewrite (proj2 (Z.eqb_neq _ _)). Qed.

Lemma cont_byte x z c : 0 ≤ x < 64 → 0 ≤ c < 0x4000000 → cont (0x80 + x :: z) c = cont z (64 * c + x).
Proof.
  intros Hx Hc. cbn [cont]. arith. rewrite (proj2 (Z.eqb_eq _ _)) by dm.
  rewrite u32_id by (unfold is_u32; dm). f_equal. dm.
Qed.

Lemma trans1 k : (0 ≤ k < 32 → rd sqlite3Utf8Trans1 k = Some k) ∧
  (32 ≤ k < 48 → rd sqlite3Utf8Trans1 k = Some (k - 32)) ∧
  (48 ≤ k < 56 → rd sqlite3Utf8Trans1 k = Some (k - 48)).
Proof.
  assert (∀ n : nat, (n < 56)%nat → sqlite3Utf8Trans1 !! n =
    Some (if decide (Z.of_nat n < 32) then Z.of_nat n
          else if decide (Z.of_nat n < 48) then Z.of_nat n - 32 else Z.of_nat n - 48)) as H.
  { intros n Hn. do 56 (destruct n as [|n]; [reflexivity|]). lia. }
  unfold rd. split_and!; intros Hk; rewrite decide_True, H, Z2Nat.id by lia; repeat case_decide; lia || done.
Qed.

Lemma readable_ascii v : v < 0x80 → readable v = v.
Proof. intros H. unfold readable. rewrite decide_False; [done|]. unfold refused, surrogate. lia. Qed.

Lemma utf8_cons v : 0 ≤ v < 0x110000 → ∃ b bs, utf8 v = b :: bs ∧ is_u8 b ∧ Z.land b 0xc0 ≠ 0x80.
Proof.
  intros Hv. unfold utf8. repeat case_decide; eexists _, _; (split; [reflexivity|]); unfold is_u8;
    rewrite land_c0; split; dm.
Qed.

Lemma read_utf8 v rest : 0 ≤ v < 0x110000 → starts rest → READ_UTF8 (utf8 v ++ rest) = Some (readable v, rest).
Proof.
  intros Hv Hs. unfold utf8. destruct (decide (v < 0x80)) as [H|H].
  { cbn [app READ_UTF8]. rewrite (proj2 (Z.leb_gt _ _)), readable_ascii by lia. done. }
  rewrite <- (replace_invalid_spec v) by lia.
  destruct (decide (v < 0x800)); [|destruct (decide (v < 0x10000))]; cbn [app READ_UTF8];
    rewrite (proj2 (Z.leb_le _ _)) by dm.
  - rewrite (proj1 (trans1 _)) by dm. rewrite cont_byte, cont_stop by (done || dm). repeat f_equal. dm.
  - rewrite (proj1 (proj2 (trans1 _))) by dm. rewrite !cont_byte, cont_stop by (done || dm).
    do 3 f_equal. dm.
  - rewrite (proj2 (proj2 (trans1 _))) by dm. rewrite !cont_byte, cont_stop by (done || dm).
    do 3 f_equal. dm.
Qed.

(** With something after it, reading to a terminator is the same. *)
Lemma cont_terminated_spec zs : ∀ c c' rest, cont zs c = (c', rest) → rest ≠ [] →
  cont_terminated zs c = Some (c', rest).
Proof.
  induction zs as [|b zs IH]; intros c c' rest; cbn [cont cont_terminated]; [by intros [= _ <-]|].
  destruct (Z.land b 0xc0 =? 0x80); [apply IH|]. by intros [= <- <-].
Qed.

Lemma read_terminated zs c rest : READ_UTF8 zs = Some (c, rest) → rest ≠ [] → sqlite3Utf8Read zs = Some (c, rest).
Proof.
  destruct zs as [|b zs]; [done|]. cbn [READ_UTF8 sqlite3Utf8Read]. destruct (0xc0 <=? b); [|done].
  destruct (rd sqlite3Utf8Trans1 (b - 0xc0)) as [k|]; [|done].
  destruct (cont zs k) as [c' z'] eqn:E. intros [= <- <-] Hr. by rewrite (cont_terminated_spec _ _ _ _ E).
Qed.

(** Appending puts the bytes of the character at the start of the buffer. *)
Lemma append_utf8 zOut v : 0 ≤ v < 0x110000 → (4 ≤ length zOut)%nat →
  sqlite3AppendOneUtf8Character zOut v =
    Some (Z.of_nat (length (utf8 v)), utf8 v ++ drop (length (utf8 v)) zOut).
Proof.
  intros Hv Hl. destruct zOut as [|a [|b [|c [|d tl]]]]; cbn [length] in Hl; try lia. clear Hl.
  rewrite <- (write_utf8 v) by done. unfold sqlite3AppendOneUtf8Character, WRITE_UTF8.
  destruct (v <? 0x80); [|destruct (v <? 0x800); [|destruct (v <? 0x10000)]];
    repeat (rewrite wr_Some by (rewrite ?length_insert; cbn [length]; lia));
    reflexivity.
Qed.

Lemma limited_step fuel zs i n c x : i < n → rd zs i = Some (0x80 + x) → 0 ≤ x < 64 → 0 ≤ c < 0x4000000 →
  limited_loop (S fuel) zs i n c = limited_loop fuel zs (i + 1) n (64 * c + x).
Proof.
  intros Hi Hr Hx Hc. cbn [limited_loop]. rewrite (proj2 (Z.ltb_lt _ _)), Hr by done. arith.
  rewrite (proj2 (Z.eqb_eq _ _)) by dm. rewrite u32_id by (unfold is_u32; dm). f_equal. dm.
Qed.

Lemma limited_end fuel zs i n c : n ≤ i → limited_loop (S fuel) zs i n c = Some (c, i).
Proof. intros Hi. cbn [limited_loop]. by rewrite (proj2 (Z.ltb_ge _ _)). Qed.

Lemma limited_utf8 v rest : 0 ≤ v < 0x110000 →
  sqlite3Utf8ReadLimited (utf8 v ++ rest) (Z.of_nat (length (utf8 v))) = Some (Z.of_nat (length (utf8 v)), v).
Proof.
  intros Hv. unfold utf8, sqlite3Utf8ReadLimited. destruct (decide (v < 0x80)) as [H|H].
  { cbn [app]. rewrite rd_0, (proj2 (Z.leb_gt _ _)) by lia. done. }
  destruct (decide (v < 0x800)); [|destruct (decide (v < 0x10000))]; cbn [app length];
    rewrite rd_0, (proj2 (Z.leb_le _ _)) by dm.
  - rewrite (proj1 (trans1 _)) by dm. rewrite (limited_step 3 _ 1 _ _ (v `mod` 64)) by (reflexivity || dm).
    rewrite limited_end by done. do 2 f_equal. dm.
  - rewrite (proj1 (proj2 (trans1 _))) by dm.
    rewrite (limited_step 3 _ 1 _ _ ((v `div` 64) `mod` 64)) by (reflexivity || dm).
    rewrite (limited_step 2 _ 2 _ _ (v `mod` 64)) by (reflexivity || dm).
    rewrite limited_end by done. do 2 f_equal. dm.
  - rewrite (proj2 (proj2 (trans1 _))) by dm.
    rewrite (limited_step 3 _ 1 _ _ ((v `div` 4096) `mod` 64)) by (reflexivity || dm).
    rewrite (limited_step 2 _ 2 _ _ ((v `div` 64) `mod` 64)) by (reflexivity || dm).
    rewrite (limited_step 1 _ 3 _ _ (v `mod` 64)) by (reflexivity || dm).
    rewrite limited_end by done. do 2 f_equal. dm.
Qed.

(** The routines that write and read one character are inverses, for
    every code point: the bytes appended are the UTF-8 of the character and
    nothing else of the buffer changes; reading exactly those bytes back gives
    the character; reading to a terminator gives it too, surrogates and the
    two noncharacters of the first plane turned into U+FFFD, and leaves the
    reader at what follows. *)
Theorem utf8_char_roundtrip v zOut :
  0 ≤ v < 0x110000 → (4 ≤ length zOut)%nat →
  ∃ k zOut', sqlite3AppendOneUtf8Character zOut v = Some (k, zOut') ∧ 1 ≤ k ≤ 4 ∧
    length zOut' = length zOut ∧ drop (Z.to_nat k) zOut' = drop (Z.to_nat k) zOut ∧
    sqlite3Utf8ReadLimited zOut' k = Some (k, v) ∧
    ∀ rest, starts rest → rest ≠ [] →
      sqlite3Utf8Read (take (Z.to_nat k) zOut' ++ rest) = Some (readable v, rest).
Proof.
  intros Hv Hl. eexists _, _. split; [by apply append_utf8|].
  assert (1 ≤ length (utf8 v) ≤ 4)%nat as Hk by (unfold utf8; repeat case_decide; cbn; lia).
  split; [lia|]. rewrite Nat2Z.id. split; [rewrite length_app, length_drop; lia|].
  split; [apply drop_app_length|]. split; [by apply limited_utf8|]. intros rest Hs Hr.
  rewrite take_app_length. apply read_terminated; [by apply read_utf8|done].
Qed.

Lemma utf8_char_roundtrip_witness :
  (0 ≤ 0x20ac < 0x110000 ∧ (4 ≤ length [0; 0; 0; 0; 7])%nat) ∧
  ∃ k zOut', sqlite3AppendOneUtf8Character [0; 0; 0; 0; 7] 0x20ac = Some (k, zOut') ∧ 1 ≤ k ≤ 4 ∧
    length zOut' = length [0; 0; 0; 0; 7] ∧ drop (Z.to_nat k) zOut' = drop (Z.to_nat k) [0; 0; 0; 0; 7] ∧
    sqlite3Utf8ReadLimited zOut' k = Some (k, 0x20ac) ∧
    ∀ rest, starts rest → rest ≠ [] →
      sqlite3Utf8Read (take (Z.to_nat k) zOut' ++ rest) = Some (readable 0x20ac, rest).
Proof.
  assert (0 ≤ 0x20ac < 0x110000) as H1 by lia. assert (4 ≤ length [0; 0; 0; 0; 7])%nat as H2 by (cbn; lia).
  split; [exact (conj H1 H2)|]. exact (utf8_char_roundtrip 0x20ac [0; 0; 0; 0; 7] H1 H2).
Defined.

(** ** Translation of text *)

Lemma put_spec len bs : ∀ out, Z.of_nat (length out + length bs) ≤ len → put len out bs = Some (out ++ bs).
Proof.
  induction bs as [|b bs IH]; intros out Hl; cbn [put]; [by rewrite app_nil_r|]. cbn [length] in Hl.
  rewrite (proj2 (Z.ltb_lt _ _)) by lia. rewrite IH by (rewrite length_app; cbn [length]; lia).
  by rewrite <- (assoc_L (++)).
Qed.

Definition char (v : Z) : Prop := 0 ≤ v < 0x110000 ∧ ¬ surrogate v.

Definition encoder (e : Z) : Z → bytes :=
  if e =? SQLITE_UTF8 then utf8 else utf16 (negb (e =? SQLITE_UTF16LE)).

Definition encode (e : Z) (cs : list Z) : bytes := concat (map (encoder e) cs).

Lemma readable_chars cs : Forall (λ v, char v ∧ ¬ refused v) cs → Forall char cs.
Proof. intros H. eapply Forall_impl; [exact H|]. by intros v [? _]. Qed.

Lemma starts_utf8 cs : Forall char cs → starts (concat (map utf8 cs)).
Proof.
  destruct 1 as [|v cs [Hv _] _]; [done|]. cbn [map concat].
  destruct (utf8_cons v Hv) as (b & bs & -> & _ & Hb). done.
Qed.

Lemma length_chars {A} (f : A → bytes) cs : (∀ v, (1 ≤ length (f v))%nat) →
  (length cs ≤ length (concat (map f cs)))%nat.
Proof.
  intros Hf. induction cs as [|v cs IH]; [done|]. cbn [map concat length]. rewrite length_app.
  specialize (Hf v). lia.
Qed.

Lemma utf8_nonempty v : (1 ≤ length (utf8 v))%nat.
Proof. unfold utf8. repeat case_decide; cbn; lia. Qed.

Lemma utf16_bytes be v : length (utf16 be v) = if decide (v < 0x10000) then 2%nat else 4%nat.
Proof. unfold utf16, units. case_decide; by destruct be. Qed.

Lemma from_utf8_text (be : bool) len cs : ∀ fuel out, Forall (λ v, char v ∧ ¬ refused v) cs → (length cs ≤ fuel)%nat →
  Z.of_nat (length out + length (concat (map (utf16 be) cs))) ≤ len →
  from_utf8 fuel (if be then WRITE_UTF16BE else WRITE_UTF16LE) (concat (map utf8 cs)) len out =
    Some (out ++ concat (map (utf16 be) cs)).
Proof.
  induction cs as [|v cs IH]; intros fuel out Hcs Hf Hl.
  { destruct fuel; cbn [map concat from_utf8]; by rewrite app_nil_r. }
  apply Forall_cons in Hcs as [[[Hv Hs] Hr] Hcs]. destruct fuel as [|fuel]; [cbn in Hf; lia|].
  cbn [map concat] in *. rewrite length_app in Hl.
  assert (starts (concat (map utf8 cs))) as Hst by (by apply starts_utf8, readable_chars).
  pose proof (read_utf8 v _ Hv Hst) as E. destruct (utf8_cons v Hv) as (b & bs & Eb & _).
  rewrite Eb in *. cbn [app] in *. cbn [from_utf8]. rewrite E. unfold readable.
  rewrite decide_False by done. pose proof (write_utf16 be v Hv) as Ew.
  replace ((if be then WRITE_UTF16BE else WRITE_UTF16LE) v) with (utf16 be v) by (by destruct be).
  rewrite put_spec by lia. rewrite IH; [by rewrite <- (assoc_L (++))|done|cbn in Hf; lia|rewrite length_app; lia].
Qed.

Lemma unit_of_bytes be w tl : 0 ≤ w < 0x10000 →
  ∃ b1 b2, unit_bytes be w ++ tl = b1 :: b2 :: tl ∧ unit be b1 b2 = w.
Proof.
  intros Hw. unfold unit_bytes, unit. destruct be; eexists _, _; (split; [reflexivity|]);
    rewrite Z.shiftl_mul_pow2 by lia; change (2 ^ 8) with 256; dm.
Qed.

(** A unit that is no surrogate, and a pair of surrogates. *)
Lemma from_utf16_unit fuel be b1 b2 zIn len out : ¬ surrogate (unit be b1 b2) →
  from_utf16 (S fuel) be (b1 :: b2 :: zIn) len out =
    let* out := put len out (WRITE_UTF8 (unit be b1 b2)) in from_utf16 fuel be zIn len out.
Proof.
  intros Hs. unfold surrogate in Hs. cbn [from_utf16]. cbv zeta.
  destruct (Z.leb_spec 0xd800 (unit be b1 b2)), (Z.ltb_spec (unit be b1 b2) 0xe000); try done; lia.
Qed.

Lemma from_utf16_pair fuel be b1 b2 b3 b4 zIn len out v : 0x10000 ≤ v < 0x110000 →
  unit be b1 b2 = 0xd800 + (v - 0x10000) `div` 1024 → unit be b3 b4 = 0xdc00 + (v - 0x10000) `mod` 1024 →
  from_utf16 (S fuel) be (b1 :: b2 :: b3 :: b4 :: zIn) len out =
    let* out := put len out (WRITE_UTF8 v) in from_utf16 fuel be zIn len out.
Proof.
  intros Hv E1 E2. cbn [from_utf16]. cbv zeta. rewrite E1, E2.
  rewrite (proj2 (Z.leb_le _ _)), (proj2 (Z.ltb_lt _ _)) by dm. cbn [andb]. arith.
  pose proof (Z.div_mod (v - 65536) 1024 ltac:(lia)) as Ed.
  pose proof (Z.mod_pos_bound (v - 65536) 1024 ltac:(lia)) as Hm.
  set (a := (v - 65536) `div` 1024) in *. set (b := (v - 65536) `mod` 1024) in *.
  match goal with |- context [u32 ?x] => replace x with v by (clearbody a b; dm) end.
  by rewrite u32_id by (unfold is_u32; lia).
Qed.

Lemma from_utf16_text be len cs : ∀ fuel out, Forall char cs → (length cs < fuel)%nat →
  Z.of_nat (length out + length (concat (map utf8 cs))) ≤ len →
  from_utf16 fuel be (concat (map (utf16 be) cs)) len out = Some (out ++ concat (map utf8 cs)).
Proof.
  induction cs as [|v cs IH]; intros fuel out Hcs Hf Hl; (destruct fuel as [|fuel]; [lia|]).
  { cbn [map concat from_utf16]. by rewrite app_nil_r. }
  apply Forall_cons in Hcs as [[Hv Hs] Hcs]. cbn [map concat length] in *. rewrite length_app in Hl.
  assert (Z.of_nat (length (out ++ utf8 v) + length (concat (map utf8 cs))) ≤ len) as Hl'
    by (rewrite length_app; lia).
  pose proof (IH fuel (out ++ utf8 v) Hcs ltac:(lia) Hl') as E. rewrite <- (assoc_L (++)) in E.
  unfold utf16 at 1, units. case_decide as Hb; cbn [map concat]; rewrite app_nil_r.
  - destruct (unit_of_bytes be v (concat (map (utf16 be) cs)) ltac:(lia)) as (b1 & b2 & -> & Eu).
    rewrite from_utf16_unit by (by rewrite Eu). rewrite Eu, write_utf8, put_spec by lia. exact E.
  - rewrite <- (assoc_L (++)).
    destruct (unit_of_bytes be (0xdc00 + (v - 0x10000) `mod` 1024) (concat (map (utf16 be) cs)) ltac:(dm))
      as (b3 & b4 & -> & Eu2).
    destruct (unit_of_bytes be (0xd800 + (v - 0x10000) `div` 1024) (b3 :: b4 :: concat (map (utf16 be) cs))
      ltac:(dm)) as (b1 & b2 & -> & Eu1).
    rewrite (from_utf16_pair _ _ _ _ _ _ _ _ _ v) by (done || lia). rewrite write_utf8, put_spec by lia. exact E.
Qed.

Lemma swap_text be cs : Forall char cs →
  swap (concat (map (utf16 be) cs)) = concat (map (utf16 (negb be)) cs).
Proof.
  induction 1 as [|v cs _ _ IH]; [done|]. cbn [map concat].
  unfold utf16 at 1 3, units. case_decide; destruct be; cbn [map concat unit_bytes app swap negb]; by rewrite IH.
Qed.

Definition encoding (e : Z) : Prop := e = SQLITE_UTF8 ∨ e = SQLITE_UTF16LE ∨ e = SQLITE_UTF16BE.

(** The default limit on the length of a string. *)
Definition SQLITE_MAX_LENGTH : Z := 1000000000.

Lemma encode_grows e1 e2 cs : encoding e1 → encoding e2 → e1 ≠ e2 →
  (length (encode e2 cs) ≤ 2 * length (encode e1 cs))%nat.
Proof.
  intros H1 H2 Hne. unfold encode. induction cs as [|v cs IH]; [done|].
  cbn [map concat]. rewrite !length_app.
  enough (length (encoder e2 v) ≤ 2 * length (encoder e1 v))%nat by lia. unfold encoder.
  clear IH. destruct (e1 =? SQLITE_UTF8), (e2 =? SQLITE_UTF8); rewrite ?utf16_bytes; unfold utf8;
    repeat case_decide; cbn [length]; lia.
Qed.

Lemma even_length_utf16 be cs : Z.of_nat (length (concat (map (utf16 be) cs))) `mod` 2 = 0.
Proof.
  induction cs as [|v cs IH]; [done|]. cbn [map concat]. rewrite length_app, utf16_bytes. case_decide; dm.
Qed.

Lemma writeable_spec p m : let '(rc, p', m') := sqlite3VdbeMemMakeWriteable p m in
  rc = SQLITE_OK ∧ n p' = n p ∧ enc p' = enc p ∧ (∃ tl, z p' = take (Z.to_nat (n p)) (z p) ++ tl) ∨
  rc = SQLITE_NOMEM ∧ ¬ no_failure m.
Proof.
  unfold sqlite3VdbeMemMakeWriteable, vdbeMemAddTerminator.
  destruct (_ && negb (owned p)); [|left; cbn; split_and!; try done;
    exists (drop (Z.to_nat (n p)) (z p)); by rewrite take_drop].
  destruct (alloc m) as [ok m'] eqn:Em. destruct ok; cbn.
  - left. split_and!; try done. by eexists.
  - right. split; [done|]. intros Hm. by destruct (alloc_ok _ _ _ Em Hm).
Qed.

(** The translation with UTF-8 on one side, of text given by the characters. *)
Lemma translate_utf8_side p desired m cs : encoding (enc p) → encoding desired → enc p ≠ desired →
  enc p = SQLITE_UTF8 ∨ desired = SQLITE_UTF8 → Forall (λ v, char v ∧ ¬ refused v) cs →
  n p = Z.of_nat (length (encode (enc p) cs)) → (∃ tl, z p = encode (enc p) cs ++ tl) → no_failure m →
  n p ≤ SQLITE_MAX_LENGTH →
  ∃ p' m', sqlite3VdbeMemTranslate p desired m = Some (SQLITE_OK, p', m') ∧ enc p' = desired ∧
    n p' = Z.of_nat (length (encode desired cs)) ∧
    z p' = encode desired cs ++ (if desired =? SQLITE_UTF8 then [0] else [0; 0]).
Proof.
  intros He Hd Hne Hor Hcs Hn [tl Hz] Hm Hmax. unfold sqlite3VdbeMemTranslate.
  pose proof (encode_grows _ _ cs He Hd Hne) as Hg.
  assert (negb (enc p =? SQLITE_UTF8) && negb (desired =? SQLITE_UTF8) = false) as ->.
  { destruct Hor as [-> | ->]; rewrite Z.eqb_refl; [done|apply andb_false_r]. }
  destruct (alloc m) as [ok m'] eqn:Em. destruct (alloc_ok _ _ _ Em Hm) as [-> _].
  assert (∀ k, i32 (Z.of_nat (length (encode desired cs))) = k → k = Z.of_nat (length (encode desired cs))) as Hi.
  { intros k <-. apply i32_id. unfold is_i32, SQLITE_MAX_LENGTH in *. lia. }
  assert (Forall char cs) as Hch by (by apply readable_chars).
  unfold SQLITE_MAX_LENGTH in Hmax.
  destruct (Z.eqb_spec desired SQLITE_UTF8) as [Hd8|Hd8].
  - assert (enc p ≠ SQLITE_UTF8) as He8 by congruence. cbn [z n enc flags negb].
    pose proof (even_length_utf16 (negb (enc p =? SQLITE_UTF16LE)) cs) as Hev.
    unfold encode, encoder in *. rewrite (proj2 (Z.eqb_neq _ _) He8) in *. rewrite (proj2 (Z.eqb_eq _ _) Hd8) in *.
    rewrite land_even, Hn, Hev, Z.sub_0_r, Nat2Z.id, Hz, take_app_length.
    rewrite from_utf16_text by (done || (cbn; lia) || (pose proof (length_chars
      (utf16 (negb (enc p =? SQLITE_UTF16LE))) cs ltac:(intros; rewrite utf16_bytes; case_decide; lia)); lia)).
    cbn [app]. rewrite put_spec by (cbn; lia). eexists _, _. split; [reflexivity|]. cbn [enc n z].
    split; [done|]. split; [by apply Hi|done].
  - assert (enc p = SQLITE_UTF8) as He8 by tauto. cbn [z n enc flags negb].
    unfold encode, encoder in *. rewrite (proj2 (Z.eqb_eq _ _) He8) in *. rewrite (proj2 (Z.eqb_neq _ _) Hd8) in *.
    rewrite Hn, Nat2Z.id, Hz, take_app_length.
    replace (if desired =? SQLITE_UTF16LE then WRITE_UTF16LE else WRITE_UTF16BE)
      with (if negb (desired =? SQLITE_UTF16LE) then WRITE_UTF16BE else WRITE_UTF16LE)
      by (by destruct (desired =? SQLITE_UTF16LE)).
    rewrite from_utf8_text by (done || (cbn; lia) || apply length_chars, utf8_nonempty).
    cbn [app]. rewrite put_spec by (cbn; lia). rewrite put_spec by (rewrite length_app; cbn; lia).
    eexists _, _. split; [reflexivity|]. cbn [enc n z]. split; [done|]. split; [by apply Hi|].
    by rewrite <- (assoc_L (++)).
Qed.

(** C33: Translating the text of a value from any of the three encodings to
    another gives the standard encoding of the same characters, with its
    length and, from or to UTF-8, its zero terminator; so translating there
    and back loses nothing.  (Of the characters, the two noncharacters that
    reading UTF-8 replaces are left out.) *)
Theorem translate_text p desired m cs :
  encoding (enc p) → encoding desired → enc p ≠ desired →
  Forall (λ v, char v ∧ ¬ refused v) cs →
  n p = Z.of_nat (length (encode (enc p) cs)) → (∃ tl, z p = encode (enc p) cs ++ tl) →
  n p ≤ SQLITE_MAX_LENGTH → no_failure m →
  ∃ p' m' tl, sqlite3VdbeMemTranslate p desired m = Some (SQLITE_OK, p', m') ∧ enc p' = desired ∧
    n p' = Z.of_nat (length (encode desired cs)) ∧ z p' = encode desired cs ++ tl ∧
    (desired = SQLITE_UTF8 → tl = [0]) ∧ (enc p = SQLITE_UTF8 → tl = [0; 0]).
Proof.
  intros He Hd Hne Hcs Hn Hz Hmax Hm.
  destruct (decide (enc p = SQLITE_UTF8 ∨ desired = SQLITE_UTF8)) as [Hor|Hor].
  - destruct (translate_utf8_side p desired m cs He Hd Hne Hor Hcs Hn Hz Hm Hmax) as (p' & m' & E & Ee & En & Ez).
    exists p', m', (if desired =? SQLITE_UTF8 then [0] else [0; 0]). split_and!; try done.
    + by intros ->.
    + intros He8. by rewrite (proj2 (Z.eqb_neq _ _)) by congruence.
  - assert (enc p ≠ SQLITE_UTF8 ∧ desired ≠ SQLITE_UTF8) as [He8 Hd8] by tauto.
    unfold sqlite3VdbeMemTranslate. rewrite (proj2 (Z.eqb_neq _ _) He8), (proj2 (Z.eqb_neq _ _) Hd8). cbn [negb andb].
    pose proof (writeable_spec p m) as Hw. destruct (sqlite3VdbeMemMakeWriteable p m) as [[rc p1] m1].
    destruct Hw as [(-> & En1 & Ee1 & tl1 & Ez1)|[_ Hf]]; [|done]. cbn [Z.eqb negb SQLITE_OK].
    destruct Hz as [tl Hz]. rewrite Hz, Hn, Nat2Z.id, take_app_length in Ez1.
    pose proof (even_length_utf16 (negb (enc p =? SQLITE_UTF16LE)) cs) as Hev.
    assert (Forall char cs) as Hch by (by apply readable_chars).
    unfold encode, encoder in *. rewrite (proj2 (Z.eqb_neq _ _) He8), (proj2 (Z.eqb_neq _ _) Hd8) in *.
    eexists _, _, tl1. split; [reflexivity|]. cbn [enc n z]. split; [done|].
    rewrite En1, Hn, land_even, Hev, Z.sub_0_r, Nat2Z.id, Ez1, take_app_length, drop_app_length, swap_text by done.
    assert (negb (desired =? SQLITE_UTF16LE) = negb (negb (enc p =? SQLITE_UTF16LE))) as ->.
    { destruct He as [|[He|He]], Hd as [|[Hd|Hd]]; try congruence; by rewrite He, Hd. }
    split; [|split_and!; done]. f_equal.
    clear. induction cs as [|v cs IH]; [done|]. cbn [map concat]. rewrite !length_app, !utf16_bytes. by rewrite IH.
Qed.

Lemma translate_text_witness :
  let p := mem [0x41; 0xc3; 0xa9; 0xf0; 0x9f; 0x98; 0x80] 7 MEM_Str SQLITE_UTF8 false in
  (encoding (enc p) ∧ encoding SQLITE_UTF16BE ∧ enc p ≠ SQLITE_UTF16BE ∧
   Forall (λ v, char v ∧ ¬ refused v) [0x41; 0xe9; 0x1f600] ∧
   n p = Z.of_nat (length (encode (enc p) [0x41; 0xe9; 0x1f600])) ∧
   (∃ tl, z p = encode (enc p) [0x41; 0xe9; 0x1f600] ++ tl) ∧ n p ≤ SQLITE_MAX_LENGTH ∧ no_failure []) ∧
  ∃ p' m' tl, sqlite3VdbeMemTranslate p SQLITE_UTF16BE [] = Some (SQLITE_OK, p', m') ∧ enc p' = SQLITE_UTF16BE ∧
    n p' = Z.of_nat (length (encode SQLITE_UTF16BE [0x41; 0xe9; 0x1f600])) ∧
    z p' = encode SQLITE_UTF16BE [0x41; 0xe9; 0x1f600] ++ tl ∧
    (SQLITE_UTF16BE = SQLITE_UTF8 → tl = [0]) ∧ (enc p = SQLITE_UTF8 → tl = [0; 0]).
Proof.
  intros p. assert (encoding (enc p)) as H1 by (by left). assert (encoding SQLITE_UTF16BE) as H2 by (by right; right).
  assert (enc p ≠ SQLITE_UTF16BE) as H3 by discriminate.
  assert (Forall (λ v, char v ∧ ¬ refused v) [0x41; 0xe9; 0x1f600]) as H4
    by (repeat constructor; unfold surrogate, refused, surrogate; lia).
  assert (n p = Z.of_nat (length (encode (enc p) [0x41; 0xe9; 0x1f600]))) as H5 by reflexivity.
  assert (∃ tl, z p = encode (enc p) [0x41; 0xe9; 0x1f600] ++ tl) as H6 by (by exists []).
  assert (n p ≤ SQLITE_MAX_LENGTH) as H7 by discriminate. assert (no_failure []) as H8 by constructor.
  split; [done|]. exact (translate_text p SQLITE_UTF16BE [] _ H1 H2 H3 H4 H5 H6 H7 H8).
Defined.

(** ** Any bytes at all *)

Lemma trans1_range k : 0 ≤ k < 64 → ∃ c, rd sqlite3Utf8Trans1 k = Some c ∧ 0 ≤ c < 32.
Proof.
  intros Hk. destruct (rd_is_Some sqlite3Utf8Trans1 k) as [c Hc]; [exact Hk|]. exists c. split; [done|].
  assert (Forall (λ c, 0 ≤ c < 32) sqlite3Utf8Trans1) as H by (apply (bool_decide_unpack _); vm_compute; exact I).
  rewrite Forall_forall in H. apply H, list_elem_of_lookup.
  unfold rd in Hc. case_decide; [by eexists|done].
Qed.

Lemma cont_range zs : ∀ c, 0 ≤ c < 4294967296 → is_bytes zs →
  let '(c', rest) := cont zs c in
  0 ≤ c' < 4294967296 ∧ is_bytes rest ∧ (length rest ≤ length zs)%nat ∧ (length rest = length zs → c' = c).
Proof.
  induction zs as [|b zs IH]; intros c Hc Hz; cbn [cont]; [done|].
  destruct (Z.land b 0xc0 =? 0x80); [|done]. apply Forall_cons in Hz as [Hb Hz].
  specialize (IH (u32 (Z.shiftl c 6 + Z.land 0x3f b)) (is_u32_u32 _) Hz).
  destruct (cont zs _) as [c' rest]. destruct IH as (H1 & H2 & H3 & _). cbn [length]. split_and!; try done; lia.
Qed.

(** Reading uses bytes, more than one for a character of two units. *)
Lemma read_range zIn : is_bytes zIn → zIn ≠ [] →
  ∃ c rest, READ_UTF8 zIn = Some (c, rest) ∧ 0 ≤ c < 4294967296 ∧ is_bytes rest ∧
    (length rest < length zIn)%nat ∧ (0xffff < c → (S (length rest) < length zIn)%nat).
Proof.
  destruct zIn as [|b zs]; [done|]. intros [Hb Hz]%Forall_cons _. unfold is_u8 in Hb. cbn [READ_UTF8 length].
  destruct (Z.leb_spec 0xc0 b).
  - destruct (trans1_range (b - 0xc0)) as (k & -> & Hk); [lia|].
    pose proof (cont_range zs k ltac:(lia) Hz) as Hc. destruct (cont zs k) as [c rest].
    destruct Hc as (H1 & H2 & H3 & H4). eexists _, _. split; [reflexivity|].
    assert (replace_invalid c = 0xfffd ∨ replace_invalid c = c ∧ 0x80 ≤ c) as Hr.
    { unfold replace_invalid. destruct (Z.ltb_spec c 0x80); [by left|]. cbn [orb].
      case_match; [by left|by right]. }
    split; [destruct Hr as [-> | [-> _]]; lia|]. split; [done|]. split; [lia|].
    intros Hlt. destruct Hr as [Hr|[Hr Hc]]; rewrite Hr in Hlt; [lia|].
    destruct (decide (length rest = length zs)) as [E|E]; [|lia]. specialize (H4 E). lia.
  - eexists _, _. split; [reflexivity|]. split_and!; try done; lia.
Qed.

Lemma write_utf16_range (be : bool) c : 0 ≤ c →
  let bs := (if be then WRITE_UTF16BE else WRITE_UTF16LE) c in
  is_bytes bs ∧ length bs = if decide (c ≤ 0xffff) then 2%nat else 4%nat.
Proof.
  intros Hc. unfold WRITE_UTF16BE, WRITE_UTF16LE, is_bytes. cbv zeta.
  destruct be; (destruct (Z.leb_spec c 0xffff); [rewrite decide_True by lia|rewrite decide_False by lia]);
    (split; [|reflexivity]); repeat (apply Forall_cons; split); try apply Forall_nil; try done;
    rewrite ?land_ff; try apply is_u8_u8; unfold is_u8; dm.
Qed.

Lemma write_utf8_range c : 0 ≤ c → is_bytes (WRITE_UTF8 c) ∧
  (length (WRITE_UTF8 c) ≤ 4)%nat.
Proof.
  intros Hc. unfold WRITE_UTF8, is_bytes. arith. repeat case_match; (split; [|cbn; lia]);
    repeat (apply Forall_cons; split); try apply Forall_nil; try done; unfold is_u8; dm.
Qed.

Lemma from_utf8_range (be : bool) len : ∀ fuel zIn out, is_bytes zIn → is_bytes out → (length zIn ≤ fuel)%nat →
  Z.of_nat (length out + 2 * length zIn) ≤ len →
  ∃ out', from_utf8 fuel (if be then WRITE_UTF16BE else WRITE_UTF16LE) zIn len out = Some out' ∧
    is_bytes out' ∧ (length out' ≤ length out + 2 * length zIn)%nat ∧
    Z.of_nat (length out') `mod` 2 = Z.of_nat (length out) `mod` 2.
Proof.
  induction fuel as [|fuel IH]; intros zIn out Hz Ho Hf Hl.
  { destruct zIn; [|cbn in Hf; lia]. exists out. split_and!; done || lia. }
  destruct (decide (zIn = [])) as [->|Hne]; [exists out; split_and!; done || lia|].
  destruct (read_range zIn Hz Hne) as (c & rest & E & Hc & Hr & Hlen & Hlong).
  destruct (write_utf16_range be c ltac:(lia)) as [Hw Hwl]. cbv zeta in Hw, Hwl.
  assert (length ((if be then WRITE_UTF16BE else WRITE_UTF16LE) c) + 2 * length rest ≤ 2 * length zIn)%nat as Hb.
  { rewrite Hwl. case_decide; [lia|]. specialize (Hlong ltac:(lia)). lia. }
  assert (Z.of_nat (length ((if be then WRITE_UTF16BE else WRITE_UTF16LE) c)) `mod` 2 = 0) as Hpar
    by (rewrite Hwl; by case_decide).
  destruct zIn as [|b zs]; [done|]. cbn [from_utf8]. rewrite E, put_spec by lia.
  destruct (IH rest (out ++ (if be then WRITE_UTF16BE else WRITE_UTF16LE) c)) as (out' & E' & Ho' & Hl' & Hp');
    [done|by apply Forall_app|lia|rewrite length_app; lia|].
  exists out'. split; [done|]. split; [done|]. rewrite length_app in *. split; [lia|]. rewrite Hp'. dm.
Qed.

Lemma from_utf16_range be len : ∀ fuel zIn out, is_bytes zIn → is_bytes out → (length zIn < fuel)%nat →
  Z.of_nat (length zIn) `mod` 2 = 0 → Z.of_nat (length out + 2 * length zIn) ≤ len →
  ∃ out', from_utf16 fuel be zIn len out = Some out' ∧ is_bytes out' ∧
    (length out' ≤ length out + 2 * length zIn)%nat.
Proof.
  induction fuel as [|fuel IH]; intros zIn out Hz Ho Hf Hp Hl; [lia|].
  destruct zIn as [|b1 [|b2 zIn]]; [exists out; split_and!; done || (cbn; lia)|done|].
  apply Forall_cons in Hz as [Hb1 [Hb2 Hz]%Forall_cons]. cbn [length] in *.
  assert (Z.of_nat (length zIn) `mod` 2 = 0) as Hp' by dm.
  assert (∀ c zIn', 0 ≤ c → is_bytes zIn' → (length zIn' ≤ length zIn)%nat → Z.of_nat (length zIn') `mod` 2 = 0 →
    ∃ out', (let* out := put len out (WRITE_UTF8 c) in from_utf16 fuel be zIn' len out) = Some out' ∧
      is_bytes out' ∧ (length out' ≤ length out + 2 * S (S (length zIn)))%nat) as Hgo.
  { intros c zIn' Hc Hz' Hlen Hpar. destruct (write_utf8_range c Hc) as [Hw Hwl].
    rewrite put_spec by lia.
    destruct (IH zIn' (out ++ WRITE_UTF8 c)) as (out' & -> & Ho' & Hl');
      [done|by apply Forall_app|lia|done|rewrite length_app; lia|].
    exists out'. rewrite length_app in Hl'. split_and!; done || lia. }
  assert (0 ≤ unit be b1 b2) as Hu.
  { unfold unit, is_u8 in *. rewrite !Z.shiftl_mul_pow2 by lia. destruct be; lia. }
  cbn [from_utf16]. cbv zeta. destruct ((0xd800 <=? unit be b1 b2) && (unit be b1 b2 <? 0xe000)); [|by apply Hgo].
  destruct zIn as [|b3 [|b4 zIn]]; [by apply Hgo|done|].
  apply Forall_cons in Hz as [_ [_ Hz]%Forall_cons]. cbn [length] in *.
  apply Hgo; [apply is_u32_u32|done|lia|dm].
Qed.

Lemma swap_length : ∀ k zs, (length zs ≤ k)%nat → length (swap zs) = length zs.
Proof.
  induction k as [|k IH]; intros [|a [|b zs]] Hk; cbn [swap length] in *; try lia. by rewrite IH by lia.
Qed.

(** C40: Whatever the bytes of the text, well-formed or not, translation
    reads and writes inside its buffers, zero terminator included, and ends:
    it answers OK with at most twice the bytes, an even number in UTF-16, or,
    only when memory is short, NOMEM. *)
Theorem translate_in_bounds p desired m :
  encoding (enc p) → encoding desired → enc p ≠ desired →
  is_bytes (z p) → 0 ≤ n p ≤ Z.of_nat (length (z p)) → n p ≤ SQLITE_MAX_LENGTH →
  ∃ rc p' m', sqlite3VdbeMemTranslate p desired m = Some (rc, p', m') ∧
    (rc = SQLITE_OK ∧ enc p' = desired ∧ 0 ≤ n p' ≤ 2 * n p ∧ n p' ≤ Z.of_nat (length (z p')) ∧
       (enc p = SQLITE_UTF8 → n p' `mod` 2 = 0 ∧ Z.of_nat (length (z p')) = n p' + 2) ∧
       (desired = SQLITE_UTF8 → Z.of_nat (length (z p')) = n p' + 1) ∨
     rc = SQLITE_NOMEM ∧ ¬ no_failure m).
Proof.
  intros He Hd Hne Hz Hn Hmax. unfold sqlite3VdbeMemTranslate. unfold SQLITE_MAX_LENGTH in Hmax.
  destruct (negb (enc p =? SQLITE_UTF8) && negb (desired =? SQLITE_UTF8)) eqn:Eswap.
  { apply andb_true_iff in Eswap as [E1 E2]. apply negb_true_iff, Z.eqb_neq in E1, E2.
    pose proof (writeable_spec p m) as Hw. destruct (sqlite3VdbeMemMakeWriteable p m) as [[rc p1] m1].
    destruct Hw as [(-> & En1 & Ee1 & tl1 & Ez1)|[-> Hf]]; cbn [Z.eqb negb SQLITE_OK].
    - eexists _, _, _. split; [reflexivity|]. left. cbn [enc n z]. rewrite En1.
      assert (length (take (Z.to_nat (n p)) (z p)) = Z.to_nat (n p)) as Hl by (rewrite length_take; lia).
      assert (n p ≤ Z.of_nat (length (z p1))) by (rewrite Ez1, length_app, Hl; lia).
      rewrite length_app, (swap_length (length (z p1))) by (rewrite length_take; lia).
      rewrite <- length_app, take_drop. split_and!; done || lia.
    - eexists _, _, _. split; [reflexivity|]. by right. }
  destruct (alloc m) as [ok m'] eqn:Em.
  assert (¬ ok = true → ¬ no_failure m) as Hno by (intros Hok Hm; by destruct (alloc_ok _ _ _ Em Hm)).
  assert (∀ k : nat, Z.of_nat k ≤ 2 * n p → i32 (Z.of_nat k) = Z.of_nat k) as Hi
    by (intros k Hk; apply i32_id; unfold is_i32; lia).
  pose proof (Z.mod_pos_bound (n p) 2 ltac:(lia)) as Hm2. pose proof (Z.mod_le (n p) 2 ltac:(lia) ltac:(lia)).
  destruct (Z.eqb_spec desired SQLITE_UTF8) as [Hd8|Hd8].
  - assert (enc p ≠ SQLITE_UTF8) as He8 by congruence. cbn [z n enc flags]. rewrite land_even.
    destruct ok; cbn [negb]; [|eexists _, _, _; split; [reflexivity|right; split; [done|by apply Hno]]].
    rewrite (proj2 (Z.eqb_neq _ _) He8).
    assert (length (take (Z.to_nat (n p - n p `mod` 2)) (z p)) = Z.to_nat (n p - n p `mod` 2)) as Hl
      by (rewrite length_take; lia).
    destruct (from_utf16_range (negb (enc p =? SQLITE_UTF16LE)) (2 * (n p - n p `mod` 2) + 1)
      (S (length (take (Z.to_nat (n p - n p `mod` 2)) (z p)))) (take (Z.to_nat (n p - n p `mod` 2)) (z p)) [])
      as (out & -> & _ & Hlo); [by apply Forall_take|apply Forall_nil_2|lia|rewrite Hl, Z2Nat.id by lia; dm|cbn; lia|].
    cbn [length] in Hlo. rewrite Hl in Hlo. rewrite put_spec by (cbn; lia).
    eexists _, _, _. split; [reflexivity|]. left. cbn [enc n z]. rewrite Hi, length_app by lia. cbn [length].
    split_and!; try done; try lia.
  - assert (enc p = SQLITE_UTF8) as He8.
    { destruct (Z.eqb_spec (enc p) SQLITE_UTF8); [done|]. by cbn in Eswap. }
    cbn [z n enc flags].
    destruct ok; cbn [negb]; [|eexists _, _, _; split; [reflexivity|right; split; [done|by apply Hno]]].
    rewrite (proj2 (Z.eqb_eq _ _) He8).
    replace (if desired =? SQLITE_UTF16LE then WRITE_UTF16LE else WRITE_UTF16BE)
      with (if negb (desired =? SQLITE_UTF16LE) then WRITE_UTF16BE else WRITE_UTF16LE)
      by (by destruct (desired =? SQLITE_UTF16LE)).
    assert (length (take (Z.to_nat (n p)) (z p)) = Z.to_nat (n p)) as Hl by (rewrite length_take; lia).
    destruct (from_utf8_range (negb (desired =? SQLITE_UTF16LE)) (2 * n p + 2)
      (length (take (Z.to_nat (n p)) (z p))) (take (Z.to_nat (n p)) (z p)) [])
      as (out & -> & _ & Hlo & Hpar); [by apply Forall_take|apply Forall_nil_2|lia|cbn; lia|].
    cbn [length] in Hlo, Hpar. rewrite Hl in Hlo. rewrite put_spec by (cbn; lia).
    rewrite put_spec by (rewrite length_app; cbn; lia).
    eexists _, _, _. split; [reflexivity|]. left. cbn [enc n z]. rewrite Hi, !length_app by lia. cbn [length].
    split_and!; try done; try lia. intros _. split; [exact Hpar|lia].
Qed.

Lemma translate_in_bounds_witness :
  let p := mem [0xff; 0xc0; 0x80; 0xf4] 4 MEM_Str SQLITE_UTF8 false in
  (encoding (enc p) ∧ encoding SQLITE_UTF16LE ∧ enc p ≠ SQLITE_UTF16LE ∧ is_bytes (z p) ∧
   0 ≤ n p ≤ Z.of_nat (length (z p)) ∧ n p ≤ SQLITE_MAX_LENGTH) ∧
  ∃ rc p' m', sqlite3VdbeMemTranslate p SQLITE_UTF16LE [false] = Some (rc, p', m') ∧
    (rc = SQLITE_OK ∧ enc p' = SQLITE_UTF16LE ∧ 0 ≤ n p' ≤ 2 * n p ∧ n p' ≤ Z.of_nat (length (z p')) ∧
       (enc p = SQLITE_UTF8 → n p' `mod` 2 = 0 ∧ Z.of_nat (length (z p')) = n p' + 2) ∧
       (SQLITE_UTF16LE = SQLITE_UTF8 → Z.of_nat (length (z p')) = n p' + 1) ∨
     rc = SQLITE_NOMEM ∧ ¬ no_failure [false]).
Proof.
  intros p. assert (encoding (enc p)) as H1 by (by left). assert (encoding SQLITE_UTF16LE) as H2 by (by right; left).
  assert (enc p ≠ SQLITE_UTF16LE) as H3 by discriminate.
  assert (is_bytes (z p)) as H4 by (repeat constructor; discriminate).
  assert (0 ≤ n p ≤ Z.of_nat (length (z p))) as H5 by (split; discriminate).
  assert (n p ≤ SQLITE_MAX_LENGTH) as H6 by discriminate.
  split; [done|]. exact (translate_in_bounds p SQLITE_UTF16LE [false] H1 H2 H3 H4 H5 H6).
Defined.

End Utf.
