(* ===== verification/Complete.v ===== *)
(** * Complete statements ([native/sqlite3/sqlite3.c], complete.c)

    [sqlite3_complete] tells whether the text typed so far ends a statement.
    It splits the text into tokens of eight kinds and runs a state machine on
    them; a trigger ends at a semicolon after END only.  The theorems compare
    the machine with a grammar of statements, and the splitting with the
    printing of tokens. *)

From S2P Require Import Prelude Text.

Module Complete.

Import Text.

(* native/sqlite3/sqlite3.c:182291-182300 tkSEMI *)
Definition tkSEMI : Z := 0.
Definition tkWS : Z := 1.
Definition tkOTHER : Z := 2.
Definition tkEXPLAIN : Z := 3.
Definition tkCREATE : Z := 4.
Definition tkTEMP : Z := 5.
Definition tkTRIGGER : Z := 6.
Definition tkEND : Z := 7.

(** A row for each state, two digits for each token. *)
(* native/sqlite3/sqlite3.c:182363-182374 sqlite3_complete, trans *)
Definition trans : list (list Z) :=
  map from_hex
    ["0100020304020202"; "0101020304020202"; "0102020202020202"; "0103030204020202";
     "0104020202040502"; "0605050505050505"; "0606050505050507"; "0107050505050505"]%string.

(** One turn of the loop: a token and the text after it, or an end of the
    whole: 0, or whether the state is START. *)
Inductive lexed : Type := Token (token : Z) (rest : bytes) | Unfinished | Finished.

(* native/sqlite3/sqlite3.c:182415-182415 sqlite3_complete, the loop over a comment *)
Fixpoint skip_comment (zSql : bytes) : option bytes :=
  match zSql with
  | [] => None
  | c :: z =>
      if c =? 0 then Some zSql
      else if negb (c =? 42) then skip_comment z
      else match z with
           | [] => None
           | d :: _ => if negb (d =? 47) then skip_comment z else Some zSql
           end
  end.

(* native/sqlite3/sqlite3.c:182426-182443 sqlite3_complete, the loops to a delimiter *)
Fixpoint skip_to (q : Z) (zSql : bytes) : option bytes :=
  match zSql with
  | [] => None
  | c :: z => if negb (c =? 0) && negb (c =? q) then skip_to q z else Some zSql
  end.

(* native/sqlite3/sqlite3.c:182455-182455 sqlite3_complete, the for loop *)
Fixpoint id_length (zSql : bytes) : option nat :=
  match zSql with
  | [] => None
  | c :: z => if IdChar c then let* n := id_length z in Some (S n) else Some O
  end.

Definition is_keyword (zSql : bytes) (word : string) : option bool :=
  let w := string_bytes word in
  let* r := sqlite3_strnicmp (Some zSql) (Some (cstr w)) (Z.of_nat (length w)) in
  Some (r =? 0).

(* native/sqlite3/sqlite3.c:182459-182498 sqlite3_complete, the switch *)
Definition word_token (zSql : bytes) (c : Z) (nId : nat) : option Z :=
  let test n word t next :=
    if (nId =? n)%nat then let* b := is_keyword zSql word in if (b : bool) then Some t else next
    else next in
  if (c =? 99) || (c =? 67) then test 6%nat "create"%string tkCREATE (Some tkOTHER)
  else if (c =? 116) || (c =? 84) then
    test 7%nat "trigger"%string tkTRIGGER
      (test 4%nat "temp"%string tkTEMP (test 9%nat "temporary"%string tkTEMP (Some tkOTHER)))
  else if (c =? 101) || (c =? 69) then
    test 3%nat "end"%string tkEND (test 7%nat "explain"%string tkEXPLAIN (Some tkOTHER))
  else Some tkOTHER.

(* native/sqlite3/sqlite3.c:182396-182505 sqlite3_complete, the switch *)
Definition lex (zSql : bytes) : option lexed :=
  match zSql with
  | [] => None
  | c :: z =>
      if c =? 59 then Some (Token tkSEMI z)
      else if (c =? 32) || (c =? 13) || (c =? 9) || (c =? 10) || (c =? 12) then Some (Token tkWS z)
      else if c =? 47 then
        let* d := rd z 0 in
        if negb (d =? 42) then Some (Token tkOTHER z) else
        let* e := skip_comment (drop 1 z) in
        let* d := rd e 0 in
        if d =? 0 then Some Unfinished else Some (Token tkWS (drop 2 e))
      else if c =? 45 then
        let* d := rd z 0 in
        if negb (d =? 45) then Some (Token tkOTHER z) else
        let* e := skip_to 10 zSql in
        let* d := rd e 0 in
        if d =? 0 then Some Finished else Some (Token tkWS (drop 1 e))
      else if c =? 91 then
        let* e := skip_to 93 z in
        let* d := rd e 0 in
        if d =? 0 then Some Unfinished else Some (Token tkOTHER (drop 1 e))
      else if (c =? 96) || (c =? 34) || (c =? 39) then
        let* e := skip_to c z in
        let* d := rd e 0 in
        if d =? 0 then Some Unfinished else Some (Token tkOTHER (drop 1 e))
      else if IdChar c then
        let* k := id_length z in
        let* token := word_token zSql c (S k) in
        Some (Token token (drop (S k) zSql))
      else Some (Token tkOTHER z)
  end.

Definition next_state (state token : Z) : option Z := let* row := rd trans state in rd row token.

(* native/sqlite3/sqlite3.c:182395-182508 sqlite3_complete, the while loop *)
Fixpoint complete_loop (fuel : nat) (zSql : bytes) (state : Z) : option Z :=
  match fuel with
  | O => None
  | S fuel =>
      let* c := rd zSql 0 in
      if c =? 0 then Some (if state =? 1 then 1 else 0)
      else
        let* l := lex zSql in
        match l with
        | Token token rest =>
            let* state := next_state state token in
            complete_loop fuel rest state
        | Unfinished => Some 0
        | Finished => Some (if state =? 1 then 1 else 0)
        end
  end.

(* native/sqlite3/sqlite3.c:182302-182512 sqlite3_complete *)
Definition sqlite3_complete (zSql : bytes) : option Z := complete_loop (length zSql) zSql 0.

Example complete_1 : sqlite3_complete (cstr (string_bytes "create temp trigger t /* ; */ begin; select ';end;'; end;")) = Some 1.
Proof. reflexivity. Qed.
Example complete_2 : sqlite3_complete (cstr (string_bytes "create trigger t begin select 1;")) = Some 0.
Proof. reflexivity. Qed.

(** ** The grammar of statements, on tokens other than white space *)

(** The body of a trigger, when the tokens begin the creation of one:
    [EXPLAIN other*] CREATE TEMP* TRIGGER. *)
Fixpoint after_create (ts : list Z) : option (list Z) :=
  match ts with
  | t :: ts => if t =? tkTEMP then after_create ts else if t =? tkTRIGGER then Some ts else None
  | [] => None
  end.

Fixpoint after_explain (ts : list Z) : option (list Z) :=
  match ts with
  | t :: ts => if t =? tkOTHER then after_explain ts else if t =? tkCREATE then after_create ts else None
  | [] => None
  end.

Definition trigger_body (ts : list Z) : option (list Z) :=
  match ts with
  | t :: ts => if t =? tkEXPLAIN then after_explain ts else if t =? tkCREATE then after_create ts else None
  | [] => None
  end.

(** The first ; END ; is at the end. *)
Fixpoint ends_trigger (ts : list Z) : Prop :=
  match ts with
  | [] => False
  | _ :: ts' =>
      if decide (take 3 ts = [tkSEMI; tkEND; tkSEMI]) then drop 3 ts = [] else ends_trigger ts'
  end.

(** The first semicolon is at the end. *)
Definition ends_plain (ts : list Z) : Prop := ∃ l, (tkSEMI ∉ l) ∧ ts = l ++ [tkSEMI].

Definition statement (ts : list Z) : Prop :=
  match trigger_body ts with Some b => ends_trigger b | None => ends_plain ts end.

(** One statement or more, and nothing after them. *)
Definition statements (ts : list Z) : Prop :=
  ∃ ss, ss ≠ [] ∧ Forall statement ss ∧ ts = concat ss.

(** ** The machine and the grammar *)

Definition token (t : Z) : Prop := 0 ≤ t < 8.

Definition delta (s t : Z) : Z := default 0 (next_state s t).

Lemma token_cases t : token t → t = 0 ∨ t = 1 ∨ t = 2 ∨ t = 3 ∨ t = 4 ∨ t = 5 ∨ t = 6 ∨ t = 7.
Proof. unfold token. lia. Qed.

Ltac tokens H := apply token_cases in H as [->|[->|[->|[->|[->|[->|[->| ->]]]]]]].

Lemma next_state_delta s t : token s → token t → next_state s t = Some (delta s t) ∧ token (delta s t).
Proof. intros Hs Ht. tokens Hs; tokens Ht; (split; [reflexivity | by vm_compute]). Qed.

Lemma delta_ws s : token s → delta s tkWS = s.
Proof. intros Hs. tokens Hs; reflexivity. Qed.

(** The tokens that lead from [s] to START for the first time. *)
Fixpoint leads (s : Z) (ts : list Z) : Prop :=
  match ts with
  | [] => False
  | t :: ts => if decide (delta s t = 1) then ts = [] else leads (delta s t) ts
  end.

Definition visible (ts : list Z) : Prop := Forall (λ t, token t ∧ t ≠ tkWS) ts.

Lemma visible_cases t : token t ∧ t ≠ tkWS → t = 0 ∨ t = 2 ∨ t = 3 ∨ t = 4 ∨ t = 5 ∨ t = 6 ∨ t = 7.
Proof. unfold token, tkWS. lia. Qed.

Ltac visible H := apply visible_cases in H as [->|[->|[->|[->|[->|[->| ->]]]]]].

Lemma ends_plain_cons t ts : ends_plain (t :: ts) ↔ if decide (t = tkSEMI) then ts = [] else ends_plain ts.
Proof.
  unfold ends_plain. case_decide as Ht; split.
  - intros ([|x l] & Hl & [= -> E]); [done|]. set_solver.
  - intros ->. exists []. split; [set_solver|]. by rewrite Ht.
  - intros ([|x l] & Hl & [= -> E]); [done|]. exists l. split; [set_solver|done].
  - intros (l & Hl & ->). exists (t :: l). split; [set_solver|done].
Qed.

Ltac step_delta :=
  cbn [leads];
  repeat match goal with
    |- context [delta ?s ?t] => let v := eval vm_compute in (delta s t) in change (delta s t) with v
  end;
  rewrite ?(decide_True _ _ (eq_refl 1)), ?(decide_False (P := _ = 1)) by lia.

Lemma leads_normal ts : visible ts → leads 2 ts ↔ ends_plain ts.
Proof.
  induction 1 as [|t ts Ht Hts IH].
  - split; [done|]. intros ([|? ?] & _ & ?); done.
  - rewrite ends_plain_cons. visible Ht; step_delta; done.
Qed.

Lemma ends_cons t ts : ends_trigger (t :: ts) =
  if decide (take 3 (t :: ts) = [tkSEMI; tkEND; tkSEMI]) then drop 3 (t :: ts) = [] else ends_trigger ts.
Proof. done. Qed.

Lemma ends_other t ts : t ≠ 0 → ends_trigger (t :: ts) ↔ ends_trigger ts.
Proof. intros Ht. rewrite ends_cons, decide_False; [done|]. unfold tkSEMI. cbn. congruence. Qed.

Lemma ends_semi t ts : t ≠ 7 → ends_trigger (0 :: t :: ts) ↔ ends_trigger (t :: ts).
Proof. intros Ht. rewrite ends_cons, decide_False; [done|]. cbn. unfold tkEND. congruence. Qed.

Lemma ends_end t ts : t ≠ 0 → ends_trigger (0 :: 7 :: t :: ts) ↔ ends_trigger ts.
Proof.
  intros Ht. rewrite ends_cons, decide_False by (cbn; unfold tkSEMI; congruence).
  rewrite ends_other by done. by apply ends_other.
Qed.

Lemma ends_here ts : ends_trigger (0 :: 7 :: 0 :: ts) ↔ ts = [].
Proof. done. Qed.

(** Before, after the first semicolon, after END. *)
Lemma leads_trigger ts : visible ts →
  (leads 5 ts ↔ ends_trigger ts) ∧ (leads 6 ts ↔ ends_trigger (0 :: ts)) ∧ (leads 7 ts ↔ ends_trigger (0 :: 7 :: ts)).
Proof.
  induction 1 as [|t ts Ht Hts (IH5 & IH6 & IH7)]; [done|].
  visible Ht; step_delta; rewrite ?IH5, ?IH6, ?IH7, ?ends_here, ?ends_end, ?ends_semi, ?ends_other by done; done.
Qed.

Lemma leads_create ts : visible ts →
  leads 4 ts ↔ match after_create ts with Some b => ends_trigger b | None => ends_plain ts end.
Proof.
  induction 1 as [|t ts Ht Hts IH]; [split; [done|by intros ([|? ?] & _ & ?)]|].
  pose proof (leads_normal ts Hts). pose proof (proj1 (leads_trigger ts Hts)).
  visible Ht; step_delta; cbn [after_create Z.eqb Pos.eqb tkTEMP tkTRIGGER]; rewrite ?ends_plain_cons; try done.
  rewrite IH. destruct (after_create ts); rewrite ?ends_plain_cons; done.
Qed.

Lemma leads_explain ts : visible ts →
  leads 3 ts ↔ match after_explain ts with Some b => ends_trigger b | None => ends_plain ts end.
Proof.
  induction 1 as [|t ts Ht Hts IH]; [split; [done|by intros ([|? ?] & _ & ?)]|].
  pose proof (leads_normal ts Hts). pose proof (leads_create ts Hts).
  visible Ht; step_delta; cbn [after_explain Z.eqb Pos.eqb tkOTHER tkCREATE]; rewrite ?ends_plain_cons; try done.
  - rewrite IH. destruct (after_explain ts); rewrite ?ends_plain_cons; done.
  - destruct (after_create ts); rewrite ?ends_plain_cons; done.
Qed.

(** From INVALID and from START: a statement. *)
Lemma leads_statement s ts : s = 0 ∨ s = 1 → visible ts → leads s ts ↔ statement ts.
Proof.
  unfold statement. intros Hs [|t ts' Ht Hts]; [split; [done|by intros ([|? ?] & _ & ?)]|].
  pose proof (leads_normal ts' Hts). pose proof (leads_create ts' Hts). pose proof (leads_explain ts' Hts).
  destruct Hs as [-> | ->]; visible Ht; step_delta; cbn [trigger_body Z.eqb Pos.eqb tkEXPLAIN tkCREATE];
    rewrite ?ends_plain_cons; try done; 
    first [by destruct (after_create ts'); rewrite ?ends_plain_cons|by destruct (after_explain ts'); rewrite ?ends_plain_cons].
Qed.

(** The run of the machine is in START at the end when the tokens split into
    runs that reach it. *)
Lemma run_split ts : ∀ s, foldl delta s ts = 1 ↔
  s = 1 ∧ ts = [] ∨ ∃ t r, ts = t ++ r ∧ leads s t ∧ foldl delta 1 r = 1.
Proof.
  induction ts as [|t ts IH]; intros s; cbn [foldl].
  { split; [by left|]. intros [[? _]|([|? ?] & r & E & Hl & _)]; done. }
  rewrite IH. split.
  - intros [[E ->]|(l & r & -> & Hl & Hr)]; right.
    + exists [t], []. split; [done|]. cbn [leads]. by rewrite decide_True by done.
    + destruct (decide (delta s t = 1)) as [E|E].
      * exists [t], (l ++ r). split; [done|]. cbn [leads]. rewrite decide_True by done. split; [done|].
        rewrite E in Hl. apply IH. right. by exists l, r.
      * exists (t :: l), r. split; [done|]. cbn [leads]. by rewrite decide_False by done.
  - intros [[? ?]|(l & r & E & Hl & Hr)]; [done|]. destruct l as [|x l]; [done|]. injection E as <- ->.
    cbn [leads] in Hl. case_decide as Hd.
    + subst l. rewrite Hd. cbn [app]. by apply IH.
    + right. eauto.
Qed.

Lemma statements_cons ts : statements ts ↔ ∃ t r, ts = t ++ r ∧ statement t ∧ (r = [] ∨ statements r).
Proof.
  unfold statements. split.
  - intros ([|t ss] & Hne & Hss & ->); [done|]. apply Forall_cons in Hss as [Ht Hss].
    exists t, (concat ss). split; [done|]. split; [done|]. destruct ss as [|t2 ss]; [by left|]. right. by exists (t2 :: ss).
  - intros (t & r & -> & Ht & Hr). destruct Hr as [->|(ss & Hne & Hss & ->)].
    + exists [t]. split; [done|]. split; [by apply Forall_singleton|done].
    + exists (t :: ss). split; [done|]. split; [by constructor|done].
Qed.

Lemma run_statements s ts : s = 0 ∨ s = 1 → visible ts →
  foldl delta s ts = 1 ↔ s = 1 ∧ ts = [] ∨ statements ts.
Proof.
  remember (length ts) as k eqn:Ek. revert s ts Ek.
  induction k as [k IH] using (well_founded_induction lt_wf). intros s ts -> Hs Hv.
  rewrite run_split, statements_cons. apply or_iff_compat_l. split.
  - intros (t & r & -> & Hl & Hr). apply Forall_app in Hv as [Hvt Hvr]. exists t, r. split; [done|].
    split; [by apply (leads_statement s)|].
    destruct t as [|x t]; [done|]. apply (IH (length r)) in Hr; [| |done|auto|done]; [naive_solver|].
    rewrite length_app. cbn. lia.
  - intros (t & r & -> & Hl & Hr). apply Forall_app in Hv as [Hvt Hvr]. exists t, r. split; [done|].
    apply (leads_statement s) in Hl; [|done|done]. split; [done|].
    destruct t as [|x t]; [done|]. apply (IH (length r)); [|done|auto|done|naive_solver].
    rewrite length_app. cbn. lia.
Qed.

(** ** Tokens and their text *)

Inductive piece : Type :=
| Semicolon
| Blank (c : Z)
| Comment (b : bytes)
| Line (b : bytes)
| Bracketed (b : bytes)
| Quoted (q : Z) (b : bytes)
| Word (w : bytes)
| Symbol (c : Z).

Definition written (p : piece) : bytes :=
  match p with
  | Semicolon => [59]
  | Blank c => [c]
  | Comment b => [47; 42] ++ b ++ [42; 47]
  | Line b => [45; 45] ++ b ++ [10]
  | Bracketed b => [91] ++ b ++ [93]
  | Quoted q b => [q] ++ b ++ [q]
  | Word w => w
  | Symbol c => [c]
  end.

(** Keywords are recognised whatever their case. *)
Definition word_kind (w : bytes) : Z :=
  if decide (fold w = string_bytes "create") then tkCREATE
  else if decide (fold w = string_bytes "trigger") then tkTRIGGER
  else if decide (fold w = string_bytes "temp") then tkTEMP
  else if decide (fold w = string_bytes "temporary") then tkTEMP
  else if decide (fold w = string_bytes "end") then tkEND
  else if decide (fold w = string_bytes "explain") then tkEXPLAIN
  else tkOTHER.

Definition kind (p : piece) : Z :=
  match p with
  | Semicolon => tkSEMI
  | Blank _ | Comment _ | Line _ => tkWS
  | Bracketed _ | Quoted _ _ | Symbol _ => tkOTHER
  | Word w => word_kind w
  end.

(** The characters with a meaning of their own. *)
Definition special (c : Z) : bool :=
  (c =? 59) || (c =? 32) || (c =? 13) || (c =? 9) || (c =? 10) || (c =? 12) || (c =? 91) ||
  (c =? 96) || (c =? 34) || (c =? 39).

Definition well_formed (p : piece) : Prop :=
  match p with
  | Semicolon => True
  | Blank c => c ∈ [32; 13; 9; 10; 12]
  | Comment b => text b ∧ ∀ l r, b ≠ l ++ [42; 47] ++ r
  | Line b => text b ∧ 10 ∉ b
  | Bracketed b => text b ∧ 93 ∉ b
  | Quoted q b => q ∈ [96; 34; 39] ∧ text b ∧ q ∉ b
  | Word w => text w ∧ w ≠ [] ∧ Forall (λ c, IdChar c = true) w
  | Symbol c => 0 < c < 256 ∧ special c = false ∧ IdChar c = false
  end.

(** What may come after a token without being taken for a part of it. *)
Definition may_follow (p : piece) (c : Z) : Prop :=
  match p with
  | Word _ => IdChar c = false
  | Symbol 47 => c ≠ 42
  | Symbol 45 => c ≠ 45
  | _ => True
  end.

Definition script (ps : list piece) : bytes := concat (map written ps).

(** Each token is followed by what cannot be a part of it, in a text that
    goes on with [rest]. *)
Fixpoint separated (ps : list piece) (rest : bytes) : Prop :=
  match ps with
  | [] => True
  | p :: ps => may_follow p (default 0 (head (script ps ++ rest))) ∧ separated ps rest
  end.

(** A text may stop inside a token that needs a delimiter. *)
Inductive ending : Type :=
| Closed
| OpenLine (b : bytes)
| OpenComment (b : bytes)
| OpenBracket (b : bytes)
| OpenQuote (q : Z) (b : bytes).

Definition left_open (t : ending) : bytes :=
  match t with
  | Closed => []
  | OpenLine b => [45; 45] ++ b
  | OpenComment b => [47; 42] ++ b
  | OpenBracket b => [91] ++ b
  | OpenQuote q b => [q] ++ b
  end.

Definition well_ended (t : ending) : Prop :=
  match t with
  | Closed => True
  | OpenLine b => text b ∧ 10 ∉ b
  | OpenComment b => text b ∧ ∀ l r, b ≠ l ++ [42; 47] ++ r
  | OpenBracket b => text b ∧ 93 ∉ b
  | OpenQuote q b => q ∈ [96; 34; 39] ∧ text b ∧ q ∉ b
  end.

(** The end of the text closes a comment to the end of the line, and nothing
    else. *)
Definition whole (t : ending) : Prop :=
  match t with Closed | OpenLine _ => True | _ => False end.

(** [s] is the tokens [ps], the last of them cut as [t] says. *)
Definition splits (s : bytes) (ps : list piece) (t : ending) : Prop :=
  s = script ps ++ left_open t ∧ Forall well_formed ps ∧ separated ps (left_open t) ∧ well_ended t.

Lemma id_length_spec w rest c : Forall (λ c, IdChar c = true) w → IdChar c = false →
  id_length (w ++ c :: rest) = Some (length w).
Proof.
  intros Hw Hc. induction Hw as [|x w Hx Hw IH]; cbn [app id_length]; [by rewrite Hc|]. by rewrite Hx, IH.
Qed.

Lemma skip_to_spec q b rest : text b → q ∉ b → skip_to q (b ++ q :: rest) = Some (q :: rest).
Proof.
  intros Hb Hq. induction Hb as [|x b Hx Hb IH]; cbn [app skip_to].
  - by rewrite Z.eqb_refl, andb_false_r.
  - apply not_elem_of_cons in Hq as [Hxq Hq].
    rewrite (proj2 (Z.eqb_neq x 0)), (proj2 (Z.eqb_neq x q)) by (lia || congruence). by apply IH.
Qed.

Lemma skip_comment_spec b rest : text b → (∀ l r, b ≠ l ++ [42; 47] ++ r) →
  skip_comment (b ++ 42 :: 47 :: rest) = Some (42 :: 47 :: rest).
Proof.
  intros Hb. induction Hb as [|x b Hx Hb IH]; intros Hno; [done|]. cbn [app skip_comment].
  rewrite (proj2 (Z.eqb_neq x 0)) by lia.
  assert (skip_comment (b ++ 42 :: 47 :: rest) = Some (42 :: 47 :: rest)) as E.
  { apply IH. intros l r ->. by apply (Hno (x :: l) r). }
  destruct (Z.eqb_spec x 42) as [->|Hx42]; cbn [negb]; [|done].
  destruct b as [|y b]; [done|]. cbn [app] in *. destruct (Z.eqb_spec y 47) as [->|Hy]; [|done].
  exfalso. by apply (Hno [] b).
Qed.

(** A comparison with a keyword of the same length. *)
Lemma strnicmp_fold k : ∀ w rest, fold k = k → text w → length w = length k →
  ∃ r, strnicmp_loop (w ++ rest) (k ++ [0]) (length k) = Some r ∧ (r = 0 ↔ fold w = k).
Proof.
  induction k as [|x k IH]; intros [|c w] rest Hk Hw Hl; try done; [exists 0; split; [by destruct rest|by split]|].
  injection Hl as Hl. apply text_cons in Hw as [Hc Hw]. injection Hk as Hx Hk.
  cbn [app length strnicmp_loop]. change (fold (c :: w)) with (upper_to_lower c :: fold w). rewrite Hx, (proj2 (Z.eqb_neq c 0)) by lia. cbn [negb andb].
  destruct (Z.eqb_spec (upper_to_lower c) x) as [E|E].
  - destruct (IH w rest Hk Hw Hl) as (r & -> & Hr). exists r. split; [done|]. rewrite Hr. rewrite E.
    split; [by intros ->|by intros [= ?]].
  - eexists. split; [reflexivity|]. split; [lia|]. intros [= ? _]. congruence.
Qed.

Lemma is_keyword_spec word w rest : fold (string_bytes word) = string_bytes word → text w →
  length w = length (string_bytes word) →
  is_keyword (w ++ rest) word = Some (bool_decide (fold w = string_bytes word)).
Proof.
  intros Hk Hw Hl. unfold is_keyword, sqlite3_strnicmp, cstr. rewrite Nat2Z.id.
  destruct (strnicmp_fold (string_bytes word) w rest Hk Hw Hl) as (r & -> & Hr). f_equal.
  destruct (Z.eqb_spec r 0) as [E|E]; [rewrite bool_decide_true|rewrite bool_decide_false]; try done; tauto.
Qed.

Lemma fold_length w : length (fold w) = length w.
Proof. apply length_map. Qed.

(** The first letters of the keywords. *)
Lemma lower_first c : 0 < c < 256 →
  (upper_to_lower c = 99 ↔ c = 99 ∨ c = 67) ∧ (upper_to_lower c = 116 ↔ c = 116 ∨ c = 84) ∧
  (upper_to_lower c = 101 ↔ c = 101 ∨ c = 69).
Proof.
  intros Hc. rewrite upper_to_lower_spec by (unfold is_u8; lia). split_and!; case_match; lia.
Qed.

(** One test of the switch. *)
Lemma test_keyword word w rest n (t : Z) next : fold (string_bytes word) = string_bytes word → text w →
  n = length (string_bytes word) →
  (if (length w =? n)%nat
   then let* b := is_keyword (w ++ rest) word in if (b : bool) then Some t else next else next) =
  if decide (fold w = string_bytes word) then Some t else next.
Proof.
  intros Hk Hw ->. destruct (Nat.eqb_spec (length w) (length (string_bytes word))) as [E|E].
  - rewrite is_keyword_spec by done. by case_bool_decide; case_decide.
  - rewrite decide_False; [done|]. intros F. apply E. by rewrite <- F, fold_length.
Qed.

Lemma word_token_spec c w rest : text (c :: w) →
  word_token ((c :: w) ++ rest) c (length (c :: w)) = Some (word_kind (c :: w)).
Proof.
  intros Hw. pose proof Hw as Hc. apply text_cons in Hc as [Hc _].
  destruct (lower_first c Hc) as (H1 & H2 & H3).
  unfold word_token. cbv zeta. rewrite !test_keyword by (done || reflexivity).
  unfold word_kind. change (fold (c :: w)) with (upper_to_lower c :: fold w).
  assert (∀ word, upper_to_lower c :: fold w = string_bytes word →
    upper_to_lower c = default 0 (head (string_bytes word))) as Hhd by (intros word <-; done).
  pose proof (Hhd "create"%string) as K1. pose proof (Hhd "trigger"%string) as K2.
  pose proof (Hhd "temp"%string) as K3. pose proof (Hhd "temporary"%string) as K4.
  pose proof (Hhd "end"%string) as K5. pose proof (Hhd "explain"%string) as K6. clear Hhd.
  change (default 0 (head (string_bytes "create"))) with 99 in K1.
  change (default 0 (head (string_bytes "trigger"))) with 116 in K2.
  change (default 0 (head (string_bytes "temp"))) with 116 in K3.
  change (default 0 (head (string_bytes "temporary"))) with 116 in K4.
  change (default 0 (head (string_bytes "end"))) with 101 in K5.
  change (default 0 (head (string_bytes "explain"))) with 101 in K6.
  destruct (decide (upper_to_lower c = 99)) as [E|E1].
  { replace ((c =? 99) || (c =? 67)) with true by lia. repeat case_decide; first [done | exfalso; intuition lia]. }
  replace ((c =? 99) || (c =? 67)) with false by lia. rewrite (decide_False (P := _ = string_bytes "create")) by tauto.
  destruct (decide (upper_to_lower c = 116)) as [E|E2].
  { replace ((c =? 116) || (c =? 84)) with true by lia. repeat case_decide; first [done | exfalso; intuition lia]. }
  replace ((c =? 116) || (c =? 84)) with false by lia.
  rewrite (decide_False (P := _ = string_bytes "trigger")), (decide_False (P := _ = string_bytes "temp")),
    (decide_False (P := _ = string_bytes "temporary")) by tauto.
  destruct (decide (upper_to_lower c = 101)) as [E|E3].
  { replace ((c =? 101) || (c =? 69)) with true by lia. by repeat case_decide. }
  replace ((c =? 101) || (c =? 69)) with false by lia. 
  by rewrite (decide_False (P := _ = string_bytes "end")), (decide_False (P := _ = string_bytes "explain")) by tauto.
Qed.

Lemma special_not_id c : IdChar c = true → special c = false ∧ c ≠ 47 ∧ c ≠ 45 ∧ c ≠ 0.
Proof.
  intros H. assert (∀ k, IdChar k = false → c ≠ k) as Hk by congruence.
  split; [|split_and!; by apply Hk]. unfold special.
  repeat (apply orb_false_iff; split); apply Z.eqb_neq, Hk; reflexivity.
Qed.

Lemma lex_special c zs : special c = false → c ≠ 47 → c ≠ 45 →
  lex (c :: zs) = if IdChar c then
      let* k := id_length zs in let* t := word_token (c :: zs) c (S k) in
      Some (Token t (drop (S k) (c :: zs)))
    else Some (Token tkOTHER zs).
Proof.
  unfold special. intros H H47 H45. repeat (apply orb_false_iff in H as [H ?]).
  unfold lex. rewrite (proj2 (Z.eqb_neq c 47)), (proj2 (Z.eqb_neq c 45)) by done.
  by repeat match goal with E : (_ =? _) = false |- _ => rewrite E; clear E end.
Qed.

Lemma written_head p : well_formed p → ∃ c r, written p = c :: r ∧ 0 < c < 256.
Proof.
  destruct p as [|c|b|b|b|q b|w|c]; cbn [written well_formed app]; intros H.
  7: { destruct H as (H & Hne & _). destruct w as [|c w]; [done|]. apply text_cons in H as [? _]. eauto. }
  all: eexists _, _; (split; [reflexivity|]); try lia; set_unfold in H; lia.
Qed.

(** A token is read back from its text. *)
Lemma lex_piece p c rest : well_formed p → may_follow p c →
  lex (written p ++ c :: rest) = Some (Token (kind p) (c :: rest)).
Proof.
  destruct p as [|x|b|b|b|q b|w|x]; cbn [written well_formed kind app]; intros Hw Hf.
  - done.
  - set_unfold in Hw. destruct Hw as [->|[->|[->|[->|[->|[]]]]]]; done.
  - destruct Hw as [Hb Hno]. rewrite <- (assoc_L (++)). cbn [app]. unfold lex. cbn [Z.eqb Pos.eqb orb].
    rewrite rd_0. cbn [Z.eqb Pos.eqb negb drop]. rewrite drop_0. by rewrite skip_comment_spec by done.
  - destruct Hw as [Hb Hno]. rewrite <- (assoc_L (++)). cbn [app]. unfold lex. cbn [Z.eqb Pos.eqb orb].
    rewrite rd_0. cbn [Z.eqb Pos.eqb negb]. cbn [skip_to Z.eqb Pos.eqb negb andb].
    rewrite skip_to_spec by done. by rewrite rd_0.
  - destruct Hw as [Hb Hno]. rewrite <- (assoc_L (++)). cbn [app]. unfold lex. cbn [Z.eqb Pos.eqb orb].
    rewrite skip_to_spec by done. by rewrite rd_0.
  - destruct Hw as (Hq & Hb & Hno). rewrite <- (assoc_L (++)). cbn [app]. unfold lex. set_unfold in Hq.
    destruct Hq as [->|[->|[->|[]]]]; cbn [Z.eqb Pos.eqb orb]; rewrite skip_to_spec by done; by rewrite rd_0.
  - destruct Hw as (Ht & Hne & Hid). destruct w as [|x w]; [done|]. pose proof Hid as Hid'.
    apply Forall_cons in Hid' as [Hx Hid']. destruct (special_not_id x Hx) as (Hs & H47 & H45 & _).
    cbn [app]. rewrite lex_special, Hx by done. cbn [may_follow] in Hf.
    rewrite (id_length_spec w rest c) by done.
    pose proof (word_token_spec x w (c :: rest) Ht) as E. cbn [app length] in E. rewrite E.
    do 2 f_equal. cbn [drop]. apply drop_app_length.
  - destruct Hw as (Hx & Hs & Hid). cbn [may_follow] in Hf.
    destruct (decide (x = 47)) as [->|H47]; [|destruct (decide (x = 45)) as [->|H45]].
    + unfold lex. cbn [Z.eqb Pos.eqb orb]. rewrite rd_0, (proj2 (Z.eqb_neq c 42)) by done. done.
    + unfold lex. cbn [Z.eqb Pos.eqb orb]. rewrite rd_0, (proj2 (Z.eqb_neq c 45)) by done. done.
    + by rewrite lex_special, Hid.
Qed.

Lemma kind_token p : token (kind p).
Proof. destruct p; cbn [kind]; unfold word_kind; repeat case_decide; by vm_compute. Qed.

Lemma head_terminated (r : bytes) : ∃ r', r ++ [0] = default 0 (head r) :: r'.
Proof. destruct r; eexists; reflexivity. Qed.

(** What the loop makes of the text that is left. *)
Lemma skip_to_open q b : text b → q ∉ b → skip_to q (b ++ [0]) = Some [0].
Proof.
  intros Hb Hq. induction Hb as [|x b Hx Hb IH]; [done|]. cbn [app skip_to].
  apply not_elem_of_cons in Hq as [Hxq Hq].
  rewrite (proj2 (Z.eqb_neq x 0)), (proj2 (Z.eqb_neq x q)) by (lia || congruence). by apply IH.
Qed.

Lemma skip_comment_open b : text b → (∀ l r, b ≠ l ++ [42; 47] ++ r) → skip_comment (b ++ [0]) = Some [0].
Proof.
  intros Hb. induction Hb as [|x b Hx Hb IH]; intros Hno; [done|]. cbn [app skip_comment].
  rewrite (proj2 (Z.eqb_neq x 0)) by lia.
  assert (skip_comment (b ++ [0]) = Some [0]) as E.
  { apply IH. intros l r ->. by apply (Hno (x :: l) r). }
  destruct (Z.eqb_spec x 42) as [->|Hx42]; cbn [negb]; [|done].
  destruct b as [|y b]; [done|]. cbn [app] in *. destruct (Z.eqb_spec y 47) as [->|Hy]; [|done].
  exfalso. by apply (Hno [] b).
Qed.

Lemma lex_open t : well_ended t → t ≠ Closed → ∃ c r, left_open t = c :: r ∧ 0 < c < 256 ∧
  lex (left_open t ++ [0]) = Some (match t with OpenLine _ => Finished | _ => Unfinished end).
Proof.
  destruct t as [|b|b|b|q b]; cbn [well_ended left_open app]; intros H Ht; [done|..];
    (eexists _, _; split; [reflexivity|]; split; [set_unfold in H; lia|]); unfold lex; cbn [Z.eqb Pos.eqb orb].
  - destruct H as [Hb Hno]. rewrite rd_0. cbn [Z.eqb Pos.eqb negb skip_to andb]. by rewrite skip_to_open.
  - destruct H as [Hb Hno]. rewrite rd_0. cbn [Z.eqb Pos.eqb negb drop]. rewrite drop_0.
    by rewrite skip_comment_open.
  - destruct H as [Hb Hno]. by rewrite skip_to_open.
  - destruct H as (Hq & Hb & Hno). set_unfold in Hq.
    destruct Hq as [->|[->|[->|[]]]]; cbn [Z.eqb Pos.eqb orb]; by rewrite skip_to_open.
Qed.

(** The answer at the end of the text. *)
Definition answer (s : Z) (t : ending) : Z :=
  match t with Closed | OpenLine _ => if s =? 1 then 1 else 0 | _ => 0 end.

Lemma loop_open fuel s t : well_ended t → (0 < fuel)%nat →
  complete_loop fuel (left_open t ++ [0]) s = Some (answer s t).
Proof.
  intros Hw Hf. destruct fuel as [|fuel]; [lia|]. assert (t = Closed ∨ t ≠ Closed) as [->|Ht] by (destruct t; auto); [done|].
  destruct (lex_open t Hw Ht) as (c & r & E & Hc & El). rewrite E in *. cbn [app complete_loop] in *.
  rewrite rd_0, (proj2 (Z.eqb_neq c 0)), El by lia. by destruct t.
Qed.

Lemma loop_pieces t ps : well_ended t → ∀ fuel s, Forall well_formed ps → separated ps (left_open t) →
  (length ps < fuel)%nat → token s →
  complete_loop fuel ((script ps ++ left_open t) ++ [0]) s = Some (answer (foldl delta s (map kind ps)) t).
Proof.
  intros Hw. induction ps as [|p ps IH]; intros fuel s Hps Hsep Hf Hs.
  { cbn [map foldl script concat app]. apply loop_open; [done|cbn in Hf; lia]. }
  destruct fuel as [|fuel]; [cbn in Hf; lia|].
  apply Forall_cons in Hps as [Hp Hps]. destruct Hsep as [Hmf Hsep].
  change (script (p :: ps)) with (written p ++ script ps). cbn [map foldl length] in *.
  rewrite <- !(assoc_L (++)). rewrite (assoc_L (++) (script ps)).
  destruct (head_terminated (script ps ++ left_open t)) as [r Er]. rewrite Er.
  destruct (written_head p Hp) as (c & r' & Ew & Hc).
  pose proof (lex_piece p _ r Hp Hmf) as El. rewrite Ew in *. cbn [app] in *. cbn [complete_loop].
  rewrite rd_0, (proj2 (Z.eqb_neq c 0)), El by lia.
  destruct (next_state_delta s (kind p) Hs (kind_token p)) as [-> Ht].
  rewrite <- Er. apply IH; done || lia.
Qed.

Definition tokens_of (ps : list piece) : list Z := filter (λ t, t ≠ tkWS) (map kind ps).

Lemma tokens_visible ps : visible (tokens_of ps).
Proof.
  apply Forall_forall. intros t [Ht Hin]%list_elem_of_filter. split; [|done].
  apply list_elem_of_In, in_map_iff in Hin as (p & <- & _). apply kind_token.
Qed.

Lemma foldl_delta_ws ts : ∀ s, Forall token ts → token s →
  foldl delta s ts = foldl delta s (filter (λ t, t ≠ tkWS) ts).
Proof.
  induction ts as [|t ts IH]; intros s Hts Hs; [done|]. apply Forall_cons in Hts as [Ht Hts].
  rewrite filter_cons. destruct (next_state_delta s t Hs Ht) as [_ Hd]. case_decide as Hw; cbn [foldl].
  - by apply IH.
  - assert (t = tkWS) as -> by (destruct (decide (t = tkWS)); [done|contradiction]).
    rewrite delta_ws by done. by apply IH.
Qed.

Lemma complete_pieces ps t : Forall well_formed ps → separated ps (left_open t) → well_ended t →
  ∃ rc, sqlite3_complete (cstr (script ps ++ left_open t)) = Some rc ∧ (rc = 0 ∨ rc = 1) ∧
    (rc = 1 ↔ whole t ∧ statements (tokens_of ps)).
Proof.
  intros Hps Hsep Hw. unfold sqlite3_complete, cstr.
  assert (length ps ≤ length (script ps))%nat as Hlen.
  { clear Hsep. unfold script. induction Hps as [|p ps Hp Hps IH]; [done|]. cbn [map concat length].
    rewrite length_app. destruct (written_head p Hp) as (c & r & -> & _). cbn [length]. lia. }
  rewrite loop_pieces by (done || (rewrite !length_app; cbn [length]; lia)).
  assert (Forall token (map kind ps)) as Hk.
  { apply Forall_forall. intros k Hin. apply list_elem_of_In, in_map_iff in Hin as (p & <- & _). apply kind_token. }
  rewrite (foldl_delta_ws _ 0 Hk) by (split; done). fold (tokens_of ps).
  pose proof (run_statements 0 (tokens_of ps) (or_introl eq_refl) (tokens_visible ps)) as Hr.
  eexists. split; [reflexivity|]. unfold answer.
  destruct (Z.eqb_spec (foldl delta 0 (tokens_of ps)) 1) as [E|E]; destruct t; cbn [whole];
    (split; [auto|]); intuition (done || auto).
Qed.

(** ** Every text is made of tokens *)

Lemma first_or_none (q : Z) (b : bytes) : q ∉ b ∨ ∃ l r, b = l ++ q :: r ∧ q ∉ l.
Proof. destruct (decide (q ∈ b)) as [H|H]; [right|by left]. apply list_elem_of_split_l in H. naive_solver. Qed.

Lemma first_close (b : bytes) : (∀ l r, b ≠ l ++ [42; 47] ++ r) ∨
  ∃ l r, b = l ++ [42; 47] ++ r ∧ ∀ l' r', l ≠ l' ++ [42; 47] ++ r'.
Proof.
  induction b as [|x b IH].
  { left. intros l r E. by destruct l. }
  destruct (decide (take 2 (x :: b) = [42; 47])) as [E|E].
  { right. exists [], (drop 2 (x :: b)). split; [by rewrite <- E; rewrite take_drop|]. by intros [|? ?] ?. }
  destruct IH as [IH|(l & r & -> & Hl)].
  - left. intros [|y l] r F; cbn [app] in F; [|injection F as _ F; by apply (IH l r)]. apply E. by rewrite F.
  - right. exists (x :: l), r. split; [done|]. intros [|y l'] r' F; cbn [app] in F; [|injection F as _ F; by apply (Hl l' r')].
    apply E. by injection F as -> ->.
Qed.

Lemma id_span (s : bytes) : ∃ w r, s = w ++ r ∧ Forall (λ c, IdChar c = true) w ∧ IdChar (default 0 (head r)) = false.
Proof.
  induction s as [|c s (w & r & -> & Hw & Hr)]; [by exists [], []|]. destruct (IdChar c) eqn:E.
  - exists (c :: w), r. split; [done|]. split; [by constructor|done].
  - exists [], (c :: w ++ r). done.
Qed.

Lemma text_app a b : text (a ++ b) ↔ text a ∧ text b.
Proof. apply Forall_app. Qed.

(** The first token of a text, or what is left open. *)
Lemma split_head c s : text (c :: s) →
  (∃ t, c :: s = left_open t ∧ well_ended t) ∨
  ∃ p r, c :: s = written p ++ r ∧ well_formed p ∧ may_follow p (default 0 (head r)).
Proof.
  intros Hcs. pose proof Hcs as Hs. apply text_cons in Hs as [Hc Hs].
  destruct (decide (c = 59)) as [->|N1]; [right; by exists Semicolon, s|].
  destruct (decide (c ∈ [32; 13; 9; 10; 12])) as [Hb|N2]; [right; by exists (Blank c), s|].
  destruct (decide (c = 91)) as [->|N3].
  { destruct (first_or_none 93 s) as [H|(l & r & -> & Hl)]; [left; by exists (OpenBracket s)|right].
    apply text_app in Hs as [Hs _]. exists (Bracketed l), r. cbn [written app]. by rewrite <- (assoc_L (++)). }
  destruct (decide (c ∈ [96; 34; 39])) as [Hq|N4].
  { destruct (first_or_none c s) as [H|(l & r & -> & Hl)]; [left; by exists (OpenQuote c s)|right].
    apply text_app in Hs as [Hs _]. exists (Quoted c l), r. cbn [written app]. by rewrite <- (assoc_L (++)). }
  destruct (IdChar c) eqn:Hid.
  { right. destruct (id_span s) as (w & r & -> & Hw & Hr). exists (Word (c :: w)), r. split; [done|].
    rewrite app_comm_cons in Hcs. apply text_app in Hcs as [Hcs _]. split; [|done]. split; [done|].
    split; [done|]. by constructor. }
  assert (special c = false) as Hsp.
  { unfold special. set_unfold in N2. set_unfold in N4. lia. }
  assert (c = 47 ∧ head s = Some 42 ∨ c = 45 ∧ head s = Some 45 ∨ may_follow (Symbol c) (default 0 (head s)))
    as [[-> E]|[[-> E]|Hm]].
  { destruct (decide (head s = Some 42 ∧ c = 47)) as [[? ?]|N5]; [by left|right].
    destruct (decide (head s = Some 45 ∧ c = 45)) as [[? ?]|N6]; [by left|right].
    cbn [may_follow]. destruct s as [|x s]; cbn [head default] in *; repeat case_match; try lia; try done;
      intros F; cbn in F; subst x; tauto. }
  - destruct s as [|x s]; [done|]. injection E as ->. apply text_cons in Hs as [_ Hs].
    destruct (first_close s) as [H|(l & r & -> & Hl)]; [left; by exists (OpenComment s)|right].
    apply text_app in Hs as [Hs _]. exists (Comment l), r. cbn [written app]. by rewrite <- (assoc_L (++)).
  - destruct s as [|x s]; [done|]. injection E as ->. apply text_cons in Hs as [_ Hs].
    destruct (first_or_none 10 s) as [H|(l & r & -> & Hl)]; [left; by exists (OpenLine s)|right].
    apply text_app in Hs as [Hs _]. exists (Line l), r. cbn [written app]. by rewrite <- (assoc_L (++)).
  - right. by exists (Symbol c), s.
Qed.

Lemma split_exists s : text s → ∃ ps t, splits s ps t.
Proof.
  remember (length s) as k eqn:Ek. revert s Ek.
  induction k as [k IH] using (well_founded_induction lt_wf). intros [|c s] -> Hs; [by exists [], Closed|].
  destruct (split_head c s Hs) as [(t & E & Ht)|(p & r & E & Hp & Hm)]; [by exists [], t|].
  rewrite E in *. apply text_app in Hs as [_ Hr].
  destruct (written_head p Hp) as (c' & w & Ew & _).
  destruct (IH (length r)) with (s := r) as (ps & t & -> & Hps & Hsep & Ht); [|done|done|].
  { rewrite length_app, Ew. cbn. lia. }
  exists (p :: ps), t. unfold splits. change (script (p :: ps)) with (written p ++ script ps).
  rewrite <- (assoc_L (++)). split_and!; done || by constructor.
Qed.

(** C34: Every zero-terminated text splits into tokens, the last of which may
    lack its delimiter, and the routine ends on it without reading past the
    terminator and answers 0 or 1.  However the text splits - whatever is
    inside its comments, quotes and brackets, whatever the case of its
    keywords - the answer is 1 exactly when no quote, bracket or comment is
    left open, apart from a comment to the end of the line, and the tokens
    other than white space are one complete statement or more, where the
    creation of a trigger is complete at the first semicolon, END and
    semicolon only, and every other statement at its first semicolon. *)
Theorem complete_statements s : text s →
  ∃ rc, sqlite3_complete (cstr s) = Some rc ∧ (rc = 0 ∨ rc = 1) ∧
    (∃ ps t, splits s ps t) ∧
    ∀ ps t, splits s ps t → (rc = 1 ↔ whole t ∧ statements (tokens_of ps)).
Proof.
  intros Hs. destruct (split_exists s Hs) as (ps & t & Hsp). pose proof Hsp as (E & Hps & Hsep & Ht).
  destruct (complete_pieces ps t Hps Hsep Ht) as (rc & Erc & Hrc & _). exists rc. rewrite E at 1.
  split; [done|]. split; [done|]. split; [by exists ps, t|]. intros ps' t' (E' & Hps' & Hsep' & Ht').
  destruct (complete_pieces ps' t' Hps' Hsep' Ht') as (rc' & Erc' & _ & Hiff).
  rewrite <- E' in Erc'. rewrite <- E in Erc. rewrite Erc in Erc'. injection Erc' as <-. exact Hiff.
Qed.

Lemma complete_statements_witness :
  let s := string_bytes "Create /* ; end */ TRIGGER-;end';';--" in
  text s ∧ ∃ rc, sqlite3_complete (cstr s) = Some rc ∧ (rc = 0 ∨ rc = 1) ∧
    (∃ ps t, splits s ps t) ∧
    ∀ ps t, splits s ps t → (rc = 1 ↔ whole t ∧ statements (tokens_of ps)).
Proof.
  intros s. assert (text s) as H by (repeat constructor). split; [exact H|]. exact (complete_statements s H).
Defined.

Example complete_3 : sqlite3_complete (cstr (string_bytes "select 1; -- done")) = Some 1.
Proof. reflexivity. Qed.
Example complete_4 : sqlite3_complete (cstr (string_bytes "select 1; /* done")) = Some 0.
Proof. reflexivity. Qed.

End Complete.
