(* ===== verification/Like.v ===== *)
(** * LIKE and GLOB ([native/sqlite3/sqlite3.c], func.c)

    [patternCompare] matches a zero-terminated UTF-8 string with a pattern of
    the LIKE or the GLOB operator.  Pointers into the two are the bytes from
    the pointer on.  The theorem compares it with the language of the pattern,
    read as a list of items over characters. *)

From S2P Require Import Prelude Text Utf.

Module Like.

Import Text Utf.

(* native/sqlite3/sqlite3.c:131031-131039 compareInfo *)
Record compareInfo : Type := info { matchAll : Z; matchOne : Z; matchSet : Z; noCase : bool }.

(* native/sqlite3/sqlite3.c:131054-131060 globInfo *)
Definition globInfo : compareInfo := info 42 63 91 false.
Definition likeInfoNorm : compareInfo := info 37 95 0 true.
Definition likeInfoAlt : compareInfo := info 37 95 0 false.

(* native/sqlite3/sqlite3.c:131065-131067 SQLITE_MATCH *)
Definition SQLITE_MATCH : Z := 0.
Definition SQLITE_NOMATCH : Z := 1.
Definition SQLITE_NOWILDCARDMATCH : Z := 2.

(* native/sqlite3/sqlite3.c:131047-131052 Utf8Read *)
Definition Utf8Read (A : bytes) : option (Z * bytes) :=
  match A with
  | [] => None
  | a :: z => if a <? 0x80 then Some (a, z) else sqlite3Utf8Read A
  end.

(* native/sqlite3/sqlite3.c:21052-21052 sqlite3Tolower *)
Definition sqlite3Tolower (x : Z) : Z := upper_to_lower (u8 x).

(** The bytes from the first that is in [stop], or the terminator, on. *)
Fixpoint strcspn (stop : list Z) (z : bytes) : option bytes :=
  match z with
  | [] => None
  | c :: z' => if (c =? 0) || bool_decide (c ∈ stop) then Some z else strcspn stop z'
  end.

(** [SQLITE_SKIP_UTF8] on the bytes from the pointer on. *)
(* native/sqlite3/sqlite3.c:20989-20989 SQLITE_SKIP_UTF8, the while loop *)
Fixpoint skip_cont_bytes (z : bytes) : option bytes :=
  match z with
  | [] => None
  | b :: z' => if Z.land b 0xc0 =? 0x80 then skip_cont_bytes z' else Some z
  end.

(* native/sqlite3/sqlite3.c:20987-20991 SQLITE_SKIP_UTF8 *)
Definition skip_char (z : bytes) : option bytes :=
  match z with
  | [] => None
  | b :: z => if 0xc0 <=? b then skip_cont_bytes z else Some z
  end.

(** The end of a loop: a result of the whole, or the state it goes on with. *)
Inductive turn (A : Type) : Type := Return (rc : Z) | Go (a : A).
Arguments Return {A}.
Arguments Go {A}.

(** After a wildcard for any sequence: the wildcards that follow. *)
(* native/sqlite3/sqlite3.c:131124-131129 patternCompare, the while loop over wildcards *)
Fixpoint skip_wild (fuel : nat) (pInfo : compareInfo) (zPattern zString : bytes)
  : option (turn (Z * bytes * bytes)) :=
  match fuel with
  | O => None
  | S fuel =>
      let* (c, zPattern) := Utf8Read zPattern in
      if (c =? matchAll pInfo) || ((c =? matchOne pInfo) && negb (matchOne pInfo =? 0)) then
        if c =? matchOne pInfo then
          let* (c2, zString) := sqlite3Utf8Read zString in
          if c2 =? 0 then Some (Return SQLITE_NOWILDCARDMATCH)
          else skip_wild fuel pInfo zPattern zString
        else skip_wild fuel pInfo zPattern zString
      else Some (Go (c, zPattern, zString))
  end.

(** [compare] is the recursive call, on what is left of the string. *)
(* native/sqlite3/sqlite3.c:131140-131145 patternCompare, the slow search *)
Fixpoint search_set (fuel : nat) (compare : bytes → option Z) (zString : bytes) : option Z :=
  match fuel with
  | O => None
  | S fuel =>
      let* b := rd zString 0 in
      if b =? 0 then Some SQLITE_NOWILDCARDMATCH
      else
        let* bMatch := compare zString in
        if negb (bMatch =? SQLITE_NOMATCH) then Some bMatch
        else let* zString := skip_char zString in search_set fuel compare zString
  end.

(* native/sqlite3/sqlite3.c:131169-131175 patternCompare, the search for a byte *)
Fixpoint search_byte (fuel : nat) (compare : bytes → option Z) (zStop : list Z) (zString : bytes) : option Z :=
  match fuel with
  | O => None
  | S fuel =>
      let* zString := strcspn zStop zString in
      match zString with
      | [] => None
      | b :: zString =>
          if b =? 0 then Some SQLITE_NOWILDCARDMATCH
          else
            let* bMatch := compare zString in
            if negb (bMatch =? SQLITE_NOMATCH) then Some bMatch
            else search_byte fuel compare zStop zString
      end
  end.

(* native/sqlite3/sqlite3.c:131178-131182 patternCompare, the search for a character *)
Fixpoint search_char (fuel : nat) (compare : bytes → option Z) (c : Z) (zString : bytes) : option Z :=
  match fuel with
  | O => None
  | S fuel =>
      let* (c2, zString) := Utf8Read zString in
      if c2 =? 0 then Some SQLITE_NOWILDCARDMATCH
      else if negb (c2 =? c) then search_char fuel compare c zString
      else
        let* bMatch := compare zString in
        if negb (bMatch =? SQLITE_NOMATCH) then Some bMatch
        else search_char fuel compare c zString
  end.

(** The list of a set, for the character [c] of the string: the character
    after the list, whether [c] was seen, and the pattern after it. *)
(* native/sqlite3/sqlite3.c:131206-131218 patternCompare, the while loop over a set *)
Fixpoint charset_loop (fuel : nat) (zPattern : bytes) (c c2 prior_c : Z) (seen : bool)
  : option (Z * bool * bytes) :=
  match fuel with
  | O => None
  | S fuel =>
      if negb (c2 =? 0) && negb (c2 =? 93) then
        let* b := rd zPattern 0 in
        let* (prior_c, seen, zPattern) :=
          if (c2 =? 45) && negb (b =? 93) && negb (b =? 0) && (0 <? prior_c) then
            let* (c2, zPattern) := sqlite3Utf8Read zPattern in
            Some (0, seen || ((prior_c <=? c) && (c <=? c2)), zPattern)
          else Some (c2, seen || (c =? c2), zPattern) in
        let* (c2, zPattern) := sqlite3Utf8Read zPattern in
        charset_loop fuel zPattern c c2 prior_c seen
      else Some (c2, seen, zPattern)
  end.

(* native/sqlite3/sqlite3.c:131192-131223 patternCompare, a set *)
Definition match_set (zPattern zString : bytes) : option (turn (bytes * bytes)) :=
  let* (c, zString) := sqlite3Utf8Read zString in
  if c =? 0 then Some (Return SQLITE_NOMATCH) else
  let* (c2, zPattern) := sqlite3Utf8Read zPattern in
  let* (invert, c2, zPattern) :=
    if c2 =? 94 then let* (c2, zPattern) := sqlite3Utf8Read zPattern in Some (true, c2, zPattern)
    else Some (false, c2, zPattern) in
  let* (seen, c2, zPattern) :=
    if c2 =? 93 then let* (c2, zPattern) := sqlite3Utf8Read zPattern in Some (c =? 93, c2, zPattern)
    else Some (false, c2, zPattern) in
  let* (c2, seen, zPattern) := charset_loop (S (length zPattern)) zPattern c c2 0 seen in
  if (c2 =? 0) || negb (xorb seen invert) then Some (Return SQLITE_NOMATCH)
  else Some (Go (zPattern, zString)).

(** The state of the loop is the rest of the pattern and of the string, and
    [zEscaped], a pointer into the pattern given by the number of bytes from
    it on.  The byte before [zPattern], when the pattern is matched again from
    there, is the character just read.  The fuel is the pattern's length, of
    which every turn and every recursive call uses some. *)
(* native/sqlite3/sqlite3.c:131119-131233 patternCompare *)
Fixpoint compare_loop (fuel : nat) (pInfo : compareInfo) (matchOther : Z) (zPattern zString : bytes)
    (zEscaped : option nat) : option Z :=
  match fuel with
  | O => None
  | S fuel =>
      let* (c, zPattern) := Utf8Read zPattern in
      if c =? 0 then
        let* b := rd zString 0 in
        Some (if b =? 0 then SQLITE_MATCH else SQLITE_NOMATCH)
      else if c =? matchAll pInfo then
        let* t := skip_wild (S (length zPattern)) pInfo zPattern zString in
        match t with
        | Return rc => Some rc
        | Go (c, zPattern, zString) =>
            if c =? 0 then Some SQLITE_MATCH
            else if (c =? matchOther) && negb (matchSet pInfo =? 0) then
              search_set (length zString)
                (λ zString, compare_loop fuel pInfo matchOther (c :: zPattern) zString None) zString
            else
              let* (c, zPattern) := if c =? matchOther then sqlite3Utf8Read zPattern else Some (c, zPattern) in
              if c =? 0 then Some SQLITE_NOWILDCARDMATCH
              else
                let compare := λ zString, compare_loop fuel pInfo matchOther zPattern zString None in
                if c <? 0x80 then
                  search_byte (length zString) compare
                    (if noCase pInfo then [sqlite3Toupper c; sqlite3Tolower c] else [c]) zString
                else search_char (length zString) compare c zString
        end
      else
        let* t :=
          if c =? matchOther then
            if matchSet pInfo =? 0 then
              let* (c, zPattern) := sqlite3Utf8Read zPattern in
              if c =? 0 then Some (Return SQLITE_NOMATCH)
              else Some (Go (inl (c, zPattern, Some (length zPattern))))
            else
              let* t := match_set zPattern zString in
              Some (match t with Return rc => Return rc | Go s => Go (inr s) end)
          else Some (Go (inl (c, zPattern, zEscaped))) in
        match t with
        | Return rc => Some rc
        | Go (inr (zPattern, zString)) => compare_loop fuel pInfo matchOther zPattern zString zEscaped
        | Go (inl (c, zPattern, zEscaped)) =>
            let* (c2, zString) := Utf8Read zString in
            if (c =? c2)
               || (noCase pInfo && (sqlite3Tolower c =? sqlite3Tolower c2) && (c <? 0x80) && (c2 <? 0x80))
               || ((c =? matchOne pInfo) && negb (bool_decide (Some (length zPattern) = zEscaped)) && negb (c2 =? 0))
            then compare_loop fuel pInfo matchOther zPattern zString zEscaped
            else Some SQLITE_NOMATCH
        end
  end.

(* native/sqlite3/sqlite3.c:131069-131234 patternCompare *)
Definition patternCompare (zPattern zString : bytes) (pInfo : compareInfo) (matchOther : Z) : option Z :=
  compare_loop (S (length zPattern)) pInfo matchOther zPattern zString None.

(* native/sqlite3/sqlite3.c:131236-131248 sqlite3_strglob *)
Definition sqlite3_strglob (zGlobPattern zString : option bytes) : option Z :=
  match zString, zGlobPattern with
  | None, p => Some (match p with None => 0 | Some _ => 1 end)
  | Some _, None => Some 1
  | Some s, Some p => patternCompare p s globInfo 91
  end.

(* native/sqlite3/sqlite3.c:131250-131262 sqlite3_strlike *)
Definition sqlite3_strlike (zPattern zStr : option bytes) (esc : Z) : option Z :=
  match zStr, zPattern with
  | None, p => Some (match p with None => 0 | Some _ => 1 end)
  | Some _, None => Some 1
  | Some s, Some p => patternCompare p s likeInfoNorm esc
  end.

(** ** The characters of a zero-terminated string *)

Definition term (z : bytes) : Prop := ∃ s, z = s ++ [0] ∧ text s.

Fixpoint chars_of (fuel : nat) (z : bytes) : list Z :=
  match fuel with
  | O => []
  | S fuel =>
      match Utf8Read z with
      | Some (c, r) => if c =? 0 then [] else c :: chars_of fuel r
      | None => []
      end
  end.

Definition chars (z : bytes) : list Z := chars_of (length z) z.

Lemma term_cons c s : term (c :: s) → c ≠ 0 → term s.
Proof.
  intros ([|x t] & E & Ht) Hc; injection E as -> ->; [done|]. exists t. split; [done|].
  by apply Forall_cons in Ht as [_ ?].
Qed.

Lemma term_intro c z : 0 < c < 256 → term z → term (c :: z).
Proof. intros Hc (s & -> & Hs). exists (c :: s). split; [done|]. by apply Forall_cons. Qed.

Lemma cont_term s : text s → ∀ c, 0 ≤ c < 4294967296 → ∃ c' w t, cont_terminated (s ++ [0]) c = Some (c', t ++ [0]) ∧
  s = w ++ t ∧ Forall (λ b, 0x80 ≤ b) w ∧ 0 ≤ c' < 4294967296 ∧ skip_cont_bytes (s ++ [0]) = Some (t ++ [0]).
Proof.
  induction 1 as [|b s Hb Hs IH]; intros c Hc; cbn [app cont_terminated skip_cont_bytes].
  - exists c, [], []. split_and!; try done; try lia.
  - destruct (Z.land b 0xc0 =? 0x80) eqn:E.
    + destruct (IH (u32 (Z.shiftl c 6 + Z.land 0x3f b)) (is_u32_u32 _)) as (c' & w & t & -> & -> & Hw & Hc' & ->).
      exists c', (b :: w), t. split_and!; try done; try lia. apply Forall_cons. split; [|done].
      apply Z.eqb_eq in E. rewrite land_c0 in E. dm.
    + exists c, [], (b :: s). split_and!; try done; try lia.
Qed.

Lemma replace_invalid_large c : 0x80 ≤ replace_invalid c.
Proof.
  unfold replace_invalid. destruct (Z.ltb_spec c 0x80); cbn [orb]; [done|]. by case_match.
Qed.

(** Reading a character: the terminator, an ASCII byte, or bytes that are
    not. *)
Lemma read_cases z : term z →
  z = [0] ∧ Utf8Read z = Some (0, []) ∧ sqlite3Utf8Read z = Some (0, []) ∨
  ∃ c w r, Utf8Read z = Some (c, r) ∧ sqlite3Utf8Read z = Some (c, r) ∧ skip_char z = Some r ∧
    z = w ++ r ∧ term r ∧ w ≠ [] ∧ 0 < c ∧ (w = [c] ∧ c < 0x80 ∨ 0x80 ≤ c ∧ Forall (λ b, 0x80 ≤ b) w).
Proof.
  intros (s & -> & Hs). destruct Hs as [|b s Hb Hs]; [by left|]. right. cbn [app].
  assert (term (s ++ [0])) as Hr by (by exists s).
  destruct (Z.ltb_spec b 0x80) as [Hlt|Hge].
  - exists b, [b], (s ++ [0]). cbn [Utf8Read sqlite3Utf8Read skip_char].
    rewrite (proj2 (Z.ltb_lt _ _)), (proj2 (Z.leb_gt 0xc0 b)) by lia. split_and!; try done; try lia. by left.
  - cbn [Utf8Read sqlite3Utf8Read skip_char]. rewrite (proj2 (Z.ltb_ge b 0x80)) by lia.
    destruct (Z.leb_spec 0xc0 b) as [Hc0|Hc0].
    + destruct (trans1_range (b - 0xc0)) as (k & -> & Hk); [lia|].
      destruct (cont_term s Hs k ltac:(lia)) as (c' & w & t & -> & -> & Hw & Hc' & ->).
      pose proof (replace_invalid_large c').
      exists (replace_invalid c'), (b :: w), (t ++ [0]). split_and!; try done; try lia.
      * cbn [app]. by rewrite <- (assoc_L (++)).
      * exists t. split; [done|]. by apply Forall_app in Hs as [_ ?].
      * right. split; [done|]. by apply Forall_cons.
    + exists b, [b], (s ++ [0]). split_and!; try done; try lia. right. split; [lia|]. by apply Forall_singleton.
Qed.

Lemma chars_fuel k : ∀ m z, term z → (length z ≤ k)%nat → (length z ≤ m)%nat → chars_of k z = chars_of m z.
Proof.
  induction k as [|k IH]; intros m z Hz Hn Hm.
  { destruct Hz as (s & -> & _). rewrite length_app in Hn. cbn in Hn. lia. }
  destruct m as [|m]; [destruct Hz as (s & -> & _); rewrite length_app in Hm; cbn in Hm; lia|].
  cbn [chars_of]. destruct (read_cases z Hz) as [(-> & -> & _)|(c & w & r & -> & _ & _ & E & Hr & Hw & Hc & _)]; [done|].
  rewrite (proj2 (Z.eqb_neq c 0)) by lia. f_equal.
  assert (length r < length z)%nat as Hl by (rewrite E, length_app; destruct w; [done|cbn; lia]).
  apply IH; done || lia.
Qed.

(** The same, with the characters. *)
Lemma read_chars z : term z →
  chars z = [] ∧ Utf8Read z = Some (0, []) ∧ sqlite3Utf8Read z = Some (0, []) ∧ z = [0] ∨
  ∃ c w r, chars z = c :: chars r ∧ Utf8Read z = Some (c, r) ∧ sqlite3Utf8Read z = Some (c, r) ∧
    skip_char z = Some r ∧ z = w ++ r ∧ w ≠ [] ∧ term r ∧ (length r < length z)%nat ∧ 0 < c ∧
    (w = [c] ∧ c < 0x80 ∨ 0x80 ≤ c ∧ Forall (λ b, 0x80 ≤ b) w).
Proof.
  intros Hz. destruct (read_cases z Hz) as [(-> & E & E')|(c & w & r & E1 & E2 & E3 & E & Hr & Hw & Hc & Hor)].
  - left. done.
  - right. exists c, w, r.
    assert (length r < length z)%nat as Hl by (rewrite E, length_app; destruct w; [done|cbn; lia]).
    split; [|split_and!; done]. unfold chars. destruct (length z) as [|n] eqn:En; [lia|]. cbn [chars_of].
    rewrite E1, (proj2 (Z.eqb_neq c 0)) by lia. f_equal. apply chars_fuel; done || lia.
Qed.

Lemma term_head z : term z → ∃ b, rd z 0 = Some b ∧ (b = 0 ↔ chars z = []).
Proof.
  intros Hz. destruct (read_chars z Hz) as [(E & _ & _ & ->)|(c & w & r & E & _ & _ & _ & -> & Hw & _ & _ & Hc & Hor)].
  - exists 0. by split.
  - rewrite E. destruct w as [|b w]; [done|]. exists b. split; [done|].
    assert (b ≠ 0); [|split; congruence].
    destruct Hor as [[Ew _]|[_ Hge]]; [injection Ew; lia|]. apply Forall_cons in Hge as [? _]. lia.
Qed.

(** ** The language of a pattern *)

Inductive item : Type :=
| Any                                          (* any sequence *)
| One                                          (* any character *)
| Lit (c : Z)
| Chars (invert : bool) (ranges : list (Z * Z)).

(** The list of a set after its leading [^] and [ ] ]: ranges, and characters
    that stand for themselves, to the closing bracket. *)
Fixpoint set_body (prior : Z) (P : list Z) : option (list (Z * Z) * list Z) :=
  match P with
  | [] => None
  | c :: P' =>
      if c =? 93 then Some ([], P') else
      match P' with
      | [] => None
      | d :: P'' =>
          if (c =? 45) && negb (d =? 93) && (0 <? prior)
          then let* (rs, P) := set_body 0 P'' in Some ((prior, d) :: rs, P)
          else let* (rs, P) := set_body c P' in Some ((c, c) :: rs, P)
      end
  end.

Definition set_item (P : list Z) : option (item * list Z) :=
  let '(invert, P) := match P with c :: P' => if c =? 94 then (true, P') else (false, P) | [] => (false, P) end in
  let '(first, P) := match P with c :: P' => if c =? 93 then ([(93, 93)], P') else ([], P) | [] => ([], P) end in
  let* (rs, P) := set_body 0 P in
  Some (Chars invert (first ++ rs), P).

Section Language.
Context (pInfo : compareInfo) (matchOther : Z).

Definition next_item (P : list Z) : option (item * list Z) :=
  match P with
  | [] => None
  | c :: P =>
      if c =? matchAll pInfo then Some (Any, P)
      else if c =? matchOther then
        if matchSet pInfo =? 0 then match P with d :: P => Some (Lit d, P) | [] => None end
        else set_item P
      else if c =? matchOne pInfo then Some (One, P)
      else Some (Lit c, P)
  end.

(** Letters of ASCII may differ in case. *)
Definition fits (p : item) (c : Z) : Prop :=
  match p with
  | Any => False
  | One => True
  | Lit d => d = c ∨ noCase pInfo = true ∧ d < 0x80 ∧ c < 0x80 ∧ sqlite3Tolower d = sqlite3Tolower c
  | Chars invert rs => Exists (λ '(lo, hi), lo ≤ c ≤ hi) rs ↔ invert = false
  end.

(** A pattern that ends inside an item accepts nothing. *)
Inductive accepts : list Z → list Z → Prop :=
| accepts_end : accepts [] []
| accepts_any P P' l r : next_item P = Some (Any, P') → accepts P' r → accepts P (l ++ r)
| accepts_one P p P' c s : next_item P = Some (p, P') → fits p c → accepts P' s → accepts P (c :: s).

Lemma accepts_nil s : accepts [] s ↔ s = [].
Proof. split; [|intros ->; constructor]. by inversion 1. Qed.

Lemma accepts_star P P' s : next_item P = Some (Any, P') →
  accepts P s ↔ ∃ l r, s = l ++ r ∧ accepts P' r.
Proof.
  intros E. split.
  - inversion 1 as [|? ? l r E'|? ? ? ? ? E' Hf]; subst; [done| |]; rewrite E in E'; injection E'; intros; subst.
    + eauto.
    + done.
  - intros (l & r & -> & H). by eapply accepts_any.
Qed.

Lemma accepts_item P p P' s : next_item P = Some (p, P') → p ≠ Any →
  accepts P s ↔ match s with [] => False | c :: s => fits p c ∧ accepts P' s end.
Proof.
  intros E Hp. split.
  - inversion 1 as [|? ? l r E'|? ? ? ? ? E' Hf]; subst; [done| |]; rewrite E in E'; injection E'; intros; subst; done.
  - destruct s as [|c s]; [done|]. intros [Hf Ha]. by eapply accepts_one.
Qed.

Lemma accepts_none P s : next_item P = None → P ≠ [] → ¬ accepts P s.
Proof. intros E Hne H. inversion H; congruence. Qed.

(** ** What a call answers

    2 also tells that no later start in the string would match. *)
Definition Result (rc : Z) (P s : list Z) : Prop :=
  rc = SQLITE_MATCH ∧ accepts P s ∨
  rc = SQLITE_NOMATCH ∧ ¬ accepts P s ∨
  rc = SQLITE_NOWILDCARDMATCH ∧ ∀ l r, s = l ++ r → ¬ accepts P r.

(** A search for a place from which to match. *)
Definition Star (P s : list Z) : Prop := ∃ l r, s = l ++ r ∧ accepts P r.

Definition Search (rc : Z) (P s : list Z) : Prop :=
  rc = SQLITE_MATCH ∧ Star P s ∨ rc = SQLITE_NOWILDCARDMATCH ∧ ¬ Star P s.

Lemma star_suffix P l s : Star P s → Star P (l ++ s).
Proof. intros (l' & r & -> & H). exists (l ++ l'), r. by rewrite (assoc_L (++)). Qed.

Lemma star_here P s : accepts P s → Star P s.
Proof. intros H. by exists [], s. Qed.

Lemma star_cons P c s : Star P (c :: s) ↔ accepts P (c :: s) ∨ Star P s.
Proof.
  split; [|by intros [H|H]; [apply star_here|apply (star_suffix P [c])]].
  intros ([|x l] & r & E & H); cbn [app] in E; [by left; subst|]. injection E as -> ->. right. by exists l, r.
Qed.

Lemma star_nil P : Star P [] ↔ accepts P [].
Proof.
  split; [|apply star_here]. intros (l & r & E & H). symmetry in E. by apply app_nil in E as [_ ->].
Qed.

Lemma star_any P Q s : next_item Q = Some (Any, P) → Star Q s ↔ Star P s.
Proof.
  intros E. split.
  - intros (l & r & -> & H). apply star_suffix. by apply (accepts_star Q P) in H.
  - intros H. apply star_here. by apply (accepts_star Q P).
Qed.

(** One character more before the place. *)
Lemma star_one P Q c s : next_item Q = Some (One, P) → Star Q (c :: s) ↔ Star P s.
Proof.
  intros E. split.
  - intros (l & r & El & H). apply (accepts_item Q One P) in H; [|done..]. destruct r as [|x r]; [done|].
    destruct H as [_ H]. destruct l as [|y l]; injection El as -> ->; [by apply star_here|].
    exists (l ++ [x]), r. by rewrite <- (assoc_L (++)).
  - intros (l & r & -> & H). destruct (exists_last (l := c :: l)) as (l' & x & El); [done|].
    exists l', (x :: r). split; [|by apply (accepts_item Q One P)].
    change (c :: l ++ r) with ((c :: l) ++ r). by rewrite El, <- (assoc_L (++)).
Qed.

Lemma search_star rc P P' Q s s' : next_item Q = Some (Any, P) → (Star P s ↔ Star P' s') → Search rc P' s' →
  Result rc Q s.
Proof.
  intros E Hiff [[-> H]|[-> H]].
  - left. split; [done|]. apply (accepts_star Q P); [done|]. by apply Hiff.
  - right. right. split; [done|]. intros l r -> Hq. apply H, Hiff, star_suffix. by apply (accepts_star Q P).
Qed.

Lemma search_nil P : ¬ accepts P [] → Search SQLITE_NOWILDCARDMATCH P [].
Proof. intros H. right. by rewrite star_nil. Qed.

Lemma search_skip rc P c s : ¬ accepts P (c :: s) → Search rc P s → Search rc P (c :: s).
Proof. intros Hno. unfold Search. rewrite star_cons. tauto. Qed.

Lemma search_here rc P s : Result rc P s → rc ≠ SQLITE_NOMATCH → Search rc P s.
Proof.
  intros [[-> H]|[[-> _]|[-> H]]] Hne; [left|done|right]; split; try done.
  - by apply star_here.
  - intros (l & r & -> & Ha). by apply (H l r).
Qed.

(** A place that fits the item: the answer for what follows decides. *)
Lemma search_hit rc P p P' c s : next_item P = Some (p, P') → p ≠ Any → fits p c → Result rc P' s →
  rc ≠ SQLITE_NOMATCH → Search rc P (c :: s).
Proof.
  intros E Hp Hf [[-> H]|[[-> _]|[-> H]]] Hne; [left|done|right]; (split; [done|]).
  - apply star_here. by apply (accepts_item P p P').
  - intros (l & r & Er & Ha). apply (accepts_item P p P') in Ha; [|done..].
    destruct r as [|x r]; [done|]. destruct Ha as [_ Ha]. destruct l as [|y l]; injection Er as -> ->; [by apply (H [] r)|].
    apply (H (l ++ [x]) r); [by rewrite <- (assoc_L (++))|done].
Qed.

Lemma result_item rc P p P' c s : next_item P = Some (p, P') → p ≠ Any → fits p c → Result rc P' s →
  Result rc P (c :: s).
Proof.
  intros E Hp Hf Hr. destruct (decide (rc = SQLITE_NOMATCH)) as [->|Hne].
  - right. left. split; [done|]. intros Ha. apply (accepts_item P p P') in Ha as [_ Ha]; [|done..].
    destruct Hr as [[? _]|[[_ ?]|[? _]]]; done.
  - destruct (search_hit rc P p P' c s E Hp Hf Hr Hne) as [[-> _]|[-> H]].
    + left. split; [done|]. apply (accepts_item P p P'); [done..|]. split; [done|].
      destruct Hr as [[_ ?]|[[? _]|[? _]]]; done.
    + right. right. split; [done|]. intros l r El Ha. apply H. by exists l, r.
Qed.

(** ** The searches *)

(** What the code takes for granted of its parameters: an escape character
    that is neither wildcard, a bracket of one byte, and different
    wildcards.  An unused one is 0. *)
Context (Hother : matchOther ≠ 0 → matchOther ≠ matchAll pInfo ∧ matchOther ≠ matchOne pInfo).
Context (Hset : matchSet pInfo ≠ 0 → 0 < matchOther < 0x80).
Context (Hone : matchAll pInfo ≠ 0 → matchAll pInfo ≠ matchOne pInfo).

Lemma next_any P : next_item (matchAll pInfo :: P) = Some (Any, P).
Proof. cbn [next_item]. by rewrite Z.eqb_refl. Qed.

Lemma next_one P : 0 < matchOne pInfo → next_item (matchOne pInfo :: P) = Some (One, P).
Proof.
  intros H. cbn [next_item]. rewrite Z.eqb_refl, !(proj2 (Z.eqb_neq (matchOne pInfo) _)); [done|lia..].
Qed.

Lemma skip_wild_spec fuel : ∀ zp zs, term zp → term zs → (length zp ≤ fuel)%nat → 0 < matchAll pInfo →
  ∃ t, skip_wild fuel pInfo zp zs = Some t ∧
  match t with
  | Return rc => rc = SQLITE_NOWILDCARDMATCH ∧ ¬ Star (chars zp) (chars zs)
  | Go (c, zp', zs') =>
      c = 0 ∧ Star (chars zp) (chars zs) ∨
      0 < c ∧ c ≠ matchAll pInfo ∧ c ≠ matchOne pInfo ∧ term zp' ∧ term zs' ∧ (length zp' < length zp)%nat ∧
      (Star (chars zp) (chars zs) ↔ Star (c :: chars zp') (chars zs'))
  end.
Proof.
  induction fuel as [|fuel IH]; intros zp zs Hp Hs Hf Hall; [destruct (term_head zp Hp) as (? & ? & _); by destruct zp; [|cbn in Hf; lia]|].
  cbn [skip_wild]. destruct (read_chars zp Hp) as [(-> & -> & _ & _)|(c & w & r & -> & -> & _ & _ & _ & _ & Hr & Hl & Hc & _)].
  - cbn [mbind option_bind]. rewrite (proj2 (Z.eqb_neq 0 _)) by lia. cbn [orb].
    destruct (Z.eqb_spec 0 (matchOne pInfo)) as [<-|_]; cbn [andb negb Z.eqb]; eexists; (split; [done|]); left;
      (split; [done|]); exists (chars zs), []; by rewrite app_nil_r; repeat constructor.
  - cbn [mbind option_bind]. destruct (Z.eqb_spec c (matchAll pInfo)) as [->|Hna]; cbn [orb].
    + rewrite (proj2 (Z.eqb_neq _ _)) by lia.
      destruct (IH r zs Hr Hs ltac:(lia) Hall) as (t & -> & Ht). exists t. split; [done|].
      pose proof (star_any (chars r) _ (chars zs) (next_any (chars r))) as E.
      destruct t as [rc|[[c' zp'] zs']]; rewrite E; [done|]. destruct Ht as [?|Ht]; [by left|right].
      destruct_and! Ht. split_and!; done || lia.
    + destruct (Z.eqb_spec c (matchOne pInfo)) as [->|Hno]; cbn [andb].
      2: { eexists. split; [done|]. right. split_and!; done. }
      rewrite (proj2 (Z.eqb_neq _ 0)) by lia. cbn [negb].
      destruct (read_chars zs Hs) as [(-> & _ & -> & _)|(x & w' & r' & -> & _ & -> & _ & _ & _ & Hr' & Hl' & Hx & _)];
        cbn [mbind option_bind].
      * eexists. split; [done|]. split; [done|]. rewrite star_nil.
        rewrite (accepts_item _ One (chars r) [] (next_one (chars r) Hc)); [tauto|discriminate].
      * rewrite (proj2 (Z.eqb_neq x 0)) by lia.
        destruct (IH r r' Hr Hr' ltac:(lia) Hall) as (t & -> & Ht). exists t. split; [done|].
        pose proof (star_one (chars r) _ x (chars r') (next_one (chars r) Hc)) as E.
        destruct t as [rc|[[c' zp'] zs']]; rewrite E; [done|]. destruct Ht as [?|Ht]; [by left|right].
        destruct_and! Ht. split_and!; done || lia.
Qed.

Lemma term_length z : term z → (0 < length z)%nat.
Proof. intros (s & -> & _). rewrite length_app. cbn. lia. Qed.

(** A search that compares at every place. *)
Lemma search_set_spec compare P : ¬ accepts P [] →
  (∀ z, term z → ∃ rc, compare z = Some rc ∧ Result rc P (chars z)) →
  ∀ fuel zs, term zs → (length zs ≤ fuel)%nat → ∃ rc, search_set fuel compare zs = Some rc ∧ Search rc P (chars zs).
Proof.
  intros Hnil Hcmp. induction fuel as [|fuel IH]; intros zs Hs Hf; [pose proof (term_length _ Hs); lia|].
  cbn [search_set]. destruct (term_head zs Hs) as (b & -> & Hb). cbn [mbind option_bind].
  destruct (read_chars zs Hs) as [(E & _)|(c & w & r & E & _ & _ & -> & _ & _ & Hr & Hl & Hc & _)].
  - rewrite (proj2 (Z.eqb_eq b 0)) by tauto. rewrite E. eexists. split; [done|]. by apply search_nil.
  - rewrite (proj2 (Z.eqb_neq b 0)) by (rewrite Hb, E; done).
    destruct (Hcmp zs Hs) as (rc & -> & Hrc). cbn [mbind option_bind].
    destruct (Z.eqb_spec rc SQLITE_NOMATCH) as [->|Hne]; cbn [negb].
    + destruct (IH r Hr ltac:(lia)) as (rc & -> & H). exists rc. split; [done|]. rewrite E in *.
      apply search_skip; [|done]. destruct Hrc as [[? _]|[[_ ?]|[? _]]]; done.
    + exists rc. split; [done|]. by apply search_here.
Qed.

Lemma search_skips rc P l s : Forall (λ c, ∀ s, ¬ accepts P (c :: s)) l → Search rc P s → Search rc P (l ++ s).
Proof. intros Hl H. induction Hl as [|c l Hc _ IH]; [done|]. cbn [app]. by apply search_skip. Qed.

(** A search for the character of the next item. *)
Section Literal.
Context (P P' : list Z) (c : Z) (compare : bytes → option Z).
Context (HP : next_item P = Some (Lit c, P')).
Context (Hcmp : ∀ z, term z → ∃ rc, compare z = Some rc ∧ Result rc P' (chars z)).

Lemma literal_nil : ¬ accepts P [].
Proof. by intros H%(accepts_item P (Lit c) P'). Qed.

Lemma literal_miss x s : ¬ fits (Lit c) x → ¬ accepts P (x :: s).
Proof. intros H Ha. apply (accepts_item P (Lit c) P') in Ha as [? _]; done. Qed.

Lemma literal_turn x r k : fits (Lit c) x → term r →
  (∃ rc, k = Some rc ∧ Search rc P (chars r)) →
  ∃ rc, (let* bMatch := compare r in if negb (bMatch =? SQLITE_NOMATCH) then Some bMatch else k) = Some rc ∧
    Search rc P (x :: chars r).
Proof.
  intros Hx Hr (rc & -> & H). destruct (Hcmp r Hr) as (rc' & -> & Hrc). cbn [mbind option_bind].
  destruct (Z.eqb_spec rc' SQLITE_NOMATCH) as [->|Hne]; cbn [negb].
  - exists rc. split; [done|]. apply search_skip; [|done]. intros [_ Ha]%(accepts_item P (Lit c) P'); [|done..].
    destruct Hrc as [[? _]|[[_ ?]|[? _]]]; done.
  - exists rc'. split; [done|]. by apply (search_hit rc' P (Lit c) P').
Qed.

Lemma search_char_spec : 0x80 ≤ c → ∀ fuel zs, term zs → (length zs ≤ fuel)%nat →
  ∃ rc, search_char fuel compare c zs = Some rc ∧ Search rc P (chars zs).
Proof.
  intros Hc. induction fuel as [|fuel IH]; intros zs Hs Hf; [pose proof (term_length _ Hs); lia|].
  cbn [search_char]. destruct (read_chars zs Hs) as [(-> & -> & _)|(x & w & r & -> & -> & _ & _ & _ & _ & Hr & Hl & Hx & _)];
    cbn [mbind option_bind].
  - eexists. split; [done|]. apply search_nil, literal_nil.
  - rewrite (proj2 (Z.eqb_neq x 0)) by lia. destruct (IH r Hr ltac:(lia)) as (rc & E & H).
    destruct (Z.eqb_spec x c) as [->|Hne]; cbn [negb].
    + apply literal_turn; [by left|done|eauto].
    + exists rc. split; [done|]. apply search_skip; [|done]. apply literal_miss. cbn [fits]. intuition lia.
Qed.

Context (stop : list Z) (Hstop : ∀ x, 0 < x → x ∈ stop ↔ fits (Lit c) x) (Hsmall : ∀ x, x ∈ stop → 0 < x < 0x80).

Lemma strcspn_high w z : Forall (λ b, 0x80 ≤ b) w → strcspn stop (w ++ z) = strcspn stop z.
Proof.
  induction 1 as [|b w Hb _ IH]; [done|]. cbn [app strcspn]. rewrite (proj2 (Z.eqb_neq b 0)), bool_decide_false; [done| |lia].
  intros H. apply Hsmall in H. lia.
Qed.

Lemma strcspn_spec k : ∀ z, term z → (length z ≤ k)%nat →
  ∃ l b r, strcspn stop z = Some (b :: r) ∧ Forall (λ x, ¬ fits (Lit c) x) l ∧ (length r < length z)%nat ∧
    (b = 0 ∧ chars z = l ∨ 0 < b ∧ fits (Lit c) b ∧ term r ∧ chars z = l ++ b :: chars r).
Proof.
  induction k as [|k IH]; intros z Hz Hk; [pose proof (term_length _ Hz); lia|].
  destruct (read_chars z Hz) as [(E & _ & _ & ->)|(x & w & r & E & _ & _ & _ & -> & _ & Hr & Hl & Hx & Hor)].
  - exists [], 0, []. split_and!; try done; [cbn; lia|by left].
  - rewrite length_app in *. destruct Hor as [[-> Hlt]|[Hge Hw]].
    + cbn [app strcspn]. rewrite (proj2 (Z.eqb_neq x 0)) by lia. cbn [orb].
      destruct (decide (x ∈ stop)) as [Hin|Hout].
      { rewrite bool_decide_true by done. exists [], x, r. split_and!; try done.
        right. split_and!; [done|by apply Hstop|done|done]. }
      rewrite bool_decide_false by done. destruct (IH r Hr) as (l & b & r' & -> & Hm & Hl' & H); [cbn in *; lia|].
      exists (x :: l), b, r'. cbn [app] in E. rewrite E. split_and!; [done|apply Forall_cons; by rewrite <- Hstop|cbn in *; lia|].
      destruct H as [[-> ->]|(? & ? & ? & ->)]; [by left|by right].
    + rewrite strcspn_high by done. destruct (IH r Hr) as (l & b & r' & -> & Hm & Hl' & H); [lia|].
      exists (x :: l), b, r'. rewrite E. split_and!; [done| |lia|].
      * apply Forall_cons. split; [|done]. rewrite <- Hstop by done. intros Hin. apply Hsmall in Hin. lia.
      * destruct H as [[-> ->]|(? & ? & ? & ->)]; [by left|by right].
Qed.

Lemma search_byte_spec : ∀ fuel zs, term zs → (length zs ≤ fuel)%nat →
  ∃ rc, search_byte fuel compare stop zs = Some rc ∧ Search rc P (chars zs).
Proof.
  induction fuel as [|fuel IH]; intros zs Hs Hf; [pose proof (term_length _ Hs); lia|].
  cbn [search_byte]. destruct (strcspn_spec _ zs Hs Hf) as (l & b & r & -> & Hm & Hl & H). cbn [mbind option_bind].
  assert (Forall (λ x, ∀ s, ¬ accepts P (x :: s)) l) as Hm'.
  { eapply Forall_impl; [exact Hm|]. intros x Hx s. by apply literal_miss. }
  destruct H as [[-> E]|(Hb & Hfit & Hr & E)].
  - eexists. split; [done|]. rewrite E, <- (app_nil_r l). apply search_skips; [done|]. apply search_nil, literal_nil.
  - rewrite (proj2 (Z.eqb_neq b 0)) by lia. rewrite E.
    destruct (literal_turn b r (search_byte fuel compare stop r) Hfit Hr) as (rc & -> & Hrc); [apply IH; [done|lia]|].
    exists rc. split; [done|]. by apply search_skips.
Qed.
End Literal.

(** ** A set *)

(** The characters from one just read on. *)
Definition from (c : Z) (z : bytes) : list Z := if c =? 0 then [] else c :: chars z.

Lemma read_next z : term z → ∃ c r, sqlite3Utf8Read z = Some (c, r) ∧ from c r = chars z ∧ (length r < length z)%nat ∧
  0 ≤ c ∧ (c ≠ 0 → term r).
Proof.
  intros Hz. unfold from. destruct (read_chars z Hz) as [(E & _ & -> & ->)|(c & w & r & E & _ & -> & _ & _ & _ & Hr & Hl & Hc & _)].
  - exists 0, []. split_and!; try done. cbn. lia.
  - exists c, r. rewrite (proj2 (Z.eqb_neq c 0)) by lia. split_and!; done || lia.
Qed.

(** A byte of ASCII is the first of the string as a character is. *)
Lemma head_char z : term z → ∃ b, rd z 0 = Some b ∧ ∀ k, 0 ≤ k < 0x80 → (b =? k) = (hd 0 (chars z) =? k).
Proof.
  intros Hz. destruct (read_chars z Hz) as [(E & _ & _ & ->)|(c & w & r & E & _ & _ & _ & -> & Hw & _ & _ & Hc & Hor)].
  - exists 0. by rewrite E.
  - rewrite E. destruct w as [|b w]; [done|]. exists b. split; [done|]. intros k Hk. cbn [hd].
    destruct Hor as [[[= -> ->] _]|[Hge [Hb _]%Forall_cons]]; [done|].
    rewrite !(proj2 (Z.eqb_neq _ k)) by lia. done.
Qed.

Definition within (c : Z) : Z * Z → Prop := λ '(lo, hi), lo ≤ c ≤ hi.

(** The loop on the list of a set reads what [set_body] reads. *)
Definition set_end (c : Z) (seen : bool) (n : nat) (B : option (list (Z * Z) * list Z)) (r : option (Z * bool * bytes)) : Prop :=
  ∃ c2 seen' z, r = Some (c2, seen', z) ∧
  match B with
  | None => c2 = 0
  | Some (rs, P) => c2 ≠ 0 ∧ term z ∧ chars z = P ∧ (length z ≤ n)%nat ∧
      (seen' = true ↔ seen = true ∨ Exists (within c) rs)
  end.

Lemma set_end_cons c seen b (k n : nat) rg B r : (n ≤ k)%nat → (b = true ↔ within c rg) →
  set_end c (seen || b) n B r →
  set_end c seen k (let* (rs, P) := B in Some (rg :: rs, P)) r.
Proof.
  intros Hk Hb (c2 & s & z & -> & H). exists c2, s, z. split; [done|].
  destruct B as [[rs P]|]; cbn [mbind option_bind]; [|done]. destruct H as (? & ? & ? & ? & ->).
  split_and!; try done; [lia|]. rewrite Exists_cons, orb_true_iff. tauto.
Qed.

Lemma charset_loop_spec c fuel : ∀ zp c2 prior seen, (length zp < fuel)%nat → (c2 ≠ 0 → term zp) → 0 ≤ c2 → 0 ≤ prior →
  set_end c seen (length zp) (set_body prior (from c2 zp)) (charset_loop fuel zp c c2 prior seen).
Proof.
  induction fuel as [|fuel IH]; intros zp c2 prior seen Hf Hp H0 Hprior; [lia|]. unfold from. cbn [charset_loop].
  destruct (Z.eqb_spec c2 0) as [->|Hne]; cbn [negb andb set_body]; [by exists 0, seen, zp|].
  specialize (Hp Hne). destruct (Z.eqb_spec c2 93) as [->|Hb]; cbn [negb andb].
  { exists 93, seen, zp. split_and!; try done. rewrite Exists_nil. tauto. }
  destruct (head_char zp Hp) as (b & -> & Hhd). rewrite !Hhd by lia. cbn [mbind option_bind].
  destruct (read_next zp Hp) as (d & r & Er & Hd & Hl & Hd0 & Ht). rewrite <- Hd.
  assert (Hfirst : hd 0 (from d r) = d) by (unfold from; destruct (Z.eqb_spec d 0); cbn [hd]; lia).
  rewrite Hfirst. destruct (Z.eqb_spec d 0) as [->|Hdne]; cbn [negb].
  - change (from 0 r) with (@nil Z). cbn [negb]. rewrite andb_false_r. cbn [andb mbind option_bind]. rewrite Er. cbn [mbind option_bind].
    destruct (IH r 0 c2 (seen || (c =? c2)) ltac:(lia) Ht) as (? & seen' & z & -> & ->); [lia..|]. by exists 0, seen', z.
  - assert (from d r = d :: chars r) as Ed by (unfold from; by rewrite (proj2 (Z.eqb_neq d 0))). rewrite Ed.
    rewrite andb_true_r. destruct ((c2 =? 45) && negb (d =? 93) && (0 <? prior)) eqn:E.
    + rewrite Er. cbn [mbind option_bind]. destruct (read_next r (Ht Hdne)) as (e & r' & -> & <- & Hl' & He & Ht').
      cbn [mbind option_bind]. eapply (set_end_cons c seen _ _ (length r')); [lia| |apply IH; done || lia].
      unfold within. rewrite andb_true_iff, !Z.leb_le. done.
    + cbn [mbind option_bind]. rewrite Er. cbn [mbind option_bind].
      rewrite <- Ed.
      eapply (set_end_cons c seen _ _ (length r)); [lia| |apply IH; done || lia].
      unfold within. rewrite Z.eqb_eq. lia.
Qed.

(** A character that is read over when it is the expected one. *)
Lemma read_if (k : Z) (a b : bool) c r : 0 < k → (c ≠ 0 → term r) → 0 ≤ c →
  ∃ c' r', (if c =? k then let* (c, r) := sqlite3Utf8Read r in Some (a, c, r) else Some (b, c, r)) =
    Some (if hd 0 (from c r) =? k then a else b, c', r') ∧
  from c' r' = (if hd 0 (from c r) =? k then tl (from c r) else from c r) ∧ (length r' ≤ length r)%nat ∧ 0 ≤ c' ∧
  (c' ≠ 0 → term r').
Proof.
  intros Hk Ht Hc. assert (hd 0 (from c r) = c) as -> by (unfold from; destruct (Z.eqb_spec c 0); cbn [hd]; lia).
  destruct (Z.eqb_spec c k) as [->|Hne]; [|by exists c, r].
  destruct (read_next r) as (c' & r' & -> & E & Hl' & H0' & Ht'); [apply Ht; lia|].
  exists c', r'. unfold from at 2. rewrite (proj2 (Z.eqb_neq k 0)) by lia. cbn [tl]. split_and!; done || lia.
Qed.

Lemma set_item_eq P :
  let P1 := if hd 0 P =? 94 then tl P else P in
  let P2 := if hd 0 P1 =? 93 then tl P1 else P1 in
  set_item P = let* (rs, Q) := set_body 0 P2 in
    Some (Chars (if hd 0 P =? 94 then true else false) ((if hd 0 P1 =? 93 then [(93, 93)] else []) ++ rs), Q).
Proof.
  cbn zeta. unfold set_item. destruct P as [|a P]; [done|]. cbn [hd tl].
  destruct (a =? 94); [|cbn [hd tl]; by destruct (a =? 93)]. destruct P as [|b P]; [done|]. cbn [hd tl]. by destruct (b =? 93).
Qed.

(** A set reads an item of the pattern and a character that it fits, or
    answers that they do not match. *)
Lemma match_set_spec zp zs : term zp → term zs → ∃ t, match_set zp zs = Some t ∧
  match t with
  | Return rc => rc = SQLITE_NOMATCH ∧
      (chars zs = [] ∨ set_item (chars zp) = None ∨
       ∃ p P' x s, set_item (chars zp) = Some (p, P') ∧ p ≠ Any ∧ chars zs = x :: s ∧ ¬ fits p x)
  | Go (zp', zs') => ∃ p x, set_item (chars zp) = Some (p, chars zp') ∧ p ≠ Any ∧ term zp' ∧ term zs' ∧
      (length zp' < length zp)%nat ∧ chars zs = x :: chars zs' ∧ fits p x
  end.
Proof.
  intros Hp Hs. unfold match_set. destruct (read_next zs Hs) as (x & zs' & -> & <- & _ & Hx & Hs').
  cbn [mbind option_bind]. destruct (Z.eqb_spec x 0) as [->|Hx0]; [eexists; split; [done|]; split; [done|by left]|].
  assert (from x zs' = x :: chars zs') as -> by (unfold from; by rewrite (proj2 (Z.eqb_neq x 0))).
  destruct (read_next zp Hp) as (c0 & z0 & -> & <- & Hl0 & H0 & Ht0). cbn [mbind option_bind].
  destruct (read_if 94 true false c0 z0 ltac:(lia) Ht0 H0) as (c1 & z1 & -> & E1 & Hl1 & H1 & Ht1).
  cbn [mbind option_bind].
  destruct (read_if 93 (x =? 93) false c1 z1 ltac:(lia) Ht1 H1) as (c2 & z2 & -> & E2 & Hl2 & H2 & Ht2).
  cbn [mbind option_bind]. rewrite set_item_eq. cbn zeta. rewrite <- E1, <- E2.
  set (invert := if _ =? 94 then true else false). set (seen := if _ =? 93 then x =? 93 else false).
  destruct (charset_loop_spec x (S (length z2)) z2 c2 0 seen ltac:(lia) Ht2 H2 ltac:(lia)) as (c3 & seen' & z3 & -> & H).
  cbn [mbind option_bind]. destruct (set_body 0 (from c2 z2)) as [[rs P]|]; cbn [mbind option_bind].
  2: { subst c3. eexists. split; [done|]. split; [done|]. right. by left. }
  destruct H as (Hc3 & Ht3 & <- & Hl3 & Hseen). rewrite (proj2 (Z.eqb_neq c3 0)) by done. cbn [orb].
  set (p := Chars invert _). assert (fits p x ↔ xorb seen' invert = true) as Hfit.
  { unfold p. cbn [fits]. change (λ '(lo, hi), lo ≤ x ≤ hi) with (within x). rewrite Exists_app.
    assert (Exists (within x) (if hd 0 (from c1 z1) =? 93 then [(93, 93)] else []) ↔ seen = true) as ->.
    { unfold seen. case_match; rewrite ?Exists_cons, Exists_nil, ?Z.eqb_eq; unfold within; [lia|]. split; [tauto|discriminate]. }
    rewrite <- Hseen. destruct seen', invert; cbn; intuition congruence. }
  destruct (xorb seen' invert) eqn:Ex; cbn [negb]; eexists; (split; [done|]).
  - exists p, x. split_and!; try done; [auto|lia|tauto].
  - split; [done|]. do 2 right. exists p, (chars z3), x, (chars zs'). split_and!; try done. rewrite Hfit. done.
Qed.
(** ** The two searches for a character *)

Definition zStop (c : Z) : list Z := if noCase pInfo then [sqlite3Toupper c; sqlite3Tolower c] else [c].

Lemma toupper_spec c : is_u8 c → sqlite3Toupper c = if (97 <=? c) && (c <=? 122) then c - 32 else c.
Proof.
  intros Hc. apply Z.eqb_eq.
  apply (all_bytes (λ c, sqlite3Toupper c =? if (97 <=? c) && (c <=? 122) then c - 32 else c)); [by vm_compute|done].
Qed.

Lemma tolower_spec c : is_u8 c → sqlite3Tolower c = if (65 <=? c) && (c <=? 90) then c + 32 else c.
Proof. intros Hc. unfold sqlite3Tolower. rewrite (u8_id c) by done. by apply upper_to_lower_spec. Qed.

Lemma zStop_fits c : 0 < c < 0x80 →
  (∀ x, 0 < x → x ∈ zStop c ↔ fits (Lit c) x) ∧ (∀ x, x ∈ zStop c → 0 < x < 0x80).
Proof.
  intros Hc. unfold zStop. cbn [fits]. destruct (noCase pInfo).
  - rewrite (toupper_spec c), (tolower_spec c) by (unfold is_u8; lia).
    split; intros x; rewrite !elem_of_cons, elem_of_nil; [|repeat case_match; lia]. intros Hx.
    destruct (Z.ltb_spec x 0x80); [|repeat case_match; intuition lia].
    rewrite (tolower_spec x) by (unfold is_u8; lia). repeat case_match; intuition lia.
  - split; intros x; rewrite list_elem_of_singleton; intuition (congruence || lia).
Qed.

(** After a wildcard, the character [d] to look for. *)
Lemma search_literal_spec compare P d z' zs : 0 < d → next_item P = Some (Lit d, chars z') → term zs →
  (∀ z, term z → ∃ rc, compare z = Some rc ∧ Result rc (chars z') (chars z)) →
  ∃ rc, (if d <? 0x80 then search_byte (length zs) compare (zStop d) zs else search_char (length zs) compare d zs) = Some rc ∧
    Search rc P (chars zs).
Proof.
  intros Hd HP Hs Hcmp. destruct (Z.ltb_spec d 0x80).
  - destruct (zStop_fits d ltac:(lia)). by eapply search_byte_spec.
  - by eapply search_char_spec.
Qed.

Lemma accepts_nonempty P : P ≠ [] → (∀ P', next_item P ≠ Some (Any, P')) → ¬ accepts P [].
Proof.
  intros Hne Hany Ha. inversion Ha as [|? ? l r E _ E'|]; subst; [done|]. by apply (Hany P').
Qed.

Lemma set_item_any P P' : set_item P ≠ Some (Any, P').
Proof.
  rewrite set_item_eq. cbn zeta. destruct (set_body 0 _) as [[rs Q]|]; cbn [mbind option_bind]; congruence.
Qed.

Lemma chars_ascii c z : 0 < c < 0x80 → term z → chars (c :: z) = c :: chars z.
Proof.
  intros Hc Hz. destruct (read_chars (c :: z)) as [(_ & _ & _ & [= -> _])|(d & w & r & -> & E & _)]; [by apply term_intro; [lia|]|lia|].
  cbn [Utf8Read] in E. rewrite (proj2 (Z.ltb_lt c 0x80)) in E by lia. by injection E as -> ->.
Qed.

Definition Compared (o : option Z) (P s : list Z) : Prop := ∃ rc, o = Some rc ∧ Result rc P s.

Lemma compared_star o P P' Q s s' : next_item Q = Some (Any, P) → (Star P s ↔ Star P' s') →
  (∃ rc, o = Some rc ∧ Search rc P' s') → Compared o Q s.
Proof. intros HQ Hiff (rc & -> & H). exists rc. split; [done|]. by eapply search_star. Qed.

(** The character of the string that answers to an item. *)
Lemma compare_item (test : Z → bool) p P P' (next : bytes → option Z) zs : next_item P = Some (p, P') → p ≠ Any →
  test 0 = false → (∀ x, 0 < x → test x = true ↔ fits p x) → term zs →
  (∀ z, term z → Compared (next z) P' (chars z)) →
  Compared (let* (c2, zs) := Utf8Read zs in if test c2 then next zs else Some SQLITE_NOMATCH) P (chars zs).
Proof.
  intros HP Hp H0 Htest Hs Hnext.
  destruct (read_chars zs Hs) as [(-> & -> & _)|(x & w & r & -> & -> & _ & _ & _ & _ & Hr & _ & Hx & _)]; cbn [mbind option_bind].
  - rewrite H0. eexists. split; [done|]. right. left. split; [done|]. by intros ?%(accepts_item P p P').
  - destruct (test x) eqn:E.
    + destruct (Hnext r Hr) as (rc & -> & H). exists rc. split; [done|]. apply (result_item rc P p P'); try done. by apply Htest.
    + eexists. split; [done|]. right. left. split; [done|]. intros [Hf _]%(accepts_item P p P'); [|done..].
      apply Htest in Hf; [congruence|done].
Qed.

Lemma no_item P s : next_item P = None → P ≠ [] → Result SQLITE_NOMATCH P s.
Proof. intros. right. left. split; [done|]. by apply accepts_none. Qed.

(** A turn at a wildcard for any sequence. *)
Lemma compare_wild fuel zp zs :
  (∀ zp zs, term zp → term zs → (length zp ≤ fuel)%nat →
     Compared (compare_loop fuel pInfo matchOther zp zs None) (chars zp) (chars zs)) →
  term zp → term zs → (length zp ≤ fuel)%nat → 0 < matchAll pInfo →
  Compared
    (let* t := skip_wild (S (length zp)) pInfo zp zs in
     match t with
     | Return rc => Some rc
     | Go (c, zPattern, zString) =>
         if c =? 0 then Some SQLITE_MATCH
         else if (c =? matchOther) && negb (matchSet pInfo =? 0) then
           search_set (length zString) (λ zString, compare_loop fuel pInfo matchOther (c :: zPattern) zString None) zString
         else
           let* (c, zPattern) := if c =? matchOther then sqlite3Utf8Read zPattern else Some (c, zPattern) in
           if c =? 0 then Some SQLITE_NOWILDCARDMATCH
           else
             let compare := λ zString, compare_loop fuel pInfo matchOther zPattern zString None in
             if c <? 0x80 then search_byte (length zString) compare (zStop c) zString
             else search_char (length zString) compare c zString
     end) (matchAll pInfo :: chars zp) (chars zs).
Proof.
  intros IH Hp Hs Hf Hall.
  destruct (skip_wild_spec (S (length zp)) zp zs Hp Hs ltac:(lia) Hall) as (t & -> & Ht). cbn [mbind option_bind].
  destruct t as [rc|[[c z] s]].
  { destruct Ht as [-> Ht]. eexists. split; [done|]. eapply search_star; [apply next_any|done|]. by right. }
  destruct Ht as [[-> Ht]|(Hc & Hna & Hno & Hz & Hs' & Hl & Hiff)].
  { eexists. split; [done|]. eapply search_star; [apply next_any|done|]. by left. }
  rewrite (proj2 (Z.eqb_neq c 0)) by lia.
  eapply compared_star; [apply next_any|exact Hiff|].
  assert (next_item (c :: chars z) = if c =? matchOther then
      if matchSet pInfo =? 0 then match chars z with d :: P => Some (Lit d, P) | [] => None end else set_item (chars z)
    else Some (Lit c, chars z)) as HP.
  { cbn [next_item]. by rewrite (proj2 (Z.eqb_neq c _)), (proj2 (Z.eqb_neq c (matchOne _))). }
  destruct (Z.eqb_spec c matchOther) as [Eo|Ho]; cbn [andb].
  - destruct (Z.eqb_spec (matchSet pInfo) 0) as [E0|Es]; cbn [negb].
    + destruct (read_next z Hz) as (d & r & -> & Er & Hl' & Hd & Hr). cbn [mbind option_bind]. rewrite <- Er in *.
      unfold from in *. destruct (Z.eqb_spec d 0) as [->|Hd0].
      * eexists. split; [done|]. right. split; [done|]. intros (l & r' & _ & Ha). by eapply accepts_none.
      * cbn zeta. eapply search_literal_spec; [lia|done|done|]. intros y Hy. apply IH; [auto|done|lia].
    + apply search_set_spec; [| |done|done].
      * apply accepts_nonempty; [done|]. intros P'. rewrite HP. apply set_item_any.
      * intros y Hy. rewrite <- chars_ascii by (done || lia). apply IH; [|done|cbn; lia]. apply term_intro; [lia|done].
  - cbn [mbind option_bind]. rewrite (proj2 (Z.eqb_neq c 0)) by lia. cbn zeta.
    eapply search_literal_spec; [lia|done|done|]. intros y Hy. apply IH; [auto|done|lia].
Qed.

(** The test of a character of the string, for a literal and for the
    wildcard for one character. *)
Definition char_test (c : Z) (escaped : bool) (c2 : Z) : bool :=
  (c =? c2)
  || (noCase pInfo && (sqlite3Tolower c =? sqlite3Tolower c2) && (c <? 0x80) && (c2 <? 0x80))
  || ((c =? matchOne pInfo) && negb escaped && negb (c2 =? 0)).

Lemma char_test_zero c escaped : 0 < c → char_test c escaped 0 = false.
Proof.
  intros Hc. unfold char_test. rewrite (proj2 (Z.eqb_neq c 0)), andb_false_r, orb_false_r by lia. cbn [orb].
  destruct (Z.ltb_spec c 0x80) as [Hlt|]; [|by rewrite andb_false_r]. rewrite (tolower_spec c) by (unfold is_u8; lia).
  change (sqlite3Tolower 0) with 0. rewrite (proj2 (Z.eqb_neq _ 0)) by (case_match; lia). by rewrite andb_false_r.
Qed.

Lemma char_test_lit c escaped x : (c = matchOne pInfo → escaped = true) → 0 < x → char_test c escaped x = true ↔ fits (Lit c) x.
Proof.
  intros He Hx. unfold char_test. cbn [fits]. rewrite !orb_true_iff, !andb_true_iff, !negb_true_iff, !Z.eqb_eq, !Z.ltb_lt.
  destruct escaped; intuition congruence.
Qed.

Lemma char_test_one x : 0 < x → char_test (matchOne pInfo) false x = true ↔ fits One x.
Proof.
  intros Hx. unfold char_test. rewrite Z.eqb_refl, (proj2 (Z.eqb_neq x 0)) by lia. cbn. by rewrite orb_true_r.
Qed.

Lemma compare_loop_spec fuel : ∀ zp zs esc, term zp → term zs → (length zp ≤ fuel)%nat →
  (∀ k, esc = Some k → (length zp ≤ k)%nat) →
  Compared (compare_loop fuel pInfo matchOther zp zs esc) (chars zp) (chars zs).
Proof.
  induction fuel as [|fuel IH]; intros zp zs esc Hp Hs Hf Hesc; [pose proof (term_length _ Hp); lia|].
  cbn [compare_loop]. destruct (read_chars zp Hp) as [(-> & -> & _)|(c & w & r & -> & -> & _ & _ & _ & _ & Hr & Hl & Hc & _)];
    cbn [mbind option_bind].
  { destruct (term_head zs Hs) as (b & -> & Hb). cbn [mbind option_bind Z.eqb]. eexists. split; [done|].
    rewrite <- accepts_nil in Hb. destruct (Z.eqb_spec b 0); [left|right; left]; (split; [done|tauto]). }
  rewrite (proj2 (Z.eqb_neq c 0)) by lia. destruct (Z.eqb_spec c (matchAll pInfo)) as [->|Hna].
  { apply compare_wild; try done; [|lia]. intros. by apply IH. }
  assert (∀ k, esc = Some k → (length r < k)%nat) as Hesc' by (intros k E; apply Hesc in E; lia).
  assert (next_item (c :: chars r) = if c =? matchOther then
      if matchSet pInfo =? 0 then match chars r with d :: P => Some (Lit d, P) | [] => None end else set_item (chars r)
    else if c =? matchOne pInfo then Some (One, chars r) else Some (Lit c, chars r)) as HP.
  { cbn [next_item]. by rewrite (proj2 (Z.eqb_neq c (matchAll _))). }
  destruct (Z.eqb_spec c matchOther) as [Eo|Ho].
  - destruct (Z.eqb_spec (matchSet pInfo) 0) as [E0|Es].
    + destruct (read_next r Hr) as (d & r' & -> & Er & Hl' & Hd & Hr'). cbn [mbind option_bind]. rewrite <- Er in *.
      unfold from in *. destruct (Z.eqb_spec d 0) as [->|Hd0].
      { eexists. split; [done|]. by apply no_item. }
      cbn [mbind option_bind]. eapply (compare_item (char_test d (bool_decide (Some (length r') = Some (length r'))))).
      * exact HP.
      * discriminate.
      * apply char_test_zero. lia.
      * intros x Hx. apply char_test_lit; [|done]. intros _. by apply bool_decide_true.
      * done.
      * intros y Hy. apply IH; [auto|done|lia|]. intros k [= <-]. lia.
    + destruct (match_set_spec r zs Hr Hs) as (t & -> & Ht). cbn [mbind option_bind]. destruct t as [rc|[z s]].
      * destruct Ht as (-> & Ht). eexists. split; [done|]. right. left. split; [done|].
        destruct Ht as [->|[E|(p & P' & x & s & E & Hany & -> & Hfit)]].
        -- apply accepts_nonempty; [done|]. intros P'. rewrite HP. apply set_item_any.
        -- apply accepts_none; [by rewrite HP|done].
        -- by intros [? _]%(accepts_item _ p P'); [..|by rewrite HP|].
      * destruct Ht as (p & x & E & Hany & Hz & Hs' & Hl' & -> & Hfit).
        destruct (IH z s esc Hz Hs' ltac:(lia)) as (rc & -> & H); [intros k Ek; apply Hesc' in Ek; lia|].
        exists rc. split; [done|]. eapply (result_item _ _ p); try done. by rewrite HP.
  - cbn [mbind option_bind].
    assert (bool_decide (Some (length r) = esc) = false) as He.
    { apply bool_decide_false. intros E. symmetry in E. apply Hesc' in E. lia. }
    destruct (decide (c = matchOne pInfo)) as [E1|Hno].
    + rewrite (proj2 (Z.eqb_eq c _)) in HP by done.
      eapply (compare_item (char_test c (bool_decide (Some (length r) = esc)))); [exact HP|done|by apply char_test_zero| |done|].
      * intros x Hx. rewrite He, E1. by apply char_test_one.
      * intros y Hy. apply IH; [auto|done|lia|]. intros k Ek. apply Hesc' in Ek. lia.
    + rewrite (proj2 (Z.eqb_neq c _)) in HP by done.
      eapply (compare_item (char_test c (bool_decide (Some (length r) = esc)))); [exact HP|done|by apply char_test_zero| |done|].
      * intros x Hx. by apply char_test_lit.
      * intros y Hy. apply IH; [auto|done|lia|]. intros k Ek. apply Hesc' in Ek. lia.
Qed.
End Language.

(** The parameters that the code's callers give: an escape character that is
    neither wildcard, a bracket of one byte, and different wildcards.  One
    that is not used is 0, as [likeFunc] sets a wildcard that is the escape
    character. *)
Definition compatible (pInfo : compareInfo) (matchOther : Z) : Prop :=
  (matchOther ≠ 0 → matchOther ≠ matchAll pInfo ∧ matchOther ≠ matchOne pInfo) ∧
  (matchSet pInfo ≠ 0 → 0 < matchOther < 0x80) ∧
  (matchAll pInfo ≠ 0 → matchAll pInfo ≠ matchOne pInfo).

Lemma glob_compatible : compatible globInfo 91.
Proof. by vm_compute. Qed.

Lemma like_compatible esc : esc ≠ 37 → esc ≠ 95 → compatible likeInfoNorm esc.
Proof. intros H1 H2. by unfold compatible. Qed.

(** C35: [patternCompare] returns on every pattern and string that end with a
    zero byte, whatever their bytes, and answers whether the string is in the
    pattern's language, where the pattern is read as items over characters:
    0 when it is, 1 when it is not, and 2, with which the callers stop their
    searches, only when no later start in the string is in it either. *)
Theorem pattern_compare_spec pInfo matchOther zPattern zString :
  compatible pInfo matchOther → term zPattern → term zString →
  ∃ rc, patternCompare zPattern zString pInfo matchOther = Some rc ∧
    (rc = SQLITE_MATCH ∧ accepts pInfo matchOther (chars zPattern) (chars zString) ∨
     rc = SQLITE_NOMATCH ∧ ¬ accepts pInfo matchOther (chars zPattern) (chars zString) ∨
     rc = SQLITE_NOWILDCARDMATCH ∧
       ∀ l r, chars zString = l ++ r → ¬ accepts pInfo matchOther (chars zPattern) r).
Proof.
  intros (H1 & H2 & H3) Hp Hs. unfold patternCompare.
  apply compare_loop_spec; try done. lia.
Qed.

Lemma pattern_compare_spec_witness :
  compatible globInfo 91 ∧ patternCompare (string_bytes "*[a-c]?" ++ [0]) (string_bytes "zabq" ++ [0]) globInfo 91 = Some 0 ∧
  accepts globInfo 91 (chars (string_bytes "*[a-c]?" ++ [0])) (chars (string_bytes "zabq" ++ [0])).
Proof.
  split; [exact glob_compatible|]. split; [vm_compute; reflexivity|].
  destruct (pattern_compare_spec globInfo 91 (string_bytes "*[a-c]?" ++ [0]) (string_bytes "zabq" ++ [0]) glob_compatible)
    as (rc & E & [[_ H]|[[-> _]|[-> _]]]);
    [exists (string_bytes "*[a-c]?"); split; [reflexivity|repeat constructor; vm_compute; congruence]
    |exists (string_bytes "zabq"); split; [reflexivity|repeat constructor; vm_compute; congruence]
    |exact H|vm_compute in E; discriminate|vm_compute in E; discriminate].
Defined.

(** The two functions of the interface: 0 exactly for a string in the
    language of the pattern; no string is only matched by no pattern. *)
Theorem strglob_strlike_spec zPattern zString esc :
  esc ≠ 37 → esc ≠ 95 → term zPattern → term zString →
  ∃ g l, sqlite3_strglob (Some zPattern) (Some zString) = Some g ∧
    sqlite3_strlike (Some zPattern) (Some zString) esc = Some l ∧
    (g = 0 ↔ accepts globInfo 91 (chars zPattern) (chars zString)) ∧
    (l = 0 ↔ accepts likeInfoNorm esc (chars zPattern) (chars zString)).
Proof.
  intros H1 H2 Hp Hs.
  assert (∀ i o, compatible i o → ∃ rc, patternCompare zPattern zString i o = Some rc ∧
    (rc = 0 ↔ accepts i o (chars zPattern) (chars zString))) as H.
  { intros i o (C1 & C2 & C3). destruct (compare_loop_spec i o C1 C2 C3 (S (length zPattern)) zPattern zString None)
      as (rc & E & H); try done; [lia|]. exists rc. split; [done|].
    destruct H as [[-> ?]|[[-> ?]|[-> Hno]]]; [done|done|]. split; [done|]. intros Ha. by destruct (Hno [] (chars zString)). }
  destruct (H _ _ glob_compatible) as (g & Eg & Hg). destruct (H _ _ (like_compatible esc H1 H2)) as (l & El & Hl).
  by exists g, l.
Qed.

Lemma strglob_strlike_spec_witness :
  sqlite3_strglob (Some (string_bytes "a[^0-9]" ++ [0])) (Some (string_bytes "ab" ++ [0])) = Some 0 ∧
  accepts globInfo 91 (chars (string_bytes "a[^0-9]" ++ [0])) (chars (string_bytes "ab" ++ [0])).
Proof.
  split; [vm_compute; reflexivity|].
  destruct (strglob_strlike_spec (string_bytes "a[^0-9]" ++ [0]) (string_bytes "ab" ++ [0]) 92) as (g & l & E & _ & H & _);
    [discriminate|discriminate
    |exists (string_bytes "a[^0-9]"); split; [reflexivity|repeat constructor; vm_compute; congruence]
    |exists (string_bytes "ab"); split; [reflexivity|repeat constructor; vm_compute; congruence]|].
  apply H. vm_compute in E. injection E. intros e. symmetry. exact e.
Defined.

End Like.
