(* ===== verification/WalIndex.v ===== *)
(** * The index of the write-ahead log ([native/sqlite3/sqlite3.c], wal.c)

    The wal-index maps a database page to the last frame of the log that
    holds it.  It is an array of pages in shared memory, each with the page
    numbers of 4096 frames (4062 in the first, after the header) and a hash
    table over them, filled in the order of the frames.  The theorems say that
    appending frames, rolling back and searching are what they are on the list
    of page numbers of the frames. *)

From S2P Require Import Prelude.

Module WalIndex.

(** ** Data *)

Definition SQLITE_OK : Z := 0.
Definition SQLITE_ERROR : Z := 1.
Definition SQLITE_NOMEM : Z := 7.
Definition SQLITE_READONLY : Z := 8.
Definition SQLITE_CORRUPT : Z := 11.

(* native/sqlite3/sqlite3.c:66493-66495 HASHTABLE_NPAGE *)
Definition HASHTABLE_NPAGE : Z := 4096.
Definition HASHTABLE_HASH_1 : Z := 383.
Definition HASHTABLE_NSLOT : Z := 8192.
(* native/sqlite3/sqlite3.c:66352-66352 WALINDEX_HDR_SIZE *)
Definition WALINDEX_HDR_SIZE : Z := 48 * 2 + 40.
(* native/sqlite3/sqlite3.c:66502-66502 HASHTABLE_NPAGE_ONE *)
Definition HASHTABLE_NPAGE_ONE : Z := HASHTABLE_NPAGE - WALINDEX_HDR_SIZE / 4.
(* native/sqlite3/sqlite3.c:66439-66439 WAL_HEAPMEMORY_MODE *)
Definition WAL_HEAPMEMORY_MODE : Z := 2.
(* native/sqlite3/sqlite3.c:66446-66446 WAL_SHM_RDONLY *)
Definition WAL_SHM_RDONLY : Z := 2.

(* native/sqlite3/sqlite3.c:66186-66211 WalIndexHdr *)
Record WalIndexHdr : Type := mk_hdr {
  iVersion : Z; unused : Z; iChange : Z; isInit : Z; bigEndCksum : Z; hdr_szPage : Z;
  mxFrame : Z; nPage : Z; aFrameCksum : Z * Z; aSalt : Z * Z; aCksum : Z * Z }.

(** A page of the index: 4096 words of 32 bits, in the first page the header
    before the page numbers, then 8192 slots of 16 bits. *)
(* native/sqlite3/sqlite3.c:66504-66507 WALINDEX_PGSZ *)
Record page : Type := mk_page { words : list Z; slots : list Z }.

(** What the allocator and [xShmMap] answer when a page is asked for: whether
    the array of pointers could grow, the result code, the page.  Every page
    comes with the contents that other processes have left in it. *)
Record answer : Type := mk_answer { grown : bool; shm_rc : Z; shm_page : option page }.

(** A file: its bytes, and the result codes that the next calls on it give
    before any work is done; after those, they succeed. *)
Record file : Type := mk_file { content : bytes; io_codes : list Z }.

(** The connection, without the parts that the functions here do not use, like
    the database file and the name of the log.  A null pointer in [apWiData]
    is [None].  The rest is the world's: the answers to requests for pages, the
    file of the log, the result codes that the next calls of [xShmLock] give,
    the ranges of exclusive locks and the shared locks that the connection
    holds, and the words of the header of the index that other connections
    write before it looks there the next time, each with its value. *)
(* native/sqlite3/sqlite3.c:66380-66432 Wal *)
Record Wal : Type := mk_wal {
  apWiData : list (option page);
  readLock : Z; exclusiveMode : Z; writeLock : Z; readOnly : Z; bShmUnreliable : Z;
  hdr : WalIndexHdr;
  minFrame : Z; iReCksum : Z; nCkpt : Z;
  answers : list answer;
  szPage : Z; ckptLock : Z;
  pWalFd : file; shm_locks : list Z; held : list (Z * Z);
  iCallback : Z; truncateOnCommit : Z; syncHeader : Z; padToSectorBoundary : Z; mxWalSize : Z;
  held_shared : list Z; others : list (list (Z * Z)) }.

Definition set_apWiData (p : Wal) (x : list (option page)) : Wal :=
  mk_wal x (readLock p) (exclusiveMode p) (writeLock p) (readOnly p) (bShmUnreliable p) (hdr p) (minFrame p)
    (iReCksum p) (nCkpt p) (answers p) (szPage p) (ckptLock p) (pWalFd p) (shm_locks p) (held p) (iCallback p)
    (truncateOnCommit p) (syncHeader p) (padToSectorBoundary p) (mxWalSize p) (held_shared p) (others p).
Definition set_readLock (p : Wal) (x : Z) : Wal :=
  mk_wal (apWiData p) x (exclusiveMode p) (writeLock p) (readOnly p) (bShmUnreliable p) (hdr p) (minFrame p)
    (iReCksum p) (nCkpt p) (answers p) (szPage p) (ckptLock p) (pWalFd p) (shm_locks p) (held p) (iCallback p)
    (truncateOnCommit p) (syncHeader p) (padToSectorBoundary p) (mxWalSize p) (held_shared p) (others p).
Definition set_exclusiveMode (p : Wal) (x : Z) : Wal :=
  mk_wal (apWiData p) (readLock p) x (writeLock p) (readOnly p) (bShmUnreliable p) (hdr p) (minFrame p) (iReCksum p)
    (nCkpt p) (answers p) (szPage p) (ckptLock p) (pWalFd p) (shm_locks p) (held p) (iCallback p)
    (truncateOnCommit p) (syncHeader p) (padToSectorBoundary p) (mxWalSize p) (held_shared p) (others p).
Definition set_writeLock (p : Wal) (x : Z) : Wal :=
  mk_wal (apWiData p) (readLock p) (exclusiveMode p) x (readOnly p) (bShmUnreliable p) (hdr p) (minFrame p)
    (iReCksum p) (nCkpt p) (answers p) (szPage p) (ckptLock p) (pWalFd p) (shm_locks p) (held p) (iCallback p)
    (truncateOnCommit p) (syncHeader p) (padToSectorBoundary p) (mxWalSize p) (held_shared p) (others p).
Definition set_readOnly (p : Wal) (x : Z) : Wal :=
  mk_wal (apWiData p) (readLock p) (exclusiveMode p) (writeLock p) x (bShmUnreliable p) (hdr p) (minFrame p)
    (iReCksum p) (nCkpt p) (answers p) (szPage p) (ckptLock p) (pWalFd p) (shm_locks p) (held p) (iCallback p)
    (truncateOnCommit p) (syncHeader p) (padToSectorBoundary p) (mxWalSize p) (held_shared p) (others p).
Definition set_bShmUnreliable (p : Wal) (x : Z) : Wal :=
  mk_wal (apWiData p) (readLock p) (exclusiveMode p) (writeLock p) (readOnly p) x (hdr p) (minFrame p) (iReCksum p)
    (nCkpt p) (answers p) (szPage p) (ckptLock p) (pWalFd p) (shm_locks p) (held p) (iCallback p)
    (truncateOnCommit p) (syncHeader p) (padToSectorBoundary p) (mxWalSize p) (held_shared p) (others p).
Definition set_hdr (p : Wal) (x : WalIndexHdr) : Wal :=
  mk_wal (apWiData p) (readLock p) (exclusiveMode p) (writeLock p) (readOnly p) (bShmUnreliable p) x (minFrame p)
    (iReCksum p) (nCkpt p) (answers p) (szPage p) (ckptLock p) (pWalFd p) (shm_locks p) (held p) (iCallback p)
    (truncateOnCommit p) (syncHeader p) (padToSectorBoundary p) (mxWalSize p) (held_shared p) (others p).
Definition set_minFrame (p : Wal) (x : Z) : Wal :=
  mk_wal (apWiData p) (readLock p) (exclusiveMode p) (writeLock p) (readOnly p) (bShmUnreliable p) (hdr p) x
    (iReCksum p) (nCkpt p) (answers p) (szPage p) (ckptLock p) (pWalFd p) (shm_locks p) (held p) (iCallback p)
    (truncateOnCommit p) (syncHeader p) (padToSectorBoundary p) (mxWalSize p) (held_shared p) (others p).
Definition set_iReCksum (p : Wal) (x : Z) : Wal :=
  mk_wal (apWiData p) (readLock p) (exclusiveMode p) (writeLock p) (readOnly p) (bShmUnreliable p) (hdr p)
    (minFrame p) x (nCkpt p) (answers p) (szPage p) (ckptLock p) (pWalFd p) (shm_locks p) (held p) (iCallback p)
    (truncateOnCommit p) (syncHeader p) (padToSectorBoundary p) (mxWalSize p) (held_shared p) (others p).
Definition set_nCkpt (p : Wal) (x : Z) : Wal :=
  mk_wal (apWiData p) (readLock p) (exclusiveMode p) (writeLock p) (readOnly p) (bShmUnreliable p) (hdr p)
    (minFrame p) (iReCksum p) x (answers p) (szPage p) (ckptLock p) (pWalFd p) (shm_locks p) (held p) (iCallback p)
    (truncateOnCommit p) (syncHeader p) (padToSectorBoundary p) (mxWalSize p) (held_shared p) (others p).
Definition set_answers (p : Wal) (x : list answer) : Wal :=
  mk_wal (apWiData p) (readLock p) (exclusiveMode p) (writeLock p) (readOnly p) (bShmUnreliable p) (hdr p)
    (minFrame p) (iReCksum p) (nCkpt p) x (szPage p) (ckptLock p) (pWalFd p) (shm_locks p) (held p) (iCallback p)
    (truncateOnCommit p) (syncHeader p) (padToSectorBoundary p) (mxWalSize p) (held_shared p) (others p).
Definition set_szPage (p : Wal) (x : Z) : Wal :=
  mk_wal (apWiData p) (readLock p) (exclusiveMode p) (writeLock p) (readOnly p) (bShmUnreliable p) (hdr p)
    (minFrame p) (iReCksum p) (nCkpt p) (answers p) x (ckptLock p) (pWalFd p) (shm_locks p) (held p) (iCallback p)
    (truncateOnCommit p) (syncHeader p) (padToSectorBoundary p) (mxWalSize p) (held_shared p) (others p).
Definition set_ckptLock (p : Wal) (x : Z) : Wal :=
  mk_wal (apWiData p) (readLock p) (exclusiveMode p) (writeLock p) (readOnly p) (bShmUnreliable p) (hdr p)
    (minFrame p) (iReCksum p) (nCkpt p) (answers p) (szPage p) x (pWalFd p) (shm_locks p) (held p) (iCallback p)
    (truncateOnCommit p) (syncHeader p) (padToSectorBoundary p) (mxWalSize p) (held_shared p) (others p).
Definition set_pWalFd (p : Wal) (x : file) : Wal :=
  mk_wal (apWiData p) (readLock p) (exclusiveMode p) (writeLock p) (readOnly p) (bShmUnreliable p) (hdr p)
    (minFrame p) (iReCksum p) (nCkpt p) (answers p) (szPage p) (ckptLock p) x (shm_locks p) (held p) (iCallback p)
    (truncateOnCommit p) (syncHeader p) (padToSectorBoundary p) (mxWalSize p) (held_shared p) (others p).
Definition set_shm_locks (p : Wal) (x : list Z) : Wal :=
  mk_wal (apWiData p) (readLock p) (exclusiveMode p) (writeLock p) (readOnly p) (bShmUnreliable p) (hdr p)
    (minFrame p) (iReCksum p) (nCkpt p) (answers p) (szPage p) (ckptLock p) (pWalFd p) x (held p) (iCallback p)
    (truncateOnCommit p) (syncHeader p) (padToSectorBoundary p) (mxWalSize p) (held_shared p) (others p).
Definition set_held (p : Wal) (x : list (Z * Z)) : Wal :=
  mk_wal (apWiData p) (readLock p) (exclusiveMode p) (writeLock p) (readOnly p) (bShmUnreliable p) (hdr p)
    (minFrame p) (iReCksum p) (nCkpt p) (answers p) (szPage p) (ckptLock p) (pWalFd p) (shm_locks p) x (iCallback p)
    (truncateOnCommit p) (syncHeader p) (padToSectorBoundary p) (mxWalSize p) (held_shared p) (others p).
Definition set_iCallback (p : Wal) (x : Z) : Wal :=
  mk_wal (apWiData p) (readLock p) (exclusiveMode p) (writeLock p) (readOnly p) (bShmUnreliable p) (hdr p)
    (minFrame p) (iReCksum p) (nCkpt p) (answers p) (szPage p) (ckptLock p) (pWalFd p) (shm_locks p) (held p) x
    (truncateOnCommit p) (syncHeader p) (padToSectorBoundary p) (mxWalSize p) (held_shared p) (others p).
Definition set_truncateOnCommit (p : Wal) (x : Z) : Wal :=
  mk_wal (apWiData p) (readLock p) (exclusiveMode p) (writeLock p) (readOnly p) (bShmUnreliable p) (hdr p)
    (minFrame p) (iReCksum p) (nCkpt p) (answers p) (szPage p) (ckptLock p) (pWalFd p) (shm_locks p) (held p)
    (iCallback p) x (syncHeader p) (padToSectorBoundary p) (mxWalSize p) (held_shared p) (others p).
Definition set_held_shared (p : Wal) (x : list Z) : Wal :=
  mk_wal (apWiData p) (readLock p) (exclusiveMode p) (writeLock p) (readOnly p) (bShmUnreliable p) (hdr p)
    (minFrame p) (iReCksum p) (nCkpt p) (answers p) (szPage p) (ckptLock p) (pWalFd p) (shm_locks p) (held p)
    (iCallback p) (truncateOnCommit p) (syncHeader p) (padToSectorBoundary p) (mxWalSize p) x (others p).
Definition set_others (p : Wal) (x : list (list (Z * Z))) : Wal :=
  mk_wal (apWiData p) (readLock p) (exclusiveMode p) (writeLock p) (readOnly p) (bShmUnreliable p) (hdr p)
    (minFrame p) (iReCksum p) (nCkpt p) (answers p) (szPage p) (ckptLock p) (pWalFd p) (shm_locks p) (held p)
    (iCallback p) (truncateOnCommit p) (syncHeader p) (padToSectorBoundary p) (mxWalSize p) (held_shared p) x.

Definition set_mxFrame (h : WalIndexHdr) (n : Z) (ck : Z * Z) : WalIndexHdr :=
  mk_hdr (iVersion h) (unused h) (iChange h) (isInit h) (bigEndCksum h) (hdr_szPage h) n (nPage h) ck (aSalt h)
    (aCksum h).

(** ** Pages *)

Definition zero_page : page := mk_page (replicate (Z.to_nat HASHTABLE_NPAGE) 0) (replicate (Z.to_nat HASHTABLE_NSLOT) 0).

Definition not_null {A} (p : option A) : bool := match p with Some _ => true | None => false end.

(** The page that [xShmMap] gives: when it is asked to extend the index, a page
    that is not there yet is made of zeros. *)
Definition mapped (a : answer) (bExtend : Z) : option page :=
  match shm_page a with
  | Some p => Some p
  | None => if (shm_rc a =? SQLITE_OK) && negb (bExtend =? 0) then Some zero_page else None
  end.

(** The result, whether the pointer is not null, and the connection; the
    pointer is the page of that number. *)
(* native/sqlite3/sqlite3.c:66616-66682 walIndexPageRealloc *)
Definition walIndexPageRealloc (pWal : Wal) (iPage : Z) : option (Z * bool * Wal) :=
  let '(a, rest) := match answers pWal with [] => (mk_answer false SQLITE_NOMEM None, []) | a :: rest => (a, rest) end in
  let pWal := set_answers pWal rest in
  let n := Z.of_nat (length (apWiData pWal)) in
  if (n <=? iPage) && negb (grown a) then Some (SQLITE_NOMEM, false, pWal) else
  let apNew := if n <=? iPage then apWiData pWal ++ replicate (Z.to_nat (iPage + 1 - n)) None else apWiData pWal in
  if exclusiveMode pWal =? WAL_HEAPMEMORY_MODE then
    let p := match shm_page a with Some _ => Some zero_page | None => None end in
    let* apNew := wr apNew iPage p in
    Some (if not_null p then SQLITE_OK else SQLITE_NOMEM, not_null p, set_apWiData pWal apNew)
  else
    let rc := shm_rc a in
    let p := mapped a (writeLock pWal) in
    let* apNew := wr apNew iPage p in
    let pWal := set_apWiData pWal apNew in
    let '(rc, pWal) :=
      if negb (rc =? SQLITE_OK) && (Z.land rc 0xff =? SQLITE_READONLY) then
        (if rc =? SQLITE_READONLY then SQLITE_OK else rc, set_readOnly pWal (Z.lor (readOnly pWal) WAL_SHM_RDONLY))
      else (rc, pWal) in
    Some (rc, not_null p, pWal).

(* native/sqlite3/sqlite3.c:66683-66693 walIndexPage *)
Definition walIndexPage (pWal : Wal) (iPage : Z) : option (Z * bool * Wal) :=
  if Z.of_nat (length (apWiData pWal)) <=? iPage then walIndexPageRealloc pWal iPage
  else
    let* p := rd (apWiData pWal) iPage in
    match p with
    | None => walIndexPageRealloc pWal iPage
    | Some _ => Some (SQLITE_OK, true, pWal)
    end.

(* native/sqlite3/sqlite3.c:67005-67014 walHash *)
Definition walHash (iPage : Z) : Z := Z.land (u32 (iPage * HASHTABLE_HASH_1)) (HASHTABLE_NSLOT - 1).

(* native/sqlite3/sqlite3.c:67015-67017 walNextHash *)
Definition walNextHash (iPriorHash : Z) : Z := Z.land (iPriorHash + 1) (HASHTABLE_NSLOT - 1).

(** The pointers into a page: its number, and where its page numbers start. *)
(* native/sqlite3/sqlite3.c:67025-67029 WalHashLoc *)
Record WalHashLoc : Type := mk_loc { iHash : Z; off : Z; iZero : Z }.

(* native/sqlite3/sqlite3.c:67031-67067 walHashGet *)
Definition walHashGet (pWal : Wal) (iHash : Z) : option (Z * WalHashLoc * Wal) :=
  let* (rc, found, pWal) := walIndexPage pWal iHash in
  let loc :=
    if iHash =? 0 then mk_loc iHash (WALINDEX_HDR_SIZE / 4) 0
    else mk_loc iHash 0 (u32 (HASHTABLE_NPAGE_ONE + (iHash - 1) * HASHTABLE_NPAGE)) in
  Some (if found then rc else if rc =? SQLITE_OK then SQLITE_ERROR else rc, loc, pWal).

(** [HASHTABLE_NPAGE_ONE] is of type [size_t]. *)
(* native/sqlite3/sqlite3.c:67069-67085 walFramePage *)
Definition walFramePage (iFrame : Z) : Z :=
  i32 (u64 (u32 (iFrame + HASHTABLE_NPAGE) - HASHTABLE_NPAGE_ONE - 1) / HASHTABLE_NPAGE).

Definition get_page (pWal : Wal) (iPage : Z) : option page := let* p := rd (apWiData pWal) iPage in p.
Definition set_page (pWal : Wal) (iPage : Z) (p : page) : option Wal :=
  let* a := wr (apWiData pWal) iPage (Some p) in Some (set_apWiData pWal a).

(* native/sqlite3/sqlite3.c:67087-67097 walFramePgno *)
Definition walFramePgno (pWal : Wal) (iFrame : Z) : option Z :=
  let iHash := walFramePage iFrame in
  let* p := get_page pWal iHash in
  if iHash =? 0 then rd (words p) (WALINDEX_HDR_SIZE / 4 + iFrame - 1)
  else rd (words p) (u64 (u32 (iFrame - 1) - HASHTABLE_NPAGE_ONE) `mod` HASHTABLE_NPAGE).

(** Zero the words from the [i]-th on. *)
Definition zero_words (l : list Z) (i : Z) : option (list Z) :=
  if decide (0 ≤ i ≤ Z.of_nat (length l))
  then Some (take (Z.to_nat i) l ++ replicate (length l - Z.to_nat i) 0) else None.

(* native/sqlite3/sqlite3.c:67099-67166 walCleanupHash *)
Definition walCleanupHash (pWal : Wal) : option Wal :=
  if mxFrame (hdr pWal) =? 0 then Some pWal else
  let* (rc, sLoc, pWal) := walHashGet pWal (walFramePage (mxFrame (hdr pWal))) in
  if negb (rc =? SQLITE_OK) then Some pWal else
  let iLimit := i32 (mxFrame (hdr pWal) - iZero sLoc) in
  let* p := get_page pWal (iHash sLoc) in
  let aHash := map (λ v, if iLimit <? v then 0 else v) (slots p) in
  let* w := zero_words (words p) (off sLoc + iLimit) in
  set_page pWal (iHash sLoc) (mk_page w aHash).

(** The first free slot from [iKey] on, or [Some None] for too many
    collisions. *)
(* native/sqlite3/sqlite3.c:67210-67212 walIndexAppend, the search for a slot *)
Fixpoint free_key (fuel : nat) (aHash : list Z) (iKey nCollide : Z) : option (option Z) :=
  match fuel with
  | O => None
  | S fuel =>
      let* v := rd aHash iKey in
      if v =? 0 then Some (Some iKey)
      else if nCollide =? 0 then Some None
      else free_key fuel aHash (walNextHash iKey) (nCollide - 1)
  end.

(* native/sqlite3/sqlite3.c:67169-67249 walIndexAppend *)
Definition walIndexAppend (pWal : Wal) (iFrame iPage : Z) : option (Z * Wal) :=
  let* (rc, sLoc, pWal) := walHashGet pWal (walFramePage iFrame) in
  if negb (rc =? SQLITE_OK) then Some (rc, pWal) else
  let idx := i32 (iFrame - iZero sLoc) in
  let* pWal :=
    if idx =? 1 then
      let* p := get_page pWal (iHash sLoc) in
      let* w := zero_words (words p) (off sLoc) in
      set_page pWal (iHash sLoc) (mk_page w (map (λ _, 0) (slots p)))
    else Some pWal in
  let* p := get_page pWal (iHash sLoc) in
  let* w := rd (words p) (off sLoc + idx - 1) in
  let* pWal := if negb (w =? 0) then walCleanupHash pWal else Some pWal in
  let* p := get_page pWal (iHash sLoc) in
  let* k := free_key (S (S (Z.to_nat idx))) (slots p) (walHash iPage) idx in
  match k with
  | None => Some (SQLITE_CORRUPT, pWal)
  | Some iKey =>
      let* w := wr (words p) (off sLoc + idx - 1) iPage in
      let* s := wr (slots p) iKey (u16 idx) in
      let* pWal := set_page pWal (iHash sLoc) (mk_page w s) in
      Some (SQLITE_OK, pWal)
  end.

(** The end of [walFrames]: the frames written, of the pages [pgnos] - the
    padding among them -, go to the index after [iFrame].  The header counts
    them afterwards, in [WalWrite.index_commit]. *)
(* native/sqlite3/sqlite3.c:70090-70100 walFrames, the loops over frames *)
Fixpoint index_frames (pWal : Wal) (iFrame : Z) (pgnos : list Z) : option (Z * Z * Wal) :=
  match pgnos with
  | [] => Some (SQLITE_OK, iFrame, pWal)
  | pgno :: pgnos =>
      let* (rc, pWal) := walIndexAppend pWal (u32 (iFrame + 1)) pgno in
      if rc =? SQLITE_OK then index_frames pWal (u32 (iFrame + 1)) pgnos else Some (rc, u32 (iFrame + 1), pWal)
  end.

(** ** Searching *)

(** The loop over the slots of a table; [Some None] for too many of them. *)
(* native/sqlite3/sqlite3.c:69447-69458 walFindFrame, the loop over slots *)
Fixpoint find_slots (fuel : nat) (p : page) (sLoc : WalHashLoc) (minFrame iLast pgno iKey nCollide iRead : Z)
  : option (option Z) :=
  match fuel with
  | O => None
  | S fuel =>
      let* iH := rd (slots p) iKey in
      if iH =? 0 then Some (Some iRead) else
      let iFrame := u32 (iH + iZero sLoc) in
      let* iRead :=
        if (iFrame <=? iLast) && (minFrame <=? iFrame) then
          let* w := rd (words p) (off sLoc + iH - 1) in
          Some (if w =? pgno then iFrame else iRead)
        else Some iRead in
      if nCollide =? 0 then Some None
      else find_slots fuel p sLoc minFrame iLast pgno (walNextHash iKey) (nCollide - 1) iRead
  end.

(** The loop over the tables, [n] of them left, from the [iHash]-th down. *)
(* native/sqlite3/sqlite3.c:69432-69460 walFindFrame, the loop over tables *)
Fixpoint find_tables (n : nat) (pWal : Wal) (iLast pgno iHash iRead : Z) : option (Z * Z * Wal) :=
  match n with
  | O => Some (SQLITE_OK, iRead, pWal)
  | S n =>
      let* (rc, sLoc, pWal) := walHashGet pWal iHash in
      if negb (rc =? SQLITE_OK) then Some (rc, 0, pWal) else
      let* p := get_page pWal iHash in
      let* r := find_slots (S (S (Z.to_nat HASHTABLE_NSLOT))) p sLoc (minFrame pWal) iLast pgno (walHash pgno)
                  HASHTABLE_NSLOT iRead in
      match r with
      | None => Some (SQLITE_CORRUPT, 0, pWal)
      | Some iRead =>
          if negb (iRead =? 0) then Some (SQLITE_OK, iRead, pWal)
          else find_tables n pWal iLast pgno (iHash - 1) iRead
      end
  end.

(** The result code, the frame, and the connection, which may have mapped
    pages. *)
(* native/sqlite3/sqlite3.c:69375-69482 walFindFrame *)
Definition walFindFrame (pWal : Wal) (pgno : Z) : option (Z * Z * Wal) :=
  let iLast := mxFrame (hdr pWal) in
  if (iLast =? 0) || ((readLock pWal =? 0) && (bShmUnreliable pWal =? 0)) then Some (SQLITE_OK, 0, pWal) else
  let iMinHash := walFramePage (minFrame pWal) in
  let iHash := walFramePage iLast in
  find_tables (Z.to_nat (iHash - iMinHash + 1)) pWal iLast pgno iHash 0.

(* native/sqlite3/sqlite3.c:69484-69506 sqlite3WalFindFrame *)
Definition sqlite3WalFindFrame (pWal : Wal) (pgno : Z) : option (Z * Z * Wal) := walFindFrame pWal pgno.

(** ** Going back *)

(** The header as the first words of a page. *)
(* native/sqlite3/sqlite3.c:66199-66211 WalIndexHdr, as words *)
Definition hdr_words (h : WalIndexHdr) : list Z :=
  [iVersion h; unused h; iChange h; isInit h + 256 * bigEndCksum h + 65536 * hdr_szPage h; mxFrame h; nPage h;
   (aFrameCksum h).1; (aFrameCksum h).2; (aSalt h).1; (aSalt h).2; (aCksum h).1; (aCksum h).2].

Definition hdr_of_words (w : list Z) : option WalIndexHdr :=
  match w with
  | v :: u :: ch :: f :: mx :: np :: c1 :: c2 :: s1 :: s2 :: k1 :: k2 :: _ =>
      Some (mk_hdr v u ch (u8 f) (u8 (f / 256)) (f / 65536) mx np (c1, c2) (s1, s2) (k1, k2))
  | _ => None
  end.

(* native/sqlite3/sqlite3.c:66704-66711 walIndexHdr *)
Definition walIndexHdr (pWal : Wal) : option WalIndexHdr :=
  let* p := get_page pWal 0 in hdr_of_words (words p).

(** [xUndo] is called for each frame of the transaction. *)
(* native/sqlite3/sqlite3.c:69641-69657 sqlite3WalUndo, the loop over frames *)
Fixpoint undo_frames {A} (n : nat) (xUndo : A → Z → Z * A) (pWal : Wal) (ctx : A) (rc iFrame : Z) : option (Z * A) :=
  match n with
  | O => Some (rc, ctx)
  | S n =>
      if negb (rc =? SQLITE_OK) then Some (rc, ctx) else
      let* pgno := walFramePgno pWal iFrame in
      let '(rc, ctx) := xUndo ctx pgno in
      undo_frames n xUndo pWal ctx rc (iFrame + 1)
  end.

(* native/sqlite3/sqlite3.c:69617-69665 sqlite3WalUndo *)
Definition sqlite3WalUndo {A} (pWal : Wal) (xUndo : A → Z → Z * A) (pUndoCtx : A) : option (Z * A * Wal) :=
  if writeLock pWal =? 0 then Some (SQLITE_OK, pUndoCtx, pWal) else
  let iMax := mxFrame (hdr pWal) in
  let* h := walIndexHdr pWal in
  let pWal := set_hdr pWal h in
  let* (rc, pUndoCtx) := undo_frames (Z.to_nat (iMax - mxFrame h)) xUndo pWal pUndoCtx SQLITE_OK (mxFrame h + 1) in
  let* pWal := if negb (iMax =? mxFrame h) then walCleanupHash pWal else Some pWal in
  Some (rc, pUndoCtx, set_iReCksum pWal 0).

(* native/sqlite3/sqlite3.c:69667-69679 sqlite3WalSavepoint *)
Definition sqlite3WalSavepoint (pWal : Wal) : list Z :=
  [mxFrame (hdr pWal); (aFrameCksum (hdr pWal)).1; (aFrameCksum (hdr pWal)).2; nCkpt pWal].

(* native/sqlite3/sqlite3.c:69681-69716 sqlite3WalSavepointUndo *)
Definition sqlite3WalSavepointUndo (pWal : Wal) (aWalData : list Z) : option (Z * list Z * Wal) :=
  let* d3 := rd aWalData 3 in
  let* aWalData :=
    if negb (d3 =? nCkpt pWal) then
      let* a := wr aWalData 0 0 in wr a 3 (nCkpt pWal)
    else Some aWalData in
  let* d0 := rd aWalData 0 in
  let* d1 := rd aWalData 1 in
  let* d2 := rd aWalData 2 in
  if d0 <? mxFrame (hdr pWal) then
    let pWal := set_hdr pWal (set_mxFrame (hdr pWal) d0 (d1, d2)) in
    let* pWal := walCleanupHash pWal in
    let pWal := if mxFrame (hdr pWal) <? iReCksum pWal then set_iReCksum pWal 0 else pWal in
    Some (SQLITE_OK, aWalData, pWal)
  else Some (SQLITE_OK, aWalData, pWal).

(** ** Hash tables *)

Definition slot (s : list Z) (k : Z) : Z := default 0 (s !! Z.to_nat (k `mod` 8192)).

(** The table of a page, whose page numbers start at word [o], holds the
    entries [L]: the other words are 0, and each entry has its number in one
    slot, which a search from its hash reaches over smaller numbers only. *)
Record table (o : Z) (p : page) (L : list Z) : Prop := {
  t_words : length (words p) = Z.to_nat HASHTABLE_NPAGE;
  t_slots : length (slots p) = Z.to_nat HASHTABLE_NSLOT;
  t_off : 0 ≤ o ∧ o + Z.of_nat (length L) ≤ 4096;
  t_pgno : ∀ i, 0 ≤ i < 4096 - o → rd (words p) (o + i) = Some (default 0 (L !! Z.to_nat i));
  t_range : ∀ k, 0 ≤ slot (slots p) k ≤ Z.of_nat (length L);
  t_inj : ∀ k k', 0 ≤ k < 8192 → 0 ≤ k' < 8192 → slot (slots p) k = slot (slots p) k' → slot (slots p) k ≠ 0 → k = k';
  t_path : ∀ v q, 1 ≤ v → L !! Z.to_nat (v - 1) = Some q →
    ∃ d, 0 ≤ d < 8192 ∧ slot (slots p) (walHash q + d) = v ∧
      ∀ e, 0 ≤ e < d → 0 < slot (slots p) (walHash q + e) < v
}.

Lemma slot_mod s k : slot s (k `mod` 8192) = slot s k.
Proof. unfold slot. by rewrite Z.mod_mod. Qed.

Lemma rd_table_slot s k : length s = Z.to_nat HASHTABLE_NSLOT → 0 ≤ k < 8192 → rd s k = Some (slot s k).
Proof.
  intros Hl Hk. unfold rd, slot. rewrite decide_True, (Z.mod_small k) by lia.
  destruct (lookup_lt_is_Some_2 s (Z.to_nat k)) as [v ->]; [|done]. unfold HASHTABLE_NSLOT in Hl. lia.
Qed.

Lemma walHash_range q : 0 ≤ walHash q < 8192.
Proof. unfold walHash, HASHTABLE_NSLOT. rewrite (land_low _ 13) by done. dm. Qed.

Lemma walNextHash_mod k : walNextHash k = (k + 1) `mod` 8192.
Proof. unfold walNextHash, HASHTABLE_NSLOT. by rewrite (land_low _ 13) by done. Qed.

Lemma mod_shift_inj k e e' : 0 ≤ e < 8192 → 0 ≤ e' < 8192 → (k + e) `mod` 8192 = (k + e') `mod` 8192 → e = e'.
Proof. intros. dm. Qed.

Section Table.
Context (o : Z) (p : page) (L : list Z) (Ht : table o p L).

Abbreviation n := (Z.of_nat (length L)).
Abbreviation sl := (slot (slots p)).

(** A run of slots in use is not longer than the number of entries. *)
Lemma run_le k d : 0 ≤ d ≤ 8192 → (∀ e, 0 ≤ e < d → sl (k + e) ≠ 0) → d ≤ n.
Proof.
  intros Hd Hrun.
  assert (map (λ e, sl (k + e)) (seqZ 0 d) ⊆+ seqZ 1 n) as H%submseteq_length.
  { apply NoDup_submseteq.
    - apply NoDup_fmap_2_strong; [|apply NoDup_seqZ]. intros e e' He%elem_of_seqZ He'%elem_of_seqZ E.
      apply (mod_shift_inj k); [lia..|]. apply (t_inj _ _ _ Ht); [dm|dm| |]; rewrite !slot_mod; [done|]. apply Hrun. lia.
    - intros v (e & -> & He%elem_of_seqZ)%list_elem_of_fmap. apply elem_of_seqZ.
      pose proof (t_range _ _ _ Ht (k + e)). specialize (Hrun e ltac:(lia)). lia. }
  rewrite length_map, !length_seqZ in H. lia.
Qed.

Lemma first_free k : n < 8192 → ∃ d, 0 ≤ d ≤ n ∧ sl (k + d) = 0 ∧ ∀ e, 0 ≤ e < d → sl (k + e) ≠ 0.
Proof.
  intros Hn. destruct (decide (Exists (λ d, sl (k + d) = 0) (seqZ 0 (n + 1)))) as [Hex|Hno].
  - apply Exists_exists in Hex as (d & Hd%elem_of_seqZ & E).
    destruct (least_nat (λ m, sl (k + Z.of_nat m) = 0) (Z.to_nat d)) as (m & Hm & E' & Hmin).
    { by rewrite Z2Nat.id by lia. }
    exists (Z.of_nat m). split_and!; try done; [lia|lia|]. intros e He Ez. apply (Hmin (Z.to_nat e)); [lia|].
    by rewrite Z2Nat.id by lia.
  - exfalso. assert (n + 1 ≤ n); [|lia]. apply (run_le k); [lia|]. intros e He Ez. apply Hno.
    apply Exists_exists. exists e. split; [apply elem_of_seqZ; lia|done].
Qed.

Lemma free_key_spec fuel : ∀ k d nC, 0 ≤ d ≤ nC → d < Z.of_nat fuel → (∀ e, 0 ≤ e < d → sl (k + e) ≠ 0) → sl (k + d) = 0 →
  free_key fuel (slots p) (k `mod` 8192) nC = Some (Some ((k + d) `mod` 8192)).
Proof.
  induction fuel as [|fuel IH]; intros k d nC Hd Hf Hrun H0; [lia|]. cbn [free_key].
  rewrite rd_table_slot, slot_mod by (apply (t_slots _ _ _ Ht) || dm).
  destruct (decide (d = 0)) as [->|Hne].
  - rewrite Z.add_0_r in *. by rewrite H0.
  - pose proof (Hrun 0 ltac:(lia)) as Hk. rewrite Z.add_0_r in Hk. rewrite (proj2 (Z.eqb_neq _ _)) by done.
    rewrite (proj2 (Z.eqb_neq nC 0)) by lia. rewrite walNextHash_mod, Z.add_mod_idemp_l by done.
    replace (k + d) with (k + 1 + (d - 1)) by lia. apply IH; [lia|lia| |].
    + intros e He. replace (k + 1 + e) with (k + (1 + e)) by lia. apply Hrun. lia.
    + by replace (k + 1 + (d - 1)) with (k + d) by lia.
Qed.

Lemma slot_insert s k v j : length s = Z.to_nat HASHTABLE_NSLOT → 0 ≤ k < 8192 →
  slot (<[Z.to_nat k := v]> s) j = if decide (j `mod` 8192 = k) then v else slot s j.
Proof.
  intros Hl Hk. unfold slot. case_decide as E.
  - rewrite E, list_lookup_insert_eq; [done|]. unfold HASHTABLE_NSLOT in Hl. lia.
  - rewrite list_lookup_insert_ne; [done|]. dm.
Qed.

(** The new entry goes to a free slot. *)
Lemma table_insert q k w s : n < 4096 - o → (∃ d, 0 ≤ d < 8192 ∧ k = (walHash q + d) `mod` 8192 ∧ sl (walHash q + d) = 0 ∧
    ∀ e, 0 ≤ e < d → sl (walHash q + e) ≠ 0) →
  wr (words p) (o + n) q = Some w → wr (slots p) k (n + 1) = Some s → table o (mk_page w s) (L ++ [q]).
Proof.
  intros Hn (d & Hd & Hk & H0 & Hrun) Hw Hs. destruct Ht as [Hlw Hls Ho Hpg Hrange Hinj Hpath].
  assert (Hkr : 0 ≤ k < 8192) by dm.
  assert (Hs' : ∀ j, slot s j = if decide (j `mod` 8192 = k) then n + 1 else sl j).
  { intros j. rewrite wr_Some in Hs by (unfold HASHTABLE_NSLOT in Hls; lia). injection Hs as <-. by apply slot_insert. }
  split; cbn [words slots]; rewrite ?length_app; cbn [length].
  - by rewrite (wr_length _ _ _ _ Hw).
  - by rewrite (wr_length _ _ _ _ Hs).
  - lia.
  - intros i Hi. destruct (decide (i = n)) as [->|Hne].
    + rewrite (rd_wr_eq _ _ _ _ Hw), Nat2Z.id. by rewrite list_lookup_middle.
    + rewrite (rd_wr_ne _ _ _ _ _ Hw) by lia. rewrite Hpg by done. do 2 f_equal.
      destruct (decide (i < n)); [by rewrite lookup_app_l by lia|].
      rewrite !lookup_ge_None_2; [done|rewrite length_app; cbn; lia|lia].
  - intros j. rewrite Hs'. pose proof (Hrange j). case_decide; lia.
  - intros j j' Hj Hj'. rewrite !Hs', !Z.mod_small by done. pose proof (Hrange j). pose proof (Hrange j').
    repeat case_decide; try lia. by apply Hinj.
  - intros v q' Hv Hq. destruct (decide (v = n + 1)) as [->|Hne].
    + replace (Z.to_nat (n + 1 - 1)) with (length L) in Hq by lia. rewrite list_lookup_middle in Hq by done.
      injection Hq as <-. exists d. rewrite Hs', decide_True by done. split_and!; try lia.
      intros e He. rewrite Hs'. pose proof (Hrange (walHash q + e)). pose proof (Hrun e He).
      case_decide as E; [|lia]. rewrite Hk in E. apply mod_shift_inj in E; lia.
    + assert (Hvn : v ≤ n).
      { apply lookup_lt_Some in Hq. rewrite length_app in Hq. cbn in Hq. lia. }
      rewrite lookup_app_l in Hq by lia. destruct (Hpath v q' Hv Hq) as (d' & Hd' & E & Hless).
      assert (∀ e, 0 ≤ e ≤ d' → (walHash q' + e) `mod` 8192 ≠ k) as Hnk.
      { intros e He Ek. assert (sl (walHash q' + e) = 0) as Ez.
        { rewrite <- slot_mod, Ek, Hk, slot_mod. done. }
        destruct (decide (e = d')) as [->|]; [lia|]. pose proof (Hless e ltac:(lia)). lia. }
      exists d'. rewrite Hs', decide_False by (apply Hnk; lia). split_and!; try done; try lia.
      intros e He. rewrite Hs', decide_False by (apply Hnk; lia). apply Hless; lia.
Qed.

Lemma slot_map (f : Z → Z) s k : f 0 = 0 → slot (map f s) k = f (slot s k).
Proof. intros Hf. unfold slot. rewrite list_lookup_fmap. by destruct (s !! _). Qed.

Lemma zero_words_spec l i l' : zero_words l i = Some l' → length l' = length l ∧
  ∀ j, 0 ≤ j < Z.of_nat (length l) → rd l' j = if decide (j < i) then rd l j else Some 0.
Proof.
  unfold zero_words. case_decide as Hi; [|done]. intros [= <-]. split; [rewrite length_app, length_take, length_replicate; lia|].
  intros j Hj. unfold rd. rewrite decide_True by lia. case_decide as Hlt.
  - rewrite lookup_app_l by (rewrite length_take; lia). by rewrite lookup_take_lt, decide_True by lia.
  - rewrite lookup_app_r by (rewrite length_take; lia). rewrite length_take. apply lookup_replicate_2. lia.
Qed.

(** Entries above a limit are removed. *)
Lemma table_take m w : 0 ≤ m ≤ n → zero_words (words p) (o + m) = Some w →
  table o (mk_page w (map (λ v, if m <? v then 0 else v) (slots p))) (take (Z.to_nat m) L).
Proof.
  intros Hm [Hlw' Hw]%zero_words_spec. destruct Ht as [Hlw Hls Ho Hpg Hrange Hinj Hpath].
  assert (H0 : (if m <? 0 then 0 else 0) = 0) by by case_match.
  split; cbn [words slots]; rewrite ?length_take, ?length_map.
  - by rewrite Hlw'.
  - done.
  - lia.
  - intros i Hi. rewrite Hw by (unfold HASHTABLE_NPAGE in Hlw; lia). case_decide.
    + rewrite Hpg by done. by rewrite lookup_take_lt by lia.
    + by rewrite lookup_take_ge by lia.
  - intros k. rewrite slot_map by done. pose proof (Hrange k). destruct (Z.ltb_spec m (sl k)); lia.
  - intros k k' Hk Hk'. rewrite !slot_map by done. destruct (m <? sl k), (m <? sl k'); try done. by apply Hinj.
  - intros v q Hv Hq. assert (v ≤ m) by (apply lookup_lt_Some in Hq; rewrite length_take in Hq; lia).
    rewrite lookup_take_lt in Hq by lia. destruct (Hpath v q Hv Hq) as (d & Hd & E & Hless).
    exists d. rewrite slot_map, E by done. split_and!; [lia|lia|destruct (Z.ltb_spec m v); lia|]. intros e He.
    rewrite slot_map by done. specialize (Hless e He). destruct (Z.ltb_spec m (sl (walHash q + e))); lia.
Qed.
End Table.

Lemma table_zero o p w : length (words p) = Z.to_nat HASHTABLE_NPAGE → length (slots p) = Z.to_nat HASHTABLE_NSLOT →
  0 ≤ o ≤ 4096 → zero_words (words p) o = Some w → table o (mk_page w (map (λ _, 0) (slots p))) [].
Proof.
  intros Hlw Hls Ho [Hlw' Hw]%zero_words_spec. split; cbn [words slots length]; rewrite ?length_map; try done.
  - by rewrite Hlw'.
  - lia.
  - intros i Hi. rewrite Hw by (unfold HASHTABLE_NPAGE in Hlw; lia). by rewrite decide_False by lia.
  - intros k. by rewrite slot_map.
  - intros k k' _ _. by rewrite !slot_map.
Qed.

(** ** Searching a table *)

Section Find.
Context (o : Z) (p : page) (L : list Z) (Ht : table o p L).
Context (sLoc : WalHashLoc) (lo hi q : Z).
Context (Hoff : off sLoc = o) (Hz : 0 ≤ iZero sLoc ∧ iZero sLoc + 4096 < 4294967296).

Abbreviation n := (Z.of_nat (length L)).
Abbreviation sl := (slot (slots p)).
Abbreviation h := (walHash q).

(** The frames of the table that a search is for. *)
Definition sought (v : Z) : Prop := 1 ≤ v ∧ lo ≤ iZero sLoc + v ≤ hi ∧ L !! Z.to_nat (v - 1) = Some q.

(** What [d] steps have found. *)
Definition found (d r : Z) : Prop :=
  (r = 0 ∧ ∀ e, 0 ≤ e < d → ¬ sought (sl (h + e))) ∨
  (∃ v, r = iZero sLoc + v ∧ sought v ∧ ∀ e, 0 ≤ e < d → sought (sl (h + e)) → sl (h + e) ≤ v).

(** Numbers of the sought page come in ascending order. *)
Lemma sought_ascending d e : 0 ≤ e < d → d < 8192 → sought (sl (h + d)) → sl (h + e) < sl (h + d).
Proof.
  intros He Hd (H1 & _ & Hq). destruct (t_path _ _ _ Ht _ _ H1 Hq) as (d' & Hd' & E & Hless).
  assert (d' = d) as ->; [|by apply Hless].
  apply (mod_shift_inj h); [lia|lia|]. apply (t_inj _ _ _ Ht); rewrite ?slot_mod; dm || lia.
Qed.

Lemma found_hit d : 0 ≤ d < 8192 → sought (sl (h + d)) → found (d + 1) (iZero sLoc + sl (h + d)).
Proof.
  intros Hd Hs. right. exists (sl (h + d)). split_and!; try done. intros e He _.
  destruct (decide (e = d)) as [->|]; [lia|]. pose proof (sought_ascending d e ltac:(lia) ltac:(lia) Hs). lia.
Qed.

Lemma found_miss d r : ¬ sought (sl (h + d)) → found d r → found (d + 1) r.
Proof.
  intros Hs [[-> H]|(v & -> & Hv & H)]; [left|right; exists v]; split_and!; try done;
    intros e He; (destruct (decide (e = d)) as [->|]; [done|apply H; lia]).
Qed.

Lemma find_slots_spec fuel : ∀ d D nC r, 0 ≤ d ≤ D → D < 8192 → D - d < Z.of_nat fuel → D - d ≤ nC → sl (h + D) = 0 →
  (∀ e, 0 ≤ e < D → sl (h + e) ≠ 0) → found d r →
  ∃ r', find_slots fuel p sLoc lo hi q ((h + d) `mod` 8192) nC r = Some (Some r') ∧ found D r'.
Proof.
  induction fuel as [|fuel IH]; intros d D nC r Hd HD Hf HnC H0 Hrun Hr; [lia|]. cbn [find_slots].
  rewrite rd_table_slot, slot_mod by (apply (t_slots _ _ _ Ht) || dm).
  destruct (decide (d = D)) as [->|Hne]; [rewrite H0; by exists r|].
  pose proof (Hrun d ltac:(lia)) as Hk. rewrite (proj2 (Z.eqb_neq _ _)) by done.
  pose proof (t_range _ _ _ Ht (h + d)) as Hrange. pose proof (t_off _ _ _ Ht) as Ho.
  rewrite (u32_id (sl (h + d) + iZero sLoc)), (Z.add_comm _ (iZero sLoc)) by width.
  assert (∃ r', (if (iZero sLoc + sl (h + d) <=? hi) && (lo <=? iZero sLoc + sl (h + d))
      then let* w := rd (words p) (off sLoc + sl (h + d) - 1) in Some (if w =? q then iZero sLoc + sl (h + d) else r)
      else Some r) = Some r' ∧ found (d + 1) r') as (r' & -> & Hr').
  { destruct ((iZero sLoc + sl (h + d) <=? hi) && (lo <=? iZero sLoc + sl (h + d))) eqn:E.
    - rewrite Hoff. replace (o + sl (h + d) - 1) with (o + (sl (h + d) - 1)) by lia.
      rewrite (t_pgno _ _ _ Ht) by lia. eexists. split; [done|].
      destruct (lookup_lt_is_Some_2 L (Z.to_nat (sl (h + d) - 1))) as [x Hx]; [lia|]. rewrite Hx. change (default 0 (Some x)) with x.
      destruct (Z.eqb_spec x q) as [->|Hx']; [apply (found_hit d)|apply found_miss]; try done; try lia.
      + split_and!; done || lia.
      + intros (_ & _ & H). rewrite Hx in H. congruence.
    - exists r. split; [done|]. apply found_miss; [|done]. intros (_ & H & _). lia. }
  rewrite (proj2 (Z.eqb_neq nC 0)) by lia. rewrite walNextHash_mod, Z.add_mod_idemp_l, <- Z.add_assoc by done.
  apply IH; done || lia.
Qed.

(** A search finds the last entry within the bounds. *)
Lemma find_table : o < 4096 → ∃ r,
  find_slots (S (S (Z.to_nat HASHTABLE_NSLOT))) p sLoc lo hi q h HASHTABLE_NSLOT 0 = Some (Some r) ∧
  ((r = 0 ∧ ∀ v, ¬ sought v) ∨ ∃ v, r = iZero sLoc + v ∧ sought v ∧ ∀ v', sought v' → v' ≤ v).
Proof.
  intros Ho. pose proof (t_off _ _ _ Ht) as Hoff'.
  destruct (first_free o p L Ht h) as (D & HD & H0 & Hrun); [lia|].
  destruct (find_slots_spec (S (S (Z.to_nat HASHTABLE_NSLOT))) 0 D HASHTABLE_NSLOT 0) as (r & E & Hr); try done; try lia;
    [unfold HASHTABLE_NSLOT; lia..|left; split; [done|lia]|].
  rewrite Z.add_0_r, Z.mod_small in E by apply walHash_range. exists r. split; [exact E|].
  assert (∀ v, sought v → ∃ e, 0 ≤ e < D ∧ sl (h + e) = v) as Hall.
  { intros v (H1 & _ & Hq). destruct (t_path _ _ _ Ht _ _ H1 Hq) as (d & Hd & Ed & Hless). exists d. split; [|done].
    destruct (decide (d < D)); [lia|]. destruct (decide (d = D)) as [->|]; [lia|].
    pose proof (Hless D ltac:(lia)). lia. }
  destruct Hr as [[-> H]|(v & -> & Hv & H)]; [left|right; exists v]; split_and!; try done.
  - intros v Hv. destruct (Hall v Hv) as (e & He & <-). by apply (H e).
  - intros v' Hv'. destruct (Hall v' Hv') as (e & He & <-). by apply H.
Qed.
End Find.

(** ** The index as a list of page numbers *)

Definition first_off (h : Z) : Z := if h =? 0 then 34 else 0.
(** The frames before, and up to the end of, a page of the index. *)
Definition last_of (h : Z) : Z := Z.max 0 (4062 + h * 4096).
Definition zero_of (h : Z) : Z := last_of (h - 1).
Definition segment (h : Z) (P : list Z) : list Z :=
  take (Z.to_nat (last_of h - zero_of h)) (drop (Z.to_nat (zero_of h)) P).

Definition shape (p : page) : Prop :=
  length (words p) = Z.to_nat HASHTABLE_NPAGE ∧ length (slots p) = Z.to_nat HASHTABLE_NSLOT.

(** The frames the index can count, with room for the arithmetic on them. *)
Definition MAX_FRAMES : Z := 2147479552.

(** The pages hold the page numbers [P] of the frames, at least; pages after
    those may hold anything. *)
Record index (pWal : Wal) (P : list Z) : Prop := {
  i_frames : Z.of_nat (length P) < MAX_FRAMES;
  i_pgno : Forall (λ q, 0 < q) P;
  i_shape : ∀ h p, get_page pWal h = Some p → shape p;
  i_answers : Forall (λ a, ∀ p, shm_page a = Some p → shape p) (answers pWal);
  i_table : ∀ h, 0 ≤ h → zero_of h < Z.of_nat (length P) →
    ∃ p, get_page pWal h = Some p ∧ table (first_off h) p (segment h P)
}.

Lemma zero_of_next h : 0 ≤ h → last_of h = zero_of h + (4096 - first_off h).
Proof. intros H. unfold zero_of, last_of, first_off. destruct (Z.eqb_spec h 0); lia. Qed.

Lemma zero_of_pos h : 0 ≤ zero_of h.
Proof. unfold zero_of, last_of. lia. Qed.

Lemma last_of_le h h' : h ≤ h' → last_of h ≤ last_of h'.
Proof. unfold last_of. lia. Qed.

Lemma walFramePage_spec f : 0 ≤ f ≤ MAX_FRAMES → walFramePage f = (f + 33) / 4096.
Proof.
  unfold MAX_FRAMES. intros Hf. unfold walFramePage. change HASHTABLE_NPAGE_ONE with 4062. change HASHTABLE_NPAGE with 4096.
  rewrite u32_id by width. rewrite u64_id by width. replace (f + 4096 - 4062 - 1) with (f + 33) by lia.
  apply i32_id. unfold is_i32. dm.
Qed.

(** The page of a frame. *)
Lemma walFramePage_range f : 1 ≤ f ≤ MAX_FRAMES →
  0 ≤ walFramePage f ≤ 524288 ∧ zero_of (walFramePage f) < f ≤ last_of (walFramePage f).
Proof.
  intros Hf. rewrite walFramePage_spec by lia. unfold MAX_FRAMES in Hf. unfold zero_of, last_of. split; [dm|]. dm.
Qed.

Lemma walFramePage_unique f h : 1 ≤ f ≤ MAX_FRAMES → 0 ≤ h → zero_of h < f ≤ last_of h → walFramePage f = h.
Proof. intros Hf Hh. rewrite walFramePage_spec by lia. unfold MAX_FRAMES, zero_of, last_of in *. dm. Qed.

Lemma segment_lookup h P v : 0 ≤ h → 1 ≤ v ≤ last_of h - zero_of h →
  segment h P !! Z.to_nat (v - 1) = P !! Z.to_nat (zero_of h + v - 1).
Proof.
  intros Hh Hv. pose proof (zero_of_pos h). unfold segment. rewrite lookup_take_lt, lookup_drop by lia. f_equal. lia.
Qed.

Lemma segment_length h P : 0 ≤ h → zero_of h ≤ Z.of_nat (length P) →
  Z.of_nat (length (segment h P)) = Z.min (last_of h) (Z.of_nat (length P)) - zero_of h.
Proof.
  intros Hh Hl. pose proof (zero_of_pos h). pose proof (zero_of_next h Hh).
  assert (first_off h ≤ 4096) by (unfold first_off; case_match; lia).
  unfold segment. rewrite length_take, length_drop. lia.
Qed.

Definition loc_of (h : Z) : WalHashLoc := mk_loc h (first_off h) (zero_of h).

(** What only transactions change, and answers that are left. *)
Record steady (w w' : Wal) : Prop := {
  st_fields : (readLock w', bShmUnreliable w', writeLock w', ckptLock w', held_shared w', others w') =
    (readLock w, bShmUnreliable w, writeLock w, ckptLock w, held_shared w, others w);
  st_answers : ∀ a, a ∈ answers w' → a ∈ answers w
}.

Lemma steady_refl w : steady w w.
Proof. by split. Qed.

Lemma steady_trans w1 w2 w3 : steady w1 w2 → steady w2 w3 → steady w1 w3.
Proof. intros [E1 H1] [E2 H2]. split; [congruence|auto]. Qed.

(** What no call changes but what it says. *)
Definition same (w w' : Wal) : Prop :=
  hdr w' = hdr w ∧ minFrame w' = minFrame w ∧ readLock w' = readLock w ∧ bShmUnreliable w' = bShmUnreliable w ∧
  writeLock w' = writeLock w ∧ iReCksum w' = iReCksum w ∧ nCkpt w' = nCkpt w ∧ exclusiveMode w' = exclusiveMode w ∧
  szPage w' = szPage w ∧ ckptLock w' = ckptLock w ∧ pWalFd w' = pWalFd w ∧ shm_locks w' = shm_locks w ∧ held w' = held w ∧
  steady w w'.

Lemma get_page_rd w h p : get_page w h = Some p ↔ rd (apWiData w) h = Some (Some p).
Proof. unfold get_page. destruct (rd (apWiData w) h) as [[q|]|]; split; congruence. Qed.

Lemma walHashGet_mapped w h p : 0 ≤ h ≤ 524288 → get_page w h = Some p → walHashGet w h = Some (SQLITE_OK, loc_of h, w).
Proof.
  intros Hh Hp%get_page_rd. unfold walHashGet, walIndexPage.
  rewrite (proj2 (Z.leb_gt _ _)) by (apply rd_lt in Hp; lia). rewrite Hp. cbn [SQLITE_OK].
  unfold loc_of, first_off, zero_of, last_of. destruct (Z.eqb_spec h 0) as [->|]; [done|].
  change HASHTABLE_NPAGE_ONE with 4062. change HASHTABLE_NPAGE with 4096. rewrite u32_id by width. do 4 f_equal. lia.
Qed.

(** ** Searching the index *)

(** The last frame of the page between the bounds, or 0. *)
Definition last_frame (P : list Z) (q lo hi r : Z) : Prop :=
  (r = 0 ∧ ∀ f, 1 ≤ f → lo ≤ f ≤ hi → P !! Z.to_nat (f - 1) ≠ Some q) ∨
  (1 ≤ r ∧ lo ≤ r ≤ hi ∧ P !! Z.to_nat (r - 1) = Some q ∧ ∀ f, r < f ≤ hi → P !! Z.to_nat (f - 1) ≠ Some q).

Section Search.
Context (w : Wal) (P : list Z) (q : Z) (Hi : index w P).
Context (Hmx : mxFrame (hdr w) ≤ Z.of_nat (length P)) (Hmin : 0 ≤ minFrame w).

Abbreviation lo := (minFrame w).
Abbreviation hi := (mxFrame (hdr w)).

(** The search of one page of the index. *)
Lemma find_page h p : 0 ≤ h ≤ 524288 → zero_of h < hi → get_page w h = Some p → table (first_off h) p (segment h P) →
  ∃ r, find_slots (S (S (Z.to_nat HASHTABLE_NSLOT))) p (loc_of h) lo hi q (walHash q) HASHTABLE_NSLOT 0 = Some (Some r) ∧
  let hit f := zero_of h < f ≤ last_of h ∧ lo ≤ f ≤ hi ∧ P !! Z.to_nat (f - 1) = Some q in
  ((r = 0 ∧ ∀ f, ¬ hit f) ∨ hit r ∧ ∀ f, hit f → f ≤ r).
Proof.
  intros Hh Hzh Hp Ht. assert (first_off h < 4096) as Ho by (unfold first_off; case_match; lia).
  destruct (find_table (first_off h) p (segment h P) Ht (loc_of h) lo hi q) as (r & E & Hr); [done| |done|].
  { cbn. unfold zero_of, last_of. lia. }
  exists r. split; [exact E|]. cbn zeta. pose proof (zero_of_pos h) as Hz0.
  assert (∀ v, sought (segment h P) (loc_of h) lo hi q v ↔
    1 ≤ v ≤ last_of h - zero_of h ∧ lo ≤ zero_of h + v ≤ hi ∧ P !! Z.to_nat (zero_of h + v - 1) = Some q) as Hs.
  { intros v. unfold sought, loc_of; cbn [iZero]. split.
    - intros (H1 & H2 & H3). assert (v ≤ last_of h - zero_of h) as Hv.
      { apply lookup_lt_Some in H3. pose proof (segment_length h P ltac:(lia) ltac:(lia)). lia. }
      rewrite segment_lookup in H3 by lia. split_and!; done || lia.
    - intros (H1 & H2 & H3). rewrite segment_lookup by lia. split_and!; done || lia. }
  destruct Hr as [[-> Hr]|(v & -> & (Hv1 & Hv2 & Hv3)%Hs & Hr)]; [left|right]; cbn [iZero loc_of]; split; [done| |split_and!; done || lia|].
  - intros f (H1 & H2 & H3). apply (Hr (f - zero_of h)), Hs.
    replace (zero_of h + (f - zero_of h)) with f by lia. split_and!; done || lia.
  - intros f (H1 & H2 & H3). assert (f - zero_of h ≤ v); [|lia]. apply Hr, Hs.
    replace (zero_of h + (f - zero_of h)) with f by lia. split_and!; done || lia.
Qed.

Lemma find_tables_spec n : ∀ h, n = Z.to_nat (h - walFramePage lo + 1) →
  walFramePage lo - 1 ≤ h ≤ 524288 → 0 ≤ walFramePage lo → last_of (walFramePage lo - 1) < Z.max 1 lo →
  (h = walFramePage lo - 1 ∨ zero_of h < hi) →
  (∀ f, last_of h < f → lo ≤ f ≤ hi → P !! Z.to_nat (f - 1) ≠ Some q) →
  ∃ r, find_tables n w hi q h 0 = Some (SQLITE_OK, r, w) ∧ last_frame P q lo hi r.
Proof.
  induction n as [|n IH]; intros h Hn Hh Hmp Hlow Hz Hno; cbn [find_tables].
  - exists 0. split; [done|]. left. split; [done|]. intros f Hf Hr. apply Hno; [|done].
    replace h with (walFramePage lo - 1) by lia. lia.
  - assert (0 ≤ h ∧ zero_of h < hi) as [Hh0 Hzh] by lia.
    destruct (i_table _ _ Hi h Hh0 ltac:(lia)) as (p & Hp & Ht).
    rewrite (walHashGet_mapped w h p) by (lia || done). rewrite Hp. cbn [SQLITE_OK Z.eqb negb].
    destruct (find_page h p) as (r & -> & Hr); [lia|done..|]. cbn zeta in Hr. pose proof (zero_of_pos h).
    destruct Hr as [[-> Hr]|[(H1 & H2 & H3) Hr]]; cbn [Z.eqb negb].
    + apply IH; try lia.
      * right. unfold zero_of, last_of in *. lia.
      * intros f Hf Hr' Hq. destruct (decide (last_of h < f)); [by apply (Hno f)|].
        apply (Hr f). split_and!; done || (unfold zero_of; lia).
    + rewrite (proj2 (Z.eqb_neq r 0)) by lia. exists r. split; [done|]. right. split_and!; try done; try lia.
      intros f Hf Hq. destruct (decide (last_of h < f)); [by apply (Hno f); [..|lia|]|].
      assert (f ≤ r); [|lia]. apply Hr. split_and!; done || lia.
Qed.
End Search.

Lemma find_frame w P q : index w P → 0 ≤ mxFrame (hdr w) ≤ Z.of_nat (length P) → 0 ≤ minFrame w ≤ mxFrame (hdr w) + 1 →
  readLock w ≠ 0 ∨ bShmUnreliable w ≠ 0 →
  ∃ r, sqlite3WalFindFrame w q = Some (SQLITE_OK, r, w) ∧ last_frame P q (minFrame w) (mxFrame (hdr w)) r.
Proof.
  intros Hi Hmx Hmin Hlock. pose proof (i_frames _ _ Hi) as Hmax. unfold sqlite3WalFindFrame, walFindFrame.
  destruct (Z.eqb_spec (mxFrame (hdr w)) 0) as [E|Hne]; cbn [orb].
  { exists 0. split; [done|]. left. split; [done|]. intros f Hf. lia. }
  assert ((readLock w =? 0) && (bShmUnreliable w =? 0) = false) as -> by lia.
  destruct (walFramePage_range (mxFrame (hdr w))) as [Hr1 Hr2]; [unfold MAX_FRAMES in *; lia|].
  assert (0 ≤ walFramePage (minFrame w) ≤ walFramePage (mxFrame (hdr w)) + 1 ∧
    last_of (walFramePage (minFrame w) - 1) < Z.max 1 (minFrame w)) as (H1 & H2).
  { rewrite !walFramePage_spec by (unfold MAX_FRAMES in *; lia). unfold last_of. dm. }
  apply (find_tables_spec w P q); try done; lia.
Qed.

(** ** Adding frames *)

Lemma same_refl w : same w w.
Proof. by repeat split. Qed.

Lemma same_trans w1 w2 w3 : same w1 w2 → same w2 w3 → same w1 w3.
Proof. unfold same. intros H1 H2. destruct_and! H1. destruct_and! H2. split_and!; congruence || by eapply steady_trans. Qed.

Lemma index_more w w' P : index w P → Forall (λ a, ∀ p, shm_page a = Some p → shape p) (answers w') →
  (∀ h p, get_page w' h = Some p → shape p) → (∀ h p, get_page w h = Some p → get_page w' h = Some p) → index w' P.
Proof.
  intros [H1 H2 H3 H4 H5] Ha Hs Hg. split; try done.
  intros h Hh Hz. destruct (H5 h Hh Hz) as (p & Hp & Ht). eauto.
Qed.

(** A page put where there was none. *)
Lemma index_map w P h x a w' : index w P → 0 ≤ h → get_page w h = None → (∀ p, x = Some p → shape p) →
  Forall (λ a, ∀ p, shm_page a = Some p → shape p) (answers w') →
  apWiData w' = a → wr (apWiData w ++ replicate (Z.to_nat (h + 1 - Z.of_nat (length (apWiData w)))) None) h x = Some a →
  index w' P ∧ get_page w' h = x.
Proof.
  intros Hi Hh Hnone Hx Ha Ea Hwr.
  assert (∀ h', h' ≠ h → ∀ p, get_page w' h' = Some p ↔ get_page w h' = Some p) as Hg.
  { intros h' Hne p. rewrite !get_page_rd, Ea, (rd_wr_ne _ _ _ _ _ Hwr) by done.
    destruct (decide (h' < Z.of_nat (length (apWiData w)))); [by rewrite rd_app_l|]. split.
    - intros [Hr1 Hr2]%rd_Some. rewrite lookup_app_r in Hr2 by lia. by apply lookup_replicate_1 in Hr2 as [? _].
    - intros ?%rd_lt. lia. }
  assert (get_page w' h = x) as Hgx.
  { unfold get_page. by rewrite Ea, (rd_wr_eq _ _ _ _ Hwr). }
  split; [|done]. apply (index_more w); try done.
  - intros h' p Hp. destruct (decide (h' = h)) as [->|Hne]; [rewrite Hgx in Hp; by apply Hx|].
    apply Hg in Hp; [|done]. by apply (i_shape _ _ Hi h').
  - intros h' p Hp. apply Hg; [|done]. congruence.
Qed.

Lemma zero_page_shape : shape zero_page.
Proof. split; apply length_replicate. Qed.

Lemma grow_array {A} (l : list (option A)) h : 0 ≤ h →
  (if Z.of_nat (length l) <=? h then l ++ replicate (Z.to_nat (h + 1 - Z.of_nat (length l))) None else l) =
  l ++ replicate (Z.to_nat (h + 1 - Z.of_nat (length l))) None.
Proof.
  intros Hh. destruct (Z.leb_spec (Z.of_nat (length l)) h); [done|].
  replace (Z.to_nat _) with O by lia. by rewrite app_nil_r.
Qed.

(** What mapping a page does to the pages. *)
Definition mapped_page (w : Wal) (P : list Z) (h : Z) (r : option (Z * bool * Wal)) : Prop :=
  ∃ rc b w', r = Some (rc, b, w') ∧ same w w' ∧ index w' P ∧ (b = true → ∃ p, get_page w' h = Some p).

Lemma steady_answers w w' : answers w' = answers w ∨ (∃ a, answers w = a :: answers w') ∨ answers w' = [] →
  (readLock w', bShmUnreliable w', writeLock w', ckptLock w', held_shared w', others w') =
    (readLock w, bShmUnreliable w, writeLock w, ckptLock w, held_shared w, others w) → steady w w'.
Proof.
  intros Ha E. split; [done|]. intros x. destruct Ha as [->|[[a ->]| ->]]; [done|by right|]. intros Hx. by apply elem_of_nil in Hx.
Qed.

Lemma mapped_shape a b : (∀ p, shm_page a = Some p → shape p) → ∀ p, mapped a b = Some p → shape p.
Proof.
  intros Ha p. unfold mapped. destruct (shm_page a) as [q|]; [by intros [= <-]; apply Ha|].
  destruct (_ && _); [intros [= <-]; apply zero_page_shape|done].
Qed.

Lemma walIndexPageRealloc_spec w P h : index w P → 0 ≤ h → get_page w h = None →
  mapped_page w P h (walIndexPageRealloc w h).
Proof.
  intros Hi Hh Hnone. unfold walIndexPageRealloc.
  set (ar := match answers w with [] => _ | a :: rest => _ end).
  assert (Forall (λ a, ∀ p, shm_page a = Some p → shape p) ar.2 ∧ (∀ p, shm_page ar.1 = Some p → shape p) ∧
    (answers w = ar.1 :: ar.2 ∨ ar.2 = [])) as (Hrest & Ha & Hans).
  { unfold ar. pose proof (i_answers _ _ Hi) as H. destruct (answers w) as [|a rest]; [split; [done|]; split; [done|by right]|].
    apply Forall_cons in H as [??]. split; [done|]. split; [done|by left]. }
  destruct ar as [a rest]. cbn [fst snd] in *. cbn [apWiData set_answers].
  assert (∀ w', answers w' = rest → (readLock w', bShmUnreliable w', writeLock w', ckptLock w', held_shared w', others w') =
    (readLock w, bShmUnreliable w, writeLock w, ckptLock w, held_shared w, others w) → steady w w') as Hst.
  { intros w' E. apply steady_answers. destruct Hans as [->| ->]; [right; left; exists a; by rewrite E|by right; right]. }
  destruct ((Z.of_nat (length (apWiData w)) <=? h) && negb (grown a)) eqn:E.
  { exists SQLITE_NOMEM, false, (set_answers w rest). split; [done|]. split; [by split_and!; try done; apply Hst|].
    split; [|done]. apply (index_more w); try done. apply (i_shape _ _ Hi). }
  rewrite grow_array by done. cbn [exclusiveMode set_answers].
  set (l := apWiData w ++ _). assert (0 ≤ h < Z.of_nat (length l)) as Hl.
  { unfold l. rewrite length_app, length_replicate. lia. }
  destruct (exclusiveMode w =? WAL_HEAPMEMORY_MODE).
  - set (x := match shm_page a with Some _ => Some zero_page | None => None end).
    rewrite wr_Some by done. eexists _, _, _. split; [done|]. split; [by split_and!; try done; apply Hst|].
    destruct (index_map w P h x (<[Z.to_nat h:=x]> l) (set_apWiData (set_answers w rest) (<[Z.to_nat h:=x]> l)))
      as [Hi' Hg]; try done.
    + unfold x. intros p. destruct (shm_page a); [intros [= <-]; apply zero_page_shape|done].
    + by apply wr_Some.
    + split; [done|]. rewrite Hg. destruct x; [eauto|done].
  - set (x := mapped a _). rewrite wr_Some by done. set (w1 := set_apWiData _ _).
    set (rw := if negb _ && _ then _ else _).
    assert (∃ rc w2, rw = (rc, w2) ∧ same w w2 ∧ apWiData w2 = <[Z.to_nat h:=x]> l ∧ answers w2 = rest)
      as (rc & w2 & -> & Hsame & Hw2 & Hr2).
    { unfold rw. case_match; eexists _, _; (split; [done|]); (split; [by split_and!; try done; apply Hst|done]). }
    exists rc, (not_null x), w2. split; [done|]. split; [done|].
    destruct (index_map w P h x (<[Z.to_nat h:=x]> l) w2) as [Hi' Hg]; try done.
    + intros p. by apply mapped_shape.
    + by rewrite Hr2.
    + by apply wr_Some.
    + split; [done|]. rewrite Hg. destruct x; [eauto|done].
Qed.

Lemma walHashGet_spec w P h : index w P → 0 ≤ h ≤ 524288 →
  ∃ rc w', walHashGet w h = Some (rc, loc_of h, w') ∧ same w w' ∧ index w' P ∧
    (rc = SQLITE_OK → ∃ p, get_page w' h = Some p).
Proof.
  intros Hi Hh. destruct (get_page w h) as [p|] eqn:Hp.
  { exists SQLITE_OK, w. rewrite (walHashGet_mapped w h p) by done. split_and!; eauto using same_refl. }
  destruct (walIndexPageRealloc_spec w P h) as (rc & b & w' & E & Hs & Hi' & Hb); [done|lia|done|].
  unfold walHashGet, walIndexPage.
  assert ((if Z.of_nat (length (apWiData w)) <=? h then walIndexPageRealloc w h
    else let* p := rd (apWiData w) h in match p with Some _ => Some (SQLITE_OK, true, w) | None => walIndexPageRealloc w h end)
    = Some (rc, b, w')) as ->.
  { destruct (Z.leb_spec (Z.of_nat (length (apWiData w))) h); [done|].
    destruct (rd_is_Some (apWiData w) h) as [p Ep]; [lia|]. rewrite Ep. destruct p; [|done].
    exfalso. unfold get_page in Hp. by rewrite Ep in Hp. }
  assert ((if h =? 0 then mk_loc h (WALINDEX_HDR_SIZE / 4) 0
    else mk_loc h 0 (u32 (HASHTABLE_NPAGE_ONE + (h - 1) * HASHTABLE_NPAGE))) = loc_of h) as ->.
  { unfold loc_of, first_off, zero_of, last_of.
    destruct (Z.eqb_spec h 0) as [->|]; [done|]. change HASHTABLE_NPAGE_ONE with 4062. change HASHTABLE_NPAGE with 4096.
    rewrite u32_id by width. f_equal. lia. }
  eexists _, w'. split; [reflexivity|].
  split_and!; try done. destruct b; [by auto|]. destruct (Z.eqb_spec rc SQLITE_OK) as [->|]; [done|]. done.
Qed.

(** Only pages change. *)
Definition touched (w w' : Wal) : Prop := ∃ a, w' = set_apWiData w a.

Lemma touched_refl w : touched w w.
Proof. exists (apWiData w). by destruct w. Qed.

Lemma touched_trans w1 w2 w3 : touched w1 w2 → touched w2 w3 → touched w1 w3.
Proof. intros [a ->] [b ->]. by exists b. Qed.

Lemma touched_same w w' : touched w w' → same w w'.
Proof. intros [a ->]. by repeat split. Qed.

Lemma set_page_spec w h p p' : get_page w h = Some p →
  ∃ w', set_page w h p' = Some w' ∧ touched w w' ∧ answers w' = answers w ∧ get_page w' h = Some p' ∧
    ∀ h', h' ≠ h → get_page w' h' = get_page w h'.
Proof.
  intros Hp%get_page_rd. unfold set_page. pose proof (rd_lt _ _ _ Hp) as Hl.
  destruct (wr (apWiData w) h (Some p')) as [a|] eqn:E; [|by rewrite wr_Some in E].
  eexists. split; [done|]. split; [by eexists|]. split; [done|]. unfold get_page. cbn [apWiData set_apWiData]. split.
  - by rewrite (rd_wr_eq _ _ _ _ E).
  - intros h' Hne. by rewrite (rd_wr_ne _ _ _ _ _ E).
Qed.

Lemma segment_same h h' P S : 0 ≤ h' < h → zero_of h ≤ Z.of_nat (length P) →
  segment h' (take (Z.to_nat (zero_of h)) P ++ S) = segment h' P.
Proof.
  intros Hh Hl. unfold segment. pose proof (zero_of_pos h'). pose proof (zero_of_next h' ltac:(lia)).
  assert (last_of h' ≤ zero_of h) by (apply last_of_le; lia).
  assert (first_off h' ≤ 4096) by (unfold first_off; case_match; lia).
  rewrite drop_app_le by (rewrite length_take; lia).
  rewrite take_app_le by (rewrite length_drop, length_take; lia).
  rewrite !take_drop_commute, take_take. do 2 f_equal. lia.
Qed.

(** A page of the index becomes its last one. *)
Lemma index_page w P h S p p' w' : index w P → 0 ≤ h → zero_of h ≤ Z.of_nat (length P) →
  Z.of_nat (length S) ≤ last_of h - zero_of h → zero_of h + Z.of_nat (length S) < MAX_FRAMES →
  Forall (λ q, 0 < q) S → get_page w h = Some p → table (first_off h) p' S → set_page w h p' = Some w' →
  index w' (take (Z.to_nat (zero_of h)) P ++ S).
Proof.
  intros Hi Hh Hl HS Hmax HSp Hp Ht Hw. pose proof (zero_of_pos h).
  destruct (set_page_spec w h p p' Hp) as (w1 & E & _ & Ha & Hg & Hg'). rewrite Hw in E. injection E as <-.
  split.
  - rewrite length_app, length_take. lia.
  - apply Forall_app. split; [|done]. apply Forall_take, (i_pgno _ _ Hi).
  - intros h' p2 Hp2. destruct (decide (h' = h)) as [->|Hne].
    + rewrite Hg in Hp2. injection Hp2 as <-. split; [apply (t_words _ _ _ Ht)|apply (t_slots _ _ _ Ht)].
    + rewrite Hg' in Hp2 by done. by apply (i_shape _ _ Hi h').
  - rewrite Ha. apply (i_answers _ _ Hi).
  - intros h' Hh' Hz. rewrite length_app, length_take in Hz.
    assert (h' ≤ h) as Hle.
    { destruct (decide (h' ≤ h)); [done|]. assert (last_of h ≤ zero_of h') by (apply last_of_le; lia). lia. }
    destruct (decide (h' = h)) as [->|Hne].
    + exists p'. split; [done|]. unfold segment. rewrite drop_app_length' by (rewrite length_take; lia).
      by rewrite take_ge by lia.
    + assert (last_of h' ≤ zero_of h) by (apply last_of_le; lia). pose proof (zero_of_next h' Hh').
      assert (first_off h' < 4096) by (unfold first_off; case_match; lia).
      destruct (i_table _ _ Hi h' Hh') as (p2 & Hp2 & Ht2); [lia|]. exists p2. rewrite Hg' by done. split; [done|].
      by rewrite segment_same by lia.
Qed.

Lemma segment_pos h P : Forall (λ q, 0 < q) P → Forall (λ q, 0 < q) (segment h P).
Proof. intros H. by apply Forall_take, Forall_drop. Qed.

Lemma index_nil w P : index w P → index w [].
Proof.
  intros [H1 H2 H3 H4 H5]. split; try done. intros h Hh Hz. pose proof (zero_of_pos h). cbn in Hz. lia.
Qed.

(** [walCleanupHash] leaves the frames up to [mxFrame]. *)
Lemma walCleanupHash_spec w P : index w P → 0 ≤ mxFrame (hdr w) ≤ Z.of_nat (length P) →
  ∃ w', walCleanupHash w = Some w' ∧ touched w w' ∧ index w' (take (Z.to_nat (mxFrame (hdr w))) P) ∧
    (∀ h p, get_page w h = Some p → ∃ p', get_page w' h = Some p').
Proof.
  intros Hi Hmx. unfold walCleanupHash. set (mx := mxFrame (hdr w)) in *.
  destruct (Z.eqb_spec mx 0) as [E|Hne].
  { exists w. split_and!; [done|apply touched_refl|rewrite E; by apply (index_nil w P)|eauto]. }
  pose proof (i_frames _ _ Hi) as Hmax.
  destruct (walFramePage_range mx) as [Hr Hz]; [lia|]. set (h := walFramePage mx) in *.
  destruct (i_table _ _ Hi h ltac:(lia) ltac:(lia)) as (p & Hp & Ht).
  rewrite (walHashGet_mapped w h p) by done. cbn [SQLITE_OK Z.eqb negb]. fold mx. cbn [loc_of iZero iHash off].
  pose proof (zero_of_pos h). pose proof (zero_of_next h ltac:(lia)). unfold MAX_FRAMES in Hmax.
  rewrite i32_id by (unfold is_i32; lia). rewrite Hp.
  pose proof (segment_length h P ltac:(lia) ltac:(lia)) as Hseg. pose proof (t_off _ _ _ Ht) as Hoff.
  destruct (zero_words (words p) (first_off h + (mx - zero_of h))) as [wd|] eqn:Ew.
  2: { unfold zero_words in Ew. rewrite decide_True in Ew; [done|]. rewrite (t_words _ _ _ Ht). unfold HASHTABLE_NPAGE. lia. }
  destruct (set_page_spec w h p (mk_page wd (map (λ v, if mx - zero_of h <? v then 0 else v) (slots p))) Hp)
    as (w' & Es & Hsame & _ & Hg & Hg'). rewrite Es.
  exists w'. split; [done|]. split; [done|]. split.
  - replace (take (Z.to_nat mx) P) with
      (take (Z.to_nat (zero_of h)) P ++ take (Z.to_nat (mx - zero_of h)) (segment h P)).
    2: { unfold segment. rewrite take_take, take_take_drop. f_equal. lia. }
    assert (Z.of_nat (length (take (Z.to_nat (mx - zero_of h)) (segment h P))) = mx - zero_of h) as HS.
    { rewrite length_take. lia. }
    eapply (index_page w P h _ p); [done|lia|lia|lia|unfold MAX_FRAMES; lia| |exact Hp| |exact Es].
    + apply Forall_take, segment_pos, (i_pgno _ _ Hi).
    + apply (table_take (first_off h) p (segment h P)); [done|lia|done].
  - intros h' p2 Hp2. destruct (decide (h' = h)) as [->|]; [eauto|]. rewrite Hg' by done. eauto.
Qed.

(** The last steps of [walIndexAppend]: the first free slot, and the entry. *)
Lemma append_entry w P h S p q : index w P → 0 ≤ h → zero_of h ≤ Z.of_nat (length P) →
  Z.of_nat (length S) < last_of h - zero_of h → zero_of h + Z.of_nat (length S) + 1 < MAX_FRAMES →
  Forall (λ q, 0 < q) S → 0 < q → get_page w h = Some p → table (first_off h) p S →
  let idx := Z.of_nat (length S) + 1 in
  ∃ w', (let* k := free_key (Datatypes.S (Datatypes.S (Z.to_nat idx))) (slots p) (walHash q) idx in
         match k with
         | None => Some (SQLITE_CORRUPT, w)
         | Some iKey =>
             let* wd := wr (words p) (first_off h + idx - 1) q in
             let* s := wr (slots p) iKey (u16 idx) in
             let* w := set_page w h (mk_page wd s) in
             Some (SQLITE_OK, w)
         end) = Some (SQLITE_OK, w') ∧ touched w w' ∧ index w' (take (Z.to_nat (zero_of h)) P ++ S ++ [q]).
Proof.
  intros Hi Hh Hl HS Hmax HSp Hq Hp Ht idx. pose proof (zero_of_next h Hh) as Hzn. pose proof (t_off _ _ _ Ht) as Hoff.
  destruct (first_free _ _ _ Ht (walHash q)) as (d & Hd & H0 & Hrun); [lia|].
  pose proof (free_key_spec _ _ _ Ht (Datatypes.S (Datatypes.S (Z.to_nat idx))) (walHash q) d idx) as Hfree.
  rewrite (Z.mod_small (walHash q)) in Hfree by apply walHash_range. rewrite Hfree by (done || lia). clear Hfree.
  replace (first_off h + idx - 1) with (first_off h + Z.of_nat (length S)) by lia.
  destruct (wr (words p) (first_off h + Z.of_nat (length S)) q) as [wd|] eqn:Ew.
  2: { rewrite wr_Some in Ew; [done|]. rewrite (t_words _ _ _ Ht). unfold HASHTABLE_NPAGE. lia. }
  assert (u16 idx = idx) as -> by (unfold u16; apply Z.mod_small; lia).
  set (k := (walHash q + d) `mod` 8192). assert (0 ≤ k < 8192) by (unfold k; dm).
  destruct (wr (slots p) k idx) as [sl|] eqn:Es.
  2: { rewrite wr_Some in Es; [done|]. rewrite (t_slots _ _ _ Ht). unfold HASHTABLE_NSLOT. lia. }
  destruct (set_page_spec w h p (mk_page wd sl) Hp) as (w' & E & Hsame & _). rewrite E.
  exists w'. split; [done|]. split; [done|].
  eapply (index_page w P h _ p); [done|done|done|rewrite length_app; cbn; lia|rewrite length_app; cbn; lia| |exact Hp| |exact E].
  - apply Forall_app. split; [done|]. by apply Forall_singleton.
  - eapply (table_insert _ _ _ Ht); [lia| |exact Ew|exact Es]. exists d. split_and!; try done; lia.
Qed.

Lemma take_segment h P f : 0 ≤ h → zero_of h ≤ Z.of_nat (length P) → Z.of_nat (length P) ≤ last_of h →
  f = length P → take (Z.to_nat (zero_of h)) P ++ segment h P = take f P.
Proof.
  intros Hh Hz Hl ->. unfold segment. rewrite take_ge with (n := Z.to_nat (last_of h - zero_of h)) by (rewrite length_drop; lia).
  by rewrite take_drop, take_ge by lia.
Qed.

(** Its first steps: the page is zeroed for its first frame, and cleaned of
    the frames of a writer that died. *)
Lemma append_prepare w P h iFrame p : index w P → 1 ≤ iFrame < MAX_FRAMES → 0 ≤ h ≤ 524288 → zero_of h < iFrame ≤ last_of h →
  iFrame - 1 = Z.of_nat (length P) ∨ iFrame - 1 = mxFrame (hdr w) ∧ iFrame - 1 ≤ Z.of_nat (length P) →
  get_page w h = Some p → let idx := iFrame - zero_of h in
  ∃ wa pa x wb pb P2 S,
    (if idx =? 1 then
       let* p := get_page w h in let* wd := zero_words (words p) (first_off h) in
       set_page w h (mk_page wd (map (λ _, 0) (slots p)))
     else Some w) = Some wa ∧
    get_page wa h = Some pa ∧ rd (words pa) (first_off h + idx - 1) = Some x ∧
    (if negb (x =? 0) then walCleanupHash wa else Some wa) = Some wb ∧
    get_page wb h = Some pb ∧ table (first_off h) pb S ∧ touched w wb ∧ index wb P2 ∧ zero_of h ≤ Z.of_nat (length P2) ∧
    Z.of_nat (length S) = idx - 1 ∧ take (Z.to_nat (zero_of h)) P2 ++ S = take (Z.to_nat (iFrame - 1)) P ∧ Forall (λ q, 0 < q) S.
Proof.
  intros Hi Hf Hr Hz Hcase Hp idx. assert (idx = iFrame - zero_of h) as Hidx by done. clearbody idx. pose proof (zero_of_pos h). pose proof (zero_of_next h ltac:(lia)) as Hzn.
  assert (first_off h < 4096 ∧ 0 ≤ first_off h) as Ho by (unfold first_off; case_match; lia).
  destruct (i_shape _ _ Hi h p Hp) as [Hlw Hls].
  destruct (Z.eqb_spec idx 1) as [E1|Hne].
  - rewrite Hp. destruct (zero_words (words p) (first_off h)) as [wd|] eqn:Ew.
    2: { unfold zero_words in Ew. rewrite decide_True in Ew; [done|]. rewrite Hlw. unfold HASHTABLE_NPAGE. lia. }
    set (pz := mk_page wd (map (λ _, 0) (slots p))).
    assert (table (first_off h) pz []) as Ht by (apply table_zero; done || lia).
    destruct (set_page_spec w h p pz Hp) as (wa & E & Hs & _ & Hg & _).
    exists wa, pz, 0, wa, pz, (take (Z.to_nat (zero_of h)) P), []. rewrite E, E1. cbn [Z.eqb negb]. split_and!; try done.
    + replace (first_off h + 1 - 1) with (first_off h + 0) by lia. by rewrite (t_pgno _ _ _ Ht) by lia.
    + rewrite <- (app_nil_r (take _ P)). eapply (index_page w P h [] p); [done|lia|lia|cbn; lia|cbn; lia|done|exact Hp|exact Ht|exact E].
    + rewrite length_take. lia.
    + rewrite app_nil_r, take_take. f_equal. lia.
  - destruct (i_table _ _ Hi h ltac:(lia)) as (p' & Hp' & Ht); [lia|]. rewrite Hp in Hp'. injection Hp' as <-.
    pose proof (segment_length h P ltac:(lia) ltac:(lia)) as Hseg.
    assert (rd (words p) (first_off h + idx - 1) = Some (default 0 (P !! Z.to_nat (iFrame - 1)))) as Hx.
    { replace (first_off h + idx - 1) with (first_off h + (idx - 1)) by lia. rewrite (t_pgno _ _ _ Ht) by lia.
      rewrite segment_lookup by lia. do 4 f_equal. lia. }
    destruct (decide (iFrame - 1 = Z.of_nat (length P))) as [El|Hnl].
    + rewrite lookup_ge_None_2 in Hx by lia. exists w, p, 0, w, p, P, (segment h P). split_and!; try done; try lia.
      * apply touched_refl.
      * apply take_segment; lia.
      * apply segment_pos, (i_pgno _ _ Hi).
    + destruct Hcase as [|[Hmx Hle]]; [done|].
      destruct (lookup_lt_is_Some_2 P (Z.to_nat (iFrame - 1))) as [x0 Hx0]; [lia|]. rewrite Hx0 in Hx.
      assert (0 < x0) as Hpos by (eapply Forall_lookup_1 in Hx0; [exact Hx0|apply (i_pgno _ _ Hi)]).
      destruct (walCleanupHash_spec w P Hi ltac:(lia)) as (wb & Eb & Hsb & Hib & Hgb).
      destruct (Hgb h p Hp) as (pb & Hpb).
      destruct (i_table _ _ Hib h ltac:(lia)) as (p'' & Hp'' & Ht2); [rewrite length_take; lia|].
      rewrite <- Hmx in *. exists w, p, x0, wb, p'', (take (Z.to_nat (iFrame - 1)) P), (segment h (take (Z.to_nat (iFrame - 1)) P)).
      cbn [default] in Hx. change (default 0 (Some x0)) with x0 in Hx.
      pose proof (segment_length h (take (Z.to_nat (iFrame - 1)) P)) as Hs2. rewrite length_take in Hs2.
      split_and!; try done; rewrite ?length_take; try lia.
      * by rewrite (proj2 (Z.eqb_neq x0 0)) by lia.
      * rewrite (take_segment h _ (length (take (Z.to_nat (iFrame - 1)) P))); rewrite ?length_take; try lia.
        rewrite take_take. f_equal. lia.
      * apply segment_pos, Forall_take, (i_pgno _ _ Hi).
Qed.

(** Why a page of the index cannot be had: it is not mapped yet, and the
    allocator or [xShmMap] refuses.  A list of answers that is over refuses. *)
Definition refused (w : Wal) (iPage : Z) : Prop :=
  get_page w iPage = None ∧
  match answers w with
  | [] => True
  | a :: _ =>
      Z.of_nat (length (apWiData w)) ≤ iPage ∧ grown a = false ∨
      (if exclusiveMode w =? WAL_HEAPMEMORY_MODE then shm_page a = None
       else shm_rc a ≠ SQLITE_OK ∧ shm_rc a ≠ SQLITE_READONLY ∨ mapped a (writeLock w) = None)
  end.

Lemma realloc_refused w h rc b w' : get_page w h = None → walIndexPageRealloc w h = Some (rc, b, w') →
  rc ≠ SQLITE_OK ∨ b = false → refused w h.
Proof.
  intros Hp E Hrc. split; [done|]. unfold walIndexPageRealloc in E. destruct (answers w) as [|a rest]; [done|].
  cbn [apWiData set_answers exclusiveMode writeLock] in E.
  destruct (Z.leb_spec (Z.of_nat (length (apWiData w))) h) as [Hl|Hl]; cbn [andb] in E.
  - destruct (grown a) eqn:Eg; [right|by left]. cbn [negb] in E. destruct (exclusiveMode w =? WAL_HEAPMEMORY_MODE).
    + destruct (wr _ _ _); [|done]. injection E as <- <- _. destruct (shm_page a); [|done]. cbn in Hrc. by destruct Hrc.
    + destruct (wr _ _ _); [|done]. destruct (mapped a (writeLock w)) as [p|]; [left|by right]. cbn [not_null] in E.
      destruct (Z.eqb_spec (shm_rc a) SQLITE_OK) as [E0|E0]; cbn [negb andb] in E; [injection E as <- <- _; destruct Hrc; congruence|].
      split; [done|]. intros E8. rewrite E8 in E. injection E as <- <- _. by destruct Hrc.
  - right. destruct (exclusiveMode w =? WAL_HEAPMEMORY_MODE).
    + destruct (wr _ _ _); [|done]. injection E as <- <- _. destruct (shm_page a); [|done]. cbn in Hrc. by destruct Hrc.
    + destruct (wr _ _ _); [|done]. destruct (mapped a (writeLock w)) as [p|]; [left|by right]. cbn [not_null] in E.
      destruct (Z.eqb_spec (shm_rc a) SQLITE_OK) as [E0|E0]; cbn [negb andb] in E; [injection E as <- <- _; destruct Hrc; congruence|].
      split; [done|]. intros E8. rewrite E8 in E. injection E as <- <- _. by destruct Hrc.
Qed.

Lemma hash_refused w h rc loc w' : walHashGet w h = Some (rc, loc, w') → rc ≠ SQLITE_OK → refused w h.
Proof.
  unfold walHashGet. destruct (walIndexPage w h) as [[[rc0 b] w1]|] eqn:E; [|done]. intros [= <- _ <-] Hrc.
  assert (rc0 ≠ SQLITE_OK ∨ b = false) as Hrc0 by (destruct b; auto).
  unfold walIndexPage in E. destruct (Z.leb_spec (Z.of_nat (length (apWiData w))) h) as [Hl|Hl].
  - apply (realloc_refused w h rc0 b w1); [|done|done]. unfold get_page, rd. case_decide; [|done]. by rewrite lookup_ge_None_2 by lia.
  - destruct (rd (apWiData w) h) as [[p|]|] eqn:Ep; [injection E as <- <- _; by destruct Hrc0| |done].
    apply (realloc_refused w h rc0 b w1); [|done|done]. unfold get_page. by rewrite Ep.
Qed.

(** [walIndexAppend] for the frame after the [iFrame - 1] first, the later of
    which are those of a writer that died and left them past [mxFrame]. *)
Lemma walIndexAppend_spec w P iFrame q : index w P → 1 ≤ iFrame < MAX_FRAMES → 0 < q →
  iFrame - 1 = Z.of_nat (length P) ∨ iFrame - 1 = mxFrame (hdr w) ∧ iFrame - 1 ≤ Z.of_nat (length P) →
  ∃ rc w', walIndexAppend w iFrame q = Some (rc, w') ∧ same w w' ∧
    (rc = SQLITE_OK ∧ index w' (take (Z.to_nat (iFrame - 1)) P ++ [q]) ∨
     rc ≠ SQLITE_OK ∧ index w' P ∧ refused w (walFramePage iFrame)) ∧
    (∀ p, get_page w (walFramePage iFrame) = Some p → rc = SQLITE_OK ∧ touched w w').
Proof.
  intros Hi Hf Hq Hcase. unfold walIndexAppend. destruct (walFramePage_range iFrame) as [Hr Hz]; [lia|].
  set (h := walFramePage iFrame) in *.
  assert (∃ rc w', walHashGet w h = Some (rc, loc_of h, w') ∧ same w w' ∧ index w' P ∧
    (rc = SQLITE_OK → ∃ p, get_page w' h = Some p) ∧ (∀ p, get_page w h = Some p → rc = SQLITE_OK ∧ w' = w)) as
    (rc & w1 & E0 & Hs1 & Hi1 & Hrc & Hmapped).
  { destruct (get_page w h) as [p|] eqn:Hp.
    - exists SQLITE_OK, w. rewrite (walHashGet_mapped w h p) by done. split_and!; eauto using same_refl.
    - destruct (walHashGet_spec w P h Hi Hr) as (rc & w1 & ?). exists rc, w1. naive_solver. }
  rewrite E0. destruct (Z.eqb_spec rc SQLITE_OK) as [->|Hne]; cbn [negb].
  2: { exists rc, w1. pose proof (hash_refused _ _ _ _ _ E0 Hne). split_and!; auto. intros p Hp. by destruct (Hmapped p Hp). }
  clear E0. destruct (Hrc eq_refl) as (p & Hp). clear Hrc. cbn [loc_of iZero iHash off].
  assert (mxFrame (hdr w1) = mxFrame (hdr w)) as Hmx by (destruct Hs1 as [-> _]; done). rewrite <- Hmx in Hcase.
  destruct (append_prepare w1 P h iFrame p Hi1 Hf Hr Hz Hcase Hp) as
    (wa & pa & x & wb & pb & P2 & S & Ea & Hpa & Hx & Eb & Hpb & Ht & Hsb & Hib & Hl & HS & Heq & HSp).
  pose proof (zero_of_pos h). pose proof (zero_of_next h ltac:(lia)). 
  rewrite i32_id by (unfold is_i32, MAX_FRAMES in *; lia). rewrite Ea, Hpa, Hx, Eb, Hpb.
  assert (iFrame - zero_of h = Z.of_nat (length S) + 1) as -> by lia.
  destruct (append_entry wb P2 h S pb q) as (w' & -> & Hs' & Hi'); try done; try lia.
  exists SQLITE_OK, w'. split; [done|]. split; [eauto using same_trans, touched_same|]. split.
  - left. split; [done|]. by rewrite (assoc_L (++)), Heq in Hi'.
  - intros p' Hp'. split; [done|]. destruct (Hmapped p' Hp') as [_ ->]. eauto using touched_trans.
Qed.

Lemma index_frames_spec qs : ∀ w P iFrame, index w P → 0 ≤ iFrame → iFrame + Z.of_nat (length qs) < MAX_FRAMES →
  Forall (λ q, 0 < q) qs →
  iFrame = Z.of_nat (length P) ∨ iFrame = mxFrame (hdr w) ∧ iFrame ≤ Z.of_nat (length P) →
  ∃ rc f w' P', index_frames w iFrame qs = Some (rc, f, w') ∧ same w w' ∧ index w' P' ∧
    (rc = SQLITE_OK ∧ f = iFrame + Z.of_nat (length qs) ∧
       (P' = take (Z.to_nat iFrame) P ++ qs ∨ qs = [] ∧ P' = P) ∨
     rc ≠ SQLITE_OK ∧ iFrame ≤ Z.of_nat (length P') ∧ take (Z.to_nat iFrame) P' = take (Z.to_nat iFrame) P ∧
       ∃ k v, (k < length qs)%nat ∧ f = iFrame + Z.of_nat k + 1 ∧
         index_frames w iFrame (take k qs) = Some (SQLITE_OK, iFrame + Z.of_nat k, v) ∧ refused v (walFramePage f) ∧
         take (Z.to_nat (iFrame + Z.of_nat k)) P' = take (Z.to_nat iFrame) P ++ take k qs).
Proof.
  induction qs as [|q qs IH]; intros w P iFrame Hi H0 Hmax Hq Hcase; cbn [index_frames length] in *.
  { exists SQLITE_OK, iFrame, w, P. split_and!; auto using same_refl. left. split_and!; auto. lia. }
  apply Forall_cons in Hq as [Hq Hqs]. unfold MAX_FRAMES in *.
  rewrite u32_id by width.
  destruct (walIndexAppend_spec w P (iFrame + 1) q) as (rc & w1 & E1 & Hs1 & H & _); [done|unfold MAX_FRAMES; lia|done|lia|]. rewrite E1.
  replace (iFrame + 1 - 1) with iFrame in H by lia.
  destruct H as [[-> Hi1]|(Hne & Hi1 & Href)].
  - cbn [Z.eqb SQLITE_OK]. destruct (IH w1 _ (iFrame + 1) Hi1) as (rc & f & w' & P' & E & Hs & Hi' & H); [lia|lia|done| |].
    { left. rewrite length_app, length_take. cbn. lia. }
    exists rc, f, w', P'. split; [exact E|]. split; [eauto using same_trans|]. split; [done|].
    assert (take (Z.to_nat (iFrame + 1)) (take (Z.to_nat iFrame) P ++ [q]) = take (Z.to_nat iFrame) P ++ [q]) as Et.
    { apply take_ge. rewrite length_app, length_take. cbn. lia. }
    rewrite Et in H. destruct H as [(-> & -> & H)|(Hne & Hl & Ht & k & v & Hk & -> & Ek & Href & Htk)]; [left|right]; (split; [done|]).
    + split; [lia|]. left. destruct H as [->|[-> ->]]; by rewrite <- ?(assoc_L (++)).
    + split; [lia|]. apply (f_equal (take (Z.to_nat iFrame))) in Ht.
      rewrite take_take, Nat.min_l in Ht by lia. rewrite Ht, take_app_le, take_take by (rewrite length_take; lia).
      split; [f_equal; lia|]. exists (S k), v. split; [lia|]. split; [lia|]. cbn [take index_frames].
      replace (iFrame + Z.of_nat (S k)) with (iFrame + 1 + Z.of_nat k) by lia. rewrite u32_id, E1 by width. cbn [Z.eqb SQLITE_OK].
      split; [exact Ek|]. split; [done|]. by rewrite Htk, <- (assoc_L (++)).
  - rewrite (proj2 (Z.eqb_neq rc _)) by done. exists rc, (iFrame + 1), w1, P. split_and!; try done. right. split_and!; try (done || lia).
    exists O, w. cbn [take index_frames]. rewrite Z.add_0_r, app_nil_r. split_and!; done || lia.
Qed.

Lemma appended_take f P (qs P' : list Z) : 0 ≤ f ≤ Z.of_nat (length P) → P' = take (Z.to_nat f) P ++ qs ∨ qs = [] ∧ P' = P →
  take (Z.to_nat (f + Z.of_nat (length qs))) P' = take (Z.to_nat f) P ++ qs.
Proof.
  intros Hf [->|[-> ->]]; [|by rewrite app_nil_r, Z.add_0_r]. apply take_ge. rewrite length_app, length_take. lia.
Qed.

Lemma last_frame_unique P q lo hi r r' : 0 ≤ lo → last_frame P q lo hi r → last_frame P q lo hi r' → r = r'.
Proof.
  intros Hlo [[-> H]|(H1 & H2 & H3 & H4)] [[-> H']|(H1' & H2' & H3' & H4')]; try done.
  - exfalso. by apply (H r').
  - exfalso. by apply (H' r).
  - destruct (decide (r < r')); [exfalso; by apply (H4 r'); [lia|]|].
    destruct (decide (r' < r)); [exfalso; by apply (H4' r); [lia|]|]. lia.
Qed.

Lemma last_frame_take P P' q lo hi r : take (Z.to_nat hi) P = take (Z.to_nat hi) P' → last_frame P q lo hi r → last_frame P' q lo hi r.
Proof.
  intros E H. assert (∀ f, 1 ≤ f ≤ hi → P' !! Z.to_nat (f - 1) = P !! Z.to_nat (f - 1)) as Hl.
  { intros f Hf. by rewrite <- (lookup_take_lt P' (Z.to_nat hi)), <- E, lookup_take_lt by lia. }
  destruct H as [[-> H]|(H1 & H2 & H3 & H4)]; [left|right].
  - split; [done|]. intros f Hf Hr. rewrite Hl by lia. by apply H.
  - split_and!; try done; try lia; [by rewrite Hl by lia|]. intros f Hf. rewrite Hl by lia. by apply H4.
Qed.

(** A connection on the pages of another. *)
Definition view (r w : Wal) : Wal := set_apWiData r (apWiData w).

Definition answers_ok (w : Wal) : Prop := Forall (λ a, ∀ p, shm_page a = Some p → shape p) (answers w).

Lemma index_view r w P : answers_ok r → index w P → index (view r w) P.
Proof. intros Ha [H1 H2 H3 H4 H5]. by split. Qed.

(** ** The index against the list of page numbers *)

(** C7: the search of the index, through its hash tables from the last to the
    first, finds the last frame of a page between the first and the last
    frame of the reader's snapshot, or 0, whatever frames come after them. *)
Theorem wal_find_frame w P pgno :
  index w P → 0 ≤ mxFrame (hdr w) ≤ Z.of_nat (length P) → 0 ≤ minFrame w ≤ mxFrame (hdr w) + 1 →
  readLock w ≠ 0 ∨ bShmUnreliable w ≠ 0 →
  ∃ iRead, sqlite3WalFindFrame w pgno = Some (SQLITE_OK, iRead, w) ∧
    (iRead = 0 ∧ (∀ f, 1 ≤ f → minFrame w ≤ f ≤ mxFrame (hdr w) → P !! Z.to_nat (f - 1) ≠ Some pgno) ∨
     1 ≤ iRead ∧ minFrame w ≤ iRead ≤ mxFrame (hdr w) ∧ P !! Z.to_nat (iRead - 1) = Some pgno ∧
       ∀ f, iRead < f ≤ mxFrame (hdr w) → P !! Z.to_nat (f - 1) ≠ Some pgno).
Proof. apply find_frame. Qed.

(** C6: adding the frames of a transaction to the index, over whatever a
    writer that died left past the last frame, makes it an index of the
    frames so far and the new ones.  It fails only when the page of the index
    for the next frame is not mapped and cannot be: then it is an index of the
    frames so far and the new ones before that, and the header does not move. *)
Theorem wal_add_frames_refines w P pgnos :
  index w P → 0 ≤ mxFrame (hdr w) ≤ Z.of_nat (length P) →
  mxFrame (hdr w) + Z.of_nat (length pgnos) < MAX_FRAMES → Forall (λ q, 0 < q) pgnos →
  ∃ rc iFrame w' P', index_frames w (mxFrame (hdr w)) pgnos = Some (rc, iFrame, w') ∧ hdr w' = hdr w ∧ index w' P' ∧
    (rc = SQLITE_OK ∧ iFrame = mxFrame (hdr w) + Z.of_nat (length pgnos) ∧
       take (Z.to_nat iFrame) P' = take (Z.to_nat (mxFrame (hdr w))) P ++ pgnos ∨
     rc ≠ SQLITE_OK ∧ ∃ k v, (k < length pgnos)%nat ∧ iFrame = mxFrame (hdr w) + Z.of_nat k + 1 ∧
       index_frames w (mxFrame (hdr w)) (take k pgnos) = Some (SQLITE_OK, mxFrame (hdr w) + Z.of_nat k, v) ∧
       refused v (walFramePage iFrame) ∧
       take (Z.to_nat (mxFrame (hdr w) + Z.of_nat k)) P' = take (Z.to_nat (mxFrame (hdr w))) P ++ take k pgnos).
Proof.
  intros Hi Hmx Hmax Hqs.
  destruct (index_frames_spec pgnos w P (mxFrame (hdr w)) Hi) as (rc & f & w' & P' & E & Hs & Hi' & H); try done; [lia|right; lia|].
  exists rc, f, w', P'. split; [done|]. split; [apply Hs|]. split; [done|].
  destruct H as [(-> & -> & H)|(Hne & _ & _ & k & v & H)]; [left; split; [done|]; split; [done|]; by apply appended_take|right; split; [done|]; by exists k, v].
Qed.

(** C8: a reader's searches give the same frames before and after a writer,
    on the same shared pages, adds frames: the snapshot of a reader does not
    change. *)
Theorem wal_snapshot_stable r w P pgnos rc iFrame w' pgno :
  index w P → answers_ok r → 0 ≤ mxFrame (hdr r) ≤ mxFrame (hdr w) → mxFrame (hdr w) ≤ Z.of_nat (length P) →
  0 ≤ minFrame r ≤ mxFrame (hdr r) + 1 → readLock r ≠ 0 ∨ bShmUnreliable r ≠ 0 →
  mxFrame (hdr w) + Z.of_nat (length pgnos) < MAX_FRAMES → Forall (λ q, 0 < q) pgnos →
  index_frames w (mxFrame (hdr w)) pgnos = Some (rc, iFrame, w') →
  ∃ iRead, sqlite3WalFindFrame (view r w) pgno = Some (SQLITE_OK, iRead, view r w) ∧
    sqlite3WalFindFrame (view r w') pgno = Some (SQLITE_OK, iRead, view r w').
Proof.
  intros Hi Ha Hr Hw Hmin Hlock Hmax Hqs Hadd.
  destruct (index_frames_spec pgnos w P (mxFrame (hdr w)) Hi) as (rc1 & f & w1 & P' & E & _ & Hi' & H); try done; [lia|right; lia|].
  rewrite Hadd in E. injection E as <- <- <-.
  assert (mxFrame (hdr w) ≤ Z.of_nat (length P') ∧ take (Z.to_nat (mxFrame (hdr w))) P' = take (Z.to_nat (mxFrame (hdr w))) P) as [Hl Ht].
  { destruct H as [(_ & _ & H)|(_ & Hl & Ht & _)]; [|done]. destruct H as [->|[-> ->]]; [|split; [lia|done]].
    rewrite length_app, length_take, take_app_le, take_take by (rewrite length_take; lia). split; [lia|]. f_equal. lia. }
  destruct (find_frame (view r w) P pgno) as (x & E & Hx); try done; [by apply index_view|cbn; lia|].
  destruct (find_frame (view r w') P' pgno) as (x' & E' & Hx'); try done; [by apply index_view|cbn; lia|].
  exists x. split; [exact E|]. rewrite E'. do 3 f_equal. symmetry.
  apply (last_frame_unique P' pgno (minFrame r) (mxFrame (hdr r))); [lia| |exact Hx'].
  apply (last_frame_take P); [|exact Hx]. apply (f_equal (take (Z.to_nat (mxFrame (hdr r))))) in Ht.
  by rewrite !take_take, !Nat.min_l in Ht by lia.
Qed.

(** What the callback is to be called for: the pages in order, until it
    fails. *)
Fixpoint calls {A} (xUndo : A → Z → Z * A) (ctx : A) (pgnos : list Z) : Z * A :=
  match pgnos with
  | [] => (SQLITE_OK, ctx)
  | q :: pgnos => let '(rc, ctx) := xUndo ctx q in if rc =? SQLITE_OK then calls xUndo ctx pgnos else (rc, ctx)
  end.

Lemma walFramePgno_spec w P f q : index w P → 1 ≤ f → P !! Z.to_nat (f - 1) = Some q → walFramePgno w f = Some q.
Proof.
  intros Hi Hf Hq. pose proof (i_frames _ _ Hi) as Hmax. pose proof (lookup_lt_Some _ _ _ Hq) as Hl.
  destruct (walFramePage_range f) as [Hr Hz]; [lia|]. unfold walFramePgno. set (h := walFramePage f) in *.
  destruct (i_table _ _ Hi h ltac:(lia) ltac:(lia)) as (p & -> & Ht). pose proof (zero_of_next h ltac:(lia)).
  assert (rd (words p) (first_off h + (f - zero_of h - 1)) = Some q) as Hrd.
  { rewrite (t_pgno _ _ _ Ht) by lia. rewrite segment_lookup by lia.
    replace (zero_of h + (f - zero_of h) - 1) with (f - 1) by lia. by rewrite Hq. }
  unfold first_off, zero_of, last_of, MAX_FRAMES in *. destruct (Z.eqb_spec h 0) as [E|Hne].
  - rewrite <- Hrd. f_equal. change (WALINDEX_HDR_SIZE / 4) with 34. lia.
  - rewrite u32_id by width. change HASHTABLE_NPAGE_ONE with 4062. change HASHTABLE_NPAGE with 4096.
    rewrite u64_id by width. rewrite <- Hrd. f_equal. dm.
Qed.

Lemma undo_frames_spec {A} (xUndo : A → Z → Z * A) w P n : index w P → ∀ ctx f, 1 ≤ f → f - 1 + Z.of_nat n ≤ Z.of_nat (length P) →
  undo_frames n xUndo w ctx SQLITE_OK f = Some (calls xUndo ctx (take n (drop (Z.to_nat (f - 1)) P))).
Proof.
  intros Hi. induction n as [|n IH]; intros ctx f Hf Hl; [done|]. cbn [undo_frames SQLITE_OK Z.eqb negb].
  destruct (lookup_lt_is_Some_2 P (Z.to_nat (f - 1))) as [q Hq]; [lia|].
  rewrite (walFramePgno_spec w P f q) by done. rewrite (drop_S _ _ _ Hq). cbn [take calls].
  destruct (xUndo ctx q) as [rc ctx']. destruct (Z.eqb_spec rc SQLITE_OK) as [->|Hne].
  - rewrite IH by lia. do 4 f_equal. lia.
  - destruct n; [done|]. cbn [undo_frames]. by rewrite (proj2 (Z.eqb_neq rc _)).
Qed.

(** C30: a rollback restores the header that is in shared memory, calls the
    callback for the pages of the frames written since, in order and until it
    fails, and leaves an index of the frames of that header. *)
Theorem wal_undo_rolls_back {A} w P h (xUndo : A → Z → Z * A) ctx :
  index w P → walIndexHdr w = Some h → writeLock w ≠ 0 →
  0 ≤ mxFrame h ≤ mxFrame (hdr w) → mxFrame (hdr w) ≤ Z.of_nat (length P) →
  let '(rc, ctx') := calls xUndo ctx (drop (Z.to_nat (mxFrame h)) (take (Z.to_nat (mxFrame (hdr w))) P)) in
  ∃ w', sqlite3WalUndo w xUndo ctx = Some (rc, ctx', w') ∧ hdr w' = h ∧
    index w' (if decide (mxFrame h = mxFrame (hdr w)) then P else take (Z.to_nat (mxFrame h)) P).
Proof.
  intros Hi Hh Hlock Hmx Hl. unfold sqlite3WalUndo. rewrite (proj2 (Z.eqb_neq _ _)) by done. rewrite Hh.
  assert (index (set_hdr w h) P) as Hi' by (destruct Hi; by split).
  rewrite (undo_frames_spec _ _ P) by (done || lia).
  replace (mxFrame h + 1 - 1) with (mxFrame h) by lia.
  replace (drop (Z.to_nat (mxFrame h)) (take (Z.to_nat (mxFrame (hdr w))) P)) with
    (take (Z.to_nat (mxFrame (hdr w) - mxFrame h)) (drop (Z.to_nat (mxFrame h)) P)).
  2: { rewrite take_drop_commute. do 2 f_equal. lia. }
  destruct (calls _ _ _) as [rc ctx']. rewrite Z.eqb_sym. destruct (Z.eqb_spec (mxFrame h) (mxFrame (hdr w))) as [E|Hne]; cbn [negb].
  - eexists. split; [done|]. split; [done|]. rewrite decide_True by done. destruct Hi'; by split.
  - destruct (walCleanupHash_spec (set_hdr w h) P Hi') as (w' & -> & Hs & Hi'' & _); [cbn; lia|].
    eexists. split; [done|]. apply touched_same in Hs as [Hs _]. split; [exact Hs|]. rewrite decide_False by done. destruct Hi''; by split.
Qed.

(** Rolling back to a savepoint brings back the last frame and the
    checksums of the moment it was taken, and leaves an index of the frames
    of that moment. *)
Theorem wal_savepoint_undo w w' P' :
  nCkpt w' = nCkpt w → index w' P' → 0 ≤ mxFrame (hdr w) < mxFrame (hdr w') → mxFrame (hdr w') ≤ Z.of_nat (length P') →
  ∃ w'', sqlite3WalSavepointUndo w' (sqlite3WalSavepoint w) = Some (SQLITE_OK, sqlite3WalSavepoint w, w'') ∧
    mxFrame (hdr w'') = mxFrame (hdr w) ∧ aFrameCksum (hdr w'') = aFrameCksum (hdr w) ∧
    index w'' (take (Z.to_nat (mxFrame (hdr w))) P').
Proof.
  intros Hck Hi Hmx Hl. unfold sqlite3WalSavepointUndo.
  set (d := sqlite3WalSavepoint w).
  assert (rd d 0 = Some (mxFrame (hdr w)) ∧ rd d 1 = Some (aFrameCksum (hdr w)).1 ∧ rd d 2 = Some (aFrameCksum (hdr w)).2 ∧
    rd d 3 = Some (nCkpt w)) as (E0 & E1 & E2 & E3) by done.
  rewrite E3, Hck, Z.eqb_refl. cbn [negb]. rewrite E0, E1, E2, (proj2 (Z.ltb_lt _ _)) by lia.
  set (w1 := set_hdr w' _). assert (index w1 P') as Hi1 by (destruct Hi; by split).
  destruct (walCleanupHash_spec w1 P' Hi1) as (w2 & -> & Hs & Hi2 & _); [cbn; lia|].
  apply touched_same in Hs as (Eh & _). eexists. split; [done|].
  case_match; cbn [hdr set_iReCksum]; rewrite Eh; cbn; rewrite <- surjective_pairing;
    (split; [done|]); (split; [done|]); [destruct Hi2; by split|done].
Qed.

(** *** At concrete inputs *)

Definition header (n : Z) : WalIndexHdr := mk_hdr 3007000 0 0 1 0 4096 n 0 (0, 0) (0, 0) (0, 0).

(** A page in memory, two connections on it, a page of the index to come. *)
Definition writer (n : Z) : Wal :=
  mk_wal [Some zero_page] 1 0 1 0 0 (header n) 1 0 0 [mk_answer true SQLITE_OK (Some zero_page)]
    4096 0 (mk_file [] []) [] [] 0 0 0 0 (-1) [] [].

Lemma writer_index n : index (writer n) [].
Proof.
  split; try done.
  - intros h p Hp%get_page_rd. unfold writer in Hp; cbn [apWiData] in Hp. apply rd_Some in Hp as [Hh Hp].
    destruct (Z.to_nat h) as [|m]; cbn in Hp; [injection Hp as <-; apply zero_page_shape|done].
  - apply Forall_singleton. cbn. intros p [= <-]. apply zero_page_shape.
  - intros h Hh Hz. pose proof (zero_of_pos h). cbn in Hz. lia.
Qed.

(** The writer once the frames of the pages 5, 7 and 5 are in the index. *)
Definition written : Wal :=
  match index_frames (writer 0) 0 [5; 7; 5] with
  | Some (_, f, w) => set_hdr w (set_mxFrame (hdr w) f (aFrameCksum (hdr w)))
  | None => writer 0
  end.

Lemma written_index : index written [5; 7; 5].
Proof.
  destruct (index_frames_spec [5; 7; 5] (writer 0) [] 0 (writer_index 0)) as (rc & f & w' & P' & E & _ & Hi & H);
    [done|by vm_compute|repeat constructor|by left|].
  assert (rc = SQLITE_OK) as -> by (apply (f_equal (option_map (λ x, x.1.1))) in E; vm_compute in E; by injection E).
  destruct H as [(_ & Ef & HP)|[Hne _]]; [|exfalso; apply Hne; reflexivity].
  destruct HP as [->|[HP _]]; [|discriminate HP].
  unfold written. rewrite E.
  destruct Hi; by split.
Qed.

Lemma written_hdr : hdr written = header 3 ∧ readLock written = 1 ∧ minFrame written = 1 ∧ writeLock written = 1 ∧ nCkpt written = 0.
Proof. by vm_compute. Qed.

Lemma wal_find_frame_witness :
  sqlite3WalFindFrame written 5 = Some (SQLITE_OK, 3, written) ∧ [5; 7; 5] !! 2%nat = Some 5 ∧ 1 ≤ 3 ≤ mxFrame (hdr written).
Proof.
  destruct written_hdr as (Eh & Er & Em & _ & _).
  destruct (wal_find_frame written [5; 7; 5] 5) as (r & E & H);
    [exact written_index|rewrite Eh; cbn; lia|rewrite Eh, Em; cbn; lia|left; rewrite Er; discriminate|].
  assert (r = 3) as -> by (apply (f_equal (option_map (λ x, x.1.2))) in E; vm_compute in E; by injection E).
  split; [exact E|]. split; [reflexivity|]. rewrite Eh. cbn. lia.
Defined.

Lemma wal_add_frames_refines_witness :
  option_map (λ r, r.1) (index_frames (writer 0) 0 [5; 7; 5]) = Some (SQLITE_OK, 3) ∧
  ∃ w' P', index w' P' ∧ take 3 P' = [5; 7; 5].
Proof.
  destruct (wal_add_frames_refines (writer 0) [] [5; 7; 5] (writer_index 0)) as (rc & f & w' & P' & E & _ & Hi & H);
    [cbn; lia|by vm_compute|repeat constructor|].
  change (mxFrame (hdr (writer 0))) with 0 in *.
  assert (rc = SQLITE_OK ∧ f = 3) as [-> ->] by (apply (f_equal (option_map (λ r, r.1))) in E; vm_compute in E; by injection E).
  rewrite E. split; [reflexivity|]. exists w', P'. split; [exact Hi|].
  destruct H as [(_ & _ & Ht)|[Hne _]]; [exact Ht|by destruct Hne].
Defined.

(** A reader of the first two frames, while a fourth is added. *)
Definition reader : Wal := mk_wal [] 1 0 0 0 0 (header 2) 1 0 0 [] 4096 0 (mk_file [] []) [] [] 0 0 0 0 (-1) [] [].

Lemma wal_snapshot_stable_witness :
  ∃ w', index_frames written 3 [5] = Some (SQLITE_OK, 4, w') ∧
    sqlite3WalFindFrame (view reader written) 5 = Some (SQLITE_OK, 1, view reader written) ∧
    sqlite3WalFindFrame (view reader w') 5 = Some (SQLITE_OK, 1, view reader w').
Proof.
  destruct written_hdr as (Eh & _).
  assert (∃ w', index_frames written 3 [5] = Some (SQLITE_OK, 4, w')) as [w' E].
  { assert (option_map fst (index_frames written 3 [5]) = Some (SQLITE_OK, 4)) as H by (by vm_compute).
    destruct (index_frames written 3 [5]) as [[[rc f] w']|]; [|discriminate]. injection H as -> ->. by exists w'. }
  exists w'. split; [exact E|].
  destruct (wal_snapshot_stable reader written [5; 7; 5] [5] SQLITE_OK 4 w' 5) as (r & E1 & E2);
    [exact written_index|constructor|rewrite Eh; cbn; lia|rewrite Eh; cbn; lia|cbn; lia|left; discriminate
    |rewrite Eh; by vm_compute|repeat constructor|exact E|].
  assert (r = 1) as -> by (apply (f_equal (option_map (λ x, x.1.2))) in E1; vm_compute in E1; by injection E1).
  split; [exact E1|exact E2].
Defined.

(** The header in shared memory still counts no frames. *)
Lemma wal_undo_rolls_back_witness :
  ∃ h w', walIndexHdr written = Some h ∧
    sqlite3WalUndo written (λ l q, (SQLITE_OK, l ++ [q])) [] = Some (SQLITE_OK, [5; 7; 5], w') ∧ hdr w' = h ∧ index w' [].
Proof.
  destruct written_hdr as (Eh & _ & _ & Ew & _).
  pose (h := mk_hdr 0 0 0 0 0 0 0 0 (0, 0) (0, 0) (0, 0)).
  assert (walIndexHdr written = Some h) as E by (by vm_compute).
  pose proof (wal_undo_rolls_back written [5; 7; 5] h (λ l q, (SQLITE_OK, l ++ [q])) [] written_index E
    ltac:(rewrite Ew; discriminate) ltac:(rewrite Eh; cbn; lia) ltac:(rewrite Eh; cbn; lia)) as H.
  rewrite Eh in H. cbn [calls] in H. destruct H as (w' & Hu & Hh & Hi). exists h, w'. split; [exact E|].
  split; [exact Hu|]. split; [exact Hh|exact Hi].
Defined.

Lemma wal_savepoint_undo_witness :
  ∃ w'', sqlite3WalSavepointUndo written (sqlite3WalSavepoint (writer 1)) = Some (SQLITE_OK, [1; 0; 0; 0], w'') ∧
    mxFrame (hdr w'') = 1 ∧ index w'' [5].
Proof.
  destruct written_hdr as (Eh & _ & _ & _ & Ec).
  destruct (wal_savepoint_undo (writer 1) written [5; 7; 5]) as (w'' & E & Hm & _ & Hi);
    [rewrite Ec; reflexivity|exact written_index|rewrite Eh; cbn; lia|rewrite Eh; cbn; lia|].
  exists w''. split; [exact E|]. split; [exact Hm|exact Hi].
Defined.

End WalIndex.
