(* ===== verification/WalLog.v ===== *)
(** * The write-ahead log ([native/sqlite3/sqlite3.c], wal.c)

    The log is a header and a sequence of frames, each a page with a header
    of its own; checksums chain every frame to all before it, and a frame
    with a database size ends a transaction.  After a crash the log is read
    from its start to the first frame that is not valid.  The theorems are
    about the frames written and what recovery makes of a log, whole, cut
    short, or followed by anything. *)

From S2P Require Import Prelude Varint WalIndex.

Module WalLog.

Import Varint WalIndex.

(** ** Checksums *)

(** The words of 32 bits of a buffer on a little-endian machine. *)
Fixpoint le_words (a : bytes) : list Z :=
  match a with
  | b0 :: b1 :: b2 :: b3 :: a => b0 + 256 * b1 + 65536 * b2 + 16777216 * b3 :: le_words a
  | _ => []
  end.

Definition le_bytes (w : Z) : bytes := [u8 w; u8 (w / 256); u8 (w / 65536); u8 (w / 16777216)].

(* native/sqlite3/sqlite3.c:66720-66723 BYTESWAP32 *)
Definition BYTESWAP32 (x : Z) : Z :=
  u32 (u32 (u32 (u32 (Z.shiftl (Z.land x 0x000000FF) 24) + u32 (Z.shiftl (Z.land x 0x0000FF00) 8))
    + Z.shiftr (Z.land x 0x00FF0000) 8) + Z.shiftr (Z.land x 0xFF000000) 24).

(** Two words. *)
Definition sum2 (s : Z * Z) (w0 w1 : Z) : Z * Z :=
  let s1 := u32 (s.1 + (w0 + s.2)) in
  let s2 := u32 (s.2 + (w1 + s1)) in
  (s1, s2).

(* native/sqlite3/sqlite3.c:66755-66759 walChecksumBytes, the loop over swapped words *)
Fixpoint cksum_swap (aData : list Z) (s : Z * Z) : option (Z * Z) :=
  match aData with
  | w0 :: w1 :: aData =>
      let s := sum2 s (BYTESWAP32 w0) (BYTESWAP32 w1) in
      match aData with [] => Some s | _ => cksum_swap aData s end
  | _ => None
  end.

(* native/sqlite3/sqlite3.c:66761-66778 walChecksumBytes, the unrolled loop *)
Fixpoint cksum_unrolled (aData : list Z) (s : Z * Z) : option (Z * Z) :=
  match aData with
  | w0 :: w1 :: w2 :: w3 :: w4 :: w5 :: w6 :: w7 :: w8 :: w9 :: w10 :: w11 :: w12 :: w13 :: w14 :: w15 :: aData =>
      let s := sum2 s w0 w1 in
      let s := sum2 s w2 w3 in
      let s := sum2 s w4 w5 in
      let s := sum2 s w6 w7 in
      let s := sum2 s w8 w9 in
      let s := sum2 s w10 w11 in
      let s := sum2 s w12 w13 in
      let s := sum2 s w14 w15 in
      match aData with [] => Some s | _ => cksum_unrolled aData s end
  | _ => None
  end.

(* native/sqlite3/sqlite3.c:66780-66783 walChecksumBytes, the plain loop *)
Fixpoint cksum_plain (aData : list Z) (s : Z * Z) : option (Z * Z) :=
  match aData with
  | w0 :: w1 :: aData =>
      let s := sum2 s w0 w1 in
      match aData with [] => Some s | _ => cksum_plain aData s end
  | _ => None
  end.

(** [a] is the buffer of [nByte] bytes; a null [aIn] is [None].  The loops
    read pairs of words, past the end of a buffer of another size. *)
(* native/sqlite3/sqlite3.c:66725-66790 walChecksumBytes *)
Definition walChecksumBytes (nativeCksum : bool) (a : bytes) (aIn : option (Z * Z)) : option (Z * Z) :=
  let s := default (0, 0) aIn in
  let nByte := Z.of_nat (length a) in
  if negb (nByte `mod` 8 =? 0) then None
  else if negb nativeCksum then cksum_swap (le_words a) s
  else if nByte `mod` 64 =? 0 then cksum_unrolled (le_words a) s
  else cksum_plain (le_words a) s.

(** ** Frames *)

(* native/sqlite3/sqlite3.c:66355-66358 WAL_FRAME_HDRSIZE *)
Definition WAL_FRAME_HDRSIZE : Z := 24.
Definition WAL_HDRSIZE : Z := 32.
(* native/sqlite3/sqlite3.c:66369-66369 WAL_MAGIC *)
Definition WAL_MAGIC : Z := 0x377f0682.
(* native/sqlite3/sqlite3.c:66155-66156 WAL_MAX_VERSION *)
Definition WAL_MAX_VERSION : Z := 3007000.
Definition WALINDEX_MAX_VERSION : Z := 3007000.
Definition SQLITE_BIGENDIAN : Z := 0.

(* native/sqlite3/sqlite3.c:66376-66378 walFrameOffset *)
Definition walFrameOffset (iFrame szPage : Z) : Z := WAL_HDRSIZE + (iFrame - 1) * (szPage + WAL_FRAME_HDRSIZE).

(** [sqlite3Put4byte] and [sqlite3Get4byte] at [&a[i]]. *)
Definition put4 (a : bytes) (i v : Z) : option bytes :=
  let* t := sqlite3Put4byte (drop (Z.to_nat i) a) v in Some (take (Z.to_nat i) a ++ t).
Definition get4 (a : bytes) (i : Z) : option Z := sqlite3Get4byte (drop (Z.to_nat i) a).

Definition set_aFrameCksum (h : WalIndexHdr) (ck : Z * Z) : WalIndexHdr := set_mxFrame h (mxFrame h) ck.

Definition nativeCksum (pWal : Wal) : bool := bigEndCksum (hdr pWal) =? SQLITE_BIGENDIAN.

(** The salts as they lie in memory. *)
Definition salt_bytes (salt : Z * Z) : bytes := le_bytes salt.1 ++ le_bytes salt.2.

(** The buffer [aFrame] after the call. *)
(* native/sqlite3/sqlite3.c:66834-66871 walEncodeFrame *)
Definition walEncodeFrame (pWal : Wal) (iPage nTruncate : Z) (aData aFrame : bytes) : option (bytes * Wal) :=
  let* aFrame := put4 aFrame 0 iPage in
  let* aFrame := put4 aFrame 4 nTruncate in
  if iReCksum pWal =? 0 then
    let* aFrame := splice aFrame 8 (salt_bytes (aSalt (hdr pWal))) in
    let* a := sub aFrame 0 8 in
    let* aCksum := walChecksumBytes (nativeCksum pWal) a (Some (aFrameCksum (hdr pWal))) in
    let* d := sub aData 0 (szPage pWal) in
    let* aCksum := walChecksumBytes (nativeCksum pWal) d (Some aCksum) in
    let* aFrame := put4 aFrame 16 aCksum.1 in
    let* aFrame := put4 aFrame 20 aCksum.2 in
    Some (aFrame, set_hdr pWal (set_aFrameCksum (hdr pWal) aCksum))
  else
    let* aFrame := splice aFrame 8 (replicate 16 0) in
    Some (aFrame, pWal).

(** Whether the frame is valid, the page number and size when it is, and the
    connection, whose running checksum moves when the salts fit. *)
(* native/sqlite3/sqlite3.c:66873-66925 walDecodeFrame *)
Definition walDecodeFrame (pWal : Wal) (aData aFrame : bytes) : option (option (Z * Z) * Wal) :=
  let* s := sub aFrame 8 8 in
  if negb (bool_decide (salt_bytes (aSalt (hdr pWal)) = s)) then Some (None, pWal) else
  let* pgno := get4 aFrame 0 in
  if pgno =? 0 then Some (None, pWal) else
  let* a := sub aFrame 0 8 in
  let* aCksum := walChecksumBytes (nativeCksum pWal) a (Some (aFrameCksum (hdr pWal))) in
  let* d := sub aData 0 (szPage pWal) in
  let* aCksum := walChecksumBytes (nativeCksum pWal) d (Some aCksum) in
  let pWal := set_hdr pWal (set_aFrameCksum (hdr pWal) aCksum) in
  let* c1 := get4 aFrame 16 in
  let* c2 := get4 aFrame 20 in
  if negb (aCksum.1 =? c1) || negb (aCksum.2 =? c2) then Some (None, pWal) else
  let* nTruncate := get4 aFrame 4 in
  Some (Some (pgno, nTruncate), pWal).

(** ** The file and the locks *)

Definition SQLITE_BUSY : Z := 5.
Definition SQLITE_CANTOPEN : Z := 14.
Definition SQLITE_IOERR_SHORT_READ : Z := Z.lor 10 (Z.shiftl 2 8).

Definition next_code (l : list Z) : Z * list Z := match l with [] => (SQLITE_OK, []) | c :: l => (c, l) end.

Definition sqlite3OsFileSize (f : file) : Z * Z * file :=
  let '(rc, l) := next_code (io_codes f) in (rc, Z.of_nat (length (content f)), mk_file (content f) l).

(** A read past the end fills the rest with zeros. *)
Definition sqlite3OsRead (f : file) (n ofst : Z) : Z * bytes * file :=
  let '(rc, l) := next_code (io_codes f) in
  let b := take (Z.to_nat n) (drop (Z.to_nat ofst) (content f)) in
  (if negb (rc =? SQLITE_OK) then rc else if Z.of_nat (length b) <? n then SQLITE_IOERR_SHORT_READ else SQLITE_OK,
   b ++ replicate (Z.to_nat n - length b) 0, mk_file (content f) l).

(* native/sqlite3/sqlite3.c:66172-66176 WAL_WRITE_LOCK *)
Definition WAL_WRITE_LOCK : Z := 0.
Definition WAL_ALL_BUT_WRITE : Z := 1.
Definition WAL_CKPT_LOCK : Z := 1.
Definition WAL_RECOVER_LOCK : Z := 2.
Definition WAL_READ_LOCK (i : Z) : Z := 3 + i.
(* native/sqlite3/sqlite3.c:66177-66177 WAL_NREADER *)
Definition WAL_NREADER : Z := 8 - 3.

(* native/sqlite3/sqlite3.c:66979-66993 walLockExclusive *)
Definition walLockExclusive (pWal : Wal) (lockIdx n : Z) : Z * Wal :=
  if negb (exclusiveMode pWal =? 0) then (SQLITE_OK, pWal) else
  let '(rc, l) := next_code (shm_locks pWal) in
  let pWal := set_shm_locks pWal l in
  (rc, if rc =? SQLITE_OK then set_held pWal ((lockIdx, n) :: held pWal) else pWal).

(* native/sqlite3/sqlite3.c:66994-67003 walUnlockExclusive *)
Definition walUnlockExclusive (pWal : Wal) (lockIdx n : Z) : Wal :=
  if negb (exclusiveMode pWal =? 0) then pWal
  else set_held pWal (filter (λ r, r ≠ (lockIdx, n)) (held pWal)).

(** Whether the connection holds a lock, alone or in a range. *)
Definition has_lock (pWal : Wal) (lock : Z) : bool :=
  existsb (λ r, (r.1 <=? lock) && (lock <? r.1 + r.2)) (held pWal) || existsb (Z.eqb lock) (held_shared pWal).

(** A word of the header of the index. *)
Definition set_word (pWal : Wal) (i v : Z) : option Wal :=
  let* p := get_page pWal 0 in
  let* w := wr (words p) i v in
  set_page pWal 0 (mk_page w (slots p)).

(** The words of the header of the index that others write only under a lock
    that this connection holds: the header under the write lock, a read mark
    under its lock. *)
Definition guarded (pWal : Wal) (i : Z) : bool :=
  if i <? 24 then has_lock pWal WAL_WRITE_LOCK
  else if (25 <=? i) && (i <? 30) then has_lock pWal (WAL_READ_LOCK (i - 25)) else false.

(** What other connections do to the words of the header before this one
    looks at them; an index that is its own they do not see. *)
Definition other_write (pWal : Wal) (x : Z * Z) : Wal :=
  if (0 <=? x.1) && (x.1 <? 34) && negb (guarded pWal x.1) then default pWal (set_word pWal x.1 x.2) else pWal.

Definition others_write (pWal : Wal) : Wal :=
  match others pWal with
  | ws :: l => if exclusiveMode pWal =? 0 then foldl other_write (set_others pWal l) ws else pWal
  | [] => pWal
  end.

(** ** The header of the index *)

Definition set_cksummed (h : WalIndexHdr) (ck : Z * Z) : WalIndexHdr :=
  mk_hdr WALINDEX_MAX_VERSION (unused h) (iChange h) 1 (bigEndCksum h) (hdr_szPage h) (mxFrame h) (nPage h) (aFrameCksum h)
    (aSalt h) ck.

(** The ten words before the checksum. *)
Definition hdr_bytes (h : WalIndexHdr) : bytes := flat_map le_bytes (take 10 (hdr_words h)).

(* native/sqlite3/sqlite3.c:66815-66832 walIndexWriteHdr *)
Definition walIndexWriteHdr (pWal : Wal) : option Wal :=
  let h := set_cksummed (hdr pWal) (aCksum (hdr pWal)) in
  let* ck := walChecksumBytes true (hdr_bytes h) None in
  let pWal := set_hdr pWal (set_cksummed h ck) in
  let* p := get_page pWal 0 in
  let* w := splice (words p) 12 (hdr_words (hdr pWal)) in
  let* w := splice w 0 (hdr_words (hdr pWal)) in
  set_page pWal 0 (mk_page w (slots p)).

(** The result, [*pChanged], and the connection. *)
(* native/sqlite3/sqlite3.c:68431-68498 walIndexTryHdr *)
Definition walIndexTryHdr (pWal : Wal) (pChanged : Z) : option (Z * Z * Wal) :=
  let pWal := others_write pWal in
  let* p := get_page pWal 0 in
  let* w1 := sub (words p) 0 12 in
  let pWal := others_write pWal in
  let* p := get_page pWal 0 in
  let* w2 := sub (words p) 12 12 in
  if negb (bool_decide (w1 = w2)) then Some (1, pChanged, pWal) else
  let* h1 := hdr_of_words w1 in
  if isInit h1 =? 0 then Some (1, pChanged, pWal) else
  let* ck := walChecksumBytes true (flat_map le_bytes (take 10 w1)) None in
  if negb (ck.1 =? (aCksum h1).1) || negb (ck.2 =? (aCksum h1).2) then Some (1, pChanged, pWal) else
  if negb (bool_decide (hdr_words (hdr pWal) = w1)) then
    let pWal := set_hdr pWal h1 in
    Some (0, 1, set_szPage pWal (Z.land (hdr_szPage h1) 0xfe00 + Z.shiftl (Z.land (hdr_szPage h1) 0x0001) 16))
  else Some (0, pChanged, pWal).

(** ** The header of the log *)

(** When the log starts over; [salt] are the salts that are random for the
    first log of a database.  The bytes written, and the connection. *)
(* native/sqlite3/sqlite3.c:69947-69961 walFrames, the header of the log *)
Definition log_header (pWal : Wal) (szPage : Z) (aWalHdr : bytes) (random : Z * Z) : option (bytes * Wal) :=
  let* aWalHdr := put4 aWalHdr 0 (Z.lor WAL_MAGIC SQLITE_BIGENDIAN) in
  let* aWalHdr := put4 aWalHdr 4 WAL_MAX_VERSION in
  let* aWalHdr := put4 aWalHdr 8 szPage in
  let* aWalHdr := put4 aWalHdr 12 (nCkpt pWal) in
  let salt := if nCkpt pWal =? 0 then random else aSalt (hdr pWal) in
  let* aWalHdr := splice aWalHdr 16 (salt_bytes salt) in
  let* a := sub aWalHdr 0 (WAL_HDRSIZE - 2 * 4) in
  let* aCksum := walChecksumBytes true a None in
  let* aWalHdr := put4 aWalHdr 24 aCksum.1 in
  let* aWalHdr := put4 aWalHdr 28 aCksum.2 in
  let h := hdr pWal in
  Some (aWalHdr, set_hdr (WalIndex.set_szPage pWal szPage)
    (mk_hdr (iVersion h) (unused h) (iChange h) (isInit h) SQLITE_BIGENDIAN (hdr_szPage h) (mxFrame h) (nPage h) aCksum
      salt (WalIndex.aCksum h))).

(** ** Recovery *)

Definition READMARK_NOT_USED : Z := 0xffffffff.

Definition set_commit (h : WalIndexHdr) (iFrame nTruncate szPage : Z) : WalIndexHdr :=
  mk_hdr (iVersion h) (unused h) (iChange h) (isInit h) (bigEndCksum h)
    (u16 (Z.lor (Z.land szPage 0xff00) (Z.shiftr szPage 16))) iFrame nTruncate (aFrameCksum h) (aSalt h) (aCksum h).

(** The frames from [iFrame] on that one page of the index counts, [n] of
    them: the result code, the number of the frame that ended the loop, the
    checksum of the last commit. *)
(* native/sqlite3/sqlite3.c:67374-67397 walIndexRecover, the loop over frames *)
Fixpoint recover_frames (n : nat) (pWal : Wal) (szPage iFrame rc : Z) (aFrameCksum : Z * Z)
  : option (Z * Z * (Z * Z) * Wal) :=
  match n with
  | O => Some (rc, iFrame, aFrameCksum, pWal)
  | S n =>
      let '(rc, b, f) := sqlite3OsRead (pWalFd pWal) (szPage + WAL_FRAME_HDRSIZE) (walFrameOffset iFrame szPage) in
      let pWal := set_pWalFd pWal f in
      if negb (rc =? SQLITE_OK) then Some (rc, iFrame, aFrameCksum, pWal) else
      let* (v, pWal) := walDecodeFrame pWal (drop 24 b) (take 24 b) in
      match v with
      | None => Some (rc, iFrame, aFrameCksum, pWal)
      | Some (pgno, nTruncate) =>
          let* (rc, pWal) := walIndexAppend pWal iFrame pgno in
          if negb (rc =? SQLITE_OK) then Some (rc, iFrame, aFrameCksum, pWal) else
          if negb (nTruncate =? 0) then
            let pWal := set_hdr pWal (set_commit (hdr pWal) iFrame nTruncate szPage) in
            recover_frames n pWal szPage (iFrame + 1) rc (WalIndex.aFrameCksum (hdr pWal))
          else recover_frames n pWal szPage (iFrame + 1) rc aFrameCksum
      end
  end.

(** The pages of the index from the [iPg]-th on, [n] of them.  Each is filled
    in private memory, [aPrivate], and copied to the shared page but for the
    header. *)
(* native/sqlite3/sqlite3.c:67362-67432 walIndexRecover, the loop over pages *)
Fixpoint recover_pages (n : nat) (pWal : Wal) (szPage iLastFrame iPg : Z) (aPrivate : page) (rc : Z) (aFrameCksum : Z * Z)
  : option (Z * (Z * Z) * Wal) :=
  match n with
  | O => Some (rc, aFrameCksum, pWal)
  | S n =>
      let iLast := Z.min iLastFrame (u32 (HASHTABLE_NPAGE_ONE + iPg * HASHTABLE_NPAGE)) in
      let iFirst := 1 + (if iPg =? 0 then 0 else u32 (HASHTABLE_NPAGE_ONE + (iPg - 1) * HASHTABLE_NPAGE)) in
      let* (rc, found, pWal) := walIndexPage pWal iPg in
      if negb found then Some (rc, aFrameCksum, pWal) else
      let* aShare := get_page pWal iPg in
      let* pWal := set_page pWal iPg aPrivate in
      let* (rc, iFrame, aFrameCksum, pWal) :=
        recover_frames (Z.to_nat (iLast - iFirst + 1)) pWal szPage iFirst rc aFrameCksum in
      let* aPrivate := get_page pWal iPg in
      let nHdr32 := if iPg =? 0 then Z.to_nat (WALINDEX_HDR_SIZE / 4) else O in
      let* pWal := set_page pWal iPg
        (mk_page (take nHdr32 (words aShare) ++ drop nHdr32 (words aPrivate)) (slots aPrivate)) in
      if iFrame <=? iLast then Some (rc, aFrameCksum, pWal)
      else recover_pages n pWal szPage iLastFrame (iPg + 1) aPrivate rc aFrameCksum
  end.

(** The read marks from the [i]-th on, [n] of them; [true] to end with an
    error. *)
(* native/sqlite3/sqlite3.c:67454-67467 walIndexRecover, the loop over read marks *)
Fixpoint reset_marks (n : nat) (pWal : Wal) (i rc : Z) : option (bool * Z * Wal) :=
  match n with
  | O => Some (false, rc, pWal)
  | S n =>
      let '(rc, pWal) := walLockExclusive pWal (WAL_READ_LOCK i) 1 in
      if rc =? SQLITE_OK then
        let* pWal := set_word pWal (25 + i)
          (if (i =? 1) && negb (mxFrame (hdr pWal) =? 0) then mxFrame (hdr pWal) else READMARK_NOT_USED) in
        reset_marks n (walUnlockExclusive pWal (WAL_READ_LOCK i) 1) (i + 1) rc
      else if negb (rc =? SQLITE_BUSY) then Some (true, rc, pWal)
      else reset_marks n pWal (i + 1) rc
  end.

Definition zero_hdr : WalIndexHdr := mk_hdr 0 0 0 0 0 0 0 0 (0, 0) (0, 0) (0, 0).

(** What the header of the log sets: the connection, or [None] for a log that
    is to be ignored. *)
(* native/sqlite3/sqlite3.c:67312-67339 walIndexRecover, the header of the log *)
Definition recover_header (pWal : Wal) (aBuf : bytes) : option (option Z * Wal) :=
  let* magic := get4 aBuf 0 in
  let* szPage := get4 aBuf 8 in
  let szPage := i32 szPage in
  if negb (Z.land magic 0xFFFFFFFE =? WAL_MAGIC) || negb (Z.land szPage (szPage - 1) =? 0)
     || (65536 <? szPage) || (szPage <? 512) then Some (None, pWal) else
  let* nCkpt := get4 aBuf 12 in
  let* s := sub aBuf 16 8 in
  let salt := match le_words s with [s1; s2] => (s1, s2) | _ => (0, 0) end in
  let h := hdr pWal in
  let bigEnd := u8 (Z.land magic 0x00000001) in
  let pWal := set_nCkpt (WalIndex.set_szPage pWal szPage) nCkpt in
  let* a := sub aBuf 0 (WAL_HDRSIZE - 2 * 4) in
  let* ck := walChecksumBytes (bigEnd =? SQLITE_BIGENDIAN) a None in
  let pWal := set_hdr pWal (mk_hdr (iVersion h) (unused h) (iChange h) (isInit h) bigEnd (hdr_szPage h) (mxFrame h)
    (nPage h) ck salt (aCksum h)) in
  let* c1 := get4 aBuf 24 in
  let* c2 := get4 aBuf 28 in
  if negb (ck.1 =? c1) || negb (ck.2 =? c2) then Some (None, pWal) else Some (Some szPage, pWal).

(** The log: whether to go on to [finished] ([true]) or to [recovery_error],
    the result code, the checksum of the last commit.  [mem] is the memory
    that [sqlite3_malloc64] gives, as far as it is a page of the index. *)
(* native/sqlite3/sqlite3.c:67293-67436 walIndexRecover, reading the log *)
Definition recover_log (pWal : Wal) (nSize : Z) (mem : option page) : option (bool * Z * (Z * Z) * Wal) :=
  if nSize <=? WAL_HDRSIZE then Some (true, SQLITE_OK, (0, 0), pWal) else
  let '(rc, aBuf, f) := sqlite3OsRead (pWalFd pWal) WAL_HDRSIZE 0 in
  let pWal := set_pWalFd pWal f in
  if negb (rc =? SQLITE_OK) then Some (false, rc, (0, 0), pWal) else
  let* (v, pWal) := recover_header pWal aBuf in
  match v with
  | None => Some (true, SQLITE_OK, (0, 0), pWal)
  | Some szPage =>
      let* version := get4 aBuf 4 in
      if negb (version =? WAL_MAX_VERSION) then Some (true, SQLITE_CANTOPEN, (0, 0), pWal) else
      match mem with
      | None => Some (false, SQLITE_NOMEM, (0, 0), pWal)
      | Some aPrivate =>
          let iLastFrame := u32 ((nSize - WAL_HDRSIZE) / (szPage + WAL_FRAME_HDRSIZE)) in
          let* (rc, ck, pWal) :=
            recover_pages (Z.to_nat (walFramePage iLastFrame + 1)) pWal szPage iLastFrame 0 aPrivate SQLITE_OK (0, 0) in
          Some (true, rc, ck, pWal)
      end
  end.

(* native/sqlite3/sqlite3.c:67438-67467 walIndexRecover, the header and the read marks *)
Definition recover_finish (pWal : Wal) (ck : Z * Z) (rc : Z) : option (Z * Wal) :=
  let pWal := set_hdr pWal (set_aFrameCksum (hdr pWal) ck) in
  let* pWal := walIndexWriteHdr pWal in
  let* pWal := set_word pWal 24 0 in
  let* pWal := set_word pWal 32 (mxFrame (hdr pWal)) in
  let* pWal := set_word pWal 25 0 in
  let* (err, rc, pWal) := reset_marks (Z.to_nat (WAL_NREADER - 1)) pWal 1 rc in
  Some (rc, pWal).

(* native/sqlite3/sqlite3.c:67252-67486 walIndexRecover *)
Definition walIndexRecover (pWal : Wal) (mem : option page) : option (Z * Wal) :=
  let iLock := WAL_ALL_BUT_WRITE + ckptLock pWal in
  let '(rc, pWal) := walLockExclusive pWal iLock (WAL_READ_LOCK 0 - iLock) in
  if negb (rc =? SQLITE_OK) then Some (rc, pWal) else
  let recovery_error := λ rc pWal, Some (rc, walUnlockExclusive pWal iLock (WAL_READ_LOCK 0 - iLock)) in
  let pWal := set_hdr pWal zero_hdr in
  let '(rc, nSize, f) := sqlite3OsFileSize (pWalFd pWal) in
  let pWal := set_pWalFd pWal f in
  if negb (rc =? SQLITE_OK) then recovery_error rc pWal else
  let* (finished, rc, ck, pWal) := recover_log pWal nSize mem in
  if negb finished || negb (rc =? SQLITE_OK) then recovery_error rc pWal else
  let* (rc, pWal) := recover_finish pWal ck rc in
  recovery_error rc pWal.

(** ** The checksum on bytes *)

Definition be_word (b0 b1 b2 b3 : Z) : Z := 16777216 * b0 + 65536 * b1 + 256 * b2 + b3.
Definition le_word (b0 b1 b2 b3 : Z) : Z := be_word b3 b2 b1 b0.

(** Eight bytes at a time, as words of either order. *)
Fixpoint cksum (big : bool) (a : bytes) (s : Z * Z) : Z * Z :=
  match a with
  | b0 :: b1 :: b2 :: b3 :: b4 :: b5 :: b6 :: b7 :: a =>
      let w := if big then be_word else le_word in
      cksum big a (sum2 s (w b0 b1 b2 b3) (w b4 b5 b6 b7))
  | _ => s
  end.

(** Lists of eight bytes. *)
Inductive octets : bytes → Prop :=
| octets_nil : octets []
| octets_cons b0 b1 b2 b3 b4 b5 b6 b7 a : octets a → octets (b0 :: b1 :: b2 :: b3 :: b4 :: b5 :: b6 :: b7 :: a).

Lemma octets_intro k : ∀ a, length a = (8 * k)%nat → octets a.
Proof.
  induction k as [|k IH]; intros a Ha; [by destruct a; [constructor|]|].
  do 8 (destruct a as [|? a]; [cbn in Ha; lia|]). constructor. apply IH. cbn in Ha. lia.
Qed.

Lemma octets_mod a : Z.of_nat (length a) `mod` 8 = 0 → octets a.
Proof. intros H. apply (octets_intro (Z.to_nat (Z.of_nat (length a) / 8))). dm. Qed.

Lemma octets_app a b : octets a → octets b → octets (a ++ b).
Proof. induction 1; intros Hb; cbn [app]; [done|]. constructor. auto. Qed.

Lemma cksum_app big a b : octets a → ∀ s, cksum big (a ++ b) s = cksum big b (cksum big a s).
Proof. induction 1 as [|b0 b1 b2 b3 b4 b5 b6 b7 a Ha IH]; intros s; [done|]. cbn [app cksum]. apply IH. Qed.

Lemma byteswap b0 b1 b2 b3 : is_u8 b0 → is_u8 b1 → is_u8 b2 → is_u8 b3 →
  BYTESWAP32 (le_word b0 b1 b2 b3) = be_word b0 b1 b2 b3.
Proof.
  unfold is_u8. intros. unfold BYTESWAP32. set (x := le_word b0 b1 b2 b3).
  assert (Z.land x 0x000000FF = b0) as ->.
  { rewrite (land_low _ 8) by done. unfold x, le_word, be_word. dm. }
  assert (Z.land x 0x0000FF00 = b1 * 256) as ->.
  { change 0x0000FF00 with (Z.shiftl (Z.ones 8) 8). rewrite land_mask by done. unfold x, le_word, be_word. dm. }
  assert (Z.land x 0x00FF0000 = b2 * 65536) as ->.
  { change 0x00FF0000 with (Z.shiftl (Z.ones 8) 16). rewrite land_mask by done. unfold x, le_word, be_word. dm. }
  assert (Z.land x 0xFF000000 = b3 * 16777216) as ->.
  { change 0xFF000000 with (Z.shiftl (Z.ones 8) 24). rewrite land_mask by done. unfold x, le_word, be_word. dm. }
  rewrite !Z.shiftl_mul_pow2, !Z.shiftr_div_pow2 by done. unfold be_word, u32. dm.
Qed.

Lemma le_words_cons b0 b1 b2 b3 a : le_words (b0 :: b1 :: b2 :: b3 :: a) = le_word b0 b1 b2 b3 :: le_words a.
Proof. cbn [le_words]. f_equal. unfold le_word, be_word. lia. Qed.

Lemma le_words_octets a : octets a → le_words a = [] → a = [].
Proof. by destruct 1. Qed.

Lemma cksum_swap_spec a : octets a → is_bytes a → a ≠ [] → ∀ s, cksum_swap (le_words a) s = Some (cksum true a s).
Proof.
  induction 1 as [|b0 b1 b2 b3 b4 b5 b6 b7 a Ha IH]; intros Hb Hne s; [done|].
  repeat (apply Forall_cons in Hb as [? Hb]).
  rewrite !le_words_cons. cbn [cksum_swap cksum]. rewrite !byteswap by done.
  destruct (le_words a) eqn:E; [by rewrite (le_words_octets a Ha E)|].
  apply IH; [done|]. intros ->. done.
Qed.

Lemma cksum_plain_spec a : octets a → a ≠ [] → ∀ s, cksum_plain (le_words a) s = Some (cksum false a s).
Proof.
  induction 1 as [|b0 b1 b2 b3 b4 b5 b6 b7 a Ha IH]; intros Hne s; [done|].
  rewrite !le_words_cons. cbn [cksum_plain cksum].
  destruct (le_words a) eqn:E; [by rewrite (le_words_octets a Ha E)|].
  apply IH. intros ->. done.
Qed.

(** The unrolled loop does eight turns of the plain one. *)
Lemma cksum_unrolled_plain k : ∀ l s, length l = (16 * S k)%nat → cksum_unrolled l s = cksum_plain l s.
Proof.
  induction k as [|k IH]; intros l s Hl.
  - do 16 (destruct l as [|? l]; [cbn in Hl; lia|]). destruct l; [done|cbn in Hl; lia].
  - do 16 (destruct l as [|? l]; [cbn in Hl; lia|]). assert (length l = (16 * S k)%nat) as Hl' by (cbn in Hl; lia).
    cbn [cksum_unrolled cksum_plain]. destruct l as [|x l]; [done|]. by apply IH.
Qed.

Lemma le_words_length a : octets a → (4 * length (le_words a) = length a)%nat.
Proof. induction 1; [done|]. cbn [le_words length]. lia. Qed.

(** The three loops compute the same sum. *)
Lemma walChecksumBytes_spec native a s : is_bytes a → Z.of_nat (length a) `mod` 8 = 0 → a ≠ [] →
  walChecksumBytes native a s = Some (cksum (negb native) a (default (0, 0) s)).
Proof.
  intros Hb Hl Hne. unfold walChecksumBytes. rewrite Hl. cbn [Z.eqb negb]. pose proof (octets_mod a Hl) as Ho.
  destruct native; cbn [negb]; [|by apply cksum_swap_spec].
  destruct (Z.eqb_spec (Z.of_nat (length a) `mod` 64) 0) as [E|]; [|by apply cksum_plain_spec].
  rewrite (cksum_unrolled_plain (Z.to_nat (Z.of_nat (length a) / 64) - 1)); [by apply cksum_plain_spec|].
  pose proof (le_words_length a Ho). assert (0 < Z.of_nat (length a)) by (destruct a; [done|cbn; lia]). dm.
Qed.

(** ** Words in a buffer *)

Definition be_bytes (v : Z) : bytes := [u8 (v / 16777216); u8 (v / 65536); u8 (v / 256); u8 v].

Definition be_at (b : bytes) (i : nat) : Z :=
  match drop i b with b0 :: b1 :: b2 :: b3 :: _ => be_word b0 b1 b2 b3 | _ => 0 end.

Lemma put4_spec l b0 b1 b2 b3 r v : put4 (l ++ b0 :: b1 :: b2 :: b3 :: r) (Z.of_nat (length l)) v = Some (l ++ be_bytes v ++ r).
Proof.
  unfold put4. rewrite Nat2Z.id, drop_app_length, take_app_length. unfold sqlite3Put4byte.
  rewrite wr_0. do 3 (rewrite wr_Some by (simpl; lia); simpl).
  by rewrite !Z.shiftr_div_pow2.
Qed.

Lemma split4 (b : bytes) i : (i + 4 ≤ length b)%nat →
  ∃ l b0 b1 b2 b3 r, b = l ++ b0 :: b1 :: b2 :: b3 :: r ∧ length l = i.
Proof.
  intros H. exists (take i b). assert (length (drop i b) = (length b - i)%nat) as Hd by apply length_drop.
  pose proof (take_drop i b) as E. destruct (drop i b) as [|b0 [|b1 [|b2 [|b3 r]]]]; cbn in Hd; try lia.
  exists b0, b1, b2, b3, r. split; [by rewrite E|]. apply length_take_le. lia.
Qed.

Lemma get4_spec b i : is_bytes b → (i + 4 ≤ length b)%nat → get4 b (Z.of_nat i) = Some (be_at b i).
Proof.
  intros Hb H. destruct (split4 b i H) as (l & b0 & b1 & b2 & b3 & r & -> & <-).
  unfold get4, be_at. rewrite Nat2Z.id, !drop_app_length.
  apply Forall_app in Hb as [_ Hb]. repeat (apply Forall_cons in Hb as [? Hb]). unfold is_u8 in *.
  unfold sqlite3Get4byte, rd. simpl. f_equal.
  rewrite u32_id by (rewrite Z.shiftl_mul_pow2 by done; unfold is_u32; lia). rewrite <- !Z.lor_assoc.
  rewrite (lor_add b2 b3 8), (lor_add b1 _ 16), (lor_add b0 _ 24) by lia. unfold be_word. lia.
Qed.

Lemma be_at_bytes l v r : is_u32 v → be_at (l ++ be_bytes v ++ r) (length l) = v.
Proof. intros Hv. unfold be_at. rewrite drop_app_length. cbn. unfold be_word, u8, is_u32 in *. dm. Qed.

Lemma put4_take a i v : (i + 4 ≤ length a)%nat → put4 a (Z.of_nat i) v = Some (take i a ++ be_bytes v ++ drop (i + 4) a).
Proof.
  intros H. destruct (split4 a i H) as (l & b0 & b1 & b2 & b3 & r & -> & <-).
  rewrite put4_spec, take_app_length. do 3 f_equal. rewrite <- drop_drop, drop_app_length. done.
Qed.

(** ** Frames as bytes *)

Lemma is_bytes_be v : is_bytes (be_bytes v).
Proof. repeat constructor; apply is_u8_u8. Qed.

Lemma is_bytes_le v : is_bytes (le_bytes v).
Proof. repeat constructor; apply is_u8_u8. Qed.

(** The checksum after a frame. *)
Definition frame_sum (big : bool) (ck : Z * Z) (start data : bytes) : Z * Z := cksum big data (cksum big start ck).

Definition frame_header (big : bool) (salt ck : Z * Z) (pgno nTruncate : Z) (data : bytes) : bytes :=
  let start := be_bytes pgno ++ be_bytes nTruncate in
  let ck := frame_sum big ck start data in
  start ++ salt_bytes salt ++ be_bytes ck.1 ++ be_bytes ck.2.

Definition big_end (w : Wal) : bool := negb (nativeCksum w).

Definition page_size (n : Z) : Prop := 0 < n ∧ n `mod` 8 = 0.

Lemma walEncodeFrame_spec w pgno nTruncate aData aFrame : iReCksum w = 0 → length aFrame = 24%nat → is_bytes aData →
  Z.of_nat (length aData) = szPage w → page_size (szPage w) →
  walEncodeFrame w pgno nTruncate aData aFrame =
    Some (frame_header (big_end w) (aSalt (hdr w)) (aFrameCksum (hdr w)) pgno nTruncate aData,
      set_hdr w (set_aFrameCksum (hdr w)
        (frame_sum (big_end w) (aFrameCksum (hdr w)) (be_bytes pgno ++ be_bytes nTruncate) aData))).
Proof.
  intros Hre Hlf Hd Hld [Hp Hp8]. do 24 (destruct aFrame as [|? aFrame]; [done|]). destruct aFrame; [|done].
  unfold walEncodeFrame. change 0 with (Z.of_nat 0) at 1. rewrite put4_take by (cbn; lia). cbn [take drop app Nat.add].
  change 4 with (Z.of_nat 4). rewrite put4_take by (cbn; lia). cbn [take drop app be_bytes Nat.add].
  rewrite Hre. cbn [Z.eqb]. unfold splice at 1. rewrite decide_True by (cbn; lia).
  change (Z.to_nat 8) with 8%nat. cbn [salt_bytes le_bytes app length Nat.add take drop].
  unfold sub at 1. rewrite decide_True by (cbn; lia).
  change (Z.to_nat 8) with 8%nat. change (Z.to_nat 0) with O. cbn [take drop].
  rewrite walChecksumBytes_spec by (done || (repeat constructor; apply is_u8_u8)).
  rewrite sub_all by lia. rewrite walChecksumBytes_spec; [|done|by rewrite Hld|by intros ->; cbn in Hld; lia].
  change 16 with (Z.of_nat 16). rewrite put4_take by (cbn; lia). cbn [take drop app Nat.add be_bytes].
  change 20 with (Z.of_nat 20). rewrite put4_take by (cbn; lia). cbn [take drop app Nat.add be_bytes].
  reflexivity.
Qed.

(** What a frame of bytes is, after the checksum [ck]. *)
Definition parse_frame (big : bool) (salt ck : Z * Z) (b : bytes) : option (Z * Z * (Z * Z)) :=
  let ck := frame_sum big ck (take 8 b) (drop 24 b) in
  if bool_decide (salt_bytes salt = take 8 (drop 8 b)) && negb (be_at b 0 =? 0)
     && bool_decide (ck = (be_at b 16, be_at b 20))
  then Some (be_at b 0, be_at b 4, ck) else None.

Lemma be_at_take b i n : (i + 4 ≤ n)%nat → be_at (take n b) i = be_at b i.
Proof.
  intros H. unfold be_at. rewrite skipn_firstn_comm.
  destruct (n - i)%nat as [|[|[|[|m]]]] eqn:E; try lia. by destruct (drop i b) as [|b0 [|b1 [|b2 [|b3 r]]]].
Qed.

Lemma walDecodeFrame_spec w b : is_bytes b → Z.of_nat (length b) = szPage w + 24 → page_size (szPage w) →
  ∃ ck, walDecodeFrame w (drop 24 b) (take 24 b) =
    Some (match parse_frame (big_end w) (aSalt (hdr w)) (aFrameCksum (hdr w)) b with Some (p, t, _) => Some (p, t) | None => None end,
      set_hdr w (set_aFrameCksum (hdr w) ck)) ∧
    (∀ p t ck', parse_frame (big_end w) (aSalt (hdr w)) (aFrameCksum (hdr w)) b = Some (p, t, ck') → ck = ck').
Proof.
  intros Hb Hl [Hp Hp8]. unfold walDecodeFrame, parse_frame. set (ck1 := frame_sum _ _ _ _).
  assert (is_bytes (take 24 b)) as Hbt by by apply Forall_take.
  assert (length (take 24 b) = 24%nat) as Hlt by (rewrite length_take; lia).
  assert (w = set_hdr w (set_aFrameCksum (hdr w) (aFrameCksum (hdr w)))) as Hw by (destruct w as [??????[]]; done).
  change 8 with (Z.of_nat 8). rewrite sub_take by lia. rewrite skipn_firstn_comm, take_take. cbn [Nat.min Nat.sub].
  destruct (decide (salt_bytes (aSalt (hdr w)) = take 8 (drop 8 b))) as [E|E].
  2: { rewrite !bool_decide_false by done. cbn [negb andb]. exists (aFrameCksum (hdr w)). by rewrite <- Hw. }
  rewrite !bool_decide_true by done. cbn [negb andb]. change 0 with (Z.of_nat 0) at 1.
  rewrite get4_spec by (done || lia). rewrite be_at_take by lia.
  destruct (Z.eqb_spec (be_at b 0) 0) as [E0|E0]; cbn [negb andb].
  { exists (aFrameCksum (hdr w)). by rewrite <- Hw. }
  change 0 with (Z.of_nat 0) at 1. rewrite sub_take by lia. rewrite drop_0, take_take. cbn [Nat.min].
  rewrite walChecksumBytes_spec; [|by apply Forall_take|by rewrite length_take_le by lia|by destruct b; cbn in *; [lia|]].
  assert (length (drop 24 b) = Z.to_nat (szPage w)) as Hld by (rewrite length_drop; lia).
  rewrite sub_all by lia. rewrite walChecksumBytes_spec; [|by apply Forall_drop|rewrite Hld; rewrite Z2Nat.id by lia; done|].
  2: { intros E'. rewrite E' in Hld. cbn in Hld. lia. }
  change (cksum (negb (nativeCksum w)) (drop 24 b) _) with ck1. exists ck1.
  change 16 with (Z.of_nat 16). change 20 with (Z.of_nat 20). change 4 with (Z.of_nat 4).
  rewrite !get4_spec by (done || lia). rewrite !be_at_take by lia.
  destruct (decide (ck1 = (be_at b 16, be_at b 20))) as [Ek|Ek].
  - rewrite bool_decide_true by done. rewrite Ek at 1 2. cbn [fst snd]. rewrite !Z.eqb_refl. cbn [negb orb].
    split; [done|]. intros p t ck' [= <- <- <-]. done.
  - rewrite bool_decide_false by done. split; [|done].
    assert (negb (ck1.1 =? be_at b 16) || negb (ck1.2 =? be_at b 20) = true) as ->; [|done].
    apply orb_true_iff. rewrite !negb_true_iff, !Z.eqb_neq. destruct ck1 as [c1 c2]. cbn [fst snd].
    destruct (decide (c1 = be_at b 16)) as [->|]; [right|by left]. intros ->. done.
Qed.

(** ** Pages and the index *)

(** A page gives way to another that serves the same frames. *)
Lemma index_replace w P h p p' w' : index w P → 0 ≤ h → get_page w h = Some p → set_page w h p' = Some w' → shape p' →
  (zero_of h < Z.of_nat (length P) → table (first_off h) p' (segment h P)) → index w' P.
Proof.
  intros Hi Hh Hp Hw Hs Ht. destruct (set_page_spec w h p p' Hp) as (w1 & E & [a ->] & Ha & Hg & Hg').
  rewrite Hw in E. injection E as ->. split.
  - apply (i_frames _ _ Hi).
  - apply (i_pgno _ _ Hi).
  - intros h' p2 Hp2. destruct (decide (h' = h)) as [->|Hne].
    + rewrite Hg in Hp2. by injection Hp2 as <-.
    + rewrite Hg' in Hp2 by done. by apply (i_shape _ _ Hi h').
  - apply (i_answers _ _ Hi).
  - intros h' Hh' Hz. destruct (decide (h' = h)) as [->|Hne]; [eauto|].
    rewrite Hg' by done. by apply (i_table _ _ Hi).
Qed.

Lemma table_words o p L wd : table o p L → length wd = length (words p) → (∀ i, o ≤ i → rd wd i = rd (words p) i) →
  table o (mk_page wd (slots p)) L.
Proof.
  intros [H1 H2 H3 H4 H5 H6 H7] Hl Hr. split; cbn [words slots]; try done; [congruence|].
  intros i Hi. rewrite Hr by lia. by apply H4.
Qed.

(** A page can be had: the array grows, the page is mapped. *)
Definition good (a : answer) : Prop := grown a = true ∧ shm_rc a = SQLITE_OK ∧ is_Some (shm_page a).

Lemma walIndexPage_ready w P h : index w P → 0 ≤ h → Forall good (answers w) → answers w ≠ [] →
  ∃ w' p, walIndexPage w h = Some (SQLITE_OK, true, w') ∧ same w w' ∧ index w' P ∧ get_page w' h = Some p ∧
    Forall good (answers w') ∧ (length (answers w) ≤ S (length (answers w')))%nat.
Proof.
  intros Hi Hh Hgood Hne. destruct (get_page w h) as [p|] eqn:Hp.
  { exists w, p. unfold walIndexPage. apply get_page_rd in Hp as Hr. rewrite (proj2 (Z.leb_gt _ _)) by (apply rd_lt in Hr; lia).
    rewrite Hr. split_and!; auto using same_refl. }
  destruct (walIndexPageRealloc_spec w P h Hi Hh Hp) as (rc & b & w' & E & Hs & Hi' & Hb).
  assert (walIndexPage w h = walIndexPageRealloc w h) as Ew.
  { unfold walIndexPage. destruct (Z.leb_spec (Z.of_nat (length (apWiData w))) h); [done|].
    destruct (rd_is_Some (apWiData w) h) as [x Ex]; [lia|]. rewrite Ex. destruct x; [|done].
    exfalso. unfold get_page in Hp. by rewrite Ex in Hp. }
  rewrite Ew. clear Ew. assert (rc = SQLITE_OK ∧ b = true ∧ answers w' = tail (answers w)) as (-> & -> & Ea).
  { unfold walIndexPageRealloc in E. destruct (answers w) as [|a rest]; [done|].
    apply Forall_cons in Hgood as [(Hg & Hr & [p Epg]) _]. unfold mapped in E. rewrite Hg, Hr, Epg, andb_false_r in E. cbn [tail].
    destruct (exclusiveMode _ =? _); (destruct (wr _ h _) as [l|] in E; [|done]); injection E as <- <- <-; done. }
  destruct (Hb eq_refl) as (p & Hp'). exists w', p. split_and!; try done; rewrite Ea.
  - destruct (answers w); [done|]. by apply Forall_cons in Hgood as [_ ?].
  - destruct (answers w); [done|]. cbn. lia.
Qed.

(** ** What recovery is to find *)

(** The valid frames, [n] at most, with their page numbers, database sizes
    and checksums. *)
Fixpoint scan (n : nat) (big : bool) (salt ck : Z * Z) (szFrame : nat) (b : bytes) : list (Z * Z * (Z * Z)) :=
  match n with
  | O => []
  | S n =>
      match parse_frame big salt ck (take szFrame b) with
      | None => []
      | Some (p, t, ck) => (p, t, ck) :: scan n big salt ck szFrame (drop szFrame b)
      end
  end.

Definition pages_of (l : list (Z * Z * (Z * Z))) : list Z := map (λ x, x.1.1) l.

(** The number of the last frame that commits, its size and checksum. *)
Fixpoint last_commit (i : Z) (l : list (Z * Z * (Z * Z))) (acc : Z * Z * (Z * Z)) : Z * Z * (Z * Z) :=
  match l with
  | [] => acc
  | (_, t, ck) :: l => last_commit (i + 1) l (if t =? 0 then acc else (i, t, ck))
  end.

Fixpoint end_sum (ck : Z * Z) (l : list (Z * Z * (Z * Z))) : Z * Z :=
  match l with [] => ck | (_, _, ck) :: l => end_sum ck l end.

Lemma scan_length n big salt sz : ∀ ck b, (length (scan n big salt ck sz b) ≤ n)%nat.
Proof. induction n as [|n IH]; intros ck b; [done|]. cbn. case_match; [|cbn; lia]. destruct p as [[p t] ck']. cbn. specialize (IH ck' (drop sz b)). lia. Qed.

Lemma scan_app n m big salt sz : ∀ ck b,
  scan (n + m) big salt ck sz b =
    let l := scan n big salt ck sz b in
    if decide (length l = n) then l ++ scan m big salt (end_sum ck l) sz (drop (n * sz) b) else l.
Proof.
  induction n as [|n IH]; intros ck b; cbn [scan Nat.add].
  - cbn zeta. rewrite decide_True by done. cbn. by rewrite drop_0.
  - destruct (parse_frame big salt ck (take sz b)) as [[[p t] ck']|]; [|done].
    rewrite IH. cbn zeta. cbn [length end_sum]. destruct (decide (length (scan n big salt ck' sz (drop sz b)) = n)) as [E|E].
    + rewrite decide_True by lia. cbn [app]. rewrite drop_drop. do 3 f_equal.
    + by rewrite decide_False by lia.
Qed.

Lemma last_commit_app l1 l2 : ∀ i acc, last_commit i (l1 ++ l2) acc = last_commit (i + Z.of_nat (length l1)) l2 (last_commit i l1 acc).
Proof.
  induction l1 as [|[[p t] ck] l1 IH]; intros i acc; cbn [app last_commit length]; [by rewrite Z.add_0_r|].
  rewrite IH. f_equal. lia.
Qed.

(** ** Recovery of the frames *)

(** What the loops change: pages, and of the header all but the salts and
    the byte order. *)
Definition progress (w w' : Wal) : Prop :=
  ∃ a h, w' = set_hdr (set_apWiData w a) h ∧ aSalt h = aSalt (hdr w) ∧ bigEndCksum h = bigEndCksum (hdr w).

Lemma progress_refl w : progress w w.
Proof. exists (apWiData w), (hdr w). by destruct w. Qed.

Lemma progress_trans w1 w2 w3 : progress w1 w2 → progress w2 w3 → progress w1 w3.
Proof. intros (a & h & -> & H1 & H2) (a' & h' & -> & H1' & H2'). exists a', h'. cbn in *. split_and!; [done|congruence..]. Qed.

Lemma progress_touched w w' : touched w w' → progress w w'.
Proof. intros [a ->]. by exists a, (hdr w); destruct w. Qed.

Lemma progress_hdr w h : aSalt h = aSalt (hdr w) → bigEndCksum h = bigEndCksum (hdr w) → progress w (set_hdr w h).
Proof. exists (apWiData w), h. by destruct w. Qed.

Lemma index_hdr w h P : index w P → index (set_hdr w h) P.
Proof. by intros [H1 H2 H3 H4 H5]. Qed.

Lemma be_at_nonneg b i : is_bytes b → 0 ≤ be_at b i.
Proof.
  intros Hb. unfold be_at. apply (Forall_drop _ i) in Hb. destruct (drop i b) as [|b0 [|b1 [|b2 [|b3 r]]]]; try done.
  repeat (apply Forall_cons in Hb as [? Hb]). unfold be_word, is_u8 in *. lia.
Qed.

(** Reads of a file whose calls succeed. *)
Lemma read_ok w n ofst : io_codes (pWalFd w) = [] → 0 ≤ n → 0 ≤ ofst → ofst + n ≤ Z.of_nat (length (content (pWalFd w))) →
  sqlite3OsRead (pWalFd w) n ofst =
    (SQLITE_OK, take (Z.to_nat n) (drop (Z.to_nat ofst) (content (pWalFd w))), pWalFd w) ∧
  set_pWalFd w (pWalFd w) = w ∧
  Z.of_nat (length (take (Z.to_nat n) (drop (Z.to_nat ofst) (content (pWalFd w))))) = n.
Proof.
  intros Hio Hn Ho Hl. unfold sqlite3OsRead. rewrite Hio. cbn [next_code].
  assert (length (take (Z.to_nat n) (drop (Z.to_nat ofst) (content (pWalFd w)))) = Z.to_nat n) as E.
  { rewrite length_take, length_drop. lia. }
  rewrite E, Nat.sub_diag. cbn [replicate SQLITE_OK Z.eqb negb]. rewrite app_nil_r, (proj2 (Z.ltb_ge _ _)) by lia.
  split; [|split; [by destruct w|lia]]. do 2 f_equal. destruct (pWalFd w); cbn in *; by subst.
Qed.

Lemma recover_frames_spec sz h n : ∀ w P iFrame ck p,
  index w P → iFrame = Z.of_nat (length P) + 1 → io_codes (pWalFd w) = [] → is_bytes (content (pWalFd w)) →
  szPage w = sz → page_size sz → walFrameOffset (iFrame + Z.of_nat n) sz ≤ Z.of_nat (length (content (pWalFd w))) →
  iFrame + Z.of_nat n ≤ MAX_FRAMES → 0 ≤ h → zero_of h < iFrame → iFrame - 1 + Z.of_nat n ≤ last_of h →
  get_page w h = Some p →
  let l := scan n (big_end w) (aSalt (hdr w)) (aFrameCksum (hdr w)) (Z.to_nat (sz + 24))
             (drop (Z.to_nat (walFrameOffset iFrame sz)) (content (pWalFd w))) in
  ∃ w' p', recover_frames n w sz iFrame SQLITE_OK ck =
      Some (SQLITE_OK, iFrame + Z.of_nat (length l), (last_commit iFrame l (mxFrame (hdr w), nPage (hdr w), ck)).2, w') ∧
    index w' (P ++ pages_of l) ∧ progress w w' ∧
    (mxFrame (hdr w'), nPage (hdr w')) = (last_commit iFrame l (mxFrame (hdr w), nPage (hdr w), ck)).1 ∧
    get_page w' h = Some p' ∧ (length l = n → aFrameCksum (hdr w') = end_sum (aFrameCksum (hdr w)) l).
Proof.
  induction n as [|n IH]; intros w P iFrame ck p Hi HiF Hio Hb Hsz Hps Hoff Hmax Hh Hz Hlast Hp l.
  { exists w, p. cbn [recover_frames]. unfold l. cbn. rewrite Z.add_0_r, app_nil_r. split_and!; auto using progress_refl. }
  cbn [recover_frames]. destruct Hps as [Hps Hps8]. unfold walFrameOffset, WAL_HDRSIZE, WAL_FRAME_HDRSIZE in *.
  set (ofst := 32 + (iFrame - 1) * (sz + 24)) in *.
  assert (Hin : ofst + (sz + 24) ≤ Z.of_nat (length (content (pWalFd w)))) by nia.
  destruct (read_ok w (sz + 24) ofst) as (-> & -> & Hlb); [done|lia|lia|done|].
  set (b := take (Z.to_nat (sz + 24)) (drop (Z.to_nat ofst) (content (pWalFd w)))) in *.
  rewrite Z.eqb_refl. cbn [negb].
  assert (is_bytes b) as Hbb by by apply Forall_take, Forall_drop.
  destruct (walDecodeFrame_spec w b) as (ck1 & E & Hck1); [done|lia|by rewrite Hsz|]. rewrite E.
  set (w1 := set_hdr w (set_aFrameCksum (hdr w) ck1)).
  unfold l. cbn [scan]. fold b. destruct (parse_frame (big_end w) (aSalt (hdr w)) (aFrameCksum (hdr w)) b) as [[[q t] ck2]|] eqn:Ep.
  2: { exists w1, p. cbn. rewrite Z.add_0_r, app_nil_r. split_and!; try done; [by apply index_hdr|by apply progress_hdr]. }
  assert (ck1 = ck2) as -> by by eapply Hck1. clear Hck1.
  assert (0 < q) as Hq.
  { unfold parse_frame in Ep. destruct (bool_decide _ && negb (be_at b 0 =? 0) && _) eqn:E'; [|done]. injection Ep as <- _ _.
    pose proof (be_at_nonneg b 0 Hbb). lia. }
  assert (walFramePage iFrame = h) as Hpage by (apply walFramePage_unique; lia).
  destruct (walIndexAppend_spec w1 P iFrame q) as (rc & w2 & -> & _ & H & Hm); [by apply index_hdr|lia|done|lia|].
  destruct (Hm p) as [-> Ht]; [by rewrite Hpage|]. destruct H as [[_ Hi2]|[? _]]; [|done].
  replace (Z.to_nat (iFrame - 1)) with (length P) in Hi2 by lia. rewrite take_ge in Hi2 by lia.
  rewrite Z.eqb_refl. cbn [negb].
  destruct Ht as [a Ea]. destruct (i_table _ _ Hi2 h Hh) as (p2 & Hp2 & _); [rewrite length_app; cbn; lia|].
  set (w3 := if t =? 0 then w2 else set_hdr w2 (set_commit (hdr w2) iFrame t sz)).
  assert (Hgo : (if negb (t =? 0)
      then recover_frames n (set_hdr w2 (set_commit (hdr w2) iFrame t sz)) sz (iFrame + 1) SQLITE_OK
             (WalIndex.aFrameCksum (hdr (set_hdr w2 (set_commit (hdr w2) iFrame t sz))))
      else recover_frames n w2 sz (iFrame + 1) SQLITE_OK ck) =
    recover_frames n w3 sz (iFrame + 1) SQLITE_OK (if t =? 0 then ck else ck2)).
  { unfold w3. rewrite Ea. by destruct (t =? 0). }
  rewrite Hgo. clear Hgo.
  assert (progress w w3 ∧ get_page w3 h = Some p2 ∧ index w3 (P ++ [q]) ∧ aFrameCksum (hdr w3) = ck2 ∧
    (mxFrame (hdr w3), nPage (hdr w3), if t =? 0 then ck else ck2) =
      (if t =? 0 then (mxFrame (hdr w), nPage (hdr w), ck) else (iFrame, t, ck2))) as (Hpr & Hp3 & Hi3 & Hck3 & Hacc).
  { unfold w3. destruct (t =? 0).
    - split_and!; try done; rewrite Ea; try done. by eexists _, _.
    - split_and!; try done; [rewrite Ea; by eexists _, _|by apply index_hdr|by rewrite Ea]. }
  destruct Hpr as (a3 & h3 & Ew3 & Hsalt & Hbig).
  assert (Hoff' : 32 + (iFrame + 1 - 1) * (sz + 24) = ofst + (sz + 24)) by (unfold ofst; lia).
  destruct (IH w3 (P ++ [q]) (iFrame + 1) (if t =? 0 then ck else ck2) p2) as (w' & p' & Er & Hi' & Hpr' & Hmx & Hp' & Hsum);
    try done; try (rewrite Ew3; done); try lia.
  - rewrite length_app. cbn. lia.
  - rewrite Ew3. cbn [pWalFd set_hdr set_apWiData]. lia.
  - assert (progress w w3) as Hpr by (by exists a3, h3).
    assert (pWalFd w3 = pWalFd w ∧ big_end w3 = big_end w ∧ aSalt (hdr w3) = aSalt (hdr w)) as (Ef & Ebig & Esalt).
    { rewrite Ew3. cbn. split_and!; try done. unfold big_end, nativeCksum. cbn. by rewrite Hbig. }
    rewrite Ef, Ebig, Esalt, Hck3, Hoff' in Er, Hi', Hmx, Hsum.
    replace (drop (Z.to_nat (ofst + (sz + 24))) (content (pWalFd w))) with
      (drop (Z.to_nat (sz + 24)) (drop (Z.to_nat ofst) (content (pWalFd w)))) in Er, Hi', Hmx, Hsum
      by (rewrite drop_drop; f_equal; lia).
    rewrite Er. exists w', p'. cbn [length pages_of map fst last_commit end_sum].
    rewrite <- Hacc. rewrite Nat2Z.inj_succ, <- Z.add_1_l, Z.add_assoc. split_and!; try done.
    + by rewrite <- (assoc_L (++)) in Hi'.
    + by eapply progress_trans.
    + intros Hl. apply Hsum. lia.
Qed.

(** What recovery leaves as it was. *)
Definition advance (w w' : Wal) : Prop :=
  pWalFd w' = pWalFd w ∧ szPage w' = szPage w ∧ held w' = held w ∧ shm_locks w' = shm_locks w ∧
  exclusiveMode w' = exclusiveMode w ∧ ckptLock w' = ckptLock w ∧ aSalt (hdr w') = aSalt (hdr w) ∧
  bigEndCksum (hdr w') = bigEndCksum (hdr w) ∧ nCkpt w' = nCkpt w.

Lemma advance_trans w1 w2 w3 : advance w1 w2 → advance w2 w3 → advance w1 w3.
Proof. unfold advance. intros H1 H2. destruct_and! H1. destruct_and! H2. split_and!; congruence. Qed.

Lemma advance_refl w : advance w w.
Proof. by repeat split. Qed.

Lemma advance_same w w' : same w w' → advance w w'.
Proof. unfold same. intros H. destruct_and! H. unfold advance. split_and!; congruence. Qed.

Lemma advance_progress w w' : progress w w' → advance w w'.
Proof. intros (a & h & -> & H1 & H2). by repeat split. Qed.

(** The page that was filled in private memory, and the header that stays. *)
Lemma table_copy h share priv L : shape share → shape priv → table (first_off h) priv L →
  table (first_off h) (mk_page (take (Z.to_nat (first_off h)) (words share) ++ drop (Z.to_nat (first_off h)) (words priv)) (slots priv)) L.
Proof.
  intros [Hs _] [Hp _] Ht. unfold HASHTABLE_NPAGE in *.
  assert (0 ≤ first_off h ≤ 34) by (unfold first_off; case_match; lia).
  apply (table_words _ priv); [done|rewrite length_app, length_take, length_drop; lia|].
  intros i Hi. unfold rd. rewrite !decide_True by lia.
  rewrite lookup_app_r by (rewrite length_take; lia). rewrite lookup_drop, length_take. f_equal. lia.
Qed.

Lemma shape_copy k share priv : (k ≤ 4096)%nat → shape share → shape priv →
  shape (mk_page (take k (words share) ++ drop k (words priv)) (slots priv)).
Proof.
  intros Hk [Hs _] [Hp Hp']. split; [|done]. cbn [words]. unfold HASHTABLE_NPAGE in *.
  rewrite length_app, length_take, length_drop. lia.
Qed.

(** One page of the index. *)
Lemma recover_page w P iPg aPrivate sz N ck :
  index w P → Z.of_nat (length P) = zero_of iPg → 0 ≤ iPg → zero_of iPg ≤ N → shape aPrivate → answers w ≠ [] →
  Forall good (answers w) → io_codes (pWalFd w) = [] → is_bytes (content (pWalFd w)) → szPage w = sz → page_size sz →
  walFrameOffset (N + 1) sz ≤ Z.of_nat (length (content (pWalFd w))) → N < MAX_FRAMES → iPg ≤ 524288 →
  let k := Z.to_nat (Z.min N (last_of iPg) - zero_of iPg) in
  let l := scan k (big_end w) (aSalt (hdr w)) (aFrameCksum (hdr w)) (Z.to_nat (sz + 24))
             (drop (Z.to_nat (walFrameOffset (zero_of iPg + 1) sz)) (content (pWalFd w))) in
  let acc := last_commit (zero_of iPg + 1) l (mxFrame (hdr w), nPage (hdr w), ck) in
  ∃ w' p', (∀ n, recover_pages (S n) w sz N iPg aPrivate SQLITE_OK ck =
      if Z.of_nat (length l) <? Z.of_nat k then Some (SQLITE_OK, acc.2, w')
      else recover_pages n w' sz N (iPg + 1) p' SQLITE_OK acc.2) ∧
    index w' (P ++ pages_of l) ∧ advance w w' ∧ shape p' ∧ (mxFrame (hdr w'), nPage (hdr w')) = acc.1 ∧
    Forall good (answers w') ∧ (length (answers w) ≤ S (length (answers w')))%nat ∧
    (length l = k → aFrameCksum (hdr w') = end_sum (aFrameCksum (hdr w)) l) ∧ (∃ p, get_page w' iPg = Some p).
Proof.
  intros Hi HP Hpg HN Hpriv Hne Hgood Hio Hb Hsz Hps Hoff Hmax Hpg' k l acc.
  destruct (walIndexPage_ready w P iPg) as (w1 & share & E1 & Hs1 & Hi1 & Hp1 & Hg1 & Hl1); try done.
  destruct (set_page_spec w1 iPg share aPrivate Hp1) as (w2 & E2 & Ht2 & Ha2 & Hp2 & Hp2').
  assert (index w2 P) as Hi2.
  { apply (index_replace w1 P iPg share aPrivate); try done. lia. }
  assert (same w w2) as Hs2 by (by eapply same_trans, touched_same).
  pose proof (zero_of_pos iPg). pose proof (zero_of_next iPg Hpg).
  assert (0 ≤ first_off iPg ≤ 34) by (unfold first_off; case_match; lia).
  assert (Ehdr : hdr w2 = hdr w ∧ pWalFd w2 = pWalFd w ∧ szPage w2 = szPage w) by (unfold same in Hs2; destruct_and! Hs2; done).
  destruct Ehdr as (Ehdr & Efd & Esz).
  assert (big_end w2 = big_end w) as Ebig by (unfold big_end, nativeCksum; by rewrite Ehdr).
  destruct (recover_frames_spec sz iPg k w2 P (zero_of iPg + 1) ck aPrivate) as (w3 & p3 & E3 & Hi3 & Hpr3 & Hmx3 & Hp3 & Hsum3);
    try done; try (by rewrite ?Efd, ?Esz); try (unfold MAX_FRAMES in *; lia).
  { rewrite Efd. unfold walFrameOffset, WAL_HDRSIZE, WAL_FRAME_HDRSIZE in *. unfold page_size in Hps. nia. }
  rewrite Ehdr, Efd, Ebig in E3, Hi3, Hmx3, Hsum3. fold l in E3, Hi3, Hmx3, Hsum3. fold acc in E3, Hmx3.
  assert (Hsh : shape share) by (apply (i_shape _ _ Hi1 iPg); done).
  assert (Hsp : shape p3) by (apply (i_shape _ _ Hi3 iPg); done).
  set (pf := mk_page (take (Z.to_nat (first_off iPg)) (words share) ++ drop (Z.to_nat (first_off iPg)) (words p3)) (slots p3)).
  assert (shape pf) as Hspf by (apply shape_copy; done || lia).
  destruct (set_page_spec w3 iPg p3 pf Hp3) as (w4 & E4 & Ht4 & Ha4 & Hp4 & Hp4').
  assert (index w4 (P ++ pages_of l)) as Hi4.
  { apply (index_replace w3 _ iPg p3 pf); try done. intros Hz. destruct (i_table _ _ Hi3 iPg Hpg Hz) as (p3' & Hp3' & Ht).
    rewrite Hp3 in Hp3'. injection Hp3' as <-. by apply table_copy. }
  assert (advance w w4) as Hadv.
  { eapply advance_trans; [by apply advance_same|]. eapply advance_trans; [by apply advance_progress|].
    by apply advance_same, touched_same. }
  assert (hdr w4 = hdr w3) as Eh4 by (destruct Ht4 as [? ->]; done).
  assert (answers w4 = answers w1) as Ea4.
  { rewrite Ha4. destruct Hpr3 as (? & ? & -> & _). by rewrite <- Ha2. }
  exists w4, p3. split.
  { intros n. cbn [recover_pages].
    change HASHTABLE_NPAGE_ONE with 4062. change HASHTABLE_NPAGE with 4096.
    assert (u32 (4062 + iPg * 4096) = last_of iPg) as ->.
    { unfold last_of. rewrite u32_id by (unfold is_u32; lia). lia. }
    assert ((1 + (if iPg =? 0 then 0 else u32 (4062 + (iPg - 1) * 4096))) = zero_of iPg + 1) as ->.
    { unfold zero_of, last_of. destruct (Z.eqb_spec iPg 0) as [->|]; [done|]. rewrite u32_id by (unfold is_u32; lia). lia. }
    rewrite E1. cbn [negb]. rewrite Hp1, E2.
    replace (Z.to_nat (Z.min N (last_of iPg) - (zero_of iPg + 1) + 1)) with k by (unfold k; lia).
    rewrite E3, Hp3. change (WALINDEX_HDR_SIZE / 4) with 34.
    assert ((if iPg =? 0 then Z.to_nat 34 else O) = Z.to_nat (first_off iPg)) as -> by (unfold first_off; by destruct (iPg =? 0)).
    fold pf. rewrite E4.
    destruct (Z.leb_spec (zero_of iPg + 1 + Z.of_nat (length l)) (Z.min N (last_of iPg))),
      (Z.ltb_spec (Z.of_nat (length l)) (Z.of_nat k)); done || (unfold k in *; lia). }
  rewrite Eh4, Ea4. split_and!; try done.
  eauto.
Qed.

Lemma drop_offset sz f k (c : bytes) : 0 ≤ f → 0 < sz →
  drop (k * Z.to_nat (sz + 24)) (drop (Z.to_nat (walFrameOffset (f + 1) sz)) c) =
  drop (Z.to_nat (walFrameOffset (f + Z.of_nat k + 1) sz)) c.
Proof.
  intros Hf Hsz. rewrite drop_drop. f_equal. unfold walFrameOffset, WAL_HDRSIZE, WAL_FRAME_HDRSIZE. nia.
Qed.

Lemma pages_of_app l1 l2 : pages_of (l1 ++ l2) = pages_of l1 ++ pages_of l2.
Proof. apply map_app. Qed.

(** All the pages of the index. *)
Lemma recover_pages_spec sz N n : ∀ w P iPg aPrivate ck,
  index w P → Z.of_nat (length P) = zero_of iPg → 0 ≤ iPg → Z.of_nat n = walFramePage N + 1 - iPg → (0 < n)%nat →
  shape aPrivate → (n ≤ length (answers w))%nat →
  Forall good (answers w) → io_codes (pWalFd w) = [] → is_bytes (content (pWalFd w)) → szPage w = sz → page_size sz →
  walFrameOffset (N + 1) sz ≤ Z.of_nat (length (content (pWalFd w))) → 0 ≤ N < MAX_FRAMES →
  let l := scan (Z.to_nat (N - zero_of iPg)) (big_end w) (aSalt (hdr w)) (aFrameCksum (hdr w)) (Z.to_nat (sz + 24))
             (drop (Z.to_nat (walFrameOffset (zero_of iPg + 1) sz)) (content (pWalFd w))) in
  let acc := last_commit (zero_of iPg + 1) l (mxFrame (hdr w), nPage (hdr w), ck) in
  ∃ w', recover_pages n w sz N iPg aPrivate SQLITE_OK ck = Some (SQLITE_OK, acc.2, w') ∧
    index w' (P ++ pages_of l) ∧ advance w w' ∧ (mxFrame (hdr w'), nPage (hdr w')) = acc.1 ∧
    (P = [] → iPg = 0) ∧ (∃ p, get_page w' 0 = Some p).
Proof.
  induction n as [|n IH]; intros w P iPg aPrivate ck Hi HP Hpg Hn Hn0 Hpriv Hans Hgood Hio Hb Hsz Hps Hoff HN l acc; [lia|].
  assert (Hfp : walFramePage N = (N + 33) / 4096) by (apply walFramePage_spec; lia).
  assert (Hz : zero_of iPg ≤ N ∧ iPg ≤ 524288) by (unfold zero_of, last_of, MAX_FRAMES in *; dm).
  destruct Hz as [Hz Hpg']. pose proof (zero_of_pos iPg) as Hz0. pose proof (zero_of_next iPg Hpg) as Hzn.
  assert (0 ≤ first_off iPg ≤ 34) by (unfold first_off; case_match; lia).
  destruct (recover_page w P iPg aPrivate sz N ck) as (w1 & p1 & E1 & Hi1 & Hadv1 & Hsp1 & Hmx1 & Hg1 & Hl1 & Hsum1 & Hp1);
    try done; [intros E; rewrite E in Hans; cbn in Hans; lia|lia|].
  set (k := Z.to_nat (Z.min N (last_of iPg) - zero_of iPg)) in *.
  set (b := drop (Z.to_nat (walFrameOffset (zero_of iPg + 1) sz)) (content (pWalFd w))) in *.
  set (l1 := scan k (big_end w) (aSalt (hdr w)) (aFrameCksum (hdr w)) (Z.to_nat (sz + 24)) b) in *.
  assert (Hl : l = if decide (length l1 = k) then l1 ++ scan (Z.to_nat (N - zero_of iPg) - k) (big_end w) (aSalt (hdr w))
      (end_sum (aFrameCksum (hdr w)) l1) (Z.to_nat (sz + 24)) (drop (k * Z.to_nat (sz + 24)) b) else l1).
  { unfold l. replace (Z.to_nat (N - zero_of iPg)) with (k + (Z.to_nat (N - zero_of iPg) - k))%nat by lia. by rewrite scan_app, Nat.add_sub_swap, Nat.sub_diag by lia. }
  pose proof (scan_length k (big_end w) (aSalt (hdr w)) (Z.to_nat (sz + 24)) (aFrameCksum (hdr w)) b) as Hlen. fold l1 in Hlen.
  assert (∀ Q, index w1 Q → Q ≠ [] ∨ iPg = 0 → ∃ p, get_page w1 0 = Some p) as Hp0.
  { intros Q HQ [Hne| ->]; [|done]. destruct (i_table _ _ HQ 0) as (p & ? & _); [done| |by exists p].
    unfold zero_of, last_of. destruct Q; [done|cbn; lia]. }
  assert (P = [] → iPg = 0) as HPnil.
  { intros ->. cbn in HP. unfold zero_of, last_of in HP. lia. }
  rewrite E1. destruct (Z.ltb_spec (Z.of_nat (length l1)) (Z.of_nat k)) as [Hlt|Hge].
  - rewrite decide_False in Hl by lia. unfold acc. rewrite Hl. exists w1. split_and!; try done.
    apply (Hp0 (P ++ pages_of l1)); [done|]. destruct P; [by right; apply HPnil|by left].
  - rewrite decide_True in Hl by lia. destruct n as [|n'].
    + (* the last page *)
      assert (Z.to_nat (N - zero_of iPg) - k = 0)%nat as E0 by (unfold k, zero_of, last_of in *; dm).
      rewrite E0 in Hl. cbn [scan] in Hl. rewrite app_nil_r in Hl. unfold acc. rewrite Hl.
      cbn [recover_pages]. exists w1. split_and!; try done.
      apply (Hp0 (P ++ pages_of l1)); [done|]. destruct P; [by right; apply HPnil|by left].
    + assert (last_of iPg < N) as HlN by (unfold last_of in *; dm).
      assert (Z.of_nat k = last_of iPg - zero_of iPg) as Hk by (unfold k; lia).
      assert (zero_of (iPg + 1) = last_of iPg) as Hznext by (unfold zero_of; f_equal; lia).
      pose proof Hadv1 as (Efd & Esz & _ & _ & _ & _ & Esalt & Ebig & _).
      assert (big_end w1 = big_end w) as Ebig' by (unfold big_end, nativeCksum; by rewrite Ebig).
      destruct (IH w1 (P ++ pages_of l1) (iPg + 1) p1 (last_commit (zero_of iPg + 1) l1 (mxFrame (hdr w), nPage (hdr w), ck)).2)
        as (w' & E' & Hi' & Hadv' & Hmx' & _ & Hp'); rewrite ?Efd, ?Esz; try done; try lia.
      { rewrite length_app. unfold pages_of. rewrite length_map. lia. }
      rewrite Efd, Ebig', Esalt, Hsum1, Hznext in E', Hi', Hmx' by lia.
      replace (drop (Z.to_nat (walFrameOffset (last_of iPg + 1) sz)) (content (pWalFd w))) with (drop (k * Z.to_nat (sz + 24)) b) in E', Hi', Hmx'.
      2: { unfold b. rewrite drop_offset by (done || (unfold page_size in *; lia)). do 2 f_equal. f_equal. lia. }
      replace (Z.to_nat (N - last_of iPg)) with (Z.to_nat (N - zero_of iPg) - k)%nat in E', Hi', Hmx' by lia.
      assert (acc = last_commit (last_of iPg + 1)
          (scan (Z.to_nat (N - zero_of iPg) - k) (big_end w) (aSalt (hdr w)) (end_sum (aFrameCksum (hdr w)) l1)
             (Z.to_nat (sz + 24)) (drop (k * Z.to_nat (sz + 24)) b))
          (mxFrame (hdr w1), nPage (hdr w1), (last_commit (zero_of iPg + 1) l1 (mxFrame (hdr w), nPage (hdr w), ck)).2)) as Hacc.
      { unfold acc. rewrite Hl, last_commit_app, Hmx1. f_equal; [lia|]. by destruct (last_commit _ l1 _). }
      rewrite <- Hacc in E', Hmx'. exists w'. rewrite Hl, pages_of_app, (assoc_L (++)), E'. split_and!; try done.
      by eapply advance_trans.
Qed.

(** ** The header of the log *)

Lemma power_page_size n : Z.land n (n - 1) = 0 → 512 ≤ n → page_size n.
Proof.
  intros Hp Hn. split; [lia|]. destruct (decide (n `mod` 8 = 0)) as [|Hm]; [done|exfalso].
  assert (Z.shiftr (n - 1) 3 = Z.shiftr n 3) as E by (rewrite !Z.shiftr_div_pow2 by done; change (2 ^ 3) with 8; dm).
  assert (Z.land (Z.shiftr n 3) (Z.shiftr (n - 1) 3) = 0) as E' by (by rewrite <- Z.shiftr_land, Hp).
  rewrite E, Z.land_diag, Z.shiftr_div_pow2 in E' by done. change (2 ^ 3) with 8 in E'. dm.
Qed.

(** The first 32 bytes of a log of pages of [sz] bytes, with checksums of the
    given byte order. *)
Record is_header (b : bytes) (big : bool) (sz ckpt : Z) (salt ck : Z * Z) : Prop := {
  h_magic : be_at b 0 = WAL_MAGIC + (if big then 1 else 0);
  h_version : be_at b 4 = WAL_MAX_VERSION;
  h_size : be_at b 8 = sz;
  h_power : Z.land sz (sz - 1) = 0 ∧ 512 ≤ sz ≤ 65536;
  h_ckpt : be_at b 12 = ckpt;
  h_salt : take 8 (drop 16 b) = salt_bytes salt;
  h_u32 : is_u32 salt.1 ∧ is_u32 salt.2;
  h_sum : cksum big (take 24 b) (0, 0) = ck;
  h_sum1 : be_at b 24 = ck.1;
  h_sum2 : be_at b 28 = ck.2
}.

Lemma salt_words salt : is_u32 salt.1 → is_u32 salt.2 → le_words (salt_bytes salt) = [salt.1; salt.2].
Proof.
  unfold is_u32. intros H1 H2. destruct salt as [s1 s2]. cbn in *. unfold u8.
  f_equal; [dm|]. f_equal. dm.
Qed.

Lemma recover_header_spec w b big sz ckpt salt ck : is_bytes b → length b = 32%nat → is_header b big sz ckpt salt ck →
  recover_header w b = Some (Some sz, set_hdr (set_nCkpt (WalIndex.set_szPage w sz) ckpt)
    (mk_hdr (iVersion (hdr w)) (unused (hdr w)) (iChange (hdr w)) (isInit (hdr w)) (if big then 1 else 0) (hdr_szPage (hdr w))
      (mxFrame (hdr w)) (nPage (hdr w)) ck salt (aCksum (hdr w)))) ∧ get4 b 4 = Some WAL_MAX_VERSION.
Proof.
  intros Hb Hl [Hm Hv Hs [Hp Hr] Hc Hsalt [Hu1 Hu2] Hck Hck1 Hck2]. unfold recover_header.
  assert (∀ i, (i + 4 ≤ 32)%nat → get4 b (Z.of_nat i) = Some (be_at b i)) as G by (intros; apply get4_spec; [done|lia]).
  rewrite (G 0%nat ltac:(lia) : get4 b 0 = _), (G 4%nat ltac:(lia) : get4 b 4 = _), (G 8%nat ltac:(lia) : get4 b 8 = _),
    (G 12%nat ltac:(lia) : get4 b 12 = _), (G 24%nat ltac:(lia) : get4 b 24 = _), (G 28%nat ltac:(lia) : get4 b 28 = _).
  rewrite Hm, Hs, Hc, Hv, Hck1, Hck2. split; [|done].
  assert (i32 sz = sz) as -> by (unfold i32; dm). rewrite Hp.
  assert (Z.land (WAL_MAGIC + (if big then 1 else 0)) 0xFFFFFFFE = WAL_MAGIC) as -> by by destruct big.
  assert (u8 (Z.land (WAL_MAGIC + (if big then 1 else 0)) 1) = if big then 1 else 0) as -> by by destruct big.
  rewrite !Z.eqb_refl, (proj2 (Z.ltb_ge _ _)), (proj2 (Z.ltb_ge _ _)) by lia. cbn [negb orb].
  change 16 with (Z.of_nat 16). change 8 with (Z.of_nat 8) at 1. rewrite sub_take, Hsalt, salt_words by (done || lia).
  unfold WAL_HDRSIZE. change (32 - 2 * 4) with (Z.of_nat 24). change 0 with (Z.of_nat 0) at 1. rewrite sub_take by lia.
  rewrite drop_0. rewrite walChecksumBytes_spec;
    [|by apply Forall_take|by rewrite length_take, Hl|by intros E; apply (f_equal length) in E; rewrite length_take, Hl in E].
  assert (negb ((if big then 1 else 0) =? SQLITE_BIGENDIAN) = big) as -> by by destruct big.
  cbn [default]. change (default (0, 0) None) with (0, 0). rewrite Hck, !Z.eqb_refl. cbn [negb orb]. by destruct salt.
Qed.

(** ** The header of the index *)

Definition fits (h : WalIndexHdr) : Prop := is_u8 (isInit h) ∧ is_u8 (bigEndCksum h).

(** The header with its checksum. *)
Definition published (h : WalIndexHdr) : WalIndexHdr := set_cksummed h (cksum false (hdr_bytes (set_cksummed h (aCksum h))) (0, 0)).

Lemma hdr_words_spec h r : fits h → hdr_of_words (hdr_words h ++ r) = Some h.
Proof.
  intros [H1 H2]. destruct h as [v u c i b s m n [f1 f2] [s1 s2] [c1 c2]]. cbn in *. unfold is_u8, u8 in *.
  do 2 f_equal; dm.
Qed.

(** Every list of words gives bytes, four for each. *)
Lemma flat_le_bytes l : is_bytes (flat_map le_bytes l) ∧ length (flat_map le_bytes l) = (4 * length l)%nat.
Proof.
  induction l as [|x l [IH1 IH2]]; [split; [constructor|done]|]. cbn [flat_map]. split.
  - apply Forall_app. split; [apply is_bytes_le|done].
  - rewrite length_app, IH2. cbn. lia.
Qed.

Lemma cksum_words l : length l = 10%nat →
  walChecksumBytes true (flat_map le_bytes l) None = Some (cksum false (flat_map le_bytes l) (0, 0)).
Proof.
  intros Hl. destruct (flat_le_bytes l) as [Hb Hn]. rewrite walChecksumBytes_spec; [done|done|by rewrite Hn, Hl|].
  intros E. rewrite E, Hl in Hn. done.
Qed.

(** The words of the header of the index, and the frames that stay. *)
Lemma set_head w P p wd : index w P → get_page w 0 = Some p → length wd = length (words p) →
  (∀ i, 34 ≤ i → rd wd i = rd (words p) i) →
  ∃ w', set_page w 0 (mk_page wd (slots p)) = Some w' ∧ touched w w' ∧ index w' P ∧ get_page w' 0 = Some (mk_page wd (slots p)).
Proof.
  intros Hi Hp Hl Hr. destruct (set_page_spec w 0 p (mk_page wd (slots p)) Hp) as (w' & E & Ht & _ & Hp' & _).
  exists w'. split_and!; try done. destruct (i_shape _ _ Hi 0 p Hp) as [Hs1 Hs2].
  apply (index_replace w P 0 p (mk_page wd (slots p))); try done.
  - split; cbn [words slots]; [by rewrite Hl|done].
  - intros Hz. destruct (i_table _ _ Hi 0) as (p' & Hp2 & Ht'); [done|done|]. rewrite Hp in Hp2. injection Hp2 as <-.
    by apply table_words.
Qed.

Lemma set_word_spec w P p i v : index w P → get_page w 0 = Some p → 0 ≤ i < 34 →
  ∃ w' p', set_word w i v = Some w' ∧ touched w w' ∧ index w' P ∧ get_page w' 0 = Some p' ∧ rd (words p') i = Some v ∧
    ∀ j, i ≠ j → rd (words p') j = rd (words p) j.
Proof.
  intros Hi Hp Hr. unfold set_word. rewrite Hp. destruct (i_shape _ _ Hi 0 p Hp) as [Hs _]. change (Z.to_nat HASHTABLE_NPAGE) with 4096%nat in Hs.
  destruct (wr (words p) i v) as [wd|] eqn:E; [|by rewrite wr_Some in E by lia].
  destruct (set_head w P p wd) as (w' & E' & Ht & Hi' & Hp'); [done|done|by eapply wr_length| |].
  { intros j Hj. apply (rd_wr_ne _ _ _ _ _ E). lia. }
  exists w', (mk_page wd (slots p)). split_and!; try done; cbn [words].
  - apply (rd_wr_eq _ _ _ _ E).
  - intros j Hj. by apply (rd_wr_ne _ _ _ _ _ E).
Qed.

(** A connection whose header is in shared memory, twice. *)
Definition live (w : Wal) (p : page) : Prop :=
  get_page w 0 = Some p ∧ (∀ i, 0 ≤ i < 24 → rd (words p) i = rd (hdr_words (hdr w) ++ hdr_words (hdr w)) i) ∧
  fits (hdr w) ∧ isInit (hdr w) = 1 ∧ aCksum (hdr w) = cksum false (hdr_bytes (hdr w)) (0, 0).

Lemma walIndexWriteHdr_spec w P p : index w P → get_page w 0 = Some p → is_u8 (bigEndCksum (hdr w)) →
  ∃ w' p' a, walIndexWriteHdr w = Some w' ∧ w' = set_hdr (set_apWiData w a) (published (hdr w)) ∧ index w' P ∧ live w' p'.
Proof.
  intros Hi Hp Hfit. unfold walIndexWriteHdr. set (h := set_cksummed (hdr w) (aCksum (hdr w))).
  unfold hdr_bytes. rewrite cksum_words by done. change (cksum false _ (0, 0)) with (cksum false (hdr_bytes h) (0, 0)).
  cbn [hdr set_hdr]. assert (set_cksummed h (cksum false (hdr_bytes h) (0, 0)) = published (hdr w)) as -> by done.
  set (hp := published (hdr w)). change (get_page (set_hdr w hp) 0) with (get_page w 0). rewrite Hp.
  destruct (i_shape _ _ Hi 0 p Hp) as [Hs _]. change (Z.to_nat HASHTABLE_NPAGE) with 4096%nat in Hs.
  destruct (splice_ok (words p) (hdr_words hp) 12) as [m1 E1]; [done|cbn [length hdr_words]; lia|]. rewrite E1.
  pose proof (splice_length _ _ _ _ E1) as L1.
  destruct (splice_ok m1 (hdr_words hp) 0) as [m2 E2]; [done|cbn [length hdr_words]; lia|]. rewrite E2.
  pose proof (splice_length _ _ _ _ E2) as L2.
  destruct (set_head (set_hdr w hp) P p m2) as (w' & E & [a ->] & Hi' & Hp'); [by apply index_hdr|done|congruence| |].
  { intros i Hge. rewrite (splice_rd _ _ _ _ _ E2), (splice_rd _ _ _ _ _ E1). cbn [length hdr_words].
    by rewrite !decide_False by lia. }
  exists (set_apWiData (set_hdr w hp) a), (mk_page m2 (slots p)), a.
  split; [done|]. split; [done|]. split; [done|]. split; [done|]. split; [|by split_and!; [split|..]].
  intros i Hr. cbn [words hdr set_apWiData set_hdr]. rewrite (splice_rd _ _ _ _ _ E2), (splice_rd _ _ _ _ _ E1).
  change (length (hdr_words hp)) with 12%nat. destruct (decide (i < 12)).
  - rewrite decide_True by lia. rewrite rd_app_l by (cbn [length hdr_words]; lia). f_equal. lia.
  - rewrite decide_False, decide_True by lia. unfold rd. rewrite !decide_True by lia.
    rewrite lookup_app_r by (cbn [length hdr_words]; lia). f_equal. cbn [length hdr_words]. lia.
Qed.

(** Whoever reads the header gets it. *)
Lemma live_read r w P p : live w p → index w P → others r = [] →
  ∃ ch r', walIndexTryHdr (view r w) 0 = Some (0, ch, r') ∧ hdr_words (hdr r') = hdr_words (hdr w) ∧
    (ch = 0 → r' = view r w) ∧ apWiData r' = apWiData w.
Proof.
  intros (Hp & Hw & Hfit & Hin & Hck) Hi Ho. unfold walIndexTryHdr.
  assert (others_write (view r w) = view r w) as -> by (unfold others_write; by rewrite (Ho : others (view r w) = [])).
  assert (others_write (view r w) = view r w) as -> by (unfold others_write; by rewrite (Ho : others (view r w) = [])).
  change (get_page (view r w) 0) with (get_page w 0). rewrite Hp.
  destruct (i_shape _ _ Hi 0 p Hp) as [Hs _]. change (Z.to_nat HASHTABLE_NPAGE) with 4096%nat in Hs.
  assert (sub (words p) 0 12 = Some (hdr_words (hdr w))) as ->.
  { apply sub_rd; [done|done|lia|]. intros j Hj. rewrite Z.add_0_l, Hw by lia. apply rd_app_l. cbn [length hdr_words]. lia. }
  assert (sub (words p) 12 12 = Some (hdr_words (hdr w))) as ->.
  { apply sub_rd; [done|done|lia|]. intros j Hj. rewrite Hw by lia. unfold rd. rewrite !decide_True by lia.
    rewrite lookup_app_r by (cbn [length hdr_words]; lia). f_equal. cbn [length hdr_words]. lia. }
  rewrite bool_decide_true by done. cbn [negb].
  pose proof (hdr_words_spec (hdr w) [] Hfit) as E. rewrite app_nil_r in E. rewrite E. clear E.
  rewrite Hin, cksum_words by done. change (flat_map le_bytes (take 10 (hdr_words (hdr w)))) with (hdr_bytes (hdr w)).
  rewrite <- Hck, !Z.eqb_refl. cbn [Z.eqb negb orb].
  case_bool_decide as E; cbn [negb]; eexists _, _; split_and!; try done.
Qed.

Lemma filter_held (l : Z * Z) L : l ∉ L → filter (λ r, r ≠ l) (l :: L) = L.
Proof.
  intros Hl. rewrite filter_cons_False by (intros H; by apply H).
  induction L as [|x L IH]; [done|]. apply not_elem_of_cons in Hl as [Hx Hl].
  rewrite filter_cons_True by congruence. f_equal. auto.
Qed.

(** What changes but the pages: the locks to come. *)
Definition marked (w w' : Wal) : Prop := ∃ a l, w' = set_shm_locks (set_apWiData w a) l.

Lemma marked_trans w1 w2 w3 : marked w1 w2 → marked w2 w3 → marked w1 w3.
Proof. intros (a & l & ->) (a' & l' & ->). by exists a', l'. Qed.

Lemma touched_marked w w' : touched w w' → marked w w'.
Proof. intros [a ->]. exists a, (shm_locks w). by destruct w. Qed.

(** A lock taken and given back around a change of pages. *)
Lemma lock_mark w i : (WAL_READ_LOCK i, 1) ∉ held w →
  ∃ rc w', walLockExclusive w (WAL_READ_LOCK i) 1 = (rc, w') ∧ (shm_locks w = [] → rc = SQLITE_OK ∧ shm_locks w' = []) ∧
    apWiData w' = apWiData w ∧ hdr w' = hdr w ∧ answers w' = answers w ∧
    if rc =? SQLITE_OK then ∀ w2, touched w' w2 → marked w (walUnlockExclusive w2 (WAL_READ_LOCK i) 1) ∧
        apWiData (walUnlockExclusive w2 (WAL_READ_LOCK i) 1) = apWiData w2 ∧
        (shm_locks w' = [] → shm_locks (walUnlockExclusive w2 (WAL_READ_LOCK i) 1) = [])
    else marked w w'.
Proof.
  intros Hl. unfold walLockExclusive. destruct (negb (exclusiveMode w =? 0)) eqn:E.
  - exists SQLITE_OK, w. split_and!; try done. cbn [Z.eqb SQLITE_OK]. intros w2 Ht. destruct Ht as [a ->].
    unfold walUnlockExclusive. cbn [exclusiveMode set_apWiData]. rewrite E. split_and!; try done. apply touched_marked. by exists a.
  - destruct (next_code (shm_locks w)) as [rc l] eqn:En. exists rc. eexists. split; [done|].
    split. { intros E0. rewrite E0 in En. injection En as <- <-. done. }
    destruct (Z.eqb_spec rc SQLITE_OK) as [->|Hne]; cbn [Z.eqb SQLITE_OK].
    + split_and!; try done. intros w2 [a ->]. unfold walUnlockExclusive. cbn [exclusiveMode set_apWiData set_held set_shm_locks].
      rewrite E. cbn [held set_apWiData set_held set_shm_locks]. rewrite filter_held by done. split_and!; try done.
      exists a, l. by destruct w.
    + split_and!; try done. exists (apWiData w), l. by destruct w.
Qed.

Lemma index_eq w w' P : apWiData w' = apWiData w → answers w' = answers w → index w P → index w' P.
Proof.
  intros E1 E2 Hi. assert (∀ h, get_page w' h = get_page w h) as E by (intros; unfold get_page; by rewrite E1).
  destruct Hi as [H1 H2 H3 H4 H5]. split; try done.
  - intros h p. rewrite E. apply H3.
  - by rewrite E2.
  - intros h. rewrite E. apply H5.
Qed.

Lemma get_page_eq w w' h : apWiData w' = apWiData w → get_page w' h = get_page w h.
Proof. intros E. unfold get_page. by rewrite E. Qed.

Lemma marked_index w w' : marked w w' → answers w' = answers w ∧ hdr w' = hdr w ∧ held w' = held w.
Proof. by intros (a & l & ->). Qed.

Definition mark_of (mx i : Z) : Z := if (i =? 1) && negb (mx =? 0) then mx else READMARK_NOT_USED.

Lemma reset_marks_spec n : ∀ w P p i rc, index w P → get_page w 0 = Some p → 1 ≤ i → i + Z.of_nat n ≤ 5 →
  (∀ j, 0 ≤ j → (WAL_READ_LOCK j, 1) ∉ held w) →
  ∃ err rc' w' p', reset_marks n w i rc = Some (err, rc', w') ∧ marked w w' ∧ index w' P ∧ get_page w' 0 = Some p' ∧
    (∀ j, j < 25 + i ∨ 25 + i + Z.of_nat n ≤ j → rd (words p') j = rd (words p) j) ∧
    (err = true → rc' ≠ SQLITE_OK) ∧
    (shm_locks w = [] → rc = SQLITE_OK → err = false ∧ rc' = SQLITE_OK ∧
      ∀ j, i ≤ j < i + Z.of_nat n → rd (words p') (25 + j) = Some (mark_of (mxFrame (hdr w)) j)).
Proof.
  induction n as [|n IH]; intros w P p i rc Hi Hp H1 H5 Hheld.
  { exists false, rc, w, p. cbn [reset_marks]. split_and!; try done. - exists (apWiData w), (shm_locks w). by destruct w. - intros; split_and!; [done..|lia]. }
  cbn [reset_marks]. destruct (lock_mark w i) as (rc1 & w1 & -> & Hok & Ea & Eh & Eans & Hb); [exact (Hheld i ltac:(lia))|].
  assert (index w1 P) as Hi1 by (by eapply index_eq). assert (get_page w1 0 = Some p) as Hp1 by (by rewrite (get_page_eq w)).
  destruct (Z.eqb_spec rc1 SQLITE_OK) as [->|Hne].
  - rewrite Eh. change (if (i =? 1) && _ then _ else _) with (mark_of (mxFrame (hdr w)) i).
    destruct (set_word_spec w1 P p (25 + i) (mark_of (mxFrame (hdr w)) i)) as (w2 & p2 & -> & Ht2 & Hi2 & Hp2 & Hm & Hm'); [done|done|lia|].
    destruct (Hb w2 Ht2) as (Hmk & Ea3 & Hl3). set (w3 := walUnlockExclusive w2 _ 1) in *.
    pose proof (marked_index _ _ Hmk) as (Eans3 & Eh3 & Ehd3).
    destruct (IH w3 P p2 (i + 1) SQLITE_OK) as (err & rc' & w' & p' & E & Hmk' & Hi' & Hp' & Hr & Herr & Hgood);
      [|by rewrite (get_page_eq w2)|lia|lia|intros j Hj; rewrite Ehd3; exact (Hheld j Hj)|].
    { apply (index_eq w2); [done| |done]. destruct Ht2 as [a2 E2]. rewrite Eans3, E2, <- Eans. done. }
    rewrite E. exists err, rc', w', p'. split_and!; try done; [by eapply marked_trans| |].
    + intros j Hj. rewrite Hr, Hm' by lia. done.
    + intros El _. destruct (Hok El) as [_ El1]. destruct (Hgood (Hl3 El1) eq_refl) as (-> & -> & Hg). split_and!; try done.
      intros j Hj. destruct (decide (j = i)) as [->|Hn]; [by rewrite Hr by lia|]. rewrite Hg, Eh3 by lia. done.
  - destruct (Z.eqb_spec rc1 SQLITE_BUSY) as [->|Hb']; cbn [negb].
    + pose proof (marked_index _ _ Hb) as (_ & _ & Ehd1).
      destruct (IH w1 P p (i + 1) SQLITE_BUSY) as (err & rc' & w' & p' & E & Hmk' & Hi' & Hp' & Hr & Herr & Hgood);
        [done|done|lia|lia|intros j Hj; rewrite Ehd1; exact (Hheld j Hj)|].
      exists err, rc', w', p'. split_and!; try done; [by eapply marked_trans|..].
      * intros j Hj. apply Hr. lia.
      * intros El _. destruct (Hok El). done.
    + exists true, rc1, w1, p. split_and!; try done. intros El _. destruct (Hok El). done.
Qed.

(** ** Recovery *)

Lemma is_header_take c big sz ckpt salt ck : is_header c big sz ckpt salt ck → is_header (take 32 c) big sz ckpt salt ck.
Proof.
  intros [H1 H2 H3 H4 H5 H6 H7 H8 H9 H10].
  split; rewrite ?be_at_take by lia; rewrite ?skipn_firstn_comm, ?take_take; done.
Qed.

(** The frames of a log that are valid. *)
Definition frames_of (big : bool) (sz : Z) (salt ck : Z * Z) (c : bytes) : list (Z * Z * (Z * Z)) :=
  scan (Z.to_nat ((Z.of_nat (length c) - 32) / (sz + 24))) big salt ck (Z.to_nat (sz + 24)) (drop 32 c).

(** The connection once the header of the log is read. *)
Definition opened (w : Wal) (big : bool) (sz ckpt : Z) (salt ck : Z * Z) : Wal :=
  set_hdr (set_nCkpt (WalIndex.set_szPage w sz) ckpt)
    (mk_hdr (iVersion (hdr w)) (unused (hdr w)) (iChange (hdr w)) (isInit (hdr w)) (if big then 1 else 0) (hdr_szPage (hdr w))
      (mxFrame (hdr w)) (nPage (hdr w)) ck salt (aCksum (hdr w))).

Lemma recover_log_spec w mem big sz ckpt salt ck :
  index w [] → io_codes (pWalFd w) = [] → is_bytes (content (pWalFd w)) → Forall good (answers w) → shape mem → hdr w = zero_hdr →
  is_header (content (pWalFd w)) big sz ckpt salt ck → 32 < Z.of_nat (length (content (pWalFd w))) →
  let N := (Z.of_nat (length (content (pWalFd w))) - 32) / (sz + 24) in
  N < MAX_FRAMES → walFramePage N < Z.of_nat (length (answers w)) →
  let l := frames_of big sz salt ck (content (pWalFd w)) in
  let acc := last_commit 1 l (0, 0, (0, 0)) in
  ∃ w', recover_log w (Z.of_nat (length (content (pWalFd w)))) (Some mem) = Some (true, SQLITE_OK, acc.2, w') ∧
    index w' (pages_of l) ∧ advance (opened w big sz ckpt salt ck) w' ∧ (mxFrame (hdr w'), nPage (hdr w')) = acc.1 ∧
    ∃ p, get_page w' 0 = Some p.
Proof.
  intros Hi Hio Hb Hgood Hmem Hh Hlog Hlen N HN Hans l acc. pose proof (h_power _ _ _ _ _ _ Hlog) as [Hpow Hsz].
  pose proof (power_page_size sz Hpow ltac:(lia)) as Hps. unfold recover_log. rewrite (proj2 (Z.leb_gt _ _)) by (unfold WAL_HDRSIZE; lia).
  destruct (read_ok w WAL_HDRSIZE 0) as (-> & -> & Hl32); [done|unfold WAL_HDRSIZE; lia..|].
  rewrite Z.eqb_refl. cbn [negb]. change (Z.to_nat WAL_HDRSIZE) with 32%nat. change (Z.to_nat 0) with O in *. rewrite drop_0 in *.
  change (Z.to_nat WAL_HDRSIZE) with 32%nat in Hl32. unfold WAL_HDRSIZE in Hl32.
  destruct (recover_header_spec w (take 32 (content (pWalFd w))) big sz ckpt salt ck) as [-> Hv]; [by apply Forall_take|lia|by apply is_header_take|].
  rewrite Hv, Z.eqb_refl. cbn [negb]. unfold WAL_HDRSIZE, WAL_FRAME_HDRSIZE. fold N.
  assert (0 ≤ N) as HN0 by (unfold N; apply Z.div_pos; lia).
  rewrite u32_id by (unfold is_u32, MAX_FRAMES in *; lia).
  assert (Hwp : walFramePage N = (N + 33) / 4096) by (apply walFramePage_spec; lia).
  fold (opened w big sz ckpt salt ck). set (w0 := opened w big sz ckpt salt ck).
  destruct (recover_pages_spec sz N (Z.to_nat (walFramePage N + 1)) w0 [] 0 mem (0, 0)) as (w' & E & Hi' & Hadv & Hmx & _ & Hp');
    try done; try (rewrite ?Hwp; dm).
  - by apply (index_eq w).
  - change (answers w0) with (answers w). rewrite Hwp in *. dm.
  - change (pWalFd w0) with (pWalFd w). unfold walFrameOffset, WAL_HDRSIZE, WAL_FRAME_HDRSIZE. subst N. dm.
  - change (zero_of 0) with 0 in E, Hi', Hmx. rewrite Z.sub_0_r, Z.add_0_l in E, Hi', Hmx.
    change (pWalFd w0) with (pWalFd w) in E, Hi', Hmx.
    assert (big_end w0 = big) as Eb by (by destruct big). rewrite Eb in E, Hi', Hmx.
    change (Z.to_nat (walFrameOffset 1 sz)) with 32%nat in E, Hi', Hmx.
    change (aSalt (hdr w0)) with salt in E, Hi', Hmx. change (aFrameCksum (hdr w0)) with ck in E, Hi', Hmx.
    change (mxFrame (hdr w0)) with (mxFrame (hdr w)) in E, Hmx. change (nPage (hdr w0)) with (nPage (hdr w)) in E, Hmx.
    rewrite Hh in E, Hmx. cbn [mxFrame nPage zero_hdr] in E, Hmx. exists w'. rewrite E. by split_and!.
Qed.

(** The end of a recovery. *)
Lemma recover_finish_spec w P p ck : index w P → get_page w 0 = Some p → is_u8 (bigEndCksum (hdr w)) →
  (∀ j, 0 ≤ j → (WAL_READ_LOCK j, 1) ∉ held w) →
  ∃ rc w' p' a l, recover_finish w ck SQLITE_OK = Some (rc, w') ∧ index w' P ∧ live w' p' ∧
    w' = set_shm_locks (set_hdr (set_apWiData w a) (published (set_aFrameCksum (hdr w) ck))) l ∧
    (shm_locks w = [] → rc = SQLITE_OK ∧ rd (words p') 24 = Some 0 ∧ rd (words p') 25 = Some 0 ∧
      rd (words p') 32 = Some (mxFrame (hdr w)) ∧ ∀ j, 1 ≤ j < WAL_NREADER → rd (words p') (25 + j) = Some (mark_of (mxFrame (hdr w)) j)).
Proof.
  intros Hi Hp Hbig Hheld. unfold recover_finish. set (h := set_aFrameCksum (hdr w) ck).
  destruct (walIndexWriteHdr_spec (set_hdr w h) P p) as (w1 & p1 & a1 & -> & E1 & Hi1 & Hp1 & Hl1 & Hl1'); [by apply index_hdr|done|done|].
  destruct (set_word_spec w1 P p1 24 0) as (w2 & p2 & -> & [a2 E2] & Hi2 & Hp2 & H24 & Hm2); [done|done|lia|].
  destruct (set_word_spec w2 P p2 32 (mxFrame (hdr w2))) as (w3 & p3 & -> & [a3 E3] & Hi3 & Hp3 & H32 & Hm3); [done|done|lia|].
  destruct (set_word_spec w3 P p3 25 0) as (w4 & p4 & -> & [a4 E4] & Hi4 & Hp4 & H25 & Hm4); [done|done|lia|].
  assert (hdr w1 = published h ∧ hdr w2 = published h ∧ hdr w4 = published h) as (Eh1 & Eh2 & Eh) by (by rewrite E4, E3, E2, E1).
  destruct (reset_marks_spec (Z.to_nat (WAL_NREADER - 1)) w4 P p4 1 SQLITE_OK) as (err & rc & w' & p' & -> & (a & l & E) & Hi' & Hp' & Hr & _ & Hgood);
    [done|done|lia|done|by rewrite E4, E3, E2, E1|].
  change (Z.of_nat (Z.to_nat (WAL_NREADER - 1))) with 4 in *.
  exists rc, w', p', a, l. split_and!; try done; try (by rewrite E, E4, E3, E2, E1).
  - split; [done|]. assert (hdr w' = published h) as -> by (by rewrite E). rewrite <- Eh1. split; [|done].
    intros i Hlt. by rewrite Hr, Hm4, Hm3, Hm2, Hl1 by lia.
  - intros El. destruct Hgood as (_ & -> & Hg); [by rewrite E4, E3, E2, E1|done|].
    rewrite !Hr by lia. rewrite Hm4 in * by done. rewrite (Hm4 32), Hm3 by done. rewrite H32, Eh2, H24, H25. split_and!; try done.
    intros j Hj. rewrite Hg by (change WAL_NREADER with 5 in Hj; lia). by rewrite Eh.
Qed.

(** A connection that is to recover, on a system whose calls succeed: the
    first page of the index is mapped, with whatever a crash has left there,
    the write lock is held, and that on checkpoints when [ckptLock] is set. *)
Record ready (w : Wal) : Prop := {
  r_index : index w [];
  r_page : ∃ p, get_page w 0 = Some p;
  r_io : io_codes (pWalFd w) = [];
  r_locks : shm_locks w = [];
  r_bytes : is_bytes (content (pWalFd w));
  r_good : Forall good (answers w);
  r_ckpt : ckptLock w = 0 ∨ ckptLock w = 1;
  r_held : ∀ r, r ∈ held w → r.1 ≤ ckptLock w
}.

(** The connection [w'] after the recovery of the log whose valid frames are
    [l]. *)
Definition recovers (w w' : Wal) (l : list (Z * Z * (Z * Z))) : Prop :=
  index w' (pages_of l) ∧ (mxFrame (hdr w'), nPage (hdr w'), aFrameCksum (hdr w')) = last_commit 1 l (0, 0, (0, 0)) ∧
  held w' = held w ∧ pWalFd w' = pWalFd w ∧
  ∃ p, live w' p ∧ rd (words p) 24 = Some 0 ∧ rd (words p) 25 = Some 0 ∧ rd (words p) 32 = Some (mxFrame (hdr w')) ∧
    ∀ j, 1 ≤ j < WAL_NREADER → rd (words p) (25 + j) = Some (mark_of (mxFrame (hdr w')) j).

(** The exclusive locks of a recovery. *)
Lemma recover_lock w : ready w → let iLock := WAL_ALL_BUT_WRITE + ckptLock w in
  ∃ w1, walLockExclusive w iLock (WAL_READ_LOCK 0 - iLock) = (SQLITE_OK, w1) ∧
    w1 = set_held w (held w1) ∧ (∀ j, 0 ≤ j → (WAL_READ_LOCK j, 1) ∉ held w1) ∧
    ∀ w2, held w2 = held w1 → exclusiveMode w2 = exclusiveMode w → ∃ h, walUnlockExclusive w2 iLock (WAL_READ_LOCK 0 - iLock) = set_held w2 h ∧ h = held w.
Proof.
  intros [_ _ _ Hl _ _ Hck Hheld] iLock. unfold walLockExclusive. change WAL_ALL_BUT_WRITE with 1 in *.
  assert (∀ j, 0 ≤ j → (WAL_READ_LOCK j, 1) ∉ held w) as Hm.
  { intros j Hj Hin. apply Hheld in Hin. unfold WAL_READ_LOCK in Hin. cbn in Hin. lia. }
  destruct (negb (exclusiveMode w =? 0)) eqn:E.
  - exists w. split_and!; try done; [by destruct w|]. intros w2 Eh Ee. unfold walUnlockExclusive. rewrite Ee, E. exists (held w).
    split; [rewrite <- Eh; by destruct w2|done].
  - rewrite Hl. cbn [next_code]. rewrite Z.eqb_refl. eexists. split; [done|]. cbn [held set_held set_shm_locks]. split_and!.
    + rewrite <- Hl at 1. by destruct w.
    + intros j Hj [Hin|Hin]%elem_of_cons; [|by apply (Hm j)]. unfold WAL_READ_LOCK in Hin. injection Hin as Hin _. subst iLock. lia.
    + intros w2 Eh Ee. unfold walUnlockExclusive. rewrite Ee, E, Eh. exists (held w). split; [|done]. f_equal. apply filter_held.
      intros Hin. apply Hheld in Hin. subst iLock. cbn in Hin. lia.
Qed.

(** Recovery when reading the log ends well. *)
Lemma recover_of_log w mem w1 w2 l ck :
  ready w → w1 = set_held (set_hdr w zero_hdr) (held w1) → held w1 = held (walLockExclusive w (WAL_ALL_BUT_WRITE + ckptLock w) (WAL_READ_LOCK 0 - (WAL_ALL_BUT_WRITE + ckptLock w))).2 →
  recover_log w1 (Z.of_nat (length (content (pWalFd w)))) mem = Some (true, SQLITE_OK, ck, w2) →
  index w2 (pages_of l) → (∃ p, get_page w2 0 = Some p) → is_u8 (bigEndCksum (hdr w2)) →
  pWalFd w2 = pWalFd w ∧ held w2 = held w1 ∧ shm_locks w2 = [] ∧ exclusiveMode w2 = exclusiveMode w →
  (mxFrame (hdr w2), nPage (hdr w2), ck) = last_commit 1 l (0, 0, (0, 0)) →
  ∃ w', walIndexRecover w mem = Some (SQLITE_OK, w') ∧ recovers w w' l ∧
    szPage w' = szPage w2 ∧ nCkpt w' = nCkpt w2 ∧ aSalt (hdr w') = aSalt (hdr w2) ∧ bigEndCksum (hdr w') = bigEndCksum (hdr w2).
Proof.
  intros Hr E1 Ehd Elog Hi2 [p Hp] Hbig (Efd & Eheld & Elk & Eexc) Hacc.
  destruct (recover_lock w Hr) as (w0 & El & E0 & Hm & Hun). cbn zeta in *. rewrite El in Ehd. cbn [snd] in Ehd.
  unfold walIndexRecover. cbn zeta. rewrite El, Z.eqb_refl. cbn [negb].
  assert (pWalFd (set_hdr w0 zero_hdr) = pWalFd w) as -> by (by rewrite E0).
  unfold sqlite3OsFileSize. rewrite (r_io _ Hr). cbn [next_code]. rewrite Z.eqb_refl. cbn [negb].
  assert (set_pWalFd (set_hdr w0 zero_hdr) (mk_file (content (pWalFd w)) []) = w1) as ->.
  { rewrite E1, Ehd, E0. rewrite <- (r_io _ Hr). destruct w as [???????????????? ]. cbn. by destruct pWalFd0. }
  rewrite Elog, Z.eqb_refl. cbn [negb orb].
  destruct (recover_finish_spec w2 (pages_of l) p ck) as (rc & w3 & p3 & a & l3 & -> & Hi3 & Hlive & E3 & Hgood);
    [done..|by intros j; rewrite Eheld, Ehd; apply Hm|].
  destruct (Hgood Elk) as (-> & H24 & H25 & H32 & Hmk).
  destruct (Hun w3) as (h & -> & ->); [by rewrite E3, <- Ehd, <- Eheld|by rewrite E3, <- Eexc|].
  assert (hdr w3 = published (set_aFrameCksum (hdr w2) ck)) as Eh3 by (by rewrite E3).
  eexists. split; [done|]. cbn [szPage nCkpt hdr set_held]. split; [|by rewrite Eh3, E3].
  split; [by apply (index_eq w3)|]. cbn [hdr set_held]. split; [by rewrite Eh3|]. split; [done|]. split; [by rewrite E3|].
  exists p3. rewrite Eh3. split_and!; try done.
Qed.

Lemma recover_short w mem : ready w → Z.of_nat (length (content (pWalFd w))) ≤ 32 →
  ∃ w', walIndexRecover w mem = Some (SQLITE_OK, w') ∧ recovers w w' [].
Proof.
  intros Hr Hlen. destruct (recover_lock w Hr) as (w0 & El & E0 & _ & _). cbn zeta in El.
  set (w1 := set_held (set_hdr w zero_hdr) (held w0)).
  destruct (recover_of_log w mem w1 w1 [] (0, 0)) as (w' & E & H & _); try done.
  - by rewrite El.
  - unfold recover_log. by rewrite (proj2 (Z.leb_le _ _)) by done.
  - apply (index_eq w); [done..|apply (r_index _ Hr)].
  - apply (r_page _ Hr).
  - split_and!; try done. apply (r_locks _ Hr).
  - by exists w'.
Qed.

(** Recovery of a log with a header. *)
Lemma recover_whole w mem big sz ckpt salt ck : ready w → shape mem → is_header (content (pWalFd w)) big sz ckpt salt ck →
  32 < Z.of_nat (length (content (pWalFd w))) →
  let N := (Z.of_nat (length (content (pWalFd w))) - 32) / (sz + 24) in
  N < MAX_FRAMES → walFramePage N < Z.of_nat (length (answers w)) →
  ∃ w', walIndexRecover w (Some mem) = Some (SQLITE_OK, w') ∧ recovers w w' (frames_of big sz salt ck (content (pWalFd w))) ∧
    szPage w' = sz ∧ nCkpt w' = ckpt ∧ aSalt (hdr w') = salt ∧ bigEndCksum (hdr w') = if big then 1 else 0.
Proof.
  intros Hr Hmem Hlog Hlen N HN Hans. destruct (recover_lock w Hr) as (w0 & El & E0 & _ & _). cbn zeta in El.
  set (w1 := set_held (set_hdr w zero_hdr) (held w0)).
  destruct (recover_log_spec w1 mem big sz ckpt salt ck) as (w2 & E & Hi2 & Hadv & Hmx & Hp2); try done; try apply Hr.
  { apply (index_eq w); [done..|apply (r_index _ Hr)]. }
  set (l := frames_of big sz salt ck (content (pWalFd w))). change (frames_of big sz salt ck (content (pWalFd w1))) with l in *.
  destruct Hadv as (Efd & Esz & Eheld & Elk & Eexc & _ & Esalt & Ebig & Eck). cbn in Efd, Esz, Eheld, Elk, Eexc, Esalt, Ebig, Eck.
  destruct (recover_of_log w (Some mem) w1 w2 l (last_commit 1 l (0, 0, (0, 0))).2) as (w' & E' & H & Es & Ec & Esa & Eb); try done.
  - by rewrite El.
  - rewrite Ebig. by destruct big.
  - split_and!; try done. rewrite Elk. apply (r_locks _ Hr).
  - rewrite Hmx. by destruct (last_commit _ _ _).
  - exists w'. by rewrite Es, Ec, Esa, Eb.
Qed.

(** ** Frames written and read *)

Definition pair_u32 (c : Z * Z) : Prop := is_u32 c.1 ∧ is_u32 c.2.

Lemma cksum_u32 big a : octets a → ∀ s, pair_u32 s → pair_u32 (cksum big a s).
Proof. induction 1 as [|b0 b1 b2 b3 b4 b5 b6 b7 a Ha IH]; intros s Hs; [done|]. cbn [cksum]. apply IH. split; apply is_u32_u32. Qed.

Lemma frame_sum_u32 big ck a d : octets a → octets d → pair_u32 ck → pair_u32 (frame_sum big ck a d).
Proof. intros Ha Hd Hc. by apply cksum_u32, cksum_u32. Qed.

(** A page that is written: its number, the size of the database after a
    commit, the data. *)
Definition entry : Type := Z * Z * bytes.

Definition entry_ok (sz : Z) (e : entry) : Prop :=
  is_u32 e.1.1 ∧ e.1.1 ≠ 0 ∧ is_u32 e.1.2 ∧ is_bytes e.2 ∧ Z.of_nat (length e.2) = sz.

Definition entry_sum (big : bool) (ck : Z * Z) (e : entry) : Z * Z :=
  frame_sum big ck (be_bytes e.1.1 ++ be_bytes e.1.2) e.2.

Definition frame_of (big : bool) (salt ck : Z * Z) (e : entry) : bytes := frame_header big salt ck e.1.1 e.1.2 e.2 ++ e.2.

Lemma entry_sum_u32 big ck sz e : entry_ok sz e → page_size sz → pair_u32 ck → pair_u32 (entry_sum big ck e).
Proof.
  intros (_ & _ & _ & _ & Hl) [_ H8] Hc. apply frame_sum_u32; [by apply (octets_intro 1)| |done]. apply octets_mod. by rewrite Hl.
Qed.

Lemma frame_length big salt ck sz e : entry_ok sz e → length (frame_of big salt ck e) = Z.to_nat (sz + 24).
Proof. intros (_ & _ & _ & _ & Hl). unfold frame_of. rewrite length_app. cbn. lia. Qed.

Lemma be_at_app (l b r : bytes) i n : i = n → length l = n → be_at (l ++ b ++ r) i = be_at (b ++ r) 0.
Proof. intros -> <-. unfold be_at. by rewrite drop_app_length. Qed.

Lemma parse_frame_of big salt ck sz e : entry_ok sz e → page_size sz → pair_u32 ck → pair_u32 salt →
  parse_frame big salt ck (frame_of big salt ck e) = Some (e.1.1, e.1.2, entry_sum big ck e).
Proof.
  intros He Hp Hc Hs. pose proof (entry_sum_u32 big ck sz e He Hp Hc) as [H1 H2].
  destruct e as [[p t] d], He as (Hp1 & Hp2 & Ht & Hd & Hl). cbn [fst snd] in *.
  unfold parse_frame. set (b := frame_of big salt ck (p, t, d)).
  assert (take 8 b = be_bytes p ++ be_bytes t) as -> by done. assert (drop 24 b = d) as -> by done.
  change (frame_sum big ck (be_bytes p ++ be_bytes t) d) with (entry_sum big ck (p, t, d)).
  assert (be_at b 0 = p) as -> by by apply (be_at_bytes []).
  assert (be_at b 4 = t) as -> by by apply (be_at_bytes (be_bytes p)).
  set (k := entry_sum big ck (p, t, d)) in *.
  assert (be_at b 16 = k.1) as -> by by apply (be_at_bytes (be_bytes p ++ be_bytes t ++ salt_bytes salt) k.1 (be_bytes k.2 ++ d)).
  assert (be_at b 20 = k.2) as -> by by apply (be_at_bytes (be_bytes p ++ be_bytes t ++ salt_bytes salt ++ be_bytes k.1) k.2 d).
  rewrite bool_decide_true by done. rewrite (proj2 (Z.eqb_neq _ _)) by done. rewrite bool_decide_true by (by destruct k). done.
Qed.

(** The bytes of frames, and the frames that recovery is to see in them. *)
Fixpoint log_frames (big : bool) (salt ck : Z * Z) (l : list entry) : bytes :=
  match l with [] => [] | e :: l => frame_of big salt ck e ++ log_frames big salt (entry_sum big ck e) l end.

Fixpoint valid (big : bool) (ck : Z * Z) (l : list entry) : list (Z * Z * (Z * Z)) :=
  match l with [] => [] | e :: l => (e.1.1, e.1.2, entry_sum big ck e) :: valid big (entry_sum big ck e) l end.

Lemma valid_length big l : ∀ ck, length (valid big ck l) = length l.
Proof. induction l as [|e l IH]; intros ck; [done|]. cbn. by rewrite IH. Qed.

Lemma log_frames_length big salt sz l : Forall (entry_ok sz) l → ∀ ck, length (log_frames big salt ck l) = (length l * Z.to_nat (sz + 24))%nat.
Proof. induction 1 as [|e l He Hl IH]; intros ck; [done|]. cbn [log_frames length]. rewrite length_app, IH, (frame_length _ _ _ sz) by done. lia. Qed.

Lemma scan_written big salt sz r l : Forall (entry_ok sz) l → page_size sz → pair_u32 salt → ∀ m ck, pair_u32 ck →
  scan m big salt ck (Z.to_nat (sz + 24)) (log_frames big salt ck l ++ r) =
    take m (valid big ck l) ++ scan (m - length l) big salt (end_sum ck (valid big ck l)) (Z.to_nat (sz + 24)) r.
Proof.
  intros Hl Hp Hs. induction Hl as [|e l He Hl IH]; intros m ck Hc.
  - cbn [log_frames valid length end_sum app]. by rewrite take_nil, Nat.sub_0_r.
  - destruct m as [|m]; [done|]. cbn [scan log_frames valid length Nat.sub take end_sum].
    rewrite <- (assoc_L (++)). rewrite (take_app_length' (frame_of big salt ck e)) by (symmetry; by eapply frame_length).
    rewrite (drop_app_length' (frame_of big salt ck e)) by (symmetry; by eapply frame_length).
    rewrite (parse_frame_of _ _ _ sz) by done. cbn [app]. f_equal. apply IH. by eapply entry_sum_u32.
Qed.

(** Only whole frames count. *)
Lemma scan_take big salt sz m : ∀ ck b k, (m * sz ≤ k)%nat → scan m big salt ck sz (take k b) = scan m big salt ck sz b.
Proof.
  induction m as [|m IH]; intros ck b k Hk; [done|]. cbn [scan]. rewrite take_take, Nat.min_l by lia.
  destruct (parse_frame _ _ _ _) as [[[p t] ck']|]; [|done]. f_equal. rewrite skipn_firstn_comm. apply IH. lia.
Qed.

(** The header of a log. *)
Definition header_start (sz ckpt : Z) (salt : Z * Z) : bytes :=
  be_bytes WAL_MAGIC ++ be_bytes WAL_MAX_VERSION ++ be_bytes sz ++ be_bytes ckpt ++ salt_bytes salt.

Definition header_sum (sz ckpt : Z) (salt : Z * Z) : Z * Z := cksum false (header_start sz ckpt salt) (0, 0).

Definition header_bytes (sz ckpt : Z) (salt : Z * Z) : bytes :=
  header_start sz ckpt salt ++ be_bytes (header_sum sz ckpt salt).1 ++ be_bytes (header_sum sz ckpt salt).2.

Lemma log_header_spec w sz b random : length b = 32%nat →
  let salt := if nCkpt w =? 0 then random else aSalt (hdr w) in
  log_header w sz b random = Some (header_bytes sz (nCkpt w) salt,
    set_hdr (WalIndex.set_szPage w sz) (mk_hdr (iVersion (hdr w)) (unused (hdr w)) (iChange (hdr w)) (isInit (hdr w)) 0
      (hdr_szPage (hdr w)) (mxFrame (hdr w)) (nPage (hdr w)) (header_sum sz (nCkpt w) salt) salt (aCksum (hdr w)))).
Proof.
  intros Hl salt. do 32 (destruct b as [|? b]; [done|]). destruct b; [|done]. unfold log_header. fold salt.
  change 0 with (Z.of_nat 0) at 1. rewrite put4_take by (cbn; lia). cbn [take drop app Nat.add].
  change 4 with (Z.of_nat 4). rewrite put4_take by (cbn; lia). cbn [take drop app be_bytes Nat.add].
  change 8 with (Z.of_nat 8). rewrite put4_take by (cbn; lia). cbn [take drop app be_bytes Nat.add].
  change 12 with (Z.of_nat 12). rewrite put4_take by (cbn; lia). cbn [take drop app be_bytes Nat.add].
  unfold splice at 1. rewrite decide_True by (cbn; lia).
  change (Z.to_nat 16) with 16%nat. cbn [salt_bytes le_bytes app length Nat.add take drop].
  change (WAL_HDRSIZE - 2 * Z.of_nat 4) with 24. unfold sub at 1. rewrite decide_True by (cbn; lia).
  change (Z.to_nat 24) with 24%nat. change (Z.to_nat 0) with O. cbn [take drop].
  rewrite walChecksumBytes_spec by (done || (repeat constructor; apply is_u8_u8)).
  change 24 with (Z.of_nat 24). rewrite put4_take by (cbn; lia). cbn [take drop app Nat.add be_bytes].
  change 28 with (Z.of_nat 28). rewrite put4_take by (cbn; lia). cbn [take drop app Nat.add be_bytes].
  reflexivity.
Qed.

Definition size_ok (sz : Z) : Prop := Z.land sz (sz - 1) = 0 ∧ 512 ≤ sz ≤ 65536.

Lemma header_sum_u32 sz ckpt salt : pair_u32 (header_sum sz ckpt salt).
Proof. apply cksum_u32; [by apply (octets_intro 3)|]. by repeat split. Qed.

Lemma header_is sz ckpt salt r : size_ok sz → is_u32 ckpt → pair_u32 salt →
  is_header (header_bytes sz ckpt salt ++ r) false sz ckpt salt (header_sum sz ckpt salt).
Proof.
  intros Hsz Hc Hs. pose proof (header_sum_u32 sz ckpt salt) as [H1 H2]. unfold header_bytes. set (k := header_sum sz ckpt salt) in *.
  assert (is_u32 sz) as Hszu by (destruct Hsz; unfold is_u32; lia).
  split; try done.
  - apply (be_at_bytes (be_bytes WAL_MAGIC ++ be_bytes WAL_MAX_VERSION) sz (be_bytes ckpt ++ salt_bytes salt ++ be_bytes k.1 ++ be_bytes k.2 ++ r) Hszu).
  - apply (be_at_bytes (be_bytes WAL_MAGIC ++ be_bytes WAL_MAX_VERSION ++ be_bytes sz) ckpt (salt_bytes salt ++ be_bytes k.1 ++ be_bytes k.2 ++ r) Hc).
  - apply (be_at_bytes (header_start sz ckpt salt) k.1 (be_bytes k.2 ++ r) H1).
  - apply (be_at_bytes (header_start sz ckpt salt ++ be_bytes k.1) k.2 r H2).
Qed.

(** The frames of pages, one after another, as the writer encodes them in a
    buffer of its stack. *)
Fixpoint encode_all (w : Wal) (aFrame : bytes) (l : list entry) : option (bytes * Wal) :=
  match l with
  | [] => Some ([], w)
  | e :: l =>
      let* (f, w) := walEncodeFrame w e.1.1 e.1.2 e.2 aFrame in
      let* (b, w) := encode_all w f l in
      Some (f ++ e.2 ++ b, w)
  end.

Lemma encode_all_spec sz l : Forall (entry_ok sz) l → page_size sz → ∀ w aFrame, iReCksum w = 0 → szPage w = sz → length aFrame = 24%nat →
  ∃ w', encode_all w aFrame l = Some (log_frames (big_end w) (aSalt (hdr w)) (aFrameCksum (hdr w)) l, w') ∧
    aFrameCksum (hdr w') = end_sum (aFrameCksum (hdr w)) (valid (big_end w) (aFrameCksum (hdr w)) l).
Proof.
  intros Hl Hp. induction Hl as [|e l He Hl IH]; intros w aFrame Hre Hsz Hlen; [by exists w|]. cbn [encode_all].
  pose proof He as (_ & _ & _ & Hd & Hls). rewrite walEncodeFrame_spec by (done || congruence).
  set (w1 := set_hdr w _).
  destruct (IH w1 (frame_header (big_end w) (aSalt (hdr w)) (aFrameCksum (hdr w)) e.1.1 e.1.2 e.2)) as (w' & -> & E); [done..|].
  exists w'. split; [|done]. cbn [log_frames]. unfold frame_of. by rewrite <- (assoc_L (++)).
Qed.

Lemma take_div (n m k : nat) : (0 < k)%nat → Z.of_nat (n / k) = Z.of_nat n / Z.of_nat k.
Proof. intros. apply Nat2Z.inj_div. Qed.

(** A header, whatever comes after it. *)
Lemma is_header_app b r big sz ckpt salt ck : length b = 32%nat → is_header b big sz ckpt salt ck → is_header (b ++ r) big sz ckpt salt ck.
Proof.
  intros Hl [H1 H2 H3 H4 H5 H6 H7 H8 H9 H10].
  assert (∀ i, (i + 4 ≤ 32)%nat → be_at (b ++ r) i = be_at b i) as Hb.
  { intros i Hi. rewrite <- (be_at_take (b ++ r) i 32) by lia. by rewrite <- Hl, take_app_length. }
  split; rewrite ?Hb by lia; try done.
  - rewrite drop_app_le, take_app_le by (rewrite ?length_drop; lia). done.
  - by rewrite take_app_le by lia.
Qed.

Lemma frames_of_written big a0 sz salt ck l r n : size_ok sz → pair_u32 salt → pair_u32 ck → length a0 = 32%nat → Forall (entry_ok sz) l →
  let c := take n (a0 ++ log_frames big salt ck l ++ r) in
  (32 < length c)%nat →
  let m := ((length c - 32) / Z.to_nat (sz + 24))%nat in
  frames_of big sz salt ck c =
    take m (valid big ck l) ++ scan (m - length l) big salt (end_sum ck (valid big ck l)) (Z.to_nat (sz + 24)) r.
Proof.
  intros [Hpow Hr] Hs Hck Ha Hl c Hlen m. unfold frames_of.
  assert (Z.to_nat ((Z.of_nat (length c) - 32) / (sz + 24)) = m) as ->.
  { unfold m. apply Nat2Z.inj. rewrite Nat2Z.inj_div, Nat2Z.inj_sub, !Z2Nat.id by (try apply Z.div_pos; lia). done. }
  unfold c at 1. rewrite skipn_firstn_comm. rewrite (drop_app_length' a0) by done.
  rewrite scan_take.
  - by apply scan_written; [|apply power_page_size; [|lia]|..].
  - assert (length c ≤ n)%nat by (unfold c; rewrite length_take; lia).
    pose proof (Nat.Div0.mul_div_le (length c - 32) (Z.to_nat (sz + 24))). unfold m. lia.
Qed.

(** Recovery of frames behind a header, cut anywhere, and of what another left
    after them. *)
Lemma recover_headed w mem big a0 sz ckpt salt ck l r n : ready w → shape mem → is_header a0 big sz ckpt salt ck → length a0 = 32%nat → pair_u32 ck →
  Forall (entry_ok sz) l → content (pWalFd w) = take n (a0 ++ log_frames big salt ck l ++ r) →
  let m := ((length (content (pWalFd w)) - 32) / Z.to_nat (sz + 24))%nat in
  Z.of_nat m < MAX_FRAMES → walFramePage (Z.of_nat m) < Z.of_nat (length (answers w)) →
  ∃ w', walIndexRecover w (Some mem) = Some (SQLITE_OK, w') ∧
    recovers w w' (take m (valid big ck l) ++ scan (m - length l) big salt (end_sum ck (valid big ck l)) (Z.to_nat (sz + 24)) r).
Proof.
  intros Hr Hmem Hh Ha Hck Hl Ec m Hm Hans. pose proof (h_power _ _ _ _ _ _ Hh) as Hsz. pose proof (h_u32 _ _ _ _ _ _ Hh) as Hs.
  destruct (decide (32 < length (content (pWalFd w)))%nat) as [Hlen|Hlen].
  - assert (is_header (content (pWalFd w)) big sz ckpt salt ck) as Hhc.
    { rewrite Ec. pose proof (f_equal length Ec) as El. rewrite length_take in El.
      rewrite take_app, take_ge by lia. by apply is_header_app. }
    assert (Z.of_nat m = (Z.of_nat (length (content (pWalFd w))) - 32) / (sz + 24)) as Em.
    { unfold m. rewrite Nat2Z.inj_div, Nat2Z.inj_sub, Z2Nat.id by lia. done. }
    destruct (recover_whole w mem big sz ckpt salt ck) as (w' & E & H & _); try done; [lia|by rewrite <- Em..|].
    pose proof (frames_of_written big a0 sz salt ck l r n Hsz Hs Hck Ha Hl) as Ef. cbn zeta in Ef.
    rewrite <- Ec in Ef. rewrite (Ef Hlen) in H. by exists w'.
  - destruct (recover_short w (Some mem) Hr ltac:(lia)) as (w' & E & H). exists w'. split; [done|].
    assert (m = O) as -> by (unfold m; replace (length (content (pWalFd w)) - 32)%nat with O by lia; apply Nat.Div0.div_0_l).
    done.
Qed.

(** Recovery of what a writer wrote. *)
Lemma recover_written w mem sz ckpt salt l r n : ready w → shape mem → size_ok sz → is_u32 ckpt → pair_u32 salt →
  Forall (entry_ok sz) l → let ck := header_sum sz ckpt salt in
  content (pWalFd w) = take n (header_bytes sz ckpt salt ++ log_frames false salt ck l ++ r) →
  let m := ((length (content (pWalFd w)) - 32) / Z.to_nat (sz + 24))%nat in
  Z.of_nat m < MAX_FRAMES → walFramePage (Z.of_nat m) < Z.of_nat (length (answers w)) →
  ∃ w', walIndexRecover w (Some mem) = Some (SQLITE_OK, w') ∧
    recovers w w' (take m (valid false ck l) ++
      scan (m - length l) false salt (end_sum ck (valid false ck l)) (Z.to_nat (sz + 24)) r).
Proof.
  intros Hr Hmem Hsz Hc Hs Hl ck Ec m Hm Hans.
  apply (recover_headed w mem false (header_bytes sz ckpt salt) sz ckpt salt ck l r n); try done; [|apply header_sum_u32].
  rewrite <- (app_nil_r (header_bytes _ _ _)). by apply header_is.
Qed.

(** ** Recovery when calls fail *)

Definition kept (w w' : Wal) : Prop :=
  held w' = held w ∧ exclusiveMode w' = exclusiveMode w ∧ content (pWalFd w') = content (pWalFd w) ∧ szPage w' = szPage w ∧
  steady w w' ∧ bigEndCksum (hdr w') = bigEndCksum (hdr w) ∧ aSalt (hdr w') = aSalt (hdr w).

Lemma kept_refl w : kept w w.
Proof. by repeat split. Qed.

Lemma kept_trans w1 w2 w3 : kept w1 w2 → kept w2 w3 → kept w1 w3.
Proof. unfold kept. intros H1 H2. destruct_and! H1. destruct_and! H2. split_and!; congruence || by eapply steady_trans. Qed.

Lemma kept_same w w' : same w w' → kept w w'.
Proof. unfold same, kept. intros H. destruct_and! H. split_and!; done || congruence. Qed.

(** A read: it fails, or it gives all the bytes, those of the file. *)
Lemma read_any w n ofst : is_bytes (content (pWalFd w)) → 0 ≤ n → ∃ rc b f, sqlite3OsRead (pWalFd w) n ofst = (rc, b, f) ∧ content f = content (pWalFd w) ∧
  Z.of_nat (length b) = n ∧ (rc = SQLITE_OK → is_bytes b) ∧
  (0 ≤ ofst → ofst + n ≤ Z.of_nat (length (content (pWalFd w))) → b = take (Z.to_nat n) (drop (Z.to_nat ofst) (content (pWalFd w)))).
Proof.
  intros Hb Hn. unfold sqlite3OsRead. destruct (next_code (io_codes (pWalFd w))) as [rc l]. eexists _, _, _. split; [done|].
  set (b := take (Z.to_nat n) (drop (Z.to_nat ofst) (content (pWalFd w)))).
  assert (length b ≤ Z.to_nat n)%nat by (unfold b; rewrite length_take; lia).
  split; [done|]. split; [rewrite length_app, length_replicate; lia|]. split.
  - intros _. apply Forall_app. split; [by apply Forall_take, Forall_drop|]. apply Forall_replicate. unfold is_u8. lia.
  - intros Ho Hl. assert (length b = Z.to_nat n) as -> by (unfold b; rewrite length_take, length_drop; lia).
    by rewrite Nat.sub_diag, app_nil_r.
Qed.

(** The frames that the loop finds before a call fails are among those of the
    log; if none fails they are all of them. *)
Lemma recover_frames_any sz h n : ∀ w P iFrame rc ck p,
  index w P → iFrame = Z.of_nat (length P) + 1 → is_bytes (content (pWalFd w)) → szPage w = sz → page_size sz →
  walFrameOffset (iFrame + Z.of_nat n) sz ≤ Z.of_nat (length (content (pWalFd w))) →
  iFrame + Z.of_nat n ≤ MAX_FRAMES → 0 ≤ h → zero_of h < iFrame → iFrame - 1 + Z.of_nat n ≤ last_of h → get_page w h = Some p →
  let L := scan n (big_end w) (aSalt (hdr w)) (aFrameCksum (hdr w)) (Z.to_nat (sz + 24))
             (drop (Z.to_nat (walFrameOffset iFrame sz)) (content (pWalFd w))) in
  ∃ rc' w' l p', recover_frames n w sz iFrame rc ck =
      Some (rc', iFrame + Z.of_nat (length l), (last_commit iFrame l (mxFrame (hdr w), nPage (hdr w), ck)).2, w') ∧
    l `prefix_of` L ∧ (rc' = SQLITE_OK → l = L) ∧ index w' (P ++ pages_of l) ∧ kept w w' ∧ answers w' = answers w ∧
    get_page w' h = Some p' ∧
    (mxFrame (hdr w'), nPage (hdr w')) = (last_commit iFrame l (mxFrame (hdr w), nPage (hdr w), ck)).1 ∧
    (length l = n → aFrameCksum (hdr w') = end_sum (aFrameCksum (hdr w)) l).
Proof.
  induction n as [|n IH]; intros w P iFrame rc ck p Hi HiF Hb Hsz Hps Hoff Hmax Hh Hz Hlast Hp L.
  { exists rc, w, [], p. cbn [recover_frames length last_commit pages_of map]. rewrite app_nil_r, Z.add_0_r.
    split_and!; auto using kept_refl, prefix_nil. }
  assert (∀ (rc' : Z) w', (rc' = SQLITE_OK → L = []) → index w' P → kept w w' → answers w' = answers w → get_page w' h = Some p →
    (mxFrame (hdr w'), nPage (hdr w')) = (mxFrame (hdr w), nPage (hdr w)) →
    ∃ rc'' w'' l p', Some (rc', iFrame, ck, w') = Some (rc'', iFrame + Z.of_nat (length l), (last_commit iFrame l (mxFrame (hdr w), nPage (hdr w), ck)).2, w'') ∧
    l `prefix_of` L ∧ (rc'' = SQLITE_OK → l = L) ∧ index w'' (P ++ pages_of l) ∧ kept w w'' ∧ answers w'' = answers w ∧ get_page w'' h = Some p' ∧
    (mxFrame (hdr w''), nPage (hdr w'')) = (last_commit iFrame l (mxFrame (hdr w), nPage (hdr w), ck)).1 ∧
    (length l = S n → aFrameCksum (hdr w'') = end_sum (aFrameCksum (hdr w)) l)) as Hstop.
  { intros rc' w' HL ?????. exists rc', w', [], p. cbn [length last_commit pages_of map]. rewrite app_nil_r, Z.add_0_r.
    split_and!; try done; [apply prefix_nil|by intros ->%HL]. }
  cbn [recover_frames]. pose proof Hps as [Hps1 Hps8]. unfold walFrameOffset, WAL_HDRSIZE, WAL_FRAME_HDRSIZE in *.
  set (ofst := 32 + (iFrame - 1) * (sz + 24)) in *.
  assert (Hin : ofst + (sz + 24) ≤ Z.of_nat (length (content (pWalFd w)))) by nia.
  destruct (read_any w (sz + 24) ofst) as (rc1 & b & f & -> & Hf & Hlb & Hbb & Eb); [done|lia|].
  specialize (Eb ltac:(lia) Hin). set (w0 := set_pWalFd w f). assert (index w0 P) as Hi0 by (by apply (index_eq w)).
  assert (kept w w0) as Hk0 by (by repeat split).
  destruct (Z.eqb_spec rc1 SQLITE_OK) as [->|]; cbn [negb]; [|by apply Hstop]. specialize (Hbb eq_refl).
  destruct (walDecodeFrame_spec w0 b) as (ck1 & E & Hck1); [done|by rewrite Hlb, <- Hsz|by rewrite <- Hsz in Hps|]. rewrite E. clear E.
  set (w1 := set_hdr w0 (set_aFrameCksum (hdr w0) ck1)).
  assert (index w1 P) as Hi1 by (by apply (index_eq w)). assert (kept w w1) as Hk1 by (by repeat split).
  unfold L in *. clear L. cbn [scan] in *. rewrite <- Eb in *. change (big_end w0) with (big_end w) in *.
  change (aSalt (hdr w0)) with (aSalt (hdr w)) in *. change (aFrameCksum (hdr w0)) with (aFrameCksum (hdr w)) in *.
  destruct (parse_frame _ _ _ b) as [[[q t] ck2]|] eqn:Ep; [|by apply Hstop]. clear Hstop.
  assert (ck1 = ck2) as -> by by eapply Hck1. clear Hck1.
  assert (0 < q) as Hq.
  { unfold parse_frame in Ep. destruct (bool_decide _ && negb (be_at b 0 =? 0) && _) eqn:E'; [|done]. injection Ep as <- _ _.
    pose proof (be_at_nonneg b 0 Hbb). lia. }
  assert (walFramePage iFrame = h) as Hpage by (apply walFramePage_unique; lia).
  destruct (walIndexAppend_spec w1 P iFrame q) as (rc2 & w2 & -> & _ & H & Hm); [done|lia|done|lia|].
  destruct (Hm p) as [-> Ht]; [by rewrite Hpage|]. destruct H as [[_ Hi2]|[? _]]; [|done].
  replace (Z.to_nat (iFrame - 1)) with (length P) in Hi2 by lia. rewrite take_ge in Hi2 by lia.
  rewrite Z.eqb_refl. cbn [negb].
  destruct Ht as [a Ea]. destruct (i_table _ _ Hi2 h Hh) as (p2 & Hp2 & _); [rewrite length_app; cbn; lia|].
  set (w3 := if t =? 0 then w2 else set_hdr w2 (set_commit (hdr w2) iFrame t sz)).
  assert ((if negb (t =? 0)
      then recover_frames n (set_hdr w2 (set_commit (hdr w2) iFrame t sz)) sz (iFrame + 1) SQLITE_OK
             (WalIndex.aFrameCksum (hdr (set_hdr w2 (set_commit (hdr w2) iFrame t sz))))
      else recover_frames n w2 sz (iFrame + 1) SQLITE_OK ck) =
    recover_frames n w3 sz (iFrame + 1) SQLITE_OK (if t =? 0 then ck else ck2)) as ->.
  { unfold w3. rewrite Ea. by destruct (t =? 0). }
  assert (index w3 (P ++ [q]) ∧ kept w w3 ∧ answers w3 = answers w ∧ get_page w3 h = Some p2 ∧ aFrameCksum (hdr w3) = ck2 ∧
    (mxFrame (hdr w3), nPage (hdr w3), if t =? 0 then ck else ck2) =
      (if t =? 0 then (mxFrame (hdr w), nPage (hdr w), ck) else (iFrame, t, ck2))) as (Hi3 & Hk3 & Ha3 & Hp3 & Hck3 & Hacc).
  { assert (kept w w2 ∧ answers w2 = answers w) as [Hk2 Ha2] by (rewrite Ea; by repeat split).
    unfold w3. destruct (t =? 0); [by rewrite Ea in *|]. split; [by apply index_hdr|].
    split; [eapply kept_trans; [exact Hk2|by repeat split]|]. split_and!; try done. by rewrite Ea. }
  pose proof Hk3 as (_ & _ & Ec3 & Es3 & _ & Eb3 & Esalt3).
  assert (big_end w3 = big_end w) as Ebig by (unfold big_end, nativeCksum; by rewrite Eb3).
  assert (Hoff' : 32 + (iFrame + 1 - 1) * (sz + 24) = ofst + (sz + 24)) by (unfold ofst; lia).
  destruct (IH w3 (P ++ [q]) (iFrame + 1) SQLITE_OK (if t =? 0 then ck else ck2) p2) as (rc' & w' & l & p' & Er & HlL & Hok & Hi' & Hk' & Ha' & Hp' & Hmx & Hsum);
    try done; try (rewrite ?Ec3, ?Es3; done); try lia.
  { rewrite length_app. cbn. lia. }
  { rewrite Ec3. lia. }
  rewrite Ec3, Ebig, Esalt3, Hck3, Hoff' in HlL, Hok. rewrite Hck3 in Hsum.
  replace (drop (Z.to_nat (ofst + (sz + 24))) (content (pWalFd w))) with
    (drop (Z.to_nat (sz + 24)) (drop (Z.to_nat ofst) (content (pWalFd w)))) in HlL, Hok by (rewrite drop_drop; f_equal; lia).
  exists rc', w', ((q, t, ck2) :: l), p'. cbn [length pages_of map fst last_commit end_sum].
  rewrite <- Hacc. rewrite Nat2Z.inj_succ, <- Z.add_1_l, Z.add_assoc. split_and!; try done.
  - by apply prefix_cons.
  - by intros ->%Hok.
  - by rewrite <- (assoc_L (++)) in Hi'.
  - by eapply kept_trans.
  - congruence.
  - intros Hl. apply Hsum. lia.
Qed.

Lemma walIndexPage_mapped w h p : get_page w h = Some p → walIndexPage w h = Some (SQLITE_OK, true, w).
Proof.
  intros Hp%get_page_rd. unfold walIndexPage. rewrite (proj2 (Z.leb_gt _ _)) by (apply rd_lt in Hp; lia). by rewrite Hp.
Qed.

Lemma walIndexPage_any w P h : index w P → 0 ≤ h → mapped_page w P h (walIndexPage w h).
Proof.
  intros Hi Hh. unfold walIndexPage. destruct (get_page w h) as [p|] eqn:Hp.
  - apply get_page_rd in Hp as Hr. rewrite (proj2 (Z.leb_gt _ _)) by (apply rd_lt in Hr; lia). rewrite Hr.
    exists SQLITE_OK, true, w. split_and!; auto using same_refl. eauto.
  - destruct (Z.leb_spec (Z.of_nat (length (apWiData w))) h); [by apply walIndexPageRealloc_spec|].
    destruct (rd_is_Some (apWiData w) h) as [x Ex]; [lia|]. rewrite Ex. destruct x; [|by apply walIndexPageRealloc_spec].
    exfalso. unfold get_page in Hp. by rewrite Ex in Hp.
Qed.

(** The first page stays mapped. *)
Lemma first_page w P : index w P → P ≠ [] → ∃ p, get_page w 0 = Some p.
Proof.
  intros Hi Hne. destruct (i_table _ _ Hi 0) as (p & ? & _); [done| |by exists p].
  unfold zero_of, last_of. destruct P; [done|cbn; lia].
Qed.

(** An answer of [xShmMap] that reports success without a page. *)
Definition empty_handed (w : Wal) : Prop := ∃ a, a ∈ answers w ∧
  (shm_rc a = SQLITE_OK ∨ shm_rc a = SQLITE_READONLY) ∧ mapped a (writeLock w) = None.

Lemma realloc_empty w h w' : walIndexPageRealloc w h = Some (SQLITE_OK, false, w') → empty_handed w.
Proof.
  unfold walIndexPageRealloc. destruct (answers w) as [|a rest] eqn:Ea.
  { cbn [apWiData set_answers exclusiveMode writeLock grown shm_page shm_rc]. destruct (_ && _); [done|].
    destruct (exclusiveMode w =? _); (destruct (wr _ _ _); [|done]); [done|]. cbn. done. }
  cbn [apWiData set_answers exclusiveMode writeLock]. destruct (_ && _); [done|].
  destruct (exclusiveMode w =? _); (destruct (wr _ _ _); [|done]); [by destruct (shm_page a)|].
  set (r := if negb (shm_rc a =? SQLITE_OK) && _ then _ else _).
  assert (r.1 = if shm_rc a =? SQLITE_READONLY then SQLITE_OK else shm_rc a) as Er.
  { unfold r. destruct (Z.eqb_spec (shm_rc a) SQLITE_OK) as [->|]; [done|]. cbn [negb andb].
    destruct (Z.eqb_spec (shm_rc a) SQLITE_READONLY) as [->|]; [done|]. by destruct (Z.land _ _ =? _). }
  destruct r as [r w1]. cbn [fst] in Er. subst r. intros [= Er Em _]. exists a. rewrite Ea. split; [by left|].
  split; [|by destruct (mapped a (writeLock w))].
  destruct (Z.eqb_spec (shm_rc a) SQLITE_READONLY) as [E|_]; [by right|by left].
Qed.

Lemma page_empty w h w' : walIndexPage w h = Some (SQLITE_OK, false, w') → empty_handed w.
Proof.
  unfold walIndexPage. case_match; [apply realloc_empty|]. destruct (rd _ _) as [[p|]|]; [done|apply realloc_empty|done].
Qed.

Lemma steady_empty w w' : steady w w' → empty_handed w' → empty_handed w.
Proof. intros [E Ha] (a & Hin & Hrc & Hm). exists a. split; [by apply Ha|]. split; [done|]. injection E as _ _ Ew _ _ _. by rewrite <- Ew. Qed.

Lemma recover_pages_any sz N n : ∀ w P iPg aPrivate rc ck,
  index w P → Z.of_nat (length P) = zero_of iPg → 0 ≤ iPg → Z.of_nat n = walFramePage N + 1 - iPg →
  shape aPrivate → (∃ p, get_page w 0 = Some p) → is_bytes (content (pWalFd w)) → szPage w = sz → page_size sz →
  walFrameOffset (N + 1) sz ≤ Z.of_nat (length (content (pWalFd w))) → 0 ≤ N < MAX_FRAMES →
  let L := scan (Z.to_nat (N - zero_of iPg)) (big_end w) (aSalt (hdr w)) (aFrameCksum (hdr w)) (Z.to_nat (sz + 24))
             (drop (Z.to_nat (walFrameOffset (zero_of iPg + 1) sz)) (content (pWalFd w))) in
  ∃ rc' w' l, recover_pages n w sz N iPg aPrivate rc ck =
      Some (rc', (last_commit (zero_of iPg + 1) l (mxFrame (hdr w), nPage (hdr w), ck)).2, w') ∧
    l `prefix_of` L ∧ (rc' = SQLITE_OK → l = L ∨ empty_handed w) ∧ index w' (P ++ pages_of l) ∧ kept w w' ∧
    (mxFrame (hdr w'), nPage (hdr w')) = (last_commit (zero_of iPg + 1) l (mxFrame (hdr w), nPage (hdr w), ck)).1 ∧
    ∃ p, get_page w' 0 = Some p.
Proof.
  induction n as [|n IH]; intros w P iPg aPrivate rc ck Hi HP Hpg Hn Hpriv H0 Hb Hsz Hps Hoff HN L.
  { assert (Hfp : walFramePage N = (N + 33) / 4096) by (apply walFramePage_spec; lia).
    assert (Z.to_nat (N - zero_of iPg) = O) as E by (assert (N - zero_of iPg ≤ 0) by (unfold zero_of, last_of; destruct (Z.eqb_spec iPg 0); dm); lia).
    exists rc, w, []. unfold L. rewrite E. cbn. rewrite app_nil_r. split_and!; auto using kept_refl. }
  assert (Hfp : walFramePage N = (N + 33) / 4096) by (apply walFramePage_spec; lia).
  assert (Hz : zero_of iPg ≤ N ∧ iPg ≤ 524288) by (unfold zero_of, last_of, MAX_FRAMES in *; dm).
  destruct Hz as [Hz Hpg']. pose proof (zero_of_pos iPg). pose proof (zero_of_next iPg Hpg) as Hzn.
  assert (0 ≤ first_off iPg ≤ 34) by (unfold first_off; case_match; lia).
  cbn [recover_pages]. change HASHTABLE_NPAGE_ONE with 4062. change HASHTABLE_NPAGE with 4096.
  assert (u32 (4062 + iPg * 4096) = last_of iPg) as ->.
  { unfold last_of. rewrite u32_id by (unfold is_u32; lia). lia. }
  assert ((1 + (if iPg =? 0 then 0 else u32 (4062 + (iPg - 1) * 4096))) = zero_of iPg + 1) as ->.
  { unfold zero_of, last_of. destruct (Z.eqb_spec iPg 0) as [->|]; [done|]. rewrite u32_id by (unfold is_u32; lia). lia. }
  destruct (walIndexPage_any w P iPg Hi Hpg) as (rc1 & found & w1 & E1 & Hs1 & Hi1 & Hf). rewrite E1.
  destruct found; cbn [negb].
  2: { exists rc1, w1, []. cbn [last_commit pages_of map]. rewrite app_nil_r.
       assert (hdr w1 = hdr w) as Eh1 by (by destruct Hs1). rewrite Eh1.
       split_and!; try done; [apply prefix_nil|intros ->; right; by eapply page_empty|by apply kept_same|].
       destruct (decide (P = [])) as [->|Hne]; [|by eapply first_page]. exfalso.
       assert (iPg = 0) as -> by (cbn in HP; unfold zero_of, last_of in HP; lia).
       destruct H0 as [p Hp]. by rewrite (walIndexPage_mapped _ _ _ Hp) in E1. }
  destruct (Hf eq_refl) as [share Hp1]. clear Hf E1. rewrite Hp1.
  destruct (set_page_spec w1 iPg share aPrivate Hp1) as (w2 & E2 & Ht2 & Ha2 & Hp2 & Hp2'). rewrite E2.
  assert (index w2 P) as Hi2 by (apply (index_replace w1 P iPg share aPrivate); try done; lia).
  assert (same w w2) as Hs2 by (by eapply same_trans, touched_same).
  assert (hdr w2 = hdr w) as Eh2 by (by destruct Hs2).
  set (k := Z.to_nat (Z.min N (last_of iPg) - (zero_of iPg + 1) + 1)).
  assert (kept w w2) as Hkept2 by by apply kept_same. pose proof Hkept2 as (_ & _ & Ec2 & Es2 & Hst2 & Eb2 & _).
  assert (big_end w2 = big_end w) as Ebig2 by (unfold big_end, nativeCksum; by rewrite Eb2).
  destruct (recover_frames_any sz iPg k w2 P (zero_of iPg + 1) rc1 ck aPrivate) as (rc3 & w3 & l1 & p3 & -> & HlL & Hok & Hi3 & Hk3 & Ha3 & Hp3 & Hmx3 & Hsum3);
    try done; try (by rewrite ?Ec2, ?Es2); try (unfold k, MAX_FRAMES in *; lia).
  { rewrite Ec2. unfold k, walFrameOffset, WAL_HDRSIZE, WAL_FRAME_HDRSIZE in *. unfold page_size in Hps. nia. }
  rewrite Ec2, Ebig2, Eh2 in *. set (b := drop (Z.to_nat (walFrameOffset (zero_of iPg + 1) sz)) (content (pWalFd w))) in *.
  set (L1 := scan k (big_end w) (aSalt (hdr w)) (aFrameCksum (hdr w)) (Z.to_nat (sz + 24)) b) in *.
  pose proof (scan_length k (big_end w) (aSalt (hdr w)) (Z.to_nat (sz + 24)) (aFrameCksum (hdr w)) b) as HL1. fold L1 in HL1.
  assert (HL : L = if decide (length L1 = k) then L1 ++ scan (Z.to_nat (N - zero_of iPg) - k) (big_end w) (aSalt (hdr w))
      (end_sum (aFrameCksum (hdr w)) L1) (Z.to_nat (sz + 24)) (drop (k * Z.to_nat (sz + 24)) b) else L1).
  { unfold L. replace (Z.to_nat (N - zero_of iPg)) with (k + (Z.to_nat (N - zero_of iPg) - k))%nat by (unfold k; lia).
    by rewrite scan_app, Nat.add_sub_swap, Nat.sub_diag by lia. }
  rewrite Hp3. change (WALINDEX_HDR_SIZE / 4) with 34.
  assert ((if iPg =? 0 then Z.to_nat 34 else O) = Z.to_nat (first_off iPg)) as -> by (unfold first_off; by destruct (iPg =? 0)).
  assert (Hsh : shape share) by (apply (i_shape _ _ Hi1 iPg); done).
  assert (Hsp : shape p3) by (apply (i_shape _ _ Hi3 iPg); done).
  set (pf := mk_page _ (slots p3)). assert (shape pf) as Hspf by (apply shape_copy; done || lia).
  destruct (set_page_spec w3 iPg p3 pf Hp3) as (w4 & E4 & Ht4 & Ha4 & Hp4 & Hp4'). rewrite E4.
  assert (hdr w4 = hdr w3) as Eh4 by (destruct Ht4 as [? ->]; done).
  assert (index w4 (P ++ pages_of l1)) as Hi4.
  { apply (index_replace w3 _ iPg p3 pf); try done. intros Hz'. destruct (i_table _ _ Hi3 iPg Hpg Hz') as (p3' & Hp3' & Ht).
    rewrite Hp3 in Hp3'. injection Hp3' as <-. by apply table_copy. }
  assert (kept w w4) as Hk4 by (eapply kept_trans; [done|]; eapply kept_trans; [done|by apply kept_same, touched_same]).
  assert (∃ p, get_page w4 0 = Some p) as H04.
  { destruct (decide (P = [])) as [->|Hne].
    - assert (iPg = 0) as -> by (cbn in HP; unfold zero_of, last_of in HP; lia). eauto.
    - eapply first_page; [done|]. destruct P; [done|by intros ?]. }
  rewrite <- Eh4 in Hmx3, Hsum3. pose proof (prefix_length _ _ HlL) as Hle.
  destruct (Z.leb_spec (zero_of iPg + 1 + Z.of_nat (length l1)) (Z.min N (last_of iPg))) as [Hlt|Hgt].
  { (* stopped on this page *)
    exists rc3, w4, l1. split_and!; try done.
    - rewrite HL. case_decide; [by apply prefix_app_r|done].
    - intros E. left. rewrite HL, <- (Hok E). rewrite decide_False; [done|]. unfold k. lia. }
  assert (l1 = L1) as El1 by (apply prefix_length_eq; [done|unfold k in *; lia]).
  assert (length L1 = k) as Hlk by (rewrite <- El1; unfold k in *; rewrite El1 in *; lia).
  rewrite decide_True in HL by done. rewrite El1 in *. specialize (Hsum3 Hlk). clear Hok HlL El1 l1.
  destruct n as [|n'].
  { assert (Z.to_nat (N - zero_of iPg) - k = 0)%nat as E0 by (unfold k, zero_of, last_of in *; dm).
    rewrite E0 in HL. cbn [scan] in HL. rewrite app_nil_r in HL. rewrite HL. cbn [recover_pages].
    exists rc3, w4, L1. split_and!; auto. }
  assert (last_of iPg < N) as HlN by (unfold last_of in *; dm).
  assert (zero_of (iPg + 1) = last_of iPg) as Hznext by (unfold zero_of; f_equal; lia).
  pose proof Hk4 as (_ & _ & Ec4 & Es4 & Hst4 & Eb4 & Esalt4).
  assert (big_end w4 = big_end w) as Ebig4 by (unfold big_end, nativeCksum; by rewrite Eb4).
  destruct (IH w4 (P ++ pages_of L1) (iPg + 1) p3 rc3 (last_commit (zero_of iPg + 1) L1 (mxFrame (hdr w), nPage (hdr w), ck)).2)
    as (rc' & w' & l2 & E' & Hl2 & Hok' & Hi' & Hk' & Hmx' & H0'); rewrite ?Ec4, ?Es4; try done; try lia.
  { rewrite length_app. unfold pages_of. rewrite length_map, Hlk. unfold k. lia. }
  rewrite Hznext in *. rewrite Ec4, Ebig4, Esalt4, Hsum3 in Hl2, Hok'.
  replace (drop (Z.to_nat (walFrameOffset (last_of iPg + 1) sz)) (content (pWalFd w))) with (drop (k * Z.to_nat (sz + 24)) b) in Hl2, Hok'.
  2: { unfold b. rewrite drop_offset by (done || (unfold page_size in *; lia)). do 2 f_equal. f_equal. unfold k. lia. }
  replace (Z.to_nat (N - last_of iPg)) with (Z.to_nat (N - zero_of iPg) - k)%nat in Hl2, Hok' by (unfold k; lia).
  assert (last_commit (zero_of iPg + 1) (L1 ++ l2) (mxFrame (hdr w), nPage (hdr w), ck) =
    last_commit (last_of iPg + 1) l2 (mxFrame (hdr w4), nPage (hdr w4), (last_commit (zero_of iPg + 1) L1 (mxFrame (hdr w), nPage (hdr w), ck)).2)) as Hacc.
  { rewrite last_commit_app, Hmx3, Hlk. f_equal; [unfold k; lia|]. by destruct (last_commit _ L1 _). }
  rewrite <- Hacc in E', Hmx'. exists rc', w', (L1 ++ l2). rewrite pages_of_app, (assoc_L (++)). split_and!; try done.
  - rewrite HL. by apply prefix_app.
  - intros E. rewrite HL. destruct (Hok' E) as [->|He]; [by left|right]. by eapply steady_empty.
  - by eapply kept_trans.
Qed.

Lemma is_header_of_take c big sz ckpt salt ck : is_header (take 32 c) big sz ckpt salt ck → is_header c big sz ckpt salt ck.
Proof.
  intros [H1 H2 H3 H4 H5 H6 H7 H8 H9 H10]. rewrite !be_at_take in * by lia.
  rewrite ?skipn_firstn_comm, ?take_take in *. by split.
Qed.

Lemma salt_of_words (b : bytes) : is_bytes b → length b = 8%nat → ∃ s1 s2, le_words b = [s1; s2] ∧ b = salt_bytes (s1, s2) ∧ is_u32 s1 ∧ is_u32 s2.
Proof.
  intros Hb Hl. do 8 (destruct b as [|? b]; [done|]). destruct b; [|done].
  repeat (apply Forall_cons in Hb as [? Hb]). unfold is_u8 in *. eexists _, _. split; [done|]. split.
  - unfold salt_bytes, le_bytes, u8. cbn [fst snd app]. repeat (f_equal; [dm|]). f_equal. dm.
  - unfold is_u32. lia.
Qed.

Lemma be_at_u32 b i : is_bytes b → is_u32 (be_at b i).
Proof.
  intros Hb. unfold be_at. apply (Forall_drop _ i) in Hb. destruct (drop i b) as [|b0 [|b1 [|b2 [|b3 r]]]]; try done.
  repeat (apply Forall_cons in Hb as [? Hb]). unfold be_word, is_u8, is_u32 in *. lia.
Qed.

Lemma magic_cases m : is_u32 m → Z.land m 0xFFFFFFFE = WAL_MAGIC →
  m = WAL_MAGIC + (if negb (u8 (Z.land m 1) =? SQLITE_BIGENDIAN) then 1 else 0).
Proof.
  intros Hm H. change 0xFFFFFFFE with (Z.shiftl (Z.ones 31) 1) in H. rewrite land_mask in H by done.
  change 1 with (Z.ones 1) at 1. rewrite Z.land_ones by done. change SQLITE_BIGENDIAN with 0. change (2 ^ 1) with 2 in *.
  change (2 ^ 31) with 2147483648 in H. unfold is_u32, u8, WAL_MAGIC in *.
  destruct (Z.eqb_spec ((m `mod` 2) `mod` 256) 0); cbn [negb]; dm.
Qed.

(** The header of any log: ignored, or one of [is_header]. *)
Lemma recover_header_any w b : is_bytes b → length b = 32%nat →
  ∃ v n sz h, recover_header w b = Some (v, set_hdr (set_nCkpt (WalIndex.set_szPage w sz) n) h) ∧
    (is_u8 (bigEndCksum (hdr w)) → is_u8 (bigEndCksum h)) ∧ mxFrame h = mxFrame (hdr w) ∧ nPage h = nPage (hdr w) ∧
    get4 b 4 = Some (be_at b 4) ∧
    (∀ s, v = Some s → size_ok s ∧ s = sz ∧ (be_at b 4 = WAL_MAX_VERSION →
       is_header b (negb (bigEndCksum h =? SQLITE_BIGENDIAN)) s n (aSalt h) (aFrameCksum h))).
Proof.
  intros Hb Hl. unfold recover_header.
  assert (∀ i, (i + 4 ≤ 32)%nat → get4 b (Z.of_nat i) = Some (be_at b i)) as G by (intros; apply get4_spec; [done|lia]).
  rewrite (G 0%nat ltac:(lia) : get4 b 0 = _), (G 4%nat ltac:(lia) : get4 b 4 = _), (G 8%nat ltac:(lia) : get4 b 8 = _),
    (G 12%nat ltac:(lia) : get4 b 12 = _), (G 24%nat ltac:(lia) : get4 b 24 = _), (G 28%nat ltac:(lia) : get4 b 28 = _).
  set (sz := i32 (be_at b 8)). destruct (negb _ || negb _ || _ || _) eqn:E.
  { exists None, (nCkpt w), (szPage w), (hdr w). split; [by destruct w|]. by split_and!. }
  apply orb_false_iff in E as [E E4]. apply orb_false_iff in E as [E E3]. apply orb_false_iff in E as [E1 E2].
  change 16 with (Z.of_nat 16). change 8 with (Z.of_nat 8) at 1. rewrite sub_take by lia.
  unfold WAL_HDRSIZE. change (32 - 2 * 4) with (Z.of_nat 24). change (sub b 0 (Z.of_nat 24)) with (sub b (Z.of_nat 0) (Z.of_nat 24)). rewrite sub_take by lia.
  rewrite drop_0. rewrite walChecksumBytes_spec;
    [|by apply Forall_take|by rewrite length_take, Hl|by intros E'; apply (f_equal length) in E'; rewrite length_take, Hl in E'].
  destruct (salt_of_words (take 8 (drop 16 b))) as (s1 & s2 & Ew & Es & Hs1 & Hs2);
    [by apply Forall_take, Forall_drop|rewrite length_take, length_drop; lia|]. rewrite Ew.
  set (big := u8 (Z.land (be_at b 0) 1)). set (ck := cksum _ _ _). set (h := mk_hdr _ _ _ _ big _ _ _ _ _ _).
  exists (if negb (ck.1 =? be_at b 24) || negb (ck.2 =? be_at b 28) then None else Some sz), (be_at b 12), sz, h.
  split; [by case_match|]. split; [intros _; apply is_u8_u8|]. split_and!; try done.
  intros s Hv. destruct (negb (ck.1 =? be_at b 24) || negb (ck.2 =? be_at b 28)) eqn:Eck; [done|]. injection Hv as <-.
  assert (size_ok sz) as Hsz by (unfold size_ok; lia). split; [done|]. split; [done|]. intros Hver.
  apply orb_false_iff in Eck as [Ec1 Ec2]. pose proof (be_at_u32 b 8 Hb) as Hsize.
  split; try done; cbn [aSalt aFrameCksum bigEndCksum h fst snd].
  - apply magic_cases; [by apply be_at_u32|lia].
  - destruct Hsz as [_ Hr]. unfold sz, i32, is_u32 in *. dm.
  - lia.
  - lia.
Qed.

(** The frames of a log that are found: none, or the first ones of a log with
    a valid header. *)
Definition found (c : bytes) (l : list (Z * Z * (Z * Z))) : Prop :=
  l = [] ∨ ∃ big sz ckpt salt ck, is_header c big sz ckpt salt ck ∧ l `prefix_of` frames_of big sz salt ck c.

Definition found_all (c : bytes) (l : list (Z * Z * (Z * Z))) : Prop :=
  ∀ big sz ckpt salt ck, 32 < Z.of_nat (length c) → is_header c big sz ckpt salt ck → l = frames_of big sz salt ck c.

Lemma found_nil c : found c [].
Proof. by left. Qed.

Lemma recover_log_any w mem : index w [] → (∃ p, get_page w 0 = Some p) → is_bytes (content (pWalFd w)) → is_u8 (bigEndCksum (hdr w)) →
  (∀ p, mem = Some p → shape p) → Z.of_nat (length (content (pWalFd w))) < 512 * MAX_FRAMES →
  ∃ fin rc w' l, recover_log w (Z.of_nat (length (content (pWalFd w)))) mem =
      Some (fin, rc, (last_commit 1 l (mxFrame (hdr w), nPage (hdr w), (0, 0))).2, w') ∧
    found (content (pWalFd w)) l ∧ (rc = SQLITE_OK → fin = true ∧ (found_all (content (pWalFd w)) l ∨ empty_handed w)) ∧
    index w' (pages_of l) ∧ (mxFrame (hdr w'), nPage (hdr w')) = (last_commit 1 l (mxFrame (hdr w), nPage (hdr w), (0, 0))).1 ∧
    (∃ p, get_page w' 0 = Some p) ∧ is_u8 (bigEndCksum (hdr w')) ∧ held w' = held w ∧ exclusiveMode w' = exclusiveMode w ∧
    steady w w' ∧ content (pWalFd w') = content (pWalFd w).
Proof.
  intros Hi H0 Hb Hbig Hmem Hmax. unfold recover_log. destruct (Z.leb_spec (Z.of_nat (length (content (pWalFd w)))) WAL_HDRSIZE) as [El|El]; unfold WAL_HDRSIZE in El.
  { exists true, SQLITE_OK, w, []. split_and!; try done; [apply found_nil|]. intros _. split; [done|]. left. intros ?????. lia. }
  destruct (read_any w WAL_HDRSIZE 0) as (rc & b & f & -> & Ef & Hlb & Hbb & Eb); [done|done|].
  specialize (Eb ltac:(done) ltac:(unfold WAL_HDRSIZE; lia)). change (Z.to_nat WAL_HDRSIZE) with 32%nat in Eb. change (Z.to_nat 0) with O in Eb. rewrite drop_0 in Eb.
  set (w1 := set_pWalFd w f). assert (index w1 []) as Hi1 by (by apply (index_eq w)).
  destruct (Z.eqb_spec rc SQLITE_OK) as [->|Hrc]; cbn [negb].
  2: { exists false, rc, w1, []. split_and!; try done. apply found_nil. }
  destruct (recover_header_any w1 b) as (v & n & sz & h & E1 & Hh & Emx & Enp & Ev & Hv); [by apply Hbb|unfold WAL_HDRSIZE in Hlb; lia|]. rewrite E1.
  change (hdr w1) with (hdr w) in Emx, Enp.
  set (w2 := set_hdr _ h) in *. assert (index w2 []) as Hi2 by (by apply (index_eq w)).
  assert (∀ big sz' ckpt salt ck, is_header (content (pWalFd w)) big sz' ckpt salt ck →
    v = Some sz' ∧ sz = sz' ∧ aSalt h = salt ∧ aFrameCksum h = ck ∧ bigEndCksum h = if big then 1 else 0) as Hof.
  { intros big sz' ckpt salt ck Hc. apply is_header_take in Hc. rewrite <- Eb in Hc.
    destruct (recover_header_spec w1 b big sz' ckpt salt ck) as [E _]; [by apply Hbb|unfold WAL_HDRSIZE in Hlb; lia|done|].
    rewrite E1 in E. pose proof (f_equal (option_map fst) E) as F1. pose proof (f_equal (option_map (λ x, szPage x.2)) E) as F2.
    pose proof (f_equal (option_map (λ x, hdr x.2)) E) as F3. cbn in F1, F2, F3. injection F1 as ->. injection F2 as ->. 
    assert (h = mk_hdr (iVersion (hdr w)) (unused (hdr w)) (iChange (hdr w)) (isInit (hdr w)) (if big then 1 else 0) (hdr_szPage (hdr w))
      (mxFrame (hdr w)) (nPage (hdr w)) ck salt (aCksum (hdr w))) as -> by congruence. by split_and!. }
  destruct v as [s|].
  2: { exists true, SQLITE_OK, w2, []. cbn [last_commit]. rewrite <- Emx, <- Enp. split_and!; try done; [apply found_nil| |by apply Hh].
       intros _. split; [done|]. left. intros big sz' ckpt salt ck _ Hc. by destruct (Hof _ _ _ _ _ Hc). }
  destruct (Hv s eq_refl) as ([Hpow Hsz] & -> & Hhdr). rewrite Ev. destruct (Z.eqb_spec (be_at b 4) WAL_MAX_VERSION) as [Ever|]; cbn [negb].
  2: { exists true, SQLITE_CANTOPEN, w2, []. cbn [last_commit]. rewrite <- Emx, <- Enp. split_and!; try done; [apply found_nil|by apply Hh]. }
  destruct mem as [mem|].
  2: { exists false, SQLITE_NOMEM, w2, []. cbn [last_commit]. rewrite <- Emx, <- Enp. split_and!; try done; [apply found_nil|by apply Hh]. }
  specialize (Hhdr Ever). rewrite Eb in Hhdr. apply is_header_of_take in Hhdr.
  unfold WAL_HDRSIZE, WAL_FRAME_HDRSIZE in *. set (N := (_ - 32) / (sz + 24)).
  assert (0 ≤ N < MAX_FRAMES) as HN.
  { split; [apply Z.div_pos; lia|]. unfold N. apply Z.div_lt_upper_bound; [lia|]. unfold MAX_FRAMES in *. nia. }
  rewrite u32_id by (unfold is_u32, MAX_FRAMES in *; lia).
  assert (Hwp : walFramePage N = (N + 33) / 4096) by (apply walFramePage_spec; lia).
  destruct (recover_pages_any sz N (Z.to_nat (walFramePage N + 1)) w2 [] 0 mem SQLITE_OK (0, 0))
    as (rc' & w' & l & -> & Hl & Hok & Hi' & (Hk1 & Hk2 & Hk4 & _ & Hst & Hk3 & _) & Hmx & H0');
    try done; try (rewrite ?Hwp; dm); [by apply Hmem|by change (pWalFd w2) with f; rewrite Ef|by apply power_page_size; lia| |].
  { change (pWalFd w2) with f. rewrite Ef. unfold walFrameOffset, WAL_HDRSIZE, WAL_FRAME_HDRSIZE. subst N. dm. }
  change (zero_of 0) with 0 in *. rewrite Z.sub_0_r in Hl, Hok. change (0 + 1) with 1 in *.
  change (Z.to_nat (walFrameOffset 1 sz)) with 32%nat in Hl, Hok. change (pWalFd w2) with f in *. rewrite Ef in Hl, Hok, Hk4.
  change (hdr w2) with h in *. rewrite Emx, Enp in *.
  change (scan _ _ _ _ _ _) with (frames_of (big_end w2) sz (aSalt h) (aFrameCksum h) (content (pWalFd w))) in Hl, Hok.
  exists true, rc', w', l. split_and!; try done.
  - right. by eexists _, _, _, _, _.
  - intros E. split; [done|]. destruct (Hok E) as [->|He]; [left|right; by destruct He as (a & ?); exists a].
    intros big sz' ckpt salt ck _ Hc. destruct (Hof _ _ _ _ _ Hc) as (_ & <- & <- & <- & Eg).
    f_equal. unfold big_end, nativeCksum. change (hdr w2) with h. rewrite Eg. by destruct big.
  - rewrite Hk3. by apply Hh.
  - by apply (steady_trans w w2).
Qed.

(** ** Properties *)

(** The last entry that ends a transaction, and the size it gives. *)
Definition committed (l : list entry) (j t : Z) : Prop :=
  (j = 0 ∧ t = 0 ∧ Forall (λ e, e.1.2 = 0) l) ∨
  ∃ l1 e l2, l = l1 ++ e :: l2 ∧ j = Z.of_nat (length l1) + 1 ∧ t = e.1.2 ∧ t ≠ 0 ∧ Forall (λ e, e.1.2 = 0) l2.

Lemma valid_app big l1 l2 : ∀ ck, valid big ck (l1 ++ l2) = valid big ck l1 ++ valid big (end_sum ck (valid big ck l1)) l2.
Proof. induction l1 as [|e l1 IH]; intros ck; [done|]. cbn [app valid end_sum]. f_equal. apply IH. Qed.

Lemma pages_of_valid big l : ∀ ck, pages_of (valid big ck l) = map (λ e, e.1.1) l.
Proof. induction l as [|e l IH]; intros ck; [done|]. cbn. f_equal. apply IH. Qed.

Lemma take_valid big l : ∀ m ck, take m (valid big ck l) = valid big ck (take m l).
Proof. induction l as [|e l IH]; intros m ck; [by destruct m|]. destruct m; [done|]. cbn. f_equal. apply IH. Qed.

Lemma last_commit_none big l : Forall (λ e, e.1.2 = 0) l → ∀ i ck acc, last_commit i (valid big ck l) acc = acc.
Proof. induction 1 as [|e l He Hl IH]; intros i ck acc; [done|]. cbn. rewrite He. apply IH. Qed.

Lemma last_entry (l : list entry) : Forall (λ e, e.1.2 = 0) l ∨
  ∃ l1 e l2, l = l1 ++ e :: l2 ∧ e.1.2 ≠ 0 ∧ Forall (λ e, e.1.2 = 0) l2.
Proof.
  induction l as [|e l [IH|(l1 & e' & l2 & -> & H1 & H2)]]; [by left; constructor| |].
  - destruct (decide (e.1.2 = 0)); [by left; constructor|]. right. by exists [], e, l.
  - right. by exists (e :: l1), e', l2.
Qed.

Lemma last_commit_committed big l ck c0 : committed l (last_commit 1 (valid big ck l) (0, 0, c0)).1.1 (last_commit 1 (valid big ck l) (0, 0, c0)).1.2.
Proof.
  destruct (last_entry l) as [H|(l1 & e & l2 & -> & Hne & H)]; [left; by rewrite last_commit_none|right].
  exists l1, e, l2. rewrite valid_app, last_commit_app, valid_length. cbn [valid last_commit].
  rewrite (proj2 (Z.eqb_neq _ _)) by done. rewrite last_commit_none by done. cbn. split_and!; try done. lia.
Qed.

Definition random_ok (wr : Wal) (random : Z * Z) : Prop := pair_u32 (if nCkpt wr =? 0 then random else aSalt (hdr wr)).

(** C11: a crash keeps exactly the transactions that reached the disk.  The
    log is what a writer wrote - the header that [walFrames] makes and frames
    from [walEncodeFrame] - cut after any number of bytes.  Recovery succeeds,
    the index then serves the whole frames that are left, and the snapshot it
    publishes ends at the last commit among them, with that commit's size of
    the database; nothing of a transaction without its commit can be seen. *)
Theorem wal_crash_recovery w mem wr random sz l h w1 fs w2 n :
  ready w → shape mem → size_ok sz → is_u32 (nCkpt wr) → iReCksum wr = 0 → random_ok wr random → Forall (entry_ok sz) l →
  log_header wr sz (replicate 32 0) random = Some (h, w1) → encode_all w1 (replicate 24 0) l = Some (fs, w2) →
  content (pWalFd w) = take n (h ++ fs) →
  let m := ((length (content (pWalFd w)) - 32) / Z.to_nat (sz + 24))%nat in
  Z.of_nat m < MAX_FRAMES → walFramePage (Z.of_nat m) < Z.of_nat (length (answers w)) →
  ∃ w' p, walIndexRecover w (Some mem) = Some (SQLITE_OK, w') ∧ index w' (map (λ e, e.1.1) (take m l)) ∧
    committed (take m l) (mxFrame (hdr w')) (nPage (hdr w')) ∧ live w' p ∧ held w' = held w.
Proof.
  intros Hr Hmem Hsz Hc Hre Hs Hl Eh Ef Ec m Hm Hans. rewrite log_header_spec in Eh by done. injection Eh as <- <-.
  assert (page_size sz) as Hps by (destruct Hsz; apply power_page_size; [done|lia]).
  match type of Ef with encode_all ?x _ _ = _ => destruct (encode_all_spec sz l Hl Hps x (replicate 24 0) Hre eq_refl eq_refl) as (w3 & Ef' & _) end.
  rewrite Ef' in Ef. injection Ef as <- _. cbn [aSalt aFrameCksum hdr set_hdr] in Ec. unfold big_end, nativeCksum in Ec. cbn [bigEndCksum hdr set_hdr negb Z.eqb SQLITE_BIGENDIAN] in Ec.
  rewrite <- (app_nil_r (log_frames _ _ _ _)) in Ec.
  destruct (recover_written w mem sz (nCkpt wr) _ l [] n Hr Hmem Hsz Hc Hs Hl Ec Hm Hans) as (w' & E & Hi & Hmx & Hh & _ & p & Hlive & _).
  fold m in Hi, Hmx. assert (∀ j b s c z, scan j b s c z [] = []) as Hnil.
  { intros [|j] b s c z; [done|]. cbn. rewrite take_nil. unfold parse_frame. by rewrite andb_false_r. }
  rewrite Hnil, app_nil_r, take_valid in Hi, Hmx. rewrite pages_of_valid in Hi.
  exists w', p. split_and!; try done. pose proof (last_commit_committed false (take m l) (header_sum sz (nCkpt wr) (if nCkpt wr =? 0 then random else aSalt (hdr wr))) (0, 0)) as H.
  by rewrite <- Hmx in H.
Qed.

Lemma last_commit_later l : ∀ i acc, last_commit i l acc = acc ∨ i ≤ (last_commit i l acc).1.1.
Proof.
  induction l as [|[[p t] ck] l IH]; intros i acc; [by left|]. cbn [last_commit].
  destruct (IH (i + 1) (if t =? 0 then acc else (i, t, ck))) as [->|H]; [|right; lia].
  destruct (t =? 0); [by left|right; cbn; lia].
Qed.

(** C12: a commit whose frames are on the disk is not lost, whatever follows
    it in the file - frames of a log that was there before, or of a
    transaction that was not finished.  Recovery finds every frame written,
    and its snapshot ends at the last commit among them, or after. *)
Theorem wal_commit_durable w mem wr random sz l h w1 fs w2 rest :
  ready w → shape mem → size_ok sz → is_u32 (nCkpt wr) → iReCksum wr = 0 → random_ok wr random → Forall (entry_ok sz) l →
  log_header wr sz (replicate 32 0) random = Some (h, w1) → encode_all w1 (replicate 24 0) l = Some (fs, w2) →
  content (pWalFd w) = h ++ fs ++ rest →
  let m := ((length (content (pWalFd w)) - 32) / Z.to_nat (sz + 24))%nat in
  Z.of_nat m < MAX_FRAMES → walFramePage (Z.of_nat m) < Z.of_nat (length (answers w)) →
  ∃ w' P, walIndexRecover w (Some mem) = Some (SQLITE_OK, w') ∧ index w' (map (λ e, e.1.1) l ++ P) ∧
    (committed l (mxFrame (hdr w')) (nPage (hdr w')) ∨ Z.of_nat (length l) < mxFrame (hdr w')).
Proof.
  intros Hr Hmem Hsz Hc Hre Hs Hl Eh Ef Ec m Hm Hans. rewrite log_header_spec in Eh by done. injection Eh as <- <-.
  assert (page_size sz) as Hps by (destruct Hsz; apply power_page_size; [done|lia]).
  match type of Ef with encode_all ?x _ _ = _ => destruct (encode_all_spec sz l Hl Hps x (replicate 24 0) Hre eq_refl eq_refl) as (w3 & Ef' & _) end.
  rewrite Ef' in Ef. injection Ef as <- _. cbn [aSalt aFrameCksum hdr set_hdr] in Ec. unfold big_end, nativeCksum in Ec. cbn [bigEndCksum hdr set_hdr negb Z.eqb SQLITE_BIGENDIAN] in Ec.
  set (salt := if nCkpt wr =? 0 then random else aSalt (hdr wr)) in *. set (ck := header_sum sz (nCkpt wr) salt) in *.
  assert (length l ≤ m)%nat as Hlm.
  { unfold m. rewrite Ec, !length_app, (log_frames_length _ _ sz) by done. change (length (header_bytes _ _ _)) with 32%nat.
    destruct Hsz. apply Nat.div_le_lower_bound; lia. }
  rewrite <- (take_ge (header_bytes _ _ _ ++ _) (length (content (pWalFd w)))) in Ec by (by rewrite Ec).
  destruct (recover_written w mem sz (nCkpt wr) _ l rest _ Hr Hmem Hsz Hc Hs Hl Ec Hm Hans) as (w' & E & Hi & Hmx & _).
  fold m salt ck in Hi, Hmx. fold ck in Hi, Hmx. rewrite take_ge in Hi, Hmx by (by rewrite valid_length).
  set (more := scan _ _ _ _ _ rest) in *. rewrite pages_of_app, pages_of_valid in Hi.
  exists w', (pages_of more). split_and!; try done. rewrite last_commit_app, valid_length in Hmx.
  destruct (last_commit_later more (1 + Z.of_nat (length l)) (last_commit 1 (valid false ck l) (0, 0, (0, 0)))) as [E'|E']; rewrite <- Hmx in E'.
  - left. pose proof (last_commit_committed false l ck (0, 0)) as H. by rewrite <- E' in H.
  - right. cbn in E'. lia.
Qed.

(** C31: recovery of any log with a valid header, of either byte order of the
    checksums.  The frames are read up to the first that is not valid; the
    index serves exactly them, the header has the last commit with its running
    checksum, it is published in shared memory, the checkpoint starts over and
    the read marks admit the new snapshot, and the locks are given back. *)
Theorem wal_recover_log w mem big sz ckpt salt ck : ready w → shape mem → is_header (content (pWalFd w)) big sz ckpt salt ck →
  32 < Z.of_nat (length (content (pWalFd w))) →
  let N := (Z.of_nat (length (content (pWalFd w))) - 32) / (sz + 24) in
  N < MAX_FRAMES → walFramePage N < Z.of_nat (length (answers w)) →
  ∃ w', walIndexRecover w (Some mem) = Some (SQLITE_OK, w') ∧ recovers w w' (frames_of big sz salt ck (content (pWalFd w))) ∧
    szPage w' = sz ∧ nCkpt w' = ckpt ∧ aSalt (hdr w') = salt ∧ bigEndCksum (hdr w') = if big then 1 else 0.
Proof. apply recover_whole. Qed.

(** A frame that is written is read back: decoding what [walEncodeFrame]
    made, on a connection with the same salts and running checksum, gives the
    page number and size, and leaves both with the same checksum for the next
    frame. *)
Theorem wal_frame_roundtrip w r pgno nTruncate aData aFrame : iReCksum w = 0 → length aFrame = 24%nat → page_size (szPage w) →
  entry_ok (szPage w) (pgno, nTruncate, aData) → pair_u32 (aSalt (hdr w)) → pair_u32 (aFrameCksum (hdr w)) →
  szPage r = szPage w → aSalt (hdr r) = aSalt (hdr w) → aFrameCksum (hdr r) = aFrameCksum (hdr w) → big_end r = big_end w →
  ∃ f w' r', walEncodeFrame w pgno nTruncate aData aFrame = Some (f, w') ∧ length f = 24%nat ∧
    walDecodeFrame r aData f = Some (Some (pgno, nTruncate), r') ∧ aFrameCksum (hdr r') = aFrameCksum (hdr w').
Proof.
  intros Hre Hlen Hp He Hs Hc Esz Esalt Eck Ebig. pose proof He as (_ & _ & _ & Hd & Hl).
  rewrite walEncodeFrame_spec by done. eexists _, _.
  set (b := frame_of (big_end w) (aSalt (hdr w)) (aFrameCksum (hdr w)) (pgno, nTruncate, aData)).
  pose proof (parse_frame_of (big_end w) _ _ _ _ He Hp Hc Hs) as Eparse. fold b in Eparse.
  destruct (walDecodeFrame_spec r b) as (ck & E & Hck).
  - apply Forall_app. split; [|done]. repeat constructor; apply is_u8_u8.
  - unfold b. rewrite (frame_length _ _ _ _ _ He), Esz. destruct Hp. lia.
  - by rewrite Esz.
  - rewrite Ebig, Esalt, Eck, Eparse in E, Hck. eexists. split; [done|]. split; [done|]. split; [exact E|]. cbn. by apply (Hck _ _ _ eq_refl).
Qed.

(** A range of locks is taken, or not, and given back. *)
Lemma lock_range w i n : (i, n) ∉ held w → ∃ rc h l, walLockExclusive w i n = (rc, set_held (set_shm_locks w l) h) ∧
  (h = held w ∨ h = (i, n) :: held w) ∧ (rc ≠ SQLITE_OK → h = held w) ∧
  ∀ w2, rc = SQLITE_OK → held w2 = h → exclusiveMode w2 = exclusiveMode w → walUnlockExclusive w2 i n = set_held w2 (held w).
Proof.
  intros Hn. unfold walLockExclusive, walUnlockExclusive. destruct (negb (exclusiveMode w =? 0)) eqn:E.
  - exists SQLITE_OK, (held w), (shm_locks w). split_and!; try done; [by destruct w|by left|].
    intros w2 _ Eh Ee. rewrite Ee, E, <- Eh. by destruct w2.
  - destruct (next_code (shm_locks w)) as [rc l]. exists rc, (if rc =? SQLITE_OK then (i, n) :: held w else held w), l.
    split; [by destruct (rc =? SQLITE_OK)|]. split; [destruct (rc =? SQLITE_OK); auto|]. split.
    + intros Hne. by rewrite (proj2 (Z.eqb_neq _ _)) by done.
    + intros w2 -> Eh Ee. rewrite Ee, E, Eh, Z.eqb_refl. f_equal. by apply filter_held.
Qed.

(** What a recovery leaves that has got its locks: the index serves the
    frames [l] that were found, and the header ends at the last commit among
    them. *)
Record salvaged (w w' : Wal) (rc : Z) (l : list (Z * Z * (Z * Z))) : Prop := {
  sv_found : found (content (pWalFd w)) l;
  sv_index : index w' (pages_of l);
  sv_header : (mxFrame (hdr w'), nPage (hdr w')) = (last_commit 1 l (0, 0, (0, 0))).1;
  sv_success : rc = SQLITE_OK → (found_all (content (pWalFd w)) l ∨ empty_handed w) ∧
    aFrameCksum (hdr w') = (last_commit 1 l (0, 0, (0, 0))).2 ∧ ∃ p, live w' p
}.

(** Recovery, whatever happens. *)
Lemma walIndexRecover_full w mem : index w [] → (∃ p, get_page w 0 = Some p) → is_bytes (content (pWalFd w)) →
  (∀ p, mem = Some p → shape p) → Z.of_nat (length (content (pWalFd w))) < 512 * MAX_FRAMES →
  ckptLock w = 0 ∨ ckptLock w = 1 → (∀ r, r ∈ held w → r.1 ≤ ckptLock w) →
  ∃ rc w', walIndexRecover w mem = Some (rc, w') ∧ held w' = held w ∧
    (rc ≠ SQLITE_OK ∧ hdr w' = hdr w ∧ apWiData w' = apWiData w ∧ index w' [] ∨ ∃ l, salvaged w w' rc l) ∧
    steady w w' ∧ content (pWalFd w') = content (pWalFd w) ∧ exclusiveMode w' = exclusiveMode w ∧ (∃ p, get_page w' 0 = Some p).
Proof.
  intros Hi [p0 Hp0] Hb Hmem Hmax Hck Hheld. unfold walIndexRecover. set (iLock := WAL_ALL_BUT_WRITE + ckptLock w).
  assert (Hnot : ∀ i n, ckptLock w < i → (i, n) ∉ held w) by (intros i n Hlt Hin; apply Hheld in Hin; cbn in Hin; lia).
  destruct (lock_range w iLock (WAL_READ_LOCK 0 - iLock)) as (rc0 & h & lk & -> & Hh & Hne & Hun).
  { apply Hnot. subst iLock. unfold WAL_ALL_BUT_WRITE. lia. }
  assert (Hm : ∀ j, 0 ≤ j → (WAL_READ_LOCK j, 1) ∉ h).
  { intros j Hj. assert ((WAL_READ_LOCK j, 1) ∉ held w) by (apply Hnot; unfold WAL_READ_LOCK; lia).
    destruct Hh as [-> | ->]; [done|]. intros [Hin|Hin]%elem_of_cons; [|done]. injection Hin as Hin _.
    subst iLock. unfold WAL_READ_LOCK, WAL_ALL_BUT_WRITE in Hin. lia. }
  destruct (Z.eqb_spec rc0 SQLITE_OK) as [->|Hrc]; cbn [negb].
  2: { eexists rc0, _. split; [done|]. split; [by apply Hne|]. split_and!; try done; [left|by exists p0].
       split_and!; try done. by apply (index_eq w). }
  set (w0 := set_held (set_shm_locks w lk) h).
  assert (Hend : ∀ rc w2 l, salvaged w w2 rc l → held w2 = h → exclusiveMode w2 = exclusiveMode w →
    steady w0 w2 → content (pWalFd w2) = content (pWalFd w) → (∃ p, get_page w2 0 = Some p) →
    ∃ rc' w', Some (rc, walUnlockExclusive w2 iLock (WAL_READ_LOCK 0 - iLock)) = Some (rc', w') ∧ held w' = held w ∧
      (rc' ≠ SQLITE_OK ∧ hdr w' = hdr w ∧ apWiData w' = apWiData w ∧ index w' [] ∨ ∃ l, salvaged w w' rc' l) ∧ steady w w' ∧ content (pWalFd w') = content (pWalFd w) ∧ exclusiveMode w' = exclusiveMode w ∧
      (∃ p, get_page w' 0 = Some p)).
  { intros rc w2 l [Hf Hi2 Hmx Hok] Eh Ee Hst Ec Hp. exists rc, (set_held w2 (held w)). rewrite Hun by done.
    split; [done|]. split; [done|]. split_and!; try done; [|apply (steady_trans w w2); [by apply (steady_trans w w0)|done]].
    right. exists l. split; try done. by apply (index_eq w2). }
  unfold sqlite3OsFileSize. destruct (next_code (io_codes _)) as [rc1 io]. cbn [content pWalFd set_held set_shm_locks set_hdr].
  set (w1 := set_pWalFd _ _). assert (index w1 []) as Hi1 by (by apply (index_eq w)).
  destruct (Z.eqb_spec rc1 SQLITE_OK) as [->|Hrc1]; cbn [negb].
  2: { apply (Hend rc1 w1 []); try done; [|by exists p0]. split; try done. apply found_nil. }
  destruct (recover_log_any w1 mem) as (fin & rc & w2 & l & E & Hf & Hok & Hi2 & Hmx & [p2 Hp2] & Hb2 & Eh2 & Ee2 & Hst2 & Ec2); try done; [by exists p0|].
  assert (steady w0 w2) as Hst by (by apply (steady_trans w0 w1)).
  change (content (pWalFd w1)) with (content (pWalFd w0)) in E. rewrite E. clear E.
  destruct (negb fin || negb (rc =? SQLITE_OK)) eqn:Eend.
  { assert (rc ≠ SQLITE_OK) as Hne2 by (intros ->; destruct (Hok eq_refl) as [-> _]; done).
    apply (Hend rc w2 l); [by split|done|done|done|done|by exists p2]. }
  apply orb_false_iff in Eend as [_ Erc]. assert (rc = SQLITE_OK) as -> by lia. destruct (Hok eq_refl) as [_ Hall].
  match goal with |- context [recover_finish w2 ?c _] => set (ck := c) end.
  destruct (recover_finish_spec w2 (pages_of l) p2 ck) as (rc & w3 & p3 & a & l3 & -> & Hi3 & Hlive & E3 & _); try done.
  { intros j Hj. rewrite Eh2. by apply Hm. }
  assert (steady w2 w3) as Hst3 by (by rewrite E3).
  apply (Hend rc w3 l); rewrite ?E3; try done; rewrite <- ?E3; [|by apply (steady_trans w0 w2)|exists p3; apply Hlive].
  split; [done|done|by rewrite E3|]. intros _. split; [exact Hall|]. split; [by rewrite E3|by exists p3].
Qed.

Lemma walIndexRecover_any w mem : index w [] → (∃ p, get_page w 0 = Some p) → is_bytes (content (pWalFd w)) →
  (∀ p, mem = Some p → shape p) → Z.of_nat (length (content (pWalFd w))) < 512 * MAX_FRAMES →
  ckptLock w = 0 ∨ ckptLock w = 1 → (∀ r, r ∈ held w → r.1 ≤ ckptLock w) →
  ∃ rc w' Q, walIndexRecover w mem = Some (rc, w') ∧ held w' = held w ∧ index w' Q ∧ (rc = SQLITE_OK → ∃ p, live w' p) ∧
    steady w w' ∧ content (pWalFd w') = content (pWalFd w) ∧ exclusiveMode w' = exclusiveMode w ∧ (∃ p, get_page w' 0 = Some p).
Proof.
  intros Hi Hp Hb Hmem Hmax Hck Hheld.
  destruct (walIndexRecover_full w mem Hi Hp Hb Hmem Hmax Hck Hheld) as (rc & w' & E & Eh & [(Hne & _ & _ & Hi')|[l [_ Hi' _ Hok]]] & Hrest).
  - exists rc, w', []. do 3 (split; [done|]). split; [done|exact Hrest].
  - exists rc, w', (pages_of l). do 3 (split; [done|]). split; [by intros (_ & _ & ?)%Hok|exact Hrest].
Qed.

(** C32: whatever the operating system, the allocator and the bytes of the
    log do - calls that fail at any point, locks that are refused, a log that
    is cut or corrupt - recovery returns, without leaving any buffer, and
    gives back every lock it took.  When the locks are refused it changes
    neither the header nor the index.  Otherwise the index serves exactly the
    frames it found: none, or the first frames of a log with a valid header;
    and the snapshot in the header ends at the last commit among them.  When
    it reports success, they are all the valid frames of the log - unless
    [xShmMap] gave no page though it reported success - and the header, with
    the checksum of that commit, is published. *)
Theorem wal_recover_fails_clean w mem : index w [] → (∃ p, get_page w 0 = Some p) → is_bytes (content (pWalFd w)) →
  (∀ p, mem = Some p → shape p) → Z.of_nat (length (content (pWalFd w))) < 512 * MAX_FRAMES →
  ckptLock w = 0 ∨ ckptLock w = 1 → (∀ r, r ∈ held w → r.1 ≤ ckptLock w) →
  ∃ rc w', walIndexRecover w mem = Some (rc, w') ∧ held w' = held w ∧
    (rc ≠ SQLITE_OK ∧ hdr w' = hdr w ∧ apWiData w' = apWiData w ∨
     ∃ l, found (content (pWalFd w)) l ∧ index w' (pages_of l) ∧
       (mxFrame (hdr w'), nPage (hdr w')) = (last_commit 1 l (0, 0, (0, 0))).1 ∧
       (rc = SQLITE_OK → (found_all (content (pWalFd w)) l ∨ empty_handed w) ∧
          aFrameCksum (hdr w') = (last_commit 1 l (0, 0, (0, 0))).2 ∧ ∃ p, live w' p)).
Proof.
  intros Hi Hp Hb Hmem Hmax Hck Hheld.
  destruct (walIndexRecover_full w mem Hi Hp Hb Hmem Hmax Hck Hheld) as (rc & w' & E & Eh & [(? & ? & ? & _)|[l []]] & _);
    exists rc, w'; (split; [done|]); (split; [done|]); [by left|right]. by exists l.
Qed.

Lemma hdr_words_inj h h' : hdr_words h = hdr_words h' →
  mxFrame h = mxFrame h' ∧ nPage h = nPage h' ∧ aFrameCksum h = aFrameCksum h' ∧ aSalt h = aSalt h'.
Proof.
  destruct h as [v u c i b s m n [f1 f2] [s1 s2] [c1 c2]], h' as [v' u' c' i' b' s' m' n' [f1' f2'] [s1' s2'] [c1' c2']].
  unfold hdr_words. cbn. intros [= -> -> -> _ -> -> -> -> -> -> _ _]. done.
Qed.

(** The header that a connection publishes is the header that another
    connection reads, if nobody writes meanwhile: after [walIndexWriteHdr] the reader finds two equal
    copies with a checksum that fits, and takes over the version, the
    snapshot, the salts and the running checksum as they are. *)
Theorem wal_header_published w r P : index w P → (∃ p, get_page w 0 = Some p) → is_u8 (bigEndCksum (hdr w)) → others r = [] →
  ∃ w' ch r', walIndexWriteHdr w = Some w' ∧ index w' P ∧ walIndexTryHdr (view r w') 0 = Some (0, ch, r') ∧
    hdr_words (hdr r') = hdr_words (hdr w') ∧ mxFrame (hdr r') = mxFrame (hdr w) ∧ nPage (hdr r') = nPage (hdr w) ∧
    aFrameCksum (hdr r') = aFrameCksum (hdr w) ∧ aSalt (hdr r') = aSalt (hdr w).
Proof.
  intros Hi [p Hp] Hbig Ho. destruct (walIndexWriteHdr_spec w P p Hi Hp Hbig) as (w' & p' & a & -> & E & Hi' & Hlive).
  destruct (live_read r w' P p' Hlive Hi' Ho) as (ch & r' & Et & Hw & _). exists w', ch, r'.
  destruct (hdr_words_inj _ _ Hw) as (E1 & E2 & E3 & E4). assert (hdr w' = published (hdr w)) as Eh by (by rewrite E).
  rewrite Eh in E1, E2, E3, E4. by split_and!.
Qed.

(** *** At concrete inputs *)

(** Three pages of 512 bytes, the second ends a transaction. *)
Definition log3 : list entry := [(5, 0, replicate 512 1); (7, 2, replicate 512 2); (5, 0, replicate 512 3)].

Definition made : bytes * Wal * bytes * Wal :=
  match log_header (writer 0) 512 (replicate 32 0) (3, 4) with
  | Some (h, w1) => match encode_all w1 (replicate 24 0) log3 with Some (fs, w2) => (h, w1, fs, w2) | None => ([], w1, [], w1) end
  | None => ([], writer 0, [], writer 0)
  end.

(** A connection that finds these bytes. *)
Definition crashed (c : bytes) : Wal := set_pWalFd (writer 0) (mk_file c []).

Lemma crashed_ready c : is_bytes c → ready (crashed c).
Proof.
  intros Hc. split; try done.
  - apply (index_eq (writer 0)); [done..|apply writer_index].
  - by eexists.
  - apply Forall_singleton. split_and!; [done..|by eexists].
  - by left.
  - intros r Hr. by apply elem_of_nil in Hr.
Qed.

Lemma log3_ok : Forall (entry_ok 512) log3.
Proof.
  assert (∀ p t k, is_u32 p → p ≠ 0 → is_u32 t → is_u8 k → entry_ok 512 (p, t, replicate 512 k)) as H.
  { intros p t k ????. split_and!; try done. by apply Forall_replicate. }
  unfold log3. repeat apply Forall_cons_2; [by apply H..|constructor].
Qed.

Definition log3_bytes : bytes := made.1.1.1 ++ made.1.2.

Definition bytes_ok (l : bytes) : bool := forallb (λ b, (0 <=? b) && (b <=? 255)) l.

Lemma bytes_ok_spec l : bytes_ok l = true → is_bytes l.
Proof.
  unfold bytes_ok. intros H. apply Forall_forall. intros x Hx. rewrite forallb_forall in H.
  specialize (H x (proj1 (list_elem_of_In _ _) Hx)). unfold is_u8. lia.
Qed.

(** Cut inside the third frame. *)
Lemma wal_crash_recovery_witness : ∃ w' p, walIndexRecover (crashed (take 1204 log3_bytes)) (Some zero_page) = Some (SQLITE_OK, w') ∧
  index w' [5; 7] ∧ committed (take 2 log3) (mxFrame (hdr w')) (nPage (hdr w')) ∧ live w' p.
Proof.
  destruct (wal_crash_recovery (crashed (take 1204 log3_bytes)) zero_page (writer 0) (3, 4) 512 log3 made.1.1.1 made.1.1.2 made.1.2 made.2 1204)
    as (w' & p & E & Hi & Hc & Hl & _).
  - apply crashed_ready, bytes_ok_spec. vm_compute. reflexivity.
  - apply zero_page_shape.
  - by split.
  - by vm_compute.
  - reflexivity.
  - by split; vm_compute.
  - apply log3_ok.
  - vm_compute. reflexivity.
  - vm_compute. reflexivity.
  - reflexivity.
  - vm_compute. reflexivity.
  - vm_compute. reflexivity.
  - assert (((length (content (pWalFd (crashed (take 1204 log3_bytes)))) - 32) / Z.to_nat (512 + 24))%nat = 2%nat) as Em by (vm_compute; reflexivity).
    rewrite Em in Hi, Hc. exists w', p. split_and!; [exact E|exact Hi|exact Hc|exact Hl..].
Defined.

(** Three bytes more at the end. *)
Lemma wal_commit_durable_witness : ∃ w' P, walIndexRecover (crashed (made.1.1.1 ++ made.1.2 ++ [1; 2; 3])) (Some zero_page) = Some (SQLITE_OK, w') ∧
  index w' ([5; 7; 5] ++ P) ∧ (committed log3 (mxFrame (hdr w')) (nPage (hdr w')) ∨ 3 < mxFrame (hdr w')).
Proof.
  destruct (wal_commit_durable (crashed (made.1.1.1 ++ made.1.2 ++ [1; 2; 3])) zero_page (writer 0) (3, 4) 512 log3 made.1.1.1 made.1.1.2 made.1.2 made.2 [1; 2; 3])
    as (w' & P & E & Hi & Hc).
  - apply crashed_ready, bytes_ok_spec. vm_compute. reflexivity.
  - apply zero_page_shape.
  - by split.
  - by vm_compute.
  - reflexivity.
  - by split; vm_compute.
  - apply log3_ok.
  - vm_compute. reflexivity.
  - vm_compute. reflexivity.
  - reflexivity.
  - vm_compute. reflexivity.
  - vm_compute. reflexivity.
  - exists w', P. split_and!; [exact E|exact Hi|exact Hc].
Defined.

Lemma wal_recover_log_witness : ∃ w', walIndexRecover (crashed log3_bytes) (Some zero_page) = Some (SQLITE_OK, w') ∧
  recovers (crashed log3_bytes) w' (frames_of false 512 (3, 4) (header_sum 512 0 (3, 4)) log3_bytes) ∧ szPage w' = 512.
Proof.
  destruct (wal_recover_log (crashed log3_bytes) zero_page false 512 0 (3, 4) (header_sum 512 0 (3, 4))) as (w' & E & Hr & Hs & _).
  - apply crashed_ready, bytes_ok_spec. vm_compute. reflexivity.
  - apply zero_page_shape.
  - split; try (split; vm_compute; done); vm_compute; done.
  - vm_compute. reflexivity.
  - vm_compute. reflexivity.
  - vm_compute. reflexivity.
  - exists w'. split_and!; [exact E|exact Hr|exact Hs].
Defined.

Lemma wal_frame_roundtrip_witness : ∃ f w' r', walEncodeFrame (writer 0) 7 2 (replicate 4096 9) (replicate 24 0) = Some (f, w') ∧ length f = 24%nat ∧
  walDecodeFrame (writer 0) (replicate 4096 9) f = Some (Some (7, 2), r') ∧ aFrameCksum (hdr r') = aFrameCksum (hdr w').
Proof.
  apply (wal_frame_roundtrip (writer 0) (writer 0) 7 2 (replicate 4096 9) (replicate 24 0)); try reflexivity; try (by split; vm_compute).
  split_and!; try done. by apply Forall_replicate.
Defined.

(** The third call on the file fails: the log is not read. *)
Lemma wal_recover_fails_clean_witness :
  let w := set_pWalFd (writer 0) (mk_file log3_bytes [0; 0; 10]) in
  ∃ rc w', walIndexRecover w (Some zero_page) = Some (rc, w') ∧ held w' = [] ∧
    (rc ≠ SQLITE_OK ∧ hdr w' = hdr w ∧ apWiData w' = apWiData w ∨
     ∃ l, found log3_bytes l ∧ index w' (pages_of l) ∧
       (mxFrame (hdr w'), nPage (hdr w')) = (last_commit 1 l (0, 0, (0, 0))).1 ∧
       (rc = SQLITE_OK → (found_all log3_bytes l ∨ empty_handed w) ∧
          aFrameCksum (hdr w') = (last_commit 1 l (0, 0, (0, 0))).2 ∧ ∃ p, live w' p)).
Proof.
  intros w. apply (wal_recover_fails_clean w (Some zero_page)).
  - apply (index_eq (writer 0)); [done..|apply writer_index].
  - by eexists.
  - apply bytes_ok_spec. vm_compute. reflexivity.
  - intros p [= <-]. apply zero_page_shape.
  - vm_compute. reflexivity.
  - by left.
  - intros r Hr. by apply elem_of_nil in Hr.
Defined.

Lemma wal_header_published_witness : ∃ w' ch r', walIndexWriteHdr (writer 0) = Some w' ∧ index w' [] ∧
  walIndexTryHdr (view reader w') 0 = Some (0, ch, r') ∧ hdr_words (hdr r') = hdr_words (hdr w') ∧ mxFrame (hdr r') = 0 ∧
  nPage (hdr r') = 0 ∧ aFrameCksum (hdr r') = (0, 0) ∧ aSalt (hdr r') = (0, 0).
Proof. apply (wal_header_published (writer 0) reader []); [apply writer_index|by eexists|by vm_compute|reflexivity]. Defined.

End WalLog.
