(* ===== verification/WalIter.v ===== *)
(** * The frames of the log in page order ([native/sqlite3/sqlite3.c], wal.c)

    A checkpoint visits the pages of the database that the log holds, in
    ascending order, each with its last frame.  The iterator sorts the frames
    of every page of the index by a merge sort in place that keeps the last of
    equal keys, and merges the pages as it goes.  The theorems are about the
    sort and about what the iterator visits. *)

From stdpp Require Import sorting.
From S2P Require Import Prelude WalIndex.

Module WalIter.

Import WalIndex.

(** ** The sort *)

(** Arrays of indices are ranges of one buffer, [aList], as pointers into it;
    [aTmp] is another.  The length of the range that was merged, with both
    buffers. *)
(* native/sqlite3/sqlite3.c:67704-67722 walMerge, the loop *)
Fixpoint merge_loop (fuel : nat) (aContent aList : list Z) (oLeft nLeft oRight nRight iLeft iRight : Z) (aTmp : list Z) (iOut : Z)
  : option (list Z * Z) :=
  match fuel with
  | O => None
  | S fuel =>
      if (iRight <? nRight) || (iLeft <? nLeft) then
        let* fromLeft :=
          if iLeft <? nLeft then
            if nRight <=? iRight then Some true else
            let* a := rd aList (oLeft + iLeft) in
            let* x := rd aContent a in
            let* b := rd aList (oRight + iRight) in
            let* y := rd aContent b in
            Some (x <? y)
          else Some false in
        let* logpage := rd aList (if fromLeft : bool then oLeft + iLeft else oRight + iRight) in
        let iLeft := if fromLeft then iLeft + 1 else iLeft in
        let iRight := if fromLeft then iRight else iRight + 1 in
        let* dbpage := rd aContent logpage in
        let* aTmp := wr aTmp iOut logpage in
        let* skip :=
          if iLeft <? nLeft then
            let* a := rd aList (oLeft + iLeft) in
            let* x := rd aContent a in
            Some (x =? dbpage)
          else Some false in
        merge_loop fuel aContent aList oLeft nLeft oRight nRight (if skip : bool then iLeft + 1 else iLeft) iRight aTmp (iOut + 1)
      else Some (aTmp, iOut)
  end.

(** The merged range starts where the left one does. *)
(* native/sqlite3/sqlite3.c:67689-67727 walMerge *)
Definition walMerge (aContent aList : list Z) (oLeft nLeft oRight nRight : Z) (aTmp : list Z) : option (list Z * Z * list Z) :=
  let* (aTmp, iOut) :=
    merge_loop (S (Z.to_nat (nLeft + nRight))) aContent aList oLeft nLeft oRight nRight 0 0 aTmp 0 in
  let* d := sub aTmp 0 iOut in
  let* aList := splice aList oLeft d in
  Some (aList, iOut, aTmp).

(** The sub-lists: how many elements, and where they start. *)
Definition NSUB : nat := 13.

(* native/sqlite3/sqlite3.c:67771-67778 walMergesort, the loop over sub-lists *)
Fixpoint merge_subs (n : nat) (aContent aList aBuffer : list Z) (aSub : list (Z * Z)) (iList iSub aMerge nMerge : Z)
  : option (list Z * list Z * Z * Z * Z) :=
  if Z.land iList (Z.shiftl 1 iSub) =? 0 then Some (aList, aBuffer, iSub, aMerge, nMerge) else
  match n with
  | O => None
  | S n =>
      let* p := rd aSub iSub in
      let* (aList, nMerge, aBuffer) := walMerge aContent aList p.2 p.1 aMerge nMerge aBuffer in
      merge_subs n aContent aList aBuffer aSub iList (iSub + 1) p.2 nMerge
  end.

(** The elements from [iList] on, [n] of them. *)
(* native/sqlite3/sqlite3.c:67768-67781 walMergesort, the loop over elements *)
Fixpoint sort_loop (n : nat) (aContent aList aBuffer : list Z) (aSub : list (Z * Z)) (iList iSub aMerge nMerge : Z)
  : option (list Z * list Z * list (Z * Z) * Z * Z * Z) :=
  match n with
  | O => Some (aList, aBuffer, aSub, iSub, aMerge, nMerge)
  | S n =>
      let* (aList, aBuffer, iSub, aMerge, nMerge) := merge_subs NSUB aContent aList aBuffer aSub iList 0 iList 1 in
      let* aSub := wr aSub iSub (nMerge, aMerge) in
      sort_loop n aContent aList aBuffer aSub (iList + 1) iSub aMerge nMerge
  end.

(* native/sqlite3/sqlite3.c:67783-67792 walMergesort, the last loop *)
Fixpoint final_loop (n : nat) (aContent aList aBuffer : list Z) (aSub : list (Z * Z)) (nList iSub aMerge nMerge : Z)
  : option (list Z * list Z * Z * Z) :=
  match n with
  | O => Some (aList, aBuffer, aMerge, nMerge)
  | S n =>
      if Z.land nList (Z.shiftl 1 iSub) =? 0 then final_loop n aContent aList aBuffer aSub nList (iSub + 1) aMerge nMerge else
      let* p := rd aSub iSub in
      let* (aList, nMerge, aBuffer) := walMerge aContent aList p.2 p.1 aMerge nMerge aBuffer in
      final_loop n aContent aList aBuffer aSub nList (iSub + 1) p.2 nMerge
  end.

(** The list, its new length, and the buffer. *)
(* native/sqlite3/sqlite3.c:67746-67804 walMergesort *)
Definition walMergesort (aContent aBuffer aList : list Z) (nList : Z) : option (list Z * Z * list Z) :=
  let aSub := replicate NSUB (0, 0) in
  let* (aList, aBuffer, aSub, iSub, aMerge, nMerge) :=
    sort_loop (Z.to_nat nList) aContent aList aBuffer aSub 0 0 0 0 in
  let* (aList, aBuffer, aMerge, nMerge) :=
    final_loop (NSUB - Z.to_nat (iSub + 1)) aContent aList aBuffer aSub nList (iSub + 1) aMerge nMerge in
  Some (aList, nMerge, aBuffer).

(** ** The iterator *)

(** [aIndex] points into the slots that follow the segments, [aPgno] to a
    word of a page of the index; it is null for a segment that is left out. *)
(* native/sqlite3/sqlite3.c:66469-66479 WalIterator *)
Record WalSegment : Type := mk_segment { iNext : Z; aIndex : Z; aPgno : option (Z * Z); nEntry : Z; seg_iZero : Z }.
Record WalIterator : Type := mk_iterator { iPrior : Z; nSegment : Z; aSegment : list WalSegment; aSlot : list Z }.

Definition set_iNext (s : WalSegment) (i : Z) : WalSegment := mk_segment i (aIndex s) (aPgno s) (nEntry s) (seg_iZero s).

(** [aIndex[i]], and the page number it stands for. *)
Definition entry_at (pWal : Wal) (aSlot : list Z) (s : WalSegment) (i : Z) : option (Z * Z) :=
  let* j := rd aSlot (aIndex s + i) in
  let* (h, o) := aPgno s in
  let* p := get_page pWal h in
  let* pgno := rd (words p) (o + j) in
  Some (j, pgno).

(* native/sqlite3/sqlite3.c:67649-67659 walIteratorNext, the loop over entries *)
Fixpoint next_entry (fuel : nat) (pWal : Wal) (aSlot : list Z) (s : WalSegment) (iMin iRet piFrame : Z)
  : option (WalSegment * Z * Z) :=
  match fuel with
  | O => None
  | S fuel =>
      if iNext s <? nEntry s then
        let* (j, iPg) := entry_at pWal aSlot s (iNext s) in
        if iMin <? iPg then
          Some (if iPg <? iRet then (s, iPg, seg_iZero s + j) else (s, iRet, piFrame))
        else next_entry fuel pWal aSlot (set_iNext s (iNext s + 1)) iMin iRet piFrame
      else Some (s, iRet, piFrame)
  end.

(** The first [n] segments, from the last down. *)
(* native/sqlite3/sqlite3.c:67647-67660 walIteratorNext, the loop over segments *)
Fixpoint next_segments (n : nat) (pWal : Wal) (aSlot : list Z) (l : list WalSegment) (iMin iRet piFrame : Z)
  : option (list WalSegment * Z * Z) :=
  match n with
  | O => Some (l, iRet, piFrame)
  | S n =>
      let i := Z.of_nat n in
      let* s := rd l i in
      let* (s, iRet, piFrame) := next_entry (S (Z.to_nat (nEntry s - iNext s))) pWal aSlot s iMin iRet piFrame in
      let* l := wr l i s in
      next_segments n pWal aSlot l iMin iRet piFrame
  end.

(** The result, [*piPage], [*piFrame], and the iterator. *)
(* native/sqlite3/sqlite3.c:67636-67664 walIteratorNext *)
Definition walIteratorNext (pWal : Wal) (p : WalIterator) (piFrame : Z) : option (bool * Z * Z * WalIterator) :=
  let* (l, iRet, piFrame) := next_segments (Z.to_nat (nSegment p)) pWal (aSlot p) (aSegment p) (iPrior p) 0xFFFFFFFF piFrame in
  Some (iRet =? 0xFFFFFFFF, iRet, piFrame, mk_iterator iRet (nSegment p) l (aSlot p)).

(** The segments from the [i]-th on, [n] of them. *)
(* native/sqlite3/sqlite3.c:67855-67881 walIteratorInit, the loop over segments *)
Fixpoint init_segments (n : nat) (pWal : Wal) (p : WalIterator) (aTmp : list Z) (iLast i : Z) : option (Z * WalIterator * Wal) :=
  match n with
  | O => Some (SQLITE_OK, p, pWal)
  | S n =>
      let* (rc, sLoc, pWal) := walHashGet pWal i in
      if negb (rc =? SQLITE_OK) then Some (rc, p, pWal) else
      let nEntry := if i + 1 =? nSegment p then i32 (u32 (iLast - iZero sLoc)) else HASHTABLE_NPAGE - off sLoc in
      let* l := splice (aSlot p) (iZero sLoc) (map (λ j, u16 (Z.of_nat j)) (seq 0 (Z.to_nat nEntry))) in
      let* aIndex := sub l (iZero sLoc) nEntry in
      let* pg := get_page pWal (iHash sLoc) in
      let* (aIndex, nEntry, aTmp) := walMergesort (drop (Z.to_nat (off sLoc)) (words pg)) aTmp aIndex nEntry in
      let* l := splice l (iZero sLoc) aIndex in
      let* segs := wr (aSegment p) i (mk_segment 0 (iZero sLoc) (Some (iHash sLoc, off sLoc)) nEntry (iZero sLoc + 1)) in
      init_segments n pWal (mk_iterator (iPrior p) (nSegment p) segs l) aTmp iLast (i + 1)
  end.

(** [mem] says whether memory can be had; it is cleared but for [aTmp]. *)
(* native/sqlite3/sqlite3.c:67826-67889 walIteratorInit *)
Definition walIteratorInit (pWal : Wal) (nBackfill : Z) (mem : bool) : option (Z * option WalIterator * Wal) :=
  let iLast := mxFrame (hdr pWal) in
  let nSegment := walFramePage iLast + 1 in
  if negb mem then Some (SQLITE_NOMEM, None, pWal) else
  let p := mk_iterator 0 nSegment (replicate (Z.to_nat nSegment) (mk_segment 0 0 None 0 0)) (replicate (Z.to_nat iLast) 0) in
  let aTmp := replicate (Z.to_nat (if HASHTABLE_NPAGE <? iLast then HASHTABLE_NPAGE else iLast)) 0 in
  let i := walFramePage (u32 (nBackfill + 1)) in
  let* (rc, p, pWal) := init_segments (Z.to_nat (nSegment - i)) pWal p aTmp iLast i in
  Some (rc, if negb (rc =? SQLITE_OK) then None else Some p, pWal).

(** ** Merging *)

Section sort.

Context (c : list Z).

(** The page number of an index. *)
Definition key (j : Z) : Z := default 0 (rd c j).

Definition in_keys (j : Z) : Prop := 0 ≤ j < Z.of_nat (length c).

Lemma rd_key j : in_keys j → rd c j = Some (key j).
Proof. intros H. unfold key. destruct (rd_is_Some c j H) as [x ->]. done. Qed.

Definition ascending : list Z → Prop := StronglySorted (λ i j, key i < key j).

Definition drop_key (k : Z) (l : list Z) : list Z :=
  match l with x :: l' => if key x =? k then l' else l | [] => [] end.

Fixpoint merged (fuel : nat) (L R : list Z) : list Z :=
  match fuel with
  | O => []
  | S fuel =>
      match L, R with
      | [], [] => []
      | [], r :: R => r :: merged fuel [] R
      | l :: L, [] => l :: merged fuel (drop_key (key l) L) []
      | l :: L', r :: R' =>
          if key l <? key r then l :: merged fuel (drop_key (key l) L') R
          else r :: merged fuel (drop_key (key r) L) R'
      end
  end.

Lemma ascending_lookup l i j x y : ascending l → l !! i = Some x → l !! j = Some y → (i < j)%nat → key x < key y.
Proof.
  intros Hs. revert i j. induction Hs as [|z l Hs IH Hf]; intros i j Hx Hy Hij; [done|].
  destruct j as [|j]; [lia|]. cbn in Hy. destruct i as [|i]; cbn in Hx.
  - injection Hx as <-. rewrite Forall_forall in Hf. apply Hf. by apply list_elem_of_lookup_2 in Hy.
  - apply (IH i j); [done|done|lia].
Qed.

Lemma drop_key_length k l : (length (drop_key k l) ≤ length l)%nat.
Proof. destruct l; cbn; [done|]. case_match; cbn; lia. Qed.

Lemma drop_key_sorted k l : ascending l → ascending (drop_key k l).
Proof. destruct l; cbn; [done|]. case_match; [|done]. by intros [? _]%StronglySorted_inv. Qed.

(** The head of an ascending list is its only element with its key. *)
Lemma drop_key_spec k l x : ascending l → Forall (λ y, k ≤ key y) l → (x ∈ drop_key k l ↔ x ∈ l ∧ key x ≠ k).
Proof.
  intros Hs Hk. destruct l as [|y l]; cbn; [set_solver|]. apply Forall_cons in Hk as [Hy Hk]. apply StronglySorted_inv in Hs as [Hs Hf].
  rewrite Forall_forall in Hf. destruct (Z.eqb_spec (key y) k) as [E|E].
  - rewrite elem_of_cons. split; [|naive_solver]. intros Hx. split; [by right|]. specialize (Hf x Hx). cbn in Hf. lia.
  - rewrite elem_of_cons. split; [|tauto]. intros Hx. split; [done|]. destruct Hx as [->|Hx]; [done|]. specialize (Hf x Hx). cbn in Hf. lia.
Qed.

Lemma merged_spec fuel : ∀ L R, (length L + length R ≤ fuel)%nat → ascending L → ascending R →
  ascending (merged fuel L R) ∧ (length (merged fuel L R) ≤ length L + length R)%nat ∧
  ∀ x, x ∈ merged fuel L R ↔ x ∈ R ∨ x ∈ L ∧ ∀ y, y ∈ R → key y ≠ key x.
Proof.
  induction fuel as [|fuel IH]; intros L R Hf HL HR.
  { destruct L, R; cbn in Hf; try lia. cbn. split_and!; [constructor|lia|set_solver]. }
  assert (Hcons : ∀ z A B, ascending A → ascending B → (length A + length B ≤ fuel)%nat →
    (∀ x, x ∈ A ∨ x ∈ B → key z < key x) → ascending (z :: merged fuel A B) ∧
    (length (z :: merged fuel A B) ≤ S (length A + length B))%nat ∧
    ∀ x, x ∈ z :: merged fuel A B ↔ x = z ∨ x ∈ B ∨ x ∈ A ∧ ∀ y, y ∈ B → key y ≠ key x).
  { intros z A B HA HB Hlen Hz. destruct (IH A B Hlen HA HB) as (H1 & H2 & H3). split_and!.
    - constructor; [done|]. apply Forall_forall. intros x Hx. apply H3 in Hx. apply Hz. tauto.
    - cbn. lia.
    - intros x. by rewrite elem_of_cons, H3. }
  cbn [merged]. destruct L as [|l L], R as [|r R]; cbn [length] in Hf |- *.
  - split_and!; [constructor|cbn; lia|set_solver].
  - apply StronglySorted_inv in HR as [HR Hr]. rewrite Forall_forall in Hr.
    destruct (Hcons r [] R) as (H1 & H2 & H3); [constructor|done|cbn; lia|set_solver|]. split_and!; [done|cbn in *; lia|].
    intros x. rewrite H3. set_solver.
  - apply StronglySorted_inv in HL as [HL Hl]. rewrite Forall_forall in Hl.
    assert (∀ x, x ∈ drop_key (key l) L ↔ x ∈ L) as Hd.
    { intros x. rewrite drop_key_spec; [|done|apply Forall_forall; intros y Hy; specialize (Hl y Hy); cbn in Hl; lia].
      split; [tauto|]. intros Hx. split; [done|]. specialize (Hl x Hx). cbn in Hl. lia. }
    pose proof (drop_key_length (key l) L).
    destruct (Hcons l (drop_key (key l) L) []) as (H1 & H2 & H3); [by apply drop_key_sorted|constructor|cbn; lia|set_solver|].
    split_and!; [done|cbn in *; lia|]. intros x. rewrite H3, Hd. set_solver.
  - pose proof HL as HL'. pose proof HR as HR'.
    apply StronglySorted_inv in HR as [HR Hr]. apply StronglySorted_inv in HL as [HL Hl]. rewrite Forall_forall in Hl, Hr.
    destruct (Z.ltb_spec (key l) (key r)) as [Hlt|Hge].
    + assert (∀ x, x ∈ drop_key (key l) L ↔ x ∈ L) as Hd.
      { intros x. rewrite drop_key_spec; [|done|apply Forall_forall; intros y Hy; specialize (Hl y Hy); cbn in Hl; lia].
        split; [tauto|]. intros Hx. split; [done|]. specialize (Hl x Hx). cbn in Hl. lia. }
      pose proof (drop_key_length (key l) L).
      destruct (Hcons l (drop_key (key l) L) (r :: R)) as (H1 & H2 & H3); [by apply drop_key_sorted|done|cbn; lia| |].
      { intros x [Hx|Hx]; [apply Hl; by apply Hd|]. apply elem_of_cons in Hx as [->|Hx]; [lia|]. specialize (Hr x Hx). cbn in Hr. lia. }
      split_and!; [done|cbn in *; lia|]. intros x. rewrite H3, Hd, !elem_of_cons. split.
      * intros [->|[Hx|[Hx Hn]]]; [|tauto|tauto]. right. split; [by left|]. intros y [->|Hy]%elem_of_cons; [lia|]. specialize (Hr y Hy). cbn in Hr. lia.
      * intros [Hx|[[->|Hx] Hn]]; [tauto|by left|tauto].
    + assert (Forall (λ y, key r ≤ key y) (l :: L)) as Hk.
      { apply Forall_cons. split; [lia|]. apply Forall_forall. intros y Hy. specialize (Hl y Hy). cbn in Hl. lia. }
      pose proof (drop_key_length (key r) (l :: L)) as Hlen. cbn in Hlen.
      destruct (Hcons r (drop_key (key r) (l :: L)) R) as (H1 & H2 & H3); [by apply drop_key_sorted|done|cbn in *; lia| |].
      { intros x [Hx|Hx]; [|by apply Hr]. apply drop_key_spec in Hx as [Hx Hn]; [|done|done].
        rewrite Forall_forall in Hk. specialize (Hk x Hx). cbn in Hk. lia. }
      split_and!; [done|cbn in *; lia|]. intros x. rewrite H3. pose proof (drop_key_spec (key r) (l :: L) x HL' Hk) as ->. assert (x ∈ r :: R ↔ x = r ∨ x ∈ R) as -> by apply elem_of_cons. split.
      * intros [->|[Hx|[[Hx Hn] Hy]]]; [tauto|tauto|]. right. split; [done|]. intros y [->|Hin]%elem_of_cons; [congruence|auto].
      * intros [[->|Hx]|[Hx Hn]]; [tauto|tauto|]. right. right. split; [split; [done|]|].
        -- intros E. apply (Hn r); [left|done].
        -- intros y Hy. apply Hn. by right.
Qed.

(** The loop over ranges is the merge of lists. *)
Lemma merge_loop_spec aList oL nL oR nR fuel : ∀ iL iR aTmp iOut L R out,
  sub aList (oL + iL) (nL - iL) = Some L → sub aList (oR + iR) (nR - iR) = Some R → Forall in_keys L → Forall in_keys R →
  sub aTmp 0 iOut = Some out → iOut + Z.of_nat (length L + length R) ≤ Z.of_nat (length aTmp) → (length L + length R < fuel)%nat →
  ∃ aTmp', merge_loop fuel c aList oL nL oR nR iL iR aTmp iOut = Some (aTmp', iOut + Z.of_nat (length (merged fuel L R))) ∧
    length aTmp' = length aTmp ∧ sub aTmp' 0 (iOut + Z.of_nat (length (merged fuel L R))) = Some (out ++ merged fuel L R).
Proof.
  induction fuel as [|fuel IH]; intros iL iR aTmp iOut L R out HL HR KL KR Hout Htmp Hf; [lia|].
  pose proof (sub_length _ _ _ _ HL) as (_ & LL & _). pose proof (sub_length _ _ _ _ HR) as (_ & LR & _).
  pose proof (sub_length _ _ _ _ Hout) as (_ & Lo & _).
  (* one element is moved *)
  assert (Hstep : ∀ (l : Z) iL' iR' L' R', in_keys l → sub aList (oL + iL') (nL - iL') = Some L' → sub aList (oR + iR') (nR - iR') = Some R' →
    Forall in_keys L' → Forall in_keys R' → (length L' + length R' < length L + length R)%nat →
    ∃ aTmp', (let* aTmp := wr aTmp iOut l in
      let* skip := if iL' <? nL then let* a := rd aList (oL + iL') in let* x := rd c a in Some (x =? key l) else Some false in
      merge_loop fuel c aList oL nL oR nR (if skip : bool then iL' + 1 else iL') iR' aTmp (iOut + 1)) =
        Some (aTmp', iOut + Z.of_nat (length (l :: merged fuel (drop_key (key l) L') R'))) ∧
      length aTmp' = length aTmp ∧
      sub aTmp' 0 (iOut + Z.of_nat (length (l :: merged fuel (drop_key (key l) L') R'))) = Some (out ++ l :: merged fuel (drop_key (key l) L') R')).
  { intros l iL' iR' L' R' Kl HL' HR' KL' KR' Hlt.
    pose proof (sub_length _ _ _ _ HL') as (_ & LL' & _).
    destruct (wr aTmp iOut l) as [aTmp1|] eqn:Ew; [|rewrite wr_Some in Ew by lia; done].
    pose proof (sub_write _ _ _ _ _ Hout Ew) as Hout1. pose proof (wr_length _ _ _ _ Ew) as Hl1.
    assert (∃ skip : bool, (if iL' <? nL then let* a := rd aList (oL + iL') in let* x := rd c a in Some (x =? key l) else Some false) = Some skip ∧
      sub aList (oL + (if skip then iL' + 1 else iL')) (nL - (if skip then iL' + 1 else iL')) = Some (drop_key (key l) L')) as (skip & -> & Hs).
    { destruct (Z.ltb_spec iL' nL) as [Hlt'|Hge].
      - destruct L' as [|x L']; [cbn in LL'; lia|]. apply sub_cons in HL' as Hx. destruct Hx as [-> Htl].
        apply Forall_cons in KL' as [Kx _]. rewrite rd_key by done. exists (key x =? key l). split; [done|]. cbn [drop_key].
        destruct (key x =? key l); [|done]. rewrite <- Htl. f_equal; lia.
      - exists false. split; [done|]. destruct L'; [done|cbn in LL'; lia]. }
    destruct (IH _ iR' aTmp1 (iOut + 1) (drop_key (key l) L') R' (out ++ [l]) Hs HR') as (aTmp' & -> & Hl' & Hsub); try done.
    - destruct L' as [|x L']; cbn [drop_key]; [done|]. apply Forall_cons in KL' as [? ?]. destruct (key x =? key l); [assumption|by constructor].
    - pose proof (drop_key_length (key l) L'). lia.
    - pose proof (drop_key_length (key l) L'). lia.
    - exists aTmp'. cbn [length]. rewrite Nat2Z.inj_succ, <- Z.add_1_l, !Z.add_assoc. rewrite <- (assoc_L (++)) in Hsub.
      split_and!; [done|congruence|done]. }
  cbn [merge_loop]. destruct L as [|l L], R as [|r R].
  - cbn in LL, LR. rewrite (proj2 (Z.ltb_ge _ _)), (proj2 (Z.ltb_ge _ _)) by lia. cbn [orb merged length]. rewrite Z.add_0_r, app_nil_r. eauto.
  - cbn in LL, LR. rewrite (proj2 (Z.ltb_lt iR nR)), (proj2 (Z.ltb_ge iL nL)) by lia. cbn [orb].
    apply sub_cons in HR as HR'. destruct HR' as [-> HR']. apply Forall_cons in KR as [Kr KR]. rewrite rd_key by done.
    destruct (Hstep r iL (iR + 1) [] R) as (aTmp' & E & Hl & Hs); try done; try (cbn; lia); [rewrite <- HR'; f_equal; lia|].
    cbn [merged]. cbn [drop_key] in *. exists aTmp'. split_and!; try done.
  - cbn in LL, LR. rewrite (proj2 (Z.ltb_ge iR nR)), (proj2 (Z.ltb_lt iL nL)), (proj2 (Z.leb_le nR iR)) by lia. cbn [orb].
    apply sub_cons in HL as HL'. destruct HL' as [-> HL']. apply Forall_cons in KL as [Kl KL]. rewrite rd_key by done.
    destruct (Hstep l (iL + 1) iR L []) as (aTmp' & E & Hl & Hs); try done; try (cbn; lia); [rewrite <- HL'; f_equal; lia|]. eauto.
  - cbn in LL, LR. rewrite (proj2 (Z.ltb_lt iR nR)), (proj2 (Z.ltb_lt iL nL)), (proj2 (Z.leb_gt nR iR)) by lia. cbn [orb].
    apply sub_cons in HL as HL'. destruct HL' as [-> HL']. apply Forall_cons in KL as KL'. destruct KL' as [Kl KL'].
    apply sub_cons in HR as HR'. destruct HR' as [El HR']. rewrite El. apply Forall_cons in KR as KR'. destruct KR' as [Kr KR'].
    rewrite !rd_key by done. cbn [merged]. destruct (key l <? key r).
    + rewrite (proj1 (sub_cons _ _ _ _ _ HL)), rd_key by done.
      destruct (Hstep l (iL + 1) iR L (r :: R)) as (aTmp' & E & Hl & Hs); try done; try (cbn; lia); [rewrite <- HL'; f_equal; lia|]. eauto.
    + rewrite El, rd_key by done.
      destruct (Hstep r iL (iR + 1) (l :: L) R) as (aTmp' & E & Hl & Hs); try done; try (cbn; lia); [rewrite <- HR'; f_equal; lia|]. eauto.
Qed.

(** ** Sorting *)

(** The last indices of their keys in [a, b), by key. *)
Definition lasts (a b : Z) (l : list Z) : Prop :=
  ascending l ∧ ∀ j, j ∈ l ↔ (a ≤ j < b ∧ ∀ k, j < k < b → key k ≠ key j).

Lemma find_key q b n : ∀ k, Z.to_nat (b - k) = n →
  (∀ k', k < k' < b → key k' ≠ q) ∨ ∃ k', k < k' < b ∧ key k' = q ∧ ∀ k'', k' < k'' < b → key k'' ≠ q.
Proof.
  induction n as [|n IH]; intros k Hn; [left; lia|].
  destruct (IH (k + 1) ltac:(lia)) as [H|(k' & Hk & E & H)].
  - destruct (decide (k + 1 < b ∧ key (k + 1) = q)) as [[Hb E]|Hne].
    + right. exists (k + 1). split_and!; [lia|lia|done|done].
    + left. intros k' Hk. destruct (decide (k' = k + 1)) as [->|]; [|apply H; lia]. intros E. apply Hne. split; [lia|done].
  - right. exists k'. split_and!; [lia|lia|done|done].
Qed.

Lemma lasts_has a b l k : lasts a b l → a ≤ k < b → ∃ y, y ∈ l ∧ key y = key k ∧ k ≤ y.
Proof.
  intros [_ H] Hk. destruct (find_key (key k) b _ k eq_refl) as [Hn|(k' & Hk' & E & Hn)].
  - exists k. split_and!; [|done|lia]. apply H. auto.
  - exists k'. split_and!; [|done|lia]. apply H. split; [lia|]. intros k'' Hk''. rewrite E. by apply Hn.
Qed.

Lemma lasts_single a : lasts a (a + 1) [a].
Proof.
  split; [repeat constructor|]. intros j. rewrite list_elem_of_singleton. split; [intros ->|]; [split; lia|lia].
Qed.

Lemma lasts_merge a m b L R : a ≤ m ≤ b → lasts a m L → lasts m b R → lasts a b (merged (S (length L + length R)) L R).
Proof.
  intros Hm HL HR. pose proof HL as [SL ML]. pose proof HR as [SR MR].
  destruct (merged_spec (S (length L + length R)) L R) as (Hs & _ & H); [lia|done|done|]. split; [done|].
  intros j. rewrite H, ML, MR. split.
  - intros [[Hj Hk]|[[Hj Hk] Hn]].
    + split; [lia|done].
    + split; [lia|]. intros k Hk'. destruct (decide (k < m)) as [Hlt|Hge]; [apply Hk; lia|].
      destruct (lasts_has m b R k HR) as (y & Hy & E & _); [lia|]. rewrite <- E. by apply Hn.
  - intros [Hj Hk]. destruct (decide (j < m)) as [Hlt|Hge].
    + right. split; [split; [lia|]; intros k Hk'; apply Hk; lia|]. intros y Hy. apply MR in Hy as [Hy _]. apply Hk. lia.
    + left. split; [lia|done].
Qed.

Lemma lasts_in a b l : lasts a b l → 0 ≤ a → b ≤ Z.of_nat (length c) → Forall in_keys l.
Proof. intros [_ H] Ha Hb. apply Forall_forall. intros j Hj. apply H in Hj as [Hj _]. unfold in_keys. lia. Qed.

Lemma lasts_length a b l : lasts a b l → a < b → (0 < length l)%nat.
Proof. intros H Hab. destruct (lasts_has a b l a H ltac:(lia)) as (y & Hy & _). destruct l; [by apply elem_of_nil in Hy|cbn; lia]. Qed.

(** A range of the buffer that holds them. *)
Definition holds (aList : list Z) (a b n : Z) : Prop := n ≤ b - a ∧ ∃ l, sub aList a n = Some l ∧ lasts a b l.

Lemma walMerge_spec aList aTmp a m b nL nR : holds aList a m nL → holds aList m b nR → a < m < b → b ≤ Z.of_nat (length c) →
  b - a ≤ Z.of_nat (length aTmp) → b ≤ Z.of_nat (length aList) →
  ∃ aList' n aTmp', walMerge c aList a nL m nR aTmp = Some (aList', n, aTmp') ∧ holds aList' a b n ∧
    length aList' = length aList ∧ length aTmp' = length aTmp ∧
    ∀ i k, i + k ≤ a ∨ b ≤ i → sub aList' i k = sub aList i k.
Proof.
  intros (HnL & L & HL & SL) (HnR & R & HR & SR) Hm Hc Htmp Hlen. unfold walMerge.
  pose proof (sub_length _ _ _ _ HL) as (Ha & LL & _). pose proof (sub_length _ _ _ _ HR) as (_ & LR & _).
  set (fuel := S (Z.to_nat (nL + nR))).
  assert (fuel = S (length L + length R)) as Ef by (unfold fuel; lia).
  destruct (merge_loop_spec aList a nL m nR fuel 0 0 aTmp 0 L R []) as (aTmp' & E & Hl' & Hs).
  - by rewrite Z.add_0_r, Z.sub_0_r.
  - by rewrite Z.add_0_r, Z.sub_0_r.
  - apply (lasts_in a m); [done|done|lia].
  - apply (lasts_in m b); [done|lia|done].
  - unfold sub. rewrite decide_True by lia. done.
  - lia.
  - lia.
  - rewrite Z.add_0_l in E, Hs. cbn [app] in Hs. rewrite Ef in E, Hs. rewrite Ef, E, Hs.
    pose proof (lasts_merge a m b L R ltac:(lia) SL SR) as HM. set (M := merged _ L R) in *.
    assert (length M ≤ length L + length R)%nat as HlM by (apply merged_spec; [lia|apply SL|apply SR]).
    assert (Hsp : ∃ aList', splice aList a M = Some aList') by (unfold splice; rewrite decide_True by lia; eauto).
    destruct Hsp as [aList' Hsp]. rewrite Hsp. exists aList', (Z.of_nat (length M)), aTmp'. split_and!; try done.
    + split; [lia|]. exists M. split; [by eapply sub_splice_in|done].
    + by eapply splice_length.
    + intros i k Hik. eapply sub_splice_out; [done|]. lia.
Qed.

(** *** The binary counter of sub-lists *)

Lemma land_bit n i : 0 ≤ i → (Z.land n (Z.shiftl 1 i) =? 0) = negb (Z.testbit n i).
Proof. intros Hi. rewrite Z.shiftl_mul_pow2, Z.mul_1_l by done. by apply land_pow2_eqb. Qed.

Lemma pow2_S i : 0 ≤ i → 2 ^ (i + 1) = 2 * 2 ^ i.
Proof. intros. rewrite Z.pow_add_r by lia. lia. Qed.

Lemma testbit_div n i : 0 ≤ i → Z.testbit n i = Z.odd (n / 2 ^ i).
Proof. intros. by rewrite Z.testbit_odd, Z.shiftr_div_pow2. Qed.

(** Where the sub-list of bit [i] starts. *)
Definition blk (n i : Z) : Z := n / 2 ^ (i + 1) * 2 ^ (i + 1).

Lemma blk_next n i : 0 ≤ i → n / 2 ^ i * 2 ^ i = blk n i + (if Z.testbit n i then 2 ^ i else 0).
Proof.
  intros Hi. unfold blk. rewrite testbit_div, pow2_S by done. set (q := n / 2 ^ i).
  assert (n / (2 * 2 ^ i) = q / 2) as -> by (unfold q; rewrite Z.div_div by lia; f_equal; lia).
  assert (q = 2 * (q / 2) + (if Z.odd q then 1 else 0)) as E.
  { rewrite (Z.div_mod q 2) at 1 by lia. rewrite Zmod_odd. done. }
  rewrite E at 1. destruct (Z.odd q); ring.
Qed.

(** Adding one carries up to the first bit that is clear. *)
Lemma carry n s : 0 ≤ s → (n + 1) mod 2 ^ s = 0 → Z.testbit n s = false →
  blk (n + 1) s = n + 1 - 2 ^ s ∧ Z.testbit (n + 1) s = true ∧
  (∀ i, 0 ≤ i < s → Z.testbit (n + 1) i = false) ∧ (∀ i, s < i → Z.testbit (n + 1) i = Z.testbit n i ∧ blk (n + 1) i = blk n i).
Proof.
  intros Hs Hm Hb. assert (0 < 2 ^ s) as Hpos by lia. set (q := (n + 1) / 2 ^ s).
  assert (n + 1 = q * 2 ^ s) as En by (unfold q; rewrite (Z.div_mod (n + 1) (2 ^ s)) at 1 by lia; lia).
  assert (n / 2 ^ s = q - 1) as Eq by (symmetry; apply (Z.div_unique n (2 ^ s) (q - 1) (2 ^ s - 1)); lia).
  rewrite testbit_div, Eq in Hb by done.
  assert (Z.odd q = true) as Hq by (by rewrite <- (Z.sub_add 1 q), Z.odd_add, Hb).
  assert (Z.testbit (n + 1) s = true) as Ht by (by rewrite testbit_div by done).
  assert (∀ i, s < i → n / 2 ^ i = (n + 1) / 2 ^ i) as Hhigh.
  { intros i Hi. replace i with (s + 1 + (i - s - 1)) by lia. rewrite Z.pow_add_r, <- !Z.div_div by lia. f_equal.
    rewrite pow2_S by done. rewrite (Z.mul_comm 2), <- !Z.div_div by lia. fold q. rewrite Eq.
    assert (q = 2 * (q / 2) + 1) as E by (rewrite (Z.div_mod q 2) at 1 by lia; rewrite Zmod_odd, Hq; done).
    symmetry; apply Z.div_unique with 0; lia. }
  split_and!; [|done| |].
  - pose proof (blk_next (n + 1) s Hs) as H. rewrite Ht in H. fold q in H. lia.
  - intros i Hi. rewrite En. apply Z.mul_pow2_bits_low. lia.
  - intros i Hi. rewrite !testbit_div by lia. unfold blk. by rewrite !Hhigh by lia.
Qed.

(** The bits of a number below [2 ^ k]. *)
Lemma bits_above n i k : 0 ≤ n < 2 ^ k → 0 ≤ k ≤ i → Z.testbit n i = false.
Proof.
  intros Hn Hk. rewrite testbit_div by lia. rewrite Z.div_small; [done|]. split; [lia|].
  eapply Z.lt_le_trans; [apply Hn|]. apply Z.pow_le_mono_r; lia.
Qed.

(** A larger power leaves at least as much. *)
Lemma low_part n s i : 0 ≤ s ≤ i → 0 ≤ n → (n + 1) mod 2 ^ s = 0 → n / 2 ^ i * 2 ^ i ≤ n + 1 - 2 ^ s.
Proof.
  intros Hi Hn Hm. assert (0 < 2 ^ s) by lia. assert (0 < 2 ^ i) by lia.
  assert (∃ k, n + 1 = k * 2 ^ s) as [k Ek] by (apply Z.mod_divide in Hm; [exact Hm|lia]).
  assert (∃ r, n / 2 ^ i * 2 ^ i = r * 2 ^ s) as [r Er].
  { exists (n / 2 ^ i * 2 ^ (i - s)). rewrite <- Z.mul_assoc, <- Z.pow_add_r by lia. do 2 f_equal. lia. }
  pose proof (Z.mul_div_le n (2 ^ i) ltac:(lia)). rewrite Er, Ek. assert (r < k) by nia. nia.
Qed.

(** Below [iList] the sub-lists are sorted, from there on the elements are as
    they were. *)
Definition counter (aList : list Z) (aSub : list (Z * Z)) (n s : Z) : Prop :=
  length aSub = NSUB ∧ ∀ i, s ≤ i < 13 → Z.testbit n i = true →
    ∃ k, rd aSub i = Some (k, blk n i) ∧ holds aList (blk n i) (blk n i + 2 ^ i) k.

Lemma merge_subs_spec aSub iList m : ∀ s nM aList aBuf,
  0 ≤ s → 13 ≤ s + Z.of_nat m → 0 ≤ iList < 4096 → (iList + 1) mod 2 ^ s = 0 →
  holds aList (iList + 1 - 2 ^ s) (iList + 1) nM → counter aList aSub iList s →
  iList < Z.of_nat (length c) → iList < Z.of_nat (length aBuf) → iList < Z.of_nat (length aList) →
  ∃ s' nM' aList' aBuf', merge_subs m c aList aBuf aSub iList s (iList + 1 - 2 ^ s) nM = Some (aList', aBuf', s', iList + 1 - 2 ^ s', nM') ∧
    s ≤ s' < 13 ∧ (iList + 1) mod 2 ^ s' = 0 ∧ Z.testbit iList s' = false ∧ holds aList' (iList + 1 - 2 ^ s') (iList + 1) nM' ∧
    length aList' = length aList ∧ length aBuf' = length aBuf ∧
    ∀ i k, i + k ≤ iList + 1 - 2 ^ s' ∨ iList + 1 ≤ i → sub aList' i k = sub aList i k.
Proof.
  induction m as [|m IH]; intros s nM aList aBuf Hs Hsm Hi Hmod HM [Hsub Hcnt] Hc Hbuf Hlen.
  - cbn [merge_subs]. rewrite land_bit by done. rewrite (bits_above iList s 12) by lia. cbn [negb].
    exfalso. assert (2 ^ 13 ≤ 2 ^ s) by (apply Z.pow_le_mono_r; lia). change (2 ^ 13) with 8192 in *.
    rewrite Z.mod_small in Hmod by lia. lia.
  - cbn [merge_subs]. rewrite land_bit by done. destruct (Z.testbit iList s) eqn:Hbit; cbn [negb].
    2: { exists s, nM, aList, aBuf. split_and!; try done.
         destruct (decide (s < 13)); [done|]. assert (2 ^ 13 ≤ 2 ^ s) by (apply Z.pow_le_mono_r; lia). change (2 ^ 13) with 8192 in *.
         rewrite Z.mod_small in Hmod by lia. lia. }
    assert (s < 13) as Hs13.
    { destruct (decide (s < 13)); [done|]. rewrite (bits_above iList s 12) in Hbit by (change (2 ^ 12) with 4096; lia). done. }
    destruct (Hcnt s ltac:(lia) Hbit) as (k & Hrd & Hhold). rewrite Hrd. cbn [fst snd].
    assert (0 < 2 ^ s) as Hpos by lia. pose proof (pow2_S s Hs) as Hp2.
    assert (blk iList s + 2 ^ s = iList + 1 - 2 ^ s ∧ (iList + 1) mod 2 ^ (s + 1) = 0) as [Eb Hmod'].
    { pose proof (blk_next iList s Hs) as H. rewrite Hbit in H.
      assert (iList / 2 ^ s * 2 ^ s = iList + 1 - 2 ^ s) as E.
      { apply Z.mod_divide in Hmod as [q Eq]; [|lia].
        assert (iList / 2 ^ s = q - 1) as -> by (symmetry; apply (Z.div_unique iList (2 ^ s) (q - 1) (2 ^ s - 1)); lia). lia. }
      split; [lia|]. apply Z.mod_divide; [lia|]. exists (iList / 2 ^ (s + 1) + 1). unfold blk in H. lia. }
    rewrite Eb in Hhold.
    assert (0 ≤ blk iList s) by (unfold blk; apply Z.mul_nonneg_nonneg; [apply Z.div_pos|]; lia).
    destruct (walMerge_spec aList aBuf (blk iList s) (iList + 1 - 2 ^ s) (iList + 1) k nM) as (aList1 & n1 & aBuf1 & -> & H1 & L1 & L1' & Hk1);
      try done; try lia.
    assert (blk iList s = iList + 1 - 2 ^ (s + 1)) as E1 by lia. rewrite E1 in *.
    destruct (IH (s + 1) n1 aList1 aBuf1) as (s' & nM' & aList' & aBuf' & -> & Hs' & Hm' & Hb' & HM' & L2 & L2' & Hk2);
      try done; try lia.
    + split; [done|]. intros i Hir Hbi. destruct (Hcnt i ltac:(lia) Hbi) as (k' & Hrd' & Hlk' & l' & Hsub' & Hl'). exists k'. split; [done|].
      split; [done|]. exists l'. split; [|done]. rewrite Hk1; [done|]. left.
      pose proof (low_part iList (s + 1) i ltac:(lia) ltac:(lia) Hmod') as Hlow. pose proof (blk_next iList i ltac:(lia)) as Hbn. rewrite Hbi in Hbn. lia.
    + exists s', nM', aList', aBuf'. split_and!; try done; try lia.
      intros i k' Hik. rewrite Hk2 by done. apply Hk1. destruct Hik as [Hik|Hik]; [left|by right].
      assert (2 ^ (s + 1) ≤ 2 ^ s') by (apply Z.pow_le_mono_r; lia). lia.
Qed.

(** The state after [n] elements, in terms of the range that was merged last. *)
Record sorted_to (aList : list Z) (aSub : list (Z * Z)) (n s a nM : Z) : Prop := {
  st_bit : 0 ≤ s < 13 ∧ Z.testbit n s = true ∧ n mod 2 ^ s = 0;
  st_start : a = n - 2 ^ s;
  st_range : holds aList a n nM;
  st_subs : counter aList aSub n 0
}.

Lemma sort_loop_spec m : ∀ iList aList aBuf aSub s a nM,
  counter aList aSub iList 0 → (m = 0%nat → sorted_to aList aSub iList s a nM) → 0 ≤ iList →
  (∀ j, iList ≤ j < iList + Z.of_nat m → sub aList j 1 = Some [j]) → iList + Z.of_nat m ≤ 4096 →
  iList + Z.of_nat m ≤ Z.of_nat (length c) → iList + Z.of_nat m ≤ Z.of_nat (length aBuf) → iList + Z.of_nat m ≤ Z.of_nat (length aList) →
  ∃ aList' aBuf' aSub' s' a' nM', sort_loop m c aList aBuf aSub iList s a nM = Some (aList', aBuf', aSub', s', a', nM') ∧
    sorted_to aList' aSub' (iList + Z.of_nat m) s' a' nM' ∧ length aList' = length aList ∧ length aBuf' = length aBuf.
Proof.
  induction m as [|m IH]; intros iList aList aBuf aSub s a nM Hcnt Hst Hi Hrest Hmax Hc Hbuf Hlen.
  - exists aList, aBuf, aSub, s, a, nM. rewrite Z.add_0_r. split_and!; auto.
  - cbn [sort_loop]. assert (holds aList (iList + 1 - 2 ^ 0) (iList + 1) 1) as H0.
    { change (2 ^ 0) with 1. rewrite Z.add_simpl_r. split; [lia|]. exists [iList]. split; [apply Hrest; lia|apply lasts_single]. }
    destruct (merge_subs_spec aSub iList NSUB 0 1 aList aBuf) as (s' & nM' & aList1 & aBuf1 & E & Hs' & Hm' & Hb' & HM' & L1 & L1' & Hk);
      try done; try lia; [apply Z.mod_1_r|].
    change (iList + 1 - 2 ^ 0) with (iList + 1 - 1) in E. rewrite Z.add_simpl_r in E. rewrite E. clear E.
    destruct Hcnt as [Hsub Hcnt]. destruct (carry iList s') as (Hblk & Ht & Hlow & Hhigh); [lia|done|done|].
    destruct (wr aSub s' (nM', iList + 1 - 2 ^ s')) as [aSub1|] eqn:Ew; [|rewrite wr_Some in Ew by (rewrite Hsub; unfold NSUB; lia); done].
    assert (counter aList1 aSub1 (iList + 1) 0) as Hcnt1.
    { split; [by rewrite (wr_length _ _ _ _ Ew)|]. intros i Hir Hbi. destruct (Z.lt_trichotomy i s') as [Hlt|[->|Hgt]].
      - rewrite Hlow in Hbi by lia. done.
      - exists nM'. rewrite (rd_wr_eq _ _ _ _ Ew), Hblk. split; [done|]. replace (iList + 1 - 2 ^ s' + 2 ^ s') with (iList + 1) by lia. done.
      - destruct (Hhigh i Hgt) as [Eb ->]. rewrite Eb in Hbi. destruct (Hcnt i ltac:(lia) Hbi) as (k & Hrd & Hlk & l & Hl & Hll).
        exists k. rewrite (rd_wr_ne _ _ _ _ _ Ew) by lia. split; [done|]. split; [done|]. exists l. split; [|done]. rewrite Hk; [done|]. left.
        pose proof (low_part iList s' i ltac:(lia) Hi Hm') as Hlp. pose proof (blk_next iList i ltac:(lia)) as Hbn. rewrite Hbi in Hbn. lia. }
    destruct (IH (iList + 1) aList1 aBuf1 aSub1 s' (iList + 1 - 2 ^ s') nM') as (aList' & aBuf' & aSub' & s2 & a2 & n2 & -> & Hst' & L2 & L2');
      try done; try lia.
    + intros j Hj. rewrite Hk by lia. apply Hrest. lia.
    + exists aList', aBuf', aSub', s2, a2, n2. replace (iList + Z.of_nat (S m)) with (iList + 1 + Z.of_nat m) by lia.
      split_and!; [done|done|congruence|congruence].
Qed.

Lemma part_mono n s i : 0 ≤ s ≤ i → 0 ≤ n → n / 2 ^ i * 2 ^ i ≤ n / 2 ^ s * 2 ^ s.
Proof.
  intros Hi Hn. assert (0 < 2 ^ s) by lia. assert (0 < 2 ^ i) by lia.
  assert (n / 2 ^ i * 2 ^ i = n / 2 ^ i * 2 ^ (i - s) * 2 ^ s) as E.
  { rewrite <- Z.mul_assoc, <- Z.pow_add_r by lia. do 2 f_equal. lia. }
  pose proof (Z.mul_div_le n (2 ^ i) ltac:(lia)). rewrite E. apply Z.mul_le_mono_nonneg_r; [lia|].
  apply Z.div_le_lower_bound; lia.
Qed.

Lemma final_loop_spec aSub nList m : ∀ i a nM aList aBuf,
  0 ≤ i → i + Z.of_nat m = 13 → 0 < nList ≤ 4096 → a = nList / 2 ^ i * 2 ^ i → a < nList → holds aList a nList nM →
  counter aList aSub nList i → nList ≤ Z.of_nat (length c) → nList ≤ Z.of_nat (length aBuf) → nList ≤ Z.of_nat (length aList) →
  ∃ aList' aBuf' nM', final_loop m c aList aBuf aSub nList i a nM = Some (aList', aBuf', 0, nM') ∧ holds aList' 0 nList nM' ∧
    length aList' = length aList ∧ length aBuf' = length aBuf.
Proof.
  induction m as [|m IH]; intros i a nM aList aBuf Hi Hm Hn Ha Hlt HM Hcnt Hc Hbuf Hlen.
  - exists aList, aBuf, nM. assert (i = 13) as -> by lia. change (2 ^ 13) with 8192 in Ha. rewrite Z.div_small in Ha by lia. subst a. done.
  - cbn [final_loop]. rewrite land_bit by done. pose proof (blk_next nList i Hi) as Hbn. rewrite <- Ha in Hbn.
    destruct Hcnt as [Hsub Hcnt]. destruct (Z.testbit nList i) eqn:Hb; cbn [negb].
    + destruct (Hcnt i ltac:(lia) Hb) as (k & Hrd & Hhold). rewrite Hrd. cbn [fst snd]. rewrite <- Hbn in Hhold.
      assert (0 < 2 ^ i) by lia. assert (0 ≤ blk nList i) by (unfold blk; apply Z.mul_nonneg_nonneg; [apply Z.div_pos|]; lia).
      destruct (walMerge_spec aList aBuf (blk nList i) a nList k nM) as (aList1 & n1 & aBuf1 & -> & H1 & L1 & L1' & Hk1); try done; try lia.
      destruct (IH (i + 1) (blk nList i) n1 aList1 aBuf1) as (aList' & aBuf' & nM' & -> & HM' & L2 & L2'); try done; try lia.
      * split; [done|]. intros i' Hir Hbi. destruct (Hcnt i' ltac:(lia) Hbi) as (k' & Hrd' & Hlk' & l' & Hsub' & Hl'). exists k'. split; [done|].
        split; [done|]. exists l'. split; [|done]. rewrite Hk1; [done|]. left.
        pose proof (part_mono nList (i + 1) i' ltac:(lia) ltac:(lia)) as Hlow. pose proof (blk_next nList i' ltac:(lia)) as Hbn'. rewrite Hbi in Hbn'.
        unfold blk at 2. lia.
      * exists aList', aBuf', nM'. split_and!; [done|done|congruence|congruence].
    + destruct (IH (i + 1) a nM aList aBuf) as (aList' & aBuf' & nM' & E & HM' & L2 & L2'); try done; try lia.
      * rewrite Hbn. unfold blk. lia.
      * split; [done|]. intros i' Hir. apply Hcnt. lia.
      * rewrite E. eauto 10.
Qed.

(** The sort: of the indices 0 .. [nList] - 1 it keeps the last of every key,
    and orders them by key. *)
Lemma walMergesort_spec aBuffer aList nList : 0 < nList ≤ 4096 → nList ≤ Z.of_nat (length c) → nList ≤ Z.of_nat (length aBuffer) →
  nList ≤ Z.of_nat (length aList) → (∀ j, 0 ≤ j < nList → sub aList j 1 = Some [j]) →
  ∃ aList' n aBuffer' l, walMergesort c aBuffer aList nList = Some (aList', n, aBuffer') ∧ sub aList' 0 n = Some l ∧ lasts 0 nList l ∧
    length aList' = length aList ∧ length aBuffer' = length aBuffer.
Proof.
  intros Hn Hc Hbuf Hlen Hids. unfold walMergesort.
  destruct (sort_loop_spec (Z.to_nat nList) 0 aList aBuffer (replicate NSUB (0, 0)) 0 0 0) as (aList1 & aBuf1 & aSub1 & s & a & nM & -> & Hst & L1 & L1');
    try lia.
  - split; [done|]. intros i _. by rewrite Z.testbit_0_l.
  - intros j Hj. apply Hids. lia.
  - rewrite Z.add_0_l, Z2Nat.id in Hst by lia. destruct Hst as [(Hs & Hb & Hm) Ha Hr [Hsub Hcnt]].
    assert (0 < 2 ^ s) by lia. pose proof (blk_next nList s ltac:(lia)) as Hbn. rewrite Hb in Hbn.
    assert (nList / 2 ^ s * 2 ^ s = nList) as E by (rewrite (Z.div_mod nList (2 ^ s)) at 2 by lia; rewrite Hm; lia).
    destruct (final_loop_spec aSub1 nList (NSUB - Z.to_nat (s + 1)) (s + 1) a nM aList1 aBuf1) as (aList' & aBuf' & nM' & -> & HM & L2 & L2');
      try done; try (unfold NSUB; lia).
    + unfold blk in Hbn. lia.
    + split; [done|]. intros i Hir. apply Hcnt. lia.
    + destruct HM as (_ & l & Hl & Hll). exists aList', nM', aBuf', l. split_and!; [done|done|done|congruence|congruence].
Qed.

End sort.

Lemma key_ext c c' j : rd c j = rd c' j → key c j = key c' j.
Proof. unfold key. by intros ->. Qed.

Lemma lasts_ext c c' a b l : (∀ j, a ≤ j < b → key c j = key c' j) → lasts c a b l → lasts c' a b l.
Proof.
  intros Hk [Hs Hm].
  assert (∀ j, j ∈ l → a ≤ j < b) as Hin by (intros j Hj; by apply Hm in Hj as [? _]).
  split.
  - clear Hm. induction Hs as [|x l Hs IH Hf]; [constructor|]. constructor.
    + apply IH. intros j Hj. apply Hin. by right.
    + rewrite Forall_forall in Hf |- *. intros y Hy. rewrite <- !Hk by (apply Hin; set_solver). by apply Hf.
  - intros j. rewrite Hm. split; intros [Hj H]; (split; [done|]); intros k Hk'; specialize (H k Hk').
    + by rewrite <- !Hk by lia.
    + by rewrite !Hk by lia.
Qed.

(** The list 0, 1, .. *)
Lemma identity_list n : (n ≤ 4096)%nat → let l := map (λ j, u16 (Z.of_nat j)) (seq 0 n) in
  length l = n ∧ ∀ j, 0 ≤ j < Z.of_nat n → sub l j 1 = Some [j].
Proof.
  intros Hn l. assert (length l = n) as Hl by (unfold l; by rewrite length_map, length_seq). split; [done|]. intros j Hj.
  apply sub_rd; [lia|done|lia|]. intros k Hk. replace k with 0 by lia. rewrite Z.add_0_r, rd_0. unfold rd. rewrite decide_True by lia.
  unfold l. rewrite list_lookup_fmap, lookup_seq_lt by lia. cbn. f_equal. unfold u16. rewrite Z.mod_small; lia.
Qed.

(** ** The iterator and the frames of the log *)

Section iterator.

Context (P : list Z) (iLast i0 : Z).

(** The page number of a frame. *)
Definition frame_page (f : Z) : Z := default 0 (P !! Z.to_nat (f - 1)).

(** The last frame of a segment that counts. *)
Definition seg_end (i : Z) : Z := Z.min (last_of i) iLast.

(** The segments from [i0] on have the last frames of their pages, in page
    order; the entries before [iNext] have been visited. *)
Definition seg_ok (aSlot : list Z) (prior i : Z) (s : WalSegment) : Prop :=
  if decide (i < i0) then nEntry s = 0 ∧ iNext s = 0 else
  aPgno s = Some (i, first_off i) ∧ aIndex s = zero_of i ∧ seg_iZero s = zero_of i + 1 ∧ 0 ≤ iNext s ≤ nEntry s ∧
  nEntry s ≤ seg_end i - zero_of i ∧ ∃ l, sub aSlot (zero_of i) (nEntry s) = Some l ∧
    lasts (segment i P) 0 (seg_end i - zero_of i) l ∧
    ∀ k j, 0 ≤ k < iNext s → rd l k = Some j → frame_page (zero_of i + 1 + j) ≤ prior.

Record iter_ok (p : WalIterator) : Prop := {
  it_n : nSegment p = walFramePage iLast + 1;
  it_length : Z.of_nat (length (aSegment p)) = nSegment p;
  it_prior : 0 ≤ iPrior p;
  it_segs : ∀ i, 0 ≤ i < nSegment p → ∃ s, rd (aSegment p) i = Some s ∧ seg_ok (aSlot p) (iPrior p) i s
}.

Context (w : Wal).
Context (Hi : index w P) (HL : 0 < iLast ≤ Z.of_nat (length P)) (H0 : 0 ≤ i0 ≤ walFramePage iLast).

Lemma last_max : iLast < MAX_FRAMES.
Proof. pose proof (i_frames _ _ Hi). lia. Qed.

Lemma seg_bounds i : 0 ≤ i ≤ walFramePage iLast → 0 ≤ i ≤ 524288 ∧ 0 ≤ zero_of i < seg_end i ∧ seg_end i ≤ zero_of i + (4096 - first_off i) ∧
  0 ≤ first_off i ≤ 34 ∧ (i < walFramePage iLast → seg_end i = last_of i) ∧ (i = walFramePage iLast → seg_end i = iLast).
Proof.
  intros Hr. pose proof last_max as Hmax. destruct (walFramePage_range iLast) as [Hw Hz]; [lia|].
  pose proof (zero_of_next i ltac:(lia)). pose proof (zero_of_pos i).
  assert (0 ≤ first_off i ≤ 34) by (unfold first_off; case_match; lia).
  pose proof (last_of_le i (walFramePage iLast - 1)) as Hle. fold (zero_of (walFramePage iLast)) in Hle.
  destruct (decide (i = walFramePage iLast)) as [->|Hne].
  - unfold seg_end. split_and!; lia.
  - specialize (Hle ltac:(lia)). unfold seg_end. split_and!; lia.
Qed.

Lemma key_segment i j : 0 ≤ i ≤ walFramePage iLast → 0 ≤ j < seg_end i - zero_of i → key (segment i P) j = frame_page (zero_of i + 1 + j).
Proof.
  intros Hr Hj. pose proof (seg_bounds i Hr). pose proof (zero_of_next i ltac:(lia)). unfold key, rd, frame_page. rewrite decide_True by lia.
  replace j with (j + 1 - 1) at 1 by lia. rewrite segment_lookup by lia. do 2 f_equal. lia.
Qed.

(** The page of the index, read as the sort does. *)
Lemma page_keys i : 0 ≤ i ≤ walFramePage iLast → ∃ pg, get_page w i = Some pg ∧ 
  Z.of_nat (length (drop (Z.to_nat (first_off i)) (words pg))) = 4096 - first_off i ∧
  ∀ j, 0 ≤ j < seg_end i - zero_of i → rd (words pg) (first_off i + j) = Some (frame_page (zero_of i + 1 + j)) ∧
    key (drop (Z.to_nat (first_off i)) (words pg)) j = key (segment i P) j.
Proof.
  intros Hr. pose proof (seg_bounds i Hr) as Hb. assert (zero_of i < Z.of_nat (length P)) as Hz by (unfold seg_end in Hb; lia).
  destruct (i_table _ _ Hi i) as (pg & Hpg & Ht); [lia|done|]. exists pg. pose proof (t_words _ _ _ Ht) as Hl.
  change (Z.to_nat HASHTABLE_NPAGE) with 4096%nat in Hl. split; [done|]. split; [rewrite length_drop; lia|].
  intros j Hj. pose proof (t_pgno _ _ _ Ht j ltac:(lia)) as Hrd.
  assert (default 0 (segment i P !! Z.to_nat j) = key (segment i P) j) as Ek by (unfold key, rd; by rewrite decide_True by lia).
  rewrite Ek in Hrd. split; [by rewrite Hrd, key_segment by lia|].
  unfold key at 1. unfold rd in Hrd |- *. rewrite decide_True in Hrd by lia. rewrite decide_True by lia.
  rewrite lookup_drop. replace (Z.to_nat (first_off i) + Z.to_nat j)%nat with (Z.to_nat (first_off i + j)) by lia. by rewrite Hrd.
Qed.

(** The segments up to [i] are filled, the others are zero. *)
Record init_ok (p : WalIterator) (i : Z) : Prop := {
  in_n : nSegment p = walFramePage iLast + 1;
  in_length : Z.of_nat (length (aSegment p)) = nSegment p;
  in_slots : Z.of_nat (length (aSlot p)) = iLast;
  in_prior : iPrior p = 0;
  in_done : ∀ j, 0 ≤ j < i → ∃ s, rd (aSegment p) j = Some s ∧ seg_ok (aSlot p) 0 j s
}.

Lemma init_segments_spec n : ∀ i p aTmp, init_ok p i → i0 ≤ i → i + Z.of_nat n = nSegment p →
  Z.min 4096 iLast ≤ Z.of_nat (length aTmp) →
  ∃ p', init_segments n w p aTmp iLast i = Some (SQLITE_OK, p', w) ∧ init_ok p' (nSegment p') ∧ nSegment p' = nSegment p.
Proof.
  induction n as [|n IH]; intros i p aTmp Hp Hi0 Hn Htmp.
  { exists p. split; [done|]. split; [|done]. by replace (nSegment p) with i by lia. }
  cbn [init_segments]. pose proof (in_n _ _ Hp) as En. assert (Hr : 0 ≤ i ≤ walFramePage iLast) by lia.
  pose proof (seg_bounds i Hr) as (Hb1 & Hb2 & Hb3 & Hb4 & Hb5 & Hb6). pose proof last_max as Hmax.
  pose proof (zero_of_next i ltac:(lia)) as Hzn.
  destruct (page_keys i Hr) as (pg & Hpg & Hlen & Hkey). rewrite (walHashGet_mapped w i pg) by (done || lia).
  rewrite Z.eqb_refl. cbn [negb iZero iHash off loc_of]. rewrite Hpg. change HASHTABLE_NPAGE with 4096.
  assert ((if i + 1 =? nSegment p then i32 (u32 (iLast - zero_of i)) else 4096 - first_off i) = seg_end i - zero_of i) as ->.
  { destruct (Z.eqb_spec (i + 1) (nSegment p)).
    - rewrite <- Hb6 by lia. unfold u32, i32. dm.
    - rewrite Hb5 by lia. lia. }
  set (k := seg_end i - zero_of i) in *. destruct (identity_list (Z.to_nat k)) as [Hil Hid]; [lia|].
  set (ids := map _ _) in *. assert (seg_end i ≤ iLast) by (unfold seg_end; lia).
  destruct (splice_ok (aSlot p) ids (zero_of i)) as [l1 E1]; [lia|pose proof (in_slots _ _ Hp); lia|]. rewrite E1.
  pose proof (splice_length _ _ _ _ E1) as L1.
  pose proof (sub_splice_in _ _ _ _ E1) as S1. rewrite Hil, Z2Nat.id in S1 by lia. rewrite S1.
  set (c := drop (Z.to_nat (first_off i)) (words pg)) in *.
  destruct (walMergesort_spec c aTmp ids k) as (ids' & nE & aTmp' & l & -> & Hl & Hlasts & L2 & L2'); [lia|lia|lia|lia|intros j Hj; apply Hid; lia|].
  destruct (splice_ok l1 ids' (zero_of i)) as [l2 E2]; [lia|pose proof (in_slots _ _ Hp); lia|]. rewrite E2.
  pose proof (splice_length _ _ _ _ E2) as L3.
  destruct (wr (aSegment p) i _) as [segs|] eqn:Ew; [|rewrite wr_Some in Ew by (pose proof (in_length _ _ Hp); lia); done].
  pose proof (sub_length _ _ _ _ Hl) as (_ & HnE & HnE'). rewrite L2, Hil in HnE'.
  set (p1 := mk_iterator _ _ segs l2). destruct (IH (i + 1) p1 aTmp') as (p' & E & Hp' & En'); [| |cbn; lia|lia|].
  - split; cbn [nSegment aSegment aSlot iPrior p1]; [done|by rewrite (wr_length _ _ _ _ Ew); apply (in_length _ _ Hp)|pose proof (in_slots _ _ Hp); lia|apply (in_prior _ _ Hp)|].
    intros j Hj. destruct (decide (j = i)) as [->|Hne].
    + exists (mk_segment 0 (zero_of i) (Some (i, first_off i)) nE (zero_of i + 1)). split; [apply (rd_wr_eq _ _ _ _ Ew)|].
      unfold seg_ok. rewrite decide_False by lia. cbn [aPgno aIndex seg_iZero iNext nEntry]. split_and!; try done; try lia.
      exists l. split_and!; [|by eapply lasts_ext; [|done]; intros; apply Hkey; lia|intros; lia].
      pose proof (sub_splice_in _ _ _ _ E2) as S2. apply sub_rd; [lia|done|pose proof (in_slots _ _ Hp); lia|]. intros m Hm.
      assert (rd ids' m = rd l m) as <-.
      { unfold sub in Hl. case_decide; [|done]. injection Hl as <-. unfold rd. rewrite !decide_True by lia.
        by rewrite drop_0, lookup_take_lt by lia. }
      rewrite (splice_rd _ _ _ _ _ E2). rewrite decide_True by (rewrite L2, Hil; lia). f_equal. lia.
    + destruct (in_done _ _ Hp j ltac:(lia)) as (s & Hs & Hok). exists s. rewrite (rd_wr_ne _ _ _ _ _ Ew) by done. split; [done|].
      unfold seg_ok in Hok |- *. case_decide; [done|]. destruct Hok as (A1 & A2 & A3 & A4 & A5 & lj & A6 & A7). do 5 (split; [done|]).
      exists lj. split; [|done]. pose proof (zero_of_pos j). pose proof (last_of_le j (i - 1)) as Hle. fold (zero_of i) in Hle.
      assert (seg_end j ≤ last_of j) by (unfold seg_end; lia).
      rewrite (sub_splice_out _ _ _ _ _ _ E2) by (left; lia). by rewrite (sub_splice_out _ _ _ _ _ _ E1) by (left; lia).
  - lia.
  - rewrite E. exists p'. by split_and!.
Qed.

Lemma walIteratorInit_spec nBackfill : mxFrame (hdr w) = iLast → 0 ≤ nBackfill < iLast → i0 = walFramePage (nBackfill + 1) →
  ∃ p, walIteratorInit w nBackfill true = Some (SQLITE_OK, Some p, w) ∧ iter_ok p ∧ iPrior p = 0.
Proof.
  intros Hmx Hb Ei. unfold walIteratorInit. rewrite Hmx. cbn [negb]. pose proof last_max as Hmax.
  rewrite u32_id by (unfold is_u32, MAX_FRAMES in *; lia). rewrite <- Ei. change HASHTABLE_NPAGE with 4096.
  set (zs := mk_segment 0 0 None 0 0). set (n := walFramePage iLast + 1).
  set (p0 := mk_iterator 0 n _ _). assert (init_ok p0 i0) as Hp0.
  { split; cbn [nSegment aSegment aSlot iPrior p0]; rewrite ?length_replicate; try lia. intros j Hj. exists zs. split.
    - unfold rd. rewrite decide_True by lia. apply lookup_replicate. split; [done|lia].
    - unfold seg_ok. by rewrite decide_True by lia. }
  destruct (init_segments_spec (Z.to_nat (n - i0)) i0 p0 (replicate (Z.to_nat (if 4096 <? iLast then 4096 else iLast)) 0))
    as (p & -> & Hp & En); [done|lia|cbn; lia| |].
  - rewrite length_replicate. destruct (Z.ltb_spec 4096 iLast); lia.
  - exists p. rewrite Z.eqb_refl. cbn [negb]. split; [done|]. split; [|apply (in_prior _ _ Hp)].
    split; [apply (in_n _ _ Hp)|apply (in_length _ _ Hp)|rewrite (in_prior _ _ Hp); lia|rewrite (in_prior _ _ Hp); apply (in_done _ _ Hp)].
Qed.

(** *** The next page *)

(** [r] and [fr] are the least page above [lo] among the frames from
    [first] + 1 to [last], with its last frame. *)
Definition least (lo first last r fr : Z) : Prop :=
  (∀ f, first < f ≤ last → lo < frame_page f → r ≤ frame_page f) ∧
  (r = 0xFFFFFFFF ∨ lo < r ∧ first < fr ≤ last ∧ frame_page fr = r ∧ ∀ f, fr < f ≤ last → frame_page f ≠ r).

Context (Hpg : ∀ f, 1 ≤ f ≤ iLast → 0 < frame_page f < 0xFFFFFFFF).

Lemma seg_entry aSlot prior i s : seg_ok aSlot prior i s → i0 ≤ i ≤ walFramePage iLast → iNext s < nEntry s →
  ∃ l j, lasts (segment i P) 0 (seg_end i - zero_of i) l ∧ rd l (iNext s) = Some j ∧ 0 ≤ j < seg_end i - zero_of i ∧
    entry_at w aSlot s (iNext s) = Some (j, frame_page (zero_of i + 1 + j)) ∧
    (∀ k m, 0 ≤ k < iNext s → rd l k = Some m → frame_page (zero_of i + 1 + m) ≤ prior) ∧
    sub aSlot (zero_of i) (nEntry s) = Some l.
Proof.
  intros Hs Hr Hlt. unfold seg_ok in Hs. rewrite decide_False in Hs by lia. destruct Hs as (A1 & A2 & A3 & A4 & A5 & l & A6 & A7 & A8).
  pose proof (sub_length _ _ _ _ A6) as (B1 & B2 & B3).
  destruct (rd_is_Some l (iNext s)) as [j Hj]; [lia|]. exists l, j.
  assert (0 ≤ j < seg_end i - zero_of i) as Hjr.
  { destruct A7 as [_ A7]. apply A7. apply rd_Some in Hj as [_ Hj]. by apply list_elem_of_lookup_2 in Hj. }
  split_and!; try done; try lia. unfold entry_at. rewrite A1, A2.
  assert (rd aSlot (zero_of i + iNext s) = Some j) as ->.
  { unfold sub in A6. case_decide; [|done]. injection A6 as <-. unfold rd in Hj |- *. rewrite decide_True in Hj by lia. rewrite decide_True by lia.
    rewrite lookup_take_lt, lookup_drop in Hj by lia. rewrite <- Hj. f_equal. lia. }
  destruct (page_keys i ltac:(lia)) as (pg & -> & _ & Hk). by rewrite (proj1 (Hk j Hjr)).
Qed.

Lemma next_entry_spec aSlot lo i fuel : ∀ s iRet fr, seg_ok aSlot lo i s → i0 ≤ i ≤ walFramePage iLast →
  (Z.to_nat (nEntry s - iNext s) < fuel)%nat →
  ∃ s' r f, next_entry fuel w aSlot s lo iRet fr = Some (s', r, f) ∧ seg_ok aSlot lo i s' ∧
    (r = iRet ∧ f = fr ∧ (∀ f, zero_of i < f ≤ seg_end i → lo < frame_page f → iRet ≤ frame_page f) ∨
     r < iRet ∧ r < 0xFFFFFFFF ∧ least lo (zero_of i) (seg_end i) r f).
Proof.
  induction fuel as [|fuel IH]; intros s iRet fr Hs Hr Hf; [lia|]. cbn [next_entry].
  pose proof (seg_bounds i ltac:(lia)) as (Hb1 & Hb2 & Hb3 & Hb4 & Hb5 & Hb6).
  assert (Hcov : ∀ l f, lasts (segment i P) 0 (seg_end i - zero_of i) l → zero_of i < f ≤ seg_end i →
    ∃ k m, 0 ≤ k < Z.of_nat (length l) ∧ rd l k = Some m ∧ frame_page (zero_of i + 1 + m) = frame_page f).
  { intros l f Hl Hfr. destruct (lasts_has _ _ _ _ (f - zero_of i - 1) Hl) as (m & Hm & E & _); [lia|].
    apply list_elem_of_lookup_1 in Hm as [k Hk]. pose proof (lookup_lt_Some _ _ _ Hk). exists (Z.of_nat k), m. split; [lia|].
    split; [unfold rd; rewrite decide_True by lia; by rewrite Nat2Z.id|].
    assert (0 ≤ m < seg_end i - zero_of i) as Hmr by (apply Hl; by apply list_elem_of_lookup_2 in Hk).
    rewrite !key_segment in E by lia. rewrite E. f_equal. lia. }
  destruct (Z.ltb_spec (iNext s) (nEntry s)) as [Hlt|Hge].
  - destruct (seg_entry aSlot lo i s Hs Hr Hlt) as (l & j & Hl & Hj & Hjr & -> & Hbef & Hsub).
    destruct (Z.ltb_spec lo (frame_page (zero_of i + 1 + j))) as [Hlo|Hlo].
    + assert (∀ f, zero_of i < f ≤ seg_end i → lo < frame_page f → frame_page (zero_of i + 1 + j) ≤ frame_page f) as Hmin.
      { intros f Hfr Hff. destruct (Hcov l f Hl Hfr) as (k & m & Hk & Hm & E). rewrite <- E in Hff |- *.
        destruct (decide (k < iNext s)); [specialize (Hbef k m ltac:(lia) Hm); lia|].
        destruct (decide (k = iNext s)) as [->|]; [rewrite Hj in Hm; injection Hm as <-; lia|].
        apply rd_Some in Hj as [Hj0 Hj], Hm as [Hm0 Hm]. destruct Hl as [Hl1 Hl2].
        assert (key (segment i P) j < key (segment i P) m) as Hkey by (eapply ascending_lookup; try done; lia).
        assert (0 ≤ m < seg_end i - zero_of i) by (apply Hl2; by apply list_elem_of_lookup_2 in Hm).
        rewrite !key_segment in Hkey by lia. lia. }
      assert (zero_of i + 1 + j ≤ iLast) by (unfold seg_end in *; lia).
      pose proof (Hpg (zero_of i + 1 + j) ltac:(lia)) as Hpr.
      destruct (Z.ltb_spec (frame_page (zero_of i + 1 + j)) iRet) as [Hnew|Hold].
      * assert (seg_iZero s = zero_of i + 1) as Hz by (unfold seg_ok in Hs; rewrite decide_False in Hs by lia; tauto). rewrite Hz.
        eexists s, _, _. split; [done|]. split; [done|]. right. split; [done|]. split; [lia|]. split; [done|]. right. split_and!; try lia.
        intros f Hfr E. apply rd_Some in Hj as [_ Hj]. apply list_elem_of_lookup_2 in Hj. apply Hl in Hj as [_ Hj].
        apply (Hj (f - zero_of i - 1)); [lia|]. rewrite !key_segment by lia. rewrite <- E. f_equal. lia.
      * exists s, iRet, fr. split; [done|]. split; [done|]. left. split_and!; try done. intros f Hfr Hff. specialize (Hmin f Hfr Hff). lia.
    + apply IH; [|done|cbn; lia]. unfold seg_ok in Hs |- *. rewrite decide_False in Hs |- * by lia.
      destruct Hs as (A1 & A2 & A3 & A4 & A5 & l' & A6 & A7 & A8). cbn [aPgno aIndex seg_iZero iNext nEntry set_iNext]. split_and!; try done; try lia.
      exists l'. split; [done|]. split; [done|]. intros k m Hk Hm. rewrite A6 in Hsub. injection Hsub as ->.
      destruct (decide (k = iNext s)) as [->|]; [|apply (A8 k); [lia|done]]. rewrite Hj in Hm. by injection Hm as <-.
  - exists s, iRet, fr. split; [done|]. split; [done|]. left. split_and!; try done. intros f Hfr Hff. exfalso.
    unfold seg_ok in Hs. rewrite decide_False in Hs by lia. destruct Hs as (A1 & A2 & A3 & A4 & A5 & l & A6 & A7 & A8).
    destruct (Hcov l f A7 Hfr) as (k & m & Hk & Hm & E). pose proof (sub_length _ _ _ _ A6) as (_ & Hll & _).
    specialize (A8 k m ltac:(lia) Hm). lia.
Qed.

(** What is known of the segments from [n] on. *)
Definition scanned (lo n r fr : Z) : Prop := r ≤ 0xFFFFFFFF ∧ least lo (zero_of n) iLast r fr.

Lemma next_segments_spec aSlot lo n : ∀ l iRet fr, 0 ≤ lo →
  (∀ i, 0 ≤ i ≤ walFramePage iLast → ∃ s, rd l i = Some s ∧ seg_ok aSlot lo i s) →
  Z.of_nat (length l) = walFramePage iLast + 1 → Z.of_nat n ≤ walFramePage iLast + 1 → scanned lo (Z.max i0 (Z.of_nat n)) iRet fr →
  ∃ l' r f, next_segments n w aSlot l lo iRet fr = Some (l', r, f) ∧ scanned lo i0 r f ∧ length l' = length l ∧
    (∀ i, 0 ≤ i ≤ walFramePage iLast → ∃ s, rd l' i = Some s ∧ seg_ok aSlot lo i s).
Proof.
  induction n as [|n IH]; intros l iRet fr Hlo Hl Hlen Hn Hsc.
  { exists l, iRet, fr. split_and!; try done. by replace (Z.max i0 (Z.of_nat 0)) with i0 in Hsc by lia. }
  cbn [next_segments]. destruct (Hl (Z.of_nat n) ltac:(lia)) as (s & Hs & Hok). rewrite Hs.
  assert (∃ s' r f, next_entry (S (Z.to_nat (nEntry s - iNext s))) w aSlot s lo iRet fr = Some (s', r, f) ∧ seg_ok aSlot lo (Z.of_nat n) s' ∧
    scanned lo (Z.max i0 (Z.of_nat n)) r f) as (s' & r & f & -> & Hok' & Hsc').
  { destruct (decide (Z.of_nat n < i0)) as [Hlt|Hge].
    - unfold seg_ok in Hok. rewrite decide_True in Hok by done. destruct Hok as [E1 E2]. cbn [next_entry]. rewrite E1, E2.
      exists s, iRet, fr. split; [done|]. split; [unfold seg_ok; by rewrite decide_True|].
      by replace (Z.max i0 (Z.of_nat n)) with (Z.max i0 (Z.of_nat (S n))) by lia.
    - destruct (next_entry_spec aSlot lo (Z.of_nat n) (S (Z.to_nat (nEntry s - iNext s))) s iRet fr) as (s' & r & f & E & Hok' & H); [done|lia|lia|].
      exists s', r, f. split; [done|]. split; [done|]. replace (Z.max i0 (Z.of_nat n)) with (Z.of_nat n) by lia.
      replace (Z.max i0 (Z.of_nat (S n))) with (Z.of_nat n + 1) in Hsc by lia. destruct Hsc as [Hr [Hmin Hex]].
      assert (zero_of (Z.of_nat n + 1) = last_of (Z.of_nat n)) as Ez by (unfold zero_of; f_equal; lia). rewrite Ez in Hmin, Hex.
      pose proof (seg_bounds (Z.of_nat n) ltac:(lia)) as (_ & Hb2 & _). unfold seg_end in H, Hb2.
      destruct H as [(-> & -> & H)|(Hlt & Hr' & Hmin' & Hex')].
      + split; [done|]. split.
        * intros g Hg Hlog. destruct (decide (g ≤ last_of (Z.of_nat n))); [apply H; lia|apply Hmin; lia].
        * destruct Hex as [?|(H1 & H2 & H3 & H4)]; [by left|right]. split_and!; try done; lia.
      + split; [lia|]. split.
        * intros g Hg Hlog. destruct (decide (g ≤ last_of (Z.of_nat n))); [apply Hmin'; lia|]. specialize (Hmin g ltac:(lia) Hlog). lia.
        * right. destruct Hex' as [?|(H1 & H2 & H3 & H4)]; [lia|]. split_and!; try done; try lia.
          intros g Hg. destruct (decide (g ≤ last_of (Z.of_nat n))); [apply H4; lia|]. intros Eg.
          specialize (Hmin g ltac:(lia) ltac:(lia)). lia. }
  destruct (wr l (Z.of_nat n) s') as [l1|] eqn:Ew; [|rewrite wr_Some in Ew by lia; done].
  destruct (IH l1 r f Hlo) as (l' & r' & f' & E & Hsc2 & L' & Hl'); try lia; try done.
  - intros i Hir. destruct (decide (i = Z.of_nat n)) as [->|Hne].
    + exists s'. split; [apply (rd_wr_eq _ _ _ _ Ew)|done].
    + destruct (Hl i Hir) as (s2 & H1 & H2). exists s2. by rewrite (rd_wr_ne _ _ _ _ _ Ew) by done.
  - by rewrite (wr_length _ _ _ _ Ew).
  - exists l', r', f'. split_and!; try done. by rewrite L', (wr_length _ _ _ _ Ew).
Qed.

Lemma seg_ok_later aSlot lo lo' i s : lo ≤ lo' → seg_ok aSlot lo i s → seg_ok aSlot lo' i s.
Proof.
  intros Hle Hs. unfold seg_ok in *. case_decide; [done|]. destruct Hs as (A1 & A2 & A3 & A4 & A5 & l & A6 & A7 & A8).
  do 5 (split; [done|]). exists l. split; [done|]. split; [done|]. intros k j Hk Hj. specialize (A8 k j Hk Hj). lia.
Qed.

(** One step: the least page above the last one, with its last frame, or the
    end. *)
Lemma walIteratorNext_spec p fr : iter_ok p → iPrior p ≤ 0xFFFFFFFF →
  ∃ r f p', walIteratorNext w p fr = Some (r =? 0xFFFFFFFF, r, f, p') ∧ iter_ok p' ∧ iPrior p' = r ∧ scanned (iPrior p) i0 r f.
Proof.
  intros Hp Hpr. unfold walIteratorNext. pose proof (it_n _ Hp) as En. pose proof (it_length _ Hp) as El. pose proof (it_prior _ Hp) as E0.
  pose proof (seg_bounds (walFramePage iLast) ltac:(lia)) as (Hb1 & Hb2 & Hb3 & _ & _ & Hb6).
  destruct (next_segments_spec (aSlot p) (iPrior p) (Z.to_nat (nSegment p)) (aSegment p) 0xFFFFFFFF fr) as (l' & r & f & -> & Hsc & Ll & Hl');
    try lia.
  - intros i Hir. apply (it_segs _ Hp). lia.
  - replace (Z.max i0 (Z.of_nat (Z.to_nat (nSegment p)))) with (walFramePage iLast + 1) by lia.
    split; [done|]. split; [|by left]. intros g Hg. exfalso. unfold zero_of in Hg. rewrite Z.add_simpl_r in Hg.
    unfold seg_end in Hb6. specialize (Hb6 eq_refl). lia.
  - eexists r, f, _. split; [done|]. split; [|done]. assert (iPrior p ≤ r) as Hle by (destruct Hsc as [_ [_ [->|[? _]]]]; lia).
    split; cbn [nSegment aSegment aSlot iPrior]; [done|lia|lia|].
    intros i Hir. destruct (Hl' i ltac:(lia)) as (s & H1 & H2). exists s. split; [done|]. by eapply seg_ok_later.
Qed.

End iterator.

(** ** Properties *)

(** The pages an iterator gives, with their frames. *)
Fixpoint visit (fuel : nat) (w : Wal) (p : WalIterator) : option (list (Z * Z)) :=
  match fuel with
  | O => None
  | S fuel =>
      let* (ended, pgno, f, p) := walIteratorNext w p 0 in
      if ended : bool then Some [] else
      let* l := visit fuel w p in Some ((pgno, f) :: l)
  end.

(** Pages above one of them are fewer. *)
Lemma filter_fewer lo r L : lo < r → r ∈ L → (length (filter (λ q, r < q)%Z L) < length (filter (λ q, lo < q)%Z L))%nat.
Proof.
  intros Hlo. assert (∀ L, length (filter (λ q, r < q)%Z L) ≤ length (filter (λ q, lo < q)%Z L))%nat as Hle.
  { induction L0 as [|x L0 IH]; [done|]. rewrite !filter_cons. repeat case_decide; cbn; lia. }
  induction L as [|x L IH]; [set_solver|]. intros [->|Hin]%elem_of_cons; rewrite !filter_cons.
  - rewrite decide_False, decide_True by lia. cbn. specialize (Hle L). lia.
  - specialize (IH Hin). repeat case_decide; cbn; lia.
Qed.

(** A frame and its page, the last of the log of [n] frames. *)
Definition last_at (P : list Z) (n pgno f : Z) : Prop :=
  P !! Z.to_nat (f - 1) = Some pgno ∧ ∀ g, f < g ≤ n → P !! Z.to_nat (g - 1) ≠ Some pgno.

Lemma frame_page_lookup P f q : 1 ≤ f ≤ Z.of_nat (length P) → (P !! Z.to_nat (f - 1) = Some q ↔ frame_page P f = q).
Proof.
  intros Hf. unfold frame_page. destruct (lookup_lt_is_Some_2 P (Z.to_nat (f - 1))) as [x Hx]; [lia|]. rewrite Hx.
  cbn. split; [by intros [= ->]|by intros ->].
Qed.

Definition page_less (a b : Z * Z) : Prop := a.1 < b.1.

Lemma visit_spec P iLast i0 w : index w P → 0 < iLast ≤ Z.of_nat (length P) → 0 ≤ i0 ≤ walFramePage iLast →
  (∀ f, 1 ≤ f ≤ iLast → 0 < frame_page P f < 0xFFFFFFFF) → ∀ fuel p, iter_ok P iLast i0 p → iPrior p ≤ 0xFFFFFFFF →
  (length (filter (λ q, iPrior p < q)%Z (take (Z.to_nat iLast) P)) < fuel)%nat →
  ∃ l, visit fuel w p = Some l ∧ StronglySorted page_less l ∧
    ∀ q f, (q, f) ∈ l ↔ (iPrior p < q ∧ zero_of i0 < f ≤ iLast ∧ last_at P iLast q f).
Proof.
  intros Hi HL H0 Hpg. induction fuel as [|fuel IH]; intros p Hp Hpr Hf; [lia|]. cbn [visit].
  pose proof (zero_of_pos i0) as Hz0.
  destruct (walIteratorNext_spec P iLast i0 w Hi HL H0 Hpg p 0 Hp Hpr) as (r & f & p' & -> & Hp' & Er & Hr & Hmin & Hex).
  destruct (Z.eqb_spec r 0xFFFFFFFF) as [->|Hne].
  - exists []. split; [done|]. split; [constructor|]. intros q g. split; [by intros ?%elem_of_nil|]. intros (Hq & Hg & [Hl _]). exfalso.
    apply frame_page_lookup in Hl; [|lia]. subst q. pose proof (Hpg g ltac:(lia)). specialize (Hmin g Hg Hq). lia.
  - destruct Hex as [?|(H1 & H2 & H3 & H4)]; [done|].
    assert (r ∈ take (Z.to_nat iLast) P) as Hin.
    { apply frame_page_lookup in H3; [|lia]. apply (list_elem_of_lookup_2 _ (Z.to_nat (f - 1))). rewrite lookup_take_lt by lia. done. }
    pose proof (filter_fewer (iPrior p) r _ H1 Hin).
    destruct (IH p' Hp') as (l & -> & Hs & Hl); [lia|rewrite Er; lia|]. exists ((r, f) :: l). split; [done|]. rewrite Er in Hl. split.
    + constructor; [done|]. apply Forall_forall. intros [q g] Hq. apply Hl in Hq as [Hq _]. done.
    + intros q g. rewrite elem_of_cons, Hl. split.
      * intros [[= -> ->]|(Hq & Hg & Hlast)]; [|split; [lia|done]]. split; [done|]. split; [done|]. split; [by apply frame_page_lookup; [lia|]|].
        intros k Hk Ek. apply frame_page_lookup in Ek; [|lia]. by apply (H4 k).
      * intros (Hq & Hg & Hlast & Hlater). pose proof Hlast as Hlast'. apply frame_page_lookup in Hlast; [|lia]. subst q.
        pose proof (Hmin g Hg Hq) as Hle. destruct (decide (frame_page P g = r)) as [E|]; [left|right; split_and!; try done; lia].
        f_equal; [done|]. destruct (Z.lt_trichotomy g f) as [Hlt|[->|Hgt]]; [exfalso|done|exfalso].
        -- apply (Hlater f); [lia|]. apply frame_page_lookup; [lia|]. congruence.
        -- apply (H4 g); [lia|]. done.
Qed.

(** C29: a checkpoint visits every page of the log once, in ascending order,
    with the last frame that holds it: the iterator over frames that start
    with the segment of the first frame not yet backfilled gives a page and a
    frame exactly when the frame is the last of its page.  The merge sorts stay
    in their buffers, and the iteration ends. *)
Theorem wal_iterator_visits w P nBackfill : index w P → 0 < mxFrame (hdr w) ≤ Z.of_nat (length P) → 0 ≤ nBackfill < mxFrame (hdr w) →
  Forall (λ q, q < 0xFFFFFFFF) P →
  ∃ p l, walIteratorInit w nBackfill true = Some (SQLITE_OK, Some p, w) ∧ visit (S (Z.to_nat (mxFrame (hdr w)))) w p = Some l ∧
    StronglySorted page_less l ∧
    ∀ q f, (q, f) ∈ l ↔ (zero_of (walFramePage (nBackfill + 1)) < f ≤ mxFrame (hdr w) ∧ last_at P (mxFrame (hdr w)) q f).
Proof.
  intros Hi HL Hb Hmax. set (iLast := mxFrame (hdr w)) in *. set (i0 := walFramePage (nBackfill + 1)).
  pose proof (i_frames _ _ Hi) as Hfr.
  assert (0 ≤ i0 ≤ walFramePage iLast) as H0 by (unfold i0; rewrite !walFramePage_spec by lia; dm).
  assert (∀ f, 1 ≤ f ≤ iLast → 0 < frame_page P f < 0xFFFFFFFF) as Hpg.
  { intros f Hf. destruct (lookup_lt_is_Some_2 P (Z.to_nat (f - 1))) as [x Hx]; [lia|]. unfold frame_page. rewrite Hx. cbn.
    pose proof (i_pgno _ _ Hi) as Hpos. rewrite Forall_forall in Hpos, Hmax. apply list_elem_of_lookup_2 in Hx. specialize (Hpos x Hx). specialize (Hmax x Hx). lia. }
  destruct (walIteratorInit_spec P iLast i0 w Hi HL H0 nBackfill eq_refl Hb eq_refl) as (p & E & Hp & Ep).
  destruct (visit_spec P iLast i0 w Hi HL H0 Hpg (S (Z.to_nat iLast)) p Hp) as (l & El & Hs & Hl); [lia| |].
  - assert (length (filter (λ q, iPrior p < q)%Z (take (Z.to_nat iLast) P)) ≤ length (take (Z.to_nat iLast) P))%nat by apply length_filter.
    rewrite length_take in *. lia.
  - exists p, l. split_and!; try done. intros q f. rewrite Hl, Ep. split; [tauto|]. intros [Hf Hq]. split; [|done].
    destruct Hq as [Hq _]. pose proof (zero_of_pos i0). apply frame_page_lookup in Hq; [|lia]. subst q. by apply Hpg; lia.
Qed.

(** The merge sort of a page of the index, in place and in its buffers,
    returns the indices in ascending order of their page numbers, of equal
    page numbers exactly the last index. *)
Theorem wal_mergesort_keeps_last aContent aBuffer nList :
  0 < nList ≤ HASHTABLE_NPAGE → nList ≤ Z.of_nat (length aContent) → nList ≤ Z.of_nat (length aBuffer) →
  ∃ aList n aBuffer' l, walMergesort aContent aBuffer (map Z.of_nat (seq 0 (Z.to_nat nList))) nList = Some (aList, n, aBuffer') ∧
    sub aList 0 n = Some l ∧ ascending aContent l ∧
    ∀ j, j ∈ l ↔ (0 ≤ j < nList ∧ ∀ k, j < k < nList → key aContent k ≠ key aContent j).
Proof.
  intros Hn Hc Hbuf. change HASHTABLE_NPAGE with 4096 in Hn. destruct (identity_list (Z.to_nat nList)) as [Hl Hids]; [lia|].
  assert (map (λ j, u16 (Z.of_nat j)) (seq 0 (Z.to_nat nList)) = map Z.of_nat (seq 0 (Z.to_nat nList))) as E.
  { apply map_ext_in. intros j Hj%in_seq. unfold u16. rewrite Z.mod_small; lia. }
  rewrite E in Hl, Hids.
  destruct (walMergesort_spec aContent aBuffer (map Z.of_nat (seq 0 (Z.to_nat nList))) nList) as (aList & n & aBuffer' & l & -> & Hsub & [Hs Hm] & _);
    [lia|lia|lia|lia|intros j Hj; apply Hids; lia|]. exists aList, n, aBuffer', l. done.
Qed.

(** *** At concrete inputs *)

Lemma wal_iterator_visits_witness : ∃ p l, walIteratorInit written 0 true = Some (SQLITE_OK, Some p, written) ∧
  visit 4 written p = Some l ∧ StronglySorted page_less l.
Proof.
  destruct (wal_iterator_visits written [5; 7; 5] 0) as (p & l & E1 & E2 & Hs & _).
  - apply written_index.
  - vm_compute. split; [reflexivity|discriminate].
  - vm_compute. split; [discriminate|reflexivity].
  - repeat constructor; reflexivity.
  - exists p, l. split_and!; [exact E1|exact E2|exact Hs].
Defined.

Lemma wal_mergesort_keeps_last_witness : ∃ aList n aBuffer' l,
  walMergesort [5; 7; 5; 3] [0; 0; 0; 0] [0; 1; 2; 3] 4 = Some (aList, n, aBuffer') ∧ sub aList 0 n = Some l ∧ ascending [5; 7; 5; 3] l ∧
  ∀ j, j ∈ l ↔ (0 ≤ j < 4 ∧ ∀ k, j < k < 4 → key [5; 7; 5; 3] k ≠ key [5; 7; 5; 3] j).
Proof. apply (wal_mergesort_keeps_last [5; 7; 5; 3] [0; 0; 0; 0] 4); split || idtac; vm_compute; discriminate || reflexivity. Defined.

End WalIter.
