(* ===== verification/WalCkpt.v ===== *)
(** * Checkpoints ([native/sqlite3/sqlite3.c], wal.c)

    A checkpoint copies pages from the log to the database file, as far as no
    reader is in the way, and records how far it came.  The theorems are about
    what readers see meanwhile, and about the database file after a checkpoint
    that reports success. *)

From S2P Require Import Prelude WalIndex WalLog WalIter.

Module WalCkpt.

Import WalIndex WalLog WalIter.

(** ** Files *)

(** A write past the end leaves zeros between. *)
Definition write_at (c : bytes) (ofst : Z) (d : bytes) : bytes :=
  let o := Z.to_nat ofst in take o c ++ replicate (o - length c) 0 ++ d ++ drop (o + length d) c.

Definition sqlite3OsWrite (f : file) (d : bytes) (ofst : Z) : Z * file :=
  let '(rc, l) := next_code (io_codes f) in
  (rc, mk_file (if rc =? SQLITE_OK then write_at (content f) ofst d else content f) l).

Definition sqlite3OsTruncate (f : file) (size : Z) : Z * file :=
  let '(rc, l) := next_code (io_codes f) in
  let n := Z.to_nat size in
  (rc, mk_file (if rc =? SQLITE_OK then take n (content f) ++ replicate (n - length (content f)) 0 else content f) l).

(** Without flags there is no call. *)
(* native/sqlite3/sqlite3.c:26635-26638 sqlite3OsSync *)
Definition sqlite3OsSync (f : file) (flags : Z) : Z * file :=
  if negb (flags =? 0) then let '(rc, l) := next_code (io_codes f) in (rc, mk_file (content f) l) else (SQLITE_OK, f).

Definition SQLITE_INTERRUPT : Z := 9.
(* native/sqlite3/sqlite3.c:10282-10285 SQLITE_CHECKPOINT_PASSIVE *)
Definition SQLITE_CHECKPOINT_PASSIVE : Z := 0.
Definition SQLITE_CHECKPOINT_FULL : Z := 1.
Definition SQLITE_CHECKPOINT_RESTART : Z := 2.
Definition SQLITE_CHECKPOINT_TRUNCATE : Z := 3.
(* native/sqlite3/sqlite3.c:57943-57944 CKPT_SYNC_FLAGS *)
Definition CKPT_SYNC_FLAGS (x : Z) : Z := Z.land (Z.shiftr x 2) 0x03.

(** ** Locks and the header *)

(** The busy handler answers from a list, and 0 when it is used up. *)
(* native/sqlite3/sqlite3.c:67987-67989 walBusyLock, the loop *)
Fixpoint busy_loop (xBusy : list Z) (pWal : Wal) (lockIdx n : Z) : Z * list Z * Wal :=
  let '(rc, pWal) := walLockExclusive pWal lockIdx n in
  if rc =? SQLITE_BUSY then
    match xBusy with
    | [] => (rc, [], pWal)
    | a :: xBusy => if a =? 0 then (rc, xBusy, pWal) else busy_loop xBusy pWal lockIdx n
    end
  else (rc, xBusy, pWal).

(** Without a handler [xBusy] is [None]. *)
(* native/sqlite3/sqlite3.c:67973-67997 walBusyLock *)
Definition walBusyLock (pWal : Wal) (xBusy : option (list Z)) (lockIdx n : Z) : Z * option (list Z) * Wal :=
  match xBusy with
  | None => let '(rc, pWal) := walLockExclusive pWal lockIdx n in (rc, None, pWal)
  | Some l => let '(rc, l, pWal) := busy_loop l pWal lockIdx n in (rc, Some l, pWal)
  end.

(* native/sqlite3/sqlite3.c:67999-68005 walPagesize *)
Definition walPagesize (pWal : Wal) : Z :=
  Z.land (hdr_szPage (hdr pWal)) 0xfe00 + Z.shiftl (Z.land (hdr_szPage (hdr pWal)) 0x0001) 16.

(** A word of the first page: of [WalCkptInfo], [nBackfill] is the 24th, the
    read marks start at the 25th, [nBackfillAttempted] is the 32nd. *)
Definition get_word (pWal : Wal) (i : Z) : option Z := let* p := get_page pWal 0 in rd (words p) i.

(** The first salt plus one, as a big-endian number. *)
(* native/sqlite3/sqlite3.c:68030-68030 walRestartHdr, the first salt *)
Definition next_salt (salt : Z) : option Z :=
  let* v := get4 (le_bytes salt) 0 in
  let* b := put4 (le_bytes salt) 0 (u32 (1 + v)) in
  match le_words b with [s] => Some s | _ => None end.

(* native/sqlite3/sqlite3.c:68007-68038 walRestartHdr *)
Definition walRestartHdr (pWal : Wal) (salt1 : Z) : option Wal :=
  let pWal := set_nCkpt pWal (u32 (nCkpt pWal + 1)) in
  let h := hdr pWal in
  let* salt0 := next_salt (aSalt h).1 in
  let pWal := set_hdr pWal (mk_hdr (iVersion h) (unused h) (iChange h) (isInit h) (bigEndCksum h) (hdr_szPage h) 0 (nPage h)
    (aFrameCksum h) (salt0, salt1) (aCksum h)) in
  let* pWal := walIndexWriteHdr pWal in
  let* pWal := set_word pWal 24 0 in
  let* pWal := set_word pWal 32 0 in
  let* pWal := set_word pWal 26 0 in
  let* pWal := set_word pWal 27 READMARK_NOT_USED in
  let* pWal := set_word pWal 28 READMARK_NOT_USED in
  set_word pWal 29 READMARK_NOT_USED.

(** ** Reading a page *)

(** The result and the buffer. *)
(* native/sqlite3/sqlite3.c:69508-69528 sqlite3WalReadFrame *)
Definition sqlite3WalReadFrame (pWal : Wal) (iRead nOut : Z) (pOut : bytes) : Z * bytes :=
  let sz := Z.land (hdr_szPage (hdr pWal)) 0xfe00 + Z.shiftl (Z.land (hdr_szPage (hdr pWal)) 0x0001) 16 in
  let iOffset := walFrameOffset iRead sz + WAL_FRAME_HDRSIZE in
  let '(rc, b, _) := sqlite3OsRead (pWalFd pWal) (if sz <? nOut then sz else nOut) iOffset in
  (rc, b ++ drop (length b) pOut).

(** The pager reads a page, with or without a log: the result, the data, and
    [dbFileVers]. *)
(* native/sqlite3/sqlite3.c:61065-61130 readDbPage *)
Definition readDbPage (pWal : option Wal) (fd : file) (pageSize pgno : Z) (pData dbFileVers : bytes) : option (Z * bytes * bytes) :=
  let* (rc, iFrame) :=
    match pWal with
    | Some pWal => let* (rc, iFrame, _) := sqlite3WalFindFrame pWal pgno in Some (rc, iFrame)
    | None => Some (SQLITE_OK, 0)
    end in
  if negb (rc =? SQLITE_OK) then Some (rc, pData, dbFileVers) else
  let '(rc, pData) :=
    match pWal with
    | Some pWal =>
        if negb (iFrame =? 0) then sqlite3WalReadFrame pWal iFrame pageSize pData else
        let '(rc, b, _) := sqlite3OsRead fd pageSize ((pgno - 1) * pageSize) in
        (if rc =? SQLITE_IOERR_SHORT_READ then SQLITE_OK else rc, b)
    | None =>
        let '(rc, b, _) := sqlite3OsRead fd pageSize ((pgno - 1) * pageSize) in
        (if rc =? SQLITE_IOERR_SHORT_READ then SQLITE_OK else rc, b)
    end in
  if pgno =? 1 then
    if negb (rc =? SQLITE_OK) then Some (rc, pData, replicate 16 0xff)
    else let* v := sub pData 24 16 in Some (rc, pData, v)
  else Some (rc, pData, dbFileVers).

(** ** The checkpoint *)

(** The read marks from the [i]-th on, [n] of them: whether to give up, the
    result code, the last frame that is safe, the busy handler. *)
(* native/sqlite3/sqlite3.c:68107-68123 walCheckpoint, the loop over read marks *)
Fixpoint safe_frame (n : nat) (pWal : Wal) (xBusy : option (list Z)) (i mxSafeFrame rc : Z)
  : option (bool * Z * Z * option (list Z) * Wal) :=
  match n with
  | O => Some (false, rc, mxSafeFrame, xBusy, pWal)
  | S n =>
      let* y := get_word pWal (25 + i) in
      if y <? mxSafeFrame then
        let '(rc, xBusy, pWal) := walBusyLock pWal xBusy (WAL_READ_LOCK i) 1 in
        if rc =? SQLITE_OK then
          let* pWal := set_word pWal (25 + i) (if i =? 1 then mxSafeFrame else READMARK_NOT_USED) in
          safe_frame n (walUnlockExclusive pWal (WAL_READ_LOCK i) 1) xBusy (i + 1) mxSafeFrame rc
        else if rc =? SQLITE_BUSY then safe_frame n pWal None (i + 1) y rc
        else Some (true, rc, mxSafeFrame, xBusy, pWal)
      else safe_frame n pWal xBusy (i + 1) mxSafeFrame rc
  end.

(** The loop over the pages of the log; [intr] are the values that
    [db->u1.isInterrupted] has when it is looked at. *)
(* native/sqlite3/sqlite3.c:68163-68182 walCheckpoint, the loop over pages *)
Fixpoint backfill (fuel : nat) (pWal : Wal) (pDbFd : file) (pIter : WalIterator) (iFrame szPage nBackfill mxSafeFrame mxPage : Z)
    (intr : list bool) (mallocFailed : bool) : option (Z * Wal * file) :=
  match fuel with
  | O => None
  | S fuel =>
      let* (ended, iDbpage, iFrame, pIter) := walIteratorNext pWal pIter iFrame in
      if ended : bool then Some (SQLITE_OK, pWal, pDbFd) else
      if hd false intr then Some (if mallocFailed then SQLITE_NOMEM else SQLITE_INTERRUPT, pWal, pDbFd) else
      if (iFrame <=? nBackfill) || (mxSafeFrame <? iFrame) || (mxPage <? iDbpage)
      then backfill fuel pWal pDbFd pIter iFrame szPage nBackfill mxSafeFrame mxPage (tl intr) mallocFailed else
      let '(rc, zBuf, f) := sqlite3OsRead (pWalFd pWal) szPage (walFrameOffset iFrame szPage + WAL_FRAME_HDRSIZE) in
      let pWal := set_pWalFd pWal f in
      if negb (rc =? SQLITE_OK) then Some (rc, pWal, pDbFd) else
      let '(rc, pDbFd) := sqlite3OsWrite pDbFd zBuf ((iDbpage - 1) * szPage) in
      if negb (rc =? SQLITE_OK) then Some (rc, pWal, pDbFd) else
      backfill fuel pWal pDbFd pIter iFrame szPage nBackfill mxSafeFrame mxPage (tl intr) mallocFailed
  end.

(** With the iterator and the lock on the readers of the database file. *)
(* native/sqlite3/sqlite3.c:68131-68202 walCheckpoint, backfilling *)
Definition ckpt_copy (pWal : Wal) (pDbFd : file) (pIter : WalIterator) (szPage mxSafeFrame mxPage sync_flags : Z)
    (intr : list bool) (mallocFailed : bool) : option (Z * Wal * file) :=
  let* nBackfill := get_word pWal 24 in
  let* pWal := set_word pWal 32 mxSafeFrame in
  let '(rc, f) := sqlite3OsSync (pWalFd pWal) (CKPT_SYNC_FLAGS sync_flags) in
  let pWal := set_pWalFd pWal f in
  let '(rc, pDbFd) :=
    if rc =? SQLITE_OK then
      let '(rc, nSize, pDbFd) := sqlite3OsFileSize pDbFd in
      let nReq := mxPage * szPage in
      ((if (rc =? SQLITE_OK) && (nSize <? nReq) && (nSize + 65536 + mxFrame (hdr pWal) * szPage <? nReq)
        then SQLITE_CORRUPT else rc), pDbFd)
    else (rc, pDbFd) in
  let* (rc, pWal, pDbFd) :=
    if rc =? SQLITE_OK
    then backfill (S (Z.to_nat (mxFrame (hdr pWal)))) pWal pDbFd pIter 0 szPage nBackfill mxSafeFrame mxPage intr mallocFailed
    else Some (rc, pWal, pDbFd) in
  if negb (rc =? SQLITE_OK) then Some (rc, pWal, pDbFd) else
  let* pLive := walIndexHdr pWal in
  let '(rc, pDbFd) :=
    if mxSafeFrame =? mxFrame pLive then
      let '(rc, pDbFd) := sqlite3OsTruncate pDbFd (nPage (hdr pWal) * szPage) in
      if rc =? SQLITE_OK then sqlite3OsSync pDbFd (CKPT_SYNC_FLAGS sync_flags) else (rc, pDbFd)
    else (rc, pDbFd) in
  if negb (rc =? SQLITE_OK) then Some (rc, pWal, pDbFd) else
  let* pWal := set_word pWal 24 mxSafeFrame in
  Some (rc, pWal, pDbFd).

(** Copying what is safe: whether to give up at once, the result code. *)
(* native/sqlite3/sqlite3.c:68090-68209 walCheckpoint, as far as readers let it *)
Definition ckpt_backfill (pWal : Wal) (pDbFd : file) (xBusy : option (list Z)) (sync_flags : Z) (mem : bool)
    (intr : list bool) (mallocFailed : bool) : option (bool * Z * option (list Z) * Wal * file) :=
  let* (out, rc, mxSafeFrame, xBusy, pWal) :=
    safe_frame (Z.to_nat (WAL_NREADER - 1)) pWal xBusy 1 (mxFrame (hdr pWal)) SQLITE_OK in
  if out : bool then Some (true, rc, xBusy, pWal, pDbFd) else
  let mxPage := nPage (hdr pWal) in
  let* nBackfill := get_word pWal 24 in
  let* (rc, pIter, pWal) :=
    if nBackfill <? mxSafeFrame then walIteratorInit pWal nBackfill mem else Some (rc, None, pWal) in
  let* (rc, xBusy, pWal, pDbFd) :=
    match pIter with
    | Some pIter =>
        let '(rc, xBusy, pWal) := walBusyLock pWal xBusy (WAL_READ_LOCK 0) 1 in
        if rc =? SQLITE_OK then
          let* (rc, pWal, pDbFd) := ckpt_copy pWal pDbFd pIter (walPagesize pWal) mxSafeFrame mxPage sync_flags intr mallocFailed in
          Some (rc, xBusy, walUnlockExclusive pWal (WAL_READ_LOCK 0) 1, pDbFd)
        else Some (rc, xBusy, pWal, pDbFd)
    | None => Some (rc, xBusy, pWal, pDbFd)
    end in
  Some (false, if rc =? SQLITE_BUSY then SQLITE_OK else rc, xBusy, pWal, pDbFd).

(** Waiting for the readers, and starting the log over. *)
(* native/sqlite3/sqlite3.c:68216-68247 walCheckpoint, modes but PASSIVE *)
Definition ckpt_restart (pWal : Wal) (eMode : Z) (xBusy : option (list Z)) (salt1 : Z) : option (Z * Wal) :=
  let* nBackfill := get_word pWal 24 in
  if nBackfill <? mxFrame (hdr pWal) then Some (SQLITE_BUSY, pWal)
  else if SQLITE_CHECKPOINT_RESTART <=? eMode then
    let '(rc, xBusy, pWal) := walBusyLock pWal xBusy (WAL_READ_LOCK 1) (WAL_NREADER - 1) in
    if rc =? SQLITE_OK then
      let* (rc, pWal) :=
        if eMode =? SQLITE_CHECKPOINT_TRUNCATE then
          let* pWal := walRestartHdr pWal salt1 in
          let '(rc, f) := sqlite3OsTruncate (pWalFd pWal) 0 in
          Some (rc, set_pWalFd pWal f)
        else Some (rc, pWal) in
      Some (rc, walUnlockExclusive pWal (WAL_READ_LOCK 1) (WAL_NREADER - 1))
    else Some (rc, pWal)
  else Some (SQLITE_OK, pWal).

(** [salt1] is random, [mem] says whether the iterator gets its memory. *)
(* native/sqlite3/sqlite3.c:68040-68253 walCheckpoint *)
Definition walCheckpoint (pWal : Wal) (pDbFd : file) (eMode : Z) (xBusy : option (list Z)) (sync_flags : Z) (mem : bool)
    (intr : list bool) (mallocFailed : bool) (salt1 : Z) : option (Z * Wal * file) :=
  let* nBackfill := get_word pWal 24 in
  let* (out, rc, xBusy, pWal, pDbFd) :=
    if nBackfill <? mxFrame (hdr pWal) then ckpt_backfill pWal pDbFd xBusy sync_flags mem intr mallocFailed
    else Some (false, SQLITE_OK, xBusy, pWal, pDbFd) in
  if out : bool then Some (rc, pWal, pDbFd) else
  if (rc =? SQLITE_OK) && negb (eMode =? SQLITE_CHECKPOINT_PASSIVE) then
    let* (rc, pWal) := ckpt_restart pWal eMode xBusy salt1 in
    Some (rc, pWal, pDbFd)
  else Some (rc, pWal, pDbFd).

(** ** Bytes of a file *)

(** Past the end there are zeros. *)
Definition byte_at (c : list Z) (i : Z) : Z := default 0 (c !! Z.to_nat i).

Definition bytes_at (c : bytes) (o n : Z) : bytes := map (λ i, byte_at c (o + Z.of_nat i)) (seq 0 (Z.to_nat n)).

Lemma bytes_at_ext c c' o n : (∀ i, o ≤ i < o + n → byte_at c i = byte_at c' i) → bytes_at c o n = bytes_at c' o n.
Proof. intros H. apply map_ext_in. intros i Hi%in_seq. apply H. lia. Qed.

Lemma bytes_at_lookup c o n b : length b = Z.to_nat n → (∀ i, 0 ≤ i < n → default 0 (b !! Z.to_nat i) = byte_at c (o + i)) → b = bytes_at c o n.
Proof.
  intros Hl H. apply list_eq. intros i. unfold bytes_at. rewrite list_lookup_fmap. destruct (decide (i < Z.to_nat n)%nat) as [Hi|Hi].
  - rewrite lookup_seq_lt by done. cbn. destruct (lookup_lt_is_Some_2 b i) as [x Hx]; [lia|]. rewrite Hx. f_equal.
    specialize (H (Z.of_nat i) ltac:(lia)). by rewrite Nat2Z.id, Hx in H.
  - rewrite lookup_seq_ge by lia. cbn. apply lookup_ge_None. lia.
Qed.

Lemma default_replicate n i : default 0 (replicate n 0 !! i) = 0.
Proof. destruct (replicate n 0 !! i) as [x|] eqn:E; [|done]. by apply lookup_replicate in E as [-> _]. Qed.

Lemma read_bytes f n ofst : 0 ≤ n → 0 ≤ ofst →
  ∃ rc f', sqlite3OsRead f n ofst = (rc, bytes_at (content f) ofst n, f') ∧ content f' = content f.
Proof.
  intros Hn Ho. unfold sqlite3OsRead. destruct (next_code (io_codes f)) as [rc l].
  set (b := take (Z.to_nat n) (drop (Z.to_nat ofst) (content f))).
  enough (b ++ replicate (Z.to_nat n - length b) 0 = bytes_at (content f) ofst n) as -> by (by eexists _, _).
  assert (length b ≤ Z.to_nat n)%nat as Hb by (unfold b; rewrite length_take; lia).
  apply bytes_at_lookup; [rewrite length_app, length_replicate; lia|]. intros i Hi. unfold byte_at.
  assert ((b : list Z) !! Z.to_nat i = (content f : list Z) !! Z.to_nat (ofst + i)) as E.
  { unfold b. rewrite lookup_take_lt, lookup_drop by lia. f_equal. lia. }
  rewrite <- E. destruct (decide (Z.to_nat i < length b)%nat).
  - by rewrite lookup_app_l by done.
  - rewrite lookup_app_r by lia. rewrite default_replicate. by rewrite (proj2 (lookup_ge_None b _)) by lia.
Qed.

Lemma write_byte c o d i : 0 ≤ o → 0 ≤ i →
  byte_at (write_at c o d) i = if decide (o ≤ i < o + Z.of_nat (length d)) then byte_at d (i - o) else byte_at c i.
Proof.
  intros Ho Hi. unfold byte_at, write_at. destruct (decide (i < o)) as [Hlt|Hge].
  - rewrite decide_False by lia. destruct (decide (Z.to_nat i < length c)%nat).
    + rewrite lookup_app_l by (rewrite length_take; lia). by rewrite lookup_take_lt by lia.
    + rewrite lookup_app_r by (rewrite length_take; lia). rewrite lookup_app_l by (rewrite length_take, length_replicate; lia).
      rewrite default_replicate. by rewrite (proj2 (lookup_ge_None c _)) by lia.
  - rewrite (assoc_L (++)). rewrite lookup_app_r by (rewrite length_app, length_take, length_replicate; lia).
    rewrite length_app, length_take, length_replicate.
    replace (Z.to_nat i - (Z.to_nat o `min` length c + (Z.to_nat o - length c)))%nat with (Z.to_nat (i - o)) by lia.
    case_decide.
    + by rewrite lookup_app_l by lia.
    + rewrite lookup_app_r by lia. rewrite lookup_drop. do 2 f_equal. lia.
Qed.

Lemma truncate_byte c n i : 0 ≤ i < n → byte_at (take (Z.to_nat n) c ++ replicate (Z.to_nat n - length c) 0) i = byte_at c i.
Proof.
  intros Hi. unfold byte_at. destruct (decide (Z.to_nat i < length c)%nat).
  - rewrite lookup_app_l by (rewrite length_take; lia). by rewrite lookup_take_lt by lia.
  - rewrite lookup_app_r by (rewrite length_take; lia). rewrite default_replicate. by rewrite (proj2 (lookup_ge_None c _)) by lia.
Qed.

(** A page of the database file, and the page in a frame of the log. *)
Definition db_page (c : bytes) (sz pgno : Z) : bytes := bytes_at c ((pgno - 1) * sz) sz.
Definition frame_bytes (c : bytes) (sz f : Z) : bytes := bytes_at c (walFrameOffset f sz + WAL_FRAME_HDRSIZE) sz.

Lemma bytes_at_length c o n : length (bytes_at c o n) = Z.to_nat n.
Proof. unfold bytes_at. by rewrite length_map, length_seq. Qed.

Lemma db_page_write c sz p q d : 0 < sz → 1 ≤ p → 1 ≤ q → Z.of_nat (length d) = sz →
  db_page (write_at c ((p - 1) * sz) d) sz q = if decide (q = p) then d else db_page c sz q.
Proof.
  intros Hsz Hp Hq Hd. unfold db_page. assert (0 ≤ (p - 1) * sz) by nia. assert (0 ≤ (q - 1) * sz) by nia. destruct (decide (q = p)) as [->|Hne].
  - symmetry. apply bytes_at_lookup; [lia|]. intros i Hi. rewrite write_byte by lia. rewrite decide_True by lia. unfold byte_at. do 2 f_equal. lia.
  - apply bytes_at_ext. intros i Hi. rewrite write_byte by lia. rewrite decide_False; [done|].
    destruct (decide (q < p)); [assert (q * sz ≤ (p - 1) * sz) by nia|assert (p * sz ≤ (q - 1) * sz) by nia]; lia.
Qed.

(** ** Locks and words *)

(** A lock, with as many attempts as the busy handler allows. *)
Lemma busy_range w xBusy i n : (i, n) ∉ held w →
  ∃ rc xBusy' h l, walBusyLock w xBusy i n = (rc, xBusy', set_held (set_shm_locks w l) h) ∧
    (h = held w ∨ h = (i, n) :: held w) ∧ (rc ≠ SQLITE_OK → h = held w) ∧
    ∀ w2, rc = SQLITE_OK → held w2 = h → exclusiveMode w2 = exclusiveMode w → walUnlockExclusive w2 i n = set_held w2 (held w).
Proof.
  intros Hn. unfold walBusyLock. destruct xBusy as [answers|].
  - revert w Hn. induction answers as [|a answers IH]; intros w Hn; cbn [busy_loop];
      destruct (lock_range w i n Hn) as (rc & h & l & -> & Hh & Hne & Hun).
    + exists rc, (Some []), h, l. by destruct (rc =? SQLITE_BUSY).
    + destruct (Z.eqb_spec rc SQLITE_BUSY) as [->|]; [|by exists rc, (Some (a :: answers)), h, l].
      destruct (a =? 0); [by exists SQLITE_BUSY, (Some answers), h, l|]. specialize (Hne ltac:(done)). subst h.
      set (w1 := set_held (set_shm_locks w l) (held w)). destruct (IH w1 Hn) as (rc & x & h & l' & -> & H). by exists rc, x, h, l'.
  - destruct (lock_range w i n Hn) as (rc & h & l & -> & H). by exists rc, None, h, l.
Qed.

Lemma get_word_set w P i v : index w P → (∃ p, get_page w 0 = Some p) → 0 ≤ i < 34 →
  ∃ w', set_word w i v = Some w' ∧ touched w w' ∧ index w' P ∧ (∃ p, get_page w' 0 = Some p) ∧ get_word w' i = Some v ∧
    ∀ j, i ≠ j → get_word w' j = get_word w j.
Proof.
  intros Hi [p Hp] Hr. destruct (set_word_spec w P p i v Hi Hp Hr) as (w' & p' & E & Ht & Hi' & Hp' & Hv & Hj).
  exists w'. split_and!; try done; [by exists p'| |]; unfold get_word; rewrite Hp'; [done|].
  intros j Hne. by rewrite Hp, Hj.
Qed.

Lemma get_word_eq w w' i : apWiData w' = apWiData w → get_word w' i = get_word w i.
Proof. intros E. unfold get_word. by rewrite (get_page_eq w). Qed.

Lemma get_word_some w P i : index w P → (∃ p, get_page w 0 = Some p) → 0 ≤ i < 4096 → ∃ v, get_word w i = Some v.
Proof.
  intros Hi [p Hp] Hr. unfold get_word. rewrite Hp. destruct (i_shape _ _ Hi 0 p Hp) as [Hs _]. change (Z.to_nat HASHTABLE_NPAGE) with 4096%nat in Hs.
  apply rd_is_Some. lia.
Qed.

(** A connection whose index is as it was but for words of the header, and
    that holds the locks it held. *)
Definition mild (w w' : Wal) : Prop :=
  ∃ a l f, w' = set_pWalFd (set_shm_locks (set_apWiData w a) l) f ∧ content f = content (pWalFd w).

Lemma mild_refl w : mild w w.
Proof. exists (apWiData w), (shm_locks w), (pWalFd w). by destruct w. Qed.

Lemma mild_trans w1 w2 w3 : mild w1 w2 → mild w2 w3 → mild w1 w3.
Proof. intros (a & l & f & -> & E) (a' & l' & f' & -> & E'). exists a', l', f'. cbn in E'. split; [done|congruence]. Qed.

Lemma touched_mild w w' : touched w w' → mild w w'.
Proof. intros [a ->]. exists a, (shm_locks w), (pWalFd w). by destruct w. Qed.

Lemma locks_mild w l : mild w (set_held (set_shm_locks w l) (held w)).
Proof. exists (apWiData w), l, (pWalFd w). by destruct w. Qed.

Lemma mild_fields w w' : mild w w' → hdr w' = hdr w ∧ held w' = held w ∧ exclusiveMode w' = exclusiveMode w ∧ answers w' = answers w ∧
  content (pWalFd w') = content (pWalFd w) ∧ nCkpt w' = nCkpt w.
Proof. by intros (a & l & f & -> & E). Qed.

(** What the checkpoint relies on. *)
Record attached (w : Wal) (P : list Z) : Prop := {
  a_index : index w P;
  a_page : ∃ p, get_page w 0 = Some p
}.

(** No lock on readers is held. *)
Definition free (w : Wal) : Prop := ∀ r, r ∈ held w → r.1 < WAL_RECOVER_LOCK.

Lemma reader_lock w j n : free w → 0 ≤ j → (WAL_READ_LOCK j, n) ∉ held w.
Proof. intros H Hj Hin. apply H in Hin. unfold WAL_READ_LOCK, WAL_RECOVER_LOCK in Hin. cbn in Hin. lia. Qed.

(** ** The last frame that is safe *)

Lemma safe_frame_spec n : ∀ w P xBusy i mx rc, attached w P → free w → 1 ≤ i → i + Z.of_nat n ≤ WAL_NREADER → mx ≤ READMARK_NOT_USED →
  ∃ out rc' mx' xBusy' w', safe_frame n w xBusy i mx rc = Some (out, rc', mx', xBusy', w') ∧ mild w w' ∧ attached w' P ∧ mx' ≤ mx ∧
    (out = true → rc' ≠ SQLITE_OK) ∧ (∀ j, j < 25 + i → get_word w' j = get_word w j) ∧ 
    (∀ j, 25 + i + Z.of_nat n ≤ j → get_word w' j = get_word w j) ∧
    (out = false → ∀ j, i ≤ j < i + Z.of_nat n → ∃ y, get_word w' (25 + j) = Some y ∧ mx' ≤ y).
Proof.
  induction n as [|n IH]; intros w P xBusy i mx rc Hw Hfree Hi Hn Hmx.
  { exists false, rc, mx, xBusy, w. cbn [safe_frame]. split_and!; try done; [apply mild_refl|lia]. }
  cbn [safe_frame]. change WAL_NREADER with 5 in *.
  destruct (get_word_some w P (25 + i) (a_index _ _ Hw) (a_page _ _ Hw)) as [y Hy]; [lia|]. rewrite Hy.
  (* the marks that are left, after one that is not below the frame *)
  assert (Hgo : ∀ w1 xBusy mx1 rc y1, mild w w1 → attached w1 P → mx1 ≤ mx → get_word w1 (25 + i) = Some y1 → mx1 ≤ y1 →
      (∀ j, 25 + i ≠ j → get_word w1 j = get_word w j) →
    ∃ out rc' mx' xBusy' w', safe_frame n w1 xBusy (i + 1) mx1 rc = Some (out, rc', mx', xBusy', w') ∧ mild w w' ∧ attached w' P ∧ mx' ≤ mx ∧
      (out = true → rc' ≠ SQLITE_OK) ∧ (∀ j, j < 25 + i → get_word w' j = get_word w j) ∧
      (∀ j, 25 + i + Z.of_nat (S n) ≤ j → get_word w' j = get_word w j) ∧
      (out = false → ∀ j, i ≤ j < i + Z.of_nat (S n) → ∃ y, get_word w' (25 + j) = Some y ∧ mx' ≤ y)).
  { intros w1 xB mx1 rc1 y1 Hm1 Hw1 Hle Hy1 Hmy Hsame.
    destruct (IH w1 P xB (i + 1) mx1 rc1 Hw1) as (out & rc' & mx' & xBusy' & w' & -> & Hm' & Hw' & Hle' & Hout & Hlo & Hhi & Hin); [|lia..|].
    { unfold free. by rewrite (proj1 (proj2 (mild_fields _ _ Hm1))). }
    exists out, rc', mx', xBusy', w'. split_and!; try done; [by eapply mild_trans|lia|..].
    - intros j Hj. by rewrite Hlo, Hsame by lia.
    - intros j Hj. by rewrite Hhi, Hsame by lia.
    - intros E j Hj. destruct (decide (j = i)) as [->|]; [|apply Hin; [done|lia]]. exists y1. rewrite Hlo by lia. split; [done|lia]. }
  destruct (Z.ltb_spec y mx) as [Hlt|Hge].
  2: { apply (Hgo w xBusy mx rc y); try done. apply mild_refl. }
  destruct (busy_range w xBusy (WAL_READ_LOCK i) 1) as (rc1 & xB & h & l & -> & Hh & Hne & Hun); [by apply reader_lock; [|lia]|].
  set (w1 := set_held (set_shm_locks w l) h). assert (index w1 P) as Hi1 by (apply (index_eq w); [done..|apply Hw]).
  destruct (Z.eqb_spec rc1 SQLITE_OK) as [->|Hrc].
  - destruct (get_word_set w1 P (25 + i) (if i =? 1 then mx else READMARK_NOT_USED)) as (w2 & -> & [a Ea] & Hi2 & Hp2 & Hv2 & Hj2);
      [done|apply (a_page _ _ Hw)|lia|].
    rewrite Hun by (try done; by rewrite Ea). set (w3 := set_held w2 (held w)).
    eapply (Hgo w3 xB mx SQLITE_OK); [|split| |exact Hv2| |].
    + exists a, l, (pWalFd w). unfold w3. rewrite Ea. by destruct w.
    + by apply (index_eq w2).
    + done.
    + lia.
    + case_match; lia.
    + intros j Hj. by apply Hj2.
  - specialize (Hne Hrc). subst h. assert (attached w1 P) as Hw1 by (split; [done|apply (a_page _ _ Hw)]).
    assert (mild w w1) as Hm1 by apply locks_mild.
    destruct (Z.eqb_spec rc1 SQLITE_BUSY) as [->|].
    + apply (Hgo w1 None y SQLITE_BUSY y); try done; lia.
    + exists true, rc1, mx, xB, w1. split_and!; try done; lia.
Qed.

(** ** Copying pages *)

(** The frame to copy for a page: its last in the log, if it is not in the
    database file yet, is safe, and of a page of the database. *)
Definition eligible (P : list Z) (iLast nB mx mxPage pgno f : Z) : Prop :=
  last_at P iLast pgno f ∧ nB < f ≤ mx ∧ f ≤ iLast ∧ pgno ≤ mxPage.

Lemma last_at_unique P n q f g : f ≤ n → g ≤ n → last_at P n q f → last_at P n q g → f = g.
Proof.
  intros Hf Hg [H1 H2] [H3 H4]. destruct (Z.lt_trichotomy f g) as [H|[H|H]]; [exfalso|done|exfalso].
  - by apply (H2 g); [lia|].
  - by apply (H4 f); [lia|].
Qed.

(** Every page is as it was, or as in the frame to copy for it.  Pages past
    the end of the database can be cut off when all frames are copied. *)
Definition copied (P : list Z) (iLast nB mx mxPage sz : Z) (log db db' : bytes) : Prop :=
  ∀ q, 1 ≤ q → mx < iLast ∨ q ≤ mxPage → db_page db' sz q = db_page db sz q ∨
    ∃ f, eligible P iLast nB mx mxPage q f ∧ db_page db' sz q = frame_bytes log sz f.

Lemma copied_refl P iLast nB mx mxPage sz log db : copied P iLast nB mx mxPage sz log db db.
Proof. intros q _ _. by left. Qed.

Lemma copied_trans P iLast nB mx mxPage sz log db db1 db2 :
  copied P iLast nB mx mxPage sz log db db1 → copied P iLast nB mx mxPage sz log db1 db2 → copied P iLast nB mx mxPage sz log db db2.
Proof. intros H1 H2 q Hq Hg. destruct (H2 q Hq Hg) as [->|?]; [by apply H1|by right]. Qed.

Section backfill.

Context (P : list Z) (iLast i0 nB mx mxPage sz : Z) (mallocFailed : bool).
Context (HL : 0 < iLast ≤ Z.of_nat (length P)) (H0 : 0 ≤ i0 ≤ walFramePage iLast) (HnB : 0 ≤ nB) (Hz : zero_of i0 ≤ nB) (Hsz : 0 < sz).
Context (Hpg : ∀ f, 1 ≤ f ≤ iLast → 0 < frame_page P f < 0xFFFFFFFF).

Lemma backfill_spec fuel : ∀ w db p fr intr, index w P → iter_ok P iLast i0 p → iPrior p ≤ 0xFFFFFFFF →
  (length (filter (λ q, iPrior p < q)%Z (take (Z.to_nat iLast) P)) < fuel)%nat →
  ∃ rc w' db', backfill fuel w db p fr sz nB mx mxPage intr mallocFailed = Some (rc, w', db') ∧ mild w w' ∧ apWiData w' = apWiData w ∧
    copied P iLast nB mx mxPage sz (content (pWalFd w)) (content db) (content db') ∧
    (∀ q, 1 ≤ q ≤ iPrior p → db_page (content db') sz q = db_page (content db) sz q) ∧
    (rc = SQLITE_OK → ∀ q f, eligible P iLast nB mx mxPage q f → iPrior p < q →
       db_page (content db') sz q = frame_bytes (content (pWalFd w)) sz f).
Proof.
  induction fuel as [|fuel IH]; intros w db p fr intr Hi Hp Hpr Hf; [lia|]. cbn [backfill]. pose proof (zero_of_pos i0) as Hz0.
  destruct (walIteratorNext_spec P iLast i0 w Hi HL H0 Hpg p fr Hp Hpr) as (r & f & p' & -> & Hp' & Er & Hr & Hmin & Hex).
  assert (Hel : ∀ q g, eligible P iLast nB mx mxPage q g → 1 ≤ g ≤ iLast ∧ zero_of i0 < g ∧ frame_page P g = q).
  { intros q g [[Hl _] Hg]. split; [lia|]. split; [lia|]. by apply frame_page_lookup in Hl; [|lia]. }
  assert (Hstop : ∀ (rc : Z) w1, mild w w1 → apWiData w1 = apWiData w → rc ≠ SQLITE_OK →
    ∃ rc' w' db', Some (rc, w1, db) = Some (rc', w', db') ∧ mild w w' ∧ apWiData w' = apWiData w ∧
      copied P iLast nB mx mxPage sz (content (pWalFd w)) (content db) (content db') ∧
      (∀ q, 1 ≤ q ≤ iPrior p → db_page (content db') sz q = db_page (content db) sz q) ∧
      (rc' = SQLITE_OK → ∀ q f, eligible P iLast nB mx mxPage q f → iPrior p < q →
         db_page (content db') sz q = frame_bytes (content (pWalFd w)) sz f)).
  { intros rc w1 ???. exists rc, w1, db. split_and!; try done. apply copied_refl. }
  destruct (Z.eqb_spec r 0xFFFFFFFF) as [->|Hne].
  { exists SQLITE_OK, w, db. split_and!; try done; [apply mild_refl|apply copied_refl|].
    intros _ q g Hg Hq. exfalso. destruct (Hel q g Hg) as (Hg1 & Hg2 & <-). specialize (Hmin g ltac:(lia) Hq). specialize (Hpg g Hg1). lia. }
  destruct Hex as [?|(Hr1 & Hr2 & Hr3 & Hr4)]; [done|].
  assert (last_at P iLast r f) as Hlast.
  { split; [by apply frame_page_lookup; [lia|]|]. intros g Hg E. apply frame_page_lookup in E; [|lia]. by apply (Hr4 g). }
  assert (r ∈ take (Z.to_nat iLast) P) as Hin.
  { apply (list_elem_of_lookup_2 _ (Z.to_nat (f - 1))). rewrite lookup_take_lt by lia. apply Hlast. }
  pose proof (filter_fewer (iPrior p) r _ Hr1 Hin) as Hfew. pose proof (it_prior _ _ _ _ Hp) as Hp0.
  destruct (hd false intr); [by apply Hstop; [apply mild_refl|done|destruct mallocFailed]|].
  assert (Hle : ∀ q g, eligible P iLast nB mx mxPage q g → iPrior p < q → r ≤ q).
  { intros q g Hg Hq. destruct (Hel q g Hg) as (Hg1 & Hg2 & <-). apply Hmin; [lia|done]. }
  destruct ((f <=? nB) || (mx <? f) || (mxPage <? r)) eqn:Eskip.
  - destruct (IH w db p' f (tl intr) Hi Hp') as (rc & w' & db' & -> & Hm & Ha & Hc & Hold & Hok); [lia|rewrite Er; lia|]. rewrite Er in Hold, Hok.
    exists rc, w', db'. split_and!; try done.
    + intros q Hq. apply Hold. lia.
    + intros E q g Hg Hq. specialize (Hle q g Hg Hq). apply Hok; [done|done|]. destruct (decide (r = q)) as [->|]; [exfalso|lia].
      destruct Hg as (Hg & Hg1 & Hg2 & Hg3). rewrite (last_at_unique P iLast q f g) in Eskip by (done || lia). lia.
  - assert (eligible P iLast nB mx mxPage r f) as Helf by (split_and!; [done|lia..]).
    destruct (read_bytes (pWalFd w) sz (walFrameOffset f sz + WAL_FRAME_HDRSIZE)) as (rc & fd & -> & Efd);
      [lia|unfold walFrameOffset, WAL_FRAME_HDRSIZE, WAL_HDRSIZE; nia|]. fold (frame_bytes (content (pWalFd w)) sz f).
    set (w1 := set_pWalFd w fd). assert (mild w w1) as Hm1 by (exists (apWiData w), (shm_locks w), fd; by destruct w).
    destruct (Z.eqb_spec rc SQLITE_OK) as [->|Hrc]; cbn [negb]; [|by apply Hstop].
    unfold sqlite3OsWrite. destruct (next_code (io_codes db)) as [rc l].
    destruct (Z.eqb_spec rc SQLITE_OK) as [->|Hrc]; cbn [negb].
    2: { exists rc, w1, (mk_file (content db) l). split_and!; try done. apply copied_refl. }
    set (db1 := mk_file _ l).
    destruct (IH w1 db1 p' f (tl intr)) as (rc & w' & db' & -> & Hm & Ha & Hc & Hold & Hok); [by apply (index_eq w)|done|lia|rewrite Er; lia|].
    rewrite Er in Hold, Hok. change (content (pWalFd w1)) with (content fd) in Hc, Hok. rewrite Efd in Hc, Hok.
    assert (Hw : ∀ q, 1 ≤ q → db_page (content db1) sz q = if decide (q = r) then frame_bytes (content (pWalFd w)) sz f else db_page (content db) sz q).
    { intros q Hq. apply db_page_write; [done|lia|done|]. unfold frame_bytes. rewrite bytes_at_length. lia. }
    exists rc, w', db'. split; [done|]. split; [by eapply mild_trans|]. split; [done|]. split_and!.
    + eapply copied_trans; [|exact Hc]. intros q Hq _. rewrite Hw by done. case_decide as E; [|by left]. subst q. right. by exists f.
    + intros q Hq. rewrite Hold, Hw by lia. by rewrite decide_False by lia.
    + intros E q g Hg Hq. specialize (Hle q g Hg Hq). destruct (decide (q = r)) as [->|Hqr]; [|apply Hok; [done|done|lia]].
      rewrite Hold, Hw, decide_True by lia. f_equal. destruct Hg as (Hg & Hg1 & Hg2 & Hg3). by apply (last_at_unique P iLast r f g); [lia..| |].
Qed.

End backfill.

(** ** The checkpoint *)

Lemma walIndexHdr_word w P : attached w P → ∃ h, walIndexHdr w = Some h ∧ get_word w 4 = Some (mxFrame h).
Proof.
  intros [Hi [p Hp]]. unfold walIndexHdr, get_word. rewrite Hp. destruct (i_shape _ _ Hi 0 p Hp) as [Hs _].
  change (Z.to_nat HASHTABLE_NPAGE) with (12 + 4084)%nat in Hs. destruct (words p) as [|? wd]; [done|].
  do 11 (destruct wd as [|? wd]; [done|]). cbn [hdr_of_words]. by eexists.
Qed.

Lemma attached_eq w w' P : apWiData w' = apWiData w → answers w' = answers w → attached w P → attached w' P.
Proof.
  intros E1 E2 [Hi Hp]. split; [by apply (index_eq w)|].
  destruct Hp as [p Hp]. exists p. by rewrite (get_page_eq w).
Qed.

Lemma attached_set w P i v : attached w P → 0 ≤ i < 34 →
  ∃ w', set_word w i v = Some w' ∧ touched w w' ∧ attached w' P ∧ get_word w' i = Some v ∧ ∀ j, i ≠ j → get_word w' j = get_word w j.
Proof.
  intros [Hi Hp] Hr. destruct (get_word_set w P i v Hi Hp Hr) as (w' & -> & Ht & Hi' & Hp' & Hv & Hj).
  exists w'. by split_and!.
Qed.

Lemma sync_spec f flags : ∃ rc f', sqlite3OsSync f flags = (rc, f') ∧ content f' = content f.
Proof. unfold sqlite3OsSync. destruct (negb _); [destruct (next_code _)|]; by eexists _, _. Qed.

Lemma mild_fd w f : content f = content (pWalFd w) → mild w (set_pWalFd w f).
Proof. intros E. exists (apWiData w), (shm_locks w), f. by destruct w. Qed.

(** The pages below the size of the database survive the truncation. *)
Lemma db_page_truncate c sz n q : 0 < sz → 1 ≤ q ≤ n →
  db_page (take (Z.to_nat (n * sz)) c ++ replicate (Z.to_nat (n * sz) - length c) 0) sz q = db_page c sz q.
Proof. intros Hsz Hq. apply bytes_at_ext. intros i Hi. apply truncate_byte. nia. Qed.

Definition pages_ok (P : list Z) (n : Z) : Prop := ∀ f, 1 ≤ f ≤ n → 0 < frame_page P f < 0xFFFFFFFF.

Lemma ckpt_copy_spec w P db p sz mx nB sync intr mf : attached w P → 0 < mxFrame (hdr w) ≤ Z.of_nat (length P) →
  0 ≤ nB → 0 < sz → pages_ok P (mxFrame (hdr w)) → nB < mxFrame (hdr w) → mx ≤ mxFrame (hdr w) →
  iter_ok P (mxFrame (hdr w)) (walFramePage (nB + 1)) p → iPrior p = 0 →
  get_word w 24 = Some nB → get_word w 4 = Some (mxFrame (hdr w)) →
  ∃ rc w' db', ckpt_copy w db p sz mx (nPage (hdr w)) sync intr mf = Some (rc, w', db') ∧ mild w w' ∧ attached w' P ∧
    (∀ j, 24 ≠ j → 32 ≠ j → get_word w' j = get_word w j) ∧ get_word w' 24 = Some (if rc =? SQLITE_OK then mx else nB) ∧
    copied P (mxFrame (hdr w)) nB mx (nPage (hdr w)) sz (content (pWalFd w)) (content db) (content db') ∧
    (rc = SQLITE_OK → ∀ q f, eligible P (mxFrame (hdr w)) nB mx (nPage (hdr w)) q f →
       db_page (content db') sz q = frame_bytes (content (pWalFd w)) sz f).
Proof.
  intros Hw HL HnB Hsz Hpg Hlt Hmx Hp Hp0 H24 H4. unfold ckpt_copy. rewrite H24. set (iLast := mxFrame (hdr w)) in *.
  pose proof (i_frames _ _ (a_index _ _ Hw)) as Hmax. set (i0 := walFramePage (nB + 1)) in *.
  assert (0 ≤ i0 ≤ walFramePage iLast) as H0 by (unfold i0; rewrite !walFramePage_spec by lia; dm).
  assert (zero_of i0 ≤ nB) as Hz by (destruct (walFramePage_range (nB + 1)) as [_ Hr0]; [lia|]; fold i0 in Hr0; lia).
  destruct (attached_set w P 32 mx Hw) as (w1 & -> & Ht1 & Hw1 & _ & Hj1); [lia|].
  destruct (sync_spec (pWalFd w1) (CKPT_SYNC_FLAGS sync)) as (rc & f & -> & Ef). set (w2 := set_pWalFd w1 f).
  assert (mild w w2) as Hm2 by (eapply mild_trans; [by apply touched_mild|by apply mild_fd]).
  assert (attached w2 P) as Hw2 by (by apply (attached_eq w1)).
  destruct (mild_fields _ _ Hm2) as (Eh & _ & _ & _ & Elog & _).
  assert (Hj2 : ∀ j, 32 ≠ j → get_word w2 j = get_word w j) by (intros j Hj; rewrite (get_word_eq w1) by done; by apply Hj1).
  (* ending with an error *)
  assert (Hstop : ∀ (rc : Z) w' db', rc ≠ SQLITE_OK → mild w w' → attached w' P → (∀ j, 32 ≠ j → get_word w' j = get_word w j) →
      copied P iLast nB mx (nPage (hdr w)) sz (content (pWalFd w)) (content db) (content db') →
    ∃ rc1 w1 db1, Some (rc, w', db') = Some (rc1, w1, db1) ∧ mild w w1 ∧ attached w1 P ∧
      (∀ j, 24 ≠ j → 32 ≠ j → get_word w1 j = get_word w j) ∧ get_word w1 24 = Some (if rc1 =? SQLITE_OK then mx else nB) ∧
      copied P iLast nB mx (nPage (hdr w)) sz (content (pWalFd w)) (content db) (content db1) ∧
      (rc1 = SQLITE_OK → ∀ q f, eligible P iLast nB mx (nPage (hdr w)) q f → db_page (content db1) sz q = frame_bytes (content (pWalFd w)) sz f)).
  { intros rc1 w' db' Hrc ?? Hj ?. exists rc1, w', db'. split_and!; try done; [by intros j _ ?; apply Hj|].
    rewrite (proj2 (Z.eqb_neq _ _)) by done. by rewrite Hj. }
  set (dec := if rc =? SQLITE_OK then _ else (rc, db)).
  assert (∃ rc' db1, dec = (rc', db1) ∧ content db1 = content db) as (rc' & db1 & -> & Edb1).
  { unfold dec. destruct (rc =? SQLITE_OK); [|by eexists _, _]. unfold sqlite3OsFileSize. destruct (next_code _). by eexists _, _. }
  destruct (Z.eqb_spec rc' SQLITE_OK) as [->|Hrc'].
  2: { rewrite (proj2 (Z.eqb_neq _ _)) by done. cbn [negb]. apply Hstop; try done. rewrite Edb1. apply copied_refl. }
  rewrite Eh. fold iLast.
  assert (Hfew : (length (filter (λ q, iPrior p < q)%Z (take (Z.to_nat iLast) P)) < S (Z.to_nat iLast))%nat).
  { assert (length (filter (λ q, iPrior p < q)%Z (take (Z.to_nat iLast) P)) ≤ length (take (Z.to_nat iLast) P))%nat by apply length_filter.
    rewrite length_take in *. lia. }
  destruct (backfill_spec P iLast i0 nB mx (nPage (hdr w)) sz mf HL H0 HnB Hz Hsz Hpg (S (Z.to_nat iLast)) w2 db1 p 0 intr)
    as (rc2 & w3 & db2 & -> & Hm3 & Ha3 & Hc & _ & Hok); [apply Hw2|done|lia|done|].
  rewrite Elog in Hc, Hok. rewrite Edb1 in Hc. pose proof (mild_trans _ _ _ Hm2 Hm3) as Hm03. destruct (mild_fields _ _ Hm3) as (Eh3 & Ehd3 & _ & Ean3 & _).
  assert (attached w3 P) as Hw3 by (by apply (attached_eq w2)).
  assert (Hj3 : ∀ j, 32 ≠ j → get_word w3 j = get_word w j) by (intros j Hj; rewrite (get_word_eq w2) by done; by apply Hj2).
  destruct (Z.eqb_spec rc2 SQLITE_OK) as [->|Hrc2]; cbn [negb]; [|by apply Hstop].
  destruct (walIndexHdr_word w3 P Hw3) as (live & -> & E4). rewrite Hj3, H4 in E4 by done. injection E4 as E4. fold iLast in E4.
  rewrite <- E4, Eh3, Eh.
  set (dec := if mx =? iLast then _ else _).
  assert (∃ rc' db3, dec = (rc', db3) ∧ ∀ q, 1 ≤ q → mx < iLast ∨ q ≤ nPage (hdr w) → db_page (content db3) sz q = db_page (content db2) sz q)
    as (rc3 & db3 & -> & Edb3).
  { unfold dec. destruct (Z.eqb_spec mx iLast) as [->|]; [|by eexists _, _]. unfold sqlite3OsTruncate. destruct (next_code (io_codes db2)) as [c l].
    destruct (Z.eqb_spec c SQLITE_OK) as [->|Hc0]; [|by eexists _, _].
    set (fd := mk_file _ l). destruct (sync_spec fd (CKPT_SYNC_FLAGS sync)) as (c & fd' & -> & Efd). exists c, fd'. split; [done|].
    intros q Hq Hg. rewrite Efd. apply db_page_truncate; [done|]. destruct Hg; lia. }
  assert (copied P iLast nB mx (nPage (hdr w)) sz (content (pWalFd w)) (content db) (content db3)) as Hc3.
  { intros q Hq Hg. rewrite Edb3 by done. by apply Hc. }
  destruct (Z.eqb_spec rc3 SQLITE_OK) as [->|Hrc3]; cbn [negb]; [|by apply Hstop].
  destruct (attached_set w3 P 24 mx Hw3) as (w4 & -> & Ht4 & Hw4 & H4' & Hj4); [lia|].
  exists SQLITE_OK, w4, db3. rewrite Z.eqb_refl. split_and!; try done.
  - eapply mild_trans; [done|by apply touched_mild].
  - intros j Hj Hj'. by rewrite Hj4, Hj3.
  - intros _ q g Hg. rewrite Edb3; [|destruct Hg as [[Hl _] Hg]; apply frame_page_lookup in Hl; [|lia]; subst q; specialize (Hpg g ltac:(lia)); lia|right; apply Hg].
    apply Hok; [done|done|]. destruct Hg as [[Hl _] Hg]. apply frame_page_lookup in Hl; [|lia]. subst q. specialize (Hpg g ltac:(lia)). lia.
Qed.

(** *** What readers see *)

(** A reader of the snapshot that ends at its [mxFrame], on a system whose
    reads succeed: it looks in the log from [minFrame] on. *)
Record reads (r : Wal) (P : list Z) (log : bytes) (sz : Z) (nB : Z) : Prop := {
  rd_range : 0 ≤ minFrame r ≤ nB + 1 ∧ minFrame r ≤ mxFrame (hdr r) + 1;
  rd_lock : readLock r ≠ 0 ∨ bShmUnreliable r ≠ 0;
  rd_answers : answers_ok r;
  rd_log : pWalFd r = mk_file log [];
  rd_size : walPagesize r = sz
}.

(** The page a reader gets. *)
Definition page_seen (r w : Wal) (db : file) (pgno : Z) : option (Z * bytes * bytes) :=
  readDbPage (Some (view r w)) (mk_file (content db) []) (walPagesize r) pgno (replicate (Z.to_nat (walPagesize r)) 0) [].


(** *** The whole checkpoint *)

(** The log of [P] is attached, [nB] frames of it are in the database file,
    and no other connection has written since the header was read. *)
Record ckpt_ready (w : Wal) (P : list Z) (nB : Z) : Prop := {
  ck_attached : attached w P;
  ck_free : free w;
  ck_frames : 0 ≤ mxFrame (hdr w) ≤ Z.of_nat (length P);
  ck_pages : pages_ok P (mxFrame (hdr w));
  ck_size : 512 ≤ walPagesize w;
  ck_backfill : get_word w 24 = Some nB ∧ 0 ≤ nB;
  ck_live : get_word w 4 = Some (mxFrame (hdr w));
  ck_byte : is_u8 (bigEndCksum (hdr w))
}.

Lemma ckpt_backfill_spec w P nB db xBusy sync mem intr mf : ckpt_ready w P nB → nB < mxFrame (hdr w) →
  ∃ out rc xBusy' w' db' mx nB', ckpt_backfill w db xBusy sync mem intr mf = Some (out, rc, xBusy', w', db') ∧ mild w w' ∧ attached w' P ∧
    mx ≤ mxFrame (hdr w) ∧ get_word w' 24 = Some nB' ∧ get_word w' 4 = get_word w 4 ∧
    copied P (mxFrame (hdr w)) nB mx (nPage (hdr w)) (walPagesize w) (content (pWalFd w)) (content db) (content db') ∧
    (out = true → rc ≠ SQLITE_OK ∧ content db' = content db) ∧
    (out = false → ∀ j, 1 ≤ j < WAL_NREADER → ∃ y, get_word w' (25 + j) = Some y ∧ mx ≤ y) ∧
    (nB' = nB ∨ nB' = mx ∧ ∀ q f, eligible P (mxFrame (hdr w)) nB mx (nPage (hdr w)) q f →
       db_page (content db') (walPagesize w) q = frame_bytes (content (pWalFd w)) (walPagesize w) f).
Proof.
  intros [Hw Hfree HL Hpg Hsz [H24 HnB] H4 _] Hlt. assert (0 < walPagesize w) as Hsz0 by lia. unfold ckpt_backfill. set (iLast := mxFrame (hdr w)) in *. set (sz := walPagesize w) in *.
  pose proof (i_frames _ _ (a_index _ _ Hw)) as Hmax. unfold MAX_FRAMES in Hmax.
  destruct (safe_frame_spec (Z.to_nat (WAL_NREADER - 1)) w P xBusy 1 iLast SQLITE_OK Hw) as (out & rc & mx & xB & w1 & -> & Hm1 & Hw1 & Hmx & Hout & Hlo & Hhi & Hmarks);
    [done|done|done|unfold READMARK_NOT_USED; lia|].
  change (Z.of_nat (Z.to_nat (WAL_NREADER - 1))) with 4 in *. change (1 + 4) with WAL_NREADER in Hmarks.
  destruct out.
  { exists true, rc, xB, w1, db, mx, nB. rewrite !Hlo by lia. split_and!; try done; auto using copied_refl. }
  specialize (Hmarks eq_refl). destruct (mild_fields _ _ Hm1) as (Eh1 & Ehd1 & _ & _ & Elog1 & _). rewrite Hlo, H24 by lia.
  (* nothing is copied *)
  assert (Hstop : ∀ (rc : Z) (xB : option (list Z)) w', mild w1 w' → attached w' P → apWiData w' = apWiData w1 →
    ∃ out rc1 xBusy' w2 db' mx nB', Some (false, if rc =? SQLITE_BUSY then SQLITE_OK else rc, xB, w', db) = Some (out, rc1, xBusy', w2, db') ∧
      mild w w2 ∧ attached w2 P ∧ mx ≤ iLast ∧ get_word w2 24 = Some nB' ∧ get_word w2 4 = get_word w 4 ∧
      copied P iLast nB mx (nPage (hdr w)) sz (content (pWalFd w)) (content db) (content db') ∧
      (out = true → rc1 ≠ SQLITE_OK ∧ content db' = content db) ∧
      (out = false → ∀ j, 1 ≤ j < WAL_NREADER → ∃ y, get_word w2 (25 + j) = Some y ∧ mx ≤ y) ∧
      (nB' = nB ∨ nB' = mx ∧ ∀ q f, eligible P iLast nB mx (nPage (hdr w)) q f → db_page (content db') sz q = frame_bytes (content (pWalFd w)) sz f)).
  { intros rc1 xB1 w' Hm Hw' Ea. eexists false, _, xB1, w', db, mx, nB. rewrite !(get_word_eq w1 w') by done. rewrite !Hlo by lia.
    split_and!; auto using copied_refl; try done; [by eapply mild_trans|].
    intros _ j Hj. rewrite (get_word_eq w1) by done. by apply Hmarks. }
  destruct (Z.ltb_spec nB mx) as [Hlt'|Hge].
  2: { apply Hstop; [apply mild_refl|done|done]. }
  destruct mem.
  2: { apply (Hstop SQLITE_NOMEM xB w1); [apply mild_refl|done|done]. }
  assert (0 ≤ walFramePage (nB + 1) ≤ walFramePage iLast) as H0 by (rewrite !walFramePage_spec by (unfold MAX_FRAMES; lia); dm).
  destruct (walIteratorInit_spec P iLast (walFramePage (nB + 1)) w1) with (nBackfill := nB) as (p & -> & Hp & Hp0); try done; try (rewrite Eh1; done); try (apply Hw1); try lia.
  destruct (busy_range w1 xB (WAL_READ_LOCK 0) 1) as (rc2 & xB2 & h & l & -> & Hh & Hne & Hun); [apply reader_lock; [unfold free; by rewrite Ehd1|done]|].
  set (w2 := set_held (set_shm_locks w1 l) h). assert (attached w2 P) as Hw2 by (by apply (attached_eq w1)).
  destruct (Z.eqb_spec rc2 SQLITE_OK) as [->|Hrc2].
  2: { specialize (Hne Hrc2). subst h. apply (Hstop rc2 xB2 w2); [apply locks_mild|done|done]. }
  assert (hdr w2 = hdr w) as Eh2 by done.
  assert (Hwords : ∀ j, j < 26 → get_word w2 j = get_word w j) by (intros j Hj; rewrite (get_word_eq w1) by done; by apply Hlo).
  assert (walPagesize w2 = sz) as -> by (unfold sz, walPagesize; by rewrite Eh2).
  destruct (ckpt_copy_spec w2 P db p sz mx nB sync intr mf Hw2) as (rc3 & w3 & db' & E3 & Hm3 & Hw3 & Hj3 & H24' & Hc & Hok);
    try done; try (rewrite Eh2; fold iLast; done || lia); try (rewrite Hwords by lia; try rewrite Eh2; done).
  rewrite Eh2 in E3. rewrite Eh1, E3. destruct (mild_fields _ _ Hm3) as (_ & Ehd3 & Ee3 & Ean3 & _).
  rewrite Hun by (done || by rewrite Ee3). set (w4 := set_held w3 (held w1)).
  assert (mild w1 w4) as Hm4.
  { destruct Hm3 as (a & l3 & f3 & -> & Ef). exists a, l3, f3. split; [by destruct w1|done]. }
  rewrite Eh2 in Hc, Hok. change (pWalFd w2) with (pWalFd w1) in Hc, Hok. rewrite Elog1 in Hc, Hok.
  eexists false, _, xB2, w4, db', mx, _. split; [done|]. split; [by eapply mild_trans|]. split; [by apply (attached_eq w3)|]. split; [done|].
  rewrite !(get_word_eq w3 w4) by done. split; [exact H24'|]. split; [rewrite Hj3, Hwords by done; done|]. split; [done|]. split; [done|]. split.
  - intros _ j Hj. rewrite (get_word_eq w3 w4), Hj3 by (done || (change WAL_NREADER with 5 in Hj; lia)).
    rewrite (get_word_eq w1 w2) by done. by apply Hmarks.
  - destruct (Z.eqb_spec rc3 SQLITE_OK) as [->|]; [right|by left]. split; [done|by apply Hok].
Qed.

(** *** Starting over *)

(** The header is in shared memory, twice, and is as a reader expects it. *)
Definition posted (w : Wal) : Prop :=
  (∀ i, 0 ≤ i < 24 → get_word w i = rd (hdr_words (hdr w) ++ hdr_words (hdr w)) i) ∧
  fits (hdr w) ∧ isInit (hdr w) = 1 ∧ aCksum (hdr w) = cksum false (hdr_bytes (hdr w)) (0, 0).

Lemma posted_live w : (∃ p, get_page w 0 = Some p) → posted w → ∃ p, live w p.
Proof. intros [p Hp] [Hw H]. exists p. split; [done|]. split; [|done]. intros i Hi. rewrite <- Hw by done. unfold get_word. by rewrite Hp. Qed.

Lemma live_posted w p : live w p → posted w.
Proof. intros (Hp & Hw & H). split; [|done]. intros i Hi. unfold get_word. rewrite Hp. by apply Hw. Qed.

Lemma next_salt_some s : ∃ v, next_salt s = Some v.
Proof.
  unfold next_salt. pose proof (get4_spec (le_bytes s) 0 (is_bytes_le s) ltac:(by cbn; lia)) as E. change (Z.of_nat 0) with 0 in E. rewrite E.
  pose proof (put4_spec [] (u8 s) (u8 (s / 256)) (u8 (s / 65536)) (u8 (s / 16777216)) [] (u32 (1 + be_at (le_bytes s) 0))) as E2.
  change (put4 (le_bytes s) 0 (u32 (1 + be_at (le_bytes s) 0)) = Some (be_bytes (u32 (1 + be_at (le_bytes s) 0)))) in E2.
  rewrite E2. by eexists.
Qed.

(** The words of the header of the index that are set one after the other. *)
Lemma posted_set w P i v : attached w P → posted w → 24 ≤ i < 34 →
  ∃ w', set_word w i v = Some w' ∧ touched w w' ∧ attached w' P ∧ posted w' ∧ get_word w' i = Some v ∧ ∀ j, i ≠ j → get_word w' j = get_word w j.
Proof.
  intros Hw [Hp H] Hi. destruct (attached_set w P i v Hw) as (w' & E & Ht & Hw' & Hv & Hj); [lia|].
  exists w'. split_and!; try done. destruct Ht as [a ->]. split; [|done]. intros j Hr. rewrite Hj by lia. by apply Hp.
Qed.

Lemma walRestartHdr_spec w P salt1 : attached w P → is_u8 (bigEndCksum (hdr w)) →
  ∃ w' s, walRestartHdr w salt1 = Some w' ∧ attached w' [] ∧ posted w' ∧ get_word w' 24 = Some 0 ∧ mxFrame (hdr w') = 0 ∧
    next_salt (aSalt (hdr w)).1 = Some s ∧ aSalt (hdr w') = (s, salt1) ∧
    held w' = held w ∧ pWalFd w' = pWalFd w ∧ exclusiveMode w' = exclusiveMode w.
Proof.
  intros [Hi [p Hp]] Hu. unfold walRestartHdr. destruct (next_salt_some (aSalt (hdr w)).1) as [s Es].
  change (hdr (set_nCkpt w (u32 (nCkpt w + 1)))) with (hdr w). rewrite Es. set (h := mk_hdr _ _ _ _ _ _ 0 _ _ _ _).
  set (w0 := set_hdr _ h). assert (index w0 []) as Hi0 by (apply index_nil with P; apply (index_eq w); done).
  destruct (walIndexWriteHdr_spec w0 [] p Hi0 Hp Hu) as (w1 & p1 & a & -> & E1 & Hi1 & Hl1).
  pose proof (live_posted _ _ Hl1) as Hpo1. assert (attached w1 []) as Hw1 by (split; [done|exists p1; apply Hl1]).
  destruct (posted_set w1 [] 24 0 Hw1 Hpo1) as (w2 & -> & [a2 E2] & Hw2 & Hpo2 & H24 & _); [lia|].
  destruct (posted_set w2 [] 32 0 Hw2 Hpo2) as (w3 & -> & [a3 E3] & Hw3 & Hpo3 & _ & J3); [lia|].
  destruct (posted_set w3 [] 26 0 Hw3 Hpo3) as (w4 & -> & [a4 E4] & Hw4 & Hpo4 & _ & J4); [lia|].
  destruct (posted_set w4 [] 27 READMARK_NOT_USED Hw4 Hpo4) as (w5 & -> & [a5 E5] & Hw5 & Hpo5 & _ & J5); [lia|].
  destruct (posted_set w5 [] 28 READMARK_NOT_USED Hw5 Hpo5) as (w6 & -> & [a6 E6] & Hw6 & Hpo6 & _ & J6); [lia|].
  destruct (posted_set w6 [] 29 READMARK_NOT_USED Hw6 Hpo6) as (w7 & -> & [a7 E7] & Hw7 & Hpo7 & _ & J7); [lia|].
  exists w7, s. split; [done|]. split; [done|]. split; [done|]. split; [by rewrite J7, J6, J5, J4, J3|].
  rewrite E7, E6, E5, E4, E3, E2, E1. by split_and!.
Qed.

(** A lock that is granted is held, or there is no other connection. *)
Definition alone (w : Wal) (i n : Z) : Prop := exclusiveMode w ≠ 0 ∨ (i, n) ∈ held w.

Lemma lock_granted w i n w' : walLockExclusive w i n = (SQLITE_OK, w') → alone w' i n.
Proof.
  unfold walLockExclusive. destruct (Z.eqb_spec (exclusiveMode w) 0) as [E|E]; cbn [negb]; [|intros [= <-]; by left].
  destruct (next_code _) as [rc l]. destruct (Z.eqb_spec rc SQLITE_OK) as [->|Hrc]; [|by intros [= ? _]]. intros [= <-]. right. by left.
Qed.

Lemma busy_granted w xBusy i n xB w' : walBusyLock w xBusy i n = (SQLITE_OK, xB, w') → alone w' i n.
Proof.
  unfold walBusyLock. destruct xBusy as [answers|].
  - destruct (busy_loop answers w i n) as [[rc x] w2] eqn:E. intros [= -> _ ->]. revert w x E.
    induction answers as [|a answers IH]; intros w x; cbn [busy_loop]; destruct (walLockExclusive w i n) as [rc w2] eqn:E.
    + destruct (rc =? SQLITE_BUSY); intros [= -> _ ->]; by eapply lock_granted.
    + destruct (Z.eqb_spec rc SQLITE_BUSY) as [->|]; [|intros [= -> _ ->]; by eapply lock_granted].
      destruct (a =? 0); [intros [= ? _ _]; done|]. apply IH.
  - destruct (walLockExclusive w i n) as [rc w2] eqn:E. intros [= -> _ ->]. by eapply lock_granted.
Qed.

(** Every read mark but the first locked, the header of the index starts the
    log over. *)
Definition starts_over (w2 : Wal) (salt1 : Z) (w' : Wal) : Prop :=
  alone w2 (WAL_READ_LOCK 1) (WAL_NREADER - 1) ∧ ∃ w3, walRestartHdr w2 salt1 = Some w3 ∧ apWiData w' = apWiData w3.

Lemma ckpt_restart_spec w P nB eMode xBusy salt1 : attached w P → free w → is_u8 (bigEndCksum (hdr w)) → get_word w 24 = Some nB →
  ∃ rc w', ckpt_restart w eMode xBusy salt1 = Some (rc, w') ∧ held w' = held w ∧ (rc = SQLITE_OK → mxFrame (hdr w) ≤ nB) ∧
    (eMode ≠ SQLITE_CHECKPOINT_TRUNCATE → mild w w' ∧ apWiData w' = apWiData w) ∧
    (eMode = SQLITE_CHECKPOINT_TRUNCATE → rc = SQLITE_OK → content (pWalFd w') = [] ∧ attached w' [] ∧ posted w' ∧
       get_word w' 24 = Some 0 ∧ mxFrame (hdr w') = 0 ∧ ∃ s, next_salt (aSalt (hdr w)).1 = Some s ∧ aSalt (hdr w') = (s, salt1)) ∧
    (eMode = SQLITE_CHECKPOINT_TRUNCATE → mild w w' ∧ apWiData w' = apWiData w ∨
       mxFrame (hdr w) ≤ nB ∧ ∃ w2, apWiData w2 = apWiData w ∧ pWalFd w2 = pWalFd w ∧ starts_over w2 salt1 w').
Proof.
  intros Hw Hfree Hu H24. unfold ckpt_restart. rewrite H24. destruct (Z.ltb_spec nB (mxFrame (hdr w))) as [|Hge].
  { exists SQLITE_BUSY, w. split_and!; try done; [|intros _; left]; by split; [apply mild_refl|]. }
  destruct (Z.leb_spec SQLITE_CHECKPOINT_RESTART eMode) as [Hm|Hm].
  2: { exists SQLITE_OK, w. split_and!; try done; [intros _; by split; [apply mild_refl|]|intros ->; done|intros ->; done]. }
  destruct (busy_range w xBusy (WAL_READ_LOCK 1) (WAL_NREADER - 1)) as (rc & xB & h & l & Eb & Hh & Hne & Hun); [by apply reader_lock|]. rewrite Eb.
  set (w1 := set_held (set_shm_locks w l) h).
  destruct (Z.eqb_spec rc SQLITE_OK) as [->|Hrc].
  2: { specialize (Hne Hrc). subst h. exists rc, w1. split_and!; try done; [|intros _; left]; by split; [apply locks_mild|]. }
  destruct (Z.eqb_spec eMode SQLITE_CHECKPOINT_TRUNCATE) as [->|Hne'].
  2: { exists SQLITE_OK, (set_held w1 (held w)). rewrite Hun by done. split_and!; try done. intros _. split; [apply locks_mild|done]. }
  pose proof (busy_granted _ _ _ _ _ _ Eb) as Halone.
  destruct (walRestartHdr_spec w1 P salt1) as (w2 & s & E2 & [Hi2 Hp2] & Hpo & Hz & Hmx & Es & Esalt & Eh2 & Ef2 & Ee2);
    [by apply (attached_eq w)|done|]. rewrite E2.
  unfold sqlite3OsTruncate. destruct (next_code (io_codes (pWalFd w2))) as [rc l2]. set (f := mk_file _ l2). set (w3 := set_pWalFd w2 f).
  rewrite Hun by done. exists rc, (set_held w3 (held w)). split_and!; try done.
  - intros _ ->. split_and!; try done; [by apply (attached_eq w2)|by exists s].
  - intros _. right. split; [done|]. exists w1. do 2 (split; [done|]). split; [done|]. by exists w2.
Qed.

(** What a checkpoint does, in every mode: the log and what readers look up
    stay, but for the log that starts over at the end. *)
Lemma walCheckpoint_spec w P nB db eMode xBusy sync mem intr mf salt1 : ckpt_ready w P nB →
  ∃ rc w' db' mx w1 nB', walCheckpoint w db eMode xBusy sync mem intr mf salt1 = Some (rc, w', db') ∧ held w' = held w ∧
    mild w w1 ∧ attached w1 P ∧ get_word w1 24 = Some nB' ∧
    copied P (mxFrame (hdr w)) nB mx (nPage (hdr w)) (walPagesize w) (content (pWalFd w)) (content db) (content db') ∧
    (content db' ≠ content db → mx ≤ mxFrame (hdr w) ∧ ∀ j, 1 ≤ j < WAL_NREADER → ∃ y, get_word w1 (25 + j) = Some y ∧ mx ≤ y) ∧
    (nB' = nB ∨ nB' = mx ∧ mx ≤ mxFrame (hdr w) ∧ ∀ q f, eligible P (mxFrame (hdr w)) nB mx (nPage (hdr w)) q f →
       db_page (content db') (walPagesize w) q = frame_bytes (content (pWalFd w)) (walPagesize w) f) ∧
    (eMode ≠ SQLITE_CHECKPOINT_TRUNCATE → mild w w' ∧ apWiData w' = apWiData w1) ∧
    (eMode ≠ SQLITE_CHECKPOINT_PASSIVE → rc = SQLITE_OK → mxFrame (hdr w) ≤ nB') ∧
    (eMode = SQLITE_CHECKPOINT_TRUNCATE → rc = SQLITE_OK → content (pWalFd w') = [] ∧ attached w' [] ∧ posted w' ∧
       get_word w' 24 = Some 0 ∧ mxFrame (hdr w') = 0 ∧ ∃ s, next_salt (aSalt (hdr w)).1 = Some s ∧ aSalt (hdr w') = (s, salt1)) ∧
    (eMode = SQLITE_CHECKPOINT_TRUNCATE → mild w w' ∧ apWiData w' = apWiData w1 ∨
       mxFrame (hdr w) ≤ nB' ∧ ∃ w2, apWiData w2 = apWiData w1 ∧ content (pWalFd w2) = content (pWalFd w) ∧ starts_over w2 salt1 w').
Proof.
  intros Hck. pose proof Hck as [Hw Hfree HL Hpg Hsz [H24 HnB] H4 Hu]. unfold walCheckpoint. rewrite H24.
  set (first := if nB <? mxFrame (hdr w) then _ else _).
  assert (∃ out rc xB w1 db' mx nB', first = Some (out, rc, xB, w1, db') ∧ mild w w1 ∧ attached w1 P ∧ get_word w1 24 = Some nB' ∧
    copied P (mxFrame (hdr w)) nB mx (nPage (hdr w)) (walPagesize w) (content (pWalFd w)) (content db) (content db') ∧
    (out = true → rc ≠ SQLITE_OK) ∧
    (content db' ≠ content db → mx ≤ mxFrame (hdr w) ∧ ∀ j, 1 ≤ j < WAL_NREADER → ∃ y, get_word w1 (25 + j) = Some y ∧ mx ≤ y) ∧
    (nB' = nB ∨ nB' = mx ∧ mx ≤ mxFrame (hdr w) ∧ ∀ q f, eligible P (mxFrame (hdr w)) nB mx (nPage (hdr w)) q f →
       db_page (content db') (walPagesize w) q = frame_bytes (content (pWalFd w)) (walPagesize w) f))
    as (out & rc & xB & w1 & db' & mx & nB' & -> & Hm1 & Hw1 & H24' & Hc & Hout & Hmarks & Hcopy).
  { unfold first. destruct (Z.ltb_spec nB (mxFrame (hdr w))) as [Hlt|Hge].
    - destruct (ckpt_backfill_spec w P nB db xBusy sync mem intr mf Hck Hlt)
        as (out & rc & xB & w1 & db' & mx & nB' & E & Hm1 & Hw1 & Hmx & E24 & _ & Hc & Hout & Hmarks & Hcopy).
      exists out, rc, xB, w1, db', mx, nB'. split_and!; try done; [by intros E1; apply Hout|..].
      + intros Hd. split; [done|]. destruct out; [by destruct (Hout eq_refl)|by apply Hmarks].
      + destruct Hcopy as [?|[? ?]]; [by left|by right].
    - exists false, SQLITE_OK, xBusy, w, db, 0, nB. split_and!; auto using mild_refl, copied_refl; done. }
  destruct (mild_fields _ _ Hm1) as (Eh & Ehd & _ & _ & Elog & _).
  destruct out.
  { exists rc, w1, db', mx, w1, nB'. specialize (Hout eq_refl). split_and!; try done. by left. }
  destruct ((rc =? SQLITE_OK) && negb (eMode =? SQLITE_CHECKPOINT_PASSIVE)) eqn:Ego.
  2: { exists rc, w1, db', mx, w1, nB'. split_and!; try done.
       - intros Hne ->. rewrite Z.eqb_refl in Ego. by destruct (Z.eqb_spec eMode SQLITE_CHECKPOINT_PASSIVE).
       - intros -> ->. done.
       - by left. }
  destruct (ckpt_restart_spec w1 P nB' eMode xB salt1) as (rc2 & w2 & -> & Ehd2 & Hok & Hsame & Htr & Hover);
    [done|unfold free; by rewrite Ehd|by rewrite Eh|done|].
  rewrite Eh in Hok, Htr, Hover. exists rc2, w2, db', mx, w1, nB'. split; [done|]. split; [congruence|]. split_and!; try done.
  - intros Hne. destruct (Hsame Hne) as [??]. split; [by eapply mild_trans|done].
  - intros Et. destruct (Hover Et) as [[? ?]|(? & w3 & E3 & Ef & ?)]; [left; split; [by eapply mild_trans|done]|right]. split; [done|].
    exists w3. split; [done|]. split; [by rewrite Ef|done].
Qed.




(** The page comes from the frame that is found, or from the database file. *)
Lemma page_seen_bytes r w P db log sz nB q : reads r P log sz nB → index w P → 0 ≤ mxFrame (hdr r) ≤ Z.of_nat (length P) → 512 ≤ sz → 1 ≤ q →
  ∃ f rc v, last_frame P q (minFrame r) (mxFrame (hdr r)) f ∧
    page_seen r w db q = Some (rc, if f =? 0 then db_page (content db) sz q else frame_bytes log sz f, v).
Proof.
  intros Hr Hi Hmx Hsz Hq.
  destruct (find_frame (view r w) P q) as (f & E & Hf); [apply index_view; [apply Hr|done]|done|pose proof (rd_range _ _ _ _ _ Hr); cbn; lia|apply Hr|].
  change (sqlite3WalFindFrame (view r w) q = Some (SQLITE_OK, f, view r w)) in E.
  assert (0 ≤ (q - 1) * sz) by nia. assert (0 ≤ f) by (destruct Hf as [[-> _]|[? _]]; lia).
  set (buf := if f =? 0 then db_page (content db) sz q else frame_bytes log sz f).
  assert (length buf = Z.to_nat sz) as Hl by (unfold buf; destruct (f =? 0); apply bytes_at_length).
  enough (∃ rc, page_seen r w db q = (if q =? 1 then if negb (rc =? SQLITE_OK) then Some (rc, buf, replicate 16 0xff)
    else let* v := sub buf 24 16 in Some (rc, buf, v) else Some (rc, buf, []))) as [rc Ep].
  { pose proof (sub_take buf 24 16 ltac:(lia)) as Ev. change (Z.of_nat 24) with 24 in Ev. change (Z.of_nat 16) with 16 in Ev. rewrite Ev in Ep.
    destruct (q =? 1); [destruct (negb (rc =? SQLITE_OK))|]; by eexists f, rc, _. }
  unfold page_seen, readDbPage. rewrite E, Z.eqb_refl, (rd_size _ _ _ _ _ Hr). cbn [negb]. unfold buf. destruct (Z.eqb_spec f 0) as [->|]; cbn [negb].
  - destruct (read_bytes (mk_file (content db) []) sz ((q - 1) * sz)) as (rc & fd & -> & _); [lia|done|]. by eexists.
  - unfold sqlite3WalReadFrame. change (pWalFd (view r w)) with (pWalFd r). rewrite (rd_log _ _ _ _ _ Hr).
    change (Z.land (hdr_szPage (hdr (view r w))) 65024 + Z.shiftl (Z.land (hdr_szPage (hdr (view r w))) 1) 16) with (walPagesize r).
    rewrite (rd_size _ _ _ _ _ Hr), Z.ltb_irrefl.
    destruct (read_bytes (mk_file log []) sz (walFrameOffset f sz + WAL_FRAME_HDRSIZE)) as (rc & fd & -> & _);
      [lia|unfold walFrameOffset, WAL_FRAME_HDRSIZE, WAL_HDRSIZE; nia|].
    rewrite bytes_at_length, drop_ge, app_nil_r by (rewrite length_replicate; lia). by eexists.
Qed.

(** C14: a checkpoint in a mode but PASSIVE that reports success leaves a
    database file that is whole without the log: each page is what a reader
    of the whole log got before.  In mode TRUNCATE the log is empty, and the
    header of the index, with a new salt, says so. *)
Theorem wal_checkpoint_complete w P nB db eMode xBusy sync mem intr mf salt1 w' db' :
  ckpt_ready w P nB → eMode ≠ SQLITE_CHECKPOINT_PASSIVE →
  walCheckpoint w db eMode xBusy sync mem intr mf salt1 = Some (SQLITE_OK, w', db') →
  (∀ r pgno, reads r P (content (pWalFd w)) (walPagesize w) nB → minFrame r = nB + 1 → mxFrame (hdr r) = mxFrame (hdr w) →
     1 ≤ pgno ≤ nPage (hdr w) → ∃ rc v, page_seen r w db pgno = Some (rc, db_page (content db') (walPagesize w) pgno, v)) ∧
  (eMode = SQLITE_CHECKPOINT_TRUNCATE → content (pWalFd w') = [] ∧ index w' [] ∧ posted w' ∧ get_word w' 24 = Some 0 ∧
     mxFrame (hdr w') = 0 ∧ ∃ s, next_salt (aSalt (hdr w)).1 = Some s ∧ aSalt (hdr w') = (s, salt1)).
Proof.
  intros Hck Hmode Ecall. destruct (walCheckpoint_spec w P nB db eMode xBusy sync mem intr mf salt1 Hck)
    as (rc & w0 & db0 & mx & w1 & nB' & E & _ & _ & _ & _ & Hc & _ & Hcopy & _ & Hall & Htr & _).
  rewrite Ecall in E. injection E as <- <- <-. specialize (Hall Hmode eq_refl).
  destruct Hck as [Hw _ HL Hpg Hsz [_ HnB] _ _]. split.
  - intros r q Hr Hmin Hs Hq.
    destruct (page_seen_bytes r w P db (content (pWalFd w)) (walPagesize w) nB q Hr (a_index _ _ Hw)) as (f & rc & v & Hf & ->); [lia|done|lia|].
    exists rc, v. do 3 f_equal. rewrite Hmin, Hs in Hf.
    assert (Hel : ∀ g, eligible P (mxFrame (hdr w)) nB mx (nPage (hdr w)) q g → g = f).
    { intros g [Hg Hel]. destruct Hf as [[-> Hf]|(Hf1 & Hf2 & Hf)]; [destruct Hg as [Hg _]; exfalso; apply (Hf g); [lia|lia|done]|].
      apply (last_at_unique P (mxFrame (hdr w)) q g f); [lia|lia|done|exact Hf]. }
    destruct (Z.eqb_spec f 0) as [->|Hne].
    + symmetry. destruct (Hc q ltac:(lia) ltac:(right; lia)) as [->|(g & Hg & _)]; [done|]. pose proof (Hel g Hg) as ->. destruct Hg as (_ & Hg & _). lia.
    + destruct Hf as [[? _]|(Hf1 & Hf2 & Hf)]; [done|]. destruct Hcopy as [->|(-> & Hmx & Hcopy)]; [lia|].
      symmetry. apply Hcopy. split; [exact Hf|lia].
  - intros Et. destruct (Htr Et eq_refl) as (H1 & [H2 _] & H3). exact (conj H1 (conj H2 H3)).
Qed.

(** *** At concrete inputs *)

(** Three frames of 512 bytes in the log, for the pages 5, 7 and 5 of a
    database of seven pages; the second read mark is at the frame 2, and the
    connection that holds it keeps its lock. *)
Definition log_hdr : WalIndexHdr := mk_hdr 3007000 0 0 1 0 512 3 7 (0, 0) (0, 0) (0, 0).

Definition three_frames : bytes := flat_map (λ x, replicate 536 x) [1; 2; 3].

Definition logged (mark : Z) (locks : list Z) : option Wal :=
  let* w := walIndexWriteHdr (set_hdr written log_hdr) in
  let* w := set_word w 27 mark in
  Some (set_pWalFd (set_shm_locks w locks) (mk_file (replicate 32 0 ++ three_frames) [])).

Lemma logged_ready mark locks : ∃ w, logged mark locks = Some w ∧ ckpt_ready w [5; 7; 5] 0 ∧ nPage (hdr w) = 7 ∧ mxFrame (hdr w) = 3 ∧
  walPagesize w = 512 ∧ content (pWalFd w) = replicate 32 0 ++ three_frames.
Proof.
  pose proof (index_hdr written log_hdr [5; 7; 5] written_index) as Hi.
  assert (∃ p, get_page (set_hdr written log_hdr) 0 = Some p) as [p Hp].
  { destruct (get_page (set_hdr written log_hdr) 0) as [p|] eqn:E; [by exists p|]. apply (f_equal not_null) in E. by vm_compute in E. }
  assert (is_u8 0) as Hz by (unfold is_u8; lia).
  destruct (walIndexWriteHdr_spec (set_hdr written log_hdr) [5; 7; 5] p Hi Hp Hz) as (w & p' & a & E & Ew & Hi' & Hl).
  pose proof (live_posted _ _ Hl) as Hpo. assert (attached w [5; 7; 5]) as Hw by (split; [done|exists p'; apply Hl]).
  destruct (posted_set w [5; 7; 5] 27 mark Hw Hpo) as (w2 & E2 & [a2 Ea2] & Hw2 & Hpo2 & _ & Hj); [lia|].
  unfold logged. rewrite E, E2. eexists. split; [done|].
  assert (hdr w2 = published log_hdr) as Eh by (by rewrite Ea2, Ew).
  assert (held w2 = []) as Ehd by (rewrite Ea2, Ew; by vm_compute).
  assert (get_word w2 24 = Some 0) as E24.
  { rewrite Hj by done. apply (f_equal (λ o, o ≫= λ w, get_word w 24)) in E. cbn [mbind option_bind] in E. rewrite <- E. by vm_compute. }
  destruct Hpo2 as [Hwords _]. specialize (Hwords 4 ltac:(lia)). rewrite Eh in Hwords.
  assert (nPage (hdr w2) = 7 ∧ mxFrame (hdr w2) = 3 ∧ walPagesize w2 = 512) as (En & Em & Esz) by (unfold walPagesize; rewrite Eh; by split_and!).
  split; [|exact (conj En (conj Em (conj Esz eq_refl)))]. set (w3 := set_pWalFd _ _).
  assert (hdr w3 = published log_hdr) as Eh3 by exact Eh. clear E E2 Hp.
  split; rewrite ?Eh3.
  - apply (attached_eq w2); [reflexivity|reflexivity|exact Hw2].
  - intros r Hr. change (r ∈ held w2) in Hr. rewrite Ehd in Hr. by apply elem_of_nil in Hr.
  - cbn. lia.
  - intros f Hf. change (mxFrame (published log_hdr)) with 3 in Hf. assert (f = 1 ∨ f = 2 ∨ f = 3) as [->|[->| ->]] by lia; split; reflexivity.
  - unfold walPagesize. rewrite Eh3. discriminate.
  - split; [exact E24|discriminate].
  - exact Hwords.
  - exact Hz.
Qed.

Definition snapshot (n m : Z) : Wal :=
  mk_wal [] 2 0 0 0 0 (mk_hdr 3007000 0 0 1 0 512 n 7 (0, 0) (0, 0) (0, 0)) m 0 0 [] 512 0 (mk_file (replicate 32 0 ++ three_frames) []) [] [] 0 0 0 0 (-1) [2] [].


Lemma wal_checkpoint_complete_witness : ∃ w w' db', logged 3 [] = Some w ∧
  walCheckpoint w (mk_file [] []) 3 None 0 true [] false 9 = Some (SQLITE_OK, w', db') ∧
  (∃ rc v, page_seen (snapshot 3 1) w (mk_file [] []) 5 = Some (rc, db_page (content db') 512 5, v)) ∧ content (pWalFd w') = [].
Proof.
  destruct (logged_ready 3 []) as (w & E & Hw & Hn & Hm & Esz & Ec).
  assert (option_map (λ x, x.1.1) (logged 3 [] ≫= λ w, walCheckpoint w (mk_file [] []) 3 None 0 true [] false 9) = Some SQLITE_OK) as Ew by (by vm_compute).
  rewrite E in Ew. cbn [mbind option_bind] in Ew.
  destruct (walCheckpoint w (mk_file [] []) 3 None 0 true [] false 9) as [[[rc w'] db']|] eqn:E'; [|discriminate Ew].
  injection Ew as ->.
  destruct (wal_checkpoint_complete w [5; 7; 5] 0 (mk_file [] []) 3 None 0 true [] false 9 w' db' Hw) as [H1 H2]; [discriminate|exact E'|].
  rewrite Ec, Esz in H1. exists w, w', db'. split; [exact E|]. split; [exact E'|]. split.
  - apply H1; [split; [cbn; lia|by left|constructor|done|by vm_compute]|done|by rewrite Hm|rewrite Hn; lia].
  - by apply H2.
Defined.

End WalCkpt.
