(* ===== verification/WalRead.v ===== *)
(** * Read transactions ([native/sqlite3/sqlite3.c], wal.c)

    How a connection gets the header of the index, rebuilding it when it is
    corrupt, takes a snapshot and a read mark that protects it, becomes a
    writer, and gives its locks back.  Other connections write to the header
    of the index at any time; the theorems hold whatever they do, as long as
    they write only under the locks the protocol asks for. *)

From S2P Require Import Prelude WalIndex WalLog WalIter WalCkpt.

Module WalRead.

Import WalIndex WalLog WalIter WalCkpt.

(* native/sqlite3/sqlite3.c:66437-66438 WAL_NORMAL_MODE *)
Definition WAL_NORMAL_MODE : Z := 0.
Definition WAL_EXCLUSIVE_MODE : Z := 1.
Definition SQLITE_PROTOCOL : Z := 15.
(* native/sqlite3/sqlite3.c:855-856 SQLITE_BUSY_RECOVERY *)
Definition SQLITE_BUSY_RECOVERY : Z := Z.lor SQLITE_BUSY (Z.shiftl 1 8).
Definition SQLITE_BUSY_SNAPSHOT : Z := Z.lor SQLITE_BUSY (Z.shiftl 2 8).
Definition SQLITE_READONLY_RECOVERY : Z := Z.lor SQLITE_READONLY (Z.shiftl 1 8).
Definition SQLITE_READONLY_CANTINIT : Z := Z.lor SQLITE_READONLY (Z.shiftl 5 8).
(* native/sqlite3/sqlite3.c:68500-68504 WAL_RETRY *)
Definition WAL_RETRY : Z := -1.
(* native/sqlite3/sqlite3.c:68821-68821 WAL_RETRY_PROTOCOL_LIMIT *)
Definition WAL_RETRY_PROTOCOL_LIMIT : Z := 100.

(** ** Shared locks *)

(* native/sqlite3/sqlite3.c:66950-66969 walLockShared *)
Definition walLockShared (pWal : Wal) (lockIdx : Z) : Z * Wal :=
  if negb (exclusiveMode pWal =? 0) then (SQLITE_OK, pWal) else
  let '(rc, l) := next_code (shm_locks pWal) in
  let pWal := set_shm_locks pWal l in
  (rc, if rc =? SQLITE_OK then set_held_shared pWal (lockIdx :: held_shared pWal) else pWal).

(* native/sqlite3/sqlite3.c:66970-66978 walUnlockShared *)
Definition walUnlockShared (pWal : Wal) (lockIdx : Z) : Wal :=
  if negb (exclusiveMode pWal =? 0) then pWal
  else set_held_shared pWal (filter (λ l, l ≠ lockIdx) (held_shared pWal)).

(** ** The end of a transaction *)

(* native/sqlite3/sqlite3.c:69603-69615 sqlite3WalEndWriteTransaction *)
Definition sqlite3WalEndWriteTransaction (pWal : Wal) : Wal :=
  if negb (writeLock pWal =? 0) then
    let pWal := walUnlockExclusive pWal WAL_WRITE_LOCK 1 in
    set_truncateOnCommit (set_iReCksum (set_writeLock pWal 0) 0) 0
  else pWal.

(* native/sqlite3/sqlite3.c:69360-69373 sqlite3WalEndReadTransaction *)
Definition sqlite3WalEndReadTransaction (pWal : Wal) : Wal :=
  if 0 <=? readLock pWal then
    let pWal := sqlite3WalEndWriteTransaction pWal in
    set_readLock (walUnlockShared pWal (WAL_READ_LOCK (readLock pWal))) (-1)
  else pWal.

(** ** The header of the index *)

(** The pages in memory of its own are freed. *)
Definition free_pages (pWal : Wal) : Wal := set_apWiData pWal (map (λ _, None) (apWiData pWal)).

(** Without the call that unmaps a shared index. *)
(* native/sqlite3/sqlite3.c:67488-67502 walIndexClose *)
Definition walIndexClose (pWal : Wal) : Wal :=
  if (exclusiveMode pWal =? WAL_HEAPMEMORY_MODE) || negb (bShmUnreliable pWal =? 0) then free_pages pWal else pWal.

(** With the write lock, or after it could not be had: the result, whether the
    header is bad, [*pChanged]. *)
(* native/sqlite3/sqlite3.c:68570-68596 walIndexReadHdr, with the write lock *)
Definition read_locked (pWal : Wal) (rc pChanged : Z) (mem : option page) : option (Z * Z * Z * Wal) :=
  let bWriteLock := writeLock pWal in
  let '(rc, pWal) := if negb (bWriteLock =? 0) then (rc, pWal) else walLockExclusive pWal WAL_WRITE_LOCK 1 in
  if negb (bWriteLock =? 0) || (rc =? SQLITE_OK) then
    let pWal := if bWriteLock =? 0 then set_writeLock pWal 2 else pWal in
    let* (rc, _, pWal) := walIndexPage pWal 0 in
    let* (rc, badHdr, pChanged, pWal) :=
      if rc =? SQLITE_OK then
        let* (badHdr, pChanged, pWal) := walIndexTryHdr pWal pChanged in
        if negb (badHdr =? 0) then
          let* (rc, pWal) := walIndexRecover pWal mem in Some (rc, badHdr, 1, pWal)
        else Some (rc, badHdr, pChanged, pWal)
      else Some (rc, 1, pChanged, pWal) in
    Some (rc, badHdr, pChanged, if bWriteLock =? 0 then walUnlockExclusive (set_writeLock pWal 0) WAL_WRITE_LOCK 1 else pWal)
  else Some (rc, 1, pChanged, pWal).

(** The result, [*pChanged], the connection. *)
(* native/sqlite3/sqlite3.c:68506-68621 walIndexReadHdr *)
Definition walIndexReadHdr (pWal : Wal) (pChanged : Z) (mem : option page) : option (Z * Z * Wal) :=
  let* (rc, page0, pWal) := walIndexPage pWal 0 in
  if negb (rc =? SQLITE_OK) && negb (rc =? SQLITE_READONLY_CANTINIT) then Some (rc, pChanged, pWal) else
  let '(pChanged, pWal) :=
    if negb (rc =? SQLITE_OK) then (1, set_exclusiveMode (set_bShmUnreliable pWal 1) WAL_HEAPMEMORY_MODE) else (pChanged, pWal) in
  let* (badHdr, pChanged, pWal) := if page0 : bool then walIndexTryHdr pWal pChanged else Some (1, pChanged, pWal) in
  let* (rc, badHdr, pChanged, pWal) :=
    if negb (badHdr =? 0) then
      if (bShmUnreliable pWal =? 0) && negb (Z.land (readOnly pWal) WAL_SHM_RDONLY =? 0) then
        let '(rc, pWal) := walLockShared pWal WAL_WRITE_LOCK in
        if rc =? SQLITE_OK then Some (SQLITE_READONLY_RECOVERY, badHdr, pChanged, walUnlockShared pWal WAL_WRITE_LOCK)
        else Some (rc, badHdr, pChanged, pWal)
      else read_locked pWal rc pChanged mem
    else Some (rc, badHdr, pChanged, pWal) in
  let rc := if (badHdr =? 0) && negb (iVersion (hdr pWal) =? WALINDEX_MAX_VERSION) then SQLITE_CANTOPEN else rc in
  if negb (bShmUnreliable pWal =? 0) then
    let '(rc, pWal) :=
      if negb (rc =? SQLITE_OK) then
        (if rc =? SQLITE_IOERR_SHORT_READ then WAL_RETRY else rc, set_bShmUnreliable (walIndexClose pWal) 0)
      else (rc, pWal) in
    Some (rc, pChanged, set_exclusiveMode pWal WAL_NORMAL_MODE)
  else Some (rc, pChanged, pWal).

(** ** An index in memory of its own *)

(** The frames behind the snapshot, until one ends a transaction. *)
(* native/sqlite3/sqlite3.c:68759-68778 walBeginShmUnreliable, the loop over frames *)
Fixpoint later_frames (fuel : nat) (pWal : Wal) (szFrame iOffset szWal rc : Z) : option (Z * Wal) :=
  match fuel with
  | O => None
  | S fuel =>
      if iOffset + szFrame <=? szWal then
        let '(rc, aFrame, f) := sqlite3OsRead (pWalFd pWal) szFrame iOffset in
        let pWal := set_pWalFd pWal f in
        if negb (rc =? SQLITE_OK) then Some (rc, pWal) else
        let* (v, pWal) := walDecodeFrame pWal (drop (Z.to_nat WAL_FRAME_HDRSIZE) aFrame) (take (Z.to_nat WAL_FRAME_HDRSIZE) aFrame) in
        match v with
        | None => Some (rc, pWal)
        | Some (_, nTruncate) =>
            if negb (nTruncate =? 0) then Some (WAL_RETRY, pWal)
            else later_frames fuel pWal szFrame (iOffset + szFrame) szWal rc
        end
      else Some (rc, pWal)
  end.

(** Between the lock and [begin_unreliable_shm_out]. *)
(* native/sqlite3/sqlite3.c:68697-68780 walBeginShmUnreliable *)
Definition unreliable_check (pWal : Wal) (pChanged : Z) (alloc : bool) : option (Z * Z * Wal) :=
  let '(rc, rest) := match answers pWal with [] => (SQLITE_NOMEM, []) | a :: rest => (shm_rc a, rest) end in
  let pWal := set_answers pWal rest in
  if negb (rc =? SQLITE_READONLY_CANTINIT) then Some (if rc =? SQLITE_READONLY then WAL_RETRY else rc, pChanged, pWal) else
  let* h := walIndexHdr pWal in
  let pWal := set_hdr pWal h in
  let '(rc, szWal, f) := sqlite3OsFileSize (pWalFd pWal) in
  let pWal := set_pWalFd pWal f in
  if negb (rc =? SQLITE_OK) then Some (rc, pChanged, pWal) else
  if szWal <? WAL_HDRSIZE then Some (if mxFrame (hdr pWal) =? 0 then SQLITE_OK else WAL_RETRY, 1, pWal) else
  let '(rc, aBuf, f) := sqlite3OsRead (pWalFd pWal) WAL_HDRSIZE 0 in
  let pWal := set_pWalFd pWal f in
  if negb (rc =? SQLITE_OK) then Some (rc, pChanged, pWal) else
  let* salt := sub aBuf 16 8 in
  if negb (bool_decide (salt_bytes (aSalt (hdr pWal)) = salt)) then Some (WAL_RETRY, pChanged, pWal) else
  let szFrame := szPage pWal + WAL_FRAME_HDRSIZE in
  if negb alloc then Some (SQLITE_NOMEM, pChanged, pWal) else
  let aSaveCksum := WalIndex.aFrameCksum (hdr pWal) in
  let* (rc, pWal) := later_frames (S (Z.to_nat szWal)) pWal szFrame (walFrameOffset (mxFrame (hdr pWal) + 1) (szPage pWal)) szWal rc in
  Some (rc, pChanged, set_hdr pWal (set_aFrameCksum (hdr pWal) aSaveCksum)).

(** The answer of [xShmMap] is the next one; the page it gives is not looked
    at.  [alloc] says whether there is memory for a frame. *)
(* native/sqlite3/sqlite3.c:68623-68795 walBeginShmUnreliable *)
Definition walBeginShmUnreliable (pWal : Wal) (pChanged : Z) (alloc : bool) : option (Z * Z * Wal) :=
  let '(rc, pWal) := walLockShared pWal (WAL_READ_LOCK 0) in
  let* (rc, pChanged, pWal) :=
    if negb (rc =? SQLITE_OK) then Some (if rc =? SQLITE_BUSY then WAL_RETRY else rc, pChanged, pWal)
    else unreliable_check (set_readLock pWal 0) pChanged alloc in
  if negb (rc =? SQLITE_OK) then
    Some (rc, 1, sqlite3WalEndReadTransaction (set_bShmUnreliable (free_pages pWal) 0))
  else Some (rc, pChanged, pWal).

(** ** A read mark *)

(** [memcmp] of the shared header with the private one. *)
Definition hdr_differs (pWal : Wal) : option bool :=
  let* p := get_page pWal 0 in
  let* w := sub (words p) 0 12 in
  Some (negb (bool_decide (w = hdr_words (hdr pWal)))).

(** The largest mark that is not past the snapshot, and its number. *)
(* native/sqlite3/sqlite3.c:69040-69047 walTryBeginRead, the loop over read marks *)
Fixpoint best_mark (n : nat) (pWal : Wal) (i mx mxReadMark mxI : Z) : option (Z * Z * Wal) :=
  match n with
  | O => Some (mxReadMark, mxI, pWal)
  | S n =>
      let pWal := others_write pWal in
      let* thisMark := get_word pWal (25 + i) in
      if (mxReadMark <=? thisMark) && (thisMark <=? mx) then best_mark n pWal (i + 1) mx thisMark i
      else best_mark n pWal (i + 1) mx mxReadMark mxI
  end.

(** A mark that nobody uses is set: whether to give up, the result, the mark
    and its number. *)
(* native/sqlite3/sqlite3.c:69051-69063 walTryBeginRead, the loop that sets a mark *)
Fixpoint claim_mark (n : nat) (pWal : Wal) (i mx mxReadMark mxI rc : Z) : option (bool * Z * Z * Z * Wal) :=
  match n with
  | O => Some (false, rc, mxReadMark, mxI, pWal)
  | S n =>
      let '(rc, pWal) := walLockExclusive pWal (WAL_READ_LOCK i) 1 in
      if rc =? SQLITE_OK then
        let* pWal := set_word pWal (25 + i) mx in
        Some (false, rc, mx, i, walUnlockExclusive pWal (WAL_READ_LOCK i) 1)
      else if negb (rc =? SQLITE_BUSY) then Some (true, rc, mxReadMark, mxI, pWal)
      else claim_mark n pWal (i + 1) mx mxReadMark mxI rc
  end.

(** From the moment the header is there: whether the log is to be ignored
    because all of it is in the database file. *)
(* native/sqlite3/sqlite3.c:68992-69025 walTryBeginRead, without the log *)
Definition begin_without_log (pWal : Wal) (useWal : bool) : option (bool * Z * Wal) :=
  if useWal then Some (false, SQLITE_OK, pWal) else
  let pWal := others_write pWal in
  let* nBackfill := get_word pWal 24 in
  if nBackfill =? mxFrame (hdr pWal) then
    let '(rc, pWal) := walLockShared pWal (WAL_READ_LOCK 0) in
    if rc =? SQLITE_OK then
      let pWal := others_write pWal in
      let* differs := hdr_differs pWal in
      if differs : bool then Some (true, WAL_RETRY, walUnlockShared pWal (WAL_READ_LOCK 0))
      else Some (true, SQLITE_OK, set_readLock pWal 0)
    else Some (negb (rc =? SQLITE_BUSY), rc, pWal)
  else Some (false, SQLITE_OK, pWal).

(** Locking the mark, and looking again. *)
(* native/sqlite3/sqlite3.c:69069-69127 walTryBeginRead, the lock *)
Definition begin_lock (pWal : Wal) (mxReadMark mxI : Z) : option (Z * Wal) :=
  let '(rc, pWal) := walLockShared pWal (WAL_READ_LOCK mxI) in
  if negb (rc =? SQLITE_OK) then Some (if Z.land rc 0xff =? SQLITE_BUSY then WAL_RETRY else rc, pWal) else
  let pWal := others_write pWal in
  let* nBackfill := get_word pWal 24 in
  let pWal := set_minFrame pWal (u32 (nBackfill + 1)) in
  let pWal := others_write pWal in
  let* mark := get_word pWal (25 + mxI) in
  let pWal := others_write pWal in
  let* differs := hdr_differs pWal in
  if negb (mark =? mxReadMark) || differs then Some (WAL_RETRY, walUnlockShared pWal (WAL_READ_LOCK mxI))
  else Some (rc, set_readLock pWal mxI).

(* native/sqlite3/sqlite3.c:68983-69129 walTryBeginRead, with the header *)
Definition begin_mark (pWal : Wal) (useWal : bool) : option (Z * Wal) :=
  let* (ended, rc, pWal) := begin_without_log pWal useWal in
  if ended : bool then Some (rc, pWal) else
  let mx := mxFrame (hdr pWal) in
  let* (mxReadMark, mxI, pWal) := best_mark (Z.to_nat (WAL_NREADER - 1)) pWal 1 mx 0 0 in
  let* (out, rc, mxReadMark, mxI, pWal) :=
    if (Z.land (readOnly pWal) WAL_SHM_RDONLY =? 0) && ((mxReadMark <? mx) || (mxI =? 0))
    then claim_mark (Z.to_nat (WAL_NREADER - 1)) pWal 1 mx mxReadMark mxI rc
    else Some (false, rc, mxReadMark, mxI, pWal) in
  if out : bool then Some (rc, pWal) else
  if mxI =? 0 then Some (if rc =? SQLITE_BUSY then WAL_RETRY else SQLITE_READONLY_CANTINIT, pWal) else
  begin_lock pWal mxReadMark mxI.

(** [BUSY] while the header was read: whether somebody recovers. *)
(* native/sqlite3/sqlite3.c:68958-68972 walTryBeginRead, a busy index *)
Definition begin_busy (pWal : Wal) : option (Z * Wal) :=
  let* p := rd (apWiData pWal) 0 in
  if negb (not_null p) then Some (WAL_RETRY, pWal) else
  let '(rc, pWal) := walLockShared pWal WAL_RECOVER_LOCK in
  if rc =? SQLITE_OK then Some (WAL_RETRY, walUnlockShared pWal WAL_RECOVER_LOCK)
  else Some (if rc =? SQLITE_BUSY then SQLITE_BUSY_RECOVERY else rc, pWal).

(** The result, [*pChanged], [*pCnt], the connection.  The delay before a new
    try is left out.  [mem] is the memory for a page of the index and whether
    there is some for a frame. *)
(* native/sqlite3/sqlite3.c:68828-69130 walTryBeginRead *)
Definition walTryBeginRead (pWal : Wal) (pChanged : Z) (useWal : bool) (pCnt : Z) (mem : option page * bool) : option (Z * Z * Z * Wal) :=
  let pCnt := pCnt + 1 in
  if (5 <? pCnt) && (WAL_RETRY_PROTOCOL_LIMIT <? pCnt) then Some (SQLITE_PROTOCOL, pChanged, pCnt, pWal) else
  if useWal then
    let* (rc, pWal) := begin_mark pWal useWal in Some (rc, pChanged, pCnt, pWal)
  else
    let* (rc, pChanged, pWal) :=
      if bShmUnreliable pWal =? 0 then walIndexReadHdr pWal pChanged mem.1 else Some (SQLITE_OK, pChanged, pWal) in
    let* (rc, pWal) := if rc =? SQLITE_BUSY then begin_busy pWal else Some (rc, pWal) in
    if negb (rc =? SQLITE_OK) then Some (rc, pChanged, pCnt, pWal) else
    if negb (bShmUnreliable pWal =? 0) then
      let* (rc, pChanged, pWal) := walBeginShmUnreliable pWal pChanged mem.2 in Some (rc, pChanged, pCnt, pWal)
    else
      let* (rc, pWal) := begin_mark pWal useWal in Some (rc, pChanged, pCnt, pWal).

(** Trying until it is not to be tried again. *)
(* native/sqlite3/sqlite3.c:69269-69271 walBeginReadTransaction, the loop *)
Fixpoint try_begin (fuel : nat) (pWal : Wal) (pChanged : Z) (useWal : bool) (cnt : Z) (mem : Z → option page * bool) : option (Z * Z * Wal) :=
  match fuel with
  | O => None
  | S fuel =>
      let* (rc, pChanged, cnt, pWal) := walTryBeginRead pWal pChanged useWal cnt (mem cnt) in
      if rc =? WAL_RETRY then try_begin fuel pWal pChanged useWal cnt mem else Some (rc, pChanged, pWal)
  end.

(* native/sqlite3/sqlite3.c:69337-69358 sqlite3WalBeginReadTransaction *)
Definition sqlite3WalBeginReadTransaction (pWal : Wal) (pChanged : Z) (mem : Z → option page * bool) : option (Z * Z * Wal) :=
  try_begin (S (Z.to_nat WAL_RETRY_PROTOCOL_LIMIT)) pWal pChanged false 0 mem.

(** ** Writers *)

(* native/sqlite3/sqlite3.c:69541-69601 sqlite3WalBeginWriteTransaction *)
Definition sqlite3WalBeginWriteTransaction (pWal : Wal) : option (Z * Wal) :=
  if negb (readOnly pWal =? 0) then Some (SQLITE_READONLY, pWal) else
  let '(rc, pWal) := walLockExclusive pWal WAL_WRITE_LOCK 1 in
  if negb (rc =? SQLITE_OK) then Some (rc, pWal) else
  let pWal := set_writeLock pWal 1 in
  let pWal := others_write pWal in
  let* differs := hdr_differs pWal in
  if differs : bool then Some (SQLITE_BUSY_SNAPSHOT, set_writeLock (walUnlockExclusive pWal WAL_WRITE_LOCK 1) 0)
  else Some (rc, pWal).

(** A null pointer is [None]. *)
(* native/sqlite3/sqlite3.c:69530-69538 sqlite3WalDbsize *)
Definition sqlite3WalDbsize (pWal : option Wal) : Z :=
  match pWal with Some pWal => if 0 <=? readLock pWal then nPage (hdr pWal) else 0 | None => 0 end.

(* native/sqlite3/sqlite3.c:70283-70295 sqlite3WalCallback *)
Definition sqlite3WalCallback (pWal : option Wal) : Z * option Wal :=
  match pWal with Some pWal => (i32 (iCallback pWal), Some (set_iCallback pWal 0)) | None => (0, None) end.

(* native/sqlite3/sqlite3.c:70360-70367 sqlite3WalHeapMemory *)
Definition sqlite3WalHeapMemory (pWal : option Wal) : bool :=
  match pWal with Some pWal => exclusiveMode pWal =? WAL_HEAPMEMORY_MODE | None => false end.

(* native/sqlite3/sqlite3.c:70297-70358 sqlite3WalExclusiveMode *)
Definition sqlite3WalExclusiveMode (pWal : Wal) (op : Z) : Z * Wal :=
  if op =? 0 then
    if negb (exclusiveMode pWal =? WAL_NORMAL_MODE) then
      let '(rc, pWal) := walLockShared (set_exclusiveMode pWal WAL_NORMAL_MODE) (WAL_READ_LOCK (readLock pWal)) in
      let pWal := if negb (rc =? SQLITE_OK) then set_exclusiveMode pWal WAL_EXCLUSIVE_MODE else pWal in
      (if exclusiveMode pWal =? WAL_NORMAL_MODE then 1 else 0, pWal)
    else (0, pWal)
  else if 0 <? op then
    (1, set_exclusiveMode (walUnlockShared pWal (WAL_READ_LOCK (readLock pWal))) WAL_EXCLUSIVE_MODE)
  else (if exclusiveMode pWal =? WAL_NORMAL_MODE then 1 else 0, pWal).

(** ** Checkpoints *)

(** Once the locks are there: the header, and the copy, with what goes to
    [*pnLog] and [*pnCkpt].  [nBuf] is the size of the buffer for a page. *)
(* native/sqlite3/sqlite3.c:70225-70253 sqlite3WalCheckpoint *)
Definition checkpoint_locked (pWal : Wal) (pDbFd : file) (eMode : Z) (xBusy : option (list Z)) (sync_flags nBuf : Z)
    (mem : option page) (iter_mem : bool) (intr : list bool) (mallocFailed : bool) (salt1 : Z)
  : option (Z * Z * option (Z * Z) * Wal * file) :=
  let* (rc, isChanged, pWal) := walIndexReadHdr pWal 0 mem in
  if negb (rc =? SQLITE_OK) then Some (rc, isChanged, None, pWal, pDbFd) else
  let* (rc, pWal, pDbFd) :=
    if negb (mxFrame (hdr pWal) =? 0) && negb (walPagesize pWal =? nBuf) then Some (SQLITE_CORRUPT, pWal, pDbFd)
    else walCheckpoint pWal pDbFd eMode xBusy sync_flags iter_mem intr mallocFailed salt1 in
  if (rc =? SQLITE_OK) || (rc =? SQLITE_BUSY) then
    let pWal := others_write pWal in
    let* nBackfill := get_word pWal 24 in
    Some (rc, isChanged, Some (i32 (mxFrame (hdr pWal)), i32 nBackfill), pWal, pDbFd)
  else Some (rc, isChanged, None, pWal, pDbFd).

(* native/sqlite3/sqlite3.c:70146-70281 sqlite3WalCheckpoint *)
Definition sqlite3WalCheckpoint (pWal : Wal) (pDbFd : file) (eMode : Z) (xBusy : option (list Z)) (sync_flags nBuf : Z)
    (mem : option page) (iter_mem : bool) (intr : list bool) (mallocFailed : bool) (salt1 : Z)
  : option (Z * option (Z * Z) * Wal * file) :=
  if negb (readOnly pWal =? 0) then Some (SQLITE_READONLY, None, pWal, pDbFd) else
  let '(rc, pWal) := walLockExclusive pWal WAL_CKPT_LOCK 1 in
  let '(rc, eMode2, xBusy2, pWal) :=
    if rc =? SQLITE_OK then
      let pWal := set_ckptLock pWal 1 in
      if negb (eMode =? SQLITE_CHECKPOINT_PASSIVE) then
        let '(rc, xBusy2, pWal) := walBusyLock pWal xBusy WAL_WRITE_LOCK 1 in
        if rc =? SQLITE_OK then (rc, eMode, xBusy2, set_writeLock pWal 1)
        else if rc =? SQLITE_BUSY then (SQLITE_OK, SQLITE_CHECKPOINT_PASSIVE, None, pWal)
        else (rc, eMode, xBusy2, pWal)
      else (rc, eMode, xBusy, pWal)
    else (rc, eMode, xBusy, pWal) in
  let* (rc, isChanged, out, pWal, pDbFd) :=
    if rc =? SQLITE_OK
    then checkpoint_locked pWal pDbFd eMode2 xBusy2 sync_flags nBuf mem iter_mem intr mallocFailed salt1
    else Some (rc, 0, None, pWal, pDbFd) in
  let pWal := if negb (isChanged =? 0) then set_hdr pWal zero_hdr else pWal in
  let pWal := sqlite3WalEndWriteTransaction pWal in
  let pWal := if negb (ckptLock pWal =? 0) then set_ckptLock (walUnlockExclusive pWal WAL_CKPT_LOCK 1) 0 else pWal in
  Some (if (rc =? SQLITE_OK) && negb (eMode =? eMode2) then SQLITE_BUSY else rc, out, pWal, pDbFd).

(** ** What others write *)

Lemma other_write_spec w P x : attached w P → ∃ a, other_write w x = set_apWiData w a ∧ attached (other_write w x) P ∧
  ∀ i, guarded w i = true → get_word (other_write w x) i = get_word w i.
Proof.
  intros Hw. unfold other_write. destruct ((0 <=? x.1) && (x.1 <? 34) && negb (guarded w x.1)) eqn:E.
  - apply andb_true_iff in E as [Er Eg]. destruct (attached_set w P x.1 x.2 Hw) as (w' & -> & [a ->] & Hw' & _ & Hj); [lia|].
    exists a. split; [done|]. split; [done|]. intros i Hi. apply Hj. intros <-. by rewrite Hi in Eg.
  - exists (apWiData w). split; [by destruct w|done].
Qed.

Lemma other_writes_spec ws : ∀ w P, attached w P → ∃ a, foldl other_write w ws = set_apWiData w a ∧ attached (foldl other_write w ws) P ∧
  ∀ i, guarded w i = true → get_word (foldl other_write w ws) i = get_word w i.
Proof.
  induction ws as [|x ws IH]; intros w P Hw; cbn [foldl].
  - exists (apWiData w). split; [by destruct w|done].
  - destruct (other_write_spec w P x Hw) as (a & E & Hw1 & Hg). destruct (IH _ P Hw1) as (b & E' & Hw2 & Hg').
    exists b. split; [by rewrite E', E|]. split; [done|]. intros i Hi. rewrite Hg', Hg; [done|done|]. by rewrite E.
Qed.

Lemma others_write_spec w P : attached w P → ∃ a l, others_write w = set_others (set_apWiData w a) l ∧ attached (others_write w) P ∧
  ∀ i, exclusiveMode w ≠ 0 ∨ guarded w i = true → get_word (others_write w) i = get_word w i.
Proof.
  intros Hw. unfold others_write. destruct (others w) as [|ws l] eqn:Eo.
  { exists (apWiData w), (others w). split; [by destruct w|done]. }
  destruct (Z.eqb_spec (exclusiveMode w) 0) as [E0|].
  2: { exists (apWiData w), (others w). split; [by destruct w|done]. }
  destruct (other_writes_spec ws (set_others w l) P) as (a & E & Hw' & Hg); [by apply (attached_eq w)|].
  exists a, l. split; [by rewrite E|]. split; [done|]. intros i [?|Hi]; [done|by apply Hg].
Qed.

(** What no function here changes but the transactions. *)
Record passed (w w' : Wal) : Prop := {
  ps_fields : (readLock w', bShmUnreliable w', writeLock w', ckptLock w', held w', held_shared w', exclusiveMode w', content (pWalFd w')) =
    (readLock w, bShmUnreliable w, writeLock w, ckptLock w, held w, held_shared w, exclusiveMode w, content (pWalFd w));
  ps_answers : ∀ a, a ∈ answers w' → a ∈ answers w
}.

Lemma passed_refl w : passed w w.
Proof. by split. Qed.

Lemma passed_trans w1 w2 w3 : passed w1 w2 → passed w2 w3 → passed w1 w3.
Proof. intros [E1 H1] [E2 H2]. split; [congruence|auto]. Qed.

Lemma steady_passed w w' : steady w w' → held w' = held w → exclusiveMode w' = exclusiveMode w → content (pWalFd w') = content (pWalFd w) → passed w w'.
Proof. intros [E Ha] ???. split; [congruence|done]. Qed.

Lemma same_passed w w' : same w w' → passed w w'.
Proof. unfold same. intros H. destruct_and! H. apply steady_passed; congruence || done. Qed.

Lemma others_passed w P : attached w P → passed w (others_write w).
Proof. intros Hw. destruct (others_write_spec w P Hw) as (a & l & -> & _). by split. Qed.

Lemma attached_words w P o n : attached w P → 0 ≤ o → 0 ≤ n → o + n ≤ 4096 →
  ∃ p, get_page w 0 = Some p ∧ ∃ d, sub (words p) o n = Some d ∧ length d = Z.to_nat n.
Proof.
  intros [Hi [p Hp]] Ho Hn Hle. exists p. split; [done|]. destruct (i_shape _ _ Hi 0 p Hp) as [Hs _]. change (Z.to_nat HASHTABLE_NPAGE) with 4096%nat in Hs.
  pose proof (sub_take (words p) (Z.to_nat o) (Z.to_nat n)) as E. rewrite !Z2Nat.id in E by lia. rewrite E by lia. eexists. split; [done|].
  rewrite length_take, length_drop. lia.
Qed.

Lemma hdr_of_words_some d : length d = 12%nat → ∃ h, hdr_of_words d = Some h.
Proof. intros Hd. do 12 (destruct d as [|? d]; [done|]). destruct d; [|done]. by eexists. Qed.

Lemma walIndexTryHdr_spec w P ch : attached w P →
  ∃ bad ch' w', walIndexTryHdr w ch = Some (bad, ch', w') ∧ attached w' P ∧ passed w w'.
Proof.
  intros Hw. unfold walIndexTryHdr. pose proof (others_passed w P Hw) as Hp1. destruct (others_write_spec w P Hw) as (a1 & l1 & _ & Hw1 & _).
  set (w1 := others_write w) in *. pose proof (others_passed w1 P Hw1) as Hp2. destruct (others_write_spec w1 P Hw1) as (a2 & l2 & _ & Hw2 & _).
  destruct (attached_words w1 P 0 12 Hw1) as (p1 & -> & d1 & -> & L1); [lia..|].
  set (w2 := others_write w1) in *. destruct (attached_words w2 P 12 12 Hw2) as (p2 & -> & d2 & -> & L2); [lia..|].
  pose proof (passed_trans _ _ _ Hp1 Hp2) as Hp12.
  destruct (hdr_of_words_some d1) as [h Eh]; [done|]. rewrite Eh, cksum_words by (rewrite length_take, L1; done).
  repeat case_match; eexists _, _, _; (split; [done|]); (split; [by apply (attached_eq w2)|]); (eapply passed_trans; [exact Hp12|by split]).
Qed.

(** ** The header *)

(** A connection that is to read the header: the log holds bytes, the index
    pages come as [xShmMap] promises, and an index that could only be read
    while nobody keeps it up to date is not among them. *)
Record can_read (w : Wal) : Prop := {
  cr_index : ∃ P, index w P;
  cr_bytes : is_bytes (content (pWalFd w)) ∧ Z.of_nat (length (content (pWalFd w))) < 512 * MAX_FRAMES;
  cr_shm : bShmUnreliable w = 0;
  cr_answers : ∀ a, a ∈ answers w → shm_rc a ≠ SQLITE_READONLY_CANTINIT ∧ (shm_rc a = SQLITE_READONLY → is_Some (shm_page a));
  cr_ckpt : ckptLock w = 0 ∨ ckptLock w = 1;
  cr_held : (∀ r, r ∈ held w → r.1 ≤ ckptLock w) ∧ (writeLock w = 0 → (WAL_WRITE_LOCK, 1) ∉ held w)
}.

Lemma passed_can_read w w' P : can_read w → passed w w' → index w' P → can_read w'.
Proof.
  intros [_ Hb Hs Ha Hc Hh] [E Hans] Hi. injection E as E1 E2 E3 E4 E5 E6 E7 E8. split; rewrite ?E8, ?E2, ?E4, ?E5, ?E3; try done; [by exists P|].
  intros a Hin. by apply Ha, Hans.
Qed.

Lemma mapped_ok a b : shm_rc a = SQLITE_OK ∨ shm_rc a = SQLITE_READONLY → (shm_rc a = SQLITE_READONLY → is_Some (shm_page a)) → b ≠ 0 → is_Some (mapped a b).
Proof.
  intros Hrc Hro Hb. unfold mapped. destruct (shm_page a) as [p|] eqn:E; [by eexists|]. destruct Hrc as [->|Hrc].
  - rewrite Z.eqb_refl, (proj2 (Z.eqb_neq _ _)) by done. by eexists.
  - by destruct (Hro Hrc).
Qed.

Lemma realloc_answer w h rc b w' : walIndexPageRealloc w h = Some (rc, b, w') →
  (∀ a, a ∈ answers w → shm_rc a ≠ SQLITE_READONLY_CANTINIT ∧ (shm_rc a = SQLITE_READONLY → is_Some (shm_page a))) →
  rc ≠ SQLITE_READONLY_CANTINIT ∧ (rc = SQLITE_OK → writeLock w ≠ 0 → b = true).
Proof.
  intros E Ha. unfold walIndexPageRealloc in E. set (ar := match answers w with [] => _ | a :: rest => _ end) in E.
  assert (shm_rc ar.1 ≠ SQLITE_READONLY_CANTINIT ∧ (shm_rc ar.1 = SQLITE_READONLY → is_Some (shm_page ar.1))) as [Hc Hro].
  { unfold ar. destruct (answers w) as [|a l]; [done|]. apply Ha. left. }
  destruct ar as [a rest]. cbn [fst] in *. destruct (_ && negb _); [by injection E as <- <- <-|].
  destruct (exclusiveMode _ =? WAL_HEAPMEMORY_MODE).
  - destruct (wr _ _ _) as [l|]; [|done]. injection E as <- <- <-. by destruct (shm_page a).
  - destruct (wr _ _ _) as [l|]; [|done]. change (writeLock (set_answers w rest)) with (writeLock w) in E.
    destruct (Z.eqb_spec (shm_rc a) SQLITE_OK) as [Eok|Hne]; cbn [negb andb] in E.
    + injection E as <- <- _. split; [done|]. intros _ Hw. by destruct (mapped_ok a (writeLock w) (or_introl Eok) Hro Hw) as [p ->].
    + destruct (Z.land (shm_rc a) 0xff =? SQLITE_READONLY) eqn:Er.
      * destruct (Z.eqb_spec (shm_rc a) SQLITE_READONLY) as [Eq|]; injection E as <- <- _; [|done]. split; [done|].
        intros _ Hw. by destruct (mapped_ok a (writeLock w) (or_intror Eq) Hro Hw) as [p ->].
      * injection E as <- <- _. done.
Qed.

(** The first page of the index, whether it is there, and what its answers
    are. *)
Lemma first_mapped w P : index w P → (∀ a, a ∈ answers w → shm_rc a ≠ SQLITE_READONLY_CANTINIT ∧ (shm_rc a = SQLITE_READONLY → is_Some (shm_page a))) →
  ∃ rc b w', walIndexPage w 0 = Some (rc, b, w') ∧ passed w w' ∧ index w' P ∧ (b = true → attached w' P) ∧
    rc ≠ SQLITE_READONLY_CANTINIT ∧ (rc = SQLITE_OK → writeLock w ≠ 0 → b = true).
Proof.
  intros Hi Ha. destruct (walIndexPage_any w P 0 Hi) as (rc & b & w' & E & Hs & Hi' & Hb); [done|].
  exists rc, b, w'. split; [done|]. split; [by apply same_passed|]. split; [done|]. split; [intros ->; split; auto|].
  unfold walIndexPage in E. destruct (Z.of_nat (length (apWiData w)) <=? 0) eqn:El; [by apply (realloc_answer w 0 rc b w')|].
  destruct (rd (apWiData w) 0) as [[p|]|]; [by injection E as <- <- <-|by apply (realloc_answer w 0 rc b w')|done].
Qed.

(** The array of pages is there. *)
Definition sized (w : Wal) : Prop := (0 < length (apWiData w))%nat.

Lemma attached_sized w P : attached w P → sized w.
Proof. intros [_ [p Hp%get_page_rd%rd_lt]]. unfold sized. lia. Qed.

Lemma first_sized w P rc b w' : index w P → walIndexPage w 0 = Some (rc, b, w') → sized w' ∨ rc = SQLITE_NOMEM ∧ ¬ sized w.
Proof.
  intros Hi E. unfold walIndexPage in E. assert (walIndexPageRealloc w 0 = Some (rc, b, w') → sized w' ∨ rc = SQLITE_NOMEM ∧ ¬ sized w) as Hr.
  { clear E. intros E. unfold walIndexPageRealloc in E. destruct (match answers w with [] => _ | a :: rest => (a, rest) end) as [a rest].
    destruct ((_ <=? 0) && negb _) eqn:El; [injection E as <- _ _; right; split; [done|]; unfold sized; cbn in El; lia|left].
    rewrite grow_array in E by done. destruct (exclusiveMode _ =? _);
      (destruct (wr _ 0 _) as [l|] eqn:Ew; [|done]); apply wr_length in Ew; rewrite length_app, length_replicate in Ew; cbn in Ew;
      [injection E as _ _ <-|destruct (_ && _) in E; injection E as _ _ <-]; unfold sized; cbn; lia. }
  destruct (_ <=? 0) eqn:El; [by apply Hr|].
  destruct (rd (apWiData w) 0) as [[p|]|] eqn:Ep; [injection E as <- <- <-; left; apply rd_lt in Ep; unfold sized; lia|by apply Hr|done].
Qed.

Lemma passed_unlock w w1 h l i n : passed (set_held (set_shm_locks w l) h) w1 →
  (∀ w2, held w2 = h → exclusiveMode w2 = exclusiveMode w → walUnlockExclusive w2 i n = set_held w2 (held w)) → passed w (walUnlockExclusive w1 i n).
Proof.
  intros [E Ha] Hun. injection E as E1 E2 E3 E4 E5 E6 E7 E8. cbn in *. rewrite Hun by done. split; [|done]. cbn. congruence.
Qed.

Lemma read_locked_spec w P rc ch mem : can_read w → index w P → (∀ p, mem = Some p → shape p) → sized w →
  ∃ rc' bad ch' w' P', read_locked w rc ch mem = Some (rc', bad, ch', w') ∧ passed w w' ∧ index w' P' ∧ sized w' ∧
    (rc' = SQLITE_OK → attached w' P').
Proof.
  intros Hc Hi Hmem Hsz. unfold read_locked. set (bW := writeLock w).
  (* with the lock in hand *)
  assert (Hin : ∀ w1, can_read w1 → index w1 P → sized w1 → writeLock w1 ≠ 0 →
    ∃ rc' bad ch' w' P', (let* (rc, _, pWal) := walIndexPage w1 0 in
      let* (rc, badHdr, pChanged, pWal) :=
        if rc =? SQLITE_OK then
          let* (badHdr, pChanged, pWal) := walIndexTryHdr pWal ch in
          if negb (badHdr =? 0) then let* (rc, pWal) := walIndexRecover pWal mem in Some (rc, badHdr, 1, pWal)
          else Some (rc, badHdr, pChanged, pWal)
        else Some (rc, 1, ch, pWal) in
      Some (rc, badHdr, pChanged, if bW =? 0 then walUnlockExclusive (set_writeLock pWal 0) WAL_WRITE_LOCK 1 else pWal))
      = Some (rc', bad, ch', if bW =? 0 then walUnlockExclusive (set_writeLock w' 0) WAL_WRITE_LOCK 1 else w') ∧ passed w1 w' ∧ index w' P' ∧ sized w' ∧
      (rc' = SQLITE_OK → attached w' P')).
  { intros w1 Hc1 Hi1 Hs1 Hw1. destruct (first_mapped w1 P Hi1 (cr_answers _ Hc1)) as (rc1 & b & w2 & E & Hp2 & Hi2 & Hb & _ & Hok).
    destruct (first_sized _ _ _ _ _ Hi1 E) as [Hs2|[_ ?]]; [|done]. rewrite E.
    destruct (Z.eqb_spec rc1 SQLITE_OK) as [->|Hne].
    2: { eexists _, _, _, w2, P. by split_and!. }
    pose proof (Hb (Hok eq_refl Hw1)) as Hw2. destruct (walIndexTryHdr_spec w2 P ch Hw2) as (bad & ch' & w3 & -> & Hw3 & Hp3).
    pose proof (passed_trans _ _ _ Hp2 Hp3) as Hp13.
    destruct (negb (bad =? 0)).
    2: { eexists _, _, _, w3, P. split_and!; try done; [apply Hw3|by eapply attached_sized]. }
    assert (can_read w3) as Hc3 by (by apply (passed_can_read w1 w3 P); [| |apply Hw3]).
    destruct (walIndexRecover_any w3 mem) as (rc4 & w4 & Q & -> & Ehd & Hi4 & Hlive & Hst & Ec & Ee & Hp4);
      [apply index_nil with P; apply Hw3|apply Hw3|apply (cr_bytes _ Hc3)|done|apply (cr_bytes _ Hc3)|apply (cr_ckpt _ Hc3)|apply (cr_held _ Hc3)|].
    eexists _, _, _, w4, Q. assert (attached w4 Q) as Hw4 by (by split). split; [done|].
    split; [apply (passed_trans _ w3); [done|by apply steady_passed]|]. split_and!; try done. by eapply attached_sized. }
  revert Hin. destruct (Z.eqb_spec bW 0) as [E0|Hne]; intros Hin; cbn [negb orb].
  - destruct (lock_range w WAL_WRITE_LOCK 1) as (rc1 & h & l & -> & Hh & Hno & Hun); [by apply (cr_held _ Hc)|].
    set (w1 := set_held (set_shm_locks w l) h).
    destruct (Z.eqb_spec rc1 SQLITE_OK) as [->|Hrc].
    2: { specialize (Hno Hrc). subst h. eexists _, _, _, w1, P. split; [done|]. split; [by split|]. split; [by apply (index_eq w)|by split]. }
    assert (can_read (set_writeLock w1 2)) as Hc1.
    { destruct Hc as [_ Hb Hs Ha Hck [Hh1 Hh2]]. split; try done; [exists P; by apply (index_eq w)|]. split; [|done].
      intros r Hr. change (r ∈ h) in Hr. destruct Hh as [->| ->]; [by apply Hh1|]. apply elem_of_cons in Hr as [->|Hr]; [|by apply Hh1].
      unfold WAL_WRITE_LOCK. cbn. lia. }
    destruct (Hin (set_writeLock w1 2) Hc1) as (rc' & bad & ch' & w' & P' & -> & Hp' & Hi' & Hs' & Hok); [by apply (index_eq w)|done|done|].
    set (w2 := set_writeLock w' 0).
    assert (passed w1 w2) as Hp2.
    { destruct Hp' as [E Ha]. injection E as E1 E2 E3 E4 E5 E6 E7 E8. split; [|done]. cbn. cbn in *. rewrite E1, E2, E4, E5, E6, E7, E8. by subst bW; rewrite E0. }
    assert (walUnlockExclusive w2 WAL_WRITE_LOCK 1 = set_held w2 (held w)) as Eu.
    { destruct Hp2 as [E _]. injection E as E1 E2 E3 E4 E5 E6 E7 E8. apply Hun; [done|exact E5|exact E7]. }
    exists rc', bad, ch', (walUnlockExclusive w2 WAL_WRITE_LOCK 1), P'. split; [done|]. split.
    { apply (passed_unlock w w2 h l); [done|]. intros w3 ??. by apply Hun. }
    rewrite Eu. split; [by apply (index_eq w')|]. split; [done|]. intros Erc. apply (attached_eq w'); [done|done|by apply Hok].
  - destruct (Hin w Hc Hi Hsz Hne) as (rc' & bad & ch' & w' & P' & -> & Hp' & Hi' & Hs' & Hok).
    by exists rc', bad, ch', w', P'.
Qed.

Lemma filter_shared (i : Z) L : i ∉ L → filter (λ l, l ≠ i) (i :: L) = L.
Proof.
  intros Hi. rewrite filter_cons_False by (intros H; by apply H).
  induction L as [|x L IH]; [done|]. apply not_elem_of_cons in Hi as [Hx Hi]. rewrite filter_cons_True by congruence. f_equal. auto.
Qed.

(** A shared lock is taken, or not, and given back. *)
Lemma lock_shared w i : i ∉ held_shared w → ∃ rc h l, walLockShared w i = (rc, set_held_shared (set_shm_locks w l) h) ∧
  (rc ≠ SQLITE_OK → h = held_shared w) ∧ (rc = SQLITE_OK → exclusiveMode w = 0 → h = i :: held_shared w) ∧
  ∀ w2, rc = SQLITE_OK → held_shared w2 = h → exclusiveMode w2 = exclusiveMode w → walUnlockShared w2 i = set_held_shared w2 (held_shared w).
Proof.
  intros Hn. unfold walLockShared, walUnlockShared. destruct (exclusiveMode w =? 0) eqn:E; cbn [negb].
  - destruct (next_code (shm_locks w)) as [rc l]. exists rc, (if rc =? SQLITE_OK then i :: held_shared w else held_shared w), l.
    split; [by destruct (rc =? SQLITE_OK)|]. split; [|split].
    + intros Hne. by rewrite (proj2 (Z.eqb_neq _ _)) by done.
    + by intros -> _.
    + intros w2 -> Eh Ee. rewrite Ee, E, Eh, Z.eqb_refl. cbn [negb]. f_equal. by apply filter_shared.
  - exists SQLITE_OK, (held_shared w), (shm_locks w). split; [by destruct w|]. split; [done|]. split; [lia|].
    intros w2 _ Eh Ee. rewrite Ee, E. cbn [negb]. rewrite <- Eh. by destruct w2.
Qed.

Lemma passed_shared w l : passed w (set_held_shared (set_shm_locks w l) (held_shared w)).
Proof. by split. Qed.

Lemma walIndexReadHdr_spec w P ch mem : can_read w → index w P → (∀ p, mem = Some p → shape p) → WAL_WRITE_LOCK ∉ held_shared w →
  ∃ rc ch' w' P', walIndexReadHdr w ch mem = Some (rc, ch', w') ∧ passed w w' ∧ index w' P' ∧ (sized w' ∨ rc = SQLITE_NOMEM) ∧
    (rc = SQLITE_OK → attached w' P').
Proof.
  intros Hc Hi Hmem Hsh. unfold walIndexReadHdr.
  destruct (first_mapped w P Hi (cr_answers _ Hc)) as (rc & b & w1 & E & Hp1 & Hi1 & Hb & Hne & Hok).
  destruct (first_sized _ _ _ _ _ Hi E) as [Hs1|[-> _]]; rewrite E.
  2: { eexists _, _, w1, P. split_and!; try done. by right. }
  destruct (Z.eqb_spec rc SQLITE_OK) as [->|Hrc]; cbn [negb andb].
  2: { rewrite (proj2 (Z.eqb_neq _ _)) by done. eexists _, _, w1, P. split_and!; try done. by left. }
  pose proof (passed_can_read _ _ _ Hc Hp1 Hi1) as Hc1.
  set (first := if b then _ else _).
  assert (∃ bad ch' w2, first = Some (bad, ch', w2) ∧ passed w1 w2 ∧ index w2 P ∧ sized w2 ∧ (bad = 0 → attached w2 P)) as (bad & ch1 & w2 & -> & Hp2 & Hi2 & Hs2 & Hbad).
  { unfold first. destruct b.
    - destruct (walIndexTryHdr_spec w1 P ch (Hb eq_refl)) as (bad & ch' & w2 & -> & Hw2 & Hp2). exists bad, ch', w2.
      split_and!; try done; [apply Hw2|by apply (attached_sized w2 P)].
    - exists 1, ch, w1. split_and!; try done. }
  pose proof (passed_trans _ _ _ Hp1 Hp2) as Hp12. pose proof (passed_can_read _ _ _ Hc1 Hp2 Hi2) as Hc2.
  assert (∀ w3, passed w w3 → bShmUnreliable w3 = 0) as Hrel.
  { intros w3 [E3 _]. injection E3 as _ E3 _ _ _ _ _ _. rewrite E3. apply (cr_shm _ Hc). }
  set (second := if negb (bad =? 0) then _ else _).
  assert (∃ rc' bad' ch' w3 P', second = Some (rc', bad', ch', w3) ∧ passed w2 w3 ∧ index w3 P' ∧ sized w3 ∧ (rc' = SQLITE_OK → attached w3 P'))
    as (rc' & bad' & ch' & w3 & P' & -> & Hp3 & Hi3 & Hs3 & Hok3).
  { unfold second. destruct (Z.eqb_spec bad 0) as [->|Hb0]; cbn [negb].
    { eexists _, _, _, w2, P. split_and!; auto using passed_refl. }
    destruct ((bShmUnreliable w2 =? 0) && _); [|by apply (read_locked_spec w2 P)].
    destruct (lock_shared w2 WAL_WRITE_LOCK) as (rc & h & l & -> & Hno & _ & Hun).
    { destruct Hp12 as [E2 _]. injection E2 as _ _ _ _ _ E2 _ _. by rewrite E2. }
    destruct (Z.eqb_spec rc SQLITE_OK) as [->|Hrc].
    - rewrite Hun by done. eexists _, _, _, _, P. split; [done|]. split; [by split|]. split; [by apply (index_eq w2)|]. by split.
    - rewrite Hno by done. eexists _, _, _, _, P. split; [done|]. split; [by split|]. split; [by apply (index_eq w2)|]. by split. }
  pose proof (passed_trans _ _ _ Hp12 Hp3) as Hp13. rewrite (Hrel w3 Hp13). cbn [negb Z.eqb].
  destruct ((bad' =? 0) && _); eexists _, _, w3, P'; split_and!; auto; discriminate.
Qed.

(** ** Read marks *)

(** Others write: the index is still attached, the header this connection has
    is as it was, and so is what it guards. *)
Lemma others_step w P : attached w P → attached (others_write w) P ∧ passed w (others_write w) ∧ hdr (others_write w) = hdr w ∧
  readOnly (others_write w) = readOnly w ∧ minFrame (others_write w) = minFrame w ∧
  ∀ i, exclusiveMode w ≠ 0 ∨ guarded w i = true → get_word (others_write w) i = get_word w i.
Proof.
  intros Hw. pose proof (others_passed w P Hw) as Hp. destruct (others_write_spec w P Hw) as (a & l & E & Hw' & Hg). split_and!; try done; by rewrite E.
Qed.

Lemma best_mark_spec n : ∀ w P i mx mr mI, attached w P → 1 ≤ i → i + Z.of_nat n ≤ WAL_NREADER → mr ≤ mx ∨ mI = 0 →
  ∃ mr' mI' w', best_mark n w i mx mr mI = Some (mr', mI', w') ∧ attached w' P ∧ passed w w' ∧ hdr w' = hdr w ∧ readOnly w' = readOnly w ∧
    (mI' = mI ∨ i ≤ mI' < i + Z.of_nat n) ∧ (mr' ≤ mx ∨ mI' = 0).
Proof.
  induction n as [|n IH]; intros w P i mx mr mI Hw Hi Hn Hmr; cbn [best_mark].
  { exists mr, mI, w. split_and!; try done; auto using passed_refl. }
  destruct (others_step w P Hw) as (Hw1 & Hp1 & Eh1 & Er1 & _ & _). set (w1 := others_write w) in *. change WAL_NREADER with 5 in *.
  destruct (get_word_some w1 P (25 + i) (a_index _ _ Hw1) (a_page _ _ Hw1)) as [y ->]; [lia|].
  destruct ((mr <=? y) && (y <=? mx)) eqn:Ey.
  - destruct (IH w1 P (i + 1) mx y i Hw1) as (mr' & mI' & w' & -> & Hw' & Hp' & Eh' & Er' & HI & Hm); [lia..|left; lia|].
    exists mr', mI', w'. split_and!; try done; [by eapply passed_trans|congruence|congruence|lia].
  - destruct (IH w1 P (i + 1) mx mr mI Hw1) as (mr' & mI' & w' & -> & Hw' & Hp' & Eh' & Er' & HI & Hm); [lia..|done|].
    exists mr', mI', w'. split_and!; try done; [by eapply passed_trans|congruence|congruence|lia].
Qed.

Lemma claim_mark_spec n : ∀ w P i mx mr mI rc, attached w P → (∀ j, 0 ≤ j → (WAL_READ_LOCK j, 1) ∉ held w) → 1 ≤ i → i + Z.of_nat n ≤ WAL_NREADER →
  ∃ out rc' mr' mI' w', claim_mark n w i mx mr mI rc = Some (out, rc', mr', mI', w') ∧ attached w' P ∧ passed w w' ∧ hdr w' = hdr w ∧
    (out = true → rc' ≠ SQLITE_OK) ∧ (mI' = mI ∧ mr' = mr ∨ i ≤ mI' < i + Z.of_nat n ∧ mr' = mx).
Proof.
  induction n as [|n IH]; intros w P i mx mr mI rc Hw Hheld Hi Hn; cbn [claim_mark].
  { exists false, rc, mr, mI, w. split_and!; try done; auto using passed_refl. }
  destruct (lock_range w (WAL_READ_LOCK i) 1) as (rc1 & h & l & -> & Hh & Hno & Hun); [apply Hheld; lia|]. change WAL_NREADER with 5 in *.
  set (w1 := set_held (set_shm_locks w l) h). assert (attached w1 P) as Hw1 by (by apply (attached_eq w)).
  destruct (Z.eqb_spec rc1 SQLITE_OK) as [->|Hrc].
  - destruct (attached_set w1 P (25 + i) mx Hw1) as (w2 & -> & [a ->] & Hw2 & _); [lia|]. rewrite Hun by done.
    eexists _, _, _, _, _. split; [done|]. split; [by apply (attached_eq (set_apWiData w1 a))|]. split_and!; try done. right. lia.
  - specialize (Hno Hrc). subst h. assert (passed w w1) as Hp1 by by split.
    destruct (rc1 =? SQLITE_BUSY); cbn [negb].
    + destruct (IH w1 P (i + 1) mx mr mI rc1 Hw1 Hheld) as (out & rc' & mr' & mI' & w' & -> & Hw' & Hp' & Eh' & Hout & HI); [lia..|].
      exists out, rc', mr', mI', w'. split_and!; try done; [by eapply passed_trans|destruct HI; [by left|right; lia]].
    + exists true, rc1, mr, mI, w1. split_and!; try done. by left.
Qed.

(** A read transaction that has begun. *)
Record began (w w' : Wal) (P : list Z) : Prop := {
  bg_attached : attached w' P;
  bg_fields : (bShmUnreliable w', writeLock w', ckptLock w', held w', exclusiveMode w', content (pWalFd w')) =
    (bShmUnreliable w, writeLock w, ckptLock w, held w, exclusiveMode w, content (pWalFd w));
  bg_lock : exclusiveMode w = 0 → held_shared w' = WAL_READ_LOCK (readLock w') :: held_shared w;
  bg_live : hdr_differs w' = Some false;
  bg_mark : readLock w' = 0 ∨
    1 ≤ readLock w' < WAL_NREADER ∧ ∃ m, get_word w' (25 + readLock w') = Some m ∧ m ≤ mxFrame (hdr w')
}.

Lemma hdr_differs_some w P : attached w P → ∃ b, hdr_differs w = Some b.
Proof. intros Hw. unfold hdr_differs. destruct (attached_words w P 0 12 Hw) as (p & -> & d & -> & _); [lia..|]. by eexists. Qed.

Lemma has_shared (w : Wal) (i : Z) : i ∈ held_shared w → has_lock w i = true.
Proof. intros Hi. unfold has_lock. apply orb_true_iff. right. apply existsb_exists. exists i. split; [by apply list_elem_of_In|lia]. Qed.

(** How an attempt ends: with a transaction, or with everything given back. *)
Definition attempt (w w' : Wal) (P : list Z) (rc : Z) : Prop :=
  attached w' P ∧ (rc = SQLITE_OK ∧ began w w' P ∨ rc ≠ SQLITE_OK ∧ passed w w').

Lemma began_passed w w1 w2 P : passed w w1 → began w1 w2 P → began w w2 P.
Proof.
  intros [E _] [Ha Ef Hl Hd Hm]. injection E as E1 E2 E3 E4 E5 E6 E7 E8. split; try done; [congruence|]. intros E0. rewrite Hl by congruence. by rewrite E6.
Qed.

Lemma attempt_passed w w1 w2 P rc : passed w w1 → attempt w1 w2 P rc → attempt w w2 P rc.
Proof.
  intros Hp [Ha [[-> Hb]|[Hrc Hp2]]]; (split; [done|]); [left|right]; (split; [done|]); [by apply (began_passed w w1)|by eapply passed_trans].
Qed.

(** A lock on a mark, once it is taken, among the locks held. *)
Lemma begin_without_log_spec w P useWal : attached w P → WAL_READ_LOCK 0 ∉ held_shared w →
  ∃ fin rc w', begin_without_log w useWal = Some (fin, rc, w') ∧ attached w' P ∧
    if fin : bool then attempt w w' P rc else passed w w' ∧ hdr w' = hdr w ∧ readOnly w' = readOnly w.
Proof.
  intros Hw Hsh. unfold begin_without_log. destruct useWal.
  { exists false, SQLITE_OK, w. split_and!; try done. }
  destruct (others_step w P Hw) as (Hw1 & Hp1 & Eh1 & Er1 & _ & _). set (w1 := others_write w) in *.
  destruct (get_word_some w1 P 24 (a_index _ _ Hw1) (a_page _ _ Hw1)) as [nB ->]; [lia|].
  destruct (nB =? mxFrame (hdr w1)).
  2: { exists false, SQLITE_OK, w1. by split_and!. }
  assert (held_shared w1 = held_shared w ∧ exclusiveMode w1 = exclusiveMode w) as [Es Ee] by (destruct Hp1 as [E _]; by injection E).
  destruct (lock_shared w1 (WAL_READ_LOCK 0)) as (rc & h & l & -> & Hno & Hyes & Hun); [by rewrite Es|].
  set (w2 := set_held_shared (set_shm_locks w1 l) h). assert (attached w2 P) as Hw2 by (by apply (attached_eq w1)).
  destruct (Z.eqb_spec rc SQLITE_OK) as [->|Hrc].
  - destruct (others_step w2 P Hw2) as (Hw3 & Hp3 & Eh3 & Er3 & _ & _). set (w3 := others_write w2) in *.
    destruct (hdr_differs_some w3 P Hw3) as [d Ed]. rewrite Ed.
    assert (held_shared w3 = h ∧ exclusiveMode w3 = exclusiveMode w1) as [Es3 Ee3] by (destruct Hp3 as [E _]; by injection E).
    destruct d.
    + rewrite Hun by done. eexists true, _, _. split; [done|]. assert (attached (set_held_shared w3 (held_shared w1)) P) as Hw4 by (by apply (attached_eq w3)).
      split; [done|]. split; [done|]. right. split; [done|]. apply (passed_trans _ w1); [done|].
      destruct Hp3 as [E Ha]. injection E as E1 E2 E3 E4 E5 E6 E7 E8. split; [|done]. cbn. cbn in *. congruence.
    + exists true, SQLITE_OK, (set_readLock w3 0). split; [done|]. assert (attached (set_readLock w3 0) P) as Hw4 by (by apply (attached_eq w3)).
      split; [done|]. split; [done|]. left. split; [done|]. apply (began_passed w w1); [done|].
      destruct Hp3 as [E Ha]. injection E as E1 E2 E3 E4 E5 E6 E7 E8. cbn in *. split; try done; [cbn; congruence| |by left].
      intros E0. cbn. rewrite E6, Hyes by done. done.
  - specialize (Hno Hrc). subst h. exists (negb (rc =? SQLITE_BUSY)), rc, w2. split; [done|]. split; [done|].
    assert (passed w w2) as Hp2 by (by apply (passed_trans _ w1)).
    destruct (negb (rc =? SQLITE_BUSY)); [|by split_and!]. split; [done|]. by right.
Qed.

Lemma begin_lock_spec w P mr mI : attached w P → 1 ≤ mI < WAL_NREADER → WAL_READ_LOCK mI ∉ held_shared w → mr ≤ mxFrame (hdr w) →
  ∃ rc w', begin_lock w mr mI = Some (rc, w') ∧ attempt w w' P rc.
Proof.
  intros Hw HI Hsh Hmr. unfold begin_lock. change WAL_NREADER with 5 in *.
  destruct (lock_shared w (WAL_READ_LOCK mI)) as (rc & h & l & -> & Hno & Hyes & Hun); [done|].
  set (w1 := set_held_shared (set_shm_locks w l) h). assert (attached w1 P) as Hw1 by (by apply (attached_eq w)).
  destruct (Z.eqb_spec rc SQLITE_OK) as [->|Hrc]; cbn [negb].
  2: { specialize (Hno Hrc). subst h. eexists _, w1. split; [done|]. split; [done|]. right. split; [|by split]. by destruct (_ =? SQLITE_BUSY). }
  destruct (others_step w1 P Hw1) as (Hw2 & Hp2 & Eh2 & _ & _ & _). set (w2 := others_write w1) in *.
  destruct (get_word_some w2 P 24 (a_index _ _ Hw2) (a_page _ _ Hw2)) as [nB ->]; [lia|].
  set (w3 := set_minFrame w2 _). assert (attached w3 P) as Hw3 by (by apply (attached_eq w2)).
  destruct (others_step w3 P Hw3) as (Hw4 & Hp4 & Eh4 & _ & _ & _). set (w4 := others_write w3) in *.
  destruct (get_word_some w4 P (25 + mI) (a_index _ _ Hw4) (a_page _ _ Hw4)) as [m Em]; [lia|]. rewrite Em.
  destruct (others_step w4 P Hw4) as (Hw5 & Hp5 & Eh5 & _ & _ & Hg5). set (w5 := others_write w4) in *.
  destruct (hdr_differs_some w5 P Hw5) as [d Ed]. rewrite Ed.
  assert (passed w1 w5) as Hp15.
  { eapply passed_trans; [exact Hp2|]. apply (passed_trans _ w3); [by split|]. by eapply passed_trans. }
  pose proof Hp15 as [E Ha]. injection E as E1 E2 E3 E4 E5 E6 E7 E8. cbn in E1, E2, E3, E4, E5, E6, E7, E8.
  destruct (negb (m =? mr) || d) eqn:Edone.
  - rewrite Hun by done. eexists _, _. split; [done|]. split; [by apply (attached_eq w5)|]. right. split; [done|]. split; [|done]. cbn. congruence.
  - apply orb_false_iff in Edone as [Em2 ->]. assert (m = mr) as -> by lia.
    exists SQLITE_OK, (set_readLock w5 mI). split; [done|]. assert (attached (set_readLock w5 mI) P) as Hw6 by (by apply (attached_eq w5)).
    split; [done|]. left. split; [done|]. split; try done; [cbn; congruence|intros E0; cbn; by rewrite E6, Hyes|]. right. split; [done|].
    exists mr. split.
    + cbn [readLock set_readLock]. rewrite (get_word_eq w5) by done. rewrite Hg5; [done|].
      destruct (decide (exclusiveMode w4 = 0)) as [E0|]; [right|by left].
      assert (exclusiveMode w = 0 ∧ held_shared w4 = h) as [E00 Eh4'].
      { destruct Hp2 as [E2' _], Hp4 as [E4' _]. injection E2' as _ _ _ _ _ Es2 Ee2 _. injection E4' as _ _ _ _ _ Es4 Ee4 _.
        cbn in Ee2, Es2. change (exclusiveMode w3) with (exclusiveMode w2) in Ee4. change (held_shared w3) with (held_shared w2) in Es4. split; congruence. }
      unfold guarded. rewrite (proj2 (Z.ltb_ge _ _)), (proj2 (Z.leb_le _ _)), (proj2 (Z.ltb_lt _ _)) by lia. cbn [andb].
      apply has_shared. rewrite Eh4', Hyes by done. replace (25 + mI - 25) with mI by lia. left.
    + cbn. rewrite Eh5, Eh4. change (hdr w3) with (hdr w2). by rewrite Eh2.
Qed.

Lemma begin_mark_spec w P useWal : attached w P → (∀ i, 0 ≤ i → WAL_READ_LOCK i ∉ held_shared w) → (∀ j, 0 ≤ j → (WAL_READ_LOCK j, 1) ∉ held w) →
  ∃ rc w', begin_mark w useWal = Some (rc, w') ∧ attempt w w' P rc.
Proof.
  intros Hw Hsh Hheld. unfold begin_mark.
  destruct (begin_without_log_spec w P useWal Hw) as (fin & rc & w1 & -> & Hw1 & H1); [by apply Hsh|].
  destruct fin; [by exists rc, w1|]. destruct H1 as (Hp1 & Eh1 & Er1).
  assert (∀ w2, passed w w2 → held w2 = held w ∧ held_shared w2 = held_shared w) as Hf by (intros w2 [E _]; by injection E).
  destruct (best_mark_spec (Z.to_nat (WAL_NREADER - 1)) w1 P 1 (mxFrame (hdr w1)) 0 0 Hw1) as (mr & mI & w2 & -> & Hw2 & Hp2 & Eh2 & Er2 & HI & Hm);
    [done|done|by right|]. change (Z.of_nat (Z.to_nat (WAL_NREADER - 1))) with 4 in HI.
  pose proof (passed_trans _ _ _ Hp1 Hp2) as Hp12. destruct (Hf w2 Hp12) as [Ehd2 Es2].
  set (claim := if _ && _ then _ else _).
  assert (∃ out rc' mr' mI' w3, claim = Some (out, rc', mr', mI', w3) ∧ attached w3 P ∧ passed w2 w3 ∧ hdr w3 = hdr w2 ∧
    (out = true → rc' ≠ SQLITE_OK) ∧ (1 ≤ mI' < WAL_NREADER ∧ mr' ≤ mxFrame (hdr w1) ∨ mI' = 0)) as (out & rc' & mr' & mI' & w3 & -> & Hw3 & Hp3 & Eh3 & Hout & HI').
  { change WAL_NREADER with 5. unfold claim. destruct (_ && _).
    - destruct (claim_mark_spec (Z.to_nat (WAL_NREADER - 1)) w2 P 1 (mxFrame (hdr w1)) mr mI rc Hw2) as (out & rc' & mr' & mI' & w3 & -> & Hw3 & Hp3 & Eh3 & Hout & HI'); [|done|done|].
      { intros j Hj. rewrite Ehd2. by apply Hheld. }
      change (Z.of_nat (Z.to_nat (WAL_NREADER - 1))) with 4 in HI'. exists out, rc', mr', mI', w3. split_and!; try done. destruct HI' as [[-> ->]|[? ->]]; [|left; lia]. lia.
    - exists false, rc, mr, mI, w2. split_and!; try done. lia. }
  pose proof (passed_trans _ _ _ Hp12 Hp3) as Hp13. destruct (Hf w3 Hp13) as [Ehd3 Es3].
  destruct out.
  { exists rc', w3. split; [done|]. split; [done|]. right. split; [by apply Hout|done]. }
  destruct (Z.eqb_spec mI' 0) as [->|Hne].
  { eexists _, w3. split; [done|]. split; [done|]. right. split; [by destruct (_ =? _)|done]. }
  destruct HI' as [[HI' Hm']|?]; [|done].
  destruct (begin_lock_spec w3 P mr' mI' Hw3) as (rc4 & w4 & -> & H4); [done|rewrite Es3; apply Hsh; lia|by rewrite Eh3, Eh2|].
  exists rc4, w4. split; [done|]. by apply (attempt_passed w w3).
Qed.

(** ** Attempts *)

(** What an attempt comes to, for a caller that does not look at pages. *)
Definition outcome (w w' : Wal) (rc : Z) : Prop :=
  ∃ P, index w' P ∧ (rc = SQLITE_OK ∧ began w w' P ∨ rc ≠ SQLITE_OK ∧ passed w w').

Lemma passed_lists w w' : passed w w' → held w' = held w ∧ held_shared w' = held_shared w ∧ bShmUnreliable w' = bShmUnreliable w.
Proof. intros [E _]. by injection E. Qed.

Lemma reader_free w : can_read w → ∀ j, 0 ≤ j → (WAL_READ_LOCK j, 1) ∉ held w.
Proof.
  intros Hc j Hj Hin. apply (cr_held _ Hc) in Hin. cbn in Hin. unfold WAL_READ_LOCK in Hin. destruct (cr_ckpt _ Hc); lia.
Qed.

Lemma begin_busy_spec w P : index w P → sized w → WAL_RECOVER_LOCK ∉ held_shared w →
  ∃ rc w', begin_busy w = Some (rc, w') ∧ index w' P ∧ passed w w' ∧ rc ≠ SQLITE_OK.
Proof.
  intros Hi Hs Hsh. unfold begin_busy. unfold sized in Hs. destruct (rd_is_Some (apWiData w) 0) as [p ->]; [lia|].
  destruct (negb (not_null p)); [by exists WAL_RETRY, w|].
  destruct (lock_shared w WAL_RECOVER_LOCK Hsh) as (rc & h & l & -> & Hno & _ & Hun).
  destruct (Z.eqb_spec rc SQLITE_OK) as [->|Hrc].
  - rewrite Hun by done. eexists _, _. split; [done|]. split; [by apply (index_eq w)|]. by split.
  - rewrite Hno by done. eexists _, _. split; [done|]. split; [by apply (index_eq w)|]. split; [by split|]. by destruct (_ =? _).
Qed.

Lemma walTryBeginRead_spec w P ch useWal cnt mem : can_read w → index w P → (∀ p, mem.1 = Some p → shape p) → held_shared w = [] →
  (useWal = true → attached w P) →
  ∃ rc ch' w', walTryBeginRead w ch useWal cnt mem = Some (rc, ch', cnt + 1, w') ∧ outcome w w' rc ∧ (rc = WAL_RETRY → cnt < 100) ∧
    (useWal = true → attached w' P).
Proof.
  intros Hc Hi Hmem Hsh Huse. unfold walTryBeginRead.
  assert (∀ i : Z, i ∉ held_shared w) as Hnone by (intros i; rewrite Hsh; apply not_elem_of_nil).
  destruct ((5 <? cnt + 1) && (WAL_RETRY_PROTOCOL_LIMIT <? cnt + 1)) eqn:Elim.
  { exists SQLITE_PROTOCOL, ch, w. split; [done|]. split; [|done]. exists P. split; [done|]. by right. }
  assert (cnt < 100) as Hcnt.
  { apply andb_false_iff in Elim as [?|E]; [lia|]. unfold WAL_RETRY_PROTOCOL_LIMIT in E. lia. }
  destruct useWal.
  { destruct (begin_mark_spec w P true (Huse eq_refl)) as (rc & w' & -> & Hw' & H); [by intros|by apply reader_free|].
    exists rc, ch, w'. split; [done|]. split; [|done]. exists P. split; [apply Hw'|done]. }
  rewrite (cr_shm _ Hc), Z.eqb_refl.
  destruct (walIndexReadHdr_spec w P ch mem.1 Hc Hi Hmem) as (rc & ch' & w1 & P1 & -> & Hp1 & Hi1 & Hs1 & Hok); [done|].
  destruct (passed_lists _ _ Hp1) as (Eh1 & Es1 & Eb1).
  assert (Hfail : ∀ (rc : Z) w2, rc ≠ SQLITE_OK → passed w w2 → index w2 P1 → ∃ rc0 ch0 w0, Some (rc, ch', cnt + 1, w2) = Some (rc0, ch0, cnt + 1, w0) ∧
    outcome w w0 rc0 ∧ (rc0 = WAL_RETRY → cnt < 100) ∧ (false = true → attached w0 P)).
  { intros rc2 w2 ???. exists rc2, ch', w2. split; [done|]. split; [|done]. exists P1. split; [done|]. by right. }
  destruct (Z.eqb_spec rc SQLITE_BUSY) as [->|Hbusy].
  { destruct Hs1 as [Hs1|?]; [|done]. destruct (begin_busy_spec w1 P1 Hi1 Hs1) as (rc & w2 & -> & Hi2 & Hp2 & Hrc); [by rewrite Es1|].
    rewrite (proj2 (Z.eqb_neq _ _)) by done. cbn [negb]. apply Hfail; [done|by eapply passed_trans|done]. }
  destruct (Z.eqb_spec rc SQLITE_OK) as [->|Hrc]; cbn [negb]; [|by apply Hfail].
  rewrite Eb1, (cr_shm _ Hc). cbn [negb Z.eqb].
  destruct (begin_mark_spec w1 P1 false (Hok eq_refl)) as (rc & w2 & -> & Hw2 & H2).
  { intros i _. by rewrite Es1. }
  { intros j Hj. rewrite Eh1. by apply reader_free. }
  exists rc, ch', w2. split; [done|]. split; [|done]. exists P1.
  destruct (attempt_passed w w1 w2 P1 rc Hp1 (conj Hw2 H2)) as [? ?]. split; [apply Hw2|done].
Qed.

Lemma outcome_passed w w1 w2 rc : passed w w1 → outcome w1 w2 rc → outcome w w2 rc.
Proof.
  intros Hp (P & Hi & [[-> Hb]|[Hrc Hp2]]); exists P; (split; [done|]); [left|right]; (split; [done|]); [by apply (began_passed w w1)|by eapply passed_trans].
Qed.

Lemma try_begin_spec useWal mem fuel : (∀ c p, (mem c).1 = Some p → shape p) → ∀ w P ch cnt, can_read w → index w P → held_shared w = [] →
  (useWal = true → attached w P) → 0 ≤ cnt ≤ 100 → 100 < cnt + Z.of_nat fuel →
  ∃ rc ch' w', try_begin fuel w ch useWal cnt mem = Some (rc, ch', w') ∧ outcome w w' rc ∧ rc ≠ WAL_RETRY ∧ (useWal = true → attached w' P).
Proof.
  intros Hmem. induction fuel as [|fuel IH]; intros w P ch cnt Hc Hi Hsh Huse Hcnt Hf; [lia|]. cbn [try_begin].
  destruct (walTryBeginRead_spec w P ch useWal cnt (mem cnt) Hc Hi (Hmem cnt) Hsh Huse) as (rc & ch' & w' & -> & Ho & Hretry & Huse').
  destruct (Z.eqb_spec rc WAL_RETRY) as [->|Hne]; [|by exists rc, ch', w'].
  specialize (Hretry eq_refl). pose proof Ho as (P' & Hi' & [[? _]|[_ Hp']]); [done|].
  assert (∃ P0, index w' P0 ∧ (useWal = true → P0 = P)) as (P0 & Hi0 & Heq).
  { destruct useWal; [exists P; split; [apply (Huse' eq_refl)|done]|by exists P']. }
  destruct (IH w' P0 ch' (cnt + 1)) as (rc & ch2 & w2 & -> & Ho2 & Hrc & Huse2); [by apply (passed_can_read w w' P0)|done|..|lia|lia|].
  - by rewrite (proj1 (proj2 (passed_lists _ _ Hp'))).
  - intros Hu. rewrite (Heq Hu). by apply Huse'.
  - exists rc, ch2, w2. split; [done|]. split; [by apply (outcome_passed w w')|]. split; [done|]. intros Hu. rewrite <- (Heq Hu). by apply Huse2.
Qed.

(** ** Properties *)

(** C15: beginning a read transaction ends after at most a hundred retries,
    whatever locks are refused, calls fail and other connections write to the
    header of the index meanwhile.  On success the shared lock of one read
    mark is held and nothing else was taken, the private header is the one in
    shared memory at the end, and the mark, when one is used, is still at most
    its last frame, so that no checkpoint may copy frames past the snapshot;
    on failure every lock is given back. *)
Theorem wal_begin_read w ch mem : can_read w → held_shared w = [] → (∀ c p, (mem c).1 = Some p → shape p) →
  ∃ rc ch' w', sqlite3WalBeginReadTransaction w ch mem = Some (rc, ch', w') ∧ rc ≠ WAL_RETRY ∧ held w' = held w ∧
    (rc ≠ SQLITE_OK → held_shared w' = [] ∧ readLock w' = readLock w) ∧
    (rc = SQLITE_OK → hdr_differs w' = Some false ∧ (exclusiveMode w = 0 → held_shared w' = [WAL_READ_LOCK (readLock w')]) ∧
      (readLock w' = 0 ∨ 1 ≤ readLock w' < WAL_NREADER ∧ ∃ m, get_word w' (25 + readLock w') = Some m ∧ m ≤ mxFrame (hdr w'))).
Proof.
  intros Hc Hsh Hmem. destruct (cr_index _ Hc) as [P Hi].
  destruct (try_begin_spec false mem (S (Z.to_nat WAL_RETRY_PROTOCOL_LIMIT)) Hmem w P ch 0 Hc Hi Hsh) as (rc & ch' & w' & E & Ho & Hrc & _); [done|lia|done|].
  exists rc, ch', w'. split; [exact E|]. split; [done|]. destruct Ho as (P' & _ & [[-> [_ Ef Hl Hd Hm]]|[Hne [Ef _]]]).
  - injection Ef as E1 E2 E3 E4 E5 E6. split; [done|]. split; [done|]. intros _. split; [done|]. split; [|done]. intros E0. by rewrite Hl, Hsh.
  - injection Ef as E1 E2 E3 E4 E5 E6 E7 E8. split; [done|]. split; [|done]. intros _. by rewrite E6.
Qed.

(** *** An index that cannot be relied on *)

(** The buffer for a frame has no room for the checksum's loop when the page
    size is not known yet: it runs at least once. *)
Lemma decode_no_size w b : szPage w = 0 → nativeCksum w = true → length b = 24%nat → is_bytes b →
  sub b 8 8 = Some (salt_bytes (aSalt (hdr w))) → be_at b 0 ≠ 0 → walDecodeFrame w (drop 24 b) b = None.
Proof.
  intros Hsz Hn Hl Hb Hs Hp. unfold walDecodeFrame. rewrite Hs, bool_decide_true by done. cbn [negb].
  pose proof (get4_spec b 0 Hb ltac:(lia)) as E. change (Z.of_nat 0) with 0 in E. rewrite E, (proj2 (Z.eqb_neq _ _)) by done.
  pose proof (sub_take b 0 8 ltac:(lia)) as E8. change (Z.of_nat 0) with 0 in E8. change (Z.of_nat 8) with 8 in E8. rewrite E8, drop_0.
  rewrite walChecksumBytes_spec; [|by apply Forall_take|by rewrite length_take, Hl|by intros E'; apply (f_equal length) in E'; rewrite length_take, Hl in E'].
  rewrite Hsz. rewrite drop_ge by lia. cbn [sub]. unfold sub. rewrite decide_True by (cbn; lia). rewrite take_0. unfold walChecksumBytes. by rewrite Hn.
Qed.

(** A connection that opens a database whose index it may only read, with
    nobody to keep it up to date, and whose log is 32 bytes of zeros and the
    header of a frame of page 1: recovery ignores the log, the page size stays
    unknown, and the check for later frames leaves its buffer. *)
Definition alone : Wal :=
  mk_wal [] (-1) 0 0 0 0 zero_hdr 0 0 0
    [mk_answer true SQLITE_READONLY_CANTINIT None; mk_answer true SQLITE_OK (Some zero_page); mk_answer true SQLITE_READONLY_CANTINIT None]
    0 0 (mk_file (replicate 35 0 ++ [1] ++ replicate 20 0) []) [] [] 0 0 1 1 (-1) [] [].

Lemma wal_unreliable_overread : sqlite3WalBeginReadTransaction alone 0 (λ _, (Some zero_page, true)) = None.
Proof. by vm_compute. Qed.

(** *** At concrete inputs *)

(** The header changes after it was read and before the mark is locked: the
    first attempt is given up, the second succeeds. *)
Definition disturbed : Wal :=
  let w := match walIndexWriteHdr (set_hdr written log_hdr) with Some w => w | None => written end in
  set_others (set_held_shared (set_hdr (set_readLock (set_writeLock w 0) (-1)) zero_hdr) []) [[]; []; [(24, 0)]; []; []; []; []; [(2, 9); (14, 9)]].

Lemma disturbed_ready : can_read disturbed.
Proof.
  destruct (walIndexWriteHdr_spec (set_hdr written log_hdr) [5; 7; 5] (default zero_page (get_page written 0))) as (w & p' & a & E & Ew & Hi' & Hl).
  - apply index_hdr, written_index.
  - vm_compute. reflexivity.
  - unfold is_u8. cbn. lia.
  - split.
    + exists [5; 7; 5]. unfold disturbed. rewrite E. by apply (index_eq w).
    + unfold disturbed. rewrite E, Ew. split; [constructor|reflexivity].
    + unfold disturbed. rewrite E, Ew. reflexivity.
    + unfold disturbed. rewrite E, Ew. intros a' Ha. change (a' ∈ answers written) in Ha.
      assert (answers written = [mk_answer true SQLITE_OK (Some zero_page)]) as Ea by (vm_compute; reflexivity).
      rewrite Ea in Ha. apply list_elem_of_singleton in Ha as ->. by split.
    + left. unfold disturbed. rewrite E, Ew. reflexivity.
    + unfold disturbed. rewrite E, Ew. split; [intros r Hr; by apply elem_of_nil in Hr|]. intros _ Hr. by apply elem_of_nil in Hr.
Qed.

(** The header that others wrote is not one: the second attempt rebuilds it
    from the log, which is empty. *)
Lemma wal_begin_read_witness : ∃ rc ch' w', sqlite3WalBeginReadTransaction disturbed 0 (λ _, (Some zero_page, true)) = Some (rc, ch', w') ∧
  rc ≠ WAL_RETRY ∧ held w' = [].
Proof.
  destruct (wal_begin_read disturbed 0 (λ _, (Some zero_page, true)) disturbed_ready) as (rc & ch' & w' & E & Hrc & Hh & _).
  - unfold disturbed. destruct (walIndexWriteHdr _); reflexivity.
  - intros _ p [= <-]. apply zero_page_shape.
  - exists rc, ch', w'. split; [exact E|]. split; [exact Hrc|]. rewrite Hh. vm_compute. reflexivity.
Defined.

End WalRead.
