(* ===== verification/WalWrite.v ===== *)
(** * Writing transactions ([native/sqlite3/sqlite3.c], wal.c)

    The pages of a transaction become frames at the end of the log, or at its
    start when everything before is in the database file.  A page that the
    transaction wrote before is written over, and then the checksums from
    there on are made again before the commit.  The commit is the last frame,
    and the header of the index that is written after it. *)

From S2P Require Import Prelude Varint WalIndex WalLog WalIter WalCkpt WalRead.

Module WalWrite.

Import Varint WalIndex WalLog WalIter WalCkpt WalRead.

(** ** Pages *)

(** A dirty page; the list by [pDirty] is a list.  The parts are left out that
    the cache alone uses. *)
(* native/sqlite3/sqlite3.c:17563-17586 PgHdr *)
Record PgHdr : Type := mk_PgHdr { pgno : Z; pData : bytes; flags : Z }.
(* native/sqlite3/sqlite3.c:17597-17597 PGHDR_WAL_APPEND *)
Definition PGHDR_WAL_APPEND : Z := 0x040.
(* native/sqlite3/sqlite3.c:57943-57943 WAL_SYNC_FLAGS *)
Definition WAL_SYNC_FLAGS (x : Z) : Z := Z.land x 0x03.
Definition MAX_SECTOR_SIZE : Z := 0x10000.

Definition set_append (p : PgHdr) (b : bool) : PgHdr :=
  mk_PgHdr (pgno p) (pData p) (if b then Z.lor (flags p) PGHDR_WAL_APPEND else Z.ldiff (flags p) PGHDR_WAL_APPEND).

(** The file says what its sectors are. *)
(* native/sqlite3/sqlite3.c:60750-60759 sqlite3SectorSize *)
Definition sqlite3SectorSize (sectorSize : Z) : Z :=
  if sectorSize <? 32 then 512 else if MAX_SECTOR_SIZE <? sectorSize then MAX_SECTOR_SIZE else sectorSize.

(** ** The file *)

(** Without the connection and the file, which are passed along. *)
(* native/sqlite3/sqlite3.c:69772-69783 WalWriter *)
Record WalWriter : Type := mk_writer { iSyncPoint : Z; syncFlags : Z; pageSize : Z }.

(* native/sqlite3/sqlite3.c:69785-69813 walWriteToLog *)
Definition walWriteToLog (p : WalWriter) (pFd : file) (pContent : bytes) (iAmt iOffset : Z) : option (Z * file) :=
  if (iOffset <? iSyncPoint p) && (iSyncPoint p <=? iOffset + iAmt) then
    let iFirstAmt := i32 (iSyncPoint p - iOffset) in
    let* d := sub pContent 0 iFirstAmt in
    let '(rc, pFd) := sqlite3OsWrite pFd d iOffset in
    if negb (rc =? SQLITE_OK) then Some (rc, pFd) else
    let iOffset := iOffset + iFirstAmt in
    let iAmt := iAmt - iFirstAmt in
    let pContent := drop (Z.to_nat iFirstAmt) pContent in
    let '(rc, pFd) := sqlite3OsSync pFd (WAL_SYNC_FLAGS (syncFlags p)) in
    if (iAmt =? 0) || negb (rc =? SQLITE_OK) then Some (rc, pFd) else
    let* d := sub pContent 0 iAmt in Some (sqlite3OsWrite pFd d iOffset)
  else
    let* d := sub pContent 0 iAmt in Some (sqlite3OsWrite pFd d iOffset).

(** The buffer of the frame's header has any bytes before. *)
(* native/sqlite3/sqlite3.c:69815-69834 walWriteOneFrame *)
Definition walWriteOneFrame (p : WalWriter) (pWal : Wal) (pPage : PgHdr) (nTruncate iOffset : Z) : option (Z * Wal) :=
  let* (aFrame, pWal) := walEncodeFrame pWal (pgno pPage) nTruncate (pData pPage) (replicate (Z.to_nat WAL_FRAME_HDRSIZE) 0) in
  let* (rc, f) := walWriteToLog p (pWalFd pWal) aFrame WAL_FRAME_HDRSIZE iOffset in
  let pWal := set_pWalFd pWal f in
  if negb (rc =? SQLITE_OK) then Some (rc, pWal) else
  let* (rc, f) := walWriteToLog p (pWalFd pWal) (pData pPage) (pageSize p) (iOffset + WAL_FRAME_HDRSIZE) in
  Some (rc, set_pWalFd pWal f).

(* native/sqlite3/sqlite3.c:68255-68271 walLimitSize *)
Definition walLimitSize (pWal : Wal) (nMax : Z) : Wal :=
  let '(rx, sz, f) := sqlite3OsFileSize (pWalFd pWal) in
  let f := if (rx =? SQLITE_OK) && (nMax <? sz) then (sqlite3OsTruncate f nMax).2 else f in
  set_pWalFd pWal f.

(** ** Checksums made again *)

(** From frame [iRead] on, [n] frames. *)
(* native/sqlite3/sqlite3.c:69872-69885 walRewriteChecksums, the loop *)
Fixpoint rewrite_frames (n : nat) (pWal : Wal) (szPage iRead : Z) : option (Z * Wal) :=
  match n with
  | O => Some (SQLITE_OK, pWal)
  | S n =>
      let iOff := walFrameOffset iRead szPage in
      let '(rc, aBuf, f) := sqlite3OsRead (pWalFd pWal) (szPage + WAL_FRAME_HDRSIZE) iOff in
      let pWal := set_pWalFd pWal f in
      if negb (rc =? SQLITE_OK) then Some (rc, pWal) else
      let* iPgno := get4 aBuf 0 in
      let* nDbSize := get4 aBuf 4 in
      let* (aFrame, pWal) := walEncodeFrame pWal iPgno nDbSize (drop (Z.to_nat WAL_FRAME_HDRSIZE) aBuf) (replicate (Z.to_nat WAL_FRAME_HDRSIZE) 0) in
      let '(rc, f) := sqlite3OsWrite (pWalFd pWal) aFrame iOff in
      let pWal := set_pWalFd pWal f in
      if rc =? SQLITE_OK then rewrite_frames n pWal szPage (iRead + 1) else Some (rc, pWal)
  end.

(** [alloc] says whether there is memory for a frame. *)
(* native/sqlite3/sqlite3.c:69836-69887 walRewriteChecksums *)
Definition walRewriteChecksums (pWal : Wal) (iLast : Z) (alloc : bool) : option (Z * Wal) :=
  let sz := szPage pWal in
  if negb alloc then Some (SQLITE_NOMEM, pWal) else
  let iCksumOff := if iReCksum pWal =? 1 then 24 else walFrameOffset (u32 (iReCksum pWal - 1)) sz + 16 in
  let '(rc, aBuf, f) := sqlite3OsRead (pWalFd pWal) (4 * 2) iCksumOff in
  let pWal := set_pWalFd pWal f in
  let* c1 := get4 aBuf 0 in
  let* c2 := get4 aBuf 4 in
  let pWal := set_hdr pWal (set_aFrameCksum (hdr pWal) (c1, c2)) in
  let iRead := iReCksum pWal in
  let pWal := set_iReCksum pWal 0 in
  if rc =? SQLITE_OK then rewrite_frames (Z.to_nat (iLast - iRead + 1)) pWal sz iRead else Some (rc, pWal).

(** ** Starting over *)

(** [salt1] is random. *)
(* native/sqlite3/sqlite3.c:69718-69770 walRestartLog *)
Definition walRestartLog (pWal : Wal) (salt1 : Z) (mem : Z → option page * bool) : option (Z * Wal) :=
  if readLock pWal =? 0 then
    let pWal := others_write pWal in
    let* nBackfill := get_word pWal 24 in
    let* (failed, rc, pWal) :=
      if 0 <? nBackfill then
        let '(rc, pWal) := walLockExclusive pWal (WAL_READ_LOCK 1) (WAL_NREADER - 1) in
        if rc =? SQLITE_OK then
          let* pWal := walRestartHdr pWal salt1 in
          Some (false, rc, walUnlockExclusive pWal (WAL_READ_LOCK 1) (WAL_NREADER - 1))
        else Some (negb (rc =? SQLITE_BUSY), rc, pWal)
      else Some (false, SQLITE_OK, pWal) in
    if failed : bool then Some (rc, pWal) else
    let pWal := set_readLock (walUnlockShared pWal (WAL_READ_LOCK 0)) (-1) in
    let* (rc, _, pWal) := try_begin (S (Z.to_nat WAL_RETRY_PROTOCOL_LIMIT)) pWal 0 true 0 mem in
    Some (rc, pWal)
  else Some (SQLITE_OK, pWal).

(** A log without frames gets a header; [random] are salts. *)
(* native/sqlite3/sqlite3.c:69942-69989 walFrames, the header of the log *)
Definition start_log (pWal : Wal) (szPage sync_flags : Z) (random : Z * Z) : option (Z * Wal) :=
  if mxFrame (hdr pWal) =? 0 then
    let* (aWalHdr, pWal) := log_header pWal szPage (replicate (Z.to_nat WAL_HDRSIZE) 0) random in
    let pWal := set_truncateOnCommit pWal 1 in
    let '(rc, f) := sqlite3OsWrite (pWalFd pWal) aWalHdr 0 in
    let pWal := set_pWalFd pWal f in
    if negb (rc =? SQLITE_OK) then Some (rc, pWal) else
    if negb (syncHeader pWal =? 0) then
      let '(rc, f) := sqlite3OsSync (pWalFd pWal) (CKPT_SYNC_FLAGS sync_flags) in Some (rc, set_pWalFd pWal f)
    else Some (SQLITE_OK, pWal)
  else Some (SQLITE_OK, pWal).

(** ** Writing frames *)

(** Whether pages follow. *)
Definition some {A} (l : list A) : bool := match l with [] => false | _ => true end.

(** The pages: the result, the number of the last frame, the offset behind
    it, the last page that was appended, the pages with their flags. *)
(* native/sqlite3/sqlite3.c:69995-70028 walFrames, the loop over pages *)
Fixpoint write_pages (w : WalWriter) (pWal : Wal) (pList : list PgHdr) (iFirst iFrame iOffset nTruncate : Z) (isCommit : bool) (pLast : option PgHdr)
  : option (Z * Z * Z * option PgHdr * list PgHdr * Wal) :=
  match pList with
  | [] => Some (SQLITE_OK, iFrame, iOffset, pLast, [], pWal)
  | p :: pList =>
      let more := some pList in
      let* (over, iWrite, pWal) :=
        if negb (iFirst =? 0) && (more || negb isCommit) then
          let* (_, iWrite, pWal) := walFindFrame pWal (pgno p) in Some (iFirst <=? iWrite, iWrite, pWal)
        else Some (false, 0, pWal) in
      if over : bool then
        let iOff := walFrameOffset iWrite (pageSize w) + WAL_FRAME_HDRSIZE in
        let pWal := if (iReCksum pWal =? 0) || (iWrite <? iReCksum pWal) then set_iReCksum pWal iWrite else pWal in
        let* d := sub (pData p) 0 (pageSize w) in
        let '(rc, f) := sqlite3OsWrite (pWalFd pWal) d iOff in
        let pWal := set_pWalFd pWal f in
        if negb (rc =? SQLITE_OK) then Some (rc, iFrame, iOffset, pLast, p :: pList, pWal) else
        let* (rc, iFrame, iOffset, pLast, pList, pWal) := write_pages w pWal pList iFirst iFrame iOffset nTruncate isCommit pLast in
        Some (rc, iFrame, iOffset, pLast, set_append p false :: pList, pWal)
      else
        let iFrame := u32 (iFrame + 1) in
        let nDbSize := if isCommit && negb more then nTruncate else 0 in
        let* (rc, pWal) := walWriteOneFrame w pWal p nDbSize iOffset in
        if negb (rc =? SQLITE_OK) then Some (rc, iFrame, iOffset, pLast, p :: pList, pWal) else
        let* (rc, iFrame, iOffset, pLast, pList, pWal) :=
          write_pages w pWal pList iFirst iFrame (iOffset + (pageSize w + WAL_FRAME_HDRSIZE)) nTruncate isCommit (Some p) in
        Some (rc, iFrame, iOffset, pLast, set_append p true :: pList, pWal)
  end.

(** The padding: the result, the offset, how many frames. *)
(* native/sqlite3/sqlite3.c:70057-70063 walFrames, the padding *)
Fixpoint pad_frames (fuel : nat) (w : WalWriter) (pWal : Wal) (pLast : option PgHdr) (nTruncate iOffset nExtra : Z)
  : option (Z * Z * Z * Wal) :=
  match fuel with
  | O => None
  | S fuel =>
      if iOffset <? iSyncPoint w then
        let* p := pLast in
        let* (rc, pWal) := walWriteOneFrame w pWal p nTruncate iOffset in
        if negb (rc =? SQLITE_OK) then Some (rc, iOffset, nExtra, pWal) else
        pad_frames fuel w pWal pLast nTruncate (iOffset + (pageSize w + WAL_FRAME_HDRSIZE)) (nExtra + 1)
      else Some (SQLITE_OK, iOffset, nExtra, pWal)
  end.

(** The end of a transaction: padding and sync.  Whether the call gives up,
    the result, and the number of extra frames. *)
(* native/sqlite3/sqlite3.c:70050-70069 walFrames, the end of a transaction *)
Definition sync_log (w : WalWriter) (pWal : Wal) (pLast : option PgHdr) (nTruncate iOffset sectorSize : Z) : option (bool * Z * Z * Wal) :=
  let* (rc, nExtra, bSync, pWal) :=
    if negb (padToSectorBoundary pWal =? 0) then
      let sectorSize := sqlite3SectorSize sectorSize in
      let w := mk_writer ((iOffset + sectorSize - 1) / sectorSize * sectorSize) (syncFlags w) (pageSize w) in
      let* (rc, _, nExtra, pWal) := pad_frames (S (Z.to_nat (iSyncPoint w - iOffset))) w pWal pLast nTruncate iOffset 0 in
      Some (rc, nExtra, iSyncPoint w =? iOffset, pWal)
    else Some (SQLITE_OK, 0, true, pWal) in
  if negb (rc =? SQLITE_OK) then Some (true, rc, nExtra, pWal) else
  if bSync : bool then
    let '(rc, f) := sqlite3OsSync (pWalFd pWal) (WAL_SYNC_FLAGS (syncFlags w)) in Some (false, rc, nExtra, set_pWalFd pWal f)
  else Some (false, rc, nExtra, pWal).

(** The frames that go to the index: those appended, and the padding. *)
(* native/sqlite3/sqlite3.c:70090-70100 walFrames, the frames of the index *)
Definition new_frames (pList : list PgHdr) (pLast : option PgHdr) (nExtra : Z) : list Z :=
  map pgno (filter (λ p, negb (Z.land (flags p) PGHDR_WAL_APPEND =? 0)) pList) ++
  match pLast with Some p => replicate (Z.to_nat nExtra) (pgno p) | None => [] end.

(** The frames are in the log: the index, and the header. *)
(* native/sqlite3/sqlite3.c:70084-70117 walFrames, the index *)
Definition index_commit (pWal : Wal) (szPage nTruncate : Z) (isCommit : bool) (pgnos : list Z) : option (Z * Wal) :=
  let* (rc, iFrame, pWal) := index_frames pWal (mxFrame (hdr pWal)) pgnos in
  if negb (rc =? SQLITE_OK) then Some (rc, pWal) else
  let h := hdr pWal in
  let pWal := set_hdr pWal (mk_hdr (iVersion h) (unused h) (if isCommit then u32 (iChange h + 1) else iChange h) (isInit h) (bigEndCksum h)
    (u16 (Z.lor (Z.land szPage 0xff00) (Z.shiftr szPage 16))) iFrame (if isCommit then nTruncate else nPage h) (aFrameCksum h) (aSalt h) (aCksum h)) in
  if isCommit then
    let* pWal := walIndexWriteHdr pWal in Some (SQLITE_OK, set_iCallback pWal iFrame)
  else Some (SQLITE_OK, pWal).

(** With the log open for frames: the pages, the checksums, the end of the
    transaction.  The result, the pages with their flags, the last one
    appended, how many extra frames. *)
(* native/sqlite3/sqlite3.c:69994-70082 walFrames, the frames *)
Definition write_frames (pWal : Wal) (sz : Z) (pList : list PgHdr) (nTruncate : Z) (isCommit : bool) (sync_flags iFirst sectorSize : Z) (alloc : bool)
  : option (Z * list PgHdr * option PgHdr * Z * Wal) :=
  let iFrame := mxFrame (hdr pWal) in
  let w := mk_writer 0 sync_flags sz in
  let* (rc, iFrame, iOffset, pLast, pList, pWal) :=
    write_pages w pWal pList iFirst iFrame (walFrameOffset (u32 (iFrame + 1)) sz) nTruncate isCommit None in
  if negb (rc =? SQLITE_OK) then Some (rc, pList, pLast, 0, pWal) else
  let* (rc, pWal) := if isCommit && negb (iReCksum pWal =? 0) then walRewriteChecksums pWal iFrame alloc else Some (rc, pWal) in
  if negb (rc =? SQLITE_OK) then Some (rc, pList, pLast, 0, pWal) else
  let* (ended, rc, nExtra, pWal) :=
    if isCommit && negb (WAL_SYNC_FLAGS sync_flags =? 0) then sync_log w pWal pLast nTruncate iOffset sectorSize
    else Some (false, rc, 0, pWal) in
  if ended : bool then Some (rc, pList, pLast, nExtra, pWal) else
  let pWal :=
    if isCommit && negb (truncateOnCommit pWal =? 0) && (0 <=? mxWalSize pWal) then
      let end_ := walFrameOffset (u32 (iFrame + nExtra + 1)) sz in
      set_truncateOnCommit (walLimitSize pWal (if mxWalSize pWal <? end_ then end_ else mxWalSize pWal)) 0
    else pWal in
  Some (rc, pList, pLast, nExtra, pWal).

(** The pages go to the log, and the frames to the index: the result, the
    pages with their flags. *)
(* native/sqlite3/sqlite3.c:69994-70117 walFrames, the frames and the index *)
Definition write_index (pWal : Wal) (sz : Z) (pList : list PgHdr) (nTruncate : Z) (isCommit : bool) (sync_flags iFirst sectorSize : Z) (alloc : bool)
  : option (Z * list PgHdr * Wal) :=
  let* (rc, pList, pLast, nExtra, pWal) := write_frames pWal sz pList nTruncate isCommit sync_flags iFirst sectorSize alloc in
  if negb (rc =? SQLITE_OK) then Some (rc, pList, pWal) else
  let* (rc, pWal) := index_commit pWal sz nTruncate isCommit (new_frames pList pLast nExtra) in
  Some (rc, pList, pWal).

(** The result, the pages with their flags, the connection.  [salt1] and
    [random] are random, [sectorSize] is what the file says, [alloc] and [mem]
    are the memory there is. *)
(* native/sqlite3/sqlite3.c:69893-70121 walFrames *)
Definition walFrames (pWal : Wal) (sz : Z) (pList : list PgHdr) (nTruncate : Z) (isCommit : bool) (sync_flags : Z)
    (salt1 : Z) (random : Z * Z) (sectorSize : Z) (alloc : bool) (mem : Z → option page * bool) : option (Z * list PgHdr * Wal) :=
  let pWal := others_write pWal in
  let* pLive := walIndexHdr pWal in
  let* differs := hdr_differs pWal in
  let iFirst := if differs : bool then u32 (mxFrame pLive + 1) else 0 in
  let* (rc, pWal) := walRestartLog pWal salt1 mem in
  if negb (rc =? SQLITE_OK) then Some (rc, pList, pWal) else
  let* (rc, pWal) := start_log pWal sz sync_flags random in
  if negb (rc =? SQLITE_OK) then Some (rc, pList, pWal) else
  if negb (i32 (szPage pWal) =? sz) then Some (SQLITE_CORRUPT, pList, pWal) else
  write_index pWal sz pList nTruncate isCommit sync_flags iFirst sectorSize alloc.

(** Without the handler of exceptions, which other systems have. *)
(* native/sqlite3/sqlite3.c:70123-70144 sqlite3WalFrames *)
Definition sqlite3WalFrames (pWal : Wal) (sz : Z) (pList : list PgHdr) (nTruncate : Z) (isCommit : bool) (sync_flags : Z)
    (salt1 : Z) (random : Z * Z) (sectorSize : Z) (alloc : bool) (mem : Z → option page * bool) : option (Z * list PgHdr * Wal) :=
  walFrames pWal sz pList nTruncate isCommit sync_flags salt1 random sectorSize alloc mem.

(** ** Bytes of the log *)

Lemma write_at_app (a r d : bytes) o : o = Z.of_nat (length a) → write_at (a ++ r) o d = a ++ d ++ drop (length d) r.
Proof.
  intros ->. unfold write_at. rewrite Nat2Z.id, take_app_length, length_app. replace (length a - _)%nat with O by lia. cbn [replicate app].
  rewrite <- drop_drop, drop_app_length. done.
Qed.

Lemma read_app f (a b r : bytes) n o : content f = a ++ b ++ r → o = Z.of_nat (length a) → n = Z.of_nat (length b) →
  ∃ rc l, sqlite3OsRead f n o = (rc, b, mk_file (content f) l).
Proof.
  intros E -> ->. unfold sqlite3OsRead. destruct (next_code (io_codes f)) as [rc l]. rewrite E, !Nat2Z.id, drop_app_length, take_app_length, Nat.sub_diag.
  cbn [replicate]. rewrite app_nil_r. by eexists _, _.
Qed.

Lemma get4_be l v r : is_u32 v → get4 (l ++ be_bytes v ++ r) (Z.of_nat (length l)) = Some v.
Proof.
  intros Hv. transitivity (get4 (be_bytes v) (Z.of_nat 0)).
  - unfold get4. rewrite Nat2Z.id, drop_app_length. reflexivity.
  - rewrite get4_spec by (apply is_bytes_be || (cbn; lia)). f_equal. rewrite <- (app_nil_r (be_bytes v)). by apply (be_at_bytes []).
Qed.

(** A frame whose salts and sums, [g], may be any. *)
Definition loose (e : entry) (g : bytes) : bytes := be_bytes e.1.1 ++ be_bytes e.1.2 ++ g ++ e.2.

Definition loose_ok (e : entry) (g : bytes) : Prop := length g = 16%nat.

Fixpoint rough (l : list entry) (gs : list bytes) : bytes :=
  match l, gs with e :: l, g :: gs => loose e g ++ rough l gs | _, _ => [] end.

(** The salts and sums that make a frame valid. *)
Definition seal (big : bool) (salt ck : Z * Z) (e : entry) : bytes :=
  salt_bytes salt ++ be_bytes (entry_sum big ck e).1 ++ be_bytes (entry_sum big ck e).2.

Lemma frame_loose big salt ck e : frame_of big salt ck e = loose e (seal big salt ck e).
Proof. unfold frame_of, frame_header, loose, seal, entry_sum. by rewrite <- !(assoc_L (++)). Qed.

Lemma loose_length e g sz : entry_ok sz e → length g = 16%nat → length (loose e g) = Z.to_nat (sz + 24).
Proof. intros (_ & _ & _ & _ & Hl) Hg. unfold loose. rewrite !length_app, Hg. cbn. lia. Qed.

Lemma loose_get sz e g : entry_ok sz e → length g = 16%nat →
  get4 (loose e g) 0 = Some e.1.1 ∧ get4 (loose e g) 4 = Some e.1.2 ∧ drop (Z.to_nat WAL_FRAME_HDRSIZE) (loose e g) = e.2.
Proof.
  intros (He1 & _ & He3 & _) Hg. split; [exact (get4_be [] _ _ He1)|]. split; [exact (get4_be (be_bytes e.1.1) _ _ He3)|].
  unfold loose. rewrite !(assoc_L (++)). apply drop_app_length'. by rewrite !length_app, Hg.
Qed.

Lemma rough_app l1 l2 gs1 gs2 : length gs1 = length l1 → rough (l1 ++ l2) (gs1 ++ gs2) = rough l1 gs1 ++ rough l2 gs2.
Proof.
  revert gs1. induction l1 as [|e l1 IH]; intros [|g gs1] H; try done. cbn [rough app]. injection H as H. by rewrite IH, (assoc_L (++)) by done.
Qed.

Lemma rough_length sz l : ∀ gs, Forall (entry_ok sz) l → Forall2 loose_ok l gs → length (rough l gs) = (length l * Z.to_nat (sz + 24))%nat.
Proof.
  intros gs Hl H. revert Hl. induction H as [|e g l gs Hg H IH]; intros Hl; [done|]. apply Forall_cons in Hl as [He Hl]. cbn [rough length].
  rewrite length_app, IH, (loose_length e g sz) by done. lia.
Qed.

Lemma log_frames_app big salt l1 l2 : ∀ ck, log_frames big salt ck (l1 ++ l2) =
  log_frames big salt ck l1 ++ log_frames big salt (end_sum ck (valid big ck l1)) l2.
Proof. induction l1 as [|e l1 IH]; intros ck; [done|]. cbn [app log_frames valid end_sum]. by rewrite IH, (assoc_L (++)). Qed.

(** Whatever is said of valid frames holds of them as frames of any seal. *)
Lemma log_frames_rough big salt l : ∀ ck, ∃ gs, log_frames big salt ck l = rough l gs ∧ Forall2 loose_ok l gs.
Proof.
  induction l as [|e l IH]; intros ck; [by exists []|]. destruct (IH (entry_sum big ck e)) as (gs & E & H).
  exists (seal big salt ck e :: gs). cbn [log_frames rough]. rewrite frame_loose, E. split; [done|]. by constructor.
Qed.

Lemma end_sum_app ck l1 l2 : end_sum ck (l1 ++ l2) = end_sum (end_sum ck l1) l2.
Proof. revert ck. induction l1 as [|[[p t] c] l1 IH]; intros ck; [done|]. cbn. apply IH. Qed.

Lemma end_sum_valid_app big ck l1 l2 :
  end_sum ck (valid big ck (l1 ++ l2)) = end_sum (end_sum ck (valid big ck l1)) (valid big (end_sum ck (valid big ck l1)) l2).
Proof. by rewrite valid_app, end_sum_app. Qed.

Lemma end_sum_u32 big sz l : Forall (entry_ok sz) l → page_size sz → ∀ ck, pair_u32 ck → pair_u32 (end_sum ck (valid big ck l)).
Proof. intros Hl Hp. induction Hl as [|e l He Hl IH]; intros ck Hc; [done|]. cbn. apply IH. by eapply entry_sum_u32. Qed.

(** ** Writes *)

(** A write puts down the first [k] bytes, all when it succeeds. *)
Definition put (a r d c : bytes) (rc : Z) : Prop :=
  ∃ k, (k ≤ length d)%nat ∧ c = a ++ take k d ++ drop k r ∧ (rc = SQLITE_OK → k = length d).

Lemma put_none a r d rc : rc ≠ SQLITE_OK → put a r d (a ++ r) rc.
Proof. intros H. exists O. by split; [lia|]. Qed.

Lemma put_all a r d rc : put a r d (a ++ d ++ drop (length d) r) rc.
Proof. exists (length d). by rewrite take_ge by lia. Qed.

(** What comes after a write that succeeded. *)
Lemma put_more a r d1 d2 c rc : put (a ++ d1) (drop (length d1) r) d2 c rc → put a r (d1 ++ d2) c rc.
Proof.
  intros (k & Hk & -> & H). exists (length d1 + k)%nat. rewrite length_app. split; [lia|]. split; [|intros; rewrite H by done; lia].
  by rewrite take_app_add, <- drop_drop, <- !(assoc_L (++)).
Qed.

Lemma put_less a r d1 d2 c rc : rc ≠ SQLITE_OK → put a r d1 c rc → put a r (d1 ++ d2) c rc.
Proof.
  intros Hrc (k & Hk & -> & _). exists k. rewrite length_app. split; [lia|]. split; [|done]. by rewrite take_app_le by lia.
Qed.

Lemma put_ok a r d c : put a r d c SQLITE_OK → c = a ++ d ++ drop (length d) r.
Proof. intros (k & _ & -> & ->); [|done]. by rewrite take_ge by lia. Qed.

Lemma put_done a r d c rc : put a r d c SQLITE_OK → put a r d c rc.
Proof. intros ->%put_ok. apply put_all. Qed.

Lemma write_put f a r d o : content f = a ++ r → o = Z.of_nat (length a) →
  ∃ rc f', sqlite3OsWrite f d o = (rc, f') ∧ put a r d (content f') rc.
Proof.
  intros E Ho. unfold sqlite3OsWrite. destruct (next_code (io_codes f)) as [rc l]. eexists _, _. split; [done|]. cbn [content].
  destruct (Z.eqb_spec rc SQLITE_OK) as [->|Hrc]; rewrite E; [|by apply put_none]. rewrite write_at_app by done. apply put_all.
Qed.

Lemma walWriteToLog_spec p f a r d n o : content f = a ++ r → o = Z.of_nat (length a) → n = Z.of_nat (length d) → n < 2 ^ 31 →
  ∃ rc f', walWriteToLog p f d n o = Some (rc, f') ∧ put a r d (content f') rc.
Proof.
  intros E Ho Hn H31. unfold walWriteToLog. destruct ((o <? iSyncPoint p) && (iSyncPoint p <=? o + n)) eqn:Esp.
  2: { rewrite sub_all by done. destruct (write_put f a r d o E Ho) as (rc & f' & -> & H). by exists rc, f'. }
  rewrite i32_id by (unfold is_i32; lia). set (m := iSyncPoint p - o). assert (0 < m ≤ n) as Hm by lia. clearbody m.
  pose proof (sub_take d 0 (Z.to_nat m) ltac:(lia)) as Es. change (Z.of_nat 0) with 0 in Es. rewrite Z2Nat.id, drop_0 in Es by lia. rewrite Es. clear Es.
  set (d1 := take (Z.to_nat m) d). set (d2 := drop (Z.to_nat m) d).
  assert (d = d1 ++ d2) as Ed by (symmetry; apply take_drop). assert (length d1 = Z.to_nat m) as L1 by (unfold d1; rewrite length_take; lia).
  assert (length d2 = Z.to_nat (n - m)) as L2 by (unfold d2; rewrite length_drop; lia).
  destruct (write_put f a r d1 o E Ho) as (rc & f1 & -> & H1). destruct (Z.eqb_spec rc SQLITE_OK) as [->|Hrc]; cbn [negb].
  2: { exists rc, f1. split; [done|]. rewrite Ed. by apply put_less. }
  apply put_ok in H1. destruct (sync_spec f1 (WAL_SYNC_FLAGS (syncFlags p))) as (rc2 & f2 & -> & E2).
  destruct ((n - m =? 0) || negb (rc2 =? SQLITE_OK)) eqn:Eend.
  - exists rc2, f2. split; [done|]. rewrite E2, H1, Ed. apply put_more. destruct (Z.eqb_spec rc2 SQLITE_OK) as [->|Hrc].
    + assert (d2 = []) as -> by (apply nil_length_inv; lia). exists O. by rewrite drop_0, <- (assoc_L (++)).
    + rewrite (assoc_L (++)). by apply put_none.
  - rewrite sub_all by lia. rewrite H1, (assoc_L (++)) in E2. destruct (write_put f2 (a ++ d1) (drop (length d1) r) d2 (o + m) E2) as (rc3 & f3 & -> & H3).
    { rewrite length_app. lia. }
    exists rc3, f3. split; [done|]. rewrite Ed. by apply put_more.
Qed.

(** ** One frame *)

(** A connection after a frame is encoded, and the bytes of the frame: with
    salts and sums, or with neither while checksums are to be made again. *)
Definition encoded (w : Wal) (e : entry) : Wal :=
  if iReCksum w =? 0 then set_hdr w (set_aFrameCksum (hdr w) (entry_sum (big_end w) (aFrameCksum (hdr w)) e)) else w.

Definition seal_of (w : Wal) (e : entry) : bytes :=
  if iReCksum w =? 0 then seal (big_end w) (aSalt (hdr w)) (aFrameCksum (hdr w)) e else replicate 16 0.

Lemma seal_of_length w e : loose_ok e (seal_of w e).
Proof. unfold loose_ok, seal_of. by destruct (_ =? _). Qed.

Lemma encode_spec w e sz : entry_ok sz e → page_size sz → szPage w = sz →
  walEncodeFrame w e.1.1 e.1.2 e.2 (replicate 24 0) = Some (be_bytes e.1.1 ++ be_bytes e.1.2 ++ seal_of w e, encoded w e).
Proof.
  intros He Hp Hsz. pose proof He as (_ & _ & _ & Hd & Hl). unfold seal_of, encoded. destruct (Z.eqb_spec (iReCksum w) 0) as [E|E].
  - rewrite walEncodeFrame_spec by (done || congruence). unfold frame_header, seal, entry_sum. by rewrite <- !(assoc_L (++)).
  - unfold walEncodeFrame. change 0 with (Z.of_nat 0) at 2. rewrite put4_take by (cbn; lia). cbn [take drop app Nat.add replicate].
    change 4 with (Z.of_nat 4). rewrite put4_take by (cbn; lia). cbn [take drop app be_bytes Nat.add].
    rewrite (proj2 (Z.eqb_neq _ _)) by done. reflexivity.
Qed.

Definition entry_of (t : Z) (p : PgHdr) : entry := (pgno p, t, pData p).

Lemma walWriteOneFrame_spec p w pg t o sz a r : entry_ok sz (entry_of t pg) → page_size sz → sz ≤ 65536 → szPage w = sz → pageSize p = sz →
  content (pWalFd w) = a ++ r → o = Z.of_nat (length a) →
  ∃ rc f, walWriteOneFrame p w pg t o = Some (rc, set_pWalFd (encoded w (entry_of t pg)) f) ∧
    put a r (loose (entry_of t pg) (seal_of w (entry_of t pg))) (content f) rc.
Proof.
  intros He Hp Hle Hsz Hpz E Ho. unfold walWriteOneFrame. change (Z.to_nat WAL_FRAME_HDRSIZE) with 24%nat.
  rewrite (encode_spec w (entry_of t pg) sz He Hp Hsz : walEncodeFrame w (pgno pg) t (pData pg) _ = _).
  set (e := entry_of t pg) in *. set (s := seal_of w e). assert (length s = 16%nat) as Ls by apply seal_of_length.
  assert (loose e s = (be_bytes e.1.1 ++ be_bytes e.1.2 ++ s) ++ e.2) as -> by (unfold loose; by rewrite <- !(assoc_L (++))).
  set (h := be_bytes e.1.1 ++ be_bytes e.1.2 ++ s). assert (length h = 24%nat) as Lh by (unfold h; rewrite !length_app, Ls; done).
  assert (content (pWalFd (encoded w e)) = a ++ r) as E1 by (unfold encoded; by destruct (_ =? _)).
  destruct (walWriteToLog_spec p (pWalFd (encoded w e)) a r h WAL_FRAME_HDRSIZE o E1 Ho) as (rc & f & -> & H); [by rewrite Lh|done|].
  destruct (Z.eqb_spec rc SQLITE_OK) as [->|Hrc]; cbn [negb].
  2: { exists rc, f. split; [done|]. by apply put_less. }
  apply put_ok in H. rewrite (assoc_L (++)) in H. destruct He as (_ & _ & _ & _ & Hl). change (e.2) with (pData pg) in *.
  destruct (walWriteToLog_spec p f (a ++ h) (drop (length h) r) (pData pg) (pageSize p) (o + WAL_FRAME_HDRSIZE) H) as (rc2 & f2 & E2 & H2);
    [rewrite length_app, Lh; change WAL_FRAME_HDRSIZE with 24; lia|lia|lia|].
  change (pWalFd (set_pWalFd (encoded w e) f)) with f. rewrite E2. exists rc2, f2. split; [done|]. by apply put_more.
Qed.

(** ** The log while a transaction writes *)

(** A later value, if there is one, before an earlier one. *)
Definition or_else {A} (a b : option A) : option A := match a with Some x => Some x | None => b end.

Lemma or_else_none {A} (a : option A) : or_else a None = a.
Proof. by destruct a. Qed.

(** What the log has for a page: its last frame. *)
Fixpoint data_of (l : list entry) (q : Z) : option bytes :=
  match l with [] => None | e :: l => or_else (data_of l q) (if e.1.1 =? q then Some e.2 else None) end.

Definition page_of (e : entry) : Z := e.1.1.

Lemma data_of_app l1 l2 q : data_of (l1 ++ l2) q = or_else (data_of l2 q) (data_of l1 q).
Proof.
  induction l1 as [|e l1 IH]; cbn [app data_of]; [by destruct (data_of l2 q)|]. rewrite IH. by destruct (data_of l2 q).
Qed.

Lemma data_of_none l q : q ∉ map page_of l → data_of l q = None.
Proof.
  induction l as [|e l IH]; intros H; [done|]. cbn in *. apply not_elem_of_cons in H as [H1 H2]. rewrite IH by done.
  cbn. by rewrite (proj2 (Z.eqb_neq _ _)) by (intros E; by apply H1).
Qed.

(** The connection without what writing to the log changes: the running
    checksum, the file, where checksums are to be made again, and whether the
    log is to be truncated. *)
Definition core (w : Wal) : Wal :=
  set_truncateOnCommit (set_pWalFd (set_iReCksum (set_hdr w (set_aFrameCksum (hdr w) (0, 0))) 0) (mk_file [] [])) 0.

Definition wrote (w w' : Wal) : Prop := core w' = core w.

Lemma wrote_refl w : wrote w w.
Proof. done. Qed.

Lemma wrote_trans w1 w2 w3 : wrote w1 w2 → wrote w2 w3 → wrote w1 w3.
Proof. unfold wrote. congruence. Qed.

Lemma wrote_encoded w e f : wrote w (set_pWalFd (encoded w e) f).
Proof. unfold encoded. by destruct (_ =? _). Qed.

Lemma psz sz : size_ok sz → page_size sz.
Proof. intros []. apply power_page_size; [done|lia]. Qed.

Section Writing.
Context (sz : Z) (Hsz : size_ok sz) (big : bool) (salt : Z * Z) (a0 : bytes) (ck : Z * Z) (Hck : pair_u32 ck).
Context (La0 : length a0 = 32%nat) (Sa0 : drop 24 a0 = be_bytes ck.1 ++ be_bytes ck.2).

Local Abbreviation n := (Z.to_nat (sz + 24)).

(** The log file: frames [l1] that are valid, and frames [l2] whose checksums
    are still to be made. *)
Record flog (w : Wal) (l1 l2 : list entry) (gs : list bytes) (r : bytes) : Prop := {
  fl_content : content (pWalFd w) = a0 ++ log_frames big salt ck l1 ++ rough l2 gs ++ r;
  fl_loose : Forall2 loose_ok l2 gs;
  fl_sum : iReCksum w = 0 ∧ l2 = [] ∧ aFrameCksum (hdr w) = end_sum ck (valid big ck l1) ∨
    iReCksum w = Z.of_nat (length l1) + 1 ∧ l2 ≠ [];
  fl_entries : Forall (entry_ok sz) (l1 ++ l2);
  fl_conn : big_end w = big ∧ aSalt (hdr w) = salt ∧ szPage w = sz
}.

(** Whatever happened behind the frames [c]. *)
Definition intact (c : list entry) (b : bytes) : Prop := ∃ r, b = a0 ++ log_frames big salt ck c ++ r.

Lemma intact_prefix c l r : intact c (a0 ++ log_frames big salt ck (c ++ l) ++ r).
Proof. exists (log_frames big salt (end_sum ck (valid big ck c)) l ++ r). by rewrite log_frames_app, <- !(assoc_L (++)). Qed.

Lemma flog_intact w c l l2 gs r : flog w (c ++ l) l2 gs r → intact c (content (pWalFd w)).
Proof. intros H. rewrite (fl_content _ _ _ _ _ H). apply intact_prefix. Qed.

Lemma flog_length w l1 l2 gs r : flog w l1 l2 gs r →
  length (a0 ++ log_frames big salt ck l1 ++ rough l2 gs) = (32 + (length l1 + length l2) * n)%nat.
Proof.
  intros H. pose proof (fl_entries _ _ _ _ _ H) as [H1 H2]%Forall_app.
  rewrite !length_app, La0, (log_frames_length _ _ sz), (rough_length sz) by (done || apply (fl_loose _ _ _ _ _ H)). lia.
Qed.

(** One frame more. *)
Lemma flog_append p w l1 l2 gs r t pg o : flog w l1 l2 gs r → entry_ok sz (entry_of t pg) → pageSize p = sz →
  o = walFrameOffset (Z.of_nat (length (l1 ++ l2)) + 1) sz →
  ∃ rc w', walWriteOneFrame p w pg t o = Some (rc, w') ∧ wrote w w' ∧
    (rc ≠ SQLITE_OK → ∀ c l, l1 = c ++ l → intact c (content (pWalFd w'))) ∧
    (rc = SQLITE_OK → ∃ l1' l2' gs' r', flog w' l1' l2' gs' r' ∧ l1' ++ l2' = l1 ++ l2 ++ [entry_of t pg] ∧ (iReCksum w = 0 → l2' = []) ∧ ∃ x, l1' = l1 ++ x).
Proof.
  intros H He Hp ->. pose proof H as [Ec Hg Hs Hl (Eb & Esalt & Esz)]. pose proof (psz sz Hsz) as Hps.
  rewrite !(assoc_L (++)) in Ec. set (a := (a0 ++ log_frames big salt ck l1) ++ rough l2 gs) in *.
  assert (length a = (32 + (length l1 + length l2) * n)%nat) as La by (unfold a; rewrite <- (assoc_L (++)); by apply (flog_length w _ _ _ r)).
  destruct (walWriteOneFrame_spec p w pg t (walFrameOffset (Z.of_nat (length (l1 ++ l2)) + 1) sz) sz a r He Hps) as (rc & f & -> & Hput);
    [destruct Hsz; lia|done|done|done|..].
  { rewrite La, length_app. unfold walFrameOffset. change WAL_HDRSIZE with 32. change WAL_FRAME_HDRSIZE with 24. destruct Hsz. nia. }
  eexists rc, _. split; [done|]. split; [apply wrote_encoded|]. split.
  { intros _ c l ->. destruct Hput as (k & _ & E & _). cbn [pWalFd set_pWalFd]. rewrite E. unfold a. rewrite <- !(assoc_L (++)). apply intact_prefix. }
  intros ->. apply put_ok in Hput. set (e := entry_of t pg) in *. set (r' := drop _ r) in Hput. clearbody r'.
  assert (Forall (entry_ok sz) ((l1 ++ l2) ++ [e])) as Hl' by (apply Forall_app; split; [done|by constructor]).
  destruct Hs as [(E0 & -> & Esum)|[Ek Hne]].
  - exists (l1 ++ [e]), [], [], r'. rewrite app_nil_r in Hl'. cbn [app]. split; [|split_and!; [by rewrite app_nil_r|done|by eexists]].
    unfold encoded in *. unfold seal_of in Hput. rewrite E0 in *. cbn [Z.eqb] in *. split; try done; [|left|by rewrite app_nil_r].
    + cbn [pWalFd set_pWalFd rough app]. rewrite Hput. unfold a. rewrite log_frames_app. cbn [log_frames rough]. rewrite frame_loose, Eb, Esalt, Esum.
      by rewrite !app_nil_r, <- !(assoc_L (++)).
    + split; [done|]. split; [done|]. cbn. by rewrite end_sum_valid_app, Esum, Eb.
  - exists l1, (l2 ++ [e]), (gs ++ [replicate 16 0]), r'. split; [|split_and!; [done|lia|exists []; by rewrite app_nil_r]].
    unfold encoded in *. unfold seal_of in Hput. rewrite (proj2 (Z.eqb_neq _ _)) in * by lia. split; try done.
    + cbn [pWalFd set_pWalFd]. rewrite Hput. unfold a. rewrite rough_app by (symmetry; by apply (Forall2_length _ _ _ Hg)). cbn [rough].
      by rewrite app_nil_r, <- !(assoc_L (++)).
    + apply Forall2_app; [done|]. by constructor.
    + right. split; [done|]. by destruct l2.
    + by rewrite (assoc_L (++)).
Qed.

(** From some frame on, checksums are to be made again. *)
Lemma flog_loosen w l1 l2 gs r i : flog w l1 l2 gs r → 1 ≤ i ≤ Z.of_nat (length (l1 ++ l2)) →
  ∃ m1 x gs', l1 = m1 ++ x ∧ Z.of_nat (length m1) + 1 = (if (iReCksum w =? 0) || (i <? iReCksum w) then i else iReCksum w) ∧
    content (pWalFd w) = a0 ++ log_frames big salt ck m1 ++ rough (x ++ l2) gs' ++ r ∧ Forall2 loose_ok (x ++ l2) gs'.
Proof.
  intros [Ec Hg Hs _ _] Hi. rewrite length_app in Hi. destruct ((iReCksum w =? 0) || (i <? iReCksum w)) eqn:E.
  - assert (i ≤ Z.of_nat (length l1)) as Hle by (destruct Hs as [(_ & -> & _)|[? _]]; cbn in *; lia).
    set (m1 := take (Z.to_nat (i - 1)) l1). set (x := drop (Z.to_nat (i - 1)) l1). assert (l1 = m1 ++ x) as El by (symmetry; apply take_drop).
    destruct (log_frames_rough big salt x (end_sum ck (valid big ck m1))) as (gx & Ex & Hx). exists m1, x, (gx ++ gs).
    split; [done|]. split; [unfold m1; rewrite length_take; lia|]. split; [|by apply Forall2_app].
    rewrite Ec, El, log_frames_app, Ex, rough_app by (symmetry; by apply (Forall2_length _ _ _ Hx)). by rewrite <- !(assoc_L (++)).
  - exists l1, [], gs. rewrite app_nil_r. split; [done|]. split; [|done]. destruct Hs as [(? & _)|[? _]]; lia.
Qed.

Lemma rough_split l gs x e y : l = x ++ e :: y → Forall2 loose_ok l gs → ∃ gx g gy, gs = gx ++ g :: gy ∧
  Forall2 loose_ok x gx ∧ loose_ok e g ∧ Forall2 loose_ok y gy ∧ rough l gs = rough x gx ++ loose e g ++ rough y gy.
Proof.
  intros -> H. apply Forall2_app_inv_l in H as (gx & gz & Hx & Hz & ->). apply Forall2_cons_inv_l in Hz as (g & gy & Hg & Hy & ->).
  exists gx, g, gy. split_and!; try done. by rewrite rough_app by (symmetry; by apply (Forall2_length _ _ _ Hx)).
Qed.

(** A page of this transaction written over. *)
Lemma flog_overwrite w l1 l2 gs r i (e : entry) d c l : flog w l1 l2 gs r → (l1 ++ l2 : list entry) !! Z.to_nat (i - 1) = Some e → 1 ≤ i →
  entry_ok sz (e.1, d) → l1 = c ++ l → Z.of_nat (length c) < i →
  let w1 := if (iReCksum w =? 0) || (i <? iReCksum w) then set_iReCksum w i else w in
  ∃ rc f, sqlite3OsWrite (pWalFd w1) d (walFrameOffset i sz + WAL_FRAME_HDRSIZE) = (rc, f) ∧ wrote w (set_pWalFd w1 f) ∧
    (rc ≠ SQLITE_OK → intact c (content f)) ∧
    (rc = SQLITE_OK → ∃ l1' l2' gs', flog (set_pWalFd w1 f) l1' l2' gs' r ∧ l1' ++ l2' = <[Z.to_nat (i - 1) := (e.1, d) : entry]> (l1 ++ l2 : list entry) ∧
      ∃ x, l1' = c ++ x).
Proof.
  intros H He Hi Hd El Hc w1. assert (Z.to_nat (i - 1) < length (l1 ++ l2))%nat as Hlt by (by eapply lookup_lt_Some).
  destruct (flog_loosen w l1 l2 gs r i H ltac:(lia)) as (m1 & x & gs' & Em & Ek & Ec & Hg).
  pose proof H as [_ _ _ Hl (Eb & Esalt & Esz)].
  assert (∃ y, m1 = c ++ y) as [y Ey].
  { exists (drop (length c) m1). pose proof (f_equal (take (length c)) (eq_trans (eq_sym El) Em)) as E. rewrite take_app_length in E.
    rewrite take_app_le in E. { rewrite E at 1. by rewrite take_drop. }
    pose proof (f_equal length El) as EL. rewrite length_app in EL. revert Ek. destruct ((iReCksum w =? 0) || (i <? iReCksum w)); intros Ek; [lia|].
    destruct (fl_sum _ _ _ _ _ H) as [(E0 & _ & _)|[Ere _]]; [lia|]. pose proof (f_equal length Em) as EL2. rewrite length_app in EL2. lia. }
  assert (Z.of_nat (length m1) < i) as Hm1 by (revert Ek; destruct ((iReCksum w =? 0) || (i <? iReCksum w)) eqn:E; lia).
  assert (∀ f, wrote w (set_pWalFd w1 f)) as Hwr.
  { unfold w1. by destruct (_ || _). }
  assert (l1 ++ l2 = m1 ++ (x ++ l2)) as E12 by (by rewrite Em, <- (assoc_L (++))). rewrite E12 in He, Hlt.
  rewrite lookup_app_r in He by lia. set (j := (Z.to_nat (i - 1) - length m1)%nat) in *.
  pose proof (take_drop_middle _ _ _ He) as Esplit. set (u := take j (x ++ l2)) in *. set (v := drop (S j) (x ++ l2)) in *.
  assert (j < length (x ++ l2))%nat as Hj by (by eapply lookup_lt_Some). assert (length u = j) as Lu by (unfold u; rewrite length_take; lia).
  destruct (rough_split _ gs' u e v (eq_sym Esplit) Hg) as (gu & g & gv & -> & Hu & Hge & Hv & Er).
  assert (content (pWalFd w1) = (a0 ++ log_frames big salt ck m1 ++ rough u gu ++ be_bytes e.1.1 ++ be_bytes e.1.2 ++ g) ++ e.2 ++ rough v gv ++ r) as Ec1.
  { assert (pWalFd w1 = pWalFd w) as -> by (unfold w1; by destruct (_ || _)). rewrite Ec, Er. unfold loose. by rewrite <- !(assoc_L (++)). }
  set (a := a0 ++ _) in Ec1. rewrite E12, <- Esplit in Hl. apply Forall_app in Hl as [Hl1 Hl2]. pose proof Hl2 as [Hlu Hlv]%Forall_app. apply Forall_cons in Hlv as [Hle Hlv].
  assert (walFrameOffset i sz + WAL_FRAME_HDRSIZE = Z.of_nat (length a)) as Ea.
  { unfold a. rewrite !length_app, La0, (log_frames_length _ _ sz), (rough_length sz) by done. rewrite Hge, Lu. cbn [length be_bytes].
    unfold walFrameOffset. change WAL_HDRSIZE with 32. change WAL_FRAME_HDRSIZE with 24. destruct Hsz. unfold j. nia. }
  destruct (write_put (pWalFd w1) a _ d _ Ec1 Ea) as (rc & f & -> & Hput). exists rc, f. split; [done|]. split.
  { apply Hwr. }
  split.
  { intros _. destruct Hput as (k & _ & E & _). rewrite E. unfold a. rewrite <- !(assoc_L (++)), Ey. apply intact_prefix. }
  intros ->. apply put_ok in Hput. destruct Hle as (He1 & He2 & He3 & _ & Hlen). destruct Hd as (_ & _ & _ & Hd & Hdl). cbn [snd] in Hd, Hdl.
  rewrite (drop_app_length' e.2) in Hput by lia.
  exists m1, (u ++ (e.1, d) :: v), (gu ++ g :: gv). split; [|split].
  - split.
    + cbn [pWalFd set_pWalFd]. rewrite Hput, rough_app by (symmetry; by apply (Forall2_length _ _ _ Hu)). cbn [rough]. unfold a, loose.
      cbn [fst snd]. by rewrite <- !(assoc_L (++)).
    + apply Forall2_app; [done|]. by constructor.
    + right. split; [|by destruct u]. unfold w1. rewrite Ek. by destruct (_ || _).
    + apply Forall_app. split; [done|]. apply Forall_app. split; [done|]. by constructor.
    + unfold w1. by destruct (_ || _).
  - rewrite E12, insert_app_r_alt by lia. fold j. rewrite <- Esplit, insert_app_r_alt by lia. by rewrite Lu, Nat.sub_diag.
  - by exists y.
Qed.

(** ** The loop over pages *)

Definition page_ok (pg : PgHdr) : Prop := is_u32 (pgno pg) ∧ pgno pg ≠ 0 ∧ is_bytes (pData pg) ∧ Z.of_nat (length (pData pg)) = sz.

Lemma page_entry pg t : page_ok pg → is_u32 t → entry_ok sz (entry_of t pg).
Proof. intros (H1 & H2 & H3 & H4) Ht. by split_and!. Qed.

(** What became of the pages [ps]: the frames [over] are [over'], and [app]
    come after them. *)
Record merged (c : list entry) (t : Z) (isCommit : bool) (over : list entry) (ps : list PgHdr) (over' app : list entry) (ps' : list PgHdr)
    (pLast' : option PgHdr) : Prop := {
  mg_keys : map fst over' = map fst over;
  mg_prefix : take (length c) over' = take (length c) over;
  mg_data : ∀ q, data_of (over' ++ app) q = or_else (data_of (map (entry_of 0) ps) q) (data_of over q);
  mg_flags : map pgno (filter (λ p, negb (Z.land (flags p) PGHDR_WAL_APPEND =? 0)) ps') = map page_of app;
  mg_app : ∀ e, e ∈ app → page_of e ∈ map pgno ps;
  mg_entries : Forall (entry_ok sz) app ∧ (length app ≤ length ps)%nat;
  mg_commit : isCommit = true → ps ≠ [] → ∃ app0 pg, app = app0 ++ [entry_of t pg] ∧ pLast' = Some pg ∧ page_ok pg ∧ Forall (λ e, e.1.2 = 0) app0;
  mg_open : isCommit = false → Forall (λ e, e.1.2 = 0) app
}.

Lemma merged_nil c t isCommit over pL : merged c t isCommit over [] over [] [] pL.
Proof. split; try done; [intros q; by rewrite app_nil_r|intros e He; by apply elem_of_nil in He]. Qed.

Lemma set_append_flag pg b : (Z.land (flags (set_append pg b)) PGHDR_WAL_APPEND =? 0) = negb b.
Proof.
  change PGHDR_WAL_APPEND with (2 ^ 6). apply eq_true_iff_eq. rewrite Z.eqb_eq. destruct b; cbn [flags set_append negb]; change PGHDR_WAL_APPEND with (2 ^ 6).
  - split; [|done]. intros H. apply (f_equal (λ z, Z.testbit z 6)) in H. by rewrite Z.land_spec, Z.lor_spec, Z.pow2_bits_true, orb_true_r in H.
  - split; [done|]. intros _. apply Z.bits_inj'. intros k Hk. rewrite Z.land_spec, Z.ldiff_spec, Z.bits_0. by destruct (Z.testbit (flags pg) k), (Z.testbit (2 ^ 6) k).
Qed.

(** The first page is appended. *)
Lemma merged_append c t isCommit over pg ps over' app ps' pL' : page_ok pg → is_u32 t → pgno pg ∉ map pgno ps →
  merged c t isCommit over ps over' app ps' pL' →
  (ps = [] → app = [] ∧ pL' = Some pg) →
  merged c t isCommit over (pg :: ps) over' (entry_of (if isCommit && negb (some ps) then t else 0) pg :: app)
    (set_append pg true :: ps') pL'.
Proof.
  intros Hpg Ht Hnot [Hk Hp Hd Hf Ha He Hc Ho] Hend. set (e := entry_of _ pg).
  assert (entry_ok sz e) as Hok by (apply page_entry; [done|by destruct (_ && _)]). split; try done.
  - intros q. cbn [map data_of]. rewrite (data_of_app over'). cbn [data_of]. specialize (Hd q). rewrite (data_of_app over') in Hd.
    change (e.1.1) with (pgno pg). change (e.2) with (pData pg). change ((entry_of 0 pg).1.1) with (pgno pg). change ((entry_of 0 pg).2) with (pData pg).
    destruct (Z.eqb_spec (pgno pg) q) as [<-|Hq].
    + assert (data_of app (pgno pg) = None) as ->.
      { apply data_of_none. intros (e' & E & Hin)%list_elem_of_fmap. apply Hnot. rewrite E. by apply Ha. }
      rewrite (data_of_none (map (entry_of 0) ps)); [done|]. by rewrite map_map.
    + rewrite !or_else_none. exact Hd.
  - rewrite filter_cons. rewrite decide_True; [|by rewrite set_append_flag]. cbn [map]. by rewrite Hf.
  - intros e' [->|Hin]%elem_of_cons; [left|right; by apply Ha].
  - destruct He. split; [by constructor|cbn [length]; lia].
  - intros -> _. destruct ps as [|pg2 ps]; cbn [andb negb] in *.
    + destruct (Hend eq_refl) as [-> ->]. by exists [], pg.
    + destruct (Hc eq_refl) as (app0 & pg' & -> & H1 & H2 & H3); [done|]. exists (e :: app0), pg'. split_and!; try done. by constructor.
  - intros ->. constructor; [done|by apply Ho].
Qed.

(** A frame with other data. *)
Lemma data_of_insert over (i : nat) (e : entry) d q : over !! i = Some e → (∀ j e', (i < j)%nat → over !! j = Some e' → page_of e' ≠ page_of e) →
  data_of (<[i := (e.1, d) : entry]> over) q = if page_of e =? q then Some d else data_of over q.
Proof.
  intros He Hlast. pose proof (take_drop_middle _ _ _ He) as E. set (x := take i over) in *. set (y := drop (S i) over) in *.
  assert (i < length over)%nat as Hi by (by eapply lookup_lt_Some). assert (length x = i) as Lx by (unfold x; rewrite length_take; lia).
  assert (<[i := (e.1, d) : entry]> over = x ++ (e.1, d) :: y) as ->.
  { rewrite <- E at 1. rewrite insert_app_r_alt by lia. by rewrite Lx, Nat.sub_diag. }
  rewrite <- E at 1. rewrite !data_of_app. cbn [data_of]. change ((e.1, d).1.1) with (page_of e). change ((e.1, d).2) with d. change (e.1.1) with (page_of e).
  destruct (Z.eqb_spec (page_of e) q) as [<-|Hq]; [|done].
  rewrite (data_of_none y); [done|]. intros (e' & Ep & Hin)%list_elem_of_fmap. apply list_elem_of_lookup_1 in Hin as [j Hj].
  unfold y in Hj. rewrite lookup_drop in Hj. apply (Hlast _ _) in Hj; [done|lia].
Qed.

(** The first page is written over frame [i]. *)
Lemma merged_overwrite c t isCommit (over : list entry) pg ps over' app ps' pL' i (e : entry) : over !! Z.to_nat (i - 1) = Some e → page_of e = pgno pg →
  Z.of_nat (length c) < i → (∀ j, i < j ≤ Z.of_nat (length over) → map page_of over !! Z.to_nat (j - 1) ≠ Some (pgno pg)) →
  (isCommit = true → ps ≠ []) →
  merged c t isCommit (<[Z.to_nat (i - 1) := (e.1, pData pg) : entry]> over) ps over' app ps' pL' →
  merged c t isCommit over (pg :: ps) over' app (set_append pg false :: ps') pL'.
Proof.
  intros He Ep Hi Hlast Hmore [Hk Hp Hd Hf Ha Hok Hc Ho]. split; try done.
  - rewrite Hk, list_fmap_insert. apply list_insert_id. rewrite list_lookup_fmap. exact (f_equal (fmap fst) He).
  - by rewrite Hp, take_insert_ge by lia.
  - intros q. rewrite Hd. cbn [map data_of]. rewrite (data_of_insert _ _ e).
    + rewrite Ep. change ((entry_of 0 pg).1.1) with (pgno pg). change ((entry_of 0 pg).2) with (pData pg).
      by destruct (data_of (map (entry_of 0) ps) q), (pgno pg =? q).
    + done.
    + intros j e' Hj He' E. apply (Hlast (Z.of_nat j + 1)).
      * assert (j < length over)%nat by (by eapply lookup_lt_Some). lia.
      * replace (Z.to_nat (Z.of_nat j + 1 - 1)) with j by lia. by rewrite list_lookup_fmap, He', <- Ep, <- E.
  - rewrite filter_cons. rewrite decide_False; [by rewrite Hf|]. rewrite set_append_flag. intros [].
  - intros e' Hin. right. by apply Ha.
  - destruct Hok. split; [done|cbn [length]; lia].
  - intros E _. apply Hc; [done|by apply Hmore].
Qed.

Lemma find_page_frame w P q : index w P → 0 ≤ mxFrame (hdr w) ≤ Z.of_nat (length P) → mxFrame (hdr w) = 0 ∨ 0 ≤ minFrame w ≤ mxFrame (hdr w) + 1 →
  ∃ r, walFindFrame w q = Some (SQLITE_OK, r, w) ∧ (r = 0 ∨ 1 ≤ r ≤ mxFrame (hdr w) ∧ P !! Z.to_nat (r - 1) = Some q ∧
    ∀ f, r < f ≤ mxFrame (hdr w) → P !! Z.to_nat (f - 1) ≠ Some q).
Proof.
  intros Hi Hmx Hmin. destruct (decide (mxFrame (hdr w) = 0)) as [E|Hne].
  { exists 0. unfold walFindFrame. rewrite E. split; [done|by left]. }
  destruct ((readLock w =? 0) && (bShmUnreliable w =? 0)) eqn:Er.
  { exists 0. unfold walFindFrame. rewrite Er, orb_true_r. split; [done|by left]. }
  destruct (find_frame w P q Hi Hmx) as (r & E & Hr); [lia|lia|]. exists r. split; [exact E|].
  destruct Hr as [[-> _]|(? & ? & ? & ?)]; [by left|right]. split_and!; done || lia.
Qed.

Lemma wrote_fields w w' : wrote w w' → apWiData w' = apWiData w ∧ answers w' = answers w ∧ mxFrame (hdr w') = mxFrame (hdr w) ∧
  minFrame w' = minFrame w ∧ readLock w' = readLock w ∧ bShmUnreliable w' = bShmUnreliable w.
Proof.
  unfold wrote. intros H. split_and!; [exact (f_equal apWiData H)|exact (f_equal answers H)|exact (f_equal (λ u, mxFrame (hdr u)) H)|
    exact (f_equal minFrame H)|exact (f_equal readLock H)|exact (f_equal bShmUnreliable H)].
Qed.

(** The frames that may be searched, of the log before the call. *)
Record searched (w : Wal) (P : list Z) (over : list entry) (iFirst : Z) : Prop := {
  se_index : index w P;
  se_frames : take (length over) P = map page_of over;
  se_mx : mxFrame (hdr w) = Z.of_nat (length over);
  se_min : iFirst = 0 ∨ mxFrame (hdr w) = 0 ∨ 0 ≤ minFrame w ≤ mxFrame (hdr w) + 1
}.

Lemma searched_wrote w w' P over iFirst : wrote w w' → searched w P over iFirst → searched w' P over iFirst.
Proof.
  intros H [Hi Hf Hm Hmin]. destruct (wrote_fields _ _ H) as (Ea & Ean & Em & En & _). split; try done; [by apply (index_eq w)|congruence|by rewrite Em, En].
Qed.

Lemma searched_insert w P over iFirst i (e : entry) d : over !! i = Some e → searched w P over iFirst →
  searched w P (<[i := (e.1, d) : entry]> over) iFirst.
Proof.
  intros He [Hi Hf Hm Hmin]. split; rewrite ?length_insert; try done. rewrite Hf, list_fmap_insert. symmetry. apply list_insert_id.
  rewrite list_lookup_fmap. exact (f_equal (fmap page_of) He).
Qed.

(** Whether a page goes over a frame of the transaction. *)
Lemma searched_find w P over iFirst q : searched w P over iFirst → iFirst ≠ 0 →
  ∃ r, walFindFrame w q = Some (SQLITE_OK, r, w) ∧ (r = 0 ∨ 1 ≤ r ≤ Z.of_nat (length over) ∧ (∃ e, over !! Z.to_nat (r - 1) = Some e ∧ page_of e = q) ∧
    ∀ f, r < f ≤ Z.of_nat (length over) → map page_of over !! Z.to_nat (f - 1) ≠ Some q).
Proof.
  intros [Hi Hf Hm Hmin] Hne. pose proof (f_equal length Hf) as Hl. rewrite length_take, length_map in Hl.
  destruct (find_page_frame w P q Hi) as (r & E & Hr); [lia|by destruct Hmin|]. exists r. split; [done|]. rewrite Hm in Hr.
  assert (∀ f, 1 ≤ f ≤ Z.of_nat (length over) → P !! Z.to_nat (f - 1) = map page_of over !! Z.to_nat (f - 1)) as Heq.
  { intros f ?. by rewrite <- Hf, lookup_take_lt by lia. }
  destruct Hr as [->|(Hr & Hq & Hlast)]; [by left|right]. split; [done|]. split.
  - rewrite Heq in Hq by done. rewrite list_lookup_fmap in Hq. destruct (over !! Z.to_nat (r - 1)) as [e|]; [|done]. exists e. by injection Hq as <-.
  - intros f ?. rewrite <- Heq by lia. by apply Hlast.
Qed.

Lemma write_pages_spec p iFirst t isC c P (Hp : pageSize p = sz) (Ht : is_u32 t) (HiF : iFirst = 0 ∨ Z.of_nat (length c) < iFirst) ps :
  Forall page_ok ps → NoDup (map pgno ps) → ∀ w l1 l2 gs r over sofar x pL,
  flog w l1 l2 gs r → l1 ++ l2 = over ++ sofar → l1 = c ++ x → searched w P over iFirst →
  Z.of_nat (length (over ++ sofar) + length ps) < 2 ^ 32 - 1 →
  ∃ rc iF o pL' ps' w', write_pages p w ps iFirst (Z.of_nat (length (over ++ sofar))) (walFrameOffset (Z.of_nat (length (over ++ sofar)) + 1) sz) t isC pL =
      Some (rc, iF, o, pL', ps', w') ∧ wrote w w' ∧ (rc ≠ SQLITE_OK → intact c (content (pWalFd w'))) ∧
    (rc = SQLITE_OK → ∃ over' app l1' l2' gs' r' x', flog w' l1' l2' gs' r' ∧ l1' ++ l2' = over' ++ sofar ++ app ∧ l1' = c ++ x' ∧
      merged c t isC over ps over' app ps' pL' ∧ iF = Z.of_nat (length (over' ++ sofar ++ app)) ∧ o = walFrameOffset (iF + 1) sz).
Proof.
  induction ps as [|pg ps IH]; intros Hps Hnd w l1 l2 gs r over sofar x pL Hw El Ex Hse Hmax; cbn [write_pages].
  { eexists _, _, _, _, _, _. split; [done|]. split; [apply wrote_refl|]. split; [done|]. intros _.
    exists over, [], l1, l2, gs, r, x. rewrite app_nil_r. split_and!; try done. apply merged_nil. }
  apply Forall_cons in Hps as [Hpg Hps]. cbn [map] in Hnd. apply NoDup_cons in Hnd as [Hnot Hnd]. cbn [length] in Hmax.
  set (iF := Z.of_nat (length (over ++ sofar))) in *.
  assert (Happend : ∀ pL1, ∃ rc iF' o pL' ps' w',
    (let* (rc, pWal) := walWriteOneFrame p w pg (if isC && negb (some ps) then t else 0) (walFrameOffset (iF + 1) sz) in
     if negb (rc =? SQLITE_OK) then Some (rc, u32 (iF + 1), walFrameOffset (iF + 1) sz, pL1, pg :: ps, pWal) else
     let* (rc, iFrame, iOffset, pLast, pList, pWal) := write_pages p pWal ps iFirst (u32 (iF + 1)) (walFrameOffset (iF + 1) sz + (pageSize p + WAL_FRAME_HDRSIZE)) t isC (Some pg) in
     Some (rc, iFrame, iOffset, pLast, set_append pg true :: pList, pWal)) = Some (rc, iF', o, pL', ps', w') ∧
    wrote w w' ∧ (rc ≠ SQLITE_OK → intact c (content (pWalFd w'))) ∧
    (rc = SQLITE_OK → ∃ over' app l1' l2' gs' r' x', flog w' l1' l2' gs' r' ∧ l1' ++ l2' = over' ++ sofar ++ app ∧ l1' = c ++ x' ∧
      merged c t isC over (pg :: ps) over' app ps' pL' ∧ iF' = Z.of_nat (length (over' ++ sofar ++ app)) ∧ o = walFrameOffset (iF' + 1) sz)).
  { intros pL1. set (tt := if _ && _ then t else 0). assert (entry_ok sz (entry_of tt pg)) as Hok by (apply page_entry; [done|unfold tt; by destruct (_ && _)]).
    destruct (flog_append p w l1 l2 gs r tt pg (walFrameOffset (iF + 1) sz) Hw Hok Hp) as (rc & w1 & -> & Hwr & Hbad & Hgood); [by rewrite El|].
    destruct (Z.eqb_spec rc SQLITE_OK) as [->|Hrc]; cbn [negb].
    2: { eexists _, _, _, _, _, _. split; [done|]. split; [done|]. split; [intros _; by apply (Hbad Hrc c x)|done]. }
    destruct (Hgood eq_refl) as (l1' & l2' & gs' & r' & Hw1 & El' & _ & y & Ey). clear Hbad Hgood.
    assert (Z.of_nat (length (over ++ sofar ++ [entry_of tt pg])) = iF + 1) as EiF by (unfold iF; rewrite !length_app; cbn; lia).
    rewrite u32_id by (unfold is_u32; lia). rewrite Hp.
    replace (walFrameOffset (iF + 1) sz + (sz + WAL_FRAME_HDRSIZE)) with (walFrameOffset (iF + 1 + 1) sz) by (unfold walFrameOffset; lia).
    destruct (IH Hps Hnd w1 l1' l2' gs' r' over (sofar ++ [entry_of tt pg]) (x ++ y) (Some pg)) as (rc & iF' & o & pL' & ps' & w2 & E & Hwr2 & Hbad & Hgood).
    - done.
    - by rewrite El', (assoc_L (++)), El, <- (assoc_L (++)).
    - by rewrite Ey, Ex, <- (assoc_L (++)).
    - by apply (searched_wrote w).
    - lia.
    - rewrite EiF in E. rewrite E. eexists _, _, _, _, _, _. split; [done|]. split; [by eapply wrote_trans|]. split; [done|].
      intros ->. destruct (Hgood eq_refl) as (over' & ap & m1 & m2 & gs2 & r2 & x2 & Hw2 & Em & Ex2 & Hmg & EiF' & Eo).
      exists over', (entry_of tt pg :: ap), m1, m2, gs2, r2, x2. rewrite <- !(assoc_L (++)) in Em, EiF'. cbn [app] in Em, EiF'.
      split_and!; try done. apply merged_append; try done. intros ->. cbn [write_pages] in E. injection E as _ _ <- _ _. split; [|done].
      destruct ap as [|e ap]; [done|]. destruct (not_elem_of_nil (page_of e)). apply (mg_app _ _ _ _ _ _ _ _ _ Hmg). by left. }
  destruct (negb (iFirst =? 0) && (some ps || negb isC)) eqn:Eov; [|apply (Happend pL)].
  assert (iFirst ≠ 0) as Hne by lia. destruct (searched_find w P over iFirst (pgno pg) Hse Hne) as (i & -> & Hi).
  destruct (Z.leb_spec iFirst i) as [Hle|Hlt]; [|apply (Happend pL)].
  destruct Hi as [->|(Hi & (e & He & Ep) & Hlast)]; [lia|]. assert (Z.of_nat (length c) < i) as Hci by lia.
  pose proof Hpg as (_ & _ & Hd & Hdl). rewrite Hp. rewrite sub_all by lia.
  assert ((l1 ++ l2) !! Z.to_nat (i - 1) = Some e) as He' by (rewrite El, lookup_app_l by lia; done).
  assert (entry_ok sz (e.1, pData pg)) as Hok.
  { pose proof (Forall_lookup_1 _ _ _ _ (fl_entries _ _ _ _ _ Hw) He') as (H1 & H2 & H3 & _). by split_and!. }
  destruct (flog_overwrite w l1 l2 gs r i e (pData pg) c x Hw He' ltac:(lia) Hok Ex Hci) as (rc & f & -> & Hwr & Hbad & Hgood).
  set (w1 := set_pWalFd _ f) in *. destruct (Z.eqb_spec rc SQLITE_OK) as [->|Hrc]; cbn [negb].
  2: { eexists _, _, _, _, _, _. split; [done|]. split; [done|]. split; [intros _; by apply Hbad|done]. }
  destruct (Hgood eq_refl) as (l1' & l2' & gs' & Hw1 & El' & y & Ey). clear Hbad Hgood.
  set (over1 := <[Z.to_nat (i - 1) := (e.1, pData pg) : entry]> over).
  assert (length (over1 ++ sofar) = length (over ++ sofar)) as EL by (unfold over1; by rewrite !length_app, length_insert).
  destruct (IH Hps Hnd w1 l1' l2' gs' r over1 sofar y pL) as (rc & iF' & o & pL' & ps' & w2 & E & Hwr2 & Hbad & Hgood).
  - done.
  - rewrite El', El. unfold over1. by rewrite insert_app_l by lia.
  - done.
  - apply (searched_wrote w); [done|]. by apply searched_insert.
  - rewrite EL. lia.
  - rewrite EL in E. fold iF in E. rewrite E. eexists _, _, _, _, _, _. split; [done|]. split; [by eapply wrote_trans|]. split; [done|].
    intros ->. destruct (Hgood eq_refl) as (over' & ap & m1 & m2 & gs2 & r2 & x2 & Hw2 & Em & Ex2 & Hmg & EiF' & Eo).
    exists over', ap, m1, m2, gs2, r2, x2. split_and!; try done.
    apply (merged_overwrite c t isC over pg ps over' ap ps' pL' i e); try done. intros ->. destruct ps; [|done]. cbn in Eov. by rewrite andb_false_r in Eov.
Qed.

(** ** Checksums made again *)

Lemma offset_length (l : list entry) i : Forall (entry_ok sz) l → i = Z.of_nat (length l) + 1 → walFrameOffset i sz = Z.of_nat (length (a0 ++ log_frames big salt ck l)).
Proof.
  intros Hl ->. rewrite length_app, La0, (log_frames_length _ _ sz) by done. unfold walFrameOffset. change WAL_HDRSIZE with 32.
  change WAL_FRAME_HDRSIZE with 24. destruct Hsz. nia.
Qed.

Lemma rewrite_frames_spec l2 : ∀ gs w l1 r c x, content (pWalFd w) = a0 ++ log_frames big salt ck l1 ++ rough l2 gs ++ r → Forall2 loose_ok l2 gs →
  Forall (entry_ok sz) (l1 ++ l2) → big_end w = big → aSalt (hdr w) = salt → szPage w = sz → iReCksum w = 0 →
  aFrameCksum (hdr w) = end_sum ck (valid big ck l1) → l1 = c ++ x →
  ∃ rc w', rewrite_frames (length l2) w sz (Z.of_nat (length l1) + 1) = Some (rc, w') ∧ wrote w w' ∧
    (rc ≠ SQLITE_OK → intact c (content (pWalFd w'))) ∧ (rc = SQLITE_OK → flog w' (l1 ++ l2) [] [] r).
Proof.
  induction l2 as [|e l2 IH]; intros gs w l1 r c x Ec Hg Hl Eb Esalt Esz Ere Esum Ex; cbn [rewrite_frames length].
  { exists SQLITE_OK, w. split; [done|]. split; [apply wrote_refl|]. split; [done|]. intros _. inversion Hg; subst gs. rewrite app_nil_r in *.
    split; [done|constructor|by left|by rewrite app_nil_r|done]. }
  apply Forall2_cons_inv_l in Hg as (g & gs' & Hge & Hg & ->). cbn [rough] in Ec.
  assert (Forall (entry_ok sz) ((l1 ++ [e]) ++ l2)) as Hl' by (by rewrite <- (assoc_L (++))).
  pose proof Hl as [Hl1 Hl2]%Forall_app. apply Forall_cons in Hl2 as [He Hl2]. pose proof He as (He1 & He2 & He3 & Hd & Hdl).
  assert (content (pWalFd w) = (a0 ++ log_frames big salt ck l1) ++ loose e g ++ rough l2 gs' ++ r) as Ec1 by (rewrite Ec; by rewrite <- !(assoc_L (++))).
  destruct (read_app (pWalFd w) _ _ _ (sz + WAL_FRAME_HDRSIZE) (walFrameOffset (Z.of_nat (length l1) + 1) sz) Ec1) as (rc & lc & ->).
  { by apply offset_length. }
  { rewrite (loose_length e g sz) by done. change WAL_FRAME_HDRSIZE with 24. destruct Hsz. lia. }
  destruct (Z.eqb_spec rc SQLITE_OK) as [->|Hrc]; cbn [negb].
  2: { eexists rc, _. split; [done|]. split; [done|]. split; [|done].
    intros _. cbn [pWalFd set_pWalFd content]. rewrite Ec, Ex. apply intact_prefix. }
  destruct (loose_get sz e g He Hge) as (-> & -> & ->).
  set (w1 := set_pWalFd w _). change (Z.to_nat WAL_FRAME_HDRSIZE) with 24%nat. rewrite (encode_spec w1 e sz He (psz sz Hsz) Esz).
  set (h := be_bytes e.1.1 ++ be_bytes e.1.2 ++ seal_of w1 e). assert (length h = 24%nat) as Lh by (unfold h; rewrite !length_app, (seal_of_length w1 e); done).
  assert (seal_of w1 e = seal big salt (end_sum ck (valid big ck l1)) e) as Eseal.
  { unfold seal_of. change (iReCksum w1) with (iReCksum w). rewrite Ere. cbn [Z.eqb]. change (big_end w1) with (big_end w). by rewrite Eb, <- Esum, <- Esalt. }
  assert (encoded w1 e = set_hdr w1 (set_aFrameCksum (hdr w1) (end_sum ck (valid big ck (l1 ++ [e]))))) as Eenc.
  { unfold encoded. change (iReCksum w1) with (iReCksum w). rewrite Ere. cbn [Z.eqb]. change (big_end w1) with (big_end w). rewrite Eb, end_sum_valid_app, <- Esum. done. }
  rewrite Eenc. set (w2 := set_hdr w1 _). assert (content (pWalFd w2) = (a0 ++ log_frames big salt ck l1) ++ loose e g ++ rough l2 gs' ++ r) as Ec2 by done.
  destruct (write_put (pWalFd w2) _ _ h (walFrameOffset (Z.of_nat (length l1) + 1) sz) Ec2) as (rc & f & -> & Hput); [by apply offset_length|].
  assert (wrote w (set_pWalFd w2 f)) as Hwr2 by done.
  destruct (Z.eqb_spec rc SQLITE_OK) as [->|Hrc].
  2: { eexists rc, _. split; [done|]. split; [done|]. split; [|done]. intros _. destruct Hput as (k & _ & E & _). cbn [pWalFd set_pWalFd]. rewrite E, Ex.
    rewrite <- !(assoc_L (++)). apply intact_prefix. }
  apply put_ok in Hput.
  assert (drop (length h) (loose e g ++ rough l2 gs' ++ r) = e.2 ++ rough l2 gs' ++ r) as Edrop.
  { rewrite drop_app_le by (rewrite Lh, (loose_length e g sz) by done; destruct Hsz; lia). f_equal. rewrite Lh. by apply (loose_get sz). }
  assert (content f = a0 ++ log_frames big salt ck (l1 ++ [e]) ++ rough l2 gs' ++ r) as Ecf.
  { rewrite log_frames_app. cbn [log_frames]. rewrite app_nil_r, frame_loose, <- Eseal. rewrite Hput, Edrop. unfold loose, h. by rewrite <- !(assoc_L (++)). }
  destruct (IH gs' (set_pWalFd w2 f) (l1 ++ [e]) r c (x ++ [e])) as (rc & w' & E & Hwr & Hbad & Hgood); try done.
  - by rewrite Ex, <- (assoc_L (++)).
  - rewrite length_app in E. cbn [length] in E. replace (Z.of_nat (length l1 + 1) + 1) with (Z.of_nat (length l1) + 1 + 1) in E by lia. rewrite E.
    exists rc, w'. split; [done|]. split; [exact (wrote_trans _ _ _ Hwr2 Hwr)|]. split; [done|]. intros H. specialize (Hgood H). by rewrite <- (assoc_L (++)) in Hgood.
Qed.

(** Where the running checksum after some frames lies in the file. *)
Lemma sums_at l1 r : Forall (entry_ok sz) l1 → let s := end_sum ck (valid big ck l1) in
  ∃ a b, a0 ++ log_frames big salt ck l1 ++ r = a ++ (be_bytes s.1 ++ be_bytes s.2) ++ b ∧
    Z.of_nat (length a) = if Z.of_nat (length l1) + 1 =? 1 then 24 else walFrameOffset (Z.of_nat (length l1)) sz + 16.
Proof.
  intros Hl s. destruct l1 as [|e l1 _] using rev_ind.
  - exists (take 24 a0), r. cbn [log_frames app]. split; [|by rewrite length_take, La0]. unfold s. cbn [valid end_sum].
    rewrite <- Sa0, (assoc_L (++)). by rewrite take_drop.
  - apply Forall_app in Hl as [Hl He]. apply Forall_cons in He as [He _].
    exists (a0 ++ log_frames big salt ck l1 ++ be_bytes e.1.1 ++ be_bytes e.1.2 ++ salt_bytes salt), (e.2 ++ r). split.
    + rewrite log_frames_app. cbn [log_frames]. rewrite app_nil_r, frame_loose. unfold s. rewrite end_sum_valid_app. cbn [valid end_sum].
      unfold loose, seal. by rewrite <- !(assoc_L (++)).
    + rewrite (proj2 (Z.eqb_neq _ _)) by (rewrite length_app; cbn [length]; lia). rewrite (offset_length l1); [|done|rewrite length_app; cbn [length]; lia].
      rewrite !length_app. cbn [length be_bytes salt_bytes le_bytes app]. lia.
Qed.

Lemma walRewriteChecksums_spec w l1 l2 gs r c x iLast alloc : flog w l1 l2 gs r → l1 = c ++ x → iReCksum w ≠ 0 →
  iLast = Z.of_nat (length (l1 ++ l2)) → iLast < 2 ^ 32 - 1 →
  ∃ rc w', walRewriteChecksums w iLast alloc = Some (rc, w') ∧ wrote w w' ∧
    (rc ≠ SQLITE_OK → intact c (content (pWalFd w'))) ∧ (rc = SQLITE_OK → flog w' (l1 ++ l2) [] [] r).
Proof.
  intros H Ex Hne EiL Hmax. pose proof H as [Ec Hg Hs Hl (Eb & Esalt & Esz)]. unfold walRewriteChecksums. destruct alloc; cbn [negb].
  2: { exists SQLITE_NOMEM, w. split; [done|]. split; [apply wrote_refl|]. split; [|done]. intros _. rewrite Ec, Ex. apply intact_prefix. }
  destruct Hs as [(? & _)|[Ek _]]; [done|]. rewrite length_app in EiL. pose proof Hl as [Hl1 _]%Forall_app.
  destruct (sums_at l1 (rough l2 gs ++ r) Hl1) as (a & b & Eab & Ea). pose proof (end_sum_u32 big sz l1 Hl1 (psz sz Hsz) ck Hck) as [Hs1 Hs2].
  set (s := end_sum ck (valid big ck l1)) in *. rewrite Esz, Ek. rewrite Z.add_simpl_r, u32_id by (unfold is_u32; lia). rewrite <- Ea, <- Ec in *.
  destruct (read_app (pWalFd w) a (be_bytes s.1 ++ be_bytes s.2) b (4 * 2) _ Eab eq_refl eq_refl) as (rc & lc & ->).
  rewrite (get4_be [] s.1 (be_bytes s.2) Hs1 : get4 (be_bytes s.1 ++ be_bytes s.2) 0 = _).
  rewrite (get4_be (be_bytes s.1) s.2 [] Hs2 : get4 (be_bytes s.1 ++ be_bytes s.2) 4 = _).
  set (w1 := set_iReCksum _ 0). assert (wrote w w1) as Hwr1 by done.
  destruct (Z.eqb_spec rc SQLITE_OK) as [->|Hrc].
  2: { exists rc, w1. split; [done|]. split; [done|]. split; [|done]. intros _. unfold w1. cbn [pWalFd set_iReCksum set_hdr set_pWalFd content]. rewrite Ec, Ex. apply intact_prefix. }
  change (iReCksum (set_hdr _ _)) with (iReCksum w). rewrite Ek. replace (Z.to_nat (iLast - (Z.of_nat (length l1) + 1) + 1)) with (length l2) by lia.
  destruct (rewrite_frames_spec l2 gs w1 l1 r c x) as (rc & w' & -> & Hwr & Hbad & Hgood); try done; [symmetry; apply surjective_pairing|].
  exists rc, w'. split; [done|]. split; [exact (wrote_trans _ _ _ Hwr1 Hwr)|done].
Qed.

(** ** The end of a transaction *)

Lemma flog_wrote_sync w l1 l2 gs r f : flog w l1 l2 gs r → content f = content (pWalFd w) → flog (set_pWalFd w f) l1 l2 gs r.
Proof. intros [Ec Hg Hs Hl Hc] E. split; try done. cbn. congruence. Qed.

Lemma pad_frames_spec p pg t c (Hp : pageSize p = sz) (Hpg : page_ok pg) (Ht : is_u32 t) fuel : ∀ w l r x nE,
  flog w l [] [] r → l = c ++ x → iReCksum w = 0 → Z.max 0 (iSyncPoint p - walFrameOffset (Z.of_nat (length l) + 1) sz) < Z.of_nat fuel →
  ∃ rc o nE' w', pad_frames fuel p w (Some pg) t (walFrameOffset (Z.of_nat (length l) + 1) sz) nE = Some (rc, o, nE', w') ∧ wrote w w' ∧
    (rc ≠ SQLITE_OK → intact c (content (pWalFd w'))) ∧
    (rc = SQLITE_OK → ∃ k r', flog w' (l ++ replicate k (entry_of t pg)) [] [] r' ∧ nE' = nE + Z.of_nat k ∧ (k ≤ fuel)%nat).
Proof.
  induction fuel as [|fuel IH]; intros w l r x nE Hw Ex Ere Hfuel; [lia|]; cbn [pad_frames];
    destruct (Z.ltb_spec (walFrameOffset (Z.of_nat (length l) + 1) sz) (iSyncPoint p)) as [Hlt|Hge].
  - destruct (flog_append p w l [] [] r t pg _ Hw (page_entry _ _ Hpg Ht) Hp eq_refl) as (rc & w1 & E & Hwr & Hbad & Hgood).
    rewrite app_nil_r in E. rewrite E. destruct (Z.eqb_spec rc SQLITE_OK) as [->|Hrc]; cbn [negb].
    2: { eexists _, _, _, _. split; [done|]. split; [done|]. split; [intros _; by apply (Hbad Hrc c x)|done]. }
    destruct (Hgood eq_refl) as (l1' & l2' & gs' & r' & Hw1 & El' & Enil & y & Ey). rewrite (Enil Ere), app_nil_r in *. cbn [app] in El'. subst l1'.
    assert (gs' = []) as -> by (pose proof (fl_loose _ _ _ _ _ Hw1) as H; by inversion H).
    assert (iReCksum w1 = 0) as Ere1 by (destruct (fl_sum _ _ _ _ _ Hw1) as [(? & _)|[_ ?]]; done).
    assert (Z.of_nat (length (l ++ [entry_of t pg])) = Z.of_nat (length l) + 1) as EL by (rewrite length_app; cbn [length]; lia).
    destruct (IH w1 (l ++ [entry_of t pg]) r' (x ++ [entry_of t pg]) (nE + 1) Hw1) as (rc & o & nE' & w' & E2 & Hwr2 & Hbad2 & Hgood2).
    + by rewrite Ex, <- (assoc_L (++)).
    + done.
    + rewrite EL. unfold walFrameOffset in *. change WAL_FRAME_HDRSIZE with 24 in *. destruct Hsz. lia.
    + rewrite EL in E2. rewrite Hp. replace (walFrameOffset (Z.of_nat (length l) + 1) sz + (sz + WAL_FRAME_HDRSIZE)) with (walFrameOffset (Z.of_nat (length l) + 1 + 1) sz)
        by (unfold walFrameOffset; lia). rewrite E2. exists rc, o, nE', w'. split; [done|]. split; [exact (wrote_trans _ _ _ Hwr Hwr2)|]. split; [done|].
      intros Hok. destruct (Hgood2 Hok) as (k & r2 & Hw2 & En & Hk). exists (S k), r2. cbn [replicate]. rewrite <- (assoc_L (++)) in Hw2. split; [done|lia].
  - eexists _, _, _, _. split; [done|]. split; [apply wrote_refl|]. split; [done|]. intros _. exists O, r. cbn [replicate]. rewrite app_nil_r. split; [done|lia].
Qed.

Lemma sectors o s : 0 < s → 0 ≤ o → 0 ≤ (o + s - 1) / s * s - o < s.
Proof. intros Hs Ho. pose proof (Z.div_mod (o + s - 1) s ltac:(lia)). pose proof (Z.mod_pos_bound (o + s - 1) s Hs). nia. Qed.

Lemma sync_log_spec p w pg t sector l r c x : pageSize p = sz → page_ok pg → is_u32 t → flog w l [] [] r → l = c ++ x → iReCksum w = 0 →
  ∃ ended rc nE w', sync_log p w (Some pg) t (walFrameOffset (Z.of_nat (length l) + 1) sz) sector = Some (ended, rc, nE, w') ∧ wrote w w' ∧
    (ended = true → rc ≠ SQLITE_OK ∧ intact c (content (pWalFd w'))) ∧
    (ended = false → ∃ k r', flog w' (l ++ replicate k (entry_of t pg)) [] [] r' ∧ nE = Z.of_nat k ∧ Z.of_nat k ≤ 65536).
Proof.
  intros Hp Hpg Ht Hw Ex Ere. unfold sync_log. set (o := walFrameOffset _ sz).
  assert (Hend : ∀ w1 k r' fl nE (bSync : bool), flog w1 (l ++ replicate k (entry_of t pg)) [] [] r' → wrote w w1 → nE = Z.of_nat k → Z.of_nat k ≤ 65536 →
    ∃ ended rc nE' w', (if bSync then let '(rc, f) := sqlite3OsSync (pWalFd w1) fl in Some (false, rc, nE, set_pWalFd w1 f)
        else Some (false, SQLITE_OK, nE, w1)) = Some (ended, rc, nE', w') ∧ wrote w w' ∧
      (ended = true → rc ≠ SQLITE_OK ∧ intact c (content (pWalFd w'))) ∧
      (ended = false → ∃ k r', flog w' (l ++ replicate k (entry_of t pg)) [] [] r' ∧ nE' = Z.of_nat k ∧ Z.of_nat k ≤ 65536)).
  { intros w1 k r' fl nE bSync Hw1 Hwr -> Hk. destruct bSync; [|eexists _, _, _, _; split; [done|]; split; [done|]; split; [done|]; intros _; by exists k, r'].
    destruct (sync_spec (pWalFd w1) fl) as (rc & f & -> & E). eexists _, _, _, _. split; [done|]. split; [done|]. split; [done|]. intros _. exists k, r'.
    split; [by apply flog_wrote_sync|done]. }
  destruct (negb (padToSectorBoundary w =? 0)).
  2: { cbn [negb]. rewrite Z.eqb_refl. cbn [negb]. apply (Hend w O r (WAL_SYNC_FLAGS (syncFlags p)) 0 true); try done. cbn [replicate]. by rewrite app_nil_r. }
  cbv zeta. set (s := sqlite3SectorSize sector). assert (0 < s ≤ 65536) as Hs.
  { unfold s, sqlite3SectorSize. change MAX_SECTOR_SIZE with 65536. destruct (Z.ltb_spec sector 32); [lia|]. destruct (Z.ltb_spec 65536 sector); lia. }
  assert (0 ≤ o) as Ho by (unfold o, walFrameOffset; change WAL_HDRSIZE with 32; change WAL_FRAME_HDRSIZE with 24; destruct Hsz; nia).
  pose proof (sectors o s ltac:(lia) Ho) as Hsp. set (p' := mk_writer ((o + s - 1) / s * s) (syncFlags p) (pageSize p)). change (0 ≤ iSyncPoint p' - o < s) in Hsp.
  destruct (pad_frames_spec p' pg t c Hp Hpg Ht (S (Z.to_nat (iSyncPoint p' - o))) w l r x 0 Hw Ex Ere) as (rc & o' & nE & w1 & E & Hwr & Hbad & Hgood); [fold o; lia|].
  fold o in E. rewrite E.
  destruct (Z.eqb_spec rc SQLITE_OK) as [->|Hrc]; cbn [negb].
  - destruct (Hgood eq_refl) as (k & r' & Hw1 & EnE & Hk). apply (Hend w1 k r' (WAL_SYNC_FLAGS (syncFlags p)) nE (iSyncPoint p' =? o)); [done|done|lia|]. lia.
  - eexists _, _, _, _. split; [done|]. split; [done|]. split; [|done]. intros _. split; [done|by apply Hbad].
Qed.

Lemma walLimitSize_spec w l r nMax : flog w l [] [] r → walFrameOffset (Z.of_nat (length l) + 1) sz ≤ nMax →
  ∃ w' k, walLimitSize w nMax = w' ∧ flog w' l [] [] (take k r) ∧ wrote w w'.
Proof.
  intros H Hn. pose proof H as [Ec Hg Hs Hl Hc]. unfold walLimitSize, sqlite3OsFileSize. destruct (next_code (io_codes (pWalFd w))) as [rx lc].
  pose proof Hl as [Hll _]%Forall_app. rewrite (offset_length l _ Hll eq_refl) in Hn. cbn [rough app] in Ec. rewrite (assoc_L (++)) in Ec. set (a := a0 ++ _) in *.
  destruct ((rx =? SQLITE_OK) && (nMax <? Z.of_nat (length (content (pWalFd w))))) eqn:E.
  - unfold sqlite3OsTruncate. cbn [content]. destruct (next_code _) as [rc l']. cbn [snd]. destruct (rc =? SQLITE_OK).
    + eexists _, (Z.to_nat nMax - length a)%nat. split; [done|]. split; [|done]. split; try done. cbn [pWalFd set_pWalFd content rough app]. rewrite (assoc_L (++)).
      fold a. replace (Z.to_nat nMax - length (content (pWalFd w)))%nat with O by lia. cbn [replicate]. by rewrite app_nil_r, Ec, take_app, take_ge by lia.
    + eexists _, (length r). rewrite firstn_all. split; [done|]. split; [|done]. split; try done. cbn [pWalFd set_pWalFd content rough app]. by rewrite (assoc_L (++)).
  - eexists _, (length r). rewrite firstn_all. split; [done|]. split; [|done]. split; try done. cbn [pWalFd set_pWalFd content rough app]. by rewrite (assoc_L (++)).
Qed.

Definition padding (pL : option PgHdr) (t : Z) (k : nat) : list entry :=
  match pL with Some pg => replicate k (entry_of t pg) | None => [] end.

(** What the log is after the pages [ps] were written to it. *)
Record written_log (c : list entry) (t : Z) (isCommit : bool) (over : list entry) (ps ps' : list PgHdr) (pL : option PgHdr) (k : nat) (w : Wal)
    (over' app l1 l2 : list entry) (gs : list bytes) (r : bytes) : Prop := {
  wl_merged : merged c t isCommit over ps over' app ps' pL;
  wl_flog : flog w l1 l2 gs r;
  wl_frames : l1 ++ l2 = over' ++ app ++ padding pL t k;
  wl_prefix : ∃ x, l1 = c ++ x;
  wl_pad : Z.of_nat k ≤ 65536;
  wl_commit : isCommit = true → l2 = [];
  wl_open : isCommit = false → k = O
}.

Lemma flog_sealed w l1 l2 gs r : flog w l1 l2 gs r → iReCksum w = 0 → l2 = [] ∧ gs = [].
Proof. intros [_ Hg [(_ & -> & _)|[? _]] _ _] E; [by inversion Hg|lia]. Qed.

Lemma flog_sum w l r : flog w l [] [] r → iReCksum w = 0.
Proof. intros [_ _ [(? & _)|[_ ?]] _ _]; done. Qed.

Lemma wrote_truncate w w' k : wrote w w' → wrote w (set_truncateOnCommit w' k).
Proof. done. Qed.

Lemma write_frames_spec w ps t isC sync iFirst sector alloc c P over l1 l2 gs r x :
  Forall page_ok ps → NoDup (map pgno ps) → ps ≠ [] → is_u32 t → iFirst = 0 ∨ Z.of_nat (length c) < iFirst →
  flog w l1 l2 gs r → l1 ++ l2 = over → l1 = c ++ x → searched w P over iFirst → Z.of_nat (length over + length ps) + 65536 < MAX_FRAMES →
  ∃ rc ps' pL nE w', write_frames w sz ps t isC sync iFirst sector alloc = Some (rc, ps', pL, nE, w') ∧ wrote w w' ∧
    (rc ≠ SQLITE_OK → intact c (content (pWalFd w'))) ∧
    (rc = SQLITE_OK → ∃ k over' app l1' l2' gs' r', nE = Z.of_nat k ∧ written_log c t isC over ps ps' pL k w' over' app l1' l2' gs' r').
Proof.
  intros Hps Hnd Hne Ht HiF Hw El Ex Hse Hmax. unfold MAX_FRAMES in Hmax. unfold write_frames. rewrite (se_mx _ _ _ _ Hse).
  pose proof (write_pages_spec (mk_writer 0 sync sz) iFirst t isC c P eq_refl Ht HiF ps Hps Hnd w l1 l2 gs r over [] x None Hw) as H.
  rewrite app_nil_r in H. destruct (H El Ex Hse ltac:(lia)) as (rc & iF & o & pL & ps' & w1 & E & Hwr & Hbad & Hgood). clear H.
  rewrite u32_id by (unfold is_u32; lia). rewrite E. destruct (Z.eqb_spec rc SQLITE_OK) as [->|Hrc]; cbn [negb].
  2: { eexists rc, _, _, _, w1. split; [done|]. split; [done|]. by split. }
  destruct (Hgood eq_refl) as (over' & new & m1 & m2 & gs1 & r1 & x1 & Hw1 & Em & Ex1 & Hmg & EiF & Eo). clear Hbad Hgood E. cbn [app] in Em, EiF.
  destruct isC; cbn [andb].
  2: { cbn [negb]. rewrite Z.eqb_refl. cbn [negb]. eexists SQLITE_OK, ps', pL, 0, w1. split; [done|]. split; [done|]. split; [done|]. intros _.
    exists O, over', new, m1, m2, gs1, r1. split; [done|]. split; try done; [|by exists x1].
    destruct pL; cbn [padding replicate]; by rewrite app_nil_r. }
  destruct (mg_commit _ _ _ _ _ _ _ _ _ Hmg eq_refl Hne) as (new0 & pg & En & -> & Hpg & _).
  assert (length (over' ++ new) ≤ length over + length ps)%nat as HL.
  { destruct (mg_entries _ _ _ _ _ _ _ _ _ Hmg) as [_ L]. pose proof (f_equal length (mg_keys _ _ _ _ _ _ _ _ _ Hmg)) as L1.
    rewrite !length_map in L1. rewrite length_app. unfold entry in *. lia. }
  set (fix_sums := if negb (iReCksum w1 =? 0) then _ else _).
  assert (∃ rc w2, fix_sums = Some (rc, w2) ∧ wrote w1 w2 ∧ (rc ≠ SQLITE_OK → intact c (content (pWalFd w2))) ∧
    (rc = SQLITE_OK → ∃ r2, flog w2 (over' ++ new) [] [] r2)) as (rc & w2 & -> & Hwr2 & Hbad & Hgood).
  { unfold fix_sums. destruct (Z.eqb_spec (iReCksum w1) 0) as [E0|E0]; cbn [negb].
    - destruct (flog_sealed _ _ _ _ _ Hw1 E0) as [-> ->]. rewrite app_nil_r in Em. subst m1. exists SQLITE_OK, w1.
      split; [done|]. split; [done|]. split; [done|]. intros _. by exists r1.
    - destruct (walRewriteChecksums_spec w1 m1 m2 gs1 r1 c x1 iF alloc Hw1 Ex1 E0) as (rc & w2 & -> & Hwr2 & Hb & Hg); [by rewrite Em|lia|].
      rewrite Em in Hg. exists rc, w2. split; [done|]. split; [done|]. split; [done|]. intros H. exists r1. by apply Hg. }
  pose proof (wrote_trans _ _ _ Hwr Hwr2) as Hwr02.
  destruct (Z.eqb_spec rc SQLITE_OK) as [->|Hrc]; cbn [negb].
  2: { eexists rc, _, _, _, w2. split; [done|]. split; [done|]. by split. }
  destruct (Hgood eq_refl) as (r2 & Hw2). clear Hbad Hgood.
  assert (∃ y, over' ++ new = c ++ y) as [y Ey] by (exists (x1 ++ m2); by rewrite <- Em, Ex1, <- (assoc_L (++))).
  set (finish := if negb _ then sync_log _ _ _ _ _ _ else _).
  assert (∃ ended rc nE w3, finish = Some (ended, rc, nE, w3) ∧ wrote w2 w3 ∧ (ended = true → rc ≠ SQLITE_OK ∧ intact c (content (pWalFd w3))) ∧
    (ended = false → ∃ k r3, flog w3 ((over' ++ new) ++ replicate k (entry_of t pg)) [] [] r3 ∧ nE = Z.of_nat k ∧ Z.of_nat k ≤ 65536)) as
    (ended & rc & nE & w3 & -> & Hwr3 & Hend & Hgo).
  { unfold finish. destruct (negb _).
    - rewrite Eo, EiF. apply (sync_log_spec _ w2 pg t sector (over' ++ new) r2 c y); try done. by apply (flog_sum _ _ _ Hw2).
    - exists false, SQLITE_OK, 0, w2. split; [done|]. split; [done|]. split; [done|]. intros _. exists O, r2. cbn [replicate]. rewrite app_nil_r. done. }
  pose proof (wrote_trans _ _ _ Hwr02 Hwr3) as Hwr03.
  destruct ended.
  { destruct (Hend eq_refl) as [Hrc Hin]. eexists rc, _, _, _, w3. split; [done|]. split; [done|]. by split. }
  destruct (Hgo eq_refl) as (k & r3 & Hw3 & -> & Hk). clear Hend Hgo.
  set (w4 := if _ && _ then _ else w3). assert (∃ r4, flog w4 ((over' ++ new) ++ replicate k (entry_of t pg)) [] [] r4 ∧ wrote w3 w4) as (r4 & Hw4 & Hwr4).
  { unfold w4. destruct (_ && _); [|by exists r3]. set (e := walFrameOffset _ sz).
    destruct (walLimitSize_spec w3 _ r3 (if mxWalSize w3 <? e then e else mxWalSize w3) Hw3) as (w5 & k5 & -> & Hw5 & Hwr5).
    - assert (walFrameOffset (Z.of_nat (length ((over' ++ new) ++ replicate k (entry_of t pg))) + 1) sz = e) as ->; [|destruct (Z.ltb_spec (mxWalSize w3) e); lia].
      unfold e. rewrite u32_id by (unfold is_u32; lia). f_equal. rewrite length_app, length_replicate. lia.
    - exists (take k5 r3). split; [|done]. by destruct Hw5. }
  exists rc, ps', (Some pg), (Z.of_nat k), w4. split; [done|]. split; [exact (wrote_trans _ _ _ Hwr03 Hwr4)|]. rewrite <- (assoc_L (++)) in Hw4. split.
  - intros _. rewrite (assoc_L (++)), Ey, <- (assoc_L (++)) in Hw4. by apply (flog_intact _ _ _ _ _ _ Hw4).
  - intros _. exists k, over', new, (over' ++ new ++ replicate k (entry_of t pg)), [], [], r4. split; [done|]. split; try done.
    + by rewrite app_nil_r.
    + exists (y ++ replicate k (entry_of t pg)). by rewrite (assoc_L (++)), Ey, <- (assoc_L (++)).
Qed.

End Writing.

(** ** Starting over, and the header of the log *)

(** The connection without what taking a read mark changes. *)
Definition marks_aside (w : Wal) : Wal :=
  set_held (set_minFrame (set_readLock (set_shm_locks (set_held_shared (set_others (set_apWiData w []) []) []) []) 0) 0) [].

(** A writer is alone with the header of the index. *)
Definition locked (w : Wal) : Prop := exclusiveMode w ≠ 0 ∨ (WAL_WRITE_LOCK, 1) ∈ held w.

(** The connection [w'] has another mark, and the header in shared memory is
    what it was. *)
Definition keeps (w w' : Wal) : Prop := marks_aside w' = marks_aside w ∧ ∀ i, 0 ≤ i < 24 → get_word w' i = get_word w i.

Lemma keeps_refl w : keeps w w.
Proof. done. Qed.

Lemma keeps_trans w1 w2 w3 : keeps w1 w2 → keeps w2 w3 → keeps w1 w3.
Proof. intros [E1 H1] [E2 H2]. split; [congruence|]. intros i Hi. by rewrite H2, H1. Qed.

Lemma locked_guards w i : locked w → 0 ≤ i < 24 → exclusiveMode w ≠ 0 ∨ guarded w i = true.
Proof.
  intros [?|H] Hi; [by left|right]. unfold guarded. rewrite (proj2 (Z.ltb_lt _ _)) by lia. unfold has_lock. apply orb_true_iff. left.
  apply existsb_exists. exists (WAL_WRITE_LOCK, 1). split; [by apply list_elem_of_In|done].
Qed.

Lemma others_keeps w P : attached w P → locked w → keeps w (others_write w) ∧ attached (others_write w) P ∧ locked (others_write w).
Proof.
  intros Hw Hl. destruct (others_write_spec w P Hw) as (a & l & E & Hw' & Hg). split; [split; [by rewrite E|]|].
  - intros i Hi. apply Hg. by apply locked_guards.
  - split; [done|]. by rewrite E.
Qed.

Lemma best_mark_keeps n : ∀ w P i mx mr mI mr' mI' w', attached w P → locked w → best_mark n w i mx mr mI = Some (mr', mI', w') → keeps w w'.
Proof.
  induction n as [|n IH]; intros w P i mx mr mI mr' mI' w' Hw Hl E; cbn [best_mark] in E.
  { injection E as _ _ <-. apply keeps_refl. }
  destruct (others_keeps w P Hw Hl) as (Hk & Hw1 & Hl1). destruct (get_word _ _) as [y|]; [|done].
  apply (keeps_trans _ _ _ Hk). destruct (_ && _); by apply IH with (P := P) in E.
Qed.

Lemma set_word_touched w i v w' : set_word w i v = Some w' → touched w w'.
Proof.
  unfold set_word, set_page. intros E. destruct (get_page w 0) as [p|]; [|done]. cbn in E. destruct (wr _ _ _) as [wd|]; [|done]. cbn in E.
  destruct (wr _ _ _) as [a|]; [|done]. injection E as <-. by exists a.
Qed.

Lemma claim_mark_keeps n : ∀ w P i mx mr mI rc out rc' mr' mI' w', attached w P → 0 ≤ i → i + Z.of_nat n ≤ WAL_NREADER →
  claim_mark n w i mx mr mI rc = Some (out, rc', mr', mI', w') → keeps w w'.
Proof.
  induction n as [|n IH]; intros w P i mx mr mI rc out rc' mr' mI' w' Hw Hi Hn E; cbn [claim_mark] in E; change WAL_NREADER with 5 in *.
  { injection E as _ _ _ _ <-. apply keeps_refl. }
  unfold walLockExclusive in E. destruct (negb (exclusiveMode w =? 0)) eqn:Eex.
  - rewrite Z.eqb_refl in E. destruct (attached_set w P (25 + i) mx Hw) as (w2 & E2 & [a ->] & _ & _ & Hj); [lia|]. rewrite E2 in E. injection E as _ _ _ _ <-.
    unfold walUnlockExclusive. change (exclusiveMode (set_apWiData w a)) with (exclusiveMode w). rewrite Eex. split; [done|]. intros j ?. apply Hj. lia.
  - destruct (next_code (shm_locks w)) as [rc1 l]. destruct (Z.eqb_spec rc1 SQLITE_OK) as [->|Hrc].
    + set (w1 := set_held _ _) in E. assert (attached w1 P) as Hw1 by (by apply (attached_eq w)).
      destruct (attached_set w1 P (25 + i) mx Hw1) as (w2 & E2 & [a ->] & _ & _ & Hj); [lia|]. rewrite E2 in E. injection E as _ _ _ _ <-.
      unfold walUnlockExclusive. change (exclusiveMode (set_apWiData w1 a)) with (exclusiveMode w). rewrite Eex. split; [done|]. intros j ?. apply Hj. lia.
    + destruct (negb (rc1 =? SQLITE_BUSY)); [by injection E as _ _ _ _ <-|].
      apply (IH _ P) in E; [|by apply (attached_eq w)|lia|lia]. destruct E as [E H]. split; [done|]. intros j Hj. by rewrite H.
Qed.

Lemma keeps_locked w w' : marks_aside w' = marks_aside w → held w' = held w → locked w → locked w'.
Proof. unfold locked. intros E -> H. pose proof (f_equal exclusiveMode E) as E'. cbn in E'. by rewrite E'. Qed.

Lemma lock_shared_keeps w i rc w' : walLockShared w i = (rc, w') → keeps w w' ∧ held w' = held w ∧ apWiData w' = apWiData w ∧ answers w' = answers w.
Proof.
  unfold walLockShared. destruct (negb _); [by intros [= <- <-]|]. destruct (next_code (shm_locks w)) as [c l]. intros [= <- <-]. by destruct (_ =? _).
Qed.

Lemma unlock_shared_keeps w i : keeps w (walUnlockShared w i).
Proof. unfold walUnlockShared. by destruct (negb _). Qed.

Lemma begin_lock_keeps w P mr mI rc w' : attached w P → locked w → begin_lock w mr mI = Some (rc, w') → keeps w w' ∧ (rc = SQLITE_OK → readLock w' = mI).
Proof.
  intros Hw Hl E. unfold begin_lock in E. destruct (walLockShared w _) as [rc1 w1] eqn:E1. destruct (lock_shared_keeps _ _ _ _ E1) as (Hk1 & Eh & Ea & Ean).
  assert (attached w1 P) as Hw1 by (by apply (attached_eq w)). assert (locked w1) as Hl1 by (by apply (keeps_locked w w1 (proj1 Hk1))).
  destruct (Z.eqb_spec rc1 SQLITE_OK) as [->|Hrc]; cbn [negb] in E.
  2: { injection E as <- <-. split; [done|]. by destruct (_ =? _). }
  destruct (others_keeps w1 P Hw1 Hl1) as (Hk2 & Hw2 & Hl2). set (w2 := others_write w1) in *. destruct (get_word w2 24) as [nB|]; [|done].
  set (w3 := set_minFrame w2 _) in E. assert (attached w3 P) as Hw3 by (by apply (attached_eq w2)). assert (keeps w2 w3) as Hk3 by done.
  destruct (others_keeps w3 P Hw3 Hl2) as (Hk4 & Hw4 & Hl4). set (w4 := others_write w3) in *. destruct (get_word w4 _) as [m|]; [|done].
  destruct (others_keeps w4 P Hw4 Hl4) as (Hk5 & _). set (w5 := others_write w4) in *. destruct (hdr_differs w5) as [d|]; [|done].
  assert (keeps w w5) as Hk15. { apply (keeps_trans w w1); [done|]. apply (keeps_trans w1 w2); [done|]. apply (keeps_trans w2 w3); [done|]. by apply (keeps_trans w3 w4). }
  destruct (_ || _); injection E as <- <-; [|by split].
  split; [exact (keeps_trans _ _ _ Hk15 (unlock_shared_keeps w5 _))|done].
Qed.

Lemma begin_mark_keeps w P rc w' : attached w P → locked w → begin_mark w true = Some (rc, w') →
  (∀ j, 0 ≤ j → (WAL_READ_LOCK j, 1) ∉ held w) → keeps w w' ∧ (rc = SQLITE_OK → readLock w' ≠ 0).
Proof.
  intros Hw Hl E Hheld. unfold begin_mark, begin_without_log in E.
  destruct (best_mark_spec (Z.to_nat (WAL_NREADER - 1)) w P 1 (mxFrame (hdr w)) 0 0 Hw) as (mr & mI & w2 & E2 & Hw2 & Hp2 & Eh2 & _ & HI & Hm);
    [done|done|by right|]. rewrite E2 in E. pose proof (best_mark_keeps _ _ _ _ _ _ _ _ _ _ Hw Hl E2) as Hk2.
  destruct (passed_lists _ _ Hp2) as (Ehd2 & _). assert (locked w2) as Hl2 by (by apply (keeps_locked w w2 (proj1 Hk2))).
  set (claim := if _ && _ then _ else _) in E. destruct claim as [[[[[out rc3] mr3] mI3] w3]|] eqn:E3; [|done]. cbn in E.
  assert (keeps w2 w3 ∧ attached w3 P ∧ locked w3 ∧ (out = true → rc3 ≠ SQLITE_OK)) as (Hk3 & Hw3 & Hl3 & Hout).
  { unfold claim in E3. destruct (_ && _); [|by injection E3 as <- _ _ _ <-].
    assert (∀ j, 0 ≤ j → (WAL_READ_LOCK j, 1) ∉ held w2) as Hh2 by (by rewrite Ehd2).
    destruct (claim_mark_spec (Z.to_nat (WAL_NREADER - 1)) w2 P 1 (mxFrame (hdr w)) mr mI SQLITE_OK Hw2 Hh2) as (o & r & m & i & w3' & E3' & Hw3 & Hp3 & _ & Ho & _); [done|done|].
    rewrite E3 in E3'. injection E3' as <- <- <- <- <-. assert (keeps w2 w3) as Hk3 by (eapply claim_mark_keeps; [exact Hw2| | |exact E3]; done).
    split; [done|]. split; [done|]. split; [|done]. apply (keeps_locked w2 w3 (proj1 Hk3)); [|done]. by apply passed_lists. }
  pose proof (keeps_trans _ _ _ Hk2 Hk3) as Hk. destruct out.
  { injection E as <- <-. split; [done|]. intros H. by apply Hout in H. }
  destruct (Z.eqb_spec mI3 0) as [->|Hne].
  { injection E as <- <-. split; [done|]. intros H. destruct (_ =? _) in H; discriminate. }
  apply (begin_lock_keeps _ P) in E as [Hk' H]; try done. split; [exact (keeps_trans _ _ _ Hk Hk')|]. intros Hrc. by rewrite (H Hrc).
Qed.

Lemma try_begin_keeps mem fuel : (∀ c p, (mem c).1 = Some p → shape p) → ∀ w P ch cnt rc ch' w', can_read w → index w P → held_shared w = [] → attached w P → locked w →
  try_begin fuel w ch true cnt mem = Some (rc, ch', w') → keeps w w' ∧ (rc = SQLITE_OK → readLock w' ≠ 0).
Proof.
  intros Hmem. induction fuel as [|fuel IH]; intros w P ch cnt rc ch' w' Hc Hi Hsh Hw Hl E; [done|]. cbn [try_begin] in E.
  destruct (walTryBeginRead_spec w P ch true cnt (mem cnt) Hc Hi (Hmem cnt) Hsh ltac:(done)) as (rc1 & ch1 & w1 & E1 & Ho & _ & Hat).
  rewrite E1 in E. assert (keeps w w1 ∧ (rc1 = SQLITE_OK → readLock w1 ≠ 0)) as [Hk1 Hr1].
  { unfold walTryBeginRead in E1. destruct (_ && _); [by injection E1 as <- _ <-|]. destruct (begin_mark w true) as [[rc2 w2]|] eqn:Eb; [|done].
    injection E1 as <- _ <-. apply (begin_mark_keeps w P rc2); try done. by apply reader_free. }
  destruct (Z.eqb_spec rc1 WAL_RETRY) as [->|Hne]; [|by injection E as <- _ <-].
  destruct Ho as (P' & Hi' & [[? _]|[_ Hp]]); [done|]. destruct (passed_lists _ _ Hp) as (Eh & Es & _).
  apply (IH w1 P) in E as [Hk2 H]; try done.
  - split; [exact (keeps_trans _ _ _ Hk1 Hk2)|done].
  - by apply (passed_can_read w w1 P').
  - apply (Hat eq_refl).
  - by rewrite Es.
  - by apply Hat.
  - by apply (keeps_locked w w1 (proj1 Hk1)).
Qed.

Lemma walRestartHdr_form w s w' : walRestartHdr w s = Some w' → ∃ a, w' = set_hdr (set_apWiData (set_nCkpt w (u32 (nCkpt w + 1))) a) (hdr w').
Proof.
  unfold walRestartHdr. destruct (next_salt _) as [s0|]; [|done]. cbn. set (w0 := set_hdr _ _). intros E.
  destruct (walIndexWriteHdr w0) as [w1|] eqn:E1; [|done]. cbn in E.
  assert (∃ a h, w1 = set_hdr (set_apWiData w0 a) h) as (a1 & h & ->).
  { unfold walIndexWriteHdr in E1. destruct (walChecksumBytes _ _ _) as [ck'|]; [|done]. cbn in E1. destruct (get_page _ 0) as [p|]; [|done]. cbn in E1.
    destruct (splice (words p) _ _) as [m1|]; [|done]. cbn in E1. destruct (splice m1 _ _) as [m2|]; [|done]. cbn in E1.
    unfold set_page in E1. destruct (wr _ _ _) as [a|]; [|done]. injection E1 as <-. by eexists a, _. }
  destruct (set_word _ 24 _) as [x24|] eqn:E24 in E; [|done]. cbn in E. apply set_word_touched in E24 as [? ->].
  destruct (set_word _ 32 _) as [x32|] eqn:E32 in E; [|done]. cbn in E. apply set_word_touched in E32 as [? ->].
  destruct (set_word _ 26 _) as [x26|] eqn:E26 in E; [|done]. cbn in E. apply set_word_touched in E26 as [? ->].
  destruct (set_word _ 27 _) as [x27|] eqn:E27 in E; [|done]. cbn in E. apply set_word_touched in E27 as [? ->].
  destruct (set_word _ 28 _) as [x28|] eqn:E28 in E; [|done]. cbn in E. apply set_word_touched in E28 as [? ->].
  apply set_word_touched in E as [? ->]. by eexists _.
Qed.

(** A connection that reads the database file alone and is to write: it may
    look for the start of the log. *)
Record starting (w : Wal) (P : list Z) : Prop := {
  sg_read : can_read w;
  sg_attached : attached w P;
  sg_locked : locked w;
  sg_order : is_u8 (bigEndCksum (hdr w));
  sg_shared : held_shared w = if exclusiveMode w =? 0 then [WAL_READ_LOCK 0] else []
}.

(** The log starts over: the index counts no frame, and its header, in shared
    memory too, has new salts. *)
Record restarted (w w' : Wal) (salt1 : Z) : Prop := {
  rs_fields : marks_aside w' = marks_aside (set_hdr (set_nCkpt w (u32 (nCkpt w + 1))) (hdr w'));
  rs_attached : attached w' [];
  rs_posted : posted w';
  rs_mx : mxFrame (hdr w') = 0;
  rs_salt : ∃ s, next_salt (aSalt (hdr w)).1 = Some s ∧ aSalt (hdr w') = (s, salt1)
}.

Lemma keeps_posted w w' : keeps w w' → posted w → posted w'.
Proof.
  intros [E H] [Hp Hr]. pose proof (f_equal hdr E) as Eh. cbn in Eh. unfold posted. rewrite Eh. split; [|done]. intros i Hi. rewrite <- Hp by done. by apply H.
Qed.

Lemma can_read_start w w' P : can_read w → index w' P → content (pWalFd w') = content (pWalFd w) → answers w' = answers w →
  (bShmUnreliable w', writeLock w', ckptLock w', held w') = (bShmUnreliable w, writeLock w, ckptLock w, held w) → can_read w'.
Proof. intros [_ Hb Hs Ha Hc Hh] Hi E1 E2 E3. injection E3 as E4 E5 E6 E7. split; rewrite ?E1, ?E2, ?E4, ?E5, ?E6, ?E7; try done. by exists P. Qed.

Lemma unlock_zero w : held_shared w = (if exclusiveMode w =? 0 then [WAL_READ_LOCK 0] else []) →
  walUnlockShared w (WAL_READ_LOCK 0) = set_held_shared w [].
Proof.
  intros H. unfold walUnlockShared. rewrite H. destruct (exclusiveMode w =? 0) eqn:E; cbn [negb]; [done|]. rewrite <- H. by destruct w.
Qed.

(** From the moment the shared lock is given back. *)
Lemma restart_begin w w1 P mem : starting w P → (∀ c p, (mem c).1 = Some p → shape p) → attached w1 P → locked w1 → held w1 = held w →
  held_shared w1 = held_shared w → exclusiveMode w1 = exclusiveMode w → content (pWalFd w1) = content (pWalFd w) → answers w1 = answers w →
  bShmUnreliable w1 = bShmUnreliable w → writeLock w1 = writeLock w → ckptLock w1 = ckptLock w →
  ∃ rc w', (let* (rc, _, pWal) := try_begin (S (Z.to_nat WAL_RETRY_PROTOCOL_LIMIT)) (set_readLock (walUnlockShared w1 (WAL_READ_LOCK 0)) (-1)) 0 true 0 mem in Some (rc, pWal)) =
      Some (rc, w') ∧ keeps w1 w' ∧ attached w' P ∧ held w' = held w ∧ (rc = SQLITE_OK → readLock w' ≠ 0).
Proof.
  intros [Hc _ _ _ Hsh] Hmem Hw1 Hl1 Eh Es Ee Ect Ea Eb Ew Ek. rewrite unlock_zero by (by rewrite Es, Ee). set (w2 := set_readLock _ (-1)).
  assert (attached w2 P) as Hw2 by (by apply (attached_eq w1)). assert (can_read w2) as Hc2.
  { apply (can_read_start w w2 P); [done|apply Hw2|done|done|]. cbn. congruence. }
  destruct (try_begin_spec true mem (S (Z.to_nat WAL_RETRY_PROTOCOL_LIMIT)) Hmem w2 P 0 0 Hc2 (a_index _ _ Hw2) eq_refl) as (rc & ch & w' & E & Ho & _ & Hat); [done|lia|done|].
  rewrite E. exists rc, w'. split; [done|]. destruct (try_begin_keeps mem _ Hmem w2 P 0 0 rc ch w' Hc2 (a_index _ _ Hw2) eq_refl Hw2 Hl1 E) as [Hk Hr].
  split; [exact Hk|]. split; [by apply Hat|]. split; [|done]. destruct Ho as (P' & _ & [[_ Hb]|[_ Hp]]).
  - pose proof (bg_fields _ _ _ Hb) as H. injection H as _ _ _ H _ _. by rewrite H.
  - destruct (passed_lists _ _ Hp) as [H _]. by rewrite H.
Qed.

Lemma walRestartLog_spec w P salt1 mem : (readLock w = 0 → starting w P) → attached w P → (∀ c p, (mem c).1 = Some p → shape p) →
  ∃ rc w', walRestartLog w salt1 mem = Some (rc, w') ∧ held w' = held w ∧ (rc = SQLITE_OK → readLock w' ≠ 0) ∧
    (readLock w ≠ 0 → w' = w) ∧ (keeps w w' ∧ attached w' P ∨ readLock w = 0 ∧ restarted w w' salt1).
Proof.
  intros Hst Hw Hmem. unfold walRestartLog. destruct (Z.eqb_spec (readLock w) 0) as [Hr|Hr].
  2: { exists SQLITE_OK, w. split_and!; try done. by left. }
  specialize (Hst Hr). pose proof Hst as [Hc _ Hl Ho Hsh]. destruct (others_keeps w P Hw Hl) as (Hk1 & Hw1 & Hl1).
  destruct (others_write_spec w P Hw) as (a1 & lo1 & E1 & _ & _). set (w1 := others_write w) in *.
  destruct (get_word_some w1 P 24 (a_index _ _ Hw1) (a_page _ _ Hw1)) as [nB ->]; [lia|].
  destruct (0 <? nB).
  2: { destruct (restart_begin w w1 P mem Hst Hmem Hw1 Hl1) as (rc & w' & -> & Hk & Hw' & Eh & Hrd); try (by rewrite E1).
    exists rc, w'. split; [done|]. split; [done|]. split; [done|]. split; [done|]. left. split; [exact (keeps_trans _ _ _ Hk1 Hk)|done]. }
  destruct (lock_range w1 (WAL_READ_LOCK 1) (WAL_NREADER - 1)) as (rc & h & l & -> & Hh & Hno & Hun).
  { rewrite E1. intros Hin. apply (cr_held _ Hc) in Hin. cbn in Hin. unfold WAL_READ_LOCK in Hin. destruct (cr_ckpt _ Hc); lia. }
  set (w2 := set_held (set_shm_locks w1 l) h). assert (attached w2 P) as Hw2 by (by apply (attached_eq w1)).
  destruct (Z.eqb_spec rc SQLITE_OK) as [->|Hrc].
  - destruct (walRestartHdr_spec w2 P salt1 Hw2) as (w3 & s & E3 & Hw3 & Hpo3 & _ & Emx & Es & Esalt & _ & _ & _).
    { change (is_u8 (bigEndCksum (hdr w1))). by rewrite E1. }
    destruct (walRestartHdr_form _ _ _ E3) as [a3 F3]. rewrite E3.
    rewrite Hun; [|done|by rewrite F3|by rewrite F3]. set (w4 := set_held w3 (held w1)).
    assert (locked w4) as Hl4 by (unfold w4; rewrite F3; unfold locked in *; exact Hl1).
    destruct (restart_begin w w4 [] mem) as (rc & w' & -> & Hk & Hw' & Eh & Hrd).
    { destruct Hst as [S1 S2 S3 S4 S5]. split; try done. split; [by apply index_nil with P; apply S2|apply S2]. }
    { done. }
    { by apply (attached_eq w3). }
    { done. }
    1-8: first [done|unfold w4; rewrite F3; unfold w2; rewrite E1; done].
    exists rc, w'. split; [done|]. split; [done|]. split; [done|]. split; [done|]. right. split; [done|].
    assert (hdr w' = hdr w3) as Ehd by (exact (f_equal hdr (proj1 Hk))). split.
    + destruct Hk as [Ek _]. rewrite Ek, Ehd. unfold w4. rewrite F3. unfold w2. rewrite E1. done.
    + done.
    + apply (keeps_posted w4); [done|]. exact Hpo3.
    + by rewrite Ehd.
    + exists s. rewrite Ehd. split; [|done]. change (next_salt (aSalt (hdr w1)).1 = Some s) in Es. by rewrite E1 in Es.
  - specialize (Hno Hrc). subst h. assert (keeps w1 w2) as Hk2 by done. destruct (negb (rc =? SQLITE_BUSY)) eqn:Eb.
    + exists rc, w2. split; [done|]. split; [unfold w2; by rewrite E1|]. split; [done|]. split; [done|]. left. split; [exact (keeps_trans _ _ _ Hk1 Hk2)|done].
    + destruct (restart_begin w w2 P mem Hst Hmem Hw2) as (rc2 & w' & -> & Hk & Hw' & Eh & Hrd); try (unfold w2; rewrite E1; done).
      exists rc2, w'. split; [done|]. split; [done|]. split; [done|]. split; [done|]. left. split; [|done].
      exact (keeps_trans _ _ _ Hk1 (keeps_trans _ _ _ Hk2 Hk)).
Qed.

(** ** The header while frames go to the index *)

(** The words of the header of the index stay what they are. *)
Definition head (w w' : Wal) : Prop := ∀ j v, 0 ≤ j < 34 → get_word w j = Some v → get_word w' j = Some v.

Lemma head_refl w : head w w.
Proof. by intros j v. Qed.
#[local] Hint Resolve head_refl : core.

Lemma head_trans w1 w2 w3 : head w1 w2 → head w2 w3 → head w1 w3.
Proof. intros H1 H2 j v Hj E. apply H2; [done|]. by apply H1. Qed.

Lemma get_word_page w j v : get_word w j = Some v → ∃ p, get_page w 0 = Some p ∧ rd (words p) j = Some v.
Proof. unfold get_word. destruct (get_page w 0) as [p|]; [|done]. intros E. by exists p. Qed.

Lemma head_set w h p wd s w' : get_page w h = Some p → (h = 0 → ∀ j, 0 ≤ j < 34 → rd wd j = rd (words p) j) →
  set_page w h (mk_page wd s) = Some w' → head w w'.
Proof.
  intros Hp Hwd E j v Hj Ev. unfold set_page in E. destruct (wr (apWiData w) h _) as [a|] eqn:Ea; [|done]. injection E as <-.
  destruct (get_word_page _ _ _ Ev) as (p0 & Hp0 & Ew). unfold get_word, get_page. cbn [apWiData set_apWiData].
  destruct (decide (h = 0)) as [->|Hne].
  - rewrite (rd_wr_eq _ _ _ _ Ea). cbn [words]. rewrite Hwd by done. assert (p0 = p) as -> by congruence. done.
  - rewrite (rd_wr_ne _ _ _ _ _ Ea) by done. unfold get_page in Hp0. rewrite Hp0. done.
Qed.

Lemma walIndexPage_head w h rc b w' : 0 ≤ h → walIndexPage w h = Some (rc, b, w') → head w w'.
Proof.
  intros Hh E j v Hj Ev. destruct (get_word_page _ _ _ Ev) as (p0 & Hp0 & Ew). unfold get_page in Hp0.
  destruct (rd (apWiData w) 0) as [q|] eqn:E0; [|done]. cbn in Hp0. subst q. pose proof (rd_lt _ _ _ E0) as Hlt.
  assert (∀ w2, walIndexPageRealloc w h = Some (rc, b, w2) → h ≠ 0 → get_word w2 j = Some v) as Hre.
  { intros w2 E2 Hne. unfold walIndexPageRealloc in E2. destruct (match answers w with [] => (mk_answer false SQLITE_NOMEM None, []) | a :: rest => (a, rest) end) as [a rest].
    change (apWiData (set_answers w rest)) with (apWiData w) in E2. destruct (_ && _); [injection E2 as _ _ <-; exact Ev|].
    set (ap := if Z.of_nat (length (apWiData w)) <=? h then apWiData w ++ replicate (Z.to_nat (h + 1 - Z.of_nat (length (apWiData w)))) None else apWiData w) in E2. assert (rd ap 0 = Some (Some p0)) as Hap by (unfold ap; destruct (_ <=? _); [rewrite rd_app_l by lia|]; done).
    assert (∀ x a', wr ap h x = Some a' → rd a' 0 = Some (Some p0)) as Hwr by (intros x a' Ea; by rewrite (rd_wr_ne _ _ _ _ _ Ea)).
    change (exclusiveMode (set_answers w rest)) with (exclusiveMode w) in E2.
    destruct (exclusiveMode w =? _).
    - destruct (wr ap h _) as [a'|] eqn:Ea; [|done]. injection E2 as _ _ <-. unfold get_word, get_page. cbn [apWiData set_apWiData]. by rewrite (Hwr _ _ Ea).
    - destruct (wr ap h _) as [a'|] eqn:Ea; [|done]. cbn in E2. destruct (_ && _); injection E2 as _ _ <-; unfold get_word, get_page; cbn [apWiData set_apWiData set_readOnly]; by rewrite (Hwr _ _ Ea). }
  unfold walIndexPage in E. destruct (Z.leb_spec (Z.of_nat (length (apWiData w))) h) as [Hle|Hgt]; [apply Hre; [done|lia]|].
  destruct (rd (apWiData w) h) as [[q|]|] eqn:Eh; [by injection E as _ _ <-| |done]. apply Hre; [done|]. intros ->. congruence.
Qed.

Lemma walHashGet_head w h rc loc w' : 0 ≤ h → walHashGet w h = Some (rc, loc, w') → head w w' ∧ iHash loc = h ∧ (h = 0 → off loc = 34 ∧ iZero loc = 0).
Proof.
  intros Hh E. unfold walHashGet in E. destruct (walIndexPage w h) as [[[rc1 b] w1]|] eqn:E1; [|done]. cbn in E. injection E as _ <- <-.
  split; [by eapply walIndexPage_head|]. by destruct (Z.eqb_spec h 0) as [->|].
Qed.

Lemma walHashGet_hdr w h rc loc w' : walHashGet w h = Some (rc, loc, w') → hdr w' = hdr w.
Proof.
  unfold walHashGet, walIndexPage. intros E.
  assert (∀ r b w2, walIndexPageRealloc w h = Some (r, b, w2) → hdr w2 = hdr w) as Hre.
  { intros r b w2 E2. unfold walIndexPageRealloc in E2. destruct (match answers w with [] => (mk_answer false SQLITE_NOMEM None, []) | a :: rest => (a, rest) end) as [a rest].
    destruct (_ && _); [by injection E2 as _ _ <-|]. destruct (_ =? WAL_HEAPMEMORY_MODE); destruct (wr _ _ _); try done; [by injection E2 as _ _ <-|]. cbn in E2.
    destruct (_ && _); by injection E2 as _ _ <-. }
  destruct (_ <=? _).
  - destruct (walIndexPageRealloc w h) as [[[r b] w2]|] eqn:E2; [|done]. injection E as _ _ <-. by eapply Hre.
  - destruct (rd (apWiData w) h) as [[q|]|]; [by injection E as _ _ <-| |done].
    cbn in E. destruct (walIndexPageRealloc w h) as [[[r b] w2]|] eqn:E2; [|done]. injection E as _ _ <-. by eapply Hre.
Qed.

Lemma set_page_hdr w h p w' : set_page w h p = Some w' → hdr w' = hdr w.
Proof. unfold set_page. destruct (wr _ _ _); [|done]. by intros [= <-]. Qed.

Lemma words_kept l i l' j : zero_words l i = Some l' → 0 ≤ j < i → rd l' j = rd l j.
Proof.
  intros E Hj. destruct (zero_words_spec _ _ _ E) as [El H]. destruct (decide (j < Z.of_nat (length l))) as [Hlt|Hge]; [by rewrite H, decide_True by lia|].
  rewrite (proj2 (eq_None_not_Some (rd l' j))), (proj2 (eq_None_not_Some (rd l j))); [done|intros [y Hy%rd_lt]; lia|intros [y Hy%rd_lt]; lia].
Qed.

Lemma walCleanupHash_head w w' : 0 ≤ mxFrame (hdr w) < MAX_FRAMES → walCleanupHash w = Some w' → head w w' ∧ hdr w' = hdr w.
Proof.
  intros Hmx E. unfold walCleanupHash in E. destruct (_ =? 0); [by injection E as <-|].
  destruct (walHashGet w _) as [[[rc loc] w1]|] eqn:E1; [|done]. cbn in E. pose proof (walHashGet_hdr _ _ _ _ _ E1) as Eh.
  assert (0 ≤ walFramePage (mxFrame (hdr w))) as H00 by (unfold MAX_FRAMES in Hmx; rewrite walFramePage_spec by (unfold MAX_FRAMES; lia); dm).
  destruct (walHashGet_head w _ _ _ _ H00 E1) as (Hh & Eloc & H0).
  destruct (negb _); [by injection E as <-|]. destruct (get_page w1 _) as [p|] eqn:Ep; [|done]. cbn in E. destruct (zero_words _ _) as [wd|] eqn:Ez; [|done]. cbn in E.
  split; [|rewrite (set_page_hdr _ _ _ _ E); done]. apply (head_trans _ _ _ Hh). apply (head_set _ _ _ _ _ _ Ep) in E; [done|].
  intros Ei j Hj. rewrite <- Eloc in H0. destruct (H0 Ei) as [Eo Hz]. rewrite Eo, Hz, Eh, i32_id in Ez by (unfold is_i32, MAX_FRAMES in *; lia).
  apply (words_kept _ _ _ _ Ez). lia.
Qed.

Lemma walIndexAppend_head w f q rc w' : 1 ≤ f < MAX_FRAMES → 0 ≤ mxFrame (hdr w) < MAX_FRAMES → walIndexAppend w f q = Some (rc, w') → head w w' ∧ hdr w' = hdr w.
Proof.
  intros Hf Hmx E. unfold walIndexAppend in E. destruct (walFramePage_range f) as [Hr _]; [lia|].
  destruct (walHashGet w _) as [[[rc1 loc] w1]|] eqn:E1; [|done]. cbn -[free_key] in E. pose proof (walHashGet_hdr _ _ _ _ _ E1) as Eh.
  destruct (walHashGet_head w _ _ _ _ (proj1 Hr) E1) as (Hh & Eloc & H0). rewrite <- Eloc in H0. destruct (negb _); [by injection E as _ <-|].
  set (idx := i32 (f - iZero loc)) in E.
  assert (iHash loc = 0 → off loc = 34 ∧ 1 ≤ idx) as Hidx.
  { intros Ei. destruct (H0 Ei) as [-> Ez]. unfold idx. rewrite Ez, i32_id by (unfold is_i32, MAX_FRAMES in *; lia). lia. }
  set (first := if idx =? 1 then _ else _) in E. destruct first as [w2|] eqn:E2; [|done]. cbn -[free_key] in E.
  assert (head w1 w2 ∧ hdr w2 = hdr w1) as [Hh2 Eh2].
  { unfold first in E2. destruct (idx =? 1); [|by injection E2 as <-]. destruct (get_page w1 _) as [p|] eqn:Ep; [|done]. cbn in E2.
    destruct (zero_words _ _) as [wd|] eqn:Ez; [|done]. cbn in E2. split; [|by eapply set_page_hdr]. apply (head_set _ _ _ _ _ _ Ep) in E2; [done|].
    intros Ei j Hj. destruct (Hidx Ei) as [Eo _]. apply (words_kept _ _ _ _ Ez). lia. }
  destruct (get_page w2 _) as [p|] eqn:Ep; [|done]. cbn -[free_key] in E. destruct (rd (words p) _) as [x|]; [|done]. cbn -[free_key] in E.
  set (clean := if negb _ then _ else _) in E. destruct clean as [w3|] eqn:E3; [|done]. cbn -[free_key] in E.
  assert (head w2 w3 ∧ hdr w3 = hdr w2) as [Hh3 Eh3].
  { unfold clean in E3. destruct (negb _); [|by injection E3 as <-]. apply walCleanupHash_head in E3; [done|]. by rewrite Eh2, Eh. }
  pose proof (head_trans _ _ _ Hh (head_trans _ _ _ Hh2 Hh3)) as Hh03. assert (hdr w3 = hdr w) as Eh03 by congruence.
  destruct (get_page w3 _) as [p3|] eqn:Ep3; [|done]. cbn -[free_key] in E. destruct (free_key _ _ _ _) as [[k|]|]; [|by injection E as _ <-|done]. cbn -[free_key] in E.
  destruct (wr (words p3) _ _) as [wd|] eqn:Ew; [|done]. cbn -[free_key] in E. destruct (wr (slots p3) _ _) as [s|]; [|done]. cbn -[free_key] in E.
  destruct (set_page _ _ _) as [w4|] eqn:E4; [|done]. injection E as _ <-. split; [|by rewrite (set_page_hdr _ _ _ _ E4)]. apply (head_trans _ _ _ Hh03). apply (head_set _ _ _ _ _ _ Ep3) in E4; [done|].
  intros Ei j Hj. destruct (Hidx Ei) as [Eo Hi1]. apply (rd_wr_ne _ _ _ _ _ Ew). lia.
Qed.


Lemma index_frames_head pgnos : ∀ w f rc f' w', 0 ≤ f → f + Z.of_nat (length pgnos) < MAX_FRAMES → 0 ≤ mxFrame (hdr w) < MAX_FRAMES →
  index_frames w f pgnos = Some (rc, f', w') → head w w'.
Proof.
  induction pgnos as [|q pgnos IH]; intros w f rc f' w' Hf Hmax Hmx E; cbn [index_frames] in E; [by injection E as _ _ <-|].
  cbn [length] in Hmax. unfold MAX_FRAMES in *. rewrite u32_id in E by (unfold is_u32; lia).
  destruct (walIndexAppend w (f + 1) q) as [[rc1 w1]|] eqn:E1; [|done]. cbn [index_frames] in E.
  apply walIndexAppend_head in E1 as [Hh Eh]; [|unfold MAX_FRAMES; lia|done]. apply (head_trans _ _ _ Hh).
  destruct (rc1 =? SQLITE_OK); [|by injection E as _ _ <-]. apply IH in E; [done|lia|lia|by rewrite Eh].
Qed.

Lemma attached_same w w' P P' : attached w P → same w w' → index w' P' → head w w' → attached w' P'.
Proof.
  intros Hw _ Hi Hh. split; [done|]. destruct (get_word_some w P 0 (a_index _ _ Hw) (a_page _ _ Hw)) as [y Ey]; [lia|].
  apply Hh in Ey; [|lia]. destruct (get_word_page _ _ _ Ey) as (p & Hp & _). by exists p.
Qed.

(** What the end of a call leaves as it is. *)
Definition files (w : Wal) : file * Z * Z * list (Z * Z) * Z * Z * Z * Z * bool * (Z * Z) * (Z * Z) :=
  (pWalFd w, szPage w, iReCksum w, held w, exclusiveMode w, readLock w, minFrame w, nCkpt w, big_end w, aSalt (hdr w), aFrameCksum (hdr w)).

Lemma same_files w w' : same w w' → files w' = files w.
Proof. unfold same, files, big_end, nativeCksum. intros H. destruct_and! H. congruence. Qed.

Lemma index_commit_spec w P sz t isC pgnos : attached w P → 0 ≤ mxFrame (hdr w) ≤ Z.of_nat (length P) → Forall (λ q, 0 < q) pgnos →
  mxFrame (hdr w) + Z.of_nat (length pgnos) < MAX_FRAMES → is_u8 (bigEndCksum (hdr w)) →
  ∃ rc w', index_commit w sz t isC pgnos = Some (rc, w') ∧ files w' = files w ∧
    (rc ≠ SQLITE_OK → hdr w' = hdr w ∧ head w w' ∧
      ∃ P', attached w' P' ∧ mxFrame (hdr w) ≤ Z.of_nat (length P') ∧ take (Z.to_nat (mxFrame (hdr w))) P' = take (Z.to_nat (mxFrame (hdr w))) P) ∧
    (rc = SQLITE_OK → mxFrame (hdr w') = mxFrame (hdr w) + Z.of_nat (length pgnos) ∧ is_u8 (bigEndCksum (hdr w')) ∧
      (if isC then posted w' ∧ nPage (hdr w') = t else head w w') ∧
      ∃ P', attached w' P' ∧ take (Z.to_nat (mxFrame (hdr w'))) P' = take (Z.to_nat (mxFrame (hdr w))) P ++ pgnos).
Proof.
  intros Hw Hmx Hq Hmax Hu. pose proof Hw as [Hi Hp]. unfold index_commit.
  destruct (index_frames_spec pgnos w P (mxFrame (hdr w)) Hi) as (rc & f & w1 & P' & E & Hs & Hi' & H); [lia|done|done|right; lia|].
  rewrite E. assert (head w w1) as Hh by (eapply index_frames_head; [| | |exact E]; lia).
  pose proof (attached_same _ _ _ _ Hw Hs Hi' Hh) as Hw1. pose proof (same_files _ _ Hs) as Ef. assert (hdr w1 = hdr w) as Eh by apply Hs.
  destruct H as [(-> & -> & H)|(Hne & Hl & Ht & _)]; [rewrite Z.eqb_refl; cbn [negb]|rewrite (proj2 (Z.eqb_neq _ _)) by done; cbn [negb]].
  2: { exists rc, w1. split; [done|]. split; [done|]. split; [|done]. intros _. split; [done|]. split; [done|]. by exists P'. }
  assert (take (Z.to_nat (mxFrame (hdr w) + Z.of_nat (length pgnos))) P' = take (Z.to_nat (mxFrame (hdr w))) P ++ pgnos) as Et.
  { destruct H as [->|[-> ->]]; [|by rewrite app_nil_r, Z.add_0_r]. apply take_ge. rewrite length_app, length_take. lia. }
  set (h := mk_hdr _ _ _ _ _ _ _ _ _ _ _). set (w2 := set_hdr w1 h). assert (attached w2 P') as Hw2 by (by apply (attached_eq w1)).
  assert (files w2 = files w) as Ef2 by (rewrite <- Ef; done).
  destruct isC.
  - destruct Hw2 as [Hi2 [p2 Hp2]]. destruct (walIndexWriteHdr_spec w2 P' p2 Hi2 Hp2) as (w3 & p3 & a & -> & E3 & Hi3 & Hl3); [cbn; by rewrite Eh|].
    eexists SQLITE_OK, _. split; [done|]. split; [rewrite <- Ef2, E3; done|]. split; [done|]. intros _. pose proof (live_posted _ _ Hl3) as Hpo.
    split; [rewrite E3; done|]. split; [rewrite E3; cbn; by rewrite Eh|]. split; [split; [exact Hpo|by rewrite E3]|]. exists P'. split.
    + destruct Hl3 as [Hg _]. split; [by apply (index_eq w3)|by exists p3].
    + rewrite E3. exact Et.
  - exists SQLITE_OK, w2. split; [done|]. split; [done|]. split; [done|]. intros _. split; [done|]. split; [cbn; by rewrite Eh|]. split; [exact Hh|]. by exists P'.
Qed.

(** ** A transaction *)

(** The header of the log, [a0], and what follows from it. *)
Record log_at (sz : Z) (w : Wal) (big : bool) (salt : Z * Z) (a0 : bytes) (ck : Z * Z) : Prop := {
  la_length : length a0 = 32%nat;
  la_bytes : is_bytes a0;
  la_sums : drop 24 a0 = be_bytes ck.1 ++ be_bytes ck.2;
  la_ck : pair_u32 ck;
  la_header : is_header a0 big sz (nCkpt w) salt ck
}.

(** The log holds the frames [c] and, after them, those of a transaction that
    is not finished, [l]. *)
Definition logged (sz : Z) (w : Wal) (c l : list entry) : Prop :=
  ∃ big salt a0 ck l1 l2 gs r x, log_at sz w big salt a0 ck ∧ flog sz big salt a0 ck w l1 l2 gs r ∧ l1 ++ l2 = c ++ l ∧ l1 = c ++ x.

Record prepared (sz : Z) (w : Wal) (c l : list entry) (P : list Z) : Prop := {
  pr_attached : attached w P;
  pr_frames : take (length (c ++ l)) P = map page_of (c ++ l);
  pr_mx : mxFrame (hdr w) = Z.of_nat (length (c ++ l));
  pr_file : c ++ l ≠ [] → logged sz w c l;
  pr_sums : l = [] → iReCksum w = 0;
  pr_ints : is_u8 (bigEndCksum (hdr w)) ∧ is_u32 (nCkpt w) ∧ pair_u32 (aSalt (hdr w))
}.

(** A writer in its transaction: [c] is committed, and the header in shared
    memory says so; [l] is what it wrote since. *)
Record writing (sz : Z) (w : Wal) (c l : list entry) : Prop := {
  wg_prepared : ∃ P, prepared sz w c l P;
  wg_live : ∃ h, walIndexHdr w = Some h ∧ mxFrame h = Z.of_nat (length c);
  wg_locked : locked w;
  wg_read : readLock w = 0 → hdr_differs w = Some false
}.

Lemma flog_eq sz big salt a0 ck w w' l1 l2 gs r : pWalFd w' = pWalFd w → hdr w' = hdr w → iReCksum w' = iReCksum w → szPage w' = szPage w →
  flog sz big salt a0 ck w l1 l2 gs r → flog sz big salt a0 ck w' l1 l2 gs r.
Proof. intros E1 E2 E3 E4 [Ec Hg Hs Hl Hc]. split; unfold big_end, nativeCksum in *; rewrite ?E1, ?E2, ?E3, ?E4; done. Qed.

Lemma log_at_eq sz w w' big salt a0 ck : nCkpt w' = nCkpt w → log_at sz w big salt a0 ck → log_at sz w' big salt a0 ck.
Proof. intros E []. split; try done. by rewrite E. Qed.

Lemma logged_eq sz w w' c l : pWalFd w' = pWalFd w → hdr w' = hdr w → iReCksum w' = iReCksum w → szPage w' = szPage w → nCkpt w' = nCkpt w →
  logged sz w c l → logged sz w' c l.
Proof.
  intros E1 E2 E3 E4 E5 (big & salt & a0 & ck & l1 & l2 & gs & r & x & Hh & Hf & E & Ex). exists big, salt, a0, ck, l1, l2, gs, r, x.
  split; [by apply (log_at_eq sz w)|]. split; [by apply (flog_eq sz big salt a0 ck w)|done].
Qed.

Lemma prepared_keeps sz w w' c l P : keeps w w' → attached w' P → prepared sz w c l P → prepared sz w' c l P.
Proof.
  intros [E _] Hw' [_ Hf Hm Hl Hs Hn]. pose proof (f_equal hdr E) as E1. pose proof (f_equal iReCksum E) as E2. pose proof (f_equal nCkpt E) as E3.
  pose proof (f_equal pWalFd E) as E4. pose proof (f_equal szPage E) as E5. cbn in E1, E2, E3, E4, E5.
  split; rewrite ?E1, ?E2, ?E3; try done. intros H. by apply (logged_eq sz w), Hl.
Qed.

(** The words of the header in shared memory decide what is read there. *)
Lemma head_words w w' P P' : attached w P → attached w' P' → (∀ i, 0 ≤ i < 24 → get_word w' i = get_word w i) →
  walIndexHdr w' = walIndexHdr w ∧ (hdr w' = hdr w → hdr_differs w' = hdr_differs w).
Proof.
  intros [Hi [p Hp]] [Hi' [p' Hp']] H. destruct (i_shape _ _ Hi 0 p Hp) as [Hs _]. destruct (i_shape _ _ Hi' 0 p' Hp') as [Hs' _].
  change (Z.to_nat HASHTABLE_NPAGE) with 4096%nat in Hs, Hs'.
  assert (∀ i, 0 ≤ i < 24 → rd (words p') i = rd (words p) i) as Hrd by (intros i Hr; specialize (H i Hr); unfold get_word in H; by rewrite Hp, Hp' in H).
  assert (take 12 (words p') = take 12 (words p)) as Et.
  { apply list_eq. intros i. destruct (decide (i < 12)%nat) as [Hlt|]; [|rewrite !lookup_take_ge by lia; done]. rewrite !lookup_take_lt by lia.
    specialize (Hrd (Z.of_nat i) ltac:(lia)). unfold rd in Hrd. rewrite !decide_True, Nat2Z.id in Hrd by lia. done. }
  assert (∀ l : list Z, (12 ≤ length l)%nat → hdr_of_words l = hdr_of_words (take 12 l)) as Htake.
  { intros l Hl. do 12 (destruct l as [|? l]; [cbn in Hl; lia|]). done. }
  unfold walIndexHdr, hdr_differs. rewrite Hp, Hp'. split.
  - change (hdr_of_words (words p') = hdr_of_words (words p)). by rewrite (Htake (words p)), (Htake (words p')), Et by lia.
  - intros ->. pose proof (sub_take (words p) 0 12 ltac:(lia)) as E. pose proof (sub_take (words p') 0 12 ltac:(lia)) as E'.
    change (Z.of_nat 0) with 0 in E, E'. change (Z.of_nat 12) with 12 in E, E'. by rewrite E, E', !drop_0, Et.
Qed.

Lemma header_bytes_ok sz ckpt salt : is_bytes (header_bytes sz ckpt salt).
Proof. repeat (apply Forall_app; split); apply is_bytes_be || apply is_bytes_le. Qed.

(** The log is open for frames. *)
Lemma start_log_spec sz w c l P sync random : size_ok sz → prepared sz w c l P → pair_u32 random →
  ∃ rc w', start_log w sz sync random = Some (rc, w') ∧ attached w' P ∧ get_word w' = get_word w ∧
    (held w', exclusiveMode w', readLock w', minFrame w', nCkpt w', mxFrame (hdr w')) =
    (held w, exclusiveMode w, readLock w, minFrame w, nCkpt w, mxFrame (hdr w)) ∧
    is_u8 (bigEndCksum (hdr w')) ∧ pair_u32 (aSalt (hdr w')) ∧ (rc ≠ SQLITE_OK → c = []) ∧ (c ≠ [] → w' = w) ∧ (rc = SQLITE_OK → logged sz w' c l).
Proof.
  intros Hsz [Hw Hf Hm Hl Hs (Hu & Hck & Hsalt)] Hrand. unfold start_log. destruct (Z.eqb_spec (mxFrame (hdr w)) 0) as [E0|Hne].
  2: { exists SQLITE_OK, w. split_and!; try done; [by destruct Hsalt..|]. intros _. apply Hl. intros E. by rewrite E in Hm. }
  assert (c ++ l = []) as [-> ->]%app_eq_nil by (destruct (c ++ l); [done|cbn [length] in Hm; lia]).
  change (Z.to_nat WAL_HDRSIZE) with 32%nat. rewrite log_header_spec by done. set (salt := if nCkpt w =? 0 then random else aSalt (hdr w)).
  assert (pair_u32 salt) as Hsalt' by (unfold salt; by destruct (_ =? _)). set (w1 := set_truncateOnCommit _ 1).
  destruct (write_put (pWalFd w1) [] (content (pWalFd w)) (header_bytes sz (nCkpt w) salt) 0 eq_refl eq_refl) as (rc & f & -> & Hput).
  assert (∀ f', attached (set_pWalFd w1 f') P) as Hat by (intros f'; by apply (attached_eq w)).
  assert (∀ f', content f' = content f → rc = SQLITE_OK → logged sz (set_pWalFd w1 f') [] []) as Hlog.
  { intros f' Ef ->. apply put_ok in Hput. exists false, salt, (header_bytes sz (nCkpt w) salt), (header_sum sz (nCkpt w) salt), [], [], [],
      (drop (length (header_bytes sz (nCkpt w) salt)) (content (pWalFd w))), []. split; [|split; [|done]].
    - split; [done|apply header_bytes_ok| |apply header_sum_u32|].
      + unfold header_bytes. apply drop_app_length'. done.
      + rewrite <- (app_nil_r (header_bytes _ _ _)). by apply header_is.
    - split; try done. { cbn [pWalFd set_pWalFd]. rewrite Ef, Hput. done. } left. split; [|done]. by apply Hs. }
  destruct (Z.eqb_spec rc SQLITE_OK) as [->|Hrc]; cbn [negb].
  2: { exists rc, (set_pWalFd w1 f). split; [done|]. split; [done|]. by split_and!. }
  destruct (negb _).
  - destruct (sync_spec f (CKPT_SYNC_FLAGS sync)) as (rc & f2 & E & Ef). change (pWalFd (set_pWalFd w1 f)) with f. rewrite E.
    exists rc, (set_pWalFd w1 f2). split; [done|]. split; [done|]. split_and!; try done. intros _. by apply Hlog.
  - exists SQLITE_OK, (set_pWalFd w1 f). split; [done|]. split; [done|]. split_and!; try done. intros _. by apply Hlog.
Qed.

Lemma flog_files sz big salt a0 ck w w' l1 l2 gs r : files w' = files w → flog sz big salt a0 ck w l1 l2 gs r → flog sz big salt a0 ck w' l1 l2 gs r.
Proof.
  unfold files. intros E [Ec Hg Hs Hl (H1 & H2 & H3)]. injection E as E1 E2 E3 E4 E5 E6 E7 E8 E9 E10 E11. split; rewrite ?E1, ?E2, ?E3; try done; [|split_and!; congruence].
  destruct Hs as [(? & ? & ?)|?]; [left|by right]. split_and!; congruence.
Qed.

Lemma head_eq w w' P : attached w P → head w w' → ∀ j, 0 ≤ j < 24 → get_word w' j = get_word w j.
Proof. intros Hw Hh j Hj. destruct (get_word_some w P j (a_index _ _ Hw) (a_page _ _ Hw)) as [y Ey]; [lia|]. rewrite Ey. apply Hh; [lia|done]. Qed.

Lemma data_of_padding l e k q : data_of (l ++ [e] ++ replicate k e) q = data_of (l ++ [e]) q.
Proof.
  rewrite !data_of_app. cbn [app data_of]. assert (data_of (replicate k e) q = None ∨ data_of (replicate k e) q = if e.1.1 =? q then Some e.2 else None) as [->| ->]; [|done|].
  - induction k as [|k IH]; [by left|]. cbn [replicate data_of]. destruct IH as [->| ->]; right; [done|by destruct (e.1.1 =? q)].
  - by destruct (e.1.1 =? q).
Qed.

Lemma entries_positive sz l : Forall (entry_ok sz) l → Forall (λ q, 0 < q) (map page_of l).
Proof. induction 1 as [|e l (H1 & H2 & _) Hl IH]; constructor; [|done]. unfold page_of, is_u32 in *. lia. Qed.

(** The committed frames and what leads to them, after a call that failed. *)
Definition safe_log (sz : Z) (w : Wal) (c : list entry) : Prop :=
  (∃ P, attached w P ∧ take (length c) P = map page_of c) ∧
  (c ≠ [] → ∃ big salt a0 ck, log_at sz w big salt a0 ck ∧ intact big salt a0 ck c (content (pWalFd w))).

(** What the frames of the log say of the pages, once [ps] are written. *)
Definition pages_written (old new : list entry) (ps : list PgHdr) : Prop :=
  ∀ q, data_of new q = or_else (data_of (map (entry_of 0) ps) q) (data_of old q).

Lemma wrote_files w w' : wrote w w' → (held w', exclusiveMode w', readLock w', minFrame w', nCkpt w') = (held w, exclusiveMode w, readLock w, minFrame w, nCkpt w) ∧
  bigEndCksum (hdr w') = bigEndCksum (hdr w) ∧ aSalt (hdr w') = aSalt (hdr w).
Proof.
  unfold wrote. intros H. split; [|split; [exact (f_equal (λ u, bigEndCksum (hdr u)) H)|exact (f_equal (λ u, aSalt (hdr u)) H)]].
  exact (f_equal (λ u, (held u, exclusiveMode u, readLock u, minFrame u, nCkpt u)) H).
Qed.

(** The frames of a call, and the pages they are of. *)
Lemma written_log_facts sz big salt a0 ck c l t isC ps ps' pL k w over' new l1 l2 gs r :
  written_log sz big salt a0 ck c t isC (c ++ l) ps ps' pL k w over' new l1 l2 gs r → ps ≠ [] →
  ∃ l', l1 ++ l2 = c ++ l' ∧ map page_of (c ++ l') = map page_of (c ++ l) ++ new_frames ps' pL (Z.of_nat k) ∧
    Forall (λ q, 0 < q) (new_frames ps' pL (Z.of_nat k)) ∧ (length (new_frames ps' pL (Z.of_nat k)) ≤ length ps + k)%nat ∧
    pages_written (c ++ l) (c ++ l') ps ∧ (isC = true → ∃ y pg, l' = y ++ [entry_of t pg]).
Proof.
  intros [[Hk Hp Hd Hf Ha [He HL] Hc Ho] Hw Hfr _ Hpad _ Hopen] Hne. rewrite take_app_length in Hp.
  set (lo := drop (length c) over'). assert (over' = c ++ lo) as Eo by (rewrite <- Hp at 1; symmetry; apply take_drop).
  exists (lo ++ new ++ padding pL t k).
  assert (new_frames ps' pL (Z.of_nat k) = map page_of (new ++ padding pL t k)) as Enf.
  { unfold new_frames. rewrite Hf, map_app, Nat2Z.id. f_equal. destruct pL as [pg|]; [|done]. cbn [padding]. symmetry. apply (fmap_replicate page_of). }
  pose proof (fl_entries _ _ _ _ _ _ _ _ _ _ Hw) as Hok. rewrite Hfr, Eo in Hok.
  split; [by rewrite Hfr, Eo, <- (assoc_L (++))|]. split.
  { rewrite Enf, (assoc_L (++) c lo), <- Eo, map_app. f_equal. pose proof (f_equal (map fst) Hk) as E. rewrite !map_map in E. exact E. }
  split; [rewrite Enf; apply (entries_positive sz); by apply Forall_app in Hok as [_ ?]|]. split.
  { rewrite Enf, length_map, length_app. assert (length (padding pL t k) ≤ k)%nat by (destruct pL; cbn [padding]; [rewrite length_replicate|cbn]; lia). lia. }
  destruct isC.
  - destruct (Hc eq_refl Hne) as (new0 & pg & -> & -> & _). cbn [padding]. split.
    + intros q. rewrite <- Hd, Eo. rewrite (assoc_L (++) c lo). rewrite <- (assoc_L (++) new0), (assoc_L (++) (c ++ lo)), data_of_padding. by rewrite <- !(assoc_L (++)).
    + intros _. exists (lo ++ new0 ++ replicate k (entry_of t pg)), pg. rewrite <- !(assoc_L (++)). do 2 f_equal. by rewrite <- replicate_S_end.
  - rewrite (Hopen eq_refl). assert (padding pL t 0 = []) as -> by by destruct pL. rewrite app_nil_r. split; [|done].
    intros q. rewrite <- Hd, Eo. by rewrite <- (assoc_L (++)).
Qed.

Lemma write_index_spec sz w c l P ps t isC sync iFirst sector alloc : size_ok sz → attached w P → take (length (c ++ l)) P = map page_of (c ++ l) →
  mxFrame (hdr w) = Z.of_nat (length (c ++ l)) → logged sz w c l → is_u8 (bigEndCksum (hdr w)) → is_u32 (nCkpt w) → pair_u32 (aSalt (hdr w)) →
  Forall (page_ok sz) ps → NoDup (map pgno ps) → ps ≠ [] → is_u32 t → iFirst = 0 ∨ Z.of_nat (length c) < iFirst →
  iFirst = 0 ∨ mxFrame (hdr w) = 0 ∨ 0 ≤ minFrame w ≤ mxFrame (hdr w) + 1 → Z.of_nat (length (c ++ l) + length ps) + 65536 < MAX_FRAMES →
  ∃ rc ps' w', write_index w sz ps t isC sync iFirst sector alloc = Some (rc, ps', w') ∧
    (held w', exclusiveMode w', readLock w', minFrame w', nCkpt w') = (held w, exclusiveMode w, readLock w, minFrame w, nCkpt w) ∧
    (rc ≠ SQLITE_OK → (∀ j, 0 ≤ j < 24 → get_word w' j = get_word w j) ∧ safe_log sz w' c) ∧
    (rc = SQLITE_OK → ∃ l' P', pages_written (c ++ l) (c ++ l') ps ∧
      if isC then prepared sz w' (c ++ l') [] P' ∧ posted w' ∧ nPage (hdr w') = t ∧ ∃ y pg, l' = y ++ [entry_of t pg]
      else prepared sz w' c l' P' ∧ ∀ j, 0 ≤ j < 24 → get_word w' j = get_word w j) ∧
    ∃ rc4 pL nE w4, write_frames w sz ps t isC sync iFirst sector alloc = Some (rc4, ps', pL, nE, w4) ∧ pWalFd w' = pWalFd w4 ∧ (rc = SQLITE_OK → rc4 = SQLITE_OK) ∧
      aSalt (hdr w') = aSalt (hdr w).
Proof.
  intros Hsz Hw Hf Hm (big & salt & a0 & ck & l1 & l2 & gs & r & x & [La Lb Ls Lc Lh] & Hfl & El & Ex) Hu Hn Hsalt Hps Hnd Hne Ht HiF Hmin Hmax. unfold write_index.
  destruct (write_frames_spec sz Hsz big salt a0 ck Lc La Ls w ps t isC sync iFirst sector alloc c P (c ++ l) l1 l2 gs r x) as (rc & ps' & pL & nE & w4 & Efr & Hwr & Hbad & Hgood); rewrite ?Efr; try done.
  { split; [apply Hw|done|done|done]. }
  destruct (wrote_fields _ _ Hwr) as (Ea & Ean & Em & _). destruct (wrote_files _ _ Hwr) as (Ef & Eb & Es). pose proof Ef as Ef'. injection Ef' as _ _ _ _ Enk.
  assert (attached w4 P) as Hw4 by (by apply (attached_eq w)). assert (∀ j, get_word w4 j = get_word w j) as Hj4 by (intros j; unfold get_word, get_page; by rewrite Ea).
  assert (∀ w', nCkpt w' = nCkpt w → log_at sz w' big salt a0 ck) as Hlog by (intros w' E; split; try done; by rewrite E).
  destruct (Z.eqb_spec rc SQLITE_OK) as [->|Hrc]; cbn [negb].
  2: { exists rc, ps', w4. split; [done|]. split; [done|]. split; [|split; [done|by exists rc, pL, nE, w4]]. intros _. split; [intros j _; apply Hj4|]. split.
    - exists P. split; [done|]. rewrite length_app in Hf. apply (f_equal (take (length c))) in Hf. rewrite take_take, Nat.min_l in Hf by lia.
      by rewrite Hf, map_app, take_app_length' by (by rewrite length_map).
    - intros _. exists big, salt, a0, ck. split; [by apply Hlog|by apply Hbad]. }
  destruct (Hgood eq_refl) as (k & over' & new & m1 & m2 & gs' & r' & -> & Hwl). clear Hbad Hgood.
  destruct (written_log_facts _ _ _ _ _ _ _ _ _ _ _ _ _ _ _ _ _ _ _ _ Hwl Hne) as (l' & El' & Epg & Hpos & Hlen & Hdata & Hlast).
  pose proof (wl_flog _ _ _ _ _ _ _ _ _ _ _ _ _ _ _ _ _ _ _ _ Hwl) as Hw4f. destruct (wl_prefix _ _ _ _ _ _ _ _ _ _ _ _ _ _ _ _ _ _ _ _ Hwl) as [x' Ex'].
  pose proof (wl_pad _ _ _ _ _ _ _ _ _ _ _ _ _ _ _ _ _ _ _ _ Hwl) as Hk. pose proof (f_equal length Hf) as HfL. rewrite length_take, length_map in HfL.
  set (pgnos := new_frames ps' pL (Z.of_nat k)) in *. assert (Z.to_nat (mxFrame (hdr w4)) = length (c ++ l)) as EmN by (rewrite Em, Hm; lia).
  destruct (index_commit_spec w4 P sz t isC pgnos Hw4) as (rc & w5 & -> & Ef5 & Hbad & Hgood); [rewrite Em, Hm; lia|done|rewrite Em, Hm; lia|by rewrite Eb|].
  pose proof Ef5 as E5. unfold files in E5. injection E5 as F1 F2 F3 F4 F5 F6 F7 F8 F9 F10 F11.
  assert (flog sz big salt a0 ck w5 m1 m2 gs' r') as Hw5f by (by apply (flog_files _ _ _ _ _ w4)).
  assert (nCkpt w5 = nCkpt w) as En5 by congruence.
  exists rc, ps', w5. split; [done|]. split; [rewrite <- Ef; congruence|]. split; [|split; [|exists SQLITE_OK, pL, (Z.of_nat k), w4; split; [done|split; [exact F1|split; [done|congruence]]]]].
  - intros Hrc. destruct (Hbad Hrc) as (Eh & Hh & P' & Hw5 & HlP & Htk). split; [intros j Hj; rewrite <- Hj4; by apply (head_eq w4 w5 P)|]. split.
    + exists P'. split; [done|]. rewrite EmN in Htk. apply (f_equal (take (length c))) in Htk. rewrite length_app in Htk. rewrite !take_take, !Nat.min_l in Htk by lia. rewrite Htk.
      rewrite length_app in Hf. apply (f_equal (take (length c))) in Hf. rewrite take_take, Nat.min_l in Hf by lia.
      by rewrite Hf, map_app, take_app_length' by (by rewrite length_map).
    + intros _. exists big, salt, a0, ck. split; [by apply Hlog|]. rewrite Ex' in Hw5f. by apply (flog_intact _ _ _ _ _ _ _ _ _ _ _ Hw5f).
  - intros Hrc. destruct (Hgood Hrc) as (Em5 & Hu5 & Hhd & P' & Hw5 & Htk). clear Hbad Hgood. exists l', P'. split; [done|].
    rewrite EmN, Hf, <- Epg in Htk. pose proof (f_equal length Epg) as EL. rewrite length_app, !length_map in EL.
    assert (mxFrame (hdr w5) = Z.of_nat (length (c ++ l'))) as Em5' by (rewrite Em5, Em, Hm; lia). rewrite Em5', Nat2Z.id in Htk.
    assert (is_u8 (bigEndCksum (hdr w5)) ∧ is_u32 (nCkpt w5) ∧ pair_u32 (aSalt (hdr w5))) as Hints by (rewrite En5, F10, Es; done).
    destruct isC.
    + destruct Hhd as [Hpo Hnp]. pose proof (wl_commit _ _ _ _ _ _ _ _ _ _ _ _ _ _ _ _ _ _ _ _ Hwl eq_refl) as ->. rewrite app_nil_r in El'. subst m1.
      split; [|split; [done|split; [done|by apply Hlast]]]. split; rewrite ?app_nil_r; try done.
      * intros _. exists big, salt, a0, ck, (c ++ l'), [], gs', r', []. rewrite !app_nil_r. split; [by apply Hlog|done].
      * intros _. by destruct (fl_sum _ _ _ _ _ _ _ _ _ _ Hw5f) as [[? _]|[_ ?]].
    + split; [|intros j Hj; rewrite <- Hj4; by apply (head_eq w4 w5 P)]. split; try done.
      * intros _. exists big, salt, a0, ck, m1, m2, gs', r', x'. split; [by apply Hlog|done].
      * intros ->. rewrite app_nil_r in El'. destruct (fl_sum _ _ _ _ _ _ _ _ _ _ Hw5f) as [[? _]|[_ Hne2]]; [done|]. destruct Hne2. apply nil_length_inv.
        apply (f_equal length) in El'. rewrite Ex', !length_app in El'. lia.
Qed.

Lemma next_salt_u32 s v : next_salt s = Some v → is_u32 v.
Proof.
  unfold next_salt. destruct (get4 _ _) as [x|]; [|done]. cbn -[put4 le_bytes]. rewrite (put4_spec [] (u8 s) (u8 (s / 256)) (u8 (s / 65536)) (u8 (s / 16777216)) [] (u32 (1 + x)) : put4 (le_bytes s) 0 _ = _).
  cbn. intros [= <-]. unfold is_u32, u8. dm.
Qed.

Lemma posted_hdr w P : attached w P → posted w → ∃ h, walIndexHdr w = Some h ∧ mxFrame h = mxFrame (hdr w).
Proof.
  intros Hw [Hp _]. destruct (walIndexHdr_word w P Hw) as (h & E & Ew). exists h. split; [done|]. rewrite Hp in Ew by lia. injection Ew as E4. done.
Qed.

Lemma logged_safe sz w c l : logged sz w c l → ∃ big salt a0 ck, log_at sz w big salt a0 ck ∧ intact big salt a0 ck c (content (pWalFd w)).
Proof.
  intros (big & salt & a0 & ck & l1 & l2 & gs & r & x & Hh & Hf & E & ->). exists big, salt, a0, ck. split; [done|]. by apply (flog_intact _ _ _ _ _ _ _ _ _ _ _ Hf).
Qed.

Lemma prepared_safe sz w c l P : prepared sz w c l P → safe_log sz w c.
Proof.
  intros [Hw Hf Hm Hl _ _]. split.
  - exists P. split; [done|]. rewrite length_app in Hf. apply (f_equal (take (length c))) in Hf. rewrite take_take, Nat.min_l in Hf by lia.
    by rewrite Hf, map_app, take_app_length' by (by rewrite length_map).
  - intros Hc. apply (logged_safe sz w c l), Hl. by destruct c.
Qed.

Lemma restarted_prepared sz w w' salt1 c l P : restarted w w' salt1 → prepared sz w c l P → is_u32 salt1 → iReCksum w = 0 → prepared sz w' [] [] [].
Proof.
  intros [Ef Hw Hpo Hm (s & Es & Esalt)] [_ _ _ _ _ (Hu & Hn & _)] Hs1 Hre. split; try done.
  - intros _. pose proof (f_equal iReCksum Ef) as E. cbn in E. by rewrite E.
  - pose proof (f_equal nCkpt Ef) as E. cbn in E. split; [apply Hpo|]. split; [rewrite E; apply is_u32_u32|]. rewrite Esalt. split; [by apply (next_salt_u32 _ _ Es)|done].
Qed.

Lemma same_header w P h : attached w P → hdr_differs w = Some false → walIndexHdr w = Some h → mxFrame h = mxFrame (hdr w).
Proof.
  intros Hw Hd Eh. destruct (walIndexHdr_word w P Hw) as (h' & Eh' & E4). rewrite Eh in Eh'. injection Eh' as <-.
  unfold hdr_differs in Hd. destruct (get_page w 0) as [p|] eqn:Hp; [|done]. cbn in Hd. destruct (sub (words p) 0 12) as [d|] eqn:Es; [|done]. cbn in Hd.
  injection Hd as Hd%negb_false_iff%bool_decide_eq_true. unfold sub in Es. case_decide; [|done]. change (Z.to_nat 12) with 12%nat in Es.
  injection Es as Es. rewrite drop_0 in Es. unfold get_word in E4. rewrite Hp in E4. change (rd (words p) 4) with (words p !! 4%nat) in E4.
  rewrite <- (lookup_take_lt (words p) 12 4) in E4 by lia. rewrite Es, Hd in E4. by injection E4 as E4.
Qed.

(** What is sure of the shared header and the log when a call fails: it says
    what it said, of frames that are as they were; or the log had started over. *)
Definition unharmed (sz : Z) (w w' : Wal) (c : list entry) : Prop :=
  ∃ h, walIndexHdr w' = Some h ∧ (walIndexHdr w = Some h ∧ safe_log sz w' c ∨ readLock w = 0 ∧ mxFrame h = 0).

(** A log that starts over has other salts. *)
Definition new_salts (w w' : Wal) (salt1 : Z) : Prop :=
  nCkpt w' = u32 (nCkpt w + 1) ∧ ∃ s, next_salt (aSalt (hdr w)).1 = Some s ∧ aSalt (hdr w') = (s, salt1).

(** The log once it may have started over. *)
Lemma restart_spec sz w c l salt1 mem : writing sz w c l → is_u32 salt1 → (∀ c p, (mem c).1 = Some p → shape p) →
  (readLock w = 0 → can_read w ∧ held_shared w = if exclusiveMode w =? 0 then [WAL_READ_LOCK 0] else []) →
  (readLock w ≠ 0 → 0 ≤ minFrame w ≤ mxFrame (hdr w) + 1) → Z.of_nat (length c) < MAX_FRAMES →
  ∃ h d rc w2, walIndexHdr (others_write w) = Some h ∧ hdr_differs (others_write w) = Some d ∧ walRestartLog (others_write w) salt1 mem = Some (rc, w2) ∧
    held w2 = held w ∧ exclusiveMode w2 = exclusiveMode w ∧ pWalFd w2 = pWalFd w ∧ (rc = SQLITE_OK → readLock w2 ≠ 0) ∧
    let iFirst := if d : bool then u32 (mxFrame h + 1) else 0 in
    ∃ c0 l0 P0, prepared sz w2 c0 l0 P0 ∧ (c0 = c ∧ l0 = l ∧ walIndexHdr w2 = walIndexHdr w ∨ readLock w = 0 ∧ c0 = [] ∧ l0 = [] ∧ new_salts w w2 salt1) ∧
      (∃ h0, walIndexHdr w2 = Some h0 ∧ mxFrame h0 = Z.of_nat (length c0)) ∧ (iFirst = 0 ∨ Z.of_nat (length c0) < iFirst) ∧
      (iFirst = 0 ∨ mxFrame (hdr w2) = 0 ∨ 0 ≤ minFrame w2 ≤ mxFrame (hdr w2) + 1).
Proof.
  intros [[P Hpr] (h & Eh & Emx) Hl Hrd] Hs1 Hmem Hst Hmin Hmax. pose proof (pr_attached _ _ _ _ _ Hpr) as Hw.
  destruct (others_keeps w P Hw Hl) as (Hk1 & Hw1 & Hl1). destruct (others_write_spec w P Hw) as (a & lo & E1 & _). set (w1 := others_write w) in *.
  destruct (head_words w w1 P P Hw Hw1 (proj2 Hk1)) as [Eh1 Ed1]. destruct (hdr_differs_some w P Hw) as [d Ed].
  assert (hdr w1 = hdr w) as Ehd1 by (by rewrite E1). specialize (Ed1 Ehd1). rewrite Eh in Eh1. rewrite Ed in Ed1, Hrd.
  pose proof (prepared_keeps _ _ _ _ _ _ Hk1 Hw1 Hpr) as Hpr1. assert (readLock w1 = readLock w) as Er1 by (by rewrite E1).
  destruct (walRestartLog_spec w1 P salt1 mem) as (rc & w2 & E2 & Eheld & Hr2 & Hsame & Hcase); [|done|done|].
  { intros Hr. rewrite Er1 in Hr. destruct (Hst Hr) as [Hc Hsh]. split; [|done|done|apply Hpr1|by rewrite E1].
    apply (can_read_start w w1 P); [done|apply Hw1|by rewrite E1..]. }
  exists h, d, rc, w2. split; [done|]. split; [done|]. split; [done|]. split; [rewrite Eheld, E1; done|].
  assert (is_u32 (Z.of_nat (length c) + 1)) as Hu by (unfold is_u32, MAX_FRAMES in *; lia).
  destruct Hcase as [[Hk2 Hw2]|[Hr Hre]].
  - destruct (head_words w1 w2 P P Hw1 Hw2 (proj2 Hk2)) as [Eh2 _]. pose proof (f_equal exclusiveMode (proj1 Hk2)) as Ee. cbn in Ee.
    pose proof (f_equal pWalFd (proj1 Hk2)) as Efd. cbn in Efd.
    split; [rewrite Ee, E1; done|]. split; [rewrite Efd, E1; done|]. split; [done|]. exists c, l, P. split; [by apply (prepared_keeps _ w1)|]. split; [left; split; [done|split; [done|congruence]]|].
    split; [exists h; split; [congruence|done]|]. destruct (Z.eq_dec (readLock w) 0) as [Hr0|Hr0].
    + specialize (Hrd Hr0). injection Hrd as ->. split; by left.
    + rewrite (Hsame ltac:(congruence)). rewrite Emx, u32_id by done. split; [destruct d; [right; lia|by left]|]. right; right. rewrite E1. by apply Hmin.
  - rewrite Er1 in Hr. specialize (Hrd Hr). injection Hrd as ->. pose proof (f_equal exclusiveMode (rs_fields _ _ _ Hre)) as Ee. cbn in Ee.
    pose proof (f_equal pWalFd (rs_fields _ _ _ Hre)) as Efd. cbn in Efd. pose proof (f_equal nCkpt (rs_fields _ _ _ Hre)) as En. cbn in En.
    split; [rewrite Ee, E1; done|]. split; [rewrite Efd, E1; done|]. split; [done|]. exists [], [], []. split.
    + apply (restarted_prepared sz w1 w2 salt1 c l P); try done. apply Hpr1. assert (l = []) as ->; [|done].
      apply nil_length_inv. pose proof (same_header w P h Hw Ed Eh) as E. rewrite Emx, (pr_mx _ _ _ _ _ Hpr), length_app in E. lia.
    + assert (new_salts w w2 salt1) as Hns by (split; [by rewrite En, E1|]; rewrite <- Ehd1; apply Hre).
      split; [by right|]. destruct (posted_hdr w2 [] (rs_attached _ _ _ Hre) (rs_posted _ _ _ Hre)) as (h0 & E0 & Em0). split.
      * exists h0. split; [done|]. by rewrite Em0, (rs_mx _ _ _ Hre).
      * split; by left.
Qed.

(** ** Frames put at the end of the file *)





(** ** What is left of a write *)









Section Appending.
Context (sz : Z) (Hsz : size_ok sz) (big : bool) (salt : Z * Z) (a0 : bytes) (ck : Z * Z) (old : bytes).
Context (La0 : length a0 = 32%nat).

Local Abbreviation from l := (end_sum ck (valid big ck l)).
Local Abbreviation X l := (a0 ++ log_frames big salt ck l).















End Appending.

(** ** Properties *)

(** What a caller of [sqlite3WalFrames] sees to: a transaction, dirty pages of
    the size of a page, each once, room in the index, and, the first time,
    a connection that may look for the start of the log. *)
Record may_write (sz : Z) (w : Wal) (c l : list entry) (ps : list PgHdr) : Prop := {
  mw_size : size_ok sz;
  mw_writing : writing sz w c l;
  mw_pages : Forall (page_ok sz) ps ∧ NoDup (map pgno ps) ∧ ps ≠ [];
  mw_room : Z.of_nat (length (c ++ l) + length ps) + 65536 < MAX_FRAMES;
  mw_start : readLock w = 0 → can_read w ∧ held_shared w = if exclusiveMode w =? 0 then [WAL_READ_LOCK 0] else [];
  mw_min : readLock w ≠ 0 → 0 ≤ minFrame w ≤ mxFrame (hdr w) + 1
}.

(** C10: writing the pages of a transaction to the log, whatever calls fail and
    whatever other connections do to what is not locked.  On success the
    frames of the log say of each page what the caller gave, and of every
    other page what they said before - whether a page was appended, was
    written over where the transaction had put it, or the log started over;
    the frames committed before are untouched, the checksums are right from
    the first frame to the commit, and a commit is published: its frame is
    last, and the header in shared memory says so.  On failure the shared
    header still stands for the frames it stood for, and those are as they
    were, unless the log had started over, and then it stands for none. *)
Theorem wal_frames_transaction sz w c l ps t isCommit sync salt1 random sector alloc mem :
  may_write sz w c l ps → is_u32 t → is_u32 salt1 → pair_u32 random → (∀ c p, (mem c).1 = Some p → shape p) →
  ∃ rc ps' w', sqlite3WalFrames w sz ps t isCommit sync salt1 random sector alloc mem = Some (rc, ps', w') ∧ held w' = held w ∧
    (rc ≠ SQLITE_OK → unharmed sz w w' c) ∧
    (rc = SQLITE_OK → ∃ c0 l0 l', (c0 = c ∧ l0 = l ∨ readLock w = 0 ∧ c0 = [] ∧ l0 = []) ∧ pages_written (c0 ++ l0) (c0 ++ l') ps ∧
      if isCommit then writing sz w' (c0 ++ l') [] ∧ (∃ p, live w' p) ∧ nPage (hdr w') = t ∧ ∃ y pg, l' = y ++ [entry_of t pg]
      else writing sz w' c0 l').
Proof.
  intros [Hsz Hwg (Hps & Hnd & Hne) Hroom Hst Hmin] Ht Hs1 Hrand Hmem. unfold sqlite3WalFrames, walFrames.
  destruct (restart_spec sz w c l salt1 mem Hwg Hs1 Hmem Hst Hmin) as (h & d & rc & w2 & -> & -> & -> & Eheld & Eex & _ & Hr2 & c0 & l0 & P0 & Hpr & Hcase & (h0 & Eh0 & Em0) & HiF & Hmin2).
  { rewrite length_app in Hroom. unfold MAX_FRAMES in *. lia. }
  cbv zeta. set (iFirst := if d then _ else 0) in *.
  assert (∀ w', (∃ h0, walIndexHdr w' = Some h0 ∧ walIndexHdr w2 = Some h0) → safe_log sz w' c0 → unharmed sz w w' c) as Hharm.
  { intros w' (h1 & E1 & E2) Hs. exists h1. split; [done|]. destruct Hcase as [(-> & _ & E)|(Hr & -> & _)]; [left; split; [congruence|done]|right].
    split; [done|]. rewrite E2 in Eh0. injection Eh0 as ->. done. }
  destruct (Z.eqb_spec rc SQLITE_OK) as [->|Hrc]; cbn [negb].
  2: { exists rc, ps, w2. split; [done|]. split; [done|]. split; [|done]. intros _. apply Hharm; [by exists h0|]. by apply (prepared_safe _ _ _ _ _ Hpr). }
  destruct (start_log_spec sz w2 c0 l0 P0 sync random Hsz Hpr Hrand) as (rc & w3 & -> & Hw3 & Egw & Ef3 & Hu3 & Hsalt3 & Hc0 & Hsame & Hlog).
  injection Ef3 as F1 F2 F3 F4 F5 F6. assert (∀ j, get_word w3 j = get_word w2 j) as Hj3 by (intros j; by rewrite Egw).
  destruct (head_words w2 w3 P0 P0 (pr_attached _ _ _ _ _ Hpr) Hw3 ltac:(intros j _; apply Hj3)) as [Eh3 _].
  destruct (Z.eqb_spec rc SQLITE_OK) as [->|Hrc]; cbn [negb].
  2: { exists rc, ps, w3. split; [done|]. split; [congruence|]. split; [|done]. intros _. apply Hharm; [exists h0; split; congruence|].
    rewrite (Hc0 Hrc). split; [|done]. exists P0. split; [done|]. by rewrite take_0. }
  specialize (Hlog eq_refl). assert (szPage w3 = sz) as Esz by (destruct Hlog as (? & ? & ? & ? & ? & ? & ? & ? & ? & _ & [_ _ _ _ (_ & _ & E)] & _); exact E).
  rewrite Esz, i32_id by (destruct Hsz; unfold is_i32; lia). rewrite Z.eqb_refl. cbn [negb].
  destruct (write_index_spec sz w3 c0 l0 P0 ps t isCommit sync iFirst sector alloc) as (rc & ps' & w4 & -> & Ef4 & Hbad & Hgood & _); try done.
  { apply Hpr. } { rewrite F6. apply Hpr. } { rewrite F5. apply Hpr. } { by rewrite F6, F4. }
  { destruct Hcase as [(-> & -> & _)|(_ & -> & -> & _)]; [done|]. rewrite length_app in *. cbn [length]. lia. }
  injection Ef4 as G1 G2 G3 G4 G5. exists rc, ps', w4. split; [done|]. split; [congruence|].
  assert (locked w4) as Hl4. { destruct Hwg as [_ _ Hl _]. unfold locked. rewrite G1, F1, Eheld, G2, F2, Eex. exact Hl. }
  assert (readLock w4 ≠ 0) as Hr4 by (rewrite G3, F3; by apply Hr2). split.
  - intros Hrc. destruct (Hbad Hrc) as [Hj Hs]. apply Hharm; [|done]. pose proof Hs as [(P4 & Hw4 & _) _].
    destruct (head_words w3 w4 P0 P4 Hw3 Hw4 Hj) as [Eh4 _]. exists h0. split; congruence.
  - intros Hrc. destruct (Hgood Hrc) as (l' & P' & Hdata & Hres). exists c0, l0, l'. split; [destruct Hcase as [(? & ? & _)|(? & ? & ? & _)]; auto|]. split; [done|].
    destruct isCommit.
    + destruct Hres as (Hpr4 & Hpo & Hnp & Hlast). pose proof (pr_attached _ _ _ _ _ Hpr4) as Hw4. split; [|split; [apply posted_live; [apply Hw4|done]|done]].
      split; [by exists P'| |done|done]. destruct (posted_hdr w4 P' Hw4 Hpo) as (h4 & E4 & Em4). exists h4. split; [done|].
      by rewrite Em4, (pr_mx _ _ _ _ _ Hpr4), app_nil_r.
    + destruct Hres as [Hpr4 Hj]. split; [by exists P'| |done|done]. destruct (head_words w3 w4 P0 P' Hw3 (pr_attached _ _ _ _ _ Hpr4) Hj) as [Eh4 _].
      exists h0. split; [congruence|done].
Qed.

(** ** A crash *)













(** ** The log after a crash *)

















(** ** Examples *)

Definition page_of_bytes (n b : Z) : PgHdr := mk_PgHdr n (replicate 512 b) 2.

Definition three_pages : list PgHdr := [page_of_bytes 1 1; page_of_bytes 2 2; page_of_bytes 3 3].

(** A writer whose log is empty, in a transaction; [codes] are the results of
    the calls to come on the file. *)
Definition started (codes : list Z) : Wal :=
  let w := match walIndexWriteHdr (set_hdr written zero_hdr) with Some w => w | None => written end in
  set_pWalFd (set_held (set_writeLock (set_readLock (set_minFrame w 1) 1) 1) [(WAL_WRITE_LOCK, 1)]) (mk_file [] codes).

Lemma page_of_bytes_ok n b : is_u32 n → n ≠ 0 → is_u8 b → page_ok 512 (page_of_bytes n b).
Proof. intros Hn Hz Hb. split_and!; try done. by apply Forall_replicate. Qed.

Lemma started_may codes : may_write 512 (started codes) [] [] three_pages.
Proof.
  destruct (walIndexWriteHdr_spec (set_hdr written zero_hdr) [5; 7; 5] (default zero_page (get_page written 0))) as (w & p' & a & E & Ew & Hi' & Hl).
  - apply index_hdr, written_index.
  - vm_compute. reflexivity.
  - unfold is_u8. cbn. lia.
  - assert (readLock (started codes) = 1) as Er by (unfold started; rewrite E; reflexivity). split.
    + split; [reflexivity|lia].
    + split.
      * exists [5; 7; 5]. split; [|reflexivity..|intros H; by destruct H|reflexivity|]; unfold started; rewrite E.
        -- rewrite Ew in Hi', Hl |- *. split; [eapply index_eq; [..|exact Hi']; reflexivity|]. exists p'. exact (proj1 Hl).
        -- rewrite Ew. repeat split; vm_compute; (reflexivity || discriminate).
      * eexists. split; [vm_compute; reflexivity|reflexivity].
      * right. unfold started. rewrite E. by left.
      * intros H. congruence.
    + split; [|split; [|done]].
      * repeat apply Forall_cons_2; [apply page_of_bytes_ok; unfold is_u32, is_u8; lia..|constructor].
      * change (NoDup [1; 2; 3]). apply (bool_decide_unpack (NoDup [1; 2; 3])). vm_compute. exact I.
    + vm_compute. reflexivity.
    + intros H. congruence.
    + intros _. unfold started. rewrite E, Ew. split; vm_compute; discriminate.
Qed.
Lemma wal_frames_transaction_witness : ∃ ps' w' l', sqlite3WalFrames (started []) 512 three_pages 3 true 1 77 (5, 6) 4096 true (λ _, (Some zero_page, true)) = Some (SQLITE_OK, ps', w') ∧
  pages_written [] l' three_pages ∧ writing 512 w' l' [] ∧ nPage (hdr w') = 3.
Proof.
  destruct (wal_frames_transaction 512 (started []) [] [] three_pages 3 true 1 77 (5, 6) 4096 true (λ _, (Some zero_page, true)) (started_may []))
    as (rc & ps' & w' & E & _ & _ & H).
  - split; vm_compute; (reflexivity || discriminate).
  - split; vm_compute; (reflexivity || discriminate).
  - repeat split; vm_compute; (reflexivity || discriminate).
  - intros _ p [= <-]. apply zero_page_shape.
  - assert (rc = SQLITE_OK) as -> by (apply (f_equal (option_map (λ x, x.1.1))) in E; vm_compute in E; by injection E).
    destruct (H eq_refl) as (c0 & l0 & l' & [[-> ->]|(_ & -> & ->)] & Hp & Hw & _ & Hn & _); exists ps', w', l'; split; [exact E|split; [exact Hp|split; [exact Hw|exact Hn]]|exact E|split; [exact Hp|split; [exact Hw|exact Hn]]].
Defined.




End WalWrite.
