(* ===== verification/Value.v ===== *)
(** * Values and their order ([native/sqlite3/sqlite3.c], vdbemem.c, vdbeaux.c, main.c)

    A memory cell holds a value of SQL: null, an integer, a floating-point
    number, text or a blob.  The theorems show that comparing an integer with
    a floating-point number is exact, and that comparing two cells is a total
    order of values. *)

From S2P Require Import Prelude Text Utf.

Module Value.

Import Utf.

(** ** Memory cells *)

(* native/sqlite3/sqlite3.c:23892-23896 MEM_Int MEM_Real MEM_IntReal *)
Definition MEM_Int : Z := 0x0004.
Definition MEM_Real : Z := 0x0008.
Definition MEM_IntReal : Z := 0x0020.
Definition MEM_Zero : Z := 0x0400.

(** The cell of [Utf], and the 64 bits of its union.  The union holds the
    integer, the floating-point number, or in its lower half the number of
    zeros that follow a blob. *)
(* native/sqlite3/sqlite3.c:23813-23822 sqlite3_value *)
Record sqlite3_value : Type := mk_value { u : Z; cell :> Utf.Mem }.

Definition u_i (p : sqlite3_value) : Z := i64 (u p).
Definition u_nZero (p : sqlite3_value) : Z := i32 (u p).

(** Whether any of the bits is set. *)
Definition has (p : Utf.Mem) (f : Z) : bool := negb (Z.land (flags p) f =? 0).

(** The [n] bytes that [z] points to. *)
Definition content (p : Utf.Mem) : option bytes := sub (z p) 0 (n p).

(** ** Floating-point numbers

    A double is its 64 bits. *)

(* native/sqlite3/sqlite3.c:21167-21169 IsNaN *)
Definition EXP754 : Z := Z.shiftl 0x7ff 52.
Definition MAN754 : Z := Z.shiftl 1 52 - 1.
Definition IsNaN (x : Z) : bool := (Z.land x EXP754 =? EXP754) && negb (Z.land x MAN754 =? 0).

(* native/sqlite3/sqlite3.c:35562-35579 sqlite3IsNaN *)
Definition sqlite3IsNaN (x : Z) : bool := IsNaN x.

(** Every double but a NaN is a multiple of 2 to the -1074; this is which.
    The infinities are beyond all finite ones. *)
Definition double_value (x : Z) : Z :=
  let e := (x `div` 2 ^ 52) `mod` 2048 in
  let f := x `mod` 2 ^ 52 in
  (if Z.testbit x 63 then -1 else 1) * (if e =? 0 then f else (2 ^ 52 + f) * 2 ^ (e - 1)).

Definition SCALE : Z := 2 ^ 1074.

(** The comparison [<] of C. *)
Definition double_lt (x y : Z) : bool := negb (IsNaN x) && negb (IsNaN y) && (double_value x <? double_value y).

(** The conversion of C to an integer in range: towards zero. *)
Definition int_of_double (x : Z) : Z := Z.quot (double_value x) SCALE.

(** A number [m] of [l + 1] bits, rounded to 53 bits: to the nearest, in doubt
    to the even one. *)
Definition round53 (m l : Z) : Z :=
  if l <=? 52 then m * 2 ^ (52 - l) else
  let s := l - 52 in
  let q := m `div` 2 ^ s in
  let r := m `mod` 2 ^ s in
  if (2 ^ (s - 1) <? r) || ((r =? 2 ^ (s - 1)) && Z.odd q) then q + 1 else q.

(** The conversion of C from an integer. *)
Definition double_of_int (i : Z) : Z :=
  if i =? 0 then 0 else
  let m := Z.abs i in
  let l := Z.log2 m in
  (if i <? 0 then 2 ^ 63 else 0) + (l + 1022) * 2 ^ 52 + round53 m l.

(* native/sqlite3/sqlite3.c:90428-90450 sqlite3IntFloatCompare *)
Definition sqlite3IntFloatCompare (i r : Z) : Z :=
  if sqlite3IsNaN r then 1 else
  if double_lt r (double_of_int (-9223372036854775808)) then 1 else
  if negb (double_lt r (double_of_int 9223372036854775808)) then -1 else
  let y := int_of_double r in
  if i <? y then -1 else
  if y <? i then 1 else
  if double_lt (double_of_int i) r then -1 else if double_lt r (double_of_int i) then 1 else 0.

(** ** Blobs *)

(** The standard says only the sign of the result. *)
Fixpoint memcmp (a b : bytes) (n : nat) {struct n} : option Z :=
  match n with
  | O => Some 0
  | S n =>
      match a, b with
      | x :: a, y :: b => if x =? y then memcmp a b n else Some (if x <? y then -1 else 1)
      | _, _ => None
      end
  end.

(* native/sqlite3/sqlite3.c:90373-90383 isAllZero *)
Fixpoint isAllZero (l : bytes) (n : nat) {struct n} : option bool :=
  match n with
  | O => Some true
  | S n => match l with x :: l => if negb (x =? 0) then Some false else isAllZero l n | [] => None end
  end.

(* native/sqlite3/sqlite3.c:90385-90416 sqlite3BlobCompare *)
Definition sqlite3BlobCompare (pB1 pB2 : sqlite3_value) : option Z :=
  let n1 := n pB1 in
  let n2 := n pB2 in
  if has pB1 MEM_Zero || has pB2 MEM_Zero then
    if has pB1 MEM_Zero && has pB2 MEM_Zero then Some (u_nZero pB1 - u_nZero pB2)
    else if has pB1 MEM_Zero then
      let* zero := isAllZero (z pB2) (Z.to_nat n2) in
      Some (if negb zero then -1 else u_nZero pB1 - n2)
    else
      let* zero := isAllZero (z pB1) (Z.to_nat n1) in
      Some (if negb zero then 1 else n1 - u_nZero pB2)
  else
    let* c := memcmp (z pB1) (z pB2) (Z.to_nat (if n2 <? n1 then n2 else n1)) in
    if negb (c =? 0) then Some c else Some (n1 - n2).

(** ** Text *)

(** [xCmp] is a function of the program or of the application; it gets the
    bytes of both texts. *)
(* native/sqlite3/sqlite3.c:18663-18678 CollSeq *)
Record CollSeq : Type := mk_coll { coll_enc : Z; xCmp : bytes → bytes → option Z }.

(* native/sqlite3/sqlite3.c:183673-183694 binCollFunc *)
Definition binCollFunc (pKey1 pKey2 : bytes) : option Z :=
  let nKey1 := Z.of_nat (length pKey1) in
  let nKey2 := Z.of_nat (length pKey2) in
  let* rc := memcmp pKey1 pKey2 (Z.to_nat (if nKey1 <? nKey2 then nKey1 else nKey2)) in
  Some (if rc =? 0 then nKey1 - nKey2 else rc).

(** The bytes before the spaces at the end. *)
Definition rtrim (l : bytes) : bytes := foldr (λ c r, match r with [] => if c =? 32 then [] else [c] | _ => c :: r end) [] l.

(** [rtrim] counts the key down as the loops do. *)
(* native/sqlite3/sqlite3.c:183696-183710 rtrimCollFunc *)
Definition rtrimCollFunc (pKey1 pKey2 : bytes) : option Z := binCollFunc (rtrim pKey1) (rtrim pKey2).

(* native/sqlite3/sqlite3.c:183720-183741 nocaseCollatingFunc *)
Definition nocaseCollatingFunc (pKey1 pKey2 : bytes) : option Z :=
  let nKey1 := Z.of_nat (length pKey1) in
  let nKey2 := Z.of_nat (length pKey2) in
  let* r := Text.sqlite3_strnicmp (Some pKey1) (Some pKey2) (if nKey1 <? nKey2 then nKey1 else nKey2) in
  Some (if r =? 0 then nKey1 - nKey2 else r).

(** The copy shares the buffer of the original. *)
(* native/sqlite3/sqlite3.c:84925-84935 sqlite3VdbeMemShallowCopy *)
Definition sqlite3VdbeMemShallowCopy (pFrom : Utf.Mem) (srcType : Z) : Utf.Mem :=
  mem (z pFrom) (n pFrom)
    (if Z.land (flags pFrom) MEM_Static =? 0
     then Z.lor (Z.ldiff (flags pFrom) (Z.lor (Z.lor MEM_Dyn MEM_Static) MEM_Ephem)) srcType else flags pFrom)
    (enc pFrom) false.

(* native/sqlite3/sqlite3.c:84265-84278 sqlite3VdbeMemNulTerminate *)
Definition sqlite3VdbeMemNulTerminate (pMem : Utf.Mem) (m : list bool) : Utf.Mem * list bool :=
  if negb (Z.land (flags pMem) (Z.lor MEM_Term MEM_Str) =? MEM_Str) then (pMem, m)
  else let '(_, pMem, m) := vdbeMemAddTerminator pMem m in (pMem, m).

(** For text, which has no zeros to expand: the text in another encoding, or
    none for want of memory. *)
(* native/sqlite3/sqlite3.c:85168-85192 valueToText *)
Definition valueToText (pVal : Utf.Mem) (e : Z) (m : list bool) : option (option Utf.Mem * list bool) :=
  let pVal := mem (z pVal) (n pVal) (Z.lor (flags pVal) MEM_Str) (enc pVal) (owned pVal) in
  let* (pVal, m) :=
    if negb (enc pVal =? e) then let* (_, pVal, m) := sqlite3VdbeMemTranslate pVal e m in Some (pVal, m)
    else Some (pVal, m) in
  let '(pVal, m) := sqlite3VdbeMemNulTerminate pVal m in
  Some (if enc pVal =? e then Some pVal else None, m).

(* native/sqlite3/sqlite3.c:85195-85218 sqlite3ValueText *)
Definition sqlite3ValueText (pVal : Utf.Mem) (e : Z) (m : list bool) : option (option Utf.Mem * list bool) :=
  if (Z.land (flags pVal) (Z.lor MEM_Str MEM_Term) =? Z.lor MEM_Str MEM_Term) && (enc pVal =? e) then Some (Some pVal, m) else
  if negb (Z.land (flags pVal) MEM_Null =? 0) then Some (None, m) else
  valueToText pVal e m.

(** The result, and whether memory was short. *)
(* native/sqlite3/sqlite3.c:90334-90371 vdbeCompareMemString *)
Definition vdbeCompareMemString (pMem1 pMem2 : Utf.Mem) (pColl : CollSeq) (m : list bool) : option (Z * bool * list bool) :=
  if enc pMem1 =? coll_enc pColl then
    let* a := content pMem1 in
    let* b := content pMem2 in
    let* c := xCmp pColl a b in Some (c, false, m)
  else
    let* (v1, m) := sqlite3ValueText (sqlite3VdbeMemShallowCopy pMem1 MEM_Ephem) (coll_enc pColl) m in
    let* (v2, m) := sqlite3ValueText (sqlite3VdbeMemShallowCopy pMem2 MEM_Ephem) (coll_enc pColl) m in
    match v1, v2 with
    | Some c1, Some c2 =>
        let* a := content c1 in
        let* b := content c2 in
        let* c := xCmp pColl a b in Some (c, false, m)
    | _, _ => Some (0, true, m)
    end.

(** ** Cells *)

Definition b2z (b : bool) : Z := if b then 1 else 0.

(** Of a failure to translate text the caller learns nothing. *)
(* native/sqlite3/sqlite3.c:90452-90550 sqlite3MemCompare *)
Definition sqlite3MemCompare (pMem1 pMem2 : sqlite3_value) (pColl : option CollSeq) (m : list bool) : option (Z * list bool) :=
  let f1 := flags pMem1 in
  let f2 := flags pMem2 in
  let combined_flags := Z.lor f1 f2 in
  if negb (Z.land combined_flags MEM_Null =? 0) then Some (Z.land f2 MEM_Null - Z.land f1 MEM_Null, m) else
  if negb (Z.land combined_flags (Z.lor (Z.lor MEM_Int MEM_Real) MEM_IntReal) =? 0) then
    Some
      (if negb (Z.land (Z.land f1 f2) (Z.lor MEM_Int MEM_IntReal) =? 0) then
         if u_i pMem1 <? u_i pMem2 then -1 else if u_i pMem2 <? u_i pMem1 then 1 else 0
       else if negb (Z.land (Z.land f1 f2) MEM_Real =? 0) then
         if double_lt (u pMem1) (u pMem2) then -1 else if double_lt (u pMem2) (u pMem1) then 1 else 0
       else if has pMem1 (Z.lor MEM_Int MEM_IntReal) then
         if has pMem2 MEM_Real then sqlite3IntFloatCompare (u_i pMem1) (u pMem2)
         else if has pMem2 (Z.lor MEM_Int MEM_IntReal) then
           if u_i pMem1 <? u_i pMem2 then -1 else if u_i pMem2 <? u_i pMem1 then 1 else 0
         else -1
       else if has pMem1 MEM_Real then
         if has pMem2 (Z.lor MEM_Int MEM_IntReal) then - sqlite3IntFloatCompare (u_i pMem2) (u pMem1) else -1
       else 1, m)
  else
    let blobs := let* c := sqlite3BlobCompare pMem1 pMem2 in Some (c, m) in
    if negb (Z.land combined_flags MEM_Str =? 0) then
      if negb (has pMem1 MEM_Str) then Some (1, m) else
      if negb (has pMem2 MEM_Str) then Some (-1, m) else
      match pColl with
      | Some pColl => let* (c, _, m) := vdbeCompareMemString pMem1 pMem2 pColl m in Some (c, m)
      | None => blobs
      end
    else blobs.

(** ** Floating-point numbers, exactly *)

Definition sgn_cmp (a b : Z) : Z := if a <? b then -1 else if b <? a then 1 else 0.

Lemma SCALE_pos : 0 < SCALE.
Proof. unfold SCALE. lia. Qed.

Lemma double_fields (s : bool) e f : 0 ≤ e < 2048 → 0 ≤ f < 2 ^ 52 → let x := (if s then 2 ^ 63 else 0) + e * 2 ^ 52 + f in
  Z.testbit x 63 = s ∧ (x `div` 2 ^ 52) `mod` 2048 = e ∧ x `mod` 2 ^ 52 = f.
Proof.
  intros He Hf x. assert (x = ((if s then 2048 else 0) + e) * 2 ^ 52 + f) as Ex by (unfold x; destruct s; lia). split_and!.
  - rewrite Z.testbit_eqb by lia. unfold x. destruct s.
    + replace ((2 ^ 63 + e * 2 ^ 52 + f) `div` 2 ^ 63) with 1; [done|]. apply (Z.div_unique _ _ _ (e * 2 ^ 52 + f)); lia.
    + rewrite Z.div_small by lia. done.
  - rewrite Ex. rewrite Z.div_add_l, (Z.div_small f), Z.add_0_r by lia. destruct s; [|by rewrite Z.mod_small by lia].
    replace (2048 + e) with (e + 1 * 2048) by lia. rewrite Z.mod_add, Z.mod_small by lia. done.
  - rewrite Ex, Z.add_comm, Z.mod_add, Z.mod_small by lia. done.
Qed.

(** A value of at most 53 bits, at its place, has this double. *)
Lemma double_value_of (s : bool) e q : 0 ≤ e < 2046 → 2 ^ 52 ≤ q < 2 ^ 53 →
  double_value ((if s then 2 ^ 63 else 0) + e * 2 ^ 52 + q) = (if s then -1 else 1) * (q * 2 ^ e).
Proof.
  intros He Hq. replace ((if s then 2 ^ 63 else 0) + e * 2 ^ 52 + q) with ((if s then 2 ^ 63 else 0) + (e + 1) * 2 ^ 52 + (q - 2 ^ 52)) by (destruct s; lia).
  destruct (double_fields s (e + 1) (q - 2 ^ 52)) as (E1 & E2 & E3); [lia..|]. cbv zeta in E1, E2, E3. unfold double_value. rewrite E1, E2, E3.
  rewrite (proj2 (Z.eqb_neq _ _)) by lia. replace (e + 1 - 1) with e by lia. f_equal. f_equal. lia.
Qed.

Lemma log2_pow m : 0 < m → 2 ^ Z.log2 m ≤ m < 2 ^ (Z.log2 m + 1).
Proof. intros H. pose proof (Z.log2_spec m H). by rewrite <- Z.add_1_r in H0. Qed.

(** The numbers that a double can hold. *)
Definition exact (i : Z) : Prop := ∃ q k, 0 ≤ k ∧ 0 ≤ q < 2 ^ 53 ∧ Z.abs i = q * 2 ^ k.

Lemma exact_small i : Z.abs i < 2 ^ 53 → exact i.
Proof. intros H. exists (Z.abs i), 0. lia. Qed.

Lemma double_of_int_exact i : exact i → Z.abs i < 2 ^ 64 → double_value (double_of_int i) = i * SCALE.
Proof.
  intros (q & k & Hk & Hq & Ei) Hi. unfold double_of_int. destruct (Z.eqb_spec i 0) as [->|Hne]; [done|]. cbv zeta.
  set (m := Z.abs i) in *. set (l := Z.log2 m). assert (0 < m) as Hm by lia. pose proof (log2_pow m Hm) as Hl. fold l in Hl.
  assert (0 ≤ l < 64) as Hl64. { split; [apply Z.log2_nonneg|]. apply Z.log2_lt_pow2; lia. }
  assert (i = (if i <? 0 then -1 else 1) * m) as Hs by (destruct (Z.ltb_spec i 0); lia).
  assert (∃ q', round53 m l = q' ∧ 2 ^ 52 ≤ q' < 2 ^ 53 ∧ q' * 2 ^ (l + 1022) = m * SCALE) as (q' & -> & Hq' & Ev).
  { unfold round53. destruct (Z.leb_spec l 52) as [Hle|Hgt].
    - eexists. split; [done|]. assert (2 ^ l * 2 ^ (52 - l) = 2 ^ 52) as E1 by (rewrite <- Z.pow_add_r by lia; f_equal; lia).
      assert (2 ^ (l + 1) * 2 ^ (52 - l) = 2 ^ 53) as E2 by (rewrite <- Z.pow_add_r by lia; f_equal; lia). split; [nia|].
      rewrite <- Z.mul_assoc, <- Z.pow_add_r by lia. unfold SCALE. do 2 f_equal. lia.
    - assert (l - 52 ≤ k) as Hlk.
      { destruct (Z.le_gt_cases (l - 52) k) as [|Hlt]; [done|]. exfalso. assert (2 ^ l ≤ q * 2 ^ k) by lia.
        assert (q * 2 ^ k < 2 ^ 53 * 2 ^ k) as H2 by (apply Z.mul_lt_mono_pos_r; lia). rewrite <- Z.pow_add_r in H2 by lia.
        assert (2 ^ (53 + k) ≤ 2 ^ l) by (apply Z.pow_le_mono_r; lia). lia. }
      assert (m = q * 2 ^ (k - (l - 52)) * 2 ^ (l - 52)) as Em by (rewrite <- Z.mul_assoc, <- Z.pow_add_r, Ei by lia; do 2 f_equal; lia).
      cbv zeta. set (s := l - 52) in *. assert (m `mod` 2 ^ s = 0) as E0 by (rewrite Em; apply Z.mod_mul; lia).
      rewrite E0, (proj2 (Z.ltb_ge _ _)), (proj2 (Z.eqb_neq _ _)) by lia. cbn [orb andb].
      set (q' := q * 2 ^ (k - s)) in *. assert (m `div` 2 ^ s = q') as -> by (rewrite Em; apply Z.div_mul; lia).
      exists q'. split; [done|]. assert (2 ^ 52 * 2 ^ s = 2 ^ l) as E1 by (rewrite <- Z.pow_add_r by lia; f_equal; lia).
      assert (2 ^ 53 * 2 ^ s = 2 ^ (l + 1)) as E2 by (rewrite <- Z.pow_add_r by lia; f_equal; lia). assert (0 < 2 ^ s) as Hs0 by lia. split; [nia|].
      rewrite Em, <- Z.mul_assoc. f_equal. unfold SCALE. rewrite <- Z.pow_add_r by lia. f_equal. lia. }
  rewrite double_value_of by lia. rewrite Ev, Z.mul_assoc. by rewrite <- Hs.
Qed.

Lemma double_parts x : ∃ M e, 0 ≤ M < 2 ^ 53 ∧ 0 ≤ e < 2047 ∧ Z.abs (double_value x) = M * 2 ^ e.
Proof.
  unfold double_value. pose proof (Z.mod_pos_bound (x `div` 2 ^ 52) 2048 ltac:(lia)). pose proof (Z.mod_pos_bound x (2 ^ 52) ltac:(lia)).
  set (e := (x `div` 2 ^ 52) `mod` 2048) in *. set (f := x `mod` 2 ^ 52) in *. rewrite Z.abs_mul. replace (Z.abs (if Z.testbit x 63 then -1 else 1)) with 1 by (by destruct (Z.testbit x 63)).
  rewrite Z.mul_1_l. destruct (Z.eqb_spec e 0) as [E|E].
  - exists f, 0. split; [lia|]. split; [lia|]. lia.
  - exists (2 ^ 52 + f), (e - 1). split; [lia|]. split; [lia|]. apply Z.abs_eq. apply Z.mul_nonneg_nonneg; [lia|]. apply Z.pow_nonneg. lia.
Qed.

(** A double of 53 bits or more before the point has none behind it. *)
Lemma double_integral x : 2 ^ 53 * SCALE ≤ Z.abs (double_value x) → ∃ i, double_value x = i * SCALE.
Proof.
  destruct (double_parts x) as (M & e & HM & He & E). rewrite E. intros H. assert (1074 < e) as Hlt.
  { destruct (Z.le_gt_cases e 1074) as [Hle|]; [|lia]. exfalso. assert (2 ^ e ≤ SCALE) by (apply Z.pow_le_mono_r; lia). pose proof SCALE_pos. nia. }
  assert (Z.abs (double_value x) = M * 2 ^ (e - 1074) * SCALE) as E' by (rewrite E; unfold SCALE; rewrite <- Z.mul_assoc, <- Z.pow_add_r by lia; do 2 f_equal; lia).
  destruct (Z.abs_eq_or_opp (double_value x)) as [A|A]; rewrite A in E'; [by eexists|]. exists (- (M * 2 ^ (e - 1074))). lia.
Qed.

Lemma double_exact x i : double_value x = i * SCALE → exact i.
Proof.
  intros H. destruct (double_parts x) as (M & e & HM & He & E). rewrite H, Z.abs_mul, (Z.abs_eq SCALE) in E by (pose proof SCALE_pos; lia).
  destruct (Z.le_gt_cases 1074 e) as [Hle|Hlt].
  - exists M, (e - 1074). split; [lia|]. split; [lia|]. apply (Z.mul_reg_r _ _ SCALE); [pose proof SCALE_pos; lia|].
    rewrite E. unfold SCALE. rewrite <- Z.mul_assoc, <- Z.pow_add_r by lia. do 2 f_equal. lia.
  - apply exact_small. assert (SCALE = 2 ^ (1074 - e) * 2 ^ e) as ES by (unfold SCALE; rewrite <- Z.pow_add_r by lia; f_equal; lia).
    rewrite ES, Z.mul_assoc in E. apply Z.mul_reg_r in E; [|lia]. assert (1 ≤ 2 ^ (1074 - e)) by (apply (Z.pow_le_mono_r 2 0); lia). nia.
Qed.

Lemma round53_bounds m : 0 < m → 2 ^ 52 ≤ round53 m (Z.log2 m) ≤ 2 ^ 53.
Proof.
  intros Hm. pose proof (log2_pow m Hm) as Hl. set (l := Z.log2 m) in *. pose proof (Z.log2_nonneg m). fold l in H. unfold round53. destruct (Z.leb_spec l 52) as [Hle|Hgt].
  - assert (2 ^ l * 2 ^ (52 - l) = 2 ^ 52) as E1 by (rewrite <- Z.pow_add_r by lia; f_equal; lia).
    assert (2 ^ (l + 1) * 2 ^ (52 - l) = 2 ^ 53) as E2 by (rewrite <- Z.pow_add_r by lia; f_equal; lia). nia.
  - cbv zeta. set (s := l - 52) in *. assert (2 ^ 52 * 2 ^ s = 2 ^ l) as E1 by (rewrite <- Z.pow_add_r by lia; f_equal; lia).
    assert (2 ^ 53 * 2 ^ s = 2 ^ (l + 1)) as E2 by (rewrite <- Z.pow_add_r by lia; f_equal; lia).
    assert (2 ^ 52 ≤ m `div` 2 ^ s) by (apply Z.div_le_lower_bound; lia). assert (m `div` 2 ^ s < 2 ^ 53) by (apply Z.div_lt_upper_bound; lia).
    destruct (_ || _); lia.
Qed.

Lemma IsNaN_spec x : IsNaN x = ((x `div` 2 ^ 52) `mod` 2048 =? 2047) && negb (x `mod` 2 ^ 52 =? 0).
Proof.
  unfold IsNaN. change EXP754 with (Z.shiftl (Z.ones 11) 52). change MAN754 with (Z.ones 52). rewrite (Z.land_ones _ 52) by lia. f_equal.
  rewrite land_mask, Z.shiftl_mul_pow2 by lia. change (2 ^ 11) with 2048.
  destruct (Z.eqb_spec ((x `div` 2 ^ 52) `mod` 2048) 2047) as [->|E]; [done|]. apply Z.eqb_neq. change (Z.ones 11) with 2047. lia.
Qed.

Lemma double_of_int_number i : Z.abs i < 2 ^ 64 → IsNaN (double_of_int i) = false.
Proof.
  intros Hi. rewrite IsNaN_spec. unfold double_of_int. destruct (Z.eqb_spec i 0) as [->|Hne]; [done|]. cbv zeta.
  pose proof (round53_bounds (Z.abs i) ltac:(lia)) as Hq. set (q := round53 _ _) in *.
  assert (0 ≤ Z.log2 (Z.abs i) < 64) as Hl by (split; [apply Z.log2_nonneg|apply Z.log2_lt_pow2; lia]). set (l := Z.log2 (Z.abs i)) in *.
  destruct (Z.eq_dec q (2 ^ 53)) as [->|Hq2].
  - replace ((if i <? 0 then 2 ^ 63 else 0) + (l + 1022) * 2 ^ 52 + 2 ^ 53) with ((if i <? 0 then 2 ^ 63 else 0) + (l + 1024) * 2 ^ 52 + 0) by (destruct (i <? 0); lia).
    destruct (double_fields (i <? 0) (l + 1024) 0) as (_ & -> & ->); [lia..|]. by rewrite andb_false_r.
  - replace ((if i <? 0 then 2 ^ 63 else 0) + (l + 1022) * 2 ^ 52 + q) with ((if i <? 0 then 2 ^ 63 else 0) + (l + 1023) * 2 ^ 52 + (q - 2 ^ 52)) by (destruct (i <? 0); lia).
    destruct (double_fields (i <? 0) (l + 1023) (q - 2 ^ 52)) as (_ & -> & ->); [lia..|]. rewrite (proj2 (Z.eqb_neq _ _)) by lia. done.
Qed.

(** Comparing an integer with a floating-point number is exact. *)
Lemma int_float_exact i r : is_i64 i → IsNaN r = false → sqlite3IntFloatCompare i r = sgn_cmp (i * SCALE) (double_value r).
Proof.
  intros Hi Hr. unfold is_i64 in Hi. unfold sqlite3IntFloatCompare, sqlite3IsNaN. rewrite Hr. unfold double_lt. rewrite Hr.
  rewrite !double_of_int_number by (cbn; lia). cbn [negb andb].
  rewrite (double_of_int_exact (-9223372036854775808)), (double_of_int_exact 9223372036854775808) by (cbn; lia || by (exists 1, 63)).
  pose proof SCALE_pos as HS. set (v := double_value r). unfold sgn_cmp.
  destruct (Z.ltb_spec v (-9223372036854775808 * SCALE)) as [H1|H1]; [rewrite (proj2 (Z.ltb_ge _ _)), (proj2 (Z.ltb_lt _ _)) by nia; done|].
  destruct (Z.ltb_spec v (9223372036854775808 * SCALE)) as [H2|H2]; cbn [negb]; [|rewrite (proj2 (Z.ltb_lt _ _)) by nia; done].
  unfold int_of_double. fold v. set (y := Z.quot v SCALE). pose proof (Z.quot_rem v SCALE ltac:(lia)) as Eq. fold y in Eq.
  assert (v < 0 → - SCALE < Z.rem v SCALE ≤ 0) as Hneg by (intros; apply Z.rem_bound_pos_neg; lia).
  assert (0 ≤ v → 0 ≤ Z.rem v SCALE < SCALE) as Hpos by (intros; apply Z.rem_bound_pos; lia).
  set (k := Z.rem v SCALE) in *. clearbody y k.
  destruct (Z.ltb_spec i y) as [Hlt|Hge]; [rewrite (proj2 (Z.ltb_lt _ _)); [done|]; destruct (Z.lt_ge_cases v 0); nia|].
  destruct (Z.ltb_spec y i) as [Hgt|Hle]; [rewrite (proj2 (Z.ltb_ge _ _)), (proj2 (Z.ltb_lt _ _)); [done|destruct (Z.lt_ge_cases v 0); nia..]|].
  assert (i = y) as -> by lia. rewrite double_of_int_exact; [done| |lia]. destruct (Z.lt_ge_cases (Z.abs y) (2 ^ 53)) as [Hs|Hb]; [by apply exact_small|].
  destruct (double_integral r) as [i' E]; [fold v; destruct (Z.lt_ge_cases v 0); nia|]. fold v in E. apply (double_exact r). fold v. rewrite E.
  f_equal. destruct (Z.lt_ge_cases v 0); nia.
Qed.

(** ** Values *)

Inductive val : Type := Null | Integer (i : Z) | Real (x : Z) | Text (b : bytes) | Blob (b : bytes).

(** The value of a cell: the first of its representations.  [zeros] is how
    many zeros follow a blob. *)
Definition zeros (p : sqlite3_value) : nat := if has p MEM_Zero then Z.to_nat (u_nZero p) else O.

Definition value_of (p : sqlite3_value) : val :=
  if has p MEM_Null then Null else
  if has p (Z.lor MEM_Int MEM_IntReal) then Integer (u_i p) else
  if has p MEM_Real then Real (u p) else
  let b := take (Z.to_nat (n p)) (z p) in
  if has p MEM_Str then Text b else Blob (b ++ replicate (zeros p) 0).

(** What every cell of the virtual machine is: text and blobs are there, no
    number is a NaN, zeros follow nothing but a blob. *)
Record value_ok (p : sqlite3_value) : Prop := {
  vo_union : is_u64 (u p);
  vo_content : has p (Z.lor (Z.lor (Z.lor MEM_Null MEM_Int) MEM_IntReal) MEM_Real) = false → 0 ≤ n p ≤ Z.of_nat (length (z p)) ∧ is_bytes (z p);
  vo_number : has p MEM_Real = true → IsNaN (u p) = false ∧ has p (Z.lor MEM_Int MEM_IntReal) = false;
  vo_zero : has p MEM_Null = false → has p MEM_Zero = true →
    has p (Z.lor (Z.lor (Z.lor MEM_Int MEM_Real) MEM_IntReal) MEM_Str) = false ∧ 0 ≤ u_nZero p
}.

(** The order: null, numbers, texts, blobs. *)
Fixpoint byte_order (a b : bytes) : Z :=
  match a, b with
  | [], [] => 0
  | [], _ :: _ => -1
  | _ :: _, [] => 1
  | x :: a, y :: b => if x =? y then byte_order a b else if x <? y then -1 else 1
  end.

Definition rank (v : val) : Z := match v with Null => 0 | Integer _ | Real _ => 1 | Text _ => 2 | Blob _ => 3 end.

Definition number (v : val) : Z := match v with Integer i => i * SCALE | Real x => double_value x | _ => 0 end.

Definition compare_vals (cmp : bytes → bytes → Z) (v1 v2 : val) : Z :=
  if negb (rank v1 =? rank v2) then sgn_cmp (rank v1) (rank v2) else
  match v1, v2 with
  | Text a, Text b => cmp a b
  | Blob a, Blob b => byte_order a b
  | _, _ => sgn_cmp (number v1) (number v2)
  end.

(** ** Comparing bytes *)

Lemma sgn_sgn_cmp a b : Z.sgn (a - b) = sgn_cmp a b.
Proof. unfold sgn_cmp. destruct (Z.ltb_spec a b); [by rewrite Z.sgn_neg by lia|]. destruct (Z.ltb_spec b a); [by rewrite Z.sgn_pos by lia|]. by replace (a - b) with 0 by lia. Qed.

Lemma sgn_cmp_S j k : sgn_cmp (Z.of_nat (S j)) (Z.of_nat (S k)) = sgn_cmp (Z.of_nat j) (Z.of_nat k).
Proof. by rewrite <- !sgn_sgn_cmp, !Nat2Z.inj_succ, Zminus_succ_r, Z.sub_succ_l, Z.pred_succ. Qed.

Lemma memcmp_lex : ∀ a b k, (k ≤ length a)%nat → (k ≤ length b)%nat → memcmp a b k = Some (byte_order (take k a) (take k b)).
Proof.
  intros a b k. revert a b. induction k as [|k IH]; intros a b Ha Hb; [done|]. destruct a as [|x a], b as [|y b]; cbn [length] in *; try lia.
  cbn [memcmp take byte_order]. destruct (x =? y); [apply IH; lia|done].
Qed.

(** Blobs of which one is a prefix of the other are ordered by length. *)
Lemma lex_take a : ∀ b, let k := min (length a) (length b) in
  byte_order a b = if byte_order (take k a) (take k b) =? 0 then sgn_cmp (Z.of_nat (length a)) (Z.of_nat (length b)) else byte_order (take k a) (take k b).
Proof.
  induction a as [|x a IH]; intros [|y b]; cbn [length min take byte_order]; try done.
  destruct (Z.eqb_spec x y) as [->|Hne].
  - rewrite IH. cbn zeta. destruct (_ =? 0); [|done]. by rewrite sgn_cmp_S.
  - by destruct (x <? y).
Qed.

Lemma lex_values a : ∀ b, byte_order a b = -1 ∨ byte_order a b = 0 ∨ byte_order a b = 1.
Proof. induction a as [|x a IH]; intros [|y b]; cbn [byte_order]; auto. destruct (x =? y); [apply IH|]. destruct (x <? y); auto. Qed.

Lemma lex_sgn a b : Z.sgn (byte_order a b) = byte_order a b.
Proof. by destruct (lex_values a b) as [-> |[-> | ->]]. Qed.

(** What the comparisons of the source do, [memcmp] and then the lengths. *)
Lemma compare_bytes a b k1 k2 : 0 ≤ k1 ≤ Z.of_nat (length a) → 0 ≤ k2 ≤ Z.of_nat (length b) →
  ∃ c, memcmp a b (Z.to_nat (Z.min k1 k2)) = Some c ∧ Z.sgn (if c =? 0 then k1 - k2 else c) = byte_order (take (Z.to_nat k1) a) (take (Z.to_nat k2) b).
Proof.
  intros H1 H2. set (a' := take (Z.to_nat k1) a). set (b' := take (Z.to_nat k2) b).
  assert (length a' = Z.to_nat k1 ∧ length b' = Z.to_nat k2) as [L1 L2] by (unfold a', b'; rewrite !length_take; lia).
  eexists. split; [apply memcmp_lex; lia|]. rewrite (lex_take a' b'). cbn zeta. rewrite L1, L2.
  assert (take (Z.to_nat (Z.min k1 k2)) a = take (Z.to_nat k1 `min` Z.to_nat k2) a' ∧ take (Z.to_nat (Z.min k1 k2)) b = take (Z.to_nat k1 `min` Z.to_nat k2) b') as [-> ->].
  { unfold a', b'. rewrite !take_take. split; f_equal; lia. }
  destruct (_ =? 0); [|apply lex_sgn]. rewrite sgn_sgn_cmp, !Z2Nat.id by lia. done.
Qed.

Lemma isAllZero_spec : ∀ k l, (k ≤ length l)%nat → isAllZero l k = Some (bool_decide (take k l = replicate k 0)).
Proof.
  induction k as [|k IH]; intros l Hl; [done|]. destruct l as [|x l]; cbn [length] in *; [lia|]. cbn [isAllZero take replicate].
  destruct (Z.eqb_spec x 0) as [->|Hne]; cbn [negb].
  - rewrite IH by lia. f_equal. apply bool_decide_ext. split; [by intros ->|by intros [= ->]].
  - rewrite bool_decide_false; [done|]. by intros [= ? _].
Qed.

Lemma lex_zeros j k : byte_order (replicate j 0) (replicate k 0) = sgn_cmp (Z.of_nat j) (Z.of_nat k).
Proof.
  revert k. induction j as [|j IH]; intros [|k]; [done..|]. cbn [replicate byte_order Z.eqb]. rewrite IH. by rewrite sgn_cmp_S.
Qed.

Lemma lex_antisym a : ∀ b, byte_order b a = - byte_order a b.
Proof.
  induction a as [|x a IH]; intros [|y b]; [done..|]. cbn [byte_order]. rewrite (Z.eqb_sym y x). destruct (Z.eqb_spec x y); [apply IH|].
  destruct (Z.ltb_spec x y), (Z.ltb_spec y x); lia.
Qed.

(** ** Comparing cells *)

Lemma land_lor_test f g m : negb (Z.land (Z.lor f g) m =? 0) = negb (Z.land f m =? 0) || negb (Z.land g m =? 0).
Proof.
  rewrite Z.land_lor_distr_l. destruct (Z.eqb_spec (Z.land f m) 0) as [->|H1]; [by rewrite Z.lor_0_l|].
  destruct (Z.eqb_spec (Z.lor (Z.land f m) (Z.land g m)) 0) as [H|]; [|done]. apply Z.lor_eq_0_iff in H as [H _]. done.
Qed.

Lemma has_lor (p : Utf.Mem) a b : has p (Z.lor a b) = has p a || has p b.
Proof. unfold has. rewrite (Z.land_comm _ (Z.lor a b)), land_lor_test, (Z.land_comm a), (Z.land_comm b). done. Qed.

Lemma land_both f g m : negb (Z.land (Z.land f g) m =? 0) = true → negb (Z.land f m =? 0) = true ∧ negb (Z.land g m =? 0) = true.
Proof.
  intros H. apply negb_true_iff, Z.eqb_neq in H. rewrite !negb_true_iff, !Z.eqb_neq. split; intros E; apply H.
  - rewrite (Z.land_comm f g), <- Z.land_assoc, E. apply Z.land_0_r.
  - rewrite <- Z.land_assoc, E. apply Z.land_0_r.
Qed.

Lemma flag_bit f k : 0 ≤ k → negb (Z.land f (2 ^ k) =? 0) = Z.testbit f k.
Proof. intros Hk. by rewrite land_pow2_eqb, negb_involutive. Qed.

Lemma land_both_bit f g k : 0 ≤ k → negb (Z.land (Z.land f g) (2 ^ k) =? 0) = negb (Z.land f (2 ^ k) =? 0) && negb (Z.land g (2 ^ k) =? 0).
Proof. intros Hk. by rewrite !flag_bit, Z.land_spec. Qed.

Lemma null_bit (p : Utf.Mem) : Z.land (flags p) MEM_Null = b2z (has p MEM_Null).
Proof.
  unfold has. rewrite (land_low _ 1) by done. change (2 ^ 1) with 2. pose proof (Z.mod_pos_bound (flags p) 2 ltac:(lia)).
  destruct (Z.eqb_spec (flags p `mod` 2) 0); cbn; lia.
Qed.

(** Cells that are compared: zeros follow no other bytes. *)
Definition comparable (p : sqlite3_value) : Prop := value_ok p ∧ (has p MEM_Zero = true → n p = 0).

Definition is_number (p : Utf.Mem) : bool := has p (Z.lor (Z.lor MEM_Int MEM_Real) MEM_IntReal).

Lemma is_number_parts (p : Utf.Mem) : is_number p = has p (Z.lor MEM_Int MEM_IntReal) || has p MEM_Real.
Proof. unfold is_number. rewrite !has_lor. by destruct (has p MEM_Int), (has p MEM_Real), (has p MEM_IntReal). Qed.

Lemma data_content p : value_ok p → has p MEM_Null = false → is_number p = false → 0 ≤ n p ≤ Z.of_nat (length (z p)) ∧ is_bytes (z p).
Proof. intros H H1 H2. apply (vo_content _ H). rewrite is_number_parts in H2. rewrite !has_lor in *. rewrite H1. by destruct (has p MEM_Int), (has p MEM_IntReal), (has p MEM_Real). Qed.

Definition data (p : sqlite3_value) : bytes := take (Z.to_nat (n p)) (z p) ++ replicate (zeros p) 0.

Lemma lex_zeros_data b k : is_bytes b → b ≠ replicate (length b) 0 → byte_order (replicate k 0) b = -1.
Proof.
  revert k. induction b as [|x b IH]; intros k Hb Hne; [done|]. apply Forall_cons in Hb as [Hx Hb]. destruct k as [|k]; [done|]. cbn [replicate byte_order].
  destruct (Z.eqb_spec 0 x) as [<-|Hx0]; [|unfold is_u8 in Hx; by rewrite (proj2 (Z.ltb_lt _ _)) by lia].
  apply IH; [done|]. intros E. apply Hne. cbn [length replicate]. by rewrite <- E.
Qed.

Lemma blob_compare p1 p2 : comparable p1 → comparable p2 → has p1 MEM_Null = false → has p2 MEM_Null = false → is_number p1 = false → is_number p2 = false →
  ∃ c, sqlite3BlobCompare p1 p2 = Some c ∧ Z.sgn c = byte_order (data p1) (data p2).
Proof.
  intros [V1 Z1] [V2 Z2] N1 N2 I1 I2. destruct (data_content p1 V1 N1 I1) as [L1 B1]. destruct (data_content p2 V2 N2 I2) as [L2 B2].
  unfold sqlite3BlobCompare, data, zeros. destruct (has p1 MEM_Zero) eqn:E1, (has p2 MEM_Zero) eqn:E2; cbn [orb andb].
  - specialize (Z1 eq_refl). specialize (Z2 eq_refl). destruct (vo_zero _ V1 N1 E1) as [_ ?]. destruct (vo_zero _ V2 N2 E2) as [_ ?].
    eexists. split; [done|]. rewrite Z1, Z2. change (Z.to_nat 0) with O. rewrite !take_0. cbn [app]. rewrite lex_zeros, sgn_sgn_cmp, !Z2Nat.id by lia. done.
  - specialize (Z1 eq_refl). destruct (vo_zero _ V1 N1 E1) as [_ ?]. rewrite Z1, isAllZero_spec by lia. change (Z.to_nat 0) with O. rewrite !take_0. cbn [replicate app]. rewrite app_nil_r.
    eexists. split; [done|]. assert (length (take (Z.to_nat (n p2)) (z p2)) = Z.to_nat (n p2)) as L by (rewrite length_take; lia). case_bool_decide as Hb; cbn [negb].
    + rewrite Hb, lex_zeros, sgn_sgn_cmp, !Z2Nat.id by lia. done.
    + rewrite lex_zeros_data; [done|by apply Forall_take|by rewrite L].
  - specialize (Z2 eq_refl). destruct (vo_zero _ V2 N2 E2) as [_ ?]. rewrite Z2, isAllZero_spec by lia. change (Z.to_nat 0) with O. rewrite !take_0. cbn [replicate app]. rewrite app_nil_r.
    eexists. split; [done|]. assert (length (take (Z.to_nat (n p1)) (z p1)) = Z.to_nat (n p1)) as L by (rewrite length_take; lia). case_bool_decide as Hb; cbn [negb].
    + rewrite Hb, lex_zeros, sgn_sgn_cmp, !Z2Nat.id by lia. done.
    + rewrite lex_antisym, lex_zeros_data; [done|by apply Forall_take|by rewrite L].
  - cbn [replicate]. rewrite !app_nil_r. destruct (compare_bytes (z p1) (z p2) (n p1) (n p2) L1 L2) as (c & E & Hc).
    replace (if n p2 <? n p1 then n p2 else n p1) with (Z.min (n p1) (n p2)) by (destruct (Z.ltb_spec (n p2) (n p1)); lia). rewrite E. cbn. rewrite <- Hc.
    destruct (c =? 0); cbn; by eexists.
Qed.

(** A collation for which [cmp] is the order of the text in its encoding. *)
Definition collates (pColl : option CollSeq) (e : Z) (cmp : bytes → bytes → Z) : Prop :=
  match pColl with
  | None => ∀ a b, cmp a b = byte_order a b
  | Some c => coll_enc c = e ∧ ∀ a b, is_bytes a → is_bytes b → ∃ r, xCmp c a b = Some r ∧ Z.sgn r = cmp a b
  end.

Lemma sub_content (l : bytes) k : 0 ≤ k ≤ Z.of_nat (length l) → sub l 0 k = Some (take (Z.to_nat k) l).
Proof. intros H. unfold sub. rewrite decide_True by lia. by rewrite drop_0. Qed.

Lemma mem_compare_spec p1 p2 pColl m cmp : comparable p1 → comparable p2 → (has p1 MEM_Str = true → has p2 MEM_Str = true → enc p1 = enc p2) →
  collates pColl (enc p1) cmp → ∃ c, sqlite3MemCompare p1 p2 pColl m = Some (c, m) ∧ Z.sgn c = compare_vals cmp (value_of p1) (value_of p2).
Proof.
  intros C1 C2 He Hc. pose proof C1 as [V1 Z1]. pose proof C2 as [V2 Z2]. unfold sqlite3MemCompare. cbv zeta. rewrite !land_lor_test. fold (has p1 MEM_Null) (has p2 MEM_Null).
  destruct (has p1 MEM_Null || has p2 MEM_Null) eqn:EN.
  { eexists. split; [done|]. rewrite !null_bit. unfold value_of.
    destruct (has p1 MEM_Null), (has p2 MEM_Null); try done.
    - by destruct (has p2 (Z.lor MEM_Int MEM_IntReal)), (has p2 MEM_Real), (has p2 MEM_Str).
    - by destruct (has p1 (Z.lor MEM_Int MEM_IntReal)), (has p1 MEM_Real), (has p1 MEM_Str). }
  apply orb_false_iff in EN as [N1 N2]. fold (has p1 (Z.lor (Z.lor MEM_Int MEM_Real) MEM_IntReal)) (has p2 (Z.lor (Z.lor MEM_Int MEM_Real) MEM_IntReal)).
  fold (is_number p1) (is_number p2). unfold value_of. rewrite N1, N2.
  assert (∀ p, value_ok p → is_i64 (u_i p)) as Hi by (intros p _; apply is_i64_i64).
  destruct (is_number p1 || is_number p2) eqn:EI.
  - eexists. split; [done|]. rewrite !is_number_parts in EI. set (i1 := has p1 (Z.lor MEM_Int MEM_IntReal)) in *. set (i2 := has p2 (Z.lor MEM_Int MEM_IntReal)) in *.
    change MEM_Real with (2 ^ 3). rewrite land_both_bit by lia. change (2 ^ 3) with MEM_Real. fold (has p1 MEM_Real) (has p2 MEM_Real).
    set (both := negb (Z.land (Z.land (flags p1) (flags p2)) (Z.lor MEM_Int MEM_IntReal) =? 0)).
    assert (both = true → i1 = true ∧ i2 = true) as Hboth by (intros H; by apply land_both in H). clearbody both.
    pose proof (vo_number _ V1) as R1. pose proof (vo_number _ V2) as R2. fold i1 in R1. fold i2 in R2.
    assert (∀ a b, Z.sgn (sgn_cmp a b) = sgn_cmp a b) as Hsgn by (intros a b; unfold sgn_cmp; by destruct (a <? b), (b <? a)).
    assert (∀ a b, sgn_cmp (a * SCALE) (b * SCALE) = sgn_cmp a b) as Hscale.
    { intros a b. pose proof SCALE_pos. unfold sgn_cmp. destruct (Z.ltb_spec a b), (Z.ltb_spec (a * SCALE) (b * SCALE)), (Z.ltb_spec b a), (Z.ltb_spec (b * SCALE) (a * SCALE)); nia || done. }
    assert (∀ a b, - sgn_cmp a b = sgn_cmp b a) as Hopp by (intros a b; unfold sgn_cmp; destruct (Z.ltb_spec a b), (Z.ltb_spec b a); lia).
    destruct both.
    { destruct (Hboth eq_refl) as [-> ->]. unfold compare_vals. cbn [rank Z.eqb negb number]. rewrite Hscale. apply Hsgn. }
    destruct i1 eqn:E1, i2 eqn:E2, (has p1 MEM_Real) eqn:F1, (has p2 MEM_Real) eqn:F2; cbn [andb negb orb] in *; try done;
      try (by destruct (R1 eq_refl)); try (by destruct (R2 eq_refl)); unfold compare_vals; cbn [rank Z.eqb negb number];
      try (by destruct (has p1 MEM_Str)); try (by destruct (has p2 MEM_Str)).
    + rewrite Hscale. apply Hsgn.
    + rewrite int_float_exact by (apply Hi || apply R2; done). apply Hsgn.
    + rewrite int_float_exact by (apply Hi || apply R1; done). rewrite Hopp. apply Hsgn.
    + unfold double_lt. rewrite (proj1 (R1 eq_refl)), (proj1 (R2 eq_refl)). apply Hsgn.
  - apply orb_false_iff in EI as [I1 I2]. destruct (blob_compare p1 p2 C1 C2 N1 N2 I1 I2) as (cb & Eb & Hb). pose proof I1 as J1. pose proof I2 as J2. rewrite is_number_parts in J1, J2.
    apply orb_false_iff in J1 as [-> ->], J2 as [-> ->]. fold (has p1 MEM_Str) (has p2 MEM_Str). rewrite Eb.
    destruct (has p1 MEM_Str) eqn:S1, (has p2 MEM_Str) eqn:S2; cbn [orb negb].
    + assert (zeros p1 = O ∧ zeros p2 = O) as [Y1 Y2].
      { unfold zeros. split; [destruct (has p1 MEM_Zero) eqn:E; [destruct (vo_zero _ V1 N1 E) as [F _]; rewrite has_lor, S1, orb_true_r in F; done|done]|
          destruct (has p2 MEM_Zero) eqn:E; [destruct (vo_zero _ V2 N2 E) as [F _]; rewrite has_lor, S2, orb_true_r in F; done|done]]. }
      unfold data in Hb. rewrite Y1, Y2 in Hb. cbn [replicate] in Hb. rewrite !app_nil_r in Hb. unfold compare_vals. cbn [rank Z.eqb negb].
      destruct pColl as [pColl|]; cbn [collates] in Hc; [|eexists; split; [done|by rewrite Hc]]. destruct Hc as [Ee Hc]. unfold vdbeCompareMemString.
      rewrite Ee, Z.eqb_refl. unfold content. destruct (data_content p1 V1 N1 I1) as [L1 B1]. destruct (data_content p2 V2 N2 I2) as [L2 B2]. rewrite !sub_content by done. cbn.
      destruct (Hc (take (Z.to_nat (n p1)) (z p1)) (take (Z.to_nat (n p2)) (z p2))) as (r & -> & Hr); [by apply Forall_take..|]. cbn. by eexists.
    + by eexists.
    + by eexists.
    + eexists. split; [done|]. exact Hb.
Qed.

(** ** Orders *)

(** What a collation promises: a total order of texts, up to texts that it
    does not tell apart. *)
Class TotalOrder {A} (cmp : A → A → Z) : Prop := {
  order_sgn : ∀ a b, Z.sgn (cmp a b) = cmp a b;
  order_antisym : ∀ a b, cmp b a = - cmp a b;
  order_trans : ∀ a b c, cmp a b ≤ 0 → cmp b c ≤ 0 → cmp a c ≤ 0
}.

#[export] Instance sgn_cmp_order : TotalOrder sgn_cmp.
Proof.
  split; unfold sgn_cmp; intros.
  - by destruct (a <? b), (b <? a).
  - destruct (Z.ltb_spec a b), (Z.ltb_spec b a); lia.
  - destruct (Z.ltb_spec a b), (Z.ltb_spec b a), (Z.ltb_spec b c), (Z.ltb_spec c b), (Z.ltb_spec a c), (Z.ltb_spec c a); lia.
Qed.

Lemma lex_trans a : ∀ b c, byte_order a b ≤ 0 → byte_order b c ≤ 0 → byte_order a c ≤ 0.
Proof.
  induction a as [|x a IH]; intros [|y b] [|w c] H1 H2; cbn [byte_order] in *; try lia.
  specialize (IH b c). destruct (Z.eqb_spec x y), (Z.eqb_spec y w), (Z.eqb_spec x w); try lia; try (by apply IH);
    destruct (Z.ltb_spec x y), (Z.ltb_spec y w), (Z.ltb_spec x w); lia.
Qed.

#[export] Instance lex_order : TotalOrder byte_order.
Proof. split; [apply lex_sgn|intros; apply lex_antisym|apply lex_trans]. Qed.

(** Along a function, and one order after another. *)
#[export] Instance order_by {A B} (f : A → B) cmp `{!TotalOrder cmp} : TotalOrder (λ a b, cmp (f a) (f b)).
Proof. split; intros; [apply order_sgn|apply order_antisym|by apply (order_trans _ (f b))]. Qed.

Definition then_by {A} (cmp1 cmp2 : A → A → Z) (a b : A) : Z := if cmp1 a b =? 0 then cmp2 a b else cmp1 a b.

#[export] Instance then_by_order {A} (cmp1 cmp2 : A → A → Z) `{!TotalOrder cmp1, !TotalOrder cmp2} : TotalOrder (then_by cmp1 cmp2).
Proof.
  split; unfold then_by; intros.
  - destruct (_ =? 0); apply order_sgn.
  - rewrite (order_antisym (cmp := cmp1) a b), (order_antisym (cmp := cmp2) a b). destruct (Z.eqb_spec (cmp1 a b) 0), (Z.eqb_spec (- cmp1 a b) 0); lia.
  - pose proof (order_trans (cmp := cmp1) a b c) as T1. pose proof (order_trans (cmp := cmp2) a b c) as T2.
    pose proof (order_trans (cmp := cmp1) c b a) as T3. rewrite !(order_antisym (cmp := cmp1) a), !(order_antisym (cmp := cmp1) b c) in T3.
    pose proof (order_trans (cmp := cmp1) b c a) as T4. rewrite !(order_antisym (cmp := cmp1) a) in T4.
    pose proof (order_trans (cmp := cmp1) c a b) as T5. rewrite !(order_antisym (cmp := cmp1) a), !(order_antisym (cmp := cmp1) b c) in T5.
    destruct (Z.eqb_spec (cmp1 a b) 0), (Z.eqb_spec (cmp1 b c) 0), (Z.eqb_spec (cmp1 a c) 0); lia.
Qed.

#[export] Instance compare_vals_order cmp `{!TotalOrder cmp} : TotalOrder (compare_vals cmp).
Proof.
  split; intros; unfold compare_vals.
  - destruct (negb _); [apply order_sgn|]. destruct a, b; apply order_sgn.
  - rewrite (Z.eqb_sym (rank b)). destruct (negb _); [apply order_antisym|]. destruct a, b; apply order_antisym.
  - unfold compare_vals in *.
    assert (∀ v w, negb (rank v =? rank w) = true → sgn_cmp (rank v) (rank w) ≤ 0 → rank v < rank w) as Hr.
    { intros v w Hne. apply negb_true_iff, Z.eqb_neq in Hne. unfold sgn_cmp. destruct (Z.ltb_spec (rank v) (rank w)), (Z.ltb_spec (rank w) (rank v)); lia. }
    assert (∀ v w, rank v < rank w → sgn_cmp (rank v) (rank w) = -1) as Hlt by (intros v w Hv; unfold sgn_cmp; by rewrite (proj2 (Z.ltb_lt _ _))).
    destruct (negb (rank a =? rank b)) eqn:E1; [apply Hr in H; [|done]|apply negb_false_iff, Z.eqb_eq in E1];
      (destruct (negb (rank b =? rank c)) eqn:E2; [apply Hr in H0; [|done]|apply negb_false_iff, Z.eqb_eq in E2]).
    + rewrite (proj2 (Z.eqb_neq _ _)) by lia. cbn [negb]. rewrite Hlt by lia. done.
    + rewrite (proj2 (Z.eqb_neq _ _)) by lia. cbn [negb]. rewrite Hlt by lia. done.
    + rewrite (proj2 (Z.eqb_neq _ _)) by lia. cbn [negb]. rewrite Hlt by lia. done.
    + rewrite (proj2 (Z.eqb_eq _ _)) by lia. cbn [negb].
      destruct a, b, c; cbn [rank] in E1, E2; try done; by eapply order_trans.
Qed.

(** *** The collations of the library *)

Lemma binary_lex a b : ∃ r, binCollFunc a b = Some r ∧ Z.sgn r = byte_order a b.
Proof.
  unfold binCollFunc. cbv zeta. destruct (compare_bytes a b (Z.of_nat (length a)) (Z.of_nat (length b))) as (c & E & Hc); [lia..|].
  replace (if Z.of_nat (length a) <? Z.of_nat (length b) then Z.of_nat (length a) else Z.of_nat (length b)) with (Z.min (Z.of_nat (length a)) (Z.of_nat (length b)))
    by (destruct (Z.ltb_spec (Z.of_nat (length a)) (Z.of_nat (length b))); lia).
  rewrite E. cbn. eexists. split; [done|]. rewrite Hc, !Nat2Z.id, !firstn_all. done.
Qed.

(** Upper-case letters as lower-case ones, up to a zero and with it. *)
Fixpoint folded (l : bytes) : bytes :=
  match l with [] => [] | x :: l => Text.upper_to_lower x :: if x =? 0 then [] else folded l end.

Definition nocase : bytes → bytes → Z :=
  then_by (λ a b, byte_order (folded a) (folded b)) (λ a b, sgn_cmp (Z.of_nat (length a)) (Z.of_nat (length b))).

Lemma lower_zero x : is_u8 x → Text.upper_to_lower x = 0 → x = 0.
Proof.
  intros Hx H. assert (forallb (λ k, negb (Text.upper_to_lower (Z.of_nat k) =? 0) || (k =? 0)%nat) (seq 0 256) = true) as Hall by (vm_compute; reflexivity).
  rewrite forallb_forall in Hall. specialize (Hall (Z.to_nat x)). unfold is_u8 in Hx. rewrite Z2Nat.id, H in Hall by lia. cbn in Hall.
  assert (In (Z.to_nat x) (seq 0 256)) as Hin by (apply in_seq; lia). specialize (Hall Hin). apply Nat.eqb_eq in Hall. lia.
Qed.

Lemma nocase_step a : ∀ b, is_bytes a → is_bytes b →
  ∃ r, Text.strnicmp_loop a b (min (length a) (length b)) = Some r ∧ Z.sgn (if r =? 0 then Z.of_nat (length a) - Z.of_nat (length b) else r) = nocase a b.
Proof.
  induction a as [|x a IH]; intros [|y b] Ha Hb; cbn [length min Text.strnicmp_loop]; try (eexists; split; [done|done]).
  apply Forall_cons in Ha as [Hx Ha], Hb as [Hy Hb]. destruct (Z.eqb_spec x 0) as [->|Hx0]; cbn [negb andb].
  - eexists. split; [done|]. unfold nocase, then_by. cbn [folded Z.eqb byte_order]. change (Text.upper_to_lower 0) with 0.
    destruct (Z.eqb_spec y 0) as [->|Hy0].
    + change (Text.upper_to_lower 0) with 0. cbn [Z.sub Z.eqb byte_order]. apply sgn_sgn_cmp.
    + assert (Text.upper_to_lower y ≠ 0) as Hl by (intros E; by apply Hy0, lower_zero). assert (0 ≤ Text.upper_to_lower y) as Hl2.
      { assert (forallb (λ k, 0 <=? Text.upper_to_lower (Z.of_nat k)) (seq 0 256) = true) as Hall by (vm_compute; reflexivity).
        rewrite forallb_forall in Hall. specialize (Hall (Z.to_nat y)). unfold is_u8 in Hy. rewrite Z2Nat.id in Hall by lia.
        assert (In (Z.to_nat y) (seq 0 256)) as Hin by (apply in_seq; lia). specialize (Hall Hin). lia. }
      rewrite (proj2 (Z.eqb_neq (0 - _) _)), (proj2 (Z.eqb_neq 0 _)), (proj2 (Z.ltb_lt 0 _)) by lia. cbn [Z.eqb]. by rewrite Z.sgn_neg by lia.
  - destruct (Z.eqb_spec (Text.upper_to_lower x) (Text.upper_to_lower y)) as [E|E].
    + assert (y ≠ 0) as Hy0 by (intros ->; by apply Hx0, lower_zero). destruct (IH b Ha Hb) as (r & -> & Hr). exists r. split; [done|].
      unfold nocase, then_by in *. cbn [folded byte_order]. rewrite (proj2 (Z.eqb_neq x 0)), (proj2 (Z.eqb_neq y 0)) by done. rewrite E, Z.eqb_refl. cbn [length]. rewrite sgn_cmp_S, <- Hr.
      destruct (r =? 0); [|done]. f_equal. lia.
    + eexists. split; [done|]. unfold nocase, then_by. cbn [folded byte_order]. rewrite !(proj2 (Z.eqb_neq (Text.upper_to_lower x) _)) by done.
      rewrite (proj2 (Z.eqb_neq (_ - _) 0)) by lia. destruct (Z.ltb_spec (Text.upper_to_lower x) (Text.upper_to_lower y)); cbn [Z.eqb]; [by rewrite Z.sgn_neg by lia|by rewrite Z.sgn_pos by lia].
Qed.

#[export] Instance nocase_order : TotalOrder nocase.
Proof. apply then_by_order; apply _. Qed.

Lemma nocase_spec a b : is_bytes a → is_bytes b → ∃ r, nocaseCollatingFunc a b = Some r ∧ Z.sgn r = nocase a b.
Proof.
  intros Ha Hb. destruct (nocase_step a b Ha Hb) as (r & E & Hr). unfold nocaseCollatingFunc, Text.sqlite3_strnicmp. cbv zeta.
  replace (Z.to_nat (if Z.of_nat (length a) <? Z.of_nat (length b) then Z.of_nat (length a) else Z.of_nat (length b))) with (min (length a) (length b))
    by (destruct (Z.ltb_spec (Z.of_nat (length a)) (Z.of_nat (length b))); lia).
  rewrite E. cbn. eexists. split; [done|exact Hr].
Qed.

Definition rtrimmed (a b : bytes) : Z := byte_order (rtrim a) (rtrim b).

#[export] Instance rtrimmed_order : TotalOrder rtrimmed.
Proof. exact (order_by rtrim byte_order). Qed.

(** Each collation of the library is the order it stands for. *)
Lemma builtin_collates e : collates (Some (mk_coll e binCollFunc)) e byte_order ∧ collates (Some (mk_coll e rtrimCollFunc)) e rtrimmed ∧
  collates (Some (mk_coll e nocaseCollatingFunc)) e nocase ∧ collates None e byte_order.
Proof.
  repeat split; intros a b; [intros _ _; apply binary_lex|intros _ _; apply (binary_lex (rtrim a))|by apply nocase_spec].
Qed.

(** ** Properties *)

(** C28: comparing an integer with a floating-point number gives the order of
    the numbers themselves, for every 64-bit integer and every double, also
    where a double cannot hold the integer and beyond the range of integers;
    a NaN counts as less than every integer. *)
Theorem int_float_compare_exact i r : is_i64 i →
  sqlite3IntFloatCompare i r = if IsNaN r then 1 else sgn_cmp (i * SCALE) (double_value r).
Proof.
  intros Hi. destruct (IsNaN r) eqn:E; [|by apply int_float_exact]. unfold sqlite3IntFloatCompare, sqlite3IsNaN. by rewrite E.
Qed.

(** 2 to the 53 and one more: as doubles they are equal. *)
Lemma int_float_compare_exact_witness :
  double_of_int 9007199254740993 = double_of_int 9007199254740992 ∧ sqlite3IntFloatCompare 9007199254740993 (double_of_int 9007199254740992) = 1.
Proof.
  split; [vm_compute; reflexivity|]. rewrite int_float_compare_exact by (unfold is_i64; lia). vm_compute. reflexivity.
Defined.

(** C25: the comparison of cells is a total order of values under any
    collation that is one: null, then numbers by their exact value whether
    stored as integers or in floating point, then text in the order of the
    collation, then blobs byte by byte with the zeros that follow them.  It
    never reads outside the cells and uses no memory. *)
Theorem mem_compare_order pColl e cmp p1 p2 p3 m :
  TotalOrder cmp → collates pColl e cmp → comparable p1 ∧ enc p1 = e → comparable p2 ∧ enc p2 = e → comparable p3 ∧ enc p3 = e →
  ∃ c12 c21 c23 c13, sqlite3MemCompare p1 p2 pColl m = Some (c12, m) ∧ sqlite3MemCompare p2 p1 pColl m = Some (c21, m) ∧
    sqlite3MemCompare p2 p3 pColl m = Some (c23, m) ∧ sqlite3MemCompare p1 p3 pColl m = Some (c13, m) ∧
    Z.sgn c12 = compare_vals cmp (value_of p1) (value_of p2) ∧ Z.sgn c21 = - Z.sgn c12 ∧ (c12 ≤ 0 → c23 ≤ 0 → c13 ≤ 0).
Proof.
  intros Ho Hc [C1 E1] [C2 E2] [C3 E3].
  destruct (mem_compare_spec p1 p2 pColl m cmp C1 C2) as (c12 & X12 & S12); [congruence|by rewrite E1|].
  destruct (mem_compare_spec p2 p1 pColl m cmp C2 C1) as (c21 & X21 & S21); [congruence|by rewrite E2|].
  destruct (mem_compare_spec p2 p3 pColl m cmp C2 C3) as (c23 & X23 & S23); [congruence|by rewrite E2|].
  destruct (mem_compare_spec p1 p3 pColl m cmp C1 C3) as (c13 & X13 & S13); [congruence|by rewrite E1|].
  exists c12, c21, c23, c13. do 4 (split; [done|]). split; [done|]. split.
  - rewrite S21, S12. apply order_antisym.
  - pose proof (order_trans (value_of p1) (value_of p2) (value_of p3)) as T. rewrite <- S12, <- S23, <- S13 in T. lia.
Qed.

(** A big integer, a double and a text under the collation NOCASE. *)
Definition a_cell (x k f : Z) (b : bytes) : sqlite3_value := mk_value x (mem b k f SQLITE_UTF8 false).

Lemma mem_compare_order_witness : let p1 := a_cell (double_of_int 9007199254740992) 0 MEM_Real [] in
  let p2 := a_cell 9007199254740993 0 MEM_Int [] in let p3 := a_cell 0 2 MEM_Str [65; 98] in
  ∃ c, sqlite3MemCompare p1 p3 (Some (mk_coll SQLITE_UTF8 nocaseCollatingFunc)) [] = Some (c, []) ∧ c ≤ 0.
Proof.
  intros p1 p2 p3. destruct (mem_compare_order (Some (mk_coll SQLITE_UTF8 nocaseCollatingFunc)) SQLITE_UTF8 nocase p1 p2 p3 [])
    as (c12 & c21 & c23 & c13 & E12 & _ & E23 & E13 & _ & _ & H).
  - exact nocase_order.
  - apply (builtin_collates SQLITE_UTF8).
  - split; [|reflexivity]. split; [|discriminate]. split; try discriminate; [vm_compute; split; [discriminate|reflexivity]|intros _; by vm_compute].
  - split; [|reflexivity]. split; [|discriminate]. split; try discriminate; vm_compute; split; [discriminate|reflexivity].
  - split; [|reflexivity]. split; [|discriminate]. split; try discriminate; [vm_compute; split; [discriminate|reflexivity]|].
    intros _. split; [vm_compute; split; discriminate|]. apply Forall_cons_2; [unfold is_u8; lia|]. apply Forall_cons_2; [unfold is_u8; lia|constructor].
  - exists c13. split; [exact E13|]. vm_compute in E12, E23. injection E12 as <-. injection E23 as <-. by apply H.
Defined.

End Value.
