(* ===== verification/Records.v ===== *)
(** * Records ([native/sqlite3/sqlite3.c], vdbeaux.c, vdbe.c)

    Rows of tables and entries of indexes are stored as records: the size of
    a header, the types of the fields, and the fields.  The theorems show
    that a record reads back as the values it was made of, that comparing one
    with a key - by the general routine or by the two fast ones - gives the
    order of the values, and that damaged records are read within the buffer
    and its padding. *)

From S2P Require Import Prelude Varint Text Utf Value.

Module Records.

Import Varint Utf Value.

(** ** Serial types *)

(* native/sqlite3/sqlite3.c:89852-89867 sqlite3SmallTypeSizes *)
Definition sqlite3SmallTypeSizes : list Z :=
  Text.from_hex ("00010203040608080000000000000101020203030404050506060707080809090a0a0b0b0c0c0d0d0e0e0f0f1010111112121313141415151616" ++
    "171718181919" ++ "1a1a1b1b1c1c1d1d1e1e1f1f20202121222223232424252526262727282829292a2a2b2b2c2c2d2d2e2e2f2f303031313232333334343535363637373838" ++ "3939").

(* native/sqlite3/sqlite3.c:89869-89880 sqlite3VdbeSerialTypeLen *)
Definition sqlite3VdbeSerialTypeLen (serial_type : Z) : option Z :=
  if 128 <=? serial_type then Some ((serial_type - 12) `div` 2) else rd sqlite3SmallTypeSizes serial_type.

(* native/sqlite3/sqlite3.c:89881-89884 sqlite3VdbeOneByteSerialTypeLen *)
Definition sqlite3VdbeOneByteSerialTypeLen (serial_type : Z) : option Z := rd sqlite3SmallTypeSizes serial_type.

(* native/sqlite3/sqlite3.c:89940-89940 ONE_BYTE_INT *)
Definition ONE_BYTE_INT (x : bytes) : option Z := let* x0 := rd x 0 in Some (i8 x0).
(* native/sqlite3/sqlite3.c:89941-89941 TWO_BYTE_INT *)
Definition TWO_BYTE_INT (x : bytes) : option Z :=
  let* x0 := rd x 0 in let* x1 := rd x 1 in Some (Z.lor (256 * i8 x0) x1).
(* native/sqlite3/sqlite3.c:89942-89942 THREE_BYTE_INT *)
Definition THREE_BYTE_INT (x : bytes) : option Z :=
  let* x0 := rd x 0 in let* x1 := rd x 1 in let* x2 := rd x 2 in
  Some (Z.lor (Z.lor (65536 * i8 x0) (Z.shiftl x1 8)) x2).
(* native/sqlite3/sqlite3.c:89943-89943 FOUR_BYTE_UINT *)
Definition FOUR_BYTE_UINT (x : bytes) : option Z :=
  let* x0 := rd x 0 in let* x1 := rd x 1 in let* x2 := rd x 2 in let* x3 := rd x 3 in
  Some (Z.lor (Z.lor (Z.lor (u32 (Z.shiftl x0 24)) (Z.shiftl x1 16)) (Z.shiftl x2 8)) x3).
(* native/sqlite3/sqlite3.c:89944-89944 FOUR_BYTE_INT *)
Definition FOUR_BYTE_INT (x : bytes) : option Z :=
  let* x0 := rd x 0 in let* x1 := rd x 1 in let* x2 := rd x 2 in let* x3 := rd x 3 in
  Some (Z.lor (Z.lor (Z.lor (16777216 * i8 x0) (Z.shiftl x1 16)) (Z.shiftl x2 8)) x3).

(** A cell with other bits in its union, and other flags. *)
Definition set_u (p : sqlite3_value) (x f : Z) : sqlite3_value := mk_value x (mem (z p) (n p) f (enc p) (owned p)).

Definition set_int (p : sqlite3_value) (i : Z) : sqlite3_value := set_u p (u64 i) MEM_Int.

(** The lower half of the union. *)
Definition with_nZero (x k : Z) : Z := x - x `mod` 4294967296 + u32 k.

(* native/sqlite3/sqlite3.c:89955-89987 serialGet *)
Definition serialGet (buf : bytes) (serial_type : Z) (pMem : sqlite3_value) : option sqlite3_value :=
  let* x := FOUR_BYTE_UINT buf in
  let* y := FOUR_BYTE_UINT (drop 4 buf) in
  let x := u64 (u64 (Z.shiftl x 32) + y) in
  Some (if serial_type =? 6 then set_u pMem x MEM_Int else set_u pMem x (if IsNaN x then MEM_Null else MEM_Real)).

(* native/sqlite3/sqlite3.c:89990-90006 serialGet7 *)
Definition serialGet7 (buf : bytes) (pMem : sqlite3_value) : option (Z * sqlite3_value) :=
  let* x := FOUR_BYTE_UINT buf in
  let* y := FOUR_BYTE_UINT (drop 4 buf) in
  let x := u64 (u64 (Z.shiftl x 32) + y) in
  Some (if IsNaN x then (1, set_u pMem x MEM_Null) else (0, set_u pMem x MEM_Real)).

(** [buf] is the buffer from the field on. *)
(* native/sqlite3/sqlite3.c:90007-90098 sqlite3VdbeSerialGet *)
Definition sqlite3VdbeSerialGet (buf : bytes) (serial_type : Z) (pMem : sqlite3_value) : option sqlite3_value :=
  match serial_type with
  | 10 => Some (mk_value (with_nZero (u pMem) 0) (mem (z pMem) 0 (Z.lor MEM_Null MEM_Zero) (enc pMem) (owned pMem)))
  | 11 | 0 => Some (set_u pMem (u pMem) MEM_Null)
  | 1 => let* i := ONE_BYTE_INT buf in Some (set_int pMem i)
  | 2 => let* i := TWO_BYTE_INT buf in Some (set_int pMem i)
  | 3 => let* i := THREE_BYTE_INT buf in Some (set_int pMem i)
  | 4 => let* i := FOUR_BYTE_INT buf in Some (set_int pMem i)
  | 5 =>
      let* lo := FOUR_BYTE_UINT (drop 2 buf) in
      let* hi := TWO_BYTE_INT buf in
      Some (set_int pMem (lo + Z.shiftl 1 32 * hi))
  | 6 | 7 => serialGet buf serial_type pMem
  | 8 | 9 => Some (set_int pMem (serial_type - 8))
  | _ =>
      Some (mk_value (u pMem) (mem buf ((serial_type - 12) `div` 2)
        (Z.lor (if Z.land serial_type 1 =? 0 then MEM_Blob else MEM_Str) MEM_Ephem) (enc pMem) false))
  end.

(* native/sqlite3/sqlite3.c:90553-90592 vdbeRecordDecodeInt *)
Definition vdbeRecordDecodeInt (serial_type : Z) (aKey : bytes) : option Z :=
  match serial_type with
  | 0 | 1 => ONE_BYTE_INT aKey
  | 2 => TWO_BYTE_INT aKey
  | 3 => THREE_BYTE_INT aKey
  | 4 => let* y := FOUR_BYTE_UINT aKey in Some (i32 y)
  | 5 =>
      let* lo := FOUR_BYTE_UINT (drop 2 aKey) in
      let* hi := TWO_BYTE_INT aKey in
      Some (lo + Z.shiftl 1 32 * hi)
  | 6 =>
      let* x := FOUR_BYTE_UINT aKey in
      let* y := FOUR_BYTE_UINT (drop 4 aKey) in
      Some (i64 (Z.lor (u64 (Z.shiftl x 32)) y))
  | _ => Some (serial_type - 8)
  end.

(** ** Making a record *)

(** A buffer of [k] bytes at least, [fresh k]; with [bPreserve] it keeps the
    content.  The destructor of the content before is not modelled. *)
(* native/sqlite3/sqlite3.c:84070-84126 sqlite3VdbeMemGrow *)
Definition sqlite3VdbeMemGrow (pMem : sqlite3_value) (k : Z) (bPreserve : bool) (fresh : Z → bytes) (m : list bool) : Z * sqlite3_value * list bool :=
  let '(ok, m) := alloc m in
  if negb ok then (SQLITE_NOMEM, mk_value (u pMem) (mem [] (n pMem) MEM_Null (enc pMem) false), m) else
  let buf := if bPreserve then take (Z.to_nat (n pMem)) (z pMem) ++ drop (Z.to_nat (n pMem)) (fresh k) else fresh k in
  (SQLITE_OK, mk_value (u pMem) (mem buf (n pMem) (Z.ldiff (flags pMem) (Z.lor (Z.lor MEM_Dyn MEM_Ephem) MEM_Static)) (enc pMem) true), m).

(** [zMalloc] is the buffer that the cell has kept. *)
(* native/sqlite3/sqlite3.c:84128-84151 sqlite3VdbeMemClearAndResize *)
Definition sqlite3VdbeMemClearAndResize (pMem : sqlite3_value) (zMalloc : bytes) (szNew : Z) (fresh : Z → bytes) (m : list bool) : Z * sqlite3_value * list bool :=
  if Z.of_nat (length zMalloc) <? szNew then sqlite3VdbeMemGrow pMem szNew false fresh m else
  (SQLITE_OK, mk_value (u pMem)
     (mem zMalloc (n pMem) (Z.land (flags pMem) (Z.lor (Z.lor (Z.lor MEM_Null MEM_Int) MEM_Real) MEM_IntReal)) (enc pMem) true), m).

(** The zeros behind the blob become bytes of it. *)
(* native/sqlite3/sqlite3.c:84237-84262 sqlite3VdbeMemExpandBlob *)
Definition sqlite3VdbeMemExpandBlob (pMem : sqlite3_value) (fresh : Z → bytes) (m : list bool) : option (Z * sqlite3_value * list bool) :=
  let nByte := i32 (n pMem + u_nZero pMem) in
  if (nByte <=? 0) && negb (has pMem MEM_Blob) then Some (SQLITE_OK, pMem, m) else
  let nByte := if nByte <=? 0 then 1 else nByte in
  let '(rc, pMem, m) := sqlite3VdbeMemGrow pMem nByte true fresh m in
  if negb (rc =? SQLITE_OK) then Some (SQLITE_NOMEM, pMem, m) else
  let* buf := splice (z pMem) (n pMem) (replicate (Z.to_nat (u_nZero pMem)) 0) in
  Some (SQLITE_OK, mk_value (u pMem) (mem buf (n pMem + u_nZero pMem) (Z.ldiff (flags pMem) (Z.lor MEM_Zero MEM_Term)) (enc pMem) (owned pMem)), m).

(** The serial type of a field, with the sizes of header and data and the
    zeros at the end so far; the fields after it have been counted. *)
(* native/sqlite3/sqlite3.c:97859-97946 OP_MakeRecord, the type of a field *)
Definition field_type (minWriteFileFormat : Z) (fresh : Z → bytes) (pRec : sqlite3_value) (nHdr nData nZero : Z) (m : list bool)
  : option (Z * sqlite3_value * Z * Z * Z * Z * list bool) :=
  if has pRec MEM_Null then
    Some (SQLITE_OK, pRec, if has pRec MEM_Zero then 10 else 0, nHdr + 1, nData, nZero, m)
  else if has pRec (Z.lor MEM_Int MEM_IntReal) then
    let i := u_i pRec in
    let uu := u64 (if i <? 0 then Z.lnot i else i) in
    let nHdr := nHdr + 1 in
    if uu <=? 127 then
      if (Z.land i 1 =? i) && (4 <=? minWriteFileFormat) then Some (SQLITE_OK, pRec, 8 + u32 uu, nHdr, nData, nZero, m)
      else Some (SQLITE_OK, pRec, 1, nHdr, nData + 1, nZero, m)
    else if uu <=? 32767 then Some (SQLITE_OK, pRec, 2, nHdr, nData + 2, nZero, m)
    else if uu <=? 8388607 then Some (SQLITE_OK, pRec, 3, nHdr, nData + 3, nZero, m)
    else if uu <=? 2147483647 then Some (SQLITE_OK, pRec, 4, nHdr, nData + 4, nZero, m)
    else if uu <=? 140737488355327 then Some (SQLITE_OK, pRec, 5, nHdr, nData + 6, nZero, m)
    else if has pRec MEM_IntReal then
      let pRec := set_u pRec (double_of_int i) (Z.lor (Z.ldiff (flags pRec) MEM_IntReal) MEM_Real) in
      Some (SQLITE_OK, pRec, 7, nHdr, nData + 8, nZero, m)
    else Some (SQLITE_OK, pRec, 6, nHdr, nData + 8, nZero, m)
  else if has pRec MEM_Real then Some (SQLITE_OK, pRec, 7, nHdr + 1, nData + 8, nZero, m)
  else
    let len := u32 (n pRec) in
    let serial_type := u32 (len * 2 + 12 + b2z (has pRec MEM_Str)) in
    let* (rc, pRec, serial_type, len, nZero, m) :=
      if has pRec MEM_Zero then
        let serial_type := u32 (serial_type + u_nZero pRec * 2) in
        if negb (nData =? 0) then
          let* (rc, pRec', m) := sqlite3VdbeMemExpandBlob pRec fresh m in
          Some (rc, pRec', serial_type, u32 (len + u_nZero pRec), nZero, m)
        else Some (SQLITE_OK, pRec, serial_type, len, nZero + u_nZero pRec, m)
      else Some (SQLITE_OK, pRec, serial_type, len, nZero, m) in
    if negb (rc =? SQLITE_OK) then Some (rc, pRec, serial_type, nHdr, nData, nZero, m) else
    let* k := sqlite3VarintLen serial_type in
    Some (SQLITE_OK, pRec, serial_type, nHdr + k, nData + len, nZero, m).

(** The fields from the last to the first, each with its serial type. *)
(* native/sqlite3/sqlite3.c:97856-97949 OP_MakeRecord, the loop over the fields *)
Fixpoint field_types (minWriteFileFormat : Z) (fresh : Z → bytes) (l : list sqlite3_value) (m : list bool)
  : option (Z * list (sqlite3_value * Z) * Z * Z * Z * list bool) :=
  match l with
  | [] => Some (SQLITE_OK, [], 0, 0, 0, m)
  | pRec :: l =>
      let* (rc, l, nHdr, nData, nZero, m) := field_types minWriteFileFormat fresh l m in
      if negb (rc =? SQLITE_OK) then Some (rc, l, nHdr, nData, nZero, m) else
      let* (rc, pRec, t, nHdr, nData, nZero, m) := field_type minWriteFileFormat fresh pRec nHdr nData nZero m in
      Some (rc, (pRec, t) :: l, nHdr, nData, nZero, m)
  end.

(** The size of the header with the number that says it. *)
(* native/sqlite3/sqlite3.c:97957-97965 OP_MakeRecord, the size of the header *)
Definition header_size (nHdr : Z) : option Z :=
  if nHdr <=? 126 then Some (nHdr + 1) else
  let* nVarint := sqlite3VarintLen nHdr in
  let nHdr := nHdr + nVarint in
  let* k := sqlite3VarintLen nHdr in
  Some (if nVarint <? k then nHdr + 1 else nHdr).

(** The cases of the switch fall through: the [len] bytes of [v], the last
    one first. *)
(* native/sqlite3/sqlite3.c:98026-98040 OP_MakeRecord, the bytes of a number *)
Fixpoint put_number (len : nat) (buf : bytes) (zPayload v : Z) : option bytes :=
  match len with
  | O => Some buf
  | S len => let* buf := wr buf (zPayload + Z.of_nat len) (Z.land v 0xff) in put_number len buf zPayload (Z.shiftr v 8)
  end.

Definition put_varint (buf : bytes) (at_ v : Z) : option (bytes * Z) :=
  let* (tl, k) := sqlite3PutVarint (drop (Z.to_nat at_) buf) v in Some (take (Z.to_nat at_) buf ++ tl, at_ + k).

Definition put_data (buf : bytes) (zPayload : Z) (pRec : sqlite3_value) : option (bytes * Z) :=
  let* d := content pRec in
  let* buf := splice buf zPayload d in
  Some (buf, zPayload + n pRec).

(** The types go to [zHdr], the fields to [zPayload]. *)
(* native/sqlite3/sqlite3.c:98004-98061 OP_MakeRecord, writing the fields *)
Fixpoint put_fields (l : list (sqlite3_value * Z)) (buf : bytes) (zHdr zPayload : Z) : option bytes :=
  match l with
  | [] => Some buf
  | (pRec, serial_type) :: l =>
      if serial_type <=? 7 then
        let* buf := wr buf zHdr serial_type in
        let zHdr := zHdr + 1 in
        if serial_type =? 0 then put_fields l buf zHdr zPayload else
        let* len := rd sqlite3SmallTypeSizes serial_type in
        let* buf := put_number (Z.to_nat len) buf zPayload (u pRec) in
        put_fields l buf zHdr (zPayload + len)
      else if serial_type <? 0x80 then
        let* buf := wr buf zHdr serial_type in
        let zHdr := zHdr + 1 in
        let* (buf, zPayload) := if (14 <=? serial_type) && (0 <? n pRec) then put_data buf zPayload pRec else Some (buf, zPayload) in
        put_fields l buf zHdr zPayload
      else
        let* (buf, zHdr) := put_varint buf zHdr serial_type in
        let* (buf, zPayload) := if negb (n pRec =? 0) then put_data buf zPayload pRec else Some (buf, zPayload) in
        put_fields l buf zHdr zPayload
  end.

Definition SQLITE_TOOBIG : Z := 18.
Definition SQLITE_CORRUPT : Z := 11.

(** The output register, [pOut], with the buffer that it has kept. *)
(* native/sqlite3/sqlite3.c:97973-97986 OP_MakeRecord, the buffer of the record *)
Definition record_buffer (pOut : sqlite3_value) (zMalloc : bytes) (nByte nZero limit : Z) (fresh : Z → bytes) (m : list bool) : Z * sqlite3_value * list bool :=
  if nByte + nZero <=? Z.of_nat (length zMalloc) then (SQLITE_OK, mk_value (u pOut) (mem zMalloc (n pOut) (flags pOut) (enc pOut) true), m) else
  if limit <? nByte + nZero then (SQLITE_TOOBIG, pOut, m) else
  sqlite3VdbeMemClearAndResize pOut zMalloc nByte fresh m.

(** Without an affinity string: the result, the fields as the opcode leaves
    them, the output register, [old] before. *)
(* native/sqlite3/sqlite3.c:97856-98068 OP_MakeRecord *)
Definition OP_MakeRecord (minWriteFileFormat limit : Z) (l : list sqlite3_value) (old : sqlite3_value) (zMalloc : bytes) (fresh : Z → bytes) (m : list bool)
  : option (Z * list sqlite3_value * sqlite3_value * list bool) :=
  let* (rc, l, nHdr, nData, nZero, m) := field_types minWriteFileFormat fresh l m in
  if negb (rc =? SQLITE_OK) then Some (rc, map fst l, old, m) else
  let* nHdr := header_size nHdr in
  let nByte := nHdr + nData in
  let '(rc, pOut, m) := record_buffer old zMalloc nByte nZero limit fresh m in
  if negb (rc =? SQLITE_OK) then Some (rc, map fst l, pOut, m) else
  let buf := z pOut in
  let* (buf, zHdr) := if nHdr <? 0x80 then let* buf := wr buf 0 nHdr in Some (buf, 1) else put_varint buf 0 nHdr in
  let* buf := put_fields l buf zHdr nHdr in
  let pOut := mk_value (if negb (nZero =? 0) then with_nZero (u pOut) nZero else u pOut)
    (mem buf nByte (if negb (nZero =? 0) then Z.lor MEM_Blob MEM_Zero else MEM_Blob) (enc pOut) (owned pOut)) in
  Some (SQLITE_OK, map fst l, pOut, m).

(** ** Taking a record apart *)

(* native/sqlite3/sqlite3.c:19028-19036 KeyInfo *)
Record KeyInfo : Type := mk_key_info { key_enc : Z; nKeyField : Z; nAllField : Z; aSortFlags : list Z; aColl : list (option CollSeq) }.

Definition KEYINFO_ORDER_DESC : Z := 0x01.
Definition KEYINFO_ORDER_BIGNULL : Z := 0x02.

(** A union of the source, [u], holds a copy of the first value: [u_int] or
    [u_z]. *)
(* native/sqlite3/sqlite3.c:19082-19096 UnpackedRecord *)
Record UnpackedRecord : Type := mk_unpacked {
  pKeyInfo : KeyInfo; aMem : list sqlite3_value; u_int : Z; u_z : bytes; u_n : Z; nField : Z; default_rc : Z; errCode : Z; r1 : Z; r2 : Z; eqSeen : Z }.

Definition set_err (p : UnpackedRecord) (e : Z) : UnpackedRecord :=
  mk_unpacked (pKeyInfo p) (aMem p) (u_int p) (u_z p) (u_n p) (nField p) (default_rc p) e (r1 p) (r2 p) (eqSeen p).
Definition set_seen (p : UnpackedRecord) : UnpackedRecord :=
  mk_unpacked (pKeyInfo p) (aMem p) (u_int p) (u_z p) (u_n p) (nField p) (default_rc p) (errCode p) (r1 p) (r2 p) 1.
Definition set_fields (p : UnpackedRecord) (a : list sqlite3_value) (k : Z) : UnpackedRecord :=
  mk_unpacked (pKeyInfo p) a (u_int p) (u_z p) (u_n p) k 0 (errCode p) (r1 p) (r2 p) (eqSeen p).

(* native/sqlite3/sqlite3.c:84705-84723 sqlite3VdbeMemSetNull *)
Definition sqlite3VdbeMemSetNull (pMem : sqlite3_value) : sqlite3_value := set_u pMem (u pMem) MEM_Null.

(** The cells that are filled, and the rest; the offset behind the last field;
    how many. *)
(* native/sqlite3/sqlite3.c:90152-90165 sqlite3VdbeRecordUnpack, the loop *)
Fixpoint unpack_loop (e : Z) (nField : Z) (aKey : bytes) (nKey szHdr idx d u_ : Z) (cells : list sqlite3_value)
  : option (list sqlite3_value * list sqlite3_value * Z) :=
  if (idx <? szHdr) && (d <=? nKey) then
    match cells with
    | [] => None
    | pMem :: cells =>
        let* (k, serial_type) := getVarint32 (drop (Z.to_nat idx) aKey) in
        let pMem := mk_value (u pMem) (mem [] (n pMem) (flags pMem) e false) in
        let* pMem := sqlite3VdbeSerialGet (drop (Z.to_nat d) aKey) serial_type pMem in
        let* len := sqlite3VdbeSerialTypeLen serial_type in
        let d := u32 (d + len) in
        if nField <=? u_ + 1 then Some ([pMem], cells, d) else
        let* (l, cells, d) := unpack_loop e nField aKey nKey szHdr (idx + k) d (u_ + 1) cells in
        Some (pMem :: l, cells, d)
    end
  else Some ([], cells, d).

Definition set_last_null (l : list sqlite3_value) : list sqlite3_value :=
  match rev l with [] => [] | p :: l => rev (sqlite3VdbeMemSetNull p :: l) end.

(* native/sqlite3/sqlite3.c:90129-90175 sqlite3VdbeRecordUnpack *)
Definition sqlite3VdbeRecordUnpack (pKeyInfo : KeyInfo) (nKey : Z) (pKey : bytes) (p : UnpackedRecord) : option UnpackedRecord :=
  let* (idx, szHdr) := getVarint32 pKey in
  let* (l, cells, d) := unpack_loop (key_enc pKeyInfo) (nField p) pKey nKey szHdr idx szHdr 0 (aMem p) in
  let l' := if (nKey <? d) && negb (bool_decide (l = [])) then set_last_null l else l in
  Some (set_fields p (l' ++ cells) (Z.of_nat (length l))).

(** ** Comparing a record with a key *)

(** A field of the record against one of the key: its serial type, and the
    result, or [None] when the record is corrupt. *)
(* native/sqlite3/sqlite3.c:90667-90792 sqlite3VdbeRecordCompareWithSkip, the comparison of a field *)
Definition compare_field (nKey1 : Z) (aKey1 : bytes) (pKeyInfo : KeyInfo) (i idx1 d1 : Z) (pRhs : sqlite3_value) (err : Z) (m : list bool)
  : option (Z * option Z * Z * list bool) :=
  let here := drop (Z.to_nat d1) aKey1 in
  let mem1 := mk_value 0 (mem [] 0 0 0 false) in
  if has pRhs (Z.lor MEM_Int MEM_IntReal) then
    let* serial_type := rd aKey1 idx1 in
    if 10 <=? serial_type then Some (serial_type, Some (if serial_type =? 10 then -1 else 1), err, m)
    else if serial_type =? 0 then Some (serial_type, Some (-1), err, m)
    else if serial_type =? 7 then
      let* (_, mem1) := serialGet7 here mem1 in
      Some (serial_type, Some (- sqlite3IntFloatCompare (u_i pRhs) (u mem1)), err, m)
    else
      let* lhs := vdbeRecordDecodeInt serial_type here in
      let rhs := u_i pRhs in
      Some (serial_type, Some (if lhs <? rhs then -1 else if rhs <? lhs then 1 else 0), err, m)
  else if has pRhs MEM_Real then
    let* serial_type := rd aKey1 idx1 in
    if 10 <=? serial_type then Some (serial_type, Some (if serial_type =? 10 then -1 else 1), err, m)
    else if serial_type =? 0 then Some (serial_type, Some (-1), err, m)
    else if serial_type =? 7 then
      let* (nan, mem1) := serialGet7 here mem1 in
      Some (serial_type,
        Some (if negb (nan =? 0) then -1 else if double_lt (u mem1) (u pRhs) then -1 else if double_lt (u pRhs) (u mem1) then 1 else 0), err, m)
    else
      let* mem1 := sqlite3VdbeSerialGet here serial_type mem1 in
      Some (serial_type, Some (sqlite3IntFloatCompare (u_i mem1) (u pRhs)), err, m)
  else if has pRhs MEM_Str then
    let* (_, serial_type) := getVarint32 (drop (Z.to_nat idx1) aKey1) in
    if serial_type <? 12 then Some (serial_type, Some (-1), err, m)
    else if Z.land serial_type 1 =? 0 then Some (serial_type, Some 1, err, m)
    else
      let k := (serial_type - 12) `div` 2 in
      if (nKey1 <? u32 (d1 + k)) || (nAllField pKeyInfo <=? i) then Some (serial_type, None, SQLITE_CORRUPT, m) else
      let* coll := rd (aColl pKeyInfo) i in
      match coll with
      | Some pColl =>
          let* (rc, short, m) := vdbeCompareMemString (mem here k MEM_Str (key_enc pKeyInfo) false) pRhs pColl m in
          Some (serial_type, Some rc, if short : bool then SQLITE_NOMEM else err, m)
      | None =>
          let* rc := memcmp here (z pRhs) (Z.to_nat (Z.min k (n pRhs))) in
          Some (serial_type, Some (if rc =? 0 then k - n pRhs else rc), err, m)
      end
  else if has pRhs MEM_Blob then
    let* (_, serial_type) := getVarint32 (drop (Z.to_nat idx1) aKey1) in
    if (serial_type <? 12) || negb (Z.land serial_type 1 =? 0) then Some (serial_type, Some (-1), err, m)
    else
      let nStr := (serial_type - 12) `div` 2 in
      if nKey1 <? u32 (d1 + nStr) then Some (serial_type, None, SQLITE_CORRUPT, m)
      else if has pRhs MEM_Zero then
        let* zero := isAllZero here (Z.to_nat nStr) in
        Some (serial_type, Some (if negb zero then 1 else nStr - u_nZero pRhs), err, m)
      else
        let* rc := memcmp here (z pRhs) (Z.to_nat (Z.min nStr (n pRhs))) in
        Some (serial_type, Some (if rc =? 0 then nStr - n pRhs else rc), err, m)
  else
    let* serial_type := rd aKey1 idx1 in
    if (serial_type =? 0) || (serial_type =? 10) then Some (serial_type, Some 0, err, m)
    else if serial_type =? 7 then
      let* (nan, _) := serialGet7 here mem1 in
      Some (serial_type, Some (if negb (nan =? 0) then 0 else 1), err, m)
    else Some (serial_type, Some 1, err, m).

(** The direction of the sort, and where nulls go. *)
(* native/sqlite3/sqlite3.c:90795-90803 sqlite3VdbeRecordCompareWithSkip, the sort flags *)
Definition directed (sortFlags serial_type : Z) (pRhs : sqlite3_value) (rc : Z) : Z :=
  if negb (sortFlags =? 0) &&
     ((Z.land sortFlags KEYINFO_ORDER_BIGNULL =? 0) ||
      negb (Z.land sortFlags KEYINFO_ORDER_DESC =? b2z ((serial_type =? 0) || has pRhs MEM_Null)))
  then - rc else rc.

(** The result, [pPKey2] with what it was told. *)
(* native/sqlite3/sqlite3.c:90664-90834 sqlite3VdbeRecordCompareWithSkip, the loop *)
Fixpoint compare_fields (nKey1 : Z) (aKey1 : bytes) (szHdr1 : Z) (pPKey2 : UnpackedRecord) (i idx1 d1 : Z) (cells : list sqlite3_value) (m : list bool)
  : option (Z * UnpackedRecord * list bool) :=
  match cells with
  | [] => None
  | pRhs :: cells =>
      let* (serial_type, rc, err, m) := compare_field nKey1 aKey1 (pKeyInfo pPKey2) i idx1 d1 pRhs (errCode pPKey2) m in
      let pPKey2 := set_err pPKey2 err in
      match rc with
      | None => Some (0, pPKey2, m)
      | Some rc =>
          if negb (rc =? 0) then
            let* sortFlags := rd (aSortFlags (pKeyInfo pPKey2)) i in
            Some (directed sortFlags serial_type pRhs rc, pPKey2, m)
          else
            let i := i + 1 in
            if i =? nField pPKey2 then Some (default_rc pPKey2, set_seen pPKey2, m) else
            let* len := sqlite3VdbeSerialTypeLen serial_type in
            let d1 := u32 (d1 + len) in
            if nKey1 <? d1 then Some (default_rc pPKey2, set_seen pPKey2, m) else
            let* k := sqlite3VarintLen serial_type in
            let idx1 := u32 (idx1 + k) in
            if szHdr1 <=? idx1 then Some (0, set_err pPKey2 SQLITE_CORRUPT, m) else
            compare_fields nKey1 aKey1 szHdr1 pPKey2 i idx1 d1 cells m
      end
  end.

(* native/sqlite3/sqlite3.c:90594-90835 sqlite3VdbeRecordCompareWithSkip *)
Definition sqlite3VdbeRecordCompareWithSkip (nKey1 : Z) (aKey1 : bytes) (pPKey2 : UnpackedRecord) (bSkip : bool) (m : list bool)
  : option (Z * UnpackedRecord * list bool) :=
  let* (szHdr1, idx1, d1, i, cells) :=
    if bSkip then
      let* (k, s1) := getVarint32 (drop 1 aKey1) in
      let* szHdr1 := rd aKey1 0 in
      let* len := sqlite3VdbeSerialTypeLen s1 in
      let* cells := match aMem pPKey2 with [] => None | _ :: l => Some l end in
      Some (szHdr1, 1 + k, u32 (szHdr1 + len), 1, cells)
    else
      let* (idx1, szHdr1) := getVarint32 aKey1 in Some (szHdr1, idx1, szHdr1, 0, aMem pPKey2) in
  if nKey1 <? d1 then Some (0, set_err pPKey2 SQLITE_CORRUPT, m) else
  compare_fields nKey1 aKey1 szHdr1 pPKey2 i idx1 d1 cells m.

(* native/sqlite3/sqlite3.c:90836-90841 sqlite3VdbeRecordCompare *)
Definition sqlite3VdbeRecordCompare (nKey1 : Z) (aKey1 : bytes) (pPKey2 : UnpackedRecord) (m : list bool) : option (Z * UnpackedRecord * list bool) :=
  sqlite3VdbeRecordCompareWithSkip nKey1 aKey1 pPKey2 false m.

(** The integer of the first field, if it is stored as one. *)
(* native/sqlite3/sqlite3.c:90867-90919 vdbeRecordCompareInt, the switch *)
Definition first_int (serial_type : Z) (aKey : bytes) : option (option Z) :=
  let get (x : option Z) : option (option Z) := let* i := x in Some (Some i) in
  match serial_type with
  | 1 => get (ONE_BYTE_INT aKey)
  | 2 => get (TWO_BYTE_INT aKey)
  | 3 => get (THREE_BYTE_INT aKey)
  | 4 => get (let* y := FOUR_BYTE_UINT aKey in Some (i32 y))
  | 5 => get (let* lo := FOUR_BYTE_UINT (drop 2 aKey) in let* hi := TWO_BYTE_INT aKey in Some (lo + Z.shiftl 1 32 * hi))
  | 6 => get (let* x := FOUR_BYTE_UINT aKey in let* y := FOUR_BYTE_UINT (drop 4 aKey) in Some (i64 (Z.lor (u64 (Z.shiftl x 32)) y)))
  | 8 => Some (Some 0)
  | 9 => Some (Some 1)
  | _ => Some None
  end.

(* native/sqlite3/sqlite3.c:90844-90940 vdbeRecordCompareInt *)
Definition vdbeRecordCompareInt (nKey1 : Z) (pKey1 : bytes) (pPKey2 : UnpackedRecord) (m : list bool) : option (Z * UnpackedRecord * list bool) :=
  let* h := rd pKey1 0 in
  let aKey := drop (Z.to_nat (Z.land h 0x3f)) pKey1 in
  let* serial_type := rd pKey1 1 in
  let* lhs := first_int serial_type aKey in
  match lhs with
  | None => sqlite3VdbeRecordCompare nKey1 pKey1 pPKey2 m
  | Some lhs =>
      let v := u_int pPKey2 in
      if lhs <? v then Some (r1 pPKey2, pPKey2, m)
      else if v <? lhs then Some (r2 pPKey2, pPKey2, m)
      else if 1 <? nField pPKey2 then sqlite3VdbeRecordCompareWithSkip nKey1 pKey1 pPKey2 true m
      else Some (default_rc pPKey2, set_seen pPKey2, m)
  end.

(** Once the serial type is read as a number that fits. *)
(* native/sqlite3/sqlite3.c:90963-91004 vdbeRecordCompareString, from the serial type on *)
Definition compare_string (nKey1 : Z) (aKey1 : bytes) (serial_type : Z) (pPKey2 : UnpackedRecord) (m : list bool) : option (Z * UnpackedRecord * list bool) :=
  if serial_type <? 12 then Some (r1 pPKey2, pPKey2, m)
  else if Z.land serial_type 1 =? 0 then Some (r2 pPKey2, pPKey2, m)
  else
    let* szHdr := rd aKey1 0 in
    let nStr := (serial_type - 12) `div` 2 in
    if nKey1 <? szHdr + nStr then Some (0, set_err pPKey2 SQLITE_CORRUPT, m) else
    let* res := memcmp (drop (Z.to_nat szHdr) aKey1) (u_z pPKey2) (Z.to_nat (Z.min (u_n pPKey2) nStr)) in
    if 0 <? res then Some (r2 pPKey2, pPKey2, m)
    else if res <? 0 then Some (r1 pPKey2, pPKey2, m)
    else
      let res := nStr - u_n pPKey2 in
      if res =? 0 then
        if 1 <? nField pPKey2 then sqlite3VdbeRecordCompareWithSkip nKey1 aKey1 pPKey2 true m
        else Some (default_rc pPKey2, set_seen pPKey2, m)
      else if 0 <? res then Some (r2 pPKey2, pPKey2, m)
      else Some (r1 pPKey2, pPKey2, m).

(* native/sqlite3/sqlite3.c:90942-91011 vdbeRecordCompareString *)
Definition vdbeRecordCompareString (nKey1 : Z) (aKey1 : bytes) (pPKey2 : UnpackedRecord) (m : list bool) : option (Z * UnpackedRecord * list bool) :=
  let* b := rd aKey1 1 in
  let serial_type := i8 b in
  if serial_type <? 0 then
    let* (_, t) := sqlite3GetVarint32 (drop 1 aKey1) in
    compare_string nKey1 aKey1 (i32 t) pPKey2 m
  else compare_string nKey1 aKey1 serial_type pPKey2 m.

(** The three routines. *)
Inductive RecordCompare : Type := ByFields | ByInt | ByString.

Definition call (x : RecordCompare) : Z → bytes → UnpackedRecord → list bool → option (Z * UnpackedRecord * list bool) :=
  match x with ByFields => sqlite3VdbeRecordCompare | ByInt => vdbeRecordCompareInt | ByString => vdbeRecordCompareString end.

(* native/sqlite3/sqlite3.c:91013-91062 sqlite3VdbeFindCompare *)
Definition sqlite3VdbeFindCompare (p : UnpackedRecord) : option (RecordCompare * UnpackedRecord) :=
  if nAllField (pKeyInfo p) <=? 13 then
    let* p0 := rd (aMem p) 0 in
    let* s0 := rd (aSortFlags (pKeyInfo p)) 0 in
    if negb (s0 =? 0) && negb (Z.land s0 KEYINFO_ORDER_BIGNULL =? 0) then Some (ByFields, p) else
    let '(x1, x2) := if negb (s0 =? 0) then (1, -1) else (-1, 1) in
    if has p0 MEM_Int then
      Some (ByInt, mk_unpacked (pKeyInfo p) (aMem p) (u_i p0) (u_z p) (u_n p) (nField p) (default_rc p) (errCode p) x1 x2 (eqSeen p))
    else
      let* binary :=
        if has p0 (Z.lor (Z.lor (Z.lor MEM_Real MEM_IntReal) MEM_Null) MEM_Blob) then Some false
        else let* c0 := rd (aColl (pKeyInfo p)) 0 in Some (match c0 with None => true | Some _ => false end) in
      if binary : bool then
        Some (ByString, mk_unpacked (pKeyInfo p) (aMem p) (u_int p) (z p0) (n p0) (nField p) (default_rc p) (errCode p) x1 x2 (eqSeen p))
      else Some (ByFields, mk_unpacked (pKeyInfo p) (aMem p) (u_int p) (u_z p) (u_n p) (nField p) (default_rc p) (errCode p) x1 x2 (eqSeen p))
  else Some (ByFields, p).

(** ** The row at the end of an index entry *)

(** [m] is the entry; fetching it from the B-tree is a call that may fail
    with [fetch]. *)
(* native/sqlite3/sqlite3.c:91089-91135 sqlite3VdbeIdxRowid *)
Definition sqlite3VdbeIdxRowid (fetch : Z) (pCell : bytes) (m_n : Z) (rowid : Z) : option (Z * Z) :=
  if negb (fetch =? SQLITE_OK) then Some (fetch, rowid) else
  let* (_, szHdr) := getVarint32 pCell in
  if (szHdr <? 3) || (m_n <? szHdr) then Some (SQLITE_CORRUPT, rowid) else
  let* (_, typeRowid) := getVarint32 (drop (Z.to_nat (szHdr - 1)) pCell) in
  if (typeRowid <? 1) || (9 <? typeRowid) || (typeRowid =? 7) then Some (SQLITE_CORRUPT, rowid) else
  let* lenRowid := rd sqlite3SmallTypeSizes typeRowid in
  if m_n <? szHdr + lenRowid then Some (SQLITE_CORRUPT, rowid) else
  let* v := sqlite3VdbeSerialGet (drop (Z.to_nat (m_n - lenRowid)) pCell) typeRowid (mk_value 0 (mem [] 0 0 0 false)) in
  Some (SQLITE_OK, u_i v).

(* native/sqlite3/sqlite3.c:91166-91179 sqlite3VdbeIdxKeyCompare *)
Definition sqlite3VdbeIdxKeyCompare (fetch : Z) (pCell : bytes) (nCellKey : Z) (pUnpacked : UnpackedRecord) (res : Z) (m : list bool)
  : option (Z * Z * UnpackedRecord * list bool) :=
  if (nCellKey <=? 0) || (0x7fffffff <? nCellKey) then Some (SQLITE_CORRUPT, 0, pUnpacked, m) else
  if negb (fetch =? SQLITE_OK) then Some (fetch, res, pUnpacked, m) else
  let* (res, pUnpacked, m) := sqlite3VdbeRecordCompareWithSkip nCellKey pCell pUnpacked false m in
  Some (SQLITE_OK, res, pUnpacked, m).

(** ** Numbers as bytes *)

(** The [k] low bytes of a number, the highest first. *)
Fixpoint be (k : nat) (x : Z) : bytes := match k with O => [] | S k => be k (Z.shiftr x 8) ++ [Z.land x 0xff] end.

Lemma be_length k : ∀ x, length (be k x) = k.
Proof. induction k as [|k IH]; intros x; [done|]. cbn [be]. rewrite length_app, IH. cbn. lia. Qed.

Lemma be_bytes k : ∀ x, is_bytes (be k x).
Proof.
  induction k as [|k IH]; intros x; [constructor|]. cbn [be]. apply Forall_app. split; [apply IH|]. constructor; [|constructor].
  rewrite land_ff. unfold is_u8. apply Z.mod_pos_bound. lia.
Qed.

Lemma be_mod k : ∀ x y, x `mod` 256 ^ Z.of_nat k = y `mod` 256 ^ Z.of_nat k → be k x = be k y.
Proof.
  induction k as [|k IH]; intros x y H; [done|]. cbn [be]. rewrite !land_ff, !Z.shiftr_div_pow2 by lia. change (2 ^ 8) with 256.
  assert (256 ^ Z.of_nat (S k) = 256 * 256 ^ Z.of_nat k) as E by (rewrite Nat2Z.inj_succ, Z.pow_succ_r by lia; done).
  assert (0 < 256 ^ Z.of_nat k) by lia. rewrite E in H. rewrite !Z.rem_mul_r in H by lia.
  pose proof (Z.mod_pos_bound x 256 ltac:(lia)). pose proof (Z.mod_pos_bound y 256 ltac:(lia)). f_equal; [apply IH; lia|]. f_equal. lia.
Qed.

Lemma be_u64 k i : (k ≤ 8)%nat → be k (u64 i) = be k i.
Proof.
  intros Hk. apply be_mod. unfold u64. change 18446744073709551616 with (256 ^ 8).
  replace (256 ^ 8) with (256 ^ Z.of_nat k * 256 ^ (8 - Z.of_nat k)) by (rewrite <- Z.pow_add_r by lia; f_equal; lia).
  rewrite Z.rem_mul_r by lia. rewrite Z.mul_comm, Z.mod_add, Z.mod_mod by lia. done.
Qed.

Lemma put_number_spec k : ∀ a g r v, length g = k → put_number k (a ++ g ++ r) (Z.of_nat (length a)) v = Some (a ++ be k v ++ r).
Proof.
  induction k as [|k IH]; intros a g r v Hg; cbn [put_number be]; [by destruct g|].
  destruct g as [|x g _] using rev_ind; [done|]. rewrite length_app in Hg. cbn [length] in Hg.
  replace (Z.of_nat (length a) + Z.of_nat k) with (Z.of_nat (length (a ++ g))) by (rewrite length_app; lia).
  rewrite <- !(assoc_L (++)). cbn [app]. rewrite (assoc_L (++) a g (x :: r)), wr_app_r. cbn. rewrite <- (assoc_L (++)), IH by lia. done.
Qed.

(** What the macros read. *)
Lemma be1 x : be 1 x = [x `mod` 256].
Proof. cbn [be app]. by rewrite land_ff. Qed.

Lemma be_cons k x : be (S k) x = (x `div` 256 ^ Z.of_nat k) `mod` 256 :: be k x.
Proof.
  revert x. induction k as [|k IH]; intros x; [by rewrite be1, Z.div_1_r|].
  change (be (S (S k)) x) with (be (S k) (Z.shiftr x 8) ++ [Z.land x 0xff]). rewrite IH. cbn [app]. change (be (S k) x) with (be k (Z.shiftr x 8) ++ [Z.land x 0xff]). f_equal.
  rewrite Z.shiftr_div_pow2, Z.div_div by lia. f_equal. f_equal. rewrite Nat2Z.inj_succ, Z.pow_succ_r by lia. done.
Qed.

Lemma one_byte x0 r : ONE_BYTE_INT (x0 :: r) = Some (i8 x0).
Proof. done. Qed.

Lemma two_byte x0 x1 r : is_u8 x1 → TWO_BYTE_INT (x0 :: x1 :: r) = Some (i8 x0 * 256 + x1).
Proof.
  intros H. unfold TWO_BYTE_INT. cbn. f_equal. replace (256 * i8 x0) with (Z.shiftl (i8 x0) 8) by (rewrite Z.shiftl_mul_pow2; lia).
  by rewrite lor_add.
Qed.

Lemma three_byte x0 x1 x2 r : is_u8 x1 → is_u8 x2 → THREE_BYTE_INT (x0 :: x1 :: x2 :: r) = Some (i8 x0 * 65536 + x1 * 256 + x2).
Proof.
  intros H1 H2. unfold THREE_BYTE_INT. cbn. f_equal. unfold is_u8 in *. replace (Z.lor (65536 * i8 x0) (Z.shiftl x1 8)) with (Z.shiftl (i8 x0 * 256 + x1) 8).
  - rewrite lor_add by lia. lia.
  - replace (65536 * i8 x0) with (Z.shiftl (Z.shiftl (i8 x0) 8) 8) by (rewrite !Z.shiftl_mul_pow2 by lia; lia). rewrite <- Z.shiftl_lor, lor_add by lia. done.
Qed.

Lemma four_byte_uint x0 x1 x2 x3 r : is_u8 x0 → is_u8 x1 → is_u8 x2 → is_u8 x3 → FOUR_BYTE_UINT (x0 :: x1 :: x2 :: x3 :: r) = Some (x0 * 16777216 + x1 * 65536 + x2 * 256 + x3).
Proof.
  intros H0 H1 H2 H3. unfold FOUR_BYTE_UINT. cbn. f_equal. unfold is_u8 in *.
  rewrite u32_id by (unfold is_u32; rewrite Z.shiftl_mul_pow2; lia).
  replace (Z.shiftl x0 24) with (Z.shiftl (Z.shiftl x0 8) 16) by (rewrite !Z.shiftl_mul_pow2 by lia; lia). rewrite <- Z.shiftl_lor, (lor_add x0) by lia.
  replace (Z.shiftl (x0 * 2 ^ 8 + x1) 16) with (Z.shiftl (Z.shiftl (x0 * 2 ^ 8 + x1) 8) 8) by (rewrite !Z.shiftl_mul_pow2 by lia; lia).
  rewrite <- Z.shiftl_lor, (lor_add (x0 * 2 ^ 8 + x1)), lor_add by lia. lia.
Qed.

Lemma four_byte_int x0 x1 x2 x3 r : is_u8 x1 → is_u8 x2 → is_u8 x3 → FOUR_BYTE_INT (x0 :: x1 :: x2 :: x3 :: r) = Some (i8 x0 * 16777216 + x1 * 65536 + x2 * 256 + x3).
Proof.
  intros H1 H2 H3. unfold FOUR_BYTE_INT. cbn. f_equal. unfold is_u8 in *.
  replace (16777216 * i8 x0) with (Z.shiftl (Z.shiftl (i8 x0) 8) 16) by (rewrite !Z.shiftl_mul_pow2 by lia; lia). rewrite <- Z.shiftl_lor, (lor_add (i8 x0)) by lia.
  replace (Z.shiftl (i8 x0 * 2 ^ 8 + x1) 16) with (Z.shiftl (Z.shiftl (i8 x0 * 2 ^ 8 + x1) 8) 8) by (rewrite !Z.shiftl_mul_pow2 by lia; lia).
  rewrite <- Z.shiftl_lor, (lor_add (i8 x0 * 2 ^ 8 + x1)), lor_add by lia. lia.
Qed.

Lemma be2 x : be 2 x = [(x `div` 256) `mod` 256; x `mod` 256].
Proof. by rewrite be_cons, be1. Qed.
Lemma be3 x : be 3 x = [(x `div` 65536) `mod` 256; (x `div` 256) `mod` 256; x `mod` 256].
Proof. by rewrite be_cons, be2. Qed.
Lemma be4 x : be 4 x = [(x `div` 16777216) `mod` 256; (x `div` 65536) `mod` 256; (x `div` 256) `mod` 256; x `mod` 256].
Proof. by rewrite be_cons, be3. Qed.
Lemma be_split j k x : be (j + k) x = be j (x `div` 256 ^ Z.of_nat k) ++ be k x.
Proof.
  induction j as [|j IH]; [done|]. cbn [Nat.add]. rewrite !be_cons, IH. cbn [app]. f_equal. rewrite Z.div_div by lia. f_equal. f_equal.
  rewrite Nat2Z.inj_add, Z.pow_add_r by lia. lia.
Qed.

Lemma u8_mod x : is_u8 (x `mod` 256).
Proof. apply Z.mod_pos_bound. lia. Qed.
Hint Resolve u8_mod : core.

Lemma uint_be x r : FOUR_BYTE_UINT (be 4 x ++ r) = Some (u32 x).
Proof. rewrite be4. cbn [app]. rewrite four_byte_uint by done. f_equal. unfold u32. dm. Qed.

(** ** Types and fields *)

(** The integers that a serial type stands for. *)
Definition int_type (t i : Z) : Prop :=
  t = 1 ∧ -128 ≤ i < 128 ∨ t = 2 ∧ -32768 ≤ i < 32768 ∨ t = 3 ∧ -8388608 ≤ i < 8388608 ∨
  t = 4 ∧ -2147483648 ≤ i < 2147483648 ∨ t = 5 ∧ -140737488355328 ≤ i < 140737488355328 ∨ t = 6 ∧ is_i64 i ∨ t = 8 ∧ i = 0 ∨ t = 9 ∧ i = 1.

Definition size (t : Z) : Z := default 0 (sqlite3VdbeSerialTypeLen t).

Lemma size_data t : 12 ≤ t → size t = (t - 12) `div` 2.
Proof.
  intros H. unfold size, sqlite3VdbeSerialTypeLen. destruct (Z.leb_spec 128 t); [done|].
  assert (forallb (λ k, default 0 (rd sqlite3SmallTypeSizes (Z.of_nat k)) =? (Z.of_nat k - 12) `div` 2) (seq 12 116) = true) as Hall by (vm_compute; reflexivity).
  rewrite forallb_forall in Hall. specialize (Hall (Z.to_nat t)). rewrite Z2Nat.id in Hall by lia.
  apply Z.eqb_eq, Hall, in_seq. lia.
Qed.

Lemma size_some t : 0 ≤ t → sqlite3VdbeSerialTypeLen t = Some (size t) ∧ 0 ≤ size t.
Proof.
  intros H. unfold size. unfold sqlite3VdbeSerialTypeLen. destruct (Z.leb_spec 128 t); [split; [done|cbn; apply Z.div_pos; lia]|].
  assert (forallb (λ k, 0 <=? default (-1) (rd sqlite3SmallTypeSizes (Z.of_nat k))) (seq 0 128) = true) as Hall by (vm_compute; reflexivity).
  rewrite forallb_forall in Hall. specialize (Hall (Z.to_nat t)). rewrite Z2Nat.id in Hall by lia.
  assert (In (Z.to_nat t) (seq 0 128)) as Hin by (apply in_seq; lia). specialize (Hall Hin).
  destruct (rd sqlite3SmallTypeSizes t); cbn in *; [split; [done|lia]|done].
Qed.

Lemma get_int t i r p : int_type t i → sqlite3VdbeSerialGet (be (Z.to_nat (size t)) i ++ r) t p = Some (set_int p i) ∧
  vdbeRecordDecodeInt t (be (Z.to_nat (size t)) i ++ r) = Some i ∧ first_int t (be (Z.to_nat (size t)) i ++ r) = Some (Some i).
Proof.
  intros [[-> H]|[[-> H]|[[-> H]|[[-> H]|[[-> H]|[[-> H]|[[-> ->]|[-> ->]]]]]]]].
  - change (Z.to_nat (size 1)) with 1%nat. rewrite be1. cbn [app]. assert (i8 (i `mod` 256) = i) as E by (unfold i8; dm).
    unfold vdbeRecordDecodeInt, first_int. cbn [sqlite3VdbeSerialGet]. rewrite one_byte, E. done.
  - change (Z.to_nat (size 2)) with 2%nat. rewrite be2. cbn [app]. unfold vdbeRecordDecodeInt, first_int. cbn [sqlite3VdbeSerialGet]. rewrite two_byte by done.
    assert (i8 ((i `div` 256) `mod` 256) * 256 + i `mod` 256 = i) as -> by (unfold i8; dm). done.
  - change (Z.to_nat (size 3)) with 3%nat. rewrite be3. cbn [app]. unfold vdbeRecordDecodeInt, first_int. cbn [sqlite3VdbeSerialGet]. rewrite three_byte by done.
    assert (i8 ((i `div` 65536) `mod` 256) * 65536 + (i `div` 256) `mod` 256 * 256 + i `mod` 256 = i) as -> by (unfold i8; dm). done.
  - change (Z.to_nat (size 4)) with 4%nat. unfold vdbeRecordDecodeInt, first_int. cbn [sqlite3VdbeSerialGet]. rewrite uint_be.
    assert (i32 (u32 i) = i) as E by (unfold i32, u32; dm).
    assert (FOUR_BYTE_INT (be 4 i ++ r) = Some i) as ->; [|by cbn -[i32]; rewrite E].
    rewrite be4. cbn [app]. rewrite four_byte_int by done. f_equal. unfold i8. dm.
  - change (Z.to_nat (size 5)) with (2 + 4)%nat. rewrite be_split, <- (assoc_L (++)). unfold vdbeRecordDecodeInt, first_int. cbn [sqlite3VdbeSerialGet].
    change (256 ^ Z.of_nat 4) with 4294967296. rewrite drop_app_length' by done. rewrite uint_be, be2. cbn [app]. rewrite two_byte by done.
    assert (u32 i + Z.shiftl 1 32 * (i8 (((i `div` 4294967296) `div` 256) `mod` 256) * 256 + (i `div` 4294967296) `mod` 256) = i) as E
      by (change (Z.shiftl 1 32) with 4294967296; unfold i8, u32; dm). cbn -[Z.shiftl]. rewrite E. done.
  - change (Z.to_nat (size 6)) with (4 + 4)%nat. rewrite be_split, <- (assoc_L (++)). unfold vdbeRecordDecodeInt, first_int. cbn [sqlite3VdbeSerialGet]. unfold serialGet.
    change (256 ^ Z.of_nat 4) with 4294967296. rewrite drop_app_length' by done. rewrite !uint_be. cbn -[Z.shiftl u64].
    assert (u64 (Z.shiftl (u32 (i `div` 4294967296)) 32) = u32 (i `div` 4294967296) * 4294967296) as E1 by (rewrite Z.shiftl_mul_pow2 by lia; change (2 ^ 32) with 4294967296; unfold u64, u32; dm).
    assert (u64 (u32 (i `div` 4294967296) * 4294967296 + u32 i) = u64 i) as E2 by (unfold u64, u32; dm).
    assert (Z.lor (u32 (i `div` 4294967296) * 4294967296) (u32 i) = u32 (i `div` 4294967296) * 4294967296 + u32 i) as E3.
    { replace (u32 (i `div` 4294967296) * 4294967296) with (Z.shiftl (u32 (i `div` 4294967296)) 32) by (rewrite Z.shiftl_mul_pow2; lia). rewrite lor_add; [by rewrite Z.shiftl_mul_pow2|lia|apply is_u32_u32]. }
    rewrite E1, E3, E2. assert (i64 (u32 (i `div` 4294967296) * 4294967296 + u32 i) = i) as -> by (unfold i64, u32, is_i64 in *; dm). done.
  - by cbn.
  - by cbn.
Qed.

Lemma get_double x r p : is_u64 x → let q := set_u p x (if IsNaN x then MEM_Null else MEM_Real) in
  sqlite3VdbeSerialGet (be 8 x ++ r) 7 p = Some q ∧ serialGet7 (be 8 x ++ r) p = Some (b2z (IsNaN x), q).
Proof.
  intros Hx q. change 8%nat with (4 + 4)%nat. rewrite be_split, <- (assoc_L (++)). cbn [sqlite3VdbeSerialGet]. unfold serialGet, serialGet7.
  change (256 ^ Z.of_nat 4) with 4294967296. rewrite drop_app_length' by done. rewrite !uint_be. cbn -[Z.shiftl u64].
  assert (u64 (u64 (Z.shiftl (u32 (x `div` 4294967296)) 32) + u32 x) = x) as -> by (rewrite Z.shiftl_mul_pow2 by lia; change (2 ^ 32) with 4294967296; unfold u64, u32, is_u64 in *; dm).
  unfold q. by destruct (IsNaN x).
Qed.

(** ** Writing *)

(** What is written of a field. *)
Definition field_bytes (f : sqlite3_value * Z) : bytes :=
  if f.2 =? 0 then [] else if f.2 <=? 7 then be (Z.to_nat (size f.2)) (u f.1) else if f.2 <? 12 then [] else take (Z.to_nat (n f.1)) (z f.1).

Definition field_ok (f : sqlite3_value * Z) : Prop :=
  is_u32 f.2 ∧ (12 ≤ f.2 → 0 ≤ n f.1 ≤ Z.of_nat (length (z f.1)) ∧ (f.2 < 14 → n f.1 = 0)).

Definition types (l : list (sqlite3_value * Z)) : bytes := concat (map (λ f, ref_encode f.2) l).

Definition fields (l : list (sqlite3_value * Z)) : bytes := concat (map field_bytes l).

Lemma ref_len_small t : 0 ≤ t < 128 → ref_len t = 1.
Proof. intros H. unfold ref_len. by rewrite (proj2 (Z.ltb_lt _ _)) by lia. Qed.

Lemma ref_encode_small t : 0 ≤ t < 128 → ref_encode t = [t].
Proof.
  intros H. unfold ref_encode. rewrite ref_len_small by done. cbn [Z.eqb]. rewrite (land_low t 7) by done. change (2 ^ 7) with 128. rewrite Z.mod_small by lia.
  change (Z.to_nat (1 - 1)) with O. reflexivity.
Qed.

Lemma u32_u64 t : is_u32 t → is_u64 t.
Proof. unfold is_u32, is_u64. lia. Qed.

Lemma put_varint_spec h g r v : is_u64 v → Z.of_nat (length g) = ref_len v →
  put_varint (h ++ g ++ r) (Z.of_nat (length h)) v = Some (h ++ ref_encode v ++ r, Z.of_nat (length (h ++ ref_encode v))).
Proof.
  intros Hv Hg. unfold put_varint. rewrite Nat2Z.id, drop_app_length, take_app_length, put_varint_ref by (done || rewrite length_app; lia).
  cbn. rewrite drop_app_length' by lia. do 2 f_equal. rewrite length_app. pose proof (ref_encode_length v). lia.
Qed.

Lemma splice_app (a g r d : bytes) : length g = length d → splice (a ++ g ++ r) (Z.of_nat (length a)) d = Some (a ++ d ++ r).
Proof.
  intros H. unfold splice. rewrite decide_True by (rewrite !length_app; lia). rewrite Nat2Z.id, take_app_length. do 2 f_equal. f_equal.
  rewrite (assoc_L (++) a g r). apply drop_app_length'. rewrite length_app. lia.
Qed.

(** A field behind those before it. *)
Lemma put_data_spec pl q (p : sqlite3_value) : 0 ≤ n p ≤ Z.of_nat (length (z p)) → n p ≤ Z.of_nat (length q) →
  put_data (pl ++ q) (Z.of_nat (length pl)) p =
    Some (pl ++ take (Z.to_nat (n p)) (z p) ++ drop (Z.to_nat (n p)) q, Z.of_nat (length (pl ++ take (Z.to_nat (n p)) (z p)))).
Proof.
  intros Hn Hq. unfold put_data, content. rewrite sub_content by done. set (d := take (Z.to_nat (n p)) (z p)). cbn.
  assert (length d = Z.to_nat (n p)) as L by (unfold d; rewrite length_take; lia).
  rewrite <- (take_drop (Z.to_nat (n p)) q) at 1. rewrite splice_app by (rewrite length_take; lia). cbn. do 2 f_equal. rewrite length_app. lia.
Qed.

(** What a field that writes [take n z] or nothing is. *)
Lemma field_bytes_data p t : 7 < t → field_ok (p, t) → field_bytes (p, t) = if 12 <=? t then take (Z.to_nat (n p)) (z p) else [].
Proof.
  intros H7 _. unfold field_bytes. cbn [fst snd]. rewrite (proj2 (Z.eqb_neq t 0)), (proj2 (Z.leb_gt t 7)) by lia. destruct (Z.ltb_spec t 12), (Z.leb_spec 12 t); try done; lia.
Qed.

Lemma field_bytes_none p t : 7 < t → field_ok (p, t) → t < 14 ∨ n p ≤ 0 → field_bytes (p, t) = [].
Proof.
  intros H7 Hok Hn. rewrite field_bytes_data by done. destruct (Z.leb_spec 12 t) as [H12|]; [|done]. destruct Hok as [_ Hok]. destruct (Hok H12) as [Hb H14]. cbn [fst snd] in *.
  replace (Z.to_nat (n p)) with O by (destruct Hn; [rewrite H14 by done; done|lia]). done.
Qed.

(** One field: its type goes to the header, its bytes behind those before. *)
Lemma put_field_spec p t l h g1 g2 pl q : field_ok (p, t) → length g1 = length (ref_encode t) → (length (field_bytes (p, t)) ≤ length q)%nat →
  let e := ref_encode t in let d := field_bytes (p, t) in
  put_fields ((p, t) :: l) (h ++ g1 ++ g2 ++ pl ++ q) (Z.of_nat (length h)) (Z.of_nat (length (h ++ g1 ++ g2 ++ pl))) =
    put_fields l (h ++ e ++ g2 ++ pl ++ d ++ drop (length d) q) (Z.of_nat (length (h ++ e))) (Z.of_nat (length (h ++ e ++ g2 ++ pl ++ d))).
Proof.
  intros Hok L1 Hq. cbv zeta. set (e := ref_encode t) in *. set (d := field_bytes (p, t)) in *. pose proof Hok as [Ht Hd]. cbn [fst snd] in Ht, Hd.
  pose proof (ref_encode_length t) as Lt. pose proof (ref_len_bounds t) as Bt. fold e in Lt. assert (is_u64 t) as Ht64 by by apply u32_u64. unfold is_u32 in Ht.
  assert (Z.of_nat (length (h ++ g1 ++ g2 ++ pl)) = Z.of_nat (length (h ++ e ++ g2 ++ pl))) as -> by (rewrite !length_app, L1; lia).
  assert (t < 128 → Z.of_nat (length h) + 1 = Z.of_nat (length (h ++ e))) as Hh1 by (intros Hlt; rewrite length_app; rewrite ref_len_small in Lt by lia; lia).
  assert (t < 128 → ∀ r, wr (h ++ g1 ++ r) (Z.of_nat (length h)) t = Some (h ++ e ++ r)) as Hwr.
  { intros Hlt r. assert (e = [t]) as Ee by (unfold e; apply ref_encode_small; lia). rewrite Ee in L1 |- *. destruct g1 as [|x [|? ?]]; try done. apply wr_app_r. }
  assert (d = [] → h ++ e ++ g2 ++ pl ++ q = h ++ e ++ g2 ++ pl ++ d ++ drop (length d) q ∧ length (h ++ e ++ g2 ++ pl) = length (h ++ e ++ g2 ++ pl ++ d)) as Hempty by (intros ->; by rewrite app_nil_r).
  assert (12 ≤ t → put_data (h ++ e ++ g2 ++ pl ++ q) (Z.of_nat (length (h ++ e ++ g2 ++ pl))) p =
    Some (h ++ e ++ g2 ++ pl ++ d ++ drop (length d) q, Z.of_nat (length (h ++ e ++ g2 ++ pl ++ d)))) as Hpd.
  { intros H12. destruct (Hd H12) as [Hn _]. assert (d = take (Z.to_nat (n p)) (z p)) as Ed by (unfold d; rewrite field_bytes_data, (proj2 (Z.leb_le _ _)) by (done || lia); done).
    assert (length d = Z.to_nat (n p)) as Ld by (rewrite Ed, length_take; lia). pose proof (put_data_spec (h ++ e ++ g2 ++ pl) q p Hn ltac:(lia)) as E.
    rewrite <- !(assoc_L (++)) in E. by rewrite E, Ld, Ed. }
  cbn [put_fields]. destruct (Z.leb_spec t 7) as [H7|H7].
  - rewrite Hwr by lia. cbn [mbind option_bind]. rewrite Hh1 by lia. destruct (Z.eqb_spec t 0) as [E0|H0].
    { destruct Hempty as [<- <-]; [unfold d; by rewrite E0|done]. }
    destruct (size_some t ltac:(lia)) as [Es Hs]. unfold sqlite3VdbeSerialTypeLen in Es. rewrite (proj2 (Z.leb_gt _ _)) in Es by lia. rewrite Es. cbn [mbind option_bind].
    assert (d = be (Z.to_nat (size t)) (u p)) as Ed by (unfold d, field_bytes; cbn [fst snd]; rewrite (proj2 (Z.eqb_neq _ _)), (proj2 (Z.leb_le _ _)) by lia; done).
    assert (length d = Z.to_nat (size t)) as Ld by (rewrite Ed; apply be_length).
    rewrite <- (take_drop (length d) q) at 1. pose proof (put_number_spec (Z.to_nat (size t)) (h ++ e ++ g2 ++ pl) (take (length d) q) (drop (length d) q) (u p)) as E.
    rewrite <- !(assoc_L (++)) in E. rewrite E by (rewrite length_take; lia). rewrite <- Ed. cbn [mbind option_bind]. f_equal. rewrite !length_app, Ld. lia.
  - destruct (Z.ltb_spec t 128) as [H128|H128].
    + rewrite Hwr by lia. cbn [mbind option_bind]. rewrite Hh1 by lia. destruct (Z.leb_spec 14 t), (Z.ltb_spec 0 (n p)); cbn [andb mbind option_bind].
      1: by rewrite Hpd by lia.
      all: destruct Hempty as [<- <-]; [apply field_bytes_none; [lia|done|lia]|done].
    + rewrite put_varint_spec by (done || lia). fold e. cbn [mbind option_bind]. destruct (Z.eqb_spec (n p) 0) as [Hn|Hn]; cbn [negb]; [|by rewrite Hpd by lia].
      destruct Hempty as [<- <-]; [apply field_bytes_none; [lia|done|lia]|done].
Qed.

Lemma put_fields_spec l : Forall field_ok l → ∀ h g pl q, Z.of_nat (length g) = Z.of_nat (length (types l)) → (length (fields l) ≤ length q)%nat →
  put_fields l (h ++ g ++ pl ++ q) (Z.of_nat (length h)) (Z.of_nat (length (h ++ g ++ pl))) =
    Some (h ++ types l ++ pl ++ fields l ++ drop (length (fields l)) q).
Proof.
  induction 1 as [|[p t] l Hok Hl IH]; intros h g pl q Hg Hq.
  { unfold types, fields in *. cbn [map concat length app put_fields] in *. destruct g; [|cbn in Hg; lia]. by rewrite drop_0. }
  unfold types, fields in Hg, Hq |- *. cbn [map concat snd] in Hg, Hq |- *. fold (types l) in Hg |- *. fold (fields l) in Hq |- *. rewrite length_app in Hg, Hq.
  set (e := ref_encode t) in *. set (d := field_bytes (p, t)) in *. rewrite <- (take_drop (length e) g). set (g1 := take (length e) g). set (g2 := drop (length e) g).
  assert (length g1 = length e) as L1 by (unfold g1; rewrite length_take; lia). assert (Z.of_nat (length g2) = Z.of_nat (length (types l))) as L2 by (unfold g2; rewrite length_drop; lia).
  rewrite <- !(assoc_L (++)), put_field_spec by (done || (fold d; lia)). fold e d. specialize (IH (h ++ e) g2 (pl ++ d) (drop (length d) q) L2).
  rewrite <- !(assoc_L (++)) in IH. rewrite IH by (rewrite length_drop; lia). by rewrite drop_drop, length_app.
Qed.

(** ** Fields as they are stored *)

(** Bytes as a number, the highest first: without a sign, and with one. *)
Fixpoint unsigned (b : bytes) : Z := match b with [] => 0 | x :: b => x * 256 ^ Z.of_nat (length b) + unsigned b end.

Definition signed (b : bytes) : Z := match b with [] => 0 | x :: b => i8 x * 256 ^ Z.of_nat (length b) + unsigned b end.

Lemma pow256_S k : 256 ^ Z.of_nat (S k) = 256 * 256 ^ Z.of_nat k.
Proof. by rewrite Nat2Z.inj_succ, Z.pow_succ_r by lia. Qed.

Lemma unsigned_bound b : is_bytes b → 0 ≤ unsigned b < 256 ^ Z.of_nat (length b).
Proof.
  induction 1 as [|x b Hx Hb IH]; [done|]. cbn [length unsigned]. rewrite pow256_S. unfold is_u8 in Hx. nia.
Qed.

Lemma signed_bound x b : is_bytes (x :: b) → -128 * 256 ^ Z.of_nat (length b) ≤ signed (x :: b) < 128 * 256 ^ Z.of_nat (length b).
Proof.
  intros [Hx Hb]%Forall_cons. pose proof (unsigned_bound b Hb). cbn [signed]. assert (-128 ≤ i8 x < 128) by (unfold i8, is_u8 in *; dm). nia.
Qed.

Lemma be_unsigned b : is_bytes b → be (length b) (unsigned b) = b.
Proof.
  induction 1 as [|x b Hx Hb IH]; [done|]. cbn [length unsigned]. rewrite be_cons. pose proof (unsigned_bound b Hb). unfold is_u8 in Hx. f_equal.
  - rewrite Z.div_add_l, (Z.div_small (unsigned b)), Z.add_0_r, Z.mod_small by lia. done.
  - etransitivity; [|exact IH]. apply be_mod. by rewrite Z.add_comm, Z.mod_add by lia.
Qed.

Lemma be_signed b : is_bytes b → be (length b) (signed b) = b.
Proof.
  intros Hb. etransitivity; [|exact (be_unsigned b Hb)]. destruct b as [|x b]; [done|]. apply be_mod. apply Forall_cons in Hb as [Hx _].
  cbn [signed unsigned length]. rewrite pow256_S. set (q := 256 ^ Z.of_nat (length b)). assert (0 < q) by lia.
  assert (∃ c, i8 x = x + c * 256) as [c ->] by (unfold i8, is_u8 in *; destruct (Z.ltb_spec x 128); [exists 0|exists (-1)]; dm).
  replace ((x + c * 256) * q + unsigned b) with (x * q + unsigned b + c * (256 * q)) by lia. by rewrite Z.mod_add by lia.
Qed.

Lemma unsigned_be k x : unsigned (be k x) = x `mod` 256 ^ Z.of_nat k.
Proof.
  induction k as [|k IH]; [by rewrite Z.mod_1_r|]. rewrite be_cons. cbn [unsigned]. rewrite be_length, IH, pow256_S, (Z.mul_comm 256), Z.rem_mul_r by lia. lia.
Qed.

Lemma signed_be k i : -128 * 256 ^ Z.of_nat k ≤ i < 128 * 256 ^ Z.of_nat k → signed (be (S k) i) = i.
Proof.
  intros H. rewrite be_cons. cbn [signed]. rewrite be_length, unsigned_be. set (q := 256 ^ Z.of_nat k) in *. assert (0 < q) by lia.
  assert (-128 ≤ i `div` q) by (apply Z.div_le_lower_bound; lia). assert (i `div` q < 128) by (apply Z.div_lt_upper_bound; lia).
  assert (i8 ((i `div` q) `mod` 256) = i `div` q) as -> by (unfold i8; dm). pose proof (Z.div_mod i q). lia.
Qed.

(** A field: its serial type and its bytes. *)
Definition raw : Type := Z * bytes.

Definition raw_ok (f : raw) : Prop := is_u32 f.1 ∧ Z.of_nat (length f.2) = size f.1 ∧ is_bytes f.2.

(** What the format says a field stands for. *)
Definition field_val (f : raw) : val :=
  let '(t, b) := f in
  if (t =? 0) || (t =? 10) || (t =? 11) then Null else
  if t =? 7 then if IsNaN (unsigned b) then Null else Real (unsigned b) else
  if t =? 8 then Integer 0 else if t =? 9 then Integer 1 else
  if t <? 7 then Integer (signed b) else
  if Z.even t then Blob b else Text b.

Definition is_int (t : Z) : bool := (1 <=? t) && (t <=? 6) || (t =? 8) || (t =? 9).

Definition int_of (f : raw) : Z := match field_val f with Integer i => i | _ => 0 end.

Lemma raw_int f : raw_ok f → is_int f.1 = true → field_val f = Integer (int_of f) ∧ int_type f.1 (int_of f) ∧ f.2 = be (Z.to_nat (size f.1)) (int_of f) ∧ is_i64 (int_of f).
Proof.
  destruct f as [t b]. intros (Ht & Hl & Hb) Hi. cbn [fst snd] in *.
  assert (t = 1 ∨ t = 2 ∨ t = 3 ∨ t = 4 ∨ t = 5 ∨ t = 6 ∨ t = 8 ∨ t = 9) as Hc by (unfold is_int in Hi; lia).
  pose proof (be_signed b Hb) as E. rewrite <- Hl, Nat2Z.id.
  destruct Hc as [->|[->|[->|[->|[->|[->|[->| ->]]]]]]]; unfold int_of; cbn [field_val Z.eqb orb Z.ltb Z.compare Pos.compare Pos.compare_cont Pos.eqb];
    match type of Hl with _ = size ?t => let s := eval vm_compute in (size t) in change (size t) with s in Hl end;
    try (destruct b as [|x b]; [done|]; pose proof (signed_bound x b Hb) as B; cbn [length] in Hl;
      match type of Hl with _ = ?s => replace (Z.of_nat (length b)) with (s - 1) in B by lia end; split_and!; [done|unfold int_type, is_i64; lia|done|unfold is_i64; lia]).
  all: destruct b; [|cbn in Hl; lia]; split_and!; [done|unfold int_type; lia|done|unfold is_i64; lia].
Qed.

(** *** Reading a field *)

Lemma even_test t : (Z.land t 1 =? 0) = Z.even t.
Proof. rewrite (land_low _ 1) by done. change (2 ^ 1) with 2. by rewrite Zeven_mod. Qed.

Lemma serial_get_data t buf p : 12 ≤ t → sqlite3VdbeSerialGet buf t p =
  Some (mk_value (u p) (mem buf ((t - 12) `div` 2) (Z.lor (if Z.even t then MEM_Blob else MEM_Str) MEM_Ephem) (enc p) false)).
Proof.
  intros H. rewrite <- even_test.
  destruct t as [|t|t]; [lia| |lia]. do 4 (destruct t as [t|t|]; try lia; try reflexivity).
Qed.

Lemma u64_bound x : is_u64 (u64 x).
Proof. unfold u64, is_u64. dm. Qed.

Lemma i64_u64 i : is_i64 i → i64 (u64 i) = i.
Proof. unfold is_i64, i64, u64. dm. Qed.

Lemma int_cell i p : is_i64 i → value_of (set_int p i) = Integer i ∧ value_ok (set_int p i).
Proof.
  intros Hi. split; [unfold value_of, u_i; cbn -[i64 u64]; by rewrite i64_u64|]. split; try done. apply u64_bound.
Qed.

Lemma null_cell x p : is_u64 x → value_of (set_u p x MEM_Null) = Null ∧ value_ok (set_u p x MEM_Null).
Proof. intros Hx. split; [done|]. by split. Qed.

Lemma real_cell x p : is_u64 x → let q := set_u p x (if IsNaN x then MEM_Null else MEM_Real) in
  value_of q = (if IsNaN x then Null else Real x) ∧ value_ok q.
Proof. intros Hx. cbv zeta. destruct (IsNaN x) eqn:E; [by apply null_cell|]. split; [done|]. by split. Qed.

Lemma field_small f : raw_ok f → f.1 < 12 → is_int f.1 = true ∨ f.1 = 7 ∧ length f.2 = 8%nat ∨ (f.1 = 0 ∨ f.1 = 10 ∨ f.1 = 11) ∧ f.2 = [] ∧ field_val f = Null.
Proof.
  destruct f as [t b]. intros (Ht & Hl & Hb) H. cbn [fst snd] in *. unfold is_u32 in Ht. unfold is_int.
  assert (t = 7 ∨ t = 0 ∨ t = 10 ∨ t = 11 ∨ (1 ≤ t ≤ 6 ∨ t = 8 ∨ t = 9)) as [->|[->|[->|[->|Hc]]]] by lia; [right; left|do 2 right..|left; lia].
  - change (size 7) with 8 in Hl. lia.
  - change (size 0) with 0 in Hl. destruct b; [auto|cbn in Hl; lia].
  - change (size 10) with 0 in Hl. destruct b; [auto|cbn in Hl; lia].
  - change (size 11) with 0 in Hl. destruct b; [auto|cbn in Hl; lia].
Qed.

Lemma field_data f : raw_ok f → 12 ≤ f.1 → Z.of_nat (length f.2) = (f.1 - 12) `div` 2 ∧ field_val f = if Z.even f.1 then Blob f.2 else Text f.2.
Proof.
  destruct f as [t b]. intros (Ht & Hl & Hb) H. cbn [fst snd] in *. split; [by rewrite <- size_data|]. unfold field_val.
  by rewrite !(proj2 (Z.eqb_neq t _)), (proj2 (Z.ltb_ge t 7)) by lia.
Qed.

Lemma field_real f : raw_ok f → f.1 = 7 → f.2 = be 8 (unsigned f.2) ∧ is_u64 (unsigned f.2) ∧ field_val f = if IsNaN (unsigned f.2) then Null else Real (unsigned f.2).
Proof.
  destruct f as [t b]. intros (Ht & Hl & Hb) H. cbn [fst snd] in *. subst t. change (size 7) with 8 in Hl.
  pose proof (be_unsigned b Hb) as E. pose proof (unsigned_bound b Hb) as B. rewrite Hl in B. replace (length b) with 8%nat in E by lia. done.
Qed.

(** Every field reads back as what it stands for. *)
Lemma get_field f r p : raw_ok f → is_bytes r → is_u64 (u p) →
  ∃ q, sqlite3VdbeSerialGet (f.2 ++ r) f.1 p = Some q ∧ value_of q = field_val f ∧ value_ok q.
Proof.
  intros Hf Hr Hp. destruct (Z.lt_ge_cases f.1 12) as [Hlt|Hge].
  - destruct (field_small f Hf Hlt) as [Hi|[[E7 _]|(E0 & _ & Ev)]].
    + destruct (raw_int f Hf Hi) as (Ev & Ht & Eb & H64). rewrite Eb. rewrite (proj1 (get_int _ _ r p Ht)), Ev. eexists. split; [done|by apply int_cell].
    + destruct (field_real f Hf E7) as (Eb & Hu & Ev). rewrite Eb, E7, (proj1 (get_double _ r p Hu)), Ev. eexists. split; [done|by apply real_cell].
    + rewrite Ev. destruct E0 as [->|[->| ->]]; (eexists; split; [reflexivity|]); [by apply null_cell| |by apply null_cell].
      split; [done|]. split; try done. cbn [u]. unfold with_nZero, u32, is_u64 in *. dm.
  - destruct (field_data f Hf Hge) as (El & Ev). destruct Hf as (Ht & _ & Hb). rewrite serial_get_data, Ev, <- El by lia. eexists. split; [done|].
    assert (take (length f.2) (f.2 ++ r) = f.2) as Et by apply take_app_length. split.
    + destruct (Z.even f.1); unfold value_of, zeros, has; cbn -[Z.of_nat Z.to_nat]; rewrite Nat2Z.id, Et; [by rewrite app_nil_r|done].
    + split; try done; [|destruct (Z.even f.1); done|destruct (Z.even f.1); done]. intros _. cbn. rewrite length_app. split; [lia|]. by apply Forall_app.
Qed.

(** ** Records *)

Definition hdr (fs : list raw) : bytes := concat (map (λ f, ref_encode f.1) fs).

Definition body (fs : list raw) : bytes := concat (map snd fs).

(** The size of the header, which counts itself, the types, the fields. *)
Definition layout (fs : list raw) (R : bytes) : Prop :=
  ∃ H, H = ref_len H + Z.of_nat (length (hdr fs)) ∧ R = ref_encode H ++ hdr fs ++ body fs ∧ Forall raw_ok fs.

Definition record_of (fs : list raw) (R : bytes) : Prop := layout fs R ∧ Z.of_nat (length R) < 2147483648.

(** The two places in a record that a routine has come to: of the next type,
    and of the next field. *)
Record at_field (buf : bytes) (nKey szHdr idx d : Z) (fs : list raw) : Prop := {
  at_split : ∃ A B pad, buf = A ++ hdr fs ++ B ++ body fs ++ pad ∧ idx = Z.of_nat (length A) ∧
    szHdr = idx + Z.of_nat (length (hdr fs)) ∧ d = szHdr + Z.of_nat (length B) ∧ nKey = d + Z.of_nat (length (body fs));
  at_raw : Forall raw_ok fs;
  at_bytes : is_bytes buf;
  at_max : nKey < 2147483648
}.

Lemma varint_get v l : is_u32 v → is_bytes l → getVarint32 (ref_encode v ++ l) = Some (ref_len v, v).
Proof.
  intros Hv Hl. pose proof (u32_u64 v Hv) as H64. unfold is_u32 in Hv. rewrite (getvarint32_clamps _ (ref_len v) v).
  - rewrite Z.min_l by lia. done.
  - apply Forall_app. split; [by apply ref_encode_bytes|done].
  - by apply get_encode.
Qed.

Lemma types_bytes fs : Forall raw_ok fs → is_bytes (hdr fs).
Proof. induction 1 as [|f fs [Hf _] _ IH]; [constructor|]. apply Forall_app. split; [|done]. apply ref_encode_bytes. by apply u32_u64. Qed.

Lemma body_bytes fs : Forall raw_ok fs → is_bytes (body fs).
Proof. induction 1 as [|f fs (_ & _ & Hf) _ IH]; [constructor|]. apply Forall_app. by split. Qed.

Lemma body_length f fs : raw_ok f → Z.of_nat (length (body (f :: fs))) = size f.1 + Z.of_nat (length (body fs)).
Proof. intros (_ & L & _). unfold body. cbn [map concat]. rewrite length_app. fold (body fs). lia. Qed.

Lemma at_start fs R pad : record_of fs R → is_bytes pad →
  ∃ H, getVarint32 (R ++ pad) = Some (ref_len H, H) ∧ is_u32 H ∧ at_field (R ++ pad) (Z.of_nat (length R)) H (ref_len H) H fs ∧
    drop (Z.to_nat (ref_len H)) (R ++ pad) = hdr fs ++ body fs ++ pad ∧ H ≤ Z.of_nat (length R).
Proof.
  intros [(H & EH & -> & Hf) HR] Hp. exists H. pose proof (ref_encode_length H) as L. pose proof (ref_len_bounds H). rewrite !length_app in HR |- *.
  assert (is_u32 H) as Hu by (unfold is_u32; lia). pose proof (types_bytes fs Hf). pose proof (body_bytes fs Hf).
  assert (is_bytes (hdr fs ++ body fs ++ pad)) as Hb by (by repeat apply Forall_app_2). rewrite <- !(assoc_L (++)). split_and!; [by apply varint_get|done| | |lia].
  - split; [|done| |lia].
    + exists (ref_encode H), [], pad. split; [done|]. cbn [length]. lia.
    + apply Forall_app_2; [apply ref_encode_bytes; by apply u32_u64|done].
  - apply drop_app_length'. lia.
Qed.

Lemma at_nil buf nKey szHdr idx d : at_field buf nKey szHdr idx d [] → idx = szHdr ∧ d = nKey.
Proof. intros [(A & B & pad & _ & -> & -> & -> & ->) _ _ _]. cbn. lia. Qed.

(** A type of one byte is that byte; the first byte of any other says so. *)
Lemma type_byte t : is_u32 t → ∃ x l, ref_encode t = x :: l ∧ is_u8 x ∧ (t < 128 → x = t) ∧ (128 ≤ t → 128 ≤ x).
Proof.
  intros Ht. destruct (Z.lt_ge_cases t 128) as [Hs|Hb]; [exists t, []; rewrite ref_encode_small by (unfold is_u32 in Ht; lia); unfold is_u8, is_u32 in *; split_and!; [done|lia..]|].
  pose proof (ref_encode_bytes t (u32_u64 t Ht)) as B. pose proof (varint_get t [] Ht ltac:(constructor)) as G. rewrite app_nil_r in G.
  destruct (ref_encode t) as [|x l]; [done|]. apply Forall_cons in B as [Hx _]. exists x, l. split_and!; [done|done|lia|]. intros _.
  destruct (Z.lt_ge_cases x 128) as [Hlt|]; [|done]. unfold getVarint32 in G. cbn [rd] in G. change (rd (x :: l) 0) with (Some x) in G. cbn in G.
  rewrite (proj2 (Z.ltb_lt _ _)) in G by done. injection G as _ ->. lia.
Qed.

Lemma at_cons buf nKey szHdr idx d f fs : at_field buf nKey szHdr idx d (f :: fs) →
  raw_ok f ∧ 0 ≤ idx < szHdr ∧ szHdr ≤ d ∧ getVarint32 (drop (Z.to_nat idx) buf) = Some (ref_len f.1, f.1) ∧
  (∃ x, rd buf idx = Some x ∧ is_u8 x ∧ (f.1 < 128 → x = f.1) ∧ (128 ≤ f.1 → 128 ≤ x)) ∧
  (∃ r, drop (Z.to_nat d) buf = f.2 ++ r ∧ is_bytes r) ∧ 0 ≤ size f.1 ∧ d + size f.1 ≤ nKey ∧
  at_field buf nKey szHdr (idx + ref_len f.1) (d + size f.1) fs.
Proof.
  intros [(A & B & pad & Eb & Ei & Eh & Ed & En) Hf Hb Hm]. apply Forall_cons in Hf as [Hf Hfs]. pose proof Hf as (Ht & Hl & Hr).
  rewrite body_length in En by done. unfold hdr, body in Eb, Eh. cbn [map concat] in Eb, Eh. fold (hdr fs) in Eb, Eh. fold (body fs) in Eb.
  rewrite length_app in Eh. pose proof (ref_encode_length f.1) as Le. pose proof (ref_len_bounds f.1) as Be.
  assert (0 ≤ size f.1) by (apply size_some; unfold is_u32 in Ht; lia).
  assert (drop (Z.to_nat idx) buf = ref_encode f.1 ++ hdr fs ++ B ++ f.2 ++ body fs ++ pad) as E1.
  { rewrite Eb, <- !(assoc_L (++)). apply drop_app_length'. lia. }
  assert (drop (Z.to_nat d) buf = f.2 ++ body fs ++ pad) as E2.
  { replace buf with ((A ++ (ref_encode f.1 ++ hdr fs) ++ B) ++ f.2 ++ body fs ++ pad) by (rewrite Eb, <- !(assoc_L (++)); done). apply drop_app_length'. rewrite !length_app. lia. }
  assert (∀ k, is_bytes (drop k buf)) as Hd by (intros k; by apply Forall_drop).
  split_and!; try lia; [done| | | |].
  - rewrite E1. apply varint_get; [done|]. specialize (Hd (Z.to_nat idx)). rewrite E1 in Hd. by apply Forall_app in Hd as [_ Hd].
  - destruct (type_byte f.1 Ht) as (x & l & Ex & Hx). exists x. split; [|done].
    unfold rd. rewrite decide_True by lia. rewrite <- (Nat.add_0_r (Z.to_nat idx)), <- lookup_drop, E1, Ex. done.
  - exists (body fs ++ pad). split; [done|]. specialize (Hd (Z.to_nat d)). rewrite E2 in Hd. by apply Forall_app in Hd as [_ Hd].
  - split; try done. exists (A ++ ref_encode f.1), (B ++ f.2), pad. rewrite !length_app, <- !(assoc_L (++)). split; [by rewrite Eb, <- !(assoc_L (++))|]. lia.
Qed.

(** *** Unpacking *)

Lemma unpack_loop_eq e nField aKey nKey szHdr idx d u_ cells :
  unpack_loop e nField aKey nKey szHdr idx d u_ cells =
  if (idx <? szHdr) && (d <=? nKey) then
    match cells with
    | [] => None
    | pMem :: cells =>
        let* (k, serial_type) := getVarint32 (drop (Z.to_nat idx) aKey) in
        let* pMem := sqlite3VdbeSerialGet (drop (Z.to_nat d) aKey) serial_type (mk_value (u pMem) (mem [] (n pMem) (flags pMem) e false)) in
        let* len := sqlite3VdbeSerialTypeLen serial_type in
        let d := u32 (d + len) in
        if nField <=? u_ + 1 then Some ([pMem], cells, d) else
        let* (l, cells, d) := unpack_loop e nField aKey nKey szHdr (idx + k) d (u_ + 1) cells in
        Some (pMem :: l, cells, d)
    end
  else Some ([], cells, d).
Proof. by destruct cells. Qed.

Definition cells_ok (cells : list sqlite3_value) : Prop := Forall (λ p, is_u64 (u p)) cells.

Lemma unpack_loop_spec e nField aKey nKey szHdr fs : ∀ idx d u_ cells, at_field aKey nKey szHdr idx d fs →
  0 ≤ u_ < nField → nField - u_ ≤ Z.of_nat (length cells) → cells_ok cells →
  ∃ l d', unpack_loop e nField aKey nKey szHdr idx d u_ cells = Some (l, drop (length l) cells, d') ∧
    map value_of l = take (Z.to_nat (nField - u_)) (map field_val fs) ∧ Forall value_ok l ∧ d' ≤ nKey.
Proof.
  induction fs as [|f fs IH]; intros idx d u_ cells Hat Hu Hc Hok; rewrite unpack_loop_eq.
  { destruct (at_nil _ _ _ _ _ Hat) as [-> ->]. rewrite (proj2 (Z.ltb_ge _ _)) by lia. exists [], nKey. cbn. by rewrite take_nil. }
  destruct (at_cons _ _ _ _ _ _ _ Hat) as (Hf & Hi & Hd & Ev & _ & (r & Er & Hr) & Hs & Hle & Hat'). pose proof (at_max _ _ _ _ _ _ Hat) as Hm.
  rewrite (proj2 (Z.ltb_lt _ _)), (proj2 (Z.leb_le _ _)) by lia. cbn [andb]. destruct cells as [|pMem cells]; [cbn in Hc; lia|].
  apply Forall_cons in Hok as [Hp Hok]. rewrite Ev. cbn. rewrite Er. destruct (get_field f r (mk_value (u pMem) (mem [] (n pMem) (flags pMem) e false)) Hf Hr Hp) as (q & -> & Eq & Hq).
  cbn. destruct Hf as (Ht & _). rewrite (proj1 (size_some f.1 (proj1 Ht))). cbn. rewrite u32_id by (unfold is_u32; lia).
  replace (Z.to_nat (nField - u_)) with (S (Z.to_nat (nField - (u_ + 1)))) by lia. cbn [map take].
  destruct (Z.leb_spec nField (u_ + 1)) as [Hlast|Hmore].
  - eexists [q], _. split; [done|]. replace (Z.to_nat (nField - (u_ + 1))) with O by lia. cbn [map take]. rewrite Eq. split; [done|]. split; [by constructor|lia].
  - cbn [length] in Hc. destruct (IH _ _ (u_ + 1) cells Hat') as (l & d' & -> & El & Hl & Hd'); [lia|lia|done|]. cbn. exists (q :: l), d'. split; [done|].
    cbn [map]. rewrite Eq, El. split; [done|]. split; [by constructor|done].
Qed.

Lemma unpack_spec ki fs R pad p : record_of fs R → is_bytes pad → 1 ≤ nField p ≤ Z.of_nat (length (aMem p)) → cells_ok (aMem p) →
  ∃ p', sqlite3VdbeRecordUnpack ki (Z.of_nat (length R)) (R ++ pad) p = Some p' ∧ let l := take (Z.to_nat (nField p')) (aMem p') in
    map value_of l = take (Z.to_nat (nField p)) (map field_val fs) ∧ nField p' = Z.min (nField p) (Z.of_nat (length fs)) ∧ Forall value_ok l ∧
    drop (Z.to_nat (nField p')) (aMem p') = drop (Z.to_nat (nField p')) (aMem p).
Proof.
  intros HR Hp Hn Hok. destruct (at_start fs R pad HR Hp) as (H & EH & _ & Hat & _). unfold sqlite3VdbeRecordUnpack. rewrite EH. cbn.
  destruct (unpack_loop_spec (key_enc ki) (nField p) _ _ _ fs _ _ 0 (aMem p) Hat) as (l & d' & -> & El & Hl & Hd); [lia..|done|]. cbn. rewrite Z.sub_0_r in El.
  rewrite (proj2 (Z.ltb_ge _ _)) by lia. cbn [andb]. eexists. split; [done|]. cbv zeta. unfold set_fields. cbn [nField aMem]. rewrite Nat2Z.id, take_app_length, drop_app_length.
  split_and!; try done. apply (f_equal length) in El. rewrite length_take, !length_map in El. lia.
Qed.

(** *** The fields of a new record *)

(** What a record keeps of a value: an integer of a column of type REAL that
    does not fit six bytes is kept in floating point. *)
Definition stored (p : sqlite3_value) : val :=
  if negb (has p MEM_Null) && has p MEM_IntReal && (140737488355327 <? Z.max (u_i p) (-1 - u_i p)) then Real (double_of_int (u_i p)) else value_of p.

(** Text and blobs are within the limit of the library, zeros included. *)
Definition fits (p : sqlite3_value) : Prop := has p MEM_Null = false → is_number p = false → Z.of_nat (length (data p)) ≤ 1000000000.

Lemma raw_of_int t i : int_type t i → let f := (t, be (Z.to_nat (size t)) i) in raw_ok f ∧ field_val f = Integer i.
Proof.
  intros H. cbv zeta. assert (0 ≤ t < 12) as Ht by (unfold int_type in H; lia). split.
  - split; [unfold is_u32; cbn; lia|]. split; [|apply be_bytes]. cbn [fst snd]. rewrite be_length. pose proof (size_some t ltac:(lia)). lia.
  - destruct H as [[-> H]|[[-> H]|[[-> H]|[[-> H]|[[-> H]|[[-> H]|[[-> ->]|[-> ->]]]]]]]]; try done;
      match goal with |- context [size ?t] => let s := eval vm_compute in (Z.to_nat (size t)) in change (Z.to_nat (size t)) with s end;
      unfold field_val; cbn [Z.eqb orb Z.ltb Z.compare Pos.compare Pos.compare_cont Pos.eqb]; rewrite signed_be by (unfold is_i64 in *; cbn; lia); done.
Qed.

Lemma raw_of_real x : is_u64 x → IsNaN x = false → let f := (7, be 8 x) in raw_ok f ∧ field_val f = Real x.
Proof.
  intros Hx Hn. cbv zeta. split; [split; [done|]; split; [cbn [fst snd]; by rewrite be_length|apply be_bytes]|]. unfold field_val. cbn [Z.eqb orb Pos.eqb].
  rewrite unsigned_be, Z.mod_small by exact Hx. by rewrite Hn.
Qed.

Lemma double_of_int_u64 i : Z.abs i < 2 ^ 64 → is_u64 (double_of_int i).
Proof.
  intros Hi. unfold double_of_int. destruct (Z.eqb_spec i 0) as [->|Hne]; [done|]. cbv zeta. pose proof (round53_bounds (Z.abs i) ltac:(lia)).
  assert (0 ≤ Z.log2 (Z.abs i) < 64) as Hl by (split; [apply Z.log2_nonneg|apply Z.log2_lt_pow2; lia]). unfold is_u64. destruct (i <? 0); lia.
Qed.

Lemma raw_of_data p : value_ok p → fits p → has p MEM_Null = false → is_number p = false →
  let t := Z.of_nat (length (data p)) * 2 + 12 + b2z (has p MEM_Str) in raw_ok (t, data p) ∧ field_val (t, data p) = value_of p ∧ 12 ≤ t < 4294967296.
Proof.
  intros Hv Hfit N I. specialize (Hfit N I). cbv zeta. set (L := Z.of_nat (length (data p))) in *. assert (0 ≤ b2z (has p MEM_Str) ≤ 1) by (destruct (has p MEM_Str); cbn; lia).
  set (t := L * 2 + 12 + b2z (has p MEM_Str)). assert (is_u32 t) as Ht by (unfold is_u32, t; lia). assert ((t - 12) `div` 2 = L) as Es by (unfold t; dm).
  assert (raw_ok (t, data p)) as Hr.
  { split; [done|]. cbn [fst snd]. rewrite size_data by (unfold t; lia). split; [done|]. apply Forall_app_2; [apply Forall_take; by apply data_content|].
    apply Forall_replicate. by unfold is_u8. }
  split; [done|]. split; [|unfold is_u32 in Ht; unfold t in *; lia]. destruct (field_data _ Hr) as [_ ->]; [cbn; unfold t; lia|]. cbn [fst snd].
  rewrite is_number_parts in I. apply orb_false_iff in I as [I1 I2]. unfold value_of. rewrite N, I1, I2.
  assert (Z.even t = negb (has p MEM_Str)) as ->.
  { unfold t. replace (L * 2 + 12 + b2z (has p MEM_Str)) with (b2z (has p MEM_Str) + 2 * (L + 6)) by lia. rewrite Z.even_add_mul_2. by destruct (has p MEM_Str). }
  destruct (has p MEM_Str) eqn:S; [|done]. cbn [negb]. f_equal. unfold data, zeros. destruct (has p MEM_Zero) eqn:E; [|by rewrite app_nil_r].
  destruct (vo_zero _ Hv N E) as [F _]. by rewrite has_lor, S, orb_true_r in F.
Qed.

(** What the type of a field has to be, and what the sizes come to. *)
Definition typed (p : sqlite3_value) (nHdr nData nZero : Z) (p' : sqlite3_value) (t nHdr' nData' nZero' : Z) (f : raw) : Prop :=
  raw_ok f ∧ f.1 = t ∧ field_val f = stored p ∧ field_ok (p', t) ∧ nHdr' = nHdr + ref_len t ∧ nData' = nData + Z.of_nat (length (field_bytes (p', t))) ∧
  nZero ≤ nZero' ∧ (nZero < nZero' → nData = 0) ∧ f.2 = field_bytes (p', t) ++ replicate (Z.to_nat (nZero' - nZero)) 0.

Lemma typed_plain p nHdr nData nZero p' t d : raw_ok (t, field_bytes (p', t)) → field_val (t, field_bytes (p', t)) = stored p → 0 ≤ t < 12 →
  d = Z.of_nat (length (field_bytes (p', t))) → typed p nHdr nData nZero p' t (nHdr + 1) (nData + d) nZero (t, field_bytes (p', t)).
Proof.
  intros Hr Hv Ht ->. split_and!; try done; try lia; [unfold field_ok, is_u32; cbn; lia|by rewrite ref_len_small by lia|].
  rewrite Z.sub_diag. cbn [snd replicate Z.to_nat]. by rewrite app_nil_r.
Qed.

(** An integer as the bytes of its type. *)
Lemma typed_int p nHdr nData nZero t d : value_ok p → has p MEM_Null = false → has p (Z.lor MEM_Int MEM_IntReal) = true →
  has p MEM_IntReal && (140737488355327 <? Z.max (u_i p) (-1 - u_i p)) = false → int_type t (u_i p) → d = size t →
  typed p nHdr nData nZero p t (nHdr + 1) (nData + d) nZero (t, field_bytes (p, t)).
Proof.
  intros Hv N I B Ht ->. destruct (raw_of_int t (u_i p) Ht) as [Hr Ev]. assert (u p = u64 (u_i p)) as Eu by (pose proof (vo_union _ Hv); unfold u_i, u64, i64, is_u64 in *; dm).
  assert (field_bytes (p, t) = be (Z.to_nat (size t)) (u_i p)) as E.
  { unfold field_bytes. cbn [fst snd]. assert (t ≠ 0) by (unfold int_type in Ht; lia). rewrite (proj2 (Z.eqb_neq t 0)) by done.
    destruct (Z.leb_spec t 7) as [Hle|Hgt]; [rewrite Eu; apply be_u64; unfold int_type in Ht;
      assert (t = 1 ∨ t = 2 ∨ t = 3 ∨ t = 4 ∨ t = 5 ∨ t = 6) as [->|[->|[->|[->|[->| ->]]]]] by lia; vm_compute; lia|].
    assert (t = 8 ∨ t = 9) as [->| ->] by (unfold int_type in Ht; lia); done. }
  apply typed_plain; [by rewrite E|rewrite E, Ev|unfold int_type in Ht; lia|].
  - unfold stored. rewrite N. cbn [negb andb]. rewrite B. unfold value_of. by rewrite N, I.
  - rewrite E, be_length, Z2Nat.id; [done|]. apply size_some. unfold int_type in Ht; lia.
Qed.

Lemma magnitude i : is_i64 i → u64 (if i <? 0 then Z.lnot i else i) = Z.max i (-1 - i).
Proof. intros Hi. unfold Z.lnot, is_i64, u64 in *. destruct (Z.ltb_spec i 0); dm. Qed.

Lemma i64_bound x : is_i64 (i64 x).
Proof. unfold is_i64, i64. dm. Qed.

Lemma typed_bigint p nHdr nData nZero : value_ok p → has p MEM_Null = false → has p MEM_IntReal = true → 140737488355327 < Z.max (u_i p) (-1 - u_i p) →
  let p' := set_u p (double_of_int (u_i p)) (Z.lor (Z.ldiff (flags p) MEM_IntReal) MEM_Real) in
  typed p nHdr nData nZero p' 7 (nHdr + 1) (nData + 8) nZero (7, field_bytes (p', 7)).
Proof.
  intros Hv N I B. cbv zeta. pose proof (i64_bound (u p)) as Hi. fold (u_i p) in Hi. unfold is_i64 in Hi.
  destruct (raw_of_real (double_of_int (u_i p))) as [Hr Ev]; [apply double_of_int_u64; lia|apply double_of_int_number; lia|].
  apply typed_plain; [exact Hr| |lia|].
  - etransitivity; [exact Ev|]. unfold stored. rewrite N, I, (proj2 (Z.ltb_lt _ _)) by done. done.
  - change (field_bytes _) with (be 8 (double_of_int (u_i p))). by rewrite be_length.
Qed.

Lemma not_number p : has p (Z.lor MEM_Int MEM_IntReal) = false → has p MEM_IntReal = false.
Proof. rewrite has_lor. by intros [_ H]%orb_false_iff. Qed.

Lemma typed_real p nHdr nData nZero : value_ok p → has p MEM_Null = false → has p (Z.lor MEM_Int MEM_IntReal) = false → has p MEM_Real = true →
  typed p nHdr nData nZero p 7 (nHdr + 1) (nData + 8) nZero (7, field_bytes (p, 7)).
Proof.
  intros Hv N I R. destruct (vo_number _ Hv R) as [Hn _]. destruct (raw_of_real (u p) (vo_union _ Hv) Hn) as [Hr Ev]. apply typed_plain; [exact Hr| |lia|].
  - etransitivity; [exact Ev|]. unfold stored, value_of. by rewrite (not_number _ I), N, I, R.
  - change (field_bytes _) with (be 8 (u p)). by rewrite be_length.
Qed.

(** The allocator gives as many bytes as it is asked for. *)
Definition gives (fresh : Z → bytes) : Prop := ∀ k, 0 ≤ k → k ≤ Z.of_nat (length (fresh k)).

Lemma grow_spec p k b fresh m : ∃ rc p' m', sqlite3VdbeMemGrow p k b fresh m = (rc, p', m') ∧
  (rc = SQLITE_NOMEM ∧ ¬ no_failure m ∨ rc = SQLITE_OK ∧ (no_failure m → no_failure m') ∧ u p' = u p ∧ n p' = n p ∧ enc p' = enc p ∧
    z p' = if b then take (Z.to_nat (n p)) (z p) ++ drop (Z.to_nat (n p)) (fresh k) else fresh k).
Proof.
  unfold sqlite3VdbeMemGrow. destruct (alloc m) as [[] m'] eqn:A; cbn [negb]; (eexists _, _, _; split; [done|]).
  - right. split; [done|]. split; [intros F; by destruct (alloc_ok _ _ _ A F)|done].
  - left. split; [done|]. intros F. by destruct (alloc_ok _ _ _ A F).
Qed.

Lemma expand_spec p fresh m : gives fresh → value_ok p → fits p → has p MEM_Null = false → has p MEM_Zero = true →
  ∃ rc p' m', sqlite3VdbeMemExpandBlob p fresh m = Some (rc, p', m') ∧
    (rc = SQLITE_NOMEM ∧ ¬ no_failure m ∨ rc = SQLITE_OK ∧ (no_failure m → no_failure m') ∧ take (Z.to_nat (n p')) (z p') = data p ∧ n p' = n p + u_nZero p ∧
      n p' = Z.of_nat (length (z p') `min` length (data p))).
Proof.
  intros Hfr Hv Hfit N Z1. destruct (vo_zero _ Hv N Z1) as [F Hz]. rewrite !has_lor in F. assert (is_number p = false) as I by (unfold is_number; rewrite !has_lor; by destruct (has p MEM_Int), (has p MEM_Real), (has p MEM_IntReal)).
  destruct (data_content p Hv N I) as [L _]. specialize (Hfit N I). assert (data p = take (Z.to_nat (n p)) (z p) ++ replicate (Z.to_nat (u_nZero p)) 0) as Ed by (unfold data, zeros; by rewrite Z1).
  assert (Z.of_nat (length (data p)) = n p + u_nZero p) as Ld by (rewrite Ed, length_app, length_take, length_replicate; lia).
  unfold sqlite3VdbeMemExpandBlob. cbv zeta. rewrite i32_id by (unfold is_i32; lia). destruct ((n p + u_nZero p <=? 0) && negb (has p MEM_Blob)) eqn:E.
  - eexists _, _, _. split; [done|]. right. split; [done|]. split; [done|]. assert (n p = 0 ∧ u_nZero p = 0) as [E1 E2] by lia. rewrite Ed, E1, E2.
    change (Z.to_nat 0) with O. rewrite !take_0. cbn. split; [done|]. split; [done|]. lia.
  - set (k := if n p + u_nZero p <=? 0 then 1 else n p + u_nZero p). assert (n p + u_nZero p ≤ k) as Hk by (unfold k; destruct (Z.leb_spec (n p + u_nZero p) 0); lia).
    destruct (grow_spec p k true fresh m) as (rc & p' & m' & -> & [[-> Hnm]|(-> & Hnm & Eu & En & Ee & Ez)]); cbn [negb Z.eqb]; [eexists _, _, _; split; [done|by left]|].
    assert (u_nZero p' = u_nZero p) as -> by (unfold u_nZero; by rewrite Eu). pose proof (Hfr k ltac:(lia)) as Hlen. set (k1 := Z.to_nat (n p)) in *. set (k2 := Z.to_nat (u_nZero p)) in *.
    assert (splice (z p') (n p') (replicate k2 0) = Some (data p ++ drop k2 (drop k1 (fresh k)))) as ->.
    { rewrite Ez, En, <- (take_drop k2 (drop k1 (fresh k))) at 1. assert (n p = Z.of_nat (length (take k1 (z p)))) as -> by (rewrite length_take; lia).
      rewrite splice_app by (rewrite length_take, length_drop, length_replicate; lia). by rewrite Ed, <- (assoc_L (++)). }
    cbn [mbind option_bind]. eexists _, _, _. split; [done|]. right. split; [done|]. split; [done|]. cbn [z n cell].
    rewrite En. split; [rewrite <- Ld, Nat2Z.id; apply take_app_length|]. split; [done|]. rewrite length_app. lia.
Qed.

Lemma typed_data p nHdr nData nZero (p' : sqlite3_value) nZero' t : value_ok p → fits p → has p MEM_Null = false → has p (Z.lor MEM_Int MEM_IntReal) = false → has p MEM_Real = false →
  t = Z.of_nat (length (data p)) * 2 + 12 + b2z (has p MEM_Str) → 0 ≤ n p' ≤ Z.of_nat (length (z p')) →
  data p = take (Z.to_nat (n p')) (z p') ++ replicate (Z.to_nat (nZero' - nZero)) 0 → nZero ≤ nZero' → (nZero < nZero' → nData = 0) →
  typed p nHdr nData nZero p' t (nHdr + ref_len t) (nData + n p') nZero' (t, data p).
Proof.
  intros Hv Hf N I R -> Hn Hd H1 H2. assert (is_number p = false) as In by (by rewrite is_number_parts, I, R). destruct (raw_of_data p Hv Hf N In) as (Hr & Ev & Ht).
  set (t := _ + b2z _) in *. assert (field_bytes (p', t) = take (Z.to_nat (n p')) (z p')) as E.
  { unfold field_bytes. cbn [fst snd]. by rewrite (proj2 (Z.eqb_neq t 0)), (proj2 (Z.leb_gt t 7)), (proj2 (Z.ltb_ge t 12)) by lia. }
  split_and!; try done.
  - rewrite Ev. unfold stored. by rewrite (not_number _ I), N.
  - split; [unfold is_u32; cbn; lia|]. cbn [fst snd]. intros _. split; [done|]. intros H14. assert (length (data p) = 0%nat) as L0 by (unfold t in *; destruct (has p MEM_Str); cbn in *; lia).
    apply (f_equal length) in Hd. rewrite L0, length_app, length_take in Hd. lia.
  - rewrite E, length_take. lia.
  - by rewrite E.
Qed.

(** The type of a field is found, or there is no memory for the zeros. *)
Definition type_found (fmt : Z) (fresh : Z → bytes) (p : sqlite3_value) (nHdr nData nZero : Z) (m : list bool) : Prop :=
  ∃ rc p' t h d z m', field_type fmt fresh p nHdr nData nZero m = Some (rc, p', t, h, d, z, m') ∧
    (rc = SQLITE_NOMEM ∧ ¬ no_failure m ∨ rc = SQLITE_OK ∧ (no_failure m → no_failure m') ∧ ∃ f, typed p nHdr nData nZero p' t h d z f).

Ltac type_is := eexists _, _, _, _, _, _, _; (split; [done|]); right; (split; [done|]); (split; [done|]).

Lemma field_type_int fmt fresh p nHdr nData nZero m : value_ok p → has p MEM_Null = false → has p (Z.lor MEM_Int MEM_IntReal) = true →
  type_found fmt fresh p nHdr nData nZero m.
Proof.
  intros Hv N I. unfold type_found, field_type. rewrite N, I. pose proof (i64_bound (u p)) as Hi. fold (u_i p) in Hi. rewrite magnitude by done. set (U := Z.max (u_i p) (-1 - u_i p)).
  assert (∀ t d, int_type t (u_i p) → d = nData + size t → has p MEM_IntReal && (140737488355327 <? U) = false →
    ∃ f, typed p nHdr nData nZero p t (nHdr + 1) d nZero f) as Hint by (intros t d Ht -> B; exists (t, field_bytes (p, t)); by apply typed_int).
  assert (U ≤ 140737488355327 → has p MEM_IntReal && (140737488355327 <? U) = false) as Hsm by (intros; rewrite (proj2 (Z.ltb_ge _ _)) by done; apply andb_false_r).
  unfold is_i64 in Hi. destruct (Z.leb_spec U 127) as [L1|L1].
  { rewrite (land_low _ 1) by done. change (2 ^ 1) with 2. destruct (_ && (4 <=? fmt)) eqn:E8.
    - apply andb_true_iff in E8 as [E8%Z.eqb_eq _]. pose proof (Z.mod_pos_bound (u_i p) 2 ltac:(lia)).
      assert (u_i p = 0 ∨ u_i p = 1) as [Ei|Ei] by lia; type_is; assert (U = u_i p) as -> by (unfold U; lia); rewrite Ei;
        (apply Hint; [unfold int_type; rewrite Ei; vm_compute; tauto| |apply Hsm; lia]); (change (size (8 + u32 0)) with 0 || change (size (8 + u32 1)) with 0); lia.
    - type_is. apply Hint; [unfold int_type, U in *; lia|done|apply Hsm; lia]. }
  destruct (Z.leb_spec U 32767) as [L2|L2]; [type_is; apply Hint; [unfold int_type, U in *; lia|done|apply Hsm; lia]|].
  destruct (Z.leb_spec U 8388607) as [L3|L3]; [type_is; apply Hint; [unfold int_type, U in *; lia|done|apply Hsm; lia]|].
  destruct (Z.leb_spec U 2147483647) as [L4|L4]; [type_is; apply Hint; [unfold int_type, U in *; lia|done|apply Hsm; lia]|].
  destruct (Z.leb_spec U 140737488355327) as [L5|L5]; [type_is; apply Hint; [unfold int_type, U in *; lia|done|apply Hsm; lia]|].
  destruct (has p MEM_IntReal) eqn:IR; type_is; [eexists; by apply typed_bigint|]. apply Hint; [unfold int_type, is_i64, U in *; lia|done|done].
Qed.

Lemma field_type_data fmt fresh p nHdr nData nZero m : gives fresh → value_ok p → fits p → 0 ≤ nData → has p MEM_Null = false →
  has p (Z.lor MEM_Int MEM_IntReal) = false → has p MEM_Real = false → type_found fmt fresh p nHdr nData nZero m.
Proof.
  intros Hfr Hv Hf Hd N I R. unfold type_found, field_type. rewrite N, I, R. assert (is_number p = false) as In by (by rewrite is_number_parts, I, R).
  destruct (data_content p Hv N In) as [L _]. pose proof (Hf N In) as Hlim. assert (0 ≤ b2z (has p MEM_Str) ≤ 1) as Hb by (destruct (has p MEM_Str); cbn; lia).
  assert (Z.of_nat (length (data p)) = n p + Z.of_nat (zeros p)) as Ld by (unfold data; rewrite length_app, length_take, length_replicate; lia).
  rewrite (u32_id (n p)), (u32_id (n p * 2 + 12 + b2z (has p MEM_Str))) by (unfold is_u32; lia).
  assert (zeros p = if has p MEM_Zero then Z.to_nat (u_nZero p) else O) as Ez by done. destruct (has p MEM_Zero) eqn:Z1.
  - destruct (vo_zero _ Hv N Z1) as [_ Hz]. rewrite (u32_id (_ + u_nZero p * 2)) by (unfold is_u32; lia).
    set (t := n p * 2 + 12 + b2z (has p MEM_Str) + u_nZero p * 2). assert (t = Z.of_nat (length (data p)) * 2 + 12 + b2z (has p MEM_Str)) as Et by (unfold t; lia).
    destruct (Z.eqb_spec nData 0) as [D0|D0]; cbn [negb mbind option_bind].
    + rewrite varint_len_ref by (unfold t; lia). type_is. eexists. apply typed_data; try done; [|lia]. unfold data at 1. rewrite Ez. do 2 f_equal. lia.
    + destruct (expand_spec p fresh m Hfr Hv Hf N Z1) as (rc & p' & m' & -> & [[-> F]|(-> & F & Ed & En & Eq)]); cbn -[sqlite3VarintLen u32].
      * eexists _, _, _, _, _, _, _. split; [done|]. by left.
      * rewrite varint_len_ref by (unfold t; lia). cbn -[u32]. rewrite u32_id by (unfold is_u32; lia). rewrite <- En. eexists _, _, _, _, _, _, _. split; [done|]. right. split; [done|]. split; [done|].
        eexists. apply typed_data; try done; [lia| |lia]. rewrite Z.sub_diag. cbn. by rewrite app_nil_r, Ed.
  - cbn -[sqlite3VarintLen]. rewrite varint_len_ref by lia. type_is. eexists. apply typed_data; try done; [lia| |lia]. rewrite Z.sub_diag. unfold data. by rewrite Ez.
Qed.

Lemma field_type_spec fmt fresh p nHdr nData nZero m : gives fresh → value_ok p → fits p → 0 ≤ nData → type_found fmt fresh p nHdr nData nZero m.
Proof.
  intros Hfr Hv Hf Hd. destruct (has p MEM_Null) eqn:N.
  { unfold type_found, field_type. rewrite N. type_is. set (t := if has p MEM_Zero then 10 else 0). assert (t = 0 ∨ t = 10) as Ht by (unfold t; destruct (has p MEM_Zero); auto).
    exists (t, field_bytes (p, t)). rewrite <- (Z.add_0_r nData) at 2. clearbody t. assert (stored p = Null) as E by (unfold stored, value_of; by rewrite N).
    apply typed_plain; [| |lia|]; destruct Ht as [->| ->]; try done; (split; [done|split; [done|constructor]]). }
  destruct (has p (Z.lor MEM_Int MEM_IntReal)) eqn:I; [by apply field_type_int|]. destruct (has p MEM_Real) eqn:R; [|by apply field_type_data].
  unfold type_found, field_type. rewrite N, I, R. type_is. eexists. by apply typed_real.
Qed.

(** The fields from the first on, with the zeros at the end. *)
Definition laid_out (l : list sqlite3_value) (lp : list (sqlite3_value * Z)) (h d z : Z) (fs : list raw) : Prop :=
  Forall raw_ok fs ∧ map field_val fs = map stored l ∧ hdr fs = types lp ∧ body fs = fields lp ++ replicate (Z.to_nat z) 0 ∧ Forall field_ok lp ∧
  h = Z.of_nat (length (hdr fs)) ∧ d = Z.of_nat (length (fields lp)) ∧ 0 ≤ z ∧ h ≤ 9 * Z.of_nat (length l).

Lemma field_types_spec fmt fresh l : gives fresh → ∀ m, Forall (λ p, value_ok p ∧ fits p) l →
  ∃ rc lp h d z m', field_types fmt fresh l m = Some (rc, lp, h, d, z, m') ∧
    (rc = SQLITE_NOMEM ∧ ¬ no_failure m ∨ rc = SQLITE_OK ∧ (no_failure m → no_failure m') ∧ ∃ fs, laid_out l lp h d z fs).
Proof.
  intros Hfr. induction l as [|p l IH]; intros m Hl; cbn [field_types].
  { eexists _, _, _, _, _, _. split; [done|]. right. split; [done|]. split; [done|]. exists []. by repeat split. }
  apply Forall_cons in Hl as [[Hv Hfit] Hl]. destruct (IH m Hl) as (rc & lp & h & d & z & m1 & -> & [[-> F]|(-> & F & fs & Hr & Ev & Eh & Eb & Hok & -> & -> & Hz & Hh)]); cbn.
  { eexists _, _, _, _, _, _. split; [done|]. by left. }
  destruct (field_type_spec fmt fresh p (Z.of_nat (length (hdr fs))) (Z.of_nat (length (fields lp))) z m1 Hfr Hv Hfit) as (rc & p' & t & h & d & z' & m2 & -> & Hcase); [lia|]. cbn.
  eexists _, _, _, _, _, _. split; [done|]. destruct Hcase as [[-> F2]|(-> & F2 & f & Rf & Et & Ef & Of & -> & -> & Hz' & Hdz & Ebf)].
  { left. split; [done|]. intros F'. by apply F2, F. }
  right. split; [done|]. split; [auto|]. exists (f :: fs). pose proof (ref_len_bounds t). pose proof (ref_encode_length t) as Le.
  assert (hdr (f :: fs) = types ((p', t) :: lp)) as Eh' by (unfold hdr, types in *; cbn [map concat snd]; by rewrite Et, Eh).
  split_and!; try done; try lia.
  - by constructor.
  - cbn [map]. by rewrite Ef, Ev.
  - unfold body in *. unfold fields in *. cbn [map concat]. rewrite Ebf, Eb, <- !(assoc_L (++)). f_equal. destruct (Z.eq_dec z z') as [->|Hne].
    + by rewrite Z.sub_diag.
    + assert (concat (map field_bytes lp) = []) as -> by (apply length_zero_iff_nil; lia). cbn [app]. rewrite <- replicate_add. f_equal. lia.
  - by constructor.
  - rewrite Eh', Eh. unfold types. cbn [map concat snd]. rewrite length_app. lia.
  - unfold fields. cbn [map concat]. rewrite length_app. lia.
  - cbn [length]. lia.
Qed.

(** *** Making a record *)

Lemma ref_len_cases v : 0 ≤ v < 2 ^ 21 → v < 128 ∧ ref_len v = 1 ∨ 128 ≤ v < 16384 ∧ ref_len v = 2 ∨ 16384 ≤ v ∧ ref_len v = 3.
Proof. intros Hv. unfold ref_len. destruct (Z.ltb_spec v (2 ^ 7)), (Z.ltb_spec v (2 ^ 14)), (Z.ltb_spec v (2 ^ 21)); lia. Qed.

Lemma header_size_spec h : 0 ≤ h < 1000000 → ∃ H, header_size h = Some H ∧ H = ref_len H + h ∧ 1 ≤ H < 1000009.
Proof.
  intros Hh. unfold header_size. destruct (Z.leb_spec h 126) as [L|L].
  { exists (h + 1). split; [done|]. rewrite ref_len_small by lia. lia. }
  pose proof (ref_len_bounds h). rewrite (varint_len_ref h) by lia. cbn -[sqlite3VarintLen]. rewrite varint_len_ref by lia. cbn -[ref_len]. eexists. split; [done|].
  pose proof (ref_len_cases h ltac:(lia)). set (k := ref_len h) in *. pose proof (ref_len_cases (h + k) ltac:(lia)). pose proof (ref_len_cases (h + k + 1) ltac:(lia)).
  destruct (Z.ltb_spec k (ref_len (h + k))); lia.
Qed.

Lemma record_buffer_spec old zMalloc nByte nZero limit fresh m : 0 ≤ nByte → 0 ≤ nZero → gives fresh →
  ∃ rc pOut m', record_buffer old zMalloc nByte nZero limit fresh m = (rc, pOut, m') ∧
    (rc = SQLITE_OK ∧ nByte ≤ Z.of_nat (length (z pOut)) ∧ nByte + nZero ≤ Z.max limit (Z.of_nat (length zMalloc)) ∧ u pOut = u old ∨
     rc = SQLITE_TOOBIG ∧ limit < nByte + nZero ∧ pOut = old ∨ rc = SQLITE_NOMEM ∧ ¬ no_failure m).
Proof.
  intros Hb Hz Hf. unfold record_buffer, sqlite3VdbeMemClearAndResize. destruct (Z.leb_spec (nByte + nZero) (Z.of_nat (length zMalloc))).
  { eexists _, _, _. split; [done|]. left. cbn [z u cell]. split_and!; [done|lia..|done]. }
  destruct (Z.ltb_spec limit (nByte + nZero)); [eexists _, _, _; split; [done|]; right; left; done|].
  destruct (Z.ltb_spec (Z.of_nat (length zMalloc)) nByte); [|eexists _, _, _; split; [done|]; left; cbn [z u cell]; split_and!; [done|lia..|done]].
  destruct (grow_spec old nByte false fresh m) as (rc & p' & m' & -> & [[-> Hnm]|(-> & Hnm & Eu & En & Ee & Ez)]); (eexists _, _, _; split; [done|]); [by right; right|].
  left. rewrite Ez. pose proof (Hf nByte Hb). split_and!; [done|lia..|done].
Qed.

(** The header and the fields, in a buffer that is large enough. *)
Lemma write_record_spec lp buf H : Forall field_ok lp → H = ref_len H + Z.of_nat (length (types lp)) → is_u32 H →
  H + Z.of_nat (length (fields lp)) ≤ Z.of_nat (length buf) →
  ∃ rest, (let* (buf, zHdr) := if H <? 0x80 then let* buf := wr buf 0 H in Some (buf, 1) else put_varint buf 0 H in put_fields lp buf zHdr H) =
    Some ((ref_encode H ++ types lp ++ fields lp) ++ rest).
Proof.
  intros Hok EH Hu Hlen. pose proof (ref_encode_length H) as Le. pose proof (ref_len_bounds H) as Be. set (T := types lp) in *.
  set (g := take (length (ref_encode H)) buf). set (q := drop (length (ref_encode H)) buf). assert (buf = g ++ q) as Ebuf by (symmetry; apply take_drop).
  assert (length g = length (ref_encode H)) as Lg by (unfold g; rewrite length_take; lia). assert (Z.of_nat (length q) = Z.of_nat (length buf) - ref_len H) as Lq by (unfold q; rewrite length_drop; lia).
  rewrite Ebuf. clearbody g q. clear Ebuf.
  assert ((if H <? 0x80 then let* buf := wr (g ++ q) 0 H in Some (buf, 1) else put_varint (g ++ q) 0 H) = Some (ref_encode H ++ q, Z.of_nat (length (ref_encode H)))) as ->.
  { destruct (Z.ltb_spec H 128) as [Hs|Hb].
    - rewrite ref_encode_small in * by lia. destruct g as [|x [|? ?]]; done.
    - pose proof (put_varint_spec [] g q H (u32_u64 H Hu) ltac:(lia)) as E. cbn [app length] in E. exact E. }
  cbn -[put_fields]. rewrite <- (take_drop (length T) q). set (g2 := take (length T) q). set (q2 := drop (length T) q).
  assert (length g2 = length T) as Lg2 by (unfold g2; rewrite length_take; lia). assert (Z.of_nat (length q2) = Z.of_nat (length q) - Z.of_nat (length T)) as Lq2 by (unfold q2; rewrite length_drop; lia).
  pose proof (put_fields_spec lp Hok (ref_encode H) g2 [] q2 ltac:(unfold T in *; lia) ltac:(lia)) as E. cbn [app] in E. rewrite app_nil_r, length_app, Lg2 in E.
  replace (Z.of_nat (length (ref_encode H) + length T)) with H in E by lia. rewrite E. eexists. rewrite <- !(assoc_L (++)). done.
Qed.

Lemma nZero_back x k : 0 ≤ k < 2147483648 → is_u64 x → i32 (with_nZero x k) = k.
Proof. intros Hk Hx. unfold with_nZero, i32, u32. dm. Qed.

(** The opcode makes the record of its fields. *)
Lemma make_record_spec fmt limit l old zMalloc fresh m : Forall (λ p, value_ok p ∧ fits p) l → Z.of_nat (length l) ≤ 32767 →
  limit < 2147483648 → Z.of_nat (length zMalloc) < 2147483648 → gives fresh → is_u64 (u old) →
  ∃ rc l' pOut m', OP_MakeRecord fmt limit l old zMalloc fresh m = Some (rc, l', pOut, m') ∧
    (rc = SQLITE_NOMEM ∧ ¬ no_failure m ∨ ∃ fs R, layout fs R ∧ map field_val fs = map stored l ∧
      (rc = SQLITE_OK ∧ value_of pOut = Blob R ∧ record_of fs R ∨ rc = SQLITE_TOOBIG ∧ limit < Z.of_nat (length R) ∧ pOut = old)).
Proof.
  intros Hl Hn Hlim Hz Hfr Ho. unfold OP_MakeRecord.
  destruct (field_types_spec fmt fresh l Hfr m Hl) as (rc & lp & h & d & z & m1 & -> & [[-> F]|(-> & F & fs & Hr & Ev & Eh & Eb & Hok & -> & -> & Hz0 & Hh)]); cbn.
  { eexists _, _, _, _. split; [done|]. by left. }
  destruct (header_size_spec (Z.of_nat (length (hdr fs)))) as (H & -> & EH & HH); [lia|]. cbn -[put_varint put_fields].
  set (R := ref_encode H ++ hdr fs ++ body fs). assert (layout fs R) as HL by (exists H; done). pose proof (ref_encode_length H) as Le.
  assert (Z.of_nat (length R) = H + Z.of_nat (length (fields lp)) + z) as LR by (unfold R; rewrite !length_app, Eb, length_app, length_replicate; lia).
  destruct (record_buffer_spec old zMalloc (H + Z.of_nat (length (fields lp))) z limit fresh m1) as (rc & pOut & m2 & -> & Hcase); [lia..|done|].
  destruct Hcase as [(-> & Hbuf & Hmax & Eu)|[(-> & Hbig & ->)|(-> & Hnm)]]; cbn -[put_varint put_fields].
  - destruct (write_record_spec lp (Utf.z pOut) H Hok) as (rest & E); [rewrite <- Eh; lia|unfold is_u32; lia|lia|].
    destruct (if H <? 0x80 then _ else _) as [[buf2 zHdr]|]; [|done]. cbn -[put_fields] in E |- *. rewrite E. cbn. eexists _, _, _, _. split; [done|]. right.
    exists fs, R. split; [done|]. split; [done|]. left. split; [done|]. split; [|split; [done|lia]].
    assert (take (Z.to_nat (H + Z.of_nat (length (fields lp)))) ((ref_encode H ++ types lp ++ fields lp) ++ rest) = ref_encode H ++ types lp ++ fields lp) as Et.
    { apply take_app_length'. rewrite !length_app, <- Eh. lia. }
    unfold value_of, zeros, has, u_nZero, R. rewrite Eb, Eh. destruct (Z.eqb_spec z 0) as [->|Hne]; cbn -[Z.to_nat take with_nZero i32]; rewrite Et.
    + by rewrite !app_nil_r.
    + rewrite Eu, nZero_back by (done || lia). by rewrite <- !(assoc_L (++)).
  - eexists _, _, _, _. split; [done|]. right. exists fs, R. split; [done|]. split; [done|]. right. split; [done|]. split; [lia|done].
  - eexists _, _, _, _. split; [done|]. left. split; [done|auto].
Qed.

(** ** Comparing a field with a value *)

(** Fields that records of tables and indexes have: no NaN, and none of the
    types that are reserved. *)
Definition plain (f : raw) : Prop := f.1 ≠ 10 ∧ f.1 ≠ 11 ∧ (f.1 = 7 → IsNaN (unsigned f.2) = false).

(** The values of a key: each has a type, and null is nothing else. *)
Definition key_cell (p : sqlite3_value) : Prop :=
  comparable p ∧ (has p MEM_Null = true → is_number p = false ∧ has p MEM_Str = false ∧ has p MEM_Blob = false) ∧
  has p MEM_Null || is_number p || has p MEM_Str || has p MEM_Blob = true.

Definition is_null (v : val) : bool := match v with Null => true | _ => false end.

Definition compared (cmp : bytes → bytes → Z) (f : raw) (pRhs : sqlite3_value) (err : Z) (m : list bool) (r : option (Z * option Z * Z * list bool)) : Prop :=
  ∃ s c, r = Some (s, Some c, err, m) ∧ Z.sgn c = compare_vals cmp (field_val f) (value_of pRhs) ∧ (s =? 0) = is_null (field_val f) ∧ (c = 0 → s = f.1).

Lemma plain_cases f : raw_ok f → plain f →
  f.1 = 0 ∧ field_val f = Null ∨ is_int f.1 = true ∧ f.1 ≠ 0 ∧ f.1 < 10 ∧ f.1 ≠ 7 ∧ field_val f = Integer (int_of f) ∨
  f.1 = 7 ∧ IsNaN (unsigned f.2) = false ∧ field_val f = Real (unsigned f.2) ∨ 12 ≤ f.1 ∧ field_val f = if Z.even f.1 then Blob f.2 else Text f.2.
Proof.
  intros Hf (H10 & H11 & H7). destruct (Z.lt_ge_cases f.1 12) as [Hlt|Hge]; [|do 3 right; split; [done|]; by apply field_data].
  destruct (field_small f Hf Hlt) as [Hi|[[E7 _]|(E0 & _ & Ev)]].
  - right; left. destruct (raw_int f Hf Hi) as (Ev & _). split_and!; try done; unfold is_int in Hi; lia.
  - right; right; left. destruct (field_real f Hf E7) as (_ & _ & Ev). rewrite (H7 E7) in Ev. auto.
  - left. split; [lia|done].
Qed.

Lemma compare_ints cmp a b : compare_vals cmp (Integer a) (Integer b) = sgn_cmp a b.
Proof.
  unfold compare_vals. cbn [rank Z.eqb negb Pos.eqb number]. pose proof SCALE_pos as H. unfold sgn_cmp.
  destruct (Z.ltb_spec (a * SCALE) (b * SCALE)), (Z.ltb_spec a b), (Z.ltb_spec (b * SCALE) (a * SCALE)), (Z.ltb_spec b a); nia.
Qed.

Lemma sgn_opp_cmp a b : - sgn_cmp a b = sgn_cmp b a.
Proof. symmetry. apply order_antisym. Qed.

Lemma sgn_sgn a b : Z.sgn (sgn_cmp a b) = sgn_cmp a b.
Proof. exact (order_sgn a b). Qed.

Section compare_field.
  Context (nKey1 : Z) (buf : bytes) (ki : KeyInfo) (i szHdr idx d : Z) (f : raw) (fs : list raw) (pRhs : sqlite3_value) (err : Z) (m : list bool).
  Context (cmp : bytes → bytes → Z) (coll : option CollSeq).
  Hypothesis Hat : at_field buf nKey1 szHdr idx d (f :: fs).
  Hypothesis Hplain : plain f.
  Hypothesis Hkey : key_cell pRhs.
  Hypothesis Hi : 0 ≤ i < nAllField ki.
  Hypothesis Hcoll : rd (aColl ki) i = Some coll.
  Hypothesis Hcmp : collates coll (key_enc ki) cmp.

Lemma compare_int_rhs : has pRhs (Z.lor MEM_Int MEM_IntReal) = true → compared cmp f pRhs err m (compare_field nKey1 buf ki i idx d pRhs err m).
Proof.
  intros I. destruct (at_cons _ _ _ _ _ _ _ Hat) as (Hf & _ & _ & _ & (x & Ex & Hx & Hx1 & Hx2) & (r & Er & Hr) & _ & _ & _). unfold compare_field. rewrite I, Ex, Er. cbn [mbind option_bind].
  assert (value_of pRhs = Integer (u_i pRhs)) as Ev.
  { unfold value_of. rewrite I. destruct (has pRhs MEM_Null) eqn:N; [|done]. destruct Hkey as (_ & Hn & _). destruct (Hn N) as [In _]. rewrite is_number_parts, I in In. done. }
  unfold compared. rewrite Ev. destruct (plain_cases f Hf Hplain) as [[E0 ->]|[(Hint & N0 & L10 & N7 & Efv)|[(E7 & Hnan & ->)|(L12 & Edv)]]].
  - rewrite Hx1 in * by lia. rewrite E0. exists 0, (-1). done.
  - rewrite Hx1 in * by lia. rewrite Efv. rewrite (proj2 (Z.leb_gt _ _)), (proj2 (Z.eqb_neq f.1 0)), (proj2 (Z.eqb_neq f.1 7)) by lia.
    destruct (raw_int f Hf Hint) as (_ & Ht & Eb & _). rewrite Eb, (proj1 (proj2 (get_int _ _ r (mk_value 0 (mem [] 0 0 0 false)) Ht))). cbn [mbind option_bind].
    eexists _, _. split; [done|]. rewrite compare_ints. split; [apply sgn_sgn|]. cbn [is_null]. split; [lia|done].
  - rewrite Hx1 in * by lia. rewrite E7. cbn [Z.leb Z.compare Pos.compare Pos.compare_cont Z.eqb Pos.eqb].
    destruct (field_real f Hf E7) as (Eb & Hu & _). rewrite Eb, (proj2 (get_double _ r _ Hu)), <- !Eb, Hnan. cbn [mbind option_bind u].
    eexists _, _. split; [done|]. change (u (set_u _ ?x _)) with x. rewrite int_float_exact by (done || apply i64_bound). unfold compare_vals. cbn [rank Z.eqb Pos.eqb negb number].
    rewrite sgn_opp_cmp. split; [apply sgn_sgn|done].
  - assert (10 <= x ∧ x ≠ 10) as [L N] by (destruct (Z.lt_ge_cases f.1 128); lia). rewrite (proj2 (Z.leb_le _ _)), (proj2 (Z.eqb_neq x 10)) by lia.
    exists x, 1. rewrite Edv. split; [done|]. split; [by destruct (Z.even f.1)|]. split; [destruct (Z.even f.1); cbn; lia|done].
Qed.

Lemma compare_real_rhs : has pRhs (Z.lor MEM_Int MEM_IntReal) = false → has pRhs MEM_Real = true → compared cmp f pRhs err m (compare_field nKey1 buf ki i idx d pRhs err m).
Proof.
  intros I R. destruct (at_cons _ _ _ _ _ _ _ Hat) as (Hf & _ & _ & _ & (x & Ex & Hx & Hx1 & Hx2) & (r & Er & Hr) & _ & _ & _). unfold compare_field. rewrite I, R, Ex, Er. cbn [mbind option_bind].
  assert (value_of pRhs = Real (u pRhs)) as Ev.
  { unfold value_of. rewrite I, R. destruct (has pRhs MEM_Null) eqn:N; [|done]. destruct Hkey as (_ & Hn & _). destruct (Hn N) as [In _]. rewrite is_number_parts, R, orb_true_r in In. done. }
  destruct Hkey as ((Hv & _) & _). destruct (vo_number _ Hv R) as [Hnr _].
  unfold compared. rewrite Ev. destruct (plain_cases f Hf Hplain) as [[E0 ->]|[(Hint & N0 & L10 & N7 & Efv)|[(E7 & Hnan & ->)|(L12 & Edv)]]].
  - rewrite Hx1 in * by lia. rewrite E0. exists 0, (-1). done.
  - rewrite Hx1 in * by lia. rewrite Efv. rewrite (proj2 (Z.leb_gt _ _)), (proj2 (Z.eqb_neq f.1 0)), (proj2 (Z.eqb_neq f.1 7)) by lia.
    destruct (raw_int f Hf Hint) as (_ & Ht & Eb & H64). rewrite Eb, (proj1 (get_int _ _ r _ Ht)). cbn [mbind option_bind].
    eexists _, _. split; [done|]. assert (u_i (set_int (mk_value 0 (mem [] 0 0 0 false)) (int_of f)) = int_of f) as -> by (unfold u_i; cbn -[i64 u64]; by rewrite i64_u64).
    rewrite int_float_exact by done. unfold compare_vals. cbn [rank Z.eqb Pos.eqb negb number]. split; [apply sgn_sgn|]. cbn [is_null]. split; [lia|done].
  - rewrite Hx1 in * by lia. rewrite E7. cbn [Z.leb Z.compare Pos.compare Pos.compare_cont Z.eqb Pos.eqb].
    destruct (field_real f Hf E7) as (Eb & Hu & _). rewrite Eb, (proj2 (get_double _ r _ Hu)), <- !Eb, Hnan. cbn [mbind option_bind b2z Z.eqb negb].
    eexists _, _. split; [done|]. change (u (set_u _ ?x _)) with x. unfold double_lt. rewrite Hnan, Hnr. cbn [negb andb]. unfold compare_vals. cbn [rank Z.eqb Pos.eqb negb number].
    split; [apply sgn_sgn|done].
  - assert (10 <= x ∧ x ≠ 10) as [L N] by (destruct (Z.lt_ge_cases f.1 128); lia). rewrite (proj2 (Z.leb_le _ _)), (proj2 (Z.eqb_neq x 10)) by lia.
    exists x, 1. rewrite Edv. split; [done|]. split; [by destruct (Z.even f.1)|]. split; [destruct (Z.even f.1); cbn; lia|done].
Qed.

(** The bytes of a field of text or of a blob. *)
Lemma data_field r : raw_ok f → 12 ≤ f.1 → Z.of_nat (length f.2) = (f.1 - 12) `div` 2 ∧ size f.1 = (f.1 - 12) `div` 2 ∧
  take (Z.to_nat ((f.1 - 12) `div` 2)) (f.2 ++ r) = f.2 ∧ 0 ≤ (f.1 - 12) `div` 2 ≤ Z.of_nat (length (f.2 ++ r)).
Proof.
  intros Hf L. destruct (field_data f Hf L) as [E _]. rewrite size_data, <- E, Nat2Z.id, length_app by done. split_and!; try done; try lia. apply take_app_length.
Qed.

Lemma compare_str_rhs : is_number pRhs = false → has pRhs MEM_Str = true → compared cmp f pRhs err m (compare_field nKey1 buf ki i idx d pRhs err m).
Proof.
  intros In S. pose proof In as IR. rewrite is_number_parts in IR. apply orb_false_iff in IR as [I R].
  destruct (at_cons _ _ _ _ _ _ _ Hat) as (Hf & _ & _ & Ev & _ & (r & Er & Hr) & Hs & Hle & _). pose proof (at_max _ _ _ _ _ _ Hat) as Hm.
  destruct Hkey as ((Hv & _) & Hn & _). assert (has pRhs MEM_Null = false) as N by (destruct (has pRhs MEM_Null) eqn:N; [destruct (Hn eq_refl) as (_ & F & _); congruence|done]).
  destruct (data_content pRhs Hv N In) as [L B]. assert (value_of pRhs = Text (take (Z.to_nat (n pRhs)) (z pRhs))) as Evr by (unfold value_of; by rewrite N, I, R, S).
  unfold compare_field. rewrite I, R, S, Ev, Er. cbn [mbind option_bind]. unfold compared. rewrite Evr.
  destruct (plain_cases f Hf Hplain) as [[E0 ->]|[(Hint & N0 & L10 & N7 & ->)|[(E7 & Hnan & ->)|(L12 & Edv)]]].
  - rewrite E0. by exists 0, (-1).
  - rewrite (proj2 (Z.ltb_lt _ _)) by lia. exists f.1, (-1). split_and!; try done. cbn. lia.
  - rewrite E7. by exists 7, (-1).
  - rewrite (proj2 (Z.ltb_ge _ _)), even_test by lia. rewrite Edv. assert ((f.1 =? 0) = false) as E0 by lia. destruct (Z.even f.1).
    { exists f.1, 1. split_and!; try done. }
    destruct (data_field r Hf L12) as (El & Es & Et & Hk). assert (0 ≤ d) as Hd by (destruct Hat as [(A & BB & pad & _ & -> & -> & -> & ->) _ _ _]; lia). rewrite u32_id by (unfold is_u32; lia).
    rewrite (proj2 (Z.ltb_ge nKey1 _)), (proj2 (Z.leb_gt (nAllField ki) _)), Hcoll by lia. cbn [orb mbind option_bind]. destruct coll as [c|]; cbn [collates] in Hcmp.
    + destruct Hcmp as [Ee Hc]. unfold vdbeCompareMemString, content. cbn [enc z n]. rewrite Ee, Z.eqb_refl, !sub_content by done. rewrite Et. cbn [mbind option_bind].
      destruct Hf as (_ & _ & Hb). destruct (Hc f.2 (take (Z.to_nat (n pRhs)) (z pRhs)) Hb ltac:(by apply Forall_take)) as (rc & -> & Hrc). cbn [mbind option_bind].
      exists f.1, rc. split; [done|]. split; [exact Hrc|]. done.
    + destruct (compare_bytes (f.2 ++ r) (z pRhs) _ _ Hk L) as (rc & -> & Hrc). cbn [mbind option_bind]. rewrite Et, <- Hcmp in Hrc.
      eexists f.1, _. split; [done|]. split; [exact Hrc|]. done.
Qed.

Lemma compare_blob_rhs : is_number pRhs = false → has pRhs MEM_Str = false → has pRhs MEM_Blob = true → compared cmp f pRhs err m (compare_field nKey1 buf ki i idx d pRhs err m).
Proof.
  intros In S Bl. pose proof In as IR. rewrite is_number_parts in IR. apply orb_false_iff in IR as [I R].
  destruct (at_cons _ _ _ _ _ _ _ Hat) as (Hf & _ & _ & Ev & _ & (r & Er & Hr) & Hs & Hle & _). pose proof (at_max _ _ _ _ _ _ Hat) as Hm.
  destruct Hkey as ((Hv & Hz) & Hn & _). assert (has pRhs MEM_Null = false) as N by (destruct (has pRhs MEM_Null) eqn:N; [destruct (Hn eq_refl) as (_ & _ & F); congruence|done]).
  destruct (data_content pRhs Hv N In) as [L B]. assert (value_of pRhs = Blob (data pRhs)) as Evr by (unfold value_of; by rewrite N, I, R, S).
  unfold compare_field. rewrite I, R, S, Bl, Ev, Er. cbn [mbind option_bind]. unfold compared. rewrite Evr.
  destruct (plain_cases f Hf Hplain) as [[E0 ->]|[(Hint & N0 & L10 & N7 & ->)|[(E7 & Hnan & ->)|(L12 & Edv)]]].
  - rewrite E0. by exists 0, (-1).
  - rewrite (proj2 (Z.ltb_lt _ _)) by lia. exists f.1, (-1). split_and!; try done. cbn. lia.
  - rewrite E7. by exists 7, (-1).
  - rewrite (proj2 (Z.ltb_ge _ _)), even_test by lia. rewrite Edv. assert ((f.1 =? 0) = false) as E0 by lia. destruct (Z.even f.1); cbn [orb negb]; [|exists f.1, (-1); by split_and!].
    destruct (data_field r Hf L12) as (El & Es & Et & Hk). assert (0 ≤ d) as Hd by (destruct Hat as [(A & BB & pad & _ & -> & -> & -> & ->) _ _ _]; lia). rewrite u32_id by (unfold is_u32; lia).
    rewrite (proj2 (Z.ltb_ge nKey1 _)) by lia. unfold data, zeros. destruct (has pRhs MEM_Zero) eqn:E.
    + rewrite (Hz eq_refl). change (Z.to_nat 0) with O. rewrite take_0. cbn [app]. destruct (vo_zero _ Hv N E) as [_ Hnz]. rewrite isAllZero_spec by lia. cbn [mbind option_bind].
      rewrite Et, <- El, Nat2Z.id. destruct Hf as (_ & _ & Hb). eexists f.1, _. split; [done|]. split; [|split; [done|by intros _]]. unfold compare_vals. cbn [rank Z.eqb Pos.eqb negb]. case_bool_decide as Hbd; cbn [negb].
      * rewrite Hbd at 2. rewrite lex_zeros, sgn_sgn_cmp, Z2Nat.id by lia. done.
      * rewrite lex_antisym, lex_zeros_data by done. done.
    + cbn [replicate]. rewrite app_nil_r. destruct (compare_bytes (f.2 ++ r) (z pRhs) _ _ Hk L) as (rc & -> & Hrc). cbn [mbind option_bind]. rewrite Et in Hrc.
      eexists f.1, _. split; [done|]. split; [exact Hrc|]. done.
Qed.

Lemma compare_null_rhs : has pRhs MEM_Null = true → compared cmp f pRhs err m (compare_field nKey1 buf ki i idx d pRhs err m).
Proof.
  intros N. destruct Hkey as (_ & Hn & _). destruct (Hn N) as (In & S & Bl). rewrite is_number_parts in In. apply orb_false_iff in In as [I R].
  destruct (at_cons _ _ _ _ _ _ _ Hat) as (Hf & _ & _ & _ & (x & Ex & Hx & Hx1 & Hx2) & (r & Er & Hr) & _ & _ & _). unfold compare_field. rewrite I, R, S, Bl, Ex, Er. cbn [mbind option_bind].
  assert (value_of pRhs = Null) as Evr by (unfold value_of; by rewrite N). unfold compared. rewrite Evr.
  destruct (plain_cases f Hf Hplain) as [[E0 ->]|[(Hint & N0 & L10 & N7 & ->)|[(E7 & Hnan & ->)|(L12 & Edv)]]].
  - rewrite Hx1 by lia. rewrite E0. by exists 0, 0.
  - rewrite Hx1 by lia. rewrite !(proj2 (Z.eqb_neq f.1 _)) by lia. cbn [orb]. exists f.1, 1. split_and!; try done. cbn. lia.
  - rewrite Hx1 by lia. rewrite E7. cbn [Z.eqb Pos.eqb orb]. destruct (field_real f Hf E7) as (Eb & Hu & _). rewrite Eb, (proj2 (get_double _ r _ Hu)), Hnan. by exists 7, 1.
  - assert (10 < x) as Lx by (destruct Hplain as (? & ? & _); destruct (Z.lt_ge_cases f.1 128); lia). rewrite !(proj2 (Z.eqb_neq x _)) by lia. cbn [orb].
    exists x, 1. rewrite Edv. split; [done|]. split; [by destruct (Z.even f.1)|]. split; [destruct (Z.even f.1); cbn; lia|done].
Qed.

(** A field against a value of the key: the order of their values. *)
Lemma compare_field_spec : compared cmp f pRhs err m (compare_field nKey1 buf ki i idx d pRhs err m).
Proof.
  destruct (has pRhs MEM_Null) eqn:N; [by apply compare_null_rhs|].
  destruct (has pRhs (Z.lor MEM_Int MEM_IntReal)) eqn:I; [by apply compare_int_rhs|]. destruct (has pRhs MEM_Real) eqn:R; [by apply compare_real_rhs|].
  assert (is_number pRhs = false) as In by (by rewrite is_number_parts, I, R). destruct Hkey as (_ & _ & Ht). rewrite N, In in Ht.
  destruct (has pRhs MEM_Str) eqn:S; [by apply compare_str_rhs|by apply compare_blob_rhs].
Qed.

End compare_field.

(** ** Comparing a record with a key *)

(** A column of the key: its sort flags, and the order of its texts. *)
Definition column : Type := Z * (bytes → bytes → Z).

(** Nulls are the least values, or the greatest with [KEYINFO_ORDER_BIGNULL];
    [KEYINFO_ORDER_DESC] turns the order round. *)
Definition field_order (col : column) (v k : val) : Z :=
  let c := compare_vals col.2 v k in
  let c := if Z.testbit col.1 1 && (is_null v || is_null k) then - c else c in
  if Z.testbit col.1 0 then - c else c.

(** The first column that differs decides. *)
Fixpoint key_order (cols : list column) (vs ks : list val) : Z :=
  match cols, vs, ks with
  | col :: cols, v :: vs, k :: ks => let c := field_order col v k in if c =? 0 then key_order cols vs ks else c
  | _, _, _ => 0
  end.

(** What the description of the index says of its columns from [i] on. *)
Fixpoint columns (ki : KeyInfo) (i : Z) (cols : list column) : Prop :=
  match cols with
  | [] => True
  | col :: cols =>
      (∃ coll, rd (aSortFlags ki) i = Some col.1 ∧ 0 ≤ col.1 < 4 ∧ rd (aColl ki) i = Some coll ∧ collates coll (key_enc ki) col.2 ∧ 0 ≤ i < nAllField ki) ∧
      columns ki (i + 1) cols
  end.

Lemma is_null_value p : is_null (value_of p) = has p MEM_Null.
Proof. unfold value_of. destruct (has p MEM_Null); [done|]. destruct (has p (Z.lor _ _)); [done|]. destruct (has p MEM_Real); [done|]. by destruct (has p MEM_Str). Qed.

Lemma directed_order col s p c v : 0 ≤ col.1 < 4 → Z.sgn c = compare_vals col.2 v (value_of p) → (s =? 0) = is_null v →
  Z.sgn (directed col.1 s p c) = field_order col v (value_of p).
Proof.
  intros Hf Hc Hs. unfold directed, field_order. rewrite Hs, is_null_value, <- Hc. set (null := is_null v || has p MEM_Null). destruct col as [fl cmp]. cbn [fst snd] in *.
  assert (fl = 0 ∨ fl = 1 ∨ fl = 2 ∨ fl = 3) as [->|[->|[->| ->]]] by lia; destruct null; cbn -[Z.sgn Z.opp];
    try (match goal with |- context [if ?b then _ else _] => let v := eval vm_compute in b in change b with v end; cbv iota); rewrite ?Z.sgn_opp; lia.
Qed.

(** A column in which the values agree has no say. *)
Lemma field_order_zero col v k : field_order col v k = 0 ↔ compare_vals col.2 v k = 0.
Proof. unfold field_order. destruct (_ && _), (Z.testbit col.1 0); lia. Qed.

(** The result of a comparison, and what the key is told. *)
Definition decided (p : UnpackedRecord) (o c : Z) (p' : UnpackedRecord) : Prop :=
  o ≠ 0 ∧ Z.sgn c = o ∧ p' = p ∨ o = 0 ∧ c = default_rc p ∧ p' = set_seen p.

Lemma set_err_id p : set_err p (errCode p) = p.
Proof. by destruct p. Qed.

Lemma compare_fields_spec nKey1 buf szHdr p extra m cols : ∀ i idx d fs ps, at_field buf nKey1 szHdr idx d fs → Forall plain fs → Forall key_cell ps →
  cols ≠ [] → length ps = length cols → (length cols ≤ length fs)%nat → columns (pKeyInfo p) i cols → nField p = i + Z.of_nat (length cols) →
  ∃ c p', compare_fields nKey1 buf szHdr p i idx d (ps ++ extra) m = Some (c, p', m) ∧ decided p (key_order cols (map field_val fs) (map value_of ps)) c p'.
Proof.
  induction cols as [|col cols IH]; intros i idx d fs ps Hat Hpl Hps Hne Hlp Hlf Hcols Hn; [done|]. clear Hne. destruct ps as [|pRhs ps]; [done|]. destruct fs as [|f fs]; [cbn in Hlf; lia|].
  cbn [length] in *. apply Forall_cons in Hpl as [Hf Hpl], Hps as [Hk Hps]. destruct Hcols as [(coll & Efl & Hfl & Ecoll & Hcmp & Hi) Hcols]. cbn [app compare_fields map key_order].
  destruct (compare_field_spec nKey1 buf (pKeyInfo p) i szHdr idx d f fs pRhs (errCode p) m col.2 coll Hat Hf Hk Hi Ecoll Hcmp) as (s & c & -> & Hc & Hs & Hs0).
  cbn [mbind option_bind]. rewrite set_err_id. pose proof (field_order_zero col (field_val f) (value_of pRhs)) as Hz. rewrite <- Hc in Hz.
  destruct (Z.eqb_spec c 0) as [->|Hne]; cbn [negb].
  - rewrite (proj2 Hz), (Hs0 eq_refl) by done. cbn [Z.eqb]. clear Hz Hs Hs0. destruct (Z.eqb_spec (i + 1) (nField p)) as [Elast|Hmore].
    { destruct cols; [|cbn in Hn; lia]. eexists _, _. split; [done|]. right. done. }
    destruct (at_cons _ _ _ _ _ _ _ Hat) as ((Ht & _) & Hidx & Hd & _ & _ & _ & Hsz & Hle & Hat'). pose proof (at_max _ _ _ _ _ _ Hat) as Hm. unfold is_u32 in Ht.
    rewrite (proj1 (size_some f.1 (proj1 Ht))). cbn [mbind option_bind]. rewrite u32_id by (unfold is_u32; lia). rewrite (proj2 (Z.ltb_ge _ _)) by lia.
    rewrite varint_len_ref by lia. cbn [mbind option_bind]. pose proof (ref_len_bounds f.1). destruct cols as [|col2 cols]; [cbn in Hn; lia|]. destruct fs as [|f2 fs]; [cbn in Hlf; lia|].
    destruct (at_cons _ _ _ _ _ _ _ Hat') as (_ & Hidx' & _). rewrite u32_id by (unfold is_u32; lia). rewrite (proj2 (Z.leb_gt _ _)) by lia.
    apply (IH (i + 1) _ _ (f2 :: fs) ps Hat' Hpl Hps); cbn [length] in *; try done; lia.
  - rewrite Efl. cbn [mbind option_bind]. eexists _, _. split; [done|]. left. pose proof (directed_order col s pRhs c (field_val f) Hfl Hc Hs) as Ho.
    assert (field_order col (field_val f) (value_of pRhs) ≠ 0) as Hno by (rewrite Hz; lia). rewrite (proj2 (Z.eqb_neq _ _)) by done. done.
Qed.

(** A key that fits its description. *)
Definition key_cells (p : UnpackedRecord) : list sqlite3_value := take (Z.to_nat (nField p)) (aMem p).

Definition key_vals (p : UnpackedRecord) : list val := map value_of (key_cells p).

Record key_ok (p : UnpackedRecord) (cols : list column) : Prop := {
  key_typed : Forall key_cell (key_cells p);
  key_some : cols ≠ [];
  key_length : nField p = Z.of_nat (length cols) ∧ (length cols ≤ length (aMem p))%nat;
  key_columns : columns (pKeyInfo p) 0 cols
}.

Lemma key_cells_length p cols : key_ok p cols → length (key_cells p) = length cols.
Proof. intros [_ _ [Hn Hl] _]. unfold key_cells. rewrite length_take. lia. Qed.

Lemma compare_spec fs R pad p cols m : record_of fs R → Forall plain fs → is_bytes pad → key_ok p cols → (length cols ≤ length fs)%nat →
  ∃ c p', sqlite3VdbeRecordCompare (Z.of_nat (length R)) (R ++ pad) p m = Some (c, p', m) ∧ decided p (key_order cols (map field_val fs) (key_vals p)) c p'.
Proof.
  intros HR Hpl Hp Hk Hlen. destruct (at_start fs R pad HR Hp) as (H & EH & _ & Hat & _ & Hle). unfold sqlite3VdbeRecordCompare, sqlite3VdbeRecordCompareWithSkip. rewrite EH. cbn [mbind option_bind].
  rewrite (proj2 (Z.ltb_ge _ _)) by done. rewrite <- (take_drop (Z.to_nat (nField p)) (aMem p)). fold (key_cells p). pose proof (key_cells_length p cols Hk) as Lk. destruct Hk as [Ht Hs [Hn Hl] Hc].
  destruct (compare_fields_spec _ _ H p (drop (Z.to_nat (nField p)) (aMem p)) m cols 0 _ _ fs (key_cells p) Hat) as (c & p' & E & Hd); try done. eauto.
Qed.

(** *** The fast routines *)

(** From the second field on. *)
Lemma skip_spec f fs buf nKey H p col cols m : at_field buf nKey H 1 H (f :: fs) → rd buf 0 = Some H → Forall plain fs → key_ok p (col :: cols) →
  (length cols ≤ length fs)%nat → cols ≠ [] → field_order col (field_val f) (hd Null (key_vals p)) = 0 →
  ∃ c p', sqlite3VdbeRecordCompareWithSkip nKey buf p true m = Some (c, p', m) ∧
    decided p (key_order (col :: cols) (map field_val (f :: fs)) (key_vals p)) c p'.
Proof.
  intros Hat E0 Hpl Hk Hlen Hne Ho. unfold sqlite3VdbeRecordCompareWithSkip. destruct (at_cons _ _ _ _ _ _ _ Hat) as ((Ht & _) & Hidx & Hd & Ev & _ & _ & Hsz & Hle & Hat'). pose proof (at_max _ _ _ _ _ _ Hat) as Hm.
  change (Z.to_nat 1) with 1%nat in Ev. rewrite Ev, E0. unfold is_u32 in Ht. cbn [mbind option_bind]. rewrite (proj1 (size_some f.1 (proj1 Ht))). cbn [mbind option_bind].
  pose proof (key_cells_length p _ Hk) as Lk. unfold key_vals in *. unfold key_cells in *. destruct Hk as [Htp _ [Hn Hl] [_ Hc]]. destruct (aMem p) as [|p0 cells] eqn:Ea; [cbn in Hl; lia|]. cbn [mbind option_bind].
  rewrite u32_id by (unfold is_u32; lia). rewrite (proj2 (Z.ltb_ge _ _)) by lia. cbn [length] in *. unfold key_cells in Htp. rewrite Ea in Htp.
  replace (Z.to_nat (nField p)) with (S (length cols)) in * by lia. cbn [take map hd length] in *. apply Forall_cons in Htp as [_ Htp].
  rewrite <- (take_drop (length cols) cells). destruct (compare_fields_spec nKey buf H p (drop (length cols) cells) m cols 1 _ _ fs (take (length cols) cells) Hat') as (c & p' & E & Hdec); try done; [lia..|].
  rewrite E. eexists _, _. split; [done|]. cbn [key_order]. rewrite take_drop, Ho. exact Hdec.
Qed.

(** Once a routine has compared the first field itself. *)
Definition fast_dir (p : UnpackedRecord) (col : column) : Prop :=
  col.1 = 0 ∧ r1 p = -1 ∧ r2 p = 1 ∨ col.1 = 1 ∧ r1 p = 1 ∧ r2 p = -1.

Lemma fast_spec f fs buf nKey H p col cols m c : at_field buf nKey H 1 H (f :: fs) → rd buf 0 = Some H → Forall plain fs → key_ok p (col :: cols) →
  (length cols ≤ length fs)%nat → fast_dir p col → Z.sgn c = compare_vals col.2 (field_val f) (hd Null (key_vals p)) →
  ∃ c' p', (if c <? 0 then Some (r1 p, p, m) else if 0 <? c then Some (r2 p, p, m) else if 1 <? nField p then sqlite3VdbeRecordCompareWithSkip nKey buf p true m
            else Some (default_rc p, set_seen p, m)) = Some (c', p', m) ∧ decided p (key_order (col :: cols) (map field_val (f :: fs)) (key_vals p)) c' p'.
Proof.
  intros Hat E0 Hpl Hk Hlen Hdir Hc. pose proof (field_order_zero col (field_val f) (hd Null (key_vals p))) as Hz. rewrite <- Hc in Hz.
  assert (field_order col (field_val f) (hd Null (key_vals p)) = if col.1 =? 0 then Z.sgn c else - Z.sgn c) as Ho.
  { unfold field_order. rewrite <- Hc. destruct Hdir as [[-> _]|[-> _]]; done. }
  destruct (Z.ltb_spec c 0) as [Hneg|Hnn]; [|destruct (Z.ltb_spec 0 c) as [Hpos|Hnp]; [|assert (c = 0) as -> by lia; destruct (Z.ltb_spec 1 (nField p)) as [Hmore|Hone]]].
  3: { apply (skip_spec f fs buf nKey H p col cols m); try done; [|by apply Hz]. intros ->. destruct Hk as [_ _ [Hn _] _]. cbn in Hn. lia. }
  all: eexists _, _; split; [done|]; pose proof (key_cells_length p _ Hk) as Lk; unfold key_vals in *; destruct (key_cells p) as [|p0 ps]; [done|]; cbn [map hd key_order] in *.
  - left. rewrite Ho, (Z.sgn_neg c) in * by done. destruct Hdir as [(E1 & E2 & E3)|(E1 & E2 & E3)]; rewrite E1; (rewrite E2 || rewrite E3); done.
  - left. rewrite Ho, (Z.sgn_pos c) in * by done. destruct Hdir as [(E1 & E2 & E3)|(E1 & E2 & E3)]; rewrite E1; (rewrite E2 || rewrite E3); done.
  - right. destruct cols as [|? ?]; [|destruct Hk as [_ _ [Hn _] _]; cbn in Hn; lia]. rewrite (proj2 Hz) by done. done.
Qed.

Lemma first_int_none t b : 10 ≤ t → first_int t b = Some None.
Proof. intros H. destruct t as [|t|t]; [lia| |lia]. do 4 (destruct t as [t|t|]; try lia; try reflexivity). Qed.

Lemma int_spec f fs buf nKey H p col cols m : at_field buf nKey H 1 H (f :: fs) → rd buf 0 = Some H → H < 64 → Forall plain (f :: fs) → key_ok p (col :: cols) →
  (length cols ≤ length fs)%nat → fast_dir p col → hd Null (key_vals p) = Integer (u_int p) →
  (∃ c p', sqlite3VdbeRecordCompare nKey buf p m = Some (c, p', m) ∧ decided p (key_order (col :: cols) (map field_val (f :: fs)) (key_vals p)) c p') →
  ∃ c p', vdbeRecordCompareInt nKey buf p m = Some (c, p', m) ∧ decided p (key_order (col :: cols) (map field_val (f :: fs)) (key_vals p)) c p'.
Proof.
  intros Hat E0 H64 [Hf Hpl]%Forall_cons Hk Hlen Hdir Hv Hgen. unfold vdbeRecordCompareInt. destruct (at_cons _ _ _ _ _ _ _ Hat) as (Hr & Hidx & Hd & _ & (x & Ex & Hx & Hx1 & Hx2) & (r & Er & _) & _).
  rewrite E0, Ex. cbn [mbind option_bind]. rewrite (land_low _ 6) by done. change (2 ^ 6) with 64. rewrite Z.mod_small by lia. rewrite Er.
  destruct (plain_cases f Hr Hf) as [[Et _]|[(Hint & _ & L10 & _ & Efv)|[(E7 & _)|(L12 & _)]]].
  - rewrite Hx1, Et by lia. done.
  - rewrite Hx1 by lia. destruct (raw_int f Hr Hint) as (_ & Ht & Eb & _). rewrite Eb, (proj2 (proj2 (get_int _ _ r (mk_value 0 (mem [] 0 0 0 false)) Ht))). cbn [mbind option_bind].
    destruct (fast_spec f fs buf nKey H p col cols m (int_of f - u_int p) Hat E0 Hpl Hk Hlen Hdir) as (c & p' & E & Hdec); [by rewrite Efv, Hv, compare_ints, sgn_sgn_cmp|].
    replace (int_of f - u_int p <? 0) with (int_of f <? u_int p) in E by lia. replace (0 <? int_of f - u_int p) with (u_int p <? int_of f) in E by lia. eauto.
  - rewrite Hx1, E7 by lia. done.
  - rewrite first_int_none by (destruct (Z.lt_ge_cases f.1 128); lia). done.
Qed.

Lemma compare_string_spec f fs buf nKey H p col cols m txt : at_field buf nKey H 1 H (f :: fs) → rd buf 0 = Some H → Forall plain (f :: fs) → key_ok p (col :: cols) →
  (length cols ≤ length fs)%nat → fast_dir p col → hd Null (key_vals p) = Text txt → txt = take (Z.to_nat (u_n p)) (u_z p) → 0 ≤ u_n p ≤ Z.of_nat (length (u_z p)) →
  (∀ a b, col.2 a b = byte_order a b) →
  ∃ c p', compare_string nKey buf f.1 p m = Some (c, p', m) ∧ decided p (key_order (col :: cols) (map field_val (f :: fs)) (key_vals p)) c p'.
Proof.
  intros Hat E0 [Hf Hpl]%Forall_cons Hk Hlen Hdir Hv Htxt Hn Hlex. destruct (at_cons _ _ _ _ _ _ _ Hat) as (Hr & Hidx & Hd & _ & _ & (r & Er & _) & _ & Hle & _).
  pose proof (λ c, fast_spec f fs buf nKey H p col cols m c Hat E0 Hpl Hk Hlen Hdir) as Hfast. rewrite Hv in Hfast. unfold compare_string.
  destruct (plain_cases f Hr Hf) as [[Et Ev]|[(Hint & _ & L10 & _ & Ev)|[(E7 & _ & Ev)|(L12 & Ev)]]].
  1-3: rewrite (proj2 (Z.ltb_lt _ _)) by lia; destruct (Hfast (-1)) as (c & p' & E & Hdec); [by rewrite Ev|]; cbn in E; eauto.
  rewrite (proj2 (Z.ltb_ge _ _)), even_test by lia. destruct (Z.even f.1).
  { destruct (Hfast 1) as (c & p' & E & Hdec); [by rewrite Ev|]. cbn in E. eauto. }
  destruct (data_field f r Hr L12) as (El & Es & Et & Hkk). rewrite E0. cbn [mbind option_bind]. rewrite (proj2 (Z.ltb_ge _ _)), Er by lia.
  rewrite Z.min_comm. destruct (compare_bytes (f.2 ++ r) (u_z p) _ _ Hkk Hn) as (res & -> & Hres). cbn [mbind option_bind]. rewrite Et, <- Htxt in Hres.
  destruct (Hfast (if res =? 0 then (f.1 - 12) `div` 2 - u_n p else res)) as (c & p' & E & Hdec); [by rewrite Ev, Hres, <- Hlex|].
  exists c, p'. split; [|done]. rewrite <- E. set (k := (f.1 - 12) `div` 2 - u_n p). clear E Hres. destruct (Z.eqb_spec res 0) as [Ez|Hne]; [rewrite Ez|]; cbn [Z.ltb Z.compare].
  - destruct (Z.eqb_spec k 0) as [->|Hk0]; [done|]. destruct (Z.ltb_spec k 0), (Z.ltb_spec 0 k); try done; lia.
  - destruct (Z.ltb_spec 0 res), (Z.ltb_spec res 0); try done; lia.
Qed.

Lemma string_spec f fs buf nKey H p col cols m txt : at_field buf nKey H 1 H (f :: fs) → rd buf 0 = Some H → nKey ≤ 1000000000 → Forall plain (f :: fs) → key_ok p (col :: cols) →
  (length cols ≤ length fs)%nat → fast_dir p col → hd Null (key_vals p) = Text txt → txt = take (Z.to_nat (u_n p)) (u_z p) → 0 ≤ u_n p ≤ Z.of_nat (length (u_z p)) →
  (∀ a b, col.2 a b = byte_order a b) →
  ∃ c p', vdbeRecordCompareString nKey buf p m = Some (c, p', m) ∧ decided p (key_order (col :: cols) (map field_val (f :: fs)) (key_vals p)) c p'.
Proof.
  intros Hat E0 Hmax Hpl Hk Hlen Hdir Hv Htxt Hn Hlex. destruct (at_cons _ _ _ _ _ _ _ Hat) as (Hr & Hidx & Hd & Eg & (x & Ex & Hx & Hx1 & Hx2) & _ & Hsz & Hle & _).
  destruct (compare_string_spec f fs buf nKey H p col cols m txt Hat E0 Hpl Hk Hlen Hdir Hv Htxt Hn Hlex) as (c & p' & E & Hdec).
  exists c, p'. split; [|done]. rewrite <- E. unfold vdbeRecordCompareString. rewrite Ex. cbn [mbind option_bind]. destruct Hr as (Ht & Hl & _). unfold is_u32, is_u8 in *.
  destruct (Z.lt_ge_cases f.1 128) as [Hs|Hb].
  - rewrite Hx1 by done. assert (i8 f.1 = f.1) as -> by (unfold i8; dm). by rewrite (proj2 (Z.ltb_ge _ _)) by lia.
  - specialize (Hx2 Hb). assert (i8 x < 0) as Hneg by (unfold i8; dm). rewrite (proj2 (Z.ltb_lt _ _)) by done. change (Z.to_nat 1) with 1%nat in Eg. unfold getVarint32 in Eg.
    assert (rd (drop 1 buf) 0 = Some x) as Ex' by (unfold rd in *; rewrite decide_True in * by lia; rewrite lookup_drop; exact Ex). rewrite Ex' in Eg. cbn [mbind option_bind] in Eg.
    rewrite (proj2 (Z.ltb_ge _ _)) in Eg by done. rewrite Eg. cbn [mbind option_bind]. rewrite i32_id; [done|]. rewrite size_data in Hsz, Hle by lia. unfold is_i32. dm.
Qed.

(** With at most thirteen fields the header is less than 64 bytes. *)
Lemma header_small fs R : layout fs R → (length fs ≤ 13)%nat → Z.of_nat (length R) ≤ 1000000000 →
  Z.of_nat (length (hdr fs)) < 63.
Proof.
  intros (H & EH & -> & Hf) Hl HR. rewrite !length_app in HR. assert (Z.of_nat (length (hdr fs)) * 134217722 ≤ 4 * 134217722 * Z.of_nat (length fs) + Z.of_nat (length (body fs))) as Hb.
  { clear HR Hl EH. induction Hf as [|f fs Hr Hf IH]; [done|]. rewrite body_length by done. pose proof Hr as (Ht & _). unfold hdr in *. cbn [map concat length]. rewrite length_app. pose proof (ref_encode_length f.1) as Le.
    unfold is_u32 in Ht. destruct (size_some f.1 (proj1 Ht)) as [_ Hs]. assert (ref_len f.1 ≤ 4 ∨ ref_len f.1 = 5 ∧ 268435456 ≤ f.1) as [H4|[H5 Hbig]].
    { unfold ref_len. destruct (Z.ltb_spec f.1 (2 ^ 7)), (Z.ltb_spec f.1 (2 ^ 14)), (Z.ltb_spec f.1 (2 ^ 21)), (Z.ltb_spec f.1 (2 ^ 28)), (Z.ltb_spec f.1 (2 ^ 35)); lia. }
    - lia.
    - rewrite size_data by lia. assert (134217722 ≤ (f.1 - 12) `div` 2) by dm. lia. }
  lia.
Qed.

(** The beginning of a record with few fields. *)
Lemma at_start_small fs R pad : record_of fs R → is_bytes pad → (length fs ≤ 13)%nat → Z.of_nat (length R) ≤ 1000000000 →
  ∃ H, at_field (R ++ pad) (Z.of_nat (length R)) H 1 H fs ∧ rd (R ++ pad) 0 = Some H ∧ H < 64.
Proof.
  intros HR Hp Hl Hmax. pose proof (header_small fs R (proj1 HR) Hl Hmax) as Hh. destruct (at_start fs R pad HR Hp) as (H & EH & Hu & Hat & _).
  pose proof HR as [(H' & EH' & ER & _) _]. destruct (at_split _ _ _ _ _ _ Hat) as (A & B & q & _ & _ & Eh & _). pose proof (ref_len_bounds H) as Bh. unfold is_u32 in Hu.
  pose proof (ref_len_bounds H') as Bh'. assert (ref_len H = 1) as R1 by (apply ref_len_small; lia). assert (ref_len H' = 1) as R1' by (apply ref_len_small; lia).
  rewrite R1 in Hat, Eh. exists H. split; [done|]. split; [|lia]. assert (H' = H) as -> by lia. rewrite ER, ref_encode_small by lia. done.
Qed.

(** Whichever routine is chosen compares as the general one does. *)
Lemma find_spec fs R pad p cols m : record_of fs R → Forall plain fs → is_bytes pad → key_ok p cols → (length cols ≤ length fs)%nat →
  Z.of_nat (length fs) ≤ nAllField (pKeyInfo p) → Z.of_nat (length R) ≤ 1000000000 →
  ∃ x p2 c p', sqlite3VdbeFindCompare p = Some (x, p2) ∧ call x (Z.of_nat (length R)) (R ++ pad) p2 m = Some (c, p', m) ∧
    default_rc p2 = default_rc p ∧ errCode p2 = errCode p ∧ eqSeen p2 = eqSeen p ∧ decided p2 (key_order cols (map field_val fs) (key_vals p)) c p'.
Proof.
  intros HR Hpl Hp Hk Hlen Hall Hmax. assert (∀ p2, key_cells p2 = key_cells p → key_ok p2 cols → ∃ c p', sqlite3VdbeRecordCompare (Z.of_nat (length R)) (R ++ pad) p2 m = Some (c, p', m) ∧ decided p2 (key_order cols (map field_val fs) (key_vals p)) c p') as Hgen.
  { intros p2 E2 Hk2. unfold key_vals. rewrite <- E2. by apply compare_spec. }
  unfold sqlite3VdbeFindCompare. destruct (Z.leb_spec (nAllField (pKeyInfo p)) 13) as [H13|H13].
  2: { destruct (Hgen p) as (c & p' & E & Hd); [done..|]. exists ByFields, p, c, p'. by split_and!. }
  destruct (at_start_small fs R pad HR Hp ltac:(lia) Hmax) as (H & Hat & E0 & H64).
  destruct cols as [|col cols]; [by destruct (key_some _ _ Hk)|]. destruct fs as [|f fs]; [cbn in Hlen; lia|]. cbn [length] in Hlen.
  pose proof (key_cells_length _ _ Hk) as Lk. pose proof (key_columns _ _ Hk) as [(coll & Efl & Hfl & Ecoll & Hcmp & _) _]. pose proof (key_typed _ _ Hk) as Htp. pose proof (key_length _ _ Hk) as [Hn Hl].
  destruct (aMem p) as [|p0 cells] eqn:Ea; [cbn in Hl; lia|]. assert (∃ ps, key_cells p = p0 :: ps) as [ps Eps].
  { unfold key_cells. rewrite Ea. replace (Z.to_nat (nField p)) with (S (length cols)) by (cbn in Hn; lia). by eexists. }
  rewrite Eps in Htp. apply Forall_cons in Htp as [Hk0 _]. change (rd (p0 :: cells) 0) with (Some p0). cbn [mbind option_bind]. rewrite Efl. cbn [mbind option_bind].
  destruct (negb (col.1 =? 0) && negb (Z.land col.1 KEYINFO_ORDER_BIGNULL =? 0)) eqn:Eb.
  { destruct (Hgen p) as (c & p' & E & Hd); [done..|]. exists ByFields, p, c, p'. by split_and!. }
  assert (col.1 = 0 ∨ col.1 = 1) as Hdir.
  { assert (col.1 = 0 ∨ col.1 = 1 ∨ col.1 = 2 ∨ col.1 = 3) as [?|[?|[Ef|Ef]]] by lia; [auto..|by rewrite Ef in Eb|by rewrite Ef in Eb]. }
  assert (∀ a b k x1 x2, let p2 := mk_unpacked (pKeyInfo p) (p0 :: cells) a b k (nField p) (default_rc p) (errCode p) x1 x2 (eqSeen p) in key_cells p2 = key_cells p ∧ key_ok p2 (col :: cols)) as Hp2.
  { intros a b k x1 x2. cbv zeta. split; [unfold key_cells; by rewrite Ea|]. destruct Hk as [K1 K2 K3 K4]. split; unfold key_cells in *; cbn [aMem nField pKeyInfo] in *; rewrite <- ?Ea; done. }
  assert (∃ x1 x2, (if negb (col.1 =? 0) then (1, -1) else (-1, 1)) = (x1, x2) ∧
    ∀ a b k, fast_dir (mk_unpacked (pKeyInfo p) (p0 :: cells) a b k (nField p) (default_rc p) (errCode p) x1 x2 (eqSeen p)) col) as (x1 & x2 & -> & Hfd).
  { unfold fast_dir. destruct Hdir as [-> | ->]; eexists _, _; (split; [done|]); cbn; auto. }
  destruct Hk0 as ((Hv & Hz) & Hnull & Hty). assert (is_number p0 = true → has p0 MEM_Null = false) as Hnn by (intros F; destruct (has p0 MEM_Null); [destruct (Hnull eq_refl); congruence|done]).
  destruct (has p0 MEM_Int) eqn:I.
  { assert (value_of p0 = Integer (u_i p0)) as Ev.
    { unfold value_of. rewrite Hnn, has_lor, I; [done|]. unfold is_number. by rewrite !has_lor, I. }
    destruct (Hp2 (u_i p0) (u_z p) (u_n p) x1 x2) as [Ec Hk2]. set (p2 := mk_unpacked _ _ _ _ _ _ _ _ _ _ _) in *. assert (key_vals p2 = key_vals p) as Ekv by (unfold key_vals; by rewrite Ec).
    destruct (int_spec f fs (R ++ pad) (Z.of_nat (length R)) H p2 col cols m Hat E0 H64 Hpl Hk2) as (c & p' & E & Hd); [lia|apply Hfd| |rewrite Ekv; by apply Hgen|].
    { unfold key_vals. rewrite Ec, Eps. exact Ev. }
    rewrite Ekv in Hd. exists ByInt, p2, c, p'. by split_and!. }
  destruct (has p0 (Z.lor (Z.lor (Z.lor MEM_Real MEM_IntReal) MEM_Null) MEM_Blob)) eqn:Eo; cbn [mbind option_bind].
  { destruct (Hp2 (u_int p) (u_z p) (u_n p) x1 x2) as [Ec Hk2]. destruct (Hgen _ Ec Hk2) as (c & p' & E & Hd). eexists ByFields, _, c, p'. split; [done|]. by split_and!. }
  rewrite Ecoll. cbn [mbind option_bind]. destruct coll as [coll|].
  { destruct (Hp2 (u_int p) (u_z p) (u_n p) x1 x2) as [Ec Hk2]. destruct (Hgen _ Ec Hk2) as (c & p' & E & Hd). eexists ByFields, _, c, p'. split; [done|]. by split_and!. }
  rewrite !has_lor in Eo. apply orb_false_iff in Eo as [[[Er Ei]%orb_false_iff En]%orb_false_iff Ebl]. assert (is_number p0 = false) as Enum by (unfold is_number; by rewrite !has_lor, I, Er, Ei).
  rewrite En, Enum, Ebl in Hty. rewrite orb_false_r in Hty. cbn [orb] in Hty. destruct (data_content p0 Hv En Enum) as [L0 _].
  assert (value_of p0 = Text (take (Z.to_nat (n p0)) (z p0))) as Ev by (unfold value_of; by rewrite En, has_lor, I, Ei, Er, Hty).
  destruct (Hp2 (u_int p) (z p0) (n p0) x1 x2) as [Ec Hk2]. set (p2 := mk_unpacked _ _ _ _ _ _ _ _ _ _ _) in *. assert (key_vals p2 = key_vals p) as Ekv by (unfold key_vals; by rewrite Ec).
  destruct (string_spec f fs (R ++ pad) (Z.of_nat (length R)) H p2 col cols m (take (Z.to_nat (n p0)) (z p0)) Hat E0 Hmax Hpl Hk2) as (c & p' & E & Hd); try done; [lia|apply Hfd| |].
  { unfold key_vals. rewrite Ec, Eps. exact Ev. }
  rewrite Ekv in Hd. exists ByString, p2, c, p'. by split_and!.
Qed.

(** ** Damaged records *)

Lemma ref_decode_total more : ∀ p k acc, 0 ≤ k → k + Z.of_nat more + 1 ≤ Z.of_nat (length p) → ∃ n v, ref_decode more p k acc = Some (n, v) ∧ k + 1 ≤ n ≤ k + Z.of_nat more + 1.
Proof.
  induction more as [|more IH]; intros p k acc Hk Hl; cbn [ref_decode].
  all: assert (∃ x, rd p k = Some x) as [x ->] by (unfold rd; rewrite decide_True by done; apply lookup_lt_is_Some_2; lia); cbn [mbind option_bind].
  - eexists _, _. split; [done|]. lia.
  - destruct (x <? 128); [eexists _, _; split; [done|lia]|]. destruct (IH p (k + 1) (Z.lor (Z.shiftl acc 7) (Z.land x 0x7f))) as (n & v & -> & Hn); [lia..|]. eexists _, _. split; [done|]. lia.
Qed.

Lemma varint_total p : is_bytes p → 9 ≤ Z.of_nat (length p) → ∃ k t, getVarint32 p = Some (k, t) ∧ 1 ≤ k ≤ 9 ∧ is_u32 t.
Proof.
  intros Hp Hl. destruct (ref_decode_total 8 p 0 0) as (k & v & E & Hk); [lia..|]. pose proof (ref_decode_range 8 p 0 0 k v Hp ltac:(done) ltac:(lia) E) as Hv.
  rewrite <- get_varint_ref in E by done. rewrite (getvarint32_clamps p k v Hp E). eexists _, _. split; [done|]. unfold is_u64, is_u32 in *. lia.
Qed.

(** Any bytes are the field that their type says, if there are enough. *)
Lemma raw_any t b : is_u32 t → is_bytes b → size t ≤ Z.of_nat (length b) → let f := (t, take (Z.to_nat (size t)) b) in
  raw_ok f ∧ f.2 ++ drop (Z.to_nat (size t)) b = b ∧ is_bytes (drop (Z.to_nat (size t)) b).
Proof.
  intros Ht Hb Hl. cbv zeta. destruct (size_some t (proj1 Ht)) as [_ Hs]. split; [|split; [apply take_drop|by apply Forall_drop]].
  split; [done|]. cbn [fst snd]. rewrite length_take. split; [lia|by apply Forall_take].
Qed.

Lemma size_number t : 0 ≤ t < 12 → size t ≤ 8.
Proof.
  intros Ht. assert (forallb (λ k, size (Z.of_nat k) <=? 8) (seq 0 12) = true) as Hall by (vm_compute; reflexivity).
  rewrite forallb_forall in Hall. specialize (Hall (Z.to_nat t)). rewrite Z2Nat.id in Hall by lia. apply Z.leb_le, Hall, in_seq. lia.
Qed.

Lemma size_max t : is_u32 t → 0 ≤ size t < 2147483648.
Proof.
  intros Ht. unfold is_u32 in Ht. destruct (Z.lt_ge_cases t 12) as [H|H]; [pose proof (size_number t ltac:(lia)); pose proof (size_some t ltac:(lia)); lia|].
  rewrite size_data by done. dm.
Qed.

Lemma unpack_loop_any e nField aKey nKey szHdr : is_bytes aKey → nKey + 9 ≤ Z.of_nat (length aKey) → nKey < 2147483648 → ∀ cells idx d u_, 0 ≤ idx → 0 ≤ d →
  szHdr ≤ nKey ∨ nKey < d → 0 ≤ u_ < nField → nField - u_ ≤ Z.of_nat (length cells) → cells_ok cells →
  ∃ l d', unpack_loop e nField aKey nKey szHdr idx d u_ cells = Some (l, drop (length l) cells, d') ∧ Z.of_nat (length l) ≤ nField - u_ ∧
    (Forall value_ok l ∨ nKey < d' ∧ ∃ l0 q, l = l0 ++ [q] ∧ Forall value_ok l0 ∧ is_u64 (u q)).
Proof.
  intros Hb Hlen Hmax. induction cells as [|pMem cells IH]; intros idx d u_ Hi Hd Hs Hu Hc Hok; [cbn in Hc; lia|]. rewrite unpack_loop_eq.
  destruct (Z.ltb_spec idx szHdr) as [Hlt|Hge]; [|exists [], d; cbn; split; [done|]; split; [lia|by left]].
  destruct (Z.leb_spec d nKey) as [Hle|Hgt]; [|exists [], d; cbn; split; [done|]; split; [lia|by left]]. cbn [andb]. apply Forall_cons in Hok as [Hp Hok].
  destruct (varint_total (drop (Z.to_nat idx) aKey)) as (k & t & -> & Hk & Ht); [by apply Forall_drop|rewrite length_drop; lia|]. cbn [mbind option_bind].
  set (c := mk_value (u pMem) (mem [] (n pMem) (flags pMem) e false)). set (here := drop (Z.to_nat d) aKey). assert (is_bytes here) as Hh by by apply Forall_drop.
  assert (Z.of_nat (length here) = Z.of_nat (length aKey) - d) as Lh by (unfold here; rewrite length_drop; lia). pose proof (size_max t Ht) as Hsz.
  assert (∃ q, sqlite3VdbeSerialGet here t c = Some q ∧ is_u64 (u q) ∧ (d + size t ≤ nKey ∨ t < 12 → value_ok q)) as (q & -> & Hq & Hval).
  { destruct (Z.le_gt_cases (size t) (Z.of_nat (length here))) as [Hfit|Hbig].
    - destruct (raw_any t here Ht Hh Hfit) as (Hr & Ehr & Hb2). destruct (get_field _ _ c Hr Hb2 Hp) as (q & Eq & _ & Hok'). cbn [fst snd] in Eq. cbn [snd] in Ehr. rewrite Ehr in Eq. exists q. split; [done|]. split; [|done]. by apply (vo_union _ Hok').
    - assert (12 ≤ t) as H12 by (destruct (Z.lt_ge_cases t 12); [pose proof (size_number t); unfold is_u32 in Ht; lia|done]). rewrite serial_get_data by done. eexists. split; [done|]. split; [done|lia]. }
  cbn [mbind option_bind]. rewrite (proj1 (size_some t (proj1 Ht))). cbn [mbind option_bind]. rewrite u32_id by (unfold is_u32; lia). cbn [length] in Hc.
  assert (Forall value_ok [q] ∨ nKey < d + size t ∧ ∃ l0 q', [q] = l0 ++ [q'] ∧ Forall value_ok l0 ∧ is_u64 (u q')) as Hone.
  { destruct (Z.le_gt_cases (d + size t) nKey) as [H1|H1]; [left; constructor; auto|right; split; [lia|]; exists [], q; split; [done|]; split; [constructor|done]]. }
  destruct (Z.leb_spec nField (u_ + 1)) as [Hlast|Hmore]; [exists [q], (d + size t); split; [done|]; cbn; split; [lia|done]|].
  destruct (Z.le_gt_cases (d + size t) nKey) as [H1|H1].
  - destruct (IH (idx + k) (d + size t) (u_ + 1)) as (l & d' & -> & Hl & Hcase); [lia..|done|]. cbn [mbind option_bind]. exists (q :: l), d'. split; [done|]. cbn [length]. split; [lia|].
    destruct Hcase as [Hcase|(Hd' & l0 & q' & -> & Hl0 & Hq')]; [left; constructor; auto|right; split; [done|]; exists (q :: l0), q'; split_and!; [done|constructor; auto|done]].
  - rewrite unpack_loop_eq, (proj2 (Z.leb_gt _ nKey)), andb_false_r by lia. cbn [mbind option_bind]. exists [q], (d + size t). cbn [length]. split; [done|]. split; [lia|done].
Qed.

Lemma unpack_any_spec ki nKey aKey p : is_bytes aKey → 0 ≤ nKey < 2147483648 → nKey + 9 ≤ Z.of_nat (length aKey) → 1 ≤ nField p ≤ Z.of_nat (length (aMem p)) → cells_ok (aMem p) →
  ∃ p', sqlite3VdbeRecordUnpack ki nKey aKey p = Some p' ∧ 0 ≤ nField p' ≤ nField p ∧ length (aMem p') = length (aMem p) ∧
    Forall value_ok (take (Z.to_nat (nField p')) (aMem p')).
Proof.
  intros Hb Hn Hlen Hf Hok. unfold sqlite3VdbeRecordUnpack. destruct (varint_total aKey Hb ltac:(lia)) as (k & H & -> & Hk & Hu). unfold is_u32 in Hu. cbn [mbind option_bind].
  destruct (unpack_loop_any (key_enc ki) (nField p) aKey nKey H Hb Hlen ltac:(lia) (aMem p) k H 0) as (l & d' & -> & Hl & Hcase); [lia..|done|]. cbn [mbind option_bind].
  set (l' := if (nKey <? d') && negb (bool_decide (l = [])) then set_last_null l else l). assert (length l' = length l ∧ Forall value_ok l') as [El Hl'].
  { unfold l'. assert (∀ l0 q, is_u64 (u q) → Forall value_ok l0 → length (set_last_null (l0 ++ [q])) = length (l0 ++ [q]) ∧ Forall value_ok (set_last_null (l0 ++ [q]))) as Hset.
    { intros l0 q Hq H0. unfold set_last_null. rewrite rev_app_distr. cbn [rev app]. rewrite rev_involutive, !length_app. split; [done|]. apply Forall_app_2; [done|]. constructor; [|done]. by apply null_cell. }
    destruct Hcase as [Hall|(Hd & l0 & q & -> & H0 & Hq)].
    - destruct ((nKey <? d') && _) eqn:E; [|done]. destruct l as [|q l0 _] using rev_ind; [cbn in E; rewrite andb_false_r in E; done|]. apply Forall_app in Hall as [H0 Hq]. apply Forall_cons in Hq as [Hq _]. apply Hset; [by apply vo_union|done].
    - rewrite (proj2 (Z.ltb_lt _ _)), bool_decide_false by (done || by destruct l0). by apply Hset. }
  eexists. split; [done|]. unfold set_fields. cbn [nField aMem]. rewrite Nat2Z.id, <- El, take_app_length, length_app, length_drop, El. split_and!; [lia|lia|lia|done].
Qed.

(** *** Comparing damaged records *)

Lemma number_any t b p : is_u32 t → t < 12 → is_bytes b → 8 ≤ Z.of_nat (length b) → is_u64 (u p) →
  (∃ q, sqlite3VdbeSerialGet b t p = Some q) ∧ (∃ k q, serialGet7 b p = Some (k, q)) ∧ (is_int t = true → ∃ i, vdbeRecordDecodeInt t b = Some i).
Proof.
  intros Ht H12 Hb Hl Hp. unfold is_u32 in Ht. pose proof (size_number t ltac:(lia)). split; [|split].
  - destruct (raw_any t b Ht Hb ltac:(lia)) as (Hr & Eb & Hb2). destruct (get_field _ _ p Hr Hb2 Hp) as (q & E & _). cbn [fst snd] in E, Eb. rewrite Eb in E. eauto.
  - destruct (raw_any 7 b ltac:(done) Hb Hl) as (Hr & Eb & Hb2). destruct (field_real _ Hr eq_refl) as (E7 & Hu & _). pose proof (proj2 (get_double _ (drop (Z.to_nat (size 7)) b) p Hu)) as E.
    cbn [snd] in E7, Eb, E. rewrite <- E7, Eb in E. eauto.
  - intros Hi. destruct (raw_any t b Ht Hb ltac:(lia)) as (Hr & Eb & Hb2). destruct (raw_int _ Hr Hi) as (_ & Hty & E & _). cbn [fst] in Hty, E.
    pose proof (proj1 (proj2 (get_int _ _ (drop (Z.to_nat (size t)) b) p Hty))) as E2. cbn [snd] in E, Eb. rewrite <- E, Eb in E2. eauto.
Qed.

Lemma compare_field_any nKey buf ki i idx d pRhs err m cmp coll : is_bytes buf → nKey + 18 ≤ Z.of_nat (length buf) → nKey < 2147483648 → 0 ≤ d ≤ nKey → 0 ≤ idx → idx + 9 ≤ Z.of_nat (length buf) →
  key_cell pRhs → 0 ≤ i < nAllField ki → rd (aColl ki) i = Some coll → collates coll (key_enc ki) cmp →
  ∃ s rc err', compare_field nKey buf ki i idx d pRhs err m = Some (s, rc, err', m) ∧ is_u32 s ∧ (rc = None → err' = SQLITE_CORRUPT) ∧ (rc ≠ None → err' = err).
Proof.
  intros Hb Hlen Hmax Hd Hi0 Hi Hkey Hi2 Hcoll Hcmp. unfold compare_field. set (here := drop (Z.to_nat d) buf). assert (is_bytes here) as Hh by by apply Forall_drop.
  assert (Z.of_nat (length here) = Z.of_nat (length buf) - d) as Lh by (unfold here; rewrite length_drop; lia).
  assert (∃ x, rd buf idx = Some x ∧ is_u8 x) as (x & Ex & Hx).
  { unfold rd. rewrite decide_True by done. destruct (lookup_lt_is_Some_2 buf (Z.to_nat idx)) as [x E]; [lia|]. exists x. split; [done|]. exact (Forall_lookup_1 _ _ _ _ Hb E). }
  assert (is_u32 x) as Hx32 by (unfold is_u8, is_u32 in *; lia). set (mem1 := mk_value 0 (mem [] 0 0 0 false)).
  destruct (varint_total (drop (Z.to_nat idx) buf)) as (k & t & Ev & Hk & Ht); [by apply Forall_drop|rewrite length_drop; lia|].
  destruct Hkey as ((Hv & Hz) & Hnull & Hty).
  destruct (has pRhs (Z.lor MEM_Int MEM_IntReal)) eqn:I; [|destruct (has pRhs MEM_Real) eqn:R].
  - rewrite Ex. cbn [mbind option_bind]. destruct (Z.leb_spec 10 x); [by eexists _, _, _|]. destruct (Z.eqb_spec x 0); [by eexists _, _, _|].
    destruct (number_any x here mem1 Hx32 ltac:(lia) Hh ltac:(lia) ltac:(done)) as (_ & (k7 & q & E7) & Hint). destruct (Z.eqb_spec x 7); [rewrite E7; by eexists _, _, _|].
    destruct Hint as [j ->]; [unfold is_int, is_u8 in *; lia|]. by eexists _, _, _.
  - rewrite Ex. cbn [mbind option_bind]. destruct (Z.leb_spec 10 x); [by eexists _, _, _|]. destruct (Z.eqb_spec x 0); [by eexists _, _, _|].
    destruct (number_any x here mem1 Hx32 ltac:(lia) Hh ltac:(lia) ltac:(done)) as ((q2 & E2) & (k7 & q & E7) & _). destruct (Z.eqb_spec x 7); [rewrite E7; by eexists _, _, _|].
    rewrite E2. by eexists _, _, _.
  - assert (is_number pRhs = false) as In by (by rewrite is_number_parts, I, R). assert (t < 12 ∨ 0 ≤ (t - 12) `div` 2 < 2147483648) as Hks by (unfold is_u32 in Ht; destruct (Z.lt_ge_cases t 12); [by left|right; dm]).
    destruct (has pRhs MEM_Str) eqn:S; [|destruct (has pRhs MEM_Blob) eqn:Bl].
    + assert (has pRhs MEM_Null = false) as N by (destruct (has pRhs MEM_Null) eqn:N; [destruct (Hnull eq_refl) as (_ & F & _); congruence|done]). destruct (data_content pRhs Hv N In) as [L B].
      rewrite Ev. cbn [mbind option_bind]. destruct (Z.ltb_spec t 12); [by eexists _, _, _|]. destruct (Z.land t 1 =? 0); [by eexists _, _, _|]. destruct Hks as [|Hks]; [lia|].
      rewrite u32_id by (unfold is_u32; lia). destruct (Z.ltb_spec nKey (d + (t - 12) `div` 2)); [by eexists _, _, _|]. rewrite (proj2 (Z.leb_gt (nAllField ki) _)), Hcoll by lia. cbn [orb mbind option_bind].
      destruct coll as [c|]; cbn [collates] in Hcmp.
      * destruct Hcmp as [Ee Hc]. unfold vdbeCompareMemString, content. cbn [enc z n]. rewrite Ee, Z.eqb_refl, !sub_content by lia. cbn [mbind option_bind].
        destruct (Hc (take (Z.to_nat ((t - 12) `div` 2)) here) (take (Z.to_nat (n pRhs)) (z pRhs))) as (rc & -> & _); [by apply Forall_take..|]. by eexists _, _, _.
      * destruct (compare_bytes here (z pRhs) ((t - 12) `div` 2) (n pRhs)) as (rc & -> & _); [lia|done|]. by eexists _, _, _.
    + assert (has pRhs MEM_Null = false) as N by (destruct (has pRhs MEM_Null) eqn:N; [destruct (Hnull eq_refl) as (_ & _ & F); congruence|done]). destruct (data_content pRhs Hv N In) as [L B].
      rewrite Ev. cbn [mbind option_bind]. destruct (Z.ltb_spec t 12); [by eexists _, _, _|]. cbn [orb]. destruct (negb (Z.land t 1 =? 0)); [by eexists _, _, _|]. destruct Hks as [|Hks]; [lia|].
      rewrite u32_id by (unfold is_u32; lia). destruct (Z.ltb_spec nKey (d + (t - 12) `div` 2)); [by eexists _, _, _|]. destruct (has pRhs MEM_Zero).
      * rewrite isAllZero_spec by lia. by eexists _, _, _.
      * destruct (compare_bytes here (z pRhs) ((t - 12) `div` 2) (n pRhs)) as (rc & -> & _); [lia|done|]. by eexists _, _, _.
    + rewrite Ex. cbn [mbind option_bind]. destruct ((x =? 0) || (x =? 10)); [by eexists _, _, _|]. destruct (number_any 7 here mem1 ltac:(done) ltac:(lia) Hh ltac:(lia) ltac:(done)) as (_ & (k7 & q & ->) & _).
      destruct (x =? 7); by eexists _, _, _.
Qed.

Lemma varint_len_total v : 0 ≤ v < 2 ^ 63 → ∃ k, sqlite3VarintLen v = Some k ∧ 1 ≤ k ≤ 9.
Proof. intros Hv. rewrite varint_len_ref by done. eexists. split; [done|apply ref_len_bounds]. Qed.

(** What is told of a record that may be damaged. *)
Definition told (p p' : UnpackedRecord) (c : Z) : Prop := p' = p ∨ p' = set_seen p ∧ c = default_rc p ∨ p' = set_err p SQLITE_CORRUPT ∧ c = 0.

Lemma compare_fields_any nKey buf szHdr p extra m cols : is_bytes buf → nKey + 18 ≤ Z.of_nat (length buf) → nKey < 2147483648 → szHdr ≤ nKey → ∀ i idx d ps, 0 ≤ d ≤ nKey → 0 ≤ idx ≤ Z.max 9 nKey →
  Forall key_cell ps → cols ≠ [] → length ps = length cols → columns (pKeyInfo p) i cols → nField p = i + Z.of_nat (length cols) →
  ∃ c p', compare_fields nKey buf szHdr p i idx d (ps ++ extra) m = Some (c, p', m) ∧ told p p' c.
Proof.
  intros Hb Hlen Hmax Hsz. induction cols as [|col cols IH]; intros i idx d ps Hd Hidx Hps Hne Hlp Hcols Hn; [done|]. clear Hne. destruct ps as [|pRhs ps]; [done|].
  cbn [length] in *. apply Forall_cons in Hps as [Hk Hps]. destruct Hcols as [(coll & Efl & Hfl & Ecoll & Hcmp & Hi) Hcols]. cbn [app compare_fields].
  destruct (compare_field_any nKey buf (pKeyInfo p) i idx d pRhs (errCode p) m col.2 coll Hb Hlen Hmax Hd ltac:(lia) ltac:(lia) Hk Hi Ecoll Hcmp) as (s & rc & err' & -> & Hs & Hnone & Hsome).
  cbn [mbind option_bind]. destruct rc as [c|]; [rewrite Hsome, set_err_id by done|rewrite Hnone by done; eexists _, _; split; [done|]; right; right; done].
  destruct (Z.eqb_spec c 0) as [->|Hne]; cbn [negb]; [|rewrite Efl; eexists _, _; split; [done|by left]].
  destruct (Z.eqb_spec (i + 1) (nField p)) as [Elast|Hmore]; [eexists _, _; split; [done|]; right; left; done|].
  pose proof (size_max s Hs) as Hsm. unfold is_u32 in Hs. rewrite (proj1 (size_some s (proj1 Hs))). cbn [mbind option_bind]. rewrite u32_id by (unfold is_u32; lia).
  destruct (Z.ltb_spec nKey (d + size s)); [eexists _, _; split; [done|]; right; left; done|].
  destruct (varint_len_total s ltac:(lia)) as (k & -> & Hkb). cbn [mbind option_bind]. rewrite u32_id by (unfold is_u32; lia). destruct (Z.leb_spec szHdr (idx + k)); [eexists _, _; split; [done|]; right; right; done|].
  apply IH; try done; try lia. intros ->. cbn in Hn. lia.
Qed.

Lemma compare_any_spec nKey aKey p cols m : is_bytes aKey → 0 ≤ nKey < 2147483648 → nKey + 18 ≤ Z.of_nat (length aKey) → key_ok p cols →
  ∃ c p', sqlite3VdbeRecordCompare nKey aKey p m = Some (c, p', m) ∧ told p p' c.
Proof.
  intros Hb Hn Hlen Hk. unfold sqlite3VdbeRecordCompare, sqlite3VdbeRecordCompareWithSkip. destruct (varint_total aKey Hb ltac:(lia)) as (k & H & -> & Hkb & Hu). unfold is_u32 in Hu. cbn [mbind option_bind].
  destruct (Z.ltb_spec nKey H); [eexists _, _; split; [done|]; right; right; done|]. rewrite <- (take_drop (Z.to_nat (nField p)) (aMem p)). fold (key_cells p). pose proof (key_cells_length p cols Hk) as Lk.
  destruct Hk as [Ht Hs [Hnf _] Hc]. apply (compare_fields_any nKey aKey H p _ m cols); try done; lia.
Qed.

(** ** The row of an index entry *)

Lemma rowid_spec fs f R pad rowid : record_of (fs ++ [f]) R → fs ≠ [] → is_int f.1 = true → is_bytes pad →
  sqlite3VdbeIdxRowid SQLITE_OK (R ++ pad) (Z.of_nat (length R)) rowid = Some (SQLITE_OK, int_of f).
Proof.
  intros HR Hne Hi Hp. destruct (at_start _ R pad HR Hp) as (H & EH & Hu & Hat & _ & Hle). destruct HR as [(H' & EH' & ER & Hf) Hmax].
  apply Forall_app in Hf as [Hf0 Hf]. apply Forall_cons in Hf as [Hf _]. destruct (raw_int f Hf Hi) as (_ & Hty & Eb & H64). assert (0 < f.1 < 10 ∧ f.1 ≠ 7) as [Ht H7] by (unfold is_int in Hi; lia).
  assert (hdr (fs ++ [f]) = hdr fs ++ [f.1]) as Eh by (unfold hdr; rewrite map_app, concat_app; cbn; by rewrite app_nil_r, ref_encode_small by lia).
  assert (body (fs ++ [f]) = body fs ++ f.2) as Eo by (unfold body; rewrite map_app, concat_app; cbn; by rewrite app_nil_r).
  assert (1 ≤ Z.of_nat (length (hdr fs))) as Hh1.
  { destruct fs as [|g fs]; [done|]. unfold hdr. cbn [map concat]. rewrite length_app. pose proof (ref_encode_length g.1). pose proof (ref_len_bounds g.1). lia. }
  assert (H = H') as <-.
  { destruct (at_split _ _ _ _ _ _ Hat) as (A & B & q & _ & _ & E & _). rewrite ER in EH. rewrite <- !(assoc_L (++)) in EH. pose proof (types_bytes _ Hf0). pose proof (body_bytes _ Hf0).
    pose proof Hf as (_ & _ & Hfb). rewrite varint_get in EH; [injection EH as _ E2; lia| |].
    - apply (f_equal length) in ER. rewrite Eh, !length_app in ER. rewrite Eh, length_app in EH'. pose proof (ref_encode_length H'). pose proof (ref_len_bounds H'). unfold is_u32. lia.
    - rewrite Eh, Eo. repeat apply Forall_app_2; try done. constructor; [|done]. unfold is_u8. lia. }
  unfold sqlite3VdbeIdxRowid. cbn [negb Z.eqb]. rewrite EH. cbn [mbind option_bind]. rewrite Eh, length_app in EH'. cbn [length] in EH'. pose proof (ref_len_bounds H).
  rewrite (proj2 (Z.ltb_ge H 3)), (proj2 (Z.ltb_ge _ H)) by lia. cbn [orb]. pose proof (ref_encode_length H) as Le.
  assert (drop (Z.to_nat (H - 1)) (R ++ pad) = ref_encode f.1 ++ body fs ++ f.2 ++ pad) as ->.
  { rewrite ER, Eh, Eo, (ref_encode_small f.1) by lia. rewrite <- !(assoc_L (++)), (assoc_L (++) (ref_encode H)). apply drop_app_length'. rewrite length_app. lia. }
  pose proof Hf as (_ & Hl & Hfb). rewrite varint_get; [|unfold is_u32; lia|repeat apply Forall_app_2; try done; by apply body_bytes]. cbn [mbind option_bind].
  rewrite (proj2 (Z.ltb_ge f.1 1)), (proj2 (Z.ltb_ge 9 f.1)), (proj2 (Z.eqb_neq f.1 7)) by lia. cbn [orb].
  assert (rd sqlite3SmallTypeSizes f.1 = Some (size f.1)) as ->.
  { destruct (size_some f.1 ltac:(lia)) as [E _]. unfold sqlite3VdbeSerialTypeLen in E. by rewrite (proj2 (Z.leb_gt _ _)) in E by lia. }
  cbn [mbind option_bind]. assert (Z.of_nat (length R) = H + Z.of_nat (length (body fs)) + size f.1) as LR by (rewrite ER, Eh, Eo, !length_app; cbn [length]; lia).
  rewrite (proj2 (Z.ltb_ge _ _)) by lia. assert (drop (Z.to_nat (Z.of_nat (length R) - size f.1)) (R ++ pad) = f.2 ++ pad) as ->.
  { replace (R ++ pad) with ((ref_encode H ++ hdr (fs ++ [f]) ++ body fs) ++ f.2 ++ pad) by (rewrite ER, Eo, <- !(assoc_L (++)); done). apply drop_app_length'. rewrite Eh, !length_app. cbn [length]. lia. }
  rewrite Eb, (proj1 (get_int _ _ pad _ Hty)). cbn [mbind option_bind]. unfold u_i. cbn -[i64 u64]. by rewrite i64_u64.
Qed.

(** ** Properties *)

(** C22: a record reads back as the values it was made of, whatever bytes
    follow it in memory: every null, integer, floating-point number, text and
    blob, zeros at the end of a blob included, with an integer of a REAL
    column that needs eight bytes read back as the floating-point number.  Making
    it fails only for want of memory or, with the output register unchanged,
    when the record is over the limit. *)
Theorem record_roundtrip fmt limit l old zMalloc fresh m :
  Forall (λ p, value_ok p ∧ fits p) l → Z.of_nat (length l) ≤ 32767 → limit < 2147483648 → Z.of_nat (length zMalloc) < 2147483648 →
  gives fresh → is_u64 (u old) →
  ∃ rc l' pOut m', OP_MakeRecord fmt limit l old zMalloc fresh m = Some (rc, l', pOut, m') ∧
    (rc = SQLITE_NOMEM ∧ ¬ no_failure m ∨
     rc = SQLITE_TOOBIG ∧ pOut = old ∧ (∃ fs R, layout fs R ∧ map field_val fs = map stored l ∧ limit < Z.of_nat (length R)) ∨
     rc = SQLITE_OK ∧ ∃ R, value_of pOut = Blob R ∧ ∀ ki pad p, is_bytes pad → 1 ≤ nField p ≤ Z.of_nat (length (aMem p)) → cells_ok (aMem p) →
       ∃ p', sqlite3VdbeRecordUnpack ki (Z.of_nat (length R)) (R ++ pad) p = Some p' ∧ nField p' = Z.min (nField p) (Z.of_nat (length l)) ∧
         map value_of (take (Z.to_nat (nField p')) (aMem p')) = take (Z.to_nat (nField p)) (map stored l)).
Proof.
  intros Hl Hn Hlim Hz Hfr Ho. destruct (make_record_spec fmt limit l old zMalloc fresh m Hl Hn Hlim Hz Hfr Ho) as (rc & l' & pOut & m' & E & Hcase). exists rc, l', pOut, m'. split; [done|].
  destruct Hcase as [Hnm|(fs & R & HL & Ev & [(-> & Eo & HR)|(-> & Hbig & ->)])]; [by left| |right; left; split_and!; [done..|by exists fs, R]].
  right. right. split; [done|]. exists R. split; [done|]. intros ki pad p Hp Hnf Hok. destruct (unpack_spec ki fs R pad p HR Hp Hnf Hok) as (p' & E' & El & En & _). exists p'. rewrite <- Ev. split_and!; [done| |done].
  rewrite En. f_equal. apply (f_equal length) in Ev. rewrite !length_map in Ev. lia.
Qed.

(** Five values, a blob with zeros and an integer of a REAL column among them. *)
Definition a_key_info : KeyInfo := mk_key_info SQLITE_UTF8 2 3 [0; 1; 0] [None; None; None].

Definition an_unpacked (l : list sqlite3_value) : UnpackedRecord := mk_unpacked a_key_info l 0 [] 0 (Z.of_nat (length l)) 1 0 0 0 0.

Definition some_values : list sqlite3_value :=
  [a_cell 300 0 MEM_Int []; a_cell 0 0 MEM_Null []; a_cell 0 2 MEM_Str [104; 105]; a_cell 4611686018427387904 0 MEM_IntReal []; a_cell 3 1 (Z.lor MEM_Blob MEM_Zero) [7]].

Ltac a_value := match goal with
  | |- value_ok _ => split; a_value
  | |- _ ∧ _ => split; a_value
  | |- _ = true → _ => let F := fresh in intros F; first [discriminate F | clear F; a_value]
  | |- _ = false → _ => let F := fresh in intros F; first [discriminate F | clear F; a_value]
  | |- is_bytes _ => repeat (apply Forall_cons_2; [a_value|]); apply Forall_nil_2
  | |- cells_ok _ => repeat (apply Forall_cons_2; [a_value|]); apply Forall_nil_2
  | |- _ => split; a_value
  | |- _ => vm_compute; first [reflexivity | discriminate]
  end.

Lemma some_values_ok : Forall (λ p, value_ok p ∧ fits p) some_values.
Proof. repeat (apply Forall_cons_2; [split; [a_value|unfold fits; a_value]|]). constructor. Qed.

Lemma record_roundtrip_witness : ∃ l' out m' R,
  OP_MakeRecord 4 1000 some_values (a_cell 0 0 MEM_Null []) [] (λ k, replicate (Z.to_nat k) 0) [] = Some (SQLITE_OK, l', out, m') ∧ value_of out = Blob R ∧
    ∃ p', sqlite3VdbeRecordUnpack a_key_info (Z.of_nat (length R)) (R ++ [1; 2]) (an_unpacked (replicate 6 (a_cell 0 0 MEM_Null []))) = Some p' ∧
      map value_of (take (Z.to_nat (nField p')) (aMem p')) = [Integer 300; Null; Text [104; 105]; Real (double_of_int 4611686018427387904); Blob [7; 0; 0; 0]].
Proof.
  destruct (record_roundtrip 4 1000 some_values (a_cell 0 0 MEM_Null []) [] (λ k, replicate (Z.to_nat k) 0) []) as (rc & l' & out & m' & E & H).
  - exact some_values_ok.
  - vm_compute. discriminate.
  - reflexivity.
  - reflexivity.
  - intros k Hk. rewrite length_replicate. rewrite Z2Nat.id; [reflexivity|exact Hk].
  - split; vm_compute; [discriminate|reflexivity].
  - exists l', out, m'. assert (rc = SQLITE_OK) as -> by (vm_compute in E; injection E as E1 _ _ _; symmetry; exact E1). destruct H as [[H _]|[[H _]|(_ & R & Ho & H)]]; [discriminate H|discriminate H|].
    exists R. split; [exact E|]. split; [exact Ho|].
    destruct (H a_key_info [1; 2] (an_unpacked (replicate 6 (a_cell 0 0 MEM_Null [])))) as (p' & Eu & _ & Ev).
    + a_value.
    + split; vm_compute; discriminate.
    + a_value.
    + exists p'. split; [exact Eu|]. rewrite Ev. vm_compute. reflexivity.
Defined.

(** C23: comparing a record with a key gives the order of their values, column
    by column up to the first that differs: the exact order of values under
    the collation of the column, turned round where the column is descending
    and with nulls last where it says so.  When all columns of the key agree
    the key decides by its [default_rc] and is told so.  Nothing else of the
    key changes, and no memory is needed. *)
Theorem record_compare_order fs R pad p cols m :
  record_of fs R → Forall plain fs → is_bytes pad → key_ok p cols → (length cols ≤ length fs)%nat →
  ∃ c p', sqlite3VdbeRecordCompare (Z.of_nat (length R)) (R ++ pad) p m = Some (c, p', m) ∧
    let o := key_order cols (map field_val fs) (key_vals p) in
    if o =? 0 then c = default_rc p ∧ p' = set_seen p else Z.sgn c = o ∧ p' = p.
Proof.
  intros HR Hpl Hp Hk Hlen. destruct (compare_spec fs R pad p cols m HR Hpl Hp Hk Hlen) as (c & p' & E & Hd). exists c, p'. split; [done|]. cbv zeta.
  destruct Hd as [(Ho & Hc & ->)|(-> & -> & ->)]; [by rewrite (proj2 (Z.eqb_neq _ _))|done].
Qed.

(** An entry of an index: an integer, a text, and the row. *)
Definition a_record : bytes := [4; 2; 17; 1; 1; 44; 104; 105; 9].
Definition its_fields : list raw := [(2, [1; 44]); (17, [104; 105]); (1, [9])].
Definition a_key : UnpackedRecord := an_unpacked [a_cell 300 0 MEM_Int []; a_cell 0 2 MEM_Str [104; 111]].
Definition its_columns : list column := [(0, byte_order); (1, byte_order)].

Lemma a_record_of : record_of its_fields a_record ∧ Forall plain its_fields.
Proof.
  split; [split; [|reflexivity]; exists 4; split; [reflexivity|]; split; [reflexivity|]|].
  - repeat (apply Forall_cons_2; [split; [split; vm_compute; [discriminate|reflexivity]|]; split; [reflexivity|a_value]|]). constructor.
  - repeat (apply Forall_cons_2; [split; [discriminate|]; split; [discriminate|]; discriminate|]). constructor.
Qed.

Lemma a_key_ok : key_ok a_key its_columns.
Proof.
  split; [|discriminate|split; [reflexivity|cbn; lia]|].
  - repeat (apply Forall_cons_2; [split; [split; [a_value|discriminate]|]; split; [discriminate|reflexivity]|]). constructor.
  - repeat split; eexists; repeat split; vm_compute; congruence.
Qed.

Lemma record_compare_order_witness : ∃ c p', sqlite3VdbeRecordCompare 9 (a_record ++ [0]) a_key [] = Some (c, p', []) ∧ Z.sgn c = 1 ∧ p' = a_key.
Proof.
  destruct (record_compare_order its_fields a_record [0] a_key its_columns []) as (c & p' & E & H).
  - apply a_record_of.
  - apply a_record_of.
  - a_value.
  - exact a_key_ok.
  - cbn. lia.
  - exists c, p'. split; [exact E|]. exact H.
Defined.

(** C24: the routine chosen for a key - one of the two for a first column of
    integers or of text in binary order, or the general one - gives the sign
    that the general one gives, and tells the key the same. *)
Theorem find_compare_equiv fs R pad p cols m :
  record_of fs R → Forall plain fs → is_bytes pad → key_ok p cols → (length cols ≤ length fs)%nat →
  Z.of_nat (length fs) ≤ nAllField (pKeyInfo p) → Z.of_nat (length R) ≤ 1000000000 →
  ∃ x p2 c p' c0 p0, sqlite3VdbeFindCompare p = Some (x, p2) ∧
    call x (Z.of_nat (length R)) (R ++ pad) p2 m = Some (c, p', m) ∧ sqlite3VdbeRecordCompare (Z.of_nat (length R)) (R ++ pad) p m = Some (c0, p0, m) ∧
    Z.sgn c = Z.sgn c0 ∧ eqSeen p' = eqSeen p0 ∧ errCode p' = errCode p0.
Proof.
  intros HR Hpl Hp Hk Hlen Hall Hmax. destruct (find_spec fs R pad p cols m HR Hpl Hp Hk Hlen Hall Hmax) as (x & p2 & c & p' & Ef & Ec & Hrc & Herr & Hseen & Hd).
  destruct (compare_spec fs R pad p cols m HR Hpl Hp Hk Hlen) as (c0 & p0 & E0 & Hd0). exists x, p2, c, p', c0, p0. do 3 (split; [done|]).
  destruct Hd as [(Ho & Hc & ->)|(Ho & -> & ->)], Hd0 as [(Ho0 & Hc0 & ->)|(Ho0 & -> & ->)]; try congruence; [by rewrite Hc, Hc0|by rewrite Hrc].
Qed.

Lemma find_compare_equiv_witness : ∃ p2 c p' c0 p0, sqlite3VdbeFindCompare a_key = Some (ByInt, p2) ∧
  vdbeRecordCompareInt 9 (a_record ++ []) p2 [] = Some (c, p', []) ∧ sqlite3VdbeRecordCompare 9 (a_record ++ []) a_key [] = Some (c0, p0, []) ∧ Z.sgn c = Z.sgn c0.
Proof.
  destruct (find_compare_equiv its_fields a_record [] a_key its_columns []) as (x & p2 & c & p' & c0 & p0 & Ef & Ec & E0 & Hs & _).
  - apply a_record_of.
  - apply a_record_of.
  - constructor.
  - exact a_key_ok.
  - cbn. lia.
  - vm_compute. discriminate.
  - vm_compute. discriminate.
  - assert (x = ByInt) as -> by (vm_compute in Ef; injection Ef as E1 _; symmetry; exact E1). exists p2, c, p', c0, p0. split; [exact Ef|]. split; [exact Ec|]. split; [exact E0|exact Hs].
Defined.

(** C27: whatever bytes a record consists of, taking it apart reads at most
    nine bytes past its end and leaves only values: every cell it fills holds
    a null, a number that is no NaN, or text or a blob that lies within the
    buffer. *)
Theorem unpack_well_typed ki nKey aKey p :
  is_bytes aKey → 0 ≤ nKey < 2147483648 → nKey + 9 ≤ Z.of_nat (length aKey) → 1 ≤ nField p ≤ Z.of_nat (length (aMem p)) → cells_ok (aMem p) →
  ∃ p', sqlite3VdbeRecordUnpack ki nKey aKey p = Some p' ∧ 0 ≤ nField p' ≤ nField p ∧ length (aMem p') = length (aMem p) ∧
    Forall value_ok (take (Z.to_nat (nField p')) (aMem p')).
Proof. apply unpack_any_spec. Qed.

(** The text says that it has more bytes than the record. *)
Lemma unpack_well_typed_witness : ∃ p', sqlite3VdbeRecordUnpack a_key_info 5 ([3; 8; 99; 65; 66] ++ replicate 9 0) (an_unpacked (replicate 2 (a_cell 5 0 MEM_Int []))) = Some p' ∧
  map value_of (aMem p') = [Integer 0; Null].
Proof.
  destruct (unpack_well_typed a_key_info 5 ([3; 8; 99; 65; 66] ++ replicate 9 0) (an_unpacked (replicate 2 (a_cell 5 0 MEM_Int [])))) as (p' & E & _).
  - a_value.
  - split; vm_compute; [discriminate|reflexivity].
  - vm_compute. discriminate.
  - split; vm_compute; discriminate.
  - a_value.
  - exists p'. split; [exact E|]. vm_compute in E. injection E as <-. reflexivity.
Defined.

(** C26: whatever bytes a record consists of, comparing it with a key reads at
    most 18 bytes past its end - the padding that cursors put there - and gives
    a result; damage that it notices is told as such, with the result zero,
    and nothing else of the key changes. *)
Theorem record_compare_damaged nKey aKey p cols m :
  is_bytes aKey → 0 ≤ nKey < 2147483648 → nKey + 18 ≤ Z.of_nat (length aKey) → key_ok p cols →
  ∃ c p', sqlite3VdbeRecordCompare nKey aKey p m = Some (c, p', m) ∧
    (p' = p ∨ p' = set_seen p ∧ c = default_rc p ∨ p' = set_err p SQLITE_CORRUPT ∧ c = 0).
Proof. apply compare_any_spec. Qed.

Lemma record_compare_damaged_witness : ∃ c p', sqlite3VdbeRecordCompare 4 ([4; 2; 99; 1] ++ replicate 18 0) a_key [] = Some (c, p', []) ∧ c = -1 ∧ p' = a_key.
Proof.
  destruct (record_compare_damaged 4 ([4; 2; 99; 1] ++ replicate 18 0) a_key its_columns []) as (c & p' & E & _).
  - a_value.
  - split; vm_compute; [discriminate|reflexivity].
  - vm_compute. discriminate.
  - exact a_key_ok.
  - exists c, p'. split; [exact E|]. vm_compute in E. injection E as <- <-. split; reflexivity.
Defined.

(** An entry of an index whose last field is the number of a row gives
    that number, and comparing the entry with a key of fewer columns gives
    the order of the columns before it. *)
Theorem index_entry fs f R pad p cols m rowid res :
  record_of (fs ++ [f]) R → Forall plain (fs ++ [f]) → is_int f.1 = true → is_bytes pad → key_ok p cols → (length cols ≤ length fs)%nat → (1 ≤ length R)%nat →
  sqlite3VdbeIdxRowid SQLITE_OK (R ++ pad) (Z.of_nat (length R)) rowid = Some (SQLITE_OK, int_of f) ∧
  ∃ c p', sqlite3VdbeIdxKeyCompare SQLITE_OK (R ++ pad) (Z.of_nat (length R)) p res m = Some (SQLITE_OK, c, p', m) ∧
    let o := key_order cols (map field_val fs) (key_vals p) in
    if o =? 0 then c = default_rc p ∧ p' = set_seen p else Z.sgn c = o ∧ p' = p.
Proof.
  intros HR Hpl Hi Hp Hk Hlen H1. pose proof HR as [_ Hmax]. split.
  - apply (rowid_spec fs f); [done| |done|done]. intros ->. destruct cols; [by apply (key_some _ _ Hk)|cbn in Hlen; lia].
  - destruct (compare_spec (fs ++ [f]) R pad p cols m HR Hpl Hp Hk) as (c & p' & E & Hd); [rewrite length_app; lia|]. unfold sqlite3VdbeIdxKeyCompare.
    rewrite (proj2 (Z.leb_gt _ _)), (proj2 (Z.ltb_ge _ _)) by lia. cbn [orb negb Z.eqb]. unfold sqlite3VdbeRecordCompare in E. rewrite E. exists c, p'. split; [done|]. cbv zeta.
    assert (∀ cols' vs ks v, (length cols' ≤ length vs)%nat → key_order cols' (vs ++ [v]) ks = key_order cols' vs ks) as Hpre.
    { induction cols' as [|col cols' IH]; intros [|v0 vs] [|k ks] v Hl; try done; [cbn in Hl; lia|]. cbn [app key_order length] in *. by rewrite IH by lia. }
    rewrite map_app in Hd. cbn [map] in Hd. rewrite Hpre in Hd by (rewrite length_map; done).
    destruct Hd as [(Ho & Hc & ->)|(-> & -> & ->)]; [by rewrite (proj2 (Z.eqb_neq _ _))|done].
Qed.

Lemma index_entry_witness : sqlite3VdbeIdxRowid SQLITE_OK (a_record ++ [0]) 9 0 = Some (SQLITE_OK, 9) ∧
  ∃ c p', sqlite3VdbeIdxKeyCompare SQLITE_OK (a_record ++ [0]) 9 a_key 0 [] = Some (SQLITE_OK, c, p', []) ∧ Z.sgn c = 1 ∧ p' = a_key.
Proof.
  apply (index_entry [(2, [1; 44]); (17, [104; 105])] (1, [9]) a_record [0] a_key its_columns [] 0 0).
  - apply a_record_of.
  - apply a_record_of.
  - reflexivity.
  - a_value.
  - exact a_key_ok.
  - cbn. lia.
  - cbn. lia.
Defined.

(** A record with fewer fields than the key counts as damaged, also when its
    fields are those of the key. *)
Example fewer_fields_corrupt : option_map (λ r, (r.1.1, errCode r.1.2)) (sqlite3VdbeRecordCompare 4 ([2; 2; 1; 44] ++ replicate 18 0) a_key []) = Some (0, SQLITE_CORRUPT).
Proof. vm_compute. reflexivity. Qed.

End Records.
