(* ===== verification/BtreeCell.v ===== *)
(** * Cells of B-tree pages ([native/sqlite3/sqlite3.c], btree.c)

    A page of a B-tree holds cells.  What is in a cell depends on the type of
    the page: a child page, the size of the payload, the key, the part of the
    payload that is kept on the page, and the first of the pages that hold the
    rest.  The theorems show that the routines that parse a cell and those
    that only size it agree, and that the variable-length integers they read
    in line are those of [Varint]. *)

From S2P Require Import Prelude Varint.

Module BtreeCell.

Import Varint.

(** ** Pages and their types *)

(* native/sqlite3/sqlite3.c:70772-70775 PTF_INTKEY PTF_ZERODATA PTF_LEAFDATA PTF_LEAF *)
Definition PTF_INTKEY : Z := 0x01.
Definition PTF_ZERODATA : Z := 0x02.
Definition PTF_LEAFDATA : Z := 0x04.
Definition PTF_LEAF : Z := 0x08.

Definition SQLITE_CORRUPT_PAGE : Z := 11.

(** What the pages of a database share.  [cellSizeCk] is the flag
    [SQLITE_CellSizeCk] of the connection, [pTmpSpace] the buffer of the pager. *)
(* native/sqlite3/sqlite3.c:70906-70976 BtShared *)
Record BtShared : Type := mk_bt {
  pageSize : Z; usableSize : Z; btsFlags : Z; autoVacuum : bool; cellSizeCk : bool; pTmpSpace : bytes;
  bt_max1bytePayload : Z; bt_maxLocal : Z; bt_minLocal : Z; bt_maxLeaf : Z; bt_minLeaf : Z; nPage : Z }.

(* native/sqlite3/sqlite3.c:74985-74996 lockBtree, the limits of payloads *)
Definition set_limits (pBt : BtShared) (nPage : Z) : BtShared :=
  let maxLocal := u16 (((usableSize pBt - 12) * 64) `div` 255 - 23) in
  let minLocal := u16 (((usableSize pBt - 12) * 32) `div` 255 - 23) in
  mk_bt (pageSize pBt) (usableSize pBt) (btsFlags pBt) (autoVacuum pBt) (cellSizeCk pBt) (pTmpSpace pBt)
    (if 127 <? maxLocal then 127 else u8 maxLocal) maxLocal minLocal (u16 (usableSize pBt - 35)) minLocal nPage.

(** The methods of a page, function pointers of the source. *)
Inductive CellSizer : Type := XSizePtr | XSizeIdxLeaf | XSizeNoPayload | XSizeTableLeaf.
Inductive CellParser : Type := XParsePtr | XParseNoPayload | XParseIndex.

(** The fields that the type of the page decides. *)
(* native/sqlite3/sqlite3.c:70777-70820 MemPage *)
Record PageType : Type := mk_type {
  pBt : BtShared; intKey : bool; intKeyLeaf : bool; leaf : bool; childPtrSize : Z; max1bytePayload : Z; maxLocal : Z; minLocal : Z;
  xCellSize : CellSizer; xParseCell : CellParser }.

(* native/sqlite3/sqlite3.c:73569-73638 decodeFlags *)
Definition decodeFlags (pPage : PageType) (flagByte : Z) : Z * PageType :=
  let b := pBt pPage in
  let m1 := bt_max1bytePayload b in
  if Z.lor PTF_ZERODATA PTF_LEAF <=? flagByte then
    if flagByte =? Z.lor (Z.lor PTF_LEAFDATA PTF_INTKEY) PTF_LEAF then
      (0, mk_type b true true true 0 m1 (bt_maxLeaf b) (bt_minLeaf b) XSizeTableLeaf XParsePtr)
    else if flagByte =? Z.lor PTF_ZERODATA PTF_LEAF then
      (0, mk_type b false false true 0 m1 (bt_maxLocal b) (bt_minLocal b) XSizeIdxLeaf XParseIndex)
    else (SQLITE_CORRUPT_PAGE, mk_type b false false true 0 m1 (maxLocal pPage) (minLocal pPage) XSizeIdxLeaf XParseIndex)
  else
    if flagByte =? PTF_ZERODATA then
      (0, mk_type b false false false 4 m1 (bt_maxLocal b) (bt_minLocal b) XSizePtr XParseIndex)
    else if flagByte =? Z.lor PTF_LEAFDATA PTF_INTKEY then
      (0, mk_type b true false false 4 m1 (bt_maxLeaf b) (bt_minLeaf b) XSizeNoPayload XParseNoPayload)
    else (SQLITE_CORRUPT_PAGE, mk_type b false false false 4 m1 (maxLocal pPage) (minLocal pPage) XSizePtr XParseIndex).

(** ** Integers read in line *)

(** The size of the payload; [pIter] is an index into the cell.  The loop ends
    at [pEnd]. *)
(* native/sqlite3/sqlite3.c:72837-72839 btreeParseCellPtr, the size of the payload *)
Fixpoint payload_more (fuel : nat) (pCell : bytes) (pIter pEnd nPayload : Z) : option (Z * Z) :=
  match fuel with
  | O => None
  | S fuel =>
      let pIter := pIter + 1 in
      let* x := rd pCell pIter in
      let nPayload := Z.lor (u32 (Z.shiftl nPayload 7)) (Z.land x 0x7f) in
      if (0x80 <=? x) && (pIter <? pEnd) then payload_more fuel pCell pIter pEnd nPayload else Some (pIter, nPayload)
  end.

(* native/sqlite3/sqlite3.c:72833-72841 btreeParseCellPtr, the size of the payload *)
Definition payload_size (pCell : bytes) (pIter : Z) : option (Z * Z) :=
  let* nPayload := rd pCell pIter in
  let* (pIter, nPayload) :=
    if 0x80 <=? nPayload then payload_more 8 pCell pIter (pIter + 8) (Z.land nPayload 0x7f) else Some (pIter, nPayload) in
  Some (pIter + 1, nPayload).

(** The bytes from the fourth to the ninth: the nested conditions of the
    source as a recursion.  [k] bytes have been read, the last with its flag. *)
(* native/sqlite3/sqlite3.c:72859-72871 btreeParseCellPtr, the key from its fourth byte on *)
Fixpoint key_more (more : nat) (p : bytes) (k iKey : Z) : option (Z * Z) :=
  let* x := rd p k in
  match more with
  | O => Some (k + 1, Z.lxor (Z.lxor (u64 (Z.shiftl iKey 8)) 0x8000) x)
  | S more =>
      let iKey := Z.lxor (Z.lxor (u64 (Z.shiftl iKey 7)) 0x4000) x in
      if 0x80 <=? x then key_more more p (k + 1) iKey else Some (k + 1, iKey)
  end.

(** The key, from its first byte; the bytes read. *)
(* native/sqlite3/sqlite3.c:72850-72880 btreeParseCellPtr, the key *)
Definition key_varint (p : bytes) : option (Z * Z) :=
  let* iKey := rd p 0 in
  if negb (0x80 <=? iKey) then Some (1, iKey) else
  let* x := rd p 1 in
  let iKey := Z.lxor (u64 (Z.shiftl iKey 7)) x in
  if negb (0x80 <=? x) then Some (2, Z.lxor iKey 0x4000) else
  let* x := rd p 2 in
  let iKey := Z.lxor (u64 (Z.shiftl iKey 7)) x in
  if negb (0x80 <=? x) then Some (3, Z.lxor iKey 0x204000) else
  let* x := rd p 3 in
  let iKey := Z.lxor (Z.lxor (u64 (Z.shiftl iKey 7)) 0x10204000) x in
  if 0x80 <=? x then key_more 4 p 4 iKey else Some (4, iKey).

(** ** Parsing cells *)

(** [pPayload] is an index into the cell. *)
(* native/sqlite3/sqlite3.c:70991-71002 CellInfo *)
Record CellInfo : Type := mk_info { nKey : Z; pPayload : Z; nPayload : Z; nLocal : Z; nSize : Z }.

(* native/sqlite3/sqlite3.c:72725-72760 btreeParseCellAdjustSizeForOverflow *)
Definition btreeParseCellAdjustSizeForOverflow (pPage : PageType) (pInfo : CellInfo) : CellInfo :=
  let surplus := minLocal pPage + u32 (nPayload pInfo - minLocal pPage) `mod` (usableSize (pBt pPage) - 4) in
  let nLocal := u16 (if surplus <=? maxLocal pPage then surplus else minLocal pPage) in
  mk_info (nKey pInfo) (pPayload pInfo) (nPayload pInfo) nLocal (u16 (u16 (pPayload pInfo + nLocal) + 4)).

(* native/sqlite3/sqlite3.c:72762-72779 btreePayloadToLocal *)
Definition btreePayloadToLocal (pPage : PageType) (nPayload : Z) : Z :=
  if nPayload <=? maxLocal pPage then nPayload else
  let surplus := minLocal pPage + (nPayload - minLocal pPage) `mod` (usableSize (pBt pPage) - 4) in
  if surplus <=? maxLocal pPage then surplus else minLocal pPage.

(* native/sqlite3/sqlite3.c:72781-72811 btreeParseCellPtrNoPayload *)
Definition btreeParseCellPtrNoPayload (pPage : PageType) (pCell : bytes) : option CellInfo :=
  let* (k, key) := sqlite3GetVarint (drop 4 pCell) in
  Some (mk_info (i64 key) 0 0 0 (4 + k)).

(** The payload is all on the page, or it is not. *)
(* native/sqlite3/sqlite3.c:72889-72898 btreeParseCellPtr, the sizes *)
Definition set_sizes (pPage : PageType) (pInfo : CellInfo) : CellInfo :=
  if nPayload pInfo <=? maxLocal pPage then
    let nSize := u16 (u16 (nPayload pInfo) + u16 (pPayload pInfo)) in
    mk_info (nKey pInfo) (pPayload pInfo) (nPayload pInfo) (u16 (nPayload pInfo)) (if nSize <? 4 then 4 else nSize)
  else btreeParseCellAdjustSizeForOverflow pPage pInfo.

(* native/sqlite3/sqlite3.c:72812-72899 btreeParseCellPtr *)
Definition btreeParseCellPtr (pPage : PageType) (pCell : bytes) : option CellInfo :=
  let* (pIter, nPayload) := payload_size pCell 0 in
  let* (k, iKey) := key_varint (drop (Z.to_nat pIter) pCell) in
  Some (set_sizes pPage (mk_info (i64 iKey) (pIter + k) nPayload 0 0)).

(* native/sqlite3/sqlite3.c:72900-72938 btreeParseCellPtrIndex *)
Definition btreeParseCellPtrIndex (pPage : PageType) (pCell : bytes) : option CellInfo :=
  let* (pIter, nPayload) := payload_size pCell (childPtrSize pPage) in
  Some (set_sizes pPage (mk_info nPayload pIter nPayload 0 0)).

Definition parse_cell (pPage : PageType) (pCell : bytes) : option CellInfo :=
  match xParseCell pPage with
  | XParsePtr => btreeParseCellPtr pPage pCell
  | XParseNoPayload => btreeParseCellPtrNoPayload pPage pCell
  | XParseIndex => btreeParseCellPtrIndex pPage pCell
  end.

(** ** Sizing cells *)

(** What [cellSizePtr] and its siblings do once they are past the sizes. *)
(* native/sqlite3/sqlite3.c:72987-73001 cellSizePtr, the size *)
Definition size_of (pPage : PageType) (nSize pIter : Z) (least : bool) : Z :=
  if nSize <=? maxLocal pPage then
    let nSize := u32 (nSize + pIter) in
    u16 (if least && (nSize <? 4) then 4 else nSize)
  else
    let minLocal := minLocal pPage in
    let nSize := u32 (minLocal + u32 (nSize - minLocal) `mod` (usableSize (pBt pPage) - 4)) in
    let nSize := if maxLocal pPage <? nSize then minLocal else nSize in
    u16 (u32 (nSize + 4 + u16 pIter)).

(* native/sqlite3/sqlite3.c:72947-73002 cellSizePtr *)
Definition cellSizePtr (pPage : PageType) (pCell : bytes) : option Z :=
  let* (pIter, nSize) := payload_size pCell 4 in Some (size_of pPage nSize pIter false).

(* native/sqlite3/sqlite3.c:73003-73044 cellSizePtrIdxLeaf *)
Definition cellSizePtrIdxLeaf (pPage : PageType) (pCell : bytes) : option Z :=
  let* (pIter, nSize) := payload_size pCell 0 in Some (size_of pPage nSize pIter true).

(** To the end of the key. *)
(* native/sqlite3/sqlite3.c:73061-73062 cellSizePtrNoPayload, the loop *)
Fixpoint varint_end (fuel : nat) (pCell : bytes) (pIter pEnd : Z) : option Z :=
  match fuel with
  | O => None
  | S fuel =>
      let* x := rd pCell pIter in
      let pIter := pIter + 1 in
      if negb (Z.land x 0x80 =? 0) && (pIter <? pEnd) then varint_end fuel pCell pIter pEnd else Some pIter
  end.

(* native/sqlite3/sqlite3.c:73045-73065 cellSizePtrNoPayload *)
Definition cellSizePtrNoPayload (pPage : PageType) (pCell : bytes) : option Z :=
  let* pIter := varint_end 9 pCell 4 13 in Some (u16 pIter).

(** Past the key: up to eight bytes are looked at, the ninth is not. *)
(* native/sqlite3/sqlite3.c:73092-73099 cellSizePtrTableLeaf, the key *)
Fixpoint key_skip (k : nat) (pCell : bytes) (pIter : Z) : option Z :=
  match k with
  | O => Some (pIter + 1)
  | S k =>
      let* x := rd pCell pIter in
      if negb (Z.land x 0x80 =? 0) then key_skip k pCell (pIter + 1) else Some (pIter + 1)
  end.

(* native/sqlite3/sqlite3.c:73066-73117 cellSizePtrTableLeaf *)
Definition cellSizePtrTableLeaf (pPage : PageType) (pCell : bytes) : option Z :=
  let* (pIter, nSize) := payload_size pCell 0 in
  let* pIter := key_skip 8 pCell pIter in
  Some (size_of pPage nSize pIter true).

Definition cell_size (pPage : PageType) (pCell : bytes) : option Z :=
  match xCellSize pPage with
  | XSizePtr => cellSizePtr pPage pCell
  | XSizeIdxLeaf => cellSizePtrIdxLeaf pPage pCell
  | XSizeNoPayload => cellSizePtrNoPayload pPage pCell
  | XSizeTableLeaf => cellSizePtrTableLeaf pPage pCell
  end.

(** ** Integers read in line: agreement *)

Lemma flag_xor x : is_u8 x → 128 ≤ x → x = Z.lxor (Z.land x 127) 128.
Proof.
  intros Hx H. assert (forallb (λ k, (Z.of_nat k <? 128) || (Z.of_nat k =? Z.lxor (Z.land (Z.of_nat k) 127) 128)) (seq 0 256) = true) as Hall by (vm_compute; reflexivity).
  rewrite forallb_forall in Hall. specialize (Hall (Z.to_nat x)). unfold is_u8 in Hx. rewrite Z2Nat.id in Hall by lia. assert (In (Z.to_nat x) (seq 0 256)) as Hin by (apply in_seq; lia). specialize (Hall Hin). lia.
Qed.

(** With nothing in common an exclusive or is an or. *)
Lemma lxor_shifted V y k : 0 ≤ k → 0 ≤ y < 2 ^ k → Z.lxor (Z.shiftl V k) y = Z.lor (Z.shiftl V k) y.
Proof.
  intros Hk Hy. apply Z.bits_inj'. intros i Hi. rewrite Z.lxor_spec, Z.lor_spec, Z.shiftl_spec by done. destruct (Z.lt_ge_cases i k) as [Hlt|Hge].
  - rewrite (Z.testbit_neg_r V) by lia. done.
  - rewrite (Bits.testbit_high y k i) by lia. by destruct (Z.testbit V (i - k)).
Qed.

Lemma key_step V x : is_u8 x → Z.lxor (Z.lxor (Z.shiftl (Z.lxor V 128) 7) 0x4000) x = Z.lxor (Z.lor (Z.shiftl V 7) (Z.land x 127)) (if 128 <=? x then 128 else 0).
Proof.
  intros Hx. rewrite Z.shiftl_lxor. change (Z.shiftl 128 7) with 0x4000. rewrite (Z.lxor_assoc (Z.shiftl V 7)), Z.lxor_nilpotent, Z.lxor_0_r.
  pose proof (land_7f_bound x) as B. rewrite <- lxor_shifted by (unfold is_u8 in Hx; lia). rewrite Z.lxor_assoc. f_equal. destruct (Z.leb_spec 128 x) as [H|H]; [by apply flag_xor|].
  rewrite Z.lxor_0_r, (land_low x 7) by done. symmetry. apply Z.mod_small. unfold is_u8 in Hx. lia.
Qed.

(** Bits below [k] only. *)
Lemma low_bits w k : 0 ≤ k → (∀ i, k ≤ i → Z.testbit w i = false) → 0 ≤ w < 2 ^ k.
Proof.
  intros Hk H. replace w with (w `mod` 2 ^ k) by (apply Z.bits_inj'; intros i Hi; destruct (Z.lt_ge_cases i k); [by apply Z.mod_pow2_bits_low|rewrite H by done; by apply Z.mod_pow2_bits_high]).
  apply Z.mod_pos_bound. by apply Z.pow_pos_nonneg.
Qed.

Lemma lxor_bound a b k : 0 ≤ k → 0 ≤ a < 2 ^ k → 0 ≤ b < 2 ^ k → 0 ≤ Z.lxor a b < 2 ^ k.
Proof. intros Hk Ha Hb. apply low_bits; [done|]. intros i Hi. by rewrite Z.lxor_spec, !(Bits.testbit_high _ k) by lia. Qed.

Lemma lor_bound a b k : 0 ≤ k → 0 ≤ a < 2 ^ k → 0 ≤ b < 2 ^ k → 0 ≤ Z.lor a b < 2 ^ k.
Proof. intros Hk Ha Hb. apply low_bits; [done|]. intros i Hi. by rewrite Z.lor_spec, !(Bits.testbit_high _ k) by lia. Qed.

Lemma lxor_128_bound V k : 8 ≤ k → 0 ≤ V < 2 ^ k → 0 ≤ Z.lxor V 128 < 2 ^ k.
Proof. intros Hk HV. apply lxor_bound; [lia|done|]. pose proof (Z.pow_le_mono_r 2 8 k). lia. Qed.

Lemma land_small x : is_u8 x → x < 128 → Z.land x 127 = x.
Proof. intros Hx H. rewrite (land_low x 7) by done. apply Z.mod_small. unfold is_u8 in Hx. lia. Qed.

Lemma group_bound V y k : 0 ≤ k → 0 ≤ V < 2 ^ k → 0 ≤ y < 128 → 0 ≤ Z.lor (Z.shiftl V 7) y < 2 ^ (k + 7).
Proof. intros Hk HV Hy. rewrite lor_add by lia. rewrite Z.pow_add_r by lia. nia. Qed.

Lemma key_more_ref more : ∀ p k V, is_bytes p → (more ≤ 6)%nat → 0 ≤ V < 2 ^ (7 * (8 - Z.of_nat more)) → key_more more p k (Z.lxor V 128) = ref_decode more p k V.
Proof.
  induction more as [|more IH]; intros p k V Hp Hm HV; cbn [key_more ref_decode]; (destruct (rd p k) as [x|] eqn:E; [|done]); pose proof (is_bytes_rd _ _ _ Hp E) as Hx; cbn [mbind option_bind].
  - pose proof (lxor_128_bound V 56 ltac:(lia) HV) as B. rewrite u64_id by (unfold is_u64; rewrite Z.shiftl_mul_pow2 by lia; lia). rewrite Z.shiftl_lxor. change (Z.shiftl 128 8) with 0x8000.
    rewrite (Z.lxor_assoc (Z.shiftl V 8)), Z.lxor_nilpotent, Z.lxor_0_r, lxor_shifted by (unfold is_u8 in Hx; lia). done.
  - set (e := 7 * (8 - Z.of_nat (S more))) in *. pose proof (lxor_128_bound V e ltac:(lia) HV) as B. assert (2 ^ e ≤ 2 ^ 49) by (apply Z.pow_le_mono_r; lia).
    rewrite u64_id by (unfold is_u64; rewrite Z.shiftl_mul_pow2 by lia; lia). rewrite key_step by done. destruct (Z.leb_spec 128 x) as [H1|H1].
    + rewrite (proj2 (Z.ltb_ge _ _)) by done. apply IH; [done|lia|]. replace (7 * (8 - Z.of_nat more)) with (e + 7) by lia. apply group_bound; [lia|done|apply land_7f_bound].
    + rewrite (proj2 (Z.ltb_lt _ _)) by done. by rewrite Z.lxor_0_r, land_small.
Qed.

(** One byte, when the flags of the bytes before it are those of [F]: the
    source takes them out all at once, at the end. *)
Lemma key_flags V F x : is_u8 x → Z.lxor (Z.shiftl (Z.lxor V F) 7) x = Z.lxor (Z.lor (Z.shiftl V 7) (Z.land x 127)) (Z.lxor (Z.shiftl F 7) (if 128 <=? x then 128 else 0)).
Proof.
  intros Hx. rewrite Z.shiftl_lxor. pose proof (land_7f_bound x) as B. rewrite <- lxor_shifted by lia. rewrite !Z.lxor_assoc. f_equal.
  assert (x = Z.lxor (Z.land x 127) (if 128 <=? x then 128 else 0)) as E.
  { destruct (Z.leb_spec 128 x); [by apply flag_xor|]. rewrite Z.lxor_0_r. by rewrite land_small. }
  rewrite E at 1. rewrite <- !Z.lxor_assoc. f_equal. apply Z.lxor_comm.
Qed.

Lemma lxor_twice V F : Z.lxor (Z.lxor V F) F = V.
Proof. by rewrite Z.lxor_assoc, Z.lxor_nilpotent, Z.lxor_0_r. Qed.

Lemma shiftl7_small V F : 0 ≤ V < 2 ^ 32 → 0 ≤ F < 2 ^ 32 → u64 (Z.shiftl (Z.lxor V F) 7) = Z.shiftl (Z.lxor V F) 7.
Proof. intros HV HF. apply u64_id. unfold is_u64. pose proof (lxor_bound V F 32 ltac:(lia) HV HF). rewrite Z.shiftl_mul_pow2 by lia. lia. Qed.

(** The unrolled loop reads what [sqlite3GetVarint] reads. *)
Lemma key_varint_spec p : is_bytes p → key_varint p = sqlite3GetVarint p.
Proof.
  intros Hp. rewrite get_varint_ref by done. unfold key_varint. cbn [ref_decode]. change (0 + 1) with 1.
  destruct (rd p 0) as [x0|] eqn:E0; [|done]. pose proof (is_bytes_rd _ _ _ Hp E0) as H0. cbn [mbind option_bind]. rewrite Z.shiftl_0_l, !Z.lor_0_l.
  destruct (Z.leb_spec 128 x0) as [F0|F0]; cbn [negb]; [rewrite (proj2 (Z.ltb_ge _ _)) by done|by rewrite (proj2 (Z.ltb_lt _ _))].
  pose proof (land_7f_bound x0) as B0. pose proof (flag_xor x0 H0 F0) as X0. remember (Z.land x0 127) as V0 eqn:EV0. rewrite X0. clear EV0 X0. change (1 + 1) with 2.
  destruct (rd p 1) as [x1|] eqn:E1; [|done]. pose proof (is_bytes_rd _ _ _ Hp E1) as H1. cbn [mbind option_bind].
  rewrite shiftl7_small, key_flags by (done || lia). change (Z.shiftl 128 7) with 0x4000. pose proof (land_7f_bound x1) as L1. pose proof (group_bound V0 _ 7 ltac:(lia) ltac:(lia) L1) as B1.
  destruct (Z.leb_spec 128 x1) as [F1|F1]; cbn [negb]; [rewrite (proj2 (Z.ltb_ge x1 _)) by done|rewrite (proj2 (Z.ltb_lt x1 _)) by done; rewrite Z.lxor_0_r, lxor_twice; by rewrite land_small].
  remember (Z.lor (Z.shiftl V0 7) (Z.land x1 127)) as V1 eqn:EV1. clear EV1. change (Z.lxor 0x4000 128) with 0x4080. change (2 + 1) with 3.
  destruct (rd p 2) as [x2|] eqn:E2; [|done]. pose proof (is_bytes_rd _ _ _ Hp E2) as H2. cbn [mbind option_bind].
  rewrite shiftl7_small, key_flags by (done || lia). change (Z.shiftl 0x4080 7) with 0x204000. pose proof (land_7f_bound x2) as L2. pose proof (group_bound V1 _ 14 ltac:(lia) ltac:(lia) L2) as B2.
  destruct (Z.leb_spec 128 x2) as [F2|F2]; cbn [negb]; [rewrite (proj2 (Z.ltb_ge x2 _)) by done|rewrite (proj2 (Z.ltb_lt x2 _)) by done; rewrite Z.lxor_0_r, lxor_twice; by rewrite land_small].
  remember (Z.lor (Z.shiftl V1 7) (Z.land x2 127)) as V2 eqn:EV2. clear EV2. change (Z.lxor 0x204000 128) with 0x204080. change (3 + 1) with 4.
  destruct (rd p 3) as [x3|] eqn:E3; [|done]. pose proof (is_bytes_rd _ _ _ Hp E3) as H3. cbn [mbind option_bind].
  rewrite shiftl7_small by (done || lia). rewrite (Z.lxor_comm _ 0x10204000), Z.lxor_assoc, key_flags by done. change (Z.shiftl 0x204080 7) with 0x10204000. rewrite (Z.lxor_comm 0x10204000), (Z.lxor_comm 0x10204000), <- Z.lxor_assoc, lxor_twice.
  pose proof (land_7f_bound x3) as L3. pose proof (group_bound V2 _ 21 ltac:(lia) ltac:(lia) L3) as B3.
  destruct (Z.leb_spec 128 x3) as [F3|F3]; [rewrite (proj2 (Z.ltb_ge x3 _)) by done|rewrite (proj2 (Z.ltb_lt x3 _)) by done; rewrite Z.lxor_0_r; by rewrite land_small].
  change (4 + 1) with 5. by rewrite key_more_ref by (done || lia).
Qed.

(** ** What the routines read *)

(** The two buffers are the same in [[a, b)]. *)
Definition agree (p q : bytes) (a b : Z) : Prop := ∀ k, a ≤ k < b → rd q k = rd p k.

Lemma agree_sub p q a b a' b' : agree p q a b → a ≤ a' → b' ≤ b → agree p q a' b'.
Proof. intros H ? ? k Hk. apply H. lia. Qed.

Lemma payload_more_spec fuel : ∀ p i e n j v, payload_more fuel p i e n = Some (j, v) → i < e →
  i < j ≤ e ∧ is_u32 v ∧ ∀ q, agree p q (i + 1) (j + 1) → payload_more fuel q i e n = Some (j, v).
Proof.
  induction fuel as [|fuel IH]; intros p i e n j v H He; [done|]. cbn [payload_more] in *. destruct (rd p (i + 1)) as [x|] eqn:E; [|done].
  destruct ((128 <=? x) && (i + 1 <? e)) eqn:C.
  - pose proof C as [_ C2%Z.ltb_lt]%andb_true_iff. destruct (IH _ _ _ _ _ _ H C2) as (B1 & B2 & B3). split; [lia|]. split; [done|].
    intros q Hq. rewrite Hq, E, C by lia. apply B3, (agree_sub _ _ _ _ _ _ Hq); lia.
  - injection H as <- <-. split; [lia|]. split; [|intros q Hq; by rewrite Hq, E, C by lia].
    pose proof (is_u32_u32 (Z.shiftl n 7)) as Bu. pose proof (land_7f_bound x). apply (lor_bound _ _ 32); unfold is_u32 in *; lia.
Qed.

Lemma payload_size_spec p i j v : is_bytes p → payload_size p i = Some (j, v) →
  i < j ≤ i + 9 ∧ is_u32 v ∧ ∀ q, agree p q i j → payload_size q i = Some (j, v).
Proof.
  intros Hp H. unfold payload_size in *. destruct (rd p i) as [x|] eqn:E; [|done]. pose proof (is_bytes_rd _ _ _ Hp E) as Bx.
  destruct (128 <=? x) eqn:C.
  - destruct (payload_more _ _ _ _ _) as [[j' v']|] eqn:M; [|done]. injection H as <- <-. destruct (payload_more_spec _ _ _ _ _ _ _ M) as (B1 & B2 & B3); [lia|].
    split; [lia|]. split; [done|]. intros q Hq. rewrite Hq, E, C by lia. rewrite B3; [done|]. apply (agree_sub _ _ _ _ _ _ Hq); lia.
  - injection H as <- <-. split; [lia|]. split; [unfold is_u32, is_u8 in *; lia|]. intros q Hq. by rewrite Hq, E, C by lia.
Qed.

Lemma key_skip_spec k : ∀ p i j, key_skip k p i = Some j → i < j ≤ i + Z.of_nat k + 1 ∧ ∀ q, agree p q i j → key_skip k q i = Some j.
Proof.
  induction k as [|k IH]; intros p i j H; cbn [key_skip] in *; [injection H as <-; split; [lia|done]|].
  destruct (rd p i) as [x|] eqn:E; [|done]. destruct (negb _) eqn:C.
  - destruct (IH _ _ _ H) as [B1 B2]. split; [lia|]. intros q Hq. rewrite Hq, E, C by lia. apply B2, (agree_sub _ _ _ _ _ _ Hq); lia.
  - injection H as <-. split; [lia|]. intros q Hq. by rewrite Hq, E, C by lia.
Qed.

Lemma varint_end_spec fuel : ∀ p i e j, varint_end fuel p i e = Some j → i < e → i < j ≤ e ∧ ∀ q, agree p q i j → varint_end fuel q i e = Some j.
Proof.
  induction fuel as [|fuel IH]; intros p i e j H He; [done|]. cbn [varint_end] in *. destruct (rd p i) as [x|] eqn:E; [|done].
  destruct (negb _ && _) eqn:C.
  - pose proof C as [_ C2%Z.ltb_lt]%andb_true_iff. destruct (IH _ _ _ _ H C2) as [B1 B2]. split; [lia|]. intros q Hq. rewrite Hq, E, C by lia. apply B2, (agree_sub _ _ _ _ _ _ Hq); lia.
  - injection H as <-. split; [lia|]. intros q Hq. by rewrite Hq, E, C by lia.
Qed.

(** ** Limits *)

(** What [decodeFlags] makes of the limits of a database. *)
Definition page_type (P : PageType) : Prop :=
  ∃ P0 flag pBt0 pages, 480 ≤ usableSize pBt0 ≤ 65536 ∧ pBt P0 = set_limits pBt0 pages ∧ decodeFlags P0 flag = (0, P).

Lemma page_type_cases P : page_type P → 0 ≤ minLocal P ≤ maxLocal P ∧ maxLocal P ≤ usableSize (pBt P) - 23 ∧ 480 ≤ usableSize (pBt P) ≤ 65536 ∧
  (childPtrSize P = 0 ∧ xCellSize P = XSizeTableLeaf ∧ xParseCell P = XParsePtr ∨
   childPtrSize P = 0 ∧ xCellSize P = XSizeIdxLeaf ∧ xParseCell P = XParseIndex ∨
   childPtrSize P = 4 ∧ xCellSize P = XSizePtr ∧ xParseCell P = XParseIndex ∨
   childPtrSize P = 4 ∧ xCellSize P = XSizeNoPayload ∧ xParseCell P = XParseNoPayload).
Proof.
  intros (P0 & flag & pBt0 & pages & Hu & Hb & Hd). remember (usableSize pBt0) as usable eqn:Eu.
  assert (0 ≤ bt_minLocal (pBt P0) ≤ bt_maxLocal (pBt P0) ∧ bt_maxLocal (pBt P0) ≤ usable - 23 ∧ 0 ≤ bt_minLeaf (pBt P0) ≤ bt_maxLeaf (pBt P0) ∧ bt_maxLeaf (pBt P0) ≤ usable - 23 ∧ usableSize (pBt P0) = usable) as (L1 & L2 & L3 & L4 & L5).
  { clear Hd. rewrite Hb. unfold set_limits. cbn -[Z.mul Z.sub Z.div u16]. rewrite <- Eu. unfold u16.
    assert (0 ≤ ((usable - 12) * 32) `div` 255 - 23 ≤ ((usable - 12) * 64) `div` 255 - 23) by (Z.div_mod_to_equations; lia). assert (((usable - 12) * 64) `div` 255 ≤ usable - 12) by (Z.div_mod_to_equations; lia).
    rewrite !(Z.mod_small _ 65536) by lia. lia. }
  unfold decodeFlags in Hd. repeat case_match; try done; injection Hd as <-; cbn; rewrite L5; (split; [lia|]; split; [lia|]; split; [lia|]); tauto.
Qed.

(** The part of a cell that is on the page, when what comes before the payload
    takes [j] bytes. *)
Lemma size_of_spec P n j least : page_type P → is_u32 n → 0 < j ≤ 18 → j ≤ size_of P n j least ≤ usableSize (pBt P) - 1 ∧ (least = true ∨ 4 ≤ j → 4 ≤ size_of P n j least).
Proof.
  intros (Hm & HM & Hu & _)%page_type_cases Hn Hj. unfold size_of, u16, u32, is_u32 in *. destruct (Z.leb_spec n (maxLocal P)).
  - rewrite (Z.mod_small (n + j)) by lia. destruct (Z.ltb_spec (n + j) 4), least; cbn [andb]; rewrite Z.mod_small by lia; (split; [lia|intros [?|?]; [done|lia]]).
  - pose proof (Z.mod_pos_bound ((n - minLocal P) `mod` 4294967296) (usableSize (pBt P) - 4) ltac:(lia)) as B. set (r := _ `mod` (usableSize (pBt P) - 4)) in *.
    rewrite (Z.mod_small (minLocal P + r)) by lia. rewrite (Z.mod_small j) by lia. destruct (Z.ltb_spec (maxLocal P) (minLocal P + r)); rewrite !(Z.mod_small _ 4294967296) by lia; rewrite !Z.mod_small by lia; (split; [lia|intros _; lia]).
Qed.

(** The size of a cell is that of a part of it: it depends on no other byte,
    a page holds it, and it takes four bytes at least. *)
Lemma cell_size_spec P p n : page_type P → is_bytes p → cell_size P p = Some n →
  4 ≤ n < usableSize (pBt P) ∧ ∀ q, agree p q 0 n → cell_size P q = Some n.
Proof.
  intros HP Hp H. pose proof HP as (_ & _ & Hu & HT)%page_type_cases.
  assert (∀ i j v, payload_size p i = Some (j, v) → 0 ≤ i → i < j ≤ i + 9 ∧ is_u32 v ∧ ∀ q n, agree p q 0 n → j ≤ n → payload_size q i = Some (j, v)) as HS.
  { intros i j v M Hi. destruct (payload_size_spec _ _ _ _ Hp M) as (B1 & B2 & B3). split; [done|]. split; [done|]. intros q n' Hq Hn. apply B3, (agree_sub _ _ _ _ _ _ Hq); lia. }
  unfold cell_size in *. destruct HT as [(_ & E & _)|[(_ & E & _)|[(_ & E & _)|(_ & E & _)]]]; rewrite E in *; clear E.
  - unfold cellSizePtrTableLeaf in *. destruct (payload_size p 0) as [[i v]|] eqn:M; [|done]. destruct (HS _ _ _ M) as (B1 & B2 & B3); [lia|].
    destruct (key_skip 8 p i) as [j|] eqn:K; [|done]. destruct (key_skip_spec _ _ _ _ K) as [B4 B5]. injection H as <-.
    destruct (size_of_spec P v j true HP B2) as [B6 B7]; [lia|]. split; [lia|]. intros q Hq. rewrite (B3 q _ Hq) by lia. rewrite (B5 q) by (apply (agree_sub _ _ _ _ _ _ Hq); lia). done.
  - unfold cellSizePtrIdxLeaf in *. destruct (payload_size p 0) as [[j v]|] eqn:M; [|done]. destruct (HS _ _ _ M) as (B1 & B2 & B3); [lia|]. injection H as <-.
    destruct (size_of_spec P v j true HP B2) as [B6 B7]; [lia|]. split; [lia|]. intros q Hq. by rewrite (B3 q _ Hq) by lia.
  - unfold cellSizePtr in *. destruct (payload_size p 4) as [[j v]|] eqn:M; [|done]. destruct (HS _ _ _ M) as (B1 & B2 & B3); [lia|]. injection H as <-.
    destruct (size_of_spec P v j false HP B2) as [B6 B7]; [lia|]. split; [lia|]. intros q Hq. by rewrite (B3 q _ Hq) by lia.
  - unfold cellSizePtrNoPayload in *. destruct (varint_end 9 p 4 13) as [j|] eqn:M; [|done]. destruct (varint_end_spec _ _ _ _ _ M) as [B1 B2]; [lia|]. injection H as <-.
    unfold u16. rewrite Z.mod_small by lia. split; [lia|]. intros q Hq. rewrite B2 by (apply (agree_sub _ _ _ _ _ _ Hq); lia). by rewrite Z.mod_small by lia.
Qed.

(** ** Parsing and sizing agree *)

Lemma ref_decode_skip more : ∀ p k acc n v, is_bytes p → ref_decode more p k acc = Some (n, v) → key_skip more p k = Some n.
Proof.
  induction more as [|more IH]; intros p k acc n v Hp H; cbn [ref_decode key_skip] in *; (destruct (rd p k) as [x|] eqn:E; [|done]); pose proof (is_bytes_rd _ _ _ Hp E) as Hx.
  - by injection H as <- _.
  - rewrite land_128 by done. destruct (x <? 128); cbn [negb]; [by injection H as <- _|by eapply IH].
Qed.

Lemma ref_decode_end more : ∀ p k acc n v, is_bytes p → ref_decode more p k acc = Some (n, v) → varint_end (S more) p k (k + Z.of_nat (S more)) = Some n.
Proof.
  induction more as [|more IH]; intros p k acc n v Hp H; cbn [ref_decode] in *; (destruct (rd p k) as [x|] eqn:E; [|done]); pose proof (is_bytes_rd _ _ _ Hp E) as Hx.
  - cbn [varint_end]. rewrite E, (proj2 (Z.ltb_ge _ _)), andb_false_r by lia. by injection H as <- _.
  - cbn [varint_end]. rewrite E, land_128, (proj2 (Z.ltb_lt (k + 1) _)) by (done || lia). rewrite andb_true_r. destruct (x <? 128); cbn [negb]; [by injection H as <- _|].
    apply IH in H; [|done]. replace (k + Z.of_nat (S (S more))) with (k + 1 + Z.of_nat (S more)) by lia. exact H.
Qed.

Lemma rd_skip {A} (m : list A) (i k : Z) : 0 ≤ i → 0 ≤ k → rd (drop (Z.to_nat i) m) k = rd m (i + k).
Proof. intros. unfold rd. rewrite !decide_True by lia. rewrite lookup_drop. f_equal. lia. Qed.

Lemma key_skip_drop k : ∀ p i j, 0 ≤ i → 0 ≤ j → key_skip k (drop (Z.to_nat i) p) j = (λ n, n - i) <$> key_skip k p (i + j).
Proof.
  induction k as [|k IH]; intros p i j Hi Hj; cbn [key_skip]; [cbn; f_equal; lia|]. rewrite rd_skip by done. destruct (rd p (i + j)) as [x|]; [|done].
  destruct (negb _); [|cbn; f_equal; lia]. rewrite IH by lia. by rewrite Z.add_assoc.
Qed.

Lemma varint_end_drop fuel : ∀ p i j e, 0 ≤ i → 0 ≤ j → varint_end fuel (drop (Z.to_nat i) p) j e = (λ n, n - i) <$> varint_end fuel p (i + j) (i + e).
Proof.
  induction fuel as [|fuel IH]; intros p i j e Hi Hj; cbn [varint_end]; [done|]. rewrite rd_skip by done. destruct (rd p (i + j)) as [x|]; [|done].
  replace (i + j + 1 <? i + e) with (j + 1 <? e) by (destruct (Z.ltb_spec (j + 1) e), (Z.ltb_spec (i + j + 1) (i + e)); lia).
  destruct (_ && _); [|cbn; f_equal; lia]. rewrite IH by lia. by rewrite Z.add_assoc.
Qed.

(** The two ways to compute a size are the same. *)
Lemma set_sizes_spec P key n j least : page_type P → is_u32 n → 0 < j ≤ 18 → least = true ∨ 4 ≤ j →
  nSize (set_sizes P (mk_info key j n 0 0)) = size_of P n j least.
Proof.
  intros (Hm & HM & Hu & _)%page_type_cases Hn Hj Hl. unfold set_sizes, size_of, u16, u32, is_u32 in *. cbn [nPayload pPayload nKey nSize]. destruct (Z.leb_spec n (maxLocal P)).
  - cbn [nSize]. rewrite (Z.mod_small (n + j)), (Z.mod_small n), (Z.mod_small j), (Z.mod_small (n + j)) by lia.
    destruct (Z.ltb_spec (n + j) 4), least; cbn [andb]; rewrite ?(Z.mod_small (n + j)) by lia; try done. destruct Hl; [done|lia].
  - unfold btreeParseCellAdjustSizeForOverflow, u16, u32. cbn [nPayload pPayload nKey nSize].
    pose proof (Z.mod_pos_bound ((n - minLocal P) `mod` 4294967296) (usableSize (pBt P) - 4) ltac:(lia)) as B. set (r := _ `mod` (usableSize (pBt P) - 4)) in *.
    rewrite (Z.mod_small (minLocal P + r)) by lia. rewrite (Z.mod_small j) by lia.
    destruct (Z.ltb_spec (maxLocal P) (minLocal P + r)), (Z.leb_spec (minLocal P + r) (maxLocal P)); try lia; rewrite !(Z.mod_small _ 4294967296) by lia.
    + rewrite (Z.mod_small (minLocal P)), (Z.mod_small (j + _)) by lia. f_equal. lia.
    + rewrite (Z.mod_small (minLocal P + r)), (Z.mod_small (j + _)) by lia. f_equal. lia.
Qed.

(** What the parser reads as the key is what the sizing routine skips. *)
Lemma key_varint_skip p i k v : is_bytes p → 0 ≤ i → key_varint (drop (Z.to_nat i) p) = Some (k, v) → key_skip 8 p i = Some (i + k).
Proof.
  intros Hp Hi H. assert (is_bytes (drop (Z.to_nat i) p)) as Hd by (by apply Forall_drop). rewrite key_varint_spec, get_varint_ref in H by done. apply ref_decode_skip in H; [|done].
  rewrite key_skip_drop, Z.add_0_r in H by lia. destruct (key_skip 8 p i) as [n|]; [|done]. injection H as <-. f_equal. lia.
Qed.

Lemma get_varint_end p k v : is_bytes p → sqlite3GetVarint (drop 4 p) = Some (k, v) → varint_end 9 p 4 13 = Some (4 + k).
Proof.
  intros Hp H. rewrite get_varint_ref in H by (by apply Forall_drop). apply ref_decode_end in H; [|by apply Forall_drop]. change (drop 4 p) with (drop (Z.to_nat 4) p) in H. rewrite varint_end_drop in H by lia.
  change (4 + (0 + Z.of_nat 9)) with 13 in H. change (4 + 0) with 4 in H. destruct (varint_end 9 p 4 13) as [n|]; [|done]. injection H as <-. f_equal. lia.
Qed.

(** The bytes read for an integer are nine at most. *)
Lemma payload_more_total fuel : ∀ p i e n, 0 ≤ i < e → e ≤ i + Z.of_nat fuel → e < Z.of_nat (length p) → ∃ r, payload_more fuel p i e n = Some r.
Proof.
  induction fuel as [|fuel IH]; intros p i e n Hi He Hl; [lia|]. cbn [payload_more]. destruct (rd_is_Some p (i + 1) ltac:(lia)) as [x ->].
  destruct (_ && _) eqn:C; [|eauto]. apply andb_true_iff in C as [_ C%Z.ltb_lt]. apply IH; lia.
Qed.

Lemma payload_size_total p i : 0 ≤ i → i + 9 ≤ Z.of_nat (length p) → ∃ r, payload_size p i = Some r.
Proof.
  intros Hi Hl. unfold payload_size. destruct (rd_is_Some p i ltac:(lia)) as [x ->]. destruct (128 <=? x); [|eauto].
  destruct (payload_more_total 8 p i (i + 8) (Z.land x 127)) as [[j v] ->]; [lia|lia|lia|]. eauto.
Qed.

Lemma ref_decode_reads more : ∀ p k acc, 0 ≤ k → k + Z.of_nat more < Z.of_nat (length p) → ∃ r, ref_decode more p k acc = Some r.
Proof.
  induction more as [|more IH]; intros p k acc Hk Hl; cbn [ref_decode]; (destruct (rd_is_Some p k ltac:(lia)) as [x ->]); [eauto|].
  destruct (x <? 128); [eauto|]. apply IH; lia.
Qed.

Lemma parse_cell_total P p : page_type P → is_bytes p → 18 ≤ Z.of_nat (length p) → ∃ info, parse_cell P p = Some info.
Proof.
  intros (_ & _ & _ & HT)%page_type_cases Hp Hl.
  assert (∀ i, 0 ≤ i ≤ 4 → ∃ j v, payload_size p i = Some (j, v) ∧ i < j ≤ i + 9) as HS.
  { intros i Hi. destruct (payload_size_total p i ltac:(lia) ltac:(lia)) as [[j v] M]. exists j, v. split; [done|]. by apply payload_size_spec in M as (B & _). }
  assert (∀ i, 0 ≤ i ≤ 9 → ∃ r, sqlite3GetVarint (drop (Z.to_nat i) p) = Some r) as HV.
  { intros i Hi. rewrite get_varint_ref by (by apply Forall_drop). apply ref_decode_reads; [done|]. rewrite length_drop. lia. }
  unfold parse_cell, btreeParseCellPtr, btreeParseCellPtrIndex, btreeParseCellPtrNoPayload. destruct HT as [(_ & _ & ->)|[(-> & _ & ->)|[(-> & _ & ->)|(_ & _ & ->)]]].
  - destruct (HS 0) as (j & v & -> & Hj); [lia|]. rewrite key_varint_spec by (by apply Forall_drop). destruct (HV j) as [[k key] ->]; [lia|]. eauto.
  - destruct (HS 0) as (j & v & -> & Hj); [lia|]. eauto.
  - destruct (HS 4) as (j & v & -> & Hj); [lia|]. eauto.
  - destruct (HV 4) as [[k key] E]; [lia|]. change (Z.to_nat 4) with 4%nat in E. rewrite E. eauto.
Qed.

Lemma parse_cell_size P p info : page_type P → is_bytes p → parse_cell P p = Some info →
  cell_size P p = Some (nSize info) ∧ 4 ≤ nSize info < usableSize (pBt P).
Proof.
  intros HP Hp H. assert (cell_size P p = Some (nSize info)) as E; [|split; [done|by eapply cell_size_spec]].
  pose proof HP as (_ & _ & Hu & HT)%page_type_cases. unfold cell_size, parse_cell in *. destruct HT as [(_ & -> & E)|[(Hc & -> & E)|[(Hc & -> & E)|(_ & -> & E)]]]; rewrite E in H; clear E.
  - unfold btreeParseCellPtr, cellSizePtrTableLeaf in *. destruct (payload_size p 0) as [[i v]|] eqn:M; [|done]. destruct (payload_size_spec _ _ _ _ Hp M) as (B1 & B2 & _).
    destruct (key_varint _) as [[k key]|] eqn:K; [|done]. apply key_varint_skip in K; [|done|lia]. rewrite K. apply key_skip_spec in K as [K _]. injection H as <-. f_equal. symmetry. apply set_sizes_spec; [done|done|lia|by left].
  - unfold btreeParseCellPtrIndex, cellSizePtrIdxLeaf in *. rewrite Hc in H. destruct (payload_size p 0) as [[i v]|] eqn:M; [|done]. destruct (payload_size_spec _ _ _ _ Hp M) as (B1 & B2 & _).
    injection H as <-. f_equal. symmetry. apply set_sizes_spec; [done|done|lia|by left].
  - unfold btreeParseCellPtrIndex, cellSizePtr in *. rewrite Hc in H. destruct (payload_size p 4) as [[i v]|] eqn:M; [|done]. destruct (payload_size_spec _ _ _ _ Hp M) as (B1 & B2 & _).
    injection H as <-. f_equal. symmetry. apply set_sizes_spec; [done|done|lia|right; lia].
  - unfold btreeParseCellPtrNoPayload, cellSizePtrNoPayload in *. destruct (sqlite3GetVarint _) as [[k v]|] eqn:M; [|done]. apply get_varint_end in M; [|done]. rewrite M. injection H as <-. cbn [nSize].
    apply varint_end_spec in M as [M _]; [|lia]. unfold u16. by rewrite Z.mod_small by lia.
Qed.

(** C21: the routines that only size a cell give the size that parsing the cell gives, for each of the four types of page and any bytes; it is four bytes at least and fits on a page, and it depends on no byte past the cell.  Eighteen bytes are enough for both. *)
Theorem cell_sizes_agree P p : page_type P → is_bytes p → 18 ≤ Z.of_nat (length p) →
  ∃ info, parse_cell P p = Some info ∧ cell_size P p = Some (nSize info) ∧ 4 ≤ nSize info < usableSize (pBt P) ∧
    ∀ q, agree p q 0 (nSize info) → cell_size P q = Some (nSize info).
Proof.
  intros HP Hp Hl. destruct (parse_cell_total P p HP Hp Hl) as [info Hi]. destruct (parse_cell_size P p info HP Hp Hi) as [H1 H2].
  exists info. split; [done|]. split; [done|]. split; [done|]. by apply cell_size_spec in H1 as [_ H1].
Qed.

Definition bt_4096 : BtShared := mk_bt 4096 4096 0 false false (replicate 4104 0) 0 0 0 0 0 0.

(** A leaf of a table, in pages of 4096 bytes. *)
Definition leaf_4096 : PageType :=
  snd (decodeFlags (mk_type (set_limits bt_4096 1) false false false 0 0 0 0 XSizePtr XParsePtr) 13).

Lemma leaf_4096_type : page_type leaf_4096.
Proof. eexists _, 13, bt_4096, 1. split; [cbn; lia|]. split; [|reflexivity]. reflexivity. Qed.

(** Three bytes of payload under the key 300. *)
Definition small_cell : bytes := [3; 130; 44; 1; 2; 3] ++ replicate 14 0.

Lemma cell_sizes_agree_witness : page_type leaf_4096 ∧ parse_cell leaf_4096 small_cell = Some (mk_info 300 3 3 3 6) ∧
  ∃ info, parse_cell leaf_4096 small_cell = Some info ∧ cell_size leaf_4096 small_cell = Some (nSize info) ∧ 4 ≤ nSize info < usableSize (pBt leaf_4096) ∧
    ∀ q, agree small_cell q 0 (nSize info) → cell_size leaf_4096 q = Some (nSize info).
Proof.
  split; [apply leaf_4096_type|]. split; [vm_compute; reflexivity|]. apply (cell_sizes_agree leaf_4096 small_cell); [apply leaf_4096_type|repeat constructor; unfold is_u8; lia|vm_compute; discriminate].
Defined.

(** The size of the payload is that of the variable-length integer, as long as
    it fits: a larger one is cut to 32 bits, where [getVarint32] gives the
    largest. *)
Example inline_payload_wraps : payload_size [144; 128; 128; 128; 5] 0 = Some (5, 5) ∧ sqlite3GetVarint [144; 128; 128; 128; 5] = Some (5, 4294967301) ∧ getVarint32 [144; 128; 128; 128; 5] = Some (5, 0xffffffff).
Proof. vm_compute. done. Qed.

End BtreeCell.
