(* ===== verification/BtreePage.v ===== *)
(** * The space of a B-tree page ([native/sqlite3/sqlite3.c], btree.c)

    A page starts with a header and the array of the addresses of its cells;
    the cells fill it from its end.  Between them are free blocks, kept in a
    list in the order of their addresses, and fragments too small for one.
    The theorems show that a page stands for the list of its cells:
    inserting, dropping and moving them does to that list what it means to,
    whatever their places, and the free space is what the cells leave. *)

From S2P Require Import Prelude Varint BtreeCell.

Module BtreePage.

Import Varint BtreeCell.

(** ** Pages in memory *)

(* native/sqlite3/sqlite3.c:70985-70985 BTS_FAST_SECURE *)
Definition BTS_FAST_SECURE : Z := 0x000c.

(* native/sqlite3/sqlite3.c:70745-70745 MX_CELL *)
Definition MX_CELL (pBt : BtShared) : Z := (pageSize pBt - 8) `div` 6.

(** [ovfl] has the entries of [aiOvfl] and [apOvfl] that are in use: [nOverflow]
    is its length. *)
(* native/sqlite3/sqlite3.c:70789-70820 MemPage *)
Record MemPage : Type := mk_mempage {
  ptype :> PageType; isInit : bool; hdrOffset : Z; cellOffset : Z; maskPage : Z; nCell : Z; nFree : Z;
  ovfl : list (Z * bytes); aData : bytes }.

Definition set_data (p : MemPage) (d : bytes) : MemPage :=
  mk_mempage (ptype p) (isInit p) (hdrOffset p) (cellOffset p) (maskPage p) (nCell p) (nFree p) (ovfl p) d.
Definition set_nFree (p : MemPage) (n : Z) : MemPage :=
  mk_mempage (ptype p) (isInit p) (hdrOffset p) (cellOffset p) (maskPage p) (nCell p) n (ovfl p) (aData p).
Definition set_nCell (p : MemPage) (n : Z) : MemPage :=
  mk_mempage (ptype p) (isInit p) (hdrOffset p) (cellOffset p) (maskPage p) n (nFree p) (ovfl p) (aData p).
Definition set_ovfl (p : MemPage) (l : list (Z * bytes)) : MemPage :=
  mk_mempage (ptype p) (isInit p) (hdrOffset p) (cellOffset p) (maskPage p) (nCell p) (nFree p) l (aData p).

(** ** Bytes of a page *)

(* native/sqlite3/sqlite3.c:71238-71238 get2byte *)
Definition get2byte (d : bytes) (i : Z) : option Z :=
  let* a := rd d i in let* b := rd d (i + 1) in Some (Z.lor (Z.shiftl a 8) b).

(* native/sqlite3/sqlite3.c:71239-71239 put2byte *)
Definition put2byte (d : bytes) (i v : Z) : option bytes :=
  let* d := wr d i (u8 (Z.shiftr v 8)) in wr d (i + 1) (u8 v).

(* native/sqlite3/sqlite3.c:71597-71597 get2byteNotZero *)
Definition get2byteNotZero (d : bytes) (i : Z) : option Z :=
  let* v := get2byte d i in Some (Z.land (v - 1) 0xffff + 1).

Definition put4byte (d : bytes) (i v : Z) : option bytes :=
  if decide (0 ≤ i) then
    let* q := sqlite3Put4byte (drop (Z.to_nat i) d) v in Some (take (Z.to_nat i) d ++ q)
  else None.

(** The functions of the C library on one buffer. *)
Definition memmove (d : bytes) (dst src n : Z) : option bytes := let* l := sub d src n in splice d dst l.
Definition memset (d : bytes) (i v n : Z) : option bytes :=
  if 0 <=? n then splice d i (replicate (Z.to_nat n) v) else None.

(** ** Finding and freeing space *)

(** [pc] is the address of a free block, [iAddr] that of the pointer to it.
    The result has the address found, the result code and the page. *)
(* native/sqlite3/sqlite3.c:73311-73356 pageFindSlot, the loop *)
Fixpoint find_slot_loop (fuel : nat) (hdr maxPC nByte : Z) (aData : bytes) (iAddr pc : Z) : option (bytes * option Z * Z) :=
  match fuel with
  | O => None
  | S fuel =>
      if pc <=? maxPC then
        let* size := get2byte aData (pc + 2) in
        let x := size - nByte in
        if 0 <=? x then
          if x <? 4 then
            let* frag := rd aData (hdr + 7) in
            if 57 <? frag then Some (aData, None, 0) else
            let* aData := memmove aData iAddr pc 2 in
            let* frag := rd aData (hdr + 7) in
            let* aData := wr aData (hdr + 7) (u8 (frag + u8 x)) in
            Some (aData, Some pc, 0)
          else if maxPC <? x + pc then Some (aData, None, SQLITE_CORRUPT_PAGE)
          else
            let* aData := put2byte aData (pc + 2) x in
            Some (aData, Some (pc + x), 0)
        else
          let iAddr := pc in
          let* pc := get2byte aData pc in
          if pc <=? iAddr then Some (aData, None, if negb (pc =? 0) then SQLITE_CORRUPT_PAGE else 0)
          else find_slot_loop fuel hdr maxPC nByte aData iAddr pc
      else Some (aData, None, if maxPC + nByte - 4 <? pc then SQLITE_CORRUPT_PAGE else 0)
  end.

(* native/sqlite3/sqlite3.c:73286-73357 pageFindSlot *)
Definition pageFindSlot (pPg : MemPage) (nByte : Z) : option (bytes * option Z * Z) :=
  let hdr := hdrOffset pPg in
  let iAddr := hdr + 1 in
  let* pc := get2byte (aData pPg) iAddr in
  find_slot_loop (S (Z.to_nat (usableSize (pBt pPg)))) hdr (usableSize (pBt pPg) - nByte) nByte (aData pPg) iAddr pc.

(** The block of cells above the free blocks moves up, and the pointers to
    it.  [pAddr] goes through the array of pointers. *)
(* native/sqlite3/sqlite3.c:73228-73232 defragmentPage, the pointers *)
Fixpoint shift_pointers (n : nat) (data : bytes) (pAddr iFree iFree2 sz sz2 : Z) : option bytes :=
  match n with
  | O => Some data
  | S n =>
      let* pc := get2byte data pAddr in
      let* data :=
        if pc <? iFree then put2byte data pAddr (pc + sz)
        else if pc <? iFree2 then put2byte data pAddr (pc + sz2) else Some data in
      shift_pointers n data (pAddr + 2) iFree iFree2 sz sz2
  end.

(** One cell after the other is copied to the end of the page, from [src].
    The result is the page and [cbrk], or [None] inside for a corrupt page. *)
(* native/sqlite3/sqlite3.c:73245-73268 defragmentPage, the loop *)
Fixpoint pack_cells (n : nat) (pPage : MemPage) (src : bytes) (iCellStart iCellLast : Z) (data : bytes) (i cbrk : Z) : option (bytes * option Z) :=
  match n with
  | O => Some (data, Some cbrk)
  | S n =>
      let pAddr := cellOffset pPage + i * 2 in
      let* pc := get2byte data pAddr in
      if iCellLast <? pc then Some (data, None) else
      let* size := cell_size pPage (drop (Z.to_nat pc) src) in
      let cbrk := cbrk - size in
      if (cbrk <? iCellStart) || (usableSize (pBt pPage) <? pc + size) then Some (data, None) else
      let* data := put2byte data pAddr cbrk in
      let* cell := sub src pc size in
      let* data := splice data cbrk cell in
      pack_cells n pPage src iCellStart iCellLast data (i + 1) cbrk
  end.

(** What [defragmentPage] does at its end. *)
(* native/sqlite3/sqlite3.c:73272-73284 defragmentPage, defragment_out *)
Definition defragment_out (pPage : MemPage) (data : bytes) (cbrk : Z) : option (MemPage * Z) :=
  let hdr := hdrOffset pPage in
  let iCellFirst := cellOffset pPage + 2 * nCell pPage in
  let* frag := rd data (hdr + 7) in
  if negb (frag + cbrk - iCellFirst =? nFree pPage) then Some (set_data pPage data, SQLITE_CORRUPT_PAGE) else
  let* data := put2byte data (hdr + 5) cbrk in
  let* data := wr data (hdr + 1) 0 in
  let* data := wr data (hdr + 2) 0 in
  let* data := memset data iCellFirst 0 (cbrk - iCellFirst) in
  Some (set_data pPage data, 0).

(** All the cells are packed again. *)
(* native/sqlite3/sqlite3.c:73238-73270 defragmentPage, the slow way *)
Definition defragment_pack (pPage : MemPage) : option (MemPage * Z) :=
  let data := aData pPage in
  let hdr := hdrOffset pPage in
  let usableSize := usableSize (pBt pPage) in
  let* iCellStart := get2byte data (hdr + 5) in
  let* (data, cbrk) :=
    if 0 <? nCell pPage then
      let* page := sub data 0 usableSize in
      let* src := splice (pTmpSpace (pBt pPage)) 0 page in
      pack_cells (Z.to_nat (nCell pPage)) pPage src iCellStart (usableSize - 4) data 0 usableSize
    else Some (data, Some usableSize) in
  match cbrk with
  | None => Some (set_data pPage data, SQLITE_CORRUPT_PAGE)
  | Some cbrk => let* data := wr data (hdr + 7) 0 in defragment_out pPage data cbrk
  end.

(** With one or two free blocks and few fragments, [iFree] and [iFree2]. *)
(* native/sqlite3/sqlite3.c:73207-73233 defragmentPage, the fast way *)
Definition defragment_shift (pPage : MemPage) (iFree iFree2 : Z) : option (MemPage * Z) :=
  let data := aData pPage in
  let hdr := hdrOffset pPage in
  let usableSize := usableSize (pBt pPage) in
  let corrupt := Some (pPage, SQLITE_CORRUPT_PAGE) in
  let* sz := get2byte data (iFree + 2) in
  let* top := get2byte data (hdr + 5) in
  if iFree <=? top then corrupt else
  let finish data sz sz2 :=
    let cbrk := top + sz in
    let* data := memmove data cbrk top (iFree - top) in
    let* data := shift_pointers (Z.to_nat (nCell pPage)) data (cellOffset pPage) iFree iFree2 sz sz2 in
    defragment_out pPage data cbrk in
  if negb (iFree2 =? 0) then
    if iFree2 <? iFree + sz then corrupt else
    let* sz2 := get2byte data (iFree2 + 2) in
    if usableSize <? iFree2 + sz2 then corrupt else
    let* data := memmove data (iFree + sz + sz2) (iFree + sz) (iFree2 - (iFree + sz)) in
    finish data (sz + sz2) sz2
  else if usableSize <? iFree + sz then corrupt else finish data sz 0.

(* native/sqlite3/sqlite3.c:73154-73284 defragmentPage *)
Definition defragmentPage (pPage : MemPage) (nMaxFrag : Z) : option (MemPage * Z) :=
  let data := aData pPage in
  let hdr := hdrOffset pPage in
  let usableSize := usableSize (pBt pPage) in
  let corrupt := Some (pPage, SQLITE_CORRUPT_PAGE) in
  let* frag := rd data (hdr + 7) in
  if frag <=? nMaxFrag then
    let* iFree := get2byte data (hdr + 1) in
    if usableSize - 4 <? iFree then corrupt else
    if negb (iFree =? 0) then
      let* iFree2 := get2byte data iFree in
      if usableSize - 4 <? iFree2 then corrupt else
      let* last := if iFree2 =? 0 then Some true else
        let* a := rd data iFree2 in
        if a =? 0 then let* b := rd data (iFree2 + 1) in Some (b =? 0) else Some false in
      if last : bool then defragment_shift pPage iFree iFree2 else defragment_pack pPage
    else defragment_pack pPage
  else defragment_pack pPage.

(** The result is the page, the result code and the address. *)
(* native/sqlite3/sqlite3.c:73359-73456 allocateSpace *)
Definition allocateSpace (pPage : MemPage) (nByte : Z) : option (MemPage * Z * Z) :=
  let data := aData pPage in
  let hdr := hdrOffset pPage in
  let usableSize := usableSize (pBt pPage) in
  let corrupt := Some (pPage, SQLITE_CORRUPT_PAGE, 0) in
  let gap := cellOffset pPage + 2 * nCell pPage in
  let* top := get2byte data (hdr + 5) in
  if (if top <? gap then negb ((top =? 0) && (usableSize =? 65536)) else usableSize <? top) then corrupt else
  let top := if top <? gap then 65536 else top in
  let from_gap data :=
    let pPage := set_data pPage data in
    let take_top pPage top :=
      let top := top - nByte in
      let* data := put2byte (aData pPage) (hdr + 5) top in
      Some (set_data pPage data, 0, top) in
    if top <? gap + 2 + nByte then
      let* (pPage, rc) := defragmentPage pPage (Z.min 4 (nFree pPage - (2 + nByte))) in
      if negb (rc =? 0) then Some (pPage, rc, 0) else
      let* top := get2byteNotZero (aData pPage) (hdr + 5) in
      take_top pPage top
    else take_top pPage top in
  let* h2 := rd data (hdr + 2) in
  let* h1 := rd data (hdr + 1) in
  if (negb (h2 =? 0) || negb (h1 =? 0)) && (gap + 2 <=? top) then
    let* (data, pSpace, rc) := pageFindSlot pPage nByte in
    match pSpace with
    | Some g2 => Some (set_data pPage data, if g2 <=? gap then SQLITE_CORRUPT_PAGE else 0, g2)
    | None => if negb (rc =? 0) then Some (set_data pPage data, rc, 0) else from_gap data
    end
  else from_gap data.

(** The pointer after which a block at [iStart] belongs, and the block after
    it; [None] inside for a list out of order. *)
(* native/sqlite3/sqlite3.c:73498-73504 freeSpace, the loop *)
Fixpoint find_place (fuel : nat) (data : bytes) (iStart iPtr : Z) : option (option (Z * Z)) :=
  match fuel with
  | O => None
  | S fuel =>
      let* iFreeBlk := get2byte data iPtr in
      if iFreeBlk <? iStart then
        if iFreeBlk <=? iPtr then
          if iFreeBlk =? 0 then Some (Some (iPtr, iFreeBlk)) else Some None
        else find_place fuel data iStart iFreeBlk
      else Some (Some (iPtr, iFreeBlk))
  end.

(** A block [[iStart, iEnd)] joined with the block after it: its end, the next
    block, and the fragment that became part of it; [None] inside for a
    corrupt page. *)
(* native/sqlite3/sqlite3.c:73516-73525 freeSpace, the block after *)
Definition coalesce_after (usableSize : Z) (data : bytes) (iFreeBlk iEnd : Z) : option (option (Z * Z * Z)) :=
  if negb (iFreeBlk =? 0) && (iFreeBlk <=? iEnd + 3) then
    let nFrag := iFreeBlk - iEnd in
    if iFreeBlk <? iEnd then Some None else
    let* size := get2byte data (iFreeBlk + 2) in
    let iEnd := iFreeBlk + size in
    if usableSize <? iEnd then Some None else
    let* iFreeBlk := get2byte data iFreeBlk in
    Some (Some (iEnd, iFreeBlk, nFrag))
  else Some (Some (iEnd, iFreeBlk, 0)).

(** Joined with the block before it too: its start comes first. *)
(* native/sqlite3/sqlite3.c:73516-73539 freeSpace, the adjacent blocks *)
Definition coalesce (usableSize hdr : Z) (data : bytes) (iPtr iFreeBlk iStart iEnd : Z) : option (option (Z * Z * Z * Z)) :=
  let* after := coalesce_after usableSize data iFreeBlk iEnd in
  match after with
  | None => Some None
  | Some (iEnd, iFreeBlk, nFrag) =>
      if hdr + 1 <? iPtr then
        let* size := get2byte data (iPtr + 2) in
        let iPtrEnd := iPtr + size in
        if iStart <=? iPtrEnd + 3 then
          if iStart <? iPtrEnd then Some None
          else Some (Some (iPtr, iEnd, iFreeBlk, nFrag + (iStart - iPtrEnd)))
        else Some (Some (iStart, iEnd, iFreeBlk, nFrag))
      else Some (Some (iStart, iEnd, iFreeBlk, nFrag))
  end.

(** The block enters the list, or the content of the page starts after it. *)
(* native/sqlite3/sqlite3.c:73543-73566 freeSpace, the end *)
Definition free_block (pPage : MemPage) (data : bytes) (iPtr iFreeBlk iStart iEnd iOrigSize : Z) : option (MemPage * Z) :=
  let hdr := hdrOffset pPage in
  let* x := get2byte data (hdr + 5) in
  let* data :=
    if negb (Z.land (btsFlags (pBt pPage)) BTS_FAST_SECURE =? 0) then memset data iStart 0 (iEnd - iStart) else Some data in
  if iStart <=? x then
    if iStart <? x then Some (set_data pPage data, SQLITE_CORRUPT_PAGE) else
    if negb (iPtr =? hdr + 1) then Some (set_data pPage data, SQLITE_CORRUPT_PAGE) else
    let* data := put2byte data (hdr + 1) iFreeBlk in
    let* data := put2byte data (hdr + 5) iEnd in
    Some (set_nFree (set_data pPage data) (nFree pPage + iOrigSize), 0)
  else
    let* data := put2byte data iPtr iStart in
    let* data := put2byte data iStart iFreeBlk in
    let* data := put2byte data (iStart + 2) (u16 (iEnd - iStart)) in
    Some (set_nFree (set_data pPage data) (nFree pPage + iOrigSize), 0).

(* native/sqlite3/sqlite3.c:73458-73567 freeSpace *)
Definition freeSpace (pPage : MemPage) (iStart iSize : Z) : option (MemPage * Z) :=
  let data := aData pPage in
  let hdr := hdrOffset pPage in
  let usableSize := usableSize (pBt pPage) in
  let corrupt := Some (pPage, SQLITE_CORRUPT_PAGE) in
  let iEnd := iStart + iSize in
  let iPtr := hdr + 1 in
  let* b := rd data (iPtr + 1) in
  let* a := rd data iPtr in
  if (b =? 0) && (a =? 0) then free_block pPage data iPtr 0 iStart iEnd iSize else
  let* place := find_place (S (length data)) data iStart iPtr in
  match place with
  | None => corrupt
  | Some (iPtr, iFreeBlk) =>
      if usableSize - 4 <? iFreeBlk then corrupt else
      let* joined := coalesce usableSize hdr data iPtr iFreeBlk iStart iEnd in
      match joined with
      | None => corrupt
      | Some (iStart, iEnd, iFreeBlk, nFrag) =>
          let* frag := rd data (hdr + 7) in
          if frag <? nFrag then corrupt else
          let* data := wr data (hdr + 7) (u8 (frag - u8 nFrag)) in
          free_block pPage data iPtr iFreeBlk iStart iEnd iSize
      end
  end.

(** ** The free space of a page *)

(** The sum so far in [nFree]; the result has the last block, its size and
    the pointer in it, or [None] inside for a block past the end. *)
(* native/sqlite3/sqlite3.c:73687-73697 btreeComputeFreeSpace, the loop *)
Fixpoint sum_blocks (fuel : nat) (data : bytes) (iCellLast pc nFree : Z) : option (option (Z * Z * Z * Z)) :=
  match fuel with
  | O => None
  | S fuel =>
      if iCellLast <? pc then Some None else
      let* next := get2byte data pc in
      let* size := get2byte data (pc + 2) in
      let nFree := nFree + size in
      if next <=? pc + size + 3 then Some (Some (pc, size, next, nFree)) else sum_blocks fuel data iCellLast next nFree
  end.

(* native/sqlite3/sqlite3.c:73640-73720 btreeComputeFreeSpace *)
Definition btreeComputeFreeSpace (pPage : MemPage) : option (MemPage * Z) :=
  let usableSize := usableSize (pBt pPage) in
  let hdr := hdrOffset pPage in
  let data := aData pPage in
  let corrupt := Some (pPage, SQLITE_CORRUPT_PAGE) in
  let* top := get2byteNotZero data (hdr + 5) in
  let iCellFirst := hdr + 8 + childPtrSize pPage + 2 * nCell pPage in
  let iCellLast := usableSize - 4 in
  let* pc := get2byte data (hdr + 1) in
  let* frag := rd data (hdr + 7) in
  let nFree := frag + top in
  let finish nFree :=
    if (usableSize <? nFree) || (nFree <? iCellFirst) then corrupt
    else Some (set_nFree pPage (u16 (nFree - iCellFirst)), 0) in
  if 0 <? pc then
    if pc <? top then corrupt else
    let* blocks := sum_blocks (S (length data)) data iCellLast pc nFree in
    match blocks with
    | None => corrupt
    | Some (pc, size, next, nFree) =>
        if 0 <? next then corrupt else
        if usableSize <? pc + size then corrupt else finish nFree
    end
  else finish nFree.

(** ** Pages *)

(* native/sqlite3/sqlite3.c:72719-72720 findCell *)
Definition findCell (pPage : MemPage) (i : Z) : option Z :=
  let* o := get2byte (aData pPage) (cellOffset pPage + 2 * i) in Some (Z.land (maskPage pPage) o).

(* native/sqlite3/sqlite3.c:73742-73754 btreeCellSizeCheck, the loop *)
Fixpoint check_sizes (n : nat) (pPage : MemPage) (iCellFirst iCellLast i : Z) : option Z :=
  match n with
  | O => Some 0
  | S n =>
      let* pc := get2byte (aData pPage) (cellOffset pPage + i * 2) in
      if (pc <? iCellFirst) || (iCellLast <? pc) then Some SQLITE_CORRUPT_PAGE else
      let* sz := cell_size pPage (drop (Z.to_nat pc) (aData pPage)) in
      if usableSize (pBt pPage) <? pc + sz then Some SQLITE_CORRUPT_PAGE
      else check_sizes n pPage iCellFirst iCellLast (i + 1)
  end.

(* native/sqlite3/sqlite3.c:73722-73756 btreeCellSizeCheck *)
Definition btreeCellSizeCheck (pPage : MemPage) : option Z :=
  let iCellFirst := cellOffset pPage + 2 * nCell pPage in
  let iCellLast := usableSize (pBt pPage) - 4 in
  let iCellLast := if negb (leaf pPage) then iCellLast - 1 else iCellLast in
  check_sizes (Z.to_nat (nCell pPage)) pPage iCellFirst iCellLast 0.

(* native/sqlite3/sqlite3.c:73758-73814 btreeInitPage *)
Definition btreeInitPage (pPage : MemPage) : option (MemPage * Z) :=
  let hdr := hdrOffset pPage in
  let data := aData pPage in
  let* flag := rd data hdr in
  let (rc, t) := decodeFlags pPage flag in
  if negb (rc =? 0) then
    Some (mk_mempage t (isInit pPage) hdr (cellOffset pPage) (maskPage pPage) (nCell pPage) (nFree pPage) (ovfl pPage) data, SQLITE_CORRUPT_PAGE) else
  let maskPage := u16 (pageSize (pBt pPage) - 1) in
  let cellOffset := u16 (hdr + 8 + childPtrSize t) in
  let* nCell := get2byte data (hdr + 3) in
  if MX_CELL (pBt pPage) <? nCell then
    Some (mk_mempage t (isInit pPage) hdr cellOffset maskPage nCell (nFree pPage) [] data, SQLITE_CORRUPT_PAGE) else
  let pPage := mk_mempage t true hdr cellOffset maskPage nCell (-1) [] data in
  if cellSizeCk (pBt pPage) then let* rc := btreeCellSizeCheck pPage in Some (pPage, rc) else Some (pPage, 0).

(* native/sqlite3/sqlite3.c:73816-73850 zeroPage *)
Definition zeroPage (pPage : MemPage) (flags : Z) : option MemPage :=
  let data := aData pPage in
  let hdr := hdrOffset pPage in
  let usableSize := usableSize (pBt pPage) in
  let* data := if negb (Z.land (btsFlags (pBt pPage)) BTS_FAST_SECURE =? 0) then memset data hdr 0 (usableSize - hdr) else Some data in
  let* data := wr data hdr (u8 flags) in
  let first := hdr + (if Z.land flags PTF_LEAF =? 0 then 12 else 8) in
  let* data := memset data (hdr + 1) 0 4 in
  let* data := wr data (hdr + 7) 0 in
  let* data := put2byte data (hdr + 5) usableSize in
  let (_, t) := decodeFlags pPage flags in
  Some (mk_mempage t true hdr (u16 first) (u16 (pageSize (pBt pPage) - 1)) 0 (u16 (usableSize - first)) [] data).

(* native/sqlite3/sqlite3.c:78745-78795 dropCell *)
Definition dropCell (pPage : MemPage) (idx sz pRC : Z) : option (MemPage * Z) :=
  if negb (pRC =? 0) then Some (pPage, pRC) else
  let ptr := cellOffset pPage + 2 * idx in
  let* pc := get2byte (aData pPage) ptr in
  let hdr := hdrOffset pPage in
  let usableSize := usableSize (pBt pPage) in
  if usableSize <? pc + sz then Some (pPage, SQLITE_CORRUPT_PAGE) else
  let* (pPage, rc) := freeSpace pPage pc sz in
  if negb (rc =? 0) then Some (pPage, rc) else
  let nCell := u16 (nCell pPage - 1) in
  let pPage := set_nCell pPage nCell in
  if nCell =? 0 then
    let* data := memset (aData pPage) (hdr + 1) 0 4 in
    let* data := wr data (hdr + 7) 0 in
    let* data := put2byte data (hdr + 5) usableSize in
    Some (set_nFree (set_data pPage data) (usableSize - hdr - childPtrSize pPage - 8), 0)
  else
    let* data := memmove (aData pPage) ptr (ptr + 2) (2 * (nCell - idx)) in
    let* data := put2byte data (hdr + 3) nCell in
    Some (set_nFree (set_data pPage data) (nFree pPage + 2), 0).

Section insert.
(** What the pager answers when the page is to be written, and what entering
    an overflow page of a cell into the pointer map gives. *)
Context (pagerWrite : Z) (ptrmapPutOvflPtr : MemPage → bytes → Z).

(** The cell gets its pointer, after its content was written. *)
(* native/sqlite3/sqlite3.c:78883-78901 insertCell, the pointer *)
Definition insert_pointer (pPage : MemPage) (data : bytes) (i idx : Z) (pCell : bytes) : option (MemPage * Z) :=
  let pIns := cellOffset pPage + i * 2 in
  let* data := memmove data (pIns + 2) pIns (2 * (nCell pPage - i)) in
  let* data := put2byte data pIns idx in
  let pPage := set_nCell pPage (u16 (nCell pPage + 1)) in
  let* lo := rd data (hdrOffset pPage + 4) in
  let* data := wr data (hdrOffset pPage + 4) (u8 (lo + 1)) in
  let* data :=
    if u8 (lo + 1) =? 0 then
      let* hi := rd data (hdrOffset pPage + 3) in wr data (hdrOffset pPage + 3) (u8 (hi + 1))
    else Some data in
  let pPage := set_data pPage data in
  Some (pPage, if autoVacuum (pBt pPage) then ptrmapPutOvflPtr pPage pCell else 0).

(** A cell that finds no room is only kept with the page. *)
(* native/sqlite3/sqlite3.c:78845-78851 insertCell, the overflow *)
Definition insert_overflow (pPage : MemPage) (i : Z) (pCell : bytes) : option (MemPage * Z) :=
  if Z.of_nat (length (ovfl pPage)) <? 4 then Some (set_ovfl pPage (ovfl pPage ++ [(u16 i, pCell)]), 0) else None.

(** The child page [iChild] becomes the first four bytes of the cell, in the
    page or in the copy that is kept with it. *)
(* native/sqlite3/sqlite3.c:78797-78902 insertCell *)
Definition insertCell (pPage : MemPage) (i : Z) (pCell : bytes) (sz : Z) (pTemp : option bytes) (iChild : Z) : option (MemPage * Z) :=
  if negb (Z.of_nat (length (ovfl pPage)) =? 0) || (nFree pPage <? sz + 2) then
    let* pCell := match pTemp with Some t => let* c := sub pCell 0 sz in splice t 0 c | None => Some pCell end in
    let* pCell := put4byte pCell 0 iChild in
    insert_overflow pPage i pCell
  else
    if negb (pagerWrite =? 0) then Some (pPage, pagerWrite) else
    let* (pPage, rc, idx) := allocateSpace pPage sz in
    if negb (rc =? 0) then Some (pPage, rc) else
    let pPage := set_nFree pPage (nFree pPage - u16 (2 + sz)) in
    let* c := sub pCell 4 (sz - 4) in
    let* data := splice (aData pPage) (idx + 4) c in
    let* data := put4byte data idx iChild in
    insert_pointer pPage data i idx pCell.

(* native/sqlite3/sqlite3.c:78904-78986 insertCellFast *)
Definition insertCellFast (pPage : MemPage) (i : Z) (pCell : bytes) (sz : Z) : option (MemPage * Z) :=
  if nFree pPage <? sz + 2 then insert_overflow pPage i pCell
  else
    if negb (pagerWrite =? 0) then Some (pPage, pagerWrite) else
    let* (pPage, rc, idx) := allocateSpace pPage sz in
    if negb (rc =? 0) then Some (pPage, rc) else
    let pPage := set_nFree pPage (nFree pPage - u16 (2 + sz)) in
    let* c := sub pCell 0 sz in
    let* data := splice (aData pPage) idx c in
    insert_pointer pPage data i idx pCell.

End insert.

(** ** Bytes: lemmas *)

Lemma get2_byte (a b : Z) : is_u8 a → is_u8 b → Z.lor (Z.shiftl a 8) b = a * 256 + b.
Proof. intros Ha Hb. apply (lor_add a b 8); [lia|]. unfold is_u8 in *. lia. Qed.

Lemma get2byte_total d i : 0 ≤ i → i + 2 ≤ Z.of_nat (length d) → ∃ v, get2byte d i = Some v.
Proof. intros H1 H2. unfold get2byte. destruct (rd_is_Some d i) as [a ->]; [lia|]. destruct (rd_is_Some d (i + 1)) as [b ->]; [lia|]. eauto. Qed.

Lemma get2byte_bound d i v : is_bytes d → get2byte d i = Some v → 0 ≤ v < 65536.
Proof.
  intros Hd H. unfold get2byte in H. destruct (rd d i) as [a|] eqn:Ea; [|done]. destruct (rd d (i + 1)) as [b|] eqn:Eb; [|done]. injection H as <-.
  apply is_bytes_rd in Ea, Eb; [|done..]. rewrite get2_byte by done. unfold is_u8 in *. lia.
Qed.

Lemma get2byte_lt d i v : get2byte d i = Some v → 0 ≤ i ∧ i + 2 ≤ Z.of_nat (length d).
Proof.
  unfold get2byte. destruct (rd d i) eqn:Ea; [|done]. destruct (rd d (i + 1)) eqn:Eb; [|done]. intros _. apply rd_lt in Ea, Eb. lia.
Qed.

Lemma get2byte_agree d d' i : agree d d' i (i + 2) → get2byte d' i = get2byte d i.
Proof. intros H. unfold get2byte. by rewrite !H by lia. Qed.

Lemma sub_agree (d d' : bytes) i n : length d' = length d → agree d d' i (i + n) → sub d' i n = sub d i n.
Proof.
  intros Hl H. destruct (sub d i n) as [l|] eqn:E.
  - pose proof (sub_length _ _ _ _ E) as (B1 & B2 & B3). apply sub_rd; [done|done|lia|]. intros j Hj. rewrite H by lia.
    unfold sub in E. rewrite decide_True in E by lia. injection E as <-. unfold rd. rewrite !decide_True by lia. rewrite lookup_take_lt, lookup_drop by lia. f_equal. lia.
  - unfold sub in *. rewrite Hl. by case_decide.
Qed.

Lemma rd_sub (d l : bytes) i n j : sub d i n = Some l → 0 ≤ j < n → rd l j = rd d (i + j).
Proof.
  intros E Hj. pose proof (sub_length _ _ _ _ E) as (B1 & B2 & B3). unfold sub in E. rewrite decide_True in E by lia. injection E as <-.
  unfold rd. rewrite !decide_True by lia. rewrite lookup_take_lt, lookup_drop by lia. f_equal. lia.
Qed.

(** Only the bytes of [[i, i+n)] differ. *)
Definition writes (d d' : bytes) (i n : Z) : Prop :=
  length d' = length d ∧ (is_bytes d → is_bytes d') ∧ ∀ j, j < i ∨ i + n ≤ j → rd d' j = rd d j.

Lemma writes_agree d d' i n a b : writes d d' i n → b ≤ i ∨ i + n ≤ a → agree d d' a b.
Proof. intros (_ & _ & H) Hab k Hk. apply H. lia. Qed.

Lemma writes_get2 d d' i n j : writes d d' i n → j + 2 ≤ i ∨ i + n ≤ j → get2byte d' j = get2byte d j.
Proof. intros H Hj. apply get2byte_agree. by apply (writes_agree _ _ _ _ _ _ H). Qed.

Lemma writes_sub d d' i n j m : writes d d' i n → j + m ≤ i ∨ i + n ≤ j → sub d' j m = sub d j m.
Proof. intros H Hj. apply sub_agree; [apply H|]. by apply (writes_agree _ _ _ _ _ _ H). Qed.

Lemma writes_weaken d d' i n i' n' : writes d d' i n → i' ≤ i → i + n ≤ i' + n' → writes d d' i' n'.
Proof. intros (H1 & H2 & H3) ? ?. split; [done|]. split; [done|]. intros j Hj. apply H3. lia. Qed.

Lemma is_bytes_insert (d : bytes) k v : is_bytes d → is_u8 v → is_bytes (<[k := v]> d).
Proof. intros Hd Hv. apply Forall_insert; done. Qed.

Lemma wr_spec d i v : 0 ≤ i < Z.of_nat (length d) → is_u8 v → ∃ d', wr d i v = Some d' ∧ writes d d' i 1 ∧ rd d' i = Some v.
Proof.
  intros Hi Hv. rewrite wr_Some by done. eexists. split; [done|]. assert (wr d i v = Some (<[Z.to_nat i:=v]> d)) as E by (by apply wr_Some). split; [|by eapply rd_wr_eq].
  split; [apply length_insert|]. split; [intros; by apply is_bytes_insert|]. intros j Hj. eapply rd_wr_ne; [done|lia].
Qed.

Lemma put2byte_spec d i v : 0 ≤ i → i + 2 ≤ Z.of_nat (length d) → 0 ≤ v → ∃ d', put2byte d i v = Some d' ∧ writes d d' i 2 ∧ get2byte d' i = Some (u16 v).
Proof.
  intros Hi Hl Hv. unfold put2byte. destruct (wr_spec d i (u8 (Z.shiftr v 8)) ltac:(lia) ltac:(apply is_u8_u8)) as (d1 & E1 & (L1 & B1 & W1) & R1). rewrite E1.
  destruct (wr_spec d1 (i + 1) (u8 v) ltac:(lia) ltac:(apply is_u8_u8)) as (d2 & E2 & (L2 & B2 & W2) & R2). rewrite E2. exists d2. split; [done|]. split.
  - split; [lia|]. split; [auto|]. intros j Hj. rewrite W2, W1 by lia. done.
  - unfold get2byte. rewrite (W2 i), R1, R2 by lia. rewrite get2_byte by apply is_u8_u8. f_equal. unfold u8, u16. rewrite Z.shiftr_div_pow2 by lia. change (2 ^ 8) with 256. dm.
Qed.

Lemma splice_spec d i l : 0 ≤ i → i + Z.of_nat (length l) ≤ Z.of_nat (length d) → is_bytes l →
  ∃ d', splice d i l = Some d' ∧ writes d d' i (Z.of_nat (length l)) ∧ ∀ j, 0 ≤ j < Z.of_nat (length l) → rd d' (i + j) = rd l j.
Proof.
  intros Hi Hl Hb. destruct (splice_ok d l i Hi Hl) as [d' E]. exists d'. split; [done|]. split.
  - split; [by eapply splice_length|]. split; [|intros j Hj; rewrite (splice_rd _ _ _ _ _ E); apply decide_False; lia].
    intros Hd. unfold splice in E. rewrite decide_True in E by lia. injection E as <-. apply Forall_app. split; [by apply Forall_take|]. apply Forall_app. split; [done|by apply Forall_drop].
  - intros j Hj. rewrite (splice_rd _ _ _ _ _ E), decide_True by lia. f_equal. lia.
Qed.

Lemma memset_spec d i v n : 0 ≤ i → 0 ≤ n → i + n ≤ Z.of_nat (length d) → is_u8 v →
  ∃ d', memset d i v n = Some d' ∧ writes d d' i n ∧ ∀ j, i ≤ j < i + n → rd d' j = Some v.
Proof.
  intros Hi Hn Hl Hv. unfold memset. rewrite (proj2 (Z.leb_le _ _)) by done. pose proof (length_replicate (Z.to_nat n) v) as Lr.
  destruct (splice_spec d i (replicate (Z.to_nat n) v)) as (d' & E & W & R); [done|lia|by apply Forall_replicate|]. exists d'. split; [done|].
  rewrite Lr in *. split; [by replace n with (Z.of_nat (Z.to_nat n)) by lia|]. intros j Hj. replace j with (i + (j - i)) by lia. rewrite R by lia. unfold rd. rewrite decide_True by lia. apply lookup_replicate. split; [done|lia].
Qed.

Lemma memmove_spec d dst src n : 0 ≤ dst → 0 ≤ src → 0 ≤ n → dst + n ≤ Z.of_nat (length d) → src + n ≤ Z.of_nat (length d) → is_bytes d →
  ∃ d', memmove d dst src n = Some d' ∧ writes d d' dst n ∧ ∀ j, 0 ≤ j < n → rd d' (dst + j) = rd d (src + j).
Proof.
  intros H1 H2 H3 H4 H5 Hb. unfold memmove. assert (∃ l, sub d src n = Some l) as [l E] by (unfold sub; rewrite decide_True by lia; eauto). rewrite E.
  pose proof (sub_length _ _ _ _ E) as (_ & Ll & _). destruct (splice_spec d dst l) as (d' & E' & W & R); [done|lia| |].
  { unfold sub in E. rewrite decide_True in E by lia. injection E as <-. by apply Forall_take, Forall_drop. }
  exists d'. split; [done|]. rewrite Ll in *. split; [done|]. intros j Hj. rewrite R by done. by apply (rd_sub _ _ _ _ _ E).
Qed.

(** ** Parts of a page *)

(** A part of a page is its address and its size. *)

Definition apart (x y : Z * Z) : Prop := x.1 + x.2 ≤ y.1 ∨ y.1 + y.2 ≤ x.1.

Fixpoint disj (l : list (Z * Z)) : Prop :=
  match l with [] => True | x :: l => Forall (apart x) l ∧ disj l end.

Definition inside (lo hi : Z) (x : Z * Z) : Prop := lo ≤ x.1 ∧ 4 ≤ x.2 ∧ x.1 + x.2 ≤ hi.

Definition total (l : list (Z * Z)) : Z := foldr (λ x n, x.2 + n) 0 l.

Arguments total : simpl never.

Lemma total_cons x l : total (x :: l) = x.2 + total l.
Proof. done. Qed.

Lemma apart_sym x y : apart x y → apart y x.
Proof. unfold apart. tauto. Qed.

Lemma total_app l1 l2 : total (l1 ++ l2) = total l1 + total l2.
Proof. induction l1 as [|x l1 IH]; [done|]. cbn [app]. rewrite !total_cons. lia. Qed.

Lemma disj_app l1 l2 : disj (l1 ++ l2) ↔ disj l1 ∧ disj l2 ∧ Forall (λ x, Forall (apart x) l2) l1.
Proof.
  induction l1 as [|x l1 IH]; cbn [disj app]; [split; [intros H; split; [done|]; split; [done|constructor]|tauto]|].
  rewrite Forall_app, IH, Forall_cons. tauto.
Qed.

Lemma disj_perm l1 l2 : Permutation l1 l2 → disj l1 → disj l2.
Proof.
  induction 1 as [|x l1 l2 Hp IH|x y l|l1 l2 l3 _ IH1 _ IH2]; cbn [disj]; [done| | |tauto].
  - intros [H1 H2]. split; [by rewrite <- Hp|tauto].
  - rewrite !Forall_cons. intros [[H1 H2] [H3 H4]]. split; [split; [by apply apart_sym|done]|done].
Qed.

(** The bytes of parts that do not meet fit where the parts are. *)
Lemma total_bound l lo hi : lo ≤ hi → Forall (inside lo hi) l → disj l → total l ≤ hi - lo.
Proof.
  intros Hl Hi Hd. set (space := λ l : list (Z * Z), concat (map (λ x, seqZ x.1 x.2) l)).
  assert (∀ k l, k ∈ space l ↔ ∃ x, x ∈ l ∧ x.1 ≤ k < x.1 + x.2) as He.
  { intros k l'. unfold space. rewrite list_elem_of_In, in_concat. setoid_rewrite in_map_iff. split.
    - intros (y & (x & <- & Hx) & Hk). exists x. apply list_elem_of_In in Hx, Hk. apply elem_of_seqZ in Hk. split; [done|lia].
    - intros (x & Hx & Hk). exists (seqZ x.1 x.2). split; [exists x; split; [done|by apply list_elem_of_In]|]. apply list_elem_of_In, elem_of_seqZ. lia. }
  assert (∀ l, Forall (inside lo hi) l → total l = Z.of_nat (length (space l))) as Ht.
  { clear. induction 1 as [|x l Hx _ IH]; [done|]. unfold total, space in *. cbn [foldr map concat]. rewrite length_app, length_seqZ. unfold inside in Hx. lia. }
  assert (NoDup (space l)) as Hn.
  { clear Ht. induction l as [|x l IH]; [constructor|]. cbn [disj] in Hd. destruct Hd as [Hx Hd]. apply Forall_cons in Hi as [Hi Hi']. change (space (x :: l)) with (seqZ x.1 x.2 ++ space l).
    apply NoDup_app. split; [apply NoDup_seqZ|]. split; [|by apply IH]. intros k Hk%elem_of_seqZ Hk'. apply He in Hk' as (y & Hin & Hy). rewrite Forall_forall in Hx. specialize (Hx y Hin). unfold apart in Hx. lia. }
  assert (space l ⊆+ seqZ lo (hi - lo)) as Hs.
  { apply NoDup_submseteq; [done|]. intros k Hk. apply He in Hk as (y & Hin & Hy). rewrite Forall_forall in Hi. specialize (Hi y Hin). unfold inside in Hi. apply elem_of_seqZ. lia. }
  rewrite Ht by done. apply submseteq_length in Hs. rewrite length_seqZ in Hs. lia.
Qed.

(** ** The list of free blocks *)

(** From the pointer at [p] through the blocks [l]; the last pointer is [n]. *)
Fixpoint links (d : bytes) (p : Z) (l : list (Z * Z)) (n : Z) : Prop :=
  match l with
  | [] => get2byte d p = Some n
  | (a, s) :: l => get2byte d p = Some a ∧ get2byte d (a + 2) = Some s ∧ links d a l n
  end.

(** In the order of addresses, four bytes apart at least. *)
Fixpoint sorted (lo : Z) (l : list (Z * Z)) (hi : Z) : Prop :=
  match l with
  | [] => True
  | (a, s) :: l => lo ≤ a ∧ 4 ≤ s ∧ a + s ≤ hi ∧ sorted (a + s + 4) l hi
  end.

Definition last_ptr (p : Z) (l : list (Z * Z)) : Z := match last l with Some (a, _) => a | None => p end.
Definition first_of (l : list (Z * Z)) : Z := match l with (a, _) :: _ => a | [] => 0 end.

Lemma last_ptr_cons p a s l : last_ptr p ((a, s) :: l) = last_ptr a l.
Proof. unfold last_ptr. rewrite last_cons. by destruct (last l) as [[]|]. Qed.

Lemma last_ptr_snoc p l a s : last_ptr p (l ++ [(a, s)]) = a.
Proof. unfold last_ptr. by rewrite last_snoc. Qed.

Lemma links_app d l1 l2 n : ∀ p, links d p (l1 ++ l2) n ↔ links d p l1 (match l2 with (a, _) :: _ => a | [] => n end) ∧ match l2 with (a, s) :: l2 => get2byte d (a + 2) = Some s ∧ links d a l2 n | [] => True end.
Proof.
  induction l1 as [|[a s] l1 IH]; intros p; cbn [app links]; [destruct l2 as [|[a s] l2]; cbn [links]; tauto|]. rewrite IH. tauto.
Qed.

Lemma links_last d l n : ∀ p, links d p l n → get2byte d (last_ptr p l) = Some n.
Proof. induction l as [|[a s] l IH]; intros p H; [exact H|]. rewrite last_ptr_cons. apply IH, H. Qed.

Lemma links_first d p l : links d p l 0 → get2byte d p = Some (first_of l).
Proof. destruct l as [|[a s] l]; cbn; tauto. Qed.

Lemma sorted_weaken lo lo' l hi : sorted lo l hi → lo' ≤ lo → sorted lo' l hi.
Proof. destruct l as [|[a s] l]; cbn; [done|]. intros (? & ?) ?. split; [lia|done]. Qed.

Lemma sorted_app lo l1 a s l2 hi : sorted lo (l1 ++ (a, s) :: l2) hi ↔ sorted lo l1 (a - 4) ∧ lo ≤ a ∧ 4 ≤ s ∧ a + s ≤ hi ∧ sorted (a + s + 4) l2 hi.
Proof.
  revert lo. induction l1 as [|[b t] l1 IH]; intros lo; cbn [app sorted]; [tauto|]. rewrite IH. split.
  - intros (H1 & H2 & H3 & H4 & H5 & H6 & H7 & H8). repeat split; try done; lia.
  - intros ((H1 & H2 & H3 & H4) & H5 & H6 & H7 & H8). repeat split; try done; lia.
Qed.

Lemma sorted_inside lo l hi : sorted lo l hi → Forall (inside lo hi) l.
Proof.
  revert lo. induction l as [|[a s] l IH]; intros lo; cbn [sorted]; [constructor|]. intros (H1 & H2 & H3 & H4). constructor; [done|].
  eapply Forall_impl; [by apply IH|]. intros x. unfold inside. lia.
Qed.

Lemma sorted_disj lo l hi : sorted lo l hi → disj l.
Proof.
  revert lo. induction l as [|[a s] l IH]; intros lo; cbn [sorted disj]; [done|]. intros (H1 & H2 & H3 & H4). split; [|by eapply IH].
  eapply Forall_impl; [by eapply sorted_inside|]. intros x. unfold inside, apart. cbn. lia.
Qed.

Lemma sorted_length lo l hi : sorted lo l hi → Z.of_nat (length l) ≤ Z.max 0 (hi - lo).
Proof. revert lo. induction l as [|[a s] l IH]; intros lo; cbn [sorted length]; [lia|]. intros (H1 & H2 & H3 & H4). specialize (IH _ H4). lia. Qed.

Lemma links_keep d d' l n : ∀ p, links d p l n → agree d d' p (p + 2) → Forall (λ x, agree d d' x.1 (x.1 + 4)) l → links d' p l n.
Proof.
  induction l as [|[a s] l IH]; intros p; cbn [links]; [intros H Hp _; by rewrite (get2byte_agree _ _ _ Hp)|].
  intros (H1 & H2 & H3) Hp [Ha Hl]%Forall_cons. cbn in Ha. split; [by rewrite (get2byte_agree _ _ _ Hp)|]. split; [rewrite (get2byte_agree d d'); [done|apply (agree_sub _ _ _ _ _ _ Ha); lia]|].
  apply IH; [done|apply (agree_sub _ _ _ _ _ _ Ha); lia|done].
Qed.

Lemma last_ptr_in p l : last_ptr p l = p ∨ ∃ t, (last_ptr p l, t) ∈ l.
Proof. unfold last_ptr. destruct (last l) as [[b t]|] eqn:E; [|by left]. right. exists t. by apply last_Some_elem_of. Qed.

(** The last pointer and the blocks, when only bytes elsewhere change. *)
Lemma links_update d d' l n n' hi : ∀ p lo, links d p l n → sorted lo l hi → p + 2 ≤ lo →
  (∀ j, (p ≤ j < p + 2 ∨ ∃ x : Z * Z, x ∈ l ∧ x.1 ≤ j < x.1 + 4) → j < last_ptr p l ∨ last_ptr p l + 2 ≤ j → rd d' j = rd d j) →
  get2byte d' (last_ptr p l) = Some n' → links d' p l n'.
Proof.
  induction l as [|[a s] l IH]; intros p lo; cbn [links sorted]; [done|]. rewrite last_ptr_cons. intros (H1 & H2 & H3) (S1 & S2 & S3 & S4) Hp Hw Hn.
  assert (last_ptr a l = a ∨ a + 8 ≤ last_ptr a l) as Ha.
  { destruct (last_ptr_in a l) as [E|[t E]]; [by left|right]. apply sorted_inside in S4. rewrite Forall_forall in S4. specialize (S4 _ E). unfold inside in S4. cbn in S4. lia. }
  assert ((a, s) ∈ (a, s) :: l) as Hin by by left.
  split; [rewrite (get2byte_agree d d'); [done|]; intros j Hj; apply Hw; [by left|lia]|]. split; [rewrite (get2byte_agree d d'); [done|]; intros j Hj; apply Hw; [right; exists (a, s); split; [done|cbn; lia]|lia]|].
  eapply IH; [done|done|lia| |done]. intros j Hj Hj'. apply Hw; [|done]. right. destruct Hj as [Hj|(x & Hx & Hj)]; [exists (a, s); split; [done|cbn; lia]|exists x; split; [by right|done]].
Qed.

Lemma links_relink d d' l n n' hi p lo : links d p l n → sorted lo l hi → p + 2 ≤ lo → writes d d' (last_ptr p l) 2 → get2byte d' (last_ptr p l) = Some n' → links d' p l n'.
Proof. intros H1 H2 H3 (_ & _ & W) H4. eapply links_update; try eassumption. intros j _ Hj. apply W. lia. Qed.

(** ** The layout of a page *)

(** Where the parts of a page are. *)
Definition geometry (P : MemPage) : Prop :=
  page_type P ∧ (hdrOffset P = 0 ∨ hdrOffset P = 100) ∧ cellOffset P = hdrOffset P + 8 + childPtrSize P ∧
  usableSize (pBt P) ≤ pageSize (pBt P) ∧ (∃ k, 9 ≤ k ≤ 16 ∧ pageSize (pBt P) = 2 ^ k) ∧ pageSize (pBt P) ≤ Z.of_nat (length (aData P)) ∧ is_bytes (aData P) ∧
  usableSize (pBt P) ≤ Z.of_nat (length (pTmpSpace (pBt P))).

(** The content of the page starts at [top]; [used] are the parts of it in
    use, [fl] the free blocks, and [frag] bytes are neither. *)
Record layout (P : MemPage) (used fl : list (Z * Z)) (top frag : Z) : Prop := {
  l_geo : geometry P;
  l_gap : cellOffset P + 2 * nCell P ≤ top ≤ usableSize (pBt P);
  l_cells : 0 ≤ nCell P;
  l_top : get2byte (aData P) (hdrOffset P + 5) = Some (u16 top);
  l_frag : rd (aData P) (hdrOffset P + 7) = Some frag;
  l_small : frag ≤ 60;
  l_links : links (aData P) (hdrOffset P + 1) fl 0;
  l_sorted : sorted (top + 1) fl (usableSize (pBt P));
  l_disj : disj (used ++ fl);
  l_inside : Forall (inside top (usableSize (pBt P))) used;
  l_sum : frag + total used + total fl = usableSize (pBt P) - top }.

Lemma geometry_bounds P : geometry P → 480 ≤ usableSize (pBt P) ≤ pageSize (pBt P) ∧ pageSize (pBt P) ≤ 65536 ∧ pageSize (pBt P) ≤ Z.of_nat (length (aData P)) ∧ hdrOffset P + 8 ≤ cellOffset P ≤ hdrOffset P + 12 ∧ 0 ≤ hdrOffset P ≤ 100 ∧ is_bytes (aData P).
Proof.
  intros ((_ & _ & Hu & HT)%page_type_cases & Hh & Hc & Hp & (k & Hk & Hpow) & Hl & Hb & _).
  assert (childPtrSize P = 0 ∨ childPtrSize P = 4) as Hs by tauto. clear HT.
  assert (pageSize (pBt P) ≤ 65536) by (rewrite Hpow; change 65536 with (2 ^ 16); apply Z.pow_le_mono_r; lia). repeat split; try done; lia.
Qed.

(** ** Finding a slot *)

Lemma find_slot_loop_spec hdr usable n frag d : ∀ rest fuel p lo, 4 ≤ n → rest ≠ [] → links d p rest 0 → sorted lo rest usable → 0 < lo → rd d (hdr + 7) = Some frag → (length rest < fuel)%nat →
  let res := find_slot_loop fuel hdr (usable - n) n d p (first_of rest) in
  res = Some (d, None, 0) ∨
  ∃ l1 a s l2, rest = l1 ++ (a, s) :: l2 ∧ n ≤ s ∧
    (s < n + 4 ∧ frag ≤ 57 ∧ res = (let* d1 := memmove d (last_ptr p l1) a 2 in let* f := rd d1 (hdr + 7) in let* d2 := wr d1 (hdr + 7) (u8 (f + u8 (s - n))) in Some (d2, Some a, 0)) ∨
     n + 4 ≤ s ∧ res = (let* d1 := put2byte d (a + 2) (s - n) in Some (d1, Some (a + (s - n)), 0))).
Proof.
  induction rest as [|[a s] l IH]; intros [|fuel] p lo Hn He Hk Hs Hp Hf Hl; try done; [cbn in Hl; lia|]. cbn [links sorted] in Hk, Hs. destruct Hk as (K1 & K2 & K3), Hs as (S1 & S2 & S3 & S4). cbn [find_slot_loop first_of]. cbv zeta.
  destruct (Z.leb_spec a (usable - n)) as [Ha|Ha]; [|left; by rewrite (proj2 (Z.ltb_ge _ _)) by lia]. rewrite K2. destruct (Z.leb_spec 0 (s - n)) as [Hx|Hx].
  - destruct (Z.ltb_spec (s - n) 4) as [Hx4|Hx4].
    + rewrite Hf. destruct (Z.ltb_spec 57 frag) as [Hf7|Hf7]; [by left|]. right. exists [], a, s, l. split; [done|]. split; [lia|]. left. split; [lia|]. split; [lia|]. done.
    + rewrite (proj2 (Z.ltb_ge _ _)) by lia. right. exists [], a, s, l. split; [done|]. split; [lia|]. right. split; [lia|done].
  - rewrite (links_first _ _ _ K3). destruct l as [|[b t] l]; [left; cbn [first_of]; rewrite (proj2 (Z.leb_le _ _)) by lia; done|].
    cbn [first_of] in *. pose proof S4 as (S5 & _). rewrite (proj2 (Z.leb_gt _ _)) by lia. destruct (IH fuel a (a + s + 4)) as [E|(l1 & a' & s' & l2 & E & Hs & H)]; [done|done|done|done|lia|done|cbn [length] in *; lia|by left|].
    right. exists ((a, s) :: l1), a', s', l2. rewrite E, last_ptr_cons. split; [done|]. split; [done|]. exact H.
Qed.

(** The blocks after a pointer, whatever it is. *)
Definition tail (d : bytes) (l : list (Z * Z)) : Prop :=
  match l with (a, s) :: l => get2byte d (a + 2) = Some s ∧ links d a l 0 | [] => True end.

Lemma links_split d p l1 l2 : links d p (l1 ++ l2) 0 ↔ links d p l1 (first_of l2) ∧ tail d l2.
Proof. rewrite links_app. by destruct l2 as [|[a s] l2]. Qed.

Lemma tail_keep d d' l : Forall (λ x, agree d d' x.1 (x.1 + 4)) l → tail d l → tail d' l.
Proof.
  destruct l as [|[a s] l]; cbn [tail]; [done|]. intros [Ha Hl]%Forall_cons [H1 H2]. cbn in Ha. split; [rewrite (get2byte_agree d d'); [done|apply (agree_sub _ _ _ _ _ _ Ha); lia]|].
  apply (links_keep d); [done|apply (agree_sub _ _ _ _ _ _ Ha); lia|done].
Qed.

Lemma sorted_hi lo l hi hi' : sorted lo l hi → hi ≤ hi' → sorted lo l hi'.
Proof. revert lo. induction l as [|[a s] l IH]; intros lo; cbn [sorted]; [done|]. intros (? & ? & ? & ?) ?. split; [done|]. split; [done|]. split; [lia|]. by apply IH. Qed.

Lemma sorted_remove lo l1 x l2 hi : sorted lo (l1 ++ x :: l2) hi → sorted lo (l1 ++ l2) hi.
Proof.
  destruct x as [a s]. intros (H1 & H2 & H3 & H4 & H5)%sorted_app. destruct l2 as [|[b t] l2]; [rewrite app_nil_r; eapply sorted_hi; [done|lia]|].
  cbn [sorted] in H5. apply sorted_app. split; [eapply sorted_hi; [done|lia]|]. split; [lia|]. tauto.
Qed.

Lemma disj_shrink (x y : Z * Z) l : x.1 ≤ y.1 → y.1 + y.2 ≤ x.1 + x.2 → disj (x :: l) → disj (y :: l).
Proof. intros H1 H2 [H3 H4]. split; [|done]. eapply Forall_impl; [done|]. unfold apart. lia. Qed.

(** What an operation on the free space leaves as it was: all before the
    header, the type and the number of cells, the pointers, and the parts in use. *)
Definition stable (P : MemPage) (used : list (Z * Z)) (d' : bytes) : Prop :=
  agree (aData P) d' 0 (hdrOffset P + 1) ∧ agree (aData P) d' (hdrOffset P + 3) (hdrOffset P + 5) ∧
  agree (aData P) d' (hdrOffset P + 8) (cellOffset P + 2 * nCell P) ∧ Forall (λ x, agree (aData P) d' x.1 (x.1 + x.2)) used.

Lemma agree_refl d a b : agree d d a b.
Proof. by intros k Hk. Qed.

Lemma agree_trans d1 d2 d3 a b : agree d1 d2 a b → agree d2 d3 a b → agree d1 d3 a b.
Proof. intros H1 H2 k Hk. by rewrite H2, H1. Qed.

Lemma stable_refl P used : stable P used (aData P).
Proof. repeat split; try apply agree_refl. apply Forall_true. intros. apply agree_refl. Qed.

Lemma stable_trans P used d1 d2 : stable P used d1 → stable (set_data P d1) used d2 → stable P used d2.
Proof.
  intros (A1 & A2 & A3 & A4) (B1 & B2 & B3 & B4). cbn in B1, B2, B3, B4. repeat split; try (eapply agree_trans; eassumption).
  rewrite Forall_forall in *. intros x Hx. eapply agree_trans; [by apply A4|by apply B4].
Qed.

Lemma stable_write P used fl top frag d' i n : layout P used fl top frag → writes (aData P) d' i n →
  (hdrOffset P + 1 ≤ i ∧ i + n ≤ hdrOffset P + 3 ∨ hdrOffset P + 5 ≤ i ∧ i + n ≤ hdrOffset P + 8 ∨ ∃ x, x ∈ fl ∧ x.1 ≤ i ∧ i + n ≤ x.1 + x.2) → stable P used d'.
Proof.
  intros L W H. pose proof (geometry_bounds P (l_geo _ _ _ _ _ L)) as G. pose proof (l_gap _ _ _ _ _ L) as Hg. pose proof (l_cells _ _ _ _ _ L) as Hc. pose proof (l_inside _ _ _ _ _ L) as Hi. rewrite Forall_forall in Hi. pose proof (sorted_inside _ _ _ (l_sorted _ _ _ _ _ L)) as Hs. rewrite Forall_forall in Hs.
  assert (∀ x, x ∈ used → x.1 + x.2 ≤ i ∨ i + n ≤ x.1) as Hu.
  { intros x Hx. specialize (Hi x Hx). unfold inside in Hi. destruct H as [H|[H|(y & Hy & H)]]; [lia|lia|]. pose proof (l_disj _ _ _ _ _ L) as D. apply disj_app in D as (_ & _ & D). rewrite Forall_forall in D. specialize (D x Hx). rewrite Forall_forall in D. specialize (D y Hy). unfold apart in D. lia. }
  assert (∀ y, y ∈ fl → top < y.1) as Hf by (intros y Hy; specialize (Hs y Hy); unfold inside in Hs; lia).
  split; [apply (writes_agree _ _ _ _ _ _ W); destruct H as [H|[H|(y & Hy & H)]]; [lia|lia|specialize (Hf y Hy); lia]|].
  split; [apply (writes_agree _ _ _ _ _ _ W); destruct H as [H|[H|(y & Hy & H)]]; [lia|lia|specialize (Hf y Hy); lia]|].
  split; [apply (writes_agree _ _ _ _ _ _ W); destruct H as [H|[H|(y & Hy & H)]]; [lia|lia|specialize (Hf y Hy); lia]|].
  apply Forall_forall. intros x Hx. apply (writes_agree _ _ _ _ _ _ W). specialize (Hu x Hx). lia.
Qed.

Lemma geometry_data P d' : geometry P → length d' = length (aData P) → is_bytes d' → geometry (set_data P d').
Proof. intros (G1 & G2 & G3 & G4 & G5 & G6 & G7 & G8) Hl Hb. unfold geometry. cbn. rewrite Hl. tauto. Qed.

Lemma layout_frag P used fl top frag : layout P used fl top frag → 0 ≤ frag ≤ 60.
Proof. intros L. pose proof (is_bytes_rd _ _ _ (proj2 (proj2 (proj2 (proj2 (proj2 (geometry_bounds P (l_geo _ _ _ _ _ L))))))) (l_frag _ _ _ _ _ L)) as B. pose proof (l_small _ _ _ _ _ L). unfold is_u8 in B. lia. Qed.

(** The pointer before a block of the list. *)
Lemma layout_ptr P used fl top frag l1 l2 : layout P used fl top frag → fl = l1 ++ l2 → l2 ≠ [] →
  hdrOffset P + 1 = last_ptr (hdrOffset P + 1) l1 ∨ ∃ x, x ∈ fl ∧ x.1 = last_ptr (hdrOffset P + 1) l1 ∧ x.1 + x.2 + 4 ≤ first_of l2.
Proof.
  intros L -> Hl2. destruct (last_ptr_in (hdrOffset P + 1) l1) as [E|[t E]]; [by left|]. right. exists (last_ptr (hdrOffset P + 1) l1, t). split; [apply elem_of_app; by left|]. split; [done|].
  destruct l2 as [|[a s] l2]; [done|]. pose proof (l_sorted _ _ _ _ _ L) as S. apply sorted_app in S as (S & _). apply sorted_inside in S. rewrite Forall_forall in S. specialize (S _ E). unfold inside in S. cbn in *. lia.
Qed.

Lemma agree_blocks (d d' : bytes) i n l lo hi : writes d d' i n → sorted lo l hi → Forall (λ x : Z * Z, x.1 + 4 ≤ i ∨ i + n ≤ x.1) l → Forall (λ x, agree d d' x.1 (x.1 + 4)) l.
Proof. intros W _ H. eapply Forall_impl; [done|]. intros x Hx. cbn in Hx. by apply (writes_agree _ _ _ _ _ _ W). Qed.

(** A block that is nearly what was asked for leaves the list. *)
Lemma take_block P used fl top frag l1 a s l2 n : layout P used fl top frag → fl = l1 ++ (a, s) :: l2 → 4 ≤ n ≤ s → s < n + 4 → frag ≤ 57 →
  ∃ d', (let* d1 := memmove (aData P) (last_ptr (hdrOffset P + 1) l1) a 2 in let* f := rd d1 (hdrOffset P + 7) in let* d2 := wr d1 (hdrOffset P + 7) (u8 (f + u8 (s - n))) in Some (d2, Some a, 0)) = Some (d', Some a, 0) ∧
    layout (set_data P d') ((a, n) :: used) (l1 ++ l2) top (frag + (s - n)) ∧ stable P used d' ∧ length d' = length (aData P).
Proof.
  intros L Efl Hn Hs Hf. pose proof (geometry_bounds P (l_geo _ _ _ _ _ L)) as (G1 & G2 & G3 & G4 & G5 & G6). pose proof (layout_frag _ _ _ _ _ L) as Bf. pose proof (l_gap _ _ _ _ _ L) as Hg. pose proof (l_cells _ _ _ _ _ L) as Hc.
  pose proof (l_sorted _ _ _ _ _ L) as S. rewrite Efl in S. pose proof S as S0. apply sorted_app in S0 as (S1 & S2 & S3 & S4 & S5). pose proof (sorted_inside _ _ _ S1) as I1. pose proof (sorted_inside _ _ _ S5) as I5. rewrite Forall_forall in I1, I5.
  set (lp := last_ptr (hdrOffset P + 1) l1). set (d := aData P) in *. assert (hdrOffset P + 1 = lp ∨ top < lp ∧ lp + 8 ≤ a) as Hlp.
  { destruct (layout_ptr _ _ _ _ _ l1 ((a, s) :: l2) L Efl ltac:(done)) as [E|(x & Hx & E & Hx2)]; [by left|right]. cbn [first_of] in Hx2. fold lp in E. rewrite <- E. pose proof (sorted_inside _ _ _ (l_sorted _ _ _ _ _ L)) as I. rewrite Forall_forall in I. specialize (I x Hx). unfold inside in I. lia. }
  destruct (memmove_spec d lp a 2) as (d1 & E1 & W1 & R1); [lia..|done|]. rewrite E1. pose proof (l_frag _ _ _ _ _ L) as F. fold d in F. rewrite (proj2 (proj2 W1)), F by lia.
  destruct (wr_spec d1 (hdrOffset P + 7) (u8 (frag + u8 (s - n)))) as (d2 & E2 & W2 & R2); [rewrite (proj1 W1); lia|apply is_u8_u8|]. rewrite E2. exists d2. split; [done|].
  assert (length d2 = length d) as Hl2 by (by rewrite (proj1 W2), (proj1 W1)). assert (is_bytes d2) as Hb2 by (by apply W2, W1). split; [|split; [|done]].
  - pose proof (l_links _ _ _ _ _ L) as K. fold d in K. rewrite Efl in K. apply links_split in K as [K1 [K2 K3]]. cbn [first_of] in K1.
    assert (get2byte d1 lp = Some (first_of l2)) as Elp.
    { rewrite <- (links_first _ _ _ K3). unfold get2byte. pose proof (R1 0 ltac:(lia)) as Ra. pose proof (R1 1 ltac:(lia)) as Rb. rewrite !Z.add_0_r in Ra. by rewrite Ra, Rb. }
    split; cbn; try apply L.
    + by apply geometry_data; [apply L|..].
    + change (aData (set_data P d2)) with d2. rewrite (writes_get2 _ _ _ _ _ W2), (writes_get2 _ _ _ _ _ W1) by lia. apply L.
    + rewrite R2. f_equal. unfold u8. rewrite (Z.mod_small (s - n)), Z.mod_small by lia. done.
    + lia.
    + apply (links_keep d1).
      * apply links_split. split; [by apply (links_relink d d1 l1 a _ _ _ (top + 1) K1 S1); [lia|..]|]. apply (tail_keep d); [|by destruct l2 as [|[b t] l2]; [|destruct K3]].
        apply (agree_blocks _ _ _ _ _ _ _ W1 S5). apply Forall_forall. intros x Hx. specialize (I5 x Hx). unfold inside in I5. lia.
      * apply (writes_agree _ _ _ _ _ _ W2). lia.
      * apply (agree_blocks _ _ _ _ _ _ _ W2 (sorted_remove _ _ _ _ _ S)). apply Forall_forall. intros x Hx. pose proof (sorted_inside _ _ _ (sorted_remove _ _ _ _ _ S)) as I. rewrite Forall_forall in I. specialize (I x Hx). unfold inside in I. lia.
    + by apply sorted_remove in S.
    + pose proof (l_disj _ _ _ _ _ L) as D. rewrite Efl in D. apply (disj_shrink (a, s) (a, n)); [cbn; lia..|]. eapply disj_perm; [|done]. rewrite !(assoc_L (++)). symmetry. apply Permutation_middle.
    + constructor; [unfold inside; cbn; lia|apply L].
    + pose proof (l_sum _ _ _ _ _ L) as T. rewrite Efl, total_app in T. rewrite total_app. rewrite total_cons in T. rewrite total_cons. cbn in *. lia.
  - eapply (stable_trans P used d1).
    + apply (stable_write _ _ _ _ _ _ lp 2 L W1). destruct (layout_ptr _ _ _ _ _ l1 ((a, s) :: l2) L Efl ltac:(done)) as [E|(x & Hx & E & _)]; fold lp in E; [left; lia|].
      right; right. exists x. split; [done|]. pose proof (sorted_inside _ _ _ (l_sorted _ _ _ _ _ L)) as I. rewrite Forall_forall in I. specialize (I x Hx). unfold inside in I. lia.
    + pose proof (l_inside _ _ _ _ _ L) as Iu. rewrite Forall_forall in Iu. repeat split; cbn; try (apply (writes_agree _ _ _ _ _ _ W2); lia).
      apply Forall_forall. intros x Hx. apply (writes_agree _ _ _ _ _ _ W2). specialize (Iu x Hx). unfold inside in Iu. lia.
Qed.

(** A larger block gives its end. *)
Lemma split_block P used fl top frag l1 a s l2 n : layout P used fl top frag → fl = l1 ++ (a, s) :: l2 → 4 ≤ n → n + 4 ≤ s →
  ∃ d', put2byte (aData P) (a + 2) (s - n) = Some d' ∧
    layout (set_data P d') ((a + (s - n), n) :: used) (l1 ++ (a, s - n) :: l2) top frag ∧ stable P used d' ∧ length d' = length (aData P).
Proof.
  intros L Efl Hn Hs. pose proof (geometry_bounds P (l_geo _ _ _ _ _ L)) as (G1 & G2 & G3 & G4 & G5 & G6). pose proof (l_gap _ _ _ _ _ L) as Hg. pose proof (l_cells _ _ _ _ _ L) as Hc.
  pose proof (l_sorted _ _ _ _ _ L) as S. rewrite Efl in S. pose proof S as S0. apply sorted_app in S0 as (S1 & S2 & S3 & S4 & S5). pose proof (sorted_inside _ _ _ S1) as I1. pose proof (sorted_inside _ _ _ S5) as I5. rewrite Forall_forall in I1, I5.
  set (d := aData P) in *. destruct (put2byte_spec d (a + 2) (s - n)) as (d1 & E1 & W1 & R1); [lia..|]. exists d1. split; [done|].
  assert (is_bytes d1) as Hb1 by (by apply W1). split; [|split; [|by rewrite (proj1 W1)]].
  - pose proof (l_links _ _ _ _ _ L) as K. fold d in K. rewrite Efl in K. apply links_split in K as [K1 [K2 K3]]. cbn [first_of] in K1.
    split; cbn; try apply L.
    + apply geometry_data; [apply L|apply W1|done].
    + rewrite (writes_get2 _ _ _ _ _ W1) by lia. apply L.
    + rewrite (proj2 (proj2 W1)) by lia. apply L.
    + apply links_split. split; [|split].
      * cbn [first_of]. apply (links_keep d); [done|apply (writes_agree _ _ _ _ _ _ W1); lia|]. apply (agree_blocks _ _ _ _ _ _ _ W1 S1). apply Forall_forall. intros x Hx. specialize (I1 x Hx). unfold inside in I1. lia.
      * rewrite R1. f_equal. unfold u16. apply Z.mod_small. lia.
      * apply (links_keep d); [done|apply (writes_agree _ _ _ _ _ _ W1); lia|]. apply (agree_blocks _ _ _ _ _ _ _ W1 S5). apply Forall_forall. intros x Hx. specialize (I5 x Hx). unfold inside in I5. lia.
    + apply sorted_app. split; [done|]. split; [done|]. split; [lia|]. split; [lia|]. eapply sorted_weaken; [done|lia].
    + pose proof (l_disj _ _ _ _ _ L) as D. rewrite Efl in D. apply (disj_perm _ ((a, s) :: used ++ l1 ++ l2)) in D; [|rewrite !(assoc_L (++)); symmetry; apply Permutation_middle].
      refine (disj_perm ((a + (s - n), n) :: (a, s - n) :: used ++ l1 ++ l2) ((a + (s - n), n) :: used ++ l1 ++ (a, s - n) :: l2) _ _); [constructor; rewrite !(assoc_L (++)); apply Permutation_middle|].
      split; [constructor; [unfold apart; cbn; lia|]|apply (disj_shrink (a, s)); [cbn; lia..|done]]. destruct D as [D _]. eapply Forall_impl; [done|]. unfold apart. cbn. lia.
    + constructor; [unfold inside; cbn; lia|apply L].
    + pose proof (l_sum _ _ _ _ _ L) as T. rewrite Efl, total_app, total_cons in T. rewrite total_app, !total_cons. cbn in *. lia.
  - apply (stable_write _ _ _ _ _ _ (a + 2) 2 L W1). right; right. exists (a, s). split; [rewrite Efl; apply elem_of_app; right; by left|cbn; lia].
Qed.

(** Searching the list gives a part that was free, or changes nothing. *)
Lemma pageFindSlot_spec P used fl top frag n : layout P used fl top frag → 4 ≤ n → fl ≠ [] →
  pageFindSlot P n = Some (aData P, None, 0) ∨
  ∃ d' idx fl' frag', pageFindSlot P n = Some (d', Some idx, 0) ∧ layout (set_data P d') ((idx, n) :: used) fl' top frag' ∧ stable P used d' ∧ length d' = length (aData P).
Proof.
  intros L Hn He. pose proof (geometry_bounds P (l_geo _ _ _ _ _ L)) as (G1 & G2 & G3 & G4 & G5 & G6). pose proof (l_gap _ _ _ _ _ L) as Hg. pose proof (l_cells _ _ _ _ _ L) as Hc.
  unfold pageFindSlot. cbv zeta. rewrite (links_first _ _ _ (l_links _ _ _ _ _ L)).
  destruct (find_slot_loop_spec (hdrOffset P) (usableSize (pBt P)) n frag (aData P) fl (S (Z.to_nat (usableSize (pBt P)))) (hdrOffset P + 1) (top + 1) Hn He (l_links _ _ _ _ _ L) (l_sorted _ _ _ _ _ L) ltac:(lia) (l_frag _ _ _ _ _ L)) as [E|(l1 & a & s & l2 & Efl & Hs & [(H4 & Hf & E)|(H4 & E)])].
  - pose proof (sorted_length _ _ _ (l_sorted _ _ _ _ _ L)). lia.
  - left. exact E.
  - right. destruct (take_block _ _ _ _ _ _ _ _ _ n L Efl ltac:(lia) H4 Hf) as (d' & E' & L' & S' & Hl'). exists d', a, (l1 ++ l2), (frag + (s - n)). split; [etrans; [exact E|exact E']|done].
  - right. destruct (split_block _ _ _ _ _ _ _ _ _ n L Efl Hn H4) as (d' & E' & L' & S' & Hl'). exists d', (a + (s - n)), (l1 ++ (a, s - n) :: l2), frag. split; [etrans; [exact E|by rewrite E']|done].
Qed.

(** ** Freeing space *)

Lemma sorted_upto lo l hi hi' : sorted lo l hi → (∀ x, last l = Some x → x.1 + x.2 ≤ hi') → sorted lo l hi'.
Proof.
  revert lo. induction l as [|[a s] l IH]; intros lo; [done|]. cbn [sorted]. intros (H1 & H2 & H3 & H4) H. split; [done|]. split; [done|].
  destruct l as [|[b t] l]; [specialize (H (a, s) eq_refl); cbn in *; lia|]. rewrite last_cons_cons in H. specialize (IH _ H4 H). split; [|done]. cbn [sorted] in IH. lia.
Qed.

Lemma sorted_from lo lo' l hi : sorted lo l hi → (∀ x, head l = Some x → lo' ≤ x.1) → sorted lo' l hi.
Proof. destruct l as [|[a s] l]; [done|]. cbn. intros (H1 & H2) H. specialize (H (a, s) eq_refl). cbn in H. done. Qed.

Lemma sorted_parts lo l1 l2 hi : sorted lo (l1 ++ l2) hi → sorted lo l1 hi ∧ ∃ lo', sorted lo' l2 hi.
Proof.
  destruct l2 as [|[a s] l2]; [rewrite app_nil_r; intros H; split; [done|by exists lo]|]. intros (H1 & H2 & H3 & H4 & H5)%sorted_app.
  split; [eapply sorted_hi; [done|lia]|]. exists a. cbn [sorted]. done.
Qed.

Lemma find_place_spec d i : ∀ l fuel p lo hi, links d p l 0 → sorted lo l hi → p < lo → 0 ≤ p < i → (length l < fuel)%nat →
  ∃ l1 l2, l = l1 ++ l2 ∧ find_place fuel d i p = Some (Some (last_ptr p l1, first_of l2)) ∧ Forall (λ x, x.1 < i) l1 ∧ Forall (λ x, i ≤ x.1) l2.
Proof.
  induction l as [|[a s] l IH]; intros [|fuel] p lo hi Hk Hs Hp Hi Hl; try (cbn in Hl; lia).
  - cbn [find_place]. rewrite (links_first _ _ _ Hk). cbn [first_of]. rewrite (proj2 (Z.ltb_lt _ _)), (proj2 (Z.leb_le _ _)) by lia. exists [], []. by repeat split.
  - cbn [links sorted] in Hk, Hs. destruct Hk as (K1 & K2 & K3), Hs as (S1 & S2 & S3 & S4). cbn [find_place]. rewrite K1. destruct (Z.ltb_spec a i) as [Ha|Ha].
    + rewrite (proj2 (Z.leb_gt _ _)) by lia. destruct (IH fuel a (a + s + 4) hi) as (l1 & l2 & -> & E & F1 & F2); [done|done|lia|lia|cbn in Hl; lia|].
      exists ((a, s) :: l1), l2. rewrite last_ptr_cons. split; [done|]. split; [done|]. split; [by constructor|done].
    + exists [], ((a, s) :: l). split; [done|]. split; [done|]. split; [constructor|]. constructor; [done|]. eapply Forall_impl; [by eapply sorted_inside|]. intros x. unfold inside. lia.
Qed.

(** What [coalesce] makes of the part [(i, n)] between the blocks [l1] and [l2]. *)
Definition joined (l1 l2 : list (Z * Z)) (i n : Z) (l1' : list (Z * Z)) (i' e' : Z) (l2' : list (Z * Z)) : Prop :=
  (l1' = l1 ∧ i' = i ∧ (∀ x, last l1 = Some x → x.1 + x.2 + 4 ≤ i) ∨ ∃ t, l1 = l1' ++ [(i', t)] ∧ i' + t ≤ i ≤ i' + t + 3) ∧
  (l2' = l2 ∧ e' = i + n ∧ (∀ x, head l2 = Some x → i + n + 4 ≤ x.1) ∨ ∃ b t, l2 = (b, t) :: l2' ∧ i + n ≤ b ≤ i + n + 3 ∧ e' = b + t).

Lemma coalesce_after_spec usable d l2 i n lo : tail d l2 → sorted lo l2 usable → 0 < lo → Forall (apart (i, n)) l2 → 4 ≤ n → Forall (λ x, i ≤ x.1) l2 →
  ∃ l2' e', (l2' = l2 ∧ e' = i + n ∧ (∀ x, head l2 = Some x → i + n + 4 ≤ x.1) ∨ ∃ b t, l2 = (b, t) :: l2' ∧ i + n ≤ b ≤ i + n + 3 ∧ e' = b + t) ∧
    coalesce_after usable d (first_of l2) (i + n) = Some (Some (e', first_of l2', e' - i + total l2' - n - total l2)).
Proof.
  intros K2 S2 Hlo A2 Hn F2. unfold coalesce_after.
  destruct l2 as [|[b t] l2]; [exists [], (i + n); split; [left; split; [done|]; split; [done|]; intros x [=]|]; cbn [first_of Z.eqb negb andb]; do 3 f_equal; lia|].
  cbn [first_of tail sorted] in *. destruct K2 as [K2 K3], S2 as (T1 & T2 & T3 & T4). apply Forall_cons in A2 as [A2 _], F2 as [F2 _]. unfold apart in A2. cbn in A2, F2. assert (i + n ≤ b) as Hb by lia.
  rewrite (proj2 (Z.eqb_neq _ _)) by lia. cbn [negb andb]. destruct (Z.leb_spec b (i + n + 3)) as [H3|H3].
  - rewrite (proj2 (Z.ltb_ge _ _)) by lia. rewrite K2, (proj2 (Z.ltb_ge _ _)) by lia. rewrite (links_first _ _ _ K3). exists l2, (b + t). split; [right; exists b, t; split; [done|lia]|]. rewrite total_cons. cbn [snd]. do 3 f_equal. lia.
  - exists ((b, t) :: l2), (i + n). split; [left; split; [done|]; split; [done|]; intros x [= <-]; cbn; lia|]. do 3 f_equal. lia.
Qed.

Lemma coalesce_spec usable p d l1 l2 i n lo : links d (p + 1) (l1 ++ l2) 0 → sorted lo (l1 ++ l2) usable → 0 ≤ p → p + 1 < lo → Forall (apart (i, n)) (l1 ++ l2) → 4 ≤ n →
  Forall (λ x, x.1 < i) l1 → Forall (λ x, i ≤ x.1) l2 →
  ∃ l1' i' e' l2', joined l1 l2 i n l1' i' e' l2' ∧
    coalesce usable p d (last_ptr (p + 1) l1) (first_of l2) i (i + n) = Some (Some (i', e', first_of l2', e' - i' + total l1' + total l2' - n - total l1 - total l2)).
Proof.
  intros Hk Hs Hp0 Hp Ha Hn F1 F2. apply Forall_app in Ha as [A1 A2]. pose proof Hk as [K1 K2]%links_split. pose proof (sorted_parts _ _ _ _ Hs) as [S1 [lo' S2]]. unfold coalesce.
  assert (sorted lo l2 usable) as S2'. { apply (sorted_from _ _ _ _ S2). intros x Hx. pose proof (sorted_inside _ _ _ Hs) as I. apply Forall_app in I as [_ I]. destruct l2; [done|]. injection Hx as ->. apply Forall_cons in I as [I _]. unfold inside in I. lia. }
  destruct (coalesce_after_spec usable d l2 i n lo K2 S2' ltac:(lia) A2 Hn F2) as (l2' & e' & J2 & E2). rewrite E2.
  destruct (last_ptr_in (p + 1) l1) as [EL|[t EL]].
  - exists l1, i, e', l2'. rewrite EL, Z.ltb_irrefl. split; [split; [left|done]|do 3 f_equal; lia]. split; [done|]. split; [done|]. intros [a s] E. exfalso.
    unfold last_ptr in EL. rewrite E in EL. apply last_Some_elem_of in E. apply sorted_inside in S1. rewrite Forall_forall in S1. specialize (S1 _ E). unfold inside in S1. cbn in S1. lia.
  - unfold last_ptr in *. destruct (last l1) as [[a s]|] eqn:El; [|apply sorted_inside in S1; rewrite Forall_forall in S1; specialize (S1 _ EL); unfold inside in S1; cbn in S1; lia].
    apply last_Some in El as [l1' El]. pose proof S1 as S1'. rewrite El in S1'. apply sorted_app in S1' as (_ & T1 & T2 & T3 & _).
    rewrite (proj2 (Z.ltb_lt (p + 1) a)) by lia. rewrite El in Hk. rewrite <- (assoc_L (++)) in Hk. apply links_split in Hk as [_ [Ks _]]. rewrite Ks.
    rewrite El in F1, A1. apply Forall_app in F1 as [_ F1], A1 as [_ A1]. apply Forall_cons in F1 as [F1 _], A1 as [A1 _]. unfold apart in A1. cbn in A1, F1.
    destruct (Z.leb_spec i (a + s + 3)) as [H3|H3].
    + rewrite (proj2 (Z.ltb_ge _ _)) by lia. exists l1', a, e', l2'. split; [split; [right; exists s; split; [done|lia]|done]|]. rewrite El, total_app, total_cons. change (total []) with 0. cbn [snd]. do 3 f_equal. lia.
    + exists l1, i, e', l2'. split; [split; [left|done]|do 3 f_equal; lia]. split; [done|]. split; [done|]. intros x. rewrite El, last_snoc. intros [= <-]. cbn. lia.
Qed.

(** The joined block keeps its distance from all that stays. *)
Lemma joined_before top usable used l1 l2 i n l1' i' e' l2' : sorted (top + 1) (l1 ++ l2) usable → inside top usable (i, n) → Forall (apart (i, n)) (l1 ++ l2) →
  Forall (λ x, x.1 < i) l1 → joined l1 l2 i n l1' i' e' l2' → Forall (λ u, 4 ≤ u.2) used → Forall (apart (i, n)) used → Forall (λ u, Forall (apart u) (l1 ++ l2)) used →
  sorted (top + 1) l1' (i' - 4) ∧ top ≤ i' ≤ i ∧ (i' = top → l1 = []) ∧ i + n ≤ e' ≤ usable ∧ sorted (e' + 4) l2' usable ∧
  Forall (λ u, apart u (i', e' - i') ∧ Forall (apart u) (l1' ++ l2')) used.
Proof.
  intros S I A F1 [J1 J2] H4 U1 U2. pose proof (sorted_parts _ _ _ _ S) as [S1 [lo' S2]]. unfold inside in I. cbn in I. apply Forall_app in A as [A1 A2].
  assert (sorted (top + 1) l1' (i' - 4) ∧ top ≤ i' ≤ i ∧ (i' = top → l1 = [])) as (B1 & B2 & B3).
  { destruct J1 as [(-> & -> & H)|(t & -> & H)].
    - split; [apply (sorted_upto _ _ _ _ S1); intros x Hx; specialize (H x Hx); lia|]. split; [lia|]. intros ->. destruct l1 as [|[a s] l1]; [done|]. cbn [sorted app] in S. apply Forall_cons in F1 as [F1 _]. cbn in F1. lia.
    - apply sorted_app in S1 as (T1 & T2 & T3 & T4 & _). split; [done|]. split; [lia|]. lia. }
  assert (i + n ≤ e' ≤ usable ∧ sorted (e' + 4) l2' usable) as (B4 & B5).
  { destruct J2 as [(-> & -> & H)|(b & t & -> & H & ->)].
    - split; [lia|]. by apply (sorted_from _ _ _ _ S2).
    - cbn [sorted] in S2. split; [lia|]. tauto. }
  do 3 (split; [done|]). split; [done|]. split; [done|]. rewrite Forall_forall in *. intros u Hu. specialize (H4 u Hu). specialize (U1 u Hu). specialize (U2 u Hu). apply Forall_app in U2 as [U2 U3]. unfold apart in U1. cbn in U1.
  assert (Forall (apart u) l1' ∧ (i' = i ∨ ∃ t, apart u (i', t) ∧ i' + t ≤ i ≤ i' + t + 3)) as [V1 V2].
  { destruct J1 as [(-> & -> & _)|(t & -> & H)]; [split; [done|by left]|]. apply Forall_app in U2 as [U2 U4]. apply Forall_cons in U4 as [U4 _]. split; [done|]. right. by exists t. }
  assert (Forall (apart u) l2' ∧ (e' = i + n ∨ ∃ b t, apart u (b, t) ∧ i + n ≤ b ≤ i + n + 3 ∧ e' = b + t ∧ 4 ≤ t)) as [V3 V4].
  { destruct J2 as [(-> & -> & _)|(b & t & -> & H & ->)]; [split; [done|by left]|]. apply Forall_cons in U3 as [U3 U4]. split; [done|]. right. exists b, t. cbn [sorted] in S2. split; [done|]. split; [done|]. split; [done|]. lia. }
  split; [|by apply Forall_app]. unfold apart in *. cbn in *. destruct V2 as [->|(t & V2 & V2')], V4 as [->|(b & t' & V4 & V4' & -> & V5)]; lia.
Qed.

Lemma first_of_bound lo l hi : sorted lo l hi → 0 ≤ lo → hi ≤ 65536 → 0 ≤ first_of l < 65536.
Proof. destruct l as [|[a s] l]; cbn; lia. Qed.

(** What an operation leaves alone, from the bytes it may change. *)
Lemma stable_out P used top d' (F : list (Z * Z)) : geometry P → cellOffset P + 2 * nCell P ≤ top → 0 ≤ nCell P → Forall (inside top (usableSize (pBt P))) used →
  Forall (λ x : Z * Z, top ≤ x.1 ∧ Forall (λ u, apart u x) used) F →
  (∀ j, ¬ hdrOffset P + 1 ≤ j < hdrOffset P + 3 → ¬ hdrOffset P + 5 ≤ j < hdrOffset P + 8 → Forall (λ x, j < x.1 ∨ x.1 + x.2 ≤ j) F → rd d' j = rd (aData P) j) → stable P used d'.
Proof.
  intros G Hg Hc Iu HF H. pose proof (geometry_bounds P G) as (G1 & G2 & G3 & G4 & G5 & G6). rewrite Forall_forall in Iu.
  assert (∀ j, j < top → Forall (λ x : Z * Z, j < x.1 ∨ x.1 + x.2 ≤ j) F) as HL by (intros j Hj; eapply Forall_impl; [exact HF|cbn; lia]).
  repeat split; try (intros j Hj; apply H; [lia|lia|apply HL; lia]).
  apply Forall_forall. intros u Hu j Hj. specialize (Iu u Hu). unfold inside in Iu. apply H; [lia|lia|]. eapply Forall_impl; [exact HF|]. intros x [_ Hx]. rewrite Forall_forall in Hx. specialize (Hx u Hu). unfold apart in Hx. lia.
Qed.

Section free_block.
Context (P : MemPage) (used l1 l2 : list (Z * Z)) (top frag i n : Z) (l1' l2' : list (Z * Z)) (i' e' : Z) (d1 : bytes).
Context (L : layout P ((i, n) :: used) (l1 ++ l2) top frag) (J : joined l1 l2 i n l1' i' e' l2').
Context (HF : Forall (λ x, x.1 < i) l1).
Let frag' : Z := frag + n + total l1 + total l2 - (e' - i') - total l1' - total l2'.
Let lp : Z := last_ptr (hdrOffset P + 1) l1.
Let hdr : Z := hdrOffset P.
Context (Hlen : length d1 = length (aData P)) (Hb : is_bytes d1) (Hfrag : rd d1 (hdr + 7) = Some frag') (Hd1 : ∀ j, j ≠ hdr + 7 → rd d1 j = rd (aData P) j) (Hnfrag : frag' ≤ 60).

Lemma free_block_facts : sorted (top + 1) l1' (i' - 4) ∧ top ≤ i' ≤ i ∧ (i' = top → l1 = []) ∧ i + n ≤ e' ≤ usableSize (pBt P) ∧ sorted (e' + 4) l2' (usableSize (pBt P)) ∧
  Forall (λ u, apart u (i', e' - i') ∧ Forall (apart u) (l1' ++ l2')) used ∧ disj used ∧ Forall (inside top (usableSize (pBt P))) used ∧ 4 ≤ n ∧ (lp = hdr + 1 ∨ top < lp ∧ lp + 4 ≤ i ∧ Forall (λ u, apart u (lp, 4)) used).
Proof using L J HF.
  clear d1 Hlen Hb Hfrag Hd1 Hnfrag.
  pose proof (l_disj _ _ _ _ _ L) as D. cbn [app disj] in D. destruct D as [D1 D2]. apply Forall_app in D1 as [D1 D3]. apply disj_app in D2 as (D4 & _ & D5). pose proof (l_inside _ _ _ _ _ L) as I. apply Forall_cons in I as [I1 I2].
  destruct (joined_before top (usableSize (pBt P)) used l1 l2 i n l1' i' e' l2') as (B1 & B2 & B3 & B4 & B5 & B6); try done; [apply L|eapply Forall_impl; [done|]; unfold inside; intros x; lia|].
  repeat (split; [done|]). split; [unfold inside in I1; cbn in I1; lia|]. destruct (last_ptr_in (hdr + 1) l1) as [E|[t E]]; [by left|right]. fold lp in E. change (last_ptr (hdr + 1) l1) with lp in E.
  pose proof (l_sorted _ _ _ _ _ L) as S. apply sorted_parts in S as [S _]. apply sorted_inside in S. rewrite Forall_forall in S, HF. specialize (S _ E). specialize (HF _ E). unfold inside in S. cbn in S, HF.
  assert ((lp, t) ∈ l1 ++ l2) as E' by (apply elem_of_app; by left). rewrite Forall_forall in D3. specialize (D3 _ E'). unfold inside in I1. unfold apart in D3. cbn in D3, I1. split; [lia|]. split; [lia|].
  rewrite Forall_forall in D5. apply Forall_forall. intros u Hu. specialize (D5 u Hu). rewrite Forall_forall in D5. specialize (D5 _ E'). unfold apart in *. cbn in *. lia.
Qed.

Lemma free_block_sum : frag' + total used + total l1' + (e' - i') + total l2' = usableSize (pBt P) - top.
Proof. pose proof (l_sum _ _ _ _ _ L) as T. rewrite total_cons, total_app in T. unfold frag'. cbn [snd] in T. lia. Qed.

Lemma free_block_stable d' : (∀ j, ¬ hdr + 1 ≤ j < hdr + 3 → ¬ hdr + 5 ≤ j < hdr + 8 → ¬ lp ≤ j < lp + 2 → ¬ i' ≤ j < e' → rd d' j = rd (aData P) j) → stable P used d'.
Proof.
  intros H. destruct free_block_facts as (B1 & B2 & B3 & B4 & B5 & B6 & B7 & B8 & B9 & B10). pose proof (l_gap _ _ _ _ _ L) as Hg. pose proof (l_cells _ _ _ _ _ L) as Hc.
  apply (stable_out P used top d' ((i', e' - i') :: if decide (lp = hdr + 1) then [] else [(lp, 4)])); [apply L|lia|done|done| |].
  - constructor; [split; [cbn; lia|eapply Forall_impl; [exact B6|]; cbn; tauto]|]. case_decide; [constructor|]. constructor; [|constructor]. destruct B10 as [?|B10]; [done|]. cbn. split; [lia|tauto].
  - intros j H1 H2 [H3 H4]%Forall_cons. cbn in H3. apply H; [done|done| |lia]. case_decide as E; [fold hdr in H1; lia|]. apply Forall_cons in H4 as [H4 _]. cbn in H4. lia.
Qed.

(** The freed part becomes the start of the gap. *)
Lemma free_block_top d2 : i' = top → writes d1 d2 i' (e' - i') → ∃ d3 d', put2byte d2 (hdr + 1) (first_of l2') = Some d3 ∧ put2byte d3 (hdr + 5) e' = Some d' ∧
  layout (set_data P d') used l2' e' frag' ∧ stable P used d' ∧ length d' = length (aData P).
Proof.
  intros E W2. destruct free_block_facts as (B1 & B2 & B3 & B4 & B5 & B6 & B7 & B8 & B9 & B10). pose proof free_block_sum as T. pose proof (l_gap _ _ _ _ _ L) as Hg. pose proof (l_cells _ _ _ _ _ L) as Hc. pose proof (geometry_bounds P (l_geo _ _ _ _ _ L)) as (G1 & G2 & G3 & G4 & G5 & G6). fold hdr in G4, G5.
  assert (l1' = []) as E1. { destruct J as [[(-> & _)|(t & E1 & _)] _]; [by apply B3|]. rewrite B3 in E1 by done. by destruct l1'. } rewrite E1 in T, B6. change (total []) with 0 in T. cbn [app] in B6.
  assert (lp = hdr + 1) as Elp by (destruct B10 as [?|(H & _)]; [done|unfold lp in *; rewrite B3 in * by done; done]).
  pose proof (first_of_bound _ _ _ B5 ltac:(lia) ltac:(lia)) as Bf. pose proof (sorted_inside _ _ _ B5) as I5. rewrite Forall_forall in I5. pose proof (proj1 W2) as L2.
  destruct (put2byte_spec d2 (hdr + 1) (first_of l2')) as (d3 & E3 & W3 & R3); [lia..|]. pose proof (proj1 W3) as L3. destruct (put2byte_spec d3 (hdr + 5) e') as (d4 & E4 & W4 & R4); [lia..|]. pose proof (proj1 W4) as L4.
  exists d3, d4. split; [done|]. split; [done|].
  assert (∀ j, ¬ hdr + 1 ≤ j < hdr + 3 → ¬ hdr + 5 ≤ j < hdr + 8 → ¬ i' ≤ j < e' → rd d4 j = rd (aData P) j) as Hout.
  { intros j H1 H2 H3. rewrite (proj2 (proj2 W4)), (proj2 (proj2 W3)), (proj2 (proj2 W2)) by lia. apply Hd1. lia. }
  split; [|split; [apply free_block_stable; intros; by apply Hout|by rewrite L4, L3, L2]]. split; cbn [set_data aData nCell nFree hdrOffset cellOffset ptype]; fold hdr.
  - apply geometry_data; [apply L|by rewrite L4, L3, L2|by apply W4, W3, W2].
  - lia.
  - done.
  - done.
  - rewrite (proj2 (proj2 W4)), (proj2 (proj2 W3)), (proj2 (proj2 W2)) by lia. done.
  - done.
  - apply (links_split _ _ [] l2'). split; [cbn [links]; rewrite (writes_get2 _ _ _ _ _ W4), R3 by lia; f_equal; by apply Z.mod_small|]. apply (tail_keep (aData P)).
    + apply Forall_forall. intros x Hx j Hj. specialize (I5 x Hx). unfold inside in I5. apply Hout; lia.
    + pose proof (l_links _ _ _ _ _ L) as K. apply links_split in K as [_ K]. destruct J as [_ [(-> & _)|(b & t & E2 & _)]]; [done|]. rewrite E2 in K. cbn [tail] in K. destruct K as [_ K]. apply (links_split _ b [] l2') in K. tauto.
  - by apply (sorted_weaken (e' + 4)); [|lia].
  - apply disj_app. split; [done|]. split; [by eapply sorted_disj|]. eapply Forall_impl; [exact B6|]. cbn. tauto.
  - rewrite Forall_forall in B6, B8. apply Forall_forall. intros u Hu. specialize (B6 u Hu) as [B6 _]. specialize (B8 u Hu). unfold inside, apart in *. cbn in *. lia.
  - lia.
Qed.

(** The freed part enters the list, in the place of the blocks it joined. *)
Lemma free_block_insert d2 : top < i' → writes d1 d2 i' (e' - i') → ∃ d3 d4 d', put2byte d2 lp i' = Some d3 ∧ put2byte d3 i' (first_of l2') = Some d4 ∧ put2byte d4 (i' + 2) (u16 (e' - i')) = Some d' ∧
  layout (set_data P d') used (l1' ++ (i', e' - i') :: l2') top frag' ∧ stable P used d' ∧ length d' = length (aData P).
Proof.
  intros E W2. destruct free_block_facts as (B1 & B2 & B3 & B4 & B5 & B6 & B7 & B8 & B9 & B10). pose proof free_block_sum as T. pose proof (l_gap _ _ _ _ _ L) as Hg. pose proof (l_cells _ _ _ _ _ L) as Hc. pose proof (geometry_bounds P (l_geo _ _ _ _ _ L)) as (G1 & G2 & G3 & G4 & G5 & G6). fold hdr in G4, G5.
  pose proof (first_of_bound _ _ _ B5 ltac:(lia) ltac:(lia)) as Bf. pose proof (sorted_inside _ _ _ B1) as I1. pose proof (sorted_inside _ _ _ B5) as I5. rewrite Forall_forall in I1, I5. pose proof (proj1 W2) as L2.
  assert (lp = i' ∨ lp = last_ptr (hdr + 1) l1' ∧ (lp = hdr + 1 ∨ top < lp ∧ lp + 8 ≤ i')) as Hlp.
  { destruct J as [[(-> & -> & _)|(t & E1 & _)] _]; [right; split; [done|]|left; unfold lp; by rewrite E1, last_ptr_snoc]. unfold lp. destruct (last_ptr_in (hdr + 1) l1) as [E0|[t E0]]; [by left|right]. fold hdr. specialize (I1 _ E0). unfold inside in I1. cbn in I1. lia. }
  assert (hdr + 1 ≤ lp < usableSize (pBt P) - 4) as Blp by (destruct B10 as [?|(? & ? & _)]; lia).
  destruct (put2byte_spec d2 lp i') as (d3 & E3 & W3 & R3); [lia..|]. pose proof (proj1 W3) as L3. destruct (put2byte_spec d3 i' (first_of l2')) as (d4 & E4 & W4 & R4); [lia..|]. pose proof (proj1 W4) as L4.
  destruct (put2byte_spec d4 (i' + 2) (u16 (e' - i'))) as (d5 & E5 & W5 & R5); [lia|lia|apply Z.mod_pos_bound; lia|]. pose proof (proj1 W5) as L5. exists d3, d4, d5. do 3 (split; [done|]).
  assert (∀ j, ¬ hdr + 7 ≤ j < hdr + 8 → ¬ lp ≤ j < lp + 2 → ¬ i' ≤ j < e' → rd d5 j = rd (aData P) j) as Hout.
  { intros j H1 H2 H3. rewrite (proj2 (proj2 W5)), (proj2 (proj2 W4)), (proj2 (proj2 W3)), (proj2 (proj2 W2)) by lia. apply Hd1. lia. }
  split; [|split; [apply free_block_stable; intros; apply Hout; lia|by rewrite L5, L4, L3, L2]].
  split; cbn [set_data aData nCell nFree hdrOffset cellOffset ptype]; fold hdr.
  - apply geometry_data; [apply L|by rewrite L5, L4, L3, L2|by apply W5, W4, W3, W2].
  - exact Hg.
  - done.
  - rewrite (get2byte_agree (aData P)); [apply L|]. intros j Hj. apply Hout; lia.
  - rewrite (proj2 (proj2 W5)), (proj2 (proj2 W4)), (proj2 (proj2 W3)), (proj2 (proj2 W2)) by lia. done.
  - done.
  - apply links_split. cbn [first_of tail]. split; [|split].
    + pose proof (l_links _ _ _ _ _ L) as K. fold hdr in K. destruct Hlp as [Hlp|[Hlp Hlp']].
      * assert (∃ t, l1 = l1' ++ [(i', t)]) as [t E1].
        { destruct J as [[(E1 & E2 & H)|(t & E1 & _)] _]; [|by exists t]. exfalso. destruct (last_ptr_in (hdr + 1) l1) as [E0|[t E0]]; change (last_ptr (hdr + 1) l1) with lp in E0; [lia|]. rewrite <- E1 in E0. specialize (I1 _ E0). unfold inside in I1. cbn in I1. lia. }
        rewrite E1, <- (assoc_L (++)) in K. apply links_split in K as [K _]. cbn [app first_of] in K. apply (links_keep (aData P)); [done|intros j Hj; apply Hout; lia|].
        apply Forall_forall. intros x Hx j Hj. specialize (I1 x Hx). unfold inside in I1. apply Hout; lia.
      * apply (links_update (aData P) _ _ (first_of l2) _ (i' - 4) _ (top + 1)); [|done|lia| |].
        -- apply links_split in K as [K _]. destruct J as [[(-> & _)|(t & E1 & _)] _]; [done|]. exfalso. assert (lp = i') by (unfold lp; by rewrite E1, last_ptr_snoc). lia.
        -- rewrite <- Hlp. intros j Hj Hj'. assert (j < i' ∧ (j < hdr + 7 ∨ hdr + 8 ≤ j)) as [? ?] by (destruct Hj as [Hj|(x & Hx & Hj)]; [lia|specialize (I1 x Hx); unfold inside in I1; lia]). apply Hout; lia.
        -- rewrite <- Hlp. rewrite (writes_get2 _ _ _ _ _ W5), (writes_get2 _ _ _ _ _ W4) by lia. rewrite R3. f_equal. apply Z.mod_small. lia.
    + rewrite R5. f_equal. unfold u16. rewrite (Z.mod_small (e' - i')), Z.mod_small by lia. done.
    + apply (links_split _ i' [] l2'). split; [cbn [links]; rewrite (writes_get2 _ _ _ _ _ W5), R4 by lia; f_equal; by apply Z.mod_small|]. apply (tail_keep (aData P)).
      * apply Forall_forall. intros x Hx j Hj. specialize (I5 x Hx). unfold inside in I5. apply Hout; lia.
      * pose proof (l_links _ _ _ _ _ L) as K. apply links_split in K as [_ K]. destruct J as [_ [(-> & _)|(b & t & E2 & _)]]; [done|]. rewrite E2 in K. cbn [tail] in K. destruct K as [_ K]. apply (links_split _ b [] l2') in K. tauto.
  - apply sorted_app. split; [done|]. split; [lia|]. split; [lia|]. split; [lia|]. replace (i' + (e' - i') + 4) with (e' + 4) by lia. done.
  - apply disj_app. split; [done|]. split; [apply (sorted_disj (top + 1) _ (usableSize (pBt P))); apply sorted_app; split; [done|]; split; [lia|]; split; [lia|]; split; [lia|]; by replace (i' + (e' - i') + 4) with (e' + 4) by lia|].
    eapply Forall_impl; [exact B6|]. intros u [U1 U2]. apply Forall_app in U2 as [U2 U3]. apply Forall_app. split; [done|]. by constructor.
  - done.
  - rewrite total_app, total_cons. cbn [snd]. lia.
Qed.

End free_block.

Lemma free_block_spec P used l1 l2 top frag i n l1' i' e' l2' (d1 : bytes) : layout P ((i, n) :: used) (l1 ++ l2) top frag → joined l1 l2 i n l1' i' e' l2' → Forall (λ x, x.1 < i) l1 →
  let frag' := frag + n + total l1 + total l2 - (e' - i') - total l1' - total l2' in
  length d1 = length (aData P) → is_bytes d1 → rd d1 (hdrOffset P + 7) = Some frag' → (∀ j, j ≠ hdrOffset P + 7 → rd d1 j = rd (aData P) j) → frag' ≤ 60 →
  ∃ d' fl' top', free_block P d1 (last_ptr (hdrOffset P + 1) l1) (first_of l2') i' e' n = Some (set_nFree (set_data P d') (nFree P + n), 0) ∧
    layout (set_data P d') used fl' top' frag' ∧ stable P used d' ∧ length d' = length (aData P).
Proof.
  intros L J HF frag' Hlen Hb Hfrag Hd1 Hn. destruct (free_block_facts _ _ _ _ _ _ _ _ _ _ _ _ L J HF) as (B1 & B2 & B3 & B4 & B5 & B6 & B7 & B8 & B9 & B10).
  pose proof (l_gap _ _ _ _ _ L) as Hg. pose proof (l_cells _ _ _ _ _ L) as Hc. pose proof (geometry_bounds P (l_geo _ _ _ _ _ L)) as (G1 & G2 & G3 & G4 & G5 & G6).
  unfold free_block. cbv zeta. assert (get2byte d1 (hdrOffset P + 5) = Some top) as ->.
  { rewrite (get2byte_agree (aData P)) by (intros j Hj; apply Hd1; lia). rewrite (l_top _ _ _ _ _ L). f_equal. apply Z.mod_small. lia. }
  assert (∃ d2, (if negb (Z.land (btsFlags (pBt P)) BTS_FAST_SECURE =? 0) then memset d1 i' 0 (e' - i') else Some d1) = Some d2 ∧ writes d1 d2 i' (e' - i')) as (d2 & -> & W2).
  { destruct (negb _); [|by exists d1]. destruct (memset_spec d1 i' 0 (e' - i')) as (d2 & E2 & W2 & _); [lia..|by unfold is_u8|]. by exists d2. }
  destruct (Z.leb_spec i' top) as [Ht|Ht].
  - rewrite (proj2 (Z.ltb_ge _ _)) by lia. assert (i' = top) as E by lia.
    destruct (free_block_top P used l1 l2 top frag i n l1' l2' i' e' d1 L J HF Hlen Hb Hfrag Hd1 Hn d2 E W2) as (d3 & d' & E3 & E4 & L' & S' & Hl).
    rewrite (B3 E). unfold last_ptr at 1. cbn [last]. rewrite Z.eqb_refl. cbn [negb]. rewrite E3, E4. exists d', l2', e'. done.
  - destruct (free_block_insert P used l1 l2 top frag i n l1' l2' i' e' d1 L J HF Hlen Hb Hfrag Hd1 Hn d2 Ht W2) as (d3 & d4 & d' & E3 & E4 & E5 & L' & S' & Hl).
    rewrite E3, E4, E5. exists d', (l1' ++ (i', e' - i') :: l2'), top. done.
Qed.

(** The fragments that become part of a block were counted. *)
Lemma joined_frag P used l1 l2 top frag i n l1' i' e' l2' : layout P ((i, n) :: used) (l1 ++ l2) top frag → joined l1 l2 i n l1' i' e' l2' → Forall (λ x, x.1 < i) l1 →
  0 ≤ e' - i' + total l1' + total l2' - n - total l1 - total l2 ≤ frag.
Proof.
  intros L J HF. destruct (free_block_facts _ _ _ _ _ _ _ _ _ _ _ _ L J HF) as (B1 & B2 & B3 & B4 & B5 & B6 & B7 & B8 & B9 & B10). pose proof (l_gap _ _ _ _ _ L) as Hg. split.
  - destruct J as [[(-> & -> & _)|(t & -> & H1)] [(-> & -> & _)|(b & t' & -> & H2 & ->)]]; rewrite ?total_app, ?total_cons; change (total []) with 0; cbn [snd]; lia.
  - pose proof (l_sum _ _ _ _ _ L) as T. rewrite total_cons, total_app in T. cbn [snd] in T.
    assert (total (used ++ l1' ++ (i', e' - i') :: l2') ≤ usableSize (pBt P) - top) as H; [|rewrite !total_app, total_cons in H; cbn [snd] in H; lia].
    apply total_bound; [lia| |].
    + apply Forall_app. split; [done|]. apply Forall_app. split; [eapply Forall_impl; [by eapply sorted_inside|]; unfold inside; intros x; lia|]. constructor; [unfold inside; cbn; lia|].
      eapply Forall_impl; [by eapply sorted_inside|]. unfold inside. intros x. lia.
    + apply disj_app. split; [done|]. split.
      * apply (sorted_disj top _ (usableSize (pBt P))). apply sorted_app. split; [eapply sorted_weaken; [done|lia]|]. split; [lia|]. split; [lia|]. split; [lia|]. by replace (i' + (e' - i') + 4) with (e' + 4) by lia.
      * eapply Forall_impl; [exact B6|]. intros u [U1 U2]. apply Forall_app in U2 as [U2 U3]. apply Forall_app. split; [done|]. by constructor.
Qed.

(** A part in use becomes free; all else stays. *)
Lemma freeSpace_spec P used fl top frag i n : layout P ((i, n) :: used) fl top frag →
  ∃ d' fl' top' frag', freeSpace P i n = Some (set_nFree (set_data P d') (nFree P + n), 0) ∧ layout (set_data P d') used fl' top' frag' ∧ stable P used d' ∧ length d' = length (aData P).
Proof.
  intros L. pose proof (l_gap _ _ _ _ _ L) as Hg. pose proof (l_cells _ _ _ _ _ L) as Hc. pose proof (geometry_bounds P (l_geo _ _ _ _ _ L)) as (G1 & G2 & G3 & G4 & G5 & G6). pose proof (layout_frag _ _ _ _ _ L) as Bf.
  pose proof (l_inside _ _ _ _ _ L) as I. apply Forall_cons in I as [I _]. unfold inside in I. cbn in I. pose proof (links_first _ _ _ (l_links _ _ _ _ _ L)) as K1.
  unfold freeSpace. cbv zeta. replace (hdrOffset P + 1 + 1) with (hdrOffset P + 2) by lia. assert (∃ a b, rd (aData P) (hdrOffset P + 1) = Some a ∧ rd (aData P) (hdrOffset P + 2) = Some b ∧ first_of fl = a * 256 + b ∧ 0 ≤ a ∧ 0 ≤ b) as (a & b & Ea & Eb & Eab & Ba & Bb).
  { unfold get2byte in K1. replace (hdrOffset P + 1 + 1) with (hdrOffset P + 2) in K1 by lia. destruct (rd _ (hdrOffset P + 1)) as [a|] eqn:Ea; [|done]. destruct (rd _ (hdrOffset P + 2)) as [b|] eqn:Eb; [|done]. injection K1 as K1. pose proof (is_bytes_rd _ _ _ G6 Ea) as Ba. pose proof (is_bytes_rd _ _ _ G6 Eb) as Bb. rewrite get2_byte in K1 by done. exists a, b. unfold is_u8 in *. repeat split; try done; lia. }
  rewrite Ea, Eb. destruct fl as [|x fl].
  - cbn [first_of] in Eab. rewrite !(proj2 (Z.eqb_eq _ _)) by lia. cbn [andb].
    destruct (free_block_spec P used [] [] top frag i n [] i (i + n) [] (aData P) L) as (d' & fl' & top' & E & R); try done.
    + split; left; (split; [done|]; split; [done|]; intros x [=]).
    + change (total []) with 0. replace (frag + n + 0 + 0 - (i + n - i) - 0 - 0) with frag by lia. apply L.
    + change (total []) with 0. lia.
    + exists d', fl', top', (frag + n + total [] + total [] - (i + n - i) - total [] - total []). split; [exact E|done].
  - pose proof (l_sorted _ _ _ _ _ L) as So. assert (0 < first_of (x :: fl)) as Hx by (destruct x; cbn in *; lia).
    assert ((b =? 0) && (a =? 0) = false) as -> by (destruct (Z.eqb_spec b 0), (Z.eqb_spec a 0); try done; lia).
    destruct (find_place_spec (aData P) i (x :: fl) (S (length (aData P))) (hdrOffset P + 1) (top + 1) _ (l_links _ _ _ _ _ L) So) as (l1 & l2 & Efl & -> & F1 & F2); [lia..|pose proof (sorted_length _ _ _ So); lia|].
    rewrite Efl in L, So. pose proof (sorted_parts _ _ _ _ So) as [_ [lo2 S2]]. assert (first_of l2 ≤ usableSize (pBt P) - 4) by (destruct l2 as [|[c t] l2]; cbn in *; lia). rewrite (proj2 (Z.ltb_ge _ _)) by done.
    pose proof (l_disj _ _ _ _ _ L) as D. cbn [app disj] in D. destruct D as [D _]. apply Forall_app in D as [_ D].
    destruct (coalesce_spec (usableSize (pBt P)) (hdrOffset P) (aData P) l1 l2 i n (top + 1) (l_links _ _ _ _ _ L) So) as (l1' & i' & e' & l2' & J & EJ); [lia|lia|done|lia|done|done|]. rewrite EJ.
    pose proof (joined_frag _ _ _ _ _ _ _ _ _ _ _ _ L J F1) as BJ. set (nFrag := e' - i' + total l1' + total l2' - n - total l1 - total l2) in *. rewrite (l_frag _ _ _ _ _ L), (proj2 (Z.ltb_ge _ _)) by lia.
    destruct (wr_spec (aData P) (hdrOffset P + 7) (u8 (frag - u8 nFrag))) as (d1 & E1 & W1 & R1); [lia|apply is_u8_u8|]. rewrite E1.
    assert (u8 (frag - u8 nFrag) = frag + n + total l1 + total l2 - (e' - i') - total l1' - total l2') as Ef by (unfold u8; rewrite (Z.mod_small nFrag), Z.mod_small by lia; lia). rewrite Ef in R1.
    destruct (free_block_spec P used l1 l2 top frag i n l1' i' e' l2' d1 L J F1) as (d' & fl' & top' & E & R); [apply W1|by apply W1|done|intros j Hj; apply W1; lia|lia|].
    exists d', fl', top', (frag + n + total l1 + total l2 - (e' - i') - total l1' - total l2'). split; [exact E|exact R].
Qed.

(** ** Cells and where they are *)

(** A cell is all that its size says, whatever follows it. *)
Definition cell_ok (t : PageType) (c : bytes) : Prop := is_bytes c ∧ ∀ r, cell_size t (c ++ r) = Some (Z.of_nat (length c)).

Definition spans (offs : list Z) (cells : list bytes) : list (Z * Z) := zip_with (λ o c, (o, Z.of_nat (length c))) offs cells.

Definition sizes (cells : list bytes) : Z := foldr (λ c n, Z.of_nat (length c) + n) 0 cells.
Arguments sizes : simpl never.

Lemma sizes_cons c cells : sizes (c :: cells) = Z.of_nat (length c) + sizes cells.
Proof. done. Qed.

Lemma sizes_app l1 l2 : sizes (l1 ++ l2) = sizes l1 + sizes l2.
Proof. induction l1 as [|c l1 IH]; [done|]. cbn [app]. rewrite !sizes_cons. lia. Qed.

Lemma total_spans offs cells : length offs = length cells → total (spans offs cells) = sizes cells.
Proof. revert cells. induction offs as [|o offs IH]; intros [|c cells] H; try done. cbn [spans zip_with]. rewrite total_cons, sizes_cons. cbn [snd]. f_equal. apply IH. by injection H. Qed.

Lemma cell_ok_length t c : page_type t → cell_ok t c → 4 ≤ Z.of_nat (length c) < usableSize (pBt t).
Proof. intros Ht [Hb Hc]. specialize (Hc []). rewrite app_nil_r in Hc. by eapply cell_size_spec. Qed.

Lemma sizes_nonneg cells : 0 ≤ sizes cells.
Proof. induction cells as [|c cells IH]; [done|]. rewrite sizes_cons. lia. Qed.

Lemma spans_elem offs cells : ∀ k o c, offs !! k = Some o → cells !! k = Some c → (o, Z.of_nat (length c)) ∈ spans offs cells.
Proof.
  revert cells. induction offs as [|o' offs IH]; intros [|c' cells] k o c Ho Hc; try done. destruct k as [|k]; [injection Ho as ->; injection Hc as ->; by left|]. right. by apply (IH cells k).
Qed.

(** The pointers from the one at [p] on. *)
Definition pointers (d : bytes) (p : Z) (offs : list Z) : Prop := ∀ k o, offs !! k = Some o → get2byte d (p + 2 * Z.of_nat k) = Some o.

Definition contents (d : bytes) (offs : list Z) (cells : list bytes) : Prop := Forall2 (λ o c, sub d o (Z.of_nat (length c)) = Some c) offs cells.

Lemma pointers_cons d p o offs : pointers d p (o :: offs) ↔ get2byte d p = Some o ∧ pointers d (p + 2) offs.
Proof.
  split.
  - intros H. split; [specialize (H O o eq_refl); by rewrite Z.add_0_r in H|]. intros k o' Hk. specialize (H (S k) o' Hk). rewrite <- H. f_equal. lia.
  - intros [H1 H2] [|k] o' Hk; [injection Hk as <-; by rewrite Z.add_0_r|]. rewrite <- (H2 k o' Hk). f_equal. lia.
Qed.

Lemma pointers_agree d d' p offs : pointers d p offs → agree d d' p (p + 2 * Z.of_nat (length offs)) → pointers d' p offs.
Proof.
  intros H A k o Hk. rewrite <- (H k o Hk). apply get2byte_agree. apply lookup_lt_Some in Hk. apply (agree_sub _ _ _ _ _ _ A); lia.
Qed.

Lemma contents_agree d d' offs cells : contents d offs cells → length d' = length d → Forall (λ x, agree d d' x.1 (x.1 + x.2)) (spans offs cells) → contents d' offs cells.
Proof.
  intros H Hl. induction H as [|o c offs cells Hs _ IH]; [constructor|]. cbn [spans zip_with]. intros [A B]%Forall_cons. constructor; [|by apply IH]. by rewrite (sub_agree d d').
Qed.

(** ** Packing the cells *)

Fixpoint packed (cbrk : Z) (cells : list bytes) : list Z :=
  match cells with [] => [] | c :: cells => cbrk - Z.of_nat (length c) :: packed (cbrk - Z.of_nat (length c)) cells end.

Lemma packed_length cells : ∀ cbrk, length (packed cbrk cells) = length cells.
Proof. induction cells as [|c cells IH]; intros cbrk; [done|]. cbn. by rewrite IH. Qed.

Lemma packed_inside cells : ∀ cbrk, Forall (λ x : Z * Z, cbrk - sizes cells ≤ x.1 ∧ x.1 + x.2 ≤ cbrk) (spans (packed cbrk cells) cells).
Proof.
  induction cells as [|c cells IH]; intros cbrk; [constructor|]. cbn [packed spans zip_with]. rewrite sizes_cons. pose proof (sizes_nonneg cells). constructor; [cbn; lia|].
  eapply Forall_impl; [apply IH|]. intros x. cbn. lia.
Qed.

Lemma packed_disj cells : ∀ cbrk, disj (spans (packed cbrk cells) cells).
Proof.
  induction cells as [|c cells IH]; intros cbrk; [done|]. cbn [packed spans zip_with disj]. split; [|apply IH]. eapply Forall_impl; [apply packed_inside|]. intros x. unfold apart. cbn. lia.
Qed.

Lemma sub_drop (d c : bytes) o : sub d o (Z.of_nat (length c)) = Some c → drop (Z.to_nat o) d = c ++ drop (Z.to_nat o + length c) d.
Proof. unfold sub. case_decide; [|done]. rewrite Nat2Z.id. intros [= E]. rewrite <- drop_drop. rewrite <- E at 1. by rewrite take_drop. Qed.

Lemma pack_cells_spec (P : MemPage) src start usable : page_type P → usableSize (pBt P) = usable → usable ≤ 65536 → ∀ cells offs i cbrk d,
  is_bytes d → 0 ≤ cellOffset P → 0 ≤ i → usable ≤ Z.of_nat (length d) → cbrk ≤ usable → start ≤ cbrk - sizes cells → cellOffset P + 2 * i + 2 * Z.of_nat (length cells) ≤ cbrk - sizes cells →
  pointers d (cellOffset P + 2 * i) offs → contents src offs cells → Forall (λ x : Z * Z, x.1 ≤ usable - 4 ∧ x.1 + x.2 ≤ usable) (spans offs cells) → Forall (cell_ok P) cells →
  ∃ d', pack_cells (length cells) P src start (usable - 4) d i cbrk = Some (d', Some (cbrk - sizes cells)) ∧ length d' = length d ∧ is_bytes d' ∧
    pointers d' (cellOffset P + 2 * i) (packed cbrk cells) ∧ contents d' (packed cbrk cells) cells ∧
    ∀ j, ¬ cellOffset P + 2 * i ≤ j < cellOffset P + 2 * i + 2 * Z.of_nat (length cells) → ¬ cbrk - sizes cells ≤ j < cbrk → rd d' j = rd d j.
Proof.
  intros Ht Hu Hu6. induction cells as [|c cells IH]; intros offs i cbrk d Hb Hco Hi Hl Hcb Hst Hgap Hp Hc Hin Hok.
  - exists d. unfold sizes. cbn. rewrite Z.sub_0_r. do 3 (split; [done|]). split; [by intros k o Hk; rewrite lookup_nil in Hk|]. split; [constructor|done].
  - inversion Hc as [|o c' offs' cells' Hs Hc']; subst. cbn [spans zip_with] in Hin. apply Forall_cons in Hin as [Hin1 Hin2], Hok as [Hok1 Hok2]. cbn in Hin1. apply pointers_cons in Hp as [Hp1 Hp2]. rewrite sizes_cons in *. cbn [length] in *.
    pose proof (sizes_nonneg cells) as Hn. pose proof (cell_ok_length _ _ Ht Hok1) as Hc4. cbn [pack_cells]. cbv zeta. replace (cellOffset P + i * 2) with (cellOffset P + 2 * i) by lia. rewrite Hp1, (proj2 (Z.ltb_ge _ _)) by lia. rewrite (sub_drop _ _ _ Hs), (proj2 Hok1).
    rewrite (proj2 (Z.ltb_ge _ start)), (proj2 (Z.ltb_ge _ (o + _))) by lia. cbn [orb].
    destruct (put2byte_spec d (cellOffset P + 2 * i) (cbrk - Z.of_nat (length c))) as (d1 & E1 & W1 & R1); [lia..|]. rewrite E1, Hs. pose proof (proj1 W1) as L1.
    destruct (splice_spec d1 (cbrk - Z.of_nat (length c)) c) as (d2 & E2 & W2 & R2); [lia|lia|apply Hok1|]. rewrite E2. pose proof (proj1 W2) as L2.
    destruct (IH offs' (i + 1) (cbrk - Z.of_nat (length c)) d2) as (d' & E & Hl' & Hb' & Hp' & Hc2 & Hout); try done; try lia; [by apply W2, W1| |].
    { replace (cellOffset P + 2 * (i + 1)) with (cellOffset P + 2 * i + 2) by lia. apply (pointers_agree _ _ _ _ Hp2). intros j Hj. assert (length offs' = @length bytes cells) as Hlc by exact (Forall2_length _ _ _ Hc'). rewrite (proj2 (proj2 W2)), (proj2 (proj2 W1)) by lia. done. }
    exists d'. replace (cbrk - (Z.of_nat (length c) + sizes cells)) with (cbrk - Z.of_nat (length c) - sizes cells) by lia. split; [exact E|]. split; [lia|]. split; [done|]. split; [|split].
    + cbn [packed]. apply pointers_cons. split; [|by replace (cellOffset P + 2 * (i + 1)) with (cellOffset P + 2 * i + 2) in Hp' by lia]. rewrite (get2byte_agree d2) by (intros j Hj; apply Hout; lia).
      rewrite (writes_get2 _ _ _ _ _ W2), R1 by lia. f_equal. apply Z.mod_small. lia.
    + cbn [packed]. constructor; [|done]. apply sub_rd; [lia|done|lia|]. intros j Hj. rewrite Hout by lia. by apply R2.
    + intros j Hj1 Hj2. rewrite Hout, (proj2 (proj2 W2)), (proj2 (proj2 W1)) by lia. done.
Qed.

(** The page has the cells [cells] at [offs], and nothing else in use. *)
Record holds (P : MemPage) (cells : list bytes) (offs : list Z) (fl : list (Z * Z)) (top frag : Z) : Prop := {
  h_layout : layout P (spans offs cells) fl top frag;
  h_count : nCell P = Z.of_nat (length cells);
  h_flag : ∃ flag, rd (aData P) (hdrOffset P) = Some flag ∧ decodeFlags P flag = (0, ptype P);
  h_mask : maskPage P = pageSize (pBt P) - 1;
  h_nCell : get2byte (aData P) (hdrOffset P + 3) = Some (nCell P);
  h_pointers : pointers (aData P) (cellOffset P) offs;
  h_contents : contents (aData P) offs cells;
  h_cells : Forall (cell_ok P) cells }.

Definition free_bytes (P : MemPage) (cells : list bytes) : Z := usableSize (pBt P) - cellOffset P - 2 * Z.of_nat (length cells) - sizes cells.

Lemma holds_length P cells offs fl top frag : holds P cells offs fl top frag → length offs = length cells.
Proof. intros H. exact (Forall2_length _ _ _ (h_contents _ _ _ _ _ _ H)). Qed.

(** What the free space is made of. *)
Lemma holds_free P cells offs fl top frag : holds P cells offs fl top frag → frag + top + total fl - cellOffset P - 2 * nCell P = free_bytes P cells.
Proof.
  intros H. pose proof (l_sum _ _ _ _ _ (h_layout _ _ _ _ _ _ H)) as T. rewrite total_spans in T by (by eapply holds_length). rewrite (h_count _ _ _ _ _ _ H). unfold free_bytes. lia.
Qed.

Lemma defragment_out_spec P d cbrk frag : geometry P → length d = length (aData P) → is_bytes d → 0 ≤ nCell P → cellOffset P + 2 * nCell P ≤ cbrk ≤ usableSize (pBt P) → rd d (hdrOffset P + 7) = Some frag →
  frag + cbrk - cellOffset P - 2 * nCell P = nFree P →
  ∃ d', defragment_out P d cbrk = Some (set_data P d', 0) ∧ length d' = length d ∧ is_bytes d' ∧ get2byte d' (hdrOffset P + 5) = Some (u16 cbrk) ∧ get2byte d' (hdrOffset P + 1) = Some 0 ∧
    ∀ j, ¬ hdrOffset P + 1 ≤ j < hdrOffset P + 3 → ¬ hdrOffset P + 5 ≤ j < hdrOffset P + 7 → ¬ cellOffset P + 2 * nCell P ≤ j < cbrk → rd d' j = rd d j.
Proof.
  intros G Hl Hb Hn Hc Hf Hfree. pose proof (geometry_bounds P G) as (G1 & G2 & G3 & G4 & G5 & G6). unfold defragment_out. cbv zeta. rewrite Hf, (proj2 (Z.eqb_eq _ _)) by lia. cbn [negb].
  destruct (put2byte_spec d (hdrOffset P + 5) cbrk) as (d1 & E1 & W1 & R1); [lia..|]. rewrite E1. pose proof (proj1 W1) as L1.
  destruct (wr_spec d1 (hdrOffset P + 1) 0) as (d2 & E2 & W2 & R2); [lia|by unfold is_u8|]. rewrite E2. pose proof (proj1 W2) as L2.
  destruct (wr_spec d2 (hdrOffset P + 2) 0) as (d3 & E3 & W3 & R3); [lia|by unfold is_u8|]. rewrite E3. pose proof (proj1 W3) as L3.
  destruct (memset_spec d3 (cellOffset P + 2 * nCell P) 0 (cbrk - (cellOffset P + 2 * nCell P))) as (d4 & E4 & W4 & _); [lia..|by unfold is_u8|]. rewrite E4. pose proof (proj1 W4) as L4.
  exists d4. split; [done|]. split; [congruence|]. split; [by apply W4, W3, W2, W1|]. split; [|split].
  - rewrite (writes_get2 _ _ _ _ _ W4), (writes_get2 _ _ _ _ _ W3), (writes_get2 _ _ _ _ _ W2) by lia. exact R1.
  - rewrite (writes_get2 _ _ _ _ _ W4) by lia. unfold get2byte. replace (hdrOffset P + 1 + 1) with (hdrOffset P + 2) by lia. by rewrite R3, (proj2 (proj2 W3)), R2 by lia.
  - intros j H1 H2 H3. rewrite (proj2 (proj2 W4)), (proj2 (proj2 W3)), (proj2 (proj2 W2)), (proj2 (proj2 W1)) by lia. done.
Qed.

Lemma spans_inside t lo hi cells : page_type t → Forall (cell_ok t) cells → ∀ offs, Forall (λ x : Z * Z, lo ≤ x.1 ∧ x.1 + x.2 ≤ hi) (spans offs cells) → Forall (inside lo hi) (spans offs cells).
Proof.
  intros Ht. induction 1 as [|c cells Hc _ IH]; intros [|o offs]; cbn [spans zip_with]; try constructor; try (by constructor).
  - apply Forall_cons in H as [H _]. pose proof (cell_ok_length _ _ Ht Hc). unfold inside. cbn in *. lia.
  - apply Forall_cons in H as [_ H]. by apply IH.
Qed.

(** The page after its cells were moved: no free blocks are left. *)
Lemma holds_moved P cells offs fl top frag offs' top' frag' d' : holds P cells offs fl top frag → length d' = length (aData P) → is_bytes d' →
  cellOffset P + 2 * nCell P ≤ top' ≤ usableSize (pBt P) → get2byte d' (hdrOffset P + 5) = Some (u16 top') → get2byte d' (hdrOffset P + 1) = Some 0 → rd d' (hdrOffset P + 7) = Some frag' → frag' ≤ 60 →
  pointers d' (cellOffset P) offs' → contents d' offs' cells → disj (spans offs' cells) → Forall (λ x : Z * Z, top' ≤ x.1 ∧ x.1 + x.2 ≤ usableSize (pBt P)) (spans offs' cells) →
  frag' + sizes cells = usableSize (pBt P) - top' → agree (aData P) d' 0 (hdrOffset P + 1) → agree (aData P) d' (hdrOffset P + 3) (hdrOffset P + 5) →
  holds (set_data P d') cells offs' [] top' frag'.
Proof.
  intros H Hl Hb Hg Htop Hfirst Hf Hf6 Hp Hc Hd Hi Hs A1 A2. pose proof (h_layout _ _ _ _ _ _ H) as L. pose proof (geometry_bounds P (l_geo _ _ _ _ _ L)) as (G1 & G2 & G3 & G4 & G5 & G6). assert (length offs' = length cells) as Hlen by exact (Forall2_length _ _ _ Hc).
  split; cbn [set_data aData nCell nFree hdrOffset cellOffset ptype maskPage]; try done; try (by apply H).
  - split; cbn [set_data aData nCell nFree hdrOffset cellOffset ptype]; try done; try (by apply L).
    + by apply geometry_data; [apply L|..].
    + by rewrite app_nil_r.
    + by apply (spans_inside P); [apply L|apply H|].
    + rewrite total_spans by done. change (total []) with 0. lia.
  - destruct (h_flag _ _ _ _ _ _ H) as (flag & F1 & F2). exists flag. split; [|done]. rewrite A1 by lia. done.
  - rewrite (get2byte_agree (aData P)) by (apply (agree_sub _ _ _ _ _ _ A2); lia). apply H.
Qed.

(** Packing all the cells. *)
Lemma defragment_pack_spec P cells offs fl top frag : holds P cells offs fl top frag → nFree P = free_bytes P cells →
  ∃ d' offs' top', defragment_pack P = Some (set_data P d', 0) ∧ holds (set_data P d') cells offs' [] top' 0 ∧ length d' = length (aData P).
Proof.
  intros H Hfree. pose proof (h_layout _ _ _ _ _ _ H) as L. pose proof (geometry_bounds P (l_geo _ _ _ _ _ L)) as (G1 & G2 & G3 & G4 & G5 & G6). pose proof (l_gap _ _ _ _ _ L) as Hg. pose proof (layout_frag _ _ _ _ _ L) as Bf. pose proof (h_count _ _ _ _ _ _ H) as Hn. pose proof (holds_length _ _ _ _ _ _ H) as Hlen.
  pose proof (l_sum _ _ _ _ _ L) as T. rewrite total_spans in T by done. pose proof (sizes_nonneg cells) as Hs0. assert (0 ≤ total fl) as Hfl by (pose proof (sorted_inside _ _ _ (l_sorted _ _ _ _ _ L)) as I; clear -I; induction I as [|x fl Hx _ IH]; [done|]; rewrite total_cons; unfold inside in Hx; lia).
  unfold defragment_pack. cbv zeta. rewrite (l_top _ _ _ _ _ L).
  assert (∃ d1, (if 0 <? nCell P then let* page := sub (aData P) 0 (usableSize (pBt P)) in let* src := splice (pTmpSpace (pBt P)) 0 page in pack_cells (Z.to_nat (nCell P)) P src (u16 top) (usableSize (pBt P) - 4) (aData P) 0 (usableSize (pBt P)) else Some (aData P, Some (usableSize (pBt P)))) = Some (d1, Some (usableSize (pBt P) - sizes cells)) ∧
    length d1 = length (aData P) ∧ is_bytes d1 ∧ pointers d1 (cellOffset P) (packed (usableSize (pBt P)) cells) ∧ contents d1 (packed (usableSize (pBt P)) cells) cells ∧
    ∀ j, j < cellOffset P → rd d1 j = rd (aData P) j) as (d1 & E1 & L1 & B1 & P1 & C1 & O1).
  { destruct (Z.ltb_spec 0 (nCell P)) as [Hc|Hc].
    - assert (∃ page, sub (aData P) 0 (usableSize (pBt P)) = Some page) as [page Ep] by (unfold sub; rewrite decide_True by lia; eauto). rewrite Ep. pose proof (sub_length _ _ _ _ Ep) as (_ & Lp & _).
      destruct (splice_ok (pTmpSpace (pBt P)) page 0) as [src Es]; [lia|rewrite Lp; apply L|]. rewrite Es.
      assert (top < 65536). { destruct cells as [|c cells]; [cbn in Hn; lia|]. rewrite sizes_cons in T. pose proof (cell_ok_length _ _ (proj1 (l_geo _ _ _ _ _ L)) (Forall_inv (h_cells _ _ _ _ _ _ H))). pose proof (sizes_nonneg cells). lia. }
      assert (u16 top = top) as -> by (apply Z.mod_small; lia). replace (Z.to_nat (nCell P)) with (length cells) by lia.
      destruct (pack_cells_spec P src top (usableSize (pBt P)) (proj1 (l_geo _ _ _ _ _ L)) eq_refl ltac:(lia) cells offs 0 (usableSize (pBt P)) (aData P)) as (d1 & E & Hl & Hb & Hp & Hc' & Ho); try done; try lia; [rewrite Z.mul_0_r, Z.add_0_r; apply H| | |apply H|].
      + pose proof (h_contents _ _ _ _ _ _ H) as C. pose proof (l_inside _ _ _ _ _ L) as I. clear -C I Es Lp G1 G3 Hg G4 G5 Ep Hc. revert I. induction C as [|o c offs cells Hoc _ IH]; intros I; [constructor|]. cbn [spans zip_with] in I. apply Forall_cons in I as [I1 I2]. constructor; [|by apply IH]. unfold inside in I1. cbn in I1.
        apply sub_rd; [lia|done|pose proof (splice_length _ _ _ _ Es); unfold splice in Es; case_decide as D; [|done]; lia|]. intros j Hj. rewrite (splice_rd _ _ _ _ _ Es), decide_True by lia. rewrite (rd_sub _ _ _ _ _ Ep) by lia. rewrite (rd_sub _ _ _ _ _ Hoc) by lia. f_equal. lia.
      + eapply Forall_impl; [apply L|]. unfold inside. intros x. lia.
      + exists d1. rewrite Z.mul_0_r, Z.add_0_r in Hp, Ho. do 5 (split; [done|]). intros j Hj. apply Ho; lia.
    - exists (aData P). destruct cells as [|c cells]; [|cbn in Hn; lia]. change (sizes []) with 0. rewrite Z.sub_0_r. do 3 (split; [done|]). split; [intros k o Hk; by destruct k|]. split; [constructor|done]. }
  rewrite E1. destruct (wr_spec d1 (hdrOffset P + 7) 0) as (d2 & E2 & W2 & R2); [lia|by unfold is_u8|]. rewrite E2. pose proof (proj1 W2) as L2. pose proof (holds_free _ _ _ _ _ _ H) as Hf.
  set (top' := usableSize (pBt P) - sizes cells) in *. assert (top ≤ top') as Htop by lia.
  destruct (defragment_out_spec P d2 top' 0 (l_geo _ _ _ _ _ L)) as (d' & E3 & L3 & B3 & R3 & R4 & O3); [by rewrite L2|by apply W2|apply L|lia|done|unfold free_bytes in Hfree; lia|].
  exists d', (packed (usableSize (pBt P)) cells), top'. split; [exact E3|]. split; [|congruence].
  assert (∀ x, x ∈ spans (packed (usableSize (pBt P)) cells) cells → top' ≤ x.1 ∧ x.1 + x.2 ≤ usableSize (pBt P)) as I by (apply Forall_forall; apply packed_inside).
  pose proof (proj2 (proj2 W2)) as O2. apply (holds_moved P cells offs fl top frag); try done; try lia.
  - rewrite O3 by lia. done.
  - apply (pointers_agree d1); [done|]. intros j Hj. rewrite packed_length in Hj. rewrite O3, O2 by lia. done.
  - apply (contents_agree d1); [done|congruence|]. apply Forall_forall. intros x Hx j Hj. specialize (I x Hx). rewrite O3, O2 by lia. done.
  - apply packed_disj.
  - by apply Forall_forall.
  - intros j Hj. rewrite O3, O2, O1 by lia. done.
  - intros j Hj. rewrite O3, O2, O1 by lia. done.
Qed.

(** Moving the cells over one or two free blocks. *)
Definition shifted (iFree iFree2 sz sz2 pc : Z) : Z := if pc <? iFree then pc + sz else if pc <? iFree2 then pc + sz2 else pc.

Lemma shift_pointers_spec iFree iFree2 sz sz2 : ∀ offs d p, pointers d p offs → 0 ≤ p → p + 2 * Z.of_nat (length offs) ≤ Z.of_nat (length d) → is_bytes d →
  Forall (λ o, 0 ≤ shifted iFree iFree2 sz sz2 o < 65536) offs →
  ∃ d', shift_pointers (length offs) d p iFree iFree2 sz sz2 = Some d' ∧ length d' = length d ∧ is_bytes d' ∧ pointers d' p (map (shifted iFree iFree2 sz sz2) offs) ∧
    ∀ j, ¬ p ≤ j < p + 2 * Z.of_nat (length offs) → rd d' j = rd d j.
Proof.
  induction offs as [|o offs IH]; intros d p Hp Hp0 Hl Hb Hs; [exists d; repeat split; try done; intros k o Hk; by destruct k|].
  apply pointers_cons in Hp as [Hp1 Hp2]. apply Forall_cons in Hs as [Hs1 Hs2]. cbn [length] in Hl. cbn [shift_pointers length map]. rewrite Hp1.
  assert (∃ d1, (if o <? iFree then put2byte d p (o + sz) else if o <? iFree2 then put2byte d p (o + sz2) else Some d) = Some d1 ∧ writes d d1 p 2 ∧ get2byte d1 p = Some (shifted iFree iFree2 sz sz2 o)) as (d1 & E1 & W1 & R1).
  { unfold shifted in *. destruct (o <? iFree); [|destruct (o <? iFree2); [|exists d; split; [done|]; split; [split; [done|]; split; [done|]; done|done]]].
    - destruct (put2byte_spec d p (o + sz)) as (d1 & E & W & R); [lia..|]. exists d1. split; [done|]. split; [done|]. rewrite R. f_equal. by apply Z.mod_small.
    - destruct (put2byte_spec d p (o + sz2)) as (d1 & E & W & R); [lia..|]. exists d1. split; [done|]. split; [done|]. rewrite R. f_equal. by apply Z.mod_small. }
  rewrite E1. pose proof (proj1 W1) as L1. destruct (IH d1 (p + 2)) as (d' & E & L' & B' & P' & O'); [apply (pointers_agree d); [done|apply (writes_agree _ _ _ _ _ _ W1); lia]|lia|lia|by apply W1|done|].
  exists d'. split; [exact E|]. split; [congruence|]. split; [done|]. split; [|intros j Hj; rewrite O' by lia; apply W1; lia].
  apply pointers_cons. split; [|done]. rewrite (get2byte_agree d1); [done|]. intros j Hj. apply O'. lia.
Qed.

Lemma spans_map f offs cells : spans (map f offs) cells = map (λ x, (f x.1, x.2)) (spans offs cells).
Proof. revert cells. induction offs as [|o offs IH]; intros [|c cells]; try done. cbn [map spans zip_with fst snd]. f_equal. apply IH. Qed.

Lemma disj_map g l : (∀ x y, x ∈ l → y ∈ l → apart x y → apart (g x) (g y)) → disj l → disj (map g l).
Proof.
  induction l as [|x l IH]; intros H; [done|]. cbn [map disj]. intros [H1 H2]. split.
  - rewrite Forall_forall in *. intros y Hy. apply list_elem_of_fmap in Hy as (z & -> & Hz). apply H; [by left|by right|by apply H1].
  - apply IH; [|done]. intros y z Hy Hz. apply H; by right.
Qed.

(** What the two moves do to the bytes of the page. *)
Lemma shift_bytes d usable a s b t top : usable ≤ Z.of_nat (length d) → is_bytes d → 0 ≤ top < a → 0 ≤ s → 0 ≤ t → (b = 0 ∧ t = 0 ∧ a + s ≤ usable ∨ a + s ≤ b ∧ b + t ≤ usable) →
  ∃ d1 d2, (if negb (b =? 0) then memmove d (a + s + t) (a + s) (b - (a + s)) else Some d) = Some d1 ∧ memmove d1 (top + (s + t)) top (a - top) = Some d2 ∧ length d2 = length d ∧ is_bytes d2 ∧
    (∀ j, j < top + (s + t) → rd d2 j = rd d j) ∧ (∀ j, top ≤ j < a → rd d2 (j + (s + t)) = rd d j) ∧ (∀ j, a + s ≤ j < b → rd d2 (j + t) = rd d j) ∧ (∀ j, a + s ≤ j → b + t ≤ j → rd d2 j = rd d j).
Proof.
  intros Hl Hb Ht Hs0 Ht0 Hb2.
  assert (∃ d1, (if negb (b =? 0) then memmove d (a + s + t) (a + s) (b - (a + s)) else Some d) = Some d1 ∧ length d1 = length d ∧ is_bytes d1 ∧
    (∀ j, ¬ a + s + t ≤ j < b + t → rd d1 j = rd d j) ∧ (∀ j, a + s ≤ j < b → rd d1 (j + t) = rd d j)) as (d1 & E1 & L1 & B1 & O1 & M1).
  { destruct (Z.eqb_spec b 0) as [->|Hb0]; cbn [negb]; [exists d; repeat split; try done; intros; lia|].
    destruct (memmove_spec d (a + s + t) (a + s) (b - (a + s))) as (d1 & E & W & R); [lia..|done|]. exists d1. split; [done|]. split; [apply W|]. split; [by apply W|]. split; [intros j Hj; apply W; lia|].
    intros j Hj. specialize (R (j - (a + s)) ltac:(lia)). replace (j + t) with (a + s + t + (j - (a + s))) by lia. rewrite R. f_equal. lia. }
  destruct (memmove_spec d1 (top + (s + t)) top (a - top)) as (d2 & E2 & W2 & R2); [lia..|done|]. exists d1, d2. split; [done|]. split; [done|]. split; [rewrite (proj1 W2); done|]. split; [by apply W2|].
  pose proof (proj2 (proj2 W2)) as O2. split; [intros j Hj; rewrite O2, O1 by lia; done|]. split; [|split].
  - intros j Hj. specialize (R2 (j - top) ltac:(lia)). replace (j + (s + t)) with (top + (s + t) + (j - top)) by lia. rewrite R2, O1 by lia. f_equal. lia.
  - intros j Hj. rewrite O2 by lia. by apply M1.
  - intros j Hj1 Hj2. rewrite O2, O1 by lia. done.
Qed.

Section defragment_shift.
Context (P : MemPage) (cells : list bytes) (offs : list Z) (a s : Z) (rest : list (Z * Z)) (b t top frag : Z).
Context (H : holds P cells offs ((a, s) :: rest) top frag) (Hrest : rest = [] ∧ b = 0 ∧ t = 0 ∨ rest = [(b, t)]).

Lemma shift_facts : top < a ∧ 4 ≤ s ∧ a + s ≤ usableSize (pBt P) ∧ (b = 0 ∧ t = 0 ∨ a + s + 4 ≤ b ∧ 4 ≤ t ∧ b + t ≤ usableSize (pBt P)) ∧ total ((a, s) :: rest) = s + t ∧ get2byte (aData P) (a + 2) = Some s ∧ (b ≠ 0 → get2byte (aData P) (b + 2) = Some t) ∧
  ∀ x, x ∈ spans offs cells → inside top (usableSize (pBt P)) x ∧ (x.1 + x.2 ≤ a ∨ a + s ≤ x.1 ∧ x.1 + x.2 ≤ b ∨ a + s ≤ x.1 ∧ b + t ≤ x.1).
Proof.
  pose proof (h_layout _ _ _ _ _ _ H) as L. pose proof (l_sorted _ _ _ _ _ L) as S1. pose proof (l_links _ _ _ _ _ L) as K. cbn [sorted] in S1. cbn [links] in K. destruct S1 as (T1 & T2 & T3 & T4), K as (K1 & K2 & K3).
  split; [lia|]. split; [lia|]. split; [lia|]. pose proof (l_disj _ _ _ _ _ L) as D. apply disj_app in D as (_ & _ & D). pose proof (l_inside _ _ _ _ _ L) as I. rewrite Forall_forall in D, I.
  destruct Hrest as [(-> & -> & ->)| -> ].
  - split; [by left|]. split; [rewrite total_cons; change (total []) with 0; cbn; lia|]. split; [done|]. split; [done|]. intros x Hx. split; [by apply I|]. specialize (D x Hx). apply Forall_cons in D as [D _]. specialize (I x Hx). unfold apart, inside in *. cbn in D. pose proof (l_gap _ _ _ _ _ L). pose proof (l_cells _ _ _ _ _ L). pose proof (geometry_bounds P (l_geo _ _ _ _ _ L)). lia.
  - cbn [sorted links] in T4, K3. destruct T4 as (T4 & T5 & T6 & _), K3 as (K3 & K4 & K5). split; [right; lia|]. split; [rewrite !total_cons; change (total []) with 0; cbn; lia|]. split; [done|]. split; [done|].
    intros x Hx. split; [by apply I|]. specialize (D x Hx). apply Forall_cons in D as [D D']. apply Forall_cons in D' as [D' _]. unfold apart in *. cbn in D, D'. lia.
Qed.

Lemma shifted_spans x : x ∈ spans offs cells → top + s + t ≤ shifted a b (s + t) t x.1 ∧ shifted a b (s + t) t x.1 + x.2 ≤ usableSize (pBt P).
Proof.
  intros Hx. destruct shift_facts as (F1 & F2 & F3 & F4 & F5 & F6 & F7 & F8). destruct (F8 x Hx) as [I D]. unfold inside in I. unfold shifted. destruct (Z.ltb_spec x.1 a), (Z.ltb_spec x.1 b); lia.
Qed.

Lemma shifted_apart x y : x ∈ spans offs cells → y ∈ spans offs cells → apart x y → apart (shifted a b (s + t) t x.1, x.2) (shifted a b (s + t) t y.1, y.2).
Proof.
  intros Hx Hy. destruct shift_facts as (F1 & F2 & F3 & F4 & F5 & F6 & F7 & F8). destruct (F8 x Hx) as [Ix Dx], (F8 y Hy) as [Iy Dy]. unfold inside in *. unfold apart, shifted. cbn.
  destruct (Z.ltb_spec x.1 a), (Z.ltb_spec x.1 b), (Z.ltb_spec y.1 a), (Z.ltb_spec y.1 b); lia.
Qed.

Lemma defragment_shift_spec : nFree P = free_bytes P cells →
  ∃ d' offs' top', defragment_shift P a b = Some (set_data P d', 0) ∧ holds (set_data P d') cells offs' [] top' frag ∧ length d' = length (aData P).
Proof.
  intros Hfree. pose proof (h_layout _ _ _ _ _ _ H) as L. pose proof (geometry_bounds P (l_geo _ _ _ _ _ L)) as (G1 & G2 & G3 & G4 & G5 & G6). pose proof (l_gap _ _ _ _ _ L) as Hg. pose proof (layout_frag _ _ _ _ _ L) as Bf. pose proof (h_count _ _ _ _ _ _ H) as Hn. pose proof (holds_length _ _ _ _ _ _ H) as Hlen. pose proof (holds_free _ _ _ _ _ _ H) as Hf.
  destruct shift_facts as (F1 & F2 & F3 & F4 & F5 & F6 & F7 & F8). rewrite F5 in Hf. set (f := shifted a b (s + t) t).
  unfold defragment_shift. cbv zeta. rewrite F6, (l_top _ _ _ _ _ L). assert (u16 top = top) as -> by (apply Z.mod_small; lia). rewrite (proj2 (Z.leb_gt _ _)) by lia.
  destruct (shift_bytes (aData P) (usableSize (pBt P)) a s b t top) as (d1 & d2 & E1 & E2 & L2 & B2 & M1 & M2 & M3 & M4); [lia|done|lia|lia|lia|lia|].
  assert (length (map f offs) = length cells) as Hlf by (by rewrite length_map).
  destruct (shift_pointers_spec a b (s + t) t offs d2 (cellOffset P)) as (d3 & E3 & L3 & B3 & P3 & O3).
  { apply (pointers_agree (aData P)); [apply H|]. intros j Hj. apply M1. lia. }
  { lia. } { lia. } { done. }
  { apply Forall_forall. intros o Ho. apply list_elem_of_lookup in Ho as [k Hk]. destruct (lookup_lt_is_Some_2 cells k) as [c Hc]; [apply lookup_lt_Some in Hk; lia|]. assert ((o, Z.of_nat (length c)) ∈ spans offs cells) as Hx by (by apply (spans_elem _ _ k)). pose proof (shifted_spans _ Hx) as B. destruct (F8 _ Hx) as [I _]. unfold inside in I. cbn in *. lia. }
  destruct (defragment_out_spec P d3 (top + (s + t)) frag (l_geo _ _ _ _ _ L)) as (d' & E4 & L4 & B4 & R4 & R5 & O4); [congruence|done|apply L|lia|rewrite O3, M1 by lia; apply L|unfold free_bytes in *; lia|].
  exists d', (map f offs), (top + (s + t)). split.
  { rewrite <- E4. replace (length offs) with (Z.to_nat (nCell P)) in E3 by lia. destruct (Z.eqb_spec b 0) as [->|Hb0]; cbn [negb] in *.
    - injection E1 as <-. rewrite (proj2 (Z.ltb_ge _ _)) by lia. destruct F4 as [[_ ->]|?]; [|lia]. rewrite Z.add_0_r in *. rewrite E2, E3. done.
    - rewrite (proj2 (Z.ltb_ge _ _)) by lia. rewrite F7 by done. rewrite (proj2 (Z.ltb_ge _ _)) by lia. rewrite E1, E2, E3. done. }
  split; [|congruence]. apply (holds_moved P cells offs ((a, s) :: rest) top frag); try done; try lia.
  - rewrite O4, O3, M1 by lia. apply L.
  - apply (pointers_agree d3); [done|]. intros j Hj. rewrite length_map in Hj. apply O4; lia.
  - pose proof (h_contents _ _ _ _ _ _ H) as C. assert (∀ x, x ∈ spans offs cells → ∀ j, 0 ≤ j < x.2 → rd d' (f x.1 + j) = rd (aData P) (x.1 + j)) as Hm.
    { intros x Hx j Hj. pose proof (shifted_spans x Hx) as B. fold f in B. destruct (F8 x Hx) as [I D]. unfold inside in I. rewrite O4, O3 by lia. unfold f, shifted in *. destruct (Z.ltb_spec x.1 a); [|destruct (Z.ltb_spec x.1 b)].
      - rewrite <- (M2 (x.1 + j)) by lia. f_equal. lia.
      - rewrite <- (M3 (x.1 + j)) by lia. f_equal. lia.
      - apply M4; lia. }
    assert (∀ x, x ∈ spans offs cells → 0 ≤ f x.1 ∧ f x.1 + x.2 ≤ Z.of_nat (length d')) as Hr by (intros x Hx; pose proof (shifted_spans x Hx) as B; fold f in B; rewrite L4, L3, L2; lia).
    clear -C Hm Hr. induction C as [|o c offs cells Hoc _ IH]; [constructor|]. cbn [map]. constructor; [|apply IH; intros x Hx; [apply Hm|apply Hr]; by right].
    assert ((o, Z.of_nat (length c)) ∈ spans (o :: offs) (c :: cells)) as Hx by (by left). specialize (Hm _ Hx). specialize (Hr _ Hx). cbn in Hm, Hr. apply sub_rd; [lia|done|lia|]. intros j Hj. rewrite Hm by done. symmetry. by apply (rd_sub _ _ _ _ _ Hoc).
  - rewrite spans_map. apply disj_map; [intros x y Hx Hy; by apply shifted_apart|]. pose proof (l_disj _ _ _ _ _ L) as D. apply disj_app in D as [D _]. exact D.
  - rewrite spans_map. apply Forall_forall. intros y Hy. apply list_elem_of_fmap in Hy as (x & -> & Hx). pose proof (shifted_spans x Hx) as B. fold f in B. cbn. lia.
  - pose proof (l_sum _ _ _ _ _ L) as T. rewrite total_spans, F5 in T by done. lia.
  - intros j Hj. rewrite O4, O3, M1 by lia. done.
  - intros j Hj. rewrite O4, O3, M1 by lia. done.
Qed.

End defragment_shift.

(** Defragmenting keeps the cells, and joins all the free space but the
    fragments that the caller accepts. *)
Lemma defragmentPage_spec P cells offs fl top frag m : holds P cells offs fl top frag → nFree P = free_bytes P cells →
  ∃ d' offs' top' frag', defragmentPage P m = Some (set_data P d', 0) ∧ holds (set_data P d') cells offs' [] top' frag' ∧ (frag' = 0 ∨ frag' ≤ m) ∧ length d' = length (aData P).
Proof.
  intros H Hfree. pose proof (h_layout _ _ _ _ _ _ H) as L. pose proof (geometry_bounds P (l_geo _ _ _ _ _ L)) as (G1 & G2 & G3 & G4 & G5 & G6). pose proof (l_sorted _ _ _ _ _ L) as So. pose proof (l_links _ _ _ _ _ L) as K. pose proof (l_gap _ _ _ _ _ L) as Hg. pose proof (l_cells _ _ _ _ _ L) as Hc.
  assert (∃ d' offs' top' frag', defragment_pack P = Some (set_data P d', 0) ∧ holds (set_data P d') cells offs' [] top' frag' ∧ (frag' = 0 ∨ frag' ≤ m) ∧ length d' = length (aData P)) as Hpack.
  { destruct (defragment_pack_spec P cells offs fl top frag H Hfree) as (d' & offs' & top' & E & H' & Hl). exists d', offs', top', 0. split; [done|]. split; [done|]. split; [by left|done]. }
  unfold defragmentPage. cbv zeta. rewrite (l_frag _ _ _ _ _ L). destruct (Z.leb_spec frag m) as [Hm|Hm]; [|done]. rewrite (links_first _ _ _ K).
  destruct fl as [|[a s] rest]; cbn [first_of]; [by rewrite (proj2 (Z.ltb_ge _ _)) by lia|]. cbn [sorted] in So. cbn [links] in K. destruct So as (S1 & S2 & S3 & S4), K as (K1 & K2 & K3). rewrite (proj2 (Z.ltb_ge _ _)), (proj2 (Z.eqb_neq _ _)) by lia. cbn [negb]. rewrite (links_first _ _ _ K3).
  assert (∀ b t, rest = [] ∧ b = 0 ∧ t = 0 ∨ rest = [(b, t)] → ∃ d' offs' top' frag', defragment_shift P a b = Some (set_data P d', 0) ∧ holds (set_data P d') cells offs' [] top' frag' ∧ (frag' = 0 ∨ frag' ≤ m) ∧ length d' = length (aData P)) as Hshift.
  { intros b t Hr. destruct (defragment_shift_spec P cells offs a s rest b t top frag H Hr Hfree) as (d' & offs' & top' & E & H' & Hl). exists d', offs', top', frag. split; [done|]. split; [done|]. split; [by right|done]. }
  destruct rest as [|[b t] rest]; cbn [first_of].
  - rewrite (proj2 (Z.ltb_ge _ _)) by lia. cbn [Z.eqb]. apply (Hshift 0 0). by left.
  - cbn [sorted links] in S4, K3. destruct S4 as (S4 & S5 & S6 & S7), K3 as (K3 & K4 & K5). rewrite (proj2 (Z.ltb_ge _ _)), (proj2 (Z.eqb_neq _ _)) by lia.
    pose proof (links_first _ _ _ K5) as Kb. unfold get2byte in Kb. destruct (rd (aData P) b) as [x|] eqn:Ex; [|done]. destruct (rd (aData P) (b + 1)) as [y|] eqn:Ey; [|done]. injection Kb as Kb. pose proof (is_bytes_rd _ _ _ G6 Ex) as Bx. pose proof (is_bytes_rd _ _ _ G6 Ey) as By. rewrite get2_byte in Kb by done. unfold is_u8 in *.
    destruct rest as [|[c u] rest].
    + cbn [first_of] in Kb. rewrite !(proj2 (Z.eqb_eq _ _)) by lia. apply (Hshift b t). by right.
    + cbn [first_of sorted] in *. destruct (Z.eqb_spec x 0) as [->|]; [|done]. rewrite (proj2 (Z.eqb_neq y 0)) by lia. done.
Qed.

(** ** Allocating space *)

(** All that is known of the cells but where the free space is. *)
Record cells_at (P : MemPage) (cells : list bytes) (offs : list Z) : Prop := {
  c_count : nCell P = Z.of_nat (length cells);
  c_flag : ∃ flag, rd (aData P) (hdrOffset P) = Some flag ∧ decodeFlags P flag = (0, ptype P);
  c_mask : maskPage P = pageSize (pBt P) - 1;
  c_nCell : get2byte (aData P) (hdrOffset P + 3) = Some (nCell P);
  c_pointers : pointers (aData P) (cellOffset P) offs;
  c_contents : contents (aData P) offs cells;
  c_cells : Forall (cell_ok P) cells }.

Lemma holds_cells P cells offs fl top frag : holds P cells offs fl top frag → cells_at P cells offs.
Proof. intros H. split; apply H. Qed.

Lemma cells_holds P cells offs fl top frag : cells_at P cells offs → layout P (spans offs cells) fl top frag → holds P cells offs fl top frag.
Proof. intros H L. split; [exact L|apply H..]. Qed.

Lemma cells_stable P cells offs d' : cells_at P cells offs → geometry P → length d' = length (aData P) → stable P (spans offs cells) d' → cells_at (set_data P d') cells offs.
Proof.
  intros H G Hl (A1 & A2 & A3 & A4). pose proof (geometry_bounds P G) as (G1 & G2 & G3 & G4 & G5 & G6). pose proof (c_count _ _ _ H) as Hn. assert (length offs = length cells) as Hlo by exact (Forall2_length _ _ _ (c_contents _ _ _ H)).
  split; cbn [set_data aData nCell nFree hdrOffset cellOffset ptype maskPage]; try apply H.
  - destruct (c_flag _ _ _ H) as (flag & F1 & F2). exists flag. split; [rewrite A1 by lia; done|done].
  - rewrite (get2byte_agree (aData P)) by (apply (agree_sub _ _ _ _ _ _ A2); lia). apply H.
  - apply (pointers_agree (aData P)); [apply H|]. apply (agree_sub _ _ _ _ _ _ A3); lia.
  - apply (contents_agree (aData P)); [apply H|done|done].
Qed.

Lemma set_data_same P : set_data P (aData P) = P.
Proof. by destruct P. Qed.

(** The part below the content. *)
Lemma take_top_spec P used fl top frag n : layout P used fl top frag → 4 ≤ n → cellOffset P + 2 * nCell P + n ≤ top →
  ∃ d', put2byte (aData P) (hdrOffset P + 5) (top - n) = Some d' ∧ layout (set_data P d') ((top - n, n) :: used) fl (top - n) frag ∧ stable P used d' ∧ length d' = length (aData P).
Proof.
  intros L Hn Ht. pose proof (geometry_bounds P (l_geo _ _ _ _ _ L)) as (G1 & G2 & G3 & G4 & G5 & G6). pose proof (l_gap _ _ _ _ _ L) as Hg. pose proof (l_cells _ _ _ _ _ L) as Hc. pose proof (sorted_inside _ _ _ (l_sorted _ _ _ _ _ L)) as I. pose proof (l_inside _ _ _ _ _ L) as Iu.
  destruct (put2byte_spec (aData P) (hdrOffset P + 5) (top - n)) as (d' & E & W & R); [lia..|]. exists d'. split; [done|]. split; [|split; [apply (stable_write _ _ _ _ _ _ _ _ L W); right; left; lia|apply W]].
  split; cbn [set_data aData nCell nFree hdrOffset cellOffset ptype]; try apply L.
  - apply geometry_data; [apply L|apply W|by apply W].
  - lia.
  - done.
  - rewrite (proj2 (proj2 W)) by lia. apply L.
  - apply (links_keep (aData P)); [apply L|apply (writes_agree _ _ _ _ _ _ W); lia|]. eapply Forall_impl; [exact I|]. intros x Hx. unfold inside in Hx. apply (writes_agree _ _ _ _ _ _ W). lia.
  - eapply sorted_weaken; [apply L|lia].
  - cbn [app disj]. split; [|apply L]. apply Forall_app. split; (eapply Forall_impl; [eassumption|]); unfold inside, apart; cbn; intros x; lia.
  - constructor; [unfold inside; cbn; lia|]. eapply Forall_impl; [exact Iu|]. unfold inside. intros x. lia.
  - rewrite total_cons. cbn [snd]. pose proof (l_sum _ _ _ _ _ L). lia.
Qed.

(** When the page has room for a cell and its pointer, space is found, and the
    room for the pointer stays. *)
Lemma allocateSpace_spec P cells offs fl top frag n : holds P cells offs fl top frag → nFree P = free_bytes P cells → 4 ≤ n → n + 2 ≤ nFree P →
  ∃ d' idx offs' fl' top' frag', allocateSpace P n = Some (set_data P d', 0, idx) ∧ cells_at (set_data P d') cells offs' ∧
    layout (set_data P d') ((idx, n) :: spans offs' cells) fl' top' frag' ∧ cellOffset P + 2 * nCell P + 2 ≤ top' ∧ length d' = length (aData P).
Proof.
  intros H Hfree Hn Hroom. pose proof (h_layout _ _ _ _ _ _ H) as L. pose proof (holds_cells _ _ _ _ _ _ H) as C. pose proof (geometry_bounds P (l_geo _ _ _ _ _ L)) as (G1 & G2 & G3 & G4 & G5 & G6). pose proof (l_gap _ _ _ _ _ L) as Hg. pose proof (l_cells _ _ _ _ _ L) as Hc.
  assert (∀ d top0 fl0 frag0 offs0, length d = length (aData P) → holds (set_data P d) cells offs0 fl0 top0 frag0 → cellOffset P + 2 * nCell P + 2 + n ≤ top0 →
    ∃ d' idx offs' fl' top' frag', (let* data := put2byte d (hdrOffset P + 5) (top0 - n) in Some (set_data P data, 0, top0 - n)) = Some (set_data P d', 0, idx) ∧ cells_at (set_data P d') cells offs' ∧ layout (set_data P d') ((idx, n) :: spans offs' cells) fl' top' frag' ∧ cellOffset P + 2 * nCell P + 2 ≤ top' ∧ length d' = length (aData P)) as Htake.
  { intros d top0 fl0 frag0 offs0 Hl H0 Ht. destruct (take_top_spec (set_data P d) _ _ _ _ n (h_layout _ _ _ _ _ _ H0) Hn) as (d' & E & L' & S' & Hl'); [cbn; lia|]. cbn in E, L', Hl'. rewrite E. exists d', (top0 - n), offs0, fl0, (top0 - n), frag0.
    split; [done|]. split; [|split; [exact L'|split; [lia|congruence]]]. apply (cells_stable (set_data P d)); [by eapply holds_cells|apply (h_layout _ _ _ _ _ _ H0)|done|done]. }
  unfold allocateSpace. cbv zeta. rewrite (l_top _ _ _ _ _ L). set (gap := cellOffset P + 2 * nCell P) in *.
  assert ((if u16 top <? gap then negb ((u16 top =? 0) && (usableSize (pBt P) =? 65536)) else usableSize (pBt P) <? u16 top) = false ∧ (if u16 top <? gap then 65536 else u16 top) = top) as [-> ->].
  { destruct (Z.eq_dec top 65536) as [Et|Et]; [|assert (u16 top = top) as -> by (apply Z.mod_small; lia); rewrite !(proj2 (Z.ltb_ge _ _)) by lia; done]. rewrite Et. change (u16 65536) with 0. rewrite (proj2 (Z.ltb_lt 0 gap)), (proj2 (Z.eqb_eq _ 65536)) by lia. done. }
  assert (∀ r, r = (if top <? gap + 2 + n then let* (pPage, rc) := defragmentPage P (Z.min 4 (nFree P - (2 + n))) in if negb (rc =? 0) then Some (pPage, rc, 0) else let* top := get2byteNotZero (aData pPage) (hdrOffset P + 5) in let* data := put2byte (aData pPage) (hdrOffset P + 5) (top - n) in Some (set_data pPage data, 0, top - n)
      else let* data := put2byte (aData P) (hdrOffset P + 5) (top - n) in Some (set_data P data, 0, top - n)) →
    ∃ d' idx offs' fl' top' frag', r = Some (set_data P d', 0, idx) ∧ cells_at (set_data P d') cells offs' ∧ layout (set_data P d') ((idx, n) :: spans offs' cells) fl' top' frag' ∧ gap + 2 ≤ top' ∧ length d' = length (aData P)) as Hgap.
  { intros r ->. destruct (Z.ltb_spec top (gap + 2 + n)) as [Ht|Ht]; [|rewrite <- (set_data_same P) in H; by apply (Htake _ _ _ _ _ eq_refl H)].
    destruct (defragmentPage_spec P cells offs fl top frag (Z.min 4 (nFree P - (2 + n))) H Hfree) as (d1 & offs1 & top1 & frag1 & E1 & H1 & Hf1 & L1). rewrite E1. cbn [Z.eqb negb]. pose proof (h_layout _ _ _ _ _ _ H1) as LL. cbn [set_data aData].
    assert (get2byteNotZero d1 (hdrOffset P + 5) = Some top1) as ->.
    { unfold get2byteNotZero. pose proof (l_top _ _ _ _ _ LL) as E. cbn in E. rewrite E. f_equal. pose proof (l_gap _ _ _ _ _ LL) as Hg1. cbn in Hg1. rewrite (land_low _ 16) by done. unfold u16. change (2 ^ 16) with 65536. dm. }
    apply (Htake d1 top1 [] frag1 offs1 L1 H1). pose proof (holds_free _ _ _ _ _ _ H1) as F1. unfold free_bytes in F1, Hfree. cbn in F1. change (total []) with 0 in F1. lia. }
  pose proof (l_links _ _ _ _ _ L) as K. pose proof (links_first _ _ _ K) as K1. unfold get2byte in K1. replace (hdrOffset P + 1 + 1) with (hdrOffset P + 2) in K1 by lia. destruct (rd _ (hdrOffset P + 1)) as [h1|] eqn:E1; [|done]. destruct (rd _ (hdrOffset P + 2)) as [h2|] eqn:E2; [|done]. injection K1 as K1.
  pose proof (is_bytes_rd _ _ _ G6 E1) as B1. pose proof (is_bytes_rd _ _ _ G6 E2) as B2. rewrite get2_byte in K1 by done.
  destruct ((negb (h2 =? 0) || negb (h1 =? 0)) && (gap + 2 <=? top)) eqn:Eh; [|rewrite set_data_same; by apply Hgap].
  apply andb_true_iff in Eh as [Eh Egap%Z.leb_le]. assert (fl ≠ []) as Hne by (intros ->; cbn in K1; unfold is_u8 in *; destruct (Z.eqb_spec h2 0), (Z.eqb_spec h1 0); [done|lia..]).
  destruct (pageFindSlot_spec P _ fl top frag n L Hn Hne) as [E|(d' & idx & fl' & frag' & E & L' & S' & Hl')]; rewrite E; [cbn [Z.eqb negb]; rewrite set_data_same; by apply Hgap|].
  exists d', idx, offs, fl', top, frag'. pose proof (l_inside _ _ _ _ _ L') as I. apply Forall_cons in I as [I _]. unfold inside in I. cbn in I.
  rewrite (proj2 (Z.leb_gt _ _)) by lia. split; [done|]. split; [apply cells_stable; [done|apply L|done|done]|]. done.
Qed.

(** ** Inserting *)

Lemma layout_change P P' used fl top frag : layout P used fl top frag → ptype P' = ptype P → hdrOffset P' = hdrOffset P → cellOffset P' = cellOffset P → aData P' = aData P →
  cellOffset P + 2 * nCell P' ≤ top → 0 ≤ nCell P' → layout P' used fl top frag.
Proof.
  intros L E1 E2 E3 E4 Hg Hn. split; rewrite ?E1, ?E2, ?E3, ?E4; try apply L; try done.
  - destruct (l_geo _ _ _ _ _ L) as (G1 & G2 & G3 & G4 & G5 & G6 & G7 & G8). unfold geometry. rewrite E1, E2, E3, E4. tauto.
  - pose proof (l_gap _ _ _ _ _ L). lia.
Qed.

Lemma total_perm l1 l2 : Permutation l1 l2 → total l1 = total l2.
Proof. induction 1; rewrite ?total_cons; lia. Qed.

Lemma layout_perm P used used' fl top frag : layout P used fl top frag → Permutation used used' → layout P used' fl top frag.
Proof.
  intros L E. split; try apply L.
  - eapply disj_perm; [|apply L]. by rewrite E.
  - rewrite <- E. apply L.
  - rewrite <- (total_perm _ _ E). apply L.
Qed.

Lemma spans_app o1 o2 c1 c2 : length o1 = length c1 → spans (o1 ++ o2) (c1 ++ c2) = spans o1 c1 ++ spans o2 c2.
Proof. intros. by apply zip_with_app. Qed.

Lemma pointers_app d o1 o2 : ∀ p, pointers d p (o1 ++ o2) ↔ pointers d p o1 ∧ pointers d (p + 2 * Z.of_nat (length o1)) o2.
Proof.
  induction o1 as [|o o1 IH]; intros p; cbn [app length].
  - rewrite Z.add_0_r. split; [intros H; split; [intros k o Hk; by destruct k|done]|tauto].
  - rewrite !pointers_cons, IH. replace (p + 2 + 2 * Z.of_nat (length o1)) with (p + 2 * Z.of_nat (S (length o1))) by lia. tauto.
Qed.

Lemma contents_app d o1 o2 c1 c2 : length o1 = length c1 → contents d (o1 ++ o2) (c1 ++ c2) ↔ contents d o1 c1 ∧ contents d o2 c2.
Proof. intros Hl. unfold contents. split; [intros H; by apply Forall2_app_inv in H|intros [H1 H2]; by apply Forall2_app]. Qed.

(** The layout, when bytes change that are no part of it. *)
Lemma layout_keep P d' used fl top frag : layout P used fl top frag → length d' = length (aData P) → is_bytes d' → agree (aData P) d' (hdrOffset P + 1) (hdrOffset P + 3) → agree (aData P) d' (hdrOffset P + 5) (hdrOffset P + 8) →
  Forall (λ x, agree (aData P) d' x.1 (x.1 + 4)) fl → layout (set_data P d') used fl top frag.
Proof.
  intros L Hl Hb A1 A2 A3. split; cbn [set_data aData nCell nFree hdrOffset cellOffset ptype]; try apply L.
  - by apply geometry_data; [apply L|..].
  - rewrite (get2byte_agree (aData P)) by (apply (agree_sub _ _ _ _ _ _ A2); lia). apply L.
  - rewrite A2 by lia. apply L.
  - apply (links_keep (aData P)); [apply L|apply (agree_sub _ _ _ _ _ _ A1); lia|done].
Qed.

(** Writing in a part that is in use. *)
Lemma layout_write P d' idx n used fl top frag i m : layout P ((idx, n) :: used) fl top frag → writes (aData P) d' i m → idx ≤ i → i + m ≤ idx + n →
  layout (set_data P d') ((idx, n) :: used) fl top frag ∧ stable P used d'.
Proof.
  intros L W H1 H2. pose proof (geometry_bounds P (l_geo _ _ _ _ _ L)) as (G1 & G2 & G3 & G4 & G5 & G6). pose proof (l_gap _ _ _ _ _ L) as Hg. pose proof (l_cells _ _ _ _ _ L) as Hc. pose proof (l_inside _ _ _ _ _ L) as I. apply Forall_cons in I as [I Iu]. unfold inside in I. cbn in I.
  pose proof (l_disj _ _ _ _ _ L) as D. cbn [app disj] in D. destruct D as [D _]. apply Forall_app in D as [D1 D2]. split.
  - apply (layout_keep P d' _ _ _ _ L); [apply W|apply W, G6|apply (writes_agree _ _ _ _ _ _ W); lia|apply (writes_agree _ _ _ _ _ _ W); lia|]. pose proof (sorted_inside _ _ _ (l_sorted _ _ _ _ _ L)) as J. rewrite Forall_forall in *.
    intros x Hx. specialize (D2 x Hx). specialize (J x Hx). unfold apart, inside in *. cbn in D2. apply (writes_agree _ _ _ _ _ _ W). lia.
  - repeat split; try (apply (writes_agree _ _ _ _ _ _ W); lia). rewrite Forall_forall in *. intros x Hx. specialize (D1 x Hx). unfold apart in D1. cbn in D1. apply (writes_agree _ _ _ _ _ _ W). lia.
Qed.

(** The count of cells in the header. *)
Lemma count_up d i n : 0 ≤ i → is_bytes d → get2byte d i = Some n → n + 1 < 65536 →
  ∃ lo d1 d', rd d (i + 1) = Some lo ∧ wr d (i + 1) (u8 (lo + 1)) = Some d1 ∧ (if u8 (lo + 1) =? 0 then let* hi := rd d1 i in wr d1 i (u8 (hi + 1)) else Some d1) = Some d' ∧ writes d d' i 2 ∧ get2byte d' i = Some (n + 1).
Proof.
  intros Hi Hb H Hn. pose proof (get2byte_lt _ _ _ H) as Hl. unfold get2byte in H. destruct (rd d i) as [hi|] eqn:E1; [|done]. destruct (rd d (i + 1)) as [lo|] eqn:E2; [|done]. injection H as H. pose proof (is_bytes_rd _ _ _ Hb E1) as B1. pose proof (is_bytes_rd _ _ _ Hb E2) as B2. rewrite get2_byte in H by done. unfold is_u8 in *.
  exists lo. destruct (wr_spec d (i + 1) (u8 (lo + 1))) as (d1 & Ew & W1 & R1); [lia|apply is_u8_u8|]. exists d1. pose proof (proj1 W1) as L1. destruct (Z.eqb_spec (u8 (lo + 1)) 0) as [E|E].
  - assert (lo = 255) by (unfold u8 in E; dm). rewrite (proj2 (proj2 W1)), E1 by lia. destruct (wr_spec d1 i (u8 (hi + 1))) as (d2 & Ew2 & W2 & R2); [lia|apply is_u8_u8|]. exists d2. do 3 (split; [done|]). split.
    + split; [destruct W2 as [? _]; congruence|]. split; [intros; by apply W2, W1|]. intros j Hj. rewrite (proj2 (proj2 W2)), (proj2 (proj2 W1)) by lia. done.
    + unfold get2byte. rewrite R2, (proj2 (proj2 W2)), R1 by lia. rewrite get2_byte by apply is_u8_u8. f_equal. rewrite E. unfold u8. rewrite Z.mod_small by lia. lia.
  - exists d1. do 3 (split; [done|]). split; [by apply (writes_weaken _ _ _ _ _ _ W1); lia|]. unfold get2byte. rewrite (proj2 (proj2 W1)), E1, R1 by lia. rewrite get2_byte by (done || apply is_u8_u8). f_equal.
    assert (lo ≠ 255) by (intros ->; done). unfold u8. rewrite Z.mod_small by lia. lia.
Qed.

Lemma pointers_move d d' p q offs : pointers d p offs → (∀ j, 0 ≤ j < 2 * Z.of_nat (length offs) → rd d' (q + j) = rd d (p + j)) → pointers d' q offs.
Proof.
  intros H M k o Hk. rewrite <- (H k o Hk). apply lookup_lt_Some in Hk. unfold get2byte. rewrite <- !Z.add_assoc, !M by lia. done.
Qed.

Lemma insert_pointer_spec ptrmap P d c1 c2 c o1 o2 idx fl top frag pCell : layout (set_data P d) ((idx, Z.of_nat (length c)) :: spans (o1 ++ o2) (c1 ++ c2)) fl top frag → cells_at (set_data P d) (c1 ++ c2) (o1 ++ o2) →
  length o1 = length c1 → sub d idx (Z.of_nat (length c)) = Some c → cell_ok P c → cellOffset P + 2 * nCell P + 2 ≤ top →
  ∃ d', let P' := set_data (set_nCell P (nCell P + 1)) d' in
    insert_pointer ptrmap P d (Z.of_nat (length c1)) idx pCell = Some (P', if autoVacuum (pBt P) then ptrmap P' pCell else 0) ∧
    holds P' (c1 ++ c :: c2) (o1 ++ idx :: o2) fl top frag ∧ length d' = length d.
Proof.
  intros L C Ho1 Hsub Hok Hroom. pose proof (geometry_bounds _ (l_geo _ _ _ _ _ L)) as (G1 & G2 & G3 & G4 & G5 & G6). pose proof (l_gap _ _ _ _ _ L) as Hg. pose proof (l_cells _ _ _ _ _ L) as Hc. pose proof (c_count _ _ _ C) as Hn. cbn in G1, G2, G3, G4, G5, G6, Hg, Hc, Hn. rewrite length_app in Hn.
  pose proof (Forall2_length _ _ _ (c_contents _ _ _ C)) as Hlo. rewrite !length_app in Hlo. assert (length o2 = @length bytes c2) as Ho2 by lia. clear Hlo. pose proof (c_pointers _ _ _ C) as Hp. cbn in Hp. apply pointers_app in Hp as [Hp1 Hp2]. set (i := Z.of_nat (length c1)) in *. replace (Z.of_nat (length o1)) with i in Hp2 by lia.
  pose proof (l_inside _ _ _ _ _ L) as I. apply Forall_cons in I as [Ic Iu]. unfold inside in Ic. cbn in Ic.
  unfold insert_pointer. cbv zeta. replace (cellOffset P + i * 2) with (cellOffset P + 2 * i) by lia. set (p := cellOffset P + 2 * i) in *.
  destruct (memmove_spec d (p + 2) p (2 * (nCell P - i))) as (d1 & E1 & W1 & R1); [lia..|done|]. rewrite E1. pose proof (proj1 W1) as L1.
  destruct (put2byte_spec d1 p idx) as (d2 & E2 & W2 & R2); [lia..|]. rewrite E2. pose proof (proj1 W2) as L2. cbn [set_nCell hdrOffset nCell pBt ptype].
  destruct (count_up d2 (hdrOffset P + 3) (nCell P)) as (lo & d3 & d4 & E3 & E4 & E5 & W4 & R4); [lia|by apply W2, W1|rewrite (writes_get2 _ _ _ _ _ W2), (writes_get2 _ _ _ _ _ W1) by lia; apply C|lia|].
  replace (hdrOffset P + 3 + 1) with (hdrOffset P + 4) in * by lia. rewrite E3, E4, E5. exists d4. assert (u16 (nCell P + 1) = nCell P + 1) as -> by (apply Z.mod_small; lia). split; [done|]. pose proof (proj1 W4) as L4. split; [|congruence].
  assert (is_bytes d4) as B4 by (by apply W4, W2, W1).
  assert (∀ j, ¬ hdrOffset P + 3 ≤ j < hdrOffset P + 5 → ¬ p ≤ j < cellOffset P + 2 * nCell P + 2 → rd d4 j = rd d j) as Hout.
  { intros j H1 H2. rewrite (proj2 (proj2 W4)), (proj2 (proj2 W2)), (proj2 (proj2 W1)) by lia. done. }
  assert (layout (set_data P d4) (spans (o1 ++ idx :: o2) (c1 ++ c :: c2)) fl top frag) as L'.
  { apply (layout_perm _ ((idx, Z.of_nat (length c)) :: spans (o1 ++ o2) (c1 ++ c2))); [|rewrite !spans_app by done; cbn [spans zip_with]; apply Permutation_middle].
    apply (layout_keep (set_data P d) d4 _ _ _ _ L); [cbn; congruence|done|intros j Hj; apply Hout; cbn in Hj; lia|intros j Hj; apply Hout; cbn in Hj; lia|]. eapply Forall_impl; [eapply sorted_inside; apply L|]. unfold inside. intros x Hx j Hj. apply Hout; lia. }
  apply cells_holds; [|apply (layout_change _ _ _ _ _ _ L'); try done; cbn; lia]. split; cbn [set_data set_nCell aData nCell hdrOffset cellOffset ptype maskPage pBt].
  - rewrite length_app. cbn [length]. lia.
  - destruct (c_flag _ _ _ C) as (flag & F1 & F2). cbn in F1, F2. exists flag. split; [rewrite Hout by lia; done|done].
  - apply C.
  - exact R4.
  - apply pointers_app. replace (Z.of_nat (length o1)) with i by lia. fold p. split; [apply (pointers_agree d); [done|intros j Hj; apply Hout; lia]|]. apply pointers_cons. split.
    + rewrite (writes_get2 _ _ _ _ _ W4), R2 by lia. f_equal. apply Z.mod_small. lia.
    + apply (pointers_move d _ p); [done|]. intros j Hj. rewrite (proj2 (proj2 W4)), (proj2 (proj2 W2)) by lia. apply R1. lia.
  - pose proof (c_contents _ _ _ C) as Hcont. cbn in Hcont. assert (∀ o1 c1, contents d o1 c1 → Forall (inside top (usableSize (pBt P))) (spans o1 c1) → contents d4 o1 c1) as Hkeep.
    { intros o1' c1' H0 HI. apply (contents_agree d); [done|congruence|]. eapply Forall_impl; [exact HI|]. unfold inside. intros x Hx j Hj. apply Hout; lia. }
    rewrite spans_app in Iu by done. apply Forall_app in Iu as [Iu1 Iu2]. apply contents_app in Hcont as [Hc1 Hc2]; [|done]. apply contents_app; [done|]. split; [by apply Hkeep|]. constructor; [|by apply Hkeep].
    rewrite (sub_agree d); [done|congruence|]. intros j Hj. apply Hout; lia.
  - pose proof (c_cells _ _ _ C) as Hcs. apply Forall_app in Hcs as [Hc1 Hc2]. apply Forall_app. split; [done|]. by constructor.
Qed.

(** ** Pages as lists of cells *)

(** The page stands for the list of its cells. *)
Definition page_is (P : MemPage) (cells : list bytes) : Prop :=
  (∃ offs fl top frag, holds P cells offs fl top frag) ∧ nFree P = free_bytes P cells.

Lemma holds_change P P' cells offs fl top frag : holds P cells offs fl top frag → ptype P' = ptype P → hdrOffset P' = hdrOffset P → cellOffset P' = cellOffset P → maskPage P' = maskPage P → nCell P' = nCell P → aData P' = aData P → holds P' cells offs fl top frag.
Proof.
  intros H E1 E2 E3 E4 E5 E6. pose proof (h_layout _ _ _ _ _ _ H) as L. split; rewrite ?E1, ?E2, ?E3, ?E4, ?E5, ?E6; try apply H.
  apply (layout_change P); try done; rewrite E5; apply L.
Qed.

(** The content of a new cell is put where space was found. *)
Lemma insert_at ptrmap P c1 c2 c pCell : page_is P (c1 ++ c2) → cell_ok P c → Z.of_nat (length c) + 2 ≤ nFree P →
  ∃ d' idx, allocateSpace P (Z.of_nat (length c)) = Some (set_data P d', 0, idx) ∧ 0 ≤ idx ∧ idx + Z.of_nat (length c) ≤ Z.of_nat (length d') ∧ is_bytes d' ∧
  ∀ k d2, writes d' d2 idx (Z.of_nat (length c)) → sub d2 idx (Z.of_nat (length c)) = Some c →
    let P1 := set_nFree (set_data P d') k in
    ∃ d3, let P' := set_data (set_nCell P1 (nCell P + 1)) d3 in
      insert_pointer ptrmap P1 d2 (Z.of_nat (length c1)) idx pCell = Some (P', if autoVacuum (pBt P) then ptrmap P' pCell else 0) ∧
      ∃ offs fl top frag, holds P' (c1 ++ c :: c2) offs fl top frag.
Proof.
  intros [(offs & fl & top & frag & H) Hfree] Hok Hroom. pose proof (h_layout _ _ _ _ _ _ H) as L0. pose proof (cell_ok_length _ _ (proj1 (l_geo _ _ _ _ _ L0)) Hok) as Hc4.
  destruct (allocateSpace_spec P _ offs fl top frag (Z.of_nat (length c)) H Hfree) as (d' & idx & offs' & fl' & top' & frag' & E & C & L & Ht & Hl); [lia|lia|]. exists d', idx. split; [done|].
  pose proof (geometry_bounds _ (l_geo _ _ _ _ _ L)) as (G1 & G2 & G3 & G4 & G5 & G6). cbn in G1, G2, G3, G4, G5, G6. pose proof (l_inside _ _ _ _ _ L) as I. apply Forall_cons in I as [I _]. unfold inside in I. cbn in I. pose proof (l_gap _ _ _ _ _ L) as Hg. pose proof (l_cells _ _ _ _ _ L) as Hc. cbn in Hg, Hc.
  split; [lia|]. split; [lia|]. split; [done|]. intros k d2 W Hsub P1. destruct (layout_write _ _ _ _ _ _ _ _ _ _ L W ltac:(lia) ltac:(lia)) as [L2 S2]. cbn [set_data aData] in L2, S2.
  assert (cells_at (set_data (set_data P d') d2) (c1 ++ c2) offs') as C2 by (apply cells_stable; [done|apply L|apply W|done]).
  assert (length offs' = length (c1 ++ c2)) as Hlo by exact (Forall2_length _ _ _ (c_contents _ _ _ C)). rewrite length_app in Hlo.
  set (o1 := take (length c1) offs'). set (o2 := drop (length c1) offs'). assert (offs' = o1 ++ o2) as Ho by (symmetry; apply take_drop). assert (length o1 = length c1) as Ho1 by (unfold o1; rewrite length_take; lia). rewrite Ho in L2, C2.
  destruct (insert_pointer_spec ptrmap P1 d2 c1 c2 c o1 o2 idx fl' top' frag' pCell) as (d3 & E3 & H3 & _); [apply (layout_change _ _ _ _ _ _ L2); try done; cbn; lia| |done|done|done|cbn; lia|].
  { destruct C2 as [C2a C2b C2c C2d C2e C2f C2g]. split; done. }
  exists d3. split; [exact E3|]. by exists (o1 ++ idx :: o2), fl', top', frag'.
Qed.

Lemma free_insert P P' c1 c2 c : ptype P' = ptype P → cellOffset P' = cellOffset P → nFree P = free_bytes P (c1 ++ c2) → nFree P' = nFree P - (2 + Z.of_nat (length c)) → nFree P' = free_bytes P' (c1 ++ c :: c2).
Proof. intros E1 E2 E3 E4. rewrite E4, E3. unfold free_bytes. rewrite E1, E2, !length_app, !sizes_app, sizes_cons. cbn [length]. lia. Qed.

Lemma page_is_free P cells : page_is P cells → nFree P ≤ usableSize (pBt P) - 8.
Proof.
  intros [(offs & fl & top & frag & H) ->]. pose proof (geometry_bounds _ (l_geo _ _ _ _ _ (h_layout _ _ _ _ _ _ H))) as (G1 & G2 & G3 & G4 & G5 & G6). pose proof (sizes_nonneg cells). unfold free_bytes. lia.
Qed.

Lemma insertCellFast_spec ptrmap P c1 c2 c r : page_is P (c1 ++ c2) → cell_ok P c → Z.of_nat (length c) + 2 ≤ nFree P →
  ∃ P', insertCellFast 0 ptrmap P (Z.of_nat (length c1)) (c ++ r) (Z.of_nat (length c)) = Some (P', if autoVacuum (pBt P) then ptrmap P' (c ++ r) else 0) ∧ page_is P' (c1 ++ c :: c2) ∧
    ptype P' = ptype P ∧ hdrOffset P' = hdrOffset P ∧ ovfl P' = ovfl P ∧ isInit P' = isInit P.
Proof.
  intros HP Hok Hroom. pose proof HP as [(offs & fl & top & frag & H) Hfree]. pose proof (h_layout _ _ _ _ _ _ H) as L0. pose proof (cell_ok_length _ _ (proj1 (l_geo _ _ _ _ _ L0)) Hok) as Hc4. pose proof (geometry_bounds _ (l_geo _ _ _ _ _ L0)) as (G1 & G2 & _).
  pose proof (page_is_free _ _ HP) as Hf8. destruct (insert_at ptrmap P c1 c2 c (c ++ r) HP Hok Hroom) as (d' & idx & E & Hi & Hl & Hb & Hins). unfold insertCellFast. rewrite (proj2 (Z.ltb_ge _ _)) by lia. cbn [Z.eqb negb]. rewrite E. cbn [Z.eqb negb].
  assert (sub (c ++ r) 0 (Z.of_nat (length c)) = Some c) as ->.
  { unfold sub. rewrite decide_True by (rewrite length_app; lia). rewrite Nat2Z.id, drop_0. by rewrite take_app_length. }
  cbn [set_nFree set_data aData]. destruct (splice_spec d' idx c Hi Hl (proj1 Hok)) as (d2 & E2 & W2 & R2). rewrite E2. assert (u16 (2 + Z.of_nat (length c)) = 2 + Z.of_nat (length c)) as Eu by (apply Z.mod_small; lia). rewrite Eu.
  destruct (Hins (nFree (set_data P d') - (2 + Z.of_nat (length c))) d2 W2) as (d3 & E3 & H3); [apply sub_rd; [lia|done|rewrite (proj1 W2); lia|done]|].
  eexists. split; [exact E3|]. split; [split; [exact H3|by apply (free_insert P)]|]. done.
Qed.

(** ** Dropping *)

(** A page with nothing on it. *)
Lemma empty_page (P : MemPage) top : top = usableSize (pBt P) → geometry P → nCell P = 0 → maskPage P = pageSize (pBt P) - 1 → (∃ flag, rd (aData P) (hdrOffset P) = Some flag ∧ decodeFlags P flag = (0, ptype P)) →
  (∀ j, hdrOffset P + 1 ≤ j < hdrOffset P + 5 → rd (aData P) j = Some 0) → get2byte (aData P) (hdrOffset P + 5) = Some (u16 (usableSize (pBt P))) → rd (aData P) (hdrOffset P + 7) = Some 0 →
  holds P [] [] [] top 0.
Proof.
  intros -> G Hn Hm Hflag Hz Ht Hf. pose proof (geometry_bounds P G) as (G1 & G2 & G3 & G4 & G5 & G6). assert (∀ j, hdrOffset P + 1 ≤ j < hdrOffset P + 4 → get2byte (aData P) j = Some 0) as Hz2 by (intros j Hj; unfold get2byte; by rewrite !Hz by lia).
  split; try done.
  - split; try done; try lia.
    + cbn [links]. apply Hz2. lia.
    + change (total []) with 0. change (total (spans [] [])) with 0. lia.
  - rewrite Hn. apply Hz2. lia.
  - constructor.
Qed.

Lemma drop_pointer_spec P d c1 c2 o1 o o2 fl top frag : layout (set_data P d) (spans (o1 ++ o2) (c1 ++ c2)) fl top frag → length o1 = length c1 → length o2 = @length bytes c2 → nCell P = Z.of_nat (length (c1 ++ c2)) + 1 → (∃ flag, rd d (hdrOffset P) = Some flag ∧ decodeFlags P flag = (0, ptype P)) → maskPage P = pageSize (pBt P) - 1 →
  pointers d (cellOffset P) (o1 ++ o :: o2) → contents d (o1 ++ o2) (c1 ++ c2) → Forall (cell_ok P) (c1 ++ c2) →
  let ptr := cellOffset P + 2 * Z.of_nat (length c1) in
  ∃ d1 d2, memmove d ptr (ptr + 2) (2 * (nCell P - 1 - Z.of_nat (length c1))) = Some d1 ∧ put2byte d1 (hdrOffset P + 3) (nCell P - 1) = Some d2 ∧
    ∀ k, holds (set_nFree (set_data (set_nCell P (nCell P - 1)) d2) k) (c1 ++ c2) (o1 ++ o2) fl top frag.
Proof.
  intros L Ho1 Ho2 Hn Hflag Hmask Hp Hc Hok ptr. rewrite length_app in Hn. apply pointers_app in Hp as [Hp1 Hp2]. apply pointers_cons in Hp2 as [_ Hp2]. set (i := Z.of_nat (length c1)) in *. replace (Z.of_nat (length o1)) with i in Hp2 by lia. fold ptr in Hp2.
  pose proof (geometry_bounds _ (l_geo _ _ _ _ _ L)) as (G1 & G2 & G3 & G4 & G5 & G6). pose proof (l_gap _ _ _ _ _ L) as Hg. cbn in G1, G2, G3, G4, G5, G6, Hg.
  destruct (memmove_spec d ptr (ptr + 2) (2 * (nCell P - 1 - i))) as (d1 & E1 & W1 & R1); [lia..|done|]. pose proof (proj1 W1) as L1.
  destruct (put2byte_spec d1 (hdrOffset P + 3) (nCell P - 1)) as (d2 & E2 & W2 & R2); [lia..|]. pose proof (proj1 W2) as L2. exists d1, d2. split; [done|]. split; [done|]. intros k.
  assert (∀ j, ¬ hdrOffset P + 3 ≤ j < hdrOffset P + 5 → ¬ ptr ≤ j < ptr + 2 * (nCell P - 1 - i) → rd d2 j = rd d j) as Hout by (intros j H1 H2; rewrite (proj2 (proj2 W2)), (proj2 (proj2 W1)) by lia; done).
  assert (layout (set_data P d2) (spans (o1 ++ o2) (c1 ++ c2)) fl top frag) as L'.
  { apply (layout_keep (set_data P d) d2 _ _ _ _ L); [cbn; congruence|by apply W2, W1|intros j Hj; apply Hout; cbn in Hj; lia|intros j Hj; apply Hout; cbn in Hj; lia|]. eapply Forall_impl; [eapply sorted_inside; apply L|]. unfold inside. intros x Hx j Hj. apply Hout; lia. }
  apply cells_holds; [|apply (layout_change _ _ _ _ _ _ L'); try done; cbn; lia]. split; cbn [set_data set_nCell set_nFree aData nCell hdrOffset cellOffset ptype maskPage pBt]; try done.
  - rewrite length_app. lia.
  - destruct Hflag as (flag & F1 & F2). exists flag. split; [rewrite Hout by lia; done|done].
  - rewrite R2. f_equal. apply Z.mod_small. lia.
  - apply pointers_app. replace (Z.of_nat (length o1)) with i by lia. fold ptr. split; [apply (pointers_agree d); [done|intros j Hj; apply Hout; lia]|].
    apply (pointers_move d _ (ptr + 2)); [done|]. intros j Hj. rewrite (proj2 (proj2 W2)) by lia. apply R1. lia.
  - apply (contents_agree d); [done|congruence|]. eapply Forall_impl; [apply L|]. unfold inside. cbn. intros x Hx j Hj. apply Hout; lia.
Qed.

(** The buffer of a cell whose pointer goes. *)
Lemma dropCell_spec P c1 c2 c : page_is P (c1 ++ c :: c2) →
  ∃ P', dropCell P (Z.of_nat (length c1)) (Z.of_nat (length c)) 0 = Some (P', 0) ∧ page_is P' (c1 ++ c2) ∧
    ptype P' = ptype P ∧ hdrOffset P' = hdrOffset P ∧ ovfl P' = ovfl P ∧ isInit P' = isInit P.
Proof.
  intros [(offs & fl & top & frag & H) Hfree]. pose proof (h_layout _ _ _ _ _ _ H) as L. pose proof (holds_cells _ _ _ _ _ _ H) as C. pose proof (holds_length _ _ _ _ _ _ H) as Hlo. rewrite length_app in Hlo. cbn [length] in Hlo.
  assert (∃ o1 o o2, offs = o1 ++ o :: o2 ∧ length o1 = length c1 ∧ length o2 = @length bytes c2) as (o1 & o & o2 & -> & Ho1 & Ho2).
  { destruct (lookup_lt_is_Some_2 offs (length c1)) as [o Ho]; [lia|]. exists (take (length c1) offs), o, (drop (S (length c1)) offs). split; [symmetry; by apply take_drop_middle|]. rewrite length_take, length_drop. lia. }
  pose proof (h_pointers _ _ _ _ _ _ H) as Hp. apply pointers_app in Hp as [Hp1 Hp2]. apply pointers_cons in Hp2 as [Hp2 Hp3]. pose proof (h_contents _ _ _ _ _ _ H) as Hcont. apply contents_app in Hcont as [Hc1 Hc2]; [|done]. inversion Hc2 as [|? ? ? ? Hoc Hc3]; subst.
  pose proof (geometry_bounds _ (l_geo _ _ _ _ _ L)) as (G1 & G2 & G3 & G4 & G5 & G6). pose proof (l_gap _ _ _ _ _ L) as Hg. pose proof (h_count _ _ _ _ _ _ H) as Hn. rewrite length_app in Hn. cbn [length] in Hn.
  pose proof (l_inside _ _ _ _ _ L) as I. rewrite spans_app in I by done. cbn [spans zip_with] in I. apply Forall_app in I as [I1 I2]. apply Forall_cons in I2 as [I I2]. unfold inside in I. cbn in I. set (i := Z.of_nat (length c1)) in *. replace (Z.of_nat (length o1)) with i in * by lia.
  apply (layout_perm _ _ ((o, Z.of_nat (length c)) :: spans (o1 ++ o2) (c1 ++ c2))) in L; [|rewrite !spans_app by done; cbn [spans zip_with]; symmetry; apply Permutation_middle].
  destruct (freeSpace_spec P _ _ _ _ _ _ L) as (d & fl' & top' & frag' & E & L' & S' & Hl). unfold dropCell. cbn [Z.eqb negb]. rewrite Hp2. rewrite (proj2 (Z.ltb_ge _ _)) by lia. rewrite E. cbn [Z.eqb negb set_nFree set_data nCell].
  assert (u16 (nCell P - 1) = nCell P - 1) as -> by (apply Z.mod_small; lia).
  destruct S' as (A1 & A2 & A3 & A4). pose proof (geometry_bounds _ (l_geo _ _ _ _ _ L')) as (_ & _ & G3' & _ & _ & G6'). cbn in G3', G6'. pose proof (l_gap _ _ _ _ _ L') as Hg'. cbn in Hg'.
  pose proof (h_cells _ _ _ _ _ _ H) as Hok. apply Forall_app in Hok as [Hok1 Hok2]. apply Forall_cons in Hok2 as [_ Hok2]. destruct (h_flag _ _ _ _ _ _ H) as (flag & F1 & F2).
  assert (∀ k, k = nFree P + Z.of_nat (length c) + 2 → k = free_bytes P (c1 ++ c2)) as Hk by (intros k ->; rewrite Hfree; unfold free_bytes; rewrite !length_app, !sizes_app, sizes_cons; cbn [length]; lia).
  destruct (Z.eqb_spec (nCell P - 1) 0) as [E0|E0]; cbn [set_nCell set_nFree set_data aData pBt ptype hdrOffset cellOffset].
  - assert (c1 = [] ∧ c2 = []) as [-> ->] by (destruct c1, c2; cbn in *; try done; lia).
    destruct (memset_spec d (hdrOffset P + 1) 0 4) as (d1 & E1 & W1 & R1); [lia..|by unfold is_u8|]. rewrite E1. pose proof (proj1 W1) as L1.
    destruct (wr_spec d1 (hdrOffset P + 7) 0) as (d2 & E2 & W2 & R2); [lia|by unfold is_u8|]. rewrite E2. pose proof (proj1 W2) as L2.
    destruct (put2byte_spec d2 (hdrOffset P + 5) (usableSize (pBt P))) as (d3 & E3 & W3 & R3); [lia..|]. rewrite E3. pose proof (proj1 W3) as L3. eexists. split; [done|]. split; [split|done].
    + exists [], [], (usableSize (pBt P)), 0. apply empty_page; cbn [set_data set_nCell set_nFree aData nCell hdrOffset cellOffset ptype maskPage pBt].
      * done.
      * pose proof (geometry_data P d3 (l_geo _ _ _ _ _ L) ltac:(congruence) ltac:(by apply W3, W2, W1)) as G. exact G.
      * done.
      * apply H.
      * exists flag. split; [|done]. rewrite (proj2 (proj2 W3)), (proj2 (proj2 W2)), (proj2 (proj2 W1)), A1 by lia. done.
      * intros j Hj. rewrite (proj2 (proj2 W3)), (proj2 (proj2 W2)), R1 by lia. done.
      * exact R3.
      * rewrite (proj2 (proj2 W3)), R2 by lia. done.
    + pose proof (l_geo _ _ _ _ _ L) as (_ & _ & Hco & _). unfold free_bytes. change (sizes ([] ++ [])) with 0. cbn in *. lia.
  - destruct (drop_pointer_spec P d c1 c2 o1 o o2 fl' top' frag') as (d1 & d2 & E1 & E2 & H'); try done.
    + rewrite length_app. lia.
    + exists flag. split; [rewrite A1 by lia; done|done].
    + apply H.
    + apply (pointers_agree (aData P)); [apply H|]. apply (agree_sub _ _ _ _ _ _ A3); [lia|]. rewrite length_app. cbn [length]. lia.
    + apply (contents_agree (aData P)); [by apply contents_app|done|done].
    + by apply Forall_app.
    + fold i in E1. rewrite E1, E2. eexists. split; [done|]. split; [split; [exists (o1 ++ o2), fl', top', frag'; apply H'|by apply Hk]|done].
Qed.

(** ** Cells with a child *)

Definition be4 (v : Z) : bytes := [u8 (Z.shiftr v 24); u8 (Z.shiftr v 16); u8 (Z.shiftr v 8); u8 v].

Lemma put4byte_spec d i v : 0 ≤ i → i + 4 ≤ Z.of_nat (length d) → ∃ d', put4byte d i v = Some d' ∧ splice d i (be4 v) = Some d'.
Proof.
  intros Hi Hl. unfold put4byte. rewrite decide_True by done. remember (drop (Z.to_nat i) d) as q eqn:Eq. assert (4 ≤ Z.of_nat (length q)) as Hq by (subst q; rewrite length_drop; lia).
  destruct q as [|a [|b [|c [|e q]]]]; simpl in Hq; try lia. unfold sqlite3Put4byte. rewrite wr_0. do 3 (rewrite wr_Some by (simpl; lia); simpl). eexists. split; [done|]. unfold splice. rewrite decide_True by (simpl; lia). do 2 f_equal. cbn [be4 app length]. do 4 f_equal. rewrite <- drop_drop, <- Eq. done.
Qed.

Lemma be4_bytes v : is_bytes (be4 v).
Proof. repeat constructor; apply is_u8_u8. Qed.

(** Only the bytes after the child page decide the size. *)
Lemma cell_size_child P p q n : page_type P → childPtrSize P = 4 → is_bytes p → cell_size P p = Some n → agree p q 4 n → cell_size P q = Some n ∧ 5 ≤ n.
Proof.
  intros HP H4 Hp H Hq. pose proof HP as (_ & _ & Hu & HT)%page_type_cases. destruct (cell_size_spec _ _ _ HP Hp H) as [Hn _].
  unfold cell_size in *. destruct HT as [(E4 & _)|[(E4 & _)|[(_ & E & _)|(_ & E & _)]]]; [lia|lia| |]; rewrite E in *; clear E.
  - unfold cellSizePtr in *. destruct (payload_size p 4) as [[j v]|] eqn:M; [|done]. destruct (payload_size_spec _ _ _ _ Hp M) as (B1 & B2 & B3). injection H as <-. destruct (size_of_spec P v j false HP B2) as [B6 B7]; [lia|]. rewrite B3 by (apply (agree_sub _ _ _ _ _ _ Hq); lia). split; [done|lia].
  - unfold cellSizePtrNoPayload in *. destruct (varint_end 9 p 4 13) as [j|] eqn:M; [|done]. destruct (varint_end_spec _ _ _ _ _ M) as [B1 B2]; [lia|]. injection H as <-. unfold u16 in *. rewrite Z.mod_small in * by lia. rewrite B2 by (apply (agree_sub _ _ _ _ _ _ Hq); lia). rewrite Z.mod_small by lia. split; [done|lia].
Qed.

Lemma cell_child P c v : page_type P → childPtrSize P = 4 → cell_ok P c → cell_ok P (be4 v ++ drop 4 c) ∧ length (be4 v ++ drop 4 c) = length c ∧ 5 ≤ Z.of_nat (length c).
Proof.
  intros HP H4 Hok. pose proof (cell_ok_length _ _ HP Hok) as Hl. destruct Hok as [Hb Hc]. assert (length (be4 v ++ drop 4 c) = length c) as El by (rewrite length_app, length_drop; cbn [be4 length]; lia).
  assert (∀ r, cell_size P ((be4 v ++ drop 4 c) ++ r) = Some (Z.of_nat (length c)) ∧ 5 ≤ Z.of_nat (length c)) as H.
  { intros r. apply (cell_size_child P c); [done|done|done|specialize (Hc []); by rewrite app_nil_r in Hc|]. intros k Hk. rewrite rd_app_l by (rewrite El; lia). unfold rd. rewrite !decide_True by lia. rewrite lookup_app_r by (cbn; lia). rewrite lookup_drop. f_equal. cbn [be4 length]. lia. }
  split; [|split; [done|apply (H [])]]. split; [apply Forall_app; split; [apply be4_bytes|by apply Forall_drop]|]. intros r. rewrite El. apply H.
Qed.

Lemma insertCell_spec ptrmap P c1 c2 c r pTemp v : page_is P (c1 ++ c2) → cell_ok P c → childPtrSize P = 4 → ovfl P = [] → Z.of_nat (length c) + 2 ≤ nFree P →
  ∃ P', insertCell 0 ptrmap P (Z.of_nat (length c1)) (c ++ r) (Z.of_nat (length c)) pTemp v = Some (P', if autoVacuum (pBt P) then ptrmap P' (c ++ r) else 0) ∧ page_is P' (c1 ++ (be4 v ++ drop 4 c) :: c2) ∧
    ptype P' = ptype P ∧ hdrOffset P' = hdrOffset P ∧ ovfl P' = ovfl P ∧ isInit P' = isInit P.
Proof.
  intros HP Hok H4 Hov Hroom. pose proof HP as [(offs & fl & top & frag & H) Hfree]. pose proof (h_layout _ _ _ _ _ _ H) as L0. pose proof (geometry_bounds _ (l_geo _ _ _ _ _ L0)) as (G1 & G2 & _). destruct (cell_child P c v (proj1 (l_geo _ _ _ _ _ L0)) H4 Hok) as (Hok' & El & Hc5). set (c' := be4 v ++ drop 4 c) in *.
  pose proof (page_is_free _ _ HP) as Hf8. destruct (insert_at ptrmap P c1 c2 c' (c ++ r) HP Hok') as (d' & idx & E & Hi & Hl & Hb & Hins); [lia|]. rewrite El in *. unfold insertCell. rewrite Hov. cbn [length Z.of_nat Z.eqb negb orb]. rewrite (proj2 (Z.ltb_ge _ _)) by lia. rewrite E. cbn [Z.eqb negb].
  assert (sub (c ++ r) 4 (Z.of_nat (length c) - 4) = Some (drop 4 c)) as ->.
  { unfold sub. rewrite decide_True by (rewrite length_app; lia). change (Z.to_nat 4) with 4%nat. rewrite drop_app_le by lia. rewrite take_app_length' by (rewrite length_drop; lia). done. }
  assert (Z.of_nat (length (drop 4 c)) = Z.of_nat (length c) - 4) as Ld by (rewrite length_drop; lia).
  cbn [set_nFree set_data aData]. destruct (splice_spec d' (idx + 4) (drop 4 c)) as (d1 & E1 & W1 & R1); [lia|lia|apply Forall_drop, Hok|]. rewrite E1. pose proof (proj1 W1) as L1.
  destruct (put4byte_spec d1 idx v) as (d2 & E2 & E2'); [lia|lia|]. rewrite E2. destruct (splice_spec d1 idx (be4 v)) as (d2' & E3 & W2 & R2); [lia|cbn [be4 length]; lia|apply be4_bytes|]. rewrite E2' in E3. injection E3 as <-. cbn [be4 length] in W2, R2. pose proof (proj1 W2) as L2.
  assert (u16 (2 + Z.of_nat (length c)) = 2 + Z.of_nat (length c)) as Eu by (apply Z.mod_small; lia). rewrite Eu.
  destruct (Hins (nFree (set_data P d') - (2 + Z.of_nat (length c))) d2) as (d3 & E4 & H3).
  - split; [congruence|]. split; [intros; by apply W2, W1|]. intros j Hj. rewrite (proj2 (proj2 W2)), (proj2 (proj2 W1)) by lia. done.
  - apply sub_rd; [lia|lia|lia|]. intros j Hj. destruct (decide (j < 4)) as [Hj4|Hj4].
    + rewrite R2 by lia. symmetry. apply rd_app_l. cbn. lia.
    + rewrite (proj2 (proj2 W2)) by lia. replace (idx + j) with (idx + 4 + (j - 4)) by lia. rewrite R1 by lia. unfold c', rd. rewrite !decide_True by lia. rewrite lookup_app_r by (cbn; lia). f_equal. cbn [be4 length]. lia.
  - eexists. split; [exact E4|]. split; [split; [exact H3|apply (free_insert P); try done; by rewrite El]|]. done.
Qed.

(** ** Reading a page *)

Lemma mask_land k o : 0 ≤ k → 0 ≤ o < 2 ^ k → Z.land (2 ^ k - 1) o = o.
Proof. intros Hk Ho. rewrite Z.land_comm. replace (2 ^ k - 1) with (Z.ones k) by (rewrite Z.ones_equiv; lia). rewrite Z.land_ones by done. by apply Z.mod_small. Qed.

Lemma holds_cell P c1 c c2 offs fl top frag : holds P (c1 ++ c :: c2) offs fl top frag → ∃ o, findCell P (Z.of_nat (length c1)) = Some o ∧ get2byte (aData P) (cellOffset P + 2 * Z.of_nat (length c1)) = Some o ∧ sub (aData P) o (Z.of_nat (length c)) = Some c ∧ cell_size P (drop (Z.to_nat o) (aData P)) = Some (Z.of_nat (length c)) ∧ inside top (usableSize (pBt P)) (o, Z.of_nat (length c)).
Proof.
  intros H. pose proof (h_layout _ _ _ _ _ _ H) as L. pose proof (geometry_bounds _ (l_geo _ _ _ _ _ L)) as (G1 & G2 & G3 & G4 & G5 & G6). pose proof (holds_length _ _ _ _ _ _ H) as Hlo. rewrite length_app in Hlo. cbn [length] in Hlo. pose proof (l_gap _ _ _ _ _ L) as Hg. pose proof (l_cells _ _ _ _ _ L) as Hc.
  destruct (lookup_lt_is_Some_2 offs (length c1)) as [o Ho]; [lia|]. exists o. pose proof (h_pointers _ _ _ _ _ _ H _ _ Ho) as Hp. assert ((c1 ++ c :: c2) !! length c1 = Some c) as Hcc by (by apply list_lookup_middle).
  pose proof (l_inside _ _ _ _ _ L) as I. rewrite Forall_forall in I. specialize (I _ (spans_elem _ _ _ _ _ Ho Hcc)). pose proof (h_contents _ _ _ _ _ _ H) as Hcont. pose proof (Forall2_lookup_lr _ _ _ _ _ _ Hcont Ho Hcc) as Hsub. cbn in Hsub.
  split; [|split; [done|split; [done|split; [|done]]]].
  - unfold findCell. rewrite Hp, (h_mask _ _ _ _ _ _ H). destruct (l_geo _ _ _ _ _ L) as (_ & _ & _ & _ & (k & Hk & Hpow) & _). rewrite Hpow. f_equal. unfold inside in I. cbn in I. apply mask_land; lia.
  - rewrite (sub_drop _ _ _ Hsub). pose proof (h_cells _ _ _ _ _ _ H) as Hok. apply Forall_app in Hok as [_ Hok]. apply Forall_cons in Hok as [[_ Hok] _]. apply Hok.
Qed.

Lemma sum_blocks_spec d usable : ∀ l fuel a s nFree lo, tail d ((a, s) :: l) → sorted lo ((a, s) :: l) usable → 0 < lo → (length l < fuel)%nat →
  ∃ pc size, sum_blocks fuel d (usable - 4) a nFree = Some (Some (pc, size, 0, nFree + total ((a, s) :: l))) ∧ pc + size ≤ usable.
Proof.
  induction l as [|[b t] l IH]; intros [|fuel] a s nFree lo [K1 K2] Hs Hlo Hf; try (cbn in Hf; lia); cbn [sorted] in Hs; destruct Hs as (S1 & S2 & S3 & S4); cbn [sum_blocks]; rewrite (proj2 (Z.ltb_ge _ _)) by lia; rewrite (links_first _ _ _ K2), K1; cbn [first_of].
  - rewrite (proj2 (Z.leb_le _ _)) by lia. exists a, s. rewrite total_cons. change (total []) with 0. cbn [snd]. split; [do 3 f_equal; lia|done].
  - pose proof S4 as S5. destruct S5 as (S5 & _). rewrite (proj2 (Z.leb_gt _ _)) by lia. cbn [links] in K2. destruct K2 as (K2 & K3 & K4). destruct (IH fuel b t (nFree + s) (a + s + 4)) as (pc & size & E & Hb); [split; done|done|lia|cbn in Hf; lia|].
    exists pc, size. rewrite E. split; [|done]. rewrite !total_cons. cbn [snd]. do 3 f_equal. lia.
Qed.

(** The free space counted from the bytes of the page. *)
Lemma btreeComputeFreeSpace_spec P cells offs fl top frag : holds P cells offs fl top frag → btreeComputeFreeSpace P = Some (set_nFree P (free_bytes P cells), 0).
Proof.
  intros H. pose proof (h_layout _ _ _ _ _ _ H) as L. pose proof (geometry_bounds _ (l_geo _ _ _ _ _ L)) as (G1 & G2 & G3 & G4 & G5 & G6). pose proof (l_gap _ _ _ _ _ L) as Hg. pose proof (l_cells _ _ _ _ _ L) as Hc. pose proof (holds_free _ _ _ _ _ _ H) as Hf. pose proof (layout_frag _ _ _ _ _ L) as Bf. pose proof (sizes_nonneg cells) as Hs0. pose proof (h_count _ _ _ _ _ _ H) as Hn.
  pose proof (l_geo _ _ _ _ _ L) as (_ & _ & Hco & _). unfold btreeComputeFreeSpace. cbv zeta.
  assert (get2byteNotZero (aData P) (hdrOffset P + 5) = Some top) as -> by (unfold get2byteNotZero; rewrite (l_top _ _ _ _ _ L); f_equal; rewrite (land_low _ 16) by done; unfold u16; change (2 ^ 16) with 65536; dm).
  rewrite (links_first _ _ _ (l_links _ _ _ _ _ L)), (l_frag _ _ _ _ _ L).
  assert (∀ n, n = free_bytes P cells + (cellOffset P + 2 * nCell P) → (if (usableSize (pBt P) <? n) || (n <? hdrOffset P + 8 + childPtrSize P + 2 * nCell P) then Some (P, SQLITE_CORRUPT_PAGE) else Some (set_nFree P (u16 (n - (hdrOffset P + 8 + childPtrSize P + 2 * nCell P))), 0)) = Some (set_nFree P (free_bytes P cells), 0)) as Hfin.
  { intros n ->. assert (0 ≤ free_bytes P cells) as H0.
    { assert (0 ≤ total fl) by (pose proof (sorted_inside _ _ _ (l_sorted _ _ _ _ _ L)) as I; clear -I; induction I as [|x fl Hx _ IH]; [done|]; rewrite total_cons; unfold inside in Hx; lia). lia. }
    assert (free_bytes P cells ≤ usableSize (pBt P) - cellOffset P - 2 * nCell P) by (unfold free_bytes; lia). rewrite !(proj2 (Z.ltb_ge _ _)) by lia. cbn [orb]. do 3 f_equal. unfold u16. rewrite Z.mod_small; lia. }
  destruct fl as [|[a s] fl]; cbn [first_of].
  - cbn [Z.ltb Z.compare]. apply Hfin. change (total []) with 0 in Hf. lia.
  - pose proof (l_links _ _ _ _ _ L) as K. pose proof (l_sorted _ _ _ _ _ L) as So. pose proof So as (S1 & _). rewrite (proj2 (Z.ltb_lt _ _)), (proj2 (Z.ltb_ge a top)) by lia. cbn [links] in K.
    destruct (sum_blocks_spec (aData P) (usableSize (pBt P)) fl (S (length (aData P))) a s (frag + top) (top + 1)) as (pc & size & E & Hb); [split; tauto|done|lia| |].
    { pose proof (sorted_length _ _ _ So) as Sl. cbn [length] in Sl. lia. }
    rewrite E. cbn [Z.ltb Z.compare]. rewrite (proj2 (Z.ltb_ge _ _)) by lia. apply Hfin. lia.
Qed.

(** ** Loading and clearing a page *)

Lemma decodeFlags_cases (Q : PageType) flag t : decodeFlags Q flag = (0, t) → (flag = 13 ∨ flag = 10 ∨ flag = 2 ∨ flag = 5) ∧ pBt t = pBt Q ∧ leaf t = (childPtrSize t =? 0) ∧ (if Z.land flag PTF_LEAF =? 0 then 12 else 8) = 8 + childPtrSize t ∧
  ∀ R, pBt R = pBt Q → decodeFlags R flag = (0, t).
Proof.
  unfold decodeFlags. change (Z.lor PTF_ZERODATA PTF_LEAF) with 10. change (Z.lor (Z.lor PTF_LEAFDATA PTF_INTKEY) PTF_LEAF) with 13. change (Z.lor PTF_LEAFDATA PTF_INTKEY) with 5. change PTF_ZERODATA with 2.
  destruct (10 <=? flag) eqn:E1; [destruct (Z.eqb_spec flag 13) as [->|]; [|destruct (Z.eqb_spec flag 10) as [->|]]|destruct (Z.eqb_spec flag 2) as [->|]; [|destruct (Z.eqb_spec flag 5) as [->|]]]; intros [= <-]; cbn [pBt leaf childPtrSize]; (split; [tauto|]); (split; [done|]); (split; [done|]); (split; [done|]); intros R ->; done.
Qed.

Lemma sizes_least t cells : page_type t → Forall (cell_ok t) cells → 4 * Z.of_nat (length cells) ≤ sizes cells.
Proof. intros Ht. induction 1 as [|c cells Hc _ IH]; [done|]. rewrite sizes_cons. cbn [length]. pose proof (cell_ok_length _ _ Ht Hc). lia. Qed.

Lemma check_sizes_spec P cells offs fl top frag : holds P cells offs fl top frag → btreeCellSizeCheck P = Some 0.
Proof.
  intros H. pose proof (h_layout _ _ _ _ _ _ H) as L. pose proof (l_gap _ _ _ _ _ L) as Hg. destruct (h_flag _ _ _ _ _ _ H) as (flag & _ & Hflag). apply decodeFlags_cases in Hflag as (_ & _ & Hleaf & _). pose proof (l_geo _ _ _ _ _ L) as (Ht & _). pose proof (h_count _ _ _ _ _ _ H) as Hn.
  assert (∀ c, cell_ok P c → (if negb (leaf P) then 5 else 4) ≤ Z.of_nat (length c)) as H4.
  { intros c Hc. rewrite Hleaf. pose proof Ht as (_ & _ & _ & HT)%page_type_cases. pose proof (cell_ok_length _ _ Ht Hc). destruct (Z.eqb_spec (childPtrSize P) 0); cbn [negb]; [lia|]. apply (cell_child P c 0 Ht); [lia|done]. }
  unfold btreeCellSizeCheck. cbv zeta. set (first := cellOffset P + 2 * nCell P) in *. set (lastc := if negb (leaf P) then _ else _). assert (lastc = usableSize (pBt P) - (if negb (leaf P) then 5 else 4)) as El by (unfold lastc; destruct (leaf P); cbn [negb]; lia). clearbody lastc.
  assert (∀ c2 c1, cells = c1 ++ c2 → check_sizes (length c2) P first lastc (Z.of_nat (length c1)) = Some 0) as Hall.
  { induction c2 as [|c c2 IH]; intros c1 Ec; [done|]. rewrite Ec in H. destruct (holds_cell _ _ _ _ _ _ _ _ H) as (o & _ & Ho & _ & Hs & I). unfold inside in I. cbn in I. pose proof (h_cells _ _ _ _ _ _ H) as Hok. apply Forall_app in Hok as [_ Hok]. apply Forall_cons in Hok as [Hok _]. specialize (H4 c Hok).
    cbn [length check_sizes]. replace (cellOffset P + Z.of_nat (length c1) * 2) with (cellOffset P + 2 * Z.of_nat (length c1)) by lia. rewrite Ho, Hs.
    rewrite !(proj2 (Z.ltb_ge _ _)) by lia. cbn [orb]. replace (Z.of_nat (length c1) + 1) with (Z.of_nat (length (c1 ++ [c]))) by (rewrite length_app; cbn; lia).
    apply IH. by rewrite <- (assoc_L (++)). }
  rewrite Hn, Nat2Z.id. by apply (Hall cells []).
Qed.

(** A page read from its bytes is the page that was written. *)
Lemma reload (P : MemPage) cells (P0 : MemPage) : page_is P cells → pBt P0 = pBt P → hdrOffset P0 = hdrOffset P → aData P0 = aData P →
  ∃ P1, btreeInitPage P0 = Some (P1, 0) ∧ nFree P1 = -1 ∧
    btreeComputeFreeSpace P1 = Some (mk_mempage (ptype P) true (hdrOffset P) (cellOffset P) (maskPage P) (nCell P) (nFree P) [] (aData P), 0).
Proof.
  intros [(offs & fl & top & frag & H) Hfree] E1 E2 E3. pose proof (h_layout _ _ _ _ _ _ H) as L. pose proof (geometry_bounds _ (l_geo _ _ _ _ _ L)) as (G1 & G2 & G3 & G4 & G5 & G6). pose proof (l_gap _ _ _ _ _ L) as Hg. pose proof (l_cells _ _ _ _ _ L) as Hc. pose proof (l_geo _ _ _ _ _ L) as (Ht & _ & Hco & _). pose proof (h_count _ _ _ _ _ _ H) as Hn.
  destruct (h_flag _ _ _ _ _ _ H) as (flag & F1 & F2). pose proof (decodeFlags_cases _ _ _ F2) as (_ & _ & _ & _ & F3). unfold btreeInitPage. cbv zeta. rewrite E2, E3, F1, (F3 (ptype P0) E1), (h_nCell _ _ _ _ _ _ H). cbn [Z.eqb negb].
  assert (nCell P ≤ MX_CELL (pBt P)) as Hmx.
  { unfold MX_CELL. apply Z.div_le_lower_bound; [lia|]. pose proof (sizes_least _ _ Ht (h_cells _ _ _ _ _ _ H)). pose proof (holds_free _ _ _ _ _ _ H) as Hf. pose proof (layout_frag _ _ _ _ _ L). unfold free_bytes in Hf. assert (0 ≤ total fl) by (pose proof (sorted_inside _ _ _ (l_sorted _ _ _ _ _ L)) as I; clear -I; induction I as [|x fl Hx _ IH]; [done|]; rewrite total_cons; unfold inside in Hx; lia). lia. }
  rewrite E1, (proj2 (Z.ltb_ge _ _)) by done. assert (u16 (pageSize (pBt P) - 1) = maskPage P) as -> by (rewrite (h_mask _ _ _ _ _ _ H); apply Z.mod_small; lia). rewrite <- Hco. assert (u16 (cellOffset P) = cellOffset P) as -> by (apply Z.mod_small; lia).
  set (P1 := mk_mempage (ptype P) true (hdrOffset P) (cellOffset P) (maskPage P) (nCell P) (-1) [] (aData P)). assert (holds P1 cells offs fl top frag) as H1 by (by apply (holds_change P)).
  exists P1. rewrite (check_sizes_spec _ _ _ _ _ _ H1). split; [by destruct (cellSizeCk _)|]. split; [done|]. rewrite (btreeComputeFreeSpace_spec _ _ _ _ _ _ H1). unfold set_nFree. cbn. unfold free_bytes in *. cbn in *. by rewrite Hfree.
Qed.

(** A page before it has a type. *)
Definition raw_page (P : MemPage) : Prop :=
  (∃ pBt0 pages, 480 ≤ usableSize pBt0 ≤ 65536 ∧ pBt P = set_limits pBt0 pages) ∧ (hdrOffset P = 0 ∨ hdrOffset P = 100) ∧
  usableSize (pBt P) ≤ pageSize (pBt P) ∧ (∃ k, 9 ≤ k ≤ 16 ∧ pageSize (pBt P) = 2 ^ k) ∧ pageSize (pBt P) ≤ Z.of_nat (length (aData P)) ∧ is_bytes (aData P) ∧ usableSize (pBt P) ≤ Z.of_nat (length (pTmpSpace (pBt P))).

Lemma zeroPage_spec (P : MemPage) flag t : raw_page P → decodeFlags P flag = (0, t) →
  ∃ P', zeroPage P flag = Some P' ∧ page_is P' [] ∧ ptype P' = t ∧ hdrOffset P' = hdrOffset P ∧ ovfl P' = [] ∧ isInit P' = true.
Proof.
  intros ((pBt0 & pages & Hu & Hlim) & Hh & Hps & (k & Hk & Hpow) & Hl & Hb & Htmp) F. pose proof (decodeFlags_cases _ _ _ F) as (Fc & Ft & Fl & Ff & Fr).
  assert (page_type t) as Ht by (exists (ptype P), flag, pBt0, pages; done). assert (usableSize (pBt P) = usableSize pBt0) as Eu by (rewrite Hlim; done). assert (512 ≤ pageSize (pBt P) ≤ 65536) as Hp6 by (rewrite Hpow; change 512 with (2 ^ 9); change 65536 with (2 ^ 16); split; apply Z.pow_le_mono_r; lia).
  assert (childPtrSize t = 0 ∨ childPtrSize t = 4) as Hcp by (pose proof Ht as (_ & _ & _ & HT)%page_type_cases; tauto).
  unfold zeroPage. cbv zeta.
  assert (∃ d0, (if negb (Z.land (btsFlags (pBt P)) BTS_FAST_SECURE =? 0) then memset (aData P) (hdrOffset P) 0 (usableSize (pBt P) - hdrOffset P) else Some (aData P)) = Some d0 ∧ length d0 = length (aData P) ∧ is_bytes d0) as (d0 & -> & L0 & B0).
  { destruct (negb _); [|by exists (aData P)]. destruct (memset_spec (aData P) (hdrOffset P) 0 (usableSize (pBt P) - hdrOffset P)) as (d0 & E & W & _); [lia..|by unfold is_u8|]. exists d0. split; [done|]. split; [apply W|by apply W]. }
  destruct (wr_spec d0 (hdrOffset P) (u8 flag)) as (d1 & E1 & W1 & R1); [lia|apply is_u8_u8|]. rewrite E1. pose proof (proj1 W1) as L1.
  destruct (memset_spec d1 (hdrOffset P + 1) 0 4) as (d2 & E2 & W2 & R2); [lia..|by unfold is_u8|]. rewrite E2. pose proof (proj1 W2) as L2.
  destruct (wr_spec d2 (hdrOffset P + 7) 0) as (d3 & E3 & W3 & R3); [lia|by unfold is_u8|]. rewrite E3. pose proof (proj1 W3) as L3.
  destruct (put2byte_spec d3 (hdrOffset P + 5) (usableSize (pBt P))) as (d4 & E4 & W4 & R4); [lia..|]. rewrite E4, F, Ff. pose proof (proj1 W4) as L4. eexists. split; [done|]. split; [|done].
  assert (u8 flag = flag) as Euf by (apply u8_id; unfold is_u8; lia). split.
  - exists [], [], (usableSize (pBt P)), 0. apply empty_page; cbn [ptype nCell hdrOffset cellOffset maskPage aData].
    + by rewrite Ft.
    + unfold geometry. cbn [ptype nCell hdrOffset cellOffset maskPage aData]. rewrite Ft. split; [done|]. split; [done|]. split; [unfold u16; rewrite Z.mod_small; lia|]. split; [done|]. split; [by exists k|]. split; [lia|]. split; [by apply W4, W3, W2, W1|done].
    + done.
    + rewrite Ft. apply Z.mod_small. lia.
    + exists flag. split; [|by apply Fr]. rewrite (proj2 (proj2 W4)), (proj2 (proj2 W3)), (proj2 (proj2 W2)), R1 by lia. by rewrite Euf.
    + intros j Hj. rewrite (proj2 (proj2 W4)), (proj2 (proj2 W3)), R2 by lia. done.
    + rewrite Ft. exact R4.
    + rewrite (proj2 (proj2 W4)), R3 by lia. done.
  - unfold free_bytes. cbn [ptype cellOffset nFree length]. change (sizes []) with 0. rewrite Ft. unfold u16. rewrite (Z.mod_small (hdrOffset P + _)), Z.mod_small by lia. lia.
Qed.

(** ** Histories *)

(** What happens to a page between its clearing and its splitting. *)
Inductive page_op : Type := Insert (i : nat) (c : bytes) | Drop (i : nat).

(** The cell to drop is found and sized as the callers of [dropCell] do. *)
Definition run_op (ptrmap : MemPage → bytes → Z) (P : MemPage) (op : page_op) : option (MemPage * Z) :=
  match op with
  | Insert i c => insertCellFast 0 ptrmap P (Z.of_nat i) c (Z.of_nat (length c))
  | Drop i =>
      let* o := findCell P (Z.of_nat i) in
      let* sz := cell_size P (drop (Z.to_nat o) (aData P)) in
      dropCell P (Z.of_nat i) sz 0
  end.

Fixpoint run_ops (ptrmap : MemPage → bytes → Z) (P : MemPage) (ops : list page_op) : option (MemPage * Z) :=
  match ops with
  | [] => Some (P, 0)
  | op :: ops => let* (P, rc) := run_op ptrmap P op in if rc =? 0 then run_ops ptrmap P ops else Some (P, rc)
  end.

(** The same on lists. *)
Definition spec_op (cells : list bytes) (op : page_op) : list bytes :=
  match op with
  | Insert i c => take i cells ++ c :: drop i cells
  | Drop i => take i cells ++ drop (S i) cells
  end.

(** The operations that a page with [room] bytes after its header can take. *)
Fixpoint ops_ok (t : PageType) (room : Z) (cells : list bytes) (ops : list page_op) : Prop :=
  match ops with
  | [] => True
  | op :: ops =>
      match op with
      | Insert i c => (i ≤ length cells)%nat ∧ cell_ok t c ∧ 2 * Z.of_nat (S (length cells)) + sizes cells + Z.of_nat (length c) ≤ room
      | Drop i => (i < length cells)%nat
      end ∧ ops_ok t room (spec_op cells op) ops
  end.

Lemma run_op_spec ptrmap P cells op room : page_is P cells → (∀ p c, ptrmap p c = 0) → room = usableSize (pBt P) - cellOffset P → ops_ok P room cells [op] →
  ∃ P', run_op ptrmap P op = Some (P', 0) ∧ page_is P' (spec_op cells op) ∧ ptype P' = ptype P ∧ hdrOffset P' = hdrOffset P ∧ cellOffset P' = cellOffset P.
Proof.
  intros HP Hmap Hroom [Hop _]. assert (∀ P', page_is P' (spec_op cells op) → ptype P' = ptype P → hdrOffset P' = hdrOffset P → cellOffset P' = cellOffset P) as Hco.
  { intros P' [(o' & fl' & t' & f' & H') _] E1 E2. pose proof HP as [(o & fl & t & f & H) _]. pose proof (l_geo _ _ _ _ _ (h_layout _ _ _ _ _ _ H')) as (_ & _ & -> & _). pose proof (l_geo _ _ _ _ _ (h_layout _ _ _ _ _ _ H)) as (_ & _ & -> & _). by rewrite E1, E2. }
  destruct op as [i c|i]; cbn [run_op spec_op] in *.
  - destruct Hop as (Hi & Hok & Hr). rewrite <- (take_drop i cells) in HP. destruct (insertCellFast_spec ptrmap P (take i cells) (drop i cells) c [] HP Hok) as (P' & E & HP' & E1 & E2 & _).
    { destruct HP as [_ ->]. rewrite take_drop. unfold free_bytes. lia. }
    rewrite app_nil_r, length_take, Nat.min_l, Hmap in E by lia. exists P'. split; [rewrite E; by destruct (autoVacuum _)|]. split; [done|]. split; [done|]. split; [done|]. by apply Hco.
  - destruct (lookup_lt_is_Some_2 cells i Hop) as [c Hc]. pose proof (take_drop_middle _ _ _ Hc) as Ec. rewrite <- Ec in HP. pose proof HP as [(offs & fl & top & frag & H) _]. destruct (holds_cell _ _ _ _ _ _ _ _ H) as (o & Ef & _ & _ & Es & _). rewrite length_take, Nat.min_l in Ef by lia. rewrite Ef, Es.
    destruct (dropCell_spec P (take i cells) (drop (S i) cells) c HP) as (P' & E & HP' & E1 & E2 & _). rewrite length_take, Nat.min_l in E by lia. exists P'. split; [done|]. split; [done|]. split; [done|]. split; [done|]. by apply Hco.
Qed.

Lemma run_ops_spec ptrmap : (∀ p c, ptrmap p c = 0) → ∀ ops P cells room, page_is P cells → room = usableSize (pBt P) - cellOffset P → ops_ok P room cells ops →
  ∃ P', run_ops ptrmap P ops = Some (P', 0) ∧ page_is P' (fold_left spec_op ops cells) ∧ ptype P' = ptype P ∧ cellOffset P' = cellOffset P.
Proof.
  intros Hmap. induction ops as [|op ops IH]; intros P cells room HP Hroom Hok; [by exists P|]. cbn [run_ops fold_left ops_ok] in *. destruct Hok as [Hop Hok].
  destruct (run_op_spec ptrmap P cells op room HP Hmap Hroom) as (P1 & E & HP1 & E1 & E2 & E3); [by split|]. rewrite E. cbn [Z.eqb]. destruct (IH P1 _ room HP1) as (P' & E' & HP' & E4 & E5); [by rewrite E1, E3|by rewrite E1|]. exists P'. split; [done|]. split; [done|]. by rewrite E4, E5.
Qed.

Lemma page_is_cell P (cells : list bytes) i (c : bytes) : page_is P cells → cells !! i = Some c → ∃ o, findCell P (Z.of_nat i) = Some o ∧ sub (aData P) o (Z.of_nat (length c)) = Some c ∧ cell_size P (drop (Z.to_nat o) (aData P)) = Some (Z.of_nat (length c)).
Proof.
  intros [(offs & fl & top & frag & H) _] Hc. pose proof (lookup_lt_Some _ _ _ Hc) as Hi. rewrite <- (take_drop_middle _ _ _ Hc) in H. destruct (holds_cell _ _ _ _ _ _ _ _ H) as (o & Ef & _ & Es & El & _). assert (length (take i cells) = i) as Et by (rewrite length_take; apply Nat.min_l; exact (Nat.lt_le_incl _ _ Hi)). rewrite Et in Ef. by exists o.
Qed.

(** ** Properties *)

(** C16: a page stands for the list of its cells, whatever has happened to it.  After any sequence of insertions and droppings for which there is room, from the clearing of a page on, each call succeeded, the page has the cells of the list that the same operations make, each is found at its index and has its size there, and the free bytes are what the cells and their pointers leave. *)
Theorem page_history ptrmap (P : MemPage) flag t ops :
  raw_page P → decodeFlags P flag = (0, t) → (∀ p c, ptrmap p c = 0) → ops_ok t (usableSize (pBt P) - hdrOffset P - 8 - childPtrSize t) [] ops →
  let cells := fold_left spec_op ops [] in
  ∃ P0 P', zeroPage P flag = Some P0 ∧ run_ops ptrmap P0 ops = Some (P', 0) ∧ nCell P' = Z.of_nat (length cells) ∧
    nFree P' = usableSize (pBt P) - hdrOffset P - 8 - childPtrSize t - 2 * Z.of_nat (length cells) - sizes cells ∧
    ∀ i c, cells !! i = Some c → ∃ o, findCell P' (Z.of_nat i) = Some o ∧ sub (aData P') o (Z.of_nat (length c)) = Some c ∧ cell_size P' (drop (Z.to_nat o) (aData P')) = Some (Z.of_nat (length c)).
Proof.
  intros HR F Hmap Hok cells. destruct (zeroPage_spec P flag t HR F) as (P0 & E0 & HP0 & Et & Eh & _). assert (pBt t = pBt P) as Eb by apply (decodeFlags_cases _ _ _ F).
  assert (cellOffset P0 = hdrOffset P + 8 + childPtrSize t) as Ec by (destruct HP0 as [(o & fl & t' & f & H) _]; pose proof (l_geo _ _ _ _ _ (h_layout _ _ _ _ _ _ H)) as (_ & _ & -> & _); by rewrite Et, Eh).
  destruct (run_ops_spec ptrmap Hmap ops P0 [] (usableSize (pBt P) - hdrOffset P - 8 - childPtrSize t) HP0) as (P' & E & HP' & Et' & Ec'); [rewrite Et, Ec, Eb; lia|by rewrite Et|].
  exists P0, P'. split; [done|]. split; [done|]. fold cells in HP'. pose proof HP' as [(o & fl & t' & f & H) Hfree]. pose proof (h_count _ _ _ _ _ _ H) as Hn. split; [done|]. split; [|intros i c; by apply page_is_cell].
  rewrite Hfree. unfold free_bytes. rewrite Et', Et, Eb, Ec', Ec. lia.
Qed.

(** C17: inserting a cell at an index puts it there in the list of the cells, in a page that has room for it and its pointer: as it is, or with the child page that is to become its first four bytes.  Without room the page stays as it is and keeps the cell aside, as long as fewer than four are; an error of the pager is returned before anything changes. *)
Theorem page_insert ptrmap P c1 c2 c r :
  page_is P (c1 ++ c2) → cell_ok P c →
  (Z.of_nat (length c) + 2 ≤ nFree P → ∃ P', insertCellFast 0 ptrmap P (Z.of_nat (length c1)) (c ++ r) (Z.of_nat (length c)) = Some (P', if autoVacuum (pBt P) then ptrmap P' (c ++ r) else 0) ∧ page_is P' (c1 ++ c :: c2) ∧ ovfl P' = ovfl P) ∧
  (Z.of_nat (length c) + 2 ≤ nFree P → childPtrSize P = 4 → ovfl P = [] → ∀ pTemp v, ∃ P', insertCell 0 ptrmap P (Z.of_nat (length c1)) (c ++ r) (Z.of_nat (length c)) pTemp v = Some (P', if autoVacuum (pBt P) then ptrmap P' (c ++ r) else 0) ∧ page_is P' (c1 ++ (be4 v ++ drop 4 c) :: c2)) ∧
  (nFree P < Z.of_nat (length c) + 2 → Z.of_nat (length (ovfl P)) < 4 → ∀ rc, insertCellFast rc ptrmap P (Z.of_nat (length c1)) (c ++ r) (Z.of_nat (length c)) = Some (set_ovfl P (ovfl P ++ [(u16 (Z.of_nat (length c1)), c ++ r)]), 0)) ∧
  (Z.of_nat (length c) + 2 ≤ nFree P → ∀ rc, rc ≠ 0 → insertCellFast rc ptrmap P (Z.of_nat (length c1)) (c ++ r) (Z.of_nat (length c)) = Some (P, rc)).
Proof.
  intros HP Hok. split; [|split; [|split]].
  - intros Hroom. destruct (insertCellFast_spec ptrmap P c1 c2 c r HP Hok Hroom) as (P' & E & HP' & _ & _ & Eo & _). by exists P'.
  - intros Hroom H4 Hov pTemp v. destruct (insertCell_spec ptrmap P c1 c2 c r pTemp v HP Hok H4 Hov Hroom) as (P' & E & HP' & _). by exists P'.
  - intros Hroom Hov rc. unfold insertCellFast, insert_overflow. by rewrite !(proj2 (Z.ltb_lt _ _)) by lia.
  - intros Hroom rc Hrc. unfold insertCellFast. rewrite (proj2 (Z.ltb_ge _ _)) by lia. by rewrite (proj2 (Z.eqb_neq _ _)).
Qed.

(** Dropping the cell at an index takes it from the list of the cells and keeps every other, wherever they are: what it took is free again, joined with the free blocks and the fragments next to it, and when it was the last cell the page is as cleared.  After an earlier error nothing happens. *)
Theorem page_drop P c1 c2 c :
  page_is P (c1 ++ c :: c2) →
  (∃ P', dropCell P (Z.of_nat (length c1)) (Z.of_nat (length c)) 0 = Some (P', 0) ∧ page_is P' (c1 ++ c2) ∧ nFree P' = nFree P + Z.of_nat (length c) + 2 ∧ ovfl P' = ovfl P) ∧
  ∀ rc idx sz, rc ≠ 0 → dropCell P idx sz rc = Some (P, rc).
Proof.
  intros HP. split; [|intros rc idx sz Hrc; unfold dropCell; by rewrite (proj2 (Z.eqb_neq _ _))]. destruct (dropCell_spec P c1 c2 c HP) as (P' & E & HP' & E1 & E2 & E3 & _). exists P'. split; [done|]. split; [done|]. split; [|done].
  destruct HP as [(o & fl & t & f & H) Hfree], HP' as [(o' & fl' & t' & f' & H') Hfree']. pose proof (l_geo _ _ _ _ _ (h_layout _ _ _ _ _ _ H)) as (_ & _ & Ec & _). pose proof (l_geo _ _ _ _ _ (h_layout _ _ _ _ _ _ H')) as (_ & _ & Ec' & _).
  rewrite Hfree, Hfree'. unfold free_bytes. rewrite E1, Ec, Ec', E1, E2, !length_app, !sizes_app, sizes_cons. cbn [length]. lia.
Qed.

(** C18: defragmenting a page, by moving the cells over one or two free blocks or by packing them all again, keeps every cell and its index, leaves no free block and at most as many fragments as the caller accepts, and all the other free bytes between the pointers and the cells. *)
Theorem page_defragment P cells m :
  page_is P cells →
  ∃ P' top frag, defragmentPage P m = Some (P', 0) ∧ page_is P' cells ∧ get2byte (aData P') (hdrOffset P + 1) = Some 0 ∧ get2byte (aData P') (hdrOffset P + 5) = Some (u16 top) ∧
    rd (aData P') (hdrOffset P + 7) = Some frag ∧ (frag = 0 ∨ frag ≤ m) ∧ top - cellOffset P - 2 * nCell P = nFree P - frag.
Proof.
  intros [(offs & fl & top & frag & H) Hfree]. destruct (defragmentPage_spec P cells offs fl top frag m H Hfree) as (d' & offs' & top' & frag' & E & H' & Hf & Hl). exists (set_data P d'), top', frag'. pose proof (h_layout _ _ _ _ _ _ H') as L'.
  split; [done|]. split; [split; [by exists offs', [], top', frag'|done]|]. split; [exact (links_first _ _ _ (l_links _ _ _ _ _ L'))|]. split; [apply (l_top _ _ _ _ _ L')|]. split; [apply (l_frag _ _ _ _ _ L')|]. split; [done|].
  pose proof (holds_free _ _ _ _ _ _ H') as F. change (total []) with 0 in F. unfold free_bytes in *. cbn in F. lia.
Qed.

(** C19: a part that [allocateSpace] gives lies on the page, after the pointers with room for one more, and meets no cell; freeing it again gives back the same cells and counts it as free. *)
Theorem page_allocate_free P cells n :
  page_is P cells → 4 ≤ n → n + 2 ≤ nFree P →
  ∃ P1 idx P2, allocateSpace P n = Some (P1, 0, idx) ∧ cellOffset P + 2 * nCell P + 2 ≤ idx ∧ idx + n ≤ usableSize (pBt P) ∧
    (∀ i c, cells !! i = Some c → ∃ o, get2byte (aData P1) (cellOffset P + 2 * Z.of_nat i) = Some o ∧ sub (aData P1) o (Z.of_nat (length c)) = Some c ∧ (idx + n ≤ o ∨ o + Z.of_nat (length c) ≤ idx)) ∧
    freeSpace P1 idx n = Some (P2, 0) ∧ nFree P2 = nFree P + n ∧ page_is (set_nFree P2 (nFree P)) cells.
Proof.
  intros [(offs & fl & top & frag & H) Hfree] Hn Hroom. destruct (allocateSpace_spec P cells offs fl top frag n H Hfree Hn Hroom) as (d1 & idx & offs1 & fl1 & top1 & frag1 & E1 & C1 & L1 & Ht & Hl).
  destruct (freeSpace_spec _ _ _ _ _ _ _ L1) as (d2 & fl2 & top2 & frag2 & E2 & L2 & S2 & Hl2). eexists _, idx, _. split; [exact E1|]. pose proof (l_inside _ _ _ _ _ L1) as I. apply Forall_cons in I as [I _]. unfold inside in I. cbn in I.
  split; [lia|]. split; [lia|]. split; [|split; [exact E2|split; [done|]]].
  - intros i c Hc. assert (length offs1 = length cells) as Hlo by exact (Forall2_length _ _ _ (c_contents _ _ _ C1)). destruct (lookup_lt_is_Some_2 offs1 i) as [o Ho]; [rewrite Hlo; by eapply lookup_lt_Some|]. exists o. split; [apply (c_pointers _ _ _ C1 _ _ Ho)|]. split; [apply (Forall2_lookup_lr _ _ _ _ _ _ (c_contents _ _ _ C1) Ho Hc)|].
    pose proof (l_disj _ _ _ _ _ L1) as D. cbn [app disj] in D. destruct D as [D _]. apply Forall_app in D as [D _]. rewrite Forall_forall in D. specialize (D _ (spans_elem _ _ _ _ _ Ho Hc)). unfold apart in D. cbn in D. lia.
  - assert (cells_at (set_data (set_data P d1) d2) cells offs1) as C2 by (apply cells_stable; [done|apply L1|done|done]). pose proof (cells_holds _ _ _ _ _ _ C2 L2) as H2. split; [exists offs1, fl2, top2, frag2; by apply (holds_change _ _ _ _ _ _ _ H2)|exact Hfree].
Qed.

(** C20: a page read anew from its bytes is the page that was kept: the type, the count and the places of its cells are those of the bytes, no check finds fault, and the free space counted from them is the number that was maintained. *)
Theorem page_reload (P : MemPage) cells (P0 : MemPage) :
  page_is P cells → isInit P = true → ovfl P = [] → pBt P0 = pBt P → hdrOffset P0 = hdrOffset P → aData P0 = aData P →
  ∃ P1, btreeInitPage P0 = Some (P1, 0) ∧ nFree P1 = -1 ∧ btreeComputeFreeSpace P1 = Some (P, 0).
Proof.
  intros HP Hi Ho E1 E2 E3. destruct (reload P cells P0 HP E1 E2 E3) as (P1 & E & Hn & Ec). exists P1. split; [done|]. split; [done|]. rewrite Ec. destruct P; cbn in *. by subst.
Qed.

(** ** Witnesses: pages of 512 bytes *)

Definition bt_512 : BtShared := mk_bt 512 512 0 false true (replicate 520 0) 0 0 0 0 0 0.

Definition raw_512 : MemPage := mk_mempage (mk_type (set_limits bt_512 1) false false false 0 0 0 0 XSizePtr XParsePtr) false 0 0 0 0 0 [] (replicate 512 7).

Definition no_map (_ : MemPage) (_ : bytes) : Z := 0.

Definition type_512 (flag : Z) : PageType := snd (decodeFlags raw_512 flag).

(** A row with the key [k] and [n] bytes; an entry of an index with a child. *)
Definition row (k n : Z) : bytes := n :: k :: replicate (Z.to_nat n) k.
Definition node (k n : Z) : bytes := 0 :: 0 :: 0 :: k :: n :: replicate (Z.to_nat n) k.

Lemma raw_512_ok : raw_page raw_512.
Proof.
  split; [exists bt_512, 1; split; [cbn; lia|reflexivity]|]. split; [by left|]. split; [cbn; lia|]. split; [exists 9; split; [lia|reflexivity]|]. split; [vm_compute; discriminate|]. split; [|vm_compute; discriminate].
  apply Forall_replicate. unfold is_u8. lia.
Qed.

Ltac check_cell := split; [repeat constructor; unfold is_u8; lia|intros r; vm_compute; reflexivity].

Definition history : list page_op := [Insert 0 (row 1 50); Insert 1 (row 2 60); Insert 2 (row 3 70); Insert 3 (row 4 100); Drop 1; Insert 1 (row 9 58); Insert 4 (row 8 100); Insert 0 (row 7 40); Drop 3; Drop 1; Insert 2 (row 5 64)].

Lemma history_ok : ops_ok (type_512 13) 504 [] history.
Proof. cbn [ops_ok history spec_op take drop app length]. repeat match goal with |- _ ∧ _ => split end; try (cbn; lia); try exact I; try (vm_compute; discriminate); try check_cell. Qed.

(** What is left of them: both ways to defragment have been used. *)
Definition cells_512 : list bytes := [row 7 40; row 9 58; row 5 64; row 4 100; row 8 100].

Lemma page_history_witness : fold_left spec_op history [] = cells_512 ∧
  ∃ P0 P', zeroPage raw_512 13 = Some P0 ∧ run_ops no_map P0 history = Some (P', 0) ∧ nCell P' = Z.of_nat (length (fold_left spec_op history [])) ∧
    nFree P' = usableSize (pBt raw_512) - hdrOffset raw_512 - 8 - childPtrSize (type_512 13) - 2 * Z.of_nat (length (fold_left spec_op history [])) - sizes (fold_left spec_op history []) ∧
    ∀ i c, fold_left spec_op history [] !! i = Some c → ∃ o, findCell P' (Z.of_nat i) = Some o ∧ sub (aData P') o (Z.of_nat (length c)) = Some c ∧ cell_size P' (drop (Z.to_nat o) (aData P')) = Some (Z.of_nat (length c)).
Proof.
  split; [vm_compute; reflexivity|]. apply (page_history no_map raw_512 13 (type_512 13) history); [apply raw_512_ok|vm_compute; reflexivity|done|apply history_ok].
Defined.

Definition page_of (flag : Z) (ops : list page_op) : MemPage :=
  match zeroPage raw_512 flag with Some P => match run_ops no_map P ops with Some (P, _) => P | None => raw_512 end | None => raw_512 end.

Lemma page_of_is flag ops : decodeFlags raw_512 flag = (0, type_512 flag) → ops_ok (type_512 flag) (usableSize (pBt raw_512) - 8 - childPtrSize (type_512 flag)) [] ops → page_is (page_of flag ops) (fold_left spec_op ops []).
Proof.
  intros F Hok. destruct (zeroPage_spec raw_512 flag _ raw_512_ok F) as (P0 & E0 & HP0 & Et & Eh & _). unfold page_of. rewrite E0. pose proof HP0 as [(o & fl & t & f & H) _]. pose proof (l_geo _ _ _ _ _ (h_layout _ _ _ _ _ _ H)) as (_ & _ & Ec & _).
  destruct (run_ops_spec no_map (λ _ _, eq_refl) ops P0 [] (usableSize (pBt raw_512) - 8 - childPtrSize (type_512 flag)) HP0) as (P' & E & HP' & _); [rewrite Ec, Et, Eh, (proj1 (proj2 (decodeFlags_cases _ _ _ F))); cbn [hdrOffset raw_512]; lia|by rewrite Et|]. by rewrite E.
Qed.

Lemma page_512_is : page_is (page_of 13 history) cells_512.
Proof. apply (page_of_is 13 history); [vm_compute; reflexivity|apply history_ok]. Qed.

(** An interior page of an index. *)
Definition index_ops : list page_op := [Insert 0 (node 1 20); Insert 1 (node 2 30)].

Lemma page_index_is : page_is (page_of 2 index_ops) [node 1 20; node 2 30].
Proof.
  apply (page_of_is 2 index_ops); [vm_compute; reflexivity|]. cbn [index_ops ops_ok spec_op take drop app length]. repeat match goal with |- _ ∧ _ => split end; try (cbn; lia); try exact I; try (vm_compute; discriminate); try check_cell.
Qed.

Lemma node_ok : cell_ok (page_of 2 index_ops) (node 9 10).
Proof. check_cell. Qed.

Lemma row_ok : cell_ok (page_of 13 history) (row 3 120).
Proof. check_cell. Qed.

Lemma page_insert_witness :
  (∃ P', insertCellFast 0 no_map (page_of 2 index_ops) (Z.of_nat (length [node 1 20])) (node 9 10 ++ [5]) (Z.of_nat (length (node 9 10))) = Some (P', if autoVacuum (pBt (page_of 2 index_ops)) then no_map P' (node 9 10 ++ [5]) else 0) ∧ page_is P' ([node 1 20] ++ node 9 10 :: [node 2 30]) ∧ ovfl P' = ovfl (page_of 2 index_ops)) ∧
  (∃ P', insertCell 0 no_map (page_of 2 index_ops) (Z.of_nat (length [node 1 20])) (node 9 10 ++ [5]) (Z.of_nat (length (node 9 10))) None 77 = Some (P', if autoVacuum (pBt (page_of 2 index_ops)) then no_map P' (node 9 10 ++ [5]) else 0) ∧ page_is P' ([node 1 20] ++ (be4 77 ++ drop 4 (node 9 10)) :: [node 2 30])) ∧
  insertCellFast 0 no_map (page_of 13 history) (Z.of_nat (length (@nil bytes))) (row 3 120 ++ []) (Z.of_nat (length (row 3 120))) = Some (set_ovfl (page_of 13 history) (ovfl (page_of 13 history) ++ [(u16 (Z.of_nat (length (@nil bytes))), row 3 120 ++ [])]), 0).
Proof.
  split; [|split].
  - refine (proj1 (page_insert no_map (page_of 2 index_ops) [node 1 20] [node 2 30] (node 9 10) [5] page_index_is node_ok) _). vm_compute. discriminate.
  - refine (proj1 (proj2 (page_insert no_map (page_of 2 index_ops) [node 1 20] [node 2 30] (node 9 10) [5] page_index_is node_ok)) _ _ _ None 77); vm_compute; [discriminate|reflexivity..].
  - refine (proj1 (proj2 (proj2 (page_insert no_map (page_of 13 history) [] cells_512 (row 3 120) [] page_512_is row_ok))) _ _ 0); vm_compute; reflexivity.
Defined.

Lemma page_drop_witness : ∃ P', dropCell (page_of 13 history) (Z.of_nat (length [row 7 40; row 9 58])) (Z.of_nat (length (row 5 64))) 0 = Some (P', 0) ∧
  page_is P' ([row 7 40; row 9 58] ++ [row 4 100; row 8 100]) ∧ nFree P' = nFree (page_of 13 history) + Z.of_nat (length (row 5 64)) + 2 ∧ ovfl P' = ovfl (page_of 13 history).
Proof. exact (proj1 (page_drop (page_of 13 history) [row 7 40; row 9 58] [row 4 100; row 8 100] (row 5 64) page_512_is)). Defined.

Lemma page_defragment_witness : ∃ P' top frag, defragmentPage (page_of 13 history) 1 = Some (P', 0) ∧ page_is P' cells_512 ∧ get2byte (aData P') (hdrOffset (page_of 13 history) + 1) = Some 0 ∧ get2byte (aData P') (hdrOffset (page_of 13 history) + 5) = Some (u16 top) ∧
  rd (aData P') (hdrOffset (page_of 13 history) + 7) = Some frag ∧ (frag = 0 ∨ frag ≤ 1) ∧ top - cellOffset (page_of 13 history) - 2 * nCell (page_of 13 history) = nFree (page_of 13 history) - frag.
Proof. exact (page_defragment (page_of 13 history) cells_512 1 page_512_is). Defined.

Lemma page_allocate_free_witness : ∃ P1 idx P2, allocateSpace (page_of 2 index_ops) 100 = Some (P1, 0, idx) ∧ cellOffset (page_of 2 index_ops) + 2 * nCell (page_of 2 index_ops) + 2 ≤ idx ∧ idx + 100 ≤ usableSize (pBt (page_of 2 index_ops)) ∧
    (∀ i c, [node 1 20; node 2 30] !! i = Some c → ∃ o, get2byte (aData P1) (cellOffset (page_of 2 index_ops) + 2 * Z.of_nat i) = Some o ∧ sub (aData P1) o (Z.of_nat (length c)) = Some c ∧ (idx + 100 ≤ o ∨ o + Z.of_nat (length c) ≤ idx)) ∧
    freeSpace P1 idx 100 = Some (P2, 0) ∧ nFree P2 = nFree (page_of 2 index_ops) + 100 ∧ page_is (set_nFree P2 (nFree (page_of 2 index_ops))) [node 1 20; node 2 30].
Proof. refine (page_allocate_free (page_of 2 index_ops) [node 1 20; node 2 30] 100 page_index_is _ _); vm_compute; discriminate. Defined.

Lemma page_reload_witness : ∃ P1, btreeInitPage (set_data raw_512 (aData (page_of 13 history))) = Some (P1, 0) ∧ nFree P1 = -1 ∧ btreeComputeFreeSpace P1 = Some (page_of 13 history, 0).
Proof. refine (page_reload (page_of 13 history) cells_512 (set_data raw_512 (aData (page_of 13 history))) page_512_is _ _ _ _ _); vm_compute; reflexivity. Defined.

End BtreePage.
